(* ===== verification/_CoqProject ===== *)
-Q . S2P
Prelude.v
Queue.v
Msgbus.v
Luadb2.v
Network.v
NetworkProofs.v
NetworkQueues.v
NetworkInfo.v
Timer.v
RtosTimer.v
Mutex.v
RtosTask.v
LuacReport.v
Cmds.v
CmdsProofs.v
CmdsProject.v
Uart.v
Tp.v
Heap.v
Fskv.v
Mock.v
Gpio.v
Mobile.v
LuacProofs.v
LuacClaims.v
Gtfont.v
Log.v
Ch347.v
Buses.v
Mcu.v
Media.v
Audio.v
WinHost.v
Boot.v
Stubs.v
Memp.v
SysArch.v
Timeouts.v
TimeoutsSpec.v
TimeoutsRun.v
Tcpip.v
TcpipLoop.v
Pbuf.v
PbufPacket.v
PbufWrite.v
PbufCopy.v
LwipDef.v
Chksum.v
LwipMem.v
LwipMemProofs.v
LwipMemSpec.v
PbufAlloc.v
PbufLife.v
PbufStore.v
PbufClients.v
Ip4Addr.v
Ip4Frag.v
Ip4FragSpec.v
Ip4FragRep.v
Ip4FragRun.v
Ip4FragStep.v
PbufRealloc.v
Ip4FragClaims.v
Ip6Addr.v
Ip6Text.v
Ip6Parse.v
Linked.v
Udp.v
Raw.v
UdpProofs.v
UdpCalls.v
UdpInput.v
RawProofs.v
RawClaims.v
Ip4Input.v
Ip4InputProofs.v
