(* ===== verification/Prelude.v ===== *)
(** * LuatOS-PC: a verification library

    LuatOS-PC runs the LuatOS firmware core (a Lua VM with device libraries) on
    a desktop: the C sources replace the device layer by timers, threads and
    sockets of libuv, by simulated peripherals, and by a command line that turns
    Lua sources into the image the core boots from; it carries a copy of the lwip
    TCP/IP stack.  The development models that layer and the core of the stack,
    component by component, as executable functions on byte lists, integers of
    their width and explicit object stores, and proves what each component
    promises.

    ** The program and the files that model it

    Paths are relative to the sources; a definition has the name of the C
    function it translates wherever it translates one.

    - [Prelude]: outcomes of C code ([res]: a value or a fault), machine
      integers, byte strings and buffers ([load], [store]), heaps ([HeapOps] with
      its laws [HeapLaws]; [Allocator] for object stores), the tactics.
    - Messages.  [Queue] (port/rtos/luat_queue_pc.c): the intrusive linked list
      on an object store.  [Msgbus] (port/rtos/luat_msgbus_pc.c): the bus from
      every callback to the Lua main loop.  [RtosTask]
      (port/rtos/luat_rtos_task_pc.c): events and messages of tasks, on the same
      queue.
    - Time and locks.  [Timer] (luat_timer_pc.c): the handle table of the Lua
      timers.  [RtosTimer] (luat_rtos_timer_pc.c): timers of native code.
      [Mutex] (luat_rtos_mutex_pc.c): mutexes, as a step relation over threads.
      All in port/rtos.
    - Network adapter (port/network/luat_network_adapter_libuv.c).  [Network]:
      eight socket slots, the calls from above and the callbacks of libuv below;
      [NetworkProofs], [NetworkQueues]: its properties; [NetworkInfo]: names and
      addresses.
    - Images and the command line.  [Luadb2] (port/luat_luadb2.c): the image
      builder.  [Cmds] (port/luat_cmds.c): arguments, files, directories, project
      files; [CmdsProofs], [CmdsProject]: its properties.
    - Bytecode analyser (port/luat_luac_report.c).  [LuacReport]: the loader, the
      statistics; [LuacProofs]: a program logic for loaders and the chunk format;
      [LuacClaims]: whole files, termination, statistics, memory.
    - Storage.  [Heap] (port/luat_malloc_mini.c); [Fskv] (port/luat_fskv_pc.c
      and the block devices of port/luat_fs_mini.c).
    - Peripherals.  [Gpio] (port/driver/luat_gpio_pc.c, port/gpio, port/luat_ztt.c);
      [Uart] (port/driver/luat_uart_pc.c, port/uart); [Tp]
      (port/driver/luat_tp_pc.c); [Mock] (port/mock/luat_mock.c and the ADC, PWM,
      watchdog and power drivers behind it); [Mobile] (port/luat_mobile_pc.c).
      [Ch347] (port/driver/luat_ch347_pc.c): the USB adapter; [Buses]: SPI buses
      and devices, I2C and I2S (luat_spi_pc.c, luat_spi_device.c, luat_i2c_pc.c,
      luat_i2s_pc.c) on the adapter and on [Gpio].  [Stubs]: what is answered
      without a device.
    - Sound and text.  [Media] (ffmpeg_x86/ffmpeg.c, luat_ffmpeg_play_file): one
      file; [Audio] (the rest of that file, port/driver/luat_audio_pc.c): the
      libraries and lists of files.  [Gtfont] (port/luat_gtfont_pc.c): characters
      as bitmaps.  [Log] (port/luat_log_mini.c).
    - The host and start-up.  [Mcu] (luat_mcu_pc.c, luat_rtc_pc.c): clock and
      identifier; [WinHost] (port/luat_console_win32.c, port/uart/uart_drv_win32.c):
      console and real serial ports; [Boot] (src/main_mini.c, luat_pcconf_pc.c,
      luat_fs_mini.c, luat_base_mini.c): the program from its arguments to the Lua
      core.
    - The lwip stack: its runtime.  [Memp] (lwip/core/memp.c): pools of fixed
      elements.  [LwipMem] (lwip/core/mem.c): the heap, an array of blocks that
      hold each other's offsets; [LwipMemProofs]: the chain of blocks;
      [LwipMemSpec]: the heap as a set of allocations.  [SysArch] (the port's
      sys_arch.c): mailboxes, semaphores, the lock of the core.  [Timeouts]
      (lwip/core/timeouts.c): the sorted list of deadlines; [TimeoutsSpec],
      [TimeoutsRun]: its schedule and the cyclic timers.  [Tcpip]
      (lwip/api/tcpip.c): what other threads ask of the stack's thread;
      [TcpipLoop]: the thread.
    - The lwip stack: its data.  [LwipDef] (lwip/core/def.c): byte orders and
      strings.  [Pbuf] (lwip/core/pbuf.c): chains of buffers on a store, headers,
      searching; [PbufPacket]: a chain as the bytes of a packet; [PbufWrite] and
      [PbufCopy]: writing and copying.  [PbufAlloc]: allocation and freeing, on
      [Memp] and [LwipMem]; [PbufLife]: reference counts; [PbufStore]: what
      freeing gives back; [PbufClients]: programs that use packets; [PbufRealloc]: cutting a
      packet.  [Chksum]
      (lwip/core/inet_chksum.c): checksums.  [Ip4Addr] (lwip/core/ipv4/ip4_addr.c):
      addresses and their text.  [Ip6Addr] (lwip/core/ipv6/ip6_addr.c, lwip/core/ip.c,
      netif_find of lwip/core/netif.c): addresses of version 6 and of either version;
      [Ip6Text]: printing against the reference text; [Ip6Parse]: parsing.
    - The lwip stack: fragments (lwip/core/ipv4/ip4_frag.c).  [Ip4Frag]: reassembly,
      with the chains of fragments in the bytes of the packets, as the C code lays
      them over the headers; [Ip4FragSpec]: datagrams as sorted lists of fragments, and
      delivery in any order; [Ip4FragRep]: such a list in memory; [Ip4FragRun] and
      [Ip4FragStep]: the state of the module, and each call against the
      specification; [Ip4FragClaims]: sessions with the rest of the stack.
    - The lwip stack: UDP (lwip/core/udp.c).  [Udp]: control blocks, ports, binding and
      incoming packets; [Linked]: lists that are linked through a store; [UdpProofs]: the
      walks over the list of control blocks; [UdpCalls]: calls of clients in any order;
      [UdpInput]: who gets a packet, on [PbufClients] and [Chksum].
    - The lwip stack: raw control blocks (lwip/core/raw.c).  [Raw]: what clients do, and
      incoming packets; [RawProofs]: the list, on [Linked], and who is offered a packet;
      [RawClaims]: sessions of clients.
    - The lwip stack: incoming IPv4 packets (lwip/core/ipv4/ip4.c, ip4_input).  [Ip4Input]:
      the checks, the choice of the interface, and the way up through [Ip4Frag], [Raw]
      and [Udp]; [Ip4InputProofs]: what becomes of a packet, from its bytes.

    The components meet as in the C code: callbacks of [Network], [Timer], [Uart]
    and [Audio] post messages of type [rtos_msg], which [Msgbus] carries; [RtosTask]
    and [Msgbus] share [Queue]; [Cmds] writes with [Luadb2] the image that
    [Boot] starts, and has [LuacReport] analyse it; [Buses] drives [Gpio] and [Ch347];
    the drivers of [Uart], one of them from [WinHost], are installed by [Boot].  Code outside the sources is a parameter: the LuatOS
    core, libuv (its results are inputs of the calls, callbacks are steps), the
    Lua VM and compiler, littlefs and the pool allocator (classes with laws:
    [LuaApi], [Lfs], [Bget]), the vendor libraries and Windows ([Ch347Dll], [UartDll],
    [Loader], [Console]), FreeType and the formatter ([FreeType], [Printf]), ffmpeg
    and SDL (the answers in [media]).  Each class has an instance that shows the laws can hold.

    ** What the theorems show

    - Refinement to a specification: the queue, the bus and the tasks' queue are
      FIFOs ([luat_msgbus_get_refines], [event_recv_refines]); a TCP slot is a
      byte stream and a UDP slot a queue of datagrams under every interleaving
      ([tcp_byte_stream], [udp_datagram_queue]); the key-value store is a finite
      map ([fskv_is_a_map]); the touch ring a bounded queue
      ([tp_session_refines]); the walk over a project file reads lines
      ([luatools_reads_lines]); both memory arrays are block devices
      ([memory_devices_implement]).  In the stack, a pool is a set of elements of
      which some are out ([memp_is_a_pool]), the heap a map of disjoint
      allocations that leave each other's bytes alone ([heap_refines]), a mailbox
      a bounded queue ([mailbox_is_bounded_queue]), the thread's mailbox a queue of
      jobs ([tcpip_is_a_job_queue]), the list of timeouts a set of deadlines
      served in order ([timeouts_refine]), and reassembly a list of datagrams with
      their fragments ([reassembly_refines]).
    - Composition: started with files, the program runs the Lua core on an image of
      exactly these files, which main itself does not mount ([boot_runs_files]), and what
      it runs follows from its arguments ([boot_decides]); a level set by the Lua side arrives at the pin of
      the adapter ([gpio_reaches_pin]), which keeps it until it is set again or turned
      into an input ([ch347_gpio_drives]: closing any pin takes all of them out of use, so
      that what is set later does not arrive); the bytes of an IPv4 packet decide
      who gets its data, through [pbuf_realloc_spec], [chksum_is_rfc1071]'s lemmas,
      [raw_input_spec] and [udp_input_ok] ([ip4_udp_delivered]).
    - Round trips: images are read back ([luadb_roundtrip],
      [cmd_parse_builds_image]); a dumped Lua program is recovered from the
      analyser's tables ([luac_roundtrip]); timers start, are found and stop
      ([timer_start_get_stop]); what is written into a packet is read out
      of it ([pbuf_take_at_copy_out], [pbuf_copy_copies]); the fragments of a datagram
      give it again, in any order ([reassembled_in_any_order]); a block that carries its
      checksum sums to zero ([chksum_verifies]); a printed address of either version is
      parsed ([ipaddr_print_parse]).
    - Types, invariants and safety over all runs: [bus_ops_typed],
      [nw_run_preserves_inv], [timers_memory_safe],
      [rtos_timer_cb_safe], [mutex_exclusion], [audio_libraries_resident]; resources
      are released on every path ([play_file_releases],
      [console_encoding_safe]) and a chip select brackets its transfers
      ([spi_device_brackets]).  No program that holds its packets by counted
      references frees one twice, loses one or reaches a freed one
      ([pbuf_life]); the core is entered only under its lock, whose statements threads
      interleave ([core_lock_checked]); a tag whose slot was given away moves nothing
      ([stale_tag_refused], call by call: three calls answer 0 without looking at it); no two UDP control blocks are bound to the same
      address and port ([udp_ports_exclusive]).
    - Functional behaviour, equivalence and termination: [create_socket_spec],
      [timer_fires_repeat_plus_one], [group_report_counts_distinct],
      [play_multi_files_done], [get_font_draws], [fonts_agree],
      [luac_report_file_terminates], [unique_id_terminates]; the three checksum
      routines compute the sum of RFC 1071 ([chksum_is_rfc1071]), the heap refuses
      only what fits in no gap ([malloc_refuses_only_full]), a search in a packet
      finds the first occurrence ([pbuf_strstr_finds]), a UDP packet goes to the control
      block that its addresses and ports select ([udp_input_delivers]), raw control blocks
      are offered a packet in turn ([raw_clients_offered]), and the thread serves
      timers and messages both ([mbox_fetch_serves_both], [timers_never_stop]).
    - Exact limits, where the code has one: [get_imei_spec], [log_log_prints],
      [uart_udp_receive]; releasing what is no block of the heap, or one that is not in
      use, aborts ([mem_free_illegal], [mem_free_unused]); as lemmas [libuv_dns_bounds], [file_name_behind],
      [heap_free_releases], [os_bsp_name].
    - Defects, stated for the code as it is: [udp_receive_empty_faults],
      [mutex_race_deadlocks], [syntax_error_aborts], [report_crashes] (the report of
      --report=1), [fskv_size_overflows] (a value that is longer than four bytes),
      [main_mounts_no_image], [imei_digit_not_luhn]; as lemmas
      [failed_connect_keeps_slot], [new_socket_reads_old_bytes],
      [message_recv_event_overflows], [event_recv_discards], [report_never_fits],
      [luadb_long_name_overflows], [uart_write_udp_repeats],
      [mock_later_answers_stale], [gpio_set_traces], [i2c_transfer_frame],
      [gpio_close_drops_all], [stop_twice_releases_twice], [longer_than_it_says],
      [lone_last_zero_faults], [long_block_accepted], [address_change_meets] and others beside the
      code they are about.

    ** Memory

    The C heap is a pool of 1 MiB ([Heap]); elsewhere a heap is a parameter
    ([HeapOps]) that may refuse any request.  Where the code tests the pointer the
    theorems cover both answers: [luat_msgbus_get_refines] lets each post find
    memory or not, [event_recv_refines] has the receiver without a block (and lets the
    sender crash where event_send does not test), [tcp_byte_stream] states per arrival
    what becomes of it, and the pools of the stack are modelled with their sizes.  Where
    the code does not test it, a theorem about its result assumes the blocks it needs:
    [luac_roundtrip] lists their sizes (the report itself, two megabytes, is never among
    the blocks the program's pool can serve: [report_never_fits]);
    [cmd_parse_builds_image] and [boot_runs_files] take any limit within the pool,
    files and an image with its slack up to that limit, and a heap that serves each
    block up to the limit (what several blocks that are in use at once add up to is not
    counted); [fskv_is_a_map] assumes the buffers littlefs itself allocates.

    ** Bounds and fuel

    Loops over data are structural.  [push_walk] takes the size of the store as
    fuel, which is more than the length of a queue in it ([queue_at_size]).  The
    waiting loops of [Msgbus] and [RtosTask] are indexed by what the other
    threads do in each round; the refinements give the length that suffices.
    [uart_write_loop] has one round per 512 bytes and gets that many;
    [count_entries] has the number of directory entries as an argument
    ([fskv_stat_counts]).
    [LoadFunction] is bounded by the nesting of functions:
    [luac_report_file_terminates] shows that the number of bytes in the file is
    always enough.  [unique_id_loop] reads one line per round:
    [unique_id_terminates] gives the number that suffices, and shows when none
    does.  [print_u] prints at most 20 digits, enough for 64 bits.

    In the stack, walks over packets take the size of the store as fuel
    ([chain_fuel], [copy_fuel]), more than a chain in it is long, and a search has
    one round per offset of the longest packet ([MEMFIND_FUEL]).  The heap of 10240
    bytes has no block below 20 bytes, so [BLOCK_FUEL] (514) exceeds the number of
    blocks.  [CHECK_FUEL] lets each of the seventeen timers run twice in a check.
    Reassembly walks its list of datagrams with the number of entries in use as fuel;
    [reassembly_refines] includes that no walk runs out.
    [lwip_itoa] prints at most 20 digits; a netmask has 32 bits; an address of version 6
    has eight blocks, so that a double colon stands for at most eight
    ([zero_run] has nine rounds).  Walks over UDP control blocks take the number of
    those that are allocated ([udp_fuel]), the choice of a port the number of ports;
    [udp_ports_exclusive] includes that no walk runs out.  So do walks over raw control
    blocks ([raw_fuel], [raw_clients_offered]).

    ** What is not modelled

    The protocols of lwip but for the input of IPv4, reassembly, raw control blocks and UDP
    (the routing and output of IP, the input of IPv6, ICMP, IGMP, ARP, TCP, DHCP, DNS, PPP),
    its network interfaces and sockets: the program's own network adapter does not use
    them.  [ip4_input] hands packets for TCP, ICMP and IGMP to a log ([inote]); the groups an
    interface has joined are a parameter.  Of udp.c and raw.c the sending halves build on
    the output of IP and are left out, whether a raw client takes a packet is a
    parameter, and the interface that routing finds for an address without
    a zone is a parameter ([ip6_route]).  Of ip4_frag.c the sending half, whose buffers refer into
    the packet of the caller, is left out; the ICMP message about a datagram that
    timed out is a record in a log ([rnote]).  The Lua front end, the headers of ffmpeg, CH347 and
    mbedtls, the generated array of the linked image, and compile-time settings.
    The empty functions at the ends of the driver files (luat_mcu_pc.c,
    luat_audio_pc.c, luat_spi_pc.c, luat_i2s_pc.c) have no definition of their
    own.  Of threads only the mutex, the tasks' queue and the touch ring's two
    sides are interleaved; the other components run on the libuv loop's thread,
    call by call. *)

From stdpp Require Export base numbers option list gmap strings.
#[export] Set Default Goal Selector "!".
Global Open Scope Z_scope.

(** ** C outcomes

    A C function either returns a value or reaches a behaviour the language
    leaves undefined; the model keeps the two apart, so that memory safety is a
    theorem about the outcome and not an assumption of the model. *)

Inductive fault : Type :=
  | OutOfBounds   (* an access outside the object it points into *)
  | NullDeref     (* an access through a null pointer *)
  | BadPointer    (* an access through a pointer to no live object *)
  | Aborted       (* the process ends in [abort] *)
  | OutOfFuel.    (* not a C fault: the model's loop bound was reached *)

Inductive res (A : Type) : Type :=
  | Ok (a : A)
  | Fault (f : fault).
Arguments Ok {A} _.
Arguments Fault {A} _.

#[global] Instance fault_eq_dec : EqDecision fault.
Proof. solve_decision. Defined.
#[global] Instance res_eq_dec `{EqDecision A} : EqDecision (res A).
Proof. solve_decision. Defined.

#[global] Instance res_ret : MRet res := @Ok.
#[global] Instance res_bind : MBind res := λ A B f m,
  match m with Ok a => f a | Fault e => Fault e end.
#[global] Instance res_fmap : FMap res := λ A B f m,
  match m with Ok a => Ok (f a) | Fault e => Fault e end.

(** [oget e o]: read through an optional object, faulting with [e]. *)
Definition oget {A} (e : fault) (o : option A) : res A :=
  match o with Some a => Ok a | None => Fault e end.

Lemma res_bind_Ok {A B} (m : res A) (f : A → res B) b :
  m ≫= f = Ok b ↔ ∃ a, m = Ok a ∧ f a = Ok b.
Proof. destruct m; simpl; naive_solver. Qed.

Lemma res_fmap_Ok {A B} (m : res A) (f : A → B) b :
  f <$> m = Ok b ↔ ∃ a, m = Ok a ∧ f a = b.
Proof. destruct m; simpl; naive_solver. Qed.

Lemma oget_Ok {A} e (o : option A) a : oget e o = Ok a ↔ o = Some a.
Proof. destruct o; simpl; naive_solver. Qed.

(** ** Machine integers: a [w]-bit integer is a [Z] and the wrap-around is
    written out where the C code can wrap. *)

Definition wrapu (w z : Z) : Z := z mod 2 ^ w.
Definition wraps (w z : Z) : Z := (z + 2 ^ (w - 1)) mod 2 ^ w - 2 ^ (w - 1).
Abbreviation u8 := (wrapu 8).
Abbreviation u16 := (wrapu 16).
Abbreviation u32 := (wrapu 32).
Abbreviation u64 := (wrapu 64).
Abbreviation i32 := (wraps 32).

Lemma wrapu_range w z : 0 <= w → 0 <= wrapu w z < 2 ^ w.
Proof. intros. apply Z.mod_pos_bound. by apply Z.pow_pos_nonneg. Qed.

Lemma wrapu_small w z : 0 <= z < 2 ^ w → wrapu w z = z.
Proof. apply Z.mod_small. Qed.

Lemma wraps_range w z : 0 < w → - 2 ^ (w - 1) <= wraps w z < 2 ^ (w - 1).
Proof.
  intros. unfold wraps.
  pose proof (Z.mod_pos_bound (z + 2 ^ (w - 1)) (2 ^ w)).
  assert (2 ^ w = 2 * 2 ^ (w - 1)) as E.
  { rewrite <- Z.pow_succ_r by lia. f_equal. lia. }
  assert (0 < 2 ^ w) by (apply Z.pow_pos_nonneg; lia). lia.
Qed.

Lemma wraps_small w z :
  0 < w → - 2 ^ (w - 1) <= z < 2 ^ (w - 1) → wraps w z = z.
Proof.
  intros Hw Hz. unfold wraps. rewrite Z.mod_small; [lia|].
  assert (2 ^ w = 2 * 2 ^ (w - 1)) as E.
  { rewrite <- Z.pow_succ_r by lia. f_equal. lia. }
  lia.
Qed.

(** The build produces 32-bit and 64-bit executables, on Windows and on the
    other systems; what depends on it takes the platform as an argument. *)
Class Platform : Type := {
  ptr_bytes : Z;
  ptr_bytes_cases : ptr_bytes = 4 ∨ ptr_bytes = 8;
  windows : bool;
}.

Definition sizet_bits `{Platform} : Z := 8 * ptr_bytes.

Definition linux32 : Platform :=
  {| ptr_bytes := 4; ptr_bytes_cases := or_introl eq_refl; windows := false |}.
Definition linux64 : Platform :=
  {| ptr_bytes := 8; ptr_bytes_cases := or_intror eq_refl; windows := false |}.
Definition windows32 : Platform :=
  {| ptr_bytes := 4; ptr_bytes_cases := or_introl eq_refl; windows := true |}.

(** ** Bytes and byte strings *)

Definition is_byte (b : Z) : Prop := 0 <= b < 256.

Lemma u8_is_byte z : is_byte (u8 z).
Proof. apply (wrapu_range 8). lia. Qed.

(** The bytes of a string literal (ASCII). *)
Fixpoint bytes (s : string) : list Z :=
  match s with
  | EmptyString => []
  | String c s' => Z.of_N (Ascii.N_of_ascii c) :: bytes s'
  end.

(** [cstr m]: the C string that starts at the first byte of [m], up to the
    first NUL ([strlen] and friends read exactly these bytes). *)
Fixpoint cstr (m : list Z) : list Z :=
  match m with
  | [] => []
  | b :: m' => if b =? 0 then [] else b :: cstr m'
  end.

Definition no_nul (s : list Z) : Prop := Forall (λ b, b ≠ 0) s.

Lemma cstr_app s m : no_nul s → cstr (s ++ 0 :: m) = s.
Proof.
  induction 1 as [|b s Hb Hs IH]; simpl; [done|].
  destruct (Z.eqb_spec b 0); [done|]. by rewrite IH.
Qed.

Lemma cstr_no_nul m : no_nul (cstr m).
Proof.
  induction m as [|b m IH]; simpl; [constructor|].
  destruct (Z.eqb_spec b 0); [constructor|]. by constructor.
Qed.

(** The C string in an array of bytes; reading one that is not terminated runs
    off the end of the array. *)
Definition c_string (buf : list Z) : res (list Z) :=
  if existsb (λ b, b =? 0) buf then Ok (cstr buf) else Fault OutOfBounds.

Lemma no_nul_existsb s : no_nul s → existsb (λ b, b =? 0) s = false.
Proof.
  induction 1 as [|b s Hb Hs IH]; simpl; [done|]. rewrite IH.
  by destruct (Z.eqb_spec b 0).
Qed.

Lemma c_string_app s m : no_nul s → c_string (s ++ 0 :: m) = Ok s.
Proof.
  intros Hs. unfold c_string. rewrite existsb_app. simpl.
  by rewrite orb_true_r, cstr_app.
Qed.

Lemma c_string_pad s n :
  no_nul s → (0 < n)%nat → c_string (s ++ replicate n 0) = Ok s.
Proof. intros Hs Hn. destruct n as [|n]; [lia|]. by apply c_string_app. Qed.

Lemma c_string_unterminated s : no_nul s → c_string s = Fault OutOfBounds.
Proof. intros Hs. unfold c_string. by rewrite no_nul_existsb. Qed.

(** The decimal digits ["%llu"] and ["%d"] print for a natural number below
    [10 ^ fuel]; all printed integers have at most 20. *)
Fixpoint dec_digits (fuel : nat) (n : Z) : list Z :=
  match fuel with
  | O => []
  | S fuel => (if n <? 10 then [] else dec_digits fuel (n / 10)) ++ [48 + n mod 10]
  end.
Definition print_u (n : Z) : list Z := dec_digits 20 n.

Definition is_digit (c : Z) : Prop := 48 <= c <= 57.

Lemma dec_digits_max fuel : ∀ n, (length (dec_digits fuel n) <= fuel)%nat.
Proof.
  induction fuel as [|fuel IH]; intros n; cbn [dec_digits]; [simpl; lia|].
  rewrite length_app. specialize (IH (n / 10)). case_match; simpl; lia.
Qed.

Lemma dec_digits_digits fuel : ∀ n, Forall is_digit (dec_digits fuel n).
Proof.
  induction fuel as [|fuel IH]; intros n; cbn [dec_digits]; [constructor|].
  apply Forall_app_2; [case_match; [constructor|apply IH]|].
  constructor; [|constructor]. unfold is_digit. pose proof (Z.mod_pos_bound n 10). lia.
Qed.

Lemma length_dec_digits k : ∀ fuel n,
  (k < fuel)%nat → 10 ^ Z.of_nat k <= n < 10 ^ Z.of_nat (S k) →
  length (dec_digits fuel n) = S k.
Proof.
  induction k as [|k IH]; intros [|fuel] n Hf Hn; [lia| |lia|]; cbn [dec_digits];
    rewrite length_app.
  - simpl in Hn. destruct (Z.ltb_spec n 10); [done|lia].
  - rewrite !Nat2Z.inj_succ, !Z.pow_succ_r in Hn by lia.
    pose proof (Z.pow_pos_nonneg 10 (Z.of_nat k)).
    destruct (Z.ltb_spec n 10); [lia|]. rewrite (IH fuel); [simpl; lia|lia|].
    rewrite Nat2Z.inj_succ, Z.pow_succ_r by lia.
    split; [apply Z.div_le_lower_bound; lia|apply Z.div_lt_upper_bound; lia].
Qed.

Lemma is_digit_nonzero s : Forall is_digit s → no_nul s.
Proof. intros Hs. eapply Forall_impl; [exact Hs|]. unfold is_digit. simpl. lia. Qed.

(** Little-endian integers. *)
Fixpoint le_bytes (n : nat) (z : Z) : list Z :=
  match n with
  | O => []
  | S n' => z mod 256 :: le_bytes n' (z / 256)
  end.

Fixpoint le_val (l : list Z) : Z :=
  match l with
  | [] => 0
  | b :: l' => b + 256 * le_val l'
  end.

Lemma length_le_bytes n z : length (le_bytes n z) = n.
Proof. revert z. induction n; intros; simpl; by rewrite ?IHn. Qed.

Lemma le_bytes_is_byte n z : Forall is_byte (le_bytes n z).
Proof.
  revert z. induction n as [|n IH]; intros; simpl; constructor; [|done].
  by apply Z.mod_pos_bound.
Qed.

Lemma le_val_le_bytes n z :
  0 <= z < 256 ^ Z.of_nat n → le_val (le_bytes n z) = z.
Proof.
  revert z. induction n as [|n IH]; intros z Hz.
  { simpl in *. lia. }
  cbn [le_bytes le_val]. rewrite IH.
  - pose proof (Z.div_mod z 256). lia.
  - rewrite Nat2Z.inj_succ, Z.pow_succ_r in Hz by lia.
    split; [apply Z.div_pos; lia|]. apply Z.div_lt_upper_bound; lia.
Qed.

Lemma le_bytes_le_val l :
  Forall is_byte l → le_bytes (length l) (le_val l) = l.
Proof.
  induction 1 as [|b l Hb Hl IH]; [done|].
  cbn [length le_bytes le_val]. unfold is_byte in Hb. f_equal.
  - rewrite Z.mul_comm, Z.mod_add by lia. by apply Z.mod_small.
  - rewrite Z.mul_comm, Z.div_add by lia.
    rewrite Z.div_small by lia. by rewrite Z.add_0_l.
Qed.

Lemma le_val_range l :
  Forall is_byte l → 0 <= le_val l < 256 ^ Z.of_nat (length l).
Proof.
  induction 1 as [|b l Hb Hl IH]; [simpl; lia|].
  cbn [length le_val]. unfold is_byte in Hb.
  rewrite Nat2Z.inj_succ, Z.pow_succ_r by lia. lia.
Qed.

(** ** Byte buffers

    A buffer is the list of the bytes of one allocated object; an access that
    does not fit inside it is a fault. *)

Definition load (buf : list Z) (off n : nat) : res (list Z) :=
  if decide (off + n <= length buf)%nat
  then Ok (take n (drop off buf)) else Fault OutOfBounds.

Definition store (buf : list Z) (off : nat) (d : list Z) : res (list Z) :=
  if decide (off + length d <= length buf)%nat
  then Ok (take off buf ++ d ++ drop (off + length d) buf)
  else Fault OutOfBounds.

Lemma store_Ok buf off d :
  (off + length d <= length buf)%nat →
  store buf off d = Ok (take off buf ++ d ++ drop (off + length d) buf).
Proof. intros. unfold store. by rewrite decide_True. Qed.

Lemma store_oob buf off d :
  (length buf < off + length d)%nat → store buf off d = Fault OutOfBounds.
Proof. intros. unfold store. rewrite decide_False; [done|lia]. Qed.

Lemma load_Ok buf off n :
  (off + n <= length buf)%nat → load buf off n = Ok (take n (drop off buf)).
Proof. intros. unfold load. by rewrite decide_True. Qed.

Lemma load_oob buf off n :
  (length buf < off + n)%nat → load buf off n = Fault OutOfBounds.
Proof. intros. unfold load. rewrite decide_False; [done|lia]. Qed.

Lemma store_length buf off d buf' :
  store buf off d = Ok buf' → length buf' = length buf.
Proof.
  unfold store. case_decide; intros [= <-].
  rewrite !length_app, length_take, length_drop. lia.
Qed.

Lemma load_inv buf off n d :
  load buf off n = Ok d → take n (drop off buf) = d ∧ (off + n <= length buf)%nat.
Proof. unfold load. case_decide; intros E; [|discriminate E]. by injection E. Qed.

Lemma load_length buf off n d : load buf off n = Ok d → length d = n.
Proof.
  unfold load. case_decide; intros [= <-].
  rewrite length_take, length_drop. lia.
Qed.

(** Storing at the end of a prefix extends the prefix: the workhorse of the
    code that fills a buffer front to back. *)
Lemma store_extend pre rest d :
  (length d <= length rest)%nat →
  store (pre ++ rest) (length pre) d = Ok ((pre ++ d) ++ drop (length d) rest).
Proof.
  intros. rewrite store_Ok; [|rewrite length_app; lia]. f_equal.
  by rewrite take_app_length, <- app_assoc, <- drop_drop, drop_app_length.
Qed.

Lemma store_fill n pre rest d :
  n = length pre → (length d <= length rest)%nat →
  store (pre ++ rest) n d = Ok ((pre ++ d) ++ drop (length d) rest).
Proof. intros ->. apply store_extend. Qed.

(** Filling a block of the right size. *)
Lemma store_whole b d : length b = length d → store b 0 d = Ok d.
Proof. intros Hl. rewrite store_Ok by lia. by rewrite take_0, drop_ge, app_nil_r by lia. Qed.

Lemma store_byte buf i b :
  (i < length buf)%nat → store buf i [b] = Ok (<[i := b]> buf).
Proof.
  intros. rewrite store_Ok by (simpl; lia). f_equal.
  rewrite insert_take_drop by done. simpl. do 3 f_equal. lia.
Qed.

(** The two outcomes of a store. *)
Lemma store_cases buf off d :
  (∃ b', store buf off d = Ok b' ∧ length b' = length buf ∧
     (off + length d <= length buf)%nat) ∨
  (store buf off d = Fault OutOfBounds ∧ (length buf < off + length d)%nat).
Proof.
  destruct (decide (off + length d <= length buf)%nat) as [Hd|Hd].
  - left. rewrite store_Ok by done. eexists. split; [done|]. split; [|done].
    eapply store_length. by apply store_Ok.
  - right. split; [apply store_oob|]; lia.
Qed.

Lemma store_load buf off d buf' :
  store buf off d = Ok buf' → load buf' off (length d) = Ok d.
Proof.
  intros Hs. pose proof (store_length _ _ _ _ Hs) as Hl. revert Hs.
  unfold store. case_decide; intros [= <-]. rewrite load_Ok by lia. f_equal.
  rewrite drop_app_ge by (rewrite length_take; lia).
  rewrite length_take, Nat.min_l by lia. rewrite Nat.sub_diag, drop_0.
  apply take_app_length.
Qed.

Lemma store_load_ne buf off d buf' off' n :
  store buf off d = Ok buf' →
  (off' + n <= off ∨ off + length d <= off')%nat →
  load buf' off' n = load buf off' n.
Proof.
  intros Hs Hd. pose proof (store_length _ _ _ _ Hs) as Hl.
  unfold load. rewrite Hl. case_decide as Hin; [|done]. f_equal.
  revert Hs. unfold store. case_decide; intros [= <-].
  destruct Hd as [Hd|Hd].
  - rewrite drop_app_le by (rewrite length_take; lia).
    rewrite take_app_le by (rewrite length_drop, length_take; lia).
    by rewrite skipn_firstn_comm, take_take, Nat.min_l by lia.
  - rewrite drop_app_ge by (rewrite length_take; lia).
    rewrite length_take, Nat.min_l by lia.
    rewrite drop_app_ge by lia. rewrite drop_drop. do 2 f_equal. lia.
Qed.

Arguments load : simpl never.
Arguments store : simpl never.

(** ** Object stores

    The heap objects a component links together are the entries of a finite
    map from addresses; [luat_heap_malloc] is the allocator of
    port/luat_malloc_mini.c, of which a client only uses that a non-null result
    is a fresh object. *)

Class Allocator (V : Type) : Type := {
  malloc : gmap Z V → Z → option Z;
  malloc_fresh : ∀ h n a, malloc h n = Some a → h !! a = None ∧ a ≠ 0;
}.

(** An allocator that never fails: the next address after all used ones. *)
Definition bump_addr {V} (h : gmap Z V) : Z :=
  foldr Z.max 0 (map fst (map_to_list h)) + 1.

Lemma bump_addr_fresh {V} (h : gmap Z V) : h !! bump_addr h = None.
Proof.
  unfold bump_addr. destruct (h !! _) as [v|] eqn:E; [|done]. exfalso.
  apply elem_of_map_to_list in E.
  assert (∀ l : list (Z * V), ∀ p, p ∈ l → p.1 <= foldr Z.max 0 (map fst l)) as Hmax.
  { induction l as [|[a w] l IH]; intros p; [set_solver|].
    rewrite elem_of_cons. intros [->|Hp]; simpl; [lia|].
    specialize (IH p Hp). lia. }
  apply Hmax in E. simpl in E. lia.
Qed.

Lemma bump_addr_pos {V} (h : gmap Z V) : bump_addr h ≠ 0.
Proof.
  unfold bump_addr.
  assert (∀ l : list Z, 0 <= foldr Z.max 0 l) as Hpos.
  { induction l as [|b l IH]; cbn; lia. }
  pose proof (Hpos (map fst (map_to_list h))). lia.
Qed.

Program Definition bump_allocator (V : Type) : Allocator V :=
  {| malloc h n := Some (bump_addr h) |}.
Next Obligation.
  intros V h n a [= <-]. split; [apply bump_addr_fresh|apply bump_addr_pos].
Qed.

(** The same, for at most [k] objects. *)
Program Definition bounded_allocator (k : nat) (V : Type) : Allocator V :=
  {| malloc h n := if decide (size h < k)%nat then Some (bump_addr h) else None |}.
Next Obligation.
  intros k V h n a E. cbn in E. destruct (decide (size h < k)%nat); [|done]. injection E as <-. split; [apply bump_addr_fresh|apply bump_addr_pos].
Qed.

(** ** Plain blocks of bytes

    The allocator of port/luat_malloc_mini.c as seen by the code that asks it
    for one buffer: [None] is the null pointer. *)

Class HeapOps : Type := {
  heap_malloc : Z → option (list Z);
  heap_realloc : list Z → Z → option (list Z);
}.

(** What the clients rely on: a block has the requested size, and resizing it
    keeps the bytes that fit. *)
Class HeapLaws `{HeapOps} : Prop := {
  heap_malloc_length : ∀ n b, heap_malloc n = Some b → Z.of_nat (length b) = n;
  heap_realloc_length : ∀ b n b',
    heap_realloc b n = Some b' → Z.of_nat (length b') = n;
  heap_realloc_keeps : ∀ b n b' k,
    heap_realloc b n = Some b' → (k <= length b)%nat → Z.of_nat k <= n →
    take k b' = take k b;
}.

(** A heap of [limit] bytes per block, zero-filled ([luat_bgetz]). *)
Definition zero_heap (limit : Z) : HeapOps := {|
  heap_malloc n :=
    if decide (0 <= n <= limit) then Some (replicate (Z.to_nat n) 0) else None;
  heap_realloc b n :=
    if decide (0 <= n <= limit)
    then Some (take (Z.to_nat n) b ++ replicate (Z.to_nat n - length b) 0)
    else None;
|}.

Lemma zero_heap_laws limit : @HeapLaws (zero_heap limit).
Proof.
  split; simpl.
  - intros n b. case_decide; intros [= <-]. rewrite length_replicate. lia.
  - intros b n b'. case_decide; intros [= <-].
    rewrite length_app, length_take, length_replicate. lia.
  - intros b n b' k. case_decide; intros [= <-] Hk Hn.
    rewrite take_app_le by (rewrite length_take; lia).
    rewrite take_take. f_equal. lia.
Qed.

(** A heap without limit, zero-filled. *)
Definition big_heap : HeapOps := {|
  heap_malloc n := if decide (0 <= n) then Some (replicate (Z.to_nat n) 0) else None;
  heap_realloc b n :=
    if decide (0 <= n)
    then Some (take (Z.to_nat n) b ++ replicate (Z.to_nat n - length b) 0) else None;
|}.

Lemma big_heap_laws : @HeapLaws big_heap.
Proof.
  split; simpl.
  - intros n b. case_decide; intros [= <-]. rewrite length_replicate. lia.
  - intros b n b'. case_decide; intros [= <-]. rewrite length_app, length_take, length_replicate. lia.
  - intros b n b' k. case_decide; intros [= <-] Hk Hn.
    rewrite take_app_le by (rewrite length_take; lia).
    rewrite take_take. f_equal. lia.
Qed.

Lemma big_heap_gives n : 0 <= n → is_Some (@heap_malloc big_heap n).
Proof. intros. simpl. rewrite decide_True by done. by eexists. Qed.

Lemma big_heap_regives b n : 0 <= n → is_Some (@heap_realloc big_heap b n).
Proof. intros. simpl. rewrite decide_True by done. by eexists. Qed.

(** ** Searching in strings *)

Fixpoint prefix_b (p s : list Z) : bool :=
  match p, s with
  | [], _ => true
  | a :: p, b :: s => (a =? b) && prefix_b p s
  | _, [] => false
  end.

(** [strstr(s, p) != NULL] *)
Fixpoint strstr (s p : list Z) : bool :=
  prefix_b p s || match s with [] => false | _ :: s => strstr s p end.

(** [strrchr(s, c)]: what is before and behind the last [c]. *)
Fixpoint strrchr (s : list Z) (c : Z) : option (list Z * list Z) :=
  match s with
  | [] => None
  | b :: s =>
      match strrchr s c with
      | Some (d, r) => Some (b :: d, r)
      | None => if b =? c then Some ([], s) else None
      end
  end.

(** ** Messages to the Lua main loop

    What a driver puts on the message bus ([rtos_msg_t] of the LuatOS core): the
    handler by its name, the pointer and the two arguments. *)

Record rtos_msg : Type := RtosMsg {
  m_handler : string; m_ptr : Z; m_arg1 : Z; m_arg2 : Z;
}.

#[global] Instance rtos_msg_eq_dec : EqDecision rtos_msg.
Proof. solve_decision. Defined.

(** ** Automation *)

Create HintDb luatos discriminated.
Create Rewrite HintDb lens.
#[export] Hint Resolve cstr_no_nul u8_is_byte le_bytes_is_byte : luatos.
#[export] Hint Rewrite @length_le_bytes @length_app @length_take @length_drop
  @length_insert @length_replicate : lens.

(** Solve a goal about the length of a byte string built from known pieces. *)
Ltac solve_len := autorewrite with lens in *; simpl in *; lia.

(** Run the next [store] of a buffer that is filled front to back. *)
Ltac fill :=
  match goal with
  | |- context [store (?pre ++ ?rest) ?n ?d] =>
      rewrite (store_fill n pre rest d) by solve_len; cbn [mbind res_bind]
  end.

(** Read off the steps of a [res] computation known to return. *)
Ltac inv_res :=
  repeat match goal with
  | H : Ok _ = Ok _ |- _ => injection H as H; subst
  | H : Fault _ = Ok _ |- _ => discriminate H
  | H : _ ≫= _ = Ok _ |- _ =>
      let x := fresh "r" in let E := fresh "E" in
      apply res_bind_Ok in H as (x & E & H)
  | H : _ <$> _ = Ok _ |- _ =>
      let x := fresh "r" in let E := fresh "E" in
      apply res_fmap_Ok in H as (x & E & H)
  | H : oget _ _ = Ok _ |- _ => apply oget_Ok in H
  end.
