(* ===== verification/Queue.v ===== *)
(** * The intrusive message queue of port/rtos/luat_queue_pc.c

    The queue is a linked list of heap blocks behind a header node that the
    owner embeds (the message bus has one, each task has one).  The operations
    are modelled on the object store, pointer by pointer; [queue_at] ties a
    queue to the list of payloads it holds, and the refinement lemmas show that
    push and pop are the FIFO operations on that list. *)

From S2P Require Import Prelude.

(** ** Data (include/luat_queue_pc.h) *)

(** [qi_msg] holds the bytes of the block from the [msg] field to its end. *)
Record uv_queue_item : Type := QItem {
  qi_next : option Z;
  qi_size : Z;
  qi_msg : list Z;
}.

Abbreviation qheap := (gmap Z uv_queue_item).

Definition qi_set_next (n : option Z) (i : uv_queue_item) : uv_queue_item :=
  QItem n (qi_size i) (qi_msg i).

Section layout.
Context `{Platform}.

(** [offsetof(uv_queue_item_t, msg)] and [sizeof(uv_queue_item_t)]: two
    pointer-sized fields, then four bytes, padded to pointer alignment. *)
Definition qi_msg_off : Z := 2 * ptr_bytes.
Definition qi_sizeof : Z := 3 * ptr_bytes.

(** The bytes [luat_queue_pop] copies beyond the payload. *)
Definition qi_pad : nat := Z.to_nat (qi_sizeof - 4 - qi_msg_off).

(** A block allocated for [n] payload bytes, after the [memset]. *)
Definition blank_item (n : nat) : uv_queue_item :=
  QItem None 0 (replicate (Z.to_nat (qi_sizeof - qi_msg_off) + n) 0).

End layout.

(** ** Operations *)

(** The [while (1)] walk to the last node. *)
Fixpoint push_walk (fuel : nat) (h : qheap) (head item : Z) : res qheap :=
  match fuel with
  | O => Fault OutOfFuel
  | S fuel' =>
      nd ← oget BadPointer (h !! head);
      match qi_next nd with
      | Some nx => push_walk fuel' h nx item
      | None => Ok (<[head := qi_set_next (Some item) nd]> h)
      end
  end.

Definition luat_queue_push (h : qheap) (queue item : option Z)
    : res (Z * qheap) :=
  match queue, item with
  | Some q, Some i => h' ← push_walk (S (size h)) h q i; Ok (0, h')
  | _, _ => Ok (-1, h)
  end.

(** [memcpy(item, head, head->size + sizeof(uv_queue_item_t) - 4)]: both
    header fields, and the payload with the padding behind it. *)
Definition copy_item `{Platform} (src dst : uv_queue_item)
    : res uv_queue_item :=
  d ← load (qi_msg src) 0 (Z.to_nat (qi_size src) + qi_pad);
  m ← store (qi_msg dst) 0 d;
  Ok (QItem (qi_next src) (qi_size src) m).

Definition luat_queue_pop `{Platform} (h : qheap) (queue item : option Z)
    : res (Z * qheap) :=
  match queue, item with
  | Some q, Some i =>
      qn ← oget BadPointer (h !! q);
      match qi_next qn with
      | None => Ok (-1, h)
      | Some head =>
          src ← oget BadPointer (h !! head);
          dst ← oget BadPointer (h !! i);
          new ← copy_item src dst;
          let h1 := <[i := new]> h in
          hn ← oget BadPointer (h1 !! head);
          qn1 ← oget BadPointer (h1 !! q);
          Ok (0, delete head (<[q := qi_set_next (qi_next hn) qn1]> h1))
      end
  | _, _ => Ok (-1, h)
  end.

Arguments luat_queue_push : simpl never.
Arguments luat_queue_pop : simpl never.

(** ** The queue as a list of payloads *)

(** The specification: a FIFO of byte strings. *)
Module Fifo.
Definition push {A} (x : A) (l : list A) : list A := l ++ [x].
Definition pop {A} (l : list A) : option (A * list A) :=
  match l with [] => None | x :: l' => Some (x, l') end.
End Fifo.

Section rep.
Context `{Platform}.

(** A node that holds payload [p] and leaves room for the padding. *)
Definition node_holds (nd : uv_queue_item) (p : list Z) : Prop :=
  qi_size nd = Z.of_nat (length p) ∧
  (length p + qi_pad <= length (qi_msg nd))%nat ∧
  take (length p) (qi_msg nd) = p.

Inductive chain (h : qheap) : option Z → list (Z * list Z) → Prop :=
  | chain_nil : chain h None []
  | chain_cons a nd p l :
      h !! a = Some nd → node_holds nd p → chain h (qi_next nd) l →
      chain h (Some a) ((a, p) :: l).

Definition queue_at (h : qheap) (q : Z) (l : list (Z * list Z)) : Prop :=
  ∃ nd, h !! q = Some nd ∧ chain h (qi_next nd) l ∧ NoDup (q :: l.*1).

Lemma chain_frame h h' p l :
  chain h p l → (∀ a, a ∈ l.*1 → h' !! a = h !! a) → chain h' p l.
Proof.
  induction 1 as [|a nd p l Ha Hn Hc IH]; intros Hf; [constructor|].
  econstructor; [|done|].
  - rewrite Hf; [done|]. set_solver.
  - apply IH. intros b Hb. apply Hf. set_solver.
Qed.

Lemma chain_dom h p l : chain h p l → ∀ a, a ∈ l.*1 → is_Some (h !! a).
Proof.
  induction 1 as [|a nd p l Ha Hn Hc IH]; intros b; simpl; [set_solver|].
  rewrite elem_of_cons. intros [->|?]; eauto.
Qed.

Lemma queue_at_size h q l : queue_at h q l → (S (length l) <= size h)%nat.
Proof.
  intros (nd & Hq & Hc & Hnd).
  rewrite <- (length_fmap fst l).
  change (S (length l.*1)) with (length (q :: l.*1)).
  rewrite <- (size_list_to_set (C:=gset Z)) by done.
  rewrite <- size_dom. apply subseteq_size.
  intros a. rewrite elem_of_list_to_set, elem_of_cons, elem_of_dom.
  intros [->|Ha]; [by eexists|]. by eapply chain_dom.
Qed.

Lemma queue_at_frame h h' q l :
  queue_at h q l → (∀ a, a = q ∨ a ∈ l.*1 → h' !! a = h !! a) →
  queue_at h' q l.
Proof.
  intros (nd & Hq & Hc & Hnd) Hf. exists nd. split; [|split; [|done]].
  - rewrite Hf; auto.
  - eapply chain_frame; eauto.
Qed.

(** The walk links the new node behind the last one and writes nothing else. *)
Lemma push_walk_spec h l : ∀ fuel a nd i ndi p,
  (length l < fuel)%nat →
  h !! a = Some nd → chain h (qi_next nd) l → NoDup (a :: l.*1) →
  h !! i = Some ndi → node_holds ndi p → qi_next ndi = None →
  i ∉ a :: l.*1 →
  ∃ h' nd', push_walk fuel h a i = Ok h' ∧
    h' !! a = Some nd' ∧ qi_size nd' = qi_size nd ∧ qi_msg nd' = qi_msg nd ∧
    chain h' (qi_next nd') (l ++ [(i, p)]) ∧
    (∀ b, b ∉ a :: l.*1 → h' !! b = h !! b).
Proof.
  induction l as [|[b pb] l IH]; intros [|fuel] a nd i ndi p Hfuel Ha Hc Hnd
    Hi Hp Hnone Hni; try (simpl in *; lia).
  - inversion Hc as [Hnx|]. simpl. rewrite Ha. simpl. rewrite <- Hnx.
    assert (i ≠ a) by set_solver.
    eexists _, _. split; [done|]. rewrite lookup_insert_eq.
    split; [done|]. split; [done|]. split; [done|]. split.
    + econstructor; [by rewrite lookup_insert_ne|done|].
      rewrite Hnone. constructor.
    + intros c Hc'. rewrite lookup_insert_ne; set_solver.
  - inversion Hc as [|b' ndb pb' l' Hb Hpb Hcb Hnx]; subst.
    simpl in *. rewrite Ha. simpl. rewrite <- Hnx.
    apply NoDup_cons in Hnd as [Hna Hnd].
    destruct (IH fuel b ndb i ndi p) as (h' & ndb' & Hw & Hb' & Hs & Hm & Hc' & Hf);
      [lia|done..|set_solver|].
    exists h', nd. split; [done|]. split; [rewrite Hf; [done|set_solver]|].
    split; [done|]. split; [done|]. split.
    + rewrite <- Hnx. econstructor; [done| |done].
      unfold node_holds in *. by rewrite Hs, Hm.
    + intros c Hcn. apply Hf. set_solver.
Qed.

(** Push appends the payload of the block to the list and touches only the
    queue's own nodes. *)
Lemma luat_queue_push_spec h q l i ndi p :
  queue_at h q l → h !! i = Some ndi → node_holds ndi p →
  qi_next ndi = None → i ∉ q :: l.*1 →
  ∃ h', luat_queue_push h (Some q) (Some i) = Ok (0, h') ∧
    queue_at h' q (Fifo.push (i, p) l) ∧
    (∀ b, b ∉ q :: l.*1 → h' !! b = h !! b).
Proof.
  intros Hq Hi Hp Hn Hni. pose proof (queue_at_size _ _ _ Hq) as Hsz.
  destruct Hq as (nd & Hnd & Hc & Hdup).
  destruct (push_walk_spec h l (S (size h)) q nd i ndi p)
    as (h' & nd' & Hw & Hq' & _ & _ & Hc' & Hf); [lia|done..|].
  exists h'. unfold luat_queue_push. rewrite Hw. split; [done|]. split; [|done].
  exists nd'. split; [done|]. split; [done|].
  unfold Fifo.push. rewrite fmap_app. simpl.
  change (q :: l.*1 ++ [i]) with ((q :: l.*1) ++ [i]).
  apply NoDup_app. split; [done|]. split; [set_solver|apply NoDup_singleton].
Qed.

(** The copy of a payload into a block with room for it. *)
Lemma copy_item_spec src dst p :
  node_holds src p → (length p + qi_pad <= length (qi_msg dst))%nat →
  ∃ new, copy_item src dst = Ok new ∧ node_holds new p ∧
    length (qi_msg new) = length (qi_msg dst).
Proof.
  intros (Hs & Hl & Ht) Hd. unfold copy_item.
  rewrite Hs, Nat2Z.id, load_Ok by lia. simpl. rewrite drop_0.
  assert (length (take (length p + qi_pad) (qi_msg src)) = length p + qi_pad)%nat
    as Htl by (rewrite length_take; lia).
  rewrite store_Ok by (simpl; lia). simpl.
  eexists. split; [done|].
  split; [|simpl; rewrite length_app, length_drop; lia]. unfold node_holds. simpl.
  split; [done|]. split; [rewrite length_app, length_drop; lia|].
  rewrite take_app_le by lia. rewrite take_take, Nat.min_l by lia. done.
Qed.

Lemma luat_queue_pop_empty h q i :
  queue_at h q [] → luat_queue_pop h (Some q) i = Ok (-1, h).
Proof.
  intros (nd & Hq & Hc & _). inversion Hc as [Hn|]. unfold luat_queue_pop.
  destruct i; [|done]. rewrite Hq. simpl. by rewrite <- Hn.
Qed.

(** Pop hands over the oldest payload, releases its node, and leaves the rest
    of the queue as it was. *)
Lemma luat_queue_pop_spec h q a p l i ndi :
  queue_at h q ((a, p) :: l) → h !! i = Some ndi →
  (length p + qi_pad <= length (qi_msg ndi))%nat →
  i ∉ q :: a :: l.*1 →
  ∃ h' new, luat_queue_pop h (Some q) (Some i) = Ok (0, h') ∧
    queue_at h' q l ∧ h' !! i = Some new ∧ node_holds new p ∧
    h' !! a = None ∧
    (∀ b, b ≠ i → b ≠ a → b ≠ q → h' !! b = h !! b) ∧
    length (qi_msg new) = length (qi_msg ndi).
Proof.
  intros (nd & Hq & Hc & Hdup) Hi Hroom Hni.
  inversion Hc as [|? na ? ? Ha Hp Hcl Hnx]; subst.
  destruct (copy_item_spec na ndi p Hp Hroom) as (new & Hcp & Hnew & Hsz).
  simpl in Hdup. rewrite !NoDup_cons in Hdup. destruct Hdup as (Hq1 & Ha1 & Hl).
  assert (i ≠ q ∧ i ≠ a ∧ i ∉ l.*1 ∧ q ≠ a ∧ q ∉ l.*1) as (?&?&?&?&?) by set_solver.
  unfold luat_queue_pop. rewrite Hq. simpl. rewrite <- Hnx, Ha, Hi. simpl.
  rewrite Hcp. simpl. rewrite !lookup_insert_ne by congruence.
  rewrite Ha, Hq. simpl.
  eexists _, new. split; [done|]. split; [|split; [|split; [done|split; [|split; [|done]]]]].
  - eexists. split; [by rewrite lookup_delete_ne, lookup_insert_eq|].
    split; [|by constructor]. simpl. eapply chain_frame; [done|].
    intros b Hb. rewrite lookup_delete_ne, !lookup_insert_ne; set_solver.
  - by rewrite lookup_delete_ne, lookup_insert_ne, lookup_insert_eq by congruence.
  - apply lookup_delete_eq.
  - intros b ???. by rewrite lookup_delete_ne, !lookup_insert_ne by congruence.
Qed.

(** A block prepared by the sender: blanked, payload copied in, size set. *)
Definition sender_item (p : list Z) : res uv_queue_item :=
  let it := blank_item (length p) in
  m ← store (qi_msg it) 0 p;
  Ok (QItem (qi_next it) (Z.of_nat (length p)) m).

Lemma qi_tail_pos : (qi_pad + 4 = Z.to_nat (qi_sizeof - qi_msg_off))%nat.
Proof.
  unfold qi_pad, qi_sizeof, qi_msg_off.
  destruct ptr_bytes_cases as [->| ->]; reflexivity.
Qed.

Lemma sender_item_spec p :
  ∃ it, sender_item p = Ok it ∧ node_holds it p ∧ qi_next it = None.
Proof.
  unfold sender_item, blank_item. simpl. rewrite <- qi_tail_pos.
  rewrite store_Ok by (rewrite length_replicate; lia). simpl.
  eexists. split; [done|]. split; [|done]. unfold node_holds. simpl.
  split; [done|]. split; [|by rewrite take_app_length].
  rewrite length_app, length_drop, length_replicate. lia.
Qed.

Lemma blank_item_room n (p : list Z) :
  length p = n → (length p + qi_pad <= length (qi_msg (blank_item n)))%nat.
Proof.
  intros <-. unfold blank_item. simpl.
  rewrite length_replicate, <- qi_tail_pos. lia.
Qed.

End rep.
