(* ===== verification/Msgbus.v ===== *)
(** * The message bus of port/rtos/luat_msgbus_pc.c

    One static queue carries the messages of every driver callback to the Lua
    main loop.  [luat_msgbus_get] blocks by running the libuv event loop until
    a callback has put a message; an iteration of the loop is a transformation
    of the object store, and the iterations that will happen are an argument
    of the model. *)

From S2P Require Import Prelude Queue.

Section msgbus.
Context `{Platform} `{Allocator uv_queue_item}.

(** The address of the static [head], and [sizeof(rtos_msg_t)], a type of the
    LuatOS core. *)
Context (head : Z) (rtos_msg_size : nat).

(** ** Operations *)

(** The bus mutex is only held around the queue calls, which the main thread
    and the callbacks it runs make one after the other; it has no effect on
    the sequence modelled here. *)
Definition luat_msgbus_put (h : qheap) (msg : list Z) (timeout : Z)
    : res (Z * qheap) :=
  match malloc h (qi_sizeof + Z.of_nat rtos_msg_size) with
  | None => Ok (1, h)
  | Some item =>
      it ← sender_item msg;
      luat_queue_push (<[item := it]> h) (Some head) (Some item)
  end.

(** The [while (1)] loop: pop, else run the event loop once. *)
Fixpoint msgbus_get_loop (h : qheap) (item : option Z)
    (uv_runs : list (qheap → qheap)) : res (Z * list Z * qheap) :=
  '(ret, h1) ← luat_queue_pop h (Some head) item;
  if ret =? 0 then
    i ← oget NullDeref item;
    nd ← oget BadPointer (h1 !! i);
    msg ← load (qi_msg nd) 0 rtos_msg_size;
    Ok (0, msg, delete i h1)
  else
    match uv_runs with
    | [] => Fault OutOfFuel
    | uv_run :: rest => msgbus_get_loop (uv_run h1) item rest
    end.

Definition luat_msgbus_get (h : qheap) (timeout : Z)
    (uv_runs : list (qheap → qheap)) : res (Z * list Z * qheap) :=
  match malloc h (qi_sizeof + Z.of_nat rtos_msg_size) with
  | None => msgbus_get_loop h None uv_runs
  | Some item =>
      msgbus_get_loop (<[item := blank_item rtos_msg_size]> h) (Some item) uv_runs
  end.

Definition luat_msgbus_freesize (h : qheap) : Z := 1.

Definition luat_msgbus_is_empty (h : qheap) : res Z :=
  nd ← oget BadPointer (h !! head);
  Ok (if qi_next nd is Some _ then 0 else 1).

(** ** The bus as a list of messages *)

(** The bus holds the messages [ms], oldest first, and owns nothing of [own]. *)
Definition bus_holds (own : gset Z) (h : qheap) (ms : list (list Z)) : Prop :=
  ∃ l, queue_at h head l ∧ l.*2 = ms ∧
    (∀ a, a ∈ own → a ∉ head :: l.*1) ∧
    Forall (λ m, length m = rtos_msg_size) ms.

Lemma put_spec own h ms m item timeout :
  bus_holds own h ms → length m = rtos_msg_size →
  (∀ a, a ∈ own → is_Some (h !! a)) →
  malloc h (qi_sizeof + Z.of_nat rtos_msg_size) = Some item →
  ∃ h', luat_msgbus_put h m timeout = Ok (0, h') ∧
    bus_holds own h' (Fifo.push m ms) ∧ (∀ a, a ∈ own → h' !! a = h !! a).
Proof.
  intros (l & Hq & <- & Hown & Hall) Hm Hlive Hma.
  destruct (malloc_fresh _ _ _ Hma) as [Hfresh _].
  destruct (sender_item_spec m) as (it & Hit & Hp & Hn).
  assert (item ∉ head :: l.*1) as Hni.
  { intros Hin. apply elem_of_cons in Hin as [->|Hin].
    - destruct Hq as (nd & Hnd & _). congruence.
    - destruct Hq as (nd & _ & Hc & _).
      destruct (chain_dom _ _ _ Hc _ Hin). congruence. }
  destruct (luat_queue_push_spec (<[item:=it]> h) head l item it m)
    as (h' & Hpush & Hq' & Hf); [|by rewrite lookup_insert_eq|done..|].
  { eapply queue_at_frame; [done|]. intros a Ha.
    rewrite lookup_insert_ne; [done|]. set_solver. }
  exists h'. unfold luat_msgbus_put. rewrite Hma, Hit. simpl.
  split; [done|]. split.
  - eexists. split; [done|]. unfold Fifo.push. rewrite fmap_app. split; [done|].
    split; [|by apply Forall_app; auto].
    intros a Ha. rewrite fmap_app. simpl.
    assert (a ≠ item) by (intros ->; destruct (Hlive _ Ha); congruence).
    specialize (Hown a Ha). set_solver.
  - intros a Ha. rewrite Hf by auto. rewrite lookup_insert_ne; [done|].
    intros ->. destruct (Hlive _ Ha). congruence.
Qed.

(** Callbacks run by one event-loop iteration: they put a batch of messages. *)
Definition put_all (ms : list (list Z)) (h : qheap) : qheap :=
  fold_left (λ h m, match luat_msgbus_put h m 0 with
                    | Ok (_, h') => h' | Fault _ => h end) ms h.

(** The messages of a batch that [luat_msgbus_put] takes: it returns 1, and the message is
    gone, when there is no memory. *)
Fixpoint taken (ms : list (list Z)) (h : qheap) : list (list Z) :=
  match ms with
  | [] => []
  | m :: ms =>
      match luat_msgbus_put h m 0 with
      | Ok (ret, h') => if ret =? 0 then m :: taken ms h' else taken ms h'
      | Fault _ => []
      end
  end.

(** The same for iterations of the event loop that follow each other. *)
Fixpoint taken_in (batches : list (list (list Z))) (h : qheap) : list (list (list Z)) :=
  match batches with
  | [] => []
  | b :: bs => taken b h :: taken_in bs (put_all b h)
  end.

(** A message is taken exactly if there is memory for it. *)
Lemma put_taken own h ms m :
  bus_holds own h ms → length m = rtos_msg_size → (∀ a, a ∈ own → is_Some (h !! a)) →
  ∃ ret h', luat_msgbus_put h m 0 = Ok (ret, h') ∧
    (ret = 0 ↔ is_Some (malloc h (qi_sizeof + Z.of_nat rtos_msg_size))) ∧
    bus_holds own h' (ms ++ if ret =? 0 then [m] else []) ∧ (∀ a, a ∈ own → h' !! a = h !! a).
Proof.
  intros Hb Hm Hlive. destruct (malloc h (qi_sizeof + Z.of_nat rtos_msg_size)) as [item|] eqn:Hma.
  - destruct (put_spec own h ms m item 0 Hb Hm Hlive Hma) as (h1 & Hput & Hb1 & Hf). exists 0, h1.
    split; [done|]. split; [by split|]. by split.
  - exists 1, h. unfold luat_msgbus_put. rewrite Hma. split; [done|]. split; [by split; [|intros [? [=]]]|].
    by rewrite app_nil_r.
Qed.

Lemma put_all_spec own ms' : ∀ h ms,
  bus_holds own h ms → Forall (λ m, length m = rtos_msg_size) ms' →
  (∀ a, a ∈ own → is_Some (h !! a)) →
  bus_holds own (put_all ms' h) (ms ++ taken ms' h) ∧
  (∀ a, a ∈ own → put_all ms' h !! a = h !! a).
Proof.
  induction ms' as [|m ms' IH]; intros h ms Hb Hall Hlive.
  { by rewrite app_nil_r. }
  apply Forall_cons in Hall as [Hm Hall].
  destruct (put_taken own h ms m Hb Hm Hlive) as (ret & h1 & Hput & _ & Hb1 & Hf).
  cbn [put_all fold_left taken]. rewrite Hput.
  destruct (IH h1 _ Hb1 Hall) as [Hb2 Hf2].
  { intros a Ha. rewrite Hf by done. auto. }
  rewrite <- app_assoc in Hb2. split; [by destruct (ret =? 0)|].
  intros a Ha. unfold put_all in Hf2. rewrite Hf2, Hf; auto.
Qed.

(** What the bus promises: the oldest message, or the oldest of the first
    non-empty batch. *)
Fixpoint bus_get (ms : list (list Z)) (batches : list (list (list Z)))
    : option (list Z * list (list Z)) :=
  match ms, batches with
  | m :: ms', _ => Some (m, ms')
  | [], b :: bs => bus_get b bs
  | [], [] => None
  end.

Lemma get_loop_pop item h m ms uv_runs :
  bus_holds {[item]} h (m :: ms) →
  h !! item = Some (blank_item rtos_msg_size) →
  ∃ h', msgbus_get_loop h (Some item) uv_runs = Ok (0, m, h') ∧
    bus_holds ∅ h' ms.
Proof.
  intros (l & Hq & Hl & Hown & Hlen) Hi.
  destruct l as [|[a p] l]; [discriminate|]; injection Hl as -> <-.
  apply Forall_cons in Hlen as [Hm Hlen].
  destruct (luat_queue_pop_spec h head a m l item (blank_item rtos_msg_size))
    as (h1 & new & Hpop & Hq1 & Hnew & Hp & Ha & Hf);
    [done|done|by apply blank_item_room|set_solver|].
  destruct Hp as (Hps & Hpl & Hpt). exists (delete item h1). split.
  - destruct uv_runs; simpl; rewrite Hpop; simpl; rewrite Hnew; simpl;
      rewrite load_Ok by lia; simpl; by rewrite drop_0, <- Hm, Hpt.
  - exists l. split; [|split; [done|split; [set_solver|done]]].
    eapply queue_at_frame; [done|]. intros b' Hb'. apply lookup_delete_ne.
    specialize (Hown item). set_solver.
Qed.

(** [None]: the loop waits for more. *)
Lemma get_loop_spec item batches : ∀ h ms,
  bus_holds {[item]} h ms →
  h !! item = Some (blank_item rtos_msg_size) →
  Forall (Forall (λ m, length m = rtos_msg_size)) batches →
  match bus_get ms (taken_in batches h) with
  | Some (m, ms') => ∃ h', msgbus_get_loop h (Some item) (map put_all batches) = Ok (0, m, h') ∧ bus_holds ∅ h' ms'
  | None => msgbus_get_loop h (Some item) (map put_all batches) = Fault OutOfFuel
  end.
Proof.
  induction batches as [|b bs IH]; intros h ms Hb Hi Hall; (destruct ms as [|m0 ms]; cbn [taken_in bus_get];
    [|by apply get_loop_pop]); pose proof Hb as (l & Hq & Hl & Hown & Hlen); apply fmap_nil_inv in Hl as ->;
    cbn [map msgbus_get_loop]; rewrite luat_queue_pop_empty by done; [done|]. cbn [mbind res_bind].
  apply Forall_cons in Hall as [Hb0 Hbs].
  destruct (put_all_spec {[item]} b h [] Hb Hb0) as [Hb' Hf]; [set_solver|].
  apply IH; [done| |done]. rewrite Hf; set_solver.
Qed.

(** Without a block of its own the loop never looks at the bus. *)
Lemma get_loop_no_block uv_runs : ∀ h, msgbus_get_loop h None uv_runs = Fault OutOfFuel.
Proof. induction uv_runs as [|r rs IH]; intros h; [done|]. apply (IH (r h)). Qed.

(** C1 (refinement).  The bus is a FIFO of the messages that find memory.
    [luat_msgbus_put] appends its message and returns 0 exactly if the allocator has a
    block for it; otherwise it returns 1 and the message is gone.  With the messages [ms] on
    the bus and event loop iterations that put the batches given, [luat_msgbus_get]
    returns the oldest message, or waits for the first batch of which a message was
    taken and returns the first of these; what follows it stays on the bus, in order,
    and it waits as long as there is none.  If there is no memory for its own block it
    never returns, whatever arrives.  No message that was taken is lost, duplicated or
    reordered, and no access leaves its block. *)
Theorem luat_msgbus_get_refines h ms batches timeout :
  bus_holds ∅ h ms →
  Forall (Forall (λ m, length m = rtos_msg_size)) batches →
  (∀ m, length m = rtos_msg_size → ∃ ret h', luat_msgbus_put h m 0 = Ok (ret, h') ∧
     (ret = 0 ↔ is_Some (malloc h (qi_sizeof + Z.of_nat rtos_msg_size))) ∧
     bus_holds ∅ h' (ms ++ if ret =? 0 then [m] else [])) ∧
  match malloc h (qi_sizeof + Z.of_nat rtos_msg_size) with
  | None => luat_msgbus_get h timeout (map put_all batches) = Fault OutOfFuel
  | Some item =>
      match bus_get ms (taken_in batches (<[item := blank_item rtos_msg_size]> h)) with
      | Some (m, ms') => ∃ h', luat_msgbus_get h timeout (map put_all batches) = Ok (0, m, h') ∧ bus_holds ∅ h' ms'
      | None => luat_msgbus_get h timeout (map put_all batches) = Fault OutOfFuel
      end
  end.
Proof.
  intros Hb Hall. split.
  { intros m Hm. destruct (put_taken ∅ h ms m Hb Hm) as (ret & h' & E & Hr & Hb' & _); [set_solver|]. by exists ret, h'. }
  pose proof Hb as (l & Hq & Hl & _ & Hlen). unfold luat_msgbus_get.
  destruct (malloc h _) as [item|] eqn:Hma; [|apply get_loop_no_block].
  destruct (malloc_fresh _ _ _ Hma) as [Hfresh _].
  assert (item ∉ head :: l.*1) as Hni.
  { destruct Hq as (nd & Hnd & Hc & _). intros Hin.
    apply elem_of_cons in Hin as [->|Hin]; [congruence|].
    destruct (chain_dom _ _ _ Hc _ Hin). congruence. }
  apply get_loop_spec; [|by rewrite lookup_insert_eq|done].
  exists l. split; [|split; [done|split; [set_solver|done]]].
  eapply queue_at_frame; [done|]. intros a Ha.
  rewrite lookup_insert_ne; [done|]. set_solver.
Qed.

End msgbus.

(** The theorem at work on a 32-bit build with room for two blocks: two-byte messages,
    an empty bus, one idle iteration of the event loop and one that puts two messages,
    for the second of which there is no memory. *)
Lemma luat_msgbus_get_refines_witness :
  ∃ h', @luat_msgbus_get linux32 (bounded_allocator 3 _) 1 2
      {[1 := QItem None 0 []]} 0
      (map (@put_all linux32 (bounded_allocator 3 _) 1 2) [[]; [[7; 8]; [9; 9]]])
      = Ok (0, [7; 8], h') ∧ @bus_holds linux32 1 2 ∅ h' [].
Proof.
  destruct (@luat_msgbus_get_refines linux32 (bounded_allocator 3 _) 1 2 {[1 := QItem None 0 []]} []
    [[]; [[7; 8]; [9; 9]]] 0) as [_ Hg].
  - exists []. split; [|split; [done|split; [set_solver|done]]].
    eexists. split; [reflexivity|]. split; [constructor|apply NoDup_singleton].
  - repeat constructor.
  - exact Hg.
Defined.
