(* ===== verification/Luadb2.v ===== *)
(** * The luadb image builder of port/luat_luadb2.c

    [luat_luadb2_init] writes the header of an image, [luat_luadb2_write]
    appends one file.  The format is a sequence of tag-length-value fields; the
    second half of the file states the format as a pure function, shows that
    the builder produces it byte for byte without leaving its buffer, and that
    a reader of the format gets the files back. *)

From S2P Require Import Prelude.

(** ** State (include/luat_luadb2.h); the [fs] field belongs to the reader *)

Record luat_luadb2_ctx : Type := Ldb {
  ldb_dataptr : option (list Z);
  ldb_offset : Z;
  ldb_size : Z;
}.

Definition ldb_zero : luat_luadb2_ctx := Ldb None 0 0.

Section operations.
Context `{Platform} `{HeapOps}.

Definition luat_luadb2_init (ctx : luat_luadb2_ctx) : res (Z * luat_luadb2_ctx) :=
  match ldb_dataptr ctx with
  | Some _ => Ok (0, ctx)
  | None =>
      match heap_malloc 1024 with
      | None => Fault NullDeref
      | Some tmp =>
          tmp ← store tmp 0 [0x01; 0x04; 0x5A; 0xA5; 0x5A; 0xA5];
          tmp ← store tmp 6 [0x02; 0x02; 0x02; 0x00];
          tmp ← store tmp 10 [0x03; 0x04; 0x00; 0x00; 0x00; 0x18];
          tmp ← store tmp 16 [0x04; 0x02; 0x00; 0x00];
          tmp ← store tmp 20 [0xFE; 0x02; 0x00; 0x00];
          Ok (0, Ldb (Some tmp) 24 1024)
      end
  end.

(** [name] is a C string, [data] the buffer the caller passes with its [len].
    The stores follow the code's order; [o] is the running [offset]. *)
Definition luat_luadb2_write (ctx : luat_luadb2_ctx) (name data : list Z) (len : Z)
    : res (Z * luat_luadb2_ctx) :=
  match ldb_dataptr ctx with
  | None => Ok (-1, ctx)
  | Some buf =>
      let o := Z.to_nat (ldb_offset ctx) in
      match heap_realloc buf (wrapu sizet_bits (ldb_offset ctx + len + 512)) with
      | None => Ok (-2, ctx)
      | Some tmp =>
          tmp ← store tmp o [0x01; 0x04; 0x5A; 0xA5; 0x5A; 0xA5];
          let o := (o + 6)%nat in
          tmp ← store tmp o [0x02; Z.land (Z.of_nat (length name)) 0xFF];
          tmp ← store tmp (o + 2) name;
          let o := (o + (2 + length name))%nat in
          tmp ← store tmp o
            [0x03; 0x04; Z.land (Z.shiftr len 0) 0xFF;
             Z.land (Z.shiftr len 8) 0xFF; Z.land (Z.shiftr len 16) 0xFF;
             Z.land (Z.shiftr len 24) 0xFF];
          let o := (o + 6)%nat in
          tmp ← store tmp o [0xFE; 0x02; 0x00; 0x00];
          let o := (o + 4)%nat in
          d ← load data 0 (Z.to_nat len);
          tmp ← store tmp o d;
          let o := (o + Z.to_nat len)%nat in
          n ← oget OutOfBounds (tmp !! 0x12%nat);
          tmp ← store tmp 0x12 [u8 (n + 1)];
          Ok (0, Ldb (Some tmp) (Z.of_nat o) (ldb_size ctx))
      end
  end.

End operations.

(** ** The format *)

Definition luadb_file : Type := list Z * list Z.

Definition luadb_magic : list Z := [0x01; 0x04; 0x5A; 0xA5; 0x5A; 0xA5].

Definition luadb_header (count : Z) : list Z :=
  luadb_magic ++ [0x02; 0x02; 0x02; 0x00] ++
  [0x03; 0x04; 0x00; 0x00; 0x00; 0x18] ++
  [0x04; 0x02; count; 0x00] ++ [0xFE; 0x02; 0x00; 0x00].

Definition luadb_record (f : luadb_file) : list Z :=
  luadb_magic ++ [0x02; Z.of_nat (length f.1) mod 256] ++ f.1 ++
  [0x03; 0x04] ++ le_bytes 4 (Z.of_nat (length f.2)) ++
  [0xFE; 0x02; 0x00; 0x00] ++ f.2.

Definition luadb_image (fs : list luadb_file) : list Z :=
  luadb_header (Z.of_nat (length fs) mod 256) ++ concat (map luadb_record fs).

Lemma length_luadb_record f :
  length (luadb_record f) = (18 + length f.1 + length f.2)%nat.
Proof. unfold luadb_record. solve_len. Qed.

Lemma luadb_image_length fs : (24 <= length (luadb_image fs))%nat.
Proof. unfold luadb_image. solve_len. Qed.

Lemma luadb_image_count fs f :
  luadb_image (fs ++ [f]) =
  <[18%nat := u8 (Z.of_nat (length fs) mod 256 + 1)]> (luadb_image fs)
    ++ luadb_record f.
Proof.
  unfold luadb_image. rewrite map_app, concat_app, length_app, app_assoc. simpl.
  rewrite app_nil_r. do 18 (f_equal; []). f_equal.
  unfold wrapu. change (2 ^ 8) with 256.
  rewrite Zplus_mod_idemp_l. f_equal. lia.
Qed.

(** The bytes of the length field. *)
Lemma len_field_bytes len :
  [Z.land (Z.shiftr len 0) 0xFF; Z.land (Z.shiftr len 8) 0xFF;
   Z.land (Z.shiftr len 16) 0xFF; Z.land (Z.shiftr len 24) 0xFF]
  = le_bytes 4 len.
Proof.
  change 0xFF with (Z.ones 8). rewrite !Z.land_ones by lia.
  rewrite !Z.shiftr_div_pow2 by lia. cbn [le_bytes].
  rewrite !Z.div_div by lia. by rewrite Z.div_1_r.
Qed.

Lemma luadb_image_lookup fs :
  luadb_image fs !! 18%nat = Some (Z.of_nat (length fs) mod 256).
Proof. reflexivity. Qed.

(** The pieces the writer stores, put together. *)
Lemma write_pieces img name data tl :
  ((((((img ++ [1; 4; 90; 165; 90; 165]) ++
     [2; Z.land (Z.of_nat (length name)) 255]) ++ name) ++
     [3; 4; Z.land (Z.shiftr (Z.of_nat (length data)) 0) 255;
      Z.land (Z.shiftr (Z.of_nat (length data)) 8) 255;
      Z.land (Z.shiftr (Z.of_nat (length data)) 16) 255;
      Z.land (Z.shiftr (Z.of_nat (length data)) 24) 255]) ++
     [254; 2; 0; 0]) ++ data) ++ tl
  = img ++ luadb_record (name, data) ++ tl.
Proof.
  unfold luadb_record, luadb_magic. cbn [fst snd]. rewrite <- len_field_bytes.
  change 255 with (Z.ones 8). rewrite !Z.land_ones by lia.
  by rewrite <- !app_assoc.
Qed.

(** ** The builder *)

(** The context holds the image of [fs], followed by spare room. *)
Definition built (ctx : luat_luadb2_ctx) (fs : list luadb_file) : Prop :=
  ∃ rest, ldb_dataptr ctx = Some (luadb_image fs ++ rest) ∧
    ldb_offset ctx = Z.of_nat (length (luadb_image fs)).

Section builder.
Context `{Platform} `{HeapLaws}.

Lemma luat_luadb2_init_spec b :
  heap_malloc 1024 = Some b →
  ∃ ctx, luat_luadb2_init ldb_zero = Ok (0, ctx) ∧ built ctx [].
Proof.
  intros Hm. pose proof (heap_malloc_length _ _ Hm) as Hl.
  unfold luat_luadb2_init. cbn [ldb_dataptr ldb_zero]. rewrite Hm.
  change b with ([] ++ b). do 5 fill.
  eexists. split; [done|]. eexists. split; reflexivity.
Qed.

(** One file: with a name that fits the slack of the reallocation, the write
    succeeds inside the buffer and the context holds the longer image. *)
Lemma luat_luadb2_write_spec ctx fs name data b :
  built ctx fs →
  let len := Z.of_nat (length data) in
  (length name <= 494)%nat →
  ldb_offset ctx + len + 512 < 2 ^ sizet_bits →
  ∀ buf, ldb_dataptr ctx = Some buf →
  heap_realloc buf (ldb_offset ctx + len + 512) = Some b →
  ∃ ctx', luat_luadb2_write ctx name data len = Ok (0, ctx') ∧
    built ctx' (fs ++ [(name, data)]).
Proof.
  intros (rest & Hd & Ho) len Hname Hsz buf Hbuf Hr.
  assert (buf = luadb_image fs ++ rest) as -> by congruence.
  pose proof (luadb_image_length fs) as Himg.
  pose proof (heap_realloc_length _ _ _ Hr) as Hlen.
  assert (∃ rest', b = luadb_image fs ++ rest' ∧
    (length data + 512 = length rest')%nat) as (rest' & -> & Hrest).
  { assert (take (length (luadb_image fs)) b = luadb_image fs) as Hk.
    { rewrite (heap_realloc_keeps _ _ _ _ Hr);
        [by rewrite take_app_length|rewrite length_app; lia|lia]. }
    exists (drop (length (luadb_image fs)) b). split.
    - rewrite <- Hk at 1. by rewrite take_drop.
    - rewrite length_drop. lia. }
  unfold luat_luadb2_write. rewrite Hd, wrapu_small, Hr by lia.
  rewrite Ho, Nat2Z.id. unfold len. rewrite !Nat2Z.id.
  rewrite load_Ok by lia. do 5 fill. rewrite drop_0, firstn_all. fill.
  match goal with |- context [_ ++ drop (length data) ?t] =>
    generalize (drop (length data) t) as tl; intros tl end.
  rewrite write_pieces. rewrite lookup_app_l, luadb_image_lookup by lia.
  cbn [oget mbind res_bind]. rewrite store_byte by solve_len.
  cbn [mbind res_bind]. eexists. split; [done|]. exists tl. split.
  - cbn [ldb_dataptr]. f_equal. rewrite luadb_image_count, <- app_assoc.
    by rewrite insert_app_l by lia.
  - cbn [ldb_offset]. rewrite luadb_image_count, length_app, length_insert.
    rewrite length_luadb_record. simpl. lia.
Qed.

(** A longer name does not fit: the write runs past the block it asked for. *)
Lemma luat_luadb2_write_overflow ctx fs name data b :
  built ctx fs →
  let len := Z.of_nat (length data) in
  (494 < length name)%nat →
  ldb_offset ctx + len + 512 < 2 ^ sizet_bits →
  ∀ buf, ldb_dataptr ctx = Some buf →
  heap_realloc buf (ldb_offset ctx + len + 512) = Some b →
  luat_luadb2_write ctx name data len = Fault OutOfBounds.
Proof.
  intros (rest & Hd & Ho) len Hname Hsz buf Hbuf Hr.
  pose proof (heap_realloc_length _ _ _ Hr) as Hlen.
  unfold luat_luadb2_write. rewrite Hbuf, wrapu_small, Hr by lia.
  rewrite Ho, Nat2Z.id in *. unfold len in *. rewrite !Nat2Z.id in *.
  rewrite load_Ok, drop_0, firstn_all by (simpl; lia).
  repeat match goal with
  | |- store ?b0 ?n ?d ≫= _ = _ =>
      destruct (store_cases b0 n d) as [(? & -> & ? & ?)|[-> ?]];
      cbn [mbind res_bind]; [|done]
  | |- Ok _ ≫= _ = _ => cbn [mbind res_bind]
  end.
  simpl in *. lia.
Qed.

End builder.

(** ** The sequence of writes *)

Section run.
Context `{Platform} `{HeapOps}.

Fixpoint luadb_build (ctx : luat_luadb2_ctx) (fs : list luadb_file)
    : res (list Z * luat_luadb2_ctx) :=
  match fs with
  | [] => Ok ([], ctx)
  | f :: fs' =>
      '(ret, ctx) ← luat_luadb2_write ctx f.1 f.2 (Z.of_nat (length f.2));
      '(rets, ctx) ← luadb_build ctx fs';
      Ok (ret :: rets, ctx)
  end.

End run.

(** ** A reader of the format

    This is the specification side of the round trip (the reader the firmware
    uses, [luat_luadb_mount], belongs to the LuatOS core): it takes the count
    from the header and then that many records. *)

Definition expect (pat l : list Z) : option (list Z) :=
  if decide (take (length pat) l = pat) then Some (drop (length pat) l) else None.

Definition read_record (l : list Z) : option (luadb_file * list Z) :=
  l ← expect luadb_magic l;
  l ← expect [0x02] l;
  n ← head l;
  let l := tail l in
  let name := take (Z.to_nat n) l in
  l ← expect [0x03; 0x04] (drop (Z.to_nat n) l);
  let len := Z.to_nat (le_val (take 4 l)) in
  l ← expect [0xFE; 0x02; 0x00; 0x00] (drop 4 l);
  Some ((name, take len l), drop len l).

Fixpoint read_records (n : nat) (l : list Z) : option (list luadb_file) :=
  match n with
  | O => Some []
  | S n' =>
      '(f, l') ← read_record l;
      fs ← read_records n' l';
      Some (f :: fs)
  end.

Definition luadb_read (l : list Z) : option (list luadb_file) :=
  n ← l !! 18%nat;
  read_records (Z.to_nat n) (drop 24 l).

(** A file the format can carry. *)
Definition file_ok (f : luadb_file) : Prop :=
  (length f.1 <= 255)%nat ∧ Z.of_nat (length f.2) < 2 ^ 32.

Lemma expect_app pat l : expect pat (pat ++ l) = Some l.
Proof.
  unfold expect. rewrite take_app_length, drop_app_length.
  by rewrite decide_True.
Qed.

Lemma read_record_app f l :
  file_ok f → read_record (luadb_record f ++ l) = Some (f, l).
Proof.
  destruct f as [name data]. intros [Hn Hd]. simpl in Hn, Hd.
  unfold read_record, luadb_record. cbn [fst snd]. rewrite <- !app_assoc.
  rewrite expect_app. cbn [mbind option_bind].
  match goal with |- context [[0x02; ?x] ++ ?r] =>
    change ([0x02; x] ++ r) with ([0x02] ++ x :: r) end.
  rewrite expect_app. cbn [mbind option_bind head tail].
  rewrite Z.mod_small, Nat2Z.id by lia. rewrite take_app_length, drop_app_length.
  rewrite (expect_app [0x03; 0x04]). cbn [mbind option_bind].
  rewrite take_app_length' by (by rewrite length_le_bytes).
  rewrite drop_app_length' by (by rewrite length_le_bytes).
  rewrite le_val_le_bytes, Nat2Z.id by lia.
  rewrite (expect_app [0xFE; 0x02; 0x00; 0x00]). cbn [mbind option_bind].
  by rewrite take_app_length, drop_app_length.
Qed.

Lemma read_records_app fs l :
  Forall file_ok fs →
  read_records (length fs) (concat (map luadb_record fs) ++ l) = Some fs.
Proof.
  induction 1 as [|f fs Hf Hfs IH]; [done|]. cbn [map concat length read_records].
  rewrite <- app_assoc.
  rewrite read_record_app by done. cbn [mbind option_bind].
  by rewrite IH.
Qed.

Lemma luadb_read_image fs l :
  Forall file_ok fs → (length fs < 256)%nat →
  luadb_read (luadb_image fs ++ l) = Some fs.
Proof.
  intros Hfs Hn. unfold luadb_read.
  rewrite lookup_app_l by (pose proof (luadb_image_length fs); lia).
  rewrite luadb_image_lookup. cbn [mbind option_bind].
  rewrite Z.mod_small, Nat2Z.id by lia. unfold luadb_image.
  rewrite <- app_assoc.
  change 24%nat with (length (luadb_header (Z.of_nat (length fs) mod 256))).
  rewrite drop_app_length. by apply read_records_app.
Qed.

(** ** The properties *)

Section properties.
Context `{Platform} `{HeapLaws}.

(** Every allocation the builder asks for, up to [limit] bytes, succeeds. *)
Definition heap_serves (limit : Z) : Prop :=
  (1024 <= limit → is_Some (heap_malloc 1024)) ∧
  ∀ b n, 0 <= n <= limit → is_Some (heap_realloc b n).

Lemma luadb_image_snoc_length fs f :
  length (luadb_image (fs ++ [f])) =
  (length (luadb_image fs) + length (luadb_record f))%nat.
Proof. by rewrite luadb_image_count, length_app, length_insert. Qed.

Lemma luadb_build_spec limit fs' : ∀ ctx fs,
  heap_serves limit → built ctx fs → Forall file_ok fs' →
  Z.of_nat (length (luadb_image (fs ++ fs'))) + 512 <= limit →
  limit < 2 ^ sizet_bits →
  ∃ ctx', luadb_build ctx fs' = Ok (replicate (length fs') 0, ctx') ∧
    built ctx' (fs ++ fs').
Proof.
  induction fs' as [|[name data] fs' IH]; intros ctx fs Hs Hb Hok Hlim Hw.
  { rewrite app_nil_r in *. by exists ctx. }
  apply Forall_cons in Hok as [[Hn Hd] Hok].
  rewrite cons_middle, (app_assoc fs) in Hlim |- *. cbn [fst snd] in *.
  pose proof Hb as (rest & Hdata & Hoff).
  assert (ldb_offset ctx + Z.of_nat (length data) + 512 <= limit) as Hfit.
  { revert Hlim. unfold luadb_image. rewrite map_app, concat_app, !length_app.
    rewrite map_app, concat_app, !length_app. rewrite Hoff. unfold luadb_image.
    cbn [map concat]. rewrite !length_app, length_luadb_record.
    unfold luadb_header. rewrite !length_app. cbn [length fst snd]. lia. }
  destruct (proj2 Hs (luadb_image fs ++ rest)
    (ldb_offset ctx + Z.of_nat (length data) + 512)) as [b Hr]; [lia|].
  destruct (luat_luadb2_write_spec ctx fs name data b Hb) with (buf := luadb_image fs ++ rest)
    as (ctx1 & Hwr & Hb1); [lia|lia|done|done|].
  destruct (IH ctx1 (fs ++ [(name, data)])) as (ctx' & Hrun & Hb'); [done..|].
  exists ctx'. cbn [luadb_build fst snd]. rewrite Hwr. cbn [mbind res_bind].
  by rewrite Hrun.
Qed.

(** C2 (roundtrip).  Building an image and reading it back: on a heap that
    serves the allocations, [luat_luadb2_init] and one [luat_luadb2_write] per
    file all return 0 without leaving their buffer, the first [offset] bytes of
    the buffer are exactly the image of the files, and a reader of the format
    recovers every name and content in order (fewer than 256 files, names up
    to 255 bytes, contents below 4 GiB). *)
Theorem luadb_roundtrip limit fs :
  heap_serves limit → limit < 2 ^ sizet_bits → 1024 <= limit →
  Forall file_ok fs → (length fs < 256)%nat →
  Z.of_nat (length (luadb_image fs)) + 512 <= limit →
  ∃ ctx0 ctx buf,
    luat_luadb2_init ldb_zero = Ok (0, ctx0) ∧
    luadb_build ctx0 fs = Ok (replicate (length fs) 0, ctx) ∧
    ldb_dataptr ctx = Some buf ∧
    take (Z.to_nat (ldb_offset ctx)) buf = luadb_image fs ∧
    luadb_read buf = Some fs.
Proof.
  intros Hs Hw Hl Hok Hn Hlim. destruct (proj1 Hs Hl) as [b0 Hb0].
  destruct (luat_luadb2_init_spec b0 Hb0) as (ctx0 & Hi & Hb).
  destruct (luadb_build_spec limit fs ctx0 []) as (ctx & Hrun & rest & Hd & Ho);
    [done..|]. cbn [app] in Hd, Ho.
  exists ctx0, ctx, (luadb_image fs ++ rest). rewrite Ho, Nat2Z.id.
  rewrite take_app_length. do 4 (split; [done|]). by apply luadb_read_image.
Qed.

(** The bound is sharp in the name: with a name of 495 bytes or
    more (which [check_file_path] lets through, since it accepts paths of up to
    511), [luat_luadb2_write] stores past the end of the block it reallocated. *)
Theorem luadb_long_name_overflows ctx fs name data b rest :
  built ctx fs → (494 < length name)%nat →
  ldb_dataptr ctx = Some rest →
  ldb_offset ctx + Z.of_nat (length data) + 512 < 2 ^ sizet_bits →
  heap_realloc rest (ldb_offset ctx + Z.of_nat (length data) + 512) = Some b →
  luat_luadb2_write ctx name data (Z.of_nat (length data)) = Fault OutOfBounds.
Proof. intros. by eapply luat_luadb2_write_overflow. Qed.

End properties.

Lemma zero_heap_serves limit : @heap_serves (zero_heap limit) limit.
Proof.
  split; simpl.
  - intros. rewrite decide_True by lia. by eexists.
  - intros b n Hn. rewrite decide_True by lia. by eexists.
Qed.

Lemma luadb_roundtrip_witness : ∃ ctx0 ctx buf,
  @luat_luadb2_init (zero_heap 4096) ldb_zero = Ok (0, ctx0) ∧
  @luadb_build linux32 (zero_heap 4096) ctx0
    [(bytes "main.lua", [27; 76; 117; 97]); (bytes "logo.jpg", [])]
    = Ok ([0; 0], ctx) ∧
  ldb_dataptr ctx = Some buf ∧
  take (Z.to_nat (ldb_offset ctx)) buf
    = luadb_image [(bytes "main.lua", [27; 76; 117; 97]); (bytes "logo.jpg", [])] ∧
  luadb_read buf
    = Some [(bytes "main.lua", [27; 76; 117; 97]); (bytes "logo.jpg", [])].
Proof.
  apply (@luadb_roundtrip linux32 (zero_heap 4096) (zero_heap_laws 4096) 4096).
  - apply zero_heap_serves.
  - reflexivity.
  - lia.
  - repeat constructor; vm_compute; lia.
  - vm_compute. lia.
  - vm_compute. discriminate.
Defined.

Lemma luadb_long_name_overflows_witness :
  @luat_luadb2_write linux32 (zero_heap 4096) (Ldb (Some (luadb_image [])) 24 1024)
    (replicate 495 97) [] 0 = Fault OutOfBounds.
Proof.
  apply (@luadb_long_name_overflows linux32 (zero_heap 4096) (zero_heap_laws 4096)
    _ [] _ [] (luadb_image [] ++ replicate 512 0) (luadb_image [])).
  - exists []. split; reflexivity.
  - rewrite length_replicate. lia.
  - reflexivity.
  - reflexivity.
  - vm_compute. reflexivity.
Defined.
