(* ===== verification/Network.v ===== *)
(** * The libuv network adapter of port/network/luat_network_adapter_libuv.c

    Eight socket slots, each a small state machine driven by two sides: the
    calls of the network stack above (create, connect, send, receive, close)
    and the callbacks of libuv below (connected, data, sent, shut down).  What
    a call gets back from libuv and from the heap is an input ([uv_env]); the
    messages the adapter posts to the network task are its output
    ([nw_events]). *)

From S2P Require Import Prelude.

(** ** Data *)

Inductive sc_state : Type :=
  | SC_IDLE | SC_USED | SC_CONNECTING | SC_CONNECTED | SC_CLOSING | SC_CLOSED.

#[global] Instance sc_state_eq_dec : EqDecision sc_state.
Proof. solve_decision. Defined.

(** One datagram ([uv_udp_data_t]); the [next] links are the list around it. *)
Record uv_udp_data : Type := UdpData {
  ud_addr : Z;        (* from.sin_addr.s_addr *)
  ud_port : Z;        (* from.sin_port, network byte order *)
  ud_data : list Z;   (* [len] bytes *)
}.

(** One slot ([uv_conn_t]); the libuv handles it embeds stay with libuv. *)
Record uv_conn : Type := Conn {
  c_state : sc_state;
  c_tag : Z;
  c_param : Z;
  c_recv_buff : option (list Z);
  c_recv_size : Z;
  c_udp_data : list uv_udp_data;
  c_is_ipv6 : Z;
  c_is_tcp : Z;
}.

#[global] Instance uv_conn_inhabited : Inhabited uv_conn :=
  populate (Conn SC_IDLE 0 0 None 0 [] 0 0).

Definition zero_conn : uv_conn := inhabitant.

(** The events of [cb_to_nw_task] this adapter posts.  All but the DNS result
    lie above [EV_NW_DNS_RESULT] in the adapter interface's numbering. *)
Inductive nw_ev : Type :=
  | EV_NW_DNS_RESULT
  | EV_NW_SOCKET_TX_OK
  | EV_NW_SOCKET_RX_NEW
  | EV_NW_SOCKET_CLOSE_OK
  | EV_NW_SOCKET_REMOTE_CLOSE
  | EV_NW_SOCKET_ERROR
  | EV_NW_SOCKET_CONNECT_OK.

#[global] Instance nw_ev_eq_dec : EqDecision nw_ev.
Proof. solve_decision. Defined.

Record nw_event : Type := NwEvent {
  ne_id : nw_ev; ne_param1 : Z; ne_param2 : Z; ne_param3 : Z; ne_tag : Z;
}.

(** The adapter: the static [sockets], [socket_tag_counter],
    [ctrl.next_socket_index], and the events posted so far. *)
Record adapter : Type := Adapter {
  sockets : list uv_conn;
  socket_tag_counter : Z;
  next_socket_index : Z;
  nw_events : list nw_event;
}.

Definition MAX_SOCK_NUM : nat := 8.

Definition adapter_init : adapter :=
  Adapter (replicate MAX_SOCK_NUM zero_conn) 0xFAFB 0 [].

(** How [cb_to_nw_task]'s own allocations went: the event is queued, it is
    dropped with a log line (no memory for it, or [uv_async_init] refused), or
    the unchecked allocation of the [uv_async_t] returned null. *)
Inductive post_result : Type := Posted | PostDropped | PostNull.

(** The results of the heap and libuv calls made during one operation. *)
Record uv_env : Type := UvEnv {
  env_post : post_result;
  env_heap : bool;        (* luat_heap_malloc / luat_heap_realloc <> NULL *)
  env_connect : Z;        (* uv_tcp_connect *)
  env_shutdown : Z;       (* uv_shutdown *)
  env_async : Z;          (* uv_async_send *)
  env_write : Z;          (* uv_write / uv_udp_send *)
}.

Definition env_good : uv_env := UvEnv Posted true 0 0 0 0.

(** *** Field updates *)

Definition conn (st : adapter) (id : Z) : uv_conn := sockets st !!! Z.to_nat id.

Definition upd_conn (f : uv_conn → uv_conn) (id : Z) (st : adapter) : adapter :=
  Adapter (alter f (Z.to_nat id) (sockets st)) (socket_tag_counter st)
    (next_socket_index st) (nw_events st).

Definition set_tag (t : Z) (c : uv_conn) : uv_conn :=
  Conn (c_state c) t (c_param c) (c_recv_buff c) (c_recv_size c)
    (c_udp_data c) (c_is_ipv6 c) (c_is_tcp c).
Definition set_state (s : sc_state) (c : uv_conn) : uv_conn :=
  Conn s (c_tag c) (c_param c) (c_recv_buff c) (c_recv_size c)
    (c_udp_data c) (c_is_ipv6 c) (c_is_tcp c).
Definition set_recv (b : option (list Z)) (n : Z) (c : uv_conn) : uv_conn :=
  Conn (c_state c) (c_tag c) (c_param c) b n
    (c_udp_data c) (c_is_ipv6 c) (c_is_tcp c).
Definition set_udp (l : list uv_udp_data) (c : uv_conn) : uv_conn :=
  Conn (c_state c) (c_tag c) (c_param c) (c_recv_buff c) (c_recv_size c)
    l (c_is_ipv6 c) (c_is_tcp c).

Definition valid_id (id : Z) : bool := (0 <=? id) && (id <? 8).

(** ** Helpers of the source *)

Definition set_socket_state (id : Z) (s : sc_state) (st : adapter) : adapter :=
  if valid_id id then upd_conn (set_state s) id st else st.

(** [cb_to_nw_task]: socket events carry the parameter and the tag the slot has
    now. *)
Definition cb_to_nw_task (e : uv_env) (ev : nw_ev) (p1 p2 p3 : Z) (st : adapter)
    : res adapter :=
  match env_post e with
  | PostNull => Fault NullDeref
  | PostDropped => Ok st
  | Posted =>
      let '(p3', tag) :=
        if bool_decide (ev = EV_NW_DNS_RESULT) then (p3, 0)
        else (c_param (conn st p1), c_tag (conn st p1)) in
      Ok (Adapter (sockets st) (socket_tag_counter st) (next_socket_index st)
        (nw_events st ++ [NwEvent ev p1 p2 p3' tag]))
  end.

(** The [CHECK_SOCKET_ID] macro: [false] is its [return -1]. *)
Definition CHECK_SOCKET_ID (st : adapter) (id tag : Z) : bool :=
  if negb (valid_id id) then false
  else if (c_tag (conn st id) =? 0) || bool_decide (c_state (conn st id) = SC_CLOSED)
  then false
  else c_tag (conn st id) =? tag.

(** ** Calls from the network stack *)

Definition libuv_socket_check (st : adapter) (id tag : Z) : Z :=
  if negb (valid_id id) then -1
  else if c_tag (conn st id) =? tag then 0 else -1.

Definition libuv_check_ready : Z := 1.

(** The free-slot test and the search of [libuv_create_socket]. *)
Definition slot_free (c : uv_conn) : bool :=
  (c_tag c =? 0) &&
  (bool_decide (c_state c = SC_IDLE) || bool_decide (c_state c = SC_CLOSED)).

Fixpoint create_search (st : adapter) (iz : nat) (n : nat) : option nat :=
  match n with
  | O => None
  | S n' =>
      let tmpi := ((iz + Z.to_nat (next_socket_index st)) mod MAX_SOCK_NUM)%nat in
      if slot_free (sockets st !!! tmpi) then Some tmpi
      else create_search st (S iz) n'
  end.

(** Returns the slot (or -1) and the tag written through [*tag]. *)
Definition libuv_create_socket (is_tcp param is_ipv6 : Z) (st : adapter)
    : Z * option Z * adapter :=
  let stag := socket_tag_counter st in
  let st := Adapter (sockets st) (u64 (socket_tag_counter st + 1))
              (next_socket_index st) (nw_events st) in
  match create_search st 0 MAX_SOCK_NUM with
  | Some tmpi =>
      let id := Z.of_nat tmpi in
      let st := upd_conn (λ c,
        Conn (c_state c) stag param (c_recv_buff c) (c_recv_size c)
          (c_udp_data c) is_ipv6 is_tcp) id st in
      let st := set_socket_state id SC_USED st in
      (id, Some stag,
       Adapter (sockets st) (socket_tag_counter st) (u8 (id + 1)) (nw_events st))
  | None => (-1, None, st)
  end.

(** TCP asks libuv to connect; UDP has nothing to connect and sends itself the
    [udp_connect_async] notification.  [uv_udp_bind]'s result is only logged. *)
Definition libuv_socket_connect (e : uv_env) (id tag local_port : Z) (st : adapter)
    : res (Z * adapter) :=
  if negb (CHECK_SOCKET_ID st id tag) then Ok (-1, st)
  else if negb (c_is_tcp (conn st id) =? 0) then
    let ret := env_connect e in
    if negb (ret =? 0) then Ok (ret, st)
    else Ok (ret, set_socket_state id SC_CONNECTING st)
  else if env_heap e then
    let ret := env_async e in
    if negb (ret =? 0) then Ok (ret, st)
    else Ok (ret, set_socket_state id SC_CONNECTING st)
  else Fault NullDeref.

(** Not supported; the last three do not look at the tag either. *)
Definition libuv_socket_listen (id tag local_port : Z) (st : adapter) : Z * adapter := (-1, st).
Definition libuv_socket_accept (id tag : Z) (st : adapter) : Z * adapter := (-1, st).
Definition libuv_user_cmd (id tag cmd value : Z) (st : adapter) : Z * adapter := (0, st).
Definition libuv_getsockopt2 (id tag level optname : Z) (st : adapter) : Z * adapter := (0, st).
Definition libuv_setsockopt2 (id tag level optname : Z) (st : adapter) : Z * adapter := (0, st).

Definition close_socket (e : uv_env) (id : Z) (st : adapter) : res (Z * adapter) :=
  if env_heap e then
    let ret := if negb (c_is_tcp (conn st id) =? 0) then env_shutdown e
               else env_async e in
    if negb (ret =? 0) then Ok (ret, set_socket_state id SC_CLOSED st)
    else Ok (ret, st)
  else Fault NullDeref.

Definition libuv_socket_disconnect (e : uv_env) (id tag : Z) (st : adapter)
    : res (Z * adapter) :=
  if negb (CHECK_SOCKET_ID st id tag) then Ok (-1, st)
  else if bool_decide (c_state (conn st id) = SC_CLOSED) then Ok (0, st)
  else close_socket e id st.

Definition libuv_socket_force_close (e : uv_env) (id : Z) (st : adapter)
    : res (Z * adapter) :=
  if negb (valid_id id) then Ok (-1, st)
  else if (c_tag (conn st id) =? 0) || bool_decide (c_state (conn st id) = SC_CLOSED)
  then Ok (0, st)
  else '(_, st) ← close_socket e id st; Ok (0, upd_conn (set_tag 0) id st).

Definition libuv_socket_close (e : uv_env) (id tag : Z) (st : adapter)
    : res (Z * adapter) :=
  if negb (CHECK_SOCKET_ID st id tag) then Ok (-1, st)
  else if (c_tag (conn st id) =? 0) || bool_decide (c_state (conn st id) = SC_CLOSED)
  then Ok (0, st)
  else close_socket e id st.

(** [buf] tells whether the caller gave a buffer ([None] asks how much there
    is); the result carries the bytes copied into it and, for UDP, the sender
    ([ntohs] of the port). *)
Definition ntohs (p : Z) : Z := Z.lor (Z.shiftl (Z.land p 0xFF) 8) (Z.shiftr p 8).

Definition recv_tcp (e : uv_env) (id len : Z) (has_buf : bool) (st : adapter)
    : res (Z * list Z * adapter) :=
  let c := conn st id in
  if negb has_buf then Ok (c_recv_size c, [], st)
  else if (c_recv_size c =? 0) && (0 <? len) then Ok (0, [], st)
  else
    let len := if c_recv_size c <? len then c_recv_size c else len in
    let src := default [] (c_recv_buff c) in
    d ← load src 0 (Z.to_nat len);
    let newsize := c_recv_size c - len in
    if newsize =? 0 then Ok (len, d, upd_conn (set_recv None 0) id st)
    else if env_heap e then
      rest ← load src (Z.to_nat len) (Z.to_nat newsize);
      Ok (len, d, upd_conn (set_recv (Some rest) newsize) id st)
    else Fault NullDeref.

Definition recv_udp (id len : Z) (has_buf : bool) (st : adapter)
    : res (Z * list Z * option (Z * Z) * adapter) :=
  let c := conn st id in
  if negb has_buf then
    Ok (match c_udp_data c with
        | [] => 0 | d :: _ => Z.of_nat (length (ud_data d)) end, [], None, st)
  else if len =? 0 then Ok (0, [], None, st)
  else
    match c_udp_data c with
    | [] => Fault NullDeref
    | d :: next =>
        let dlen := Z.of_nat (length (ud_data d)) in
        let len := if dlen <? len then dlen else len in
        out ← load (ud_data d) 0 (Z.to_nat len);
        Ok (len, out, Some (ud_addr d, ntohs (ud_port d)),
            upd_conn (set_udp next) id st)
    end.

Definition libuv_socket_receive (e : uv_env) (id tag len : Z) (has_buf : bool)
    (st : adapter) : res (Z * list Z * option (Z * Z) * adapter) :=
  if negb (CHECK_SOCKET_ID st id tag) then Ok (-1, [], None, st)
  else if negb (c_is_tcp (conn st id) =? 0) then
    '(ret, d, st) ← recv_tcp e id len has_buf st; Ok (ret, d, None, st)
  else recv_udp id len has_buf st.

(** Both transports allocate the request without a check, then hand the buffer
    to libuv ([uv_write] or [uv_udp_send]). *)
Definition libuv_socket_send (e : uv_env) (id tag len : Z) (st : adapter)
    : res (Z * adapter) :=
  if negb (CHECK_SOCKET_ID st id tag) then Ok (-1, st)
  else if len =? 0 then Ok (0, st)
  else if negb (bool_decide (c_state (conn st id) = SC_CONNECTED)) then Ok (-1, st)
  else if env_heap e then
    if negb (env_write e =? 0) then Ok (-1, st) else Ok (len, st)
  else Fault NullDeref.

(** One round of the loop of [libuv_socket_clean]; all buffers of a released
    slot are freed. *)
Definition clean_one (id : Z) (st : adapter) : adapter :=
  if negb (valid_id id) then st
  else if (c_tag (conn st id) =? 0) || bool_decide (c_state (conn st id) = SC_CLOSED)
  then upd_conn (λ c, Conn SC_IDLE (c_tag c) (c_param c) None 0 []
                        (c_is_ipv6 c) (c_is_tcp c)) id st
  else st.

Definition libuv_socket_clean (ids : list Z) (st : adapter) : adapter :=
  fold_left (λ st id, clean_one id st) ids st.

(** ** Callbacks from libuv *)

Section callbacks.
Context (UV_EOF : Z).

(** [data] is the buffer [uv_buf_alloc] gave to libuv, holding [nread] bytes. *)
Definition on_recv (e : uv_env) (id nread : Z) (data : list Z) (st : adapter)
    : res adapter :=
  if negb (valid_id id) then Fault OutOfBounds
  else
    let c := conn st id in
    if nread <? 0 then
      if bool_decide (c_state c = SC_CLOSED) then Ok st
      else if nread =? UV_EOF then
        if negb (bool_decide (c_state c = SC_CLOSING)) &&
           negb (bool_decide (c_state c = SC_CLOSED))
        then cb_to_nw_task e EV_NW_SOCKET_REMOTE_CLOSE id 0 (c_param c)
               (set_socket_state id SC_CLOSING st)
        else Ok st
      else cb_to_nw_task e EV_NW_SOCKET_ERROR id 0 (c_param c)
             (set_socket_state id SC_CLOSING st)
    else if nread =? 0 then Ok st
    else
      d ← load data 0 (Z.to_nat nread);
      match c_recv_buff c with
      | None =>
          if env_heap e then
            cb_to_nw_task e EV_NW_SOCKET_RX_NEW id nread (c_param c)
              (upd_conn (set_recv (Some d) nread) id st)
          else Fault NullDeref
      | Some b =>
          if env_heap e then
            let n := c_recv_size c + nread in
            b' ← store (resize (Z.to_nat n) 0 b) (Z.to_nat (c_recv_size c)) d;
            cb_to_nw_task e EV_NW_SOCKET_RX_NEW id nread (c_param c)
              (upd_conn (set_recv (Some b') n) id st)
          else cb_to_nw_task e EV_NW_SOCKET_ERROR id 0 (c_param c) st
      end.

(** [addr] is the sender, absent when libuv passes a null address. *)
Definition on_recv_udp (e : uv_env) (id nread : Z) (data : list Z)
    (addr : option (Z * Z)) (st : adapter) : res adapter :=
  if nread <=? 0 then Ok st
  else if env_heap e then
    d ← load data 0 (Z.to_nat nread);
    let '(a, p) := default (0, 0) addr in
    if negb (valid_id id) then Fault OutOfBounds
    else cb_to_nw_task e EV_NW_SOCKET_RX_NEW id nread (c_param (conn st id))
           (upd_conn (λ c, set_udp (c_udp_data c ++ [UdpData a p d]) c) id st)
  else Ok st.

(** After a success the read callback is started; its result is only logged. *)
Definition on_connect (e : uv_env) (id status : Z) (st : adapter) : res adapter :=
  if negb (valid_id id) then Fault OutOfBounds
  else if negb (status =? 0)
  then cb_to_nw_task e EV_NW_SOCKET_ERROR id 0 0 (set_socket_state id SC_CLOSED st)
  else cb_to_nw_task e EV_NW_SOCKET_CONNECT_OK id 0 0
         (set_socket_state id SC_CONNECTED st).

Definition udp_connect_async (e : uv_env) (id : Z) (st : adapter) : res adapter :=
  on_connect e id 0 st.

Definition on_close (e : uv_env) (id : Z) (st : adapter) : res adapter :=
  if negb (valid_id id) then Ok st
  else if (c_tag (conn st id) =? 0) || bool_decide (c_state (conn st id) = SC_CLOSED)
  then Ok (upd_conn (set_tag 0) id st)
  else
    st ← cb_to_nw_task e EV_NW_SOCKET_CLOSE_OK id 0 (c_param (conn st id))
           (set_socket_state id SC_CLOSED st);
    Ok (upd_conn (set_tag 0) id st).

Definition on_shutdown (e : uv_env) (id : Z) (st : adapter) : res adapter :=
  if negb (valid_id id) then Ok st
  else if (c_tag (conn st id) =? 0) || bool_decide (c_state (conn st id) = SC_CLOSED)
  then Ok st
  else
    st ← cb_to_nw_task e EV_NW_SOCKET_CLOSE_OK id 0 (c_param (conn st id))
           (set_socket_state id SC_CLOSED st);
    Ok (upd_conn (set_tag 0) id st).

Definition udp_async_close (e : uv_env) (id : Z) (st : adapter) : res adapter :=
  if negb (valid_id id) then Fault OutOfBounds else on_close e id st.

(** [on_sent] and [on_sent_udp]: the request carries the slot and the length. *)
Definition on_sent (e : uv_env) (id len status : Z) (st : adapter) : res adapter :=
  if negb (valid_id id) then Fault OutOfBounds
  else if status =? 0
  then cb_to_nw_task e EV_NW_SOCKET_TX_OK id len (c_param (conn st id)) st
  else cb_to_nw_task e EV_NW_SOCKET_ERROR id 0 (c_param (conn st id)) st.

End callbacks.
