(* ===== verification/NetworkProofs.v ===== *)
(** * Properties of the network adapter model ([Network])

    The slots' invariant over every sequence of calls and callbacks, the tag
    discipline, the search for a free slot, and the two receive queues as a
    byte stream and a queue of datagrams. *)

From S2P Require Import Prelude Network.

(** ** Calls and callbacks as one alphabet *)

Inductive nw_op : Type :=
  | OpCreate (is_tcp param is_ipv6 : Z)
  | OpConnect (id tag local_port : Z)
  | OpDisconnect (id tag : Z)
  | OpForceClose (id : Z)
  | OpClose (id tag : Z)
  | OpReceive (id tag len : Z) (has_buf : bool)
  | OpSend (id tag len : Z)
  | OpClean (ids : list Z)
  | CbRecv (id nread : Z) (data : list Z)
  | CbRecvUdp (id nread : Z) (data : list Z) (addr : option (Z * Z))
  | CbConnect (id status : Z)
  | CbUdpClose (id : Z)
  | CbShutdown (id : Z)
  | CbSent (id len status : Z).

Section exec.
Context (UV_EOF : Z).

(** One step; the values returned to the caller are in [Network]. *)
Definition nw_exec (e : uv_env) (op : nw_op) (st : adapter) : res adapter :=
  match op with
  | OpCreate t p v6 => Ok (libuv_create_socket t p v6 st).2
  | OpConnect id tag port => snd <$> libuv_socket_connect e id tag port st
  | OpDisconnect id tag => snd <$> libuv_socket_disconnect e id tag st
  | OpForceClose id => snd <$> libuv_socket_force_close e id st
  | OpClose id tag => snd <$> libuv_socket_close e id tag st
  | OpReceive id tag len b => snd <$> libuv_socket_receive e id tag len b st
  | OpSend id tag len => snd <$> libuv_socket_send e id tag len st
  | OpClean ids => Ok (libuv_socket_clean ids st)
  | CbRecv id nread data => on_recv UV_EOF e id nread data st
  | CbRecvUdp id nread data addr => on_recv_udp e id nread data addr st
  | CbConnect id status => on_connect e id status st
  | CbUdpClose id => udp_async_close e id st
  | CbShutdown id => on_shutdown e id st
  | CbSent id len status => on_sent e id len status st
  end.

Fixpoint nw_run (ops : list (uv_env * nw_op)) (st : adapter) : res adapter :=
  match ops with
  | [] => Ok st
  | (e, op) :: ops' => st' ← nw_exec e op st; nw_run ops' st'
  end.

End exec.

(** ** The invariant *)

(** A slot's receive buffer has the recorded size. *)
Definition conn_ok (c : uv_conn) : Prop :=
  match c_recv_buff c with
  | None => c_recv_size c = 0
  | Some b => c_recv_size c = Z.of_nat (length b)
  end.

Record net_inv (st : adapter) : Prop := {
  ni_length : length (sockets st) = MAX_SOCK_NUM;
  ni_next : 0 <= next_socket_index st <= 8;
  ni_conns : Forall conn_ok (sockets st);
  ni_tags : Forall (λ c, 0 <= c_tag c < socket_tag_counter st) (sockets st);
  ni_unique : ∀ i j ci cj,
    sockets st !! i = Some ci → sockets st !! j = Some cj →
    c_tag ci = c_tag cj → c_tag ci ≠ 0 → i = j;
}.

(** Updates that keep or drop the tag and keep the buffer well-formed. *)
Definition tame (f : uv_conn → uv_conn) : Prop :=
  (∀ c, conn_ok c → conn_ok (f c)) ∧
  (∀ c, c_tag (f c) = c_tag c ∨ c_tag (f c) = 0).

Lemma tame_set_tag0 : tame (set_tag 0).
Proof. split; [done|]. intros c. by right. Qed.
Lemma tame_set_state s : tame (set_state s).
Proof. split; [done|]. intros c. by left. Qed.
Lemma tame_set_udp l : tame (set_udp l).
Proof. split; [done|]. intros c. by left. Qed.
Lemma tame_snoc_udp d : tame (λ c, set_udp (c_udp_data c ++ d) c).
Proof. split; [done|]. intros c. by left. Qed.
Lemma tame_set_recv_none : tame (set_recv None 0).
Proof. split; [done|]. intros c. by left. Qed.
Lemma tame_set_recv b n : n = Z.of_nat (length b) → tame (set_recv (Some b) n).
Proof. intros ->. split; [done|]. intros c. by left. Qed.
Lemma tame_clean : tame (λ c, Conn SC_IDLE (c_tag c) (c_param c) None 0 []
                                (c_is_ipv6 c) (c_is_tcp c)).
Proof. split; [done|]. intros c. by left. Qed.

Create HintDb net discriminated.
Create Rewrite HintDb net_rw.
#[export] Hint Resolve tame_set_tag0 tame_set_state tame_set_udp tame_snoc_udp
  tame_set_recv_none tame_set_recv tame_clean : net.

Lemma lookup_upd_conn f id st i c :
  sockets (upd_conn f id st) !! i = Some c ↔
  ∃ c0, sockets st !! i = Some c0 ∧
    c = if decide (i = Z.to_nat id) then f c0 else c0.
Proof.
  simpl. destruct (decide (i = Z.to_nat id)) as [->|Hne].
  - rewrite list_lookup_alter_eq. destruct (sockets st !! _); simpl; naive_solver.
  - rewrite list_lookup_alter_ne by done. naive_solver.
Qed.

Lemma net_inv_upd f id st : tame f → net_inv st → net_inv (upd_conn f id st).
Proof.
  intros [Hok Htag] [Hlen Hnext Hc Ht Hu].
  rewrite Forall_lookup in Hc, Ht. split.
  - simpl. by rewrite length_alter.
  - done.
  - apply Forall_lookup. intros i c. rewrite lookup_upd_conn.
    intros (c0 & Hi & ->). case_decide; eauto.
  - apply Forall_lookup. intros i c. rewrite lookup_upd_conn.
    intros (c0 & Hi & ->). specialize (Ht i c0 Hi). simpl in *.
    case_decide; [|done]. destruct (Htag c0) as [->| ->]; lia.
  - intros i j ci cj. rewrite !lookup_upd_conn.
    intros (c0 & Hi & ->) (c1 & Hj & ->) Heq Hne.
    apply (Hu i j c0 c1); [done..| |].
    + repeat case_decide; subst; try done;
        repeat match goal with
        | H : context [c_tag (f ?c)] |- _ => destruct (Htag c) as [E|E]; rewrite E in H
        end; congruence.
    + case_decide; subst; [|done]. destruct (Htag c0); congruence.
Qed.

Lemma net_inv_state id s st : net_inv st → net_inv (set_socket_state id s st).
Proof. unfold set_socket_state. case_match; auto using net_inv_upd with net. Qed.

Lemma net_inv_post e ev p1 p2 p3 st st' :
  cb_to_nw_task e ev p1 p2 p3 st = Ok st' → net_inv st → net_inv st'.
Proof.
  unfold cb_to_nw_task. repeat case_match; intros; inv_res; try done.
  all: match goal with H : net_inv _ |- _ => destruct H end; done.
Qed.


(** ** The operations keep the invariant *)

(** The slot's connection satisfies the invariant of the slots. *)
Lemma conn_ok_at st id : net_inv st → conn_ok (conn st id).
Proof.
  intros Hinv. unfold conn. rewrite list_lookup_total_alt.
  destruct (sockets st !! Z.to_nat id) as [c|] eqn:E; [|done].
  simpl. eapply Forall_lookup_1; [apply ni_conns|]; done.
Qed.

Lemma create_search_lt st n : ∀ iz tmpi,
  create_search st iz n = Some tmpi → (tmpi < MAX_SOCK_NUM)%nat.
Proof.
  induction n as [|n IH]; intros iz tmpi; cbn [create_search]; [done|].
  case_match; [|apply IH]. intros Heq%(inj Some). rewrite <- Heq.
  by apply Nat.mod_upper_bound.
Qed.

Lemma create_search_free st n : ∀ iz tmpi,
  create_search st iz n = Some tmpi → slot_free (sockets st !!! tmpi) = true.
Proof.
  induction n as [|n IH]; intros iz tmpi; cbn [create_search]; [done|].
  case_match; [|apply IH]. intros Heq%(inj Some). by rewrite <- Heq.
Qed.

(** The record [libuv_create_socket] leaves in the slot it takes. *)
Definition created (stag param is_ipv6 is_tcp : Z) (c : uv_conn) : uv_conn :=
  Conn SC_USED stag param (c_recv_buff c) (c_recv_size c) (c_udp_data c)
    is_ipv6 is_tcp.

Lemma libuv_create_socket_eq t p v6 st :
  net_inv st →
  libuv_create_socket t p v6 st =
  let ctr := u64 (socket_tag_counter st + 1) in
  match create_search st 0 MAX_SOCK_NUM with
  | Some i =>
      (Z.of_nat i, Some (socket_tag_counter st),
       Adapter (alter (created (socket_tag_counter st) p v6 t) i (sockets st))
         ctr (Z.of_nat (S i)) (nw_events st))
  | None => (-1, None, Adapter (sockets st) ctr (next_socket_index st) (nw_events st))
  end.
Proof.
  intros Hinv. unfold libuv_create_socket.
  replace (create_search (Adapter _ _ _ _) 0 MAX_SOCK_NUM)
    with (create_search st 0 MAX_SOCK_NUM) by (by destruct st).
  destruct (create_search st 0 MAX_SOCK_NUM) as [i|] eqn:E; [|done].
  pose proof (create_search_lt _ _ _ _ E) as Hlt. unfold MAX_SOCK_NUM in Hlt.
  unfold set_socket_state, valid_id.
  destruct (Z.leb_spec 0 (Z.of_nat i)); [|lia].
  destruct (Z.ltb_spec (Z.of_nat i) 8); [|lia]. simpl. rewrite Nat2Z.id.
  rewrite list_alter_alter_eq. do 2 f_equal. unfold wrapu.
  rewrite Z.mod_small; lia.
Qed.

Lemma net_inv_create t p v6 st :
  net_inv st → 0 < socket_tag_counter st < 2 ^ 64 - 1 →
  net_inv (libuv_create_socket t p v6 st).2.
Proof.
  intros Hinv Hctr. rewrite libuv_create_socket_eq by done. cbv zeta.
  rewrite wrapu_small by lia. pose proof Hinv as [Hlen Hnext Hc Ht Hu].
  rewrite Forall_lookup in Ht.
  destruct (create_search st 0 MAX_SOCK_NUM) as [i|] eqn:E; simpl.
  - pose proof (create_search_lt _ _ _ _ E) as Hlt. unfold MAX_SOCK_NUM in Hlt.
    split; simpl.
    + by rewrite length_alter.
    + lia.
    + apply Forall_alter; [done|]. intros x Hx Hok. exact Hok.
    + apply Forall_lookup. intros j c. rewrite list_lookup_alter.
      case_decide as Hij; [subst j|intros Hj; specialize (Ht j c Hj); lia].
      intros (c0 & Hj & ->)%fmap_Some. simpl. lia.
    + intros j k cj ck. rewrite !list_lookup_alter.
      case_decide as Hij; case_decide as Hik; subst; try done; [..|by apply Hu].
      * intros (c0 & Hj & ->)%fmap_Some Hk Heq _. simpl in Heq.
        specialize (Ht k ck Hk). lia.
      * intros Hj (c0 & Hk & ->)%fmap_Some Heq _. simpl in Heq.
        specialize (Ht j cj Hj). lia.
  - split; simpl; try done. apply Forall_lookup. intros j c Hj.
    specialize (Ht j c Hj). lia.
Qed.

(** Everything but creating a socket leaves the tag counter alone. *)
Lemma counter_upd f id st : socket_tag_counter (upd_conn f id st) = socket_tag_counter st.
Proof. done. Qed.
Lemma counter_state id s st :
  socket_tag_counter (set_socket_state id s st) = socket_tag_counter st.
Proof. unfold set_socket_state. by case_match. Qed.
Lemma counter_post e ev p1 p2 p3 st st' :
  cb_to_nw_task e ev p1 p2 p3 st = Ok st' →
  socket_tag_counter st' = socket_tag_counter st.
Proof. unfold cb_to_nw_task. repeat case_match; intros; by inv_res. Qed.

#[export] Hint Rewrite counter_upd counter_state : net_rw.

(** No slot carries the tag [t]. *)
Definition tag_absent (t : Z) (st : adapter) : Prop :=
  Forall (λ c, c_tag c ≠ t) (sockets st).

Lemma tag_absent_upd f id st t :
  (∀ c, c_tag (f c) = c_tag c ∨ c_tag (f c) = 0) → t ≠ 0 →
  tag_absent t st → tag_absent t (upd_conn f id st).
Proof.
  intros Htag Ht0 Ha. unfold tag_absent in *. rewrite Forall_lookup in *.
  intros i c. rewrite lookup_upd_conn. intros (c0 & Hi & ->).
  case_decide; [|eauto]. destruct (Htag c0) as [->| ->]; eauto.
Qed.

(** [st'] keeps the invariant and the counter of [st] and brings no new tag. *)
Definition keeps (st st' : adapter) : Prop :=
  (net_inv st → net_inv st') ∧
  socket_tag_counter st' = socket_tag_counter st ∧
  (∀ t, t ≠ 0 → tag_absent t st → tag_absent t st').

Lemma keeps_refl st : keeps st st.
Proof. done. Qed.
Lemma keeps_trans st1 st2 st3 : keeps st1 st2 → keeps st2 st3 → keeps st1 st3.
Proof. intros (H1 & E1 & T1) (H2 & E2 & T2). split; [|split; [congruence|]]; auto. Qed.
Lemma keeps_upd f id st : tame f → keeps st (upd_conn f id st).
Proof.
  intros Ht. split; [by apply net_inv_upd|split; [done|]].
  intros. apply tag_absent_upd; [apply Ht|done..].
Qed.
Lemma keeps_state id s st : keeps st (set_socket_state id s st).
Proof.
  unfold set_socket_state. case_match; [|apply keeps_refl].
  apply keeps_upd, tame_set_state.
Qed.
Lemma keeps_post e ev p1 p2 p3 st st' :
  cb_to_nw_task e ev p1 p2 p3 st = Ok st' → keeps st st'.
Proof.
  intros H. split; [by eapply net_inv_post|split; [by eapply counter_post|]].
  intros t _. revert H. unfold cb_to_nw_task. repeat case_match; intros; by inv_res.
Qed.

#[export] Hint Resolve keeps_refl keeps_upd keeps_state keeps_post : net.

Ltac net_cases :=
  repeat first
    [ progress inv_res | case_match | progress simplify_eq/= ].

Lemma keeps_close e id st r :
  close_socket e id st = Ok r → keeps st r.2.
Proof. unfold close_socket. intros. net_cases; auto with net. Qed.

Lemma keeps_recv_tcp e id len b st r :
  recv_tcp e id len b st = Ok r → keeps st r.2.
Proof.
  unfold recv_tcp. intros. net_cases; auto with net; apply keeps_upd.
  all: try by auto with net.
  all: apply tame_set_recv;
    match goal with H : load _ _ _ = Ok ?l |- context [length ?l] =>
      apply load_length in H; rewrite H end.
  all: repeat match goal with H : (_ <? _) = _ |- _ => revert H
              | H : (_ =? _) = _ |- _ => revert H end; lia.
Qed.

Lemma keeps_on_recv UV_EOF e id nread data st st' :
  on_recv UV_EOF e id nread data st = Ok st' → keeps st st'.
Proof.
  unfold on_recv. intros. net_cases; auto with net;
    try (by eapply keeps_post);
    try (by eapply keeps_trans; [apply keeps_state|eapply keeps_post]).
  - eapply keeps_trans; [|by eapply keeps_post].
    split; [|split; [done|intros; apply tag_absent_upd; auto]].
    intros Hinv. apply net_inv_upd; [|done]. apply tame_set_recv.
    pose proof (conn_ok_at st id Hinv) as Hok. unfold conn_ok in Hok.
    case_match; simplify_eq.
    match goal with H : store _ _ _ = Ok _ |- _ => apply store_length in H end.
    rewrite length_resize in *. lia.
  - eapply keeps_trans; [|by eapply keeps_post]. apply keeps_upd, tame_set_recv.
    match goal with H : load _ _ _ = Ok _ |- _ => apply load_length in H; lia end.
Qed.

Lemma keeps_clean ids : ∀ st, keeps st (libuv_socket_clean ids st).
Proof.
  induction ids as [|id ids IH]; intros st; [apply keeps_refl|].
  eapply keeps_trans; [|apply IH]. unfold clean_one.
  repeat case_match; auto with net.
Qed.

(** Every step keeps the invariant; only [OpCreate] moves the counter. *)
Lemma nw_exec_keeps UV_EOF e op st st' :
  nw_exec UV_EOF e op st = Ok st' → (∀ t p v, op ≠ OpCreate t p v) → keeps st st'.
Proof.
  destruct op; simpl; intros Hex Hnc; try (by destruct (Hnc is_tcp param is_ipv6)).
  all: unfold libuv_socket_connect, libuv_socket_disconnect,
    libuv_socket_force_close, libuv_socket_close, libuv_socket_receive,
    libuv_socket_send, on_recv_udp, on_connect, udp_async_close, on_close,
    on_shutdown, on_sent, recv_udp in Hex.
  all: net_cases; auto with net;
    eauto using keeps_close, keeps_on_recv, keeps_clean with net.
  all: repeat match goal with
    | H : close_socket _ _ _ = Ok _ |- _ => apply keeps_close in H; simpl in H
    | H : recv_tcp _ _ _ _ _ = Ok _ |- _ => apply keeps_recv_tcp in H; simpl in H
    end; try done.
  all: try (by eapply keeps_trans; [apply keeps_state|eapply keeps_post]).
  all: try (by eapply keeps_trans; [|eapply keeps_post; eassumption]; auto with net).
  all: eapply keeps_trans; [|by apply keeps_upd, tame_set_tag0].
  all: try done.
  all: eapply keeps_trans; [apply keeps_state|by eapply keeps_post].
Qed.

(** ** Runs *)

Lemma nw_exec_inv UV_EOF e op st st' :
  nw_exec UV_EOF e op st = Ok st' → net_inv st →
  0 < socket_tag_counter st < 2 ^ 64 - 1 →
  net_inv st' ∧
  socket_tag_counter st <= socket_tag_counter st' <= socket_tag_counter st + 1 ∧
  (∀ t, t ≠ 0 → t < socket_tag_counter st → tag_absent t st → tag_absent t st').
Proof.
  intros Hex Hinv Hctr.
  destruct op; [|match type of Hex with nw_exec _ _ ?o _ = _ =>
    destruct (nw_exec_keeps _ _ o _ _ Hex) as (H1 & H2 & H3); [done|] end;
    split; [auto|split; [lia|intros; auto]]..].
  simpl in Hex. inv_res. split; [by apply net_inv_create|].
  rewrite libuv_create_socket_eq by done. cbv zeta. rewrite wrapu_small by lia.
  destruct (create_search st 0 MAX_SOCK_NUM) as [i|]; simpl; (split; [lia|]).
  - intros t Ht Hlt Ha. apply Forall_alter; [done|]. simpl. lia.
  - done.
Qed.

Lemma nw_run_inv UV_EOF ops : ∀ st st',
  nw_run UV_EOF ops st = Ok st' → net_inv st → 0 < socket_tag_counter st →
  socket_tag_counter st + Z.of_nat (length ops) < 2 ^ 64 →
  net_inv st' ∧
  (∀ t, t ≠ 0 → t < socket_tag_counter st → tag_absent t st → tag_absent t st').
Proof.
  induction ops as [|[e op] ops IH]; intros st st' Hrun Hinv Hpos Hlen.
  { simpl in Hrun. by inv_res. }
  cbn [nw_run] in Hrun. inv_res. cbn [length] in Hlen.
  destruct (nw_exec_inv _ _ _ _ _ E Hinv) as (Hinv1 & Hctr & Hta); [lia|].
  destruct (IH _ _ Hrun Hinv1) as [Hinv2 Hta2]; [lia|lia|].
  split; [done|]. intros t ???. apply Hta2; [done|lia|auto].
Qed.

Lemma net_inv_init : net_inv adapter_init.
Proof.
  split; try done.
  - by apply Forall_replicate.
  - by apply Forall_replicate.
  - cbn [sockets adapter_init]. intros i j ci cj Hi _ _ Hne.
    apply lookup_replicate in Hi as [-> _]. by destruct Hne.
Qed.

(** C3 (invariant).  After any sequence of calls and libuv callbacks from the
    initial state that runs to its end (at most 2 to the 64 less 0xFAFB of them, so that
    the tag counter does not wrap), the adapter has its eight slots, every
    receive buffer has the recorded size, every tag in use is below the counter
    and no two slots share a tag. *)
Theorem nw_run_preserves_inv UV_EOF ops st :
  nw_run UV_EOF ops adapter_init = Ok st →
  Z.of_nat (length ops) < 2 ^ 64 - 0xFAFB →
  net_inv st.
Proof.
  intros Hrun Hlen. apply (nw_run_inv UV_EOF ops adapter_init);
    [done|apply net_inv_init|done|simpl; lia].
Qed.

Lemma check_tag_absent st id t :
  net_inv st → t ≠ 0 → tag_absent t st → CHECK_SOCKET_ID st id t = false.
Proof.
  intros Hinv Ht Ha. unfold CHECK_SOCKET_ID.
  destruct (negb (valid_id id)) eqn:Hid; [done|]. case_match; [done|].
  unfold conn. rewrite list_lookup_total_alt.
  apply Z.eqb_neq. destruct (sockets st !! Z.to_nat id) as [c|] eqn:E.
  - by eapply (Forall_lookup_1 _ _ _ _ Ha).
  - simpl. congruence.
Qed.

Lemma socket_check_absent st id t :
  t ≠ 0 → tag_absent t st → libuv_socket_check st id t = -1.
Proof.
  intros Ht Ha. unfold libuv_socket_check. destruct (negb (valid_id id)); [done|].
  unfold conn. rewrite list_lookup_total_alt.
  destruct (Z.eqb_spec (c_tag (default inhabitant (sockets st !! Z.to_nat id))) t) as [E|]; [|done].
  destruct (sockets st !! Z.to_nat id) as [c|] eqn:Ec.
  - by destruct (Forall_lookup_1 _ _ _ _ Ha Ec).
  - simpl in E. congruence.
Qed.

(** C20 (safety).  Tags are never reused: once a tag that was handed out is in
    no slot any more, then after any further run the calls that use a socket with it
    (connect, disconnect, close, receive, send) and the check of the tag answer -1 and
    change nothing, whatever slot they name, even when the slot has been given to a new
    socket.  The other five calls that take a tag never look at it and leave every
    socket alone: listen and accept answer -1; [libuv_user_cmd], [libuv_getsockopt2] and
    [libuv_setsockopt2] answer 0, for a stale tag too. *)
Theorem stale_tag_refused UV_EOF ops st st' t id e port len has_buf cmd value level optname :
  net_inv st → 0 < t < socket_tag_counter st → tag_absent t st →
  nw_run UV_EOF ops st = Ok st' →
  socket_tag_counter st + Z.of_nat (length ops) < 2 ^ 64 →
  (libuv_socket_check st' id t = -1 ∧
   libuv_socket_connect e id t port st' = Ok (-1, st') ∧
   libuv_socket_disconnect e id t st' = Ok (-1, st') ∧
   libuv_socket_close e id t st' = Ok (-1, st') ∧
   libuv_socket_receive e id t len has_buf st' = Ok (-1, [], None, st') ∧
   libuv_socket_send e id t len st' = Ok (-1, st')) ∧
  libuv_socket_listen id t port st' = (-1, st') ∧
  libuv_socket_accept id t st' = (-1, st') ∧
  libuv_user_cmd id t cmd value st' = (0, st') ∧
  libuv_getsockopt2 id t level optname st' = (0, st') ∧
  libuv_setsockopt2 id t level optname st' = (0, st').
Proof.
  intros Hinv Ht Ha Hrun Hlen.
  destruct (nw_run_inv _ _ _ _ Hrun Hinv) as [Hinv' Ha']; [lia|lia|].
  assert (tag_absent t st') as Habs by (apply Ha'; [lia|lia|done]).
  assert (CHECK_SOCKET_ID st' id t = false) as Hchk by (apply check_tag_absent; [done|lia|done]).
  split; [split; [by apply socket_check_absent; [lia|]|]|done].
  unfold libuv_socket_connect, libuv_socket_disconnect, libuv_socket_close,
    libuv_socket_receive, libuv_socket_send. by rewrite Hchk.
Qed.

(** ** Slots *)

Lemma create_search_first st n : ∀ iz,
  match create_search st iz n with
  | Some i => ∃ k, (k < n)%nat ∧
      i = ((iz + k + Z.to_nat (next_socket_index st)) mod MAX_SOCK_NUM)%nat ∧
      slot_free (sockets st !!! i) = true ∧
      ∀ k', (k' < k)%nat →
        slot_free (sockets st !!!
          ((iz + k' + Z.to_nat (next_socket_index st)) mod MAX_SOCK_NUM)%nat) = false
  | None => ∀ k', (k' < n)%nat →
      slot_free (sockets st !!!
        ((iz + k' + Z.to_nat (next_socket_index st)) mod MAX_SOCK_NUM)%nat) = false
  end.
Proof.
  induction n as [|n IH]; intros iz; cbn [create_search]; [lia|].
  destruct (slot_free (sockets st !!! _)) eqn:E.
  - exists 0%nat. rewrite Nat.add_0_r. split; [lia|]. split; [done|].
    split; [done|lia].
  - specialize (IH (S iz)). destruct (create_search st (S iz) n) as [i|].
    + destruct IH as (k & Hk & Hi & Hf & Hb). exists (S k).
      split; [lia|]. split; [by rewrite Nat.add_succ_r|]. split; [done|].
      intros [|k'] Hk'; [by rewrite Nat.add_0_r|].
      rewrite Nat.add_succ_r. apply (Hb k'). lia.
    + intros [|k'] Hk'; [by rewrite Nat.add_0_r|].
      rewrite Nat.add_succ_r. apply (IH k'). lia.
Qed.

(** C40 (functional).  [libuv_create_socket] takes the first free slot at or
    after [next_socket_index], cyclically, marks it used under a tag no slot
    has, remembers the next index, and touches no other slot; it returns -1,
    changing only the tag counter, exactly when none of the eight is free. *)
Theorem create_socket_spec is_tcp param is_ipv6 st :
  net_inv st → 0 < socket_tag_counter st < 2 ^ 64 - 1 →
  let start := Z.to_nat (next_socket_index st) in
  let free k := slot_free (sockets st !!! ((k + start) mod MAX_SOCK_NUM)%nat) in
  let '(ret, tag, st') := libuv_create_socket is_tcp param is_ipv6 st in
  match tag with
  | Some t => ∃ k, (k < 8)%nat ∧ free k = true ∧
      (∀ k', (k' < k)%nat → free k' = false) ∧
      ret = Z.of_nat ((k + start) mod MAX_SOCK_NUM) ∧
      t = socket_tag_counter st ∧ tag_absent t st ∧
      conn st' ret = created t param is_ipv6 is_tcp (conn st ret) ∧
      (∀ i, Z.of_nat i ≠ ret → sockets st' !! i = sockets st !! i) ∧
      next_socket_index st' = ret + 1
  | None => ret = -1 ∧ sockets st' = sockets st ∧
      (∀ k, (k < 8)%nat → free k = false)
  end.
Proof.
  intros Hinv Hctr start free. rewrite libuv_create_socket_eq by done. cbv zeta.
  pose proof (create_search_first st MAX_SOCK_NUM 0) as Hs.
  destruct (create_search st 0 MAX_SOCK_NUM) as [i|] eqn:E.
  - destruct Hs as (k & Hk & Hi & Hf & Hb). cbn [Nat.add] in Hi, Hb.
    exists k. split; [done|]. split; [unfold free, start; by rewrite <- Hi|].
    split; [done|]. split; [by rewrite Hi|]. split; [done|].
    split; [|split; [|split]].
    + unfold tag_absent. pose proof (ni_tags _ Hinv) as Ht.
      eapply Forall_impl; [exact Ht|]. simpl. lia.
    + unfold conn. simpl. rewrite Nat2Z.id. apply list_lookup_total_alter_eq.
      rewrite (ni_length _ Hinv). by eapply create_search_lt.
    + intros j Hj. simpl. apply list_lookup_alter_ne. intros ->. done.
    + simpl. lia.
  - done.
Qed.

(** ** The properties on a concrete run *)

(** A TCP connection that carries three bytes, is closed by its owner and
    replaced by a UDP socket. *)
Definition demo_ops : list (uv_env * nw_op) :=
  map (pair env_good)
    [OpCreate 1 7 0; OpConnect 0 0xFAFB 0; CbConnect 0 0; CbRecv 0 3 [1; 2; 3];
     OpSend 0 0xFAFB 5; CbSent 0 5 0; OpClose 0 0xFAFB; CbShutdown 0;
     OpCreate 0 8 0].

Definition run_or_init (ops : list (uv_env * nw_op)) : adapter :=
  match nw_run (-4095) ops adapter_init with Ok st => st | Fault _ => adapter_init end.

Lemma run_or_init_inv ops :
  Z.of_nat (length ops) < 1000 → net_inv (run_or_init ops).
Proof.
  intros Hlen. unfold run_or_init.
  destruct (nw_run (-4095) ops adapter_init) as [st|] eqn:E; [|apply net_inv_init].
  destruct (nw_run_inv _ _ _ _ E net_inv_init) as [Hinv _]; [done|simpl; lia|done].
Qed.

Lemma nw_run_preserves_inv_witness :
  nw_run (-4095) demo_ops adapter_init = Ok (run_or_init demo_ops) ∧
  net_inv (run_or_init demo_ops).
Proof.
  split; [by vm_compute|].
  apply (nw_run_preserves_inv (-4095) demo_ops); by vm_compute.
Defined.

(** The closed connection's tag, after its slot's successor was created. *)
Lemma stale_tag_refused_witness :
  let st := run_or_init (take 8 demo_ops) in
  ∃ st', nw_run (-4095) (drop 8 demo_ops) st = Ok st' ∧
    libuv_socket_close env_good 0 0xFAFB st' = Ok (-1, st').
Proof.
  exists (run_or_init demo_ops). split; [by vm_compute|].
  refine (proj1 (proj2 (proj2 (proj2 (proj1 (stale_tag_refused (-4095) (drop 8 demo_ops)
    (run_or_init (take 8 demo_ops)) (run_or_init demo_ops) 0xFAFB 0 env_good 0 0 true 0 0 0 0
    _ _ _ _ _)))))).
  - apply run_or_init_inv. by vm_compute.
  - vm_compute. done.
  - unfold tag_absent. refine (bool_decide_eq_true_1 _ _). by vm_compute.
  - by vm_compute.
  - by vm_compute.
Defined.

Lemma create_socket_spec_witness :
  let '(ret, tag, st') := libuv_create_socket 1 0 0 (run_or_init demo_ops) in
  ret = 2 ∧ tag = Some 0xFAFD ∧ next_socket_index st' = ret + 1.
Proof.
  pose proof (create_socket_spec 1 0 0 (run_or_init demo_ops)) as H.
  destruct (libuv_create_socket 1 0 0 (run_or_init demo_ops)) as [[ret tag] st'] eqn:E.
  assert (ret = 2 ∧ tag = Some 0xFAFD) as [-> ->].
  { apply (f_equal fst) in E. vm_compute in E. by inversion E. }
  split; [done|]. split; [done|].
  destruct H as (k & H).
  - apply run_or_init_inv. by vm_compute.
  - by vm_compute.
  - apply H.
Defined.
