(* ===== verification/NetworkQueues.v ===== *)
(** * The receive side of the network adapter

    A TCP slot is a byte stream and a UDP slot a queue of datagrams between the
    libuv callbacks that fill them and [libuv_socket_receive]; and what becomes
    of a slot's contents and of the slot itself when a connection ends. *)

From S2P Require Import Prelude Network NetworkProofs.

(** ** Looking at slots *)

Lemma valid_id_nat st id :
  net_inv st → valid_id id = true → (Z.to_nat id < length (sockets st))%nat.
Proof.
  intros Hinv. unfold valid_id. rewrite (ni_length _ Hinv). unfold MAX_SOCK_NUM.
  lia.
Qed.

Lemma conn_upd_eq f id st :
  net_inv st → valid_id id = true → conn (upd_conn f id st) id = f (conn st id).
Proof.
  intros Hinv Hid. unfold conn. simpl. apply list_lookup_total_alter_eq.
  by apply valid_id_nat.
Qed.

Lemma conn_upd_ne f id id' st :
  valid_id id = true → valid_id id' = true → id ≠ id' →
  conn (upd_conn f id st) id' = conn st id'.
Proof.
  intros Hid Hid' Hne. unfold conn. simpl. apply list_lookup_total_alter_ne.
  unfold valid_id in *. lia.
Qed.

Lemma conn_post e ev p1 p2 p3 st st' id :
  cb_to_nw_task e ev p1 p2 p3 st = Ok st' → conn st' id = conn st id.
Proof. unfold cb_to_nw_task. repeat case_match; intros; by inv_res. Qed.

Lemma CHECK_SOCKET_ID_true st id tag :
  CHECK_SOCKET_ID st id tag = true ↔
  valid_id id = true ∧ c_tag (conn st id) = tag ∧ tag ≠ 0 ∧
  c_state (conn st id) ≠ SC_CLOSED.
Proof.
  unfold CHECK_SOCKET_ID. destruct (valid_id id); simpl; [|naive_solver].
  destruct (Z.eqb_spec (c_tag (conn st id)) 0); simpl; [naive_solver|].
  case_bool_decide; [naive_solver|]. rewrite Z.eqb_eq. naive_solver.
Qed.

(** ** TCP: a byte stream *)

Definition stream (st : adapter) (id : Z) : list Z :=
  default [] (c_recv_buff (conn st id)).




(** The slot is a live TCP socket under [tag]. *)
Definition tcp_live (st : adapter) (id tag : Z) : Prop :=
  net_inv st ∧ CHECK_SOCKET_ID st id tag = true ∧ c_is_tcp (conn st id) ≠ 0.

Lemma stream_size st id :
  net_inv st → c_recv_size (conn st id) = Z.of_nat (length (stream st id)).
Proof.
  intros Hinv. pose proof (conn_ok_at st id Hinv) as Hok. unfold conn_ok in Hok.
  unfold stream. by case_match.
Qed.

(** A slot updated only in its receive buffer stays live. *)
Lemma tcp_live_recv st st' id tag b n :
  tcp_live st id tag → net_inv st' →
  conn st' id = set_recv b n (conn st id) → tcp_live st' id tag.
Proof.
  intros (Hinv & Hchk & Htcp) Hinv' Hc. split; [done|].
  rewrite CHECK_SOCKET_ID_true in *. rewrite !Hc. done.
Qed.



Lemma tcp_read st id tag len :
  tcp_live st id tag → 0 <= len →
  ∃ st', libuv_socket_receive env_good id tag len true st
      = Ok (Z.of_nat (length (take (Z.to_nat len) (stream st id))),
            take (Z.to_nat len) (stream st id), None, st') ∧
    tcp_live st' id tag ∧ stream st' id = drop (Z.to_nat len) (stream st id).
Proof.
  intros Hl Hlen. pose proof Hl as (Hinv & Hchk & Htcp).
  pose proof Hchk as (Hid & _)%CHECK_SOCKET_ID_true.
  pose proof (stream_size st id Hinv) as Hsz.
  unfold libuv_socket_receive. rewrite Hchk. cbn [negb].
  destruct (Z.eqb_spec (c_is_tcp (conn st id)) 0); [done|]. cbn [negb].
  unfold recv_tcp. cbn [negb]. rewrite Hsz. fold (stream st id).
  set (s := stream st id) in *.
  destruct ((Z.of_nat (length s) =? 0) && (0 <? len)) eqn:Hempty.
  { exists st. assert (s = []) as Hs by (destruct s; [done|simpl in *; lia]).
    cbn [mbind res_bind]. rewrite Hs, take_nil, drop_nil. split; [done|].
    split; [done|]. fold s. by rewrite Hs. }
  set (len' := if Z.of_nat (length s) <? len then Z.of_nat (length s) else len).
  assert (Z.to_nat len' = Nat.min (Z.to_nat len) (length s) ∧ 0 <= len') as [Hl' Hp].
  { unfold len'. destruct (Z.ltb_spec (Z.of_nat (length s)) len); lia. }
  assert (take (Z.to_nat len') s = take (Z.to_nat len) s) as Htake.
  { rewrite Hl'. destruct (Nat.min_spec (Z.to_nat len) (length s)) as [[_ ->]|[H ->]];
      [done|]. by rewrite !take_ge by lia. }
  assert (drop (Z.to_nat len') s = drop (Z.to_nat len) s) as Hdrop.
  { rewrite Hl'. destruct (Nat.min_spec (Z.to_nat len) (length s)) as [[_ ->]|[H ->]];
      [done|]. by rewrite !drop_ge by lia. }
  rewrite (load_Ok s 0) by lia. rewrite drop_0, Htake. cbn [mbind res_bind].
  assert (Z.of_nat (length (take (Z.to_nat len) s)) = len') as ->.
  { rewrite <- Htake, length_take. lia. }
  destruct (Z.eqb_spec (Z.of_nat (length s) - len') 0) as [Hz|Hz].
  - eexists. split; [done|]. rewrite <- Hdrop, drop_ge by lia.
    split; [|unfold stream; by rewrite conn_upd_eq].
    eapply tcp_live_recv; [done| |by apply conn_upd_eq].
    by apply net_inv_upd; auto with net.
  - rewrite (load_Ok s (Z.to_nat len')) by lia. cbn [env_heap env_good mbind res_bind].
    rewrite (take_ge (drop (Z.to_nat len') s)) by (rewrite length_drop; lia).
    rewrite Hdrop.
    eexists. split; [done|].
    split; [|unfold stream; by rewrite conn_upd_eq].
    eapply tcp_live_recv; [done| |by apply conn_upd_eq].
    apply net_inv_upd; [|done]. apply tame_set_recv.
    rewrite <- Hdrop, length_drop. lia.
Qed.


(** ** UDP: a queue of datagrams *)




Definition udp_live (st : adapter) (id tag : Z) : Prop :=
  net_inv st ∧ CHECK_SOCKET_ID st id tag = true ∧ c_is_tcp (conn st id) = 0.

Lemma udp_live_set st st' id tag l :
  udp_live st id tag → net_inv st' → conn st' id = set_udp l (conn st id) →
  udp_live st' id tag ∧ c_udp_data (conn st' id) = l.
Proof.
  intros (Hinv & Hchk & Htcp) Hinv' Hc. unfold udp_live.
  rewrite CHECK_SOCKET_ID_true in *. by rewrite !Hc.
Qed.


Lemma udp_receive st id tag len d q :
  udp_live st id tag → 0 < len → c_udp_data (conn st id) = d :: q →
  ∃ st', libuv_socket_receive env_good id tag len true st
      = Ok (Z.of_nat (length (take (Z.to_nat len) (ud_data d))),
            take (Z.to_nat len) (ud_data d),
            Some (ud_addr d, ntohs (ud_port d)), st') ∧
    udp_live st' id tag ∧ c_udp_data (conn st' id) = q.
Proof.
  intros Hl Hlen Hq. pose proof Hl as (Hinv & Hchk & Htcp).
  unfold libuv_socket_receive. rewrite Hchk, Htcp. cbn [negb Z.eqb].
  unfold recv_udp. rewrite Hq. cbn [negb].
  destruct (Z.eqb_spec len 0); [lia|].
  set (l := if _ <? len then _ else len).
  assert (Z.to_nat l = length (take (Z.to_nat len) (ud_data d)) ∧ 0 <= l) as [E Hp].
  { unfold l. rewrite length_take.
    destruct (Z.ltb_spec (Z.of_nat (length (ud_data d))) len); lia. }
  rewrite load_Ok by (rewrite E, length_take; lia). cbn [mbind res_bind].
  rewrite drop_0.
  replace (take (Z.to_nat l) (ud_data d)) with (take (Z.to_nat len) (ud_data d)).
  2: { rewrite E, length_take. destruct (Nat.min_spec (Z.to_nat len)
         (length (ud_data d))) as [[_ ->]|[H ->]]; [done|]. by rewrite !take_ge by lia. }
  rewrite <- E, Z2Nat.id by done. eexists. split; [done|].
  eapply udp_live_set; [done|by apply net_inv_upd; auto with net|].
  by rewrite conn_upd_eq by (done || by apply CHECK_SOCKET_ID_true in Hchk as [? _]).
Qed.


(** A receive into a buffer on a live UDP slot dereferences the
    null head of the list exactly when no datagram is waiting. *)
Theorem udp_receive_empty_faults id tag len st :
  udp_live st id tag → 0 < len →
  (libuv_socket_receive env_good id tag len true st = Fault NullDeref ↔
   c_udp_data (conn st id) = []).
Proof.
  intros Hl Hlen. destruct (c_udp_data (conn st id)) as [|d q] eqn:Hq.
  - pose proof Hl as (Hinv & Hchk & Htcp).
    unfold libuv_socket_receive. rewrite Hchk, Htcp. cbn [negb Z.eqb].
    unfold recv_udp. rewrite Hq. cbn [negb].
    destruct (Z.eqb_spec len 0); [lia|done].
  - destruct (udp_receive st id tag len d q Hl Hlen Hq) as (st' & -> & _). done.
Qed.

(** ** Slots after the connection ends *)

(** The tag and the state of a slot, which decide whether it can be used. *)
Definition key (st : adapter) (id : Z) : Z * sc_state :=
  (c_tag (conn st id), c_state (conn st id)).

(** A slot that is closed but still carries its tag. *)
Definition stuck (st : adapter) (id : Z) : Prop :=
  valid_id id = true ∧ c_tag (conn st id) ≠ 0 ∧ c_state (conn st id) = SC_CLOSED.

(** The steps that can release such a slot: a clean that lists it, or a libuv
    notification about a connection attempt or a UDP close on it. *)
Definition releases (id : Z) (op : nw_op) : bool :=
  match op with
  | OpClean ids => bool_decide (id ∈ ids)
  | CbConnect id' _ | CbUdpClose id' => id' =? id
  | _ => false
  end.

Lemma key_post e ev p1 p2 p3 st st' id :
  cb_to_nw_task e ev p1 p2 p3 st = Ok st' → key st' id = key st id.
Proof. intros H. unfold key. by rewrite (conn_post _ _ _ _ _ _ _ _ H). Qed.

Lemma key_upd_same f id' st id :
  (∀ c, c_tag (f c) = c_tag c ∧ c_state (f c) = c_state c) →
  key (upd_conn f id' st) id = key st id.
Proof.
  intros Hf. unfold key, conn. simpl. rewrite !list_lookup_total_alt.
  rewrite list_lookup_alter. case_decide as E; [rewrite E|done].
  destruct (sockets st !! _) as [c|]; [|done]. simpl. by destruct (Hf c) as [-> ->].
Qed.

Lemma key_upd_ne f id' st id :
  valid_id id' = true → valid_id id = true → id' ≠ id →
  key (upd_conn f id' st) id = key st id.
Proof. intros. unfold key. by rewrite conn_upd_ne. Qed.

Lemma key_state_ne s id' st id :
  valid_id id = true → id' ≠ id → key (set_socket_state id' s st) id = key st id.
Proof. intros. unfold set_socket_state. case_match; [by apply key_upd_ne|done]. Qed.

Lemma live_ne st id id' tag :
  CHECK_SOCKET_ID st id' tag = true → stuck st id → valid_id id' = true ∧ id' ≠ id.
Proof. intros (?&?&?&?)%CHECK_SOCKET_ID_true (?&?&?). naive_solver. Qed.

Lemma key_close e id' st r id :
  close_socket e id' st = Ok r → valid_id id = true → id' ≠ id →
  key r.2 id = key st id.
Proof. unfold close_socket. intros. net_cases; by rewrite ?key_state_ne. Qed.

Lemma key_recv_tcp e id' len b st r id :
  recv_tcp e id' len b st = Ok r → key r.2 id = key st id.
Proof. unfold recv_tcp. intros. net_cases; by rewrite ?key_upd_same. Qed.

Lemma key_create t p v6 st id :
  net_inv st → stuck st id → key (libuv_create_socket t p v6 st).2 id = key st id.
Proof.
  intros Hinv (Hid & Htag & Hst). rewrite libuv_create_socket_eq by done. cbv zeta.
  destruct (create_search st 0 MAX_SOCK_NUM) as [i|] eqn:E; [|done].
  apply create_search_free in E. unfold key, conn. simpl.
  rewrite list_lookup_total_alter_ne; [done|]. intros ->.
  unfold slot_free in E. apply andb_true_iff in E as [E%Z.eqb_eq _]. done.
Qed.

Lemma key_clean id : ∀ ids st,
  valid_id id = true → id ∉ ids → key (libuv_socket_clean ids st) id = key st id.
Proof.
  induction ids as [|id' ids IH]; intros st Hid Hni; [done|].
  apply not_elem_of_cons in Hni as [Hne Hni].
  change (key (libuv_socket_clean ids (clean_one id' st)) id = key st id).
  rewrite IH by done. unfold clean_one. destruct (valid_id id') eqn:Hid'; [|done].
  cbn [negb]. case_match; [by rewrite key_upd_ne|done].
Qed.

Ltac key_done :=
  repeat first
  [ progress rewrite ?key_upd_same by done
  | progress rewrite ?key_upd_ne by done
  | progress rewrite ?key_state_ne by done
  | match goal with
    | H : cb_to_nw_task _ _ _ _ _ _ = Ok ?s |- context [key ?s ?i] =>
        rewrite (key_post _ _ _ _ _ _ _ i H)
    | H : close_socket _ _ _ = Ok ?r |- context [key _ ?i] =>
        let K := fresh "K" in
        assert (K := key_close _ _ _ _ i H); simpl in K; rewrite K by done
    end ]; try done.

(** A step on another slot, or one that does not release this one, leaves a
    stuck slot's tag and state alone. *)
Lemma stuck_exec UV_EOF e op st st' id :
  net_inv st → nw_exec UV_EOF e op st = Ok st' → releases id op = false →
  stuck st id → key st' id = key st id.
Proof.
  intros Hinv Hex Hrel Hstuck. pose proof Hstuck as (Hid & Htag & Hst).
  destruct op; simpl in Hex, Hrel.
  all: unfold libuv_socket_connect, libuv_socket_disconnect, libuv_socket_close,
    libuv_socket_receive, libuv_socket_send, recv_udp in Hex.
  all: try (destruct (CHECK_SOCKET_ID _ _ _) eqn:Hchk; cbn [negb] in Hex;
    [destruct (live_ne _ _ _ _ Hchk Hstuck)|by inv_res]).
  - inv_res. by apply key_create.
  - net_cases; key_done.
  - net_cases; key_done.
  - unfold libuv_socket_force_close in Hex.
    destruct (valid_id id0) eqn:Hid0; simpl in Hex; [|by inv_res].
    destruct (decide (id0 = id)) as [->|Hne]; [|by net_cases; key_done].
    rewrite Hst, orb_true_r in Hex. by inv_res.
  - net_cases; key_done.
  - net_cases; try by key_done. by apply (key_recv_tcp _ _ _ _ _ _ id) in E0.
  - net_cases; key_done.
  - inv_res. apply key_clean; [done|]. by apply bool_decide_eq_false in Hrel.
  - unfold on_recv in Hex. destruct (decide (id0 = id)) as [->|Hne].
    + rewrite Hst in Hex. net_cases; key_done.
    + net_cases; key_done.
  - unfold on_recv_udp in Hex. net_cases; key_done.
  - apply Z.eqb_neq in Hrel. unfold on_connect in Hex. net_cases; key_done.
  - apply Z.eqb_neq in Hrel. unfold udp_async_close, on_close in Hex.
   
    destruct (valid_id id0) eqn:Hid0; simpl in Hex; [|by inv_res].
    net_cases; key_done.
  - unfold on_shutdown in Hex.
    destruct (valid_id id0) eqn:Hid0; simpl in Hex; [|by inv_res].
    destruct (decide (id0 = id)) as [->|Hne].
    + rewrite Hst, orb_true_r in Hex. by inv_res.
    + net_cases; key_done.
  - unfold on_sent in Hex. net_cases; key_done.
Qed.

Lemma stuck_key st st' id : stuck st id → key st' id = key st id → stuck st' id.
Proof. unfold stuck, key. intros (?&?&?) [= -> ->]. done. Qed.

Lemma stuck_run UV_EOF id ops : ∀ st st',
  net_inv st → 0 < socket_tag_counter st →
  socket_tag_counter st + Z.of_nat (length ops) < 2 ^ 64 →
  Forall (λ p, releases id p.2 = false) ops →
  nw_run UV_EOF ops st = Ok st' → stuck st id → key st' id = key st id.
Proof.
  induction ops as [|[e op] ops IH]; intros st st' Hinv Hpos Hlen Hrel Hrun Hstuck.
  { simpl in Hrun. by inv_res. }
  apply Forall_cons in Hrel as [Hrel1 Hrel]. cbn [nw_run] in Hrun. inv_res.
  cbn [length] in Hlen.
  destruct (nw_exec_inv _ _ _ _ _ E Hinv) as (Hinv1 & Hctr & _); [lia|].
  pose proof (stuck_exec _ _ _ _ _ _ Hinv E Hrel1 Hstuck) as Hkey.
  rewrite <- Hkey. eapply IH; [done|lia|lia|done|done|]. by eapply stuck_key.
Qed.

(** A slot whose connection attempt failed is lost to the program
    that owns it: [on_connect] leaves it closed with its tag still set, and
    whatever runs afterwards, short of a clean that lists the slot or another
    libuv notification about its connection or UDP close, it is not free for a
    new socket, its owner's close is refused and a forced close does nothing. *)
Theorem failed_connect_keeps_slot UV_EOF e id status st st1 ops st2 :
  net_inv st → 0 < socket_tag_counter st →
  socket_tag_counter st + Z.of_nat (length ops) < 2 ^ 64 →
  valid_id id = true → c_tag (conn st id) ≠ 0 → status ≠ 0 →
  on_connect e id status st = Ok st1 →
  Forall (λ p, releases id p.2 = false) ops →
  nw_run UV_EOF ops st1 = Ok st2 →
  slot_free (conn st2 id) = false ∧
  (∀ e', libuv_socket_close e' id (c_tag (conn st id)) st2 = Ok (-1, st2)) ∧
  (∀ e', libuv_socket_force_close e' id st2 = Ok (0, st2)).
Proof.
  intros Hinv Hpos Hlen Hid Htag Hstatus Hcon Hrel Hrun.
  destruct (nw_exec_keeps UV_EOF e (CbConnect id status) st st1 Hcon) as (Hk & Hc & _);
    [done|].
  unfold on_connect in Hcon. rewrite Hid in Hcon. simpl in Hcon.
  destruct (Z.eqb_spec status 0); [done|]. simpl in Hcon.
  apply (key_post _ _ _ _ _ _ _ id) in Hcon.
  unfold set_socket_state in Hcon. rewrite Hid in Hcon.
  unfold key in Hcon. rewrite conn_upd_eq in Hcon by done. simpl in Hcon.
  injection Hcon as Ht Hs.
  assert (stuck st1 id) as Hstuck by (split; [done|split; congruence]).
  pose proof (stuck_run UV_EOF id ops st1 st2 (Hk Hinv)) as Hkey.
  destruct (stuck_key _ st2 _ Hstuck) as (_ & Ht2 & Hs2);
    [apply Hkey; try done; lia|].
  unfold slot_free, libuv_socket_close, libuv_socket_force_close, CHECK_SOCKET_ID.
  rewrite Hid, Hs2, orb_true_r. cbn [negb bool_decide_pack].
  rewrite bool_decide_eq_true_2 by done. simpl.
  destruct (Z.eqb_spec (c_tag (conn st2 id)) 0); done.
Qed.

(** A new TCP socket inherits what the previous owner of its slot
    had not read: creating a socket keeps the slot's receive buffer, and a
    receive on the new socket, before it was ever connected, returns those
    bytes. *)
Theorem new_socket_reads_old_bytes is_tcp param is_ipv6 st id t st' len :
  net_inv st → 0 < socket_tag_counter st < 2 ^ 64 - 1 → is_tcp ≠ 0 → 0 <= len →
  libuv_create_socket is_tcp param is_ipv6 st = (id, Some t, st') →
  ∃ st'', libuv_socket_receive env_good id t len true st'
    = Ok (Z.of_nat (length (take (Z.to_nat len) (stream st id))),
          take (Z.to_nat len) (stream st id), None, st'').
Proof.
  intros Hinv Hctr Htcp Hlen Hcre.
  assert (net_inv st') as Hinv'.
  { replace st' with (libuv_create_socket is_tcp param is_ipv6 st).2
      by (by rewrite Hcre). by apply net_inv_create. }
  rewrite libuv_create_socket_eq in Hcre by done. cbv zeta in Hcre.
  destruct (create_search st 0 MAX_SOCK_NUM) as [i|] eqn:E; [|done].
  pose proof (create_search_lt _ _ _ _ E) as Hlt. unfold MAX_SOCK_NUM in Hlt.
  assert (conn st' id = created t param is_ipv6 is_tcp (conn st id)
    ∧ valid_id id = true ∧ t = socket_tag_counter st) as (Hc & Hid & ->).
  { simplify_eq. unfold conn. simpl. rewrite Nat2Z.id.
    rewrite list_lookup_total_alter_eq by (rewrite (ni_length _ Hinv); done).
    unfold valid_id. split; [done|]. split; [lia|done]. }
  assert (tcp_live st' id (socket_tag_counter st)) as Hl.
  { split; [done|]. rewrite CHECK_SOCKET_ID_true, Hc. simpl. split; [|done].
    split; [done|]. split; [done|]. split; [lia|done]. }
  destruct (tcp_read _ _ _ len Hl Hlen) as (st'' & Er & _).
  exists st''. rewrite Er. unfold stream. by rewrite Hc.
Qed.

(** ** The properties on concrete runs *)

Definition demo_udp : adapter :=
  run_or_init (demo_ops ++ [(env_good, OpConnect 1 0xFAFC 0); (env_good, CbConnect 1 0)]).


Lemma demo_udp_live : udp_live demo_udp 1 0xFAFC.
Proof. split; [by apply run_or_init_inv|by vm_compute]. Qed.



Lemma udp_receive_empty_faults_witness :
  libuv_socket_receive env_good 1 0xFAFC 16 true demo_udp = Fault NullDeref.
Proof. apply (udp_receive_empty_faults 1 0xFAFC 16 demo_udp demo_udp_live); done. Defined.

Lemma failed_connect_keeps_slot_witness :
  let st := run_or_init (take 2 demo_ops) in
  ∃ st1 st2, on_connect env_good 0 (-111) st = Ok st1 ∧
    nw_run (-4095) [(env_good, OpClose 0 0xFAFB); (env_good, OpForceClose 0);
                    (env_good, OpCreate 1 0 0)] st1 = Ok st2 ∧
    slot_free (conn st2 0) = false.
Proof.
  intros st.
  destruct (on_connect env_good 0 (-111) st) as [st1|] eqn:E1; [|by vm_compute in E1].
  destruct (nw_run (-4095) [(env_good, OpClose 0 0xFAFB); (env_good, OpForceClose 0);
    (env_good, OpCreate 1 0 0)] st1) as [st2|] eqn:E2.
  2: { vm_compute in E1. injection E1 as <-. by vm_compute in E2. }
  exists st1, st2. split; [done|]. split; [done|].
  refine (proj1 (failed_connect_keeps_slot (-4095) env_good 0 (-111) st st1
    _ st2 _ _ _ _ _ _ E1 _ E2)).
  - by apply run_or_init_inv.
  - by vm_compute.
  - by vm_compute.
  - done.
  - by vm_compute.
  - done.
  - repeat constructor.
Defined.

(** Slot 0 after its connection was closed, with three bytes never read, and
    seven more sockets in the other slots. *)
Definition demo_reuse : adapter :=
  run_or_init (take 8 demo_ops ++ replicate 7 (env_good, OpCreate 1 0 0)).

Lemma new_socket_reads_old_bytes_witness :
  ∃ st' st'', libuv_create_socket 1 9 0 demo_reuse = (0, Some 0xFB03, st') ∧
    libuv_socket_receive env_good 0 0xFB03 100 true st' = Ok (3, [1; 2; 3], None, st'').
Proof.
  assert (net_inv demo_reuse) as Hinv by (by apply run_or_init_inv).
  assert (0 < socket_tag_counter demo_reuse < 2 ^ 64 - 1) as Hctr by (by vm_compute).
  destruct (libuv_create_socket 1 9 0 demo_reuse) as [[ret tag] st'] eqn:E.
  assert (ret = 0 ∧ tag = Some 0xFB03) as [-> ->].
  { apply (f_equal fst) in E. vm_compute in E. by inversion E. }
  destruct (new_socket_reads_old_bytes 1 9 0 demo_reuse 0 0xFB03 st' 100
    Hinv Hctr ltac:(lia) ltac:(lia) E) as (st'' & H).
  exists st', st''. split; [reflexivity|]. rewrite H. clear. by vm_compute.
Defined.
