(* ===== verification/NetworkInfo.v ===== *)
(** * Names and addresses of the network adapter

    The part of port/network/luat_network_adapter_libuv.c beside the sockets:
    DNS queries, the local address, the IP_READY message and the operations the
    adapter does not support. *)

From S2P Require Import Prelude Network.

(** ** DNS *)

(** [uv_dns_query_t]: the name is copied into [domain]; what libuv is asked is
    the C string there. *)
Record uv_dns_query : Type := DnsQuery { q_domain : list Z; q_param : Z }.

(** [getaddrinfo] is [uv_getaddrinfo]'s immediate result for a name; a refused
    query is answered at once with a failure event. *)
Definition libuv_dns (e : uv_env) (getaddrinfo : list Z → Z)
    (domain_name : list Z) (len param : Z) (st : adapter)
    : res (Z * option uv_dns_query * adapter) :=
  if negb (env_heap e) then Ok (-1, None, st)
  else
    d ← load domain_name 0 (Z.to_nat len);
    domain ← store (replicate 256 0) 0 d;
    name ← c_string domain;
    let r := getaddrinfo name in
    if negb (r =? 0) then
      st ← cb_to_nw_task e EV_NW_DNS_RESULT 0 0 param st;
      Ok (r, None, st)
    else Ok (r, Some (DnsQuery domain param), st).

(** The answer: the IPv4 address of [luat_dns_ip_result], kept 60 seconds, is
    passed by its own address [result_ptr]. *)
Definition on_resolved (e : uv_env) (q : uv_dns_query) (status result_ptr : Z)
    (st : adapter) : res adapter :=
  if status <? 0 then cb_to_nw_task e EV_NW_DNS_RESULT 0 0 (q_param q) st
  else cb_to_nw_task e EV_NW_DNS_RESULT 1 result_ptr (q_param q) st.

(** ** The local address *)

Record interface_address : Type := Interface {
  is_internal : bool;
  is_inet : bool;       (* sin_family = AF_INET *)
  if_addr : Z;          (* s_addr, network byte order *)
  if_mask : Z;
}.

(** Scans from the last interface to the first; the gateway is made up by
    setting the last octet's low bit. *)
Fixpoint ip_info_scan (info : list interface_address) : option (Z * Z * Z) :=
  match info with
  | [] => None
  | i :: rest =>
      if is_internal i then ip_info_scan rest
      else if is_inet i
      then Some (if_addr i, if_mask i, Z.lor (if_addr i) 0x1000000)
      else ip_info_scan rest
  end.

Definition libuv_get_local_ip_info (info : list interface_address)
    : Z * option (Z * Z * Z) :=
  match ip_info_scan (rev info) with
  | Some x => (0, Some x)
  | None => (-1, None)
  end.

(** ** Operations that only answer *)

Definition libuv_get_full_ip_info : Z := -1.
Definition libuv_dns_ipv6 : Z := -1.
Definition libuv_set_dns_server : Z := 0.
Definition libuv_set_mac : Z := 0.
Definition libuv_set_static_ip : Z := 0.

(** [libuv_socket_set_callback]: a missing callback becomes the dummy one. *)
Inductive socket_cb : Type := UserCb (f : Z) | DummyCb.

Definition libuv_socket_set_callback (cb_fun param : Z) : socket_cb * Z :=
  (if cb_fun =? 0 then DummyCb else UserCb cb_fun, param).

(** ** IP_READY *)

(** What [l_ip_ready] publishes through [sys_pub]. *)
Inductive ip_message : Type :=
  | IP_READY (o1 o2 o3 o4 : Z)
  | IP_LOSE.

Definition l_ip_ready (sys_pub_is_function : bool) (arg1 arg2 : Z)
    : option ip_message :=
  if negb sys_pub_is_function then None
  else if negb (arg1 =? 0) then
    let ip := u32 arg2 in
    Some (IP_READY (Z.land ip 0xFF) (Z.land (Z.shiftr ip 8) 0xFF)
            (Z.land (Z.shiftr ip 16) 0xFF) (Z.land (Z.shiftr ip 24) 0xFF))
  else Some IP_LOSE.

(** The message the timer callback posts; [arg2] is never set. *)
Definition ip_ready_timer_cb : rtos_msg := RtosMsg "l_ip_ready" 0 1 0.

(** ** Properties *)

(** Name lookup is safe exactly for names that leave room for the
    terminating NUL in the 256-byte [domain]: libuv is then asked for that very
    name, and the call returns what libuv said; a name of 256 bytes is read
    past its array and a longer one overwrites what follows it. *)
Theorem libuv_dns_bounds getaddrinfo name param st :
  no_nul name →
  let len := Z.of_nat (length name) in
  if decide (len <= 255)
  then ∃ q st', libuv_dns env_good getaddrinfo name len param st
                = Ok (getaddrinfo name, q, st') ∧ sockets st' = sockets st ∧
         (q = None ↔ getaddrinfo name ≠ 0) ∧
         (∀ q', q = Some q' → c_string (q_domain q') = Ok name ∧ q_param q' = param)
  else libuv_dns env_good getaddrinfo name len param st = Fault OutOfBounds.
Proof.
  intros Hn len. unfold libuv_dns, len. cbn [env_heap env_good negb].
  rewrite Nat2Z.id, load_Ok, drop_0, firstn_all by lia. cbn [mbind res_bind].
  case_decide as Hlen.
  - rewrite (store_fill 0 [] (replicate 256 0)) by (done || solve_len).
    cbn [mbind res_bind app]. rewrite drop_replicate.
    rewrite c_string_pad by (done || lia). cbn [mbind res_bind].
    destruct (Z.eqb_spec (getaddrinfo name) 0) as [->|Hr]; cbn [negb].
    + eexists _, _. split; [done|]. split; [done|]. split; [naive_solver|].
      intros q' [= <-]. cbn [q_domain q_param]. by rewrite c_string_pad by (done || lia).
    + eexists None, _. split; [done|]. done.
  - destruct (decide (length name = 256)%nat) as [E|E].
    + rewrite store_Ok by (rewrite length_replicate; lia). cbn [mbind res_bind].
      rewrite take_0, drop_ge by (rewrite length_replicate; lia).
      rewrite app_nil_r, c_string_unterminated by done. done.
    + rewrite store_oob by (rewrite length_replicate; lia). done.
Qed.

Lemma libuv_dns_bounds_witness :
  (∃ q st', libuv_dns env_good (λ _, 0) (bytes "luatos.com") 10 5 adapter_init
            = Ok (0, q, st') ∧ sockets st' = sockets adapter_init ∧
       (q = None ↔ 0 ≠ 0) ∧
       (∀ q', q = Some q' → c_string (q_domain q') = Ok (bytes "luatos.com") ∧ q_param q' = 5)) ∧
  libuv_dns env_good (λ _, 0) (replicate 300 65) 300 5 adapter_init = Fault OutOfBounds.
Proof.
  split.
  - apply (libuv_dns_bounds (λ _, 0) (bytes "luatos.com") 5 adapter_init).
    by repeat constructor.
  - apply (libuv_dns_bounds (λ _, 0) (replicate 300 65) 5 adapter_init).
    by apply Forall_replicate.
Defined.

(** The address the adapter announces is never the host's:
    the message the start-up timer posts leaves [arg2] zero, so that [l_ip_ready]
    publishes IP_READY with 0.0.0.0, while [libuv_get_local_ip_info] knows the
    address of the last external IPv4 interface. *)
Theorem ip_ready_announces_zero i info :
  is_internal i = false → is_inet i = true →
  l_ip_ready true (m_arg1 ip_ready_timer_cb) (m_arg2 ip_ready_timer_cb)
    = Some (IP_READY 0 0 0 0) ∧
  libuv_get_local_ip_info (info ++ [i])
    = (0, Some (if_addr i, if_mask i, Z.lor (if_addr i) 0x1000000)).
Proof.
  intros Hint Hin. split; [done|]. unfold libuv_get_local_ip_info.
  rewrite rev_app_distr. simpl. by rewrite Hint, Hin.
Qed.

Lemma ip_ready_announces_zero_witness :
  l_ip_ready true 1 0 = Some (IP_READY 0 0 0 0) ∧
  libuv_get_local_ip_info ([Interface true true 0x0100007F 255] ++
    [Interface false true 0x0501A8C0 0xFFFFFF]) = (0, Some (0x0501A8C0, 0xFFFFFF, 0x0501A8C0)).
Proof.
  apply (ip_ready_announces_zero (Interface false true 0x0501A8C0 0xFFFFFF)
    [Interface true true 0x0100007F 255]); done.
Defined.
