(* ===== verification/Timer.v ===== *)
(** * Software timers of port/rtos/luat_timer_pc.c

    A table of 1024 libuv timer handles.  A handle points to the [luat_timer_t]
    of the LuatOS core it serves, which points back to it; when it expires, a
    message goes to the bus and the timer is armed again as long as its repeat
    count says so.  Results of libuv and the heap are inputs. *)

From S2P Require Import Prelude.

(** ** Data *)

(** [luat_timer_t], the fields this file uses; [func] is the message handler. *)
Record luat_timer : Type := LuatTimer {
  tm_id : Z; tm_timeout : Z; tm_repeat : Z; tm_func : string;
  tm_os_timer : option Z;
}.

Record timer_state : Type := TimerState {
  timers : list (option Z);           (* the table of handles *)
  handles : gmap Z (option Z);        (* live handles: their [data] *)
  armed : gmap Z Z;                   (* handles libuv will expire: their timeout *)
  objs : gmap Z luat_timer;           (* live [luat_timer_t] *)
  tmsgs : list rtos_msg;              (* put on the message bus *)
}.

Definition TIMER_ID_MAX : nat := 1024.

Definition timer_init : timer_state :=
  TimerState (replicate TIMER_ID_MAX None) ∅ ∅ ∅ [].

Definition set_timers (l : list (option Z)) (st : timer_state) : timer_state :=
  TimerState l (handles st) (armed st) (objs st) (tmsgs st).
Definition set_obj (t : Z) (tm : luat_timer) (st : timer_state) : timer_state :=
  TimerState (timers st) (handles st) (armed st) (<[t := tm]> (objs st)) (tmsgs st).
Definition set_os_timer (h : Z) (tm : luat_timer) : luat_timer :=
  LuatTimer (tm_id tm) (tm_timeout tm) (tm_repeat tm) (tm_func tm) (Some h).
Definition set_repeat (n : Z) (tm : luat_timer) : luat_timer :=
  LuatTimer (tm_id tm) (tm_timeout tm) n (tm_func tm) (tm_os_timer tm).

Section timer.
Context `{Platform}.

(** ** Operations *)

Fixpoint get_free_timer_id (l : list (option Z)) : option nat :=
  match l with
  | [] => None
  | None :: _ => Some O
  | Some _ :: l' => S <$> get_free_timer_id l'
  end.

Fixpoint get_timer_by_id (st : timer_state) (l : list (option Z)) (id : Z)
    : res (option Z) :=
  match l with
  | [] => Ok None
  | None :: l' => get_timer_by_id st l' id
  | Some h :: l' =>
      d ← oget BadPointer (handles st !! h);
      match d with
      | None => get_timer_by_id st l' id
      | Some t =>
          tm ← oget BadPointer (objs st !! t);
          if tm_id tm =? id then Ok (Some h) else get_timer_by_id st l' id
      end
  end.

(** [uv_timer_start] with result [ret]. *)
Definition uv_timer_start (ret h timeout : Z) (st : timer_state) : timer_state :=
  if ret =? 0
  then TimerState (timers st) (handles st) (<[h := timeout]> (armed st))
         (objs st) (tmsgs st)
  else st.

(** The timer a handle serves: [(luat_timer_t * )handle->data]. *)
Definition timer_of (st : timer_state) (h : Z) : res (Z * luat_timer) :=
  d ← oget BadPointer (handles st !! h);
  t ← oget NullDeref d;
  tm ← oget BadPointer (objs st !! t);
  Ok (t, tm).

(** The expiry callback; [int id = timer->id] goes through 32 bits. *)
Definition timer_cb (start_ret h : Z) (st : timer_state) : res timer_state :=
  '(_, tm) ← timer_of st h;
  let id := wrapu sizet_bits (i32 (tm_id tm)) in
  r ← get_timer_by_id st (timers st) id;
  match r with
  | None => Ok st
  | Some h' =>
      '(t, tm) ← timer_of st h';
      let st :=
        if 0 <? tm_repeat tm then
          uv_timer_start start_ret h' (tm_timeout tm)
            (set_obj t (set_repeat (tm_repeat tm - 1) tm) st)
        else if tm_repeat tm =? -1 then
          uv_timer_start start_ret h' (tm_timeout tm) st
        else st in
      Ok (TimerState (timers st) (handles st) (armed st) (objs st)
            (tmsgs st ++ [RtosMsg (tm_func tm) 0 (tm_id tm) 0]))
  end.

(** libuv expires an armed handle: it is no longer armed when its callback
    runs. *)
Definition uv_expire (start_ret h : Z) (st : timer_state) : res timer_state :=
  timer_cb start_ret h
    (TimerState (timers st) (handles st) (delete h (armed st)) (objs st) (tmsgs st)).

(** [req] is the result of [luat_heap_malloc]. *)
Definition luat_timer_start (timer : Z) (req : option Z) (init_ret start_ret : Z)
    (st : timer_state) : res (Z * timer_state) :=
  match get_free_timer_id (timers st) with
  | None => Ok (-1, st)
  | Some id =>
      timer_req ← oget NullDeref req;
      if negb (init_ret =? 0) then Ok (-1, set_timers (<[id := None]> (timers st)) st)
      else
        tm ← oget BadPointer (objs st !! timer);
        let st := TimerState (<[id := Some timer_req]> (timers st))
                    (<[timer_req := Some timer]> (handles st)) (armed st)
                    (<[timer := set_os_timer timer_req tm]> (objs st)) (tmsgs st) in
        Ok (start_ret, uv_timer_start start_ret timer_req (tm_timeout tm) st)
  end.

(** Index of the first slot equal to the given pointer, null or not. *)
Fixpoint slot_of (l : list (option Z)) (req : option Z) : option nat :=
  match l with
  | [] => None
  | s :: l' => if decide (req = s) then Some O else S <$> slot_of l' req
  end.

Definition luat_timer_stop (timer : Z) (st : timer_state) : res (Z * timer_state) :=
  tm ← oget BadPointer (objs st !! timer);
  match slot_of (timers st) (tm_os_timer tm) with
  | None => Ok (-1, st)
  | Some i =>
      h ← oget NullDeref (tm_os_timer tm);
      Ok (0, TimerState (<[i := None]> (timers st)) (delete h (handles st))
               (delete h (armed st)) (objs st) (tmsgs st))
  end.

Definition luat_timer_get (id : Z) (st : timer_state) : res (option Z) :=
  r ← get_timer_by_id st (timers st) id;
  match r with
  | None => Ok None
  | Some h => d ← oget BadPointer (handles st !! h); Ok d
  end.

(** [luat_timer_mdelay] sleeps, [luat_timer_us_delay] does nothing; the result
    is the time slept. *)
Definition luat_timer_mdelay (ms : Z) : Z * Z := (0, if negb (ms =? 0) then ms else 0).
Definition luat_timer_us_delay (us : Z) : Z := 0.

End timer.

(** ** Invariant *)

(** Every handle in the table is live, is in one slot, and serves a live timer
    that points back to it; only handles in the table are armed. *)
Record timer_inv (st : timer_state) : Prop := {
  ti_length : length (timers st) = TIMER_ID_MAX;
  ti_unique : ∀ i j h,
    timers st !! i = Some (Some h) → timers st !! j = Some (Some h) → i = j;
  ti_live : ∀ h, Some h ∈ timers st → ∃ t tm,
    handles st !! h = Some (Some t) ∧ objs st !! t = Some tm ∧
    tm_os_timer tm = Some h;
  ti_armed : ∀ h, is_Some (armed st !! h) → Some h ∈ timers st;
}.

Lemma timer_inv_init : timer_inv timer_init.
Proof.
  split; cbn [timers armed timer_init].
  - by vm_compute.
  - intros i j h Hi. apply lookup_replicate in Hi as [? _]. done.
  - intros h Hin. apply elem_of_replicate in Hin as [? _]. done.
  - intros h [? Hh]. by rewrite lookup_empty in Hh.
Qed.

Lemma timer_of_live st h :
  timer_inv st → Some h ∈ timers st →
  ∃ t tm, timer_of st h = Ok (t, tm) ∧ handles st !! h = Some (Some t) ∧
    objs st !! t = Some tm ∧ tm_os_timer tm = Some h.
Proof.
  intros Hinv Hin. destruct (ti_live _ Hinv h Hin) as (t & tm & Hh & Ht & Hos).
  exists t, tm. unfold timer_of. rewrite Hh. cbn [mbind res_bind oget].
  rewrite Ht. done.
Qed.

(** ** The table *)

Lemma get_free_timer_id_spec l :
  match get_free_timer_id l with
  | Some i => l !! i = Some None
  | None => None ∉ l
  end.
Proof.
  induction l as [|[h|] l IH]; simpl; [apply not_elem_of_nil| |done].
  destruct (get_free_timer_id l); simpl; [done|]. set_solver.
Qed.

Lemma slot_of_spec l req :
  match slot_of l req with
  | Some i => l !! i = Some req
  | None => req ∉ l
  end.
Proof.
  induction l as [|s l IH]; simpl; [apply not_elem_of_nil|].
  case_decide; [by subst|]. destruct (slot_of l req); simpl; [done|]. set_solver.
Qed.

(** The search by id, on a table all of whose handles serve live timers. *)
Lemma get_timer_by_id_spec st l id :
  (∀ h, Some h ∈ l → ∃ t tm, handles st !! h = Some (Some t) ∧ objs st !! t = Some tm) →
  ∃ r, get_timer_by_id st l id = Ok r ∧
  match r with
  | Some h => Some h ∈ l ∧ ∃ t tm,
      handles st !! h = Some (Some t) ∧ objs st !! t = Some tm ∧ tm_id tm = id
  | None => ∀ h t tm, Some h ∈ l → handles st !! h = Some (Some t) →
      objs st !! t = Some tm → tm_id tm ≠ id
  end.
Proof.
  induction l as [|[h|] l IH]; intros Hl; simpl.
  - exists None. split; [done|]. intros h t tm Hin. by apply elem_of_nil in Hin.
  - destruct (Hl h) as (t & tm & Hh & Ht); [set_solver|].
    rewrite Hh. cbn [mbind res_bind oget]. rewrite Ht. cbn [mbind res_bind oget].
    destruct (Z.eqb_spec (tm_id tm) id) as [Hid|Hid].
    + exists (Some h). split; [done|]. split; [set_solver|]. eauto.
    + destruct IH as (r & E & Hr); [set_solver|]. exists r. split; [done|].
      destruct r as [h'|].
      * destruct Hr as [Hin Hr]. split; [set_solver|done].
      * intros h' t' tm' Hin Hh' Ht'. apply elem_of_cons in Hin as [[= ->]|Hin]; [|eauto].
        congruence.
  - destruct IH as (r & E & Hr); [set_solver|]. exists r. split; [done|].
    destruct r as [h'|]; [destruct Hr; split; [set_solver|done]|].
    intros h' t' tm' Hin. apply elem_of_cons in Hin as [?|Hin]; [done|eauto].
Qed.

(** ** Reachable states *)

(** What the program does with timers: the core makes and frees timer objects
    (it frees none that is started), starts one that is not started, stops one,
    and libuv expires an armed one. *)
Inductive timer_step `{Platform} : timer_state → timer_state → Prop :=
  | step_new st t tm :
      objs st !! t = None → tm_os_timer tm = None →
      timer_step st (set_obj t tm st)
  | step_free st t :
      (∀ h, Some h ∈ timers st → handles st !! h ≠ Some (Some t)) →
      timer_step st (TimerState (timers st) (handles st) (armed st)
                       (delete t (objs st)) (tmsgs st))
  | step_start st t tm h init_ret start_ret ret st' :
      objs st !! t = Some tm → (∀ h', tm_os_timer tm = Some h' → Some h' ∉ timers st) →
      handles st !! h = None → Some h ∉ timers st →
      luat_timer_start t (Some h) init_ret start_ret st = Ok (ret, st') →
      timer_step st st'
  | step_stop st t tm ret st' :
      objs st !! t = Some tm → is_Some (tm_os_timer tm) →
      luat_timer_stop t st = Ok (ret, st') → timer_step st st'
  | step_expire st h start_ret st' :
      is_Some (armed st !! h) → uv_expire start_ret h st = Ok st' →
      timer_step st st'.

Inductive timer_reach `{Platform} : timer_state → Prop :=
  | reach_init : timer_reach timer_init
  | reach_step st st' : timer_reach st → timer_step st st' → timer_reach st'.

Lemma timer_inv_arm ret h timeout st :
  Some h ∈ timers st → timer_inv st → timer_inv (uv_timer_start ret h timeout st).
Proof.
  intros Hin [Hl Hu Hv Ha]. unfold uv_timer_start. case_match; [|done].
  split; try done. simpl. intros h' [x Hx].
  destruct (decide (h' = h)) as [->|Hne]; [done|].
  rewrite lookup_insert_ne in Hx by done. eauto.
Qed.

Lemma timer_inv_repeat t tm n st :
  objs st !! t = Some tm → timer_inv st →
  timer_inv (set_obj t (set_repeat n tm) st).
Proof.
  intros Ht [Hl Hu Hv Ha]. split; try done. simpl. intros h Hin.
  destruct (Hv h Hin) as (t' & tm' & Hh & Ht' & Hos). exists t'.
  destruct (decide (t' = t)) as [->|Hne].
  - rewrite lookup_insert_eq. exists (set_repeat n tm). simpl.
    assert (tm' = tm) as -> by congruence. done.
  - rewrite lookup_insert_ne by done. eauto.
Qed.

Lemma timer_inv_msgs st l :
  timer_inv st → timer_inv (TimerState (timers st) (handles st) (armed st) (objs st) l).
Proof. intros [Hl Hu Hv Ha]. by split. Qed.

Lemma timer_inv_disarm st h :
  timer_inv st →
  timer_inv (TimerState (timers st) (handles st) (delete h (armed st)) (objs st) (tmsgs st)).
Proof.
  intros [Hl Hu Hv Ha]. split; try done. simpl. intros h' [x Hx].
  apply lookup_delete_Some in Hx as [_ Hx]. eauto.
Qed.

Lemma timer_inv_expire `{Platform} ret h st st' :
  timer_inv st → uv_expire ret h st = Ok st' → timer_inv st'.
Proof.
  intros Hinv Hex. unfold uv_expire in Hex.
  apply (timer_inv_disarm _ h) in Hinv. revert Hinv Hex.
  generalize (TimerState (timers st) (handles st) (delete h (armed st)) (objs st) (tmsgs st)).
  clear st. intros st Hinv Hex. unfold timer_cb in Hex.
  apply res_bind_Ok in Hex as ([t0 tm0] & _ & Hex). cbv zeta beta in Hex.
  apply res_bind_Ok in Hex as (r & Hr & Hex).
  destruct (get_timer_by_id_spec st (timers st)
    (wrapu sizet_bits (i32 (tm_id tm0)))) as (r' & Hr' & Hspec).
  { intros h' Hin. destruct (ti_live _ Hinv h' Hin) as (?&?&?&?&?). eauto. }
  rewrite Hr in Hr'. injection Hr' as <-. destruct r as [h'|]; [|by inv_res].
  destruct Hspec as [Hin _]. apply res_bind_Ok in Hex as ([t tm] & Ht & Hex).
  destruct (timer_of_live st h' Hinv Hin) as (t' & tm' & E & _ & Hobj & _).
  rewrite E in Ht. injection Ht as -> ->. inv_res. apply timer_inv_msgs.
  case_match; [by apply timer_inv_arm; [|by apply timer_inv_repeat]|].
  case_match; [by apply timer_inv_arm|done].
Qed.

(** Taking a free slot for a new handle, and giving a slot back. *)
Lemma timer_inv_start t tm h init_ret start_ret ret st st' :
  timer_inv st → objs st !! t = Some tm →
  (∀ h', tm_os_timer tm = Some h' → Some h' ∉ timers st) →
  Some h ∉ timers st →
  luat_timer_start t (Some h) init_ret start_ret st = Ok (ret, st') → timer_inv st'.
Proof.
  intros Hinv Ht Hos Hni Hst. unfold luat_timer_start in Hst.
  pose proof (get_free_timer_id_spec (timers st)) as Hfree.
  destruct (get_free_timer_id (timers st)) as [i|]; [|by inv_res; simplify_eq].
  pose proof Hinv as [Hl Hu Hv Ha]. cbn [oget mbind res_bind] in Hst.
  case_match eqn:Hinit.
  { rewrite list_insert_id in Hst by done. inv_res. by simplify_eq; destruct st. }
  rewrite Ht in Hst. cbn [oget mbind res_bind] in Hst. inv_res. simplify_eq.
  assert (i < length (timers st))%nat as Hi by (by eapply lookup_lt_Some).
  assert (∀ x, x ∈ timers st → is_Some x → x ∈ <[i:=Some h]> (timers st)) as Hkeep.
  { intros x [j Hj]%list_elem_of_lookup [y ->]. apply list_elem_of_lookup. exists j.
    rewrite list_lookup_insert_ne; [done|]. intros ->. congruence. }
  apply timer_inv_arm; [by apply list_elem_of_insert|]. split; cbn [timers handles objs armed].
  - by rewrite length_insert.
  - intros j k h'. rewrite !list_lookup_insert.
    case_decide as Hj; case_decide as Hk; [intros _ _; lia| | |apply Hu].
    + intros [= <-] Hk'. destruct Hni. by eapply list_elem_of_lookup_2.
    + intros Hj' [= <-]. destruct Hni. by eapply list_elem_of_lookup_2.
  - intros h' [j Hj]%list_elem_of_lookup. rewrite list_lookup_insert in Hj.
    case_decide as Hij.
    + simplify_eq. exists t, (set_os_timer h' tm). by rewrite !lookup_insert_eq.
    + apply list_elem_of_lookup_2 in Hj as Hin.
      destruct (Hv h' Hin) as (t' & tm' & Hh & Ht' & Hos').
      assert (h' ≠ h) by (by intros ->). rewrite lookup_insert_ne by done.
      exists t'. assert (t' ≠ t) as Hne.
      { intros ->. apply (Hos h'); [congruence|done]. }
      rewrite lookup_insert_ne by done. eauto.
  - intros h' Hh'. apply Hkeep; eauto.
Qed.

Lemma timer_inv_stop t tm ret st st' :
  timer_inv st → objs st !! t = Some tm → is_Some (tm_os_timer tm) →
  luat_timer_stop t st = Ok (ret, st') → timer_inv st'.
Proof.
  intros Hinv Ht [h Hos] Hst. unfold luat_timer_stop in Hst.
  rewrite Ht in Hst. cbn [oget mbind res_bind] in Hst. rewrite Hos in Hst.
  pose proof (slot_of_spec (timers st) (Some h)) as Hs.
  destruct (slot_of (timers st) (Some h)) as [i|]; [|by inv_res; simplify_eq].
  injection Hst as <- <-. pose proof Hinv as [Hl Hu Hv Ha].
  assert (∀ h', Some h' ∈ <[i:=None]> (timers st) → Some h' ∈ timers st ∧ h' ≠ h) as Hin.
  { intros h' [j Hj]%list_elem_of_lookup. rewrite list_lookup_insert in Hj.
    case_decide as Hij; [done|]. split; [by eapply list_elem_of_lookup_2|].
    intros ->. assert (i = j) as -> by eauto. apply Hij.
    split; [done|]. by eapply lookup_lt_Some. }
  split; cbn [timers handles objs armed].
  - by rewrite length_insert.
  - intros j k h'. rewrite !list_lookup_insert.
    case_decide; [done|]. case_decide; [done|]. apply Hu.
  - intros h' [Hh' Hne]%Hin. rewrite lookup_delete_ne by done. eauto.
  - intros h' [x Hx]. apply lookup_delete_Some in Hx as [Hne Hx].
    assert (Some h' ∈ timers st) as [j Hj]%list_elem_of_lookup by eauto.
    apply list_elem_of_lookup. exists j. rewrite list_lookup_insert_ne; [done|].
    intros ->. congruence.
Qed.

Lemma timer_inv_step `{Platform} st st' :
  timer_inv st → timer_step st st' → timer_inv st'.
Proof.
  intros Hinv Hstep. destruct Hstep.
  - destruct Hinv as [Hl Hu Hv Ha]. split; try done. simpl. intros h Hin.
    destruct (Hv h Hin) as (t' & tm' & Hh & Ht' & Hos). exists t'.
    rewrite lookup_insert_ne by congruence. eauto.
  - destruct Hinv as [Hl Hu Hv Ha]. split; try done. simpl. intros h Hin.
    destruct (Hv h Hin) as (t' & tm' & Hh & Ht' & Hos). exists t'.
    rewrite lookup_delete_ne; [eauto|]. intros ->. naive_solver.
  - by eapply timer_inv_start.
  - by eapply timer_inv_stop.
  - by eapply timer_inv_expire.
Qed.

Lemma timer_reach_inv `{Platform} st : timer_reach st → timer_inv st.
Proof. induction 1; eauto using timer_inv_init, timer_inv_step. Qed.

Lemma uv_expire_ok `{Platform} st h ret :
  timer_inv st → Some h ∈ timers st → ∃ st', uv_expire ret h st = Ok st'.
Proof.
  intros Hinv Hin. unfold uv_expire.
  pose proof (timer_inv_disarm st h Hinv) as Hinv0. set (st0 := TimerState _ _ _ _ _) in *.
  destruct (timer_of_live st0 h Hinv0 Hin) as (t & tm & E & _).
  unfold timer_cb. rewrite E. cbn [mbind res_bind].
  destruct (get_timer_by_id_spec st0 (timers st0)
    (wrapu sizet_bits (i32 (tm_id tm)))) as (r & -> & Hspec).
  { intros h' Hin'. destruct (ti_live _ Hinv0 h' Hin') as (?&?&?&?&?). eauto. }
  cbn [mbind res_bind]. destruct r as [h'|]; [|eauto].
  destruct Hspec as [Hin' _].
  destruct (timer_of_live st0 h' Hinv0 Hin') as (t' & tm' & E' & _).
  rewrite E'. cbn [mbind res_bind]. eauto.
Qed.

(** C28 (safety).  In every state reached by creating, starting, stopping,
    expiring and freeing timers, the table is consistent: each handle is in one
    slot and serves a live timer that points back to it.  So no lookup, expiry
    or stop of a started timer touches a freed or null object. *)
Theorem timers_memory_safe `{Platform} st :
  timer_reach st →
  timer_inv st ∧
  (∀ id, ∃ r, luat_timer_get id st = Ok r) ∧
  (∀ h ret, is_Some (armed st !! h) → ∃ st', uv_expire ret h st = Ok st') ∧
  (∀ t tm, objs st !! t = Some tm → is_Some (tm_os_timer tm) →
     ∃ r, luat_timer_stop t st = Ok r).
Proof.
  intros Hinv%timer_reach_inv. split; [done|]. split; [|split].
  - intros id. unfold luat_timer_get.
    destruct (get_timer_by_id_spec st (timers st) id) as (r & -> & Hspec).
    { intros h' Hin'. destruct (ti_live _ Hinv h' Hin') as (?&?&?&?&?). eauto. }
    cbn [mbind res_bind]. destruct r as [h|]; [|eauto].
    destruct Hspec as (_ & t & tm & -> & _). simpl. eauto.
  - intros h ret Ha. apply uv_expire_ok; [done|]. by apply ti_armed.
  - intros t tm Ht [h Hos]. unfold luat_timer_stop. rewrite Ht. simpl.
    rewrite Hos. case_match; simpl; eauto.
Qed.

(** Stopping a timer that was never started (its [os_timer] is
    null) finds the first free slot of the table instead of nothing and hands
    libuv a null handle, unless all 1024 slots are taken. *)
Theorem timer_stop_unstarted_faults t tm st :
  objs st !! t = Some tm → tm_os_timer tm = None →
  luat_timer_stop t st =
    if decide (None ∈ timers st) then Fault NullDeref else Ok (-1, st).
Proof.
  intros Ht Hos. unfold luat_timer_stop. rewrite Ht. cbn [oget mbind res_bind].
  rewrite Hos. pose proof (slot_of_spec (timers st) None) as Hs.
  destruct (slot_of (timers st) None) as [i|].
  - rewrite decide_True; [done|]. by eapply list_elem_of_lookup_2.
  - by rewrite decide_False.
Qed.

(** ** Life of one timer *)

(** [h] serves the timer object [t], the only one started under its id. *)
Record serving (st : timer_state) (h t : Z) (tm : luat_timer) : Prop := {
  sv_inv : timer_inv st;
  sv_in : Some h ∈ timers st;
  sv_handle : handles st !! h = Some (Some t);
  sv_obj : objs st !! t = Some tm;
  sv_only : ∀ h' t' tm', Some h' ∈ timers st → handles st !! h' = Some (Some t') →
    objs st !! t' = Some tm' → tm_id tm' = tm_id tm → h' = h;
}.

Lemma serving_lookup st h t tm :
  serving st h t tm → get_timer_by_id st (timers st) (tm_id tm) = Ok (Some h).
Proof.
  intros [Hinv Hin Hh Ht Hon].
  destruct (get_timer_by_id_spec st (timers st) (tm_id tm)) as (r & -> & Hr).
  { intros h' Hin'. destruct (ti_live _ Hinv h' Hin') as (?&?&?&?&?). eauto. }
  destruct r as [h'|].
  - destruct Hr as (Hin' & t' & tm' & ?&?&?). by rewrite (Hon h' t' tm').
  - by destruct (Hr h t tm).
Qed.

Section life.
Context `{Platform}.

(** The id survives the detour through [int]. *)
Lemma int_id_small z : 0 <= z < 2 ^ 31 → wrapu sizet_bits (i32 z) = z.
Proof.
  intros Hz. rewrite wraps_small by lia. apply wrapu_small. unfold sizet_bits.
  destruct ptr_bytes_cases as [-> | ->]; lia.
Qed.

(** What is left of the repeat count after an expiry, and whether the timer is
    armed again. *)
Definition next_repeat (n : Z) : Z := if 0 <? n then n - 1 else n.
Definition rearms (n : Z) : bool := (0 <? n) || (n =? -1).

Lemma serving_repeat st h t tm n :
  serving st h t tm → serving (set_obj t (set_repeat n tm) st) h t (set_repeat n tm).
Proof.
  intros [Hinv Hin Hh Ht Hon]. split; try done.
  - by apply timer_inv_repeat.
  - simpl. apply lookup_insert_eq.
  - simpl. intros h' t' tm' Hin' Hh' Ht' Hid.
    destruct (decide (t' = t)) as [->|Hne].
    + destruct (ti_live _ Hinv h' Hin') as (t1 & tm1 & H1 & H2 & H3).
      destruct (ti_live _ Hinv h Hin) as (t2 & tm2 & H4 & H5 & H6). congruence.
    + rewrite lookup_insert_ne in Ht' by done. eauto.
Qed.

Lemma serving_rest st h t tm armed' msgs' :
  serving st h t tm → (∀ h', is_Some (armed' !! h') → Some h' ∈ timers st) →
  serving (TimerState (timers st) (handles st) armed' (objs st) msgs') h t tm.
Proof. intros [[] Hin Hh Ht Hon] Ha. by split. Qed.

Lemma expire_once st h t tm :
  serving st h t tm → 0 <= tm_id tm < 2 ^ 31 →
  ∃ st', uv_expire 0 h st = Ok st' ∧
    serving st' h t (set_repeat (next_repeat (tm_repeat tm)) tm) ∧
    tmsgs st' = tmsgs st ++ [RtosMsg (tm_func tm) 0 (tm_id tm) 0] ∧
    armed st' !! h = if rearms (tm_repeat tm) then Some (tm_timeout tm) else None.
Proof.
  intros Hs Hid. unfold uv_expire. set (st0 := TimerState _ _ _ _ _).
  assert (serving st0 h t tm) as Hs0.
  { apply serving_rest; [done|]. intros h' [x Hx].
    apply lookup_delete_Some in Hx as [_ Hx]. eapply ti_armed; [by eapply sv_inv|eauto]. }
  assert (timer_of st0 h = Ok (t, tm)) as Hof.
  { unfold timer_of. rewrite (sv_handle _ _ _ _ Hs0). cbn [mbind res_bind oget].
    by rewrite (sv_obj _ _ _ _ Hs0). }
  unfold timer_cb. rewrite Hof. cbn [mbind res_bind]. rewrite int_id_small by done.
  rewrite (serving_lookup _ _ _ _ Hs0). cbn [mbind res_bind]. rewrite Hof.
  cbn [mbind res_bind]. eexists. split; [done|].
  unfold uv_timer_start, next_repeat, rearms. cbn [Z.eqb].
  assert (set_repeat (tm_repeat tm) tm = tm) as Hsame by (by destruct tm).
  assert (∀ h', is_Some ((<[h:=tm_timeout tm]> (armed st0)) !! h') →
    Some h' ∈ timers st0) as Ha.
  { intros h' [x Hx]. destruct (decide (h' = h)) as [->|Hne]; [by eapply sv_in|].
    rewrite lookup_insert_ne in Hx by done. eapply ti_armed; [by eapply sv_inv|eauto]. }
  destruct (0 <? tm_repeat tm); [|destruct (tm_repeat tm =? -1)];
    cbn [orb timers handles armed objs tmsgs set_obj].
  - split; [|split; [done|apply lookup_insert_eq]].
    apply (serving_rest _ h t _ _ _ (serving_repeat _ _ _ _ (tm_repeat tm - 1) Hs0) Ha).
  - rewrite Hsame. split; [|split; [done|apply lookup_insert_eq]].
    by apply serving_rest.
  - rewrite Hsame. split; [|split; [done|apply lookup_delete_eq]].
    apply serving_rest; [done|]. apply ti_armed. by eapply sv_inv.
Qed.

(** Let the handle expire [n] times, as long as it is armed. *)
Fixpoint expire_n (n : nat) (h : Z) (st : timer_state) : res timer_state :=
  match n with
  | O => Ok st
  | S n' =>
      if armed st !! h is Some _
      then st' ← uv_expire 0 h st; expire_n n' h st' else Ok st
  end.

(** A started timer with repeat count r ≥ 0 (and an id below
    2 to the 31) sends its message r + 1 times, once per expiry, and no more: it is
    armed after each of the first r expiries and not after the last. *)
Theorem timer_fires_repeat_plus_one n : ∀ st h t tm,
  serving st h t tm → 0 <= tm_id tm < 2 ^ 31 → is_Some (armed st !! h) →
  0 <= tm_repeat tm →
  ∃ st', expire_n n h st = Ok st' ∧
    let k := Nat.min n (S (Z.to_nat (tm_repeat tm))) in
    tmsgs st' = tmsgs st ++ replicate k (RtosMsg (tm_func tm) 0 (tm_id tm) 0) ∧
    (is_Some (armed st' !! h) ↔ (n <= Z.to_nat (tm_repeat tm))%nat).
Proof.
  induction n as [|n IH]; intros st h t tm Hs Hid [x Hx] Hr.
  { exists st. split; [done|]. simpl. rewrite app_nil_r. split; [done|].
    rewrite Hx. split; [lia|eauto]. }
  cbn [expire_n]. rewrite Hx.
  destruct (expire_once st h t tm Hs Hid) as (st1 & E & Hs1 & Hm & Ha).
  rewrite E. cbn [mbind res_bind]. unfold next_repeat, rearms in *.
  destruct (Z.ltb_spec 0 (tm_repeat tm)) as [Hpos|Hzero]; cbn [orb] in Ha.
  - destruct (IH st1 h t _ Hs1) as (st' & E' & Hm' & Ha'); [done|eauto|simpl; lia|].
    exists st'. split; [done|]. cbn [set_repeat tm_repeat tm_func tm_id] in *.
    replace (Z.to_nat (tm_repeat tm)) with (S (Z.to_nat (tm_repeat tm - 1))) by lia.
    cbn [Nat.min replicate]. rewrite Hm', Hm, <- app_assoc. split; [done|].
    rewrite Ha'. lia.
  - assert (tm_repeat tm = 0) as Hz by lia. rewrite Hz in *. cbn [Z.eqb] in Ha.
    exists st1. destruct n as [|n]; cbn [expire_n]; rewrite ?Ha; (split; [done|]);
      simpl; rewrite Hm; (split; [done|]); split; (lia || by intros [? ?]).
Qed.

End life.

(** No started timer has this id. *)
Definition id_unused (st : timer_state) (id : Z) : Prop :=
  ∀ h t tm, Some h ∈ timers st → handles st !! h = Some (Some t) →
    objs st !! t = Some tm → tm_id tm ≠ id.

(** The timer can be started on the new handle [h]. *)
Record startable (st : timer_state) (t h : Z) (tm : luat_timer) : Prop := {
  sa_inv : timer_inv st;
  sa_obj : objs st !! t = Some tm;
  sa_idle : ∀ h', tm_os_timer tm = Some h' → Some h' ∉ timers st;
  sa_fresh : Some h ∉ timers st;
  sa_room : None ∈ timers st;
  sa_id : id_unused st (tm_id tm);
}.

Lemma timer_start_serves st t h tm :
  startable st t h tm →
  ∃ st', luat_timer_start t (Some h) 0 0 st = Ok (0, st') ∧
    serving st' h t (set_os_timer h tm) ∧ armed st' !! h = Some (tm_timeout tm).
Proof.
  intros [Hinv Ht Hidle Hfresh Hroom Hid].
  destruct (luat_timer_start t (Some h) 0 0 st) as [[ret st']|] eqn:E.
  - assert (timer_inv st') as Hinv' by (by eapply timer_inv_start).
    unfold luat_timer_start in E.
    pose proof (get_free_timer_id_spec (timers st)) as Hfree.
    destruct (get_free_timer_id (timers st)) as [i|]; [|done].
    cbn [oget mbind res_bind negb Z.eqb] in E. rewrite Ht in E.
    cbn [oget mbind res_bind uv_timer_start Z.eqb] in E. injection E as <- <-.
    eexists. split; [done|]. split; [|simpl; apply lookup_insert_eq].
    assert (i < length (timers st))%nat by (by eapply lookup_lt_Some).
    split; [done|..]; cbn [timers handles objs].
    + by apply list_elem_of_insert.
    + apply lookup_insert_eq.
    + apply lookup_insert_eq.
    + intros h' t' tm' [j Hj]%list_elem_of_lookup. rewrite list_lookup_insert in Hj.
      case_decide; [by simplify_eq|]. apply list_elem_of_lookup_2 in Hj.
      assert (h' ≠ h) by (by intros ->). rewrite lookup_insert_ne by done. intros Hh'.
      destruct (ti_live _ Hinv h' Hj) as (t1 & tm1 & ? & ? & ?).
      assert (t' ≠ t) by (intros ->; apply (Hidle h'); congruence).
      rewrite lookup_insert_ne by done. intros Ht' Hid'. by destruct (Hid h' t' tm').
  - unfold luat_timer_start in E.
    pose proof (get_free_timer_id_spec (timers st)) as Hfree.
    destruct (get_free_timer_id (timers st)) as [i|]; [|done].
    cbn [oget mbind res_bind negb Z.eqb] in E. by rewrite Ht in E.
Qed.

(** A started timer is found again by its id and armed with its
    timeout; after it is stopped nothing is found under the id, nothing is armed
    for it, and its slot can be used again. *)
Theorem timer_start_get_stop st t h tm :
  startable st t h tm →
  ∃ st1 st2,
    luat_timer_start t (Some h) 0 0 st = Ok (0, st1) ∧
    luat_timer_get (tm_id tm) st1 = Ok (Some t) ∧
    armed st1 !! h = Some (tm_timeout tm) ∧
    luat_timer_stop t st1 = Ok (0, st2) ∧
    luat_timer_get (tm_id tm) st2 = Ok None ∧
    armed st2 !! h = None ∧ None ∈ timers st2.
Proof.
  intros Hsa. destruct (timer_start_serves st t h tm Hsa) as (st1 & E1 & Hs & Ha).
  exists st1. pose proof (serving_lookup _ _ _ _ Hs) as Hl. simpl in Hl.
  unfold luat_timer_stop. rewrite (sv_obj _ _ _ _ Hs).
  cbn [oget mbind res_bind set_os_timer tm_os_timer].
  pose proof (slot_of_spec (timers st1) (Some h)) as Hslot.
  destruct (slot_of (timers st1) (Some h)) as [i|]; [|by destruct Hslot; eapply sv_in].
  eexists. split; [done|]. split; [|split; [done|split; [done|]]].
  { unfold luat_timer_get. rewrite Hl. cbn [mbind res_bind].
    by rewrite (sv_handle _ _ _ _ Hs). }
  cbn [timers armed]. assert (i < length (timers st1))%nat by (by eapply lookup_lt_Some).
  split; [|split; [apply lookup_delete_eq|by apply list_elem_of_insert]].
  unfold luat_timer_get. cbn [timers].
  set (st2 := TimerState _ _ _ _ _).
  assert (timer_inv st2) as Hinv2.
  { eapply (timer_inv_stop t _ 0 st1 st2); [by eapply sv_inv|by eapply sv_obj|by eexists|].
    unfold luat_timer_stop. rewrite (sv_obj _ _ _ _ Hs).
    cbn [oget mbind res_bind set_os_timer tm_os_timer].
    pose proof (slot_of_spec (timers st1) (Some h)) as Hs'.
    destruct (slot_of (timers st1) (Some h)) as [j|]; [|by destruct Hs'; eapply sv_in].
    assert (j = i) as -> by (eapply ti_unique; [by eapply sv_inv|done..]). done. }
  destruct (get_timer_by_id_spec st2 (<[i:=None]> (timers st1)) (tm_id tm))
    as (r & -> & Hr).
  { intros h' Hin'. destruct (ti_live _ Hinv2 h' Hin') as (?&?&?&?&?). eauto. }
  destruct r as [h'|]; [exfalso|done].
  destruct Hr as ([j Hj]%list_elem_of_lookup & t' & tm' & Hh' & Ht' & Hid').
  rewrite list_lookup_insert in Hj. case_decide as Hij; [done|].
  simpl in Hh'. apply lookup_delete_Some in Hh' as [Hne Hh'].
  apply Hne. symmetry. eapply (sv_only _ _ _ _ Hs); [|done..].
  by eapply list_elem_of_lookup_2.
Qed.

(** ** The properties on a concrete timer *)

Definition demo_timer : luat_timer := LuatTimer 1 500 2 "l_timer_handler" None.
Definition demo_new : timer_state := set_obj 0x100 demo_timer timer_init.

Lemma demo_startable : startable demo_new 0x100 0x2000 demo_timer.
Proof.
  split; try done.
  - apply (timer_inv_step (H := linux64) timer_init); [apply timer_inv_init|].
    by apply (step_new (H := linux64)).
  - intros [? _]%elem_of_replicate. done.
  - refine (bool_decide_eq_true_1 _ _). by vm_compute.
Qed.

Lemma demo_reach : @timer_reach linux64 demo_new.
Proof. eapply reach_step; [constructor|]. by apply (step_new (H := linux64)). Qed.

Lemma timers_memory_safe_witness :
  ∃ st st', @timer_reach linux64 st ∧ armed st !! 0x2000 = Some 500 ∧
    @uv_expire linux64 0 0x2000 st = Ok st'.
Proof.
  destruct (timer_start_serves demo_new 0x100 0x2000 demo_timer
    demo_startable) as (st & E & Hs & Ha).
  assert (@timer_reach linux64 st) as Hr.
  { eapply reach_step; [apply demo_reach|].
    eapply (step_start (H := linux64)); [| | | |exact E]; try done.
    by eapply sa_fresh, demo_startable. }
  destruct (timers_memory_safe (H := linux64) st Hr) as (_ & _ & Hexp & _).
  destruct (Hexp 0x2000 0) as [st' E']; [by eexists|].
  exists st, st'. done.
Defined.

Lemma timer_stop_unstarted_faults_witness :
  luat_timer_stop 0x100 demo_new = Fault NullDeref.
Proof.
  rewrite (timer_stop_unstarted_faults 0x100 demo_timer demo_new eq_refl eq_refl).
  rewrite decide_True; [done|]. apply demo_startable.
Defined.

Lemma timer_fires_repeat_plus_one_witness :
  ∃ st st', @expire_n linux64 7 0x2000 st = Ok st' ∧
    tmsgs st' = tmsgs st ++ replicate 3 (RtosMsg "l_timer_handler" 0 1 0).
Proof.
  destruct (timer_start_serves demo_new 0x100 0x2000 demo_timer
    demo_startable) as (st & E & Hs & Ha).
  destruct (timer_fires_repeat_plus_one (H := linux64) 7 st 0x2000 0x100
    (set_os_timer 0x2000 demo_timer) Hs) as (st' & E' & Hm & _).
  - done.
  - by eexists.
  - done.
  - exists st, st'. split; [done|]. exact Hm.
Defined.

Lemma timer_start_get_stop_witness :
  ∃ st1 st2, luat_timer_start 0x100 (Some 0x2000) 0 0 demo_new = Ok (0, st1) ∧
    luat_timer_get 1 st1 = Ok (Some 0x100) ∧
    luat_timer_stop 0x100 st1 = Ok (0, st2) ∧ luat_timer_get 1 st2 = Ok None.
Proof.
  destruct (timer_start_get_stop demo_new 0x100 0x2000 demo_timer
    demo_startable) as (st1 & st2 & H1 & H2 & _ & H3 & H4 & _).
  exists st1, st2. done.
Defined.
