(* ===== verification/RtosTimer.v ===== *)
(** * RTOS timers of port/rtos/luat_rtos_timer_pc.c

    Timers for native code: a libuv handle whose [data] block keeps the callback
    and the period.  The callback is a parameter that may itself use timers. *)

From S2P Require Import Prelude.

(** ** Data *)

Record timer_data : Type := TimerData {
  td_cb : Z; td_param : Z; td_task_handle : Z; td_is_repeat : Z; td_timeout : Z;
}.

(** [rt_loop]: the handles libuv knows ([uv_timer_init] until [uv_close]). *)
Record rt_state : Type := RtState {
  rt_timers : gmap Z timer_data;     (* live handles with their data block *)
  rt_loop : gset Z;
  rt_armed : gmap Z Z;
}.

Definition rt_init : rt_state := RtState ∅ ∅ ∅.

Definition rt_set_data (t : Z) (d : timer_data) (st : rt_state) : rt_state :=
  RtState (<[t := d]> (rt_timers st)) (rt_loop st) (rt_armed st).
Definition rt_arm (ret t ms : Z) (st : rt_state) : rt_state :=
  if ret =? 0
  then RtState (rt_timers st) (rt_loop st) (<[t := ms]> (rt_armed st)) else st.

Section rtos_timer.
(** What the callback [cb] does to the timers when called with a parameter. *)
Context (callback : Z → Z → rt_state → rt_state).

(** ** Operations *)

Definition rtos_timer_cb (start_ret t : Z) (st : rt_state) : res rt_state :=
  d ← oget BadPointer (rt_timers st !! t);
  let st := if negb (td_cb d =? 0) then callback (td_cb d) (td_param d) st else st in
  d ← oget BadPointer (rt_timers st !! t);
  Ok (if negb (td_is_repeat d =? 0) then rt_arm start_ret t (td_timeout d) st else st).

(** libuv expires an armed handle. *)
Definition rt_expire (start_ret t : Z) (st : rt_state) : res rt_state :=
  rtos_timer_cb start_ret t
    (RtState (rt_timers st) (rt_loop st) (delete t (rt_armed st))).

(** [t] and [data_ok] are the results of the two allocations. *)
Definition luat_create_rtos_timer (cb param task_handle : Z) (t : option Z)
    (data_ok : bool) (st : rt_state) : option Z * rt_state :=
  match t with
  | None => (None, st)
  | Some t =>
      let st := RtState (rt_timers st) ({[t]} ∪ rt_loop st) (rt_armed st) in
      if negb data_ok then (None, st)
      else (Some t, rt_set_data t (TimerData cb param task_handle 0 0) st)
  end.

Definition luat_start_rtos_timer (start_ret t ms is_repeat : Z) (st : rt_state)
    : res (Z * rt_state) :=
  d ← oget BadPointer (rt_timers st !! t);
  Ok (start_ret, rt_arm start_ret t ms
    (rt_set_data t (TimerData (td_cb d) (td_param d) (td_task_handle d) is_repeat ms) st)).

Definition luat_stop_rtos_timer (t : Z) (st : rt_state) : res rt_state :=
  _ ← oget BadPointer (rt_timers st !! t);
  Ok (RtState (rt_timers st) (rt_loop st) (delete t (rt_armed st))).

Definition luat_release_rtos_timer (t : Z) (st : rt_state) : res rt_state :=
  _ ← oget BadPointer (rt_timers st !! t);
  Ok (RtState (delete t (rt_timers st)) (rt_loop st ∖ {[t]}) (delete t (rt_armed st))).

(** The [luat_rtos_timer_*] names; [None] is a null argument. *)
Definition luat_rtos_timer_create (timer_handle : option unit) (t : option Z)
    (data_ok : bool) (st : rt_state) : Z * option Z * rt_state :=
  match timer_handle with
  | None => (-1, None, st)
  | Some _ =>
      let '(r, st) := luat_create_rtos_timer 0 0 0 t data_ok st in
      (if r is Some _ then 0 else -1, r, st)
  end.

Definition luat_rtos_timer_delete (t : option Z) (st : rt_state) : res (Z * rt_state) :=
  match t with
  | None => Ok (-1, st)
  | Some t => st ← luat_release_rtos_timer t st; Ok (0, st)
  end.

Definition luat_rtos_timer_start (start_ret : Z) (t : option Z)
    (timeout repeat callback_fun user_param : Z) (st : rt_state) : res (Z * rt_state) :=
  match t with
  | None => Ok (-1, st)
  | Some t =>
      d ← oget BadPointer (rt_timers st !! t);
      Ok (start_ret, rt_arm start_ret t timeout
        (rt_set_data t
           (TimerData callback_fun user_param (td_task_handle d) repeat timeout) st))
  end.

Definition luat_rtos_timer_stop (t : option Z) (st : rt_state) : res (Z * rt_state) :=
  match t with
  | None => Ok (-1, st)
  | Some t => st ← luat_stop_rtos_timer t st; Ok (0, st)
  end.

(** [due_in] is [uv_timer_get_due_in]: the milliseconds left, 0 when stopped. *)
Definition luat_rtos_timer_is_active (due_in : Z → Z) (t : option Z) : Z :=
  match t with
  | None => -1
  | Some t => if 0 <? due_in t then 1 else 0
  end.

(** The time slept; suspending and resuming tasks do nothing. *)
Definition luat_rtos_task_sleep (ms : Z) : Z := if 0 <? ms then ms else 0.
Definition luat_task_suspend_all (st : rt_state) : rt_state := st.
Definition luat_task_resume_all (st : rt_state) : rt_state := st.

End rtos_timer.

(** ** Properties *)

(** libuv only knows live timers, and only arms those. *)
Definition rt_inv (st : rt_state) : Prop :=
  rt_loop st = dom (rt_timers st) ∧ dom (rt_armed st) ⊆ dom (rt_timers st).

Lemma rt_inv_set t d st :
  is_Some (rt_timers st !! t) → rt_inv st → rt_inv (rt_set_data t d st).
Proof.
  intros Ht%elem_of_dom [Hl Ha]. split; simpl; rewrite dom_insert_L; set_solver.
Qed.

Lemma rt_inv_arm ret t ms st :
  is_Some (rt_timers st !! t) → rt_inv st → rt_inv (rt_arm ret t ms st).
Proof.
  intros Ht%elem_of_dom [Hl Ha]. unfold rt_arm. case_match; [|done].
  split; simpl; [done|]. rewrite dom_insert_L. set_solver.
Qed.

(** The expiry of a live timer runs its callback and returns,
    keeping libuv's handles live, provided the callback leaves the timer alive;
    it then arms the timer again exactly when its repeat flag, as the callback
    left it, says so. *)
Theorem rtos_timer_cb_safe callback t st d :
  rt_inv st → rt_timers st !! t = Some d →
  let st1 := RtState (rt_timers st) (rt_loop st) (delete t (rt_armed st)) in
  let st2 := if decide (td_cb d = 0) then st1 else callback (td_cb d) (td_param d) st1 in
  rt_inv st2 →
  match rt_timers st2 !! t with
  | Some d' => ∃ st', rt_expire callback 0 t st = Ok st' ∧ rt_inv st' ∧
      rt_timers st' = rt_timers st2 ∧
      rt_armed st' !! t = if decide (td_is_repeat d' = 0) then rt_armed st2 !! t
                          else Some (td_timeout d')
  | None => rt_expire callback 0 t st = Fault BadPointer
  end.
Proof.
  intros Hinv Ht st1 st2 Hinv2. unfold rt_expire, rtos_timer_cb. fold st1.
  change (rt_timers st1) with (rt_timers st). rewrite Ht. cbn [oget mbind res_bind].
  replace (if negb (td_cb d =? 0) then callback (td_cb d) (td_param d) st1 else st1)
    with st2.
  2: { unfold st2. destruct (Z.eqb_spec (td_cb d) 0) as [E|E]; simpl.
       - by rewrite decide_True. - by rewrite decide_False. }
  destruct (rt_timers st2 !! t) as [d'|] eqn:Ht2; [|done].
  cbn [oget mbind res_bind]. destruct (Z.eqb_spec (td_is_repeat d') 0) as [E|E]; simpl.
  - rewrite decide_True by done. eauto.
  - rewrite decide_False by done. eexists. split; [done|].
    split; [apply rt_inv_arm; [by eexists|done]|]. simpl.
    by rewrite lookup_insert_eq.
Qed.

(** When the data block of a new timer cannot be allocated, the
    handle is freed although libuv already knows it: the only failure after
    which the loop keeps a handle to freed memory. *)
Theorem rtos_timer_create_dangling cb param task t data_ok st :
  rt_inv st → (∀ a, t = Some a → rt_timers st !! a = None) →
  let '(r, st') := luat_create_rtos_timer cb param task t data_ok st in
  rt_inv st' ↔ ¬ (is_Some t ∧ data_ok = false).
Proof.
  intros [Hl Ha] Hfresh. destruct t as [a|]; simpl.
  - specialize (Hfresh a eq_refl). apply not_elem_of_dom in Hfresh.
    destruct data_ok; simpl.
    + split; [naive_solver|]. intros _. split; simpl; rewrite dom_insert_L; set_solver.
    + split; [|intros []; eauto]. intros [Hl' _]. simpl in Hl'. set_solver.
  - split; [intros _ [[? ?] _]; done|]. by split.
Qed.

(** *** On concrete timers *)

Definition demo_rt : rt_state :=
  RtState {[0x10 := TimerData 1 7 0 1 100]} {[0x10]} {[0x10 := 100]}.

Lemma demo_rt_inv : rt_inv demo_rt.
Proof. split; simpl; by rewrite !dom_singleton_L. Qed.

(** A callback that deletes its own repeating timer. *)
Definition suicide (cb param : Z) (st : rt_state) : rt_state :=
  RtState (delete 0x10 (rt_timers st)) (rt_loop st ∖ {[0x10]}) (delete 0x10 (rt_armed st)).

Lemma rtos_timer_cb_safe_witness :
  (∃ st', rt_expire (λ _ _ st, st) 0 0x10 demo_rt = Ok st' ∧ rt_inv st' ∧
     rt_armed st' !! 0x10 = Some 100) ∧
  rt_expire suicide 0 0x10 demo_rt = Fault BadPointer.
Proof.
  split.
  - destruct (rtos_timer_cb_safe (λ _ _ st, st) 0x10 demo_rt (TimerData 1 7 0 1 100)
      demo_rt_inv) as (st' & H1 & H2 & _ & H3); [done| |by exists st'].
    split; simpl; rewrite ?dom_delete_L, !dom_singleton_L; set_solver.
  - refine (rtos_timer_cb_safe suicide 0x10 demo_rt (TimerData 1 7 0 1 100)
      demo_rt_inv _ _); [done|].
    split; simpl; rewrite ?dom_delete_L, !dom_singleton_L; set_solver.
Defined.

Lemma rtos_timer_create_dangling_witness :
  ¬ rt_inv (luat_create_rtos_timer 0 0 0 (Some 0x20) false demo_rt).2.
Proof.
  pose proof (rtos_timer_create_dangling 0 0 0 (Some 0x20) false demo_rt demo_rt_inv) as H.
  intros Hinv. apply H; [by intros ? [= <-]|exact Hinv|]. split; [by eexists|done].
Defined.
