(* ===== verification/Mutex.v ===== *)
(** * Mutexes of port/rtos/luat_rtos_mutex_pc.c

    A libuv mutex with a counter beside it.  The counter is read and written
    outside the libuv mutex on the unlocking side, so the model takes the calls
    apart into their atomic steps and runs threads under an arbitrary
    schedule. *)

From S2P Require Import Prelude.

(** ** Calls by a single thread *)

(** [pc_mutex_t]: the thread holding [m], and [lock]. *)
Record pc_mutex : Type := PcMutex { mx_owner : option nat; mx_lock : Z }.

(** The results of the allocation and of [uv_mutex_init]. *)
Definition luat_mutex_create (malloc_ok : bool) (init_ret : Z) : option pc_mutex :=
  if negb malloc_ok then None
  else if negb (init_ret =? 0) then None
  else Some (PcMutex None 0).

(** [None] as result: the caller blocks in [uv_mutex_lock]. *)
Definition luat_mutex_lock (self : nat) (mutex : option pc_mutex)
    : option (Z * option pc_mutex) :=
  match mutex with
  | None => Some (-1, None)
  | Some m =>
      match mx_owner m with
      | Some _ => None
      | None => Some (0, Some (PcMutex (Some self) (i32 (mx_lock m + 1))))
      end
  end.

Definition luat_mutex_unlock (mutex : option pc_mutex) : Z * option pc_mutex :=
  match mutex with
  | None => (-1, None)
  | Some m =>
      if mx_lock m =? 0 then (-2, mutex)
      else (0, Some (PcMutex None (i32 (mx_lock m - 1))))
  end.

(** The test compares the address of [lock], which is never null: whether
    [uv_mutex_destroy] is called, and the block is freed. *)
Definition luat_mutex_release (lock_addr : Z) (mutex : option pc_mutex) : option bool :=
  match mutex with
  | None => None
  | Some _ => Some (lock_addr =? 0)
  end.

(** ** Threads *)

(** Where a thread is in [luat_mutex_lock] and [luat_mutex_unlock]: each
    constructor is the next atomic step it takes.  A thread outside calls lock
    next, one that holds the mutex calls unlock next. *)
Inductive pc : Type :=
  | Outside
  | LockWait                  (* uv_mutex_lock(&m->m) *)
  | LockRead                  (* m->lock ++ : read *)
  | LockWrite (v : Z)         (* m->lock ++ : write *)
  | Holding
  | UnlockTest                (* if (m->lock == 0) return -2 *)
  | UnlockRelease             (* uv_mutex_unlock(&m->m) *)
  | UnlockRead                (* m->lock -- : read *)
  | UnlockWrite (v : Z)       (* m->lock -- : write *)
  | Refused.                  (* luat_mutex_unlock returned -2 *)

Record mstate : Type := MState { ms_mutex : pc_mutex; ms_pcs : list pc }.

Definition set_pc (i : nat) (p : pc) (m : pc_mutex) (s : mstate) : mstate :=
  MState m (<[i := p]> (ms_pcs s)).

(** Thread [i] takes its next step; a blocked or absent thread does nothing. *)
Definition mstep (i : nat) (s : mstate) : mstate :=
  let m := ms_mutex s in
  match ms_pcs s !! i with
  | Some Outside => set_pc i LockWait m s
  | Some LockWait =>
      match mx_owner m with
      | Some _ => s
      | None => set_pc i LockRead (PcMutex (Some i) (mx_lock m)) s
      end
  | Some LockRead => set_pc i (LockWrite (mx_lock m)) m s
  | Some (LockWrite v) => set_pc i Holding (PcMutex (mx_owner m) (i32 (v + 1))) s
  | Some Holding => set_pc i UnlockTest m s
  | Some UnlockTest =>
      if mx_lock m =? 0 then set_pc i Refused m s else set_pc i UnlockRelease m s
  | Some UnlockRelease => set_pc i UnlockRead (PcMutex None (mx_lock m)) s
  | Some UnlockRead => set_pc i (UnlockWrite (mx_lock m)) m s
  | Some (UnlockWrite v) => set_pc i Outside (PcMutex (mx_owner m) (i32 (v - 1))) s
  | Some Refused | None => s
  end.

Definition mrun (sched : list nat) (s : mstate) : mstate :=
  fold_left (λ s i, mstep i s) sched s.

Definition mstart (n : nat) : mstate := MState (PcMutex None 0) (replicate n Outside).

(** The steps between taking and giving back the libuv mutex. *)
Definition inside (p : pc) : bool :=
  match p with
  | LockRead | LockWrite _ | Holding | UnlockTest | UnlockRelease | Refused => true
  | _ => false
  end.

(** ** Mutual exclusion *)

Definition owner_inv (s : mstate) : Prop :=
  ∀ i p, ms_pcs s !! i = Some p → inside p = true → mx_owner (ms_mutex s) = Some i.

Lemma owner_inv_set i p p0 m s :
  owner_inv s → ms_pcs s !! i = Some p0 →
  (inside p = true → mx_owner m = Some i) →
  (mx_owner m = mx_owner (ms_mutex s) ∨
   inside p0 = true ∨ mx_owner (ms_mutex s) = None) →
  owner_inv (set_pc i p m s).
Proof.
  intros Hinv Hi Hp Hm j q. simpl. rewrite list_lookup_insert.
  case_decide as Hij; [intros [= <-] Hq; destruct Hij as [-> _]; auto|].
  intros Hj Hq. specialize (Hinv j q Hj Hq) as Hown.
  destruct Hm as [->|[Hp0|Hnone]]; [done| |congruence].
  specialize (Hinv i p0 Hi Hp0). assert (i = j) as -> by congruence.
  destruct Hij. split; [done|]. by eapply lookup_lt_Some.
Qed.

Lemma owner_inv_step i s : owner_inv s → owner_inv (mstep i s).
Proof.
  intros Hinv. unfold mstep. destruct (ms_pcs s !! i) as [p|] eqn:Hi; [|done].
  assert (inside p = true → mx_owner (ms_mutex s) = Some i) as Hown by eauto.
  destruct p; simpl in Hown; repeat case_match; try done;
    (eapply owner_inv_set; [done|exact Hi|simpl; auto; done|simpl; auto]).
Qed.

(** Under every schedule of any number of threads, at most one
    thread is between taking and giving back the mutex: the counter never lets
    a second one in. *)
Theorem mutex_exclusion n sched i j pi pj :
  let s := mrun sched (mstart n) in
  ms_pcs s !! i = Some pi → inside pi = true →
  ms_pcs s !! j = Some pj → inside pj = true → i = j.
Proof.
  intros s Hi Hpi Hj Hpj.
  assert (owner_inv s) as Hinv.
  { unfold s, mrun. clear. assert (owner_inv (mstart n)) as H0.
    { intros i p Hi. by apply lookup_replicate in Hi as [-> _]. }
    revert H0. generalize (mstart n).
    induction sched as [|k sched IH]; intros s0 H0; [done|].
    simpl. apply IH. by apply owner_inv_step. }
  pose proof (Hinv i pi Hi Hpi). pose proof (Hinv j pj Hj Hpj). congruence.
Qed.

Lemma mutex_exclusion_witness :
  let s := mrun [0; 1; 0; 1; 0; 1; 0; 1]%nat (mstart 2) in
  ms_pcs s = [Holding; LockWait] ∧ (∀ j pj, ms_pcs s !! j = Some pj →
    inside pj = true → 0%nat = j).
Proof.
  split; [by vm_compute|]. intros j pj.
  apply (mutex_exclusion 2 [0; 1; 0; 1; 0; 1; 0; 1]%nat 0 j Holding); by vm_compute.
Defined.

(** ** The unprotected decrement *)

(** Two threads: the first gives the mutex back and reads the counter (1); the
    second takes the mutex and increments the counter to 2; the first writes 0;
    the second's unlock finds 0 and is refused, while it holds the mutex. *)
Definition race : list nat :=
  [0; 0; 0; 0; 0; 0; 0; 0; 1; 1; 1; 1; 0; 1; 1; 0; 0]%nat.

(** The unlocking thread decrements the counter after it gave
    the mutex back, so an update can be lost: two threads that only pair lock
    with unlock reach a state where the holder's unlock has returned -2, the
    other waits for the mutex, and no schedule ever changes that. *)
Theorem mutex_race_deadlocks :
  let s := mrun race (mstart 2) in
  ms_pcs s = [LockWait; Refused] ∧ mx_owner (ms_mutex s) = Some 1%nat ∧
  ∀ sched, mrun sched s = s.
Proof.
  intros s. split; [by vm_compute|]. split; [by vm_compute|].
  intros sched. replace s with (MState (PcMutex (Some 1%nat) 0) [LockWait; Refused])
    by by vm_compute.
  clear s. induction sched as [|i sched IH]; [done|]. cbn [mrun fold_left].
  fold (mrun sched). replace (mstep i _) with
    (MState (PcMutex (Some 1%nat) 0) [LockWait; Refused]); [done|].
  by destruct i as [|[|i]].
Qed.

(** When the calls do not overlap, pairing works: for a mutex
    in use by one caller at a time, lock then unlock succeed and restore it,
    and an unlock without a lock is refused with -2 and changes nothing. *)
Theorem mutex_lock_unlock self m :
  mx_owner m = None → mx_lock m = 0 →
  ∃ m1, luat_mutex_lock self (Some m) = Some (0, Some m1) ∧
    mx_owner m1 = Some self ∧
    (∀ other, luat_mutex_lock other (Some m1) = None) ∧
    luat_mutex_unlock (Some m1) = (0, Some m) ∧
    luat_mutex_unlock (Some m) = (-2, Some m).
Proof.
  destruct m as [o l]. simpl. intros -> ->. eexists. split; [done|]. done.
Qed.

Lemma mutex_lock_unlock_witness :
  ∃ m1, luat_mutex_lock 3 (luat_mutex_create true 0) = Some (0, Some m1) ∧
    luat_mutex_unlock (Some m1) = (0, Some (PcMutex None 0)).
Proof.
  destruct (mutex_lock_unlock 3 (PcMutex None 0) eq_refl eq_refl)
    as (m1 & H1 & _ & _ & H2 & _). by exists m1.
Defined.
