(* ===== verification/RtosTask.v ===== *)
(** * Task events and messages of port/rtos/luat_rtos_task_pc.c

    Each task embeds a queue ([Queue]); senders allocate a block and push it,
    the receiver polls once per millisecond until something arrives or its
    timeout has run down.  Other threads act while the receiver sleeps: what
    they do to the store in each sleep, crashing included, is an argument.  The
    heap may be full at any call: a sender of events then writes through a null
    pointer, a sender of messages gives up, and a receiver polls without a
    block to receive into. *)

From S2P Require Import Prelude Queue Msgbus.

(** ** Tasks *)

(** The result of [luat_rtos_task_create] given those of the allocation (of the
    task block, [None] on failure) and of [uv_thread_create]. *)
Definition luat_rtos_task_create (task : option Z) (thread_ret : Z) : Z * option Z :=
  match task with
  | None => (-1, None)
  | Some t => if negb (thread_ret =? 0) then (thread_ret, None) else (0, Some t)
  end.

Definition luat_rtos_task_delete (task : Z) (h : qheap) : Z * qheap :=
  (0, delete task h).

(** Critical sections are not implemented. *)
Definition luat_rtos_entry_critical : Z := 0.
Definition luat_rtos_exit_critical (critical : Z) (h : qheap) : qheap := h.

Section task.
Context `{Platform} `{Allocator uv_queue_item}.
Context (CORE_EVENT_ID_ANY : Z).

(** ** Events *)

(** [luat_event_t]: four 32-bit words. *)
Definition sizeof_event : nat := 16.
Definition event_bytes (id param1 param2 param3 : Z) : list Z :=
  le_bytes 4 id ++ le_bytes 4 param1 ++ le_bytes 4 param2 ++ le_bytes 4 param3.
Definition event_id (e : list Z) : Z := le_val (take 4 e).

(** The task is known by the address of its queue. *)
Definition luat_rtos_event_send (h : qheap) (task : option Z)
    (id param1 param2 param3 timeout : Z) : res (Z * qheap) :=
  match task with
  | None => Ok (-1, h)
  | Some q =>
      item ← oget NullDeref (malloc h (qi_sizeof + Z.of_nat sizeof_event));
      it ← sender_item (event_bytes id param1 param2 param3);
      luat_queue_push (<[item := it]> h) (Some q) (Some item)
  end.

(** [timeout > 0 && timeout != (size_t)(-1)]: on a 64-bit build a 32-bit
    timeout never equals [SIZE_MAX]. *)
Definition dec_timeout (timeout : Z) : Z :=
  if (0 <? timeout) && negb (timeout =? 2 ^ sizet_bits - 1)
  then timeout - 1 else timeout.

Definition free_item (item : option Z) (h : qheap) : qheap :=
  match item with Some i => delete i h | None => h end.

(** [out] is what [*out_event] holds so far. *)
Fixpoint event_recv_loop (wait_event_id : Z) (q : Z) (item : option Z)
    (timeout : Z) (out : option (list Z)) (h : qheap)
    (sleeps : list (qheap → res qheap)) : res (Z * option (list Z) * qheap) :=
  '(ret, h) ← luat_queue_pop h (Some q) item;
  out' ← (if ret =? 0 then
            i ← oget NullDeref item;
            nd ← oget BadPointer (h !! i);
            e ← load (qi_msg nd) 0 sizeof_event;
            Ok (Some e)
          else Ok None);
  let hit := match out' with
             | Some e => (wait_event_id =? CORE_EVENT_ID_ANY) || (event_id e =? wait_event_id)
             | None => false
             end in
  let out := match out' with Some e => Some e | None => out end in
  if hit then Ok (0, out, free_item item h)
  else if timeout =? 0 then Ok (1, out, free_item item h)
  else
    match sleeps with
    | [] => Fault OutOfFuel
    | others :: rest =>
        h ← others h;
        event_recv_loop wait_event_id q item (dec_timeout timeout) out h rest
    end.

Definition luat_rtos_event_recv (h : qheap) (task : option Z)
    (wait_event_id timeout : Z) (sleeps : list (qheap → res qheap))
    : res (Z * option (list Z) * qheap) :=
  match task with
  | None => Ok (-1, None, h)
  | Some q =>
      match malloc h (qi_sizeof + Z.of_nat sizeof_event) with
      | None => event_recv_loop wait_event_id q None timeout None h sleeps
      | Some item =>
          event_recv_loop wait_event_id q (Some item) timeout None
            (<[item := blank_item sizeof_event]> h) sleeps
      end
  end.

(** The older names for the same calls; their results are not returned. *)
Definition luat_send_event_to_task (h : qheap) (task : option Z)
    (id param1 param2 param3 : Z) : res qheap :=
  snd <$> luat_rtos_event_send h task id param1 param2 param3 0.
Definition luat_wait_event_from_task (h : qheap) (task : option Z)
    (wait_event_id ms : Z) (sleeps : list (qheap → res qheap))
    : res (option (list Z) * qheap) :=
  (λ '(_, out, h), (out, h)) <$> luat_rtos_event_recv h task wait_event_id ms sleeps.

(** ** Messages *)

(** [luat_message_item_t]: a 32-bit id, padded, and a pointer. *)
Definition sizeof_message : nat := Z.to_nat (2 * ptr_bytes).
Definition message_bytes (message_id p_message : Z) : list Z :=
  le_bytes 4 message_id ++ replicate (Z.to_nat (ptr_bytes - 4)) 0 ++
  le_bytes (Z.to_nat ptr_bytes) p_message.
Definition message_id_of (m : list Z) : Z := le_val (take 4 m).
Definition message_ptr_of (m : list Z) : Z := le_val (drop (Z.to_nat ptr_bytes) m).

Definition luat_rtos_message_send (h : qheap) (task : option Z)
    (message_id p_message : Z) : res (Z * qheap) :=
  match task with
  | None => Ok (-1, h)
  | Some q =>
      match malloc h (qi_sizeof + Z.of_nat sizeof_message) with
      | None => Ok (-1, h)
      | Some item =>
          it ← sender_item (message_bytes message_id p_message);
          luat_queue_push (<[item := it]> h) (Some q) (Some item)
      end
  end.

Fixpoint message_recv_loop (q : Z) (item : option Z) (timeout : Z) (h : qheap)
    (sleeps : list (qheap → res qheap)) : res (Z * option (Z * Z) * qheap) :=
  '(ret, h) ← luat_queue_pop h (Some q) item;
  if ret =? 0 then
    i ← oget NullDeref item;
    nd ← oget BadPointer (h !! i);
    m ← load (qi_msg nd) 0 sizeof_message;
    Ok (0, Some (message_id_of m, message_ptr_of m), free_item item h)
  else if timeout =? 0 then Ok (1, None, free_item item h)
  else
    match sleeps with
    | [] => Fault OutOfFuel
    | others :: rest =>
        h ← others h;
        message_recv_loop q item (dec_timeout timeout) h rest
    end.

(** [args] tells whether both result pointers were given. *)
Definition luat_rtos_message_recv (h : qheap) (task : option Z) (args : bool)
    (timeout : Z) (sleeps : list (qheap → res qheap)) : res (Z * option (Z * Z) * qheap) :=
  match task with
  | Some q =>
      if negb args then Ok (-1, None, h)
      else match malloc h (qi_sizeof + Z.of_nat sizeof_message) with
      | None => message_recv_loop q None timeout h sleeps
      | Some item =>
          message_recv_loop q (Some item) timeout
            (<[item := blank_item sizeof_message]> h) sleeps
      end
  | None => Ok (-1, None, h)
  end.

(** ** Receiving events: the specification on the list of queued events *)

Definition wanted (wait_event_id : Z) (e : list Z) : bool :=
  (wait_event_id =? CORE_EVENT_ID_ANY) || (event_id e =? wait_event_id).

(** One event is looked at per poll; one that is not wanted is gone. *)
Fixpoint recv_ref (wait_event_id timeout : Z) (out : option (list Z))
    (es : list (list Z)) (batches : list (list (list Z)))
    : option (Z * option (list Z) * list (list Z)) :=
  let '(out', es') := match es with [] => (out, []) | e :: es' => (Some e, es') end in
  let hit := match es with [] => false | e :: _ => wanted wait_event_id e end in
  if hit then Some (0, out', es')
  else if timeout =? 0 then Some (1, out', es')
  else
    match batches with
    | [] => None
    | b :: bs => recv_ref wait_event_id (dec_timeout timeout) out' (es' ++ b) bs
    end.

Context (q : Z).

Abbreviation holds := (bus_holds q sizeof_event).

(** An event as its sender gives it. *)
Inductive event := Event (id param1 param2 param3 : Z).

Definition bytes_of (e : event) : list Z :=
  let 'Event id p1 p2 p3 := e in event_bytes id p1 p2 p3.

Definition send (h : qheap) (e : event) : res (Z * qheap) :=
  let 'Event id p1 p2 p3 := e in luat_rtos_event_send h (Some q) id p1 p2 p3 0.

(** What the other threads send during one sleep. *)
Fixpoint send_all (evs : list event) (h : qheap) : res qheap :=
  match evs with
  | [] => Ok h
  | e :: evs => '(_, h) ← send h e; send_all evs h
  end.

(** There is a moment at which one of the events cannot be sent: no block is
    left for it and its sender writes through the null pointer. *)
Definition starved (evs : list event) : Prop :=
  ∃ e h1 es1, e ∈ evs ∧ holds ∅ h1 es1 ∧
    malloc h1 (qi_sizeof + Z.of_nat sizeof_event) = None ∧ send h1 e = Fault NullDeref.

Lemma starved_mono evs evs' : evs ⊆ evs' → starved evs → starved evs'.
Proof. intros Hsub (e & h1 & es1 & He & Hr). exists e, h1, es1. auto. Qed.

Lemma bytes_of_length e : length (bytes_of e) = sizeof_event.
Proof. destruct e. unfold bytes_of, event_bytes. by rewrite !length_app, !length_le_bytes. Qed.

Lemma send_put h e item :
  malloc h (qi_sizeof + Z.of_nat sizeof_event) = Some item →
  send h e = luat_msgbus_put q sizeof_event h (bytes_of e) 0.
Proof.
  intros Hma. destruct e; cbn [send bytes_of]. unfold luat_rtos_event_send, luat_msgbus_put.
  by rewrite Hma.
Qed.

Lemma send_starved h e :
  malloc h (qi_sizeof + Z.of_nat sizeof_event) = None → send h e = Fault NullDeref.
Proof. intros Hma. destruct e; cbn [send]. unfold luat_rtos_event_send. by rewrite Hma. Qed.

Lemma holds_weaken own h es : holds own h es → holds ∅ h es.
Proof. intros (l & Hq & Hl & _ & Hlen). exists l. repeat split; [done|done|set_solver|done]. Qed.

Lemma send_all_spec own evs : ∀ h es,
  holds own h es → (∀ a, a ∈ own → is_Some (h !! a)) →
  (∃ h', send_all evs h = Ok h' ∧ holds own h' (es ++ map bytes_of evs) ∧
     ∀ a, a ∈ own → h' !! a = h !! a) ∨
  (send_all evs h = Fault NullDeref ∧ starved evs).
Proof.
  induction evs as [|e evs IH]; intros h es Hh Hlive.
  { left. exists h. by rewrite app_nil_r. }
  cbn [send_all]. destruct (malloc h (qi_sizeof + Z.of_nat sizeof_event)) as [item|] eqn:Hma.
  - rewrite (send_put h e item Hma).
    destruct (put_spec q sizeof_event own h es (bytes_of e) item 0)
      as (h1 & -> & Hh1 & Hf); [done|apply bytes_of_length|done..|]. cbn [mbind res_bind].
    destruct (IH h1 _ Hh1) as [(h2 & E & Hh2 & Hf2)|[E Hst]].
    { intros a Ha. rewrite Hf by done. auto. }
    + left. exists h2. split; [done|]. unfold Fifo.push in Hh2. rewrite <- app_assoc in Hh2.
      split; [done|]. intros a Ha. rewrite Hf2, Hf; auto.
    + right. split; [done|]. eapply starved_mono; [|done]. set_solver.
  - right. rewrite (send_starved h e Hma). split; [done|].
    exists e, h, es. split; [set_solver|].
    split; [by eapply holds_weaken|split; [done|by apply send_starved]].
Qed.

(** One poll of a non-empty queue. *)
Lemma poll_pop h item e es nd :
  holds {[item]} h (e :: es) → h !! item = Some nd →
  length (qi_msg nd) = length (qi_msg (blank_item sizeof_event)) →
  ∃ h' nd', luat_queue_pop h (Some q) (Some item) = Ok (0, h') ∧
    holds {[item]} h' es ∧ h' !! item = Some nd' ∧
    length (qi_msg nd') = length (qi_msg (blank_item sizeof_event)) ∧
    load (qi_msg nd') 0 sizeof_event = Ok e.
Proof.
  intros (l & Hq & Hl & Hown & Hlen) Hi Hsz.
  destruct l as [|[a p] l]; [discriminate|]; injection Hl as -> <-.
  apply Forall_cons in Hlen as [He Hlen].
  pose proof (blank_item_room sizeof_event e He) as Hroom.
  destruct (luat_queue_pop_spec h q a e l item nd)
    as (h1 & new & Hpop & Hq1 & Hnew & (Hps & Hpl & Hpt) & Ha & Hf & Hsz');
    [done|done|lia|set_solver|].
  exists h1, new. split; [done|]. split.
  { exists l. split; [done|]. split; [done|]. split; [set_solver|done]. }
  split; [done|]. split; [congruence|].
  rewrite load_Ok by lia. by rewrite drop_0, <- He, Hpt.
Qed.

(** Giving the receiver's own block back. *)
Lemma holds_free h item es : holds {[item]} h es → holds ∅ (delete item h) es.
Proof.
  intros (l & Hq & Hl & Hown & Hlen). exists l.
  split; [|split; [done|split; [set_solver|done]]].
  eapply queue_at_frame; [done|]. intros b Hb. apply lookup_delete_ne.
  specialize (Hown item). set_solver.
Qed.

(** The events that arrive, sleep by sleep. *)
Abbreviation arrivals batches := (map (map bytes_of) batches).

Lemma event_recv_loop_refines wait item batches : ∀ timeout out h es nd ret out' es',
  holds {[item]} h es → h !! item = Some nd →
  length (qi_msg nd) = length (qi_msg (blank_item sizeof_event)) →
  recv_ref wait timeout out es (arrivals batches) = Some (ret, out', es') →
  (∃ h', event_recv_loop wait q (Some item) timeout out h (map send_all batches)
        = Ok (ret, out', h') ∧ holds ∅ h' es') ∨
  (event_recv_loop wait q (Some item) timeout out h (map send_all batches)
     = Fault NullDeref ∧ starved (concat batches)).
Proof.
  induction batches as [|b bs IH]; intros timeout out h es nd ret out' es' Hh Hi Hsz Href.
  all: destruct es as [|e es].
  all: cbn [recv_ref map] in Href; cbn [event_recv_loop map].
  all: try (pose proof Hh as (l & Hq & Hl & _ & _); apply fmap_nil_inv in Hl as ->;
    rewrite luat_queue_pop_empty by done; cbn [mbind res_bind Z.eqb]; clear Hq).
  all: try (destruct (poll_pop h item e es nd Hh Hi Hsz)
      as (h1 & nd1 & -> & Hh1 & Hi1 & Hsz1 & Hld);
    cbn [mbind res_bind Z.eqb oget]; rewrite Hi1; cbn [mbind res_bind oget];
    rewrite Hld; cbn [mbind res_bind]).
  all: cbn [free_item]; try change (_ || (event_id e =? wait)) with (wanted wait e);
    try (destruct (wanted wait e) eqn:Hw; [simplify_eq; left; eauto using holds_free|]).
  all: destruct (Z.eqb_spec timeout 0); [simplify_eq; left; eauto using holds_free|].
  all: try discriminate Href.
  - destruct (send_all_spec {[item]} b h []) as [(h2 & -> & Hh2 & Hf)|[-> Hst]];
      [done|set_solver| |].
    + cbn [mbind res_bind]. destruct (IH (dec_timeout timeout) out h2 (map bytes_of b) nd ret out' es')
        as [?|[-> Hst]]; [done|by rewrite Hf by set_solver|done|done|by left|].
      right. split; [done|]. eapply starved_mono; [|done]. set_solver.
    + right. split; [done|]. eapply starved_mono; [|done]. set_solver.
  - destruct (send_all_spec {[item]} b h1 es) as [(h2 & -> & Hh2 & Hf)|[-> Hst]];
      [done|set_solver| |].
    + cbn [mbind res_bind]. destruct (IH (dec_timeout timeout) (Some e) h2 (es ++ map bytes_of b) nd1 ret out' es')
        as [?|[-> Hst]]; [done|by rewrite Hf by set_solver|done|done|by left|].
      right. split; [done|]. eapply starved_mono; [|done]. set_solver.
    + right. split; [done|]. eapply starved_mono; [|done]. set_solver.
Qed.

Lemma event_recv_sim h wait timeout es batches ret out es' item :
  holds ∅ h es → malloc h (qi_sizeof + Z.of_nat sizeof_event) = Some item →
  recv_ref wait timeout None es (arrivals batches) = Some (ret, out, es') →
  (∃ h', luat_rtos_event_recv h (Some q) wait timeout (map send_all batches)
        = Ok (ret, out, h') ∧ holds ∅ h' es') ∨
  (luat_rtos_event_recv h (Some q) wait timeout (map send_all batches) = Fault NullDeref ∧
     starved (concat batches)).
Proof.
  intros (l & Hq & Hl & _ & Hlen) Hma Href. unfold luat_rtos_event_recv.
  rewrite Hma. destruct (malloc_fresh _ _ _ Hma) as [Hfresh _].
  assert (item ∉ q :: l.*1) as Hni.
  { destruct Hq as (nd & Hnd & Hc & _). intros Hin.
    apply elem_of_cons in Hin as [->|Hin]; [congruence|].
    destruct (chain_dom _ _ _ Hc _ Hin). congruence. }
  eapply (event_recv_loop_refines wait item batches); [|by apply lookup_insert_eq|done..].
  exists l. split; [|split; [done|split; [set_solver|done]]].
  eapply queue_at_frame; [done|]. intros a Ha.
  rewrite lookup_insert_ne; [done|]. set_solver.
Qed.

Lemma dec_timeout_pos timeout :
  timeout ≠ 0 → 0 <= timeout < 2 ^ sizet_bits - 1 → dec_timeout timeout = timeout - 1.
Proof.
  intros Hne Ht. unfold dec_timeout.
  destruct (Z.ltb_spec 0 timeout), (Z.eqb_spec timeout (2 ^ sizet_bits - 1)); simpl; lia.
Qed.

(** Without a block of its own the receiver sees no event and times out. *)
Lemma event_recv_no_block wait batches : ∀ timeout h es,
  holds ∅ h es → 0 <= timeout < 2 ^ sizet_bits - 1 →
  (Z.to_nat timeout <= length batches)%nat →
  (∃ h', event_recv_loop wait q None timeout None h (map send_all batches) = Ok (1, None, h') ∧
     holds ∅ h' (es ++ concat (take (Z.to_nat timeout) (arrivals batches)))) ∨
  (event_recv_loop wait q None timeout None h (map send_all batches) = Fault NullDeref ∧
     starved (concat batches)).
Proof.
  induction batches as [|b bs IH]; intros timeout h es Hh Ht Hlen;
    destruct (Z.eq_dec timeout 0) as [->|Hn]; simpl in Hlen; try lia.
  1,2: left; exists h; simpl; by rewrite app_nil_r.
  cbn [event_recv_loop map].
  change (luat_queue_pop h (Some q) None) with (@Ok (Z * qheap) (-1, h)).
  cbn [mbind res_bind]. change (-1 =? 0) with false. cbn [mbind res_bind].
  rewrite (proj2 (Z.eqb_neq timeout 0) Hn).
  destruct (send_all_spec ∅ b h es Hh) as [(h2 & -> & Hh2 & _)|[-> Hst]]; [set_solver| |].
  2: { right. split; [done|]. eapply starved_mono; [|done]. set_solver. }
  cbn [mbind res_bind]. rewrite dec_timeout_pos by done.
  destruct (IH (timeout - 1) h2 _ Hh2) as [(h3 & E & Hh3)|[E Hst]]; [lia|lia| |].
  - left. exists h3. split; [exact E|]. replace (Z.to_nat timeout) with (S (Z.to_nat (timeout - 1))) by lia.
    cbn [take concat]. by rewrite app_assoc.
  - right. split; [exact E|]. eapply starved_mono; [|done]. set_solver.
Qed.

Lemma recv_ref_terminates wait batches : ∀ timeout out es,
  0 <= timeout < 2 ^ sizet_bits - 1 → (Z.to_nat timeout <= length batches)%nat →
  is_Some (recv_ref wait timeout out es batches).
Proof.
  induction batches as [|b bs IH]; intros timeout out es Ht Hlen; cbn [recv_ref].
  all: pose proof (dec_timeout_pos timeout) as Hdec.
  all: destruct es as [|e es]; repeat case_match; eauto; simplify_eq.
  all: try (rewrite Hdec by lia; apply IH; simpl in Hlen; lia).
  all: simpl in Hlen; lia.
Qed.

(** C29 (refinement).  [luat_rtos_event_recv] on the linked queue, whatever other threads
    send while it sleeps: with a timeout of t below SIZE_MAX (every 32-bit timeout on a
    64-bit build) it returns after at most t sleeps.  If the heap has a block for it, it
    does what the reference does on the list of queued events: one event is looked at per
    poll, the first wanted one is returned with 0, the timeout ends the wait with 1, and
    the events behind the last one looked at stay queued in order.  If the heap has none,
    it sees no event at all, returns 1 when the time is up, and everything queued or sent
    stays queued.  The only other end is a crash in a sender: [luat_rtos_event_send]
    does not check its allocation, so an event sent when the heap is full is written
    through the null pointer. *)
Theorem event_recv_refines h wait timeout es batches :
  holds ∅ h es → 0 <= timeout < 2 ^ sizet_bits - 1 →
  (Z.to_nat timeout <= length batches)%nat →
  let recv := luat_rtos_event_recv h (Some q) wait timeout (map send_all batches) in
  (recv = Fault NullDeref ∧ starved (concat batches)) ∨
  match malloc h (qi_sizeof + Z.of_nat sizeof_event) with
  | Some _ => ∃ ret out es' h',
      recv_ref wait timeout None es (arrivals batches) = Some (ret, out, es') ∧
      recv = Ok (ret, out, h') ∧ holds ∅ h' es'
  | None => ∃ h', recv = Ok (1, None, h') ∧
      holds ∅ h' (es ++ concat (take (Z.to_nat timeout) (arrivals batches)))
  end.
Proof.
  intros Hh Ht Hlen. cbv zeta. destruct (malloc h _) as [item|] eqn:Hma.
  - destruct (recv_ref_terminates wait (arrivals batches) timeout None es Ht)
      as [[[ret out] es'] Href]; [by rewrite length_map|].
    destruct (event_recv_sim h wait timeout es batches ret out es' item) as [(h' & E & Hh')|?];
      [done..|right|by left]. by exists ret, out, es', h'.
  - unfold luat_rtos_event_recv. rewrite Hma.
    destruct (event_recv_no_block wait batches timeout h es) as [?|?]; [done..|by right|by left].
Qed.

Lemma recv_ref_skips wait e post n : ∀ pre timeout out,
  Forall (λ x, wanted wait x = false) pre → wanted wait e = true →
  (length pre <= n)%nat → Z.of_nat n <= timeout < 2 ^ sizet_bits - 1 →
  recv_ref wait timeout out (pre ++ e :: post) (replicate n []) = Some (0, Some e, post).
Proof.
  induction n as [|n IH]; intros pre timeout out Hpre He Hlen Ht.
  all: destruct pre as [|x pre]; simpl in Hlen; [|try lia].
  1,2: cbn [recv_ref app replicate]; by rewrite He.
  apply Forall_cons in Hpre as [Hx Hpre]. cbn [recv_ref app replicate]. rewrite Hx.
  destruct (Z.eqb_spec timeout 0); [lia|].
  rewrite app_nil_r. apply IH; [done|done|lia|]. rewrite dec_timeout_pos; lia.
Qed.

(** Waiting for one event loses the others: every event queued
    before the wanted one is gone after the call, neither returned nor kept. *)
Theorem event_recv_discards h wait timeout pre e post item :
  holds ∅ h (pre ++ e :: post) → malloc h (qi_sizeof + Z.of_nat sizeof_event) = Some item →
  Forall (λ x, wanted wait x = false) pre → wanted wait e = true →
  Z.of_nat (length pre) <= timeout < 2 ^ sizet_bits - 1 →
  ∃ h', luat_rtos_event_recv h (Some q) wait timeout
          (map send_all (replicate (length pre) [])) = Ok (0, Some e, h') ∧
    holds ∅ h' post.
Proof.
  intros Hh Hma Hpre He Ht.
  edestruct (event_recv_sim h wait timeout _ (replicate (length pre) []) 0 (Some e) post item Hh Hma)
    as [?|[_ (x & _ & _ & Hx & _)]]; [|done|].
  - rewrite fmap_replicate. by apply recv_ref_skips.
  - exfalso. clear -Hx. induction pre as [|y pre IH]; [set_solver|by apply IH].
Qed.

End task.

(** ** Events and messages share the queue *)

(** An event in the queue of a task that receives messages is
    copied into a block sized for a message: on a 32-bit build (an event has 16
    bytes, a message 8) the copy runs over the end of the block. *)
Theorem message_recv_event_overflows `{!Platform} `{!Allocator uv_queue_item} h q a e l item
    timeout sleeps :
  queue_at h q ((a, e) :: l) → length e = sizeof_event →
  malloc h (qi_sizeof + Z.of_nat sizeof_message) = Some item → ptr_bytes = 4 →
  luat_rtos_message_recv h (Some q) true timeout sleeps = Fault OutOfBounds.
Proof.
  intros Hq He Hma Hptr. unfold luat_rtos_message_recv. simpl. rewrite Hma.
  destruct (malloc_fresh _ _ _ Hma) as [Hfresh _].
  destruct Hq as (nd & Hnd & Hc & Hdup).
  inversion Hc as [|? na ? ? Ha Hp Hcl Hnx]; subst.
  destruct Hp as (Hps & Hpl & Hpt).
  assert (item ≠ q ∧ item ≠ a) as [Hiq Hia] by (split; congruence).
  assert (luat_queue_pop (<[item := blank_item sizeof_message]> h) (Some q) (Some item)
    = Fault OutOfBounds) as Hpop.
  { unfold luat_queue_pop. rewrite (lookup_insert_ne h item q), Hnd by done. simpl.
    rewrite <- Hnx, (lookup_insert_ne h item a), Ha, lookup_insert_eq by done. simpl.
    unfold copy_item. rewrite Hps, Nat2Z.id, load_Ok by lia. simpl.
    rewrite store_oob; [done|].
    rewrite drop_0, length_take, length_replicate, Nat.min_l, He by lia.
    unfold qi_pad, qi_sizeof, qi_msg_off, sizeof_message, sizeof_event.
    rewrite Hptr. vm_compute; lia. }
  destruct sleeps; cbn [message_recv_loop]; by rewrite Hpop.
Qed.

(** ** On concrete queues *)

Definition ev1 : event := Event 1 0 0 0.
Definition ev2 : event := Event 2 10 20 30.

(** A task at address 1 with the two events queued. *)
Definition demo_queue : qheap :=
  Eval vm_compute in
  match @send_all linux32 (bump_allocator _) 1 [ev1; ev2] {[1 := QItem None 0 []]} with
  | Ok h => h
  | Fault _ => ∅
  end.

Lemma demo_queue_holds :
  @bus_holds linux32 1 sizeof_event ∅ demo_queue [bytes_of ev1; bytes_of ev2].
Proof.
  destruct (@send_all_spec linux32 (bump_allocator _) 1 ∅ [ev1; ev2] {[1 := QItem None 0 []]} [])
    as [(h' & E & Hh & _)|[E _]]; [|set_solver|vm_compute in E; injection E as <-; exact Hh|by vm_compute in E].
  exists []. split; [|split; [done|split; [set_solver|done]]].
  eexists. split; [reflexivity|]. split; [constructor|apply NoDup_singleton].
Qed.

(** A wait for event 5 that never comes, with an unwanted event arriving in the second
    sleep; and the same wait in a full heap, where the receiver gets no block. *)
Lemma event_recv_refines_witness :
  (∃ h', @luat_rtos_event_recv linux32 (bump_allocator _) 0 demo_queue (Some 1) 5 3
      (map (@send_all linux32 (bump_allocator _) 1) [[]; [ev1]; []])
      = Ok (1, Some (bytes_of ev1), h') ∧ @bus_holds linux32 1 sizeof_event ∅ h' []) ∧
  (∃ h', @luat_rtos_event_recv linux32 (bounded_allocator 3 _) 0 demo_queue (Some 1) 5 1
      (map (@send_all linux32 (bounded_allocator 3 _) 1) [[]])
      = Ok (1, None, h') ∧
      @bus_holds linux32 1 sizeof_event ∅ h' [bytes_of ev1; bytes_of ev2]).
Proof.
  split.
  - edestruct (@event_recv_refines linux32 (bump_allocator _) 0 1 demo_queue 5 3 [bytes_of ev1; bytes_of ev2] [[]; [ev1]; []])
      as [[E _]|H]; [apply demo_queue_holds|by vm_compute|by vm_compute; lia|by vm_compute in E|].
    destruct H as (ret & out & es' & h' & Eref & Erun & Hh). vm_compute in Eref.
    injection Eref as <- <- <-. exists h'. split; [exact Erun|exact Hh].
  - edestruct (@event_recv_refines linux32 (bounded_allocator 3 _) 0 1 demo_queue 5 1 [bytes_of ev1; bytes_of ev2] [[]])
      as [[E _]|H]; [apply demo_queue_holds|by vm_compute|by vm_compute; lia|by vm_compute in E|].
    exact H.
Defined.

Lemma event_recv_discards_witness :
  ∃ h', @luat_rtos_event_recv linux32 (bump_allocator _) 0 demo_queue (Some 1) 2 9
      (map (@send_all linux32 (bump_allocator _) 1) (replicate 1 []))
      = Ok (0, Some (bytes_of ev2), h') ∧ @bus_holds linux32 1 sizeof_event ∅ h' [].
Proof.
  eapply (@event_recv_discards linux32 (bump_allocator _) 0 1
    demo_queue 2 9 [bytes_of ev1] (bytes_of ev2) []);
    [apply demo_queue_holds|by vm_compute|by repeat constructor|done|by vm_compute].
Defined.

Lemma message_recv_event_overflows_witness :
  @luat_rtos_message_recv linux32 (bump_allocator _) demo_queue (Some 1) true 0 []
    = Fault OutOfBounds.
Proof.
  destruct demo_queue_holds as (l & Hq & Hl & _).
  destruct l as [|[a e] l]; [done|]. injection Hl as -> Hl.
  by apply (@message_recv_event_overflows linux32 (bump_allocator _) _ 1 a (bytes_of ev1) l
    (bump_addr demo_queue)).
Defined.
