(* ===== verification/LuacReport.v ===== *)
(** * The bytecode analyser: port/luat_luac_report.c

    Reads compiled Lua chunks into tables shared by a report: strings, code
    blocks, numbers, line tables and functions, which refer to each other by
    their place in the tables.  A loader threads the unread bytes and the
    report; every table has a fixed size that nothing checks. *)

From S2P Require Import Prelude.

(** ** Data (include/luat_luac_report.h) *)

(** The union of [luac_data_t]: a block (or null), an integer, a number's bytes. *)
Inductive luac_value : Type :=
  | VData (d : option (list Z)) | VInt (z : Z) | VNum (bits : list Z).

#[global] Instance luac_value_eq_dec : EqDecision luac_value.
Proof. solve_decision. Defined.

Record luac_data : Type := LuacData {
  ld_value : luac_value; ld_len : Z; ld_mark : Z; ld_type : Z;
}.

(** The entries in use ([count] is their number) and the statistics. *)
Record luac_data_group : Type := LuacGroup {
  dg_data : list luac_data; dg_max_len : Z; dg_total_len : Z; dg_uni_count : Z;
  dg_emtrys : Z;
}.

(** A constant refers to the numbers or the strings; nil refers to nothing. *)
Inductive luac_const : Type := KNone | KNumber (i : nat) | KStr (i : nat).

Record luf_func : Type := LufFunc {
  lf_numparams : Z; lf_is_vararg : Z; lf_maxstacksize : Z;
  lf_linedefined : Z; lf_lastlinedefined : Z; lf_sizecode : Z;
  lf_k : list luac_const; lf_code : nat; lf_lineinfo : nat;
  lf_locvars : list Z; lf_locvars2 : list nat;
  lf_upvalues : list Z; lf_upvalues2 : list nat; lf_source : nat; lf_p : list nat;
}.

#[global] Instance luf_func_inhabited : Inhabited luf_func :=
  populate (LufFunc 0 0 0 0 0 0 [] 0 0 [] [] [] [] 0 []).

Record luac_report : Type := LuacReport {
  r_strs : luac_data_group; r_codes : luac_data_group; r_numbers : luac_data_group;
  r_upvalues : luac_data_group; r_line_numbers : luac_data_group;
  r_funcs : list luf_func; r_func_count : nat;
}.

Definition empty_group : luac_data_group := LuacGroup [] 0 0 0 0.
(** A zeroed report. *)
Definition empty_report : luac_report :=
  LuacReport empty_group empty_group empty_group empty_group empty_group
    (replicate 1024 inhabitant) 0.

Definition group_max : nat := 32 * 1024.

(** The type codes of lobject.h. *)
Definition LUA_TNIL : Z := 0.
Definition LUA_TBOOLEAN : Z := 1.
Definition LUA_TNUMFLT : Z := 3.
Definition LUA_TNUMINT : Z := 19.
Definition LUA_TSHRSTR : Z := 4.
Definition LUA_TLNGSTR : Z := 20.

(** ** Loaders *)

Definition loader (A : Type) : Type := list Z * luac_report → res (A * (list Z * luac_report)).

#[global] Instance loader_ret : MRet loader := λ A a s, Ok (a, s).
#[global] Instance loader_bind : MBind loader := λ A B f m s,
  match m s with Ok (a, s) => f a s | Fault e => Fault e end.

Definition lift {A} (r : res A) : loader A := λ s, a ← r; Ok (a, s).
Definition get_report : loader luac_report := λ s, Ok (s.2, s).
Definition put_report (r : luac_report) : loader unit := λ s, Ok (tt, (s.1, r)).

(** Append an entry to a table and give its place. *)
Definition push (d : luac_data) (g : luac_data_group) : res (nat * luac_data_group) :=
  if decide (length (dg_data g) < group_max)%nat
  then Ok (length (dg_data g),
           LuacGroup (dg_data g ++ [d]) (dg_max_len g) (dg_total_len g) (dg_uni_count g)
             (dg_emtrys g))
  else Fault OutOfBounds.

Definition push_str (d : luac_data) : loader nat :=
  r ← get_report; '(i, g) ← lift (push d (r_strs r));
  put_report (LuacReport g (r_codes r) (r_numbers r) (r_upvalues r) (r_line_numbers r)
                (r_funcs r) (r_func_count r));; mret i.
Definition push_code (d : luac_data) : loader nat :=
  r ← get_report; '(i, g) ← lift (push d (r_codes r));
  put_report (LuacReport (r_strs r) g (r_numbers r) (r_upvalues r) (r_line_numbers r)
                (r_funcs r) (r_func_count r));; mret i.
Definition push_number (d : luac_data) : loader nat :=
  r ← get_report; '(i, g) ← lift (push d (r_numbers r));
  put_report (LuacReport (r_strs r) (r_codes r) g (r_upvalues r) (r_line_numbers r)
                (r_funcs r) (r_func_count r));; mret i.
Definition push_lines (d : luac_data) : loader nat :=
  r ← get_report; '(i, g) ← lift (push d (r_line_numbers r));
  put_report (LuacReport (r_strs r) (r_codes r) (r_numbers r) (r_upvalues r) g
                (r_funcs r) (r_func_count r));; mret i.

(** [func_count ++] *)
Definition claim_func : loader unit :=
  r ← get_report;
  put_report (LuacReport (r_strs r) (r_codes r) (r_numbers r) (r_upvalues r)
                (r_line_numbers r) (r_funcs r) (S (r_func_count r))).
(** The writes to [luf_funcs[id]], gathered. *)
Definition set_func (id : nat) (f : luf_func) : loader unit :=
  r ← get_report;
  if decide (id < 1024)%nat then
    put_report (LuacReport (r_strs r) (r_codes r) (r_numbers r) (r_upvalues r)
                  (r_line_numbers r) (<[id := f]> (r_funcs r)) (r_func_count r))
  else lift (Fault OutOfBounds).

(** [loop n i f]: [for (; i < n; i++)], for a count read from the file. *)
Fixpoint loop {A} (n : nat) (f : loader A) : loader (list A) :=
  match n with
  | O => mret []
  | S n => a ← f; l ← loop n f; mret (a :: l)
  end.

Section load.
Context `{Platform, HeapOps}.
(** [sizeof(lua_Integer)], which is also that of [lua_Number]. *)
Context (lua_bytes : nat).

Definition LoadBlock (n : Z) : loader (list Z) := λ '(t, r),
  d ← load t 0 (Z.to_nat n); Ok (d, (drop (Z.to_nat n) t, r)).
Definition LoadInt : loader Z := d ← LoadBlock 4; mret (i32 (le_val d)).
Definition LoadByte : loader Z := d ← LoadBlock 1; mret (le_val d).
Definition LoadNumber : loader (list Z) := LoadBlock (Z.of_nat lua_bytes).
Definition LoadInteger : loader Z :=
  d ← LoadBlock (Z.of_nat lua_bytes); mret (wraps (8 * Z.of_nat lua_bytes) (le_val d)).

Definition size_t (z : Z) : Z := wrapu sizet_bits z.

(** [luat_heap_malloc] and a [memset] of the whole block. *)
Definition zeroed (n : Z) : loader (list Z) :=
  b ← lift (oget NullDeref (heap_malloc n)); lift (store b 0 (replicate (Z.to_nat n) 0)).

(** The block, null for the length 0, and the length. *)
Definition LoadString : loader (option (list Z) * Z) :=
  len ← LoadByte;
  if len =? 0 then mret (None, 0)
  else
    len ← (if len =? 0xFF then n ← LoadInt; mret (size_t n) else mret len);
    buff ← zeroed len;
    if 1 <? len then
      d ← LoadBlock (len - 1); buff ← lift (store buff 0 d); mret (Some buff, len)
    else mret (Some buff, len).

Definition LoadCode : loader (list Z * Z) :=
  n ← LoadInt;
  let len := size_t (n * 4) in
  buff ← lift (oget NullDeref (heap_malloc len));
  d ← LoadBlock len; buff ← lift (store buff 0 d);
  mret (buff, len).

(** A string goes to the table with its length; names and sources get their type
    from the length. *)
Definition load_name : loader nat :=
  '(d, len) ← LoadString;
  push_str (LuacData (VData d) len 0 (if len <=? 41 then 4 else LUA_TLNGSTR)).

(** One constant; [None] is the unknown type that ends the loop. *)
Definition load_constant : loader (option luac_const) :=
  t ← LoadByte;
  if t =? LUA_TNIL then mret (Some KNone)
  else if t =? LUA_TBOOLEAN then
    z ← LoadByte;
    i ← push_number (LuacData (VInt z) (Z.of_nat lua_bytes) LUA_TBOOLEAN LUA_TBOOLEAN);
    mret (Some (KNumber i))
  else if t =? LUA_TNUMFLT then
    x ← LoadNumber;
    i ← push_number (LuacData (VNum x) (Z.of_nat lua_bytes) LUA_TNUMFLT LUA_TNUMFLT);
    mret (Some (KNumber i))
  else if t =? LUA_TNUMINT then
    z ← LoadInteger;
    i ← push_number (LuacData (VInt z) (Z.of_nat lua_bytes) 1 t);
    mret (Some (KNumber i))
  else if (t =? LUA_TSHRSTR) || (t =? LUA_TLNGSTR) then
    '(d, len) ← LoadString;
    i ← push_str (LuacData (VData d) len 0 t);
    mret (Some (KStr i))
  else mret None.

Fixpoint constants_loop (n : nat) : loader (list luac_const) :=
  match n with
  | O => mret []
  | S n' =>
      c ← load_constant;
      match c with
      | None => mret (replicate n KNone)
      | Some c => l ← constants_loop n'; mret (c :: l)
      end
  end.

Definition LoadConstants : loader (list luac_const) :=
  n ← LoadInt;
  if n =? 0 then mret []
  else zeroed (size_t (n * ptr_bytes));; constants_loop (Z.to_nat n).

Definition LoadUpvalues : loader (list Z) :=
  n ← LoadInt;
  if n =? 0 then mret []
  else
    b ← lift (oget NullDeref (heap_malloc (size_t (n * 2))));
    d ← LoadBlock (size_t (n * 2)); lift (store b 0 d).

(** A block that entries are written to when there are any. *)
Definition room (n size : Z) : loader unit :=
  if 0 <? n then _ ← lift (oget NullDeref (heap_malloc (size_t (n * size)))); mret tt
  else mret tt.

Definition load_locvar : loader (nat * Z * Z) :=
  i ← load_name; a ← LoadInt; b ← LoadInt; mret (i, a, b).

(** The place of the line table, the local variables, the upvalues' names. *)
Definition LoadDebug : loader (nat * list (nat * Z * Z) * list nat) :=
  n ← LoadInt;
  let len := size_t (n * 4) in
  d ← (if 0 <? n then
         b ← zeroed len; d ← LoadBlock len; b ← lift (store b 0 d); mret (Some b)
       else mret None);
  lines ← push_lines (LuacData (VData d) len 0 0);
  n ← LoadInt;
  room n ptr_bytes;; room n 8;;
  vars ← loop (Z.to_nat n) load_locvar;
  n ← LoadInt;
  room n ptr_bytes;;
  names ← loop (Z.to_nat n) load_name;
  mret (lines, vars, names).

(** [LoadProtos], given the loader of a function: each gets the next free place;
    [f->p] has 1024 entries. *)
Definition LoadProtos (LoadFunction : nat → loader nat) : loader (list nat) :=
  n ← LoadInt;
  ids ← loop (Z.to_nat n) (r ← get_report; LoadFunction (r_func_count r));
  if (1024 <? n) then lift (Fault OutOfBounds) else mret ids.

(** [fuel] bounds the nesting of functions. *)
Fixpoint LoadFunction (fuel : nat) (id : nat) : loader nat :=
  match fuel with
  | O => lift (Fault OutOfFuel)
  | S fuel =>
      claim_func;;
      source ← load_name;
      linedefined ← LoadInt;
      lastlinedefined ← LoadInt;
      numparams ← LoadByte;
      is_vararg ← LoadByte;
      maxstacksize ← LoadByte;
      '(c, len) ← LoadCode;
      code ← push_code (LuacData (VData (Some c)) len 0 0);
      k ← LoadConstants;
      upvalues ← LoadUpvalues;
      p ← LoadProtos (LoadFunction fuel);
      '(lines, vars, names) ← LoadDebug;
      set_func id (LufFunc numparams is_vararg maxstacksize linedefined lastlinedefined
        (len / 4) k code lines (concat (map (λ v, [v.1.2; v.2]) vars))
        (map (λ v, v.1.1) vars) upvalues names source p);;
      mret id
  end.

(** ** Files *)

(** The header's constants: LUA_SIGNATURE, LUAC_DATA, LUAC_INT, and the bytes of
    LUAC_NUM, which a number equals just when it has the same bytes. *)
Definition LUA_SIGNATURE : list Z := [27; 76; 117; 97].
Definition LUAC_DATA : list Z := [25; 147; 13; 10; 26; 10].
Definition LUAC_INT : Z := 0x5678.
Context (luac_num : list Z).

Definition skip (n : nat) (t : list Z) : list Z := drop n t.

(** The result with the report filled. *)
Definition luadb_do_report_file (fuel : nat) (data : list Z) (r : luac_report)
    : res (Z * luac_report) :=
  sig ← load data 0 4;
  if negb (bool_decide (sig = LUA_SIGNATURE)) then Ok (-1, r)
  else
    let ptr := skip 2 (skip 4 data) in
    d ← load ptr 0 6;
    if negb (bool_decide (d = LUAC_DATA)) then Ok (-1, r)
    else
      let ptr := skip 5 (skip 6 ptr) in
      t ← load ptr 0 lua_bytes;
      if negb (wraps (8 * Z.of_nat lua_bytes) (le_val t) =? LUAC_INT) then Ok (-1, r)
      else
        let ptr := skip lua_bytes ptr in
        n ← load ptr 0 lua_bytes;
        if negb (bool_decide (n = luac_num)) then Ok (-3, r)
        else
          let ptr := skip 1 (skip lua_bytes ptr) in
          '(_, (_, r)) ← LoadFunction fuel 0 (ptr, r);
          Ok (0, r).

End load.

(** ** Statistics *)

(** [memcmp] of two entries of the same length, through their pointers. *)
Definition same_bytes (len : Z) (a b : luac_data) : res bool :=
  match ld_value a, ld_value b with
  | VData (Some x), VData (Some y) =>
      x ← load x 0 (Z.to_nat len); y ← load y 0 (Z.to_nat len); Ok (bool_decide (x = y))
  | VData _, VData _ => Fault NullDeref
  | _, _ => Fault BadPointer
  end.

(** The inner loop: whether an earlier entry is the same. *)
Fixpoint seen_before (d : luac_data) (earlier : list luac_data) : res bool :=
  match earlier with
  | [] => Ok false
  | e :: earlier =>
      s ← (if ld_len d =? ld_len e then same_bytes (ld_len d) d e else Ok false);
      if s : bool then Ok true else seen_before d earlier
  end.

(** The outer loop; the test reads the mark of the first entry. *)
Fixpoint group_loop (mark0 : Z) (earlier rest : list luac_data) (hits max total empty : Z)
    : res (Z * Z * Z * Z) :=
  match rest with
  | [] => Ok (hits, max, total, empty)
  | d :: rest =>
      let max := if max <? ld_len d then ld_len d else max in
      let total := total + ld_len d in
      if (ld_len d =? 0) || (ld_len d =? 1)
      then group_loop mark0 (earlier ++ [d]) rest hits max total (empty + 1)
      else
        dup ← (if bool_decide (earlier ≠ []) && (mark0 =? 0) then seen_before d earlier
               else Ok false);
        group_loop mark0 (earlier ++ [d]) rest (if dup : bool then hits else hits + 1)
          max total empty
  end.

Definition do_data_group_report (g : luac_data_group) : res luac_data_group :=
  let mark0 := default 0 (ld_mark <$> head (dg_data g)) in
  '(hits, max, total, empty) ←
    group_loop mark0 [] (dg_data g) 0 (dg_max_len g) (dg_total_len g) (dg_emtrys g);
  Ok (LuacGroup (dg_data g) max total hits empty).

(** Appending entry by entry. *)
Fixpoint luac_data_group_add (src : list luac_data) (dst : luac_data_group)
    : res luac_data_group :=
  match src with
  | [] => Ok dst
  | d :: src => '(_, dst) ← push d dst; luac_data_group_add src dst
  end.

Definition luac_data_report_exec (rpt : luac_report) (up : option luac_report)
    : res (luac_report * option luac_report) :=
  strs ← do_data_group_report (r_strs rpt);
  codes ← do_data_group_report (r_codes rpt);
  upvalues ← do_data_group_report (r_upvalues rpt);
  numbers ← do_data_group_report (r_numbers rpt);
  lines ← do_data_group_report (r_line_numbers rpt);
  let rpt := LuacReport strs codes numbers upvalues lines (r_funcs rpt) (r_func_count rpt) in
  match up with
  | None => Ok (rpt, None)
  | Some u =>
      us ← luac_data_group_add (dg_data strs) (r_strs u);
      uc ← luac_data_group_add (dg_data codes) (r_codes u);
      uu ← luac_data_group_add (dg_data upvalues) (r_upvalues u);
      un ← luac_data_group_add (dg_data numbers) (r_numbers u);
      ul ← luac_data_group_add (dg_data lines) (r_line_numbers u);
      Ok (rpt, Some (LuacReport us uc un uu ul (r_funcs u) (r_func_count u)))
  end.

(** ** The report of an image *)

Section report.
Context `{Platform, HeapOps}.
Context (lua_bytes : nat) (luac_num : list Z).
(** The sizes of [luac_report_t] and [luac_file_t]. *)
Context (report_size file_size : Z).

Definition ends_with (name ext : list Z) : res bool :=
  if decide (length ext <= length name)%nat
  then Ok (bool_decide (drop (length name - length ext) name = ext))
  else Fault OutOfBounds.

(** The two suffix tests; a name shorter than the suffix is read in front of its
    start. *)
Definition is_script (name : list Z) : res bool :=
  a ← ends_with name (bytes ".lua");
  if a : bool then Ok true else ends_with name (bytes ".luac").

(** The first loop over the files: a script's own report, [None] for the others.
    [source_file] has 32 bytes. *)
Fixpoint load_files (fuel : nat) (files : list (list Z * list Z))
    : res (list (option luac_report)) :=
  match files with
  | [] => Ok []
  | (name, data) :: files =>
      if decide (32 < length name)%nat then Fault OutOfBounds
      else
        s ← is_script name;
        r ← (if s : bool then
               '(_, r) ← luadb_do_report_file lua_bytes luac_num fuel data empty_report;
               Ok (Some r)
             else Ok None);
        l ← load_files fuel files;
        Ok (r :: l)
  end.

(** The second: every report is summed up into the whole one. *)
Fixpoint sum_files (rs : list (option luac_report)) (total : luac_report)
    : res luac_report :=
  match rs with
  | [] => Ok total
  | None :: rs => sum_files rs total
  | Some r :: rs =>
      '(_, up) ← luac_data_report_exec r (Some total);
      sum_files rs (default total up)
  end.

(** [mount] is what [luat_luadb_mount] makes of the image: the files by name and
    contents.  The three blocks are cleared right after they are allocated. *)
Definition luadb_do_report (fuel : nat) (mount : option (list (list Z * list Z)))
    : res (Z * luac_report) :=
  _ ← oget NullDeref (heap_malloc report_size);
  match mount with
  | None => Ok (-1, empty_report)
  | Some files =>
      _ ← oget NullDeref (heap_malloc (size_t (file_size * Z.of_nat (length files))));
      _ ← oget NullDeref (heap_malloc (size_t (report_size * Z.of_nat (length files))));
      rs ← load_files fuel files;
      total ← sum_files rs empty_report;
      '(total, _) ← luac_data_report_exec total None;
      Ok (0, total)
  end.

End report.
