(* ===== verification/Cmds.v ===== *)
(** * The command line of port/luat_cmds.c

    Command-line arguments name scripts, directories, project files or a ready
    image; every file found is compiled (Lua sources) or copied (the rest) into
    the luadb image ([Luadb2]) that the simulator then boots from.

    A [char *] is the list of bytes from where it points to the end of the
    object it points into; [c_string] is what [strlen] and the other string
    functions see. *)

From S2P Require Import Prelude Luadb2 LuacReport.

(** ** The world outside *)

(** Files with their contents, directories with their entries (a name and
    whether it is a regular file). *)
Record world : Type := World {
  w_files : gmap (list Z) (list Z);
  w_dirs : gmap (list Z) (list (list Z * bool));
}.

(** *** Lua

    The VM is not part of the sources.  What it makes of a source file: there is no
    memory for a new VM, an error is raised while the file is loaded, the file has a
    syntax error, or it loads and [luaU_dump] hands the writer a list of chunks, which
    depends on whether debug information is stripped. *)
Inductive lua_result : Type :=
  | LuaNoState
  | LuaCallError
  | LuaSyntaxError
  | LuaProto (dump : bool → list (list Z)).

(** The values [to_luac] meets on the stack. *)
Inductive stack_value : Type := StackNil | StackInteger (n : Z) | StackError.

(** The two functions of Lua's API whose results it uses, as the manual has them.
    [lua_pcall nresults call]: the function called returned the values of [call], or
    raised an error ([None]); the results are its status and what it leaves on the stack,
    by the number of results asked for.  [luaL_checkinteger] raises an error unless it
    finds a number; outside a protected call that ends the process. *)
Class LuaApi : Type := {
  lua_pcall : nat → option (list stack_value) → Z * list stack_value;
  luaL_checkinteger : stack_value → res Z;
  lua_pcall_ok : ∀ n vs, lua_pcall n (Some vs) = (0, take n (vs ++ replicate n StackNil));
  lua_pcall_error : ∀ n, (lua_pcall n None).1 ≠ 0;
  luaL_checkinteger_int : ∀ n, luaL_checkinteger (StackInteger n) = Ok n;
  luaL_checkinteger_nil : luaL_checkinteger StackNil = Fault Aborted;
}.

(** The globals of the file. *)
Record cmd_state : Type := CmdState {
  luadb_ctx : luat_luadb2_ctx;
  luadb_ptr : option (list Z);
  luadb_dump_path : list Z;
  cfg_luac_strip : Z;
  cfg_dump_report : Z;
  cfg_norun : Z;
}.

Definition cmd_init : cmd_state := CmdState ldb_zero None (replicate 1024 0) 0 0 0.

Definition set_luadb (c : luat_luadb2_ctx) (p : option (list Z)) (st : cmd_state)
    : cmd_state :=
  CmdState c p (luadb_dump_path st) (cfg_luac_strip st) (cfg_dump_report st)
    (cfg_norun st).

Section cmds.
Context `{Platform} `{HeapOps} `{LuaApi}.
Context (w : world) (luac : list Z → list Z → lua_result).

(** ** Compiling *)

(** [writer]: the context is the block so far and its length. *)
Definition luac_ctx : Type := option (list Z) * Z.

Definition writer (p : list Z) (ctx : luac_ctx) : res (Z * luac_ctx) :=
  let size := Z.of_nat (length p) in
  match ctx.1 with
  | None =>
      ptr ← oget NullDeref (heap_malloc size);
      ptr ← store ptr 0 p;
      Ok (0, (Some ptr, size))
  | Some old =>
      match heap_realloc old (ctx.2 + size) with
      | None => Ok (1, ctx)
      | Some ptr =>
          ptr ← store ptr (Z.to_nat ctx.2) p;
          Ok (0, (Some ptr, ctx.2 + size))
      end
  end.

(** [luaU_dump] calls the writer until it reports an error. *)
Fixpoint luaU_dump (chunks : list (list Z)) (ctx : luac_ctx) : res (Z * luac_ctx) :=
  match chunks with
  | [] => Ok (0, ctx)
  | p :: rest =>
      '(ret, ctx) ← writer p ctx;
      if ret =? 0 then luaU_dump rest ctx else Ok (ret, ctx)
  end.

(** Whether [pmain] strips: never in mode 0, not main.lua in mode 1. *)
Definition strips (cfg : Z) (name : list Z) : bool :=
  negb (cfg =? 0) && negb ((cfg =? 1) && bool_decide (name = bytes "main.lua")).

(** [sizeof(luac_ctx_t)]: a pointer and a [size_t]. *)
Definition sizeof_luac_ctx : Z := 2 * ptr_bytes.

(** [pmain] returns no value when the source does not load, and what [luaU_dump]
    returned otherwise; [None]: an error is raised in it. *)
Definition pmain (name data : list Z) (st : cmd_state) : res (option (list stack_value) * cmd_state) :=
  match luac name data with
  | LuaNoState | LuaCallError => Ok (None, st)
  | LuaSyntaxError => Ok (Some [], st)
  | LuaProto dump =>
      _ ← oget NullDeref (heap_malloc sizeof_luac_ctx);
      '(ret, ctx) ← luaU_dump (dump (strips (cfg_luac_strip st) name)) (None, 0);
      st ← (if ret =? 0 then
              ptr ← oget NullDeref ctx.1;
              '(_, c) ← luat_luadb2_write (luadb_ctx st) name ptr ctx.2;
              Ok (set_luadb c (ldb_dataptr c) st)
            else Ok st);
      Ok (Some [StackInteger ret], st)
  end.

(** The state [lua_newstate] returns is not checked; the result of [pmain] is taken from
    the top of the stack. *)
Definition to_luac (name data : list Z) (st : cmd_state) : res (Z * cmd_state) :=
  if luac name data is LuaNoState then Fault NullDeref
  else
    '(values, st) ← pmain name data st;
    let '(ret, stack) := lua_pcall 1 values in
    if negb (ret =? 0) then Ok (-1, st)
    else
      v ← oget BadPointer (last stack);
      ret ← luaL_checkinteger v;
      Ok (ret, st).

(** ** Adding files *)

Definition is_sep (b : Z) : bool := (b =? 47) || (b =? 92).

(** The loop from the end of the path to the last separator: [Some i] when
    [path[i - 1]] is one. *)
Fixpoint last_sep (s : list Z) (i : nat) : option nat :=
  match i with
  | O => None
  | S j => if is_sep (s !!! j) then Some i else last_sep s j
  end.

(** The name under which a file is stored.  The copy behind the separator takes
    [strlen(path) - 1] bytes, more than the rest of the path. *)
Definition file_name (path : list Z) : res (list Z) :=
  s ← c_string path;
  let len := length s in
  tmpname ← (match last_sep s len with
             | Some i =>
                 d ← load path i (len - 1);
                 store (replicate 512 0) 0 d
             | None => Ok (replicate 512 0)
             end);
  tmpname ← (if tmpname !!! 0%nat =? 0 then store tmpname 0 s else Ok tmpname);
  c_string tmpname.

(** Whether the path ends in [.lua]; the four bytes before its end are read. *)
Definition is_lua (s : list Z) : res bool :=
  if decide (length s < 4)%nat then Fault OutOfBounds
  else Ok (bool_decide (drop (length s - 4) s = bytes ".lua")).

Definition add_onefile (path : list Z) (st : cmd_state) : res (Z * cmd_state) :=
  s ← c_string path;
  match w_files w !! s with
  | None => Ok (-1, st)
  | Some data =>
      let len := Z.of_nat (length data) in
      match heap_malloc len with
      | None => Ok (-2, st)
      | Some tmp =>
          tmp ← store tmp 0 data;
          name ← file_name path;
          lua ← is_lua s;
          if lua : bool then to_luac name tmp st
          else
            '(ret, c) ← luat_luadb2_write (luadb_ctx st) name tmp len;
            Ok (ret, set_luadb c (ldb_dataptr c) st)
      end
  end.

(** [luat_cmd_load_and_analyse] repeats [add_onefile]. *)
Definition luat_cmd_load_and_analyse (path : list Z) (st : cmd_state)
    : res (Z * cmd_state) := add_onefile path st.

(** The directory loop; [buff] is the 512-byte array the name is printed to. *)
Fixpoint add_entries (path : list Z) (entries : list (list Z * bool)) (buff : list Z)
    (st : cmd_state) : res (bool * cmd_state) :=
  match entries with
  | [] => Ok (true, st)
  | (name, reg) :: rest =>
      if negb reg then add_entries path rest buff st
      else
        buff ← store buff 0 (path ++ [if windows then 92 else 47] ++ name ++ [0]);
        '(ret, st) ← add_onefile buff st;
        if negb (ret =? 0) then Ok (false, st) else add_entries path rest buff st
  end.

(** Whether a non-null pointer is returned. *)
Definition check_file_path (path : list Z) (st : cmd_state) : res (bool * cmd_state) :=
  s ← c_string path;
  let len := length s in
  let loaded st := if luadb_ptr st is Some _ then true else false in
  if bool_decide (len < 4)%nat || bool_decide (512 <= len)%nat then Ok (false, st)
  else if is_sep (s !!! (len - 1)%nat) then
    buff ← store (replicate 512 0) 0 (if windows then s else take (len - 1) s);
    dir ← c_string buff;
    match w_dirs w !! dir with
    | None => Ok (false, st)
    | Some entries =>
        '(ok, st) ← add_entries s entries buff st;
        Ok (ok && loaded st, st)
    end
  else
    '(ret, st) ← add_onefile path st;
    Ok ((ret =? 0) && loaded st, st).

(** ** Images and project files *)

Definition luat_cmd_load_luadb (path : list Z) (st : cmd_state) : res (Z * cmd_state) :=
  s ← c_string path;
  match w_files w !! s with
  | None => Ok (-1, st)
  | Some data =>
      match heap_malloc (Z.of_nat (length data)) with
      | None => Ok (-1, st)
      | Some ptr =>
          ptr ← store ptr 0 data;
          Ok (0, set_luadb (luadb_ctx st) (Some ptr) st)
      end
  end.

Definition is_eol (b : Z) : bool := (b =? 13) || (b =? 10).

(** The loop over [ret]: the part before the first space or equals sign. *)
Fixpoint ini_key (line : list Z) : option (list Z) :=
  match line with
  | [] => None
  | b :: rest =>
      if (b =? 32) || (b =? 61) then Some [] else cons b <$> ini_key rest
  end.

(** One line [ret] of the project file; [dirline] is the 512-byte array. *)
Definition ini_line (ret : list Z) (dirline : list Z) (st : cmd_state)
    : res (Z * list Z * cmd_state) :=
  if bool_decide (ret = bytes "[info]") then Ok (0, dirline, st)
  else if bool_decide (length ret <= 5)%nat then Ok (0, dirline, st)
  else if (ret !!! 0%nat =? 91) && (ret !!! (length ret - 1)%nat =? 93) then
    dirline ← store dirline 0 (take (length ret - 2) (drop 1 ret));
    dirline ← store dirline (length ret - 2) [0];
    Ok (0, dirline, st)
  else if dirline !!! 0%nat =? 0 then Ok (0, dirline, st)
  else
    match ini_key ret with
    | None => Ok (0, dirline, st)
    | Some key =>
        dir ← c_string dirline;
        rpath ← store (replicate 1024 0) 0 dir;
        rpath ← store rpath (length dir) [if windows then 92 else 47];
        rpath ← store rpath (length dir + 1) key;
        '(ok, st) ← check_file_path rpath st;
        Ok (if ok : bool then 0 else -2, dirline, st)
    end.

(** The scan over the text: [cur] is the part of the line seen so far. *)
Fixpoint ini_scan (text cur dirline : list Z) (st : cmd_state) : res (Z * cmd_state) :=
  match text with
  | [] => Ok (0, st)
  | b :: rest =>
      if b =? 0 then Ok (0, st)
      else if is_eol b then
        '(ret, dirline, st) ← (match cur with
                               | [] => Ok (0, dirline, st)
                               | _ => ini_line cur dirline st end);
        if negb (ret =? 0) then Ok (ret, st) else ini_scan rest [] dirline st
      else ini_scan rest (cur ++ [b]) dirline st
  end.

Definition luat_cmd_load_luatools (path : list Z) (st : cmd_state)
    : res (Z * cmd_state) :=
  s ← c_string path;
  match w_files w !! s with
  | None => Ok (-1, st)
  | Some data =>
      match heap_malloc (Z.of_nat (length data) + 1) with
      | None => Ok (-1, st)
      | Some ptr =>
          ptr ← store ptr 0 (data ++ [0]);
          ini_scan ptr [] (replicate 512 0) st
      end
  end.

(** ** Arguments *)

(** [is_opts]: a proper prefix. *)
Definition is_opts (key arg : list Z) : bool :=
  if bool_decide (length arg <= length key)%nat then false
  else bool_decide (take (length key) arg = key).

(** How the parser ends: it returns, or the process exits. *)
Inductive cmd_outcome : Type := Returned (ret : Z) | Exited (code : Z).

Context (luat_mock_init : list Z → Z).

(** One argument: [None] goes on to the next one. *)
Definition parse_arg (arg : list Z) (st : cmd_state) : res (option Z * cmd_state) :=
  s ← c_string arg;
  let rest key := drop (length (bytes key)) arg in
  let fail_or r := if negb (r =? 0) then Some (-1) else None in
  if is_opts (bytes "--load_luadb=") s then
    '(r, st) ← luat_cmd_load_luadb (rest "--load_luadb="%string) st; Ok (fail_or r, st)
  else if is_opts (bytes "--ldb=") s then
    '(r, st) ← luat_cmd_load_luadb (rest "--ldb="%string) st; Ok (fail_or r, st)
  else if is_opts (bytes "--load_luatools=") s then
    '(r, st) ← luat_cmd_load_luatools (rest "--load_luatools="%string) st; Ok (fail_or r, st)
  else if is_opts (bytes "--llt=") s then
    '(r, st) ← luat_cmd_load_luatools (rest "--llt="%string) st; Ok (fail_or r, st)
  else if is_opts (bytes "--mlua=") s then
    Ok (fail_or (luat_mock_init (drop (length (bytes "--mlua=")) s)), st)
  else if is_opts (bytes "--dump_luadb=") s then
    p ← store (luadb_dump_path st) 0 (drop (length (bytes "--dump_luadb=")) s);
    Ok (None, CmdState (luadb_ctx st) (luadb_ptr st) p (cfg_luac_strip st)
                (cfg_dump_report st) (cfg_norun st))
  else if is_opts (bytes "--luac_strip=") s then
    let m := if bool_decide (s = bytes "--luac_strip=1") then 1
             else if bool_decide (s = bytes "--luac_strip=0") then 0
             else if bool_decide (s = bytes "--luac_strip=2") then 2
             else cfg_luac_strip st in
    Ok (None, CmdState (luadb_ctx st) (luadb_ptr st) (luadb_dump_path st) m
                (cfg_dump_report st) (cfg_norun st))
  else if is_opts (bytes "--luac_report=") s then
    let r := if bool_decide (s = bytes "--luac_report=1") then 1 else cfg_dump_report st in
    Ok (None, CmdState (luadb_ctx st) (luadb_ptr st) (luadb_dump_path st)
                (cfg_luac_strip st) r (cfg_norun st))
  else if is_opts (bytes "--norun=") s then
    let n := if bool_decide (s = bytes "--norun=1") then 1 else cfg_norun st in
    Ok (None, CmdState (luadb_ctx st) (luadb_ptr st) (luadb_dump_path st)
                (cfg_luac_strip st) (cfg_dump_report st) n)
  else if s !!! 0%nat =? 45 then Ok (None, st)
  else '(_, st) ← check_file_path arg st; Ok (None, st).

Fixpoint parse_args (args : list (list Z)) (st : cmd_state) : res (option Z * cmd_state) :=
  match args with
  | [] => Ok (None, st)
  | a :: rest =>
      '(r, st) ← parse_arg a st;
      match r with Some _ => Ok (r, st) | None => parse_args rest st end
  end.

(** What the report on the image ([LuacReport]) depends on besides the image: the width
    and the test number of Lua's numbers, the sizes of two structures, and how the core's
    [luat_luadb_mount] reads an image (not part of the sources). *)
Record report_env : Type := ReportEnv {
  re_lua_bytes : nat;
  re_luac_num : list Z;
  re_report_size : Z;
  re_file_size : Z;
  luat_luadb_mount : option (list Z) → option (list (list Z * list Z));
}.

(** The report on the image [dataptr], with fuel for every byte of its files. *)
Definition do_report (re : report_env) (dataptr : option (list Z)) : res (Z * luac_report) :=
  let mount := luat_luadb_mount re dataptr in
  luadb_do_report (re_lua_bytes re) (re_luac_num re) (re_report_size re) (re_file_size re)
    (S (length (concat (snd <$> default [] mount)))) mount.

(** [argv] is the list of arguments, the program's name first; [dump_ok] tells
    whether the dump file can be opened.  The result has the file dumped, if
    any; of the report only its end matters, the rest is printed. *)
Definition luat_cmd_parse (re : report_env) (argv : list (list Z)) (dump_ok : bool)
    (st : cmd_state) : res (cmd_outcome * option (list Z * list Z) * cmd_state) :=
  if decide (length argv = 1%nat) then Ok (Returned 0, None, st)
  else
    '(_, c) ← luat_luadb2_init (luadb_ctx st);
    '(r, st) ← parse_args (tail argv) (set_luadb c (luadb_ptr st) st);
    match r with
    | Some ret => Ok (Returned ret, None, st)
    | None =>
        _ ← (if negb (cfg_dump_report st =? 0)
             then snd <$> do_report re (ldb_dataptr (luadb_ctx st))
             else Ok empty_report);
        let done dump :=
          Ok (if negb (cfg_norun st =? 0) then Exited 0 else Returned 0, dump, st) in
        if negb (luadb_dump_path st !!! 0%nat =? 0) then
          if negb dump_ok then Ok (Exited 1, None, st)
          else
            path ← c_string (luadb_dump_path st);
            ptr ← oget NullDeref (luadb_ptr st);
            data ← load ptr 0 (Z.to_nat (ldb_offset (luadb_ctx st)));
            done (Some (path, data))
        else done None
    end.

End cmds.

(** ** Options *)

Lemma is_opts_mismatch i key s a b :
  key !! i = Some a → s !! i = Some b → a ≠ b → is_opts key s = false.
Proof.
  intros Hk Hs Hab. unfold is_opts. case_bool_decide; [done|].
  apply bool_decide_eq_false. intros E. apply Hab.
  pose proof (lookup_lt_Some _ _ _ Hk) as Hlt.
  apply (f_equal (lookup i)) in E. rewrite lookup_take_lt in E by done. congruence.
Qed.

Lemma is_opts_app key x : x ≠ [] → is_opts key (key ++ x) = true.
Proof.
  intros Hx. unfold is_opts. rewrite bool_decide_eq_false_2.
  - apply bool_decide_eq_true. apply take_app_length.
  - rewrite length_app. destruct x; [done|simpl; lia].
Qed.

(** ** Lua's API as the manual has it *)

#[export] Instance lua_api : LuaApi := {|
  lua_pcall n call :=
    match call with
    | Some vs => (0, take n (vs ++ replicate n StackNil))
    | None => (2, [StackError])
    end;
  luaL_checkinteger v := match v with StackInteger n => Ok n | _ => Fault Aborted end;
  lua_pcall_ok _ _ := eq_refl;
  lua_pcall_error _ := ltac:(done);
  luaL_checkinteger_int _ := eq_refl;
  luaL_checkinteger_nil := eq_refl;
|}.

(** ** The fate of a source file *)

Section fate.
Context `{Platform} `{HeapOps} `{LuaApi} (luac : list Z → list Z → lua_result).

(** What [pmain] returned is what [to_luac] returns. *)
Lemma to_luac_returns name data st ret st' :
  pmain luac name data st = Ok (Some [StackInteger ret], st') → luac name data ≠ LuaNoState →
  to_luac luac name data st = Ok (ret, st').
Proof.
  intros E Hs. unfold to_luac. destruct (luac name data) eqn:El; [done|..]; rewrite E; cbn [mbind res_bind];
    rewrite lua_pcall_ok; cbn [app take replicate negb Z.eqb last oget mbind res_bind];
    by rewrite luaL_checkinteger_int.
Qed.

(** A source that does not load: the value asked for is missing, nil stands in for it, and
    nothing catches the error that raises. *)
Lemma to_luac_syntax_error name data st :
  luac name data = LuaSyntaxError → to_luac luac name data st = Fault Aborted.
Proof.
  intros E. unfold to_luac, pmain. rewrite E. cbn [mbind res_bind]. rewrite lua_pcall_ok.
  cbn [app take replicate negb Z.eqb last oget mbind res_bind]. by rewrite luaL_checkinteger_nil.
Qed.

(** An error raised in [pmain] is caught, and nothing has changed. *)
Lemma to_luac_call_error name data st :
  luac name data = LuaCallError → to_luac luac name data st = Ok (-1, st).
Proof.
  intros E. unfold to_luac, pmain. rewrite E. cbn [mbind res_bind].
  pose proof (lua_pcall_error 1) as Hn. destruct (lua_pcall 1 None) as [r stack]. simpl in Hn.
  by destruct (Z.eqb_spec r 0).
Qed.

End fate.
