(* ===== verification/CmdsProofs.v ===== *)
(** * Properties of the command line ([Cmds])

    The compiled chunks are put together, names are the last components of the
    paths, and the image built from a command line holds exactly the files it
    names; project files are read line by line; the dump path. *)

From S2P Require Import Prelude Luadb2 LuacReport Cmds.

Section proofs.
Context `{Platform} `{HeapLaws} `{LuaApi}.

(** Allocations of up to [limit] bytes succeed.  ([luat_heap_malloc] has a pool of 1 MiB,
    so [limit] stays below that, and so does what is allocated at the same time.) *)
Definition heap_gives (limit : Z) : Prop :=
  (∀ n, 0 <= n <= limit → is_Some (heap_malloc n)) ∧
  (∀ b n, 0 <= n <= limit → is_Some (heap_realloc b n)).

(** ** The writer *)

Lemma writer_append limit p old :
  heap_gives limit → Z.of_nat (length old + length p) <= limit →
  writer p (Some old, Z.of_nat (length old))
  = Ok (0, (Some (old ++ p), Z.of_nat (length (old ++ p)))).
Proof.
  intros [_ Hr] Hl. unfold writer. cbn [fst snd].
  destruct (Hr old (Z.of_nat (length old) + Z.of_nat (length p))) as [b Hb]; [lia|].
  rewrite Hb. pose proof (heap_realloc_length _ _ _ Hb) as Hlen.
  pose proof (heap_realloc_keeps _ _ _ (length old) Hb) as Hk.
  rewrite firstn_all in Hk. rewrite Nat2Z.id, store_Ok by lia. cbn [mbind res_bind].
  rewrite Hk, drop_ge by lia. rewrite app_nil_r, length_app. do 3 f_equal. lia.
Qed.

Lemma luaU_dump_append limit chunks : ∀ old,
  heap_gives limit → Z.of_nat (length old + length (concat chunks)) <= limit →
  luaU_dump chunks (Some old, Z.of_nat (length old))
  = Ok (0, (Some (old ++ concat chunks), Z.of_nat (length (old ++ concat chunks)))).
Proof.
  induction chunks as [|p rest IH]; intros old Hh Hl; cbn [luaU_dump concat].
  { by rewrite app_nil_r. }
  cbn [concat] in Hl. rewrite length_app in Hl.
  rewrite (writer_append limit) by (done || lia). cbn [mbind res_bind Z.eqb].
  rewrite IH by (done || rewrite length_app; lia). by rewrite <- app_assoc.
Qed.

Lemma luaU_dump_concat limit p chunks :
  heap_gives limit → Z.of_nat (length (concat (p :: chunks))) <= limit →
  luaU_dump (p :: chunks) (None, 0)
  = Ok (0, (Some (concat (p :: chunks)), Z.of_nat (length (concat (p :: chunks))))).
Proof.
  intros Hh Hl. cbn [luaU_dump concat] in *. rewrite length_app in Hl.
  unfold writer at 1. cbn [fst snd].
  destruct (proj1 Hh (Z.of_nat (length p))) as [b Hb]; [lia|].
  pose proof (heap_malloc_length _ _ Hb) as Hlen.
  rewrite Hb. cbn [oget mbind res_bind]. rewrite store_whole by lia.
  cbn [mbind res_bind Z.eqb]. rewrite (luaU_dump_append limit) by (done || lia). done.
Qed.

(** ** Names *)

Lemma last_sep_none s : Forall (λ b, is_sep b = false) s →
  ∀ i, (i <= length s)%nat → last_sep s i = None.
Proof.
  intros Hs i. induction i as [|j IH]; intros Hi; [done|]. cbn [last_sep].
  destruct (lookup_lt_is_Some_2 s j) as [b Hb]; [lia|].
  rewrite (list_lookup_total_correct _ _ _ Hb).
  rewrite (Forall_lookup_1 _ _ _ _ Hs Hb). apply IH. lia.
Qed.

Lemma last_sep_found d sep b :
  is_sep sep = true → Forall (λ b, is_sep b = false) b →
  ∀ i, (length d < i <= length d + 1 + length b)%nat →
  last_sep (d ++ sep :: b) i = Some (length d + 1)%nat.
Proof.
  intros Hsep Hb i. induction i as [|j IH]; intros Hi; [lia|]. cbn [last_sep].
  destruct (decide (j = length d)) as [->|Hne].
  - rewrite list_lookup_total_middle by done. rewrite Hsep. f_equal. lia.
  - destruct (lookup_lt_is_Some_2 b (j - length d - 1)) as [x Hx]; [lia|].
    assert ((d ++ sep :: b) !! j = Some x) as Hj.
    { rewrite lookup_app_r by lia.
      replace (j - length d)%nat with (S (j - length d - 1)) by lia. done. }
    rewrite (list_lookup_total_correct _ _ _ Hj).
    rewrite (Forall_lookup_1 _ _ _ _ Hb Hx). apply IH. lia.
Qed.

Lemma head_pad_zero n : (replicate (S n) 0 : list Z) !!! 0%nat = 0.
Proof. done. Qed.

(** A name without separator. *)
Lemma file_name_plain s pad :
  no_nul s → Forall (λ b, is_sep b = false) s → (length s < 512)%nat →
  file_name (s ++ 0 :: pad) = Ok s.
Proof.
  intros Hn Hs Hl. unfold file_name. rewrite c_string_app by done. cbn [mbind res_bind].
  rewrite last_sep_none by done. cbn [mbind res_bind].
  change (replicate 512 0 !!! 0%nat =? 0) with true. cbv iota.
  rewrite store_Ok by (rewrite length_replicate; lia). cbn [mbind res_bind].
  rewrite take_0, drop_replicate. apply c_string_pad; [done|lia].
Qed.

(** A path with a directory part is stored under its last
    component, although the copy behind the last separator also takes the NUL
    and, of what follows it in memory, as many bytes as the directory part is
    long less one: the memory behind the path must be that long, or the read
    leaves it. *)
Theorem file_name_behind d sep b pad :
  is_sep sep = true → Forall (λ b, is_sep b = false) b → b ≠ [] →
  no_nul (d ++ sep :: b) → (length (d ++ sep :: b) < 512)%nat →
  file_name ((d ++ sep :: b) ++ 0 :: pad)
  = if decide (length d <= 1 + length pad)%nat then Ok b else Fault OutOfBounds.
Proof.
  intros Hsep Hb Hne Hn Hl. unfold file_name. rewrite c_string_app by done.
  cbn [mbind res_bind]. rewrite length_app in *. cbn [length] in *.
  rewrite (last_sep_found d sep b) by (done || lia).
  case_decide as Hpad.
  - rewrite load_Ok by (rewrite !length_app; simpl; lia). cbn [mbind res_bind].
    rewrite <- (app_assoc d). cbn [app].
    assert (drop (length d + 1) (d ++ sep :: b ++ 0 :: pad) = b ++ 0 :: pad) as ->.
    { rewrite cons_middle, app_assoc. apply drop_app_length'. by rewrite length_app. }
    set (n := (length d + S (length b) - 1)%nat).
    assert (∃ t, take n (b ++ 0 :: pad) ++ replicate 512 0 = b ++ 0 :: t) as [t Ht].
    { rewrite take_app. destruct (n - length b)%nat as [|k] eqn:Ek.
      - rewrite take_ge by lia. simpl. rewrite app_nil_r. by exists (replicate 511 0).
      - rewrite take_ge by lia. simpl. rewrite <- app_assoc. simpl. eauto. }
    assert (length (take n (b ++ 0 :: pad)) = n) as Hlen.
    { rewrite length_take, length_app. simpl. lia. }
    rewrite store_Ok by (rewrite length_replicate; lia). cbn [mbind res_bind].
    rewrite take_0, Hlen, drop_replicate. cbn [app].
    assert (∃ t', take n (b ++ 0 :: pad) ++ replicate (512 - (0 + n)) 0 = b ++ 0 :: t')
      as [t' ->].
    { apply (f_equal (take 512)) in Ht. rewrite take_app, Hlen in Ht.
      rewrite take_ge in Ht by lia. rewrite take_replicate in Ht.
      replace ((512 - n) `min` 512)%nat with (512 - (0 + n))%nat in Ht by lia.
      rewrite Ht, take_app. rewrite take_ge by lia.
      destruct (512 - length b)%nat eqn:E; [lia|]. simpl. eauto. }
    destruct b as [|b0 b']; [done|]. cbn [app lookup_total list_lookup_total].
    apply Forall_app in Hn as [_ Hn]. apply Forall_cons in Hn as [_ Hn].
    pose proof Hn as [Hb0 _]%Forall_cons.
    destruct (Z.eqb_spec b0 0); [done|]. cbn [mbind res_bind].
    by apply (c_string_app (b0 :: b')).
  - rewrite load_oob; [done|]. rewrite !length_app. simpl. lia.
Qed.

(** ** From the command line to the image *)

Context (w : world) (luac : list Z → list Z → lua_result).

(** The argument [path] names a file that is stored as [f]. *)
Record stored_as (limit strip : Z) (path : list Z) (f : luadb_file) : Prop := {
  sa_text : ∃ s pad, path = s ++ 0 :: pad ∧ no_nul s ∧ (4 <= length s < 512)%nat ∧
    s !!! 0%nat ≠ 45 ∧ is_sep (s !!! (length s - 1)%nat) = false ∧
    ∃ data, w_files w !! s = Some data ∧ Z.of_nat (length data) <= limit ∧
      if bool_decide (drop (length s - 4) s = bytes ".lua")
      then ∃ dump p chunks, luac f.1 data = LuaProto dump ∧
             dump (strips strip f.1) = p :: chunks ∧ f.2 = concat (p :: chunks)
      else f.2 = data;
  sa_name : file_name path = Ok f.1;
  sa_ok : file_ok f;
}.

(** The state between two arguments: the image of [fs], its pointer kept, and
    the options as they were. *)
Definition holds_image (st0 st : cmd_state) (fs : list luadb_file) : Prop :=
  built (luadb_ctx st) fs ∧ (fs = [] ∨ luadb_ptr st = ldb_dataptr (luadb_ctx st)) ∧
  cfg_luac_strip st = cfg_luac_strip st0 ∧ cfg_norun st = cfg_norun st0 ∧
  cfg_dump_report st = cfg_dump_report st0 ∧ luadb_dump_path st = luadb_dump_path st0.

Lemma image_prefix_fits fs f fs' :
  Z.of_nat (length (luadb_image fs)) + Z.of_nat (length f.2) <=
  Z.of_nat (length (luadb_image (fs ++ f :: fs'))).
Proof.
  rewrite cons_middle, app_assoc. unfold luadb_image.
  rewrite !map_app, !concat_app, !length_app. cbn [map concat].
  rewrite !length_app, length_luadb_record. unfold luadb_header.
  rewrite !length_app. cbn [length]. lia.
Qed.

(** Writing one file into the image kept by the command line. *)
Lemma write_image st0 st limit fs f :
  heap_gives limit → limit < 2 ^ sizet_bits → holds_image st0 st fs →
  (length f.1 <= 255)%nat →
  ldb_offset (luadb_ctx st) + Z.of_nat (length f.2) + 512 <= limit →
  ∃ c, luat_luadb2_write (luadb_ctx st) f.1 f.2 (Z.of_nat (length f.2)) = Ok (0, c) ∧
    holds_image st0 (set_luadb c (ldb_dataptr c) st) (fs ++ [f]).
Proof.
  intros [_ Hr] Hw (Hb & _ & Hcfg) Hn Hfit. pose proof Hb as (rest & Hd & Ho).
  destruct (Hr (luadb_image fs ++ rest)
    (ldb_offset (luadb_ctx st) + Z.of_nat (length f.2) + 512)) as [b Hre]; [lia|].
  destruct (luat_luadb2_write_spec (luadb_ctx st) fs f.1 f.2 b Hb) with
    (buf := luadb_image fs ++ rest) as (c & Hwr & Hb'); [lia|lia|done|done|].
  exists c. split; [done|]. split; [by destruct f|]. split; [by right|done].
Qed.

Lemma is_opts_other key s :
  key !! 0%nat = Some 45 → s !!! 0%nat ≠ 45 → is_opts key s = false.
Proof.
  intros Hk Hs. destruct s as [|b s]; [unfold is_opts; by rewrite bool_decide_eq_true_2 by (simpl; lia)|].
  by eapply (is_opts_mismatch 0).
Qed.

Lemma add_onefile_stores st0 st limit fs path f :
  heap_gives limit → limit < 2 ^ sizet_bits → 1024 <= limit →
  holds_image st0 st fs → stored_as limit (cfg_luac_strip st0) path f →
  ldb_offset (luadb_ctx st) + Z.of_nat (length f.2) + 512 <= limit →
  ∃ st', add_onefile w luac path st = Ok (0, st') ∧ holds_image st0 st' (fs ++ [f]).
Proof.
  intros Hh Hw Hlim Hst [(s & pad & -> & Hn & Hl & Hd & Hsep & data & Hf & Hdl & Hc) Hname [Hok1 Hok2]] Hfit.
  destruct (write_image st0 st limit fs f) as (c & Hwr & Hst'); [done..|].
  unfold add_onefile. rewrite c_string_app by done. cbn [mbind res_bind].
  rewrite Hf. destruct (proj1 Hh (Z.of_nat (length data))) as [b Hb]; [lia|].
  rewrite Hb. pose proof (heap_malloc_length _ _ Hb).
  rewrite store_whole by lia. cbn [mbind res_bind]. rewrite Hname. cbn [mbind res_bind].
  unfold is_lua. rewrite decide_False by lia. cbn [mbind res_bind].
  case_bool_decide.
  - destruct Hc as (dump & p & chunks & Hlc & Hdp & Hf2).
    exists (set_luadb c (ldb_dataptr c) st). split; [|done].
    apply to_luac_returns; [|congruence]. unfold pmain. rewrite Hlc.
    destruct (proj1 Hh sizeof_luac_ctx) as [b2 ->].
    { unfold sizeof_luac_ctx. destruct ptr_bytes_cases as [-> | ->]; lia. }
    cbn [oget mbind res_bind]. destruct Hst as ((rest & _ & Ho) & _ & -> & _).
    rewrite Hdp, (luaU_dump_concat limit), <- Hf2
      by (try done; rewrite <- Hf2; lia).
    cbn [mbind res_bind Z.eqb fst snd oget]. by rewrite Hwr.
  - subst data. rewrite Hwr. cbn [mbind res_bind]. eauto.
Qed.

Lemma parse_arg_stores st0 st limit fs path f mock :
  heap_gives limit → limit < 2 ^ sizet_bits → 1024 <= limit →
  holds_image st0 st fs → stored_as limit (cfg_luac_strip st0) path f →
  ldb_offset (luadb_ctx st) + Z.of_nat (length f.2) + 512 <= limit →
  ∃ st', parse_arg w luac mock path st = Ok (None, st') ∧ holds_image st0 st' (fs ++ [f]).
Proof.
  intros Hh Hw Hlim Hst Hsa Hfit.
  destruct (add_onefile_stores st0 st limit fs path f) as (st' & E & Hst'); [done..|].
  exists st'. split; [|done].
  destruct Hsa as [(s & pad & -> & Hn & Hl & Hd & Hsep & _) _ _].
  unfold parse_arg. rewrite c_string_app by done. cbn [mbind res_bind].
  rewrite !is_opts_other by done. destruct (Z.eqb_spec (s !!! 0%nat) 45); [done|].
  unfold check_file_path. rewrite c_string_app by done. cbn [mbind res_bind].
  rewrite !bool_decide_eq_false_2 by lia. cbn [orb]. rewrite Hsep, E.
  cbn [mbind res_bind]. done.
Qed.

Lemma parse_args_store st0 limit mock paths : ∀ st fs fs',
  heap_gives limit → limit < 2 ^ sizet_bits → 1024 <= limit →
  holds_image st0 st fs → Forall2 (stored_as limit (cfg_luac_strip st0)) paths fs' →
  Z.of_nat (length (luadb_image (fs ++ fs'))) + 512 <= limit →
  ∃ st', parse_args w luac mock paths st = Ok (None, st') ∧
    holds_image st0 st' (fs ++ fs').
Proof.
  induction paths as [|path paths IH]; intros st fs fs' Hh Hw Hlim Hst Hall Hfit.
  - apply Forall2_nil_inv_l in Hall as ->. rewrite app_nil_r. by exists st.
  - apply Forall2_cons_inv_l in Hall as (f & fs'' & Hf & Hall & ->).
    pose proof (image_prefix_fits fs f fs'') as Hpre.
    pose proof Hst as ((rest & Hd & Ho) & _).
    destruct (parse_arg_stores st0 st limit fs path f mock)
      as (st1 & E & Hst1); [done..| |].
    { rewrite Ho. eapply Z.le_trans; [apply Z.add_le_mono_r, Hpre|exact Hfit]. }
    rewrite cons_middle, app_assoc in Hfit |- *.
    destruct (IH st1 (fs ++ [f]) fs'') as (st' & E' & Hst'); [done..|].
    exists st'. split; [|done]. cbn [parse_args]. rewrite E. cbn [mbind res_bind]. done.
Qed.

Lemma cmd_parse_image limit mock re prog paths fs dump_ok :
  heap_gives limit → limit < 2 ^ sizet_bits → 1024 <= limit →
  paths ≠ [] → (length fs < 256)%nat →
  Forall2 (stored_as limit 0) paths fs →
  Z.of_nat (length (luadb_image fs)) + 512 <= limit →
  ∃ st buf, luat_cmd_parse w luac mock re (prog :: paths) dump_ok cmd_init
            = Ok (Returned 0, None, st) ∧
    luadb_ptr st = Some buf ∧ luadb_read buf = Some fs.
Proof.
  intros Hh Hw Hlim Hne Hn Hall Hfit. unfold luat_cmd_parse.
  rewrite decide_False by (destruct paths; [done|simpl; lia]).
  destruct (proj1 Hh 1024) as [b Hb]; [lia|].
  destruct (luat_luadb2_init_spec b Hb) as (c & Hi & Hbuilt).
  cbn [cmd_init luadb_ctx]. rewrite Hi. cbn [mbind res_bind tail].
  destruct (parse_args_store cmd_init limit mock paths
    (set_luadb c None cmd_init) [] fs) as (st & E & Hst); [done..| |done|done|].
  { split; [done|]. split; [by left|done]. }
  change (parse_args w luac mock paths _) with
    (parse_args w luac mock paths (set_luadb c None cmd_init)). rewrite E. cbn [mbind res_bind].
  destruct Hst as ((rest & Hd & Ho) & Hp & _ & Hnr & Hdr & Hdp). cbn [app] in *.
  rewrite Hdr, Hdp, Hnr. cbn [cmd_init luadb_dump_path cfg_norun cfg_dump_report negb Z.eqb mbind res_bind].
  change (replicate 1024 0 !!! 0%nat =? 0) with true. cbn [negb].
  exists st, (luadb_image fs ++ rest). split; [done|]. split.
  - destruct Hp as [->|Hp]; [|congruence].
    apply Forall2_nil_inv_r in Hall. done.
  - apply luadb_read_image; [|done].
    eapply Forall2_Forall_r; [exact Hall|]. apply Forall_true. by intros ? ? [].
Qed.

(** C23 (functional).  A command line of files: given arguments that each name a
    readable file (a Lua source that compiles, or anything else), the parser
    returns 0 and leaves in [luadb_ptr] an image from which a reader of the
    format gets, in order of the arguments, each file's last path component
    with its contents or, for a Lua source, its compiled chunks put together,
    stripped as the mode says.  There are fewer than 256 files, and the heap is assumed
    to serve every block of up to [limit] bytes, a bound that holds each file, the image
    with its slack of 512 bytes and the first block of 1024: any limit within the
    pool of 1 MiB will do, but the model does not add up blocks that are in use at the
    same time.  (With the report switched on the process ends before this, see
    [report_crashes].) *)
Theorem cmd_parse_builds_image limit mock re prog paths fs dump_ok :
  heap_gives limit → limit < 2 ^ sizet_bits → 1024 <= limit →
  paths ≠ [] → (length fs < 256)%nat →
  Forall2 (stored_as limit 0) paths fs →
  Z.of_nat (length (luadb_image fs)) + 512 <= limit →
  ∃ st buf, luat_cmd_parse w luac mock re (prog :: paths) dump_ok cmd_init
            = Ok (Returned 0, None, st) ∧
    luadb_ptr st = Some buf ∧ luadb_read buf = Some fs.
Proof. apply cmd_parse_image. Qed.

(** With --luac_report=1 the parser reports on the image first, and the report alone is
    larger than the pool of the heap: its first [memset] ends the process. *)
Theorem report_crashes re dataptr :
  (∀ n b, heap_malloc n = Some b → n <= 1024 * 1024) → 1024 * 1024 < re_report_size re →
  do_report re dataptr = Fault NullDeref.
Proof.
  intros Hpool Hsize. unfold do_report, luadb_do_report.
  destruct (heap_malloc (re_report_size re)) as [b|] eqn:E; [|done].
  pose proof (Hpool _ _ E). lia.
Qed.

End proofs.

(** ** A concrete command line *)

Lemma zero_heap_gives limit : @heap_gives (zero_heap limit) limit.
Proof.
  split; simpl; intros; rewrite decide_True by lia; by eexists.
Qed.

(** A picture, and a Lua source whose compiled form is two chunks. *)
Definition demo_world : world :=
  World {[ bytes "logo.jpg" := [1; 2; 3]; bytes "src/app.lua" := bytes "x=1" ]} ∅.
Definition demo_luac (name data : list Z) : lua_result :=
  LuaProto (λ strip, [bytes "Lua"; if strip then [] else name]).
Definition demo_paths : list (list Z) :=
  [bytes "logo.jpg" ++ [0]; bytes "src/app.lua" ++ 0 :: replicate 10 65].
Definition demo_stored : list luadb_file :=
  [(bytes "logo.jpg", [1; 2; 3]); (bytes "app.lua", bytes "Luaapp.lua")].

Lemma demo_paths_stored : Forall2 (stored_as demo_world demo_luac (1024 * 1024) 0) demo_paths demo_stored.
Proof.
  apply Forall2_cons. split; [|apply Forall2_cons; split; [|constructor]].
  - split.
    + exists (bytes "logo.jpg"), []. split; [done|].
      split; [refine (bool_decide_eq_true_1 _ _); by vm_compute|].
      split; [simpl; lia|]. split; [done|]. split; [done|].
      exists [1; 2; 3]. split; [done|]. split; [simpl; lia|]. done.
    + by vm_compute.
    + split; simpl; lia.
  - split.
    + exists (bytes "src/app.lua"), (replicate 10 65). split; [done|].
      split; [refine (bool_decide_eq_true_1 _ _); by vm_compute|].
      split; [simpl; lia|]. split; [done|]. split; [done|].
      exists (bytes "x=1"). split; [done|]. split; [simpl; lia|].
      rewrite bool_decide_eq_true_2 by done. by eexists _, _, _.
    + by vm_compute.
    + split; simpl; lia.
Qed.

(** The report is not asked for below: its sizes do not matter. *)
Definition demo_report : report_env := ReportEnv 4 [0; 0; 0; 0] 4000000 1036 (λ _, None).

Lemma cmd_parse_builds_image_witness :
  ∃ st buf,
    @luat_cmd_parse linux32 (zero_heap (1024 * 1024)) _ demo_world demo_luac (λ _, 0) demo_report
      (bytes "luatos" :: demo_paths) true cmd_init = Ok (Returned 0, None, st) ∧
    luadb_ptr st = Some buf ∧ luadb_read buf = Some demo_stored.
Proof.
  apply (@cmd_parse_builds_image linux32 (zero_heap (1024 * 1024))
    (zero_heap_laws _) _ demo_world demo_luac (1024 * 1024)).
  - apply zero_heap_gives.
  - by vm_compute.
  - by vm_compute.
  - done.
  - simpl. lia.
  - apply demo_paths_stored.
  - by vm_compute.
Defined.

Lemma file_name_behind_witness :
  file_name (bytes "src/app.lua" ++ 0 :: replicate 10 65) = Ok (bytes "app.lua") ∧
  file_name (bytes "/home/luat/app.lua" ++ [0]) = Fault OutOfBounds.
Proof.
  split.
  - apply (file_name_behind (bytes "src") 47 (bytes "app.lua") (replicate 10 65)); try done.
    + refine (bool_decide_eq_true_1 _ _); by vm_compute.
    + refine (bool_decide_eq_true_1 _ _); by vm_compute.
    + simpl. lia.
  - apply (file_name_behind (bytes "/home/luat") 47 (bytes "app.lua") []); try done.
    + refine (bool_decide_eq_true_1 _ _); by vm_compute.
    + refine (bool_decide_eq_true_1 _ _); by vm_compute.
    + simpl. lia.
Defined.
