(* ===== verification/CmdsProject.v ===== *)
(** * Project files, dump path and broken sources ([Cmds])

    How [luat_cmd_load_luatools] reads a LuaTools project file, as a function
    from the lines of the file to the paths it loads; what repeated dump options
    and Lua sources that do not compile do. *)

From S2P Require Import Prelude Luadb2 Cmds.

(** ** The reading of a project file, as a specification *)

(** The non-empty lines that end in a carriage return or a line feed; what
    follows the last line end is not a line. *)
Fixpoint lines_of (text cur : list Z) : list (list Z) :=
  match text with
  | [] => []
  | b :: rest =>
      if is_eol b then (if decide (cur = []) then lines_of rest [] else cur :: lines_of rest [])
      else lines_of rest (cur ++ [b])
  end.

(** What a line says: nothing, a new directory, or a file of the current one. *)
Inductive ini_item : Type := IniNothing | IniDir (d : list Z) | IniFile (p : list Z).

Definition ini_read `{Platform} (dir line : list Z) : ini_item :=
  if bool_decide (line = bytes "[info]") || bool_decide (length line <= 5)%nat
  then IniNothing
  else if (line !!! 0%nat =? 91) && (line !!! (length line - 1)%nat =? 93)
  then IniDir (take (length line - 2) (drop 1 line))
  else if bool_decide (dir = []) then IniNothing
  else match ini_key line with
       | Some key => IniFile (dir ++ [if windows then 92 else 47] ++ key)
       | None => IniNothing
       end.

Fixpoint ini_paths `{Platform} (dir : list Z) (lines : list (list Z)) : list (list Z) :=
  match lines with
  | [] => []
  | l :: rest =>
      match ini_read dir l with
      | IniNothing => ini_paths dir rest
      | IniDir d => ini_paths d rest
      | IniFile p => p :: ini_paths dir rest
      end
  end.

(** The path as it stands in the zeroed 1024-byte array. *)
Definition pad1024 (p : list Z) : list Z := p ++ replicate (1024 - length p) 0.

Section project.
Context `{Platform} `{HeapLaws} `{LuaApi} (w : world) (luac : list Z → list Z → lua_result).

(** Load the paths one by one; the first that fails ends with -2. *)
Fixpoint load_paths (ps : list (list Z)) (st : cmd_state) : res (Z * cmd_state) :=
  match ps with
  | [] => Ok (0, st)
  | p :: rest =>
      '(ok, st) ← check_file_path w luac (pad1024 p) st;
      if ok : bool then load_paths rest st else Ok (-2, st)
  end.

(** [dirline] holds the directory [dir]. *)
Definition dir_in (dirline dir : list Z) : Prop :=
  ∃ t, dirline = dir ++ 0 :: t ∧ no_nul dir ∧ length dirline = 512%nat.

Lemma ini_key_spec line key :
  ini_key line = Some key → no_nul line → (length key < length line)%nat ∧ no_nul key.
Proof.
  revert key. induction line as [|b line IH]; intros key; simpl; [done|].
  case_match.
  - intros [= <-] Hn. split; [simpl; lia|]. apply Forall_nil_2.
  - intros (k & Hk & ->)%fmap_Some [Hb Hn]%Forall_cons.
    destruct (IH k Hk Hn). split; [simpl; lia|]. by apply Forall_cons.
Qed.

(** The three stores that build [rpath]. *)
Lemma rpath_built (dir key : list Z) sep (k : list Z → res (Z * list Z * cmd_state)) :
  (length dir + 1 + length key < 1024)%nat →
  (rpath ← store (replicate 1024 0) 0 dir;
   rpath ← store rpath (length dir) [sep];
   rpath ← store rpath (length dir + 1) key; k rpath)
  = k (pad1024 (dir ++ [sep] ++ key)).
Proof.
  intros Hl. rewrite (store_fill 0 [] (replicate 1024 0)) by (done || solve_len).
  cbn [mbind res_bind app]. rewrite drop_replicate.
  rewrite (store_fill (length dir) dir) by (done || solve_len).
  cbn [mbind res_bind]. rewrite drop_replicate.
  rewrite (store_fill _ (dir ++ [sep])) by solve_len.
  cbn [mbind res_bind]. rewrite drop_replicate. f_equal. unfold pad1024.
  rewrite <- !app_assoc. cbn [app length]. rewrite !length_app. simpl. do 4 f_equal. lia.
Qed.

Lemma ini_line_reads line dirline dir st :
  no_nul line → (length line <= 500)%nat → dir_in dirline dir → (length dir <= 500)%nat →
  ∃ dirline' dir', dir_in dirline' dir' ∧ (length dir' <= 500)%nat ∧
  match ini_read dir line with
  | IniNothing => dir' = dir ∧ ini_line w luac line dirline st = Ok (0, dirline', st)
  | IniDir d => dir' = d ∧ ini_line w luac line dirline st = Ok (0, dirline', st)
  | IniFile p => dir' = dir ∧ ini_line w luac line dirline st =
      ('(ok, st) ← check_file_path w luac (pad1024 p) st;
       Ok (if ok : bool then 0 else -2, dirline', st))
  end.
Proof.
  intros Hn Hl Hd Hdl. unfold ini_read, ini_line.
  case_bool_decide; [exists dirline, dir; done|].
  case_bool_decide; [exists dirline, dir; done|]. cbn [orb].
  pose proof Hd as (t & -> & Hnd & Hlen). rewrite length_app in Hlen. simpl in Hlen.
  destruct ((line !!! 0%nat =? 91) && (line !!! (length line - 1)%nat =? 93)).
  - set (d := take (length line - 2) (drop 1 line)).
    assert (length d = (length line - 2)%nat) as Hd'.
    { unfold d. rewrite length_take, length_drop. lia. }
    exists (d ++ 0 :: drop (length d + 1) (dir ++ 0 :: t)), d. split; [|split; [lia|split; [done|]]].
    + exists (drop (length d + 1) (dir ++ 0 :: t)). split; [done|]. split.
      * unfold d. by apply Forall_take, Forall_drop.
      * rewrite !length_app. simpl. rewrite length_drop, length_app. simpl. lia.
    + rewrite store_Ok by (rewrite !length_app; simpl; lia). cbn [mbind res_bind].
      rewrite take_0. cbn [app]. rewrite <- Hd'.
      rewrite (store_fill (length d) d) by (done || solve_len).
      cbn [mbind res_bind]. rewrite drop_drop, <- app_assoc. done.
  - destruct dir as [|d0 dir].
    { rewrite bool_decide_eq_true_2 by done. exists (0 :: t), []. done. }
    rewrite bool_decide_eq_false_2 by done. pose proof Hnd as [Hd0 _]%Forall_cons.
    change (((d0 :: dir) ++ 0 :: t) !!! 0%nat) with d0.
    destruct (Z.eqb_spec d0 0); [done|].
    destruct (ini_key line) as [key|] eqn:Hkey; [|exists ((d0 :: dir) ++ 0 :: t), (d0 :: dir); done].
    destruct (ini_key_spec _ _ Hkey Hn) as [Hkl _].
    exists ((d0 :: dir) ++ 0 :: t), (d0 :: dir).
    split; [done|]. split; [done|]. split; [done|].
    rewrite c_string_app by done. cbn [mbind res_bind].
    apply (rpath_built (d0 :: dir) key). lia.
Qed.

Lemma ini_scan_reads text : ∀ cur dirline dir tail st,
  no_nul text → no_nul cur → Forall (λ l, (length l <= 500)%nat) (lines_of text cur) →
  dir_in dirline dir → (length dir <= 500)%nat →
  ini_scan w luac (text ++ 0 :: tail) cur dirline st =
  load_paths (ini_paths dir (lines_of text cur)) st.
Proof.
  induction text as [|b text IH]; intros cur dirline dir tail st Hn Hc Hall Hd Hdl.
  { done. }
  apply Forall_cons in Hn as [Hb Hn]. cbn [app ini_scan lines_of] in *.
  destruct (Z.eqb_spec b 0); [done|]. destruct (is_eol b) eqn:Heol.
  - case_decide as Hcur.
    + subst cur. cbn [mbind res_bind negb Z.eqb]. by apply IH.
    + apply Forall_cons in Hall as [Hl Hall].
      destruct (ini_line_reads cur dirline dir st Hc Hl Hd Hdl)
        as (dirline' & dir' & Hd' & Hdl' & Hread).
      replace (match cur with [] => Ok (0, dirline, st) | _ :: _ => ini_line w luac cur dirline st end)
        with (ini_line w luac cur dirline st) by (by destruct cur).
      cbn [ini_paths]. destruct (ini_read dir cur); destruct Hread as [-> ->].
      * cbn [mbind res_bind negb Z.eqb]. apply IH; try done; apply Forall_nil_2.
      * cbn [mbind res_bind negb Z.eqb]. apply IH; try done; apply Forall_nil_2.
      * cbn [load_paths].
        destruct (check_file_path w luac (pad1024 p) st) as [[[] st']|]; [|done..].
        cbn [mbind res_bind negb Z.eqb]. apply IH; try done; apply Forall_nil_2.
  - apply IH; try done. apply Forall_app_2; [done|]. by apply Forall_singleton.
Qed.

(** C31 (equivalence).  A project file without NUL bytes and with lines of up to
    500 characters is read line by line: a bracketed line of more than five
    characters other than [info] sets the directory, a later line with a key
    loads that file of the directory, the rest is skipped; the paths are loaded
    in order until one fails, and then the result is -2.  A last line without a
    line end is not read. *)
Theorem luatools_reads_lines path s pad data st b :
  path = s ++ 0 :: pad → no_nul s → w_files w !! s = Some data → no_nul data →
  Forall (λ l, (length l <= 500)%nat) (lines_of data []) →
  heap_malloc (Z.of_nat (length data) + 1) = Some b →
  luat_cmd_load_luatools w luac path st =
  load_paths (ini_paths [] (lines_of data [])) st.
Proof.
  intros -> Hs Hf Hn Hall Hb. unfold luat_cmd_load_luatools.
  rewrite c_string_app by done. cbn [mbind res_bind]. rewrite Hf, Hb.
  pose proof (heap_malloc_length _ _ Hb) as Hl.
  rewrite store_Ok by (rewrite length_app; simpl; lia). cbn [mbind res_bind].
  rewrite take_0, drop_ge by (rewrite length_app; simpl; lia).
  rewrite app_nil_r. apply ini_scan_reads; [done|apply Forall_nil_2|done| |simpl; lia].
  exists (replicate 511 0). split; [done|]. split; [apply Forall_nil_2|done].
Qed.

(** ** The dump path *)

Definition dump_option (p : list Z) : list Z := bytes "--dump_luadb=" ++ p ++ [0].

(** The dump path is copied without its end: after a second,
    shorter dump option the image goes to the second path followed by the tail
    of the first. *)
Theorem dump_path_keeps_tail mock p q st :
  luadb_dump_path st = replicate 1024 0 → no_nul p → no_nul q →
  (0 < length p <= length q)%nat → (length q < 1024)%nat →
  ∃ st', parse_args w luac mock [dump_option q; dump_option p] st = Ok (None, st') ∧
    c_string (luadb_dump_path st') = Ok (p ++ drop (length p) q).
Proof.
  intros Hst Hp Hq Hl Hq1024.
  assert (∀ x st0, no_nul x → x ≠ [] →
    parse_arg w luac mock (dump_option x) st0 =
    (p ← store (luadb_dump_path st0) 0 x;
     Ok (None, CmdState (luadb_ctx st0) (luadb_ptr st0) p (cfg_luac_strip st0)
       (cfg_dump_report st0) (cfg_norun st0)))) as Harg.
  { intros x st0 Hx Hne. unfold parse_arg, dump_option. rewrite app_assoc.
    rewrite (c_string_app (bytes "--dump_luadb=" ++ x) []).
    2: { apply Forall_app_2; [|done]. refine (bool_decide_eq_true_1 _ _). by vm_compute. }
    cbn [mbind res_bind].
    rewrite !(is_opts_mismatch 2 _ (bytes "--dump_luadb=" ++ x) _ 100) by done.
    rewrite is_opts_app by done. cbv iota. rewrite drop_app_length. done. }
  cbn [parse_args]. rewrite Harg by (done || by destruct q; simpl in *; [lia|]).
  rewrite Hst, (store_fill 0 [] (replicate 1024 0)) by (done || solve_len).
  cbn [mbind res_bind app]. rewrite drop_replicate.
  rewrite Harg by (done || by destruct p; simpl in *; [lia|]). cbn [luadb_dump_path].
  rewrite store_Ok by solve_len. cbn [mbind res_bind].
  eexists. split; [done|]. cbn [luadb_dump_path]. rewrite take_0. cbn [app].
  rewrite drop_app_le by (simpl; lia). cbn [Nat.add]. rewrite app_assoc.
  apply c_string_pad; [|lia]. apply Forall_app_2; [done|]. by apply Forall_drop.
Qed.

(** A Lua source that does not compile ends the process: loading the file runs into
    [abort] instead of returning an error. *)
Theorem syntax_error_aborts path s pad data name b st :
  path = s ++ 0 :: pad → no_nul s → w_files w !! s = Some data →
  heap_malloc (Z.of_nat (length data)) = Some b → file_name path = Ok name →
  (4 <= length s)%nat → drop (length s - 4) s = bytes ".lua" →
  luac name data = LuaSyntaxError →
  add_onefile w luac path st = Fault Aborted.
Proof.
  intros -> Hs Hf Hb Hname Hlen Hlua Hbad. unfold add_onefile.
  rewrite c_string_app by done. cbn [mbind res_bind]. rewrite Hf, Hb.
  pose proof (heap_malloc_length _ _ Hb).
  rewrite store_Ok by lia. cbn [mbind res_bind]. rewrite take_0, drop_ge by lia.
  rewrite app_nil_r, Hname. cbn [mbind res_bind app]. unfold is_lua.
  rewrite decide_False by lia. cbn [mbind res_bind].
  rewrite bool_decide_eq_true_2 by done. by apply to_luac_syntax_error.
Qed.

End project.

(** ** On concrete inputs *)

(** A project file with one directory and two files, the last line without a
    line end; nothing is found on the disk, so the first file fails. *)
Definition demo_ini : list Z :=
  bytes "[info]" ++ [10] ++ bytes "[D:/app]" ++ [13; 10] ++ bytes "main.lua =1" ++ [10] ++
  bytes "logo.jpg =2".
Definition ini_world : world := World {[ bytes "p.ini" := demo_ini ]} ∅.

Example demo_ini_paths :
  @ini_paths linux32 [] (lines_of demo_ini []) = [bytes "D:/app/main.lua"].
Proof. by vm_compute. Qed.

Lemma luatools_reads_lines_witness :
  @luat_cmd_load_luatools linux32 (zero_heap 4096) _ ini_world (λ _ _, LuaCallError)
    (bytes "p.ini" ++ [0]) cmd_init = Ok (-2, cmd_init).
Proof.
  rewrite (@luatools_reads_lines linux32 (zero_heap 4096) (zero_heap_laws 4096) _ ini_world
    (λ _ _, LuaCallError) (bytes "p.ini" ++ [0]) (bytes "p.ini") [] demo_ini cmd_init
    (replicate 41 0)); [by vm_compute|try (by vm_compute)..].
  - refine (bool_decide_eq_true_1 _ _). by vm_compute.
  - refine (bool_decide_eq_true_1 _ _). by vm_compute.
  - refine (bool_decide_eq_true_1 _ _). by vm_compute.
Defined.

Lemma dump_path_keeps_tail_witness :
  ∃ st', @parse_args linux32 (zero_heap 4096) _ ini_world (λ _ _, LuaCallError) (λ _, 0)
      [dump_option (bytes "first.luadb"); dump_option (bytes "b.bin")] cmd_init
      = Ok (None, st') ∧
    c_string (luadb_dump_path st') = Ok (bytes "b.bin.luadb").
Proof.
  apply (@dump_path_keeps_tail linux32 (zero_heap 4096)
    _ ini_world (λ _ _, LuaCallError) (λ _, 0) (bytes "b.bin") (bytes "first.luadb") cmd_init).
  - done.
  - refine (bool_decide_eq_true_1 _ _). by vm_compute.
  - refine (bool_decide_eq_true_1 _ _). by vm_compute.
  - simpl. lia.
  - simpl. lia.
Defined.

Lemma syntax_error_aborts_witness :
  @add_onefile linux32 (zero_heap 4096) _ (World {[ bytes "bad.lua" := bytes "x=" ]} ∅)
    (λ _ _, LuaSyntaxError) (bytes "bad.lua" ++ [0]) cmd_init = Fault Aborted.
Proof.
  apply (@syntax_error_aborts linux32 (zero_heap 4096) (zero_heap_laws 4096) _ _ _ _
    (bytes "bad.lua") [] (bytes "x=") (bytes "bad.lua") (replicate 2 0));
    try (by vm_compute).
  - refine (bool_decide_eq_true_1 _ _). by vm_compute.
  - simpl. lia.
Defined.
