(* ===== verification/Uart.v ===== *)
(** * Serial ports: port/driver/luat_uart_pc.c and port/uart/

    128 ports dispatch to drivers; a driver is a record of operations.  The nop
    driver refuses everything, the UDP driver carries each port over datagrams
    on the local host.  (The Windows driver is not modelled.) *)

From S2P Require Import Prelude.

(** ** The UDP driver's state *)

(** [uart_drv_udp_t]: opened or not, and the bytes received. *)
Record uart_drv_udp : Type := UartUdp {
  u_state : Z;
  u_recv_buff : option (list Z);
  u_recv_len : Z;
}.

#[global] Instance uart_drv_udp_inhabited : Inhabited uart_drv_udp :=
  populate (UartUdp 0 None 0).

(** [u_sent]: the datagrams handed to libuv, with the port that sent them. *)
Record uart_state : Type := UartState {
  udps : list uart_drv_udp;
  u_sent : list (Z * list Z);
  u_msgs : list rtos_msg;
}.

Definition uart_init : uart_state := UartState (replicate 8 inhabitant) [] [].

Definition udp_port (st : uart_state) (id : Z) : uart_drv_udp := udps st !!! Z.to_nat id.
Definition upd_port (f : uart_drv_udp → uart_drv_udp) (id : Z) (st : uart_state)
    : uart_state :=
  UartState (alter f (Z.to_nat id) (udps st)) (u_sent st) (u_msgs st).
Definition bad_port (id : Z) : bool := (id <? 0) || (8 <=? id).

(** ** Operations of the UDP driver (port/uart/uart_drv_udp.c) *)

Section udp.
Context `{HeapOps}.

Definition uart_udp_recv_cb (uart_id nread : Z) (buf : list Z) (st : uart_state)
    : res uart_state :=
  if nread <? 0 then Ok st
  else if nread =? 0 then Ok st
  else if bad_port uart_id then Fault OutOfBounds
  else
    let p := udp_port st uart_id in
    let newsize := u_recv_len p + nread in
    let msg := RtosMsg "l_uart_handler" 0 uart_id nread in
    d ← load buf 0 (Z.to_nat nread);
    match u_recv_buff p with
    | None =>
        b ← oget NullDeref (heap_malloc nread);
        b ← store b 0 d;
        let st := upd_port (λ p, UartUdp (u_state p) (Some b) nread) uart_id st in
        Ok (UartState (udps st) (u_sent st) (u_msgs st ++ [msg]))
    | Some old =>
        match heap_realloc old newsize with
        | None => Ok st
        | Some ptr =>
            b ← store ptr (Z.to_nat (u_recv_len p)) d;
            let st := upd_port (λ p, UartUdp (u_state p) (Some b) (u_recv_len p)) uart_id st in
            Ok (UartState (udps st) (u_sent st) (u_msgs st ++ [msg]))
        end
    end.

(** The libuv calls only log their failures. *)
Definition uart_setup_udp (id : Z) (st : uart_state) : Z * uart_state :=
  if bad_port id then (-1, st)
  else if negb (u_state (udp_port st id) =? 0) then (0, st)
  else (0, upd_port (λ p, UartUdp 1 (u_recv_buff p) (u_recv_len p)) id st).

Definition on_sent_udp (uart_id status : Z) (st : uart_state) : uart_state :=
  if status <? 0 then st
  else UartState (udps st) (u_sent st) (u_msgs st ++ [RtosMsg "l_uart_handler" 0 uart_id 0]).

(** The loop of [uart_write_udp]; [data] is where [ptr] points, which does not
    move.  [malloc_ok] is the outcome of the request's allocation. *)
Fixpoint uart_write_loop (fuel : nat) (malloc_ok : bool) (uart_id : Z) (data : list Z)
    (length : Z) (sent : list (Z * list Z)) : res (Z * list (Z * list Z)) :=
  if length <=? 0 then Ok (length, sent)
  else
    match fuel with
    | O => Fault OutOfFuel
    | S fuel' =>
        let '(n, length) := if 512 <? length then (512, length - 512) else (length, 0) in
        buf ← load data 0 (Z.to_nat n);
        if negb malloc_ok then Fault NullDeref
        else uart_write_loop fuel' malloc_ok uart_id data length (sent ++ [(uart_id, buf)])
    end.

Definition uart_write_udp (malloc_ok : bool) (uart_id : Z) (data : list Z) (length : Z)
    (st : uart_state) : res (Z * uart_state) :=
  if bad_port uart_id then Ok (0, st)
  else if u_state (udp_port st uart_id) =? 0 then Ok (0, st)
  else
    '(ret, sent) ← uart_write_loop (Z.to_nat (length / 512 + 1)) malloc_ok uart_id data
                     length (u_sent st);
    Ok (ret, UartState (udps st) sent (u_msgs st)).

(** The result with the bytes copied to the caller. *)
Definition uart_read_udp (uart_id length : Z) (st : uart_state)
    : res (Z * list Z * uart_state) :=
  if bad_port uart_id then Ok (0, [], st)
  else
    let p := udp_port st uart_id in
    if u_state p =? 0 then Ok (0, [], st)
    else if u_recv_len p =? 0 then Ok (0, [], st)
    else
      let length := if u_recv_len p <? length then u_recv_len p else length in
      buff ← oget NullDeref (u_recv_buff p);
      out ← load buff 0 (Z.to_nat length);
      if length <? u_recv_len p then
        let newsize := u_recv_len p - length in
        d ← load buff (Z.to_nat (u_recv_len p)) (Z.to_nat newsize);
        buff ← store buff 0 d;
        let ptr := heap_realloc buff newsize in
        Ok (length, out, upd_port (λ p, UartUdp (u_state p) ptr newsize) uart_id st)
      else
        Ok (length, out, upd_port (λ p, UartUdp (u_state p) None 0) uart_id st).

(** Closing keeps the port open. *)
Definition uart_close_udp (uart_id : Z) (st : uart_state) : Z * uart_state :=
  if bad_port uart_id then (0, st)
  else if u_state (udp_port st uart_id) =? 0 then (0, st)
  else (0, st).

(** ** Drivers and dispatch (port/driver/luat_uart_pc.c) *)

(** [luat_uart_drv_opts_t]. *)
Record luat_uart_drv_opts : Type := UartDrv {
  drv_setup : Z → uart_state → res (Z * uart_state);
  drv_write : Z → list Z → Z → uart_state → res (Z * uart_state);
  drv_read : Z → Z → uart_state → res (Z * list Z * uart_state);
  drv_close : Z → uart_state → res (Z * uart_state);
}.

Definition uart_nop : luat_uart_drv_opts := {|
  drv_setup id st := Ok (-1, st);
  drv_write id data length st := Ok (-1, st);
  drv_read id length st := Ok (-1, [], st);
  drv_close id st := Ok (-1, st);
|}.

Definition uart_udp (malloc_ok : bool) : luat_uart_drv_opts := {|
  drv_setup id st := Ok (uart_setup_udp id st);
  drv_write := uart_write_udp malloc_ok;
  drv_read := uart_read_udp;
  drv_close id st := Ok (uart_close_udp id st);
|}.

Context (uart_drvs : list (option luat_uart_drv_opts)).

(** Whether the port exists, as the driver it then has; [luat_uart_exist] itself
    returns 1 or 0. *)
Definition luat_uart_exist (uart_id : Z) : option luat_uart_drv_opts :=
  if (uart_id <? 0) || (128 <=? uart_id) then None
  else mjoin (uart_drvs !! Z.to_nat uart_id).

Definition luat_uart_setup (uart_id : Z) (st : uart_state) : res (Z * uart_state) :=
  match luat_uart_exist uart_id with
  | None => Ok (-1, st) | Some d => drv_setup d uart_id st end.
Definition luat_uart_write (uart_id : Z) (data : list Z) (length : Z) (st : uart_state)
    : res (Z * uart_state) :=
  match luat_uart_exist uart_id with
  | None => Ok (-1, st) | Some d => drv_write d uart_id data length st end.
Definition luat_uart_read (uart_id length : Z) (st : uart_state)
    : res (Z * list Z * uart_state) :=
  match luat_uart_exist uart_id with
  | None => Ok (-1, [], st) | Some d => drv_read d uart_id length st end.
Definition luat_uart_close (uart_id : Z) (st : uart_state) : res (Z * uart_state) :=
  match luat_uart_exist uart_id with
  | None => Ok (0, st) | Some d => drv_close d uart_id st end.
Definition luat_setup_cb : Z := 0.
Definition luat_uart_ctrl : Z := 0.

End udp.

(** ** Properties *)

(** An open port with nothing received yet. *)
Definition port_ready (st : uart_state) (id : Z) : Prop :=
  bad_port id = false ∧ length (udps st) = 8%nat ∧
  u_state (udp_port st id) ≠ 0 ∧ u_recv_buff (udp_port st id) = None ∧
  u_recv_len (udp_port st id) = 0.

Lemma udp_port_upd f id st :
  bad_port id = false → length (udps st) = 8%nat →
  udp_port (upd_port f id st) id = f (udp_port st id).
Proof.
  intros Hid Hl. unfold udp_port. simpl. apply list_lookup_total_alter_eq.
  unfold bad_port in Hid. lia.
Qed.

Lemma udp_port_state st sent msgs id :
  udp_port (UartState (udps st) sent msgs) id = udp_port st id.
Proof. done. Qed.

Lemma load_all d : load d 0 (length d) = Ok d.
Proof. rewrite load_Ok by lia. by rewrite drop_0, firstn_all. Qed.

Section props.
Context `{HeapLaws}.
Context (malloc_ok : ∀ n, 0 <= n → is_Some (heap_malloc n)).

(** A first datagram is stored whole. *)
Lemma recv_first st id d :
  port_ready st id → d ≠ [] →
  ∃ st', uart_udp_recv_cb id (Z.of_nat (length d)) d st = Ok st' ∧
    length (udps st') = 8%nat ∧
    udp_port st' id = UartUdp (u_state (udp_port st id)) (Some d) (Z.of_nat (length d)).
Proof.
  intros (Hid & Hl & Hs & Hb & Hz) Hd. unfold uart_udp_recv_cb.
  assert (0 < length d)%nat by (destruct d; [done|simpl; lia]).
  destruct (Z.ltb_spec (Z.of_nat (length d)) 0); [lia|].
  destruct (Z.eqb_spec (Z.of_nat (length d)) 0); [lia|].
  rewrite Hid, Nat2Z.id, load_all. cbn [mbind res_bind]. rewrite Hb.
  destruct (malloc_ok (Z.of_nat (length d))) as [b Hm]; [lia|]. rewrite Hm.
  cbn [oget mbind res_bind]. pose proof (heap_malloc_length _ _ Hm).
  rewrite store_Ok by lia. cbn [mbind res_bind]. rewrite take_0, drop_ge by lia.
  rewrite app_nil_r. eexists. split; [done|]. split; [simpl; by rewrite length_alter|].
  unfold udp_port at 1. simpl. rewrite list_lookup_total_alter_eq; [done|].
  unfold bad_port in Hid. lia.
Qed.

(** A read of everything counted empties the port, whatever lies behind. *)
Lemma read_all st id d rest n :
  bad_port id = false → 0 < Z.of_nat (length d) <= n →
  u_state (udp_port st id) ≠ 0 → u_recv_buff (udp_port st id) = Some (d ++ rest) →
  u_recv_len (udp_port st id) = Z.of_nat (length d) →
  uart_read_udp id n st = Ok (Z.of_nat (length d), d,
    upd_port (λ p, UartUdp (u_state p) None 0) id st).
Proof.
  intros Hid Hn Hs Hb Hl. unfold uart_read_udp. rewrite Hid, Hl, Hb.
  destruct (Z.eqb_spec (u_state (udp_port st id)) 0); [done|].
  destruct (Z.eqb_spec (Z.of_nat (length d)) 0); [lia|]. cbn [oget mbind res_bind].
  replace (if Z.of_nat (length d) <? n then Z.of_nat (length d) else n)
    with (Z.of_nat (length d)) by (destruct (Z.ltb_spec (Z.of_nat (length d)) n); lia).
  rewrite Nat2Z.id, (load_Ok (d ++ rest) 0) by (rewrite length_app; lia).
  cbn [mbind res_bind]. by rewrite Z.ltb_irrefl, drop_0, take_app_length.
Qed.

(** A shorter read moves bytes from behind the block. *)
Lemma read_part st id d n :
  bad_port id = false → 0 <= n < Z.of_nat (length d) →
  u_state (udp_port st id) ≠ 0 → u_recv_buff (udp_port st id) = Some d →
  u_recv_len (udp_port st id) = Z.of_nat (length d) →
  uart_read_udp id n st = Fault OutOfBounds.
Proof.
  intros Hid Hn Hs Hb Hl. unfold uart_read_udp. rewrite Hid, Hl, Hb.
  destruct (Z.eqb_spec (u_state (udp_port st id)) 0); [done|].
  destruct (Z.eqb_spec (Z.of_nat (length d)) 0); [lia|]. cbn [oget mbind res_bind].
  destruct (Z.ltb_spec (Z.of_nat (length d)) n); [lia|].
  rewrite (load_Ok d 0) by lia. cbn [mbind res_bind].
  destruct (Z.ltb_spec n (Z.of_nat (length d))); [|lia]. by rewrite load_oob by lia.
Qed.

(** What the UDP port makes of received datagrams: one
    datagram read whole comes back intact and leaves the port empty; reading
    only part of it copies the rest from behind the end of the buffer; and of
    two datagrams that arrive before a read, only the first is ever returned. *)
Theorem uart_udp_receive st id d1 d2 n :
  port_ready st id → d1 ≠ [] → d2 ≠ [] → 0 <= n →
  ∃ st1, uart_udp_recv_cb id (Z.of_nat (length d1)) d1 st = Ok st1 ∧
    (if decide (Z.of_nat (length d1) <= n)
     then ∃ st2, uart_read_udp id n st1 = Ok (Z.of_nat (length d1), d1, st2) ∧
            port_ready st2 id
     else uart_read_udp id n st1 = Fault OutOfBounds) ∧
    (Z.of_nat (length d1) <= n →
     (∀ b m, 0 <= m → is_Some (heap_realloc b m)) →
     ∃ st2 st3, uart_udp_recv_cb id (Z.of_nat (length d2)) d2 st1 = Ok st2 ∧
       uart_read_udp id n st2 = Ok (Z.of_nat (length d1), d1, st3) ∧ port_ready st3 id).
Proof.
  intros Hr Hd1 Hd2 Hn. destruct (recv_first st id d1 Hr Hd1) as (st1 & E & Hl & Hp).
  pose proof Hr as (Hid & _ & Hs & _).
  assert (0 < length d1)%nat by (destruct d1; [done|simpl; lia]).
  assert (0 < length d2)%nat by (destruct d2; [done|simpl; lia]).
  exists st1. split; [done|]. split.
  - case_decide.
    + eexists. split; [apply (read_all _ _ _ []); rewrite ?Hp, ?app_nil_r; by try (simpl; lia)|].
      split; [done|]. split; [simpl; by rewrite length_alter|].
      rewrite udp_port_upd by done. simpl. by rewrite Hp.
    + apply (read_part _ _ d1); rewrite ?Hp; by try (simpl; lia).
  - intros Hle Hre. unfold uart_udp_recv_cb. rewrite Hid, Hp.
    cbn [u_state u_recv_len u_recv_buff].
    destruct (Z.ltb_spec (Z.of_nat (length d2)) 0); [lia|].
    destruct (Z.eqb_spec (Z.of_nat (length d2)) 0); [lia|].
    rewrite !Nat2Z.id, load_all. cbn [mbind res_bind].
    destruct (Hre d1 (Z.of_nat (length d1) + Z.of_nat (length d2))) as [b Hb]; [lia|].
    rewrite Hb. pose proof (heap_realloc_length _ _ _ Hb) as Hbl.
    pose proof (heap_realloc_keeps _ _ _ (length d1) Hb) as Hk. rewrite firstn_all in Hk.
    rewrite store_Ok by lia. rewrite Hk, drop_ge by lia. rewrite app_nil_r.
    cbn [mbind res_bind]. eexists _, _. split; [done|]. split.
    + apply (read_all _ _ d1 d2); [done|lia| | |];
        rewrite udp_port_state, udp_port_upd, Hp by done; done.
    + split; [done|]. split; [simpl; by rewrite !length_alter|].
      rewrite udp_port_upd by (try done; simpl; by rewrite length_alter).
      rewrite udp_port_state, udp_port_upd, Hp by done. done.
Qed.

End props.

(** ** Writing *)

(** The sizes of the pieces a write is cut into. *)
Fixpoint piece_sizes (fuel : nat) (n : Z) : list Z :=
  match fuel with
  | O => []
  | S fuel' =>
      if n <=? 0 then [] else if 512 <? n then 512 :: piece_sizes fuel' (n - 512) else [n]
  end.

Lemma write_loop_pieces fuel : ∀ id data n sent,
  n <= Z.of_nat (length data) → n <= 512 * Z.of_nat fuel →
  uart_write_loop fuel true id data n sent
  = Ok (Z.min n 0, sent ++ map (λ k, (id, take (Z.to_nat k) data)) (piece_sizes fuel n)).
Proof.
  induction fuel as [|fuel IH]; intros id data n sent Hn Hf; cbn [uart_write_loop piece_sizes].
  { destruct (Z.leb_spec n 0); [|lia]. rewrite app_nil_r. do 2 f_equal. lia. }
  destruct (Z.leb_spec n 0).
  { rewrite app_nil_r. do 2 f_equal. lia. }
  destruct (Z.ltb_spec 512 n).
  - rewrite load_Ok by lia. cbn [mbind res_bind negb]. rewrite drop_0, IH by lia.
    cbn [map]. rewrite <- app_assoc. cbn [app]. do 2 f_equal. lia.
  - rewrite load_Ok by lia. cbn [mbind res_bind negb]. rewrite drop_0, IH by lia.
    cbn [map]. rewrite !Z.min_r by lia.
    replace (piece_sizes fuel 0) with ([] : list Z) by (by destruct fuel).
    cbn [map]. by rewrite app_nil_r.
Qed.

(** A write on an open port returns 0 whatever it sent.  Up to
    512 bytes go out as one datagram with exactly these bytes; of a longer
    buffer every piece is taken from its start, so the receiver gets the first
    bytes again instead of the rest. *)
Theorem uart_write_udp_repeats id data st :
  bad_port id = false → u_state (udp_port st id) ≠ 0 → data ≠ [] →
  let n := Z.of_nat (length data) in
  ∃ st', uart_write_udp true id data n st = Ok (0, st') ∧ udps st' = udps st ∧
  if decide (n <= 512) then u_sent st' = u_sent st ++ [(id, data)]
  else ∃ more, u_sent st' =
    u_sent st ++ (id, take 512 data) :: (id, take (Z.to_nat (Z.min 512 (n - 512))) data) :: more.
Proof.
  intros Hid Hs Hd n. assert (0 < length data)%nat by (destruct data; [done|simpl; lia]).
  unfold uart_write_udp. rewrite Hid.
  destruct (Z.eqb_spec (u_state (udp_port st id)) 0); [done|].
  assert (0 <= n / 512) by (apply Z.div_pos; lia).
  pose proof (Z.div_mod n 512). pose proof (Z.mod_pos_bound n 512).
  rewrite write_loop_pieces by lia. cbn [mbind res_bind].
  rewrite Z.min_r by lia. eexists. split; [done|]. split; [done|]. cbn [u_sent].
  replace (Z.to_nat (n / 512 + 1)) with (S (Z.to_nat (n / 512))) by lia.
  cbn [piece_sizes]. destruct (Z.leb_spec n 0); [lia|]. case_decide.
  - destruct (Z.ltb_spec 512 n); [lia|]. cbn [map]. unfold n.
    by rewrite Nat2Z.id, firstn_all.
  - destruct (Z.ltb_spec 512 n); [|lia].
    destruct (Z.to_nat (n / 512)) as [|k] eqn:Ek; [lia|]. cbn [piece_sizes map].
    destruct (Z.leb_spec (n - 512) 0); [lia|].
    destruct (Z.ltb_spec 512 (n - 512)); cbn [map].
    + rewrite Z.min_l by lia. eauto.
    + rewrite Z.min_r by lia. eauto.
Qed.

(** ** On concrete ports *)

Definition demo_port : uart_state := (uart_setup_udp 1 uart_init).2.

Lemma demo_port_ready : port_ready demo_port 1.
Proof. by vm_compute. Qed.

Lemma uart_udp_receive_witness :
  (∃ st1 st2, @uart_udp_recv_cb big_heap 1 3 [1; 2; 3] demo_port = Ok st1 ∧
     @uart_read_udp big_heap 1 10 st1 = Ok (3, [1; 2; 3], st2)) ∧
  (∃ st1, @uart_udp_recv_cb big_heap 1 3 [1; 2; 3] demo_port = Ok st1 ∧
     @uart_read_udp big_heap 1 2 st1 = Fault OutOfBounds).
Proof.
  split.
  - destruct (@uart_udp_receive big_heap big_heap_laws big_heap_gives demo_port 1
      [1; 2; 3] [4] 10 demo_port_ready) as (st1 & E & (st2 & Hr & _) & _); [done..|].
    by exists st1, st2.
  - destruct (@uart_udp_receive big_heap big_heap_laws big_heap_gives demo_port 1
      [1; 2; 3] [4] 2 demo_port_ready) as (st1 & E & Hr & _); [done..|].
    by exists st1.
Defined.

Lemma uart_write_udp_repeats_witness :
  ∃ st', uart_write_udp true 1 (replicate 600 7) 600 demo_port = Ok (0, st') ∧
    ∃ more, u_sent st' = (1, replicate 512 7) :: (1, replicate 88 7) :: more.
Proof.
  destruct (uart_write_udp_repeats 1 (replicate 600 7) demo_port) as (st' & E & _ & Hs);
    [done..|]. exists st'. split; [exact E|].
  rewrite decide_False in Hs by (rewrite length_replicate; lia).
  destruct Hs as [more Hs]. exists more. rewrite Hs. by vm_compute.
Defined.
