(* ===== verification/Tp.v ===== *)
(** * The touch panel of port/driver/luat_tp_pc.c

    SDL mouse and finger events become touch events in a ring of eight slots,
    which the touch task reads one by one; a single-event buffer beside the ring
    keeps the last event.  The watch runs on the SDL side, the read on the touch
    task; each takes the lock for every access to the ring. *)

From S2P Require Import Prelude.

(** ** Data *)

Inductive tp_event : Type :=
  | TP_EVENT_TYPE_NONE | TP_EVENT_TYPE_DOWN | TP_EVENT_TYPE_UP | TP_EVENT_TYPE_MOVE.

#[global] Instance tp_event_eq_dec : EqDecision tp_event.
Proof. solve_decision. Defined.

(** [luat_tp_data_t] of the LuatOS core. *)
Record tp_data : Type := TpData {
  tp_ev : tp_event; tp_track_id : Z; tp_x : Z; tp_y : Z; tp_width : Z;
  tp_timestamp : Z;
}.

#[global] Instance tp_data_inhabited : Inhabited tp_data :=
  populate (TpData TP_EVENT_TYPE_NONE 0 0 0 0 0).

(** [tp_pc_state_t], without its lock. *)
Record tp_state : Type := TpState {
  has_event : bool;
  ev : tp_data;
  last_valid_x : Z;
  last_valid_y : Z;
  data_consumed : bool;
  event_queue_size : Z;
  event_queue : list tp_data;
  queue_head : Z;
  queue_tail : Z;
  queue_enabled : bool;
}.

(** The fields of [luat_tp_config_t] used here, with its [tp_data] array. *)
Record tp_config : Type := TpConfig {
  cfg_w : Z; cfg_h : Z; cfg_tp_num : Z; cfg_tp_data : list tp_data;
}.

Definition tp_zero : tp_state :=
  TpState false inhabitant 0 0 false 0 (replicate 8 inhabitant) 0 0 false.

Definition set_ring (q : list tp_data) (h t : Z) (s : tp_state) : tp_state :=
  TpState (has_event s) (ev s) (last_valid_x s) (last_valid_y s) (data_consumed s)
    (event_queue_size s) q h t (queue_enabled s).
Definition set_single (b : bool) (e : tp_data) (s : tp_state) : tp_state :=
  TpState b e (last_valid_x s) (last_valid_y s) (data_consumed s)
    (event_queue_size s) (event_queue s) (queue_head s) (queue_tail s) (queue_enabled s).
Definition set_last (x y : Z) (s : tp_state) : tp_state :=
  TpState (has_event s) (ev s) x y (data_consumed s)
    (event_queue_size s) (event_queue s) (queue_head s) (queue_tail s) (queue_enabled s).
Definition set_consumed (b : bool) (s : tp_state) : tp_state :=
  TpState (has_event s) (ev s) (last_valid_x s) (last_valid_y s) b
    (event_queue_size s) (event_queue s) (queue_head s) (queue_tail s) (queue_enabled s).

(** ** The ring *)

Definition enqueue_event (e : tp_data) (s : tp_state) : Z * tp_state :=
  if negb (queue_enabled s) then (-1, s)
  else
    let next_tail := u8 ((queue_tail s + 1) mod event_queue_size s) in
    let head := if next_tail =? queue_head s
                then u8 ((queue_head s + 1) mod event_queue_size s) else queue_head s in
    (0, set_ring (<[Z.to_nat (queue_tail s) := e]> (event_queue s)) head next_tail s).

Definition dequeue_event (s : tp_state) : option (tp_data * tp_state) :=
  if negb (queue_enabled s) then None
  else if queue_head s =? queue_tail s then None
  else Some (event_queue s !!! Z.to_nat (queue_head s),
             set_ring (event_queue s) (u8 ((queue_head s + 1) mod event_queue_size s))
               (queue_tail s) s).

Definition get_queue_count (s : tp_state) : Z :=
  if negb (queue_enabled s) then 0
  else if queue_head s <=? queue_tail s then queue_tail s - queue_head s
  else event_queue_size s - queue_head s + queue_tail s.

(** ** Events from SDL *)

(** A finger's position is a fraction of the panel; [fx w] is the coordinate
    SDL's float gives on a panel of that size, truncated to an integer. *)
Inductive sdl_event : Type :=
  | SDL_MOUSEBUTTONDOWN (lbtn : bool) (x y : Z)
  | SDL_MOUSEMOTION (lmask : bool) (x y : Z)
  | SDL_MOUSEBUTTONUP (lbtn : bool) (x y : Z)
  | SDL_FINGERDOWN (fx fy : Z → Z)
  | SDL_FINGERMOTION (fx fy : Z → Z)
  | SDL_FINGERUP (fx fy : Z → Z)
  | SDL_OTHER.

Definition in_panel (conf : tp_config) (x y : Z) : bool :=
  (0 <=? x) && (x <? cfg_w conf) && (0 <=? y) && (y <? cfg_h conf).

(** The [switch]: the touch event, if any, and the state with the last valid
    position. *)
Definition tp_translate (conf : tp_config) (ticks : Z) (e : sdl_event) (s : tp_state)
    : option tp_data * tp_state :=
  let mk k x y := TpData k 0 x y 1 ticks in
  match e with
  | SDL_MOUSEBUTTONDOWN lbtn x y =>
      if lbtn then
        let d := mk TP_EVENT_TYPE_DOWN (u16 x) (u16 y) in
        (Some d, set_last (tp_x d) (tp_y d) s)
      else (None, s)
  | SDL_MOUSEMOTION lmask x y =>
      if lmask then
        if (x <? 0) || (cfg_w conf <=? x) || (y <? 0) || (cfg_h conf <=? y)
        then (Some (mk TP_EVENT_TYPE_UP (last_valid_x s) (last_valid_y s)), s)
        else
          let d := mk TP_EVENT_TYPE_MOVE (u16 x) (u16 y) in
          (Some d, set_last (tp_x d) (tp_y d) s)
      else (None, s)
  | SDL_MOUSEBUTTONUP lbtn x y =>
      if lbtn then
        if in_panel conf x y then (Some (mk TP_EVENT_TYPE_UP (u16 x) (u16 y)), s)
        else (Some (mk TP_EVENT_TYPE_UP (last_valid_x s) (last_valid_y s)), s)
      else (None, s)
  | SDL_FINGERDOWN fx fy =>
      let d := mk TP_EVENT_TYPE_DOWN (u16 (fx (cfg_w conf))) (u16 (fy (cfg_h conf))) in
      (Some d, set_last (tp_x d) (tp_y d) s)
  | SDL_FINGERMOTION fx fy =>
      let d := mk TP_EVENT_TYPE_MOVE (u16 (fx (cfg_w conf))) (u16 (fy (cfg_h conf))) in
      (Some d, set_last (tp_x d) (tp_y d) s)
  | SDL_FINGERUP fx fy =>
      (Some (mk TP_EVENT_TYPE_UP (u16 (fx (cfg_w conf))) (u16 (fy (cfg_h conf)))), s)
  | SDL_OTHER => (None, s)
  end.

(** The end of the watch, for a touch event: whether the touch task is woken,
    and the new state. *)
Definition tp_post (d : tp_data) (s : tp_state) : bool * tp_state :=
  if queue_enabled s then
    let '(result, s) := enqueue_event d s in
    if result =? 0 then (true, set_single true d s) else (false, s)
  else (true, set_single true d s).

Definition tp_sdl_watch (conf : tp_config) (ticks : Z) (e : sdl_event) (s : tp_state)
    : bool * tp_state :=
  match tp_translate conf ticks e s with
  | (None, s) => (false, s)
  | (Some d, s) => tp_post d s
  end.

(** ** The driver's operations *)

(** [touch_max] is LUAT_TP_TOUCH_MAX of the LuatOS core, the size of [tp_data]. *)
Definition luat_tp_pc_init (touch_max : nat) (conf : tp_config) : Z * tp_config * tp_state :=
  (0,
   TpConfig (cfg_w conf) (cfg_h conf)
     (if cfg_tp_num conf =? 0 then 1 else cfg_tp_num conf)
     (imap (λ i _, TpData TP_EVENT_TYPE_NONE (u8 (Z.of_nat i)) 0 0 1 0)
        (replicate touch_max (inhabitant : tp_data))),
   TpState false inhabitant 0 0 true 8 (replicate 8 inhabitant) 0 0 true).

(** The event a read delivers. *)
Definition next_event (s : tp_state) : option (tp_data * tp_state) :=
  let single := if has_event s then Some (ev s, set_single false (ev s) s) else None in
  if queue_enabled s then
    match dequeue_event s with Some r => Some r | None => single end
  else single.

Definition clear_event (d : tp_data) : tp_data :=
  TpData TP_EVENT_TYPE_NONE (tp_track_id d) (tp_x d) (tp_y d) (tp_width d) (tp_timestamp d).

Definition luat_tp_pc_read (touch_max : nat) (conf : tp_config) (s : tp_state)
    : tp_config * tp_state :=
  match next_event s with
  | Some (d, s) =>
      let data := <[0%nat := d]> (cfg_tp_data conf) in
      let data := if (1 <? cfg_tp_num conf) && (1 <? Z.of_nat touch_max)
                  then <[1%nat := d]> data else data in
      (TpConfig (cfg_w conf) (cfg_h conf) (cfg_tp_num conf) data, set_consumed false s)
  | None =>
      if data_consumed s then
        (TpConfig (cfg_w conf) (cfg_h conf) (cfg_tp_num conf)
           (imap (λ i d, if Z.of_nat i <? cfg_tp_num conf then clear_event d else d)
              (cfg_tp_data conf)), s)
      else (conf, s)
  end.

Definition luat_tp_pc_read_done (s : tp_state) : tp_state := set_consumed true s.

Definition luat_tp_pc_deinit (s : tp_state) : tp_state :=
  if queue_enabled s then
    TpState (has_event s) (ev s) (last_valid_x s) (last_valid_y s) (data_consumed s)
      (event_queue_size s) (event_queue s) 0 0 false
  else s.

(** ** The ring is a queue of seven *)

Record ring_ok (s : tp_state) : Prop := {
  ro_enabled : queue_enabled s = true;
  ro_size : event_queue_size s = 8;
  ro_slots : length (event_queue s) = 8%nat;
  ro_head : 0 <= queue_head s < 8;
  ro_tail : 0 <= queue_tail s < 8;
}.

(** The slots from head to tail. *)
Definition ring_len (s : tp_state) : nat := Z.to_nat ((queue_tail s - queue_head s) mod 8).
Definition ring (s : tp_state) : list tp_data :=
  map (λ i, event_queue s !!! Z.to_nat ((queue_head s + Z.of_nat i) mod 8))
    (seq 0 (ring_len s)).

(** The reference: at most seven events, a new one pushes out the oldest. *)
Definition ref_push (e : tp_data) (l : list tp_data) : list tp_data :=
  (if decide (length l = 7%nat) then tail l else l) ++ [e].

Lemma ring_length s : length (ring s) = ring_len s.
Proof. unfold ring. by rewrite length_map, length_seq. Qed.

(** The eight positions of an index and the eight slots. *)
Lemma index_cases z : 0 <= z < 8 → z ∈ [0; 1; 2; 3; 4; 5; 6; 7].
Proof. intros. rewrite !elem_of_cons. lia. Qed.

Ltac ring_cases s :=
  match goal with
  | H : ring_ok s |- _ =>
      let He := fresh in let Hs := fresh in let Hl := fresh in
      let Hh := fresh in let Ht := fresh in
      destruct H as [He Hs Hl Hh%index_cases Ht%index_cases];
      destruct s as [? ? ? ? ? sz q h t en]; simpl in *; subst en sz;
      do 9 (destruct q as [|? q]; try discriminate Hl); clear Hl;
      rewrite !elem_of_cons, elem_of_nil in Hh, Ht;
      destruct_or! Hh; destruct_or! Ht; try done; subst h t
  end.

Lemma enqueue_ring e s :
  ring_ok s → ∃ s', enqueue_event e s = (0, s') ∧ ring_ok s' ∧
    ring s' = ref_push e (ring s) ∧ has_event s' = has_event s ∧ ev s' = ev s.
Proof.
  intros H. ring_cases s; (eexists; split; [reflexivity|]; split; [by split|]; done).
Qed.

Lemma dequeue_ring s :
  ring_ok s →
  match dequeue_event s with
  | Some (e, s') => ring_ok s' ∧ ring s = e :: ring s' ∧
      has_event s' = has_event s ∧ ev s' = ev s
  | None => ring s = []
  end.
Proof.
  intros H. ring_cases s; try done; (split; [by split|]; done).
Qed.

Lemma ring_count s : ring_ok s → get_queue_count s = Z.of_nat (length (ring s)).
Proof. intros H. ring_cases s; done. Qed.

(** ** Sessions *)

(** A sequence of touch events ([Some]) and reads ([None]), with what each read
    delivered. *)
Fixpoint tp_session (touch_max : nat) (acts : list (option tp_data)) (conf : tp_config)
    (s : tp_state) : list (option tp_data) :=
  match acts with
  | [] => []
  | Some d :: acts' => tp_session touch_max acts' conf (tp_post d s).2
  | None :: acts' =>
      let '(conf', s') := luat_tp_pc_read touch_max conf s in
      (fst <$> next_event s) :: tp_session touch_max acts' conf' s'
  end.

(** The reference: the queue of seven, and the last event once more. *)
Fixpoint tp_ref (acts : list (option tp_data)) (q : list tp_data) (last : option tp_data)
    : list (option tp_data) :=
  match acts, q with
  | [], _ => []
  | Some d :: acts', _ => tp_ref acts' (ref_push d q) (Some d)
  | None :: acts', d :: q' => Some d :: tp_ref acts' q' last
  | None :: acts', [] => last :: tp_ref acts' [] None
  end.

Definition single (s : tp_state) : option tp_data := if has_event s then Some (ev s) else None.

Lemma tp_post_ring d s :
  ring_ok s → ring_ok (tp_post d s).2 ∧ ring (tp_post d s).2 = ref_push d (ring s) ∧
    single (tp_post d s).2 = Some d.
Proof.
  intros H. unfold tp_post. rewrite (ro_enabled _ H).
  destruct (enqueue_ring d s H) as (s' & -> & Hok & Hr & _). cbn [Z.eqb snd].
  split; [by destruct Hok|]. done.
Qed.

(** C30 (refinement).  Touch events reach the task through the ring as through a
    queue of seven that drops the oldest when full: reads deliver the queued
    events in order, and when the queue is empty the last event once more, then
    nothing. *)
Theorem tp_session_refines touch_max acts : ∀ conf s,
  ring_ok s → tp_session touch_max acts conf s = tp_ref acts (ring s) (single s).
Proof.
  induction acts as [|[d|] acts IH]; intros conf s H; [done| |]; cbn [tp_session tp_ref].
  - destruct (tp_post_ring d s H) as (Hok & Hr & Hs). rewrite IH by done. by rewrite Hr, Hs.
  - unfold luat_tp_pc_read, next_event. rewrite (ro_enabled _ H).
    pose proof (dequeue_ring s H) as Hd.
    destruct (dequeue_event s) as [[d s']|].
    + destruct Hd as (Hok & -> & Hh & He). cbn [fst fmap option_fmap option_map].
      rewrite IH by (by destruct Hok). unfold single. cbn [set_consumed has_event ev].
      by rewrite Hh, He.
    + rewrite Hd. unfold single. destruct (has_event s) eqn:Eh.
      * cbn [fst fmap option_fmap option_map].
        rewrite IH by (by destruct H). by rewrite <- Hd.
      * destruct (data_consumed s); cbn [fmap option_fmap option_map];
          rewrite IH by done; rewrite Hd; unfold single; by rewrite Eh.
Qed.

(** The state [luat_tp_pc_init] leaves is an empty ring. *)
Lemma tp_init_ring touch_max conf : ring_ok (luat_tp_pc_init touch_max conf).2.
Proof. by split. Qed.

Definition demo_touch (x : Z) : tp_data := TpData TP_EVENT_TYPE_MOVE 0 x 5 1 100.

Lemma tp_session_refines_witness :
  let s := (luat_tp_pc_init 10 (TpConfig 480 320 1 [])).2 in
  tp_session 10 [Some (demo_touch 1); Some (demo_touch 2); None; None; None; None]
    (TpConfig 480 320 1 []) s
  = [Some (demo_touch 1); Some (demo_touch 2); Some (demo_touch 2); None].
Proof.
  intros s. rewrite (tp_session_refines 10 _ _ s); [by vm_compute|].
  apply (tp_init_ring 10 (TpConfig 480 320 1 [])).
Defined.
