(* ===== verification/Heap.v ===== *)
(** * The heaps of port/luat_malloc_mini.c

    Three pools: the system heap in a 1 MiB block of static RAM, the 2 MiB
    PSRAM pool, and the Lua heap.  The pool allocator itself (bget) belongs to
    the LuatOS core and is a parameter; pointers are machine addresses, which
    the range check of [luat_heap_free] cuts to 32 bits. *)

From S2P Require Import Prelude.

(** The pool allocator: allocation of zeroed memory, resizing, release, and its
    statistics (allocated, free, largest free; maximum so far). *)
Class Bget (P : Type) : Type := {
  luat_bgetz : P → Z → option Z * P;
  luat_bgetr : P → option Z → Z → option Z * P;
  luat_brel : P → option Z → P;
  luat_bstats : P → Z * Z * Z;
  luat_bstatsmaxget : P → Z;
  luat_bpool_init : Z → Z → P;     (* a pool on a block: its address and size *)
}.

Inductive heap_type : Type := LUAT_HEAP_SRAM | LUAT_HEAP_PSRAM.

(** The pools with the addresses of their blocks ([None]: not yet made). *)
Record heaps (P : Type) : Type := Heaps {
  sram_ptr : option Z; sram_bget : P;
  psram_ptr : option Z; psram_bget : P;
  lua_bget : P;
}.
Arguments Heaps {P} _ _ _ _ _.
Arguments sram_ptr {P} _.
Arguments sram_bget {P} _.
Arguments psram_ptr {P} _.
Arguments psram_bget {P} _.
Arguments lua_bget {P} _.

Definition set_sram {P} (p : P) (h : heaps P) : heaps P :=
  Heaps (sram_ptr h) p (psram_ptr h) (psram_bget h) (lua_bget h).
Definition set_psram {P} (p : P) (h : heaps P) : heaps P :=
  Heaps (sram_ptr h) (sram_bget h) (psram_ptr h) p (lua_bget h).
Definition set_lua {P} (p : P) (h : heaps P) : heaps P :=
  Heaps (sram_ptr h) (sram_bget h) (psram_ptr h) (psram_bget h) p.

Section heap.
Context `{Platform} {P : Type} `{Bget P}.

(** ** System memory *)

Definition luat_heap_malloc (len : Z) (h : heaps P) : option Z * heaps P :=
  let '(r, p) := luat_bgetz (sram_bget h) len in (r, set_sram p h).

(** The range check of [luat_heap_free], on 32-bit unsigned addresses. *)
Definition in_sram (sram ptr : Z) : bool :=
  let addr := u32 ptr in
  negb ((addr <? u32 sram) || (u32 (u32 sram + 1024 * 1024) <=? addr)).

Definition luat_heap_free (ptr : option Z) (h : heaps P) : heaps P :=
  match ptr with
  | None => h
  | Some a =>
      if in_sram (default 0 (sram_ptr h)) a
      then set_sram (luat_brel (sram_bget h) (Some a)) h else h
  end.

Definition luat_heap_realloc (ptr : option Z) (len : Z) (h : heaps P)
    : option Z * heaps P :=
  let '(r, p) := luat_bgetr (sram_bget h) ptr len in (r, set_sram p h).

(** The product is computed in [size_t]; the memory is zeroed once more. *)
Definition luat_heap_calloc (count _size : Z) (h : heaps P) : option Z * heaps P :=
  luat_heap_malloc (wrapu sizet_bits (count * _size)) h.

Definition luat_heap_zalloc (_size : Z) (h : heaps P) : option Z * heaps P :=
  luat_heap_malloc _size h.

(** ** Lua memory *)

Definition luat_heap_alloc (ptr : option Z) (osize nsize : Z) (h : heaps P)
    : option Z * heaps P :=
  if negb (nsize =? 0) then
    let '(ptmp, p) := luat_bgetr (lua_bget h) ptr nsize in
    let h := set_lua p h in
    match ptmp with
    | None => if nsize <=? osize then (ptr, h) else (None, h)
    | Some _ => (ptmp, h)
    end
  else (None, set_lua (luat_brel (lua_bget h) ptr) h).

(** Total, used and maximum. *)
Definition luat_meminfo_luavm (h : heaps P) : Z * Z * Z :=
  let '(curalloc, totfree, _) := luat_bstats (lua_bget h) in
  (curalloc + totfree, curalloc, luat_bstatsmaxget (lua_bget h)).

Definition luat_meminfo_sys (h : heaps P) : Z * Z * Z :=
  let '(curalloc, totfree, maxfree) := luat_bstats (sram_bget h) in
  (curalloc + totfree, curalloc, maxfree).

(** ** Memory by type *)

(** [block] is the result of [malloc]. *)
Definition luat_heap_opt_init (type : heap_type) (block : Z) (h : heaps P) : heaps P :=
  match type with
  | LUAT_HEAP_PSRAM =>
      match psram_ptr h with
      | Some _ => h
      | None => Heaps (sram_ptr h) (sram_bget h) (Some block)
                  (luat_bpool_init block (2 * 1024 * 1024)) (lua_bget h)
      end
  | LUAT_HEAP_SRAM =>
      match sram_ptr h with
      | Some _ => h
      | None => Heaps (Some block) (luat_bpool_init block (1024 * 1024))
                  (psram_ptr h) (psram_bget h) (lua_bget h)
      end
  end.

Definition luat_heap_opt_malloc (type : heap_type) (len : Z) (h : heaps P)
    : option Z * heaps P :=
  match type with
  | LUAT_HEAP_PSRAM => let '(r, p) := luat_bgetz (psram_bget h) len in (r, set_psram p h)
  | LUAT_HEAP_SRAM => luat_heap_malloc len h
  end.

Definition luat_heap_opt_free (type : heap_type) (ptr : option Z) (h : heaps P) : heaps P :=
  match type with
  | LUAT_HEAP_PSRAM => set_psram (luat_brel (psram_bget h) ptr) h
  | LUAT_HEAP_SRAM => luat_heap_free ptr h
  end.

Definition luat_heap_opt_realloc (type : heap_type) (ptr : option Z) (len : Z)
    (h : heaps P) : option Z * heaps P :=
  match type with
  | LUAT_HEAP_PSRAM =>
      let '(r, p) := luat_bgetr (psram_bget h) ptr len in (r, set_psram p h)
  | LUAT_HEAP_SRAM => luat_heap_realloc ptr len h
  end.

Definition luat_heap_opt_zalloc (type : heap_type) (size : Z) (h : heaps P)
    : option Z * heaps P := luat_heap_opt_malloc type size h.

Definition luat_heap_opt_calloc (type : heap_type) (count size : Z) (h : heaps P)
    : option Z * heaps P := luat_heap_opt_zalloc type (wrapu sizet_bits (count * size)) h.

Definition luat_meminfo_opt_sys (type : heap_type) (h : heaps P) : Z * Z * Z :=
  match type with
  | LUAT_HEAP_PSRAM =>
      let '(curalloc, totfree, _) := luat_bstats (psram_bget h) in
      (curalloc + totfree, curalloc, luat_bstatsmaxget (psram_bget h))
  | LUAT_HEAP_SRAM => luat_meminfo_sys h
  end.

(** ** Properties *)

(** The check accepts the block of the pool, if it does not reach the end of a
    32-bit address range. *)
Lemma in_sram_spec sram k :
  0 <= sram → 0 <= k < 1024 * 1024 →
  in_sram sram (sram + k) = bool_decide (u32 sram + 1024 * 1024 < 2 ^ 32).
Proof.
  intros Hs Hk. unfold in_sram, wrapu.
  pose proof (Z.mod_pos_bound sram (2 ^ 32)) as Ha.
  rewrite <- (Zplus_mod_idemp_l sram k). set (a := sram mod 2 ^ 32) in *.
  destruct (decide (a + 1024 * 1024 < 2 ^ 32)) as [Hlt|Hge].
  - rewrite bool_decide_eq_true_2 by done.
    rewrite !Z.mod_small by lia. lia.
  - rewrite bool_decide_eq_false_2 by done.
    replace ((a + 1024 * 1024) mod 2 ^ 32) with (a + 1024 * 1024 - 2 ^ 32).
    2: { rewrite <- (Z.mod_small (a + 1024 * 1024 - 2 ^ 32) (2 ^ 32)) by lia.
         rewrite <- (Z.mod_add (a + 1024 * 1024 - 2 ^ 32) 1 (2 ^ 32)) by lia. f_equal. lia. }
    destruct (decide (a + k < 2 ^ 32)).
    + rewrite (Z.mod_small (a + k)) by lia. lia.
    + replace ((a + k) mod 2 ^ 32) with (a + k - 2 ^ 32).
      2: { rewrite <- (Z.mod_small (a + k - 2 ^ 32) (2 ^ 32)) by lia.
           rewrite <- (Z.mod_add (a + k - 2 ^ 32) 1 (2 ^ 32)) by lia. f_equal. lia. }
      lia.
Qed.

(** Freeing a block of the system pool releases it exactly when
    the pool's block, seen through 32 bits, ends below 4 GiB; where it ends at
    or beyond (the low halves of a 64-bit address wrap), nothing is ever
    released.  A null pointer is ignored. *)
Theorem heap_free_releases h sram k :
  sram_ptr h = Some sram → 0 <= sram → 0 <= k < 1024 * 1024 →
  luat_heap_free None h = h ∧
  luat_heap_free (Some (sram + k)) h =
    if decide (u32 sram + 1024 * 1024 < 2 ^ 32)
    then set_sram (luat_brel (sram_bget h) (Some (sram + k))) h else h.
Proof.
  intros Hp Hs Hk. split; [done|]. unfold luat_heap_free. rewrite Hp. simpl default.
  rewrite in_sram_spec by done. case_bool_decide; by rewrite ?decide_True, ?decide_False by done.
Qed.

(** The Lua allocator keeps Lua's contract: a new size of zero
    frees and returns null, and shrinking a block never fails, even when the
    pool has nothing to give: the old block is kept. *)
Theorem lua_alloc_shrink_never_fails h a osize nsize :
  (∃ h', luat_heap_alloc (Some a) osize 0 h = (None, h') ∧
     lua_bget h' = luat_brel (lua_bget h) (Some a)) ∧
  (0 < nsize <= osize →
   ∃ b h', luat_heap_alloc (Some a) osize nsize h = (Some b, h') ∧
     ((luat_bgetr (lua_bget h) (Some a) nsize).1 = None → b = a)).
Proof.
  split; [by eexists|]. intros Hn. unfold luat_heap_alloc.
  destruct (Z.eqb_spec nsize 0); [lia|]. simpl.
  destruct (luat_bgetr (lua_bget h) (Some a) nsize) as [[b|] p]; simpl.
  - by eexists _, _.
  - destruct (Z.leb_spec nsize osize); [|lia]. by eexists _, _.
Qed.

End heap.

(** ** On a concrete pool *)

(** A pool that hands out the next address and remembers what was released. *)
Definition toy_pool : Type := Z * list Z.
Definition toy_bget : Bget toy_pool := {|
  luat_bgetz p n := (Some p.1, (p.1 + n, p.2));
  luat_bgetr p a n := (None, p);
  luat_brel p a := (p.1, match a with Some x => x :: p.2 | None => p.2 end);
  luat_bstats p := (0, 0, 0);
  luat_bstatsmaxget p := 0;
  luat_bpool_init a n := (a, []);
|}.

Definition toy_heaps (base : Z) : heaps toy_pool :=
  Heaps (Some base) (base, []) None (0, []) (0, []).

(** The same block of 64-bit memory one page apart: freed, and leaked. *)
Lemma heap_free_releases_witness :
  sram_bget (@luat_heap_free _ toy_bget (Some 0x7F0012345678) (toy_heaps 0x7F0012345600))
    = (0x7F0012345600, [0x7F0012345678]) ∧
  @luat_heap_free _ toy_bget (Some 0x7F00FFFF0010) (toy_heaps 0x7F00FFFF0000)
    = toy_heaps 0x7F00FFFF0000.
Proof.
  split.
  - pose proof (proj2 (@heap_free_releases _ toy_bget (toy_heaps 0x7F0012345600)
      0x7F0012345600 0x78 eq_refl ltac:(lia) ltac:(lia))) as E.
    etransitivity; [apply (f_equal sram_bget E)|]. by vm_compute.
  - pose proof (proj2 (@heap_free_releases _ toy_bget (toy_heaps 0x7F00FFFF0000)
      0x7F00FFFF0000 0x10 eq_refl ltac:(lia) ltac:(lia))) as E.
    etransitivity; [exact E|]. by vm_compute.
Defined.

Lemma lua_alloc_shrink_never_fails_witness :
  ∃ b h', @luat_heap_alloc _ toy_bget (Some 0x100) 64 32 (toy_heaps 0) = (Some b, h') ∧ b = 0x100.
Proof.
  destruct (proj2 (@lua_alloc_shrink_never_fails _ toy_bget (toy_heaps 0) 0x100 64 32))
    as (b & h' & E & Hb); [lia|].
  exists b, h'. split; [exact E|]. by apply Hb.
Defined.
