(* ===== verification/Fskv.v ===== *)
(** * Key-value store and memory block devices

    port/luat_fskv_pc.c keeps key-value pairs as files of a littlefs file system
    on a 64 KiB array; port/luat_fs_mini.c has a second such device of 128 KiB
    for the /lfs2 directory.  littlefs is not part of the sources: it is a class
    of operations with the laws its documentation gives, and the block devices
    below are an interface of their own, which both arrays implement. *)

From S2P Require Import Prelude.

(** ** Block devices *)

(** The three callbacks of [lfs_config] that touch the storage; [sync] does
    nothing on both devices. *)
Class BlockDevice : Type := {
  bd_blocks : Z;
  bd_fill : Z;                       (* what an erased byte reads as *)
  bd_read : list Z → Z → Z → Z → res (list Z);
  bd_prog : list Z → Z → Z → list Z → res (list Z);
  bd_erase : list Z → Z → res (list Z);
}.

(** An access of [size] bytes at [off] of a block that stays inside it. *)
Definition in_block `{BlockDevice} (block off size : Z) : Prop :=
  0 <= block < bd_blocks ∧ 0 <= off ∧ 0 <= size ∧ off + size <= 4096.

(** What littlefs needs of a device. *)
Class BlockDeviceLaws `{BlockDevice} : Prop := {
  bd_prog_read : ∀ m block off d,
    Z.of_nat (length m) = bd_blocks * 4096 → in_block block off (Z.of_nat (length d)) →
    ∃ m', bd_prog m block off d = Ok m' ∧ length m' = length m ∧
      bd_read m' block off (Z.of_nat (length d)) = Ok d;
  bd_prog_other : ∀ m block off d m' block' off' size,
    Z.of_nat (length m) = bd_blocks * 4096 → in_block block off (Z.of_nat (length d)) →
    in_block block' off' size →
    block ≠ block' ∨ off' + size <= off ∨ off + Z.of_nat (length d) <= off' →
    bd_prog m block off d = Ok m' →
    bd_read m' block' off' size = bd_read m block' off' size;
  bd_erase_read : ∀ m block off size,
    Z.of_nat (length m) = bd_blocks * 4096 → in_block block off size →
    ∃ m', bd_erase m block = Ok m' ∧ length m' = length m ∧
      bd_read m' block off size = Ok (replicate (Z.to_nat size) bd_fill) ∧
      ∀ block' off' size', block' ≠ block → in_block block' off' size' →
        bd_read m' block' off' size' = bd_read m block' off' size';
}.

(** *** port/luat_fskv_pc.c *)

Definition block_device_read (fskv_buff : list Z) (block off size : Z) : res (list Z) :=
  load fskv_buff (Z.to_nat (block * 4096 + off)) (Z.to_nat size).
Definition block_device_prog (fskv_buff : list Z) (block off : Z) (buffer : list Z)
    : res (list Z) :=
  store fskv_buff (Z.to_nat (block * 4096 + off)) buffer.
Definition block_device_erase (fskv_buff : list Z) (block : Z) : res (list Z) :=
  store fskv_buff (Z.to_nat (block * 4096)) (replicate 4096 0).
Definition block_device_sync : Z := 0.

Definition fskv_device : BlockDevice := {|
  bd_blocks := 64 * 1024 / 4096; bd_fill := 0; bd_read := block_device_read;
  bd_prog := block_device_prog; bd_erase := block_device_erase;
|}.

(** *** port/luat_fs_mini.c *)

Definition mem_read (lfs_mem_buff : list Z) (block off size : Z) : res (list Z) :=
  load lfs_mem_buff (Z.to_nat (block * 4096 + off)) (Z.to_nat size).
Definition mem_prog (lfs_mem_buff : list Z) (block off : Z) (buffer : list Z)
    : res (list Z) :=
  store lfs_mem_buff (Z.to_nat (block * 4096 + off)) buffer.
Definition mem_erase (lfs_mem_buff : list Z) (block : Z) : res (list Z) :=
  store lfs_mem_buff (Z.to_nat (block * 4096)) (replicate 4096 0xFF).
Definition mem_sync : Z := 0.

Definition lfs2_device : BlockDevice := {|
  bd_blocks := 128 * 1024 / 4096; bd_fill := 0xFF; bd_read := mem_read;
  bd_prog := mem_prog; bd_erase := mem_erase;
|}.

(** The laws for an array device, whatever its size and erased value. *)
Section array.
Context (n fill : Z) (Hn : 0 < n).

Definition array_device : BlockDevice := {|
  bd_blocks := n; bd_fill := fill; bd_read := block_device_read;
  bd_prog := block_device_prog;
  bd_erase m block := store m (Z.to_nat (block * 4096)) (replicate 4096 fill);
|}.

Lemma array_block_room (m : list Z) block off size :
  Z.of_nat (length m) = n * 4096 → @in_block array_device block off size →
  (Z.to_nat (block * 4096 + off) + Z.to_nat size <= length m)%nat.
Proof. unfold in_block. simpl. intros ? (?&?&?&?). nia. Qed.

Lemma array_device_laws : @BlockDeviceLaws array_device.
Proof.
  split; cbn [bd_blocks bd_fill bd_prog bd_read bd_erase array_device].
  - intros m block off d Hm Hin. unfold block_device_prog, block_device_read.
    pose proof (array_block_room _ _ _ _ Hm Hin) as Hroom. rewrite Nat2Z.id in *.
    destruct (store_cases m (Z.to_nat (block * 4096 + off)) d)
      as [(m' & E & Hl & _)|[_ ?]]; [|lia].
    exists m'. split; [done|]. split; [done|]. by apply (store_load _ _ _ _ E).
  - intros m block off d m' block' off' size Hm (?&?&?&?) (?&?&?&?) Hdis E.
    unfold block_device_prog, block_device_read in *.
    apply (store_load_ne _ _ _ _ _ _ E). simpl in *.
    assert (block < block' ∨ block = block' ∨ block' < block) as [?|[->|?]] by lia; nia.
  - intros m block off size Hm Hin. pose proof Hin as (Hb&?&?&?). simpl in Hb.
    pose proof (array_block_room m block 0 4096 Hm) as Hroom.
    destruct (store_cases m (Z.to_nat (block * 4096)) (replicate 4096 fill))
      as [(m' & E & Hl & _)|[_ Hbad]].
    2: { rewrite length_replicate in Hbad.
         assert (@in_block array_device block 0 4096) as Hin' by (split; simpl; lia).
         specialize (Hroom Hin'). lia. }
    exists m'. split; [done|]. split; [done|]. unfold block_device_read. split.
    + pose proof (load_inv _ _ _ _ (store_load _ _ _ _ E)) as [El Hend].
      rewrite length_replicate in El, Hend. rewrite load_Ok by lia. f_equal.
      replace (Z.to_nat (block * 4096 + off))
        with (Z.to_nat (block * 4096) + Z.to_nat off)%nat by lia.
      rewrite <- drop_drop.
      replace (take (Z.to_nat size) (drop (Z.to_nat off) (drop (Z.to_nat (block * 4096)) m')))
        with (take (Z.to_nat size) (drop (Z.to_nat off)
               (take 4096 (drop (Z.to_nat (block * 4096)) m')))).
      * rewrite El, drop_replicate, take_replicate. f_equal. lia.
      * rewrite skipn_firstn_comm, take_take. f_equal. lia.
    + intros block' off' size' Hne (?&?&?&?). cbn [bd_blocks array_device] in *.
      apply (store_load_ne _ _ _ _ _ _ E). rewrite length_replicate.
      assert (block < block' ∨ block' < block) as [?|?] by lia; nia.
Qed.

End array.

(** Both memory devices implement the block device littlefs
    relies on, for every access inside a block: what was programmed is read
    back, programming and erasing change nothing else, an erased block reads as
    its fill byte, and no access leaves the array. *)
Theorem memory_devices_implement :
  @BlockDeviceLaws fskv_device ∧ @BlockDeviceLaws lfs2_device.
Proof. split; by apply array_device_laws. Qed.

(** ** littlefs, as the key-value store uses it *)

(** [L] is the state of a file system and [F] that of an [lfs_file_t]; a call that
    takes either returns the one it leaves.  Directory entries come with their position
    and whether they are regular files. *)
Class Lfs (L F : Type) : Type := {
  lfs_mount : L → Z * L;
  lfs_format : L → Z * L;
  lfs_remove : L → list Z → Z * L;
  lfs_open_write : L → list Z → Z * L * F;   (* WRONLY | CREAT | TRUNC *)
  lfs_open_read : L → list Z → Z * L * F;    (* RDONLY *)
  lfs_file_write : L → F → list Z → Z * L * F;
  lfs_file_read : L → F → Z → Z * list Z * L * F;
  lfs_file_size : L → F → Z;
  lfs_file_close : L → F → Z * L;
  lfs_dir_open : L → Z;
  lfs_dir_seek : L → Z → Z;
  lfs_dir_read : L → Z → option (list Z * bool);
  lfs_fs_size : L → Z;
}.

(** The documented behaviour.  [lfs_path] is the file a path names, which several paths
    may do.  [contents] are the files of a mounted file system none of whose files is
    open; [reading l f m d pos] says that of the file system with contents [m] the file
    with the bytes [d] is open in [f], for reading, at position [pos].  [room]: a file
    of that path and these bytes can be created, written and closed; [removable]: there
    is room for what a removal records; [memory]: the heap has the buffers littlefs
    takes for an open file or a mounted file system. *)
Class LfsLaws (L F : Type) `{Lfs L F} : Type := {
  lfs_path : list Z → list Z;
  contents : L → option (gmap (list Z) (list Z));
  reading : L → F → gmap (list Z) (list Z) → list Z → nat → Prop;
  room : L → list Z → list Z → Prop;
  removable : L → list Z → Prop;
  memory : L → Prop;
  lfs_format_ok : ∀ l, memory l → ∃ l1 l2,
    lfs_format l = (0, l1) ∧ lfs_mount l1 = (0, l2) ∧ contents l2 = Some ∅;
  lfs_remove_ok : ∀ l m k, contents l = Some m → removable l k →
    contents (lfs_remove l k).2 = Some (delete (lfs_path k) m);
  lfs_write_ok : ∀ l m k d, contents l = Some m → room l k d → ∃ l1 f1 l2 f2 l3,
    lfs_open_write l k = (0, l1, f1) ∧
    lfs_file_write l1 f1 d = (Z.of_nat (length d), l2, f2) ∧
    lfs_file_close l2 f2 = (0, l3) ∧ contents l3 = Some (<[lfs_path k := d]> m);
  lfs_open_missing : ∀ l m k, contents l = Some m → m !! lfs_path k = None → ∃ r l1 f,
    lfs_open_read l k = (r, l1, f) ∧ r ≠ 0 ∧ contents l1 = Some m;
  lfs_open_ok : ∀ l m k d, contents l = Some m → m !! lfs_path k = Some d → memory l →
    ∃ l1 f, lfs_open_read l k = (0, l1, f) ∧ reading l1 f m d 0;
  lfs_size_ok : ∀ l f m d pos, reading l f m d pos → lfs_file_size l f = Z.of_nat (length d);
  lfs_read_ok : ∀ l f m d pos n, reading l f m d pos → 0 <= n < 2 ^ 31 →
    let got := take (Z.to_nat n) (drop pos d) in
    ∃ l1 f1, lfs_file_read l f n = (Z.of_nat (length got), got, l1, f1) ∧
      reading l1 f1 m d (pos + length got);
  lfs_close_ok : ∀ l f m d pos, reading l f m d pos →
    contents (lfs_file_close l f).2 = Some m;
}.

Section fskv.
Context {L F : Type} `{Lfs L F}.

(** ** Operations of port/luat_fskv_pc.c *)

(** Mount, and format first if that fails.  (The configuration is constant.) *)
Definition luat_fskv_init (l : L) : Z * L :=
  let '(ret, l) := lfs_mount l in
  if negb (ret =? 0) then
    let '(ret, l) := lfs_format l in
    if negb (ret =? 0) then (ret, l)
    else
      let '(ret, l) := lfs_mount l in
      if negb (ret =? 0) then (ret, l) else (0, l)
  else (0, l).

Definition luat_fskv_del (key : list Z) (l : L) : Z * L :=
  let '(_, l) := lfs_remove l key in (0, l).

Definition luat_fskv_set (key data : list Z) (l : L) : Z * L :=
  let '(ret, l, fd) := lfs_open_write l key in
  if negb (ret =? 0) then (-1, l)
  else
    let '(ret, l, fd) := lfs_file_write l fd data in
    let '(ret2, l) := lfs_file_close l fd in
    (Z.lor ret ret2, l).

Definition luat_fskv_get (key : list Z) (len : Z) (l : L) : Z * list Z * L :=
  let '(ret, l, fd) := lfs_open_read l key in
  if negb (ret =? 0) then (0, [], l)
  else
    let '(ret, d, l, fd) := lfs_file_read l fd len in
    let '(_, l) := lfs_file_close l fd in
    (if 0 <? ret then ret else 0, d, l).

Definition luat_fskv_clear (l : L) : Z * L :=
  let '(ret, l) := lfs_format l in
  if negb (ret =? 0) then (ret, l)
  else
    let '(ret, l) := lfs_mount l in
    if negb (ret =? 0) then (ret, l) else (0, l).

(** The loop over the directory: regular files counted from a position. *)
Fixpoint count_entries (fuel : nat) (l : L) (pos : Z) : res Z :=
  match fuel with
  | O => Fault OutOfFuel
  | S fuel' =>
      match lfs_dir_read l pos with
      | None => Ok 0
      | Some (_, reg) =>
          n ← count_entries fuel' l (pos + 1);
          Ok (if reg : bool then 1 + n else n)
      end
  end.

(** Used bytes, total bytes and number of keys; [entries] bounds the directory. *)
Definition luat_fskv_stat (entries : nat) (l : L) : res (Z * Z * Z * Z) :=
  let used := lfs_fs_size l * 4096 in
  if negb (lfs_dir_open l =? 0) then Ok (-1, used, 64 * 1024, 0)
  else n ← count_entries (S entries) l 0; Ok (0, used, 64 * 1024, n).

(** [buff] is the caller's buffer; values of 2 to 255 bytes are read into it, though
    the parameter is declared with four bytes. *)
Definition luat_fskv_size (key buff : list Z) (l : L) : res (Z * list Z * L) :=
  let '(ret, l, fd) := lfs_open_read l key in
  if negb (ret =? 0) then Ok (0, buff, l)
  else
    let ret := lfs_file_size l fd in
    if (1 <? ret) && (ret <? 256) then
      let '(ret2, d, l, fd) := lfs_file_read l fd ret in
      buff ← store buff 0 d;
      let '(_, l) := lfs_file_close l fd in
      Ok (if negb (ret2 =? ret) then -2 else ret, buff, l)
    else
      let '(_, l) := lfs_file_close l fd in Ok (ret, buff, l).

(** The first two directory entries are "." and "..". *)
Definition luat_fskv_next (buff : list Z) (offset : Z) (l : L) : res (Z * list Z) :=
  let offset := offset + 2 in
  if lfs_dir_open l <? 0 then Ok (-1, buff)
  else if lfs_dir_seek l offset <? 0 then Ok (-2, buff)
  else
    match lfs_dir_read l offset with
    | None => Ok (-3, buff)
    | Some (name, _) => buff ← store buff 0 (name ++ [0]); Ok (0, buff)
    end.

(** ** The store as a map *)

Inductive kv_op : Type :=
  | KSet (k d : list Z) | KGet (k : list Z) (n : Z) | KDel (k : list Z) | KClear
  | KSize (k buff : list Z).

(** Results: the number returned and the bytes handed over, for [KSize] the caller's
    buffer afterwards. *)
Definition kv_exec (op : kv_op) (l : L) : res (Z * list Z * L) :=
  match op with
  | KSet k d => let '(r, l) := luat_fskv_set k d l in Ok (r, [], l)
  | KGet k n => Ok (luat_fskv_get k n l)
  | KDel k => let '(r, l) := luat_fskv_del k l in Ok (r, [], l)
  | KClear => let '(r, l) := luat_fskv_clear l in Ok (r, [], l)
  | KSize k buff => luat_fskv_size k buff l
  end.

Context `{!LfsLaws L F}.

Definition kv_ref (op : kv_op) (m : gmap (list Z) (list Z))
    : res (Z * list Z * gmap (list Z) (list Z)) :=
  match op with
  | KSet k d => Ok (Z.of_nat (length d), [], <[lfs_path k := d]> m)
  | KGet k n =>
      match m !! lfs_path k with
      | Some d => Ok (Z.of_nat (length (take (Z.to_nat n) d)), take (Z.to_nat n) d, m)
      | None => Ok (0, [], m)
      end
  | KDel k => Ok (0, [], delete (lfs_path k) m)
  | KClear => Ok (0, [], ∅)
  | KSize k buff =>
      match m !! lfs_path k with
      | Some d =>
          let n := length d in
          if decide (1 < n < 256)%nat then
            if decide (n <= length buff)%nat then Ok (Z.of_nat n, d ++ drop n buff, m)
            else Fault OutOfBounds
          else Ok (Z.of_nat n, buff, m)
      | None => Ok (0, buff, m)
      end
  end.

(** What an operation needs: room on the device for a new value and for the record of a
    removal, the heap's buffers for an open file, a sensible length. *)
Definition kv_pre (op : kv_op) (l : L) : Prop :=
  match op with
  | KSet k d => room l k d
  | KGet _ n => 0 <= n < 2 ^ 31 ∧ memory l
  | KDel k => removable l k
  | KClear | KSize _ _ => memory l
  end.

(** With the directory's entries [es] as the bound, the statistics count its
    regular files. *)
Lemma fskv_stat_counts es l :
  (∀ i, lfs_dir_read l (Z.of_nat i) = es !! i) → lfs_dir_open l = 0 →
  luat_fskv_stat (length es) l =
  Ok (0, lfs_fs_size l * 4096, 64 * 1024, Z.of_nat (length (filter (λ e, e.2 = true) es))).
Proof.
  intros Hes Hop. unfold luat_fskv_stat. rewrite Hop. cbn [negb Z.eqb].
  assert (∀ k, (k <= length es)%nat →
    count_entries (S (length es - k)) l (Z.of_nat k) =
    Ok (Z.of_nat (length (filter (λ e, e.2 = true) (drop k es))))) as Hc.
  { intros k Hk. remember (length es - k)%nat as n eqn:En. revert k Hk En.
    assert (∀ f pos, count_entries (S f) l pos =
      match lfs_dir_read l pos with
      | None => Ok 0
      | Some (_, reg) => n ← count_entries f l (pos + 1); Ok (if reg : bool then 1 + n else n)
      end) as Hstep by done.
    induction n as [|n IH]; intros k Hk En; rewrite Hstep, Hes.
    - rewrite lookup_ge_None_2 by lia. by rewrite drop_ge by lia.
    - destruct (lookup_lt_is_Some_2 es k) as [[nm reg] E]; [lia|]. rewrite E.
      replace (Z.of_nat k + 1) with (Z.of_nat (S k)) by lia.
      rewrite IH by lia. cbn [mbind res_bind]. rewrite (drop_S _ _ _ E), filter_cons.
      destruct reg; simpl; [|done]. f_equal. lia. }
  specialize (Hc 0%nat ltac:(lia)). rewrite Nat.sub_0_r in Hc.
  change (Z.of_nat 0) with 0 in Hc. rewrite Hc. cbn [mbind res_bind]. by rewrite drop_0.
Qed.

Lemma kv_exec_refines op l m :
  contents l = Some m → kv_pre op l →
  match kv_ref op m with
  | Ok (out, m') => ∃ l', kv_exec op l = Ok (out, l') ∧ contents l' = Some m'
  | Fault f => kv_exec op l = Fault f
  end.
Proof.
  intros Hm Hpre. destruct op as [k d|k n|k| |k buff]; simpl.
  - destruct (lfs_write_ok l m k d Hm Hpre) as (l1 & f1 & l2 & f2 & l3 & E1 & E2 & E3 & Hc).
    unfold luat_fskv_set. rewrite E1. cbn [negb Z.eqb]. rewrite E2, E3.
    rewrite Z.lor_0_r. eauto.
  - destruct Hpre as [Hn Hmem]. unfold luat_fskv_get. destruct (m !! lfs_path k) as [d|] eqn:Hk.
    + destruct (lfs_open_ok l m k d Hm Hk Hmem) as (l1 & f1 & -> & Hr). cbn [negb Z.eqb].
      destruct (lfs_read_ok l1 f1 m d 0 n Hr Hn) as (l2 & f2 & E & Hr2).
      rewrite drop_0 in E. rewrite E.
      pose proof (lfs_close_ok l2 f2 m d _ Hr2) as Hm3.
      destruct (lfs_file_close l2 f2) as [r3 l3]. exists l3. split; [|done].
      destruct (Z.ltb_spec 0 (Z.of_nat (length (take (Z.to_nat n) d)))); [done|].
      by replace (Z.of_nat (length (take (Z.to_nat n) d))) with 0 by lia.
    + destruct (lfs_open_missing l m k Hm Hk) as (r & l1 & f & -> & Hr & Hm1).
      destruct (Z.eqb_spec r 0); [done|]. simpl. eauto.
  - unfold luat_fskv_del. pose proof (lfs_remove_ok l m k Hm Hpre) as Hc.
    destruct (lfs_remove l k) as [r l1]. eauto.
  - unfold luat_fskv_clear. destruct (lfs_format_ok l Hpre) as (l1 & l2 & -> & E & Hc).
    cbn [negb Z.eqb]. rewrite E. cbn [negb Z.eqb]. eauto.
  - unfold luat_fskv_size. destruct (m !! lfs_path k) as [d|] eqn:Hk; cycle 1.
    { destruct (lfs_open_missing l m k Hm Hk) as (r & l1 & f & -> & Hr & Hm1).
      destruct (Z.eqb_spec r 0); [done|]. simpl. eauto. }
    destruct (lfs_open_ok l m k d Hm Hk Hpre) as (l1 & f1 & -> & Hr). cbn [negb Z.eqb].
    rewrite (lfs_size_ok l1 f1 m d 0 Hr). case_decide as Hd.
    + replace ((1 <? Z.of_nat (length d)) && (Z.of_nat (length d) <? 256)) with true by lia.
      destruct (lfs_read_ok l1 f1 m d 0 (Z.of_nat (length d)) Hr) as (l2 & f2 & E & Hr2); [lia|].
      rewrite Nat2Z.id, drop_0, firstn_all in E. rewrite E. case_decide as Hb.
      * rewrite store_Ok by (simpl; lia). cbn [mbind res_bind app take].
        pose proof (lfs_close_ok l2 f2 m d _ Hr2) as Hm3.
        destruct (lfs_file_close l2 f2) as [r3 l3]. exists l3. split; [|done].
        by rewrite Z.eqb_refl.
      * by rewrite store_oob by (simpl; lia).
    + replace ((1 <? Z.of_nat (length d)) && (Z.of_nat (length d) <? 256)) with false by lia.
      pose proof (lfs_close_ok l1 f1 m d _ Hr) as Hm3.
      destruct (lfs_file_close l1 f1) as [r3 l3]. by exists l3.
Qed.

Fixpoint kv_run (ops : list kv_op) (l : L) : res (list (Z * list Z)) :=
  match ops with
  | [] => Ok []
  | op :: rest => '(r, d, l) ← kv_exec op l; outs ← kv_run rest l; Ok ((r, d) :: outs)
  end.

Fixpoint kv_run_ref (ops : list kv_op) (m : gmap (list Z) (list Z))
    : res (list (Z * list Z)) :=
  match ops with
  | [] => Ok []
  | op :: rest => '(r, d, m) ← kv_ref op m; outs ← kv_run_ref rest m; Ok ((r, d) :: outs)
  end.

(** Each operation on the way finds what it needs. *)
Fixpoint kv_fits (ops : list kv_op) (l : L) : Prop :=
  match ops with
  | [] => True
  | op :: rest => kv_pre op l ∧ ∀ r d l', kv_exec op l = Ok (r, d, l') → kv_fits rest l'
  end.

(** C21 (refinement).  On a file system that keeps littlefs's documented promises,
    and as long as the values find room on the device and littlefs its buffers in the
    heap, the key-value store is a map from the files that the keys name as paths: after
    mounting (formatting first if need be), every sequence of set, get, delete, clear
    and size returns what the map returns.  A value of 2 to 255 bytes is also read into
    the buffer given to size, over its end if that is shorter. *)
Theorem fskv_is_a_map l ops :
  (lfs_mount l).1 ≠ 0 → memory (lfs_mount l).2 →
  ∃ l0, luat_fskv_init l = (0, l0) ∧
    (kv_fits ops l0 → kv_run ops l0 = kv_run_ref ops ∅).
Proof.
  intros Hmount Hmem. unfold luat_fskv_init.
  destruct (lfs_mount l) as [r l1]. simpl in Hmount, Hmem.
  destruct (Z.eqb_spec r 0); [done|]. cbn [negb].
  destruct (lfs_format_ok l1 Hmem) as (l2 & l0 & -> & E & Hc). cbn [negb Z.eqb].
  rewrite E. cbn [negb Z.eqb]. exists l0. split; [done|]. clear -Hc.
  revert Hc. generalize (∅ : gmap (list Z) (list Z)) as m. revert l0.
  induction ops as [|op ops IH]; intros l m Hc Hfit; [done|].
  destruct Hfit as [Hpre Hfit]. pose proof (kv_exec_refines op l m Hc Hpre) as Hop.
  cbn [kv_run kv_run_ref]. destruct (kv_ref op m) as [[[r d] m']|f].
  - destruct Hop as (l' & E & Hc'). rewrite E. cbn [mbind res_bind]. rewrite (IH l' m' Hc'); eauto.
  - by rewrite Hop.
Qed.

(** The buffer as declared is too short for most values. *)
Theorem fskv_size_overflows l m k d buff :
  contents l = Some m → memory l → m !! lfs_path k = Some d →
  length buff = 4%nat → (4 < length d < 256)%nat →
  luat_fskv_size k buff l = Fault OutOfBounds.
Proof.
  intros Hm Hmem Hk Hb Hd. pose proof (kv_exec_refines (KSize k buff) l m Hm Hmem) as Hop.
  cbn [kv_ref] in Hop. rewrite Hk in Hop. cbv zeta in Hop.
  rewrite decide_True, decide_False in Hop by lia. exact Hop.
Qed.

End fskv.

(** ** A file system that keeps the promises: a map in memory *)

(** Leading slashes of a path are skipped. *)
Fixpoint no_slash (k : list Z) : list Z :=
  match k with c :: k' => if c =? 47 then no_slash k' else k | [] => [] end.

(** An open file: its name, its bytes and the position in them. *)
Definition map_lfs : Lfs (option (gmap (list Z) (list Z))) (list Z * list Z * nat) := {|
  lfs_mount l := (match l with Some _ => 0 | None => -84 end, l);
  lfs_format l := (0, Some ∅);
  lfs_remove l k := (0, delete (no_slash k) <$> l);
  lfs_open_write l k := (0, <[no_slash k := []]> <$> l, (no_slash k, [], 0%nat));
  lfs_open_read l k :=
    match l ≫= lookup (no_slash k) with
    | Some d => (0, l, (no_slash k, d, 0%nat))
    | None => (-2, l, ([], [], 0%nat))
    end;
  lfs_file_write l f d :=
    let '(k, old, pos) := f in
    (Z.of_nat (length d), <[k := old ++ d]> <$> l, (k, old ++ d, (pos + length d)%nat));
  lfs_file_read l f n :=
    let '(k, d, pos) := f in
    let got := take (Z.to_nat n) (drop pos d) in
    (Z.of_nat (length got), got, l, (k, d, (pos + length got)%nat));
  lfs_file_size l f := Z.of_nat (length f.1.2);
  lfs_file_close l f := (0, l);
  lfs_dir_open l := 0;
  lfs_dir_seek l n := 0;
  lfs_dir_read l n := None;
  lfs_fs_size l := 0;
|}.

Program Definition map_lfs_laws : @LfsLaws _ _ map_lfs :=
  {| lfs_path := no_slash; contents l := l;
     reading l f m d pos := l = Some m ∧ f.1.2 = d ∧ f.2 = pos;
     room l k d := True; removable l k := True; memory l := True |}.
Next Obligation. intros. simpl. eauto. Qed.
Next Obligation. intros l m k -> _. done. Qed.
Next Obligation.
  intros l m k d -> _. simpl. eexists _, _, _, _, _. do 3 (split; [done|]). simpl.
  by rewrite insert_insert_eq.
Qed.
Next Obligation. intros l m k -> Hk. simpl. rewrite Hk. by eexists _, _, _. Qed.
Next Obligation. intros l m k d -> Hk _. simpl. rewrite Hk. by eexists _, _. Qed.
Next Obligation. by intros l [[k d] pos] m ?? (-> & <- & <-). Qed.
Next Obligation. intros l [[k d] pos] m ?? n (-> & <- & <-) Hn. simpl. by eexists _, _. Qed.
Next Obligation. by intros l f m d pos (-> & _ & _). Qed.

(** A key with and without its slash, and the declared buffer of four bytes. *)
Lemma fskv_is_a_map_witness :
  ∃ l0, @luat_fskv_init _ _ map_lfs None = (0, l0) ∧
    @kv_run _ _ map_lfs
      [KSet (bytes "wifi") [1; 2; 3]; KGet (bytes "/wifi") 2; KSize (bytes "wifi") [0; 0; 0; 0];
       KDel (bytes "/wifi"); KGet (bytes "wifi") 2] l0
    = Ok [(3, []); (2, [1; 2]); (3, [1; 2; 3; 0]); (0, []); (0, [])].
Proof.
  destruct (@fskv_is_a_map _ _ map_lfs map_lfs_laws None
    [KSet (bytes "wifi") [1; 2; 3]; KGet (bytes "/wifi") 2; KSize (bytes "wifi") [0; 0; 0; 0];
     KDel (bytes "/wifi"); KGet (bytes "wifi") 2]) as (l0 & E & Hr); [done|done|].
  exists l0. split; [exact E|]. rewrite Hr; [by vm_compute|].
  cbn [kv_fits kv_pre room removable memory map_lfs_laws]. naive_solver lia.
Defined.

Lemma fskv_size_overflows_witness :
  @luat_fskv_size _ _ map_lfs (bytes "k") [0; 0; 0; 0] (Some {[bytes "k" := [1; 2; 3; 4; 5]]})
    = Fault OutOfBounds.
Proof.
  by apply (@fskv_size_overflows _ _ map_lfs map_lfs_laws _ {[bytes "k" := [1; 2; 3; 4; 5]]}
    _ [1; 2; 3; 4; 5]); simpl; try lia.
Defined.
