(* ===== verification/Mock.v ===== *)
(** * The mock interface of port/mock/luat_mock.c and the drivers behind it

    Peripherals a PC does not have ask a Lua mock script what to answer: a call
    names the operation and passes its arguments as bytes, the script returns a
    code and a value.  The Lua VM is a parameter: the script is a function from
    requests to results, and the VM's stack, which the code never empties, is
    the state. *)

From S2P Require Import Prelude.

(** ** Values and calls of the VM *)

Inductive lua_value : Type :=
  | LNil | LBool (b : bool) | LInteger (z : Z) | LNumber (bits : list Z)
  | LString (s : list Z) | LOther (type : Z).

(** The type codes of lua.h. *)
Definition lua_type (v : lua_value) : Z :=
  match v with
  | LNil => 0 | LBool _ => 1 | LInteger _ | LNumber _ => 3 | LString _ => 4
  | LOther t => t
  end.

(** How the protected call of [mock_main] ends: the script cannot be loaded
    ([mock_main] then returns a negative number of results), it raises an error
    with a status, or it returns two values. *)
Inductive mock_result : Type :=
  | MockNoScript
  | MockError (status : Z) (message : lua_value)
  | MockReturns (code value : lua_value).

(** The static state: the VM's stack, bottom first, and the path. *)
Record mock_state : Type := MockState {
  mock_L : option (list lua_value);
  mock_file_path : list Z;
}.

Definition mock_zero : mock_state := MockState None (replicate 1024 0).

(** [luat_mock_ctx_t] as it comes back: the response.  [resp_data] is the block
    allocated for it. *)
Record mock_resp : Type := MockResp {
  resp_data : option (list Z); resp_len : Z; resp_type : Z; resp_code : Z;
}.

Definition no_resp : mock_resp := MockResp None 0 0 0.

Section mock.
Context `{Platform}.
(** The script; [lua_tointeger]; [sizeof(lua_Integer)]; whether the response's
    block can be allocated. *)
Context (mockf : list Z → list Z → mock_result).
Context (lua_tointeger : lua_value → Z).
Context (lua_int_bytes : nat).
Context (malloc_ok : bool).

(** ** Operations *)

(** [newstate] tells whether a VM could be made; opening its libraries leaves
    the stack empty. *)
Definition luat_mock_init (newstate : bool) (path : list Z) (st : mock_state)
    : res (Z * mock_state) :=
  s ← c_string path;
  p ← store (mock_file_path st) 0 (s ++ [0]);
  let st := MockState (if newstate then Some [] else None) p in
  if negb newstate || (p !!! 0%nat =? 0) then Ok (-1, st) else Ok (0, st).

(** The response for the value at stack index 2. *)
Definition mock_respond (code : lua_value) (value : lua_value) : res mock_resp :=
  let mk data len := MockResp data len (lua_type value) (i32 (lua_tointeger code)) in
  let alloc b := if malloc_ok then Ok (Some b) else Fault NullDeref in
  match value with
  | LBool b => d ← alloc [if b then 1 else 0]; Ok (mk d 1)
  | LInteger z => d ← alloc (le_bytes lua_int_bytes (wrapu (8 * Z.of_nat lua_int_bytes) z));
                  Ok (mk d (Z.of_nat lua_int_bytes))
  | LNumber bits => d ← alloc (take lua_int_bytes bits); Ok (mk d (Z.of_nat lua_int_bytes))
  | LString s =>
      if (0 <? Z.of_nat (length s)) then d ← alloc (s ++ [0]); Ok (mk d (Z.of_nat (length s)))
      else Ok (mk None 0)
  | LNil | LOther _ => Ok (mk None 0)
  end.

(** The call leaves its results (two values, or an error message) on the stack
    and reads the first two entries of the whole stack. *)
Definition luat_mock_call (key req_data : list Z) (st : mock_state)
    : res (Z * mock_resp * mock_state) :=
  match mock_L st with
  | None => Ok (-0xFF, no_resp, st)
  | Some stack =>
      if mock_file_path st !!! 0%nat =? 0 then Ok (-2, no_resp, st)
      else
        match mockf key req_data with
        | MockNoScript => Fault BadPointer
        | MockError status msg =>
            Ok (status, no_resp, MockState (Some (stack ++ [msg])) (mock_file_path st))
        | MockReturns code value =>
            let stack := stack ++ [code; value] in
            r ← mock_respond (default LNil (stack !! 0%nat)) (default LNil (stack !! 1%nat));
            Ok (0, r, MockState (Some stack) (mock_file_path st))
        end
  end.

(** ** Drivers *)

(** The shape most drivers share: an integer answer if there is one. *)
Definition mock_int (key : string) (req : list Z) (default_ret : Z) (st : mock_state)
    : res (Z * mock_state) :=
  '(ret, r, st) ← luat_mock_call (bytes key) req st;
  if (ret =? 0) && (4 <=? resp_len r) then
    b ← oget NullDeref (resp_data r);
    d ← load b 0 4;
    Ok (i32 (le_val d), st)
  else Ok (default_ret, st).

(** An [int] and a [size_t] as the bytes of a request. *)
Definition int_bytes (z : Z) : list Z := le_bytes 4 (u32 z).
Definition sizet_bytes (z : Z) : list Z := le_bytes (Z.to_nat ptr_bytes) (wrapu sizet_bits z).

(** *** port/driver/luat_adc_pc.c *)

Definition luat_adc_open (pin : Z) := mock_int "adc.open" (int_bytes pin) 0.
Definition luat_adc_close (pin : Z) := mock_int "adc.close" (int_bytes pin) 0.
Definition luat_adc_global_config (tp val : Z) :=
  mock_int "adc.global_config" (int_bytes tp ++ int_bytes val) 0.

(** The two values read; the channel numbers are constants of the core. *)
Definition luat_adc_read (LUAT_ADC_CH_CPU LUAT_ADC_CH_VBAT pin : Z) (st : mock_state)
    : res (Z * (Z * Z) * mock_state) :=
  '(ret, r, st) ← luat_mock_call (bytes "adc.read") (int_bytes pin) st;
  if (ret =? 0) && (4 <=? resp_len r) then
    b ← oget NullDeref (resp_data r);
    v ← load b 0 4;
    v2 ← load b 4 4;
    Ok (0, (i32 (le_val v), i32 (le_val v2)), st)
  else if pin =? LUAT_ADC_CH_CPU then Ok (0, (45000, 45000), st)
  else if pin =? LUAT_ADC_CH_VBAT then Ok (0, (4120, 4120), st)
  else Ok (0, (-1, -1), st).

(** *** port/driver/luat_pwm_pc.c; [conf] is the bytes of the configuration. *)

Definition luat_pwm_open (conf : list Z) := mock_int "pwm.open" conf 0.
Definition luat_pwm_setup (conf : list Z) := mock_int "pwm.setup" conf 0.
Definition luat_pwm_capture (channel freq : Z) : Z := -1.
Definition luat_pwm_close (channel : Z) := mock_int "pwm.close" (int_bytes channel) 0.
Definition luat_pwm_update_dutycycle (channel pulse : Z) :=
  mock_int "pwm.update_dutycycle" (int_bytes channel ++ int_bytes pulse) 0.

(** *** port/driver/luat_wdt_pc.c *)

Definition luat_wdt_init (timeout : Z) := mock_int "wdt.init" (sizet_bytes timeout) 0.
Definition luat_wdt_set_timeout (timeout : Z) :=
  mock_int "wdt.set_timeout" (sizet_bytes timeout) 0.
Definition luat_wdt_feed := mock_int "wdt.feed" [] 0.
Definition luat_wdt_close := mock_int "wdt.close" [] 0.

(** *** port/driver/luat_pm_pc.c *)

Definition luat_pm_request (mode : Z) := mock_int "pm.request" (int_bytes mode) 0.
Definition luat_pm_release (mode : Z) := mock_int "pm.release" (int_bytes mode) 0.
Definition luat_pm_force (mode : Z) := luat_pm_request mode.
Definition luat_pm_get_poweron_reason := mock_int "pm.reason" [] 0.

(** What is written through [lastState] ([None]: nothing); [rtcOrPad] is not
    written. *)
Definition luat_pm_last_state (st : mock_state) : res (Z * option Z * mock_state) :=
  '(ret, r, st) ← luat_mock_call (bytes "pm.lastState") [] st;
  if (ret =? 0) && (4 <=? resp_len r) then
    b ← oget NullDeref (resp_data r);
    v ← load b 0 4;
    v2 ← load b 4 4;
    Ok (0, Some (i32 (le_val v2)), st)
  else Ok (0, None, st).

Definition luat_pm_dtimer_start (id timeout : Z) : Z := -1.
Definition luat_pm_dtimer_stop (id : Z) : Z := 0.
Definition luat_pm_dtimer_check (id : Z) : Z := 0.
Definition luat_pm_check : Z := 0.
Definition luat_pm_dtimer_list : Z * Z := (0, 0).
Definition luat_pm_dtimer_wakeup_id : Z := 0.
Definition luat_pm_power_ctrl (id val : Z) : Z := 0.
Definition luat_pm_iovolt_ctrl (id val : Z) : Z := 0.
Definition luat_pm_wakeup_pin (pin val : Z) : Z := -1.
Definition luat_pm_set_power_mode (mode sub_mode : Z) : Z := 0.
Definition luat_pm_dtimer_remain (id : Z) : Z := 0.

(** Power off and reset end the process with this status. *)
Definition luat_pm_poweroff : Z := 0.
Definition luat_pm_reset : Z := 0.

(** ** Properties *)

(** The bytes of a little-endian [int] answer. *)
Lemma int_answer z tl :
  - 2 ^ 31 <= z < 2 ^ 31 → i32 (le_val (take 4 (le_bytes 4 (u32 z) ++ tl))) = z.
Proof.
  intros Hz. rewrite take_app_length' by (by rewrite length_le_bytes).
  rewrite le_val_le_bytes by (apply (wrapu_range 32); lia).
  unfold wrapu, wraps. rewrite Zplus_mod_idemp_l, Z.mod_small by lia. lia.
Qed.

(** The first answer of the script reaches the driver: on a
    fresh mock, an operation whose script returns the integer z (in [int] range,
    with 4- or 8-byte Lua integers) returns z. *)
Theorem mock_first_answer key req dflt path z code :
  path !!! 0%nat ≠ 0 → malloc_ok = true → lua_int_bytes = 4%nat ∨ lua_int_bytes = 8%nat →
  - 2 ^ 31 <= z < 2 ^ 31 →
  mockf (bytes key) req = MockReturns code (LInteger z) →
  mock_int key req dflt (MockState (Some []) path)
  = Ok (z, MockState (Some [code; LInteger z]) path).
Proof.
  intros Hp Hm Hb Hz Hf. unfold mock_int, luat_mock_call. cbn [mock_L mock_file_path].
  destruct (Z.eqb_spec (path !!! 0%nat) 0); [done|]. rewrite Hf.
  change (mock_respond _ _) with (mock_respond code (LInteger z)).
  cbn [mock_respond]. rewrite Hm. cbn [mbind res_bind].
  cbn [resp_len resp_data Z.eqb andb oget].
  assert ((4 <=? Z.of_nat lua_int_bytes) = true) as -> by (destruct Hb as [-> | ->]; done).
  cbn [mbind res_bind]. rewrite load_Ok by (rewrite length_le_bytes; lia).
  cbn [mbind res_bind]. rewrite drop_0. do 2 f_equal.
  destruct Hb as [-> | ->].
  - rewrite <- (app_nil_r (le_bytes 4 _)). by apply int_answer.
  - etransitivity; [|apply (int_answer z []); done]. do 2 f_equal.
    cbn [le_bytes app take].
    unfold wrapu. rewrite !Z.div_div by lia. change (2 ^ (8 * Z.of_nat 8)) with (2 ^ 64).
    change (256 * 256 * 256) with (2 ^ 24). change (256 * 256) with (2 ^ 16).
    change 256 with (2 ^ 8).
    assert (∀ k, 0 <= k <= 24 →
      (z mod 2 ^ 64) / 2 ^ k mod 2 ^ 8 = (z mod 2 ^ 32) / 2 ^ k mod 2 ^ 8) as Hbit.
    { intros k Hk. apply Z.bits_inj'. intros i Hi.
      destruct (decide (i < 8)).
      - rewrite !Z.mod_pow2_bits_low, !Z.div_pow2_bits, !Z.mod_pow2_bits_low by lia. done.
      - rewrite !Z.mod_pow2_bits_high by lia. done. }
    pose proof (Hbit 0 ltac:(lia)) as H0. rewrite !Z.pow_0_r, !Z.div_1_r in H0.
    by rewrite H0, !Hbit by lia.
Qed.

(** Later answers do not: once the stack holds the results of
    a first call, every further call that succeeds returns the response to that
    first call, whatever the script answers. *)
Theorem mock_later_answers_stale st code value rest key req code' value' ret r st' :
  mock_L st = Some (code :: value :: rest) →
  mockf key req = MockReturns code' value' →
  luat_mock_call key req st = Ok (ret, r, st') →
  mock_respond code value = Ok r ∨ ret ≠ 0.
Proof.
  intros Hst Hf. unfold luat_mock_call. rewrite Hst.
  case_match; [intros; inv_res; simplify_eq; right; lia|]. rewrite Hf.
  intros Hc. change (mock_respond _ _) with (mock_respond code value) in Hc.
  inv_res. simplify_eq. by left.
Qed.

(** An answer to [adc.read] shorter than two integers is read past
    its end: with a string of 4 to 6 bytes as first answer the second value is
    taken from outside the response's block. *)
Theorem adc_read_short_answer cpu vbat pin path code s :
  path !!! 0%nat ≠ 0 → malloc_ok = true → (4 <= length s <= 6)%nat →
  mockf (bytes "adc.read") (int_bytes pin) = MockReturns code (LString s) →
  luat_adc_read cpu vbat pin (MockState (Some []) path) = Fault OutOfBounds.
Proof.
  intros Hp Hm Hs Hf. unfold luat_adc_read, luat_mock_call. cbn [mock_L mock_file_path].
  destruct (Z.eqb_spec (path !!! 0%nat) 0); [done|]. rewrite Hf.
  change (mock_respond _ _) with (mock_respond code (LString s)).
  cbn [mock_respond]. rewrite Hm.
  destruct (Z.ltb_spec 0 (Z.of_nat (length s))); [|lia]. cbn [mbind res_bind].
  cbn [resp_len resp_data Z.eqb andb oget].
  destruct (Z.leb_spec 4 (Z.of_nat (length s))); [|lia]. cbn [mbind res_bind].
  rewrite (load_Ok _ 0) by (rewrite length_app; simpl; lia). cbn [mbind res_bind].
  rewrite load_oob by (rewrite length_app; simpl; lia). done.
Qed.

End mock.

(** ** On concrete scripts *)

(** A script that answers [adc.open] with 7, [pwm.open] with 9 and [adc.read]
    with a string of four bytes. *)
Definition demo_mock (key req : list Z) : mock_result :=
  if bool_decide (key = bytes "adc.open") then MockReturns (LInteger 0) (LInteger 7)
  else if bool_decide (key = bytes "pwm.open") then MockReturns (LInteger 0) (LInteger 9)
  else MockReturns (LInteger 0) (LString [1; 0; 0; 0]).

Definition demo_toint (v : lua_value) : Z := match v with LInteger z => z | _ => 0 end.
Definition demo_path : list Z := bytes "mock.lua" ++ [0].

Lemma mock_first_answer_witness :
  luat_adc_open demo_mock demo_toint 8 true 3 (MockState (Some []) demo_path)
  = Ok (7, MockState (Some [LInteger 0; LInteger 7]) demo_path).
Proof.
  apply (mock_first_answer demo_mock demo_toint 8 true "adc.open" (int_bytes 3) 0 demo_path);
    [done|done|by right|done|done].
Defined.

(** Opening the PWM after the ADC gives the ADC's answer. *)
Lemma mock_later_answers_stale_witness :
  let st := MockState (Some [LInteger 0; LInteger 7]) demo_path in
  ∃ r st', luat_mock_call demo_mock demo_toint 8 true (bytes "pwm.open") [] st = Ok (0, r, st') ∧
    mock_respond demo_toint 8 true (LInteger 0) (LInteger 7) = Ok r.
Proof.
  intros st.
  destruct (luat_mock_call demo_mock demo_toint 8 true (bytes "pwm.open") [] st)
    as [[[ret r] st']|] eqn:E; [|by vm_compute in E].
  assert (ret = 0) as ->.
  { pose proof E as E'. vm_compute in E'. by injection E'. }
  exists r, st'. split; [done|].
  by destruct (mock_later_answers_stale demo_mock demo_toint 8 true st (LInteger 0) (LInteger 7)
    [] (bytes "pwm.open") [] (LInteger 0) (LInteger 9) 0 r st' eq_refl eq_refl E).
Defined.

Lemma adc_read_short_answer_witness :
  luat_adc_read demo_mock demo_toint 8 true 100 101 3 (MockState (Some []) demo_path)
  = Fault OutOfBounds.
Proof.
  apply (adc_read_short_answer demo_mock demo_toint 8 true 100 101 3 demo_path (LInteger 0)
    [1; 0; 0; 0]); [done|done|simpl; lia|done].
Defined.
