(* ===== verification/Gpio.v ===== *)
(** * GPIO and its trace: port/driver/luat_gpio_pc.c, port/gpio/, port/luat_ztt.c

    128 simulated pins with an optional driver each.  Every call builds a trace
    record ([ztt]), a list of key-value nodes that is turned into one line and
    dropped (sending it is not written yet).  On Windows the pins are mirrored
    on a CH347 adapter.  What the code prints, traces and asks of the adapter is
    kept in the state as a log. *)

From S2P Require Import Prelude.

(** ** Trace records (port/luat_ztt.c) *)

(** The nodes of a record in order, with key and value; [None] is a null
    record. *)
Definition ztt : Type := option (list (list Z * list Z)).

Section ztt.
Context `{Platform, HeapOps}.

(** The node, its key and its value are three blocks; without all of them the
    record is returned as it was. *)
Definition ztt_add (z : ztt) (key value : list Z) : ztt :=
  match heap_malloc (4 * ptr_bytes), heap_malloc (Z.of_nat (length key) + 1),
        heap_malloc (Z.of_nat (length value)) with
  | Some _, Some _, Some _ =>
      match z with
      | None => Some [(key, value)]
      | Some l => Some (l ++ [(key, value)])
      end
  | _, _, _ => z
  end.

Definition ztt_create (type : list Z) : ztt := ztt_add None (bytes "type") type.

(** What [ztt_addf] hands to [ztt_add], where [text] is what the format gives:
    the print buffer holds at most 4094 bytes of it, and as many bytes are taken
    from the buffer as the whole text has. *)
Definition ztt_print (text : list Z) : res (option (list Z)) :=
  match heap_malloc 4096, text with
  | None, _ | _, [] => Ok None
  | Some _, _ =>
      Some <$> load (take 4094 text ++ replicate (4096 - length (take 4094 text)) 0) 0
                 (length text)
  end.

Definition ztt_addf (z : ztt) (key text : list Z) : res ztt :=
  v ← ztt_print text;
  match v with None => Ok None | Some v => Ok (ztt_add z key v) end.

(** The callers ignore the result: the variable keeps the head, the nodes behind
    it are appended to; with a null head the new node is lost. *)
Definition ztt_note (z : ztt) (key value : list Z) : ztt :=
  match z with None => None | Some _ => ztt_add z key value end.
Definition ztt_notef (z : ztt) (key text : list Z) : res ztt :=
  v ← ztt_print text;
  match v with None => Ok z | Some v => Ok (ztt_note z key v) end.

(** The loop of [ztt_commit]: [buff] with [len] bytes filled. *)
Fixpoint ztt_fill (nodes : list (list Z * list Z)) (buff : list Z) (len : Z)
    : res (Z * list Z * Z) :=
  match nodes with
  | [] => Ok (0, buff, len)
  | (_, value) :: rest =>
      let n := Z.of_nat (length value) in
      match heap_realloc buff (len + n + 2) with
      | None => Ok (-3, buff, len)
      | Some buff =>
          buff ← store buff (Z.to_nat len) value;
          let len := len + n in
          buff ← store buff (Z.to_nat len) [44];
          ztt_fill rest buff (len + 1)
      end
  end.

(** The result and the line built; its last byte is the digit zero. *)
Definition ztt_commit (z : ztt) : res (Z * list Z) :=
  match z with
  | None => Ok (-1, [])
  | Some nodes =>
      match heap_malloc 4 with
      | None => Ok (-2, [])
      | Some buff =>
          '(ret, buff, len) ← ztt_fill nodes buff 0;
          if negb (ret =? 0) then Ok (ret, [])
          else buff ← store buff (Z.to_nat len) [48]; Ok (0, take (Z.to_nat len + 1) buff)
      end
  end.

(** *** Lines *)

Definition ztt_line (nodes : list (list Z * list Z)) : list Z :=
  concat (map (λ kv, kv.2 ++ [44]) nodes).

Context `{!HeapLaws}.

(** The loop ends with the line in front of the block and room for one byte
    more, unless the heap refused a block. *)
Lemma ztt_fill_spec nodes : ∀ pre buff,
  (length pre <= length buff)%nat → take (length pre) buff = pre → nodes ≠ [] →
  (∃ rest, ztt_fill nodes buff (Z.of_nat (length pre)) =
     Ok (0, (pre ++ ztt_line nodes) ++ rest, Z.of_nat (length (pre ++ ztt_line nodes))) ∧
     (1 <= length rest)%nat) ∨
  (∃ b l, ztt_fill nodes buff (Z.of_nat (length pre)) = Ok (-3, b, l) ∧
     ∃ b n, 0 <= n ∧ heap_realloc b n = None).
Proof.
  unfold ztt_line. induction nodes as [|[k v] nodes IH]; intros pre buff Hl Hpre Hne; [done|].
  cbn [ztt_fill].
  destruct (heap_realloc buff (Z.of_nat (length pre) + Z.of_nat (length v) + 2)) as [b|] eqn:Hb.
  2: { right. do 2 eexists. split; [done|]. do 2 eexists. split; [|done]. lia. }
  pose proof (heap_realloc_length _ _ _ Hb) as Hbl.
  pose proof (heap_realloc_keeps _ _ _ (length pre) Hb Hl) as Hk. rewrite Hpre in Hk.
  rewrite <- (take_drop (length pre) b), Hk by lia.
  set (r := drop (length pre) b).
  assert (length r = length v + 2)%nat as Hr by (unfold r; rewrite length_drop; lia).
  clearbody r.
  rewrite Nat2Z.id, (store_fill (length pre) pre r v) by (done || lia). cbn [mbind res_bind].
  rewrite (store_fill _ (pre ++ v)) by (rewrite ?length_app, ?length_drop; simpl; lia).
  cbn [mbind res_bind].
  replace (Z.of_nat (length pre) + Z.of_nat (length v) + 1)
    with (Z.of_nat (length ((pre ++ v) ++ [44]))) by (rewrite !length_app; simpl; lia).
  cbn [map concat snd]. rewrite !app_assoc.
  destruct nodes as [|n nodes].
  - left. cbn [map concat ztt_fill]. rewrite !app_nil_r. eexists. split; [done|].
    rewrite !length_drop. simpl. lia.
  - apply IH; [rewrite (length_app (_ ++ [44])); lia|by rewrite take_app_length|done].
Qed.

(** Committing is safe whatever the heap does. *)
Lemma ztt_commit_total z :
  z ≠ Some [] → ∃ r line, ztt_commit z = Ok (r, line) ∧
    (r = 0 → ∃ nodes, z = Some nodes ∧ line = ztt_line nodes ++ [48]).
Proof.
  intros Hne. unfold ztt_commit. destruct z as [nodes|]; [|by exists (-1), []].
  destruct (heap_malloc 4) as [b|]; [|by exists (-2), []].
  destruct (ztt_fill_spec nodes [] b) as [(rest & E & Hr)|(b' & l & E & _)];
    [simpl; lia|done|congruence| |]; cbn [length app] in E; change (Z.of_nat 0) with 0 in E;
    rewrite E; cbn [mbind res_bind negb Z.eqb]; [|by exists (-3), []].
  rewrite Nat2Z.id, store_extend by (simpl; lia). cbn [mbind res_bind].
  rewrite take_app_length' by (rewrite length_app; simpl; lia).
  do 2 eexists. split; [done|]. intros _. by exists nodes.
Qed.

(** With a heap that gives what is asked for, the line is built. *)
Lemma ztt_commit_line nodes :
  (∀ n, 0 <= n → is_Some (heap_malloc n)) → (∀ b n, 0 <= n → is_Some (heap_realloc b n)) →
  nodes ≠ [] → ztt_commit (Some nodes) = Ok (0, ztt_line nodes ++ [48]).
Proof.
  intros Hm Hg Hne. unfold ztt_commit. destruct (Hm 4) as [b ->]; [lia|].
  destruct (ztt_fill_spec nodes [] b) as [(rest & E & Hr)|(b' & l & E & bb & n & Hn & Hb)];
    [simpl; lia|done|done| |destruct (Hg bb n Hn); congruence].
  cbn [length app] in E. change (Z.of_nat 0) with 0 in E. rewrite E.
  cbn [mbind res_bind negb Z.eqb]. rewrite Nat2Z.id, store_extend by (simpl; lia).
  cbn [mbind res_bind]. by rewrite take_app_length' by (rewrite length_app; simpl; lia).
Qed.

Lemma ztt_print_short text :
  (length text <= 4094)%nat → ∃ v, ztt_print text = Ok v.
Proof.
  intros Ht. unfold ztt_print. destruct (heap_malloc 4096), text as [|c text]; eauto.
  rewrite load_Ok; [eexists; done|]. rewrite take_ge, length_app, length_replicate by done. lia.
Qed.

Lemma ztt_print_exact text :
  is_Some (heap_malloc 4096) → text ≠ [] → (length text <= 4094)%nat →
  ztt_print text = Ok (Some text).
Proof.
  intros [b Hb] Hne Ht. unfold ztt_print. rewrite Hb. destruct text as [|c text]; [done|].
  rewrite take_ge by done.
  rewrite load_Ok by (rewrite length_app; lia). cbn [fmap res_fmap].
  by rewrite drop_0, take_app_length.
Qed.

Lemma ztt_add_nonempty z key v : z ≠ Some [] → ztt_add z key v ≠ Some [].
Proof.
  unfold ztt_add. intros Hz. destruct (heap_malloc _); [|done].
  destruct (heap_malloc _); [|done]. destruct (heap_malloc _); [|done].
  destruct z as [[|]|]; discriminate.
Qed.

Lemma ztt_note_nonempty z key v : z ≠ Some [] → ztt_note z key v ≠ Some [].
Proof. unfold ztt_note. destruct z; [apply ztt_add_nonempty|done]. Qed.

End ztt.

(** ** Pins *)

Inductive gpio_mode : Type := LUAT_GPIO_OUTPUT | LUAT_GPIO_INPUT | LUAT_GPIO_IRQ.

#[global] Instance gpio_mode_eq_dec : EqDecision gpio_mode.
Proof. solve_decision. Defined.

(** [luat_gpio_t], the fields used. *)
Record luat_gpio : Type := Gpio { g_pin : Z; g_mode : gpio_mode; g_pull : Z; g_irq : Z }.

#[global] Instance luat_gpio_inhabited : Inhabited luat_gpio :=
  populate (Gpio 0 LUAT_GPIO_OUTPUT 0 0).

(** A driver ([luat_gpio_drv_opts_t]): what each operation returns. *)
Record luat_gpio_drv_opts : Type := GpioDrv {
  gd_setup : luat_gpio → Z; gd_write : Z → Z → Z; gd_read : Z → Z; gd_close : Z → Z;
}.

Definition gpio_nop : luat_gpio_drv_opts :=
  GpioDrv (λ _, 0) (λ _ _, 0) (λ _, 0) (λ _, 0).
Definition gpio_udp : luat_gpio_drv_opts :=
  GpioDrv (λ _, 0) (λ _ _, 0) (λ _, 0) (λ _, 0).

(** What the operations do outside the tables, in order. *)
Inductive gpio_io : Type :=
  | Trace (ret : Z) (line : list Z)
  | Ch347Setup (pin : Z) (mode : gpio_mode) (pull irq : Z)
  | Ch347Set (pin level : Z)
  | DrvClose (pin ret : Z).

Record gpio_state : Type := GpioState {
  gpio_confs : list luat_gpio;
  gpio_levels : list Z;
  ch347_opened : bool;
  gpio_log : list gpio_io;
}.

Definition gpio_init : gpio_state :=
  GpioState (replicate 128 inhabitant) (replicate 128 0) false [].

Definition set_confs (c : list luat_gpio) (st : gpio_state) : gpio_state :=
  GpioState c (gpio_levels st) (ch347_opened st) (gpio_log st).
Definition set_levels (l : list Z) (st : gpio_state) : gpio_state :=
  GpioState (gpio_confs st) l (ch347_opened st) (gpio_log st).
Definition set_opened (b : bool) (st : gpio_state) : gpio_state :=
  GpioState (gpio_confs st) (gpio_levels st) b (gpio_log st).
Definition log_io (i : gpio_io) (st : gpio_state) : gpio_state :=
  GpioState (gpio_confs st) (gpio_levels st) (ch347_opened st) (gpio_log st ++ [i]).

(** Every printed field is an [int]. *)
Definition is_int (z : Z) : Prop := - 2 ^ 31 <= z < 2 ^ 31.
Ltac ints := repeat (apply Forall_cons_2; [assumption || (unfold is_int; simpl; lia)|]);
  apply Forall_nil_2.

Section gpio.
Context `{Platform, HeapOps}.
Context (gpio_drvs : Z → option luat_gpio_drv_opts).
(** Whether loading the CH347 library finds a device, and what it reads. *)
Context (ch347_load : bool) (ch347_get : Z → Z).
(** What ["%d"] prints, and the number of a mode. *)
Context (print_d : Z → list Z) (mode_num : gpio_mode → Z).

Fixpoint trace_fields (fields : list (string * Z)) (z : ztt) : res ztt :=
  match fields with
  | [] => Ok z
  | (key, v) :: fields => z ← ztt_notef z (bytes key) (print_d v); trace_fields fields z
  end.

Definition gpio_trace (action : string) (fields : list (string * Z)) (st : gpio_state)
    : res gpio_state :=
  let z := ztt_create (bytes "gpio") in
  let z := ztt_note z (bytes "action") (bytes action) in
  z ← trace_fields fields z;
  '(ret, line) ← ztt_commit z;
  Ok (log_io (Trace ret line) st).

(** A call to the adapter when it is there. *)
Definition ch347_do (c : gpio_io) (st : gpio_state) : gpio_state :=
  if windows && ch347_opened st then log_io c st else st.

Definition luat_gpio_setup (gpio : luat_gpio) (st : gpio_state) : res (Z * gpio_state) :=
  if 128 <=? g_pin gpio then Ok (-1, st)
  else if g_pin gpio <? 0 then Fault OutOfBounds
  else
    let st := set_confs (<[Z.to_nat (g_pin gpio) := gpio]> (gpio_confs st)) st in
    st ← gpio_trace "setup" [("pin"%string, g_pin gpio); ("mode"%string, mode_num (g_mode gpio));
           ("pull"%string, g_pull gpio); ("irq"%string, g_irq gpio)] st;
    let st := set_opened (ch347_opened st || (windows && ch347_load)) st in
    let st := ch347_do (Ch347Setup (g_pin gpio) (g_mode gpio) (g_pull gpio) (g_irq gpio)) st in
    Ok (match gpio_drvs (g_pin gpio) with Some d => gd_setup d gpio | None => 0 end, st).

Definition bad_pin (pin : Z) : bool := (pin <? 0) || (128 <=? pin).

Definition luat_gpio_set (pin level : Z) (st : gpio_state) : res (Z * gpio_state) :=
  if bad_pin pin then Ok (-1, st)
  else
    let st := set_levels (<[Z.to_nat pin := if level =? 0 then 0 else 1]> (gpio_levels st)) st in
    st ← gpio_trace "set" [("pin"%string, pin); ("level"%string, level)] st;
    let st := ch347_do (Ch347Set pin level) st in
    Ok (match gpio_drvs pin with Some d => gd_write d pin level | None => 0 end, st).

Definition luat_gpio_get (pin : Z) (st : gpio_state) : res (Z * gpio_state) :=
  if bad_pin pin then Ok (-1, st)
  else
    st ← gpio_trace "get" [("pin"%string, pin)] st;
    if windows && ch347_opened st && (0 <=? pin) && (pin <=? 7) then Ok (ch347_get pin, st)
    else match gpio_drvs pin with
         | Some d => Ok (gd_read d pin, st)
         | None =>
             let mode := g_mode (gpio_confs st !!! Z.to_nat pin) in
             if bool_decide (mode = LUAT_GPIO_INPUT) || bool_decide (mode = LUAT_GPIO_IRQ)
             then Ok (gpio_levels st !!! Z.to_nat pin, st) else Ok (0, st)
         end.

(** The configuration is zeroed and set to input. *)
Definition luat_gpio_close (pin : Z) (st : gpio_state) : res gpio_state :=
  if bad_pin pin then Ok st
  else
    st ← gpio_trace "close" [("pin"%string, pin)] st;
    let st := set_confs (<[Z.to_nat pin := Gpio 0 LUAT_GPIO_INPUT 0 0]> (gpio_confs st)) st in
    let st := match gpio_drvs pin with
              | Some d => log_io (DrvClose pin (gd_close d pin)) st
              | None => st
              end in
    Ok (ch347_do (Ch347Setup pin LUAT_GPIO_INPUT 0 0) st).

Definition luat_gpio_pulse (pin : Z) (st : gpio_state) : gpio_state := st.
Definition luat_gpio_irq_enable : Z := 0.
Definition luat_gpio_open : Z := -1.

(** ** Properties *)

Record gpio_ok (st : gpio_state) : Prop := {
  go_confs : length (gpio_confs st) = 128%nat;
  go_levels : length (gpio_levels st) = 128%nat;
}.

Context `{!HeapLaws}.
(** ["%d"] prints an [int] with at least one and at most eleven characters. *)
Context (print_d_len : ∀ z, is_int z → (1 <= length (print_d z) <= 11)%nat).

Lemma trace_fields_total fields : ∀ z,
  z ≠ Some [] → Forall (λ f, is_int f.2) fields →
  ∃ z', trace_fields fields z = Ok z' ∧ z' ≠ Some [].
Proof.
  induction fields as [|[k v] fields IH]; intros z Hz Hf; [eauto|].
  inversion Hf as [|? ? Hv Hf']; subst. cbn [trace_fields]. unfold ztt_notef.
  destruct (ztt_print_short (print_d v)) as [[p|] Hp];
    [pose proof (print_d_len v Hv); lia| |];
    rewrite Hp; cbn [mbind res_bind]; apply IH; auto using ztt_note_nonempty.
Qed.

(** A trace leaves the tables alone and adds one line to the log. *)
Lemma gpio_trace_total action fields st :
  Forall (λ f, is_int f.2) fields →
  ∃ r line, gpio_trace action fields st = Ok (log_io (Trace r line) st).
Proof.
  intros Hf. unfold gpio_trace.
  destruct (trace_fields_total fields
    (ztt_note (ztt_create (bytes "gpio")) (bytes "action") (bytes action))) as (z & Hz & Hne);
    [by apply ztt_note_nonempty, ztt_add_nonempty|done|].
  rewrite Hz. cbn [mbind res_bind].
  destruct (ztt_commit_total z Hne) as (r & line & E & _). rewrite E. eauto.
Qed.

Lemma ch347_off c st : windows = false → ch347_do c st = st.
Proof. unfold ch347_do. by intros ->. Qed.

Lemma get_plain pin st :
  windows = false → 0 <= pin < 128 → gpio_drvs pin = None →
  ∃ r line, luat_gpio_get pin st =
    Ok (if decide (g_mode (gpio_confs st !!! Z.to_nat pin) = LUAT_GPIO_OUTPUT) then 0
        else gpio_levels st !!! Z.to_nat pin, log_io (Trace r line) st).
Proof.
  intros Hw Hp Hd. unfold luat_gpio_get.
  assert (bad_pin pin = false) as -> by (unfold bad_pin; lia).
  destruct (gpio_trace_total "get" [("pin"%string, pin)] st) as (r & line & ->).
  { ints. }
  cbn [mbind res_bind]. rewrite Hw, Hd. cbn [andb]. exists r, line.
  unfold log_io. cbn [gpio_confs gpio_levels].
  by destruct (g_mode (gpio_confs st !!! Z.to_nat pin)).
Qed.

(** A pin without a driver, on a build without the adapter: a
    level set on a pin configured as input or interrupt is read back as 0 or 1
    (an output pin reads 0 whatever was set), other pins keep their level and
    configuration, and closing makes the pin an input that keeps its level; all
    of it whatever the heap refuses to the trace. *)
Theorem gpio_set_get gpio level st :
  gpio_ok st → windows = false → 0 <= g_pin gpio < 128 → gpio_drvs (g_pin gpio) = None →
  is_int (mode_num (g_mode gpio)) → is_int (g_pull gpio) → is_int (g_irq gpio) → is_int level →
  let val := if decide (level = 0) then 0 else 1 in
  ∃ st1 st2 st3 st4, luat_gpio_setup gpio st = Ok (0, st1) ∧
    luat_gpio_set (g_pin gpio) level st1 = Ok (0, st2) ∧ gpio_ok st2 ∧
    (∃ st', luat_gpio_get (g_pin gpio) st2 =
       Ok (if decide (g_mode gpio = LUAT_GPIO_OUTPUT) then 0 else val, st')) ∧
    (∀ p, p ≠ Z.to_nat (g_pin gpio) →
       gpio_levels st2 !! p = gpio_levels st !! p ∧
       gpio_confs st2 !! p = gpio_confs st !! p) ∧
    luat_gpio_close (g_pin gpio) st2 = Ok st3 ∧
    luat_gpio_get (g_pin gpio) st3 = Ok (val, st4).
Proof.
  intros [Hc Hl] Hw Hp Hd Hm Hpu Hi Hlv val.
  assert (is_int (g_pin gpio)) as Hpi by (unfold is_int; lia).
  assert (bad_pin (g_pin gpio) = false) as Hb by (unfold bad_pin; lia).
  assert (∀ {A} (l : list A), length l = 128%nat → (Z.to_nat (g_pin gpio) < length l)%nat)
    as Hlt by (intros A l ->; lia).
  set (c1 := <[Z.to_nat (g_pin gpio):=gpio]> (gpio_confs st)).
  assert (length c1 = 128%nat) as Hc1 by (unfold c1; by rewrite length_insert).
  assert ((if level =? 0 then 0 else 1) = val) as Hval
    by (unfold val; destruct (Z.eqb_spec level 0); [by rewrite decide_True|by rewrite decide_False]).
  set (l2 := <[Z.to_nat (g_pin gpio):=val]> (gpio_levels st)).
  destruct (gpio_trace_total "setup" [("pin"%string, g_pin gpio);
    ("mode"%string, mode_num (g_mode gpio)); ("pull"%string, g_pull gpio);
    ("irq"%string, g_irq gpio)] (set_confs c1 st)) as (r1 & t1 & E1); [ints|].
  set (st1 := set_opened (ch347_opened st || (windows && ch347_load))
    (log_io (Trace r1 t1) (set_confs c1 st))).
  destruct (gpio_trace_total "set" [("pin"%string, g_pin gpio); ("level"%string, level)]
    (set_levels l2 st1)) as (r2 & t2 & E2); [ints|].
  set (st2 := log_io (Trace r2 t2) (set_levels l2 st1)).
  destruct (gpio_trace_total "close" [("pin"%string, g_pin gpio)] st2) as (r3 & t3 & E3);
    [ints|].
  set (st3 := set_confs (<[Z.to_nat (g_pin gpio) := Gpio 0 LUAT_GPIO_INPUT 0 0]> c1)
    (log_io (Trace r3 t3) st2)).
  destruct (get_plain (g_pin gpio) st2 Hw Hp Hd) as (r4 & t4 & E4).
  destruct (get_plain (g_pin gpio) st3 Hw Hp Hd) as (r5 & t5 & E5).
  cbn in E4, E5. unfold c1, l2 in E4, E5.
  rewrite !list_lookup_total_insert_eq in E4 by auto.
  rewrite !list_lookup_total_insert_eq in E5 by auto.
  eexists st1, st2, st3, _. repeat apply conj.
  - unfold luat_gpio_setup. rewrite (proj2 (Z.leb_gt _ _)), (proj2 (Z.ltb_ge _ _)) by lia.
    fold c1. rewrite E1. cbn [mbind res_bind]. by rewrite Hd, ch347_off.
  - unfold luat_gpio_set. rewrite Hb, Hval. fold l2.
    change (<[Z.to_nat (g_pin gpio):=val]> (gpio_levels st1)) with l2.
    rewrite E2. cbn [mbind res_bind]. by rewrite Hd, ch347_off.
  - split; cbn; [done|]. unfold l2. by rewrite length_insert.
  - eauto.
  - intros p Hne. cbn. unfold l2, c1. by rewrite !list_lookup_insert_ne.
  - unfold luat_gpio_close. rewrite Hb, E3. cbn [mbind res_bind]. by rewrite Hd, ch347_off.
  - exact E5.
Qed.

(** [luat_gpio_setup] accepts a pin exactly when it is below 128,
    so that a negative pin, which every other operation refuses, writes outside
    the configuration table. *)
Theorem gpio_setup_negative_pin gpio st :
  g_pin gpio < 0 →
  luat_gpio_setup gpio st = Fault OutOfBounds ∧
  luat_gpio_set (g_pin gpio) 1 st = Ok (-1, st) ∧ luat_gpio_get (g_pin gpio) st = Ok (-1, st) ∧
  luat_gpio_close (g_pin gpio) st = Ok st.
Proof.
  intros Hp. unfold luat_gpio_setup, luat_gpio_set, luat_gpio_get, luat_gpio_close.
  assert (bad_pin (g_pin gpio) = true) as -> by (unfold bad_pin; lia).
  destruct (Z.leb_spec 128 (g_pin gpio)); [lia|].
  by destruct (Z.ltb_spec (g_pin gpio) 0); [|lia].
Qed.

(** *** Trace lines *)

Context (mgives : ∀ n, 0 <= n → is_Some (heap_malloc n)).
Context (rgives : ∀ b n, 0 <= n → is_Some (heap_realloc b n)).

Lemma ztt_add_gives z key v :
  ztt_add z key v = Some (default [] z ++ [(key, v)]).
Proof.
  unfold ztt_add. destruct (mgives (4 * ptr_bytes)) as [? ->];
    [destruct ptr_bytes_cases as [-> | ->]; lia|].
  destruct (mgives (Z.of_nat (length key) + 1)) as [? ->]; [lia|].
  destruct (mgives (Z.of_nat (length v))) as [? ->]; [lia|]. by destruct z.
Qed.

Lemma trace_fields_gives fields : ∀ l,
  Forall (λ f, is_int f.2) fields →
  trace_fields fields (Some l) = Ok (Some (l ++ map (λ f, (bytes f.1, print_d f.2)) fields)).
Proof.
  induction fields as [|[k v] fields IH]; intros l Hf; [by rewrite app_nil_r|].
  inversion Hf as [|? ? Hv Hf']; subst. cbn [trace_fields]. unfold ztt_notef.
  pose proof (print_d_len v Hv). rewrite ztt_print_exact;
    [|apply mgives; lia|destruct (print_d v); [simpl in *; lia|done]|lia].
  cbn [mbind res_bind ztt_note]. rewrite ztt_add_gives. cbn [default].
  rewrite IH by done. simpl. by rewrite <- app_assoc.
Qed.

Lemma gpio_trace_gives action fields st :
  Forall (λ f, is_int f.2) fields →
  gpio_trace action fields st = Ok (log_io (Trace 0
    (bytes "gpio," ++ bytes action ++ [44] ++
     concat (map (λ f, print_d f.2 ++ [44]) fields) ++ [48])) st).
Proof.
  intros Hf. unfold gpio_trace, ztt_create. rewrite ztt_add_gives. cbn [default ztt_note].
  rewrite ztt_add_gives. cbn [default]. rewrite trace_fields_gives by done.
  cbn [mbind res_bind]. rewrite ztt_commit_line by done. cbn [mbind res_bind].
  do 3 f_equal. unfold ztt_line. cbn [id map concat app snd]. rewrite map_map.
  rewrite <- !app_assoc. reflexivity.
Qed.

(** With memory available, setting a pin logs exactly one
    trace line, the record's type, the action, the pin and the level, each
    followed by a comma; where the terminator is meant, the line ends in the
    character 0. *)
Theorem gpio_set_traces pin level st :
  windows = false → 0 <= pin < 128 → is_int level →
  ∃ r st', luat_gpio_set pin level st = Ok (r, st') ∧
    gpio_log st' = gpio_log st ++
      [Trace 0 (bytes "gpio,set," ++ print_d pin ++ [44] ++ print_d level ++ [44; 48])].
Proof.
  intros Hw Hp Hl. unfold luat_gpio_set.
  assert (bad_pin pin = false) as -> by (unfold bad_pin; lia).
  rewrite gpio_trace_gives by ints.
  cbn [mbind res_bind]. rewrite ch347_off by done. do 2 eexists. split; [done|].
  unfold log_io. cbn [gpio_log set_levels]. do 3 f_equal.
  cbn [map concat snd]. by rewrite app_nil_r, <- !app_assoc.
Qed.

End gpio.

(** *** Concrete runs *)

Definition demo_print (z : Z) : list Z :=
  if z <? 0 then 45 :: dec_digits 10 (- z) else dec_digits 10 z.
Definition demo_num (m : gpio_mode) : Z :=
  match m with LUAT_GPIO_OUTPUT => 0 | LUAT_GPIO_INPUT => 1 | LUAT_GPIO_IRQ => 2 end.

Lemma demo_print_len z : is_int z → (1 <= length (demo_print z) <= 11)%nat.
Proof.
  intros _. unfold demo_print.
  assert (∀ n, (1 <= length (dec_digits 10 n))%nat)
    by (intros n; cbn [dec_digits]; rewrite length_app; simpl; lia).
  case_match; cbn [length]; [pose proof (dec_digits_max 10 (- z))
    |pose proof (dec_digits_max 10 z); specialize (H z)]; lia.
Qed.

Lemma gpio_set_get_witness :
  ∃ st1 st2 st', @luat_gpio_setup linux64 big_heap (λ _, None) false demo_print demo_num
      (Gpio 5 LUAT_GPIO_IRQ 0 0) gpio_init = Ok (0, st1) ∧
    @luat_gpio_set linux64 big_heap (λ _, None) demo_print 5 7 st1 = Ok (0, st2) ∧
    @luat_gpio_get linux64 big_heap (λ _, None) (λ _, 0) demo_print 5 st2 = Ok (1, st').
Proof.
  destruct (@gpio_set_get linux64 big_heap (λ _, None) false (λ _, 0) demo_print demo_num
    big_heap_laws demo_print_len (Gpio 5 LUAT_GPIO_IRQ 0 0) 7 gpio_init)
    as (st1 & st2 & st3 & st4 & E1 & E2 & _ & (st' & Hg) & _);
    [done|done|simpl; lia|done|by vm_compute|by vm_compute|by vm_compute|by vm_compute|].
  exists st1, st2, st'. split; [exact E1|]. split; [exact E2|]. exact Hg.
Defined.

Lemma gpio_setup_negative_pin_witness :
  @luat_gpio_setup linux64 big_heap (λ _, None) false demo_print demo_num
    (Gpio (-1) LUAT_GPIO_INPUT 0 0) gpio_init = Fault OutOfBounds.
Proof.
  apply (@gpio_setup_negative_pin linux64 big_heap (λ _, None) false (λ _, 0)
    demo_print demo_num (Gpio (-1) LUAT_GPIO_INPUT 0 0) gpio_init). simpl. lia.
Defined.

Lemma gpio_set_traces_witness :
  ∃ r st', @luat_gpio_set linux64 big_heap (λ _, None) demo_print 12 1 gpio_init = Ok (r, st') ∧
    gpio_log st' = [Trace 0 (bytes "gpio,set,12,1,0")].
Proof.
  destruct (@gpio_set_traces linux64 big_heap (λ _, None) demo_print big_heap_laws
    demo_print_len big_heap_gives big_heap_regives 12 1 gpio_init)
    as (r & st' & E & Hl); [done|lia|by vm_compute|].
  exists r, st'. split; [exact E|]. exact Hl.
Defined.
