(* ===== verification/Mobile.v ===== *)
(** * The simulated modem's IMEI: port/luat_mobile_pc.c

    The number is made up from a digest of the machine's identifier.  The other
    operations of that file do nothing and return 0. *)

From S2P Require Import Prelude.

(** ** Operations *)

(** The loop of [generate_imei_check_digit] from position [i], [n] positions to
    go; [None] is the early return. *)
Fixpoint imei_sum (n : nat) (i : Z) (imei : list Z) (sum : Z) : res (option Z) :=
  match n with
  | O => Ok (Some sum)
  | S n =>
      c ← load imei (Z.to_nat i) 1;
      let c := c !!! 0%nat in
      if negb ((48 <=? c) && (c <=? 57)) then Ok None
      else
        let digit := c - 48 in
        let digit :=
          if (13 - i) mod 2 =? 1 then
            let digit := digit * 2 in
            if 9 <? digit then digit / 10 + digit mod 10 else digit
          else digit in
        imei_sum n (i + 1) imei (sum + digit)
  end.

Definition generate_imei_check_digit (imei : list Z) : res Z :=
  sum ← imei_sum 14 0 imei 0;
  match sum with
  | None => Ok 0xFF
  | Some sum => Ok (u8 ((10 - sum mod 10) mod 10))
  end.

(** The value of a hexadecimal digit; other characters count as 0. *)
Definition hex_digit (c : Z) : Z :=
  if (48 <=? c) && (c <=? 57) then c - 48
  else if (97 <=? c) && (c <=? 102) then c - 97 + 10
  else if (65 <=? c) && (c <=? 70) then c - 65 + 10
  else 0.

(** The loop that reads at most 16 of them, up to a NUL. *)
Fixpoint hex_num (n : nat) (hexbuff : list Z) (num : Z) : Z :=
  match n, hexbuff with
  | S n, c :: hexbuff => if c =? 0 then num else hex_num n hexbuff (u64 (num * 16 + hex_digit c))
  | _, _ => num
  end.

(** [snprintf] of a text into a buffer: what fits, and a NUL. *)
Definition snprintf (buff : list Z) (n : Z) (text : list Z) : res (list Z) :=
  if n =? 0 then Ok buff else store buff 0 (take (Z.to_nat n - 1) text ++ [0]).

Section imei.
(** The machine's identifier, and the digest in hexadecimal of the LuatOS core. *)
Context (luat_mcu_unique_id : list Z) (md5_hex : list Z → list Z).

Definition imei_text : list Z :=
  let num := hex_num 16 (md5_hex luat_mcu_unique_id) 0 in
  bytes "86228905" ++ print_u (num mod 900000000 + 100000000).

Definition luat_mobile_get_imei (sim_id : Z) (buff : list Z) (buf_len : Z)
    : res (Z * list Z) :=
  if (0 <? Z.of_nat (length luat_mcu_unique_id)) then
    buff ← snprintf buff buf_len imei_text;
    buff ← store buff 15 [0];
    c ← generate_imei_check_digit buff;
    buff ← store buff 14 [u8 (48 + c)];
    Ok (1, buff)
  else Ok (-1, buff).

(** ** The check digit *)

(** The digit sum of twice a digit. *)
Definition twice (d : Z) : Z := if 9 <? 2 * d then 2 * d - 9 else 2 * d.

(** Sum of digits with those at even (odd) positions from the left doubled. *)
Fixpoint alt_sum (double : bool) (ds : list Z) : Z :=
  match ds with
  | [] => 0
  | d :: ds => (if double then twice d else d) + alt_sum (negb double) ds
  end.

(** The Luhn check digit of the 14-digit body of an IMEI: doubling starts with
    the last digit, that is at position 1 of 0 to 13. *)
Definition luhn (ds : list Z) : Z := (10 - alt_sum false ds mod 10) mod 10.

Definition is_num (d : Z) : Prop := 0 <= d <= 9.

Lemma parity_step p : negb ((13 - p) mod 2 =? 1) = ((13 - (p + 1)) mod 2 =? 1).
Proof.
  replace (13 - p) with (13 - (p + 1) + 1) by lia. set (q := 13 - (p + 1)).
  rewrite <- Zplus_mod_idemp_l. pose proof (Z.mod_pos_bound q 2).
  assert (q mod 2 = 0 ∨ q mod 2 = 1) as [-> | ->] by lia; done.
Qed.

Lemma imei_sum_spec n : ∀ pre ds rest sum,
  length ds = n → Forall is_num ds →
  imei_sum n (Z.of_nat (length pre)) (pre ++ map (Z.add 48) ds ++ rest) sum =
  Ok (Some (sum + alt_sum ((13 - Z.of_nat (length pre)) mod 2 =? 1) ds)).
Proof.
  induction n as [|n IH]; intros pre ds rest sum Hl Hd.
  - destruct ds; [|done]. cbn. by rewrite Z.add_0_r.
  - destruct ds as [|d ds]; [done|]. inversion Hd as [|? ? Hn Hd']; subst. unfold is_num in Hn.
    cbn [imei_sum map]. rewrite Nat2Z.id, load_Ok by (rewrite !length_app; simpl; lia).
    rewrite drop_app_length. cbn [mbind res_bind].
    assert ((48 <=? 48 + d) = true) as Ha by lia. assert ((48 + d <=? 57) = true) as Hb by lia.
    cbn [app take list_lookup_total]. change ((48 + d :: ?l) !!! 0%nat) with (48 + d).
    replace ([48 + d] !!! 0%nat) with (48 + d) by done.
    rewrite Ha, Hb. cbn [andb negb].
    replace (Z.of_nat (length pre) + 1) with (Z.of_nat (length (pre ++ [48 + d])))
      by (rewrite length_app; simpl; lia).
    replace (pre ++ 48 + d :: map (Z.add 48) ds ++ rest)
      with ((pre ++ [48 + d]) ++ map (Z.add 48) ds ++ rest) by (by rewrite <- app_assoc).
    rewrite IH by (simpl in Hl; lia || done). do 2 f_equal.
    cbn [alt_sum].
    replace ((13 - Z.of_nat (length (pre ++ [48 + d]))) mod 2 =? 1)
      with (negb ((13 - Z.of_nat (length pre)) mod 2 =? 1)).
    2: { rewrite length_app. simpl length. rewrite Nat2Z.inj_add. apply parity_step. }
    assert (48 + d - 48 = d) as -> by lia.
    assert ((if 9 <? d * 2 then d * 2 / 10 + (d * 2) mod 10 else d * 2) = twice d) as ->.
    { assert ((d : Z) ∈ seqZ 0 10) as Hin by (apply elem_of_seqZ; lia).
      revert Hin. clear. revert d. apply Forall_forall. cbn. repeat constructor. }
    lia.
Qed.

(** The digit completes the sum that doubles the even positions to a multiple of
    ten. *)
Lemma check_digit_spec ds rest :
  length ds = 14%nat → Forall is_num ds →
  ∃ c, generate_imei_check_digit (map (Z.add 48) ds ++ rest) = Ok c ∧ 0 <= c <= 9 ∧
    (alt_sum true ds + c) mod 10 = 0 ∧ c = (10 - alt_sum true ds mod 10) mod 10.
Proof.
  intros Hl Hd. unfold generate_imei_check_digit.
  pose proof (imei_sum_spec 14 [] ds rest 0 Hl Hd) as E. cbn [app length] in E.
  change (Z.of_nat 0) with 0 in E. rewrite E. cbn [mbind res_bind].
  change ((13 - 0) mod 2 =? 1) with true. rewrite Z.add_0_l.
  set (s := alt_sum true ds). pose proof (Z.mod_pos_bound s 10).
  pose proof (Z.mod_pos_bound (10 - s mod 10) 10). eexists. split; [done|].
  rewrite wrapu_small by lia. repeat split; [lia|lia|].
  rewrite Zplus_mod_idemp_r.
  replace (s + (10 - s mod 10)) with ((s / 10 + 1) * 10) by (pose proof (Z.div_mod s 10); lia).
  apply Z_mod_mult.
Qed.

(** Whether that is the Luhn digit depends on the number. *)
Lemma check_digit_luhn ds rest :
  length ds = 14%nat → Forall is_num ds →
  generate_imei_check_digit (map (Z.add 48) ds ++ rest) = Ok (luhn ds) ↔
  alt_sum true ds mod 10 = alt_sum false ds mod 10.
Proof.
  intros Hl Hd. destruct (check_digit_spec ds rest Hl Hd) as (c & -> & Hc & _ & Hv).
  unfold luhn. pose proof (Z.mod_pos_bound (alt_sum true ds) 10).
  pose proof (Z.mod_pos_bound (alt_sum false ds) 10). split.
  - intros [= E]. rewrite Hv in E.
    destruct (decide (alt_sum true ds mod 10 = 0)) as [E1|];
      destruct (decide (alt_sum false ds mod 10 = 0)) as [E2|]; rewrite ?E1, ?E2 in *;
      rewrite ?Z_mod_same_full in E; rewrite ?(Z.mod_small (10 - _)) in E by lia; lia.
  - intros E. by rewrite Hv, E.
Qed.

(** ** The number *)

Lemma hex_num_nonneg n : ∀ l num, 0 <= num → 0 <= hex_num n l num.
Proof.
  induction n as [|n IH]; intros [|c l] num Hn; cbn [hex_num]; try done.
  case_match; [done|]. apply IH. apply (wrapu_range 64). lia.
Qed.

Lemma imei_text_digits :
  ∃ ds, imei_text = map (Z.add 48) ds ∧ length ds = 17%nat ∧ Forall is_num ds ∧
    take 8 ds = [8; 6; 2; 2; 8; 9; 0; 5].
Proof.
  unfold imei_text. set (n := hex_num _ _ _ mod 900000000).
  assert (0 <= n < 900000000) as Hn by (apply Z.mod_pos_bound; lia).
  set (l := print_u (n + 100000000)).
  assert (length l = 9%nat) as Hl
    by (apply length_dec_digits; [lia|change (Z.of_nat 8) with 8; change (Z.of_nat 9) with 9; lia]).
  assert (Forall is_digit l) as Hd by apply dec_digits_digits.
  exists ([8; 6; 2; 2; 8; 9; 0; 5] ++ map (λ c, c - 48) l). repeat split.
  - rewrite map_app, map_map. change (map (Z.add 48) [8; 6; 2; 2; 8; 9; 0; 5])
      with (bytes "86228905"). f_equal.
    rewrite <- (map_id l) at 1. apply map_ext. intros; lia.
  - by rewrite length_app, length_map, Hl.
  - apply Forall_app_2; [unfold is_num; repeat constructor; lia|].
    apply Forall_map. eapply Forall_impl; [exact Hd|]. unfold is_digit, is_num. simpl. lia.
Qed.

(** What [snprintf] leaves: the first 14 digits, and at least two bytes more when
    there is room. *)
Lemma imei_printed buff :
  (0 < length buff)%nat →
  ∃ b, snprintf buff (Z.of_nat (length buff)) imei_text = Ok b ∧ length b = length buff ∧
    ((15 <= length buff)%nat → take 14 b = take 14 imei_text).
Proof.
  intros Hb. destruct imei_text_digits as (ds & Ht & Hl & _).
  unfold snprintf. rewrite Nat2Z.id, (proj2 (Z.eqb_neq _ _)) by lia.
  rewrite store_Ok by (rewrite length_app, length_take, Ht, length_map; cbn [length]; lia).
  eexists. split; [done|]. rewrite take_0. cbn [app]. split.
  - rewrite ?length_app, ?length_drop, ?length_app, ?length_take, ?Ht, ?length_map.
    cbn [length]. lia.
  - intros Hl15. rewrite <- app_assoc, take_app_le by
      (rewrite length_take, Ht, length_map; lia).
    by rewrite take_take, Nat.min_l by lia.
Qed.

(** The two bytes behind the 14 digits become the check digit and the NUL. *)
Lemma imei_finished d14 x y r :
  length d14 = 14%nat → Forall is_num d14 →
  ∃ c, (buff ← store (map (Z.add 48) d14 ++ x :: y :: r) 15 [0];
        c ← generate_imei_check_digit buff;
        buff ← store buff 14 [u8 (48 + c)]; Ok (1, buff)) =
    Ok (1, map (Z.add 48) (d14 ++ [c]) ++ 0 :: r) ∧
    0 <= c <= 9 ∧ (alt_sum true d14 + c) mod 10 = 0.
Proof.
  intros Hl14 Hd14. replace (map (Z.add 48) d14 ++ x :: y :: r)
    with ((map (Z.add 48) d14 ++ [x]) ++ y :: r) by (by rewrite <- app_assoc).
  rewrite (store_fill 15) by (rewrite ?length_app, ?length_map; cbn [length]; lia).
  cbn [mbind res_bind]. change (drop (length [0]) (y :: r)) with r.
  rewrite <- !app_assoc. cbn [app].
  destruct (check_digit_spec d14 (x :: 0 :: r) Hl14 Hd14) as (c & -> & Hc & Hsum & _).
  cbn [mbind res_bind]. rewrite wrapu_small by lia.
  rewrite (store_fill 14) by (rewrite ?length_map; cbn [length]; lia).
  cbn [mbind res_bind]. change (drop (length [48 + c]) (x :: 0 :: r)) with (0 :: r).
  exists c. split; [by rewrite map_app|done].
Qed.

(** C39 (bounds).  With an identifier and a caller's buffer of [buf_len] bytes,
    the call succeeds exactly when the buffer has at least 16: it then leaves a
    string of 15 digits that begins with 86228905 and whose last digit makes a
    multiple of ten of the sum in which every second digit, beginning with the first, is
    doubled (its digits added up).  A shorter buffer is written past its end.  That sum
    doubles the positions that are odd counted from the right of the 14 digits; the comment
    in the source and the check digit of an IMEI double the even ones
    ([check_digit_luhn], [imei_digit_not_luhn]). *)
Theorem get_imei_spec sim_id buff :
  luat_mcu_unique_id ≠ [] →
  if decide (16 <= length buff)%nat then
    ∃ buff' ds c, luat_mobile_get_imei sim_id buff (Z.of_nat (length buff)) = Ok (1, buff') ∧
      length buff' = length buff ∧
      c_string buff' = Ok (map (Z.add 48) (ds ++ [c])) ∧ length ds = 14%nat ∧
      Forall is_num (ds ++ [c]) ∧ take 8 ds = [8; 6; 2; 2; 8; 9; 0; 5] ∧
      (alt_sum true ds + c) mod 10 = 0
  else luat_mobile_get_imei sim_id buff (Z.of_nat (length buff)) = Fault OutOfBounds.
Proof.
  intros Hid. unfold luat_mobile_get_imei.
  assert ((0 <? Z.of_nat (length luat_mcu_unique_id)) = true) as ->
    by (destruct luat_mcu_unique_id; [done|reflexivity]).
  destruct (decide (length buff = 0)%nat) as [E0|E0].
  { rewrite decide_False by lia. unfold snprintf. rewrite E0. change (Z.of_nat 0 =? 0) with true.
    cbn [mbind res_bind]. rewrite store_oob; [done|simpl; lia]. }
  destruct (imei_printed buff) as (b & -> & Hbl & Hb14); [lia|]. cbn [mbind res_bind].
  destruct (decide (16 <= length buff)%nat) as [Hb|Hb].
  2: { rewrite store_oob; [done|simpl; lia]. }
  destruct imei_text_digits as (ds & Ht & Hl & Hd & H8).
  rewrite Ht, firstn_map in Hb14. set (d14 := take 14 ds) in *.
  assert (length (drop 14 b) = length buff - 14)%nat as Hr by (rewrite length_drop; lia).
  rewrite <- (take_drop 14 b), Hb14 by lia.
  destruct (drop 14 b) as [|x [|y r]]; [simpl in Hr; lia|simpl in Hr; lia|].
  assert (length d14 = 14%nat) as Hl14 by (unfold d14; rewrite length_take; lia).
  assert (Forall is_num d14) as Hd14 by (by apply Forall_take).
  destruct (imei_finished d14 x y r Hl14 Hd14) as (c & -> & Hc & Hsum).
  assert (Forall is_num (d14 ++ [c])) as Hall
    by (apply Forall_app_2; [done|]; constructor; [unfold is_num; lia|constructor]).
  do 3 eexists. split; [done|].
  split; [rewrite length_app, length_map, length_app; simpl in *; lia|].
  split. { apply c_string_app, Forall_map. eapply Forall_impl; [exact Hall|].
    unfold is_num. simpl. lia. }
  repeat (split; [done|]). split; [|done]. unfold d14. by rewrite take_take.
Qed.

End imei.

(** A published IMEI whose Luhn digit is 8. *)
Lemma imei_digit_not_luhn :
  generate_imei_check_digit (bytes "49015420323751") = Ok 0 ∧
  luhn [4; 9; 0; 1; 5; 4; 2; 0; 3; 2; 3; 7; 5; 1] = 8.
Proof. by vm_compute. Qed.

Lemma get_imei_spec_witness :
  ∃ buff' ds c, luat_mobile_get_imei [1] (λ _, replicate 32 65) 0 (replicate 20 0) 20
      = Ok (1, buff') ∧ c_string buff' = Ok (map (Z.add 48) (ds ++ [c])) ∧
    (alt_sum true ds + c) mod 10 = 0.
Proof.
  destruct (get_imei_spec [1] (λ _, replicate 32 65) 0 (replicate 20 0))
    as (b & ds & c & E & _ & Es & _ & _ & _ & Hs); [done|].
  exists b, ds, c. split; [exact E|]. split; [exact Es|exact Hs].
Defined.
