(* ===== verification/LuacProofs.v ===== *)
(** * What the bytecode analyser recovers

    The reference is the chunk format itself: a tree of functions ([proto]) and
    the bytes a dump writes for it.  Loading a dump fills the report's tables so
    that the tree can be read back from them. *)

From S2P Require Import Prelude LuacReport.

(** ** Loaders that consume known bytes *)

(** From report [r], [m] consumes exactly the bytes [bs], whatever follows, and
    its result and new report satisfy [Q]. *)
Definition loads {A} (m : loader A) (bs : list Z) (r : luac_report)
    (Q : A → luac_report → Prop) : Prop :=
  ∃ a r', (∀ t, m (bs ++ t, r) = Ok (a, (t, r'))) ∧ Q a r'.

Definition returns {A} (a : A) (r : luac_report) : A → luac_report → Prop :=
  λ a' r', a' = a ∧ r' = r.

Lemma loads_bind {A B} b1 b2 (m : loader A) (f : A → loader B) r Q R :
  loads m b1 r Q → (∀ a r', Q a r' → loads (f a) b2 r' R) →
  loads (m ≫= f) (b1 ++ b2) r R.
Proof.
  intros (a & r1 & Hm & HQ) Hf. destruct (Hf a r1 HQ) as (b & r2 & Hf' & HR).
  exists b, r2. split; [|done]. intros t. rewrite <- app_assoc.
  unfold mbind, loader_bind. by rewrite Hm.
Qed.

(** A step that consumes nothing. *)
Lemma loads_bind0 {A B} bs (m : loader A) (f : A → loader B) r Q R :
  loads m [] r Q → (∀ a r', Q a r' → loads (f a) bs r' R) → loads (m ≫= f) bs r R.
Proof. apply (loads_bind []). Qed.

(** The last step of a sequence consumes the rest. *)
Lemma loads_last {A B} bs (m : loader A) (f : A → loader B) r Q R :
  loads m bs r Q → (∀ a r', Q a r' → loads (f a) [] r' R) → loads (m ≫= f) bs r R.
Proof. intros. rewrite <- (app_nil_r bs). by eapply loads_bind. Qed.

Lemma loads_ret {A} (a : A) r (Q : A → luac_report → Prop) : Q a r → loads (mret a) [] r Q.
Proof. intros HQ. by exists a, r. Qed.

Lemma loads_lift {A} (m : res A) a r : m = Ok a → loads (lift m) [] r (returns a r).
Proof. intros ->. by exists a, r. Qed.

Lemma loads_weaken {A} (m : loader A) bs r (Q R : A → luac_report → Prop) :
  loads m bs r Q → (∀ a r', Q a r' → R a r') → loads m bs r R.
Proof. intros (a & r' & Hm & HQ) HR. exists a, r'. auto. Qed.

Lemma loads_get r : loads get_report [] r (returns r r).
Proof. by exists r, r. Qed.

Lemma loads_put r r' : loads (put_report r') [] r (returns tt r').
Proof. by exists tt, r'. Qed.

(** ** The format *)

Inductive const : Type :=
  | CNil | CBool (b : Z) | CFlt (bits : list Z) | CInt (z : Z) | CStr (long : bool) (s : list Z).

(** A function without its inner functions: the name of its source, line range,
    parameters, code, constants, upvalues, line table, local variables with
    their ranges, names of upvalues. *)
Record phead : Type := PHead {
  ph_source : option (list Z);
  ph_linedefined : Z; ph_lastlinedefined : Z;
  ph_numparams : Z; ph_is_vararg : Z; ph_maxstacksize : Z;
  ph_code : list Z; ph_k : list const; ph_upvalues : list Z;
  ph_lines : list Z; ph_locvars : list (option (list Z) * Z * Z);
  ph_upnames : list (option (list Z));
}.

Inductive proto : Type := Proto (h : phead) (ps : list proto).

Section dump.
Context (lua_bytes : nat).

Definition dump_int (z : Z) : list Z := le_bytes 4 (u32 z).
Definition dump_count {A} (l : list A) : list Z := dump_int (Z.of_nat (length l)).
Definition dump_str (o : option (list Z)) : list Z :=
  match o with
  | None => [0]
  | Some s =>
      let n := Z.of_nat (length s) + 1 in
      (if n <? 0xFF then [n] else 0xFF :: dump_int n) ++ s
  end.
Definition dump_const (c : const) : list Z :=
  match c with
  | CNil => [LUA_TNIL]
  | CBool b => [LUA_TBOOLEAN] ++ [b]
  | CFlt bits => [LUA_TNUMFLT] ++ bits
  | CInt z => [LUA_TNUMINT] ++ le_bytes lua_bytes (wrapu (8 * Z.of_nat lua_bytes) z)
  | CStr long s => [if long then LUA_TLNGSTR else LUA_TSHRSTR] ++ dump_str (Some s)
  end.
Definition dump_locvar (v : option (list Z) * Z * Z) : list Z :=
  dump_str v.1.1 ++ dump_int v.1.2 ++ dump_int v.2.

Definition dump_code (h : phead) : list Z :=
  dump_int (Z.of_nat (length (ph_code h)) / 4) ++ ph_code h.
Definition dump_k (h : phead) : list Z :=
  dump_count (ph_k h) ++ concat (map dump_const (ph_k h)).
Definition dump_upvalues (h : phead) : list Z :=
  dump_int (Z.of_nat (length (ph_upvalues h)) / 2) ++ ph_upvalues h.
Definition dump_debug (h : phead) : list Z :=
  dump_int (Z.of_nat (length (ph_lines h)) / 4) ++ ph_lines h ++
  dump_count (ph_locvars h) ++ concat (map dump_locvar (ph_locvars h)) ++
  dump_count (ph_upnames h) ++ concat (map dump_str (ph_upnames h)).

Fixpoint dump (p : proto) : list Z :=
  match p with
  | Proto h ps =>
      dump_str (ph_source h) ++ dump_int (ph_linedefined h) ++
      dump_int (ph_lastlinedefined h) ++ [ph_numparams h] ++ [ph_is_vararg h] ++
      [ph_maxstacksize h] ++ dump_code h ++ dump_k h ++ dump_upvalues h ++
      (dump_count ps ++ concat (map dump ps)) ++ dump_debug h
  end.

(** *** Values the format can carry *)

Definition int_ok (z : Z) : Prop := - 2 ^ 31 <= z < 2 ^ 31.
Definition str_ok (o : option (list Z)) : Prop :=
  match o with None => True | Some s => Z.of_nat (length s) + 1 < 2 ^ 31 end.
Definition const_ok (c : const) : Prop :=
  match c with
  | CFlt bits => length bits = lua_bytes
  | CInt z => - 2 ^ (8 * Z.of_nat lua_bytes - 1) <= z < 2 ^ (8 * Z.of_nat lua_bytes - 1)
  | CStr _ s => str_ok (Some s)
  | CNil | CBool _ => True
  end.
(** Tables of [k]-byte elements whose size in bytes is an [int]. *)
Definition table_ok (k : Z) (l : list Z) : Prop :=
  Z.of_nat (length l) mod k = 0 ∧ Z.of_nat (length l) < 2 ^ 31.
Definition count_ok {A} (l : list A) : Prop := Z.of_nat (length l) < 2 ^ 28.

Record head_ok (h : phead) : Prop := {
  ho_source : str_ok (ph_source h);
  ho_linedefined : int_ok (ph_linedefined h);
  ho_lastlinedefined : int_ok (ph_lastlinedefined h);
  ho_code : table_ok 4 (ph_code h);
  ho_k : count_ok (ph_k h) ∧ Forall const_ok (ph_k h);
  ho_upvalues : table_ok 2 (ph_upvalues h);
  ho_lines : table_ok 4 (ph_lines h);
  ho_locvars : count_ok (ph_locvars h) ∧
    Forall (λ v, str_ok v.1.1 ∧ int_ok v.1.2 ∧ int_ok v.2) (ph_locvars h);
  ho_upnames : count_ok (ph_upnames h) ∧ Forall str_ok (ph_upnames h);
}.

(** Every function is encodable and has at most 1024 inner functions. *)
Fixpoint proto_ok (p : proto) : Prop :=
  match p with
  | Proto h ps => head_ok h ∧ (length ps <= 1024)%nat ∧ foldr (λ p P, proto_ok p ∧ P) True ps
  end.

Fixpoint depth (p : proto) : nat :=
  match p with Proto _ ps => S (foldr (λ p n, depth p `max` n)%nat O ps) end.

End dump.

(** ** Places used in the tables *)

Record counts : Type := Counts {
  c_strs : nat; c_codes : nat; c_numbers : nat; c_lines : nat; c_funcs : nat;
}.
Definition no_counts : counts := Counts 0 0 0 0 0.
Definition add_counts (a b : counts) : counts :=
  Counts (c_strs a + c_strs b) (c_codes a + c_codes b) (c_numbers a + c_numbers b)
    (c_lines a + c_lines b) (c_funcs a + c_funcs b).

Definition const_counts (c : const) : counts :=
  match c with
  | CNil => no_counts
  | CStr _ _ => Counts 1 0 0 0 0
  | _ => Counts 0 0 1 0 0
  end.
Definition sum_counts {A} (f : A → counts) (l : list A) : counts :=
  foldr (λ x, add_counts (f x)) no_counts l.

Definition head_counts (h : phead) : counts :=
  add_counts (Counts (1 + length (ph_locvars h) + length (ph_upnames h)) 1 0 1 1)
    (sum_counts const_counts (ph_k h)).
Fixpoint proto_counts (p : proto) : counts :=
  match p with Proto h ps => add_counts (head_counts h) (sum_counts proto_counts ps) end.

(** ** Memory

    The sizes of the blocks that the loaders ask for. *)

Section requests.
Context `{Platform}.

Definition str_requests (o : option (list Z)) : list Z :=
  match o with None => [] | Some s => [Z.of_nat (length s) + 1] end.
Definition const_requests (c : const) : list Z :=
  match c with CStr _ s => str_requests (Some s) | _ => [] end.
Definition table_requests (l : list Z) : list Z :=
  match l with [] => [] | _ => [Z.of_nat (length l)] end.
Definition room_requests {A} (l : list A) (size : Z) : list Z :=
  match l with [] => [] | _ => [size_t (Z.of_nat (length l) * size)] end.

Definition debug_requests (h : phead) : list Z :=
  table_requests (ph_lines h) ++ room_requests (ph_locvars h) ptr_bytes ++ room_requests (ph_locvars h) 8 ++
  concat (map (λ v, str_requests v.1.1) (ph_locvars h)) ++ room_requests (ph_upnames h) ptr_bytes ++
  concat (map str_requests (ph_upnames h)).
Definition head_requests (h : phead) : list Z :=
  str_requests (ph_source h) ++ [Z.of_nat (length (ph_code h))] ++ room_requests (ph_k h) ptr_bytes ++
  concat (map const_requests (ph_k h)) ++ table_requests (ph_upvalues h) ++ debug_requests h.
Fixpoint proto_requests (p : proto) : list Z :=
  match p with Proto h ps => head_requests h ++ concat (map proto_requests ps) end.

End requests.

Definition served `{HeapOps} (ns : list Z) : Prop := Forall (λ n, is_Some (heap_malloc n)) ns.

Lemma served_app `{HeapOps} a b : served (a ++ b) ↔ served a ∧ served b.
Proof. apply Forall_app. Qed.

Lemma Forall_served `{HeapOps} {A} (P : A → Prop) (f : A → list Z) l :
  Forall P l → served (concat (map f l)) → Forall (λ x, P x ∧ served (f x)) l.
Proof.
  induction 1 as [|x l Hx Hl IH]; [by constructor|]. cbn. intros [H1 H2]%served_app. constructor; [done|by apply IH].
Qed.

Lemma served_in `{HeapOps} {A} (f : A → list Z) l x : served (concat (map f l)) → x ∈ l → served (f x).
Proof.
  induction l as [|y l IH]; [by intros _ ?%elem_of_nil|]. cbn. intros [H1 H2]%served_app [->|Hx]%elem_of_cons; auto.
Qed.

Lemma served_one `{HeapOps} n : served [n] → is_Some (heap_malloc n).
Proof. unfold served. by rewrite Forall_singleton. Qed.

(** The tables have room for that many more. *)
Record fits (d : counts) (r : luac_report) : Prop := {
  ft_strs : (length (dg_data (r_strs r)) + c_strs d <= group_max)%nat;
  ft_codes : (length (dg_data (r_codes r)) + c_codes d <= group_max)%nat;
  ft_numbers : (length (dg_data (r_numbers r)) + c_numbers d <= group_max)%nat;
  ft_lines : (length (dg_data (r_line_numbers r)) + c_lines d <= group_max)%nat;
  ft_funcs : (r_func_count r + c_funcs d <= length (r_funcs r))%nat;
  ft_size : length (r_funcs r) = 1024%nat;
}.

(** ** Reading the tables back *)

Definition str_at (r : luac_report) (i : nat) : option (option (list Z)) :=
  d ← dg_data (r_strs r) !! i;
  match ld_value d with
  | VData None => if ld_len d =? 0 then Some None else None
  | VData (Some b) =>
      if ld_len d =? Z.of_nat (length b) then Some (Some (take (length b - 1) b)) else None
  | _ => None
  end.

Definition block_at (g : luac_data_group) (i : nat) : option (list Z) :=
  d ← dg_data g !! i;
  match ld_value d with
  | VData b =>
      let b := default [] b in
      if ld_len d =? Z.of_nat (length b) then Some b else None
  | _ => None
  end.

Definition const_at (r : luac_report) (c : luac_const) : option const :=
  match c with
  | KNone => Some CNil
  | KNumber i =>
      d ← dg_data (r_numbers r) !! i;
      match ld_value d with
      | VInt z => Some (if ld_type d =? LUA_TBOOLEAN then CBool z else CInt z)
      | VNum bits => Some (CFlt bits)
      | VData _ => None
      end
  | KStr i =>
      d ← dg_data (r_strs r) !! i; s ← str_at r i; s ← s;
      Some (CStr (ld_type d =? LUA_TLNGSTR) s)
  end.

(** The ranges of the local variables, two by two. *)
Fixpoint pairs (l : list Z) : list (Z * Z) :=
  match l with a :: b :: l => (a, b) :: pairs l | _ => [] end.

(** The function at [id], if its place and those of its inner functions lie
    between [lo] and the number of functions, inner ones behind outer ones. *)
Fixpoint undump (fuel : nat) (lo : nat) (r : luac_report) (id : nat) : option proto :=
  match fuel with
  | O => None
  | S fuel =>
      if decide (lo <= id < r_func_count r)%nat then
        f ← r_funcs r !! id;
        source ← str_at r (lf_source f);
        code ← block_at (r_codes r) (lf_code f);
        k ← mapM (const_at r) (lf_k f);
        lines ← block_at (r_line_numbers r) (lf_lineinfo f);
        names ← mapM (str_at r) (lf_locvars2 f);
        upnames ← mapM (str_at r) (lf_upvalues2 f);
        ps ← mapM (undump fuel (S id) r) (lf_p f);
        if lf_sizecode f =? Z.of_nat (length code) / 4 then
          Some (Proto (PHead source (lf_linedefined f) (lf_lastlinedefined f)
            (lf_numparams f) (lf_is_vararg f) (lf_maxstacksize f) code k (lf_upvalues f)
            lines (zip_with (λ n ab, (n, ab.1, ab.2)) names (pairs (lf_locvars f)))
            upnames) ps)
        else None
      else None
  end.

(** ** Growth of the tables *)

Definition appended {A} (n : nat) (l l' : list A) : Prop := ∃ k, l' = l ++ k ∧ length k = n.

(** [r'] is [r] with [d] more entries, the functions below the old count as they
    were. *)
Record grown (d : counts) (r r' : luac_report) : Prop := {
  gr_strs : appended (c_strs d) (dg_data (r_strs r)) (dg_data (r_strs r'));
  gr_codes : appended (c_codes d) (dg_data (r_codes r)) (dg_data (r_codes r'));
  gr_numbers : appended (c_numbers d) (dg_data (r_numbers r)) (dg_data (r_numbers r'));
  gr_lines : appended (c_lines d) (dg_data (r_line_numbers r)) (dg_data (r_line_numbers r'));
  gr_count : r_func_count r' = (r_func_count r + c_funcs d)%nat;
  gr_len : length (r_funcs r') = length (r_funcs r);
  gr_funcs : ∀ i, (i < r_func_count r)%nat → r_funcs r' !! i = r_funcs r !! i;
}.

Lemma appended_refl {A} (l : list A) : appended 0 l l.
Proof. exists []. by rewrite app_nil_r. Qed.

Lemma appended_trans {A} n m (l1 l2 l3 : list A) :
  appended n l1 l2 → appended m l2 l3 → appended (n + m) l1 l3.
Proof.
  intros (k1 & -> & <-) (k2 & -> & <-). exists (k1 ++ k2).
  by rewrite <- app_assoc, length_app.
Qed.

Lemma appended_length {A} n (l l' : list A) : appended n l l' → length l' = (length l + n)%nat.
Proof. intros (k & -> & <-). apply length_app. Qed.

Lemma appended_prefix {A} n (l l' : list A) : appended n l l' → l `prefix_of` l'.
Proof. intros (k & -> & _). by exists k. Qed.

Lemma grown_refl r : grown no_counts r r.
Proof. split; try apply appended_refl; simpl; auto with lia. Qed.

Lemma grown_trans d1 d2 r1 r2 r3 :
  grown d1 r1 r2 → grown d2 r2 r3 → grown (add_counts d1 d2) r1 r3.
Proof.
  intros [] []. split; simpl; try (eapply appended_trans; eassumption); [lia|congruence|].
  intros i Hi. rewrite gr_funcs1 by lia. auto.
Qed.

(** What reading back the functions from [lo] on depends on. *)
Record agree (lo : nat) (r r' : luac_report) : Prop := {
  ag_strs : dg_data (r_strs r) `prefix_of` dg_data (r_strs r');
  ag_codes : dg_data (r_codes r) `prefix_of` dg_data (r_codes r');
  ag_numbers : dg_data (r_numbers r) `prefix_of` dg_data (r_numbers r');
  ag_lines : dg_data (r_line_numbers r) `prefix_of` dg_data (r_line_numbers r');
  ag_count : (r_func_count r <= r_func_count r')%nat;
  ag_funcs : ∀ i, (lo <= i < r_func_count r)%nat → r_funcs r' !! i = r_funcs r !! i;
}.

Lemma grown_agree d lo r r' : grown d r r' → agree lo r r'.
Proof.
  intros []. split; eauto using appended_prefix; [lia|].
  intros i [_ Hi]. auto.
Qed.

Lemma agree_above lo lo' r r' : agree lo r r' → (lo <= lo')%nat → agree lo' r r'.
Proof. intros [] Hlo. split; auto. intros i Hi. apply ag_funcs0. lia. Qed.

Section agree.
Context (lo : nat) (r r' : luac_report) (Ha : agree lo r r').

Lemma str_at_agree i o : str_at r i = Some o → str_at r' i = Some o.
Proof.
  unfold str_at. intros H. apply bind_Some in H as (d & Hd & H).
  by rewrite (prefix_lookup_Some _ _ _ _ Hd (ag_strs _ _ _ Ha)).
Qed.

Lemma block_at_agree g g' i o :
  dg_data g `prefix_of` dg_data g' → block_at g i = Some o → block_at g' i = Some o.
Proof.
  unfold block_at. intros Hg H. apply bind_Some in H as (d & Hd & H).
  by rewrite (prefix_lookup_Some _ _ _ _ Hd Hg).
Qed.

Lemma const_at_agree k c : const_at r k = Some c → const_at r' k = Some c.
Proof.
  destruct k as [|i|i]; cbn [const_at]; [done| |]; intros H;
    apply bind_Some in H as (d & Hd & H).
  - by rewrite (prefix_lookup_Some _ _ _ _ Hd (ag_numbers _ _ _ Ha)).
  - apply bind_Some in H as (s & Hs & H).
    rewrite (prefix_lookup_Some _ _ _ _ Hd (ag_strs _ _ _ Ha)). simpl.
    by rewrite (str_at_agree _ _ Hs).
Qed.
End agree.

Lemma mapM_mono {A B} (f g : A → option B) l k :
  (∀ x y, f x = Some y → g x = Some y) → mapM f l = Some k → mapM g l = Some k.
Proof.
  intros Hfg. rewrite !mapM_Some. intros H. eapply Forall2_impl; eauto.
Qed.

Lemma undump_agree fuel : ∀ lo r r' id p,
  agree lo r r' → undump fuel lo r id = Some p → undump fuel lo r' id = Some p.
Proof.
  induction fuel as [|fuel IH]; intros lo r r' id p Ha; [done|]. cbn [undump].
  destruct (decide (lo <= id < r_func_count r)%nat) as [Hid|]; [|done].
  rewrite decide_True by (pose proof (ag_count _ _ _ Ha); lia).
  rewrite (ag_funcs _ _ _ Ha id Hid). destruct (r_funcs r !! id) as [f|]; [|done]. simpl.
  intros H. apply bind_Some in H as (src & Hs & H). rewrite (str_at_agree _ _ _ Ha _ _ Hs). simpl.
  apply bind_Some in H as (code & Hc & H).
  rewrite (block_at_agree _ (r_codes r') _ _ (ag_codes _ _ _ Ha) Hc). simpl.
  apply bind_Some in H as (k & Hk & H).
  rewrite (mapM_mono _ (const_at r') _ _ (const_at_agree _ _ _ Ha) Hk). simpl.
  apply bind_Some in H as (ls & Hl & H).
  rewrite (block_at_agree _ (r_line_numbers r') _ _ (ag_lines _ _ _ Ha) Hl). simpl.
  apply bind_Some in H as (ns & Hn & H).
  rewrite (mapM_mono _ (str_at r') _ _ (str_at_agree _ _ _ Ha) Hn). simpl.
  apply bind_Some in H as (us & Hu & H).
  rewrite (mapM_mono _ (str_at r') _ _ (str_at_agree _ _ _ Ha) Hu). simpl.
  apply bind_Some in H as (ps & Hp & H).
  rewrite (mapM_mono _ (undump fuel (S id) r') _ _
    (λ x y, IH (S id) r r' x y (agree_above _ (S id) _ _ Ha ltac:(lia))) Hp). done.
Qed.

Lemma undump_lower fuel lo lo' r id p :
  (lo' <= lo)%nat → undump fuel lo r id = Some p → undump fuel lo' r id = Some p.
Proof.
  destruct fuel; [done|]. cbn [undump]. intros Hlo.
  destruct (decide (lo <= id < r_func_count r)%nat); [|done].
  by rewrite (decide_True (P := (lo' <= id < r_func_count r)%nat)) by lia.
Qed.

Lemma fits_eq d d' r : fits d r → d = d' → fits d' r.
Proof. by intros ? <-. Qed.

Lemma fits_l a b r : fits (add_counts a b) r → fits a r.
Proof. intros []. split; simpl in *; auto; lia. Qed.

Lemma fits_r a b r r' : fits (add_counts a b) r → grown a r r' → fits b r'.
Proof.
  intros [] []. split; simpl in *; rewrite ?gr_len0; try done;
    rewrite ?gr_count0, ?(appended_length _ _ _ gr_strs0), ?(appended_length _ _ _ gr_codes0),
      ?(appended_length _ _ _ gr_numbers0), ?(appended_length _ _ _ gr_lines0); lia.
Qed.

(** ** What the loaders do on a dump *)

Section specs.
Context `{Platform, HeapLaws}.
Context (lua_bytes : nat) (Hlb : (1 <= lua_bytes)%nat).

Lemma loads_block n bs r :
  n = Z.of_nat (length bs) → loads (LoadBlock n) bs r (returns bs r).
Proof.
  intros ->. exists bs, r. split; [|done]. intros t. unfold LoadBlock. rewrite Nat2Z.id.
  rewrite load_Ok by (rewrite length_app; lia). cbn [mbind res_bind].
  by rewrite drop_0, take_app_length, drop_app_length.
Qed.

Lemma loads_byte b r : loads LoadByte [b] r (returns b r).
Proof.
  unfold LoadByte. eapply loads_last; [by apply loads_block|]. intros ? ? [-> ->].
  apply loads_ret. split; [simpl; lia|done].
Qed.

Lemma loads_int z r : int_ok z → loads LoadInt (dump_int z) r (returns z r).
Proof.
  intros Hz. unfold LoadInt, dump_int. eapply loads_last; [by apply loads_block|].
  intros ? ? [-> ->]. apply loads_ret. split; [|done].
  rewrite le_val_le_bytes by (apply (wrapu_range 32); lia).
  unfold wraps, wrapu, int_ok in *. rewrite Zplus_mod_idemp_l, Z.mod_small by lia. lia.
Qed.

Lemma loads_integer z r :
  - 2 ^ (8 * Z.of_nat lua_bytes - 1) <= z < 2 ^ (8 * Z.of_nat lua_bytes - 1) →
  loads (LoadInteger lua_bytes) (le_bytes lua_bytes (wrapu (8 * Z.of_nat lua_bytes) z)) r
    (returns z r).
Proof.
  intros Hz. unfold LoadInteger. set (w := 8 * Z.of_nat lua_bytes) in *.
  assert (256 ^ Z.of_nat lua_bytes = 2 ^ w) as Hw
    by (unfold w; change 256 with (2 ^ 8); rewrite <- Z.pow_mul_r by lia; done).
  eapply loads_last; [apply loads_block; by rewrite length_le_bytes|].
  intros ? ? [-> ->]. apply loads_ret. split; [|done].
  rewrite le_val_le_bytes by (rewrite Hw; apply wrapu_range; lia).
  unfold wraps, wrapu. rewrite Zplus_mod_idemp_l.
  assert (2 ^ w = 2 * 2 ^ (w - 1)) as E
    by (rewrite <- Z.pow_succ_r by lia; f_equal; lia).
  rewrite Z.mod_small by lia. lia.
Qed.

Lemma size_t_small z : 0 <= z < 2 ^ 32 → size_t z = z.
Proof.
  intros Hz. unfold size_t, sizet_bits. apply wrapu_small. split; [lia|].
  destruct ptr_bytes_cases as [-> | ->]; [change (2 ^ (8 * 4)) with (2 ^ 32); lia|]. change (2 ^ (8 * 8)) with (2 ^ 32 * 2 ^ 32). lia.
Qed.

Lemma zeroed_gives n r : is_Some (heap_malloc n) → loads (zeroed n) [] r (returns (replicate (Z.to_nat n) 0) r).
Proof.
  intros [b Hb]. unfold zeroed.
  eapply loads_bind0; [apply loads_lift; by rewrite Hb|]. intros ? ? [-> ->].
  pose proof (heap_malloc_length _ _ Hb) as Hl. apply loads_lift.
  rewrite store_Ok by (rewrite length_replicate; lia).
  by rewrite take_0, length_replicate, drop_ge, app_nil_r by lia.
Qed.

(** *** Strings *)

Definition str_block (o : option (list Z)) : option (list Z) := (λ s, s ++ [0]) <$> o.
Definition str_len (o : option (list Z)) : Z :=
  match o with None => 0 | Some s => Z.of_nat (length s) + 1 end.

Lemma loads_string o r :
  str_ok o → served (str_requests o) → loads LoadString (dump_str o) r (returns (str_block o, str_len o) r).
Proof.
  intros Ho Hg. unfold LoadString. destruct o as [s|]; cbn [dump_str str_block str_len fmap option_fmap].
  2: { eapply loads_last; [apply loads_byte|]. intros ? ? [-> ->]. by apply loads_ret. }
  cbn [str_ok str_requests] in Ho, Hg. apply served_one in Hg. set (n := Z.of_nat (length s) + 1) in *.
  assert (loads LoadString ((if n <? 255 then [n] else 255 :: dump_int n) ++ s) r
    (returns (Some (s ++ [0]), n) r)); [|done].
  assert (∀ r, loads (buff ← zeroed n;
    if 1 <? n then
      d ← LoadBlock (n - 1); buff ← lift (store buff 0 d); mret (Some buff, n)
    else mret (Some buff, n)) s r (returns (Some (s ++ [0]), n) r)) as Hrest.
  { clear r. intros r. eapply loads_bind0; [by apply zeroed_gives|]. intros ? ? [-> ->].
    replace (Z.to_nat n) with (length s + 1)%nat by lia. rewrite replicate_add.
    destruct (Z.ltb_spec 1 n) as [Hn1|Hn1].
    - eapply loads_last; [apply loads_block; lia|]. intros ? ? [-> ->].
      eapply loads_bind0.
      + apply loads_lift. rewrite store_Ok by (rewrite length_app, length_replicate; lia).
        rewrite take_0, drop_app_length' by (by rewrite length_replicate). done.
      + intros ? ? [-> ->]. by apply loads_ret.
    - destruct s; [|simpl in *; lia]. by apply loads_ret. }
  unfold LoadString. destruct (Z.ltb_spec n 255).
  - eapply loads_bind; [apply loads_byte|]. intros ? ? [-> ->].
    destruct (Z.eqb_spec n 0); [lia|]. destruct (Z.eqb_spec n 255); [lia|].
    eapply loads_bind0; [by apply loads_ret with (Q := returns n r)|]. intros ? ? [-> ->].
    apply Hrest.
  - change (255 :: dump_int n) with ([255] ++ dump_int n). rewrite <- app_assoc.
    eapply loads_bind; [apply loads_byte|]. intros ? ? [-> ->]. cbn [Z.eqb Pos.eqb].
    eapply (loads_bind (dump_int n) s _ _ _ (returns n r)).
    + eapply loads_last; [apply loads_int; unfold int_ok; lia|]. intros ? ? [-> ->].
      apply loads_ret. split; [apply size_t_small; lia|done].
    + intros ? ? [-> ->]. apply Hrest.
Qed.

Definition one_str : counts := Counts 1 0 0 0 0.
Definition one_number : counts := Counts 0 0 1 0 0.

(** Pushing an entry puts it at its place. *)
Lemma loads_push_str d r :
  fits one_str r → loads (push_str d) [] r (λ i r', grown one_str r r' ∧
    dg_data (r_strs r') !! i = Some d).
Proof.
  intros []. simpl in *. unfold push_str.
  eapply loads_bind0; [apply loads_get|]. intros ? ? [-> ->].
  eapply loads_bind0; [apply loads_lift; unfold push; by rewrite decide_True by lia|].
  intros ? ? [-> ->]. eapply loads_bind0; [apply loads_put|]. intros ? ? [-> ->].
  apply loads_ret. split; [|simpl; by rewrite list_lookup_middle].
  split; simpl; try apply appended_refl; auto. by exists [d].
Qed.

Lemma loads_push_number d r :
  fits one_number r → loads (push_number d) [] r (λ i r', grown one_number r r' ∧
    dg_data (r_numbers r') !! i = Some d).
Proof.
  intros []. simpl in *. unfold push_number.
  eapply loads_bind0; [apply loads_get|]. intros ? ? [-> ->].
  eapply loads_bind0; [apply loads_lift; unfold push; by rewrite decide_True by lia|].
  intros ? ? [-> ->]. eapply loads_bind0; [apply loads_put|]. intros ? ? [-> ->].
  apply loads_ret. split; [|simpl; by rewrite list_lookup_middle].
  split; simpl; try apply appended_refl; auto. by exists [d].
Qed.

Lemma loads_push_code d r :
  fits (Counts 0 1 0 0 0) r → loads (push_code d) [] r (λ i r',
    grown (Counts 0 1 0 0 0) r r' ∧ dg_data (r_codes r') !! i = Some d).
Proof.
  intros []. simpl in *. unfold push_code.
  eapply loads_bind0; [apply loads_get|]. intros ? ? [-> ->].
  eapply loads_bind0; [apply loads_lift; unfold push; by rewrite decide_True by lia|].
  intros ? ? [-> ->]. eapply loads_bind0; [apply loads_put|]. intros ? ? [-> ->].
  apply loads_ret. split; [|simpl; by rewrite list_lookup_middle].
  split; simpl; try apply appended_refl; auto. by exists [d].
Qed.

Lemma loads_push_lines d r :
  fits (Counts 0 0 0 1 0) r → loads (push_lines d) [] r (λ i r',
    grown (Counts 0 0 0 1 0) r r' ∧ dg_data (r_line_numbers r') !! i = Some d).
Proof.
  intros []. simpl in *. unfold push_lines.
  eapply loads_bind0; [apply loads_get|]. intros ? ? [-> ->].
  eapply loads_bind0; [apply loads_lift; unfold push; by rewrite decide_True by lia|].
  intros ? ? [-> ->]. eapply loads_bind0; [apply loads_put|]. intros ? ? [-> ->].
  apply loads_ret. split; [|simpl; by rewrite list_lookup_middle].
  split; simpl; try apply appended_refl; auto. by exists [d].
Qed.

Lemma str_entry_at r i o m ty :
  dg_data (r_strs r) !! i = Some (LuacData (VData (str_block o)) (str_len o) m ty) →
  str_at r i = Some o.
Proof.
  intros E. unfold str_at. rewrite E. destruct o as [s|]; simpl; [|done].
  rewrite length_app. simpl. destruct (Z.eqb_spec (Z.of_nat (length s) + 1)
    (Z.of_nat (length s + 1))); [|lia].
  by rewrite Nat.add_sub, take_app_length.
Qed.

Lemma loads_name o r :
  str_ok o → served (str_requests o) → fits one_str r →
  loads load_name (dump_str o) r (λ i r', grown one_str r r' ∧ str_at r' i = Some o).
Proof.
  intros Ho Hg Hf. unfold load_name. eapply loads_last; [by apply loads_string|].
  intros ? ? [-> ->]. eapply loads_weaken; [by apply loads_push_str|].
  intros i r' [Hgr Hi]. split; [done|]. by eapply str_entry_at.
Qed.

(** *** Constants *)

Lemma loads_constant c r :
  const_ok lua_bytes c → served (const_requests c) → fits (const_counts c) r →
  loads (load_constant lua_bytes) (dump_const lua_bytes c) r (λ k r',
    grown (const_counts c) r r' ∧ ∃ k', k = Some k' ∧ const_at r' k' = Some c).
Proof.
  intros Hc Hg Hf. unfold load_constant. destruct c as [|b|bits|z|long s]; cbn [dump_const].
  - eapply loads_last; [apply loads_byte|]. intros ? ? [-> ->]. apply loads_ret.
    split; [apply grown_refl|]. by exists KNone.
  - eapply loads_bind; [apply loads_byte|]. intros ? ? [-> ->]. cbn [Z.eqb LUA_TBOOLEAN LUA_TNIL].
    eapply loads_last; [apply loads_byte|]. intros ? ? [-> ->].
    eapply loads_bind0; [by apply loads_push_number|]. intros i r' [Hgr Hi].
    apply loads_ret. split; [done|]. exists (KNumber i). split; [done|]. cbn. by rewrite Hi.
  - eapply loads_bind; [apply loads_byte|]. intros ? ? [-> ->].
    eapply loads_last; [apply loads_block; by rewrite Hc|]. intros ? ? [-> ->].
    eapply loads_bind0; [by apply loads_push_number|]. intros i r' [Hgr Hi].
    apply loads_ret. split; [done|]. exists (KNumber i). split; [done|]. cbn. by rewrite Hi.
  - eapply loads_bind; [apply loads_byte|]. intros ? ? [-> ->].
    eapply loads_last; [by apply loads_integer|]. intros ? ? [-> ->].
    eapply loads_bind0; [by apply loads_push_number|]. intros i r' [Hgr Hi].
    apply loads_ret. split; [done|]. exists (KNumber i). split; [done|]. cbn. by rewrite Hi.
  - eapply loads_bind; [apply loads_byte|]. intros ? ? [-> ->].
    assert (loads ('(d, len) ← LoadString;
      i ← push_str (LuacData (VData d) len 0 (if long then LUA_TLNGSTR else LUA_TSHRSTR));
      mret (Some (KStr i))) (dump_str (Some s)) r (λ k r', grown one_str r r' ∧
        ∃ k', k = Some k' ∧ const_at r' k' = Some (CStr long s))) as Hs; [|by destruct long].
    eapply loads_last; [by apply loads_string|]. intros ? ? [-> ->].
    eapply loads_bind0; [by apply loads_push_str|]. intros i r' [Hgr Hi].
    apply loads_ret. split; [done|]. exists (KStr i). split; [done|].
    cbn [const_at]. rewrite (str_entry_at _ _ _ _ _ Hi), Hi. by destruct long.
Qed.

(** *** Sequences *)

(** A loop whose elements are each loaded and read back, in a report with at
    least [m] functions. *)
Lemma loads_items {A B} m (f : loader A) (enc : B → list Z) (cnt : B → counts)
    (rd : luac_report → A → option B) (ok : B → Prop) :
  (∀ x r, ok x → fits (cnt x) r → (m <= r_func_count r)%nat →
     loads f (enc x) r (λ a r', grown (cnt x) r r' ∧ rd r' a = Some x)) →
  (∀ d r r' a x, grown d r r' → rd r a = Some x → rd r' a = Some x) →
  ∀ l r, Forall ok l → fits (sum_counts cnt l) r → (m <= r_func_count r)%nat →
  loads (loop (length l) f) (concat (map enc l)) r
    (λ as_ r', grown (sum_counts cnt l) r r' ∧ mapM (rd r') as_ = Some l).
Proof.
  intros Hf Hrd l. induction l as [|x l IH]; intros r Hok Hfit Hm.
  { apply loads_ret. split; [apply grown_refl|done]. }
  inversion Hok as [|? ? Hx Hl]; subst. cbn [length loop map concat].
  eapply loads_bind; [apply Hf; eauto using fits_l|]. intros a r1 [G1 R1].
  eapply loads_last; [apply IH; [done|eapply fits_r; [exact Hfit|done]|]|].
  { rewrite (gr_count _ _ _ G1). lia. }
  intros as_ r2 [G2 R2]. apply loads_ret. split; [by eapply grown_trans|].
  simpl. by rewrite (Hrd _ _ _ _ _ G2 R1), R2.
Qed.

Lemma loads_constants_loop l : ∀ r,
  Forall (const_ok lua_bytes) l → served (concat (map const_requests l)) → fits (sum_counts const_counts l) r →
  loads (constants_loop lua_bytes (length l)) (concat (map (dump_const lua_bytes) l)) r
    (λ ks r', grown (sum_counts const_counts l) r r' ∧ mapM (const_at r') ks = Some l).
Proof.
  induction l as [|x l IH]; intros r Hok Hg Hfit.
  { apply loads_ret. split; [apply grown_refl|done]. }
  inversion Hok as [|? ? Hx Hl]; subst. cbn [length constants_loop map concat] in *.
  apply served_app in Hg as [Hg1 Hg2].
  eapply loads_bind; [apply loads_constant; eauto using fits_l|].
  intros a r1 [G1 (k & -> & R1)].
  eapply loads_last; [apply IH; [done|done|eapply fits_r; [exact Hfit|done]]|].
  intros as_ r2 [G2 R2]. apply loads_ret. split; [by eapply grown_trans|].
  simpl. by rewrite (const_at_agree 0 _ _ (grown_agree _ _ _ _ G2) _ _ R1), R2.
Qed.

Lemma loads_count {A} (l : list A) r :
  count_ok l → loads LoadInt (dump_count l) r (returns (Z.of_nat (length l)) r).
Proof. intros Hl. apply loads_int. unfold int_ok, count_ok in *. lia. Qed.

Lemma ptr_bytes_le : 4 <= ptr_bytes <= 8.
Proof. clear -H. destruct ptr_bytes_cases as [-> | ->]; lia. Qed.

Lemma loads_constants h r :
  head_ok lua_bytes h → served (room_requests (ph_k h) ptr_bytes ++ concat (map const_requests (ph_k h))) →
  fits (sum_counts const_counts (ph_k h)) r →
  loads (LoadConstants lua_bytes) (dump_k lua_bytes h) r
    (λ ks r', grown (sum_counts const_counts (ph_k h)) r r' ∧
       mapM (const_at r') ks = Some (ph_k h)).
Proof.
  intros Ho [Hg1 Hg2]%served_app Hf. destruct (ho_k _ _ Ho) as [Hn Hk]. unfold LoadConstants, dump_k.
  eapply loads_bind; [by apply loads_count|]. intros ? ? [-> ->].
  destruct (Z.eqb_spec (Z.of_nat (length (ph_k h))) 0) as [E|E].
  - destruct (ph_k h) as [|c k]; [|simpl in E; lia].
    apply loads_ret. split; [apply grown_refl|done].
  - eapply loads_bind0.
    { apply zeroed_gives, served_one. by destruct (ph_k h). }
    intros ? ? [_ ->]. rewrite Nat2Z.id. by apply loads_constants_loop.
Qed.

(** *** Blocks *)

(** A table of [k]-byte elements: its count comes first. *)
Lemma table_count k l : 0 < k → table_ok k l →
  int_ok (Z.of_nat (length l) / k) ∧ Z.of_nat (length l) / k * k = Z.of_nat (length l) ∧
  0 <= Z.of_nat (length l) / k.
Proof.
  intros Hk [Hm Hl]. pose proof (Z.div_mod (Z.of_nat (length l)) k ltac:(lia)).
  assert (0 <= Z.of_nat (length l) / k) by (apply Z.div_pos; lia).
  unfold int_ok. repeat split; nia.
Qed.

Lemma loads_code l r :
  table_ok 4 l → is_Some (heap_malloc (Z.of_nat (length l))) →
  loads LoadCode (dump_int (Z.of_nat (length l) / 4) ++ l) r
    (returns (l, Z.of_nat (length l)) r).
Proof.
  intros Hl [b Hb]. destruct (table_count 4 l ltac:(lia) Hl) as (Hi & Hm & _). destruct Hl as [_ Hl].
  unfold LoadCode. eapply loads_bind; [by apply loads_int|]. intros ? ? [-> ->].
  rewrite Hm, size_t_small by lia.
  eapply loads_bind0; [apply loads_lift; by rewrite Hb|]. intros ? ? [-> ->].
  eapply loads_last; [by apply loads_block|]. intros ? ? [-> ->].
  eapply loads_bind0; [apply loads_lift, store_whole|].
  { pose proof (heap_malloc_length _ _ Hb). lia. }
  intros ? ? [-> ->]. by apply loads_ret.
Qed.

Lemma loads_upvalues h r :
  head_ok lua_bytes h → served (table_requests (ph_upvalues h)) →
  loads LoadUpvalues (dump_upvalues h) r (returns (ph_upvalues h) r).
Proof.
  intros Ho Hg. pose proof (ho_upvalues _ _ Ho) as Hl.
  destruct (table_count 2 _ ltac:(lia) Hl) as (Hi & Hm & _). destruct Hl as [_ Hl].
  unfold LoadUpvalues, dump_upvalues. set (l := ph_upvalues h) in *.
  eapply loads_bind; [by apply loads_int|]. intros ? ? [-> ->].
  destruct (Z.eqb_spec (Z.of_nat (length l) / 2) 0) as [E|E].
  - destruct l; [by apply loads_ret|]. rewrite E in Hm. simpl in Hm. lia.
  - rewrite Hm, size_t_small by lia. destruct (served_one (Z.of_nat (length l))) as [b Hb]; [by destruct l|].
    eapply loads_bind0; [apply loads_lift; by rewrite Hb|]. intros ? ? [-> ->].
    eapply loads_last; [by apply loads_block|]. intros ? ? [-> ->].
    apply loads_lift, store_whole. pose proof (heap_malloc_length _ _ Hb). lia.
Qed.

Lemma loads_room {A} (l : list A) size r :
  served (room_requests l size) → loads (room (Z.of_nat (length l)) size) [] r (returns tt r).
Proof.
  intros Hg. unfold room. destruct l as [|x l]; [by apply loads_ret|].
  rewrite (proj2 (Z.ltb_lt _ _)) by (simpl; lia). destruct (served_one _ Hg) as [b Hb].
  eapply loads_bind0; [apply loads_lift; by rewrite Hb|]. intros ? ? [_ ->].
  by apply loads_ret.
Qed.

(** *** Debug information *)

Definition locvar_at (r : luac_report) (v : nat * Z * Z) : option (option (list Z) * Z * Z) :=
  (λ o, (o, v.1.2, v.2)) <$> str_at r v.1.1.

Lemma loads_locvar v r :
  (str_ok v.1.1 ∧ int_ok v.1.2 ∧ int_ok v.2) ∧ served (str_requests v.1.1) → fits one_str r →
  loads load_locvar (dump_locvar v) r (λ a r', grown one_str r r' ∧ locvar_at r' a = Some v).
Proof.
  destruct v as [[o a] b]. cbn [fst snd]. intros ((Ho & Ha & Hb) & Hg) Hf.
  unfold load_locvar, dump_locvar. cbn [fst snd].
  eapply loads_bind; [by apply loads_name|]. intros i r1 [G R].
  eapply loads_bind; [by apply loads_int|]. intros ? ? [-> ->].
  eapply loads_last; [by apply loads_int|]. intros ? ? [-> ->].
  apply loads_ret. split; [done|]. unfold locvar_at. simpl. by rewrite R.
Qed.

Lemma str_at_grown d r r' i o : grown d r r' → str_at r i = Some o → str_at r' i = Some o.
Proof. intros G. apply (str_at_agree 0), (grown_agree _ _ _ _ G). Qed.

Lemma locvar_at_grown d r r' v x :
  grown d r r' → locvar_at r v = Some x → locvar_at r' v = Some x.
Proof.
  unfold locvar_at. intros G E. apply fmap_Some in E as (o & Ho & ->).
  by rewrite (str_at_grown _ _ _ _ _ G Ho).
Qed.

(** The loaded local variables as the two tables of a function. *)
Lemma locvars_tables r vars : ∀ l,
  mapM (locvar_at r) vars = Some l →
  ∃ ns, mapM (str_at r) (map (λ v, v.1.1) vars) = Some ns ∧
    zip_with (λ n ab, (n, ab.1, ab.2)) ns
      (pairs (concat (map (λ v, [v.1.2; v.2]) vars))) = l.
Proof.
  induction vars as [|v vars IH]; intros l E; simpl in E.
  { injection E as <-. by exists []. }
  apply bind_Some in E as (x & Hx & E). apply bind_Some in E as (l' & Hl & E).
  injection E as <-. destruct (IH _ Hl) as (ns & Hns & Hz).
  unfold locvar_at in Hx. apply fmap_Some in Hx as (o & Ho & ->).
  exists (o :: ns). simpl. rewrite Ho, Hns. split; [done|]. by rewrite Hz.
Qed.

Definition debug_counts (h : phead) : counts :=
  add_counts (Counts 0 0 0 1 0) (add_counts (sum_counts (λ _, one_str) (ph_locvars h))
    (sum_counts (λ _, one_str) (ph_upnames h))).

Lemma loads_debug h r :
  head_ok lua_bytes h → served (debug_requests h) → fits (debug_counts h) r →
  loads LoadDebug (dump_debug h) r (λ a r', grown (debug_counts h) r r' ∧
    block_at (r_line_numbers r') a.1.1 = Some (ph_lines h) ∧
    mapM (locvar_at r') a.1.2 = Some (ph_locvars h) ∧
    mapM (str_at r') a.2 = Some (ph_upnames h)).
Proof.
  intros Ho Hg Hf. unfold debug_requests in Hg. rewrite !served_app in Hg.
  destruct Hg as (Hgl & Hg1 & Hg2 & Hgv & Hg3 & Hgu). pose proof (ho_lines _ _ Ho) as Hl.
  destruct (table_count 4 _ ltac:(lia) Hl) as (Hi & Hm & Hp). destruct Hl as [_ Hl].
  destruct (ho_locvars _ _ Ho) as [Hcv Hv]. destruct (ho_upnames _ _ Ho) as [Hcu Hu].
  unfold LoadDebug, dump_debug. set (l := ph_lines h) in *.
  eapply loads_bind; [by apply loads_int|]. intros ? ? [-> ->].
  rewrite Hm, size_t_small by lia.
  eapply (loads_bind l _ _ _ _ (λ d r', default [] d = l ∧ r' = r)).
  { destruct (Z.ltb_spec 0 (Z.of_nat (length l) / 4)) as [Hn1|Hn1].
    - eapply loads_bind0; [apply zeroed_gives, served_one; by destruct l|]. intros ? ? [-> ->].
      eapply loads_last; [by apply loads_block|]. intros ? ? [-> ->].
      eapply loads_bind0; [apply loads_lift, store_whole; rewrite length_replicate; lia|].
      intros ? ? [-> ->]. by apply loads_ret.
    - assert (length l = 0)%nat as Hz by lia. apply nil_length_inv in Hz. rewrite Hz.
      by apply loads_ret. }
  intros d ? [Hd ->].
  eapply loads_bind0; [apply loads_push_lines; by eapply fits_l|]. intros li r1 [G1 Hli].
  assert (fits (add_counts (sum_counts (λ _, one_str) (ph_locvars h))
    (sum_counts (λ _, one_str) (ph_upnames h))) r1) as Hf1 by (by eapply fits_r).
  eapply loads_bind; [by apply loads_count|]. intros ? ? [-> ->].
  eapply loads_bind0; [by apply loads_room|]. intros ? ? [_ ->].
  eapply loads_bind0; [by apply loads_room|]. intros ? ? [_ ->]. rewrite Nat2Z.id.
  eapply loads_bind.
  { apply (loads_items 0 load_locvar dump_locvar (λ _, one_str) locvar_at
      (λ v, (str_ok v.1.1 ∧ int_ok v.1.2 ∧ int_ok v.2) ∧ served (str_requests v.1.1)));
      [intros v r0 Hv0 Hf0 _; exact (loads_locvar v r0 Hv0 Hf0)|apply locvar_at_grown|exact (Forall_served _ (λ v, str_requests v.1.1) _ Hv Hgv)|by eapply fits_l|lia]. }
  intros vars r2 [G2 R2].
  eapply loads_bind; [by apply loads_count|]. intros ? ? [-> ->].
  eapply loads_bind0; [by apply loads_room|]. intros ? ? [_ ->]. rewrite Nat2Z.id.
  eapply loads_last.
  { apply (loads_items 0 load_name dump_str (λ _, one_str) str_at (λ o, str_ok o ∧ served (str_requests o)));
      [intros o r0 [Ho0 Hg0] Hf0 _; exact (loads_name o r0 Ho0 Hg0 Hf0)|apply str_at_grown|exact (Forall_served _ str_requests _ Hu Hgu)|by eapply fits_r|lia]. }
  intros us r3 [G3 R3]. apply loads_ret. simpl.
  split; [unfold debug_counts; eauto using grown_trans|].
  split; [|split; [|done]].
  - apply (block_at_agree (r_line_numbers r1));
      [eapply appended_prefix, (gr_lines _ _ _ (grown_trans _ _ _ _ _ G2 G3))|].
    unfold block_at. rewrite Hli. simpl. rewrite Hd. by rewrite Z.eqb_refl.
  - eapply mapM_mono; [|exact R2]. intros. by eapply locvar_at_grown.
Qed.

(** *** Functions *)

Lemma loads_claim r :
  loads claim_func [] r (λ _ r', grown (Counts 0 0 0 0 1) r r').
Proof.
  unfold claim_func. eapply loads_bind0; [apply loads_get|]. intros ? ? [-> ->].
  eapply loads_weaken; [apply loads_put|]. intros ? ? [_ ->].
  split; simpl; auto using appended_refl. lia.
Qed.

Lemma loads_protos fuel m ps r :
  (∀ p r, p ∈ ps → fits (proto_counts p) r → loads (LoadFunction lua_bytes fuel (r_func_count r))
     (dump lua_bytes p) r (λ id r', id = r_func_count r ∧ grown (proto_counts p) r r' ∧
        undump fuel id r' id = Some p)) →
  (length ps <= 1024)%nat → fits (sum_counts proto_counts ps) r → (m <= r_func_count r)%nat →
  loads (LoadProtos (LoadFunction lua_bytes fuel))
    (dump_count ps ++ concat (map (dump lua_bytes) ps)) r
    (λ ids r', grown (sum_counts proto_counts ps) r r' ∧
       mapM (undump fuel m r') ids = Some ps).
Proof.
  intros IH Hn Hf Hm. unfold LoadProtos.
  eapply loads_bind; [apply loads_count; unfold count_ok; lia|]. intros ? ? [-> ->].
  rewrite Nat2Z.id. eapply loads_last.
  - apply (loads_items m _ _ proto_counts (undump fuel m) (λ p, p ∈ ps)); [| | |done|done].
    + intros p r1 Hp Hf1 Hm1. eapply loads_bind0; [apply loads_get|]. intros ? ? [-> ->].
      eapply loads_weaken; [by apply IH|]. intros id r2 (-> & G & U).
      split; [done|]. by eapply undump_lower.
    + intros d r1 r2 a x G. by apply undump_agree, (grown_agree _ _ _ _ G).
    + by apply Forall_forall.
  - intros ids r' HR. destruct (Z.ltb_spec 1024 (Z.of_nat (length ps))); [lia|].
    by apply loads_ret.
Qed.

Lemma proto_ok_inner h ps p :
  proto_ok lua_bytes (Proto h ps) → p ∈ ps → proto_ok lua_bytes p.
Proof.
  intros (_ & _ & Hps) Hp. induction ps as [|q ps IH]; [by apply elem_of_nil in Hp|].
  simpl in Hps. destruct Hps as [Hq Hps].
  apply elem_of_cons in Hp as [->|Hp]; auto.
Qed.

Lemma depth_inner h ps p : p ∈ ps → (depth p < depth (Proto h ps))%nat.
Proof.
  intros Hp. simpl. induction ps as [|q ps IH]; [by apply elem_of_nil in Hp|].
  apply elem_of_cons in Hp as [->|Hp]; simpl; [lia|]. specialize (IH Hp). lia.
Qed.

Lemma sum_one_str {A} (l : list A) :
  sum_counts (λ _, one_str) l = Counts (length l) 0 0 0 0.
Proof. unfold sum_counts. induction l as [|x l IH]; [done|]. cbn [foldr length]. by rewrite IH. Qed.

(** The places of a function, in the order they are taken. *)
Definition steps (h : phead) (ps : list proto) : counts :=
  add_counts (Counts 0 0 0 0 1) (add_counts one_str (add_counts (Counts 0 1 0 0 0)
    (add_counts (sum_counts const_counts (ph_k h))
      (add_counts (sum_counts proto_counts ps) (debug_counts h))))).

Lemma steps_counts h ps : proto_counts (Proto h ps) = steps h ps.
Proof.
  cbn [proto_counts]. unfold steps, head_counts, debug_counts. rewrite !sum_one_str.
  unfold add_counts. simpl. f_equal; lia.
Qed.

Definition with_func (id : nat) (f : luf_func) (r : luac_report) : luac_report :=
  LuacReport (r_strs r) (r_codes r) (r_numbers r) (r_upvalues r) (r_line_numbers r)
    (<[id := f]> (r_funcs r)) (r_func_count r).

Lemma loads_set_func id f r :
  (id < 1024)%nat → loads (set_func id f) [] r (λ _ r', r' = with_func id f r).
Proof.
  intros Hid. unfold set_func. eapply loads_bind0; [apply loads_get|]. intros ? ? [-> ->].
  rewrite decide_True by done. eapply loads_weaken; [apply loads_put|]. by intros ? ? [_ ->].
Qed.

(** The tables hold what the entry of the function refers to. *)
Record filled (fuel : nat) (r : luac_report) (id : nat) (h : phead) (ps : list proto)
    (src code : nat) (k : list luac_const) (li : nat) (vars : list (nat * Z * Z))
    (us ids : list nat) : Prop := {
  fl_source : str_at r src = Some (ph_source h);
  fl_code : block_at (r_codes r) code = Some (ph_code h);
  fl_k : mapM (const_at r) k = Some (ph_k h);
  fl_lines : block_at (r_line_numbers r) li = Some (ph_lines h);
  fl_locvars : mapM (locvar_at r) vars = Some (ph_locvars h);
  fl_upnames : mapM (str_at r) us = Some (ph_upnames h);
  fl_p : mapM (undump fuel (S id) r) ids = Some ps;
}.

Lemma undump_filled fuel r id h ps src code k li vars us ids :
  filled fuel r id h ps src code k li vars us ids →
  (id < length (r_funcs r))%nat → (id < r_func_count r)%nat →
  undump (S fuel) id (with_func id (LufFunc (ph_numparams h) (ph_is_vararg h)
    (ph_maxstacksize h) (ph_linedefined h) (ph_lastlinedefined h)
    (Z.of_nat (length (ph_code h)) / 4) k code li (concat (map (λ v, [v.1.2; v.2]) vars))
    (map (λ v, v.1.1) vars) (ph_upvalues h) us src ids) r) id = Some (Proto h ps).
Proof.
  intros [] Hid Hc. set (f := LufFunc _ _ _ _ _ _ _ _ _ _ _ _ _ _ _).
  assert (agree (S id) r (with_func id f r)) as Hag.
  { split; simpl; auto. intros i Hi. by rewrite list_lookup_insert_ne by lia. }
  cbn [undump]. rewrite decide_True by (simpl; lia).
  change (r_funcs (with_func id f r)) with (<[id := f]> (r_funcs r)).
  rewrite list_lookup_insert_eq by done.
  cbn [mbind option_bind lf_source lf_code lf_k lf_lineinfo lf_locvars2 lf_upvalues2 lf_p f].
  rewrite (str_at_agree _ _ _ Hag _ _ fl_source0). cbn [mbind option_bind].
  rewrite (block_at_agree _ (r_codes (with_func id f r)) _ _ (ag_codes _ _ _ Hag) fl_code0).
  cbn [mbind option_bind].
  rewrite (mapM_mono _ _ _ _ (const_at_agree _ _ _ Hag) fl_k0). cbn [mbind option_bind].
  rewrite (block_at_agree _ (r_line_numbers (with_func id f r)) _ _ (ag_lines _ _ _ Hag)
    fl_lines0).
  destruct (locvars_tables _ _ _ fl_locvars0) as (ns & Hns & Hz). cbn [mbind option_bind].
  rewrite (mapM_mono _ _ _ _ (str_at_agree _ _ _ Hag) Hns). cbn [mbind option_bind].
  rewrite (mapM_mono _ _ _ _ (str_at_agree _ _ _ Hag) fl_upnames0). cbn [mbind option_bind].
  rewrite (mapM_mono _ _ _ _ (λ x y, undump_agree fuel _ _ _ x y Hag) fl_p0).
  cbn. rewrite Z.eqb_refl, Hz. by destruct h.
Qed.

Lemma grown_set_func d id f r r' :
  grown d r r' → id = r_func_count r → grown d r (with_func id f r').
Proof.
  intros [] ->. split; simpl; try done; [by rewrite length_insert|].
  intros i Hi. rewrite list_lookup_insert_ne by lia. auto.
Qed.

Lemma loads_function fuel : ∀ p r,
  (depth p <= fuel)%nat → proto_ok lua_bytes p → served (proto_requests p) → fits (proto_counts p) r →
  loads (LoadFunction lua_bytes fuel (r_func_count r)) (dump lua_bytes p) r
    (λ id r', id = r_func_count r ∧ grown (proto_counts p) r r' ∧
       undump fuel id r' id = Some p).
Proof.
  induction fuel as [|fuel IH]; intros [h ps] r Hd Hp Hg Hfit; [simpl in Hd; lia|].
  cbn [proto_requests] in Hg. unfold head_requests in Hg. rewrite !served_app in Hg.
  destruct Hg as ((Hgs & Hgc%served_one & Hgr & Hgk & Hgu & Hgd) & Hgp).
  pose proof (proto_ok_inner h ps) as Hin. destruct Hp as (Ho & Hn & Hps).
  set (id := r_func_count r). rewrite steps_counts in *. unfold steps in Hfit.
  cbn [LoadFunction dump].
  eapply loads_bind0; [apply loads_claim|]. intros ? r1 G1.
  pose proof (fits_r _ _ _ _ Hfit G1) as F1.
  eapply loads_bind; [apply loads_name; [apply (ho_source _ _ Ho)|done|by eapply fits_l]|].
  intros src r2 [G2 R2]. pose proof (fits_r _ _ _ _ F1 G2) as F2.
  eapply loads_bind; [apply loads_int, (ho_linedefined _ _ Ho)|]. intros ? ? [-> ->].
  eapply loads_bind; [apply loads_int, (ho_lastlinedefined _ _ Ho)|]. intros ? ? [-> ->].
  eapply loads_bind; [apply loads_byte|]. intros ? ? [-> ->].
  eapply loads_bind; [apply loads_byte|]. intros ? ? [-> ->].
  eapply loads_bind; [apply loads_byte|]. intros ? ? [-> ->].
  eapply loads_bind; [apply loads_code; [apply (ho_code _ _ Ho)|done]|]. intros ? ? [-> ->].
  eapply loads_bind0; [apply loads_push_code; by eapply fits_l|]. intros code r3 [G3 R3].
  pose proof (fits_r _ _ _ _ F2 G3) as F3.
  eapply loads_bind; [apply loads_constants; [done|by apply served_app|by eapply fits_l]|]. intros k r4 [G4 R4].
  pose proof (fits_r _ _ _ _ F3 G4) as F4.
  eapply loads_bind; [by apply loads_upvalues|]. intros ? ? [-> ->].
  eapply loads_bind.
  { apply (loads_protos fuel (S id)); [|done|by eapply fits_l|].
    - intros p r' Hpi Hf'. pose proof (depth_inner h ps p Hpi).
      apply IH; [lia|by apply Hin|by eapply served_in|done].
    - rewrite (gr_count _ _ _ G4), (gr_count _ _ _ G3), (gr_count _ _ _ G2),
        (gr_count _ _ _ G1). simpl. lia. }
  intros ids r5 [G5 R5]. pose proof (fits_r _ _ _ _ F4 G5) as F5.
  eapply loads_last; [by apply loads_debug|].
  intros [[li vars] us] r6 (G6 & R6 & R7 & R8). simpl in R6, R7, R8.
  assert (id < 1024)%nat as Hid.
  { destruct Hfit. simpl in *. unfold id. lia. }
  eapply loads_bind0; [by apply loads_set_func|]. cbn beta. intros ? r7 ->. apply loads_ret.
  pose proof (grown_trans _ _ _ _ _ G5 G6) as G56.
  pose proof (grown_trans _ _ _ _ _ G4 G56) as G46.
  pose proof (grown_trans _ _ _ _ _ G3 G46) as G36.
  pose proof (grown_trans _ _ _ _ _ G1 (grown_trans _ _ _ _ _ G2 G36)) as G16.
  split; [done|]. split; [by apply grown_set_func|].
  apply undump_filled.
  - split; [exact (str_at_grown _ _ _ _ _ G36 R2)| | |done|done|done|].
    + apply (block_at_agree (r_codes r3)); [exact (appended_prefix _ _ _ (gr_codes _ _ _ G46))|].
      unfold block_at. rewrite R3. simpl. by rewrite Z.eqb_refl.
    + eapply mapM_mono; [apply (const_at_agree 0 _ _ (grown_agree _ _ _ _ G56))|done].
    + eapply mapM_mono; [|exact R5]. intros x y.
      apply undump_agree, (grown_agree _ _ _ _ G6).
  - by rewrite (gr_len _ _ _ G16), (ft_size _ _ Hfit).
  - rewrite (gr_count _ _ _ G16). simpl. unfold id. lia.
Qed.

End specs.
