(* ===== verification/LuacClaims.v ===== *)
(** * The bytecode analyser: files, termination, statistics, memory

    Whole files for port/luat_luac_report.c: reading back a dumped program, the
    end of the recursion on any bytes, the count of distinct strings, and the
    size of the report. *)

From S2P Require Import Prelude LuacReport LuacProofs.

(** ** Files *)

(** The header of a compiled chunk: version and format, sizes of the types and
    the number of upvalues are skipped by the reader. *)
Definition dump_header (lua_bytes : nat) (luac_num version sizes : list Z) (nup : Z)
    : list Z :=
  LUA_SIGNATURE ++ version ++ LUAC_DATA ++ sizes ++
  le_bytes lua_bytes (wrapu (8 * Z.of_nat lua_bytes) LUAC_INT) ++ luac_num ++ [nup].

Section file.
Context `{Platform, HeapLaws}.

Lemma load_here pre rest n : n = length pre → load (pre ++ rest) 0 n = Ok pre.
Proof.
  intros ->. rewrite load_Ok by (rewrite length_app; lia).
  by rewrite drop_0, take_app_length.
Qed.

Lemma skip_here n pre rest : n = length pre → skip n (pre ++ rest) = rest.
Proof. intros ->. apply drop_app_length. Qed.

Lemma wraps_wrapu w z : 0 < w → - 2 ^ (w - 1) <= z < 2 ^ (w - 1) → wraps w (wrapu w z) = z.
Proof.
  intros Hw Hz. unfold wraps, wrapu. rewrite Zplus_mod_idemp_l.
  assert (2 ^ w = 2 * 2 ^ (w - 1)) as E by (rewrite <- Z.pow_succ_r by lia; f_equal; lia).
  rewrite Z.mod_small by lia. lia.
Qed.

Lemma luac_int_fits lua_bytes :
  (4 <= lua_bytes)%nat →
  wraps (8 * Z.of_nat lua_bytes)
    (le_val (le_bytes lua_bytes (wrapu (8 * Z.of_nat lua_bytes) LUAC_INT))) = LUAC_INT.
Proof.
  intros Hlb. rewrite le_val_le_bytes.
  - apply wraps_wrapu; [lia|]. unfold LUAC_INT. split; [lia|].
    apply Z.lt_le_trans with (2 ^ 31); [lia|]. apply Z.pow_le_mono_r; lia.
  - change 256 with (2 ^ 8). rewrite <- Z.pow_mul_r by lia. apply wrapu_range. lia.
Qed.

(** C18 (roundtrip).  A compiled chunk (its format is the reference [dump]) whose
    entries fit the report's tables, and for which the heap gives every block that is
    asked for ([proto_requests] lists their sizes), is read to its end, and the program
    can be read back from the filled tables, function by function, with every constant,
    name, line table and inner function in place.  This is about the analysis of one file
    into a report that is there; in the program the report itself is larger than the
    heap ([report_never_fits]). *)
Theorem luac_roundtrip lua_bytes luac_num version sizes nup p rest fuel :
  (4 <= lua_bytes)%nat → length luac_num = lua_bytes →
  length version = 2%nat → length sizes = 5%nat →
  proto_ok lua_bytes p → (depth p <= fuel)%nat → fits (proto_counts p) empty_report →
  served (proto_requests p) →
  ∃ r, luadb_do_report_file lua_bytes luac_num fuel
      (dump_header lua_bytes luac_num version sizes nup ++ dump lua_bytes p ++ rest)
      empty_report = Ok (0, r) ∧
    undump fuel 0 r 0 = Some p ∧
    r_func_count r = c_funcs (proto_counts p) ∧
    length (dg_data (r_strs r)) = c_strs (proto_counts p).
Proof.
  intros Hlb Hnum Hv Hs Hp Hd Hf Hg. unfold dump_header. rewrite <- !app_assoc.
  destruct (loads_function lua_bytes ltac:(lia) fuel p empty_report Hd Hp Hg Hf)
    as (id & r & E & -> & G & U).
  exists r. split; [|split; [exact U|split]].
  - unfold luadb_do_report_file.
    rewrite (load_here LUA_SIGNATURE) by done. cbn [mbind res_bind].
    rewrite bool_decide_eq_true_2 by done. cbn [negb].
    rewrite (skip_here 4 LUA_SIGNATURE), (skip_here 2 version) by done.
    rewrite (load_here LUAC_DATA) by done. cbn [mbind res_bind].
    rewrite bool_decide_eq_true_2 by done. cbn [negb].
    rewrite (skip_here 6 LUAC_DATA), (skip_here 5 sizes) by done.
    rewrite load_here by (by rewrite length_le_bytes). cbn [mbind res_bind].
    rewrite luac_int_fits by done. rewrite Z.eqb_refl. cbn [negb].
    rewrite skip_here by (by rewrite length_le_bytes).
    rewrite load_here by done. cbn [mbind res_bind].
    rewrite bool_decide_eq_true_2 by done. cbn [negb].
    rewrite skip_here, (skip_here 1 [nup]) by done.
    change (r_func_count empty_report) with 0%nat in E. rewrite E. done.
  - by rewrite (gr_count _ _ _ G).
  - by rewrite (appended_length _ _ _ (gr_strs _ _ _ G)).
Qed.

End file.

(** ** Termination *)

Section termination.
Context `{Platform, HeapOps} (lua_bytes : nat).

(** On at most [n] bytes a loader does not run out of fuel, and leaves no more
    ([safe]) or fewer ([eats]) bytes than it got. *)
Definition safe {A} (n : nat) (m : loader A) : Prop := ∀ t r, (length t <= n)%nat →
  m (t, r) ≠ Fault OutOfFuel ∧
  ∀ a t' r', m (t, r) = Ok (a, (t', r')) → (length t' <= length t)%nat.
Definition eats {A} (n : nat) (m : loader A) : Prop := ∀ t r, (length t <= n)%nat →
  m (t, r) ≠ Fault OutOfFuel ∧
  ∀ a t' r', m (t, r) = Ok (a, (t', r')) → (length t' < length t)%nat.

Lemma safe_bind {A B} n (m : loader A) (f : A → loader B) :
  safe n m → (∀ a, safe n (f a)) → safe n (m ≫= f).
Proof.
  intros Hm Hf t r Ht. destruct (Hm t r Ht) as [Hn Hl]. unfold mbind, loader_bind.
  destruct (m (t, r)) as [[a [t1 r1]]|e] eqn:E; [|split; [congruence|discriminate]].
  specialize (Hl a t1 r1 eq_refl). destruct (Hf a t1 r1) as [Hn' Hl']; [lia|].
  split; [done|]. intros b t' r' E'. specialize (Hl' b t' r' E'). lia.
Qed.

Lemma eats_bind {A B} n (m : loader A) (f : A → loader B) :
  eats n m → (∀ a, (0 < n)%nat → safe (n - 1) (f a)) → safe n (m ≫= f).
Proof.
  intros Hm Hf t r Ht. destruct (Hm t r Ht) as [Hn Hl]. unfold mbind, loader_bind.
  destruct (m (t, r)) as [[a [t1 r1]]|e] eqn:E; [|split; [congruence|discriminate]].
  specialize (Hl a t1 r1 eq_refl). destruct (Hf a ltac:(lia) t1 r1) as [Hn' Hl']; [lia|].
  split; [done|]. intros b t' r' E'. specialize (Hl' b t' r' E'). lia.
Qed.

Lemma eats_after {A B} n (m : loader A) (f : A → loader B) :
  eats n m → (∀ a, safe n (f a)) → eats n (m ≫= f).
Proof.
  intros Hm Hf t r Ht. destruct (Hm t r Ht) as [Hn Hl]. unfold mbind, loader_bind.
  destruct (m (t, r)) as [[a [t1 r1]]|e] eqn:E; [|split; [congruence|discriminate]].
  specialize (Hl a t1 r1 eq_refl). destruct (Hf a t1 r1) as [Hn' Hl']; [lia|].
  split; [done|]. intros b t' r' E'. specialize (Hl' b t' r' E'). lia.
Qed.

Lemma safe_ret {A} n (a : A) : safe n (mret a).
Proof. intros t r _. split; [discriminate|]. intros ? ? ? [= <- <- <-]. lia. Qed.

Lemma safe_lift {A} n (m : res A) : m ≠ Fault OutOfFuel → safe n (lift m).
Proof.
  intros Hm t r _. unfold lift. destruct m as [a|e]; simpl; [|split; congruence].
  split; [discriminate|]. intros ? ? ? [= <- <- <-]. lia.
Qed.

Lemma safe_get n : safe n get_report.
Proof. intros t r _. split; [discriminate|]. intros ? ? ? [= <- <- <-]. lia. Qed.
Lemma safe_put n r : safe n (put_report r).
Proof. intros t r' _. split; [discriminate|]. simpl. intros ? ? ? [= <- <- <-]. lia. Qed.

Lemma oget_fuel {A} (o : option A) : oget NullDeref o ≠ Fault OutOfFuel.
Proof. by destruct o. Qed.
Lemma store_fuel b i d : store b i d ≠ Fault OutOfFuel.
Proof. unfold store. by case_decide. Qed.
Lemma push_fuel d g : push d g ≠ Fault OutOfFuel.
Proof. unfold push. by case_decide. Qed.

Lemma safe_block n k : safe n (LoadBlock k).
Proof.
  intros t r _. unfold LoadBlock, load. case_decide; simpl; [|by split].
  split; [done|]. intros ? ? ? [= <- <- <-]. rewrite length_drop. lia.
Qed.

Lemma eats_byte n : eats n LoadByte.
Proof.
  intros t r _. unfold LoadByte, LoadBlock, mbind, loader_bind, load.
  case_decide; simpl; [|by split]. split; [done|].
  intros ? ? ? [= <- <- <-]. rewrite length_drop. simpl in *. lia.
Qed.

Lemma eats_safe {A} n (m : loader A) : eats n m → safe n m.
Proof.
  intros Hm t r Ht. destruct (Hm t r Ht) as [Hn Hl]. split; [done|].
  intros a t' r' E. specialize (Hl a t' r' E). lia.
Qed.

End termination.

Create HintDb fuel discriminated.
#[export] Hint Resolve safe_ret safe_get safe_put safe_block eats_byte oget_fuel store_fuel
  push_fuel : fuel.

(** Walk through a loader, case by case. *)
Ltac safe_walk :=
  repeat match goal with
  | |- safe _ (_ ≫= _) => apply safe_bind; [|intros ?]
  | |- safe _ (lift _) => apply safe_lift; first [done|auto with fuel]
  | |- safe _ (match ?x with _ => _ end) => destruct x
  | |- safe _ LoadByte => apply eats_safe
  | |- _ => progress (auto with fuel)
  end.

Section termination_loaders.
Context `{Platform, HeapOps} (lua_bytes : nat).

Lemma safe_int n : safe n LoadInt.
Proof. unfold LoadInt. safe_walk. Qed.
Lemma safe_zeroed n k : safe n (zeroed k).
Proof. unfold zeroed. safe_walk. Qed.
Lemma safe_push_str n d : safe n (push_str d).
Proof. unfold push_str. safe_walk. Qed.
Lemma safe_push_number n d : safe n (push_number d).
Proof. unfold push_number. safe_walk. Qed.
Lemma safe_push_code n d : safe n (push_code d).
Proof. unfold push_code. safe_walk. Qed.
Lemma safe_push_lines n d : safe n (push_lines d).
Proof. unfold push_lines. safe_walk. Qed.
#[local] Hint Resolve safe_int safe_zeroed safe_push_str safe_push_number safe_push_code
  safe_push_lines : fuel.

Lemma eats_string n : eats n LoadString.
Proof. unfold LoadString. apply eats_after; [auto with fuel|]. intros len. safe_walk. Qed.

Lemma eats_name n : eats n load_name.
Proof. unfold load_name. apply eats_after; [apply eats_string|]. intros [d len]. safe_walk. Qed.

Lemma safe_string n : safe n LoadString.
Proof. apply eats_safe, eats_string. Qed.
Lemma safe_name n : safe n load_name.
Proof. apply eats_safe, eats_name. Qed.
#[local] Hint Resolve safe_string safe_name : fuel.

Lemma safe_constants n : safe n (LoadConstants lua_bytes).
Proof.
  assert (safe n (load_constant lua_bytes)) as Hc
    by (unfold load_constant, LoadNumber, LoadInteger; safe_walk).
  assert (∀ k, safe n (constants_loop lua_bytes k)) as Hl.
  { intros k. induction k as [|k IH]; cbn [constants_loop]; safe_walk. }
  unfold LoadConstants. safe_walk.
Qed.

Lemma safe_loop {A} n (f : loader A) k : safe n f → safe n (loop k f).
Proof. intros Hf. induction k as [|k IH]; cbn [loop]; safe_walk. Qed.

Lemma safe_code n : safe n LoadCode.
Proof. unfold LoadCode. safe_walk. Qed.
Lemma safe_upvalues n : safe n LoadUpvalues.
Proof. unfold LoadUpvalues. safe_walk. Qed.
Lemma safe_room n k s : safe n (room k s).
Proof. unfold room. safe_walk. Qed.
#[local] Hint Resolve safe_code safe_upvalues safe_room safe_constants : fuel.

Lemma safe_debug n : safe n LoadDebug.
Proof.
  assert (safe n load_locvar) as Hv by (unfold load_locvar; safe_walk).
  unfold LoadDebug. repeat (safe_walk; try (apply safe_loop; auto with fuel)).
Qed.
#[local] Hint Resolve safe_debug : fuel.

(** Every nested function starts with a byte of its own, so that fuel above the
    number of bytes is never used up. *)
Lemma safe_function fuel : ∀ n id, (n < fuel)%nat → safe n (LoadFunction lua_bytes fuel id).
Proof.
  induction fuel as [|fuel IH]; intros n id Hn; [lia|]. cbn [LoadFunction].
  apply safe_bind; [unfold claim_func; safe_walk|]. intros _.
  apply eats_bind; [apply eats_name|]. intros src Hpos.
  assert (safe (n - 1) (LoadProtos (LoadFunction lua_bytes fuel))) as Hp.
  { unfold LoadProtos. apply safe_bind; [auto with fuel|]. intros k.
    apply safe_bind; [|intros ids; safe_walk]. apply safe_loop. safe_walk. apply IH. lia. }
  safe_walk; unfold set_func; safe_walk.
Qed.

Lemma fuel_bind {A B} (m : res A) (f : A → res B) :
  m ≠ Fault OutOfFuel → (∀ a, f a ≠ Fault OutOfFuel) → m ≫= f ≠ Fault OutOfFuel.
Proof. intros Hm Hf. destruct m; [apply Hf|]. cbn. congruence. Qed.

Lemma load_fuel b i k : load b i k ≠ Fault OutOfFuel.
Proof. unfold load. by case_decide. Qed.

(** C38 (termination).  On any bytes whatever the analyser returns or faults:
    functions are nested no deeper than the file has bytes, so that the fuel of
    the model is never what stops it. *)
Theorem luac_report_file_terminates luac_num data r :
  luadb_do_report_file lua_bytes luac_num (S (length data)) data r ≠ Fault OutOfFuel.
Proof.
  unfold luadb_do_report_file, skip.
  apply fuel_bind; [apply load_fuel|]. intros sig. case_match; [done|].
  apply fuel_bind; [apply load_fuel|]. intros d. case_match; [done|].
  apply fuel_bind; [apply load_fuel|]. intros x. case_match; [done|].
  apply fuel_bind; [apply load_fuel|]. intros y. case_match; [done|]. set (t := drop 1 _).
  assert (length t <= length data)%nat as Ht by (unfold t; rewrite !length_drop; lia).
  destruct (safe_function (S (length data)) (length data) 0 ltac:(lia) t r Ht) as [Hf _].
  apply fuel_bind; [exact Hf|]. by intros [? [? ?]].
Qed.

End termination_loaders.

(** ** Statistics *)

(** An entry of the string table: a block with its length, or null; its mark is 0. *)
Definition string_entry (o : option (list Z)) (d : luac_data) : Prop :=
  ld_value d = VData o ∧ ld_len d = Z.of_nat (length (default [] o)) ∧ ld_mark d = 0.

(** The contents that count: those of at least two bytes. *)
Definition content (o : option (list Z)) : list (list Z) :=
  match o with
  | Some s => if decide (2 <= length s)%nat then [s] else []
  | None => []
  end.

Lemma seen_before_spec s d earlier os :
  string_entry (Some s) d → (2 <= length s)%nat → Forall2 string_entry os earlier →
  seen_before d earlier = Ok (bool_decide (s ∈ concat (map content os))).
Proof.
  intros (Hv & Hl & _) Hs Hos. simpl in Hl.
  induction Hos as [|o e os earlier (Hev & Hel & _) Hos IH]; [done|].
  cbn [seen_before map concat]. destruct (Z.eqb_spec (ld_len d) (ld_len e)) as [E|E].
  - destruct o as [x|]; simpl in Hel; [|lia]. unfold same_bytes. rewrite Hv, Hev.
    assert (length x = length s) as Hx by lia.
    rewrite !load_Ok by lia. cbn [mbind res_bind]. rewrite Hl, Nat2Z.id, !drop_0.
    rewrite firstn_all, take_ge by lia. simpl content. rewrite decide_True by lia.
    destruct (decide (s = x)) as [Hsx|Hsx];
      [rewrite (bool_decide_eq_true_2 (s = x)) by done|rewrite (bool_decide_eq_false_2 (s = x)) by done].
    + subst x. f_equal. symmetry. apply bool_decide_eq_true_2. set_solver.
    + rewrite IH. f_equal. apply bool_decide_ext. set_solver.
  - cbn [mbind res_bind]. rewrite IH. f_equal. apply bool_decide_ext.
    rewrite elem_of_app. split; [auto|]. intros [Hin|Hin]; [|done]. exfalso.
    destruct o as [x|]; simpl in Hin, Hel; [|set_solver].
    case_decide; [|set_solver]. apply list_elem_of_singleton in Hin. subst. lia.
Qed.

Definition distinct (os : list (option (list Z))) : gset (list Z) :=
  list_to_set (concat (map content os)).

Lemma distinct_snoc os o : distinct (os ++ [o]) = distinct os ∪ list_to_set (content o).
Proof.
  unfold distinct. rewrite map_app, concat_app. simpl. rewrite app_nil_r.
  apply list_to_set_app_L.
Qed.

Definition sum_len (ds : list luac_data) : Z := foldr (λ d n, ld_len d + n) 0 ds.
Definition max_len (m : Z) (ds : list luac_data) : Z := foldl (λ m d, m `max` ld_len d) m ds.
Definition empties (ds : list luac_data) : Z :=
  foldr (λ d n, (if ld_len d <=? 1 then 1 else 0) + n) 0 ds.

Lemma group_loop_spec rest : ∀ eos earlier ros hits max total empty,
  Forall2 string_entry eos earlier → Forall2 string_entry ros rest →
  hits = Z.of_nat (size (distinct eos)) →
  group_loop 0 earlier rest hits max total empty =
  Ok (Z.of_nat (size (distinct (eos ++ ros))), max_len max rest, total + sum_len rest,
      empty + empties rest).
Proof.
  induction rest as [|d rest IH]; intros eos earlier ros hits max total empty He Hr Hh;
    inversion Hr as [|o ? ros' ? Hd Hr']; subst.
  { rewrite app_nil_r. simpl. by rewrite !Z.add_0_r. }
  cbn [group_loop]. set (m := if max <? ld_len d then ld_len d else max).
  assert (m = max `max` ld_len d) as Hm by (unfold m; destruct (Z.ltb_spec max (ld_len d)); lia).
  clearbody m. subst m.
  assert (Forall2 string_entry (eos ++ [o]) (earlier ++ [d])) as He'
    by (apply Forall2_app; [done|]; constructor; [done|constructor]).
  assert (0 <= ld_len d) as Hpos by (destruct Hd as (_ & -> & _); lia).
  replace (eos ++ o :: ros') with ((eos ++ [o]) ++ ros') by (by rewrite <- app_assoc).
  unfold max_len. cbn [sum_len empties foldr foldl].
  fold (sum_len rest) (empties rest). fold (max_len (max `max` ld_len d) rest).
  destruct (Z.leb_spec (ld_len d) 1) as [Hs|Hs].
  - assert ((ld_len d =? 0) || (ld_len d =? 1) = true) as -> by lia.
    rewrite (IH (eos ++ [o]) _ ros'); [f_equal; f_equal; [f_equal; lia|lia]|done|done|].
    rewrite distinct_snoc. destruct Hd as (_ & Hl & _).
    assert (content o = []) as ->.
    { destruct o as [s|]; [|done]. simpl in *. rewrite decide_False by lia. done. }
    by rewrite list_to_set_nil, union_empty_r_L.
  - assert ((ld_len d =? 0) || (ld_len d =? 1) = false) as -> by lia.
    destruct o as [s|]; [|destruct Hd as (_ & Hl & _); simpl in Hl; lia].
    assert (2 <= length s)%nat as Hs2 by (destruct Hd as (_ & Hl & _); simpl in Hl; lia).
    assert ((if bool_decide (earlier ≠ []) && (0 =? 0) then seen_before d earlier else Ok false)
      = Ok (bool_decide (s ∈ concat (map content eos)))) as ->.
    { case_bool_decide as Hne; cbn [andb Z.eqb]; [by apply seen_before_spec|].
      subst. inversion He; subst. done. }
    cbn [mbind res_bind].
    rewrite (IH (eos ++ [Some s]) _ ros'); [repeat (f_equal; try lia)|done|done|].
    rewrite distinct_snoc. simpl content. rewrite decide_True by done. rewrite list_to_set_cons, list_to_set_nil.
    rewrite union_empty_r_L. case_bool_decide as Hin.
    + do 2 f_equal. assert (s ∈ distinct eos) by (unfold distinct; set_solver). set_solver.
    + assert (s ∉ distinct eos) by (unfold distinct; set_solver).
      rewrite size_union by set_solver. rewrite size_singleton. lia.
Qed.

(** The statistics of a string table: every string is counted
    into the total and the maximum, those of at most one byte as empty, and the
    unique ones are the different contents among the rest. *)
Theorem group_report_counts_distinct g os :
  Forall2 string_entry os (dg_data g) →
  do_data_group_report g = Ok (LuacGroup (dg_data g) (max_len (dg_max_len g) (dg_data g))
    (dg_total_len g + sum_len (dg_data g)) (Z.of_nat (size (distinct os)))
    (dg_emtrys g + empties (dg_data g))).
Proof.
  intros Hos. unfold do_data_group_report.
  assert (default 0 (ld_mark <$> head (dg_data g)) = 0) as ->.
  { destruct Hos as [|o d os' l (_ & _ & Hm)]; [done|]. exact Hm. }
  by rewrite (group_loop_spec _ [] [] os) by (done || constructor).
Qed.

(** ** Memory *)

(** The report alone is larger than the pool [luat_heap_malloc]
    takes its blocks from (1 MiB): five tables of 32768 entries with two sizes
    and a pointer each.  So the analysis of any image ends at its first [memset]. *)
Theorem report_never_fits `{Platform, HeapOps} lua_bytes luac_num report_size file_size
    fuel mount :
  (∀ n b, heap_malloc n = Some b → n <= 1024 * 1024) →
  5 * (32 * 1024) * (3 * ptr_bytes) <= report_size →
  luadb_do_report lua_bytes luac_num report_size file_size fuel mount = Fault NullDeref.
Proof.
  intros Hpool Hsize. unfold luadb_do_report. pose proof ptr_bytes_le.
  destruct (heap_malloc report_size) as [b|] eqn:E; [|done].
  pose proof (Hpool _ _ E). lia.
Qed.

(** ** Concrete inputs *)

(** A chunk of two functions: the outer one has two constants, an upvalue, a
    local variable and the inner function. *)
Definition demo_inner : proto := Proto
  (PHead None 1 2 0 0 2 (replicate 8 9) [CStr false (bytes "print")] [] [] [] []) [].
Definition demo_proto : proto := Proto
  (PHead (Some (bytes "@main.lua")) 0 0 0 1 2 (replicate 16 7)
     [CInt (-5); CStr false (bytes "x"); CNil] [1; 0] (replicate 16 1)
     [(Some (bytes "a"), 1, 3)] [Some (bytes "_ENV")]) [demo_inner].

Lemma demo_proto_ok : proto_ok 4 demo_proto.
Proof.
  assert (head_ok 4 (PHead None 1 2 0 0 2 (replicate 8 9) [CStr false (bytes "print")]
    [] [] [] [])) as Hi.
  { split; unfold table_ok, count_ok, int_ok; simpl; repeat split; try lia;
      repeat constructor; simpl; lia. }
  split; [|split; [simpl; lia|]].
  - split; unfold table_ok, count_ok, int_ok; simpl; repeat split; try lia;
      repeat constructor; simpl; lia.
  - split; [|done]. split; [exact Hi|]. split; [simpl; lia|done].
Qed.

Lemma demo_fits : fits (proto_counts demo_proto) empty_report.
Proof.
  assert (∃ a b c d e, proto_counts demo_proto = Counts a b c d e ∧
    (a + b + c + d + e <= 100)%nat) as (a & b & c & d & e & -> & Hsum)
    by (do 5 eexists; split; [vm_compute; reflexivity|lia]).
  split; cbn [dg_data r_strs r_codes r_numbers r_line_numbers r_func_count
    r_funcs empty_report empty_group c_strs c_codes c_numbers c_lines c_funcs length];
    rewrite ?length_replicate; unfold group_max; lia.
Qed.

Lemma demo_served : @served (zero_heap (1024 * 1024)) (@proto_requests linux32 demo_proto).
Proof. repeat (constructor; [by eexists|]). constructor. Qed.

Lemma luac_roundtrip_witness :
  ∃ r, @luadb_do_report_file linux32 (zero_heap (1024 * 1024)) 4 [1; 2; 3; 4] 5
      (dump_header 4 [1; 2; 3; 4] [0x53; 0] [4; 4; 4; 4; 4] 1 ++ dump 4 demo_proto ++ [])
      empty_report = Ok (0, r) ∧ undump 5 0 r 0 = Some demo_proto.
Proof.
  destruct (@luac_roundtrip linux32 (zero_heap (1024 * 1024)) (zero_heap_laws _) 4 [1; 2; 3; 4]
    [0x53; 0] [4; 4; 4; 4; 4] 1 demo_proto [] 5) as (r & E & U & _);
    [lia|done|done|done|exact demo_proto_ok|simpl; lia|exact demo_fits|exact demo_served|].
  exists r. split; [exact E|exact U].
Defined.

Definition demo_entry (s : list Z) : luac_data :=
  LuacData (VData (Some s)) (Z.of_nat (length s)) 0 LUA_TSHRSTR.
Definition demo_group : luac_data_group :=
  LuacGroup [demo_entry [97; 98; 0]; demo_entry [0]; demo_entry [97; 98; 0];
             demo_entry [99; 100; 0]] 0 0 0 0.

Lemma group_report_counts_distinct_witness :
  do_data_group_report demo_group = Ok (LuacGroup (dg_data demo_group) 3 10 2 1).
Proof.
  apply (group_report_counts_distinct demo_group
    [Some [97; 98; 0]; Some [0]; Some [97; 98; 0]; Some [99; 100; 0]]).
  repeat (constructor; [by repeat split|]). constructor.
Defined.

Lemma report_never_fits_witness :
  @luadb_do_report linux32 (zero_heap (1024 * 1024)) 4 [1; 2; 3; 4] 4000000 64 9 (Some [])
  = Fault NullDeref.
Proof.
  apply (@report_never_fits linux32 (zero_heap (1024 * 1024))).
  - intros n b. simpl. case_decide; [lia|discriminate].
  - simpl. lia.
Defined.
