(* ===== verification/Gtfont.v ===== *)
(** * Font rendering

    port/luat_gtfont_pc.c: the routines of the font chip the firmware expects,
    drawn with FreeType.  A glyph is a bitmap of grey values; [get_font] packs
    it one bit per pixel, [get_Font_Gray] two or four, into a cell of the
    caller's buffer.  The packed picture is read back by [pixel], against which
    both routines are specified: they set exactly the inked pixels of the cell,
    and nothing else. *)

From S2P Require Import Prelude.

(** ** FreeType, as the code uses it *)

(** A rendered glyph slot: the grey bitmap, its place and its advance. *)
Record FT_Glyph : Type := {
  bm_rows : Z; bm_width : Z; bm_pitch : Z; bm_buffer : list Z;
  bitmap_top : Z; advance_x : Z;
}.

(** [FT_Set_Pixel_Sizes h] is the ascender of the face at that size (26.6 fixed
    point) and [FT_Load_Char h c] the glyph rendered at it; [None] is an error. *)
Class FreeType : Type := {
  FT_Init_FreeType : bool;
  FT_New_Face : list Z → bool;
  FT_Set_Pixel_Sizes : Z → option Z;
  FT_Load_Char : Z → Z → option FT_Glyph;
}.

(** What FreeType documents of a bitmap: its buffer holds [bm_rows] lines of
    [bm_pitch] bytes, each at least as long as the bitmap is wide. *)
Record glyph_ok (g : FT_Glyph) : Prop := {
  g_rows : 0 <= bm_rows g < 2 ^ 31;
  g_width : 0 <= bm_width g < 2 ^ 31;
  g_pitch : bm_width g <= bm_pitch g;
  g_buffer : bm_rows g * bm_pitch g <= Z.of_nat (length (bm_buffer g));
}.

(** ** Loops and bytes *)

(** [for (i = lo; i < lo + n; i++) s = body(i, s);] *)
Fixpoint for_loop {S} (lo : Z) (n : nat) (body : Z → S → res S) (s : S) : res S :=
  match n with
  | O => Ok s
  | S n => s' ← body lo s; for_loop (lo + 1) n body s'
  end.

(** [buf[i]] and [buf[i] = b], for an index that may leave the buffer. *)
Definition byte_at (buf : list Z) (i : Z) : res Z :=
  if decide (0 <= i) then oget OutOfBounds (buf !! Z.to_nat i) else Fault OutOfBounds.
Definition byte_set (buf : list Z) (i b : Z) : res (list Z) :=
  if decide (0 <= i) then store buf (Z.to_nat i) [b] else Fault OutOfBounds.

(** [memset(buf, 0, n)] *)
Definition memset0 (buf : list Z) (n : Z) : res (list Z) :=
  store buf 0 (replicate (Z.to_nat n) 0).

(** ** The pixel writers *)

Definition set_bit_1bpp (buf : list Z) (w x y : Z) : res (list Z) :=
  let bytes_per_row := (w + 7) / 8 in
  let byte_index := y * bytes_per_row + x / 8 in
  let bit_pos := 7 - x mod 8 in
  b ← byte_at buf byte_index;
  byte_set buf byte_index (u8 (Z.lor b (u8 (Z.shiftl 1 bit_pos)))).

Definition set_pix_2bpp (buf : list Z) (w x y v2 : Z) : res (list Z) :=
  let v2 := Z.land v2 3 in
  let bytes_per_row := ((w + 7) / 8) * 2 in
  let byte_index := y * bytes_per_row + x / 4 in
  let shift := u8 ((3 - x mod 4) * 2) in
  let mask := u8 (Z.shiftl 3 shift) in
  b ← byte_at buf byte_index;
  byte_set buf byte_index
    (u8 (Z.lor (Z.land b (Z.lnot mask)) (u8 (Z.shiftl v2 shift)))).

Definition set_pix_gray (buf : list Z) (w x y bpp val : Z) : res (list Z) :=
  if bpp =? 4 then
    let bytes_per_row := ((w + 7) / 8) * 4 in
    let byte_index := y * bytes_per_row + x / 2 in
    let shift := u8 ((1 - x mod 2) * 4) in
    let mask := u8 (Z.shiftl 15 shift) in
    b ← byte_at buf byte_index;
    byte_set buf byte_index
      (u8 (Z.lor (Z.land b (Z.lnot mask)) (Z.shiftl (u8 (Z.land val 15)) shift)))
  else if bpp =? 2 then
    let bytes_per_row := ((w + 7) / 8) * 2 in
    let byte_index := y * bytes_per_row + x / 4 in
    let shift := u8 ((3 - x mod 4) * 2) in
    let mask := u8 (Z.shiftl 3 shift) in
    b ← byte_at buf byte_index;
    byte_set buf byte_index
      (u8 (Z.lor (Z.land b (Z.lnot mask)) (Z.shiftl (u8 (Z.land val 3)) shift)))
  else Ok buf.

(** ** Rendering

    The two loops over the bitmap: a pixel outside the cell is skipped, one
    brighter than 127 is written. *)

Definition draw_pixel (put : list Z → Z → Z → res (list Z)) (g : FT_Glyph)
    (dx dy : Z) (yy xx : Z) (w : Z) (buf : list Z) : res (list Z) :=
  if (dx <? 0) || (w <=? dx) then Ok buf
  else
    val ← byte_at (bm_buffer g) (yy * bm_pitch g + xx);
    if 127 <? val then put buf dx dy else Ok buf.

Definition draw_glyph (put : list Z → Z → Z → res (list Z)) (g : FT_Glyph)
    (off_y w h : Z) (buf : list Z) : res (list Z) :=
  let off_x := 0 in
  for_loop 0 (Z.to_nat (i32 (bm_rows g))) (λ yy buf,
    let dy := off_y + yy in
    if (dy <? 0) || (h <=? dy) then Ok buf
    else
      for_loop 0 (Z.to_nat (i32 (bm_width g))) (λ xx buf,
        draw_pixel put g (off_x + xx) dy yy xx w buf) buf) buf.

(** The base line: the ascender of the face, kept inside the cell, less the
    height of the bitmap above it. *)
Definition glyph_off_y (ascender h : Z) (g : FT_Glyph) : Z :=
  let asc_px := i32 (Z.shiftr ascender 6) in
  let asc_px := if asc_px <? 0 then 0 else asc_px in
  let asc_px := if h <? asc_px then h else asc_px in
  asc_px - bitmap_top g.

(** The advance both routines return. *)
Definition glyph_advance (w : Z) (g : FT_Glyph) : Z :=
  let adv := u32 (Z.shiftr (advance_x g + 32) 6) in
  let adv := if w <? adv then w else adv in
  let adv := if adv <? bm_width g then bm_width g else adv in
  if adv =? 0 then bm_width g else adv.

Section Render.
Context `{FreeType}.

(** [pBits] is [None] for the null pointer; the result is the buffer and the
    returned width. *)
Definition get_font (s_ft_ok : bool) (pBits : option (list Z)) (fontCode width height : Z)
    : res (option (list Z) * Z) :=
  match pBits with
  | None => Ok (None, 0)
  | Some buf =>
      if (width =? 0) || (height =? 0) || negb s_ft_ok then Ok (pBits, 0)
      else
        let w := width in let h := height in
        buf ← memset0 buf ((w + 7) / 8 * h);
        let codepoint := u32 fontCode in
        match FT_Set_Pixel_Sizes h with
        | None => Ok (Some buf, 0)
        | Some ascender =>
            match FT_Load_Char h codepoint with
            | None => Ok (Some buf, 0)
            | Some g =>
                buf ← draw_glyph (λ buf dx dy, set_bit_1bpp buf w dx dy) g
                        (glyph_off_y ascender h g) w h buf;
                Ok (Some buf, glyph_advance w g)
            end
        end
  end.

(** [re_buff] is returned as the pair of its two cells. *)
Definition get_Font_Gray (s_ft_ok : bool) (pBits : option (list Z)) (fontCode fontSize : Z)
    : res (option (list Z) * (Z * Z)) :=
  match pBits with
  | None => Ok (None, (0, 2))
  | Some buf =>
      if (fontSize =? 0) || negb s_ft_ok then Ok (pBits, (0, 2))
      else
        let w := fontSize in let h := fontSize in
        let bpp := if (16 <=? fontSize) && (fontSize <? 34) then 4 else 2 in
        let bytes_per_row := (w + 7) / 8 * bpp in
        buf ← memset0 buf (bytes_per_row * h);
        let codepoint := u32 fontCode in
        match FT_Set_Pixel_Sizes h with
        | None => Ok (Some buf, (0, bpp))
        | Some ascender =>
            match FT_Load_Char h codepoint with
            | None => Ok (Some buf, (0, bpp))
            | Some g =>
                buf ← draw_glyph (λ buf dx dy,
                          if bpp =? 4 then set_pix_gray buf w dx dy 4 15
                          else set_pix_gray buf w dx dy 2 3) g
                        (glyph_off_y ascender h g) w h buf;
                Ok (Some buf, (glyph_advance w g, bpp))
            end
        end
  end.

End Render.

Definition U2G (unicode : Z) : Z := unicode.
Definition Gray_Process (OutPutData : list Z) (width High Grade : Z) : list Z := OutPutData.

(** ** Initialisation *)

Inductive target : Type := Win32 | Apple | OtherOS.

Record gtfont_state : Type := { s_ft_lib : bool; s_ft_face : option (list Z); s_ft_ok : bool }.

(** [fopen] says which paths can be opened for reading. *)
Definition file_accessible (fopen : list Z → bool) (path : option (list Z)) : bool :=
  match path with
  | None | Some [] => false
  | Some p => fopen p
  end.

Definition font_cands (os : target) : list (list Z) :=
  match os with
  | Win32 => [bytes "C:/Windows/Fonts/simhei.ttf"]
  | Apple => [bytes "/System/Library/Fonts/PingFang.ttc";
              bytes "/System/Library/Fonts/STHeiti Medium.ttc";
              bytes "/System/Library/Fonts/PingFang.ttc"]
  | OtherOS => [bytes "/usr/share/fonts/truetype/noto/NotoSansCJK-Regular.ttc";
                bytes "/usr/share/fonts/opentype/noto/NotoSansCJK-Regular.ttc";
                bytes "/usr/share/fonts/truetype/wqy/wqy-zenhei.ttc"]
  end.

Definition pick_default_font (os : target) (fopen : list Z → bool) : option (list Z) :=
  List.find (λ c, file_accessible fopen (Some c)) (font_cands os).

(** [env] is the value of LUAT_GTFONT_FILE. *)
Definition GT_Font_Init `{FreeType} (os : target) (fopen : list Z → bool)
    (env : option (list Z)) (s : gtfont_state) : gtfont_state * Z :=
  if s_ft_ok s then (s, 1)
  else if FT_Init_FreeType then (s, 0)
  else
    let s := {| s_ft_lib := true; s_ft_face := s_ft_face s; s_ft_ok := false |} in
    let font_file :=
      if file_accessible fopen env then env else pick_default_font os fopen in
    match font_file with
    | None => (s, 0)
    | Some f =>
        if FT_New_Face f then (s, 0)
        else ({| s_ft_lib := true; s_ft_face := Some f; s_ft_ok := true |}, 1)
    end.

(** ** Reading the packed picture back *)

(** Pixels per byte; bytes per line of a cell [w] pixels wide. *)
Definition per_byte (bpp : Z) : Z := 8 / bpp.
Definition row_bytes (bpp w : Z) : Z := (w + 7) / 8 * bpp.

Definition cell_index (bpp w x y : Z) : Z := y * row_bytes bpp w + x / per_byte bpp.

(** The [k]-th pixel of a byte, from the most significant end. *)
Definition field (bpp b k : Z) : Z :=
  Z.land (Z.shiftr b ((per_byte bpp - 1 - k) * bpp)) (2 ^ bpp - 1).

Definition pixel (bpp w : Z) (buf : list Z) (x y : Z) : Z :=
  field bpp (buf !!! Z.to_nat (cell_index bpp w x y)) (x mod per_byte bpp).

(** Which pixels of the cell the glyph inks. *)
Definition inked (g : FT_Glyph) (off_y w x y : Z) : bool :=
  (0 <=? x) && (x <? w) && (x <? bm_width g) &&
  (0 <=? y - off_y) && (y - off_y <? bm_rows g) &&
  (127 <? bm_buffer g !!! Z.to_nat ((y - off_y) * bm_pitch g + x)).

(** Lines are padded to whole groups of eight pixels. *)
Definition padded (w : Z) : Z := (w + 7) / 8 * 8.

(** ** The law of a pixel writer *)

Definition depth (bpp : Z) : Prop := bpp = 1 ∨ bpp = 2 ∨ bpp = 4.

(** [put] sets the [k]-th pixel of one byte to full brightness by [upd]. *)
Definition byte_law (bpp : Z) (upd : Z → Z → Z) : Prop :=
  ∀ b k, is_byte b → 0 <= k < per_byte bpp →
    is_byte (upd b k) ∧
    ∀ k', 0 <= k' < per_byte bpp →
      field bpp (upd b k) k' = if k =? k' then 2 ^ bpp - 1 else field bpp b k'.

Class PixelWriter (bpp w : Z) (put : list Z → Z → Z → res (list Z)) : Prop := {
  pw_depth : depth bpp;
  pw_width : 0 <= w;
  pw_upd : ∃ upd, byte_law bpp upd ∧ ∀ buf x y,
    put buf x y = b ← byte_at buf (cell_index bpp w x y);
                  byte_set buf (cell_index bpp w x y) (upd b (x mod per_byte bpp));
}.

(** A byte has 256 values, a byte law is checked on all of them. *)
Definition byte_law_b (bpp : Z) (upd : Z → Z → Z) : bool :=
  forallb (λ b, forallb (λ k,
    let b' := upd b k in
    (0 <=? b') && (b' <? 256) &&
    forallb (λ k', field bpp b' k' =? (if k =? k' then 2 ^ bpp - 1 else field bpp b k'))
      (seqZ 0 (per_byte bpp))) (seqZ 0 (per_byte bpp))) (seqZ 0 256).

Lemma byte_law_check bpp upd : byte_law_b bpp upd = true → byte_law bpp upd.
Proof.
  unfold byte_law_b. rewrite forallb_forall. intros Hb b k Hbyte Hk.
  specialize (Hb b). unfold is_byte in Hbyte.
  assert (∀ z n, 0 <= z < n → List.In z (seqZ 0 n)) as Hin.
  { intros z n Hz. apply list_elem_of_In, elem_of_seqZ. lia. }
  specialize (Hb (Hin _ _ Hbyte)). rewrite forallb_forall in Hb.
  specialize (Hb k (Hin _ _ Hk)). apply andb_true_iff in Hb as [Hr Hf].
  split; [unfold is_byte; lia|]. intros k' Hk'.
  rewrite forallb_forall in Hf. specialize (Hf k' (Hin _ _ Hk')).
  by apply Z.eqb_eq.
Qed.

Lemma set_bit_1bpp_writer w : 0 <= w → PixelWriter 1 w (λ buf x y, set_bit_1bpp buf w x y).
Proof.
  intros. split; [by left|done|].
  exists (λ b k, u8 (Z.lor b (u8 (Z.shiftl 1 (7 - k))))). split.
  - apply byte_law_check. vm_compute. reflexivity.
  - intros buf x y. unfold set_bit_1bpp, cell_index, row_bytes, per_byte.
    by rewrite Z.mul_1_r, Z.div_1_r.
Qed.

Lemma set_pix_gray2_writer w : 0 <= w → PixelWriter 2 w (λ buf x y, set_pix_gray buf w x y 2 3).
Proof.
  intros. split; [by right; left|done|].
  exists (λ b k, let shift := u8 ((3 - k) * 2) in
    u8 (Z.lor (Z.land b (Z.lnot (u8 (Z.shiftl 3 shift)))) (Z.shiftl (u8 (Z.land 3 3)) shift))).
  split; [|done]. apply byte_law_check. vm_compute. reflexivity.
Qed.

Lemma set_pix_gray4_writer w : 0 <= w → PixelWriter 4 w (λ buf x y, set_pix_gray buf w x y 4 15).
Proof.
  intros. split; [by right; right|done|].
  exists (λ b k, let shift := u8 ((1 - k) * 4) in
    u8 (Z.lor (Z.land b (Z.lnot (u8 (Z.shiftl 15 shift)))) (Z.shiftl (u8 (Z.land 15 15)) shift))).
  split; [|done]. apply byte_law_check. vm_compute. reflexivity.
Qed.

Lemma set_pix_2bpp_writer w : 0 <= w → PixelWriter 2 w (λ buf x y, set_pix_2bpp buf w x y 3).
Proof.
  intros. split; [by right; left|done|].
  exists (λ b k, let shift := u8 ((3 - k) * 2) in
    u8 (Z.lor (Z.land b (Z.lnot (u8 (Z.shiftl 3 shift)))) (u8 (Z.shiftl (Z.land 3 3) shift)))).
  split; [|done]. apply byte_law_check. vm_compute. reflexivity.
Qed.

(** ** Geometry of the cell *)

Lemma depth_cases bpp : depth bpp →
  (bpp = 1 ∧ per_byte bpp = 8) ∨ (bpp = 2 ∧ per_byte bpp = 4) ∨ (bpp = 4 ∧ per_byte bpp = 2).
Proof. unfold depth, per_byte. intros [-> | [-> | ->] ]; auto. Qed.

Lemma row_bytes_padded bpp w : depth bpp → row_bytes bpp w * per_byte bpp = padded w.
Proof.
  intros Hd. unfold row_bytes, padded.
  destruct (depth_cases bpp Hd) as [ [-> ->] | [ [-> ->] | [-> ->] ]]; lia.
Qed.

Lemma row_bytes_nonneg bpp w : depth bpp → 0 <= w → 0 <= row_bytes bpp w.
Proof.
  intros Hd Hw. unfold row_bytes. pose proof (Z.div_pos (w + 7) 8).
  destruct (depth_cases bpp Hd) as [ [-> _] | [ [-> _] | [-> _] ]]; lia.
Qed.

Lemma padded_ge w : w <= padded w.
Proof. unfold padded. pose proof (Z.div_mod (w + 7) 8). pose proof (Z.mod_pos_bound (w + 7) 8). lia. Qed.

(** The column of a pixel is inside its line. *)
Lemma column_bound bpp w x : depth bpp → 0 <= x < padded w →
  0 <= x / per_byte bpp < row_bytes bpp w.
Proof.
  intros Hd Hx. pose proof (row_bytes_padded bpp w Hd) as Hp.
  assert (0 < per_byte bpp) by (destruct (depth_cases bpp Hd) as [ [_ ->] | [ [_ ->] | [_ ->] ]]; lia).
  split; [apply Z.div_pos; lia|]. apply Z.div_lt_upper_bound; lia.
Qed.

Lemma cell_index_bound bpp w h x y : depth bpp → 0 <= w → 0 <= x < padded w → 0 <= y < h →
  0 <= cell_index bpp w x y < row_bytes bpp w * h.
Proof.
  intros Hd Hw Hx Hy. unfold cell_index.
  pose proof (column_bound bpp w x Hd Hx). nia.
Qed.

(** A byte index and a position in the byte determine the pixel. *)
Lemma cell_index_inj bpp w x y x' y' : depth bpp → 0 <= w →
  0 <= x < padded w → 0 <= x' < padded w → 0 <= y → 0 <= y' →
  cell_index bpp w x y = cell_index bpp w x' y' →
  y = y' ∧ x / per_byte bpp = x' / per_byte bpp.
Proof.
  unfold cell_index. intros Hd Hw Hx Hx' Hy Hy' E.
  pose proof (column_bound bpp w x Hd Hx) as Hc. pose proof (column_bound bpp w x' Hd Hx').
  apply (Z.div_mod_unique (row_bytes bpp w)); [left; lia|left; lia|]. lia.
Qed.

Lemma mod_per_bound bpp x : depth bpp → 0 <= x mod per_byte bpp < per_byte bpp.
Proof.
  intros Hd. apply Z.mod_pos_bound.
  destruct (depth_cases bpp Hd) as [ [_ ->] | [ [_ ->] | [_ ->] ]]; lia.
Qed.

Lemma same_slot bpp x x' : depth bpp →
  x / per_byte bpp = x' / per_byte bpp → x mod per_byte bpp = x' mod per_byte bpp → x = x'.
Proof.
  intros Hd Hq Hr.
  assert (per_byte bpp ≠ 0) as Hn
    by (destruct (depth_cases bpp Hd) as [ [_ ->] | [ [_ ->] | [_ ->] ]]; lia).
  rewrite (Z.div_mod x (per_byte bpp)), (Z.div_mod x' (per_byte bpp)) by done. congruence.
Qed.

(** ** What one write does to the picture *)

Lemma byte_at_Ok buf i : 0 <= i < Z.of_nat (length buf) →
  byte_at buf i = Ok (buf !!! Z.to_nat i).
Proof.
  intros Hi. unfold byte_at. rewrite decide_True by lia.
  destruct (lookup_lt_is_Some_2 buf (Z.to_nat i)) as [b Hb]; [lia|].
  by rewrite Hb, (list_lookup_total_correct _ _ _ Hb).
Qed.

Lemma byte_set_Ok buf i b : 0 <= i < Z.of_nat (length buf) →
  byte_set buf i b = Ok (<[Z.to_nat i := b]> buf).
Proof. intros Hi. unfold byte_set. rewrite decide_True by lia. apply store_byte. lia. Qed.

Lemma is_byte_at buf i : Forall is_byte buf → 0 <= i < Z.of_nat (length buf) →
  is_byte (buf !!! Z.to_nat i).
Proof.
  intros Hb Hi. destruct (lookup_lt_is_Some_2 buf (Z.to_nat i)) as [b Eb]; [lia|].
  rewrite (list_lookup_total_correct _ _ _ Eb). by eapply Forall_lookup_1.
Qed.

(** [cell bpp w h P L tail buf]: [buf] has [L] bytes; the pixels of the cell are
    bright where [P] says so and dark elsewhere; behind the cell comes [tail]. *)
Record cell (bpp w h : Z) (P : Z → Z → bool) (L : nat) (tail buf : list Z) : Prop := {
  c_bytes : Forall is_byte buf;
  c_length : length buf = L;
  c_room : row_bytes bpp w * h <= Z.of_nat L;
  c_tail : drop (Z.to_nat (row_bytes bpp w * h)) buf = tail;
  c_pixel : ∀ x y, 0 <= x < padded w → 0 <= y < h →
    pixel bpp w buf x y = if P x y then 2 ^ bpp - 1 else 0;
}.

Lemma cell_ext bpp w h P Q L tail buf :
  (∀ x y, 0 <= x < padded w → 0 <= y < h → P x y = Q x y) →
  cell bpp w h P L tail buf → cell bpp w h Q L tail buf.
Proof.
  intros HPQ [? ? ? ? Hp]. split; [done..|]. intros x y Hx Hy.
  by rewrite <- HPQ, Hp.
Qed.

Lemma put_cell bpp w h put P L tail buf x y :
  PixelWriter bpp w put → cell bpp w h P L tail buf → 0 <= x < padded w → 0 <= y < h →
  ∃ buf', put buf x y = Ok buf' ∧
    cell bpp w h (λ x' y', P x' y' || ((x' =? x) && (y' =? y))) L tail buf'.
Proof.
  intros [Hd Hw (upd & Hlaw & Hput)] [Hb HL Hroom Ht Hp] Hx Hy.
  pose proof (cell_index_bound bpp w h x y Hd Hw Hx Hy) as Hi.
  rewrite Hput, byte_at_Ok by lia. cbn [mbind res_bind]. rewrite byte_set_Ok by lia.
  destruct (Hlaw (buf !!! Z.to_nat (cell_index bpp w x y)) (x mod per_byte bpp)) as [Hbyte Hf];
    [apply is_byte_at; [done|lia]|by apply mod_per_bound|].
  eexists. split; [done|]. split; [by apply Forall_insert|by rewrite length_insert|done| |].
  { by rewrite drop_insert_lt by lia. }
  intros x' y' Hx' Hy'. unfold pixel.
  destruct (decide (cell_index bpp w x' y' = cell_index bpp w x y)) as [E|E].
  - rewrite E, list_lookup_total_insert_eq by lia. rewrite Hf by (by apply mod_per_bound).
    destruct (cell_index_inj bpp w x' y' x y) as [-> Eq]; [lia || done..|].
    rewrite Z.eqb_refl, andb_true_r.
    destruct (Z.eqb_spec (x mod per_byte bpp) (x' mod per_byte bpp)) as [Em|Em].
    + rewrite (same_slot bpp x' x Hd Eq (eq_sym Em)), Z.eqb_refl, orb_true_r. done.
    + destruct (Z.eqb_spec x' x) as [->|]; [done|]. rewrite orb_false_r.
      rewrite <- E. apply Hp; lia.
  - rewrite list_lookup_total_insert_ne
      by (pose proof (cell_index_bound bpp w h x' y' Hd Hw Hx' Hy'); lia).
    assert ((x' =? x) && (y' =? y) = false) as ->.
    { apply andb_false_iff. destruct (Z.eqb_spec x' x), (Z.eqb_spec y' y); auto. by subst. }
    rewrite orb_false_r. by apply Hp.
Qed.

(** ** The loops *)

Lemma for_loop_inv {S} (I : Z → S → Prop) body n : ∀ lo s,
  (∀ i s, lo <= i < lo + Z.of_nat n → I i s → ∃ s', body i s = Ok s' ∧ I (i + 1) s') →
  I lo s → ∃ s', for_loop lo n body s = Ok s' ∧ I (lo + Z.of_nat n) s'.
Proof.
  induction n as [|n IH]; intros lo s Hstep HI; cbn [for_loop].
  { eexists. split; [done|]. by rewrite Z.add_0_r. }
  destruct (Hstep lo s) as (s' & -> & HI'); [lia|done|]. cbn [mbind res_bind].
  destruct (IH (lo + 1) s') as (s'' & E & HI''); [|done|].
  { intros i t Hi. apply Hstep. lia. }
  exists s''. split; [done|]. replace (lo + Z.of_nat (Datatypes.S n)) with (lo + 1 + Z.of_nat n) by lia.
  done.
Qed.

Section Draw.
Context (bpp w h : Z) (put : list Z → Z → Z → res (list Z)) `{!PixelWriter bpp w put}.
Context (g : FT_Glyph) (Hg : glyph_ok g) (off_y : Z) (L : nat) (tail : list Z).

(** Case analysis on the comparisons of a boolean goal. *)
Ltac bool_cases :=
  repeat match goal with
  | |- context [?a <? ?b] => destruct (Z.ltb_spec a b)
  | |- context [?a <=? ?b] => destruct (Z.leb_spec a b)
  | |- context [?a =? ?b] => destruct (Z.eqb_spec a b)
  end; first [reflexivity | exfalso; lia].

(** The pixels drawn before row [yy], column [xx] of the bitmap. *)
Definition drawn (yy xx : Z) (x y : Z) : bool :=
  inked g off_y w x y && ((y - off_y <? yy) || ((y - off_y =? yy) && (x <? xx))).

Lemma draw_pixel_step yy xx buf :
  0 <= yy < bm_rows g → 0 <= xx < bm_width g → 0 <= off_y + yy < h →
  cell bpp w h (drawn yy xx) L tail buf →
  ∃ buf', draw_pixel put g (0 + xx) (off_y + yy) yy xx w buf = Ok buf' ∧
    cell bpp w h (drawn yy (xx + 1)) L tail buf'.
Proof using Hg PixelWriter0.
  intros Hy Hx Hdy Hc. unfold draw_pixel. rewrite Z.add_0_l.
  assert (∀ x y, (x =? xx) && (y =? off_y + yy) = false →
            drawn yy xx x y = drawn yy (xx + 1) x y) as Hsame.
  { intros x y Hne. unfold drawn. f_equal. lia. }
  destruct (Z.ltb_spec xx 0); [lia|]. destruct (Z.leb_spec w xx) as [Hw|Hw]; cbn [orb].
  { exists buf. split; [done|]. eapply cell_ext; [|done]. intros x y _ _.
    unfold drawn, inked. lia. }
  destruct Hg as [_ _ Hp Hb].
  rewrite byte_at_Ok by nia. cbn [mbind res_bind].
  destruct (127 <? _) eqn:Ev.
  - destruct (put_cell bpp w h put (drawn yy xx) L tail buf xx (off_y + yy)) as (b' & -> & Hc');
      [done|done|pose proof (padded_ge w); lia|lia|].
    exists b'. split; [done|]. eapply cell_ext; [|done]. intros x y _ _. simpl.
    destruct ((x =? xx) && (y =? off_y + yy)) eqn:E; [|rewrite orb_false_r; by apply Hsame].
    assert (x = xx ∧ y = off_y + yy) as [-> ->] by lia. rewrite orb_true_r.
    unfold drawn, inked. replace (off_y + yy - off_y) with yy by lia. rewrite Ev. lia.
  - exists buf. split; [done|]. eapply cell_ext; [|done]. intros x y _ _.
    destruct ((x =? xx) && (y =? off_y + yy)) eqn:E; [|by apply Hsame].
    assert (x = xx ∧ y = off_y + yy) as [-> ->] by lia.
    unfold drawn, inked. replace (off_y + yy - off_y) with yy by lia.
    by rewrite Ev, !andb_false_r.
Qed.

Lemma i32_small z : 0 <= z < 2 ^ 31 → i32 z = z.
Proof. intros. apply wraps_small; simpl; lia. Qed.

Lemma draw_row yy buf :
  0 <= yy < bm_rows g → 0 <= off_y + yy < h → cell bpp w h (drawn yy 0) L tail buf →
  ∃ buf', for_loop 0 (Z.to_nat (i32 (bm_width g)))
            (λ xx buf, draw_pixel put g (0 + xx) (off_y + yy) yy xx w buf) buf = Ok buf' ∧
    cell bpp w h (drawn (yy + 1) 0) L tail buf'.
Proof using Hg PixelWriter0.
  intros Hy Hdy Hc. rewrite i32_small by apply Hg.
  destruct (for_loop_inv (λ xx buf, cell bpp w h (drawn yy xx) L tail buf)
              (λ xx buf, draw_pixel put g (0 + xx) (off_y + yy) yy xx w buf)
              (Z.to_nat (bm_width g)) 0 buf) as (b' & E & Hc'); [|done|].
  { intros xx b Hxx. apply draw_pixel_step; lia. }
  exists b'. split; [done|]. eapply cell_ext; [|done]. intros x y Hx _.
  pose proof (g_width g Hg). rewrite Z2Nat.id by lia. unfold drawn, inked.
  destruct (127 <? _); lia.
Qed.

Lemma draw_glyph_cell buf :
  cell bpp w h (λ _ _, false) L tail buf →
  ∃ buf', draw_glyph put g off_y w h buf = Ok buf' ∧
    cell bpp w h (inked g off_y w) L tail buf'.
Proof using Hg PixelWriter0.
  intros Hc. unfold draw_glyph. rewrite (i32_small (bm_rows g)) by apply Hg.
  pose proof (g_rows g Hg).
  edestruct (for_loop_inv (λ yy buf, cell bpp w h (drawn yy 0) L tail buf)) as (b' & E & Hc');
    [| |exists b'; split; [exact E|]].
  - intros yy b Hyy Hb. cbn beta zeta.
    destruct (Z.ltb_spec (off_y + yy) 0); [|destruct (Z.leb_spec h (off_y + yy))]; cbn [orb];
      [exists b; split; [done|]; eapply cell_ext; [|done];
        intros x y Hx Hy; unfold drawn, inked; destruct (127 <? _); lia..|].
    apply draw_row; [lia|lia|done].
  - eapply cell_ext; [|done]. intros x y Hx Hy. unfold drawn, inked. bool_cases.
  - eapply cell_ext; [|done]. intros x y Hx Hy. unfold drawn, inked. bool_cases.
Qed.

End Draw.

(** The cleared cell. *)
Lemma memset0_cell bpp w h buf : depth bpp → 0 <= w → 0 <= h → Forall is_byte buf →
  row_bytes bpp w * h <= Z.of_nat (length buf) →
  ∃ buf', memset0 buf (row_bytes bpp w * h) = Ok buf' ∧
    cell bpp w h (λ _ _, false) (length buf)
      (drop (Z.to_nat (row_bytes bpp w * h)) buf) buf'.
Proof.
  intros Hd Hw Hh Hb Hroom. pose proof (row_bytes_nonneg bpp w Hd Hw).
  unfold memset0. rewrite store_Ok by (rewrite length_replicate; lia).
  rewrite take_0, app_nil_l, length_replicate, Nat.add_0_l.
  eexists. split; [done|]. split; [| |done| |].
  - apply Forall_app_2; [apply Forall_replicate; unfold is_byte; lia|by apply Forall_drop].
  - rewrite length_app, length_replicate, length_drop. nia.
  - by rewrite drop_app_length' by (by rewrite length_replicate).
  - intros x y Hx Hy. unfold pixel.
    pose proof (cell_index_bound bpp w h x y Hd Hw Hx Hy).
    rewrite lookup_total_app_l by (rewrite length_replicate; lia).
    rewrite lookup_total_replicate_2 by lia. unfold field. by rewrite Z.shiftr_0_l.
Qed.

(** ** What the routines draw *)

Lemma glyph_advance_val w g : 0 <= w → 0 <= bm_width g →
  glyph_advance w g = Z.max (Z.min (u32 (Z.shiftr (advance_x g + 32) 6)) w) (bm_width g).
Proof.
  intros Hw Hg. unfold glyph_advance. cbv zeta.
  pose proof (wrapu_range 32 (Z.shiftr (advance_x g + 32) 6)) as Ha. revert Ha.
  generalize (u32 (Z.shiftr (advance_x g + 32) 6)). intros a Ha. specialize (Ha ltac:(lia)).
  destruct (Z.ltb_spec w a) as [H1|H1].
  - destruct (Z.ltb_spec w (bm_width g)); [|destruct (Z.eqb_spec w 0); lia].
    destruct (Z.eqb_spec (bm_width g) 0); lia.
  - destruct (Z.ltb_spec a (bm_width g)); [|destruct (Z.eqb_spec a 0); lia].
    destruct (Z.eqb_spec (bm_width g) 0); lia.
Qed.

(** The lines of the packed pictures are padded to groups of eight pixels, which
    is wider than the next whole byte unless the last group is nearly full. *)
Lemma row_bytes_2_ceil w : 0 < w →
  (w + 3) / 4 <= row_bytes 2 w ∧
  (row_bytes 2 w = (w + 3) / 4 ↔ w mod 8 = 0 ∨ 4 < w mod 8).
Proof. intros. unfold row_bytes. split; Z.div_mod_to_equations; lia. Qed.

Lemma row_bytes_4_ceil w : 0 < w →
  (w + 1) / 2 <= row_bytes 4 w ∧ (row_bytes 4 w = (w + 1) / 2 ↔ w mod 8 = 0 ∨ w mod 8 = 7).
Proof. intros. unfold row_bytes. split; Z.div_mod_to_equations; lia. Qed.

Section Spec.
Context `{FreeType}.

(** Null buffers, empty cells and a library that is not initialised leave the
    buffer alone. *)
Lemma get_font_refuses ok pBits code w h :
  pBits = None ∨ w = 0 ∨ h = 0 ∨ ok = false →
  get_font ok pBits code w h = Ok (pBits, 0).
Proof.
  intros Hr. unfold get_font. destruct pBits as [buf|]; [|done].
  destruct Hr as [Hr | [-> | [-> | ->] ] ]; [done|done| |]; by rewrite !orb_true_r.
Qed.

(** The cell after a call that renders the glyph, for any writer. *)
Lemma render_cell bpp w h put buf g off_y :
  PixelWriter bpp w put → 0 <= h → Forall is_byte buf →
  row_bytes bpp w * h <= Z.of_nat (length buf) → glyph_ok g →
  ∃ b0 buf', memset0 buf (row_bytes bpp w * h) = Ok b0 ∧
    draw_glyph put g off_y w h b0 = Ok buf' ∧
    cell bpp w h (inked g off_y w) (length buf)
      (drop (Z.to_nat (row_bytes bpp w * h)) buf) buf'.
Proof.
  intros Hw Hh Hb Hroom Hg. pose proof (pw_depth (PixelWriter := Hw)).
  pose proof (pw_width (PixelWriter := Hw)).
  destruct (memset0_cell bpp w h buf) as (b0 & E0 & Hc); [done..|].
  destruct (draw_glyph_cell bpp w h put g Hg off_y _ _ _ Hc) as (b' & E & Hc').
  by exists b0, b'.
Qed.

Lemma get_font_cell buf code w h asc g :
  0 < w → 0 < h → Forall is_byte buf →
  row_bytes 1 w * h <= Z.of_nat (length buf) →
  FT_Set_Pixel_Sizes h = Some asc → FT_Load_Char h (u32 code) = Some g → glyph_ok g →
  ∃ buf', get_font true (Some buf) code w h = Ok (Some buf', glyph_advance w g) ∧
    cell 1 w h (inked g (glyph_off_y asc h g) w) (length buf)
      (drop (Z.to_nat (row_bytes 1 w * h)) buf) buf'.
Proof.
  intros Hw Hh Hb Hroom Hs Hl Hg. unfold get_font.
  destruct (Z.eqb_spec w 0); [lia|]. destruct (Z.eqb_spec h 0); [lia|].
  cbn [orb negb]. replace ((w + 7) / 8 * h) with (row_bytes 1 w * h) by (unfold row_bytes; lia).
  destruct (render_cell 1 w h (λ buf x y, set_bit_1bpp buf w x y) buf g
              (glyph_off_y asc h g)) as (b0 & b' & E0 & E & Hc);
    [apply set_bit_1bpp_writer; lia|lia|done..|].
  rewrite E0. cbn [mbind res_bind]. rewrite Hs, Hl. rewrite E. by exists b'.
Qed.

(** The depth of a grey cell. *)
Definition gray_depth (s : Z) : Z := if (16 <=? s) && (s <? 34) then 4 else 2.

Lemma get_Font_Gray_cell buf code s asc g :
  0 < s → Forall is_byte buf →
  row_bytes (gray_depth s) s * s <= Z.of_nat (length buf) →
  FT_Set_Pixel_Sizes s = Some asc → FT_Load_Char s (u32 code) = Some g → glyph_ok g →
  ∃ buf', get_Font_Gray true (Some buf) code s
            = Ok (Some buf', (glyph_advance s g, gray_depth s)) ∧
    cell (gray_depth s) s s (inked g (glyph_off_y asc s g) s) (length buf)
      (drop (Z.to_nat (row_bytes (gray_depth s) s * s)) buf) buf'.
Proof.
  intros Hs Hb Hroom Hsz Hl Hg. unfold get_Font_Gray. fold (gray_depth s).
  destruct (Z.eqb_spec s 0); [lia|]. cbn [orb negb].
  change ((s + 7) / 8 * gray_depth s * s) with (row_bytes (gray_depth s) s * s).
  set (put := λ buf dx dy, if gray_depth s =? 4 then set_pix_gray buf s dx dy 4 15
                           else set_pix_gray buf s dx dy 2 3).
  assert (PixelWriter (gray_depth s) s put) as Hput.
  { unfold put, gray_depth. destruct ((16 <=? s) && (s <? 34)); cbn.
    - apply set_pix_gray4_writer. lia.
    - apply set_pix_gray2_writer. lia. }
  destruct (render_cell (gray_depth s) s s put buf g (glyph_off_y asc s g))
    as (b0 & b' & E0 & E & Hc); [done|lia|done..|].
  rewrite E0. cbn [mbind res_bind]. rewrite Hsz, Hl. fold put. rewrite E. by exists b'.
Qed.

(** Drawing a character into a cell of [width] by [height]
    pixels of a buffer that holds it: afterwards a pixel of the cell is set
    exactly where the bitmap of the glyph, placed on the base line, is brighter
    than 127; the padding of each line is clear and the bytes behind the cell are
    the old ones.  The returned advance is the glyph's, at most the cell's width
    but at least the bitmap's. *)
Theorem get_font_draws buf code w h asc g :
  0 < w < 256 → 0 < h < 256 → Forall is_byte buf →
  (w + 7) / 8 * h <= Z.of_nat (length buf) →
  FT_Set_Pixel_Sizes h = Some asc → FT_Load_Char h (u32 code) = Some g → glyph_ok g →
  ∃ buf',
    get_font true (Some buf) code w h =
      Ok (Some buf', Z.max (Z.min (u32 (Z.shiftr (advance_x g + 32) 6)) w) (bm_width g)) ∧
    length buf' = length buf ∧
    drop (Z.to_nat ((w + 7) / 8 * h)) buf' = drop (Z.to_nat ((w + 7) / 8 * h)) buf ∧
    ∀ x y, 0 <= x < padded w → 0 <= y < h →
      Z.testbit (buf' !!! Z.to_nat (y * ((w + 7) / 8) + x / 8)) (7 - x mod 8)
      = inked g (glyph_off_y asc h g) w x y.
Proof.
  intros Hw Hh Hb Hroom Hs Hl Hg.
  assert (row_bytes 1 w = (w + 7) / 8) as ER by (unfold row_bytes; lia).
  rewrite <- ER in *.
  destruct (get_font_cell buf code w h asc g) as (b' & E & Hc); [lia|lia|done..|].
  pose proof (g_width g Hg). rewrite glyph_advance_val in E by lia.
  exists b'. split; [done|]. split; [apply Hc|]. split; [apply Hc|]. intros x y Hx Hy.
  pose proof (c_pixel _ _ _ _ _ _ _ Hc x y Hx Hy) as Hp.
  unfold pixel, field, cell_index in Hp. change (per_byte 1) with 8 in Hp.
  replace ((8 - 1 - x mod 8) * 1) with (7 - x mod 8) in Hp by lia.
  apply (f_equal (λ z, Z.testbit z 0)) in Hp. cbv beta in Hp.
  rewrite Z.land_spec, Z.shiftr_spec, Z.add_0_l, andb_true_r in Hp by lia.
  rewrite Hp. by destruct (inked g _ w x y).
Qed.

(** The monochrome and the grey routine draw the same
    picture: at every point of a square cell the grey pixel, of two or four bits
    by the size of the cell, is at full brightness where the monochrome bit is set
    and dark elsewhere, and both report the same advance. *)
Theorem fonts_agree buf1 buf2 code s asc g :
  0 < s < 256 → Forall is_byte buf1 → Forall is_byte buf2 →
  row_bytes 1 s * s <= Z.of_nat (length buf1) →
  row_bytes (gray_depth s) s * s <= Z.of_nat (length buf2) →
  FT_Set_Pixel_Sizes s = Some asc → FT_Load_Char s (u32 code) = Some g → glyph_ok g →
  ∃ b1 b2 adv,
    get_font true (Some buf1) code s s = Ok (Some b1, adv) ∧
    get_Font_Gray true (Some buf2) code s = Ok (Some b2, (adv, gray_depth s)) ∧
    ∀ x y, 0 <= x < padded s → 0 <= y < s →
      pixel (gray_depth s) s b2 x y = (2 ^ gray_depth s - 1) * pixel 1 s b1 x y.
Proof.
  intros Hs Hb1 Hb2 Hr1 Hr2 Hsz Hl Hg.
  destruct (get_font_cell buf1 code s s asc g) as (b1 & E1 & Hc1); [lia|lia|done..|].
  destruct (get_Font_Gray_cell buf2 code s asc g) as (b2 & E2 & Hc2); [lia|done..|].
  exists b1, b2, (glyph_advance s g). split; [done|]. split; [done|]. intros x y Hx Hy.
  rewrite (c_pixel _ _ _ _ _ _ _ Hc1 x y Hx Hy), (c_pixel _ _ _ _ _ _ _ Hc2 x y Hx Hy).
  destruct (inked g _ s x y); lia.
Qed.

End Spec.

(** ** Initialisation, once *)

Lemma GT_Font_Init_again `{FreeType} os fopen env os' fopen' env' s s' :
  GT_Font_Init os fopen env s = (s', 1) → GT_Font_Init os' fopen' env' s' = (s', 1).
Proof.
  unfold GT_Font_Init. destruct (s_ft_ok s) eqn:Eo; [intros [= <-]; by rewrite Eo|].
  destruct FT_Init_FreeType; [discriminate|].
  destruct (if file_accessible fopen env then env else _); [|discriminate].
  destruct (FT_New_Face _); [discriminate|]. by intros [= <-].
Qed.

(** The font of a successful start is LUAT_GTFONT_FILE when that can be read and
    otherwise the first readable one of the platform's list. *)
Lemma GT_Font_Init_face `{FreeType} os fopen env s s' :
  s_ft_ok s = false → GT_Font_Init os fopen env s = (s', 1) →
  ∃ f, s_ft_face s' = Some f ∧ FT_New_Face f = false ∧ fopen f = true ∧
    (env = Some f ∨ file_accessible fopen env = false ∧ f ∈ font_cands os).
Proof.
  unfold GT_Font_Init. intros ->. destruct FT_Init_FreeType; [discriminate|].
  assert (∀ p, file_accessible fopen p = true → ∃ f, p = Some f ∧ fopen f = true) as Hacc.
  { intros [ [|c f]|]; simpl; [done| |done]. eauto. }
  destruct (file_accessible fopen env) eqn:Ea.
  - destruct (Hacc env Ea) as (f & -> & Hf). destruct (FT_New_Face f) eqn:En; [discriminate|].
    intros [= <-]. eauto 10.
  - destruct (pick_default_font os fopen) as [f|] eqn:Ep; [|discriminate].
    destruct (FT_New_Face f) eqn:En; [discriminate|]. intros [= <-].
    apply List.find_some in Ep as [Hin Hf]. destruct (Hacc _ Hf) as (f' & [= <-] & Hf').
    exists f. split; [done|]. split; [done|]. split; [done|]. right. split; [done|].
    by apply list_elem_of_In.
Qed.

(** ** Concrete runs *)

(** A face with one glyph: three lines of five grey values. *)
Definition dot_glyph : FT_Glyph :=
  {| bm_rows := 3; bm_width := 5; bm_pitch := 6;
     bm_buffer := [0; 255; 255; 255; 0; 9;  255; 0; 0; 0; 255; 9;  0; 255; 127; 255; 0; 9];
     bitmap_top := 12; advance_x := 6 * 64 |}.

Definition dot_face : FreeType := {|
  FT_Init_FreeType := false;
  FT_New_Face _ := false;
  FT_Set_Pixel_Sizes h := Some (h * 64 * 7 / 8);
  FT_Load_Char _ c := if c =? 65 then Some dot_glyph else None;
|}.

Lemma dot_glyph_ok : glyph_ok dot_glyph.
Proof. split; simpl; lia. Qed.

Example get_font_dots :
  @get_font dot_face true (Some (replicate 40 170)) 65 16 16
  = Ok (Some (replicate 4 0 ++ [112; 0; 136; 0; 80; 0] ++ replicate 22 0 ++ replicate 8 170), 6).
Proof. reflexivity. Qed.

Lemma get_font_draws_witness : ∃ buf',
  @get_font dot_face true (Some (replicate 40 170)) 65 16 16 = Ok (Some buf', 6).
Proof.
  destruct (@get_font_draws dot_face (replicate 40 170) 65 16 16 896 dot_glyph) as (b & E & _);
    [lia|lia|apply Forall_replicate; unfold is_byte; lia|vm_compute; discriminate|reflexivity|reflexivity
    |exact dot_glyph_ok|]. exists b. exact E.
Defined.

Lemma fonts_agree_witness : ∃ b1 b2 adv,
  @get_font dot_face true (Some (replicate 32 0)) 65 16 16 = Ok (Some b1, adv) ∧
  @get_Font_Gray dot_face true (Some (replicate 128 0)) 65 16 = Ok (Some b2, (adv, 4)).
Proof.
  destruct (@fonts_agree dot_face (replicate 32 0) (replicate 128 0) 65 16 896 dot_glyph)
    as (b1 & b2 & adv & E1 & E2 & _);
    [lia|apply Forall_replicate; unfold is_byte; lia|apply Forall_replicate; unfold is_byte; lia
    |vm_compute; discriminate|vm_compute; discriminate|reflexivity|reflexivity|exact dot_glyph_ok|].
  exists b1, b2, adv. split; [exact E1|exact E2].
Defined.
