(* ===== verification/Log.v ===== *)
(** * Log output: port/luat_log_mini.c

    A log line is built in a buffer of 4096 bytes: the level's letter, the tag
    (cut to half the buffer), the formatted text and a line end; then it is
    printed behind a time stamp.  Formatting is [vsnprintf_] of the core, which
    writes into the room it is given; what it makes of a format and its arguments
    is the argument [text]. *)

From S2P Require Import Prelude.

(** ** Decimal conversions *)

(** [%d] *)
Definition print_d (z : Z) : list Z := if z <? 0 then 45 :: print_u (- z) else print_u z.

(** [%0<w>d]: zeroes up to the width, behind the sign. *)
Definition print_0d (w : nat) (z : Z) : list Z :=
  if z <? 0 then 45 :: replicate (w - S (length (print_u (- z)))) 48 ++ print_u (- z)
  else replicate (w - length (print_u z)) 48 ++ print_u z.

(** [printf("%.*s", l, s)]: at most [l] bytes of the object behind [s]; a
    negative precision counts as none. *)
Definition printf_prec (l : Z) (s : list Z) : res (list Z) :=
  let p := i32 l in
  if p <? 0 then c_string s
  else if existsb (λ b, b =? 0) (take (Z.to_nat p) s) then Ok (cstr (take (Z.to_nat p) s))
  else if decide (p <= Z.of_nat (length s)) then Ok (take (Z.to_nat p) s)
  else Fault OutOfBounds.

(** ** The formatter of the core *)

(** [vsnprintf_ n text]: the bytes stored into a buffer of [n] bytes and the
    value returned. *)
Class Printf : Type := { vsnprintf_ : Z → list Z → list Z * Z }.

(** What is documented of it: the text, cut to the room, with its NUL; the result
    is the length of the whole text. *)
Class PrintfLaws `{Printf} : Prop := {
  vsnprintf_writes : ∀ n text, 0 < n →
    (vsnprintf_ n text).1 = take (Z.to_nat (n - 1)) text ++ [0];
  vsnprintf_returns : ∀ n text, (vsnprintf_ n text).2 = Z.of_nat (length text);
}.

Definition plain_printf : Printf := {|
  vsnprintf_ n text :=
    (if 0 <? n then take (Z.to_nat (n - 1)) text ++ [0] else [], Z.of_nat (length text));
|}.

Lemma plain_printf_laws : @PrintfLaws plain_printf.
Proof. split; [|done]. intros n text Hn. simpl. by destruct (Z.ltb_spec 0 n); [|lia]. Qed.

(** ** State *)

(** The numbers of the levels are the core's. *)
Class LogLevels : Type := {
  LUAT_LOG_DEBUG : Z; LUAT_LOG_INFO : Z; LUAT_LOG_WARN : Z; LUAT_LOG_ERROR : Z;
}.

(** [localtime], the nanoseconds of the real-time clock and the milliseconds since
    the start, when a line is written. *)
Record log_time : Type := {
  tm_year : Z; tm_mon : Z; tm_mday : Z; tm_hour : Z; tm_min : Z; tm_sec : Z;
  tv_nsec : Z; tick_ms : Z;
}.

Record log_state : Type := LogState {
  luat_log_uart_port : Z; luat_log_level_cur : Z; console : list Z;
}.

Definition LOGLOG_SIZE : Z := 4096.

Section Log.
Context `{LogLevels, Printf}.
Context (luatos_pc_climode : bool) (now : log_time).

Definition log_state_init : log_state := LogState 0 LUAT_LOG_DEBUG [].

Definition luat_log_init_win32 (st : log_state) : log_state := st.
Definition luat_log_set_uart_port (port : Z) (st : log_state) : log_state :=
  LogState (u8 port) (luat_log_level_cur st) (console st).

(** The time stamp, as [sprintf_] writes it. *)
Definition log_stamp : list Z :=
  let t := tick_ms now in
  let sec := u32 (t / 1000) in
  let ms := u32 (t mod 1000) in
  bytes "[" ++ print_d (tm_year now + 1900) ++ bytes "-" ++ print_0d 2 (tm_mon now + 1) ++
  bytes "-" ++ print_0d 2 (tm_mday now) ++ bytes " " ++ print_0d 2 (tm_hour now) ++
  bytes ":" ++ print_0d 2 (tm_min now) ++ bytes ":" ++ print_0d 2 (tm_sec now) ++
  bytes "." ++ print_0d 3 (Z.quot (tv_nsec now) 1000000) ++
  bytes "][" ++ print_0d 8 sec ++ bytes "." ++ print_0d 3 ms ++ bytes "] ".

Definition put_console (s : list Z) (st : log_state) : log_state :=
  LogState (luat_log_uart_port st) (luat_log_level_cur st) (console st ++ s).

(** [s] is the object the pointer points into. *)
Definition luat_log_write (s : list Z) (l : Z) (st : log_state) : res log_state :=
  if luatos_pc_climode then
    p ← printf_prec l s; Ok (put_console p st)
  else
    tmp ← store (replicate 129 0) 0 (log_stamp ++ [0]);
    stamp ← c_string tmp;
    p ← printf_prec l s;
    Ok (put_console (stamp ++ p) st).

Definition luat_nprint (s : list Z) (l : Z) (st : log_state) : res log_state :=
  luat_log_write s l st.

Definition luat_print (str : list Z) (st : log_state) : res log_state :=
  s ← c_string str; luat_nprint str (Z.of_nat (length s)) st.

Definition luat_log_set_level (level : Z) (st : log_state) : log_state :=
  LogState (luat_log_uart_port st) (u8 level) (console st).
Definition luat_log_get_level (st : log_state) : Z := luat_log_level_cur st.

Definition level_letter (level : Z) : Z :=
  if level =? LUAT_LOG_DEBUG then 68
  else if level =? LUAT_LOG_INFO then 73
  else if level =? LUAT_LOG_WARN then 87
  else if level =? LUAT_LOG_ERROR then 69
  else 63.

Definition luat_log_log (level : Z) (tag text : list Z) (st : log_state) : res log_state :=
  if level <? luat_log_level_cur st then Ok st
  else
    let buff := replicate (Z.to_nat LOGLOG_SIZE) 0 in
    buff ← store buff 0 [level_letter level];
    buff ← store buff 1 [47];
    let tmp := 2%nat in
    t ← c_string tag;
    let taglen := Z.of_nat (length t) in
    let taglen := if LOGLOG_SIZE / 2 <? taglen then LOGLOG_SIZE / 2 else taglen in
    d ← load tag 0 (Z.to_nat taglen);
    buff ← store buff tmp d;
    let tmp := (tmp + Z.to_nat taglen)%nat in
    buff ← store buff tmp [32];
    let tmp := (tmp + 1)%nat in
    s ← c_string buff;
    let '(w, len) := vsnprintf_ (LOGLOG_SIZE - Z.of_nat (length s)) text in
    buff ← store buff tmp w;
    if 0 <? len then
      s ← c_string buff;
      let len := Z.of_nat (length s) in
      let len := if LOGLOG_SIZE - 1 <? len then LOGLOG_SIZE - 1 else len in
      buff ← store buff (Z.to_nat len) [10];
      luat_log_write buff (len + 1) st
    else Ok st.

(** A failed assertion prints its place and text and leaves the process with 16. *)
Definition luat_debug_assert (fun_name : list Z) (line_no : Z) (text : list Z) (st : log_state)
    : res (log_state * Z) :=
  let st := put_console (bytes "ASSERT: " ++ fun_name ++ bytes ":" ++ print_u line_no ++ bytes ": ") st in
  let '(w, _) := vsnprintf_ 255 text in
  buff ← store (replicate 256 0) 0 w;
  s ← c_string buff;
  Ok (put_console (s ++ [10]) st, 16).

End Log.

(** ** Lengths of the conversions *)

Lemma print_u_max n : (length (print_u n) <= 20)%nat.
Proof. apply dec_digits_max. Qed.

Lemma dec_digits_small k : ∀ fuel n, 0 <= n < 10 ^ Z.of_nat k → (0 < k)%nat →
  (length (dec_digits fuel n) <= k)%nat.
Proof.
  induction k as [|k IH]; intros [|fuel] n Hn Hk; [lia|lia|simpl; lia|].
  cbn [dec_digits]. rewrite length_app. destruct (Z.ltb_spec n 10); [simpl; lia|].
  destruct k as [|k]; [simpl in Hn; lia|].
  rewrite Nat2Z.inj_succ, Z.pow_succ_r in Hn by lia.
  assert (length (dec_digits fuel (n / 10)) <= S k)%nat; [|simpl; lia].
  apply IH; [|lia]. split; [apply Z.div_pos; lia|apply Z.div_lt_upper_bound; lia].
Qed.

Lemma print_u_len k n : 0 <= n < 10 ^ Z.of_nat k → (0 < k)%nat → (length (print_u n) <= k)%nat.
Proof. apply dec_digits_small. Qed.

Lemma print_d_len z : - 2 ^ 31 <= z < 2 ^ 31 → (length (print_d z) <= 11)%nat.
Proof.
  intros Hz. unfold print_d. destruct (Z.ltb_spec z 0); cbn [length].
  - pose proof (print_u_len 10 (- z)). simpl in *. lia.
  - pose proof (print_u_len 10 z). simpl in *. lia.
Qed.

Lemma print_0d_len w z k : (w <= k)%nat ∧ (0 < k)%nat → 0 <= z < 10 ^ Z.of_nat k →
  (length (print_0d w z) <= k)%nat.
Proof.
  intros [Hw Hk] Hz. unfold print_0d. destruct (Z.ltb_spec z 0); [lia|].
  rewrite length_app, length_replicate. pose proof (print_u_len k z Hz Hk). lia.
Qed.

Lemma print_u_no_nul n : no_nul (print_u n).
Proof. apply is_digit_nonzero, dec_digits_digits. Qed.

Lemma print_d_no_nul z : no_nul (print_d z).
Proof. unfold print_d. case_match; [constructor; [lia|]|]; apply print_u_no_nul. Qed.

Lemma print_0d_no_nul w z : no_nul (print_0d w z).
Proof.
  unfold print_0d, no_nul.
  case_match; [constructor; [lia|]|];
    (apply Forall_app; split; [apply Forall_replicate; lia|apply print_u_no_nul]).
Qed.

(** ** The printed line *)

(** What the C library promises of [localtime] and the clocks. *)
Record log_time_ok (now : log_time) : Prop := {
  lt_year : - 2 ^ 31 <= tm_year now + 1900 < 2 ^ 31;
  lt_mon : 0 <= tm_mon now < 12;
  lt_mday : 1 <= tm_mday now <= 31;
  lt_hour : 0 <= tm_hour now < 24;
  lt_min : 0 <= tm_min now < 60;
  lt_sec : 0 <= tm_sec now <= 60;
  lt_nsec : 0 <= tv_nsec now < 10 ^ 9;
}.

Lemma log_stamp_no_nul now : no_nul (log_stamp now).
Proof.
  unfold log_stamp, no_nul.
  repeat (apply Forall_app; split);
    try apply print_d_no_nul; try apply print_0d_no_nul; simpl; repeat constructor; lia.
Qed.

(** The stamp is at most 52 bytes: the array has more than twice that. *)
Lemma log_stamp_len now : log_time_ok now → (length (log_stamp now) <= 52)%nat.
Proof.
  intros [? ? ? ? ? ? ?]. unfold log_stamp. rewrite !length_app.
  assert (0 <= Z.quot (tv_nsec now) 1000000 < 1000) as Hq.
  { rewrite Z.quot_div_nonneg by lia. split; [apply Z.div_pos; lia|apply Z.div_lt_upper_bound; lia]. }
  pose proof (Z.mod_pos_bound (tick_ms now) 1000) as Hm.
  assert (u32 (tick_ms now mod 1000) = tick_ms now mod 1000) as -> by (apply wrapu_small; lia).
  pose proof (wrapu_range 32 (tick_ms now / 1000)) as Hs.
  assert (∀ w z k, (w <= k)%nat ∧ (0 < k)%nat → 0 <= z < 10 ^ Z.of_nat k →
            (length (print_0d w z) <= k)%nat) as H0d by apply print_0d_len.
  pose proof (H0d 2%nat (tm_mon now + 1) 2%nat). pose proof (H0d 2%nat (tm_mday now) 2%nat).
  pose proof (H0d 2%nat (tm_hour now) 2%nat). pose proof (H0d 2%nat (tm_min now) 2%nat).
  pose proof (H0d 2%nat (tm_sec now) 2%nat). pose proof (H0d 3%nat (Z.quot (tv_nsec now) 1000000) 3%nat).
  pose proof (H0d 8%nat (u32 (tick_ms now / 1000)) 10%nat). pose proof (H0d 3%nat (tick_ms now mod 1000) 3%nat).
  pose proof (print_d_len (tm_year now + 1900)).
  change (10 ^ Z.of_nat 2) with 100 in *. change (10 ^ Z.of_nat 3) with 1000 in *.
  change (10 ^ Z.of_nat 10) with 10000000000 in *. change (2 ^ 32) with 4294967296 in *.
  cbn [bytes length]. lia.
Qed.

Section Facts.
Context `{LogLevels}.
Context (climode : bool) (now : log_time).

(** What is printed in front of a line. *)
Definition stamp_of : list Z := if climode then [] else log_stamp now.

Lemma log_write_spec s l st p :
  climode = true ∨ log_time_ok now →
  printf_prec l s = Ok p →
  luat_log_write climode now s l st = Ok (put_console (stamp_of ++ p) st).
Proof.
  intros Hn Hp. unfold luat_log_write, stamp_of. destruct climode.
  { by rewrite Hp. }
  destruct Hn as [?|Hn]; [done|]. pose proof (log_stamp_len now Hn).
  rewrite store_Ok by (rewrite length_app, length_replicate; cbn [length]; lia).
  rewrite take_0, app_nil_l. cbn [mbind res_bind].
  rewrite <- app_assoc. change ([0] ++ ?r) with (0 :: r).
  rewrite c_string_app by apply log_stamp_no_nul. cbn [mbind res_bind].
  rewrite Hp. done.
Qed.

Lemma printf_prec_all s r : no_nul s → Z.of_nat (length s) < 2 ^ 31 →
  printf_prec (Z.of_nat (length s)) (s ++ r) = Ok s.
Proof.
  intros Hs Hl. unfold printf_prec. rewrite wraps_small by (simpl; lia).
  destruct (Z.ltb_spec (Z.of_nat (length s)) 0); [lia|].
  rewrite Nat2Z.id, take_app_length, no_nul_existsb by done.
  rewrite length_app, decide_True by lia. done.
Qed.

Lemma level_letter_nonzero level : level_letter level ≠ 0.
Proof. unfold level_letter. by repeat case_match. Qed.

End Facts.

(** [cstr] of a text that is cut and terminated. *)
Lemma cstr_take_no_nul n s : no_nul (cstr (take n s)).
Proof. apply cstr_no_nul. Qed.

Lemma cstr_terminated s r : ∃ r', s ++ 0 :: r = cstr s ++ 0 :: r'.
Proof.
  induction s as [|b s [r' IH]]; cbn [cstr app]; [by exists r|].
  destruct (Z.eqb_spec b 0) as [->|]; [by eexists|].
  exists r'. by rewrite IH.
Qed.

Lemma cstr_length s : (length (cstr s) <= length s)%nat.
Proof. induction s as [|b s IH]; simpl; [lia|]. case_match; simpl; lia. Qed.

Section Line.
Context `{LogLevels, Printf, !PrintfLaws}.
Context (climode : bool) (now : log_time).

(** The line of a message: what comes in front of the text, and the text. *)
Definition log_prefix (level : Z) (tag : list Z) : list Z :=
  ([level_letter level; 47] ++ take 2048 tag) ++ [32].
Definition log_line (level : Z) (tag text : list Z) : list Z :=
  log_prefix level tag ++ cstr (take (4095 - length (log_prefix level tag)) text) ++ [10].

Lemma log_prefix_len level tag :
  length (log_prefix level tag) = (3 + length (take 2048 tag))%nat.
Proof. unfold log_prefix. rewrite !length_app. cbn [length]. lia. Qed.

Lemma log_prefix_no_nul level tag : no_nul tag → no_nul (log_prefix level tag).
Proof.
  intros Ht. unfold log_prefix. repeat (apply Forall_app; split);
    [|by apply Forall_take|constructor; [lia|constructor] ].
  constructor; [apply level_letter_nonzero|]. constructor; [lia|constructor].
Qed.

Lemma log_line_max level tag text : (length (log_line level tag text) <= 4096)%nat.
Proof.
  unfold log_line. rewrite !length_app. pose proof (log_prefix_len level tag) as Hp.
  pose proof (length_take tag 2048).
  pose proof (cstr_length (take (4095 - length (log_prefix level tag)) text)) as Hc.
  rewrite length_take in Hc. cbn [length]. lia.
Qed.

(** The next piece of the zeroed buffer. *)
Lemma fill_zeroes pre k d n :
  n = length pre → (length d <= k)%nat →
  store (pre ++ replicate k 0) n d = Ok ((pre ++ d) ++ replicate (k - length d) 0).
Proof.
  intros -> Hd. rewrite store_extend by (rewrite length_replicate; lia).
  by rewrite drop_replicate.
Qed.

Lemma tag_piece tag r : no_nul tag →
  load (tag ++ 0 :: r) 0
    (Z.to_nat (if 2048 <? Z.of_nat (length tag) then 2048 else Z.of_nat (length tag)))
  = Ok (take 2048 tag) ∧
  Z.to_nat (if 2048 <? Z.of_nat (length tag) then 2048 else Z.of_nat (length tag))
  = length (take 2048 tag).
Proof.
  intros Ht. rewrite length_take. destruct (Z.ltb_spec 2048 (Z.of_nat (length tag))).
  - split; [|lia]. rewrite load_Ok by (rewrite length_app; simpl; lia).
    rewrite drop_0, take_app_le by lia. by replace (Z.to_nat 2048) with 2048%nat by lia.
  - split; [|lia]. rewrite Nat2Z.id, load_Ok by (rewrite length_app; lia).
    rewrite drop_0, take_app_length, take_ge by lia. done.
Qed.

(** One step of a computation, without evaluating the rest of it. *)
Lemma bind_Ok {A B} (a : A) (f : A → res B) : Ok a ≫= f = f a.
Proof. done. Qed.

(** The last part: the formatted text behind [pre], and the line end. *)
Lemma line_end pre text st :
  no_nul pre → (length pre <= 3000)%nat → text ≠ [] →
  climode = true ∨ log_time_ok now →
  (let '(w, len) := vsnprintf_ (LOGLOG_SIZE - Z.of_nat (length pre)) text in
   buff ← store (pre ++ replicate (4096 - length pre) 0) (length pre) w;
   if 0 <? len then
     s ← c_string buff;
     let len := Z.of_nat (length s) in
     let len := if LOGLOG_SIZE - 1 <? len then LOGLOG_SIZE - 1 else len in
     buff ← store buff (Z.to_nat len) [10];
     luat_log_write climode now buff (len + 1) st
   else Ok st)
  = Ok (put_console (stamp_of climode now ++ pre ++ cstr (take (4095 - length pre) text) ++ [10]) st).
Proof.
  intros Hpre Hl Hne Hnow. unfold LOGLOG_SIZE.
  destruct (vsnprintf_ (4096 - Z.of_nat (length pre)) text) as [w len] eqn:Ev.
  assert (w = take (4095 - length pre) text ++ [0]) as ->.
  { pose proof (vsnprintf_writes (4096 - Z.of_nat (length pre)) text) as Hw.
    rewrite Ev in Hw. cbn [fst] in Hw. rewrite Hw by lia. do 2 f_equal. lia. }
  assert (len = Z.of_nat (length text)) as ->.
  { pose proof (vsnprintf_returns (4096 - Z.of_nat (length pre)) text) as Hr. by rewrite Ev in Hr. }
  set (t := take (4095 - length pre) text).
  assert (length t <= 4095 - length pre)%nat as Ht by (unfold t; rewrite length_take; lia).
  rewrite fill_zeroes by (rewrite ?length_app; simpl; lia). cbn [mbind res_bind].
  destruct (Z.ltb_spec 0 (Z.of_nat (length text))); [|by destruct text].
  replace (4096 - length pre - length (t ++ [0%Z]))%nat with (4095 - length pre - length t)%nat
    by (rewrite length_app; simpl; lia).
  rewrite <- !app_assoc. change ([0] ++ ?r) with (0 :: r).
  destruct (cstr_terminated t (replicate (4095 - length pre - length t) 0)) as [r' ->].
  pose proof (cstr_length t).
  rewrite app_assoc, c_string_app by (apply Forall_app; split; [done|apply cstr_no_nul]).
  cbn [mbind res_bind]. rewrite length_app.
  destruct (Z.ltb_spec (4096 - 1) (Z.of_nat (length pre + length (cstr t)))); [lia|].
  rewrite Nat2Z.id, (store_fill _ (pre ++ cstr t) (0 :: r') [10]) by (rewrite ?length_app; simpl; lia).
  cbn [mbind res_bind length drop].
  replace (Z.of_nat (length pre + length (cstr t)) + 1)
    with (Z.of_nat (length ((pre ++ cstr t) ++ [10]))) by (rewrite !length_app; simpl; lia).
  rewrite (log_write_spec climode now _ _ st ((pre ++ cstr t) ++ [10])); [by rewrite <- !app_assoc|done|].
  apply printf_prec_all; [|rewrite !length_app; simpl; lia].
  apply Forall_app. split; [|constructor; [lia|constructor]].
  apply Forall_app. split; [done|apply cstr_no_nul].
Qed.

(** Logging a message: a message below the current level prints
    nothing; any other is printed as one line with the level's letter, the tag
    cut to 2048 bytes and as much of the text as fits, and no input makes the
    routine leave its buffer: the line has at most 4096 bytes. *)
Theorem log_log_prints level tag r text st :
  no_nul tag → text ≠ [] → climode = true ∨ log_time_ok now →
  luat_log_log climode now level (tag ++ 0 :: r) text st =
    Ok (if level <? luat_log_level_cur st then st
        else put_console (stamp_of climode now ++ log_line level tag text) st) ∧
  (length (log_line level tag text) <= 4096)%nat.
Proof.
  intros Ht Hne Hnow. split; [|apply log_line_max]. unfold luat_log_log.
  destruct (level <? _); [done|].
  assert (Z.to_nat LOGLOG_SIZE = 4096%nat) as -> by (by vm_compute).
  rewrite <- (app_nil_l (replicate 4096 0)) at 1.
  rewrite (fill_zeroes []) by (cbn [length]; lia). rewrite bind_Ok.
  rewrite (fill_zeroes ([] ++ _)) by (cbn [length app]; lia). rewrite bind_Ok.
  rewrite !app_nil_l. change ([level_letter level] ++ [47]) with [level_letter level; 47].
  rewrite c_string_app by done. rewrite bind_Ok.
  assert (LOGLOG_SIZE / 2 = 2048) as -> by done. destruct (tag_piece tag r Ht) as [-> ->].
  rewrite bind_Ok.
  pose proof (length_take tag 2048) as Hlen.
  rewrite (fill_zeroes [level_letter level; 47] _ (take 2048 tag)) by (cbn [length]; lia).
  rewrite bind_Ok.
  rewrite (fill_zeroes ([level_letter level; 47] ++ take 2048 tag) _ [32]) by (rewrite ?length_app; cbn [length]; lia).
  rewrite bind_Ok.
  fold (log_prefix level tag). pose proof (log_prefix_len level tag) as Hp.
  pose proof (log_prefix_no_nul level tag Ht) as Hnn.
  replace (4096 - length [level_letter level] - length [47%Z] - length (take 2048 tag) - length [32%Z])%nat
    with (4096 - length (log_prefix level tag))%nat by (cbn [length]; lia).
  replace (2 + length (take 2048 tag) + 1)%nat with (length (log_prefix level tag)) by lia.
  rewrite c_string_pad by (done || lia). rewrite bind_Ok. by rewrite line_end by (done || lia).
Qed.

(** A failed assertion ends the process whatever its text is. *)
Lemma debug_assert_exits fn line text st :
  ∃ st', luat_debug_assert fn line text st = Ok (st', 16).
Proof.
  unfold luat_debug_assert.
  destruct (vsnprintf_ 255 text) as [w n] eqn:Ev.
  pose proof (vsnprintf_writes 255 text) as Hw. rewrite Ev in Hw. cbn [fst] in Hw.
  rewrite Hw by lia. set (t := take _ text).
  assert (length t <= 254)%nat as Ht by (unfold t; rewrite length_take; lia). clearbody t.
  change (replicate 256 0) with ([] ++ replicate 256 0).
  rewrite (fill_zeroes []) by (rewrite ?length_app; cbn [length]; lia).
  cbn [mbind res_bind]. rewrite app_nil_l, <- app_assoc.
  destruct (cstr_terminated t (replicate (256 - length (t ++ [0])) 0)) as [r' E].
  change ([0] ++ ?r) with (0 :: r). rewrite E, c_string_app by apply cstr_no_nul.
  by eexists.
Qed.

End Line.

(** The level is kept in a byte: a level of 256 or more wraps. *)
Lemma log_set_get_level level st :
  luat_log_get_level (luat_log_set_level level st) = level mod 256.
Proof. done. Qed.

(** ** A run *)

Definition demo_levels : LogLevels :=
  {| LUAT_LOG_DEBUG := 1; LUAT_LOG_INFO := 2; LUAT_LOG_WARN := 3; LUAT_LOG_ERROR := 4 |}.

Definition demo_now : log_time :=
  {| tm_year := 125; tm_mon := 0; tm_mday := 9; tm_hour := 8; tm_min := 7; tm_sec := 6;
     tv_nsec := 5000000; tick_ms := 12345 |}.

Lemma demo_now_ok : log_time_ok demo_now.
Proof. split; simpl; lia. Qed.

Example log_demo :
  @luat_log_log demo_levels plain_printf false demo_now 2 (bytes "pc" ++ [0]) (bytes "boot") (LogState 0 1 [])
  = Ok (LogState 0 1 (bytes "[2025-01-09 08:07:06.005][00000012.345] I/pc boot" ++ [10])).
Proof. vm_compute. reflexivity. Qed.

Lemma log_log_prints_witness :
  @luat_log_log demo_levels plain_printf false demo_now 3 (bytes "pc" ++ [0]) (bytes "boot") (LogState 0 1 [])
  = Ok (put_console (log_stamp demo_now ++
        @log_line demo_levels 3 (bytes "pc") (bytes "boot")) (LogState 0 1 [])).
Proof.
  refine (proj1 (@log_log_prints demo_levels plain_printf plain_printf_laws false demo_now 3
    (bytes "pc") [] (bytes "boot") (LogState 0 1 []) _ _ _)).
  - repeat constructor; discriminate.
  - discriminate.
  - right. exact demo_now_ok.
Defined.
