(* ===== verification/Ch347.v ===== *)
(** * The USB adapter CH347: port/driver/luat_ch347_pc.c (Windows)

    The adapter gives the simulator real I2C, SPI and GPIO pins.  The vendor's
    library is loaded at run time and its entry points are called through
    pointers; here they are a class over an abstract device state.  The module
    keeps shadow registers of the eight pins: [s_Gpiostatus] (directions),
    [s_Gpiovalues] (levels) and [s_Gpioflag] (pins in use). *)

From S2P Require Import Prelude.

(** ** The vendor library *)

(** [mSpiCfgS]; the fields the code sets to a constant zero are left out. *)
Record SpiCfg : Type := {
  iMode : Z; iClock : Z; iByteOrder : Z; iChipSelect : Z; iSpiOutDefaultData : Z;
}.

Class Ch347Dll : Type := {
  dev : Type;
  (** the library file exists; it exports the function of this name *)
  dll_found : bool;
  exports : string → bool;
  (** a valid handle was returned *)
  CH347OpenDevice : Z → dev → bool * dev;
  CH347CloseDevice : Z → dev → dev;
  CH347GetDeviceInfor : Z → dev → list Z;
  CH347SetTimeout : Z → Z → Z → dev → dev;
  (** BOOL results are numbers *)
  CH347I2C_Set : Z → Z → dev → Z * dev;
  (** bytes written, number of bytes to read; result and bytes read *)
  CH347StreamI2C : Z → list Z → Z → dev → Z * list Z * dev;
  CH347SPI_SetFrequency : Z → Z → dev → Z * dev;
  CH347SPI_SetDataBits : Z → Z → dev → Z * dev;
  CH347SPI_Init : Z → SpiCfg → dev → Z * dev;
  (** chip select, bytes, size of a step *)
  CH347SPI_Write : Z → Z → list Z → Z → dev → Z * dev;
  (** chip select, bytes to send, bytes wanted; the bytes read *)
  CH347SPI_Read : Z → Z → Z → Z → dev → Z * list Z * dev;
  (** the bytes of the buffer are sent and replaced by those received *)
  CH347StreamSPI4 : Z → Z → list Z → dev → Z * list Z * dev;
  (** enabled pins, directions, levels *)
  CH347GPIO_Set : Z → Z → Z → Z → dev → dev;
  (** directions and levels *)
  CH347GPIO_Get : Z → dev → Z * Z * dev;
}.

(** What the vendor's header documents: the lengths of what is read back, and
    that registers are bytes. *)
Class Ch347Laws `{Ch347Dll} : Prop := {
  stream_i2c_len : ∀ i w n d, 0 <= n →
    Z.of_nat (length (CH347StreamI2C i w n d).1.2) = n;
  spi_read_len : ∀ i c o n d, 0 <= n →
    Z.of_nat (length (CH347SPI_Read i c o n d).1.2) <= n;
  stream_spi_len : ∀ i c b d, length (CH347StreamSPI4 i c b d).1.2 = length b;
  gpio_get_bytes : ∀ i d, is_byte (CH347GPIO_Get i d).1.1 ∧ is_byte (CH347GPIO_Get i d).1.2;
}.

(** ** State *)

Definition CB_ERR : Z := 2 ^ 32 - 1.
Definition INFOR_SLOTS : nat := 16.

Section Ch347.
Context `{Ch347Dll}.

Record ch347 : Type := Ch347 {
  DevIsOpened : Z;
  SpiI2cGpioDevIndex : Z;
  SpiI2cDevInfor : list (list Z);
  s_Gpiostatus : Z;
  s_Gpiovalues : Z;
  s_Gpioflag : Z;
  s_SPIMode : Z;
  (** the pointers that [GetProcAddress] filled *)
  pfn : string → bool;
  device : dev;
}.

Definition ch347_init (d : dev) : ch347 :=
  Ch347 0 0 (replicate INFOR_SLOTS []) 0 0 0 1 (λ _, false) d.

Definition set_device (d : dev) (st : ch347) : ch347 :=
  Ch347 (DevIsOpened st) (SpiI2cGpioDevIndex st) (SpiI2cDevInfor st) (s_Gpiostatus st)
    (s_Gpiovalues st) (s_Gpioflag st) (s_SPIMode st) (pfn st) d.
Definition set_opened (o : Z) (st : ch347) : ch347 :=
  Ch347 o (SpiI2cGpioDevIndex st) (SpiI2cDevInfor st) (s_Gpiostatus st)
    (s_Gpiovalues st) (s_Gpioflag st) (s_SPIMode st) (pfn st) (device st).
Definition set_index (i : Z) (st : ch347) : ch347 :=
  Ch347 (DevIsOpened st) i (SpiI2cDevInfor st) (s_Gpiostatus st)
    (s_Gpiovalues st) (s_Gpioflag st) (s_SPIMode st) (pfn st) (device st).
Definition set_infor (l : list (list Z)) (st : ch347) : ch347 :=
  Ch347 (DevIsOpened st) (SpiI2cGpioDevIndex st) l (s_Gpiostatus st)
    (s_Gpiovalues st) (s_Gpioflag st) (s_SPIMode st) (pfn st) (device st).
Definition set_regs (status values flag : Z) (st : ch347) : ch347 :=
  Ch347 (DevIsOpened st) (SpiI2cGpioDevIndex st) (SpiI2cDevInfor st) status values flag
    (s_SPIMode st) (pfn st) (device st).
Definition set_spi_mode (m : Z) (st : ch347) : ch347 :=
  Ch347 (DevIsOpened st) (SpiI2cGpioDevIndex st) (SpiI2cDevInfor st) (s_Gpiostatus st)
    (s_Gpiovalues st) (s_Gpioflag st) m (pfn st) (device st).
Definition set_pfn (f : string → bool) (st : ch347) : ch347 :=
  Ch347 (DevIsOpened st) (SpiI2cGpioDevIndex st) (SpiI2cDevInfor st) (s_Gpiostatus st)
    (s_Gpiovalues st) (s_Gpioflag st) (s_SPIMode st) f (device st).

(** A call through the pointer of the function [name]. *)
Definition via {A} (name : string) (st : ch347) (f : dev → A * dev) : res (A * ch347) :=
  if pfn st name then
    let '(a, d) := f (device st) in Ok (a, set_device d st)
  else Fault NullDeref.

(** Calls that only act on the device. *)
Definition via_ (name : string) (st : ch347) (f : dev → dev) : res ch347 :=
  '(_, st) ← via name st (λ d, (tt, f d)); Ok st.

(** ** Finding and opening a device *)

(** One round of the scan: [i] is the index tried, [DevCnt] the devices found. *)
Definition scan_one (i : Z) (DevCnt : Z) (st : ch347) : res (Z * ch347) :=
  '(valid, st) ← via "CH347OpenDevice" st (CH347OpenDevice i);
  '(DevCnt, st) ←
    (if (valid : bool) then
       '(info, st) ← via "CH347GetDeviceInfor" st (λ d, (CH347GetDeviceInfor i d, d));
       st ← (if decide (0 <= DevCnt < Z.of_nat (length (SpiI2cDevInfor st)))
             then Ok (set_infor (<[Z.to_nat DevCnt := info]> (SpiI2cDevInfor st)) st)
             else Fault OutOfBounds);
       let st := if DevCnt =? 0 then set_index (u32 i) st else st in
       st ← via_ "CH347GetVersion" st (λ d, d);
       Ok (DevCnt + 1, st)
     else Ok (DevCnt, st));
  st ← via_ "CH347CloseDevice" st (CH347CloseDevice i);
  Ok (DevCnt, st).

Fixpoint scan (i : Z) (n : nat) (DevCnt : Z) (st : ch347) : res (Z * ch347) :=
  match n with
  | O => Ok (DevCnt, st)
  | S n => '(DevCnt, st) ← scan_one i DevCnt st; scan (i + 1) n DevCnt st
  end.

Definition luat_ch347Device (st : ch347) : res (Z * ch347) := scan 0 16 0 st.

Definition Luat_OpenDevice (st : ch347) : res (Z * ch347) :=
  let st := set_opened 0 st in
  if SpiI2cGpioDevIndex st =? CB_ERR then Ok (0, st)
  else
    '(valid, st) ← via "CH347OpenDevice" st (CH347OpenDevice (SpiI2cGpioDevIndex st));
    let st := set_opened (if (valid : bool) then 1 else 0) st in
    st ← (if negb (DevIsOpened st =? 0)
          then via_ "CH347SetTimeout" st (CH347SetTimeout (SpiI2cGpioDevIndex st) 500 500)
          else Ok st);
    Ok (DevIsOpened st, st).

Definition luat_load_ch347 (flag : Z) (st : ch347) : res (Z * ch347) :=
  if negb dll_found then Ok (0, st)
  else
    let st := set_pfn exports st in
    '(n, st) ← luat_ch347Device st;
    if n =? 0 then Ok (0, st)
    else
      '(o, st) ← Luat_OpenDevice st;
      Ok (if o =? 0 then 0 else 1, st).

(** ** I2C

    [heap_malloc] is the C library's [malloc]; a buffer is the object behind the
    pointer, [None] the null pointer. *)

Section I2c.
Context `{HeapOps}.

(** [iMode] has no value for other speeds: [garbage] stands for what is read. *)
Definition luat_ch347_i2c_setup (garbage : Z) (id speed : Z) (st : ch347) : res (Z * ch347) :=
  if id =? 0 then
    let iMode :=
      if speed =? 20000 then 0 else if speed =? 100000 then 1
      else if speed =? 400000 then 2 else if speed =? 750000 then 3 else garbage in
    via "CH347I2C_Set" st (CH347I2C_Set (SpiI2cGpioDevIndex st) (u32 iMode))
  else Ok (0, st).

Definition addr_byte (addr bit : Z) : Z := u8 (Z.lor (Z.shiftl addr 1) bit).

Definition luat_ch347_i2c_send (id addr : Z) (buff : option (list Z)) (len : Z) (st : ch347)
    : res (Z * ch347) :=
  if id =? 0 then
    match buff with
    | None => Ok (0, st)
    | Some b =>
        if len =? 0 then Ok (0, st)
        else match heap_malloc (len + 1) with
             | None => Ok (0, st)
             | Some send_buffer =>
                 send_buffer ← store send_buffer 0 [addr_byte addr 0];
                 d ← load b 0 (Z.to_nat len);
                 send_buffer ← store send_buffer 1 d;
                 w ← load send_buffer 0 (Z.to_nat (len + 1));
                 '(RetVal, _, st) ← via "CH347StreamI2C" st (CH347StreamI2C (SpiI2cGpioDevIndex st) w 0);
                 Ok (RetVal, st)
             end
    end
  else Ok (0, st).

Definition luat_ch347_i2c_recv (id addr : Z) (buff : option (list Z)) (len : Z) (st : ch347)
    : res (Z * option (list Z) * ch347) :=
  if id =? 0 then
    match buff with
    | None => Ok (0, buff, st)
    | Some b =>
        if len =? 0 then Ok (0, buff, st)
        else match heap_malloc (len + 1) with
             | None => Ok (0, buff, st)
             | Some recv_buffer =>
                 recv_buffer ← store recv_buffer 0 [addr_byte addr 1];
                 w ← load recv_buffer 0 1;
                 '(RetVal, r, st) ← via "CH347StreamI2C" st (CH347StreamI2C (SpiI2cGpioDevIndex st) w len);
                 recv_buffer ← store recv_buffer 1 r;
                 b ← (if negb (RetVal =? 0)
                      then d ← load recv_buffer 1 (Z.to_nat len); store b 0 d
                      else Ok b);
                 Ok (RetVal, Some b, st)
             end
    end
  else Ok (0, buff, st).

Definition luat_ch347_i2c_transfer (id addr : Z) (reg : option (list Z)) (reg_len : Z)
    (buff : option (list Z)) (len : Z) (st : ch347) : res (Z * option (list Z) * ch347) :=
  if id =? 0 then
    match reg, buff with
    | Some r, Some b =>
        if (reg_len =? 0) || (len =? 0) then Ok (0, buff, st)
        else match heap_malloc (reg_len + len + 2) with
             | None => Ok (0, buff, st)
             | Some t =>
                 t ← store t 0 [addr_byte addr 0];
                 d ← load r 0 (Z.to_nat reg_len);
                 t ← store t 1 d;
                 t ← store t (Z.to_nat (reg_len + 1)) [addr_byte addr 1];
                 d ← load b 0 (Z.to_nat len);
                 t ← store t (Z.to_nat (reg_len + 2)) d;
                 w ← load t 0 (Z.to_nat (reg_len + len + 2));
                 '(RetVal, rd, st) ← via "CH347StreamI2C" st (CH347StreamI2C (SpiI2cGpioDevIndex st) w len);
                 t ← store t (Z.to_nat (reg_len + 1)) rd;
                 b ← (if negb (RetVal =? 0)
                      then d ← load t (Z.to_nat (reg_len + 1)) (Z.to_nat len); store b 0 d
                      else Ok b);
                 Ok (RetVal, Some b, st)
             end
    | _, _ => Ok (0, buff, st)
    end
  else Ok (0, buff, st).

End I2c.

Definition luat_ch347_i2c_no_block_transfer : Z := 1.
Definition luat_ch347_i2c_close (id : Z) : Z := 1.

(** ** SPI *)

Definition spi_mode (CPHA CPOL : Z) : Z :=
  if (CPHA =? 0) && (CPOL =? 0) then 0
  else if (CPHA =? 0) && (CPOL =? 1) then 1
  else if (CPHA =? 1) && (CPOL =? 0) then 2
  else if (CPHA =? 1) && (CPOL =? 1) then 3
  else 3.

Definition luat_ch347_spi_setup (id CPHA CPOL dataw bit_dict banrate cs mode : Z) (st : ch347)
    : res (Z * ch347) :=
  if id =? 0 then
    let st := set_spi_mode (u8 mode) st in
    let cfg := {| iMode := spi_mode CPHA CPOL; iClock := 1;
                  iByteOrder := if bit_dict =? 0 then 0 else 1;
                  iChipSelect := 128; iSpiOutDefaultData := 255 |} in
    let i := SpiI2cGpioDevIndex st in
    '(_, st) ← via "CH347SPI_SetFrequency" st (CH347SPI_SetFrequency i (u32 banrate));
    '(_, st) ← via "CH347SPI_SetDataBits" st (CH347SPI_SetDataBits i (if dataw =? 16 then 1 else 0));
    via "CH347SPI_Init" st (CH347SPI_Init i cfg)
  else Ok (0, st).

(** [SPI_Read] into the buffer behind [recv_buf]; the result is the number of
    bytes read, 0 for a failure. *)
Definition spi_read (recv_buf : list Z) (n : Z) (st : ch347) : res (Z * list Z * ch347) :=
  '(RetVal, r, st) ← via "CH347SPI_Read" st (CH347SPI_Read (SpiI2cGpioDevIndex st) 128 0 n);
  recv_buf ← store recv_buf 0 r;
  Ok (if RetVal =? 0 then 0 else i32 (Z.of_nat (length r)), recv_buf, st).

Definition spi_write (send_buf : list Z) (n step : Z) (st : ch347) : res (Z * ch347) :=
  w ← load send_buf 0 (Z.to_nat n);
  '(RetVal, st) ← via "CH347SPI_Write" st (CH347SPI_Write (SpiI2cGpioDevIndex st) 128 w step);
  Ok (if RetVal =? 0 then 0 else i32 n, st).

Definition luat_ch347_spi_transfer (spi_id : Z) (send_buf : list Z) (send_length : Z)
    (recv_buf : list Z) (recv_length : Z) (st : ch347) : res (Z * list Z * ch347) :=
  if spi_id =? 0 then
    if (0 <? send_length) && (0 <? recv_length) then
      if negb (s_SPIMode st =? 0) then
        d ← load send_buf 0 (Z.to_nat send_length);
        recv_buf ← store recv_buf 0 d;
        io ← load recv_buf 0 (Z.to_nat send_length);
        '(RetVal, r, st) ← via "CH347StreamSPI4" st (CH347StreamSPI4 (SpiI2cGpioDevIndex st) 128 io);
        recv_buf ← store recv_buf 0 r;
        Ok (if RetVal =? 0 then 0 else i32 recv_length, recv_buf, st)
      else
        '(_, st) ← spi_write send_buf send_length 512 st;
        spi_read recv_buf recv_length st
    else if 0 <? send_length then
      '(r, st) ← spi_write send_buf send_length 512 st; Ok (r, recv_buf, st)
    else if 0 <? recv_length then spi_read recv_buf recv_length st
    else Ok (0, recv_buf, st)
  else Ok (0, recv_buf, st).

Definition luat_ch347_spi_recv (spi_id : Z) (recv_buf : list Z) (len : Z) (st : ch347)
    : res (Z * list Z * ch347) :=
  if spi_id =? 0 then spi_read recv_buf len st else Ok (0, recv_buf, st).

Definition luat_ch347_spi_send (spi_id : Z) (send_buf : list Z) (len : Z) (st : ch347)
    : res (Z * ch347) :=
  if spi_id =? 0 then spi_write send_buf len 0 st else Ok (0, st).

Definition luat_ch347_spi_change_speed (spi_id speed : Z) (st : ch347) : res (Z * ch347) :=
  if spi_id =? 0 then
    '(RetVal, st) ← via "CH347SPI_SetFrequency" st (CH347SPI_SetFrequency (SpiI2cGpioDevIndex st) (u32 speed));
    Ok (if RetVal =? 0 then 0 else 1, st)
  else Ok (0, st).

(** ** GPIO *)

Definition good_pin (pin : Z) : bool := (0 <=? pin) && (pin <=? 7).
Definition pin_bit (pin : Z) : Z := Z.shiftl 1 pin.

Definition luat_ch347_gpio_get (pin : Z) (st : ch347) : res (Z * ch347) :=
  '((iDir, iData), st) ← via "CH347GPIO_Get" st (CH347GPIO_Get (SpiI2cGpioDevIndex st));
  let st := set_regs (u16 (Z.lor (s_Gpiostatus st) (Z.lor 32768 (u16 iDir))))
              (u16 (Z.lor (s_Gpiovalues st) (Z.lor 32768 (u16 iData)))) (s_Gpioflag st) st in
  Ok (if good_pin pin then Z.land (Z.shiftr iData pin) 1 else 1, st).

(** The registers are read from the device once. *)
Definition gpio_fetch (st : ch347) : res ch347 :=
  if (Z.land (s_Gpiostatus st) 32768 =? 0) || (Z.land (s_Gpiovalues st) 32768 =? 0)
  then '(_, st) ← luat_ch347_gpio_get (-1) st; Ok st
  else Ok st.

Definition gpio_push (st : ch347) : res ch347 :=
  via_ "CH347GPIO_Set" st
    (CH347GPIO_Set (SpiI2cGpioDevIndex st) (s_Gpioflag st)
       (u8 (Z.land (s_Gpiostatus st) 255)) (u8 (Z.land (s_Gpiovalues st) 255))).

(** The routines for setting up and setting a pin end without a [return] when the
    pin is good; their callers ignore the result. *)
Definition luat_ch347_gpio_setup (pin mode pull irq : Z) (st : ch347) : res ch347 :=
  if good_pin pin then
    st ← gpio_fetch st;
    let flag := u8 (Z.lor (s_Gpioflag st) (pin_bit pin)) in
    let status :=
      if mode =? 0 then u16 (Z.lor (s_Gpiostatus st) (pin_bit pin))
      else u16 (Z.land (s_Gpiostatus st) (Z.lnot (pin_bit pin))) in
    gpio_push (set_regs status (s_Gpiovalues st) flag st)
  else Ok st.

Definition luat_ch347_gpio_set (pin level : Z) (st : ch347) : res ch347 :=
  if good_pin pin then
    st ← gpio_fetch st;
    let values :=
      if negb (level =? 0) then u16 (Z.lor (s_Gpiovalues st) (pin_bit pin))
      else u16 (Z.land (s_Gpiovalues st) (Z.lnot (pin_bit pin))) in
    gpio_push (set_regs (s_Gpiostatus st) values (s_Gpioflag st) st)
  else Ok st.

(** [!(1 << pin)] is 0 for every pin. *)
Definition luat_ch347_gpio_close (pin : Z) (st : ch347) : ch347 :=
  if good_pin pin then
    set_regs (s_Gpiostatus st) (s_Gpiovalues st)
      (u8 (Z.land (s_Gpioflag st) (if pin_bit pin =? 0 then 1 else 0))) st
  else st.

End Ch347.

Arguments ch347 {_}.

(** ** Widths and pointers *)

(** The functions the code calls. *)
Definition ch347_names : list string :=
  ["CH347OpenDevice"; "CH347CloseDevice"; "CH347GetDeviceInfor"; "CH347GetVersion";
   "CH347SetTimeout"; "CH347I2C_Set"; "CH347StreamI2C"; "CH347SPI_Init";
   "CH347SPI_SetFrequency"; "CH347SPI_SetDataBits"; "CH347SPI_Read"; "CH347SPI_Write";
   "CH347StreamSPI4"; "CH347GPIO_Set"; "CH347GPIO_Get"]%string.

Section Typing.
Context `{Ch347Dll}.

(** The module's variables fit their C types. *)
Record ch347_ok (st : ch347) : Prop := {
  co_opened : 0 <= DevIsOpened st < 2 ^ 16;
  co_index : 0 <= SpiI2cGpioDevIndex st < 2 ^ 32;
  co_infor : length (SpiI2cDevInfor st) = INFOR_SLOTS;
  co_status : 0 <= s_Gpiostatus st < 2 ^ 16;
  co_values : 0 <= s_Gpiovalues st < 2 ^ 16;
  co_flag : is_byte (s_Gpioflag st);
  co_mode : is_byte (s_SPIMode st);
}.

(** Every pointer the code calls through is filled. *)
Definition loaded (st : ch347) : Prop := Forall (λ f, pfn st f = true) ch347_names.

Definition usable (st : ch347) : Prop := ch347_ok st ∧ loaded st.

(** What a call on a usable adapter leaves alone. *)
Definition after (st st' : ch347) : Prop :=
  usable st' ∧ DevIsOpened st' = DevIsOpened st.

Lemma after_refl st : usable st → after st st.
Proof. done. Qed.

Lemma after_trans st1 st2 st3 : after st1 st2 → after st2 st3 → after st1 st3.
Proof. unfold after. intros [_ E] [? ?]. split; [done|congruence]. Qed.

Lemma loaded_name name st : usable st → name ∈ ch347_names → pfn st name = true.
Proof. intros [_ Hl] Hin. by eapply Forall_forall in Hl. Qed.

Lemma after_device d st : usable st → after st (set_device d st).
Proof. intros [ [] ?]. split; [|done]. split; [|done]. by split. Qed.

Lemma after_regs s v f st : usable st → 0 <= s < 2 ^ 16 → 0 <= v < 2 ^ 16 → is_byte f →
  after st (set_regs s v f st).
Proof. intros [ [] ?] ? ? ?. split; [|done]. split; [|done]. by split; simpl. Qed.

Lemma via_Ok {A} name st (f : dev → A * dev) : usable st → name ∈ ch347_names →
  via name st f = Ok ((f (device st)).1, set_device (f (device st)).2 st).
Proof.
  intros Hu Hin. unfold via. rewrite (loaded_name name st Hu Hin). by destruct (f (device st)).
Qed.

Lemma via__Ok name st f : usable st → name ∈ ch347_names →
  via_ name st f = Ok (set_device (f (device st)) st).
Proof. intros Hu Hin. unfold via_. by rewrite (via_Ok name st _ Hu Hin). Qed.

End Typing.

(** Membership in the list of names. *)
Ltac named := vm_compute; repeat first [apply list_elem_of_here | apply list_elem_of_further].

(** Run the next call on a usable adapter. *)
Ltac call Hu :=
  first [rewrite (via_Ok _ _ _ Hu) by named | rewrite (via__Ok _ _ _ Hu) by named];
  cbn [mbind res_bind].

Section Calls.
Context `{Ch347Laws}.

(** *** Opening *)

Lemma scan_one_ok i n st : usable st → 0 <= n <= i → i < 16 →
  ∃ n' st', scan_one i n st = Ok (n', st') ∧ after st st' ∧ n <= n' <= i + 1.
Proof.
  intros Hu Hn Hi. unfold scan_one. call Hu. set (s1 := set_device _ st).
  assert (after st s1) as A1 by by apply after_device.
  destruct (CH347OpenDevice i (device st)).1; cbn [mbind res_bind].
  - pose proof (proj1 A1) as U1. call U1. set (s2 := set_device _ s1).
    assert (after st s2) as A2 by (eapply after_trans; [exact A1|by apply after_device]).
    destruct A2 as [ [ [] Hl] Ho].
    rewrite decide_True by (unfold INFOR_SLOTS in *; lia). cbn [mbind res_bind].
    set (s3 := if n =? 0 then _ else _).
    assert (after st s3) as A3.
    { unfold s3. pose proof (wrapu_range 32 i). destruct (n =? 0); (split; [|done]);
        (split; [|done]); split; simpl; rewrite ?length_insert; (done || lia). }
    clearbody s3. pose proof (proj1 A3) as U3. call U3.
    set (s4 := set_device _ s3).
    assert (after st s4) as A4 by (eapply after_trans; [exact A3|by apply after_device]).
    clearbody s4. pose proof (proj1 A4) as U4. call U4.
    do 2 eexists. split; [done|]. split; [|lia].
    eapply after_trans; [exact A4|by apply after_device].
  - pose proof (proj1 A1) as U1. call U1. do 2 eexists. split; [done|]. split; [|lia].
    eapply after_trans; [exact A1|by apply after_device].
Qed.

Lemma scan_ok n : ∀ i c st, usable st → 0 <= c <= i → i + Z.of_nat n = 16 →
  ∃ c' st', scan i n c st = Ok (c', st') ∧ after st st'.
Proof.
  induction n as [|n IH]; intros i c st Hu Hc Hi; cbn [scan].
  { do 2 eexists. split; [done|]. by apply after_refl. }
  destruct (scan_one_ok i c st Hu) as (c1 & s1 & -> & A1 & Hc1); [lia|lia|]. cbn [mbind res_bind].
  destruct (IH (i + 1) c1 s1) as (c2 & s2 & E & A2); [apply A1|lia|lia|].
  do 2 eexists. split; [exact E|]. by eapply after_trans.
Qed.

Lemma open_device_ok st : usable st →
  ∃ o st', Luat_OpenDevice st = Ok (o, st') ∧ usable st'.
Proof.
  intros [Hok Hl]. unfold Luat_OpenDevice.
  assert (∀ o s, usable s → 0 <= o < 2 ^ 16 → usable (set_opened o s)) as Hop.
  { intros o s [ [] ?] ?. split; [|done]. by split. }
  pose proof (Hop 0 st (conj Hok Hl) ltac:(lia)) as U0.
  destruct (_ =? CB_ERR); [by do 2 eexists|]. call U0.
  set (s1 := set_opened _ _).
  assert (usable s1) as U1.
  { apply Hop; [by apply after_device|]. by destruct (CH347OpenDevice _ _).1. }
  clearbody s1. destruct (negb (DevIsOpened s1 =? 0)); cbn [mbind res_bind].
  - call U1. do 2 eexists. split; [done|]. by apply after_device.
  - by do 2 eexists.
Qed.

Lemma load_ch347_ok flag st : ch347_ok st → (DevIsOpened st ≠ 0 → loaded st) →
  Forall (λ f, exports f = true) ch347_names →
  ∃ r st', luat_load_ch347 flag st = Ok (r, st') ∧ ch347_ok st' ∧
    (DevIsOpened st' ≠ 0 → loaded st').
Proof.
  intros Hok Hl He. unfold luat_load_ch347. destruct dll_found; cbn [negb]; [|by do 2 eexists].
  assert (usable (set_pfn exports st)) as U0.
  { split; [|exact He]. destruct Hok. by split. }
  destruct (scan_ok 16 0 0 _ U0) as (n & s1 & E & A1); [lia|lia|].
  unfold luat_ch347Device. rewrite E. cbn [mbind res_bind].
  destruct (n =? 0); [do 2 eexists; split; [done|]; split; [apply A1|intros _; apply A1]|].
  destruct (open_device_ok s1 (proj1 A1)) as (o & s2 & -> & U2). cbn [mbind res_bind].
  do 2 eexists. split; [done|]. split; [apply U2|intros _; apply U2].
Qed.

(** *** I2C *)

Section I2cCalls.
Context `{HeapLaws}.

Lemma i2c_setup_ok g id speed st : usable st →
  ∃ r st', luat_ch347_i2c_setup g id speed st = Ok (r, st') ∧ after st st'.
Proof.
  intros Hu. unfold luat_ch347_i2c_setup. destruct (id =? 0).
  - call Hu. do 2 eexists. split; [done|]. by apply after_device.
  - do 2 eexists. split; [done|]. by apply after_refl.
Qed.

(** Sending writes one frame: the address with the write bit, then the data. *)
Lemma i2c_send_frame addr b m len st : usable st → 0 < len <= Z.of_nat (length b) →
  heap_malloc (len + 1) = Some m →
  luat_ch347_i2c_send 0 addr (Some b) len st =
    let r := CH347StreamI2C (SpiI2cGpioDevIndex st) (addr_byte addr 0 :: take (Z.to_nat len) b) 0 (device st) in
    Ok (r.1.1, set_device r.2 st).
Proof.
  intros Hu Hlen Hm. unfold luat_ch347_i2c_send. cbn [Z.eqb].
  destruct (Z.eqb_spec len 0); [lia|]. rewrite Hm.
  pose proof (heap_malloc_length _ _ Hm) as Hml.
  rewrite <- (app_nil_l m), (store_fill 0 [] m) by (simpl; lia). cbn [mbind res_bind app].
  rewrite load_Ok by lia. cbn [mbind res_bind]. rewrite drop_0.
  pose proof (length_take b (Z.to_nat len)) as Ht.
  change (addr_byte addr 0 :: drop (length [addr_byte addr 0]) m)
    with ([addr_byte addr 0] ++ drop 1 m).
  rewrite (store_fill 1 [addr_byte addr 0]) by (rewrite ?length_drop; cbn [length]; lia).
  cbn [mbind res_bind]. rewrite drop_drop, drop_ge, app_nil_r by lia.
  rewrite load_Ok by (cbn [length app]; lia). cbn [mbind res_bind].
  rewrite drop_0, take_ge by (cbn [length app]; lia).
  call Hu. by destruct (CH347StreamI2C _ _ _ _) as [ [r rd] d].
Qed.

Lemma i2c_send_ok id addr buff len st : usable st →
  0 <= len → (∀ b, buff = Some b → len <= Z.of_nat (length b)) →
  ∃ r st', luat_ch347_i2c_send id addr buff len st = Ok (r, st') ∧ after st st'.
Proof.
  intros Hu Hl Hb. destruct (Z.eqb_spec id 0) as [->|Hid].
  2: { unfold luat_ch347_i2c_send. destruct (Z.eqb_spec id 0); [done|].
       do 2 eexists. split; [done|]. by apply after_refl. }
  destruct buff as [b|]; [|do 2 eexists; split; [done|]; by apply after_refl].
  destruct (Z.eqb_spec len 0) as [->|Hne]; [do 2 eexists; split; [done|]; by apply after_refl|].
  destruct (heap_malloc (len + 1)) as [m|] eqn:Em.
  - rewrite (i2c_send_frame addr b m len st); [|done|specialize (Hb b eq_refl); lia|done].
    do 2 eexists. split; [done|]. by apply after_device.
  - unfold luat_ch347_i2c_send. cbn [Z.eqb]. destruct (Z.eqb_spec len 0); [done|]. rewrite Em.
    do 2 eexists. split; [done|]. by apply after_refl.
Qed.

(** Receiving writes the address with the read bit and hands over what comes. *)
Lemma i2c_recv_frame addr b m len st : usable st → 0 < len <= Z.of_nat (length b) →
  heap_malloc (len + 1) = Some m →
  luat_ch347_i2c_recv 0 addr (Some b) len st =
    let r := CH347StreamI2C (SpiI2cGpioDevIndex st) [addr_byte addr 1] len (device st) in
    Ok (r.1.1, Some (if r.1.1 =? 0 then b else r.1.2 ++ drop (Z.to_nat len) b), set_device r.2 st).
Proof.
  intros Hu Hlen Hm. unfold luat_ch347_i2c_recv. cbn [Z.eqb].
  destruct (Z.eqb_spec len 0); [lia|]. rewrite Hm.
  pose proof (heap_malloc_length _ _ Hm) as Hml.
  rewrite <- (app_nil_l m), (store_fill 0 [] m) by (simpl; lia). cbn [mbind res_bind].
  rewrite app_nil_l, load_Ok by (rewrite length_app, length_drop; cbn [length]; lia).
  cbn [mbind res_bind]. rewrite drop_0.
  rewrite take_app_le, take_ge by (cbn [length]; lia). call Hu.
  pose proof (stream_i2c_len (SpiI2cGpioDevIndex st) [addr_byte addr 1] len (device st)) as Hr.
  destruct (CH347StreamI2C _ _ _ _) as [ [r rd] d]. cbn [fst snd] in *.
  specialize (Hr ltac:(lia)).
  rewrite (store_fill 1 [addr_byte addr 1]) by (rewrite ?length_drop; cbn [length]; lia).
  cbn [mbind res_bind]. rewrite drop_drop, drop_ge, app_nil_r by (cbn [length]; lia).
  destruct (Z.eqb_spec r 0); cbn [negb mbind res_bind]; [done|].
  rewrite load_Ok by (rewrite length_app; cbn [length]; lia). cbn [mbind res_bind].
  replace (drop 1 ([addr_byte addr 1] ++ rd)) with rd by done.
  rewrite take_ge by lia.
  rewrite store_Ok by lia. cbn [mbind res_bind]. rewrite take_0, app_nil_l, Nat.add_0_l.
  by replace (length rd) with (Z.to_nat len) by lia.
Qed.

(** A register access writes the address, the register, the address again with the
    read bit and then the bytes that happen to be in the receive buffer. *)
Lemma i2c_transfer_frame addr reg b m reg_len len st :
  usable st → 0 < reg_len <= Z.of_nat (length reg) → 0 < len <= Z.of_nat (length b) →
  heap_malloc (reg_len + len + 2) = Some m →
  luat_ch347_i2c_transfer 0 addr (Some reg) reg_len (Some b) len st =
    let w := addr_byte addr 0 :: take (Z.to_nat reg_len) reg ++
             addr_byte addr 1 :: take (Z.to_nat len) b in
    let r := CH347StreamI2C (SpiI2cGpioDevIndex st) w len (device st) in
    Ok (r.1.1, Some (if r.1.1 =? 0 then b else r.1.2 ++ drop (Z.to_nat len) b), set_device r.2 st).
Proof.
  intros Hu Hreg Hlen Hm. unfold luat_ch347_i2c_transfer. cbn [Z.eqb].
  destruct (Z.eqb_spec reg_len 0); [lia|]. destruct (Z.eqb_spec len 0); [lia|]. cbn [orb].
  rewrite Hm. pose proof (heap_malloc_length _ _ Hm) as Hml.
  set (R := take (Z.to_nat reg_len) reg). set (B := take (Z.to_nat len) b).
  assert (length R = Z.to_nat reg_len) as HR by (unfold R; rewrite length_take; lia).
  assert (length B = Z.to_nat len) as HB by (unfold B; rewrite length_take; lia).
  rewrite <- (app_nil_l m), (store_fill 0 [] m) by (simpl; lia). cbn [mbind res_bind].
  rewrite app_nil_l, (load_Ok reg) by lia. cbn [mbind res_bind]. rewrite drop_0. fold R.
  rewrite (store_fill 1 [addr_byte addr 0]) by (rewrite ?length_drop; cbn [length]; lia).
  cbn [mbind res_bind]. rewrite drop_drop.
  rewrite (store_fill (Z.to_nat (reg_len + 1))) by (rewrite ?length_app, ?length_drop; cbn [length]; lia).
  cbn [mbind res_bind]. rewrite (load_Ok b) by lia. cbn [mbind res_bind]. rewrite drop_0, drop_drop. fold B.
  rewrite (store_fill (Z.to_nat (reg_len + 2))) by (rewrite ?length_app, ?length_drop; cbn [length]; lia).
  cbn [mbind res_bind]. rewrite drop_drop, drop_ge, app_nil_r by (cbn [length]; lia).
  rewrite load_Ok by (rewrite !length_app; cbn [length]; lia). cbn [mbind res_bind].
  rewrite drop_0, take_ge by (rewrite !length_app; cbn [length]; lia). call Hu.
  rewrite <- !app_assoc. cbn [app].
  set (w := addr_byte addr 0 :: R ++ addr_byte addr 1 :: B).
  pose proof (stream_i2c_len (SpiI2cGpioDevIndex st) w len (device st)) as Hr.
  destruct (CH347StreamI2C _ _ _ _) as [ [r rd] d]. cbn [fst snd] in *. specialize (Hr ltac:(lia)).
  assert (length w = (Z.to_nat reg_len + Z.to_nat len + 2)%nat) as Hw
    by (unfold w; cbn [length]; rewrite length_app; cbn [length]; lia).
  rewrite store_Ok by lia. cbn [mbind res_bind].
  destruct (Z.eqb_spec r 0); cbn [negb mbind res_bind]; [done|].
  rewrite load_Ok by (rewrite !length_app, length_take, length_drop; lia). cbn [mbind res_bind].
  rewrite drop_app_length' by (rewrite length_take; lia). rewrite take_app_length' by lia.
  rewrite store_Ok by lia. cbn [mbind res_bind]. rewrite take_0, app_nil_l, Nat.add_0_l.
  by replace (length rd) with (Z.to_nat len) by lia.
Qed.

Lemma i2c_recv_ok id addr buff len st : usable st →
  0 <= len → (∀ b, buff = Some b → len <= Z.of_nat (length b)) →
  ∃ r b' st', luat_ch347_i2c_recv id addr buff len st = Ok (r, b', st') ∧ after st st'.
Proof.
  intros Hu Hl Hb. destruct (Z.eqb_spec id 0) as [->|Hid].
  2: { unfold luat_ch347_i2c_recv. destruct (Z.eqb_spec id 0); [done|].
       do 3 eexists. split; [done|]. by apply after_refl. }
  destruct buff as [b|]; [|do 3 eexists; split; [done|]; by apply after_refl].
  destruct (Z.eqb_spec len 0) as [->|Hne]; [do 3 eexists; split; [done|]; by apply after_refl|].
  destruct (heap_malloc (len + 1)) as [m|] eqn:Em.
  - rewrite (i2c_recv_frame addr b m len st); [|done|specialize (Hb b eq_refl); lia|done].
    do 3 eexists. split; [done|]. by apply after_device.
  - unfold luat_ch347_i2c_recv. cbn [Z.eqb]. destruct (Z.eqb_spec len 0); [done|]. rewrite Em.
    do 3 eexists. split; [done|]. by apply after_refl.
Qed.

Lemma i2c_transfer_ok id addr reg reg_len buff len st : usable st →
  0 <= len → (∀ b, buff = Some b → len <= Z.of_nat (length b)) →
  0 <= reg_len → (∀ r, reg = Some r → reg_len <= Z.of_nat (length r)) →
  ∃ r b' st', luat_ch347_i2c_transfer id addr reg reg_len buff len st = Ok (r, b', st') ∧ after st st'.
Proof.
  intros Hu Hl Hb Hrl Hr. destruct (Z.eqb_spec id 0) as [->|Hid].
  2: { unfold luat_ch347_i2c_transfer. destruct (Z.eqb_spec id 0); [done|].
       do 3 eexists. split; [done|]. by apply after_refl. }
  destruct reg as [r|]; [|do 3 eexists; split; [done|]; by apply after_refl].
  destruct buff as [b|]; [|do 3 eexists; split; [done|]; by apply after_refl].
  destruct ((reg_len =? 0) || (len =? 0)) eqn:Ez.
  { unfold luat_ch347_i2c_transfer. rewrite Ez. do 3 eexists. split; [done|]. by apply after_refl. }
  apply orb_false_iff in Ez as [Ez1%Z.eqb_neq Ez2%Z.eqb_neq].
  destruct (heap_malloc (reg_len + len + 2)) as [m|] eqn:Em.
  - rewrite (i2c_transfer_frame addr r b m reg_len len st);
      [|done|specialize (Hr r eq_refl); lia|specialize (Hb b eq_refl); lia|done].
    do 3 eexists. split; [done|]. by apply after_device.
  - unfold luat_ch347_i2c_transfer. cbn [Z.eqb]. destruct (Z.eqb_spec reg_len 0); [done|].
    destruct (Z.eqb_spec len 0); [done|]. cbn [orb]. rewrite Em.
    do 3 eexists. split; [done|]. by apply after_refl.
Qed.

End I2cCalls.

(** *** SPI *)

Lemma spi_setup_ok id cpha cpol dataw bit_dict banrate cs mode st : usable st →
  ∃ r st', luat_ch347_spi_setup id cpha cpol dataw bit_dict banrate cs mode st = Ok (r, st') ∧
    after st st'.
Proof.
  intros Hu. unfold luat_ch347_spi_setup. destruct (id =? 0).
  2: { do 2 eexists. split; [done|]. by apply after_refl. }
  set (s0 := set_spi_mode (u8 mode) st).
  assert (after st s0) as A0.
  { split; [|done]. destruct Hu as [ [] ?]. split; [|done]. split; simpl; (done || apply u8_is_byte). }
  pose proof (proj1 A0) as U0. call U0. set (s1 := set_device _ s0).
  assert (after st s1) as A1 by (eapply after_trans; [exact A0|by apply after_device]).
  pose proof (proj1 A1) as U1. call U1. set (s2 := set_device _ s1).
  assert (after st s2) as A2 by (eapply after_trans; [exact A1|by apply after_device]).
  pose proof (proj1 A2) as U2. call U2. do 2 eexists. split; [done|].
  eapply after_trans; [exact A2|by apply after_device].
Qed.

Lemma spi_read_ok b n st : usable st → 0 <= n <= Z.of_nat (length b) →
  ∃ r b' st', spi_read b n st = Ok (r, b', st') ∧ after st st' ∧ length b' = length b.
Proof.
  intros Hu Hn. unfold spi_read. call Hu.
  pose proof (spi_read_len (SpiI2cGpioDevIndex st) 128 0 n (device st)) as Hl.
  pose proof (after_device (CH347SPI_Read (SpiI2cGpioDevIndex st) 128 0 n (device st)).2 st Hu) as A.
  destruct (CH347SPI_Read _ _ _ _ _) as [ [r rd] d]. cbn [fst snd] in *. specialize (Hl ltac:(lia)).
  destruct (store_cases b 0 rd) as [(b' & -> & Hb' & _)|[_ Hx] ]; [|lia].
  by do 3 eexists.
Qed.

Lemma spi_write_ok b n step st : usable st → 0 <= n <= Z.of_nat (length b) →
  ∃ r st', spi_write b n step st = Ok (r, st') ∧ after st st'.
Proof.
  intros Hu Hn. unfold spi_write. rewrite load_Ok by lia. cbn [mbind res_bind]. call Hu.
  do 2 eexists. split; [done|]. by apply after_device.
Qed.

(** A transfer stays in the receive buffer when that is as long as both counts. *)
Lemma spi_transfer_ok id sb slen rb rlen st : usable st →
  0 <= slen <= Z.of_nat (length sb) → 0 <= rlen <= Z.of_nat (length rb) →
  (0 < rlen → slen <= Z.of_nat (length rb)) →
  ∃ r b' st', luat_ch347_spi_transfer id sb slen rb rlen st = Ok (r, b', st') ∧
    after st st' ∧ length b' = length rb.
Proof.
  intros Hu Hs Hr Hsr. unfold luat_ch347_spi_transfer.
  destruct (id =? 0); [|do 3 eexists; split; [done|]; split; [by apply after_refl|done] ].
  destruct (Z.ltb_spec 0 slen), (Z.ltb_spec 0 rlen); cbn [andb].
  - destruct (negb (s_SPIMode st =? 0)).
    + rewrite load_Ok by lia. cbn [mbind res_bind]. rewrite drop_0.
      pose proof (length_take sb (Z.to_nat slen)).
      rewrite store_Ok by lia. cbn [mbind res_bind]. rewrite take_0, app_nil_l.
      rewrite load_Ok by (rewrite length_app; lia). cbn [mbind res_bind]. rewrite drop_0.
      rewrite take_app_length' by lia. call Hu.
      pose proof (stream_spi_len (SpiI2cGpioDevIndex st) 128 (take (Z.to_nat slen) sb) (device st)) as Hl.
      pose proof (after_device (CH347StreamSPI4 (SpiI2cGpioDevIndex st) 128
                    (take (Z.to_nat slen) sb) (device st)).2 st Hu) as A.
      destruct (CH347StreamSPI4 _ _ _ _) as [ [r rd] d]. cbn [fst snd] in *.
      rewrite store_Ok by (rewrite length_app, length_drop; lia). cbn [mbind res_bind].
      do 3 eexists. split; [done|]. split; [done|].
      rewrite !length_app, length_take, !length_drop, length_app, length_drop. lia.
    + destruct (spi_write_ok sb slen 512 st Hu Hs) as (r & s1 & -> & A1). cbn [mbind res_bind].
      destruct (spi_read_ok rb rlen s1 (proj1 A1) Hr) as (r2 & b2 & s2 & -> & A2 & Hb).
      do 3 eexists. split; [done|]. split; [by eapply after_trans|done].
  - destruct (spi_write_ok sb slen 512 st Hu Hs) as (r & s1 & -> & A1). by do 3 eexists.
  - by apply spi_read_ok.
  - do 3 eexists. split; [done|]. split; [by apply after_refl|done].
Qed.

(** *** GPIO, without assumptions on the pins *)

Lemma gpio_get_ok pin st : usable st →
  ∃ r st', luat_ch347_gpio_get pin st = Ok (r, st') ∧ after st st'.
Proof.
  intros Hu. unfold luat_ch347_gpio_get. call Hu.
  pose proof (after_device (CH347GPIO_Get (SpiI2cGpioDevIndex st) (device st)).2 st Hu) as A.
  destruct (CH347GPIO_Get _ _) as [ [dir data] d]. cbn [fst snd] in *.
  do 2 eexists. split; [done|]. eapply after_trans; [exact A|].
  apply after_regs; [apply A|apply (wrapu_range 16); lia..|apply Hu].
Qed.

Lemma gpio_fetch_ok st : usable st → ∃ st', gpio_fetch st = Ok st' ∧ after st st'.
Proof.
  intros Hu. unfold gpio_fetch. destruct (_ || _); [|exists st; split; [done|]; by apply after_refl].
  destruct (gpio_get_ok (-1) st Hu) as (r & s & -> & A). by exists s.
Qed.

Lemma gpio_push_ok s v f st : usable st → 0 <= s < 2 ^ 16 → 0 <= v < 2 ^ 16 → is_byte f →
  ∃ st', gpio_push (set_regs s v f st) = Ok st' ∧ after st st'.
Proof.
  intros Hu Hs Hv Hf. pose proof (after_regs s v f st Hu Hs Hv Hf) as A. unfold gpio_push.
  pose proof (proj1 A) as U. call U. eexists. split; [done|].
  eapply after_trans; [exact A|by apply after_device].
Qed.

Lemma gpio_setup_ok pin mode pull irq st : usable st →
  ∃ st', luat_ch347_gpio_setup pin mode pull irq st = Ok st' ∧ after st st'.
Proof.
  intros Hu. unfold luat_ch347_gpio_setup.
  destruct (good_pin pin); [|exists st; split; [done|]; by apply after_refl].
  destruct (gpio_fetch_ok st Hu) as (s1 & -> & A1). cbn [mbind res_bind].
  pose proof A1 as [ [Hok Hl] _].
  destruct (gpio_push_ok (if mode =? 0 then u16 (Z.lor (s_Gpiostatus s1) (pin_bit pin))
              else u16 (Z.land (s_Gpiostatus s1) (Z.lnot (pin_bit pin))))
              (s_Gpiovalues s1) (u8 (Z.lor (s_Gpioflag s1) (pin_bit pin))) s1) as (s2 & -> & A2);
    [by split|case_match; apply (wrapu_range 16); lia|apply Hok|apply u8_is_byte|].
  exists s2. split; [done|]. by eapply after_trans.
Qed.

Lemma gpio_set_ok pin level st : usable st →
  ∃ st', luat_ch347_gpio_set pin level st = Ok st' ∧ after st st'.
Proof.
  intros Hu. unfold luat_ch347_gpio_set.
  destruct (good_pin pin); [|exists st; split; [done|]; by apply after_refl].
  destruct (gpio_fetch_ok st Hu) as (s1 & -> & A1). cbn [mbind res_bind].
  pose proof A1 as [ [Hok Hl] _].
  destruct (gpio_push_ok (s_Gpiostatus s1)
              (if negb (level =? 0) then u16 (Z.lor (s_Gpiovalues s1) (pin_bit pin))
               else u16 (Z.land (s_Gpiovalues s1) (Z.lnot (pin_bit pin))))
              (s_Gpioflag s1) s1) as (s2 & -> & A2);
    [by split|apply Hok|case_match; apply (wrapu_range 16); lia|apply Hok|].
  exists s2. split; [done|]. by eapply after_trans.
Qed.

(** In full-duplex mode the bytes to send are copied into the receive buffer
    first, whatever its size. *)
Lemma spi_transfer_overflows sb slen rb rlen st :
  s_SPIMode st ≠ 0 → 0 < slen <= Z.of_nat (length sb) → 0 < rlen →
  Z.of_nat (length rb) < slen →
  luat_ch347_spi_transfer 0 sb slen rb rlen st = Fault OutOfBounds.
Proof.
  intros Hm Hs Hr Hlt. unfold luat_ch347_spi_transfer. cbn [Z.eqb].
  destruct (Z.ltb_spec 0 slen); [|lia]. destruct (Z.ltb_spec 0 rlen); [|lia]. cbn [andb].
  destruct (Z.eqb_spec (s_SPIMode st) 0); [done|]. cbn [negb].
  rewrite load_Ok by lia. cbn [mbind res_bind]. rewrite drop_0.
  rewrite store_oob; [done|]. rewrite length_take. lia.
Qed.

(** The two mixed combinations of clock phase and polarity are numbered the wrong
    way round: SPI mode is [2 * CPOL + CPHA]. *)
Lemma spi_mode_swaps cpha cpol : 0 <= cpha <= 1 → 0 <= cpol <= 1 →
  spi_mode cpha cpol = 2 * cpha + cpol.
Proof. intros. by assert (cpha = 0 ∨ cpha = 1) as [-> | ->] by lia; assert (cpol = 0 ∨ cpol = 1) as [-> | ->] by lia. Qed.

End Calls.

(** ** Bits of the registers *)

Lemma testbit_wrapu w z k : 0 <= k < w → Z.testbit (wrapu w z) k = Z.testbit z k.
Proof. intros. unfold wrapu. apply Z.mod_pow2_bits_low. lia. Qed.

Lemma testbit_pin p k : 0 <= p → Z.testbit (pin_bit p) k = (k =? p).
Proof.
  intros Hp. unfold pin_bit. rewrite Z.shiftl_1_l.
  rewrite Z.pow2_bits_eqb by done. apply Z.eqb_sym.
Qed.

Create Rewrite HintDb regs.
#[export] Hint Rewrite Z.lor_spec Z.land_spec : regs.
#[export] Hint Rewrite testbit_wrapu testbit_pin Z.lnot_spec using lia : regs.

Lemma testbit_low_byte z k : 0 <= k < 8 → Z.testbit (u8 (Z.land z 255)) k = Z.testbit z k.
Proof.
  intros Hk. autorewrite with regs. change 255 with (Z.ones 8).
  rewrite Z.testbit_ones by lia.
  destruct (Z.leb_spec 0 k); [|lia]. destruct (Z.ltb_spec k 8); [|lia]. apply andb_true_r.
Qed.

Lemma testbit_32768 k : 0 <= k < 15 → Z.testbit 32768 k = false.
Proof. intros. change 32768 with (2 ^ 15). rewrite Z.pow2_bits_eqb by lia. lia. Qed.

(** ** Pins as the device has them *)

(** Direction and level of the eight pins, in the device. *)
Class Ch347Pins `{Ch347Dll} : Type := {
  gpio_dir : dev → Z;
  gpio_out : dev → Z;
}.

(** The vendor's header: the enabled pins take the given direction, and if that is
    output the given level; reading reports directions, and levels of outputs. *)
Class Ch347PinLaws `{Ch347Pins} : Prop := {
  set_dir : ∀ i e d v dv k, 0 <= k < 8 →
    Z.testbit (gpio_dir (CH347GPIO_Set i e d v dv)) k
    = if Z.testbit e k then Z.testbit d k else Z.testbit (gpio_dir dv) k;
  set_out : ∀ i e d v dv k, 0 <= k < 8 →
    (Z.testbit e k = true → Z.testbit d k = true →
       Z.testbit (gpio_out (CH347GPIO_Set i e d v dv)) k = Z.testbit v k) ∧
    (Z.testbit e k = false →
       Z.testbit (gpio_out (CH347GPIO_Set i e d v dv)) k = Z.testbit (gpio_out dv) k);
  get_keeps : ∀ i dv,
    gpio_dir (CH347GPIO_Get i dv).2 = gpio_dir dv ∧ gpio_out (CH347GPIO_Get i dv).2 = gpio_out dv;
  get_dir : ∀ i dv k, 0 <= k < 8 →
    Z.testbit (CH347GPIO_Get i dv).1.1 k = Z.testbit (gpio_dir dv) k;
  get_level : ∀ i dv k, 0 <= k < 8 → Z.testbit (gpio_dir dv) k = true →
    Z.testbit (CH347GPIO_Get i dv).1.2 k = Z.testbit (gpio_out dv) k;
}.

(** The calls the GPIO layer makes. *)
Inductive gpio_op : Type :=
  | OSetup (pin mode : Z) | OSet (pin level : Z) | OGet (pin : Z) | OClose (pin : Z).

Definition gpio_step `{Ch347Dll} (o : gpio_op) (st : ch347) : res ch347 :=
  match o with
  | OSetup pin mode => luat_ch347_gpio_setup pin mode 0 0 st
  | OSet pin level => luat_ch347_gpio_set pin level st
  | OGet pin => '(_, st) ← luat_ch347_gpio_get pin st; Ok st
  | OClose pin => Ok (luat_ch347_gpio_close pin st)
  end.

Fixpoint gpio_run `{Ch347Dll} (ops : list gpio_op) (st : ch347) : res ch347 :=
  match ops with
  | [] => Ok st
  | o :: ops => st ← gpio_step o st; gpio_run ops st
  end.

(** Closing a pin clears the whole register of pins in use, and that is all it does. *)
Lemma gpio_close_eq `{Ch347Dll} p st :
  luat_ch347_gpio_close p st =
  if good_pin p then set_regs (s_Gpiostatus st) (s_Gpiovalues st) 0 st else st.
Proof.
  unfold luat_ch347_gpio_close. destruct (good_pin p) eqn:Hg; [|done].
  destruct (Z.eqb_spec (pin_bit p) 0) as [E|]; [|by rewrite Z.land_0_r].
  assert (0 <= p) as Hp by (unfold good_pin in Hg; lia).
  pose proof (testbit_pin p p Hp) as Ht. by rewrite E, Z.testbit_0_l, Z.eqb_refl in Ht.
Qed.

Lemma after_close `{Ch347Dll} p st : usable st → after st (luat_ch347_gpio_close p st).
Proof.
  intros Hu. rewrite gpio_close_eq. destruct (good_pin p); [|by apply after_refl].
  apply after_regs; [done|apply Hu..|]. unfold is_byte. lia.
Qed.

Lemma gpio_step_ok `{Ch347Laws} o st : usable st → ∃ st', gpio_step o st = Ok st' ∧ after st st'.
Proof.
  intros Hu. destruct o as [p m|p l|p|p]; cbn [gpio_step].
  - by apply gpio_setup_ok.
  - by apply gpio_set_ok.
  - destruct (gpio_get_ok p st Hu) as (r & s & -> & A). by exists s.
  - eexists. split; [done|by apply after_close].
Qed.

Section Pins.
Context `{Ch347PinLaws, !Ch347Laws}.

Definition flagged (st : ch347) (k : Z) : bool := Z.testbit (s_Gpioflag st) k.
Definition status_bit (st : ch347) (k : Z) : bool := Z.testbit (s_Gpiostatus st) k.
Definition value_bit (st : ch347) (k : Z) : bool := Z.testbit (s_Gpiovalues st) k.
Definition dir_bit (st : ch347) (k : Z) : bool := Z.testbit (gpio_dir (device st)) k.
Definition out_bit (st : ch347) (k : Z) : bool := Z.testbit (gpio_out (device st)) k.

(** The shadow registers tell the truth about pin [k]. *)
Definition agrees (st : ch347) (k : Z) : Prop :=
  dir_bit st k = status_bit st k ∧ (status_bit st k = true → out_bit st k = value_bit st k).

(** They do about every pin in use. *)
Definition mirror (st : ch347) : Prop := ∀ k, 0 <= k < 8 → flagged st k = true → agrees st k.

(** What one operation does to pin [k]. *)
Definition next_status (o : gpio_op) (k : Z) (b : bool) : bool :=
  match o with OSetup p m => if good_pin p && (k =? p) then m =? 0 else b | _ => b end.
Definition next_flag (o : gpio_op) (k : Z) (b : bool) : bool :=
  match o with
  | OSetup p _ => b || (good_pin p && (k =? p))
  | OClose p => b && negb (good_pin p)
  | _ => b
  end.
Definition next_value (o : gpio_op) (k : Z) (b : bool) : bool :=
  match o with OSet p l => if good_pin p && (k =? p) then negb (l =? 0) else b | _ => b end.

(** [st'] is [st] with fetched registers: pins they agreed on look the same. *)
Record fetched (st st' : ch347) : Prop := {
  f_usable : after st st';
  f_dev : ∀ k, dir_bit st' k = dir_bit st k ∧ out_bit st' k = out_bit st k;
  f_flag : s_Gpioflag st' = s_Gpioflag st;
  f_pins : ∀ k, 0 <= k < 8 → agrees st k →
    status_bit st' k = status_bit st k ∧ (status_bit st k = true → value_bit st' k = value_bit st k);
}.

Lemma fetched_refl st : usable st → fetched st st.
Proof. intros Hu. by split. Qed.

Lemma fetched_mirror st st' : mirror st → fetched st st' → mirror st'.
Proof.
  intros Hm [_ Hd Hf Hp] k Hk Hfl. assert (flagged st k = true) as Hfl' by (unfold flagged in *; congruence).
  destruct (Hm k Hk Hfl') as [Hdir Hout]. destruct (Hp k Hk (Hm k Hk Hfl')) as [Es Ev].
  unfold agrees. destruct (Hd k) as [-> ->]. rewrite Es. split; [done|]. intros Hs. rewrite Ev by done. by apply Hout.
Qed.

Lemma gpio_get_spec pin st : usable st → mirror st →
  ∃ r st', luat_ch347_gpio_get pin st = Ok (r, st') ∧ fetched st st' ∧
    (∀ k, pin = k → 0 <= k < 8 → dir_bit st k = true → r = Z.b2z (out_bit st k)).
Proof.
  intros Hu Hm. unfold luat_ch347_gpio_get. call Hu.
  pose proof (gpio_get_bytes (SpiI2cGpioDevIndex st) (device st)) as [Hb1 Hb2].
  pose proof (get_keeps (SpiI2cGpioDevIndex st) (device st)) as [Kd Ko].
  pose proof (get_dir (SpiI2cGpioDevIndex st) (device st)) as Gd.
  pose proof (get_level (SpiI2cGpioDevIndex st) (device st)) as Gl.
  destruct (CH347GPIO_Get (SpiI2cGpioDevIndex st) (device st)) as [ [dir data] d]. cbn [fst snd] in *.
  do 2 eexists. split; [done|]. split; [split|].
  - eapply after_trans; [apply (after_device d st Hu)|]. destruct Hu as [Hok Hl].
    apply after_regs; [by apply after_device|apply (wrapu_range 16); lia..|apply Hok].
  - intros k. unfold dir_bit, out_bit. simpl. by rewrite Kd, Ko.
  - done.
  - intros k Hk [Hdir Hout].
    unfold status_bit, value_bit, dir_bit, out_bit in *. simpl. autorewrite with regs.
    rewrite testbit_32768, !orb_false_l, Gd by lia. rewrite Hdir.
    split; [apply orb_diag|]. intros Hs. rewrite Gl by (lia || congruence).
    rewrite Hout by done. apply orb_diag.
  - intros k -> Hk Hd. unfold good_pin. destruct (Z.leb_spec 0 k); [|lia].
    destruct (Z.leb_spec k 7); [|lia]. cbn [andb]. change 1 with (Z.ones 1).
    rewrite Z.land_ones by lia. change (2 ^ 1) with 2.
    rewrite <- Z.bit0_mod, Z.shiftr_spec, Z.add_0_l, Gl by (done || lia). done.
Qed.

Lemma gpio_fetch_spec st : usable st → mirror st →
  ∃ st', gpio_fetch st = Ok st' ∧ fetched st st'.
Proof.
  intros Hu Hm. unfold gpio_fetch. destruct (_ || _).
  - destruct (gpio_get_spec (-1) st Hu Hm) as (r & st' & -> & Hf & _). by exists st'.
  - exists st. split; [done|]. by apply fetched_refl.
Qed.

(** Writing the registers brings the device in line with them. *)
Lemma gpio_push_spec st : usable st →
  ∃ st', gpio_push st = Ok st' ∧ after st st' ∧ mirror st' ∧
    s_Gpioflag st' = s_Gpioflag st ∧ s_Gpiostatus st' = s_Gpiostatus st ∧
    s_Gpiovalues st' = s_Gpiovalues st ∧
    ∀ k, 0 <= k < 8 → flagged st k = false →
      dir_bit st' k = dir_bit st k ∧ out_bit st' k = out_bit st k.
Proof.
  intros Hu. unfold gpio_push. call Hu. eexists. split; [done|].
  split; [by apply after_device|]. split; [|split; [done|split; [done|split; [done|] ] ] ].
  - intros k Hk Hf. unfold agrees, flagged, dir_bit, out_bit, status_bit, value_bit in *. simpl in *.
    rewrite set_dir, Hf, testbit_low_byte by done. split; [done|]. intros Hs.
    destruct (set_out (SpiI2cGpioDevIndex st) (s_Gpioflag st)
      (u8 (Z.land (s_Gpiostatus st) 255)) (u8 (Z.land (s_Gpiovalues st) 255)) (device st) k Hk) as [E _].
    rewrite E; by rewrite ?testbit_low_byte.
  - intros k Hk Hf. unfold flagged, dir_bit, out_bit in *. simpl. rewrite set_dir, Hf by done.
    split; [done|]. by apply set_out.
Qed.

(** One operation as the specification sees it: the registers of a pin they agree with
    follow it, and a pin not in use is not touched. *)
Record follows (o : gpio_op) (st st' : ch347) : Prop := {
  fo_after : after st st';
  fo_mirror : mirror st';
  fo_flag : ∀ k, 0 <= k < 8 → flagged st' k = next_flag o k (flagged st k);
  fo_status : ∀ k, 0 <= k < 8 → agrees st k →
    status_bit st' k = next_status o k (status_bit st k);
  fo_value : ∀ k, 0 <= k < 8 → agrees st k → status_bit st k = true →
    value_bit st' k = next_value o k (value_bit st k);
  fo_setup : ∀ k m, 0 <= k < 8 → o = OSetup k m → status_bit st' k = (m =? 0);
  fo_untouched : ∀ k, 0 <= k < 8 → flagged st' k = false →
    dir_bit st' k = dir_bit st k ∧ out_bit st' k = out_bit st k;
}.

(** Whether an operation is about a pin of the adapter at all. *)
Definition concerns (o : gpio_op) : bool :=
  match o with OSetup p _ | OSet p _ | OClose p => good_pin p | OGet _ => false end.

Lemma fetched_follows o st st' : mirror st → concerns o = false → fetched st st' → follows o st st'.
Proof.
  intros Hm Hc Hf. pose proof (fetched_mirror st st' Hm Hf) as Hm'. destruct Hf as [Ha Hd Hfl Hp].
  assert (∀ k b, next_flag o k b = b ∧ next_status o k b = b ∧ next_value o k b = b) as Hn.
  { intros k b. destruct o; simpl in *; rewrite ?Hc; simpl; by rewrite ?orb_false_r, ?andb_true_r. }
  split; [done|done| | | | |].
  - intros k Hk. destruct (Hn k (flagged st k)) as (-> & _). unfold flagged. by rewrite Hfl.
  - intros k Hk Hu. destruct (Hn k (status_bit st k)) as (_ & -> & _). by apply Hp.
  - intros k Hk Hu Hs. destruct (Hn k (value_bit st k)) as (_ & _ & ->). by apply Hp.
  - intros k m Hk ->. simpl in Hc. unfold good_pin in Hc. lia.
  - intros k _ _. apply Hd.
Qed.

Lemma good_pin_true p : good_pin p = true → 0 <= p < 8.
Proof. unfold good_pin. lia. Qed.

(** The registers before they are written to the device. *)
Lemma push_follows o st s1 s2 :
  mirror st → fetched st s1 → after s1 s2 → device s2 = device s1 →
  (∀ k, 0 <= k < 8 → flagged s2 k = next_flag o k (flagged s1 k)) →
  (∀ k, 0 <= k < 8 → status_bit s2 k = next_status o k (status_bit s1 k)) →
  (∀ k, 0 <= k < 8 → value_bit s2 k = next_value o k (value_bit s1 k)) →
  (∀ p m, o = OSetup p m → good_pin p = true) →
  ∃ st', gpio_push s2 = Ok st' ∧ follows o st st'.
Proof.
  intros Hm Hf1 A2 Hdev Hfl Hst Hva Hgood. destruct Hf1 as [A1 Hd1 Hf1 Hp1].
  destruct (gpio_push_spec s2 (proj1 A2)) as (s3 & -> & A3 & M3 & Ef & Es & Ev & Hu3).
  exists s3. split; [done|].
  assert (∀ k, flagged s1 k = flagged st k) as Hfs by (intros k; unfold flagged; by rewrite Hf1).
  assert (∀ k, flagged s3 k = flagged s2 k ∧ status_bit s3 k = status_bit s2 k ∧
                value_bit s3 k = value_bit s2 k) as H3
    by (intros k; unfold flagged, status_bit, value_bit; by rewrite Ef, Es, Ev).
  split; [by eapply after_trans; [exact A1|eapply after_trans]|done| | | | |].
  - intros k Hk. destruct (H3 k) as (-> & _). by rewrite Hfl, Hfs.
  - intros k Hk Hu. destruct (H3 k) as (_ & -> & _). rewrite Hst by done. by destruct (Hp1 k Hk Hu) as [-> _].
  - intros k Hk Hu Hs. destruct (H3 k) as (_ & _ & ->). rewrite Hva by done.
    destruct (Hp1 k Hk Hu) as [_ ->]; done.
  - intros k m Hk ->. destruct (H3 k) as (_ & -> & _). rewrite Hst by done. simpl.
    rewrite (Hgood k m eq_refl), Z.eqb_refl. done.
  - intros k Hk Hu. destruct (H3 k) as (E & _). rewrite E in Hu. destruct (Hu3 k Hk Hu) as [-> ->].
    destruct (Hd1 k) as [<- <-]. unfold dir_bit, out_bit. by rewrite Hdev.
Qed.

Lemma gpio_step_follows o st : usable st → mirror st →
  ∃ st', gpio_step o st = Ok st' ∧ follows o st st'.
Proof.
  intros Hu Hm. destruct o as [p m|p l|p|p]; cbn [gpio_step].
  - unfold luat_ch347_gpio_setup. destruct (good_pin p) eqn:Hg.
    2: { exists st. split; [done|]. apply fetched_follows; [done|done|]. by apply fetched_refl. }
    pose proof (good_pin_true p Hg) as Hp.
    destruct (gpio_fetch_spec st Hu Hm) as (s1 & -> & Hf). cbn [mbind res_bind].
    destruct (f_usable _ _ Hf) as [ [Hok1 Hl1] _].
    eapply push_follows; [done|exact Hf| |done| | | |].
    + apply after_regs; [by split| |apply Hok1|apply u8_is_byte].
      by case_match; apply (wrapu_range 16).
    + intros k Hk. unfold flagged. simpl. rewrite Hg. by autorewrite with regs.
    + intros k Hk. unfold status_bit. simpl. rewrite Hg. simpl.
      destruct (m =? 0), (Z.eqb_spec k p) as [->|Hne]; autorewrite with regs;
        rewrite ?Z.eqb_refl, ?orb_true_r, ?andb_false_r; try done;
        apply Z.eqb_neq in Hne; rewrite Hne; by rewrite ?orb_false_r, ?andb_true_r.
    + by intros.
    + by intros p' m' [= <- <-].
  - unfold luat_ch347_gpio_set. destruct (good_pin p) eqn:Hg.
    2: { exists st. split; [done|]. apply fetched_follows; [done|done|]. by apply fetched_refl. }
    pose proof (good_pin_true p Hg) as Hp.
    destruct (gpio_fetch_spec st Hu Hm) as (s1 & -> & Hf). cbn [mbind res_bind].
    destruct (f_usable _ _ Hf) as [ [Hok1 Hl1] _].
    eapply push_follows; [done|exact Hf| |done| | | |].
    + apply after_regs; [by split|apply Hok1| |apply Hok1].
      by case_match; apply (wrapu_range 16).
    + by intros.
    + by intros.
    + intros k Hk. unfold value_bit. simpl. rewrite Hg. simpl.
      destruct (l =? 0), (Z.eqb_spec k p) as [->|Hne]; simpl; autorewrite with regs;
        rewrite ?Z.eqb_refl, ?orb_true_r, ?andb_false_r; try done;
        apply Z.eqb_neq in Hne; rewrite Hne; by rewrite ?orb_false_r, ?andb_true_r.
    + by intros.
  - destruct (gpio_get_spec p st Hu Hm) as (r & st' & -> & Hf & _). cbn [mbind res_bind].
    exists st'. split; [done|]. by apply fetched_follows.
  - eexists. split; [done|]. rewrite gpio_close_eq. destruct (good_pin p) eqn:Hg.
    2: { apply fetched_follows; [done|done|]. by apply fetched_refl. }
    assert (∀ k s v, flagged (set_regs s v 0 st) k = false) as Hno
      by (intros; apply Z.testbit_0_l).
    split; try done.
    + apply after_regs; [done|apply Hu..|]. unfold is_byte. lia.
    + intros k _ Hk. by rewrite Hno in Hk.
    + intros k _. rewrite Hno. simpl. by rewrite Hg, andb_false_r.
Qed.

(** *** Sequences of operations *)

Lemma gpio_run_app ops1 ops2 st :
  gpio_run (ops1 ++ ops2) st = st' ← gpio_run ops1 st; gpio_run ops2 st'.
Proof.
  revert st. induction ops1 as [|o ops1 IH]; intros st; simpl; [done|].
  destruct (gpio_step o st); simpl; [apply IH|done].
Qed.

(** Pin [p] is an output in use. *)
Definition held (p : Z) (st : ch347) : Prop := flagged st p = true ∧ status_bit st p = true.

(** Pin [p] is driven at level [v], and the registers say so, whether it is in use or
    not. *)
Definition driven (p : Z) (v : bool) (st : ch347) : Prop :=
  status_bit st p = true ∧ value_bit st p = v ∧ dir_bit st p = true ∧ out_bit st p = v.

(** [o] leaves pin [p] an output, and its level alone when that is fixed. *)
Definition spares (p : Z) (b : option bool) (o : gpio_op) : Prop :=
  (∀ m, o = OSetup p m → m = 0) ∧ (b ≠ None → ∀ l, o ≠ OSet p l).

(** [o] does not release a pin. *)
Definition no_close (o : gpio_op) : Prop := ∀ q, o ≠ OClose q.

Lemma next_status_spared p b o : spares p b o → next_status o p true = true.
Proof.
  intros [Hm _]. destruct o as [q m|q l|q|q]; simpl; [|done..].
  destruct (good_pin q && (p =? q)) eqn:E; [|done].
  assert (p = q) as <- by lia. by rewrite (Hm m eq_refl).
Qed.

Lemma next_value_spared p v o : spares p (Some v) o → next_value o p v = v.
Proof.
  intros [_ Hl]. destruct o as [q m|q l|q|q]; simpl; [done| |done..].
  destruct (good_pin q && (p =? q)) eqn:E; [|done].
  assert (p = q) as <- by lia. exfalso. by eapply (Hl ltac:(congruence)).
Qed.

Lemma follows_held p o st st' : 0 <= p < 8 → mirror st → follows o st st' →
  spares p None o → no_close o → held p st → held p st'.
Proof.
  intros Hp Hm Hf Hsp Hc (Hfl & Hs). destruct Hf as [_ _ Ff Fs _ _ _]. split.
  - rewrite Ff by done. rewrite Hfl. destruct o; simpl; try done. by destruct (Hc pin).
  - rewrite Fs by auto. rewrite Hs. by eapply next_status_spared.
Qed.

(** Releasing pins does not stop this one from being driven. *)
Lemma follows_driven p v o st st' : 0 <= p < 8 → follows o st st' →
  spares p (Some v) o → driven p v st → driven p v st'.
Proof.
  intros Hp Hf Hsp (Hs & Hv & Hd & Ho).
  assert (agrees st p) as Ha by (split; congruence).
  assert (status_bit st' p = true) as Hs'.
  { rewrite (fo_status _ _ _ Hf) by done. rewrite Hs. by eapply next_status_spared. }
  assert (value_bit st' p = v) as Hv'.
  { rewrite (fo_value _ _ _ Hf) by done. rewrite Hv. by apply next_value_spared. }
  split; [done|]. split; [done|]. destruct (flagged st' p) eqn:Hfl.
  - destruct (fo_mirror _ _ _ Hf p Hp Hfl) as [-> Hout]. rewrite Hout by done. done.
  - by destruct (fo_untouched _ _ _ Hf p Hp Hfl) as [-> ->].
Qed.

(** Every operation returns; what holds of a pin is kept by operations that spare it,
    and a pin that is not in use and not set up stays as it was in the device. *)
Lemma gpio_run_spec ops : ∀ st, usable st → mirror st →
  ∃ st', gpio_run ops st = Ok st' ∧ usable st' ∧ mirror st' ∧
    (∀ p, 0 <= p < 8 → Forall (spares p None) ops → Forall no_close ops → held p st → held p st') ∧
    (∀ p v, 0 <= p < 8 → Forall (spares p (Some v)) ops → driven p v st → driven p v st') ∧
    (∀ q, 0 <= q < 8 → Forall (λ o, ∀ m, o ≠ OSetup q m) ops → flagged st q = false →
       flagged st' q = false ∧ dir_bit st' q = dir_bit st q ∧ out_bit st' q = out_bit st q).
Proof.
  induction ops as [|o ops IH]; intros st Hu Hm; cbn [gpio_run].
  { exists st. split; [done|]. split; [done|]. split; [done|]. by split_and!. }
  destruct (gpio_step_follows o st Hu Hm) as (s1 & -> & Hf). cbn [mbind res_bind].
  destruct (IH s1) as (s2 & -> & U2 & M2 & Hh & Hdr & Hq); [apply Hf|apply Hf|].
  exists s2. split; [done|]. split; [done|]. split; [done|]. split_and!.
  - intros p Hp [Hs ?]%Forall_cons [Hc ?]%Forall_cons Hst. apply Hh; [done..|].
    by apply (follows_held p o st s1).
  - intros p v Hp [Hs ?]%Forall_cons Hst. apply Hdr; [done..|]. by apply (follows_driven p v o st s1).
  - intros q Hq8 [Ho Hn]%Forall_cons Hfl.
    assert (flagged s1 q = false) as Hf1.
    { rewrite (fo_flag _ _ _ Hf) by done. rewrite Hfl. destruct o as [p m|p l|p|p]; simpl; [|done..].
      destruct (good_pin p && (q =? p)) eqn:E; [|done]. assert (q = p) as <- by lia. by destruct (Ho m). }
    destruct (Hq q Hq8 Hn Hf1) as (? & -> & ->). split; [done|]. by apply (fo_untouched _ _ _ Hf).
Qed.

(** A pin set up as an output and then set, no pin being released between the two, is
    driven at its level. *)
Lemma gpio_run_drives p l ops1 ops2 st :
  usable st → mirror st → 0 <= p < 8 →
  Forall (spares p None) ops1 → Forall no_close ops1 →
  Forall (spares p (Some (negb (l =? 0)))) ops2 →
  ∃ st', gpio_run (OSetup p 0 :: ops1 ++ OSet p l :: ops2) st = Ok st' ∧
    usable st' ∧ mirror st' ∧ driven p (negb (l =? 0)) st'.
Proof.
  intros Hu Hm Hp Hops1 Hcl Hops2. assert (good_pin p = true) as Hg by (unfold good_pin; lia).
  destruct (gpio_step_follows (OSetup p 0) st Hu Hm) as (s1 & E1 & F1).
  assert (held p s1) as Hd1.
  { split; [|by rewrite (fo_setup _ _ _ F1 p 0)].
    rewrite (fo_flag _ _ _ F1) by done. simpl. rewrite Hg, Z.eqb_refl. apply orb_true_r. }
  destruct (gpio_run_spec ops1 s1) as (s2 & E2 & U2 & M2 & Hh2 & _); [apply F1|apply F1|].
  specialize (Hh2 p Hp Hops1 Hcl Hd1).
  destruct (gpio_step_follows (OSet p l) s2 U2 M2) as (s3 & E3 & F3).
  assert (driven p (negb (l =? 0)) s3) as Hd3.
  { assert (spares p None (OSet p l)) as Hsp by (split; [done|by intros []]).
    destruct (follows_held p _ _ _ Hp M2 F3 Hsp ltac:(by intros q) Hh2) as [Hf Hs].
    assert (value_bit s3 p = negb (l =? 0)) as Hv.
    { destruct Hh2 as [Hf2 Hs2]. rewrite (fo_value _ _ _ F3) by auto. simpl. by rewrite Hg, Z.eqb_refl. }
    destruct (fo_mirror _ _ _ F3 p Hp Hf) as [Hdir Hout]. specialize (Hout Hs).
    split_and!; congruence. }
  destruct (gpio_run_spec ops2 s3) as (s4 & E4 & U4 & M4 & _ & Hh4 & _); [apply F3|apply F3|].
  exists s4. split; [|split; [done|split; [done|by apply Hh4] ] ].
  cbn [gpio_run]. rewrite E1. cbn [mbind res_bind]. rewrite gpio_run_app, E2.
  cbn [mbind res_bind gpio_run]. by rewrite E3.
Qed.

(** Releasing one pin takes all of them out of use: until pin [k] is set up again
    nothing that is done changes it, in the device, not even setting it. *)
Lemma gpio_close_drops_all r ops st : usable st → mirror st → good_pin r = true →
  ∃ st', gpio_run (OClose r :: ops) st = Ok st' ∧
    ∀ k, 0 <= k < 8 → Forall (λ o, ∀ m, o ≠ OSetup k m) ops →
      dir_bit st' k = dir_bit st k ∧ out_bit st' k = out_bit st k.
Proof.
  intros Hu Hm Hg. destruct (gpio_step_follows (OClose r) st Hu Hm) as (s0 & E0 & F0).
  assert (∀ k, 0 <= k < 8 → flagged s0 k = false) as Hf0.
  { intros k Hk. rewrite (fo_flag _ _ _ F0) by done. simpl. by rewrite Hg, andb_false_r. }
  destruct (gpio_run_spec ops s0) as (st' & E & _ & _ & _ & _ & Hq); [apply F0|apply F0|].
  exists st'. cbn [gpio_run]. rewrite E0. split; [done|]. intros k Hk Hn.
  destruct (Hq k Hk Hn (Hf0 k Hk)) as (_ & -> & ->). by apply (fo_untouched _ _ _ F0), Hf0.
Qed.

(** C32 (refinement).  Driving a pin of the adapter: when pin [p] is set up as an
    output and later set to a level, and no pin is closed between the two, then after any
    further operations, closing pins included, that do not turn it into an input or set it
    again, the device drives it at that level, a read returns it, and pins that were not
    in use and never set up are as they were.  Closing any pin takes all of them out of
    use: after it nothing reaches [p], not even setting it, until it is set up again.
    The shadow registers refine the device's. *)
Theorem ch347_gpio_drives p l ops1 ops2 st :
  usable st → mirror st → 0 <= p < 8 →
  Forall (spares p None) ops1 → Forall no_close ops1 →
  Forall (spares p (Some (negb (l =? 0)))) ops2 →
  ∃ st', gpio_run (OSetup p 0 :: ops1 ++ OSet p l :: ops2) st = Ok st' ∧
    usable st' ∧ mirror st' ∧
    dir_bit st' p = true ∧ out_bit st' p = negb (l =? 0) ∧
    (∃ s, luat_ch347_gpio_get p st' = Ok (if l =? 0 then 0 else 1, s)) ∧
    (∀ q, 0 <= q < 8 → q ≠ p → Forall (λ o, ∀ m, o ≠ OSetup q m) (ops1 ++ ops2) →
      flagged st q = false → dir_bit st' q = dir_bit st q ∧ out_bit st' q = out_bit st q) ∧
    ∀ r ops3, good_pin r = true → Forall (λ o, ∀ m, o ≠ OSetup p m) ops3 →
      ∃ st3, gpio_run (OClose r :: ops3) st' = Ok st3 ∧
        dir_bit st3 p = true ∧ out_bit st3 p = negb (l =? 0).
Proof.
  intros Hu Hm Hp Hops1 Hcl Hops2.
  destruct (gpio_run_drives p l ops1 ops2 st) as (st' & E & U & M & _ & _ & Hdir & Hout); [done..|].
  exists st'. repeat (split; [done|]). split_and!.
  - destruct (gpio_get_spec p st' U M) as (r & s & -> & _ & Hr). exists s.
    rewrite (Hr p eq_refl Hp Hdir), Hout. by destruct (l =? 0).
  - intros q Hq Hne Hn Hfl.
    destruct (gpio_run_spec (OSetup p 0 :: ops1 ++ OSet p l :: ops2) st Hu Hm)
      as (st2 & E2 & _ & _ & _ & _ & Huntouched).
    rewrite E in E2. injection E2 as <-. apply Huntouched; [done| |done].
    apply Forall_app in Hn as [Hn1 Hn2]. constructor; [congruence|].
    apply Forall_app_2; [done|]. by constructor.
  - intros r ops3 Hr Hn. destruct (gpio_close_drops_all r ops3 st' U M Hr) as (st3 & E3 & H3).
    exists st3. split; [done|]. destruct (H3 p Hp Hn) as [-> ->]. done.
Qed.

End Pins.

(** ** A device *)

(** Directions, output latches, levels from outside, and the frames sent. *)
Record demo_dev : Type := DemoDev {
  dd_dir : Z; dd_out : Z; dd_in : Z; dd_sent : list (list Z);
}.

(** Bits of [a] where [m] has a one, of [b] elsewhere; eight bits. *)
Definition mix (m a b : Z) : Z := Z.lor (Z.land a m) (Z.land b (Z.lnot m)).

Definition demo_dll : Ch347Dll := {|
  dev := demo_dev;
  dll_found := true;
  exports f := bool_decide (f ∈ ch347_names);
  CH347OpenDevice i d := (i =? 3, d);
  CH347CloseDevice _ d := d;
  CH347GetDeviceInfor _ _ := [67; 72];
  CH347SetTimeout _ _ _ d := d;
  CH347I2C_Set _ _ d := (1, d);
  CH347StreamI2C _ w n d :=
    (1, replicate (Z.to_nat n) 90, DemoDev (dd_dir d) (dd_out d) (dd_in d) (dd_sent d ++ [w]));
  CH347SPI_SetFrequency _ _ d := (1, d);
  CH347SPI_SetDataBits _ _ d := (1, d);
  CH347SPI_Init _ _ d := (1, d);
  CH347SPI_Write _ _ w _ d := (1, DemoDev (dd_dir d) (dd_out d) (dd_in d) (dd_sent d ++ [w]));
  CH347SPI_Read _ _ _ n d := (1, replicate (Z.to_nat n) 165, d);
  CH347StreamSPI4 _ _ w d := (1, rev w, DemoDev (dd_dir d) (dd_out d) (dd_in d) (dd_sent d ++ [w]));
  CH347GPIO_Set _ e dir v d := DemoDev (mix e dir (dd_dir d)) (mix e v (dd_out d)) (dd_in d) (dd_sent d);
  CH347GPIO_Get _ d := (u8 (dd_dir d), u8 (mix (dd_dir d) (dd_out d) (dd_in d)), d);
|}.

Definition demo_pins : @Ch347Pins demo_dll :=
  @Build_Ch347Pins demo_dll dd_dir dd_out.

Lemma testbit_mix m a b k : 0 <= k →
  Z.testbit (mix m a b) k = if Z.testbit m k then Z.testbit a k else Z.testbit b k.
Proof.
  intros Hk. unfold mix. rewrite Z.lor_spec, !Z.land_spec, Z.lnot_spec by done.
  by destruct (Z.testbit m k), (Z.testbit a k), (Z.testbit b k).
Qed.

Lemma demo_laws : @Ch347Laws demo_dll.
Proof.
  split; simpl.
  - intros. rewrite length_replicate. lia.
  - intros. rewrite length_replicate. lia.
  - intros. apply length_rev.
  - intros. split; apply u8_is_byte.
Qed.

Lemma demo_pin_laws : @Ch347PinLaws demo_dll demo_pins.
Proof.
  split; simpl.
  - intros. apply testbit_mix; lia.
  - intros i e d v dv k Hk. rewrite testbit_mix by lia. split; [by intros ->|by intros ->].
  - done.
  - intros. by rewrite testbit_wrapu by lia.
  - intros i dv k Hk Hd. rewrite testbit_wrapu by lia. rewrite testbit_mix by lia. by rewrite Hd.
Qed.

(** An adapter that was found and opened, its inputs 0 and 1 high. *)
Definition demo_start : demo_dev := DemoDev 0 0 3 [].
Definition demo_open : res (Z * @ch347 demo_dll) := @luat_load_ch347 demo_dll 0 (@ch347_init demo_dll demo_start).
Definition demo_st : @ch347 demo_dll :=
  match demo_open with Ok (_, st) => st | Fault _ => @ch347_init demo_dll demo_start end.

Example demo_opens : match demo_open with Ok (r, st) =>
  r = 1 ∧ DevIsOpened st = 1 ∧ SpiI2cGpioDevIndex st = 3 | Fault _ => False end.
Proof. vm_compute. auto. Qed.

Lemma demo_usable : usable demo_st.
Proof.
  split; [split; vm_compute; split; (discriminate || reflexivity)|].
  repeat constructor.
Qed.

Lemma demo_mirror : @mirror demo_dll demo_pins demo_st.
Proof. intros k _ Hk. change (Z.testbit 0 k = true) in Hk. by rewrite Z.testbit_0_l in Hk. Qed.

Lemma ch347_gpio_drives_witness : ∃ st',
  @gpio_run demo_dll [OSetup 2 0; OGet 1; OSet 2 1; OSetup 1 1; OSet 1 0; OClose 1; OGet 0] demo_st = Ok st' ∧
  @out_bit demo_dll demo_pins st' 2 = true.
Proof.
  destruct (@ch347_gpio_drives demo_dll demo_pins demo_pin_laws demo_laws 2 1 [OGet 1]
    [OSetup 1 1; OSet 1 0; OClose 1; OGet 0] demo_st) as (st' & E & _ & _ & _ & Ho & _).
  - exact demo_usable.
  - exact demo_mirror.
  - lia.
  - repeat constructor; intros; discriminate || congruence.
  - repeat constructor; by intros q.
  - repeat constructor; intros; discriminate || congruence.
  - exists st'. split; [exact E|exact Ho].
Defined.

(** The same adapter when all levels outside have gone low. *)
Definition inputs_low (st : @ch347 demo_dll) : @ch347 demo_dll :=
  let d : demo_dev := @device demo_dll st in
  @set_device demo_dll (DemoDev (dd_dir d) (dd_out d) 0 (dd_sent d)) st.

(** Levels read once stay in the shadow register: an input that was high when it
    was read drives a one as soon as it becomes an output, although it is low by
    then and was never set. *)
Lemma stale_input_drives :
  ∃ st1 st2, @gpio_run demo_dll [OSetup 1 1; OGet 1] demo_st = Ok st1 ∧
    @gpio_run demo_dll [OGet 1; OSetup 1 0]
      (inputs_low st1) = Ok st2 ∧
    @out_bit demo_dll demo_pins st2 1 = true.
Proof. do 2 eexists. split; [vm_compute; reflexivity|]. split; vm_compute; reflexivity. Qed.
