(* ===== verification/Buses.v ===== *)
(** * Serial buses: port/driver/luat_spi_pc.c, luat_spi_device.c, luat_i2c_pc.c,
      luat_i2s_pc.c

    Three simulated SPI buses, one I2C bus and one I2S device.  On Windows the
    buses are carried by the CH347 adapter ([Ch347]) when one is found; everywhere
    else sending is dropped and receiving gives zeroes.  An SPI device is a bus
    with a chip-select pin, which goes through [Gpio]. *)

From S2P Require Import Prelude Gpio Ch347.

(** ** SPI buses *)

Definition LUAT_WIN32_SPI_COUNT : Z := 3.

(** [luat_spi_t], the fields used. *)
Record luat_spi : Type := Spi {
  sp_id : Z; sp_CPHA : Z; sp_CPOL : Z; sp_dataw : Z; sp_bit_dict : Z;
  sp_bandrate : Z; sp_cs : Z; sp_mode : Z;
}.

Definition no_spi : luat_spi := Spi 0 0 0 0 0 0 0 0.

Record win32spi : Type := Win32Spi { w_spi : luat_spi; w_open : Z }.

#[global] Instance win32spi_inhabited : Inhabited win32spi := populate (Win32Spi no_spi 0).

(** [luat_spi_device_t] *)
Record luat_spi_device : Type := SpiDevice { sd_bus_id : Z; sd_spi_config : luat_spi }.

Section Buses.
Context `{Platform, HeapOps, Ch347Dll}.

Record buses : Type := Buses { win32spis : list win32spi; adapter : ch347 }.

Definition buses_init (d : dev) : buses := Buses (replicate 3 inhabitant) (ch347_init d).

Definition set_adapter (a : ch347) (st : buses) : buses := Buses (win32spis st) a.
Definition set_spis (l : list win32spi) (st : buses) : buses := Buses l (adapter st).

(** Run a routine of the adapter. *)
Definition on_adapter {A} (f : ch347 → res (A * ch347)) (st : buses) : res (A * buses) :=
  '(a, s) ← f (adapter st); Ok (a, set_adapter s st).

Definition adapter_open (st : buses) : bool := windows && negb (DevIsOpened (adapter st) =? 0).

(** [if (!g_ch3470_DevIsOpened) luat_load_ch347(0);] *)
Definition find_adapter (st : buses) : res buses :=
  if windows && (DevIsOpened (adapter st) =? 0)
  then '(_, st) ← on_adapter (luat_load_ch347 0) st; Ok st
  else Ok st.

Definition bad_bus (id : Z) : bool := (id <? 0) || (LUAT_WIN32_SPI_COUNT <=? id).

Definition spi_at (id : Z) (st : buses) : win32spi := win32spis st !!! Z.to_nat id.
Definition put_spi (id : Z) (w : win32spi) (st : buses) : buses :=
  set_spis (<[Z.to_nat id := w]> (win32spis st)) st.

Definition luat_spi_device_config (d : luat_spi_device) : Z := 0.

Definition luat_spi_setup (spi : luat_spi) (st : buses) : res (Z * buses) :=
  if bad_bus (sp_id spi) then Ok (-1, st)
  else
    st ← find_adapter st;
    '(refused, st) ←
      (if adapter_open st then
         '(r, st) ← on_adapter (luat_ch347_spi_setup (sp_id spi) (sp_CPHA spi) (sp_CPOL spi)
                     (sp_dataw spi) (sp_bit_dict spi) (sp_bandrate spi) (sp_cs spi) (sp_mode spi)) st;
         Ok (r =? 0, st)
       else Ok (false, st));
    if (refused : bool) then Ok (0, st)
    else Ok (0, put_spi (sp_id spi) (Win32Spi spi 1) st).

Definition luat_spi_bus_setup (d : luat_spi_device) (st : buses) : res (Z * buses) :=
  let bus_id := sd_bus_id d in
  if bad_bus bus_id then Ok (-1, st)
  else
    let st := put_spi bus_id (Win32Spi (sd_spi_config d) 1) st in
    '(_, st) ← luat_spi_setup (sd_spi_config d) st;
    Ok (0, st).

Definition luat_spi_close (spi_id : Z) (st : buses) : Z * buses :=
  if bad_bus spi_id then (-1, st)
  else (0, put_spi spi_id (Win32Spi (w_spi (spi_at spi_id st)) 0) st).

Definition luat_spi_transfer (spi_id : Z) (send_buf : list Z) (send_length : Z)
    (recv_buf : list Z) (recv_length : Z) (st : buses) : res (Z * list Z * buses) :=
  if bad_bus spi_id then Ok (-1, recv_buf, st)
  else if w_open (spi_at spi_id st) =? 0 then Ok (-1, recv_buf, st)
  else if adapter_open st then
    '(r, b, s) ← luat_ch347_spi_transfer spi_id send_buf send_length recv_buf recv_length (adapter st);
    Ok (r, b, set_adapter s st)
  else
    b ← store recv_buf 0 (replicate (Z.to_nat recv_length) 0);
    Ok (i32 recv_length, b, st).

(** The test for a closed bus has lost its [return]: the [memset] is its body. *)
Definition luat_spi_recv (spi_id : Z) (recv_buf : list Z) (len : Z) (st : buses)
    : res (Z * list Z * buses) :=
  if bad_bus spi_id then Ok (-1, recv_buf, st)
  else
    b ← (if w_open (spi_at spi_id st) =? 0
         then store recv_buf 0 (replicate (Z.to_nat len) 0) else Ok recv_buf);
    if adapter_open st then
      '(r, b, s) ← luat_ch347_spi_recv spi_id b len (adapter st);
      Ok (r, b, set_adapter s st)
    else Ok (i32 len, b, st).

Definition luat_spi_send (spi_id : Z) (send_buf : list Z) (len : Z) (st : buses) : res (Z * buses) :=
  if bad_bus spi_id then Ok (-1, st)
  else if w_open (spi_at spi_id st) =? 0 then Ok (-1, st)
  else if adapter_open st then
    '(r, _, s) ← luat_ch347_spi_transfer spi_id send_buf len [] 0 (adapter st);
    Ok (r, set_adapter s st)
  else Ok (i32 len, st).

Definition luat_spi_change_speed (spi_id speed : Z) : Z := 0.
Definition luat_spi_lock (spi_id : Z) : Z := -1.
Definition luat_spi_unlock (spi_id : Z) : Z := -1.

(** ** I2C *)

Definition luat_i2c_exist (id : Z) : Z := if id =? 0 then 1 else 0.

Definition luat_i2c_setup (garbage id speed : Z) (st : buses) : res (Z * buses) :=
  if windows then
    st ← find_adapter st;
    st ← (if adapter_open st
          then '(_, st) ← on_adapter (luat_ch347_i2c_setup garbage id speed) st; Ok st
          else Ok st);
    Ok (0, st)
  else Ok (-1, st).

Definition luat_i2c_close (id : Z) : Z := 0.

(** The transfers ask for the flag to be exactly one. *)
Definition adapter_is_one (st : buses) : bool := windows && (DevIsOpened (adapter st) =? 1).

Definition luat_i2c_send (id addr : Z) (buff : option (list Z)) (len stop : Z) (st : buses)
    : res (Z * buses) :=
  st ← (if adapter_is_one st
        then '(_, st) ← on_adapter (luat_ch347_i2c_send id addr buff len) st; Ok st
        else Ok st);
  Ok (0, st).

Definition luat_i2c_recv (id addr : Z) (buff : option (list Z)) (len : Z) (st : buses)
    : res (Z * option (list Z) * buses) :=
  if adapter_is_one st then
    '(_, b, s) ← luat_ch347_i2c_recv id addr buff len (adapter st); Ok (0, b, set_adapter s st)
  else Ok (0, buff, st).

Definition luat_i2c_transfer (id addr : Z) (reg : option (list Z)) (reg_len : Z)
    (buff : option (list Z)) (len : Z) (st : buses) : res (Z * option (list Z) * buses) :=
  if adapter_is_one st then
    '(_, b, s) ← luat_ch347_i2c_transfer id addr reg reg_len buff len (adapter st);
    Ok (0, b, set_adapter s st)
  else Ok (0, buff, st).

Definition luat_i2c_no_block_transfer : Z := 0.

(** ** SPI devices: the transfer between two writes of the chip select *)

Section Devices.
Context (gpio_drvs : Z → option luat_gpio_drv_opts) (print_d : Z → list Z).
(** [luat_gpio_mode] of the core, on pin, mode, pull and level. *)
Context (luat_gpio_mode : Z → gpio_mode → Z → Z → gpio_state → res gpio_state).
Context (Luat_GPIO_DEFAULT Luat_GPIO_HIGH : Z).

Definition cs_set (d : luat_spi_device) (level : Z) (g : gpio_state) : res gpio_state :=
  '(_, g) ← luat_gpio_set gpio_drvs print_d (sp_cs (sd_spi_config d)) level g; Ok g.

Definition luat_spi_device_setup (d : luat_spi_device) (st : buses) (g : gpio_state)
    : res (Z * buses * gpio_state) :=
  '(_, st) ← luat_spi_bus_setup d st;
  g ← luat_gpio_mode (sp_cs (sd_spi_config d)) LUAT_GPIO_OUTPUT Luat_GPIO_DEFAULT Luat_GPIO_HIGH g;
  Ok (0, st, g).

Definition luat_spi_device_close (d : luat_spi_device) (st : buses) : Z * buses :=
  luat_spi_close (sd_bus_id d) st.

(** The frame all three share: [body] runs while the device is selected. *)
Definition selected {A} (d : luat_spi_device) (body : buses → res (A * buses))
    (st : buses) (g : gpio_state) : res (A * buses * gpio_state) :=
  let _ := luat_spi_device_config d in
  g ← cs_set d 0 g;
  '(a, st) ← body st;
  g ← cs_set d 1 g;
  Ok (a, st, g).

Definition luat_spi_device_transfer (d : luat_spi_device) (send_buf : list Z) (send_length : Z)
    (recv_buf : list Z) (recv_length : Z) : buses → gpio_state → res (Z * list Z * buses * gpio_state) :=
  selected d (luat_spi_transfer (sd_bus_id d) send_buf send_length recv_buf recv_length).

Definition luat_spi_device_recv (d : luat_spi_device) (recv_buf : list Z) (len : Z)
    : buses → gpio_state → res (Z * list Z * buses * gpio_state) :=
  selected d (luat_spi_recv (sd_bus_id d) recv_buf len).

Definition luat_spi_device_send (d : luat_spi_device) (send_buf : list Z) (len : Z)
    : buses → gpio_state → res (Z * buses * gpio_state) :=
  selected d (luat_spi_send (sd_bus_id d) send_buf len).

End Devices.
End Buses.

(** ** I2S: one device that only keeps its configuration *)

Definition I2S_MAX_DEVICE : Z := 1.
Inductive i2s_run_state : Type := LUAT_I2S_STATE_STOP | LUAT_I2S_STATE_RUNING.

Record luat_i2s_conf : Type := I2s {
  i2_id : Z; i2_mode : Z; i2_sample_rate : Z; i2_data_bits : Z; i2_channel_format : Z;
  i2_standard : Z; i2_state : i2s_run_state; i2_userdata : Z;
}.

Definition i2s_state : Type := list luat_i2s_conf.
Definition no_i2s : luat_i2s_conf := I2s 0 0 0 0 0 0 LUAT_I2S_STATE_STOP 0.
#[global] Instance luat_i2s_conf_inhabited : Inhabited luat_i2s_conf := populate no_i2s.
Definition i2s_init : i2s_state := [no_i2s].

(** Identifiers are unsigned. *)
Definition bad_i2s (id : Z) : bool := I2S_MAX_DEVICE <=? id.
Definition i2s_at (id : Z) (st : i2s_state) : luat_i2s_conf := st !!! Z.to_nat id.

Definition luat_i2s_setup (conf : option luat_i2s_conf) (st : i2s_state) : Z * i2s_state :=
  match conf with
  | None => (-1, st)
  | Some c =>
      if bad_i2s (i2_id c) then (-1, st)
      else (0, <[Z.to_nat (i2_id c) :=
                  I2s (i2_id c) (i2_mode c) (i2_sample_rate c) (i2_data_bits c) (i2_channel_format c)
                    (i2_standard c) LUAT_I2S_STATE_RUNING (i2_userdata c)]> st)
  end.

Definition luat_i2s_modify (id channel_format data_bits sample_rate : Z) (st : i2s_state)
    : Z * i2s_state :=
  if bad_i2s id then (-1, st)
  else
    let c := i2s_at id st in
    (0, <[Z.to_nat id := I2s (i2_id c) (i2_mode c) sample_rate data_bits channel_format
           (i2_standard c) (i2_state c) (i2_userdata c)]> st).

Definition i2s_bad_buffer (id : Z) (buff : option (list Z)) (len : Z) : bool :=
  bad_i2s id || (match buff with None => true | Some _ => false end) || (len =? 0).

Definition luat_i2s_send (id : Z) (buff : option (list Z)) (len : Z) : Z :=
  if i2s_bad_buffer id buff len then -1 else i32 len.
Definition luat_i2s_recv (id : Z) (buff : option (list Z)) (len : Z) : Z :=
  if i2s_bad_buffer id buff len then -1 else 0.
Definition luat_i2s_transfer : Z := -1.
Definition luat_i2s_transfer_loop : Z := -1.
Definition luat_i2s_pause (id : Z) : Z := if bad_i2s id then -1 else 0.
Definition luat_i2s_resume (id : Z) : Z := if bad_i2s id then -1 else 0.

Definition luat_i2s_close (id : Z) (st : i2s_state) : Z * i2s_state :=
  if bad_i2s id then (-1, st)
  else
    let c := i2s_at id st in
    (0, <[Z.to_nat id := I2s (i2_id c) (i2_mode c) (i2_sample_rate c) (i2_data_bits c)
           (i2_channel_format c) (i2_standard c) LUAT_I2S_STATE_STOP (i2_userdata c)]> st).

Definition luat_i2s_get_config (id : Z) (st : i2s_state) : option luat_i2s_conf :=
  if bad_i2s id then None else Some (i2s_at id st).

Definition luat_i2s_save_old_config (id : Z) : Z := 0.
Definition luat_i2s_load_old_config (id : Z) : Z := 0.

(** The result and, for non-null pointers, size and room. *)
Definition luat_i2s_txbuff_info (id : Z) (ptrs : bool) : Z * option (Z * Z) :=
  if bad_i2s id || negb ptrs then (-1, None) else (0, Some (4096, 4096)).
Definition luat_i2s_rxbuff_info (id : Z) (ptrs : bool) : Z * option (Z * Z) :=
  if bad_i2s id || negb ptrs then (-1, None) else (0, Some (4096, 0)).

Definition luat_i2s_set_user_data (id user_data : Z) (st : i2s_state) : Z * i2s_state :=
  if bad_i2s id then (-1, st)
  else
    let c := i2s_at id st in
    (0, <[Z.to_nat id := I2s (i2_id c) (i2_mode c) (i2_sample_rate c) (i2_data_bits c)
           (i2_channel_format c) (i2_standard c) (i2_state c) user_data]> st).

(** The latest configuration is the one read back, running until it is closed. *)
Lemma i2s_setup_get_close c st : length st = 1%nat → i2_id c = 0 →
  ∃ st1 st2, luat_i2s_setup (Some c) st = (0, st1) ∧ luat_i2s_close 0 st1 = (0, st2) ∧
    luat_i2s_get_config 0 st1 = Some (I2s 0 (i2_mode c) (i2_sample_rate c) (i2_data_bits c)
      (i2_channel_format c) (i2_standard c) LUAT_I2S_STATE_RUNING (i2_userdata c)) ∧
    luat_i2s_get_config 0 st2 = Some (I2s 0 (i2_mode c) (i2_sample_rate c) (i2_data_bits c)
      (i2_channel_format c) (i2_standard c) LUAT_I2S_STATE_STOP (i2_userdata c)).
Proof.
  intros Hl Hid. destruct st as [|c0 [|] ]; [done| |done]. unfold luat_i2s_setup. rewrite Hid.
  do 2 eexists. by repeat split.
Qed.

(** ** Types of the state, over any sequence of calls *)

(** The calls on the buses, and the adapter's part of the GPIO layer. *)
Inductive bus_op : Type :=
  | BSpiSetup (spi : luat_spi)
  | BBusSetup (d : luat_spi_device)
  | BSpiClose (id : Z)
  | BSpiTransfer (id : Z) (sb : list Z) (slen : Z) (rb : list Z) (rlen : Z)
  | BSpiRecv (id : Z) (rb : list Z) (len : Z)
  | BSpiSend (id : Z) (sb : list Z) (len : Z)
  | BI2cSetup (garbage id speed : Z)
  | BI2cSend (id addr : Z) (buff : option (list Z)) (len : Z)
  | BI2cRecv (id addr : Z) (buff : option (list Z)) (len : Z)
  | BI2cTransfer (id addr : Z) (reg : option (list Z)) (reg_len : Z) (buff : option (list Z)) (len : Z)
  | BGpio (o : gpio_op).

(** A buffer of at least [len] bytes, or none. *)
Definition holds (buff : option (list Z)) (len : Z) : Prop :=
  0 <= len ∧ ∀ b, buff = Some b → len <= Z.of_nat (length b).

(** The caller's duty: buffers as long as their counts, and in a transfer both
    ways a receive buffer for as many bytes as are sent. *)
Definition op_ok (o : bus_op) : Prop :=
  match o with
  | BSpiTransfer _ sb slen rb rlen =>
      holds (Some sb) slen ∧ holds (Some rb) rlen ∧ (0 < rlen → slen <= Z.of_nat (length rb))
  | BSpiRecv _ b len | BSpiSend _ b len => holds (Some b) len
  | BI2cSend _ _ b len | BI2cRecv _ _ b len => holds b len
  | BI2cTransfer _ _ r rlen b len => holds r rlen ∧ holds b len
  | _ => True
  end.

Section Typed.
Context `{Platform, HeapLaws, Ch347Laws}.

Definition bus_step (o : bus_op) (st : buses) : res buses :=
  match o with
  | BSpiSetup spi => snd <$> luat_spi_setup spi st
  | BBusSetup d => snd <$> luat_spi_bus_setup d st
  | BSpiClose id => Ok (luat_spi_close id st).2
  | BSpiTransfer id sb slen rb rlen => snd <$> luat_spi_transfer id sb slen rb rlen st
  | BSpiRecv id rb len => snd <$> luat_spi_recv id rb len st
  | BSpiSend id sb len => snd <$> luat_spi_send id sb len st
  | BI2cSetup g id speed => snd <$> luat_i2c_setup g id speed st
  | BI2cSend id addr b len => snd <$> luat_i2c_send id addr b len 0 st
  | BI2cRecv id addr b len => snd <$> luat_i2c_recv id addr b len st
  | BI2cTransfer id addr r rlen b len => snd <$> luat_i2c_transfer id addr r rlen b len st
  | BGpio o =>
      st ← (match o with OSetup _ _ => find_adapter st | _ => Ok st end);
      if adapter_open st then s ← gpio_step o (adapter st); Ok (set_adapter s st) else Ok st
  end.

Fixpoint bus_run (ops : list bus_op) (st : buses) : res buses :=
  match ops with
  | [] => Ok st
  | o :: ops => st ← bus_step o st; bus_run ops st
  end.

Record buses_ok (st : buses) : Prop := {
  bo_count : length (win32spis st) = 3%nat;
  bo_open : Forall (λ w, w_open w = 0 ∨ w_open w = 1) (win32spis st);
  bo_adapter : ch347_ok (adapter st);
  bo_loaded : DevIsOpened (adapter st) ≠ 0 → loaded (adapter st);
}.

Lemma buses_ok_init d : buses_ok (buses_init d).
Proof.
  split; [done| | |done].
  - repeat constructor.
  - split; simpl; unfold is_byte; (done || lia).
Qed.

Lemma open_usable st : buses_ok st → adapter_open st = true → usable (adapter st).
Proof.
  intros Hok Ho. unfold adapter_open in Ho. apply andb_true_iff in Ho as [_ Ho].
  destruct (Z.eqb_spec (DevIsOpened (adapter st)) 0); [done|]. split; [apply Hok|by apply Hok].
Qed.

Lemma is_one_usable st : buses_ok st → adapter_is_one st = true → usable (adapter st).
Proof.
  intros Hok Ho. apply open_usable; [done|]. unfold adapter_is_one, adapter_open in *.
  apply andb_true_iff in Ho as [-> Ho]. apply Z.eqb_eq in Ho. by rewrite Ho.
Qed.

Lemma adapter_ok st s : buses_ok st → after (adapter st) s → buses_ok (set_adapter s st).
Proof. intros [? ? ? ?] [ [? ?] ?]. by split. Qed.

Lemma put_spi_ok id w st : buses_ok st → w_open w = 0 ∨ w_open w = 1 → buses_ok (put_spi id w st).
Proof.
  intros [? ? ? ?] Hw. split; simpl; [by rewrite length_insert|by apply Forall_insert|done|done].
Qed.

Context (Hexports : Forall (λ f, exports f = true) ch347_names).

Lemma find_adapter_ok st : buses_ok st → ∃ st', find_adapter st = Ok st' ∧ buses_ok st'.
Proof using All.
  intros Hok. unfold find_adapter. destruct (windows && _); [|by exists st].
  unfold on_adapter.
  destruct (load_ch347_ok 0 (adapter st)) as (r & s & -> & Hs & Hl); [apply Hok|apply Hok|done|].
  cbn [mbind res_bind]. exists (set_adapter s st). split; [done|]. destruct Hok. by split.
Qed.

Lemma spi_bus_setup_ok spi st : buses_ok st → ∃ r st', luat_spi_setup spi st = Ok (r, st') ∧ buses_ok st'.
Proof using All.
  intros Hok. unfold luat_spi_setup. destruct (bad_bus _); [by do 2 eexists|].
  destruct (find_adapter_ok st Hok) as (s1 & -> & Hok1). cbn [mbind res_bind].
  destruct (adapter_open s1) eqn:Eo; cbn [mbind res_bind].
  2: { do 2 eexists. split; [done|]. apply put_spi_ok; [done|by right]. }
  unfold on_adapter.
  destruct (spi_setup_ok (sp_id spi) (sp_CPHA spi) (sp_CPOL spi) (sp_dataw spi) (sp_bit_dict spi)
    (sp_bandrate spi) (sp_cs spi) (sp_mode spi) (adapter s1) (open_usable s1 Hok1 Eo)) as (r & s2 & -> & A).
  cbn [mbind res_bind]. pose proof (adapter_ok s1 s2 Hok1 A).
  destruct (r =? 0); do 2 eexists; (split; [done|]); [done|]. apply put_spi_ok; [done|by right].
Qed.

Lemma spi_transfer_keeps id sb slen rb rlen st : buses_ok st →
  op_ok (BSpiTransfer id sb slen rb rlen) →
  ∃ r st', luat_spi_transfer id sb slen rb rlen st = Ok (r, st') ∧ buses_ok st'.
Proof.
  intros Hok ([Hs1 Hs2] & [Hr1 Hr2] & Hsr). specialize (Hs2 sb eq_refl). specialize (Hr2 rb eq_refl).
  unfold luat_spi_transfer. destruct (bad_bus id); [by eexists (_, _), st|].
  destruct (w_open _ =? 0); [by eexists (_, _), st|]. destruct (adapter_open st) eqn:Eo.
  - destruct (spi_transfer_ok id sb slen rb rlen (adapter st) (open_usable st Hok Eo))
      as (r & b & s & -> & A & _); [lia|lia|done|]. eexists (_, _), _. split; [done|]. by apply adapter_ok.
  - rewrite store_Ok by (rewrite length_replicate; lia). by eexists (_, _), _.
Qed.

Lemma spi_recv_keeps id rb len st : buses_ok st → op_ok (BSpiRecv id rb len) →
  ∃ r st', luat_spi_recv id rb len st = Ok (r, st') ∧ buses_ok st'.
Proof.
  intros Hok [Hl1 Hl2]. specialize (Hl2 rb eq_refl).
  unfold luat_spi_recv. destruct (bad_bus id); [by eexists (_, _), st|].
  set (m := if w_open _ =? 0 then _ else _).
  assert (∃ b, m = Ok b ∧ length b = length rb) as (b & -> & Hb).
  { unfold m. destruct (_ =? 0); [|by eexists].
    rewrite store_Ok by (rewrite length_replicate; lia). eexists. split; [done|].
    rewrite !length_app, length_take, length_drop, length_replicate. lia. }
  cbn [mbind res_bind]. destruct (adapter_open st) eqn:Eo; [|by eexists (_, _), _].
  unfold luat_ch347_spi_recv. destruct (id =? 0); cbn [mbind res_bind].
  - destruct (spi_read_ok b len (adapter st) (open_usable st Hok Eo)) as (r & b' & s & -> & A & _); [lia|].
    eexists (_, _), _. split; [done|]. by apply adapter_ok.
  - eexists (_, _), _. split; [done|]. apply adapter_ok; [done|]. apply after_refl. by apply open_usable.
Qed.

Lemma spi_send_keeps id sb len st : buses_ok st → op_ok (BSpiSend id sb len) →
  ∃ r st', luat_spi_send id sb len st = Ok (r, st') ∧ buses_ok st'.
Proof.
  intros Hok [Hl1 Hl2]. specialize (Hl2 sb eq_refl).
  unfold luat_spi_send. destruct (bad_bus id); [by eexists _, st|].
  destruct (w_open _ =? 0); [by eexists _, st|]. destruct (adapter_open st) eqn:Eo; [|by eexists _, st].
  destruct (spi_transfer_ok id sb len [] 0 (adapter st) (open_usable st Hok Eo))
    as (r & b & s & -> & A & _); [lia|simpl; lia|lia|]. eexists _, _. split; [done|]. by apply adapter_ok.
Qed.

Lemma i2c_setup_keeps g id speed st : buses_ok st →
  ∃ r st', luat_i2c_setup g id speed st = Ok (r, st') ∧ buses_ok st'.
Proof using All.
  intros Hok. unfold luat_i2c_setup. destruct windows; [|by eexists _, st].
  destruct (find_adapter_ok st Hok) as (s1 & -> & Hok1). cbn [mbind res_bind].
  destruct (adapter_open s1) eqn:Eo; [|by eexists _, s1]. unfold on_adapter.
  destruct (i2c_setup_ok g id speed (adapter s1) (open_usable s1 Hok1 Eo)) as (r & s2 & -> & A).
  eexists _, _. split; [done|]. by apply adapter_ok.
Qed.

(** The three transfers: when the adapter is there, they are its. *)
Lemma i2c_send_keeps id addr b len st : buses_ok st → holds b len →
  ∃ r st', luat_i2c_send id addr b len 0 st = Ok (r, st') ∧ buses_ok st'.
Proof.
  intros Hok [Hl Hb]. unfold luat_i2c_send. destruct (adapter_is_one st) eqn:Eo; [|by eexists _, st].
  unfold on_adapter.
  destruct (i2c_send_ok id addr b len (adapter st) (is_one_usable st Hok Eo)) as (r & s & -> & A);
    [done..|]. eexists _, _. split; [done|]. by apply adapter_ok.
Qed.

Lemma i2c_recv_keeps id addr b len st : buses_ok st → holds b len →
  ∃ r st', luat_i2c_recv id addr b len st = Ok (r, st') ∧ buses_ok st'.
Proof.
  intros Hok [Hl Hb]. unfold luat_i2c_recv.
  destruct (adapter_is_one st) eqn:Eo; [|by eexists (_, _), st].
  destruct (i2c_recv_ok id addr b len (adapter st) (is_one_usable st Hok Eo)) as (r & b' & s & -> & A);
    [done..|]. eexists (_, _), _. split; [done|]. by apply adapter_ok.
Qed.

Lemma i2c_transfer_keeps id addr r rlen b len st : buses_ok st → holds r rlen → holds b len →
  ∃ a st', luat_i2c_transfer id addr r rlen b len st = Ok (a, st') ∧ buses_ok st'.
Proof.
  intros Hok [Hr1 Hr2] [Hb1 Hb2]. unfold luat_i2c_transfer.
  destruct (adapter_is_one st) eqn:Eo; [|by eexists (_, _), st].
  destruct (i2c_transfer_ok id addr r rlen b len (adapter st) (is_one_usable st Hok Eo))
    as (r' & b' & s & -> & A); [done..|]. eexists (_, _), _. split; [done|]. by apply adapter_ok.
Qed.

(** The state of a call that returned, by the lemma about the call. *)
Ltac by_call L :=
  let E := fresh "E" in
  destruct L as (? & ? & E & ?); [done..|]; rewrite E; by eexists.

Lemma bus_step_ok o st : buses_ok st → op_ok o → ∃ st', bus_step o st = Ok st' ∧ buses_ok st'.
Proof using All.
  intros Hok Ho. destruct o as [spi|d|id|id sb slen rb rlen|id rb len|id sb len|g id speed
    |id addr b len|id addr b len|id addr r rlen b len|o]; cbn [bus_step].
  - by_call (spi_bus_setup_ok spi st).
  - unfold luat_spi_bus_setup. destruct (bad_bus _); [by exists st|].
    destruct (spi_bus_setup_ok (sd_spi_config d) (put_spi (sd_bus_id d) (Win32Spi (sd_spi_config d) 1) st))
      as (r & s & -> & Hs); [apply put_spi_ok; [done|by right]|]. by exists s.
  - eexists. split; [done|]. unfold luat_spi_close. destruct (bad_bus id); [done|].
    apply put_spi_ok; [done|by left].
  - by_call (spi_transfer_keeps id sb slen rb rlen st).
  - by_call (spi_recv_keeps id rb len st).
  - by_call (spi_send_keeps id sb len st).
  - by_call (i2c_setup_keeps g id speed st).
  - by_call (i2c_send_keeps id addr b len st).
  - by_call (i2c_recv_keeps id addr b len st).
  - destruct Ho as [Hr Hb]. by_call (i2c_transfer_keeps id addr r rlen b len st).
  - set (m := match o with OSetup _ _ => _ | _ => _ end).
    assert (∃ s, m = Ok s ∧ buses_ok s) as (s1 & -> & Hok1).
    { unfold m. destruct o; [by apply find_adapter_ok|by exists st..]. }
    cbn [mbind res_bind]. destruct (adapter_open s1) eqn:Eo; [|by exists s1].
    destruct (gpio_step_ok o (adapter s1) (open_usable s1 Hok1 Eo)) as (s & -> & A).
    eexists. split; [done|]. by apply adapter_ok.
Qed.

(** C36 (type).  Whatever sequence of SPI, I2C and GPIO calls reaches the drivers,
    with buffers as long as their counts and receive buffers that hold what is
    sent: every call returns, no function pointer is called before it is
    filled, and every variable of the adapter's module stays within its C type,
    as do the three bus slots. *)
Theorem bus_ops_typed ops st :
  buses_ok st → Forall op_ok ops → ∃ st', bus_run ops st = Ok st' ∧ buses_ok st'.
Proof using All.
  revert st. induction ops as [|o ops IH]; intros st Hok Hops; cbn [bus_run]; [by exists st|].
  inversion Hops; subst. destruct (bus_step_ok o st) as (s & -> & Hs); [done..|].
  cbn [mbind res_bind]. by apply IH.
Qed.

End Typed.

(** ** SPI on its own: buses without an adapter *)

Section Plain.
Context `{Platform, HeapOps, Ch347Dll}.

(** A closed bus transfers nothing, an open one receives zeroes. *)
Lemma spi_transfer_plain id sb slen rb rlen st :
  bad_bus id = false → adapter_open st = false → 0 <= rlen <= Z.of_nat (length rb) → rlen < 2 ^ 31 →
  luat_spi_transfer id sb slen rb rlen st =
    Ok (if w_open (spi_at id st) =? 0 then (-1, rb, st)
        else (rlen, replicate (Z.to_nat rlen) 0 ++ drop (Z.to_nat rlen) rb, st)).
Proof.
  intros Hb Ha Hr Hr2. unfold luat_spi_transfer. rewrite Hb, Ha.
  destruct (w_open (spi_at id st) =? 0); [done|].
  rewrite store_Ok by (rewrite length_replicate; lia). cbn [mbind res_bind].
  rewrite take_0, app_nil_l, length_replicate, Nat.add_0_l. by rewrite wraps_small by lia.
Qed.

(** [luat_spi_recv] does the opposite of what the other two do: a closed bus gives
    zeroes and the full count, and on an open bus the buffer keeps its old
    bytes, which are reported as received. *)
Lemma spi_recv_plain id rb len st :
  bad_bus id = false → adapter_open st = false → 0 <= len <= Z.of_nat (length rb) → len < 2 ^ 31 →
  luat_spi_recv id rb len st =
    Ok (len, if w_open (spi_at id st) =? 0
             then replicate (Z.to_nat len) 0 ++ drop (Z.to_nat len) rb else rb, st).
Proof.
  intros Hb Ha Hr Hr2. unfold luat_spi_recv. rewrite Hb, Ha.
  destruct (w_open (spi_at id st) =? 0).
  - rewrite store_Ok by (rewrite length_replicate; lia). cbn [mbind res_bind].
    rewrite take_0, app_nil_l, length_replicate, Nat.add_0_l. by rewrite wraps_small by lia.
  - cbn [mbind res_bind]. by rewrite wraps_small by lia.
Qed.

(** An adapter's refusal of an I2C transfer is reported as success. *)
Lemma i2c_send_always_zero id addr b len stop st r st' :
  luat_i2c_send id addr b len stop st = Ok (r, st') → r = 0.
Proof.
  unfold luat_i2c_send. intros E.
  apply res_bind_Ok in E as (s & _ & E). by injection E.
Qed.

End Plain.

(** ** The GPIO layer over the adapter, and SPI devices *)

(** The adapter's calls in the log of the GPIO layer. *)
Definition adapter_op (mode_num : gpio_mode → Z) (i : gpio_io) : option gpio_op :=
  match i with
  | Ch347Setup pin mode _ _ => Some (OSetup pin (mode_num mode))
  | Ch347Set pin level => Some (OSet pin level)
  | _ => None
  end.

Definition adapter_ops (mode_num : gpio_mode → Z) (log : list gpio_io) : list gpio_op :=
  omap (adapter_op mode_num) log.

Section Layers.
Context `{Platform, HeapLaws}.
Context (gpio_drvs : Z → option luat_gpio_drv_opts) (ch347_load : bool).
Context (print_d : Z → list Z) (mode_num : gpio_mode → Z).
Context (print_d_len : ∀ z, is_int z → (1 <= length (print_d z) <= 11)%nat).

Abbreviation setup := (luat_gpio_setup gpio_drvs ch347_load print_d mode_num).
Abbreviation set := (luat_gpio_set gpio_drvs print_d).
Abbreviation calls := (adapter_ops mode_num).

Lemma calls_app l1 l2 : calls (l1 ++ l2) = calls l1 ++ calls l2.
Proof. apply omap_app. Qed.

Lemma calls_do c o g : adapter_op mode_num c = Some o →
  calls (gpio_log (ch347_do c g)) =
    calls (gpio_log g) ++ (if windows && ch347_opened g then [o] else []).
Proof.
  intros Ho. unfold ch347_do. destruct (windows && ch347_opened g); [|by rewrite app_nil_r].
  cbn [gpio_log log_io]. rewrite calls_app. unfold adapter_ops at 2. simpl. by rewrite Ho.
Qed.

Lemma ch347_do_same c g :
  gpio_levels (ch347_do c g) = gpio_levels g ∧ ch347_opened (ch347_do c g) = ch347_opened g ∧
  gpio_confs (ch347_do c g) = gpio_confs g.
Proof. unfold ch347_do. by destruct (_ && _). Qed.

(** Setting a pin: its level is kept, and the adapter is told when it is there. *)
Lemma gpio_set_calls pin level g :
  gpio_ok g → 0 <= pin < 128 → is_int level →
  ∃ r g', set pin level g = Ok (r, g') ∧ gpio_ok g' ∧ ch347_opened g' = ch347_opened g ∧
    gpio_levels g' = <[Z.to_nat pin := if level =? 0 then 0 else 1]> (gpio_levels g) ∧
    calls (gpio_log g') = calls (gpio_log g) ++
      (if windows && ch347_opened g then [OSet pin level] else []).
Proof using All.
  intros [Hc Hl] Hp Hlv. unfold luat_gpio_set.
  assert (bad_pin pin = false) as -> by (unfold bad_pin; lia).
  set (g1 := set_levels _ g).
  destruct (gpio_trace_total print_d print_d_len "set" [("pin"%string, pin); ("level"%string, level)] g1)
    as (r & line & ->); [ints|]. cbn [mbind res_bind].
  destruct (ch347_do_same (Ch347Set pin level) (log_io (Trace r line) g1)) as (El & Eo & Ec).
  do 2 eexists. split; [done|]. split; [split; rewrite ?El, ?Ec; simpl; by rewrite ?length_insert|].
  split; [by rewrite Eo|]. split; [by rewrite El|].
  rewrite (calls_do _ (OSet pin level)) by done. simpl. rewrite calls_app.
  by rewrite app_nil_r.
Qed.

Lemma gpio_setup_calls gpio g :
  gpio_ok g → 0 <= g_pin gpio < 128 → is_int (mode_num (g_mode gpio)) →
  is_int (g_pull gpio) → is_int (g_irq gpio) → windows = true → ch347_opened g = true →
  ∃ r g', setup gpio g = Ok (r, g') ∧ gpio_ok g' ∧ ch347_opened g' = true ∧
    calls (gpio_log g') = calls (gpio_log g) ++ [OSetup (g_pin gpio) (mode_num (g_mode gpio))].
Proof using All.
  intros [Hc Hl] Hp Hm Hpu Hi Hw Ho. unfold luat_gpio_setup.
  destruct (Z.leb_spec 128 (g_pin gpio)); [lia|]. destruct (Z.ltb_spec (g_pin gpio) 0); [lia|].
  assert (is_int (g_pin gpio)) as Hpi by (unfold is_int; lia).
  set (g1 := set_confs _ g).
  destruct (gpio_trace_total print_d print_d_len "setup" [("pin"%string, g_pin gpio);
    ("mode"%string, mode_num (g_mode gpio)); ("pull"%string, g_pull gpio);
    ("irq"%string, g_irq gpio)] g1) as (r & line & ->); [ints|]. cbn [mbind res_bind].
  set (g2 := Gpio.set_opened _ _).
  destruct (ch347_do_same (Ch347Setup (g_pin gpio) (g_mode gpio) (g_pull gpio) (g_irq gpio)) g2)
    as (El & Eo & Ec).
  do 2 eexists. split; [done|]. split; [split; rewrite ?El, ?Ec; simpl; by rewrite ?length_insert|].
  split; [rewrite Eo; simpl; by rewrite Ho|].
  rewrite (calls_do _ (OSetup (g_pin gpio) (mode_num (g_mode gpio)))) by done. simpl.
  rewrite Ho, Hw, calls_app. by rewrite app_nil_r.
Qed.

(** From the Lua call to the wire, on Windows with an adapter:
    setting up one of its eight pins as an output and setting it through the
    GPIO layer sends the adapter's routines exactly the calls that leave the
    device driving the pin at that level. *)
Theorem gpio_reaches_pin `{Ch347PinLaws, !Ch347Laws} pin pull irq level g a :
  gpio_ok g → windows = true → ch347_opened g = true → 0 <= pin < 8 →
  mode_num LUAT_GPIO_OUTPUT = 0 → is_int pull → is_int irq → is_int level →
  usable a → mirror a →
  ∃ r1 g1 r2 g2 ops a',
    setup (Gpio pin LUAT_GPIO_OUTPUT pull irq) g = Ok (r1, g1) ∧
    set pin level g1 = Ok (r2, g2) ∧
    calls (gpio_log g2) = calls (gpio_log g) ++ ops ∧
    gpio_run ops a = Ok a' ∧ usable a' ∧ mirror a' ∧
    dir_bit a' pin = true ∧ out_bit a' pin = negb (level =? 0).
Proof using All.
  intros Hg Hw Ho Hp Hm Hpu Hi Hl Hu Hmi.
  destruct (gpio_setup_calls (Gpio pin LUAT_GPIO_OUTPUT pull irq) g) as (r1 & g1 & E1 & Hg1 & Ho1 & C1);
    simpl; [done|lia|rewrite Hm; unfold is_int; lia|done..|].
  destruct (gpio_set_calls pin level g1 Hg1) as (r2 & g2 & E2 & Hg2 & Ho2 & _ & C2); [lia|done|].
  simpl in C1. rewrite Hm in C1. rewrite Ho1, Hw in C2. cbn [andb] in C2.
  destruct (gpio_run_drives pin level [] [] a) as (a' & Ea & Ua & Ma & _ & _ & Hdir & Hout); [done..|].
  exists r1, g1, r2, g2, [OSetup pin 0; OSet pin level], a'.
  split; [exact E1|]. split; [exact E2|].
  split; [rewrite C2, C1, <- app_assoc; done|]. split; [exact Ea|]. repeat (split; [done|]). done.
Qed.

(** *** SPI devices *)

Section Spi.
Context `{Ch347Dll}.

(** [run] does what [body] does between selecting and releasing the device, and
    leaves it released, also when the bus refuses. *)
Definition brackets {A} (d : luat_spi_device) (body : buses → res (A * buses))
    (run : buses → gpio_state → res (A * buses * gpio_state)) (st : buses) (g : gpio_state) : Prop :=
  let cs := sp_cs (sd_spi_config d) in
  ∀ a st', body st = Ok (a, st') →
    ∃ g', run st g = Ok (a, st', g') ∧ gpio_ok g' ∧ gpio_levels g' !! Z.to_nat cs = Some 1 ∧
      (∀ p, p ≠ Z.to_nat cs → gpio_levels g' !! p = gpio_levels g !! p) ∧
      calls (gpio_log g') = calls (gpio_log g) ++
        (if windows && ch347_opened g then [OSet cs 0; OSet cs 1] else []).

Lemma selected_brackets {A} d (body : buses → res (A * buses)) st g :
  gpio_ok g → 0 <= sp_cs (sd_spi_config d) < 128 →
  brackets d body (selected gpio_drvs print_d d body) st g.
Proof using All.
  intros Hg Hcs a st' Hb. unfold selected, cs_set.
  destruct (gpio_set_calls (sp_cs (sd_spi_config d)) 0 g Hg Hcs) as (r1 & g1 & -> & Hg1 & Ho1 & L1 & C1);
    [unfold is_int; lia|]. cbn [mbind res_bind]. rewrite Hb. cbn [mbind res_bind].
  destruct (gpio_set_calls (sp_cs (sd_spi_config d)) 1 g1 Hg1 Hcs) as (r2 & g2 & -> & Hg2 & Ho2 & L2 & C2);
    [unfold is_int; lia|]. cbn [mbind res_bind].
  exists g2. split; [done|]. split; [done|]. rewrite L2, L1. destruct Hg as [Hgc Hgl].
  split; [apply list_lookup_insert_eq; rewrite length_insert; lia|].
  split; [intros p Hne; by rewrite !list_lookup_insert_ne by done|].
  rewrite C2, C1, Ho1, <- app_assoc. by destruct (windows && ch347_opened g).
Qed.

(** The three operations of an SPI device pull the chip select down
    before the bus transfer and up after it, whatever the transfer returns:
    the device is never left selected, other pins are not touched, and the
    result is the bus's. *)
Theorem spi_device_brackets d st g :
  gpio_ok g → 0 <= sp_cs (sd_spi_config d) < 128 →
  (∀ sb slen rb rlen, brackets d (luat_spi_transfer (sd_bus_id d) sb slen rb rlen)
     (luat_spi_device_transfer gpio_drvs print_d d sb slen rb rlen) st g) ∧
  (∀ rb len, brackets d (luat_spi_recv (sd_bus_id d) rb len)
     (luat_spi_device_recv gpio_drvs print_d d rb len) st g) ∧
  (∀ sb len, brackets d (luat_spi_send (sd_bus_id d) sb len)
     (luat_spi_device_send gpio_drvs print_d d sb len) st g).
Proof using All. intros Hg Hcs. repeat split; intros; by apply selected_brackets. Qed.

End Spi.
End Layers.

(** ** Runs *)

Definition demo_buses : @buses demo_dll := @buses_init demo_dll demo_start.

Lemma demo_buses_ok : @buses_ok demo_dll demo_buses.
Proof. exact (@buses_ok_init demo_dll demo_start). Qed.

Lemma bus_ops_typed_witness : ∃ st',
  @bus_run windows32 big_heap demo_dll
    [BSpiSetup (Spi 0 0 0 8 1 1000000 9 1); BSpiTransfer 0 [1; 2] 2 [0; 0; 0] 3;
     BI2cTransfer 0 80 (Some [7]) 1 (Some [0; 0]) 2; BGpio (OSetup 2 0); BGpio (OSet 2 1)]
    demo_buses = Ok st' ∧ buses_ok st'.
Proof.
  apply (@bus_ops_typed windows32 big_heap big_heap_laws demo_dll demo_laws).
  - repeat constructor.
  - exact demo_buses_ok.
  - repeat constructor; simpl; try lia; intros b E; injection E as <-; simpl; lia.
Defined.

Definition demo_gpio : gpio_state :=
  GpioState (replicate 128 inhabitant) (replicate 128 0) true [].

Lemma gpio_reaches_pin_witness : ∃ r1 g1 r2 g2 ops a',
  @luat_gpio_setup windows32 big_heap (λ _, None) true demo_print demo_num (Gpio 3 LUAT_GPIO_OUTPUT 0 0)
    demo_gpio = Ok (r1, g1) ∧
  @luat_gpio_set windows32 big_heap (λ _, None) demo_print 3 1 g1 = Ok (r2, g2) ∧
  adapter_ops demo_num (gpio_log g2) = ops ∧
  @gpio_run demo_dll ops demo_st = Ok a' ∧ @out_bit demo_dll demo_pins a' 3 = true.
Proof.
  destruct (@gpio_reaches_pin windows32 big_heap big_heap_laws (λ _, None) true demo_print demo_num
    demo_print_len demo_dll demo_pins demo_pin_laws demo_laws 3 0 0 1 demo_gpio demo_st)
    as (r1 & g1 & r2 & g2 & ops & a' & E1 & E2 & C & R & _ & _ & _ & O);
    [split; reflexivity|reflexivity|reflexivity|lia|reflexivity|unfold is_int; lia..
    |exact demo_usable|exact demo_mirror|].
  exists r1, g1, r2, g2, ops, a'. split; [exact E1|]. split; [exact E2|]. split; [exact C|].
  split; [exact R|exact O].
Defined.

Lemma spi_device_brackets_witness : ∃ g',
  @luat_spi_device_transfer linux64 big_heap demo_dll (λ _, None) demo_print (SpiDevice 1 no_spi)
    [1] 1 [0; 0] 2 demo_buses demo_gpio = Ok (-1, [0; 0], demo_buses, g').
Proof.
  destruct (@spi_device_brackets linux64 big_heap big_heap_laws (λ _, None) false demo_print demo_num
    demo_print_len demo_dll (SpiDevice 1 no_spi) demo_buses demo_gpio) as (Ht & _);
    [split; reflexivity|simpl; lia|].
  destruct (Ht [1] 1 [0; 0] 2 (-1, [0; 0]) demo_buses) as (g' & E & _); [reflexivity|].
  exists g'. exact E.
Defined.
