(* ===== verification/Mcu.v ===== *)
(** * The machine: port/driver/luat_mcu_pc.c and luat_rtc_pc.c

    Clock, ticks and the unique identifier, which is asked of the host once by
    running [wmic csproduct get UUID] and reading what it prints. *)

From S2P Require Import Prelude.

(** ** Reading a stream *)

(** One [fgets] into a buffer of [n] bytes: the line (cut to [n - 1] bytes) and the
    rest of the stream; [None] at its end. *)
Fixpoint fgets_line (n : nat) (stream : list Z) : list Z * list Z :=
  match n, stream with
  | S n, b :: stream =>
      if b =? 10 then ([b], stream)
      else let '(l, r) := fgets_line n stream in (b :: l, r)
  | _, _ => ([], stream)
  end.

Definition fgets (n : nat) (stream : list Z) : option (list Z * list Z) :=
  match stream with [] => None | _ => Some (fgets_line (n - 1) stream) end.

(** ** Operations *)

(** The part of [g_pcconf] the machine keeps. *)
Record mcu_conf : Type := McuConf {
  mcu_unique_id : list Z; mcu_unique_id_len : Z; mcu_mhz : Z;
}.
Definition mcu_init : mcu_conf := McuConf (replicate 64 0) 0 0.

Definition luat_mcu_set_clk (mhz : Z) : Z := 0.
Definition luat_mcu_get_clk (c : mcu_conf) : Z := i32 (mcu_mhz c).
Definition luat_mcu_hz : Z := 1.
Definition luat_mcu_us_period : Z := 1.

(** The characters of an identifier: the first 64 of the line without dashes,
    blanks and line ends. *)
Definition id_skips (c : Z) : bool := (c =? 45) || (c =? 32) || (c =? 13) || (c =? 10).

Fixpoint id_filter (n : nat) (line : list Z) : list Z :=
  match n, line with
  | S n, c :: line => if id_skips c then id_filter n line else c :: id_filter n line
  | _, _ => []
  end.

Section Mcu.
(** [luat_str_fromhex] of the core: the bytes it writes for a text. *)
Context (luat_str_fromhex : list Z → list Z).

(** What is done with the line that is no heading. *)
Definition take_id (s : list Z) (c : mcu_conf) : res mcu_conf :=
  let buf2 := id_filter 64 s in
  let tmpi := Z.of_nat (length buf2) in
  id ← store (mcu_unique_id c) 0 (luat_str_fromhex buf2);
  id ← store id (Z.to_nat (tmpi / 2)) [0];
  Ok (McuConf id (tmpi / 2) (mcu_mhz c)).

(** The loop over the lines; it leaves only through its [break]. *)
Fixpoint unique_id_loop (fuel : nat) (buf : list Z) (stream : list Z) (c : mcu_conf) : res mcu_conf :=
  match fuel with
  | O => Fault OutOfFuel
  | S fuel =>
      '(buf, stream) ← match fgets 128 stream with
                       | None => Ok (buf, stream)
                       | Some (l, r) => buf ← store buf 0 (l ++ [0]); Ok (buf, r)
                       end;
      s ← c_string buf;
      if strstr s (bytes "UUID") then unique_id_loop fuel buf stream c
      else take_id s c
  end.

(** [popen] gives the stream of the command's output, or fails; the stream is
    closed either way. The result is the identifier with its length. *)
Definition luat_mcu_unique_id (fuel : nat) (popen : option (list Z)) (c : mcu_conf)
    : res (list Z * Z * mcu_conf) :=
  if negb (mcu_unique_id_len c =? 0) then Ok (mcu_unique_id c, mcu_unique_id_len c, c)
  else
    c ← match popen with
        | Some stream => unique_id_loop fuel (replicate 128 0) stream c
        | None => Ok c
        end;
    match popen with
    | Some _ => Ok (mcu_unique_id c, mcu_unique_id_len c, c)
    | None => Fault NullDeref (* pclose(NULL) *)
    end.

(** *** Ticks: the nanoseconds of [uv_hrtime], less those at the start *)

Definition luat_mcu_tick64 (uv_startup_ns ns : Z) : Z := u64 (ns - uv_startup_ns) / 1000.
Definition luat_mcu_tick64_ms (uv_startup_ns ns : Z) : Z := luat_mcu_tick64 uv_startup_ns ns / 1000.

(** [long] has 32 bits on Windows and on 32-bit systems. *)
Definition long_bits `{Platform} : Z := if windows then 32 else 8 * ptr_bytes.
Definition luat_mcu_ticks `{Platform} (uv_startup_ns ns : Z) : Z :=
  wraps long_bits (luat_mcu_tick64 uv_startup_ns ns / 1000).

(** *** Real-time clock: [gmtime] of the host; setting it does nothing *)

Definition luat_rtc_set {tm} (tblock : tm) : Z := 0.
Definition luat_rtc_get {tm} (gmtime_now : tm) (tblock : option tm) : Z * option tm :=
  match tblock with None => (-1, None) | Some _ => (0, Some gmtime_now) end.
Definition luat_rtc_timer_start : Z := -1.
Definition luat_rtc_timer_stop : Z := 0.
Definition luat_rtc_timezone : Z := 32.

(** ** What the loop does *)

(** The lines [fgets] gives one after the other. *)
Fixpoint lines_of (fuel : nat) (stream : list Z) : list (list Z) :=
  match fuel with
  | O => []
  | S fuel =>
      match fgets 128 stream with
      | None => []
      | Some (l, r) => l :: lines_of fuel r
      end
  end.
Definition output_lines (stream : list Z) : list (list Z) := lines_of (length stream) stream.

(** The line the identifier is taken from: the first without the heading. *)
Definition is_heading (l : list Z) : bool := strstr (cstr l) (bytes "UUID").

Lemma fgets_line_length n : ∀ s l r, fgets_line n s = (l, r) →
  (length l <= n)%nat ∧ (length l + length r = length s)%nat.
Proof.
  induction n as [|n IH]; intros [|b s] l r; cbn [fgets_line]; try (intros [= <- <-]; simpl; lia).
  destruct (b =? 10); [intros [= <- <-]; simpl; lia|].
  destruct (fgets_line n s) as [l' r'] eqn:E. intros [= <- <-].
  apply IH in E as [? ?]. simpl. lia.
Qed.

Lemma fgets_line_nonempty n b s l r : fgets_line (S n) (b :: s) = (l, r) → l ≠ [].
Proof.
  cbn [fgets_line]. destruct (b =? 10); [congruence|]. destruct (fgets_line n s). congruence.
Qed.

Lemma fgets_shrinks s l r : fgets 128 s = Some (l, r) →
  (length l <= 127)%nat ∧ (length r < length s)%nat.
Proof.
  unfold fgets. destruct s as [|b s]; [discriminate|]. intros E.
  apply (inj Some) in E.
  assert (l ≠ []) as Hne by exact (fgets_line_nonempty 126 b s l r E).
  pose proof (fgets_line_length (128 - 1) _ _ _ E) as [Hl Hs].
  destruct l; [done|]. simpl length in *. lia.
Qed.

Lemma lines_of_more n : ∀ m s, (length s <= n)%nat → (n <= m)%nat → lines_of m s = lines_of n s.
Proof.
  induction n as [|n IH]; intros [|m] s Hs Hm; cbn [lines_of]; try done; try lia.
  - destruct s; [done|simpl in Hs; lia].
  - destruct (fgets 128 s) as [ [l r]|] eqn:E; [|done].
    pose proof (fgets_shrinks s l r E) as [_ Hr]. f_equal. apply IH; lia.
Qed.

Lemma lines_of_count n : ∀ s, (length (lines_of n s) <= n)%nat.
Proof.
  induction n as [|n IH]; intros s; cbn [lines_of]; [simpl; lia|].
  destruct (fgets 128 s) as [ [l r]|]; simpl; [|lia]. apply le_n_S, IH.
Qed.

Lemma output_lines_cons s l r : fgets 128 s = Some (l, r) →
  output_lines s = l :: output_lines r.
Proof.
  intros E. unfold output_lines. pose proof (fgets_shrinks s l r E) as [_ Hr].
  destruct s as [|b s]; [discriminate|]. cbn [length lines_of]. rewrite E. f_equal.
  apply lines_of_more; simpl in Hr; lia.
Qed.

Lemma output_lines_nil s : fgets 128 s = None → s = [] ∧ output_lines s = [].
Proof. unfold fgets. by destruct s. Qed.

(** The buffer after a line was read into it. *)
Lemma line_in_buffer buf l : length buf = 128%nat → (length l <= 127)%nat →
  ∃ buf', store buf 0 (l ++ [0]) = Ok buf' ∧ length buf' = 128%nat ∧ c_string buf' = Ok (cstr l).
Proof.
  intros Hb Hl. rewrite store_Ok by (rewrite length_app; simpl; lia).
  eexists. split; [done|]. rewrite take_0, app_nil_l.
  split; [rewrite !length_app, length_drop; simpl; lia|].
  rewrite <- app_assoc. cbn [app]. set (r := drop _ buf). clearbody r. clear Hl Hb.
  unfold c_string. rewrite existsb_app. simpl. rewrite orb_true_r. f_equal.
  induction l as [|b l IH]; simpl; [done|]. destruct (b =? 0); [done|]. by rewrite IH.
Qed.

Context (fromhex_length : ∀ l, (length (luat_str_fromhex l) = length l / 2)%nat).

Lemma id_filter_length n : ∀ l, (length (id_filter n l) <= n)%nat.
Proof.
  induction n as [|n IH]; intros [|c l]; simpl; try lia.
  destruct (id_skips c); simpl; specialize (IH l); lia.
Qed.

(** The identifier made of a line. *)
Definition id_of_line (l : list Z) : list Z := luat_str_fromhex (id_filter 64 (cstr l)).

Lemma id_of_line_length l : (length (id_of_line l) <= 32)%nat.
Proof.
  unfold id_of_line. rewrite fromhex_length.
  transitivity (64 / 2)%nat; [|done]. apply Nat.Div0.div_le_mono. apply id_filter_length.
Qed.

Lemma take_id_spec l c : length (mcu_unique_id c) = 64%nat →
  ∃ id, take_id (cstr l) c = Ok (McuConf id (Z.of_nat (length (id_of_line l))) (mcu_mhz c)) ∧
    length id = 64%nat ∧ take (length (id_of_line l)) id = id_of_line l.
Proof.
  intros Hc. pose proof (id_of_line_length l) as Hl. unfold take_id. fold (id_of_line l).
  assert (Z.of_nat (length (id_filter 64 (cstr l))) / 2 = Z.of_nat (length (id_of_line l))) as ->.
  { unfold id_of_line. rewrite fromhex_length. by rewrite Nat2Z.inj_div. }
  rewrite store_Ok by lia. cbn [mbind res_bind]. rewrite take_0, app_nil_l, Nat2Z.id.
  rewrite store_extend by (rewrite length_drop; simpl; lia). cbn [mbind res_bind].
  eexists. split; [reflexivity|]. split; [rewrite !length_app, !length_drop; simpl; lia|].
  rewrite <- app_assoc. by rewrite take_app_length.
Qed.

(** One round of the loop. *)
Lemma loop_line fuel buf s l r c : length buf = 128%nat → length (mcu_unique_id c) = 64%nat →
  fgets 128 s = Some (l, r) →
  ∃ buf', length buf' = 128%nat ∧ c_string buf' = Ok (cstr l) ∧
    if is_heading l then unique_id_loop (S fuel) buf s c = unique_id_loop fuel buf' r c
    else ∃ id, unique_id_loop (S fuel) buf s c
                 = Ok (McuConf id (Z.of_nat (length (id_of_line l))) (mcu_mhz c)) ∧
           length id = 64%nat ∧ take (length (id_of_line l)) id = id_of_line l.
Proof.
  intros Hb Hc E. pose proof (fgets_shrinks s l r E) as [Hl _].
  destruct (line_in_buffer buf l Hb Hl) as (b' & Es & Hb' & Hstr).
  exists b'. split; [done|]. split; [done|]. unfold is_heading.
  cbn [unique_id_loop]. rewrite E, Es. cbn [mbind res_bind]. rewrite Hstr. cbn [mbind res_bind].
  destruct (strstr (cstr l) (bytes "UUID")); [reflexivity|]. by apply take_id_spec.
Qed.

(** At the end of the stream the buffer stays as it is: the loop goes on for ever
    when that is a heading. *)
Lemma loop_end fuel buf c s : c_string buf = Ok s → length (mcu_unique_id c) = 64%nat →
  s = cstr s →
  if strstr s (bytes "UUID") then unique_id_loop (S fuel) buf [] c = unique_id_loop fuel buf [] c
  else ∃ id, unique_id_loop (S fuel) buf [] c
               = Ok (McuConf id (Z.of_nat (length (id_of_line s))) (mcu_mhz c)) ∧
         length id = 64%nat ∧ take (length (id_of_line s)) id = id_of_line s.
Proof.
  intros Hs Hc Hss. cbn [unique_id_loop fgets]. cbn [mbind res_bind]. rewrite Hs. cbn [mbind res_bind].
  destruct (strstr s (bytes "UUID")); [reflexivity|]. pose proof (take_id_spec s c Hc) as Ht. by rewrite <- Hss in Ht.
Qed.

Lemma loop_spins fuel : ∀ buf c s, c_string buf = Ok s → length (mcu_unique_id c) = 64%nat →
  s = cstr s → strstr s (bytes "UUID") = true → unique_id_loop fuel buf [] c = Fault OutOfFuel.
Proof.
  induction fuel as [|fuel IH]; intros buf c s Hs Hc Hss Hh; [done|].
  pose proof (loop_end fuel buf c s Hs Hc Hss) as E. rewrite Hh in E. rewrite E. by eapply IH.
Qed.

Lemma cstr_idem s : cstr (cstr s) = cstr s.
Proof.
  induction s as [|b s IH]; simpl; [done|]. destruct (b =? 0) eqn:E; [done|]. simpl. by rewrite E, IH.
Qed.

(** Headings only, and at least one: no number of rounds is enough. *)
Lemma loop_diverges fuel : ∀ stream buf c,
  length buf = 128%nat → length (mcu_unique_id c) = 64%nat →
  (∀ s, stream = [] → c_string buf = Ok s → s = cstr s ∧ strstr s (bytes "UUID") = true) →
  (stream = [] → ∃ s, c_string buf = Ok s) →
  Forall (λ l, is_heading l = true) (output_lines stream) →
  unique_id_loop fuel buf stream c = Fault OutOfFuel.
Proof.
  induction fuel as [|fuel IH]; intros stream buf c Hb Hc Hend Hex Hh; [done|].
  destruct (fgets 128 stream) as [ [l r]|] eqn:E.
  - rewrite (output_lines_cons _ _ _ E) in Hh. inversion Hh as [|? ? Hl Hr]; subst.
    destruct (loop_line fuel buf stream l r c Hb Hc E) as (b' & Hb' & Hs & Hloop).
    rewrite Hl in Hloop. rewrite Hloop. apply IH; [done|done| |by eauto|done].
    intros s _ Hs'. rewrite Hs in Hs'. injection Hs' as <-. by rewrite cstr_idem.
  - destruct (output_lines_nil _ E) as [-> _]. destruct (Hex eq_refl) as [s Hs].
    destruct (Hend s eq_refl Hs) as [Hss Hu]. by eapply loop_spins.
Qed.

(** The first line that is no heading gives the identifier. *)
Lemma loop_returns pre l post : ∀ fuel stream buf c,
  length buf = 128%nat → length (mcu_unique_id c) = 64%nat →
  output_lines stream = pre ++ l :: post → Forall (λ l, is_heading l = true) pre →
  is_heading l = false → (length pre < fuel)%nat →
  ∃ id, unique_id_loop fuel buf stream c = Ok (McuConf id (Z.of_nat (length (id_of_line l))) (mcu_mhz c)) ∧
    length id = 64%nat ∧ take (length (id_of_line l)) id = id_of_line l.
Proof.
  induction pre as [|h pre IH]; intros [|fuel] stream buf c Hb Hc Ho Hh Hl Hf; try (simpl in Hf; lia).
  - destruct (fgets 128 stream) as [ [l' r]|] eqn:E;
      [|destruct (output_lines_nil _ E) as [_ E2]; rewrite E2 in Ho; discriminate].
    rewrite (output_lines_cons _ _ _ E) in Ho. injection Ho as -> _.
    destruct (loop_line fuel buf stream l r c Hb Hc E) as (b' & _ & _ & Hloop). by rewrite Hl in Hloop.
  - destruct (fgets 128 stream) as [ [l' r]|] eqn:E;
      [|destruct (output_lines_nil _ E) as [_ E2]; rewrite E2 in Ho; discriminate].
    rewrite (output_lines_cons _ _ _ E) in Ho. injection Ho as -> Ho. inversion Hh as [|? ? Hh1 Hh2]; subst.
    destruct (loop_line fuel buf stream h r c Hb Hc E) as (b' & Hb' & _ & Hloop).
    rewrite Hh1 in Hloop. rewrite Hloop. apply IH; (done || simpl in Hf; lia).
Qed.

(** Asking for the machine's identifier, for any output of the
    command: when some line of it is not a heading, the identifier is made of
    the first such line, stays inside its 64 bytes, and is returned from then on
    without running anything; when the output is empty, the identifier is
    empty; when it consists of headings only, the call never returns. *)
Theorem unique_id_terminates stream c :
  length (mcu_unique_id c) = 64%nat → mcu_unique_id_len c = 0 →
  (∀ pre l post, output_lines stream = pre ++ l :: post →
     Forall (λ l, is_heading l = true) pre → is_heading l = false →
     ∀ fuel, (length stream < fuel)%nat →
     ∃ id c', luat_mcu_unique_id fuel (Some stream) c = Ok (id, Z.of_nat (length (id_of_line l)), c') ∧
       (length (id_of_line l) <= 32)%nat ∧ length id = 64%nat ∧
       take (length (id_of_line l)) id = id_of_line l ∧
       (id_of_line l ≠ [] → ∀ fuel' p,
          luat_mcu_unique_id fuel' p c' = Ok (id, Z.of_nat (length (id_of_line l)), c'))) ∧
  (stream = [] → ∀ fuel, (0 < fuel)%nat → ∃ id c', luat_mcu_unique_id fuel (Some stream) c = Ok (id, 0, c')) ∧
  (stream ≠ [] → Forall (λ l, is_heading l = true) (output_lines stream) →
     ∀ fuel, luat_mcu_unique_id fuel (Some stream) c = Fault OutOfFuel).
Proof using fromhex_length.
  intros Hc H0. unfold luat_mcu_unique_id. rewrite H0. cbn [Z.eqb negb]. split; [|split].
  - intros pre l post Ho Hh Hl fuel Hf.
    destruct (loop_returns pre l post fuel stream (replicate 128 0) c) as (id & -> & Hlen & Htake);
      [done|done|done|done|done| |].
    { pose proof (lines_of_count (length stream) stream) as Hle. fold (output_lines stream) in Hle.
      rewrite Ho, length_app in Hle. simpl in Hle. lia. }
    cbn [mbind res_bind]. do 2 eexists. split; [done|]. split; [apply id_of_line_length|].
    split; [done|]. split; [done|]. intros Hne fuel' p. simpl.
    destruct (Z.eqb_spec (Z.of_nat (length (id_of_line l))) 0); [|done]. by destruct (id_of_line l).
  - intros -> [|fuel] Hf; [lia|].
    destruct (loop_end fuel (replicate 128 0) c [] eq_refl Hc eq_refl) as (id & -> & _).
    cbn [mbind res_bind mcu_unique_id mcu_unique_id_len].
    pose proof (fromhex_length []) as Hn. change (id_of_line []) with (luat_str_fromhex []). rewrite Hn.
    by do 2 eexists.
  - intros Hne Hh fuel. rewrite loop_diverges; [done|done|done| | |done].
    + intros s E. by destruct (Hne E).
    + intros E. by destruct (Hne E).
Qed.

(** When the command cannot be run at all, a null stream is closed. *)
Lemma unique_id_no_command fuel c : mcu_unique_id_len c = 0 →
  luat_mcu_unique_id fuel None c = Fault NullDeref.
Proof. unfold luat_mcu_unique_id. by intros ->. Qed.

End Mcu.

(** ** Ticks *)

(** Ticks never go backwards, and [luat_mcu_ticks] counts milliseconds until its
    [long] is full: after 2^31 milliseconds (24.8 days) where that has 32 bits. *)
Lemma tick64_mono s a b : s <= a → a <= b → b - s < 2 ^ 64 →
  luat_mcu_tick64 s a <= luat_mcu_tick64 s b.
Proof. intros. unfold luat_mcu_tick64. rewrite !wrapu_small by lia. apply Z.div_le_mono; lia. Qed.

Lemma ticks_until_full `{Platform} s ns : s <= ns → ns - s < 2 ^ 64 →
  luat_mcu_tick64_ms s ns < 2 ^ (long_bits - 1) → luat_mcu_ticks s ns = luat_mcu_tick64_ms s ns.
Proof.
  intros Hs Hn Hl. unfold luat_mcu_ticks, luat_mcu_tick64_ms in *. apply wraps_small.
  - unfold long_bits. destruct windows; [lia|]. destruct ptr_bytes_cases as [-> | ->]; lia.
  - split; [|done]. transitivity 0; [|unfold luat_mcu_tick64; rewrite wrapu_small by lia; repeat apply Z.div_pos; lia].
    assert (0 <= 2 ^ (long_bits - 1)); [apply Z.pow_nonneg; lia|lia].
Qed.

Lemma ticks_wrap_windows : @luat_mcu_ticks windows32 0 (2 ^ 31 * 1000000) = - 2 ^ 31.
Proof. reflexivity. Qed.

(** ** A run *)

Definition hex_nibble (c : Z) : Z :=
  if (48 <=? c) && (c <=? 57) then c - 48 else if (65 <=? c) && (c <=? 70) then c - 55 else 0.
Fixpoint demo_fromhex (l : list Z) : list Z :=
  match l with
  | a :: b :: l => hex_nibble a * 16 + hex_nibble b :: demo_fromhex l
  | _ => []
  end.

Lemma demo_fromhex_length l : (length (demo_fromhex l) = length l / 2)%nat.
Proof.
  enough (∀ n l, (length l <= n)%nat → (length (demo_fromhex l) = length l / 2)%nat) as Hn by by apply (Hn (length l)).
  induction n as [|n IH]; intros [|a [|b l'] ] Hl; try done; [simpl in Hl; lia|].
  cbn [demo_fromhex length]. simpl in Hl. rewrite IH by lia.
  replace (S (S (length l'))) with (length l' + 1 * 2)%nat by lia. rewrite Nat.div_add by lia. lia.
Qed.

Definition wmic_output : list Z :=
  bytes "UUID    " ++ [13; 13; 10] ++ bytes "4C4C-0A  " ++ [13; 13; 10; 13; 13; 10].

Lemma unique_id_terminates_witness : ∃ id c',
  luat_mcu_unique_id demo_fromhex 100 (Some wmic_output) mcu_init = Ok (id, 3, c') ∧
  take 3 id = [76; 76; 10] ∧
  luat_mcu_unique_id demo_fromhex 100 (Some (bytes "UUID")) mcu_init = Fault OutOfFuel.
Proof.
  destruct (unique_id_terminates demo_fromhex demo_fromhex_length wmic_output mcu_init eq_refl eq_refl)
    as (Hret & _).
  destruct (unique_id_terminates demo_fromhex demo_fromhex_length (bytes "UUID") mcu_init eq_refl eq_refl)
    as (_ & _ & Hdiv).
  destruct (Hret [bytes "UUID    " ++ [13; 13; 10] ] (bytes "4C4C-0A  " ++ [13; 13; 10]) [ [13; 13; 10] ])
    with (fuel := 100%nat) as (id & c' & E & _ & _ & Ht & _);
    [reflexivity|repeat constructor|reflexivity|vm_compute; lia|].
  exists id, c'. split; [exact E|]. split; [exact Ht|].
  apply Hdiv; [discriminate|repeat constructor].
Defined.
