(* ===== verification/Media.v ===== *)
(** * Playing a file: luat_ffmpeg_play_file of ffmpeg_x86/ffmpeg.c

    A file is played by opening it with ffmpeg, decoding its audio stream packet by
    packet, converting every frame to 16-bit stereo and queueing the result with
    SDL.  The libraries are outside: what they answer is a value of type [media],
    and what the code asks of them, in order, is a trace.  A small machine runs
    over the trace and knows which objects are allocated; it rejects using or
    releasing what is not there and allocating twice. *)

From S2P Require Import Prelude.

(** ** The libraries' answers *)

(** A decoded frame: the results of [av_samples_alloc] and [swr_convert]. That
    [SDL_QueueAudio] fails is only printed. *)
Record frame_ans : Type := FrameAns { fa_alloc : Z; fa_convert : Z }.

(** A packet: its stream, the result of sending it to the decoder, and the frames
    the decoder then gives. *)
Record packet_ans : Type := PacketAns { pa_stream : Z; pa_send : Z; pa_frames : list frame_ans }.

Record media : Type := Media {
  open_input : Z;        (* avformat_open_input *)
  stream_info : Z;       (* avformat_find_stream_info *)
  best_stream : Z;       (* av_find_best_stream *)
  has_decoder : bool;    (* avcodec_find_decoder *)
  has_context : bool;    (* avcodec_alloc_context3 *)
  to_context : Z;        (* avcodec_parameters_to_context *)
  codec_open : Z;        (* avcodec_open2 *)
  has_swr : bool;        (* swr_alloc_set_opts *)
  swr_init_ret : Z;
  has_packet : bool;     (* av_packet_alloc *)
  has_frame : bool;      (* av_frame_alloc *)
  sdl_init_ret : Z;
  audio_device : Z;      (* SDL_OpenAudioDevice, 0 is a failure *)
  packets : list packet_ans;
  drain_polls : nat;     (* how often the queue is found not empty at the end *)
}.

(** ** The calls *)

Inductive call : Type :=
  | OpenInput | FindStreamInfo | FindBestStream | CloseInput
  | FindDecoder | AllocContext | ParametersToContext | OpenCodec | FreeContext
  | SwrAlloc | SwrInit | SwrFree
  | PacketAlloc | FrameAlloc | FrameFree | PacketFree
  | SdlInit | OpenAudioDevice | PauseDevice | CloseAudioDevice | SdlQuit
  | ReadFrame (got : bool) | SendPacket | ReceiveFrame | PacketUnref
  | SamplesAlloc | SwrConvert | QueueAudio (bytes : Z) | Freep
  | QueuedSize | Delay.

(** A computation with the calls it makes. *)
Definition traced (A : Type) : Type := list call * A.
#[local] Instance traced_ret : MRet traced := λ A a, ([], a).
#[local] Instance traced_bind : MBind traced := λ A B f m,
  let r := f m.2 in (m.1 ++ r.1, r.2).

Lemma traced_bind_calls {A B} (m : traced A) (f : A → traced B) : (m ≫= f).1 = m.1 ++ (f m.2).1.
Proof. done. Qed.

Definition emit (c : call) : traced () := ([c], ()).
Definition answer {A} (c : call) (a : A) : traced A := ([c], a).

(** ** Playing a file *)

(** The inner loop: the frames of one packet. The last [ReceiveFrame] is the one
    that gives none. *)
Fixpoint play_frames (gui : bool) (frames : list frame_ans) : traced () :=
  match frames with
  | [] => emit ReceiveFrame
  | f :: frames =>
      _ ← emit ReceiveFrame;
      if fa_alloc f <? 0 then emit SamplesAlloc (* nothing was allocated *)
      else
        _ ← emit SamplesAlloc;
        out_nb_samples ← answer SwrConvert (fa_convert f);
        if out_nb_samples <? 0 then emit Freep
        else
          let pcm_size := out_nb_samples * 2 * 2 in
          _ ← (if gui then emit (QueueAudio pcm_size) else mret ());
          _ ← emit Freep;
          play_frames gui frames
  end.

(** The outer loop.  The [break] for a packet the decoder refuses leaves it
    without releasing the packet's data. *)
Fixpoint play_packets (gui : bool) (idx : Z) (pkts : list packet_ans) : traced () :=
  match pkts with
  | [] => emit (ReadFrame false)
  | p :: pkts =>
      _ ← emit (ReadFrame true);
      if pa_stream p =? idx then
        send ← answer SendPacket (pa_send p);
        if send <? 0 then mret ()
        else
          _ ← play_frames gui (pa_frames p);
          _ ← emit PacketUnref;
          play_packets gui idx pkts
      else
        _ ← emit PacketUnref;
        play_packets gui idx pkts
  end.

Fixpoint drain (n : nat) : traced () :=
  match n with
  | O => mret ()
  | S n => _ ← emit Delay; _ ← emit QueuedSize; drain n
  end.

Fixpoint emits (cs : list call) : traced () :=
  match cs with [] => mret () | c :: cs => _ ← emit c; emits cs end.

Definition fail_with (cs : list call) : traced Z := _ ← emits cs; mret (-1).

(** What follows the loops: the sound queue runs empty, and everything goes. *)
Definition play_tail (m : media) (gui : bool) : traced Z :=
  _ ← (if gui then
         _ ← emit QueuedSize; _ ← drain (drain_polls m);
         _ ← emit CloseAudioDevice; emit SdlQuit
       else mret ());
  _ ← emits [FrameFree; PacketFree; SwrFree; FreeContext; CloseInput];
  mret 0.

(** The part that plays: everything is allocated. *)
Definition play_stream (m : media) (gui : bool) : traced Z :=
  _ ← play_packets gui (best_stream m) (packets m);
  play_tail m gui.

(** The second half: converter, packet and frame, sound device. [av_frame_free] and
    [av_packet_free] do nothing on a null pointer. *)
Definition play_device (m : media) (gui : bool) : traced Z :=
  swr ← answer SwrAlloc (has_swr m);
  if negb swr then fail_with [FreeContext; CloseInput]
  else
    r ← answer SwrInit (swr_init_ret m);
    if r <? 0 then fail_with [SwrFree; FreeContext; CloseInput]
    else
      pkt ← answer PacketAlloc (has_packet m);
      frame ← answer FrameAlloc (has_frame m);
      if negb pkt || negb frame
      then fail_with [FrameFree; PacketFree; SwrFree; FreeContext; CloseInput]
      else if gui then
        r ← answer SdlInit (sdl_init_ret m);
        if r <? 0 then fail_with [FrameFree; PacketFree; SwrFree; FreeContext; CloseInput]
        else
          dev ← answer OpenAudioDevice (audio_device m);
          if dev =? 0
          then fail_with [SdlQuit; FrameFree; PacketFree; SwrFree; FreeContext; CloseInput]
          else _ ← emit PauseDevice; play_stream m gui
      else play_stream m gui.

Definition luat_ffmpeg_play_file (m : media) (gui : bool) : traced Z :=
  r ← answer OpenInput (open_input m);
  if r <? 0 then mret (-1)
  else
    r ← answer FindStreamInfo (stream_info m);
    if r <? 0 then fail_with [CloseInput]
    else
      idx ← answer FindBestStream (best_stream m);
      if idx <? 0 then fail_with [CloseInput]
      else
        codec ← answer FindDecoder (has_decoder m);
        if negb codec then fail_with [CloseInput]
        else
          ctx ← answer AllocContext (has_context m);
          if negb ctx then fail_with [CloseInput]
          else
            r ← answer ParametersToContext (to_context m);
            if r <? 0 then fail_with [FreeContext; CloseInput]
            else
              r ← answer OpenCodec (codec_open m);
              if r <? 0 then fail_with [FreeContext; CloseInput]
              else play_device m gui.

(** ** The machine that watches the calls *)

(** Which objects are allocated. [h_video] is the window's part of SDL. *)
Record held : Type := Held {
  h_fmt : bool; h_codec : bool; h_swr : bool; h_pkt : bool; h_data : bool;
  h_frame : bool; h_buf : bool; h_sdl : bool; h_dev : bool; h_video : bool;
}.

Definition nothing (video : bool) : held :=
  Held false false false false false false false false false video.

(** [need b h]: go on with [h] when [b] holds. *)
Definition need (b : bool) (h : held) : option held := if b then Some h else None.

(** The effect of a call, with the answer [media] gives to it where that decides
    whether something was allocated. *)
Definition watch (m : media) (c : call) (h : held) : option held :=
  let 'Held fmt codec swr pkt data frame buf sdl dev video := h in
  match c with
  | OpenInput => need (negb fmt) (Held (0 <=? open_input m) codec swr pkt data frame buf sdl dev video)
  | FindStreamInfo | FindBestStream => need fmt h
  | FindDecoder => need fmt h
  | CloseInput => need fmt (Held false codec swr pkt data frame buf sdl dev video)
  | AllocContext => need (fmt && negb codec) (Held fmt (has_context m) swr pkt data frame buf sdl dev video)
  | ParametersToContext | OpenCodec => need codec h
  | FreeContext => need codec (Held fmt false swr pkt data frame buf sdl dev video)
  | SwrAlloc => need (codec && negb swr) (Held fmt codec (has_swr m) pkt data frame buf sdl dev video)
  | SwrInit => need swr h
  | SwrFree => need swr (Held fmt codec false pkt data frame buf sdl dev video)
  | PacketAlloc => need (negb pkt) (Held fmt codec swr (has_packet m) data frame buf sdl dev video)
  | FrameAlloc => need (negb frame) (Held fmt codec swr pkt data (has_frame m) buf sdl dev video)
  | FrameFree => Some (Held fmt codec swr pkt data false buf sdl dev video)
  | PacketFree => Some (Held fmt codec swr false false frame buf sdl dev video)
  | SdlInit => need (negb sdl) (Held fmt codec swr pkt data frame buf (0 <=? sdl_init_ret m) dev video)
  | OpenAudioDevice =>
      need (sdl && negb dev) (Held fmt codec swr pkt data frame buf sdl (negb (audio_device m =? 0)) video)
  | PauseDevice | QueueAudio _ | QueuedSize => need dev h
  | CloseAudioDevice => need dev (Held fmt codec swr pkt data frame buf sdl false video)
  | SdlQuit => need (sdl && negb dev) (Held fmt codec swr pkt data frame buf false false false)
  | ReadFrame got => need (fmt && pkt && negb data) (Held fmt codec swr pkt got frame buf sdl dev video)
  | SendPacket => need (codec && data) h
  | ReceiveFrame => need (codec && frame && negb buf) h
  | PacketUnref => need pkt (Held fmt codec swr pkt false frame buf sdl dev video)
  | SamplesAlloc => need (negb buf) h
  | SwrConvert => need (swr && frame) (Held fmt codec swr pkt data frame true sdl dev video)
  | Freep => need buf (Held fmt codec swr pkt data frame false sdl dev video)
  | Delay => Some h
  end.

Fixpoint watch_all (m : media) (cs : list call) (h : held) : option held :=
  match cs with
  | [] => Some h
  | c :: cs => h' ← watch m c h; watch_all m cs h'
  end.

Lemma watch_all_app m cs1 cs2 h :
  watch_all m (cs1 ++ cs2) h = h' ← watch_all m cs1 h; watch_all m cs2 h'.
Proof.
  revert h. induction cs1 as [|c cs1 IH]; intros h; simpl; [done|].
  destruct (watch m c h); simpl; [apply IH|done].
Qed.

(** [runs m h t h' a]: from [h] the calls of [t] are all in order, [h'] is held
    after them, and the result is [a]. *)
Definition runs {A} (m : media) (h : held) (t : traced A) (h' : held) (a : A) : Prop :=
  watch_all m t.1 h = Some h' ∧ t.2 = a.

Lemma runs_step {A B} m h (c : call) (a : A) (f : A → traced B) h1 h' b :
  watch m c h = Some h1 → runs m h1 (f a) h' b → runs m h (answer c a ≫= f) h' b.
Proof. intros Hc [Hw Hr]. split; [|exact Hr]. simpl. by rewrite Hc. Qed.

(** What is held while the loops run: everything, with or without a packet's
    data. *)
Definition playing (gui data video : bool) : held :=
  Held true true true true data true false gui gui video.

Lemma play_frames_watch m gui video frames :
  watch_all m (play_frames gui frames).1 (playing gui true video) = Some (playing gui true video).
Proof.
  induction frames as [|f frames IH]; [done|]. cbn [play_frames].
  destruct (fa_alloc f <? 0); [done|]. simpl.
  destruct (fa_convert f <? 0); [done|]. by destruct gui.
Qed.

Lemma play_packets_watch m gui idx video pkts :
  ∃ data, watch_all m (play_packets gui idx pkts).1 (playing gui false video)
          = Some (playing gui data video).
Proof.
  induction pkts as [|p pkts [data IH]]; [by exists false|]. cbn [play_packets].
  destruct (pa_stream p =? idx).
  - cbn [mbind traced_bind answer emit fst snd]. destruct (pa_send p <? 0); [by exists true|].
    exists data. simpl. rewrite watch_all_app. fold (playing gui true video).
    rewrite play_frames_watch. simpl. exact IH.
  - exists data. simpl. exact IH.
Qed.

Lemma drain_watch m gui data video n :
  gui = true → watch_all m (drain n).1 (playing gui data video) = Some (playing gui data video).
Proof. intros ->. by induction n as [|n IH]. Qed.

Lemma play_tail_watch m gui data video :
  watch_all m (play_tail m gui).1 (playing gui data video) = Some (nothing (video && negb gui)).
Proof.
  unfold play_tail. destruct gui; [|by rewrite andb_true_r].
  cbn -[drain watch_all watch app]. rewrite traced_bind_calls, <- !app_assoc, !watch_all_app.
  change (watch_all m [QueuedSize] (playing true data video)) with (Some (playing true data video)).
  cbn [mbind option_bind]. rewrite watch_all_app, drain_watch by done. simpl. by rewrite andb_false_r.
Qed.

Lemma play_stream_watch m gui video :
  runs m (playing gui false video) (play_stream m gui) (nothing (video && negb gui)) 0.
Proof.
  split; [|done]. unfold play_stream. rewrite traced_bind_calls, watch_all_app.
  destruct (play_packets_watch m gui (best_stream m) video (packets m)) as [data ->].
  cbn [mbind option_bind]. apply play_tail_watch.
Qed.

(** ** What playing a file promises *)

(** All answers are good. *)
Definition playable (m : media) (gui : bool) : bool :=
  (0 <=? open_input m) && (0 <=? stream_info m) && (0 <=? best_stream m) && has_decoder m &&
  has_context m && (0 <=? to_context m) && (0 <=? codec_open m) && has_swr m &&
  (0 <=? swr_init_ret m) && has_packet m && has_frame m &&
  (if gui then (0 <=? sdl_init_ret m) && negb (audio_device m =? 0) else true).

Lemma ltb_leb a : (a <? 0) = negb (0 <=? a).
Proof. rewrite Z.leb_antisym, negb_involutive. done. Qed.

(** Whether SDL was shut down on the way. *)
Definition quits (m : media) (gui : bool) : bool :=
  gui && (0 <=? open_input m) && (0 <=? stream_info m) && (0 <=? best_stream m) && has_decoder m &&
  has_context m && (0 <=? to_context m) && (0 <=? codec_open m) && has_swr m &&
  (0 <=? swr_init_ret m) && has_packet m && has_frame m && (0 <=? sdl_init_ret m).

Lemma emits_calls cs : (emits cs).1 = cs.
Proof. induction cs as [|c cs IH]; [done|]. cbn [emits]. rewrite traced_bind_calls. simpl. by rewrite IH. Qed.

Lemma fail_with_runs m cs h h' :
  watch_all m cs h = Some h' → runs m h (fail_with cs) h' (-1).
Proof.
  intros Hw. split; [|done]. rewrite <- Hw. unfold fail_with. rewrite traced_bind_calls.
  rewrite emits_calls.
  by rewrite app_nil_r.
Qed.

(** One call, whose effect on what is held evaluates; then the failure, if any. *)
Ltac media_call :=
  eapply runs_step; [simpl; repeat (match goal with H : _ = _ :> bool |- _ => rewrite H end); reflexivity|].
Ltac media_fail :=
  apply fail_with_runs; simpl; repeat match goal with b : bool |- _ => destruct b; simpl end; reflexivity.

Lemma play_device_runs m gui video :
  runs m (Held true true false false false false false false false video) (play_device m gui)
    (nothing (video && negb (gui && has_swr m && (0 <=? swr_init_ret m) && has_packet m &&
                             has_frame m && (0 <=? sdl_init_ret m))))
    (if has_swr m && (0 <=? swr_init_ret m) && has_packet m && has_frame m &&
        (if gui then (0 <=? sdl_init_ret m) && negb (audio_device m =? 0) else true)
     then 0 else -1).
Proof.
  unfold play_device.
  destruct (has_swr m) eqn:E1; media_call; [|media_fail].
  media_call. rewrite ltb_leb. destruct (0 <=? swr_init_ret m) eqn:E2; [|media_fail].
  cbn [negb]. media_call. media_call.
  destruct (has_packet m) eqn:E3, (has_frame m) eqn:E4; cbn [negb andb orb]; try media_fail.
  destruct gui; [|apply (play_stream_watch m false video)].
  media_call. rewrite ltb_leb. destruct (0 <=? sdl_init_ret m) eqn:E5; [|media_fail].
  cbn [negb]. media_call. destruct (audio_device m =? 0) eqn:E6; [media_fail|].
  media_call. apply (play_stream_watch m true video).
Qed.

Lemma play_file_runs m gui video :
  runs m (nothing video) (luat_ffmpeg_play_file m gui)
    (nothing (video && negb (quits m gui))) (if playable m gui then 0 else -1).
Proof.
  unfold luat_ffmpeg_play_file, playable, quits.
  media_call. rewrite ltb_leb. destruct (0 <=? open_input m) eqn:E1.
  2: { split; [|done]. by destruct gui, video. }
  cbn [negb]. media_call. rewrite ltb_leb. destruct (0 <=? stream_info m) eqn:E2; [|media_fail].
  cbn [negb]. media_call. rewrite ltb_leb. destruct (0 <=? best_stream m) eqn:E3; [|media_fail].
  cbn [negb]. media_call. destruct (has_decoder m) eqn:E4; [|media_fail].
  cbn [negb]. media_call. destruct (has_context m) eqn:E5; [|media_fail].
  cbn [negb]. media_call. rewrite ltb_leb. destruct (0 <=? to_context m) eqn:E6; [|media_fail].
  cbn [negb]. media_call. rewrite ltb_leb. destruct (0 <=? codec_open m) eqn:E7; [|media_fail].
  cbn [negb]. rewrite !andb_true_r. apply play_device_runs.
Qed.

(** C37 (safety).  Whatever the decoder, the converter and the sound system
    answer, in whatever order packets and frames come and whichever of the
    thirteen failures happens: a run releases everything it allocated, exactly
    once, and uses nothing that is not allocated; it returns 0 exactly when
    every allocation succeeded.  The one thing it takes away besides is the
    window: shutting SDL down ends its video part too. *)
Theorem play_file_releases m gui video :
  watch_all m (luat_ffmpeg_play_file m gui).1 (nothing video)
    = Some (nothing (video && negb (quits m gui))) ∧
  (luat_ffmpeg_play_file m gui).2 = if playable m gui then 0 else -1.
Proof. apply play_file_runs. Qed.
