(* ===== verification/Audio.v ===== *)
(** * Sound: the libraries of ffmpeg_x86/ffmpeg.c and the driver of
      port/driver/luat_audio_pc.c

    On Windows the ffmpeg libraries are loaded when the first file is played, from
    one of two directories, and released when playing is stopped.  The driver plays
    a list of files one after the other ([Media]), in the calling thread, and then
    posts the message that ends the playback of the Lua side. *)

From stdpp Require Import strings.
From S2P Require Import Prelude Media.

(** ** The libraries *)

(** The Windows loader: the running program's path, the module found under a path
    (0 if none; the answer may differ from one call to the next, which are
    numbered) and the address of a function (0 if the module has none). *)
Class Loader : Type := {
  GetModuleFileNameA : option (list Z);
  find_module : nat → list Z → Z;
  GetProcAddress : Z → string → Z;
}.

(** The static variables of ffmpeg.c, with the loader's count of the references to
    each module. *)
Record ffmpeg : Type := Ffmpeg {
  h_avutil : Z; h_swresample : Z; h_avcodec : Z; h_avformat : Z;
  p_funcs : string → Z;
  luat_ffmpeg_debug : Z;
  refs : gmap Z nat;
  load_calls : nat;
}.

Definition ffmpeg_init : ffmpeg := Ffmpeg 0 0 0 0 (λ _, 0) 0 ∅ 0.

Definition refs_of (h : Z) (st : ffmpeg) : nat := default O (refs st !! h).

(** The four handles, by position. *)
Inductive lib : Type := Avutil | Swresample | Avcodec | Avformat.

#[global] Instance lib_eq_dec : EqDecision lib.
Proof. solve_decision. Defined.

Definition handle (l : lib) (st : ffmpeg) : Z :=
  match l with
  | Avutil => h_avutil st | Swresample => h_swresample st
  | Avcodec => h_avcodec st | Avformat => h_avformat st
  end.

Definition set_handle (l : lib) (h : Z) (st : ffmpeg) : ffmpeg :=
  let 'Ffmpeg u s c f p d r n := st in
  match l with
  | Avutil => Ffmpeg h s c f p d r n | Swresample => Ffmpeg u h c f p d r n
  | Avcodec => Ffmpeg u s h f p d r n | Avformat => Ffmpeg u s c h p d r n
  end.

Definition dll_name (l : lib) : string :=
  match l with
  | Avutil => "\avutil-56.dll" | Swresample => "\swresample-3.dll"
  | Avcodec => "\avcodec-58.dll" | Avformat => "\avformat-58.dll"
  end.

Definition set_refs (r : gmap Z nat) (st : ffmpeg) : ffmpeg :=
  let 'Ffmpeg u s c f p d _ n := st in Ffmpeg u s c f p d r n.
Definition set_func (name : string) (a : Z) (st : ffmpeg) : ffmpeg :=
  let 'Ffmpeg u s c f p d r n := st in Ffmpeg u s c f (λ m, if decide (m = name) then a else p m) d r n.
Definition luat_ffmpeg_set_debug (level : Z) (st : ffmpeg) : ffmpeg :=
  let 'Ffmpeg u s c f p _ r n := st in Ffmpeg u s c f p (if level =? 0 then 0 else 1) r n.
Definition count_load (st : ffmpeg) : ffmpeg :=
  let 'Ffmpeg u s c f p d r n := st in Ffmpeg u s c f p d r (S n).

(** [LOAD_FUNC], in the order of the source. *)
Definition funcs : list (lib * string) :=
  [(Avformat, "av_find_best_stream"); (Avformat, "avformat_open_input");
   (Avformat, "avformat_find_stream_info"); (Avformat, "avformat_close_input");
   (Avformat, "av_read_frame"); (Avcodec, "avcodec_find_decoder");
   (Avcodec, "avcodec_alloc_context3"); (Avcodec, "avcodec_free_context");
   (Avcodec, "avcodec_parameters_to_context"); (Avcodec, "avcodec_open2");
   (Avcodec, "avcodec_send_packet"); (Avcodec, "avcodec_receive_frame");
   (Avutil, "av_get_media_type_string"); (Avutil, "av_get_default_channel_layout");
   (Avutil, "av_frame_alloc"); (Avutil, "av_frame_free"); (Avcodec, "av_packet_alloc");
   (Avcodec, "av_packet_free"); (Avcodec, "av_packet_unref"); (Avutil, "av_samples_alloc");
   (Avutil, "av_freep"); (Avutil, "av_rescale_rnd"); (Avutil, "av_get_bytes_per_sample");
   (Avutil, "av_log_set_level"); (Swresample, "swr_alloc_set_opts"); (Swresample, "swr_init");
   (Swresample, "swr_free"); (Swresample, "swr_convert"); (Swresample, "swr_get_delay")].

Definition MAX_PATH : nat := 260.

(** [snprintf(buf, MAX_PATH, "%s..", ..)] into a buffer of [MAX_PATH] bytes. *)
Definition path_of (s : list Z) : list Z := take (MAX_PATH - 1) s.

#[global] Arguments path_of : simpl never.
#[global] Arguments funcs : simpl never.

(** [strrchr(exe_path, '\\')] and cutting there. *)
Definition exe_dir (s : list Z) : list Z := from_option fst s (strrchr s 92).

Section Ffmpeg.
Context `{Platform, Loader}.

(** The loader counts one reference more for a module it finds, and one less for a
    module that is released; releasing one without references fails. *)
Definition LoadLibraryA (path : list Z) (st : ffmpeg) : Z * ffmpeg :=
  let h := find_module (load_calls st) path in
  let st := count_load st in
  (h, if h =? 0 then st else set_refs (<[h := S (refs_of h st)]> (refs st)) st).

Definition FreeLibrary (h : Z) (st : ffmpeg) : ffmpeg :=
  set_refs (<[h := pred (refs_of h st)]> (refs st)) st.

(** Load one library from a directory; its handle is null if that fails. *)
Definition load_lib (l : lib) (dll_dir : list Z) (st : ffmpeg) : ffmpeg :=
  let '(h, st) := LoadLibraryA (path_of (dll_dir ++ bytes (dll_name l))) st in
  set_handle l h st.

Fixpoint load_libs (ls : list lib) (dll_dir : list Z) (st : ffmpeg) : Z * ffmpeg :=
  match ls with
  | [] => (0, st)
  | l :: ls =>
      let st := load_lib l dll_dir st in
      if handle l st =? 0 then (-1, st) else load_libs ls dll_dir st
  end.

Fixpoint load_funcs (fs : list (lib * string)) (st : ffmpeg) : Z * ffmpeg :=
  match fs with
  | [] => (0, st)
  | (l, name) :: fs =>
      let a := GetProcAddress (handle l st) name in
      let st := set_func name a st in
      if a =? 0 then (-1, st) else load_funcs fs st
  end.

(** From the test of the first handle on: the other three libraries come from the
    directory of the first. *)
Definition load_rest (dll_dir : list Z) (st : ffmpeg) : Z * ffmpeg :=
  if h_avutil st =? 0 then (-1, st)
  else
    let '(r, st) := load_libs [Swresample; Avcodec; Avformat] dll_dir st in
    if negb (r =? 0) then (-1, st) else load_funcs funcs st.

Definition luat_load_ffmpeg_dlls (st : ffmpeg) : Z * ffmpeg :=
  if negb windows then (0, st)
  else
    match GetModuleFileNameA with
    | None => (-1, st)
    | Some exe_path =>
        let exe_path := exe_dir exe_path in
        let plan1 := path_of (exe_path ++ bytes "\..\..\release") in
        let st := load_lib Avutil plan1 st in
        let '(dll_dir, st) :=
          if h_avutil st =? 0 then (exe_path, load_lib Avutil exe_path st) else (plan1, st) in
        load_rest dll_dir st
    end.

Definition free_lib (l : lib) (st : ffmpeg) : ffmpeg :=
  if handle l st =? 0 then st else FreeLibrary (handle l st) st.

(** The handles keep their values. *)
Definition luat_unload_ffmpeg_dlls (st : ffmpeg) : ffmpeg :=
  if negb windows then st
  else luat_ffmpeg_set_debug 0
         (free_lib Avutil (free_lib Swresample (free_lib Avcodec (free_lib Avformat st)))).

(** *** What a successful load leaves *)

(** The library is loaded: its handle is good and the loader counts a reference. *)
Definition loaded (st : ffmpeg) (l : lib) : Prop :=
  handle l st ≠ 0 ∧ (1 <= refs_of (handle l st) st)%nat.

(** The functions point into the libraries. *)
Definition resolved (st : ffmpeg) (f : lib * string) : Prop :=
  GetProcAddress (handle f.1 st) f.2 ≠ 0 ∧
  p_funcs st f.2 = GetProcAddress (handle f.1 st) f.2.

Definition resident (st : ffmpeg) : Prop := (∀ l, loaded st l) ∧ Forall (resolved st) funcs.

Lemma load_lib_handle l l' d st :
  handle l' (load_lib l d st)
    = if decide (l' = l) then find_module (load_calls st) (path_of (d ++ bytes (dll_name l)))
      else handle l' st.
Proof.
  unfold load_lib, LoadLibraryA. destruct (_ =? 0), st, l, l'; reflexivity.
Qed.

Lemma load_lib_refs l d st h :
  let m := find_module (load_calls st) (path_of (d ++ bytes (dll_name l))) in
  refs_of h (load_lib l d st)
    = if decide (m ≠ 0 ∧ h = m) then S (refs_of h st) else refs_of h st.
Proof.
  intros m. unfold load_lib, LoadLibraryA. fold m. destruct (Z.eqb_spec m 0) as [Hm|Hm].
  - rewrite decide_False by naive_solver. by destruct st, l.
  - unfold refs_of. destruct (decide (h = m)) as [->|].
    + rewrite decide_True by done. by destruct st, l; simpl; rewrite lookup_insert_eq.
    + rewrite decide_False by naive_solver.
      by destruct st, l; simpl; rewrite lookup_insert_ne.
Qed.

Lemma load_lib_keeps l l' d st : l' ≠ l → loaded st l' → loaded (load_lib l d st) l'.
Proof.
  intros Hne [Hh Hr]. unfold loaded. rewrite load_lib_handle, decide_False by done.
  split; [done|]. rewrite load_lib_refs. case_decide; lia.
Qed.

Lemma load_lib_loaded l d st :
  handle l (load_lib l d st) ≠ 0 → loaded (load_lib l d st) l.
Proof.
  intros Hh. split; [done|]. rewrite load_lib_handle, decide_True in * by done.
  rewrite load_lib_refs, decide_True by done. lia.
Qed.

Lemma load_libs_loaded ls d : ∀ st kept,
  NoDup ls → (∀ l, l ∈ kept → l ∉ ls ∧ loaded st l) →
  (load_libs ls d st).1 = 0 →
  ∀ l, l ∈ kept ++ ls → loaded (load_libs ls d st).2 l.
Proof.
  induction ls as [|l ls IH]; intros st kept Hnd Hk Hr l' Hl'; simpl in *.
  { rewrite app_nil_r in Hl'. by apply Hk. }
  apply NoDup_cons in Hnd as [Hnl Hnd].
  destruct (Z.eqb_spec (handle l (load_lib l d st)) 0) as [?|Hne]; [done|].
  apply (IH (load_lib l d st) (kept ++ [l])); [done| |done|by rewrite <- app_assoc].
  intros l'' [Hin|Hin%list_elem_of_singleton]%elem_of_app.
  - destruct (Hk l'' Hin) as [Hout Hld]. apply not_elem_of_cons in Hout as [Hne' Hout].
    split; [done|]. by apply load_lib_keeps.
  - subst l''. split; [done|]. by apply load_lib_loaded.
Qed.

Lemma load_funcs_same fs : ∀ st,
  (∀ l, handle l (load_funcs fs st).2 = handle l st) ∧
  (∀ h, refs_of h (load_funcs fs st).2 = refs_of h st) ∧
  (∀ n, n ∉ fs.*2 → p_funcs (load_funcs fs st).2 n = p_funcs st n).
Proof.
  induction fs as [|[l name] fs IH]; intros st; simpl; [done|].
  assert (∀ a, (∀ l, handle l (set_func name a st) = handle l st) ∧
    (∀ h, refs_of h (set_func name a st) = refs_of h st) ∧
    (∀ n, n ≠ name → p_funcs (set_func name a st) n = p_funcs st n)) as Hs.
  { intros a. destruct st as [? ? ? ? ps ? ? ?]. split_and!; [by intros []|done|].
    intros n Hn. simpl. by rewrite decide_False. }
  destruct (Hs (GetProcAddress (handle l st) name)) as (Ha & Hb & Hc).
  destruct (_ =? 0); [split_and!; [done..|]; intros n [??]%not_elem_of_cons; by apply Hc|].
  destruct (IH (set_func name (GetProcAddress (handle l st) name) st)) as (Ia & Ib & Ic).
  split_and!.
  - intros l'. by rewrite Ia, Ha.
  - intros h. by rewrite Ib, Hb.
  - intros n [??]%not_elem_of_cons. by rewrite Ic, Hc.
Qed.

Lemma load_funcs_resolved fs : ∀ st,
  NoDup fs.*2 → (load_funcs fs st).1 = 0 → Forall (resolved (load_funcs fs st).2) fs.
Proof.
  induction fs as [|[l name] fs IH]; intros st Hnd Hr; [done|].
  pose proof (load_funcs_same ((l, name) :: fs) st) as (Hh & _ & _).
  apply NoDup_cons in Hnd as [Hn Hnd]. simpl in *.
  destruct (Z.eqb_spec (GetProcAddress (handle l st) name) 0) as [?|Hne]; [done|].
  constructor; [|by apply IH]. unfold resolved. simpl. rewrite Hh. split; [done|].
  destruct (load_funcs_same fs (set_func name (GetProcAddress (handle l st) name) st)) as (_ & _ & ->);
    [|done].
  destruct st. simpl. by rewrite decide_True.
Qed.

Lemma load_rest_resident d st :
  (h_avutil st ≠ 0 → loaded st Avutil) → (load_rest d st).1 = 0 → resident (load_rest d st).2.
Proof.
  intros H2. unfold load_rest. destruct (Z.eqb_spec (h_avutil st) 0) as [?|Hne]; [done|].
  pose proof (load_libs_loaded [Swresample; Avcodec; Avformat] d st [Avutil]) as Hl.
  destruct (load_libs _ d st) as [r st3]. simpl in Hl.
  destruct (Z.eqb_spec r 0) as [->|]; [|done]. cbn [negb]. intros Hr.
  pose proof (load_funcs_same funcs st3) as (Hh & Hrefs & _). split.
  - intros l. unfold loaded. rewrite Hh, Hrefs. apply Hl; [| |done|].
    + by apply (bool_decide_unpack _).
    + intros l' ->%list_elem_of_singleton. split; [by apply (bool_decide_unpack _)|by apply H2].
    + destruct l; apply (bool_decide_unpack _); reflexivity.
  - apply load_funcs_resolved; [|done]. by apply (bool_decide_unpack _); vm_compute.
Qed.

Lemma load_dlls_resident st :
  windows = true → (luat_load_ffmpeg_dlls st).1 = 0 → resident (luat_load_ffmpeg_dlls st).2.
Proof.
  intros Hw. unfold luat_load_ffmpeg_dlls. rewrite Hw. cbn [negb].
  destruct GetModuleFileNameA as [exe|]; [|done].
  destruct (h_avutil (load_lib Avutil _ st) =? 0);
    apply load_rest_resident, (load_lib_loaded Avutil).
Qed.

End Ffmpeg.

(** ** The driver *)

(** The names of the LuatOS core: the kinds of event and of bus, the type tag of a
    buffer, and how a field of [luat_audio_conf_t] keeps a value. *)
Class AudioCore : Type := {
  LUAT_MULTIMEDIA_CB_AUDIO_DONE : Z;
  LUAT_AUDIO_BUS_I2S : Z;
  UDATA_TYPE_OPAQUE : Z;
  conf_store : string → Z → Z;
}.

(** [uData_t]: the type tag and the buffer. *)
Record uData : Type := UData { Type' : Z; buffer : list Z }.

(** The static variables, the messages posted, and the calls of all playbacks with
    the files played. *)
Record audio : Type := Audio {
  ff : ffmpeg;
  luat_audio_dll_enable : Z;
  audio_config : gmap string Z;
  a_msgs : list rtos_msg;
  a_files : list (list Z);
  a_calls : list call;
}.

Definition audio_init : audio := Audio ffmpeg_init 0 ∅ [] [] [].

Section Driver.
Context `{Platform, Loader, AudioCore}.

(** Built with a display, and what the libraries answer when a file is played: the
    playbacks are numbered. *)
Context (gui : bool) (media_of : nat → list Z → media).

Definition AUDIO_DEVICE_ID : Z := 0.

(** [luat_audio_get_config]: null for all but one device. *)
Definition has_config (multimedia_id : Z) : bool := multimedia_id =? AUDIO_DEVICE_ID.

Definition audio_done : rtos_msg :=
  RtosMsg "l_multimedia_raw_handler" 0 LUAT_MULTIMEDIA_CB_AUDIO_DONE 0.

Definition luat_audio_event_cb (event : Z) (st : audio) : audio :=
  let 'Audio f e c ms fs cs := st in
  if event =? LUAT_MULTIMEDIA_CB_AUDIO_DONE then Audio f e c (ms ++ [audio_done]) fs cs else st.

Definition set_ff (f : ffmpeg) (e : Z) (st : audio) : audio :=
  let 'Audio _ _ c ms fs cs := st in Audio f e c ms fs cs.

(** [luat_ffmpeg_play_file] with its calls recorded. *)
Definition play_file (path : list Z) (st : audio) : Z * audio :=
  let 'Audio f e c ms fs cs := st in
  let t := luat_ffmpeg_play_file (media_of (length fs) path) gui in
  (t.2, Audio f e c ms (fs ++ [path]) (cs ++ t.1)).

(** The loop over the files: [None] when it ran to its end, or the [return]. *)
Fixpoint play_files (info : list uData) (error_stop : bool) (st : audio) : option Z * audio :=
  match info with
  | [] => (None, st)
  | d :: info =>
      if Type' d =? UDATA_TYPE_OPAQUE then
        let '(ret, st) := play_file (buffer d) st in
        if negb (ret =? 0) && error_stop
        then (Some (-1), luat_audio_event_cb LUAT_MULTIMEDIA_CB_AUDIO_DONE st)
        else play_files info error_stop st
      else if error_stop
        then (Some (-1), luat_audio_event_cb LUAT_MULTIMEDIA_CB_AUDIO_DONE st)
        else play_files info error_stop st
  end.

(** [if(!luat_audio_dll_enable) ..]: whether the libraries are there. *)
Definition enable_dlls (st : audio) : bool * audio :=
  if luat_audio_dll_enable st =? 0 then
    let '(r, f) := luat_load_ffmpeg_dlls (ff st) in
    if r =? 0 then (true, set_ff f 1 st) else (false, set_ff f 0 st)
  else (true, st).

Definition luat_audio_play_multi_files (multimedia_id : Z) (info : list uData) (error_stop : bool)
    (st : audio) : Z * audio :=
  let '(ok, st) := enable_dlls st in
  if negb ok then (-1, st)
  else
    let '(ret, st) := play_files info error_stop st in
    match ret with
    | Some r => (r, st)
    | None => (0, luat_audio_event_cb LUAT_MULTIMEDIA_CB_AUDIO_DONE st)
    end.

Definition luat_audio_play_file (multimedia_id : Z) (path : list Z) (st : audio) : Z * audio :=
  luat_audio_play_multi_files multimedia_id [UData UDATA_TYPE_OPAQUE path] true st.

Definition luat_audio_stop_raw (multimedia_id : Z) (st : audio) : Z * audio :=
  (0, if windows then set_ff (luat_unload_ffmpeg_dlls (ff st)) 0 st else st).

(** [audio_conf->field = v] for each of the fields, when there is a configuration. *)
Definition configure (multimedia_id : Z) (fields : list (string * Z)) (st : audio) : audio :=
  let 'Audio f e c ms fs cs := st in
  if has_config multimedia_id
  then Audio f e (foldl (λ c kv, <[kv.1 := conf_store kv.1 kv.2]> c) c fields) ms fs cs
  else st.

Definition luat_audio_vol (multimedia_id vol : Z) (st : audio) : Z * audio :=
  (vol, configure multimedia_id [("soft_vol", vol)] st).

(** Returned as a [uint8_t]. *)
Definition luat_audio_mic_vol (multimedia_id vol : Z) (st : audio) : Z * audio :=
  (u8 vol, configure multimedia_id [("last_mic_vol", vol)] st).

Definition luat_audio_config_pa (multimedia_id pin level dummy_time_len pa_delay_time : Z)
    (st : audio) : audio :=
  configure multimedia_id
    [("pa_pin", pin); ("pa_on_level", level); ("after_sleep_ready_time", dummy_time_len);
     ("pa_delay_time", pa_delay_time)] st.

Definition luat_audio_config_dac (multimedia_id pin level dac_off_delay_time : Z) (st : audio) : audio :=
  configure multimedia_id
    [("power_pin", pin); ("power_on_level", level);
     ("power_off_delay_time", dac_off_delay_time)] st.

(** [luat_audio_write_raw] and [luat_audio_pause_raw]: accepted on an I2S bus and
    nowhere else; the static configuration starts as zeroes. *)
Definition on_i2s (multimedia_id : Z) (st : audio) : Z :=
  if has_config multimedia_id && (default 0 (audio_config st !! "bus_type") =? LUAT_AUDIO_BUS_I2S)
  then 0 else -1.
Definition luat_audio_write_raw (multimedia_id : Z) (data : list Z) (len : Z) (st : audio) : Z :=
  on_i2s multimedia_id st.
Definition luat_audio_pause_raw (multimedia_id is_pause : Z) (st : audio) : Z :=
  on_i2s multimedia_id st.

(** Always accepted, always finished. *)
Definition luat_audio_start_raw (multimedia_id audio_format num_channels sample_rate
  bits_per_sample is_signed : Z) : Z := 0.
Definition luat_audio_is_finish (multimedia_id : Z) : Z := 1.
Definition luat_audio_set_bus_type (multimedia_id bus_type : Z) : Z := 0.
Definition luat_audio_init (multimedia_id init_vol init_mic_vol : Z) : Z := 0.

(** ** What playing a list promises *)

Definition opaque (d : uData) : bool := Type' d =? UDATA_TYPE_OPAQUE.

(** The entry is a path, and as the [n]th playback it succeeds. *)
Definition good (n : nat) (d : uData) : bool := opaque d && playable (media_of n (buffer d)) gui.

Lemma play_file_eq path st :
  (play_file path st).1 = (if playable (media_of (length (a_files st)) path) gui then 0 else -1) ∧
  a_files (play_file path st).2 = a_files st ++ [path] ∧
  a_msgs (play_file path st).2 = a_msgs st.
Proof.
  destruct st as [f e c ms fs cs]. split_and!; [|done..].
  apply (play_file_runs (media_of (length fs) path) gui true).
Qed.

Lemma event_cb_done st :
  a_msgs (luat_audio_event_cb LUAT_MULTIMEDIA_CB_AUDIO_DONE st) = a_msgs st ++ [audio_done] ∧
  a_files (luat_audio_event_cb LUAT_MULTIMEDIA_CB_AUDIO_DONE st) = a_files st.
Proof. destruct st. simpl. by rewrite Z.eqb_refl. Qed.

(** Without stopping at errors the loop plays every path. *)
Lemma play_files_all info : ∀ st,
  (play_files info false st).1 = None ∧
  a_files (play_files info false st).2 = a_files st ++ (buffer <$> filter opaque info) ∧
  a_msgs (play_files info false st).2 = a_msgs st.
Proof.
  induction info as [|d info IH]; intros st; simpl; [by rewrite app_nil_r|].
  rewrite filter_cons. case_decide as Ht; unfold opaque in Ht.
  - apply Is_true_true in Ht as ->. destruct (play_file_eq (buffer d) st) as (_ & Hf & Hm).
    destruct (play_file (buffer d) st) as [ret st1]. rewrite andb_false_r.
    destruct (IH st1) as (-> & -> & ->). simpl in *. rewrite Hf, Hm, <- app_assoc. done.
  - apply Is_true_false in Ht as ->. destruct (IH st) as (-> & -> & ->). done.
Qed.

(** Stopping at errors it plays up to the first entry that is not good; the message
    is then already posted. *)
Lemma play_files_until info : ∀ st,
  let n := length (a_files st) in
  let '(ret, st') := play_files info true st in
  (ret = None ∧ (∀ i d, info !! i = Some d → good (n + i) d = true) ∧
   a_files st' = a_files st ++ (buffer <$> info) ∧ a_msgs st' = a_msgs st) ∨
  (ret = Some (-1) ∧ a_msgs st' = a_msgs st ++ [audio_done] ∧
   ∃ i d, info !! i = Some d ∧ good (n + i) d = false ∧
     (∀ j d', (j < i)%nat → info !! j = Some d' → good (n + j) d' = true) ∧
     a_files st' = a_files st ++ (buffer <$> take (if opaque d then S i else i) info)).
Proof.
  induction info as [|d info IH]; intros st n; simpl.
  { left. split_and!; [done| |by rewrite app_nil_r|done]. intros i d. by rewrite lookup_nil. }
  pose proof (event_cb_done st) as [Hm0 Hf0].
  destruct (Type' d =? UDATA_TYPE_OPAQUE) eqn:Ht.
  2: { right. split_and!; [done..|]. exists 0%nat, d. rewrite Nat.add_0_r. unfold good, opaque.
       rewrite Ht. split_and!; [done|done|intros j ? ?; lia|by rewrite app_nil_r]. }
  destruct (play_file_eq (buffer d) st) as (Hr & Hf & Hm).
  destruct (play_file (buffer d) st) as [ret st1]. simpl in *.
  pose proof (event_cb_done st1) as [Hm1 Hf1]. fold n in Hr.
  destruct (playable (media_of n (buffer d)) gui) eqn:Hp; subst ret; simpl.
  2: { right. split_and!; [done|by rewrite Hm1, Hm|]. exists 0%nat, d. rewrite Nat.add_0_r.
       unfold good, opaque. rewrite Ht, Hp. split_and!; [done|done|intros j ? ?; lia|].
       by rewrite Hf1, Hf. }
  assert (good n d = true) as Hg by (unfold good, opaque; by rewrite Ht, Hp).
  specialize (IH st1). destruct (play_files info true st1) as [ret st'].
  rewrite Hf, length_app, Hm in IH. simpl in IH. fold n in IH.
  destruct IH as [(-> & Hgood & Hf' & Hm')|(-> & Hm' & i & d' & Hi & Hbad & Hgood & Hf')].
  - left. split_and!; [done| |by rewrite Hf', <- app_assoc|done].
    intros [|i] d'' Hl; [by simplify_eq/=; rewrite Nat.add_0_r|].
    replace (n + S i)%nat with (n + 1 + i)%nat by lia. by apply Hgood.
  - right. split_and!; [done..|]. exists (S i), d'. split_and!; [done| | |].
    + by replace (n + S i)%nat with (n + 1 + i)%nat by lia.
    + intros [|j] d'' Hj Hl; [by simplify_eq/=; rewrite Nat.add_0_r|].
      replace (n + S j)%nat with (n + 1 + j)%nat by lia. apply Hgood; [lia|done].
    + rewrite Hf', <- app_assoc. by destruct (opaque d').
Qed.

Lemma enable_dlls_same st :
  a_files (enable_dlls st).2 = a_files st ∧ a_msgs (enable_dlls st).2 = a_msgs st.
Proof.
  unfold enable_dlls. destruct (_ =? 0); [|done].
  destruct (luat_load_ffmpeg_dlls _) as [r f]. by destruct (_ =? 0), st.
Qed.

(** Once the libraries are there, playing a list posts exactly one
    end-of-playback message, whatever the entries are and whatever fails.  Without
    [error_stop] every path is played, in order, and the result is 0.  With it the
    result is 0 when all entries are paths that play; otherwise it is -1 and the
    playing ended at the first entry that is no path or does not play, the latter
    having been tried. *)
Theorem play_multi_files_done id info error_stop st :
  (enable_dlls st).1 = true →
  let n := length (a_files st) in
  let '(r, st') := luat_audio_play_multi_files id info error_stop st in
  a_msgs st' = a_msgs st ++ [audio_done] ∧
  (error_stop = false → r = 0 ∧ a_files st' = a_files st ++ (buffer <$> filter opaque info)) ∧
  (error_stop = true →
     (r = 0 ∧ (∀ i d, info !! i = Some d → good (n + i) d = true) ∧
      a_files st' = a_files st ++ (buffer <$> info)) ∨
     (r = -1 ∧ ∃ i d, info !! i = Some d ∧ good (n + i) d = false ∧
        (∀ j d', (j < i)%nat → info !! j = Some d' → good (n + j) d' = true) ∧
        a_files st' = a_files st ++ (buffer <$> take (if opaque d then S i else i) info))).
Proof.
  intros He n. unfold luat_audio_play_multi_files.
  pose proof (enable_dlls_same st) as [Hf Hm]. destruct (enable_dlls st) as [ok st0].
  simpl in *. subst ok n. rewrite <- Hf, <- Hm. clear Hf Hm. simpl. destruct error_stop.
  - pose proof (play_files_until info st0) as Hu. simpl in Hu.
    destruct (play_files info true st0) as [ret st1].
    destruct Hu as [(-> & Hg & Hf & Hm)|(-> & Hm & Hex)].
    + destruct (event_cb_done st1) as [-> ->]. rewrite Hm. split_and!; [done..|]. intros _. by left.
    + split_and!; [done..|]. intros _. by right.
  - destruct (play_files_all info st0) as (Hr & Hf & Hm).
    destruct (play_files info false st0) as [ret st1]. simpl in *. subst ret.
    destruct (event_cb_done st1) as [-> ->]. rewrite Hm. by split_and!.
Qed.

(** ** The libraries while playing is enabled *)

Inductive audio_op : Type :=
  | OpPlayFiles (id : Z) (info : list uData) (error_stop : bool)
  | OpPlayFile (id : Z) (path : list Z)
  | OpStop (id : Z)
  | OpVol (id vol : Z) | OpMicVol (id vol : Z)
  | OpConfigPa (id pin level dummy delay : Z) | OpConfigDac (id pin level delay : Z)
  | OpDebug (level : Z).

Definition audio_step (st : audio) (o : audio_op) : audio :=
  match o with
  | OpPlayFiles id info stop => (luat_audio_play_multi_files id info stop st).2
  | OpPlayFile id path => (luat_audio_play_file id path st).2
  | OpStop id => (luat_audio_stop_raw id st).2
  | OpVol id vol => (luat_audio_vol id vol st).2
  | OpMicVol id vol => (luat_audio_mic_vol id vol st).2
  | OpConfigPa id pin level dummy delay => luat_audio_config_pa id pin level dummy delay st
  | OpConfigDac id pin level delay => luat_audio_config_dac id pin level delay st
  | OpDebug level => set_ff (luat_ffmpeg_set_debug level (ff st)) (luat_audio_dll_enable st) st
  end.

Definition enabled_resident (st : audio) : Prop :=
  windows = true → luat_audio_dll_enable st ≠ 0 → resident (ff st).

Lemma play_files_ff info error_stop : ∀ st,
  ff (play_files info error_stop st).2 = ff st ∧
  luat_audio_dll_enable (play_files info error_stop st).2 = luat_audio_dll_enable st.
Proof.
  assert (∀ ev st, ff (luat_audio_event_cb ev st) = ff st ∧
    luat_audio_dll_enable (luat_audio_event_cb ev st) = luat_audio_dll_enable st) as Hcb.
  { intros ev []. unfold luat_audio_event_cb. by destruct (_ =? _). }
  assert (∀ path st, ff (play_file path st).2 = ff st ∧
    luat_audio_dll_enable (play_file path st).2 = luat_audio_dll_enable st) as Hpf by by intros ? [].
  induction info as [|d info IH]; intros st; simpl; [done|].
  destruct (_ =? UDATA_TYPE_OPAQUE).
  - destruct (Hpf (buffer d) st) as [<- <-]. destruct (play_file (buffer d) st) as [ret st1].
    destruct (_ && _); [apply Hcb|apply IH].
  - destruct error_stop; [apply Hcb|apply IH].
Qed.

Lemma play_multi_resident id info error_stop st :
  enabled_resident st → enabled_resident (luat_audio_play_multi_files id info error_stop st).2.
Proof.
  intros Hst. unfold luat_audio_play_multi_files, enable_dlls.
  assert (∀ st1, enabled_resident st1 →
    enabled_resident (let '(ret, st) := play_files info error_stop st1 in
      match ret with
      | Some r => (r, st)
      | None => (0, luat_audio_event_cb LUAT_MULTIMEDIA_CB_AUDIO_DONE st)
      end).2) as Hgo.
  { intros st1 H1'. destruct (play_files_ff info error_stop st1) as [Hf He].
    destruct (play_files info error_stop st1) as [[r|] st2]; simpl in *;
      unfold enabled_resident in *; [by rewrite Hf, He|].
    destruct st2. simpl in *. subst. by destruct (_ =? _). }
  destruct (_ =? 0) eqn:Hen; [|by apply Hgo].
  pose proof (load_dlls_resident (ff st)) as Hl.
  destruct (luat_load_ffmpeg_dlls (ff st)) as [r f]. destruct (Z.eqb_spec r 0) as [->|].
  - apply Hgo. intros Hw _. destruct st. by apply Hl.
  - intros Hw He. by destruct st.
Qed.

(** On Windows, whatever is played, stopped and configured in
    whatever order: while the driver's flag says the libraries are enabled, all
    four are loaded, with a reference the loader counts, and every one of the 29
    function pointers the player calls points into the library it belongs to. *)
Theorem audio_libraries_resident ops st :
  enabled_resident st → enabled_resident (foldl audio_step st ops).
Proof.
  revert st. induction ops as [|o ops IH]; intros st Hst; simpl; [done|]. apply IH.
  destruct o; simpl.
  - by apply play_multi_resident.
  - by apply play_multi_resident.
  - intros Hw. rewrite Hw. by destruct st.
  - unfold luat_audio_vol, configure. destruct st. simpl. by destruct (has_config _).
  - unfold luat_audio_mic_vol, configure. destruct st. simpl. by destruct (has_config _).
  - unfold luat_audio_config_pa, configure. destruct st. by destruct (has_config _).
  - unfold luat_audio_config_dac, configure. destruct st. by destruct (has_config _).
  - intros Hw He. destruct st as [[] ? ? ? ? ?]. destruct (Hst Hw He) as [Hl Hr]. split.
    + intros l. specialize (Hl l). by destruct l.
    + eapply Forall_impl; [exact Hr|]. by intros [[] ?] [??].
Qed.

End Driver.

(** ** Witnesses *)

(** A loader that finds every library in the second directory: handles tell the
    names apart by their length. *)
Definition exe_loader : Loader := {|
  GetModuleFileNameA := Some (bytes "C:\soc\luatos.exe");
  find_module := λ _ path,
    if (Z.of_nat (length path) <? 25) then Z.of_nat (length path) else 0;
  GetProcAddress := λ h _, h + 1;
|}.

Definition some_core : AudioCore := {|
  LUAT_MULTIMEDIA_CB_AUDIO_DONE := 4; LUAT_AUDIO_BUS_I2S := 1; UDATA_TYPE_OPAQUE := 7;
  conf_store := λ _ v, v;
|}.

(** A file that plays when its path is not empty. *)
Definition some_media (n : nat) (path : list Z) : media :=
  Media (if bool_decide (path = []) then -1 else 0) 0 0 true true 0 0 true 0 true true 0 2
    [PacketAns 0 0 [FrameAns 0 1024; FrameAns 0 1024]] 1.

Lemma play_multi_files_done_witness :
  let E := @enable_dlls windows32 exe_loader audio_init in
  let list := [UData 7 (bytes "/a.mp3"); UData 3 []; UData 7 (bytes "/b.mp3")] in
  let play := @luat_audio_play_multi_files windows32 exe_loader some_core true some_media 0 list in
  E.1 = true ∧
  (play true audio_init).1 = -1 ∧ a_files (play true audio_init).2 = [bytes "/a.mp3"] ∧
  a_msgs (play true audio_init).2 = [@audio_done some_core] ∧
  (play false audio_init).1 = 0.
Proof.
  assert ((@enable_dlls windows32 exe_loader audio_init).1 = true) as He by reflexivity.
  pose proof (@play_multi_files_done windows32 exe_loader some_core true some_media 0
    [UData 7 (bytes "/a.mp3"); UData 3 []; UData 7 (bytes "/b.mp3")] true audio_init He) as H1.
  pose proof (@play_multi_files_done windows32 exe_loader some_core true some_media 0
    [UData 7 (bytes "/a.mp3"); UData 3 []; UData 7 (bytes "/b.mp3")] false audio_init He) as H2.
  vm_compute in H1, H2. destruct H1 as [H1 _], H2 as (_ & H2 & _).
  split_and!; [exact He|vm_compute; reflexivity..|exact H1|exact (proj1 (H2 eq_refl))].
Defined.

Lemma audio_libraries_resident_witness :
  let st := @audio_step windows32 exe_loader some_core true some_media audio_init
              (OpPlayFile 0 (bytes "/a.mp3")) in
  luat_audio_dll_enable st = 1 ∧ @enabled_resident windows32 exe_loader st.
Proof.
  split; [vm_compute; reflexivity|].
  apply (@audio_libraries_resident windows32 exe_loader some_core true some_media
           [OpPlayFile 0 (bytes "/a.mp3")] audio_init).
  intros _ He. by destruct He.
Defined.

(** ** What the handles that are never reset do *)

(** Stopping twice releases every library twice: here another user of the library
    loses its reference. *)
Lemma stop_twice_releases_twice :
  let st1 := (@luat_audio_play_file windows32 exe_loader some_core true some_media 0
                (bytes "/a.mp3") audio_init).2 in
  let st2 := set_ff (@LoadLibraryA exe_loader (bytes "C:\soc\avutil-56.dll") (ff st1)).2 1 st1 in
  let stop st := (@luat_audio_stop_raw windows32 0 st).2 in
  let h := h_avutil (ff st2) in
  refs_of h (ff st2) = 2%nat ∧ refs_of h (ff (stop st2)) = 1%nat ∧
  refs_of h (ff (stop (stop st2))) = 0%nat.
Proof. vm_compute. done. Qed.

(** A loader without the last library. *)
Definition no_avformat : Loader := {|
  GetModuleFileNameA := Some (bytes "C:\soc\luatos.exe");
  find_module := λ _ path,
    if (Z.of_nat (length path) =? 22) then 0
    else if (Z.of_nat (length path) <? 25) then Z.of_nat (length path) else 0;
  GetProcAddress := λ h _, h + 1;
|}.

(** A failed load keeps what it loaded, and each attempt to play adds references. *)
Lemma failed_load_keeps :
  let play st := (@luat_audio_play_file windows32 no_avformat some_core true some_media 0
                    (bytes "/a.mp3") st) in
  let st := (play (play audio_init).2).2 in
  (play audio_init).1 = -1 ∧ luat_audio_dll_enable st = 0 ∧ a_msgs st = [] ∧
  refs_of (h_avutil (ff st)) (ff st) = 2%nat.
Proof. vm_compute. done. Qed.
