(* ===== verification/WinHost.v ===== *)
(** * The Windows host: port/luat_console_win32.c and port/uart/uart_drv_win32.c

    The console is switched to UTF-8 in a way that depends on the program that
    started the simulator; real serial ports are reached through a vendor library
    loaded at run time, as one more driver of the serial ports ([Uart]). *)

From stdpp Require Import strings.
From S2P Require Import Prelude Uart.

(** ** The console *)

(** What Windows answers: whether there is an output handle, its mode if it is a
    console, the code page, the processes with their parents if a snapshot can be
    taken, our own process, and of a process whether it can be opened and the file
    it runs. *)
Class Console : Type := {
  stdout_valid : bool;
  GetConsoleMode : option Z;
  GetConsoleOutputCP : Z;
  snapshot : option (list (Z * Z));
  GetCurrentProcessId : Z;
  OpenProcess : Z → bool;
  process_file : Z → option (list Z);
}.

Inductive con_call : Type :=
  | CreateSnapshot | CloseSnapshot
  | OpenParent (pid : Z) | CloseParent (pid : Z)
  | RunCommand (s : string)
  | SetOutputCP (cp : Z) | SetCP (cp : Z)
  | SetEnvironment (name value : string)
  | SetConsoleMode (mode : Z).

#[global] Instance con_call_eq_dec : EqDecision con_call.
Proof. solve_decision. Defined.

Definition UTF8 : Z := 65001.
Definition ENABLE_VIRTUAL_TERMINAL_PROCESSING : Z := 4.

(** The loop over the processes: the parent of the first entry that is ours. *)
Fixpoint parent_of (pid : Z) (ps : list (Z * Z)) : Z :=
  match ps with
  | [] => 0
  | (id, parent) :: ps => if id =? pid then parent else parent_of pid ps
  end.

Definition to_lower (c : Z) : Z := if (65 <=? c) && (c <=? 90) then c + 32 else c.

(** What is done for a parent with this file name. *)
Definition set_for_parent (name : list Z) : list con_call :=
  if strstr name (bytes "cmd.exe") then [RunCommand "chcp 65001 >nul 2>&1"]
  else if strstr name (bytes "powershell.exe") || strstr name (bytes "pwsh.exe")
  then [SetOutputCP UTF8; SetCP UTF8; SetEnvironment "PYTHONIOENCODING" "utf-8"]
  else [SetOutputCP UTF8; SetCP UTF8].

Section Console.
Context `{Console}.

(** The inner part, for a parent that could be opened. *)
Definition parent_encoding (pid : Z) : list con_call :=
  match process_file pid with
  | None => []
  | Some path =>
      match strrchr path 92 with
      | None => []
      | Some (_, name) => set_for_parent (map to_lower name)
      end
  end.

Definition parent_block (pid : Z) : list con_call :=
  if pid =? 0 then []
  else if OpenProcess pid then OpenParent pid :: parent_encoding pid ++ [CloseParent pid] else [].

Definition luat_console_auto_encoding : list con_call :=
  if negb stdout_valid then []
  else
    match GetConsoleMode with
    | None => []
    | Some mode =>
        let vt := SetConsoleMode (Z.lor mode ENABLE_VIRTUAL_TERMINAL_PROCESSING) in
        if GetConsoleOutputCP =? UTF8 then [vt]
        else
          match snapshot with
          | Some ps =>
              CreateSnapshot :: parent_block (parent_of GetCurrentProcessId ps) ++ [CloseSnapshot; vt]
          | None => [SetOutputCP UTF8; SetCP UTF8; vt]
          end
    end.

(** *** What it promises *)

(** How often a call is made. *)
Definition calls (c : con_call) (l : list con_call) : nat := length (filter (λ d, d = c) l).

(** A call that switches the output to UTF-8. *)
Definition switches (c : con_call) : bool :=
  match c with
  | SetOutputCP cp => cp =? UTF8
  | RunCommand s => bool_decide (s = "chcp 65001 >nul 2>&1"%string)
  | _ => false
  end.

(** Whether the parent can be recognised. *)
Definition parent_known : bool :=
  match snapshot with
  | None => true
  | Some ps =>
      let pid := parent_of GetCurrentProcessId ps in
      negb (pid =? 0) && OpenProcess pid &&
      match process_file pid with
      | None => false
      | Some path => if strrchr path 92 is Some _ then true else false
      end
  end.

(** The calls that open and close. *)
Definition opens (c : con_call) : bool :=
  match c with CreateSnapshot | CloseSnapshot | OpenParent _ | CloseParent _ => true | _ => false end.

Lemma con_calls_app c l1 l2 : calls c (l1 ++ l2) = (calls c l1 + calls c l2)%nat.
Proof. unfold calls. by rewrite filter_app, length_app. Qed.

Lemma calls_none c l : opens c = true → forallb (λ d, negb (opens d)) l = true → calls c l = 0%nat.
Proof.
  intros Hc. unfold calls. induction l as [|d l IH]; simpl; [done|].
  intros [Hd Hl]%andb_true_iff. rewrite filter_cons, decide_False; [by apply IH|].
  intros ->. by rewrite Hc in Hd.
Qed.

Lemma parent_encoding_plain pid : forallb (λ d, negb (opens d)) (parent_encoding pid) = true.
Proof.
  unfold parent_encoding. destruct (process_file pid) as [path|]; [|done].
  destruct (strrchr path 92) as [ [? name]|]; [|done]. unfold set_for_parent.
  by destruct (strstr _ _); [|destruct (_ || _)].
Qed.

Lemma parent_block_balanced pid p :
  calls (OpenParent p) (parent_block pid) = calls (CloseParent p) (parent_block pid) ∧
  calls CreateSnapshot (parent_block pid) = 0%nat ∧ calls CloseSnapshot (parent_block pid) = 0%nat.
Proof.
  unfold parent_block. destruct (pid =? 0); [done|]. destruct (OpenProcess pid); [|done].
  change (OpenParent pid :: ?l) with ([OpenParent pid] ++ l).
  rewrite !con_calls_app, !(calls_none _ (parent_encoding pid)) by (done || apply parent_encoding_plain).
  unfold calls. rewrite !filter_cons, !filter_nil.
  by destruct (decide (pid = p)) as [->|]; repeat case_decide; simplify_eq.
Qed.

Lemma parent_block_switches pid :
  existsb switches (parent_block pid) =
  negb (pid =? 0) && OpenProcess pid &&
  match process_file pid with
  | None => false
  | Some path => if strrchr path 92 is Some _ then true else false
  end.
Proof.
  unfold parent_block, parent_encoding. destruct (pid =? 0); [done|].
  destruct (OpenProcess pid); [|done]. cbn [existsb switches orb negb andb].
  rewrite existsb_app, orb_false_r. destruct (process_file pid) as [path|]; [|done].
  destruct (strrchr path 92) as [ [? name]|]; [|done]. unfold set_for_parent.
  by destruct (strstr _ _); [|destruct (_ || _)].
Qed.

(** Whatever Windows answers: every handle that is opened is closed
    again, as often as it was opened; on a console the last call enables terminal
    sequences in the mode that was found; and a console that is not on UTF-8 is
    switched to it when the program that started the simulator can be found,
    opened and named, or no process list can be had at all.  For an unknown
    parent it stays as it is. *)
Theorem console_encoding_safe :
  let l := luat_console_auto_encoding in
  (∀ p, calls (OpenParent p) l = calls (CloseParent p) l) ∧
  calls CreateSnapshot l = calls CloseSnapshot l ∧
  match GetConsoleMode with
  | Some mode => stdout_valid = true →
      last l = Some (SetConsoleMode (Z.lor mode 4)) ∧
      (GetConsoleOutputCP ≠ UTF8 → existsb switches l = parent_known)
  | None => l = []
  end.
Proof.
  unfold luat_console_auto_encoding, parent_known. destruct stdout_valid; [|by destruct GetConsoleMode].
  destruct GetConsoleMode as [mode|]; [|done]. cbn [negb].
  destruct (Z.eqb_spec GetConsoleOutputCP UTF8); [by split_and!|].
  destruct snapshot as [ps|]; [|by split_and!].
  change (CreateSnapshot :: ?l) with ([CreateSnapshot] ++ l).
  set (b := parent_block _). set (pid := parent_of _ _) in *. split_and!.
  - intros p. rewrite !con_calls_app. destruct (parent_block_balanced pid p) as (E & _). fold b in E.
    rewrite E. done.
  - rewrite !con_calls_app. destruct (parent_block_balanced pid 0) as (_ & E1 & E2). fold b in E1, E2.
    by rewrite E1, E2.
  - intros _. split.
    + by rewrite app_assoc, last_app.
    + intros _. rewrite !existsb_app, orb_false_r. apply parent_block_switches.
Qed.

End Console.

(** A console started from a shell whose name is in capitals. *)
Definition cmd_console : Console := {|
  stdout_valid := true; GetConsoleMode := Some 3; GetConsoleOutputCP := 936;
  snapshot := Some [(4, 0); (77, 42)]; GetCurrentProcessId := 77;
  OpenProcess p := p =? 42; process_file p := Some (bytes "C:\Windows\System32\CMD.EXE");
|}.

Lemma console_encoding_safe_witness :
  @luat_console_auto_encoding cmd_console =
    [CreateSnapshot; OpenParent 42; RunCommand "chcp 65001 >nul 2>&1"; CloseParent 42;
     CloseSnapshot; SetConsoleMode 7] ∧
  existsb switches (@luat_console_auto_encoding cmd_console) = @parent_known cmd_console.
Proof.
  split; [by vm_compute|].
  destruct (@console_encoding_safe cmd_console) as (_ & _ & Hc).
  apply Hc; [reflexivity|by vm_compute].
Defined.

(** ** The serial ports *)

(** The vendor library: whether Windows finds it, the functions it exports, and
    what they answer.  A port's configuration is what [luat_uart_t] says. *)
Record uart_conf : Type := UartConf {
  baud_rate : Z; data_bits : Z; stop_bits : Z; parity : Z;
}.

Class UartDll : Type := {
  uart_dll_found : string → bool;
  uart_exports : string → bool;
  luat_uart_exist_extern : Z → Z;
  luat_uart_open_extern : Z → uart_conf → Z;
  luat_uart_close_extern : Z → Z;
  luat_uart_read_extern : Z → Z → Z * list Z;
  luat_uart_send_extern : Z → list Z → Z;
  luat_uart_recv_cb_extern : Z → Z;
}.

Section Win32Uart.
Context `{UartDll} (conf_of : Z → uart_conf).

(** The result, with the pointers that were filled. *)
Definition luat_uart_initial_win32 : Z * (string → bool) :=
  if uart_dll_found "luat_uart_i686.dll" then (0, uart_exports) else (-1, λ _, false).

Context (ptrs : string → bool).

(** A call through one of the pointers. *)
Definition through {A} (name : string) (a : A) : res A :=
  if ptrs name then Ok a else Fault NullDeref.

Definition uart_setup_win32 (id : Z) (st : uart_state) : res (Z * uart_state) :=
  ret ← through "luat_uart_open_extern" (luat_uart_open_extern id (conf_of id));
  if ret =? 0 then
    _ ← through "luat_uart_recv_cb_extern" (luat_uart_recv_cb_extern id);
    Ok (ret, st)
  else Ok (ret, st).

(** What is sent is recorded as for the other drivers. *)
Definition uart_write_win32 (id : Z) (data : list Z) (length : Z) (st : uart_state)
    : res (Z * uart_state) :=
  d ← load data 0 (Z.to_nat length);
  ret ← through "luat_uart_send_extern" (luat_uart_send_extern id d);
  Ok (ret, UartState (udps st) (u_sent st ++ [(id, d)]) (u_msgs st)).

Definition uart_read_win32 (id length : Z) (st : uart_state) : res (Z * list Z * uart_state) :=
  '(ret, d) ← through "luat_uart_read_extern" (luat_uart_read_extern id length);
  Ok (ret, d, st).

Definition uart_close_win32 (id : Z) (st : uart_state) : res (Z * uart_state) :=
  ret ← through "luat_uart_close_extern" (luat_uart_close_extern id);
  Ok (ret, st).

(** The library's callback, from a thread of its own. *)
Definition luat_uart_recv_cb (id len : Z) (st : uart_state) : uart_state :=
  UartState (udps st) (u_sent st) (u_msgs st ++ [RtosMsg "l_uart_handler" 0 id len]).

(** The static one of this file; it is not called. *)
Definition luat_setup_cb_win32 (id received sent : Z) : res Z :=
  e ← through "luat_uart_exist_extern" (luat_uart_exist_extern id);
  if e =? 0 then Ok (-1)
  else if negb (received =? 0) then
    through "luat_uart_recv_cb_extern" (luat_uart_recv_cb_extern id)
  else if negb (sent =? 0) then Ok 1
  else Ok 0.

Definition uart_win32 : luat_uart_drv_opts := {|
  drv_setup := uart_setup_win32; drv_write := uart_write_win32;
  drv_read := uart_read_win32; drv_close := uart_close_win32;
|}.

End Win32Uart.
