(* ===== verification/Boot.v ===== *)
(** * Start-up: src/main_mini.c, port/luat_pcconf_pc.c, port/luat_fs_mini.c,
      port/luat_base_mini.c

    The simulator sets up the heaps, the console, the event loop, the serial ports
    and the file systems, takes the script image from the program itself or from
    the command line ([Cmds]), and runs the Lua core.  What start-up does to parts
    outside the sources is a list of events; the Lua core is one of them. *)

From stdpp Require Import strings.
From S2P Require Import Prelude Luadb2 Cmds CmdsProofs Fskv Mock Uart WinHost.

#[global] Instance cmd_outcome_eq_dec : EqDecision cmd_outcome.
Proof. solve_decision. Defined.

(** ** Events *)

(** [busname] of a mount: nothing, a script image, or the static littlefs. *)
Inductive bus : Type := NoBus | ImageBus (image : list Z) | LfsBus.

Record luat_fs_conf : Type := FsConf {
  busname : bus; fs_type : string; filesystem : string; mount_point : string;
}.

Inductive event : Type :=
  | HeapOptInit (heap : string) | ConsoleCall (c : con_call)
  | LoopInit | ClockStart | TimerLockInit
  | PoolInit (size : Z) | LvInit
  | VfsInit | VfsReg (fs : string) | FsMount (conf : luat_fs_conf) | LvglFs (part : string)
  | NetworkInit
  | TimerArm (callback : string) (timeout repeat : Z) | LwipInit
  | LuaMain (argc : Z) (argv : list (list Z)) | LuatMain (image : option (list Z))
  | LoopClose | LoopFree
  | MsgbusInit | Requiref (name openf : string)
  | Mdelay (ms : Z) | UvClose (handle : Z) | HeapFree (ptr : Z).

(** The compile-time switches that matter here. *)
Record build : Type := Build {
  use_lvgl : bool; use_lvgl_bmp : bool; use_lvgl_png : bool; use_lvgl_jpg : bool;
  use_lwip : bool; use_mockapi : bool;
}.

Section Boot.
Context `{Platform, HeapOps, UartDll, Console} (cfg : build) (conf_of : Z → uart_conf).
Context {L F : Type} `{Lfs L F}.

(** ** File systems (luat_fs_mini.c) *)

Definition lvgl_fs_init : list event :=
  LvglFs "luat_lv_fs_init" ::
  (if use_lvgl_bmp cfg then [LvglFs "lv_bmp_init"] else []) ++
  (if use_lvgl_png cfg then [LvglFs "lv_png_init"] else []) ++
  (if use_lvgl_jpg cfg then [LvglFs "lv_split_jpeg_init"] else []).

Definition pc_lfs2_mount (l : L) : list event * L :=
  let mounted := [FsMount (FsConf LfsBus "lfs2" "lfs2" "/lfs2/")] in
  let '(ret, l) := lfs_mount l in
  if negb (ret =? 0) then
    let '(_, l) := lfs_format l in
    let '(ret, l) := lfs_mount l in
    if negb (ret =? 0) then ([], l) else (mounted, l)
  else (mounted, l).

Definition luat_fs_init (luadb_ptr : option (list Z)) (l : L) : list event * L :=
  let '(lfs2, l) := pc_lfs2_mount l in
  ([VfsInit; VfsReg "posix"; VfsReg "luadb"; VfsReg "ram"; VfsReg "lfs2";
    FsMount (FsConf NoBus "posix" "posix" "");
    FsMount (FsConf NoBus "ram" "ram" "/ram/")] ++
   (match luadb_ptr with
    | Some ptr => [FsMount (FsConf (ImageBus ptr) "luadb" "luadb" "/luadb/")]
    | None => []
    end) ++ lfs2 ++ (if use_lvgl cfg then lvgl_fs_init else []), l).

(** ** Configuration (luat_pcconf_pc.c) *)

(** The driver of all 128 serial ports. *)
Definition luat_pcconf_init (malloc_ok : bool) : list (option luat_uart_drv_opts) :=
  let udp := replicate 128 (Some (uart_udp malloc_ok)) in
  if windows then
    let '(r, ptrs) := luat_uart_initial_win32 in
    if r =? 0 then replicate 128 (Some (uart_win32 conf_of ptrs)) else udp
  else udp.

Definition luat_pcconf_save : unit := ().

(** ** The program (main_mini.c) *)

Definition LUAT_HEAP_SIZE : Z := 2 * 1024 * 1024.

Definition luatdb_secret : list Z :=
  [0xa8; 0xe4; 0x9c; 0x1a; 0x57; 0x4b; 0x00; 0x2f; 0x4c; 0xc4; 0x74; 0xb8; 0x69; 0x1d; 0x90; 0xc1;
   0x84; 0x24; 0x16; 0x11; 0x79; 0xa2; 0xd0; 0x4b; 0xfc; 0xf5; 0x14; 0x5d; 0xdd; 0x54; 0xdd; 0x55].

(** The globals at the end, with the outcome and the dumped file. *)
Record boot : Type := Boot {
  b_outcome : cmd_outcome;
  b_events : list event;
  b_cmd : cmd_state;
  cmdline_argc : Z;
  luatos_pc_climode : Z;
  uart_drvs : list (option luat_uart_drv_opts);
  b_lfs : L;
  b_dump : option (list Z * list Z);
}.

Definition uv_luat_main (argc : Z) (argv : list (list Z)) (luadb_ptr : option (list Z))
    : Z * list event :=
  if argc =? 1 then (1, [LuaMain argc argv]) else (0, [LuatMain luadb_ptr]).

(** Up to the choice of the image. *)
Definition main_init (l : L) : list event * L :=
  let '(fs, l) := luat_fs_init None l in
  ([HeapOptInit "LUAT_HEAP_SRAM"] ++
   (if windows then ConsoleCall <$> luat_console_auto_encoding else []) ++
   [LoopInit; ClockStart; TimerLockInit; PoolInit LUAT_HEAP_SIZE; HeapOptInit "LUAT_HEAP_PSRAM"] ++
   (if use_lvgl cfg then [LvInit] else []) ++ fs ++ [NetworkInit], l).

(** From the timers on. *)
Definition main_run (argc : Z) (argv : list (list Z)) (luadb_ptr : option (list Z))
    : Z * list event :=
  let '(cli, run) := uv_luat_main argc argv luadb_ptr in
  (cli,
   (if use_lvgl cfg then [TimerArm "lvgl_timer_cb" 25 25] else []) ++
   (if use_lwip cfg then [LwipInit; TimerArm "timer_lwip" 5 5] else [TimerArm "timer_nop" 1000 1000]) ++
   run ++ [LoopClose; LoopFree]).

(** The rest of the world, as [luat_cmd_parse] takes it. *)
Context `{LuaApi} (w : world) (luac : list Z → list Z → lua_result) (mock_init : list Z → Z)
  (re : report_env).
(** The array linked into the program. *)
Context (luadb_mod : list Z).

Definition main (loop_ok malloc_ok dump_ok : bool) (argv : list (list Z)) (l : L) : res boot :=
  if negb loop_ok then Fault NullDeref (* uv_loop_init(NULL) *)
  else
    let drvs := luat_pcconf_init malloc_ok in
    let '(init, l) := main_init l in
    let argc := Z.of_nat (length argv) in
    head ← load luadb_mod 0 32;
    if bool_decide (luatdb_secret = head) then
      let st := set_luadb (luadb_ctx cmd_init) (Some (drop 32 luadb_mod)) cmd_init in
      let '(cli, run) := main_run 2 argv (luadb_ptr st) in
      Ok (Boot (Returned 0) (init ++ run) st 2 cli drvs l None)
    else
      '(out, dump, st) ← luat_cmd_parse w luac mock_init re argv dump_ok cmd_init;
      match out with
      | Exited code => Ok (Boot (Exited code) init st argc 0 drvs l dump)
      | Returned ret =>
          if negb (ret =? 0) then Ok (Boot (Returned ret) init st argc 0 drvs l dump)
          else
            let '(cli, run) := main_run argc argv (luadb_ptr st) in
            Ok (Boot (Returned 0) (init ++ run) st argc cli drvs l dump)
      end.

(** [timer_lwip] of the loop runs the stack's timeouts; [timer_nop] only keeps the
    loop alive. *)

(** ** The system interface (luat_base_mini.c) *)

(** [loadedlibs]: the switch an entry depends on, the library's name and the
    function that opens it. *)
Definition all_libs : list (option string * string * string) :=
  [(None, "_G", "luaopen_base");
   (None, "package", "luaopen_package");
   (None, "coroutine", "luaopen_coroutine");
   (None, "table", "luaopen_table");
   (None, "io", "luaopen_io");
   (None, "os", "luaopen_os");
   (None, "string", "luaopen_string");
   (None, "math", "luaopen_math");
   (None, "utf8", "luaopen_utf8");
   (None, "debug", "luaopen_debug");
   (Some "LUA_COMPAT_BITLIB", "bit32", "luaopen_bit32");
   (Some "LUAT_USE_UART", "uart", "luaopen_uart");
   (Some "LUAT_USE_GPIO", "gpio", "luaopen_gpio");
   (Some "LUAT_USE_I2C", "i2c", "luaopen_i2c");
   (Some "LUAT_USE_SPI", "spi", "luaopen_spi");
   (Some "LUAT_USE_I2S", "i2s", "luaopen_i2s");
   (Some "LUAT_USE_ADC", "adc", "luaopen_adc");
   (Some "LUAT_USE_PWM", "pwm", "luaopen_pwm");
   (Some "LUAT_USE_WDT", "wdt", "luaopen_wdt");
   (Some "LUAT_USE_PM", "pm", "luaopen_pm");
   (Some "LUAT_USE_MCU", "mcu", "luaopen_mcu");
   (Some "LUAT_USE_RTC", "rtc", "luaopen_rtc");
   (Some "LUAT_USE_OTP", "otp", "luaopen_otp");
   (None, "rtos", "luaopen_rtos");
   (None, "log", "luaopen_log");
   (None, "timer", "luaopen_timer");
   (None, "pack", "luaopen_pack");
   (None, "json", "luaopen_cjson");
   (None, "zbuff", "luaopen_zbuff");
   (None, "crypto", "luaopen_crypto");
   (None, "hmeta", "luaopen_hmeta");
   (Some "LUAT_USE_RSA", "rsa", "luaopen_rsa");
   (Some "LUAT_USE_MINIZ", "miniz", "luaopen_miniz");
   (Some "LUAT_USE_PROTOBUF", "protobuf", "luaopen_protobuf");
   (Some "LUAT_USE_IOTAUTH", "iotauth", "luaopen_iotauth");
   (Some "LUAT_USE_ICONV", "iconv", "luaopen_iconv");
   (Some "LUAT_USE_BIT64", "bit64", "luaopen_bit64");
   (Some "LUAT_USE_GMSSL", "gmssl", "luaopen_gmssl");
   (Some "LUAT_USE_MCU", "mcu", "luaopen_mcu");
   (Some "LUAT_USE_LIBGNSS", "libgnss", "luaopen_libgnss");
   (Some "LUAT_USE_FFT", "fft", "luaopen_fft");
   (Some "LUAT_USE_FS", "fs", "luaopen_fs");
   (Some "LUAT_USE_FSKV", "fskv", "luaopen_fskv");
   (Some "LUAT_USE_MQTTCORE", "mqttcore", "luaopen_mqttcore");
   (Some "LUAT_USE_LIBCOAP", "libcoap", "luaopen_libcoap");
   (Some "LUAT_USE_YMODEM", "ymodem", "luaopen_ymodem");
   (Some "LUAT_USE_FASTLZ", "fastlz", "luaopen_fastlz");
   (Some "LUAT_USE_COREMARK", "coremark", "luaopen_coremark");
   (Some "LUAT_USE_NETWORK", "socket", "luaopen_socket_adapter");
   (Some "LUAT_USE_NETWORK", "http", "luaopen_http");
   (Some "LUAT_USE_NETWORK", "mqtt", "luaopen_mqtt");
   (Some "LUAT_USE_NETWORK", "websocket", "luaopen_websocket");
   (Some "LUAT_USE_NETWORK", "errDump", "luaopen_errdump");
   (Some "LUAT_USE_ERCOAP", "ercoap", "luaopen_ercoap");
   (Some "LUAT_USE_FONTS", "fonts", "luaopen_fonts");
   (Some "LUAT_USE_DISP", "disp", "luaopen_disp");
   (Some "LUAT_USE_U8G2", "u8g2", "luaopen_u8g2");
   (Some "LUAT_USE_EINK", "eink", "luaopen_eink");
   (Some "LUAT_USE_FATFS", "fatfs", "luaopen_fatfs");
   (Some "LUAT_USE_LVGL", "lvgl", "luaopen_lvgl");
   (Some "LUAT_USE_LCD", "lcd", "luaopen_lcd");
   (Some "LUAT_USE_GTFONT", "gtfont", "luaopen_gtfont");
   (Some "LUAT_USE_HZFONT", "hzfont", "luaopen_hzfont");
   (Some "LUAT_USE_TP", "tp", "luaopen_tp");
   (Some "LUAT_USE_AUDIO", "audio", "luaopen_multimedia_audio");
   (Some "LUAT_USE_SQLITE3", "sqlite3", "luaopen_sqlite3");
   (Some "LUAT_USE_WS2812", "ws2812", "luaopen_ws2812");
   (Some "LUAT_USE_ONEWIRE", "onewire", "luaopen_onewire");
   (Some "LUAT_USE_XXTEA", "xxtea", "luaopen_xxtea");
   (Some "LUAT_USE_ULWIP", "ulwip", "luaopen_ulwip");
   (Some "LUAT_USE_PROFILER", "profiler", "luaopen_profiler");
   (Some "LUAT_USE_VTOOL", "vtool", "luaopen_vtool");
   (Some "LUAT_USE_AIRUI", "airui", "luaopen_airui");
   (Some "LUAT_USE_CAN", "can", "luaopen_can");
   (Some "LUAT_USE_OTP", "otp", "luaopen_otp");
   (Some "LUAT_USE_MOBILE", "mobile", "luaopen_mobile")].

(** The table of a build, given the switches that are defined. *)
Definition loadedlibs (defined : string → bool) : list (string * string) :=
  omap (λ e, let '(c, name, f) := e in
             if (match c with Some s => defined s | None => true end : bool)
             then Some (name, f) else None) all_libs.

Definition luat_openlibs (defined : string → bool) : list event :=
  MsgbusInit :: ((λ lib, Requiref lib.1 lib.2) <$> loadedlibs defined).

Definition luat_os_reboot (code : Z) : cmd_outcome := Exited code.

Definition luat_ota_reboot (timeout_ms : Z) : list event * cmd_outcome :=
  (if 0 <? timeout_ms then [Mdelay timeout_ms] else [], Exited 0).

Definition luat_os_standy (timeout : Z) : unit := ().

(** Closing a libuv handle frees it when libuv is done with it. *)
Definition on_free (ptr : Z) : list event := [HeapFree ptr].
Definition free_uv_handle (ptr : Z) : list event := if ptr =? 0 then [] else [UvClose ptr].

(** *** What start-up decides *)

(** The Lua programs that are run. *)
Definition is_run (e : event) : bool := if e is (LuaMain _ _ | LuatMain _) then true else false.
Definition runs_of (l : list event) : list event := List.filter is_run l.

Lemma runs_of_app l1 l2 : runs_of (l1 ++ l2) = runs_of l1 ++ runs_of l2.
Proof. apply List.filter_app. Qed.

Lemma fs_init_runs p l : runs_of (luat_fs_init p l).1 = [].
Proof.
  unfold luat_fs_init, pc_lfs2_mount, lvgl_fs_init.
  assert (∀ (m : list event) l', runs_of m = [] → runs_of (
    [VfsInit; VfsReg "posix"; VfsReg "luadb"; VfsReg "ram"; VfsReg "lfs2";
     FsMount (FsConf NoBus "posix" "posix" ""); FsMount (FsConf NoBus "ram" "ram" "/ram/")] ++
    match p with
    | Some ptr => [FsMount (FsConf (ImageBus ptr) "luadb" "luadb" "/luadb/")] | None => [] end ++
    m ++ (if use_lvgl cfg then lvgl_fs_init else []), l' : L).1 = []) as Hm.
  { intros m l' E. cbn [fst]. rewrite !runs_of_app, E. unfold lvgl_fs_init.
    by destruct p, (use_lvgl cfg), (use_lvgl_bmp cfg), (use_lvgl_png cfg), (use_lvgl_jpg cfg). }
  destruct (lfs_mount l) as [r l1]. destruct (negb (r =? 0)); [|by apply Hm].
  destruct (lfs_format l1) as [r1 l2]. destruct (lfs_mount l2) as [r2 l3].
  by destruct (negb (r2 =? 0)); apply Hm.
Qed.

Lemma main_init_runs l : runs_of (main_init l).1 = [].
Proof.
  unfold main_init. pose proof (fs_init_runs None l) as Hf.
  destruct (luat_fs_init None l) as [fs l']. cbn [fst] in *. rewrite !runs_of_app, Hf.
  destruct windows, (use_lvgl cfg); try reflexivity;
    by induction luat_console_auto_encoding as [|c cs IH].
Qed.

Lemma main_run_runs argc argv p :
  runs_of (main_run argc argv p).2 = (if argc =? 1 then [LuaMain argc argv] else [LuatMain p]) ∧
  (main_run argc argv p).1 = if argc =? 1 then 1 else 0.
Proof.
  unfold main_run, uv_luat_main.
  by destruct (argc =? 1), (use_lvgl cfg), (use_lwip cfg).
Qed.

(** What runs after [init] and before the end. *)
Lemma boot_events_runs argc argv p l :
  runs_of ((main_init l).1 ++ (main_run argc argv p).2)
  = if argc =? 1 then [LuaMain argc argv] else [LuatMain p].
Proof. rewrite runs_of_app, main_init_runs. apply main_run_runs. Qed.

(** The images that are mounted. *)
Definition is_image_mount (e : event) : bool :=
  if e is FsMount (FsConf (ImageBus _) _ _ _) then true else false.
Definition image_mounts (l : list event) : list event := List.filter is_image_mount l.

Lemma image_mounts_app l1 l2 : image_mounts (l1 ++ l2) = image_mounts l1 ++ image_mounts l2.
Proof. apply List.filter_app. Qed.

Lemma fs_init_no_image l : image_mounts (luat_fs_init None l).1 = [].
Proof.
  unfold luat_fs_init, pc_lfs2_mount, lvgl_fs_init.
  destruct (lfs_mount l) as [r l1]. destruct (negb (r =? 0)).
  - destruct (lfs_format l1) as [r1 l2]. destruct (lfs_mount l2) as [r2 l3].
    by destruct (negb (r2 =? 0)), (use_lvgl cfg), (use_lvgl_bmp cfg), (use_lvgl_png cfg), (use_lvgl_jpg cfg).
  - by destruct (use_lvgl cfg), (use_lvgl_bmp cfg), (use_lvgl_png cfg), (use_lvgl_jpg cfg).
Qed.

Lemma boot_events_no_image argc argv p l :
  image_mounts ((main_init l).1 ++ (main_run argc argv p).2) = [].
Proof.
  unfold main_init, main_run, uv_luat_main. pose proof (fs_init_no_image l) as Hf.
  destruct (luat_fs_init None l) as [fs l']. cbn [fst] in *.
  assert (image_mounts (ConsoleCall <$> luat_console_auto_encoding) = []) as Hc
    by (by induction luat_console_auto_encoding as [|c cs IH]).
  destruct (argc =? 1); cbn [fst snd]; rewrite !image_mounts_app, Hf;
    destruct windows, (use_lvgl cfg), (use_lwip cfg); rewrite ?Hc; reflexivity.
Qed.

(** [main] mounts no image: its file systems are set up before there is one. *)
Lemma main_mounts_no_image loop_ok malloc_ok dump_ok argv l b :
  main loop_ok malloc_ok dump_ok argv l = Ok b → image_mounts (b_events b) = [].
Proof.
  unfold main. intros E. destruct loop_ok; [|done]. cbn [negb] in E.
  pose proof (λ argc p, boot_events_no_image argc argv p l) as Hr.
  destruct (main_init l) as [init l1]. cbn [fst] in Hr. inv_res.
  assert (image_mounts init = []) as Hi.
  { specialize (Hr 1 None). rewrite image_mounts_app in Hr. by apply app_eq_nil in Hr as [? _]. }
  case_bool_decide.
  - specialize (Hr 2 (luadb_ptr (set_luadb (luadb_ctx cmd_init) (Some (drop 32 luadb_mod)) cmd_init))).
    destruct (main_run 2 argv _) as [cli run]. by injection E as <-.
  - inv_res. destruct r0 as [ [out dump] st]. destruct out as [ret|code]; [|by injection E as <-].
    destruct (negb (ret =? 0)); [by injection E as <-|].
    specialize (Hr (Z.of_nat (length argv)) (luadb_ptr st)).
    destruct (main_run _ argv _) as [cli run]. by injection E as <-.
Qed.

Definition embedded : Prop := take 32 luadb_mod = luatdb_secret.

Lemma main_embedded loop_ok malloc_ok dump_ok argv l b :
  main loop_ok malloc_ok dump_ok argv l = Ok b → embedded →
  b_outcome b = Returned 0 ∧ b_dump b = None ∧
  runs_of (b_events b) = [LuatMain (Some (drop 32 luadb_mod))].
Proof.
  unfold main, embedded. intros E He. destruct loop_ok; [|done]. cbn [negb] in E.
  pose proof (boot_events_runs 2 argv (Some (drop 32 luadb_mod)) l) as Hr.
  destruct (main_init l) as [init l1]. inv_res. apply load_inv in E0 as [E0 _]. rewrite drop_0, He in E0.
  rewrite bool_decide_eq_true_2 in E by done.
  cbn [luadb_ptr set_luadb] in E. destruct (main_run 2 argv _) as [cli run].
  injection E as <-. done.
Qed.

Lemma main_parses loop_ok malloc_ok dump_ok argv l b :
  main loop_ok malloc_ok dump_ok argv l = Ok b → ¬ embedded →
  ∃ out dump st, luat_cmd_parse w luac mock_init re argv dump_ok cmd_init = Ok (out, dump, st) ∧
    b_outcome b = out ∧ b_dump b = dump ∧ b_cmd b = st ∧
    runs_of (b_events b) =
      (if decide (out = Returned 0) then
         if Z.of_nat (length argv) =? 1 then [LuaMain 1 argv] else [LuatMain (luadb_ptr st)]
       else []).
Proof.
  unfold main, embedded. intros E He. destruct loop_ok; [|done]. cbn [negb] in E.
  pose proof (main_init_runs l) as Hi.
  pose proof (λ p, boot_events_runs (Z.of_nat (length argv)) argv p l) as Hr.
  destruct (main_init l) as [init l1]. inv_res. apply load_inv in E0 as [E0 _]. rewrite drop_0 in E0.
  rewrite bool_decide_eq_false_2 in E by (intros Heq; apply He; congruence).
  inv_res. destruct r0 as [ [out dump] st]. exists out, dump, st. split; [done|].
  destruct out as [ret|code]; [|injection E as <-; by rewrite decide_False].
  destruct (Z.eqb_spec ret 0) as [->|]; cbn [negb] in E.
  - specialize (Hr (luadb_ptr st)). destruct (main_run _ argv (luadb_ptr st)) as [cli run].
    injection E as <-. split_and!; [done..|]. rewrite decide_True by done. cbn [b_events fst snd] in *.
    rewrite Hr. by destruct (Z.eqb_spec (Z.of_nat (length argv)) 1) as [->|].
  - injection E as <-. by rewrite decide_False by congruence.
Qed.

(** What start-up decides, for any command line: a program whose
    linked image was replaced runs that image and never looks at the arguments;
    otherwise the command line is parsed, and exactly one program runs when that
    returns 0 - the interactive interpreter if there are no arguments, the image
    made from them else - and none when it fails or exits. *)
Theorem boot_decides loop_ok malloc_ok dump_ok argv l b :
  main loop_ok malloc_ok dump_ok argv l = Ok b →
  (embedded → b_outcome b = Returned 0 ∧ b_dump b = None ∧
     runs_of (b_events b) = [LuatMain (Some (drop 32 luadb_mod))]) ∧
  (¬ embedded → ∃ out dump st,
     luat_cmd_parse w luac mock_init re argv dump_ok cmd_init = Ok (out, dump, st) ∧
     b_outcome b = out ∧ b_dump b = dump ∧
     runs_of (b_events b) =
       (if decide (out = Returned 0) then
          if Z.of_nat (length argv) =? 1 then [LuaMain 1 argv] else [LuatMain (luadb_ptr st)]
        else [])).
Proof.
  intros E. split; intros He.
  - exact (main_embedded _ _ _ _ _ _ E He).
  - destruct (main_parses _ _ _ _ _ _ E He) as (out & dump & st & ? & ? & ? & ? & ?).
    by exists out, dump, st.
Qed.

(** It gets that far whenever the loop can be allocated and the parser returns. *)
Lemma main_completes malloc_ok dump_ok argv l r :
  (32 <= length luadb_mod)%nat →
  luat_cmd_parse w luac mock_init re argv dump_ok cmd_init = Ok r →
  ∃ b, main true malloc_ok dump_ok argv l = Ok b.
Proof.
  intros Hl Hp. unfold main. cbn [negb]. destruct (main_init l) as [init l1].
  rewrite load_Ok by lia. cbn [mbind res_bind].
  case_bool_decide; [by destruct (main_run _ _ _); eexists|].
  rewrite Hp. cbn [mbind res_bind]. destruct r as [ [ [ret|code] dump] st]; [|by eexists].
  destruct (negb (ret =? 0)); [by eexists|]. by destruct (main_run _ _ _); eexists.
Qed.

Lemma fs_init_mounts image l :
  FsMount (FsConf (ImageBus image) "luadb" "luadb" "/luadb/") ∈ (luat_fs_init (Some image) l).1.
Proof.
  unfold luat_fs_init. destruct (pc_lfs2_mount l) as [m l']. cbn [fst].
  apply elem_of_app. right. apply elem_of_app. left. by apply list_elem_of_singleton.
Qed.

(** C24 (functional).  From the command line to the running script: started with
    arguments that each name a readable file, the simulator runs the Lua core on
    an image from which a reader of the format gets exactly those files, compiled
    or as they are, in their order.  [main] itself mounts no image: it sets the file
    systems up before the command line is parsed, so at that time the image pointer is
    still null; a call of [luat_fs_init] made after that finds this image and mounts it at
    /luadb/.  The heap is assumed to serve every block of up to [limit] bytes, as for
    the parser. *)
Theorem boot_runs_files `{!HeapLaws} limit prog paths fs malloc_ok dump_ok l :
  (32 <= length luadb_mod)%nat → ¬ embedded →
  heap_gives limit → limit < 2 ^ sizet_bits → 1024 <= limit →
  paths ≠ [] → (length fs < 256)%nat →
  Forall2 (stored_as w luac limit 0) paths fs →
  Z.of_nat (length (luadb_image fs)) + 512 <= limit →
  ∃ b image, main true malloc_ok dump_ok (prog :: paths) l = Ok b ∧
    b_outcome b = Returned 0 ∧
    runs_of (b_events b) = [LuatMain (Some image)] ∧
    luadb_read image = Some fs ∧
    image_mounts (b_events b) = [] ∧
    ∀ l', FsMount (FsConf (ImageBus image) "luadb" "luadb" "/luadb/")
            ∈ (luat_fs_init (luadb_ptr (b_cmd b)) l').1.
Proof.
  intros Hl He Hh Hw Hlim Hne Hn Hall Hfit.
  destruct (cmd_parse_image w luac limit mock_init re prog paths fs dump_ok)
    as (st & image & Hp & Hptr & Hread); [done..|].
  destruct (main_completes malloc_ok dump_ok (prog :: paths) l _ Hl Hp) as [b Hb].
  destruct (main_parses _ _ _ _ _ _ Hb He) as (out & dump & st' & Hp' & Hout & _ & Hst & Hr).
  rewrite Hp in Hp'. simplify_eq. exists b, image.
  split; [done|]. split; [done|]. split; [|split; [done|split; [by eapply main_mounts_no_image|]]].
  - rewrite Hr, decide_True by done. destruct (Z.eqb_spec (Z.of_nat (length (prog :: paths))) 1) as [E|_];
      [|by rewrite Hptr]. destruct paths; [done|]. simpl in E. lia.
  - intros l'. rewrite Hptr. apply fs_init_mounts.
Qed.

(** The 128 serial ports after the configuration. *)
Lemma pcconf_ports malloc_ok id :
  luat_uart_exist (luat_pcconf_init malloc_ok) id =
  if (id <? 0) || (128 <=? id) then None
  else Some (if windows && uart_dll_found "luat_uart_i686.dll"
             then uart_win32 conf_of uart_exports else uart_udp malloc_ok).
Proof.
  unfold luat_uart_exist, luat_pcconf_init, luat_uart_initial_win32.
  destruct (Z.ltb_spec id 0); [done|]. destruct (Z.leb_spec 128 id); [done|]. cbn [orb].
  destruct windows; [destruct (uart_dll_found _)|];
    cbn [andb Z.eqb fst snd]; rewrite lookup_replicate_2 by lia; done.
Qed.

End Boot.

(** ** The name of the board *)

Section Bsp.
Context `{Platform} (cfg : build).
Context (mockf : list Z → list Z → mock_result) (lua_tointeger : lua_value → Z)
  (lua_int_bytes : nat) (malloc_ok : bool).

(** The text returned, with the static [bsp_name] and the mock's state. *)
Definition luat_os_bsp (bsp_name : list Z) (st : mock_state) : res (list Z * list Z * mock_state) :=
  if use_mockapi cfg then
    '(ret, resp, st) ← luat_mock_call mockf lua_tointeger lua_int_bytes malloc_ok
                         (bytes "rtos.bsp.get") [] st;
    if (ret =? 0) && (0 <? resp_len resp) && (resp_len resp <? 64) then
      d ← oget NullDeref (resp_data resp);
      d ← load d 0 (Z.to_nat (resp_len resp));
      b ← store bsp_name 0 d;
      b ← store b (Z.to_nat (resp_len resp)) [0];
      name ← c_string b;
      Ok (name, b, st)
    else Ok (bytes "PC", bsp_name, st)
  else Ok (bytes "PC", bsp_name, st).

(** Numbers arrive in their native width. *)
Definition native (v : lua_value) : Prop :=
  match v with LNumber bits => length bits = lua_int_bytes | _ => True end.

(** The response block holds as many bytes as the response counts. *)
Lemma respond_holds code v r :
  native v → mock_respond lua_tointeger lua_int_bytes malloc_ok code v = Ok r →
  0 < resp_len r → ∃ d, resp_data r = Some d ∧ resp_len r <= Z.of_nat (length d) ∧
    (∀ s, v = LString s → d = s ++ [0] ∧ resp_len r = Z.of_nat (length s)).
Proof.
  intros Hv. unfold mock_respond. destruct malloc_ok, v; simpl; intros E; inv_res; simpl; try lia.
  - intros _. eexists. split_and!; [done|simpl; lia|done].
  - intros _. eexists. split_and!; [done|rewrite length_le_bytes; lia|done].
  - intros _. eexists. split_and!; [done|rewrite length_take; simpl in Hv; lia|done].
  - destruct (Z.ltb_spec 0 (Z.of_nat (length s))); inv_res; simpl; [|lia]. intros _.
    eexists. split_and!; [done|rewrite length_app; simpl; lia|]. by intros ? [= ->].
  - destruct (Z.ltb_spec 0 (Z.of_nat (length s))); inv_res; simpl; lia.
Qed.

Lemma os_bsp_fits bsp_name st code v :
  malloc_ok = true → length bsp_name = 64%nat → native v →
  mock_L st = Some [] → mock_file_path st !!! 0%nat ≠ 0 →
  mockf (bytes "rtos.bsp.get") [] = MockReturns code v →
  ∃ name b st', luat_os_bsp bsp_name st = Ok (name, b, st') ∧ length b = 64%nat ∧
    (∀ s, v = LString s → no_nul s → use_mockapi cfg = true →
       name = if decide (0 < length s < 64)%nat then s else bytes "PC").
Proof.
  intros Hm Hl Hv HL Hp Hf. unfold luat_os_bsp. destruct (use_mockapi cfg); [|by eexists _, _, _].
  unfold luat_mock_call. rewrite HL, Hf. destruct (Z.eqb_spec (mock_file_path st !!! 0%nat) 0); [done|].
  cbn [app lookup list_lookup default from_option id].
  assert (∃ r, mock_respond lua_tointeger lua_int_bytes malloc_ok code v = Ok r ∧
    (∀ s, v = LString s → resp_len r = Z.of_nat (length s))) as (r & Hr & Hs).
  { unfold mock_respond. rewrite Hm. destruct v; simpl; try (eexists; split; [done|]; done).
    destruct (Z.ltb_spec 0 (Z.of_nat (length s))); eexists; (split; [done|]); intros ? [= ->]; simpl; lia. }
  change (mock_respond _ _ _ _ _) with (mock_respond lua_tointeger lua_int_bytes malloc_ok code v).
  rewrite Hr. cbn [mbind res_bind].
  destruct (Z.ltb_spec 0 (resp_len r)), (Z.ltb_spec (resp_len r) 64); cbn [Z.eqb andb];
    try (eexists _, _, _; split_and!; [done|done|]; intros s -> _ _; rewrite (Hs s eq_refl) in *;
         rewrite decide_False by lia; done).
  destruct (respond_holds code v r Hv Hr) as (d & Hd & Hlen & Hstr); [done|].
  rewrite Hd. cbn [oget mbind res_bind]. rewrite load_Ok by lia. cbn [mbind res_bind].
  rewrite drop_0. set (t := take (Z.to_nat (resp_len r)) d).
  assert (length t = Z.to_nat (resp_len r)) as Ht by (unfold t; rewrite length_take; lia).
  rewrite (store_fill 0 [] bsp_name) by (done || lia). cbn [mbind res_bind app].
  rewrite (store_fill _ t) by (try rewrite length_drop; simpl; lia). cbn [mbind res_bind].
  rewrite drop_drop, <- app_assoc. cbn [app]. set (m := drop _ bsp_name).
  assert (c_string (t ++ 0 :: m) = Ok (cstr (t ++ 0 :: m))) as ->.
  { unfold c_string. rewrite existsb_app. simpl. by rewrite orb_true_r. }
  cbn [mbind res_bind]. eexists _, _, _. split_and!; [done| |].
  - rewrite length_app. simpl. unfold m. rewrite length_drop. simpl. lia.
  - intros s -> Hn _. destruct (Hstr s eq_refl) as [-> Hrl].
    rewrite decide_True by lia. subst t. rewrite Hrl, Nat2Z.id, take_app_length. by apply cstr_app.
Qed.

(** The name of the board fits its 64 bytes whatever a mock script
    answers first, and never reads behind the answer: a string of 1 to 63 bytes is
    the name, a longer or empty one is ignored for the default. *)
Theorem os_bsp_name bsp_name st code v :
  malloc_ok = true → length bsp_name = 64%nat → native v →
  mock_L st = Some [] → mock_file_path st !!! 0%nat ≠ 0 →
  mockf (bytes "rtos.bsp.get") [] = MockReturns code v →
  ∃ name b st', luat_os_bsp bsp_name st = Ok (name, b, st') ∧ length b = 64%nat ∧
    (∀ s, v = LString s → no_nul s → use_mockapi cfg = true →
       name = if decide (0 < length s < 64)%nat then s else bytes "PC").
Proof. apply os_bsp_fits. Qed.

End Bsp.

(** ** Witnesses *)

(** The linked array as it is shipped, its first bytes; a build without extras; a
    host without the serial library. *)
Definition shipped_mod : list Z :=
  [0x47; 0xa1; 0x29; 0x46; 0x22; 0xbd; 0x90; 0xee; 0xf1; 0x6b; 0xc1; 0xc1; 0x8a; 0xa7; 0xef; 0x57;
   0x3c; 0xbb; 0xa7; 0x6d; 0x17; 0x7d; 0xae; 0x0b; 0x35; 0x4b; 0x76; 0x70; 0x7a; 0x9f; 0x6a; 0x83] ++
  replicate 32 0.

Lemma shipped_mod_is_not_embedded : ¬ embedded shipped_mod.
Proof. by vm_compute. Qed.

Definition plain_build : build := Build false false false false false true.
Definition no_uart_dll : UartDll := {|
  uart_dll_found _ := false; uart_exports _ := false;
  luat_uart_exist_extern _ := 0; luat_uart_open_extern _ _ := -1; luat_uart_close_extern _ := 0;
  luat_uart_read_extern _ _ := (0, []); luat_uart_send_extern _ _ := 0; luat_uart_recv_cb_extern _ := 0;
|}.

Definition demo_main (argv : list (list Z)) :=
  @main linux32 (zero_heap (1024 * 1024)) no_uart_dll cmd_console plain_build
    (λ _, UartConf 115200 8 1 0) _ _ map_lfs _ demo_world demo_luac (λ _, 0) demo_report shipped_mod
    true true true argv None.

Lemma boot_runs_files_witness :
  ∃ b image, demo_main (bytes "luatos" :: demo_paths) = Ok b ∧
    b_outcome b = Returned 0 ∧ runs_of (b_events b) = [LuatMain (Some image)] ∧
    luadb_read image = Some demo_stored.
Proof.
  destruct (@boot_runs_files linux32 (zero_heap (1024 * 1024)) no_uart_dll cmd_console plain_build
    (λ _, UartConf 115200 8 1 0) _ _ map_lfs _ demo_world demo_luac (λ _, 0) demo_report shipped_mod
    (zero_heap_laws _) (1024 * 1024) (bytes "luatos") demo_paths demo_stored true true None)
    as (b & image & Hb & Ho & Hr & Hi & _).
  - vm_compute. lia.
  - by vm_compute.
  - apply zero_heap_gives.
  - by vm_compute.
  - by vm_compute.
  - done.
  - simpl. lia.
  - apply demo_paths_stored.
  - by vm_compute.
  - exists b, image. exact (conj Hb (conj Ho (conj Hr Hi))).
Defined.

Lemma boot_decides_witness :
  ∃ b, demo_main [bytes "luatos"] = Ok b ∧ runs_of (b_events b) = [LuaMain 1 [bytes "luatos"] ].
Proof.
  assert (@luat_cmd_parse linux32 (zero_heap (1024 * 1024)) _ demo_world demo_luac (λ _, 0) demo_report
            [bytes "luatos"] true cmd_init = Ok (Returned 0, None, cmd_init)) as Hp.
  { unfold luat_cmd_parse. by rewrite decide_True. }
  destruct (@main_completes linux32 (zero_heap (1024 * 1024)) no_uart_dll cmd_console plain_build
    (λ _, UartConf 115200 8 1 0) _ _ map_lfs _ demo_world demo_luac (λ _, 0) demo_report shipped_mod
    true true [bytes "luatos"] None _ ltac:(vm_compute; lia) Hp) as [b E].
  destruct (@boot_decides linux32 (zero_heap (1024 * 1024)) no_uart_dll cmd_console plain_build
    (λ _, UartConf 115200 8 1 0) _ _ map_lfs _ demo_world demo_luac (λ _, 0) demo_report shipped_mod
    true true true [bytes "luatos"] None b E) as [_ Hn].
  destruct Hn as (out & dump & st & Hp' & Hout & Hd & Hr); [by vm_compute|].
  assert (out = Returned 0) as -> by congruence.
  exists b. exact (conj E Hr).
Defined.

Lemma os_bsp_name_witness :
  let mockf := λ _ _, MockReturns (LInteger 0) (LString (bytes "EC718HM")) in
  ∃ b st', @luat_os_bsp plain_build mockf (λ _, 0) 8 true (replicate 64 0)
    (MockState (Some []) (bytes "m.lua" ++ [0])) = Ok (bytes "EC718HM", b, st').
Proof.
  destruct (os_bsp_name plain_build (λ _ _, MockReturns (LInteger 0) (LString (bytes "EC718HM")))
    (λ _, 0) 8 true (replicate 64 0) (MockState (Some []) (bytes "m.lua" ++ [0]))
    (LInteger 0) (LString (bytes "EC718HM"))) as (name & b & st' & E & _ & Hs);
    [done..|]. exists b, st'.
  rewrite (Hs (bytes "EC718HM")) in E; [exact E|done| |done].
  refine (bool_decide_eq_true_1 _ _). by vm_compute.
Defined.

(** Two libraries are in the table twice, whatever else is built in. *)
Lemma libs_listed_twice :
  let names := (λ e, e.1.2) <$> all_libs in
  let twice := filter (λ n, length (filter (λ m, m = n) names) ≠ 1%nat) names in
  twice = ["mcu"; "otp"; "mcu"; "otp"]%string.
Proof. vm_compute. reflexivity. Qed.
