(* ===== verification/Stubs.v ===== *)
(** * What the simulator answers without a device: port/luat_mobile_pc.c (but for
      the IMEI, in [Mobile]), luat_can_pc.c, luat_otp_pc.c, luat_fota_pc.c,
      luat_hmeta_pc.c, luat_crypto_mini.c, driver/luat_fatfs.c,
      network/luat_lwip_port.c, ui/luat_u8g2_pc.c

    A modem, a CAN controller, one-time memory and firmware updates do not exist
    here: their operations return a constant and touch neither state nor the
    arguments they could answer through. *)

From stdpp Require Import strings.
From S2P Require Import Prelude Mcu.

(** ** Operations that only return *)

(** The functions of a file with the constant they return; [None] for [void]. *)
Definition stubs : Type := list (string * option Z).

Definition mobile_stubs : stubs :=
  [("luat_mobile_get_sn", Some 0);
   ("luat_mobile_set_sn", Some 0);
   ("luat_mobile_get_muid", Some 0);
   ("luat_mobile_get_iccid", Some 0);
   ("luat_mobile_get_imsi", Some 0);
   ("luat_mobile_get_sim_number", Some 0);
   ("luat_mobile_get_sim_id", Some 0);
   ("luat_mobile_set_sim_id", Some 0);
   ("luat_mobile_set_sim_pin", Some 0);
   ("luat_mobile_get_sim_ready", Some 0);
   ("luat_mobile_set_sim_detect_sim0_first", None);
   ("luat_mobile_set_default_pdn_ipv6", None);
   ("luat_mobile_set_default_pdn_only_ipv6", None);
   ("luat_mobile_get_default_pdn_ipv6", Some 0);
   ("luat_mobile_get_apn", Some 0);
   ("luat_mobile_user_ctrl_apn", None);
   ("luat_mobile_user_ctrl_apn_stop", None);
   ("luat_mobile_set_apn_base_info", Some 0);
   ("luat_mobile_active_apn", Some 0);
   ("luat_mobile_active_netif", Some 0);
   ("luat_mobile_user_apn_auto_active", None);
   ("luat_mobile_get_default_apn", Some 0);
   ("luat_mobile_del_apn", Some 0);
   ("luat_mobile_set_flymode", Some 0);
   ("luat_mobile_get_flymode", Some 0);
   ("luat_mobile_get_local_ip", Some 0);
   ("luat_mobile_get_cell_info", Some 0);
   ("luat_mobile_get_cell_info_async", Some 0);
   ("luat_mobile_get_cell_info_async_with_sim_id", Some 0);
   ("luat_mobile_get_last_notify_cell_info", Some 0);
   ("luat_mobile_get_last_notify_cell_info_with_sim_id", Some 0);
   ("luat_mobile_print_last_notify_cell_info_with_sim_id", None);
   ("luat_mobile_rssi_to_csq", Some 0);
   ("luat_mobile_get_signal_strength_info", Some 0);
   ("luat_mobile_get_signal_strength", Some 0);
   ("luat_mobile_get_last_notify_signal_strength_info", Some 0);
   ("luat_mobile_get_last_notify_signal_strength", Some 0);
   ("luat_mobile_get_service_cell_identifier", Some 0);
   ("luat_mobile_get_service_tac_or_lac", Some 0);
   ("luat_mobile_get_sim_status", Some 0);
   ("luat_mobile_get_register_status", Some 0);
   ("luat_mobile_event_register_handler", Some 0);
   ("luat_mobile_event_deregister_handler", Some 0);
   ("luat_mobile_sms_sdk_event_register_handler", Some 0);
   ("luat_mobile_sms_event_register_handler", Some 0);
   ("net_lwip_check_switch", None);
   ("luat_mobile_set_rrc_auto_release_time", None);
   ("luat_mobile_set_auto_rrc", None);
   ("luat_mobile_set_auto_rrc_default", None);
   ("luat_mobile_rrc_auto_release_pause", None);
   ("luat_mobile_rrc_release_once", None);
   ("luat_mobile_reset_stack", Some 0);
   ("luat_mobile_fatal_error_auto_reset_stack", None);
   ("luat_mobile_set_period_work", Some 0);
   ("luat_mobile_set_check_sim", Some 0);
   ("luat_mobile_set_check_network_period", None);
   ("luat_mobile_get_ip_data_traffic", None);
   ("luat_mobile_clear_ip_data_traffic", None);
   ("luat_mobile_get_support_band", Some 0);
   ("luat_mobile_get_band", Some 0);
   ("luat_mobile_set_band", Some 0);
   ("luat_mobile_config", Some 0);
   ("luat_mobile_rf_test_mode", None);
   ("luat_mobile_rf_test_input", None);
   ("luat_mobile_sim_write_counter", Some 0);
   ("luat_mobile_get_last_call_num", None);
   ("luat_mobile_make_call", Some 0);
   ("luat_mobile_hangup_call", None);
   ("luat_mobile_answer_call", Some 0);
   ("luat_mobile_speech_init", Some 0);
   ("luat_mobile_speech_upload", Some 0);
   ("luat_mobile_set_sync_time", None);
   ("luat_mobile_get_sync_time", Some 0);
   ("luat_mobile_softsim_onoff", Some 0);
   ("luat_mobile_sim_detect_onoff", Some 0);
   ("luat_mobile_softsim_init_default", None);
   ("luat_mobile_lock_cell", Some 0);
   ("luat_mobile_get_extern_service_cell_info", Some 0);
   ("luat_mobile_vsim_user_heartbeat_once", None);
   ("luat_mobile_get_search_plmn", Some 0);
   ("luat_mobile_data_ip_mode", None);
   ("luat_mobile_init_auto_apn", None)].

Definition can_stubs : stubs :=
  [("luat_can_base_init", Some 0);
   ("luat_can_set_callback", Some 0);
   ("luat_can_set_work_mode", Some 0);
   ("luat_can_set_timing", Some 0);
   ("luat_can_set_node", Some 0);
   ("luat_can_set_filter", Some 0);
   ("luat_can_tx_message", Some 0);
   ("luat_can_tx_stop", Some 0);
   ("luat_can_rx_message_from_cache", Some 0);
   ("luat_can_reset", Some 0);
   ("luat_can_close", Some 0);
   ("luat_can_get_state", Some 0);
   ("luat_can_set_stb_io_level", Some 0);
   ("luat_can_bus_off", Some 0);
   ("luat_can_get_capacity", Some 0);
   ("luat_can_get_last_error", Some 0);
   ("luat_can_set_debug", None)].

Definition otp_stubs : stubs :=
  [("luat_otp_read", Some 0);
   ("luat_otp_write", Some 0);
   ("luat_otp_erase", Some 0);
   ("luat_otp_lock", Some 0);
   ("luat_otp_size", Some 0)].

(** -1, beside comments that say success. *)
Definition fota_stubs : stubs :=
  [("luat_fota_init", Some (-1));
   ("luat_fota_write", Some (-1));
   ("luat_fota_done", Some (-1));
   ("luat_fota_end", Some (-1))].

Definition fatfs_stubs : stubs :=
  [("luat_spi_set_sdhc_ctrl", None);
   ("luat_sdio_set_sdhc_ctrl", None)].

(** ** Operations that write *)

(** The four thresholds are cleared. *)
Definition luat_mobile_rrc_get_idle_meas_threshold : Z * Z * Z * Z := (0, 0, 0, 0).

(** The names are copied with their NUL. *)
Definition luat_hmeta_chip (buff : list Z) : res (Z * list Z) :=
  b ← store buff 0 (bytes "x86" ++ [0]); Ok (0, b).
Definition luat_hmeta_model_name (buff : list Z) : res (Z * list Z) :=
  b ← store buff 0 (bytes "PC" ++ [0]); Ok (0, b).
Definition luat_hmeta_hwversion (buff : list Z) : res (Z * list Z) :=
  b ← store buff 0 (bytes "A10" ++ [0]); Ok (0, b).

(** [rand]: the results of its next calls. *)
Fixpoint trng_loop (n : nat) (i : nat) (rand : list Z) (buff : list Z) : res (list Z * list Z) :=
  match n, rand with
  | O, _ => Ok (buff, rand)
  | S _, [] => Fault OutOfFuel
  | S n, r :: rand => b ← store buff i [u8 r]; trng_loop n (S i) rand b
  end.

Definition luat_crypto_trng (buff : list Z) (len : nat) (rand : list Z)
    : res (Z * list Z * list Z) :=
  '(b, rand) ← trng_loop len 0 rand buff; Ok (0, b, rand).

(** Four of them as a number, in the byte order of the host. *)
Definition lwip_port_rand (rand : list Z) : res (Z * list Z) :=
  '(_, t, rand) ← luat_crypto_trng (replicate 4 0) 4 rand;
  Ok (le_val t, rand).

(** The stack's clock: the milliseconds as an unsigned number. *)
Definition sys_now `{Platform} (uv_startup_ns ns : Z) : Z := u32 (luat_mcu_ticks uv_startup_ns ns).

(** The display calls are handed to the default of the core, which is [A]. *)
Definition luat_u8g2_setup {A} (luat_u8g2_setup_default : A) : A := luat_u8g2_setup_default.

(** ** Properties *)

(** [len] bytes are replaced by the low bytes of that many numbers, whatever the
    buffer held. *)
Lemma trng_loop_fills n : ∀ pre rand q,
  (n <= length q)%nat → (n <= length rand)%nat →
  trng_loop n (length pre) rand (pre ++ q) =
    Ok (pre ++ (u8 <$> take n rand) ++ drop n q, drop n rand).
Proof.
  induction n as [|n IH]; intros pre rand q Hb Hr; cbn [trng_loop].
  { by rewrite !take_0, !drop_0. }
  destruct rand as [|r rand]; [simpl in Hr; lia|]. destruct q as [|b q]; [simpl in Hb; lia|].
  rewrite store_extend by (simpl; lia). cbn [mbind res_bind length].
  simpl in Hb, Hr. replace (S (length pre)) with (length (pre ++ [u8 r])) by solve_len.
  rewrite IH by (rewrite ?length_drop; simpl; lia). simpl. by rewrite <- app_assoc.
Qed.

(** The seed the stack gets is the four bytes. *)
Lemma lwip_port_rand_bytes a b c d rand :
  lwip_port_rand (a :: b :: c :: d :: rand) =
    Ok (u8 a + 256 * (u8 b + 256 * (u8 c + 256 * u8 d)), rand).
Proof.
  unfold lwip_port_rand, luat_crypto_trng.
  pose proof (trng_loop_fills 4 [] (a :: b :: c :: d :: rand) (replicate 4 0)) as E.
  cbn [length app] in E. rewrite E by (simpl; lia). simpl. do 2 f_equal. lia.
Qed.

(** Cutting the ticks to a signed [long] of either width and back to 32 bits
    changes nothing: the clock counts the milliseconds modulo [2 ^ 32]. *)
Lemma sys_now_counts `{Platform} start ns :
  0 < ptr_bytes → (4 | ptr_bytes) →
  sys_now start ns = u32 (luat_mcu_tick64_ms start ns).
Proof.
  intros Hp [k Hk]. unfold sys_now, luat_mcu_ticks, wraps, u32, wrapu.
  set (t := luat_mcu_tick64 start ns / 1000). unfold luat_mcu_tick64_ms. fold t.
  assert (∃ j, 0 <= j ∧ long_bits = 32 + j) as (j & Hj & ->).
  { unfold long_bits. destruct windows; [by exists 0|]. exists (32 * (k - 1)). lia. }
  assert (2 ^ (32 + j) = 2 ^ 32 * 2 ^ j) as He by (rewrite Z.pow_add_r by lia; lia).
  rewrite Zminus_mod, Z.mod_mod_divide, <- Zminus_mod by (rewrite He; apply Z.divide_factor_l).
  f_equal. lia.
Qed.

(** The names read back. *)
Lemma hmeta_names buff :
  (4 <= length buff)%nat →
  (∃ b, luat_hmeta_chip buff = Ok (0, b) ∧ c_string b = Ok (bytes "x86")) ∧
  (∃ b, luat_hmeta_model_name buff = Ok (0, b) ∧ c_string b = Ok (bytes "PC")) ∧
  (∃ b, luat_hmeta_hwversion buff = Ok (0, b) ∧ c_string b = Ok (bytes "A10")).
Proof.
  intros Hl. do 4 (destruct buff as [|? buff]; [simpl in Hl; lia|]).
  split_and!; eexists; split; reflexivity.
Qed.
