(* ===== verification/Memp.v ===== *)
(** * The memory pools of lwip (lwip/core/memp.c)

    Every kind of object the stack allocates has a pool: an array of elements,
    the free ones linked through their first word.  The model keeps these words
    in a map from addresses; [pool_inv] relates a pool to the elements its
    clients hold.  The stack is compiled without sanity checks, so nothing
    stands between a client and the list: what a double release does is a
    theorem here. *)

From S2P Require Import Prelude.

(** ** Data *)

(** [struct stats_mem]: 16-bit counters, the heap has less than 64000 bytes. *)
Record stats_mem : Type := StatsMem {
  sm_err : Z; sm_avail : Z; sm_used : Z; sm_max : Z;
}.

(** [struct memp_desc]: what is fixed at compile time. *)
Record memp_desc : Type := MempDesc {
  pd_size : Z; pd_num : nat; pd_base : Z;
}.

(** What the descriptor points to: the head of the free list and the counters;
    [links] has the first words of the free elements. *)
Record pool : Type := Pool {
  tab : option Z; links : gmap Z (option Z); pstats : stats_mem;
}.

Definition MEM_ALIGNMENT : Z := 4.

Definition LWIP_MEM_ALIGN (addr : Z) : Z :=
  Z.land (addr + MEM_ALIGNMENT - 1) (Z.lnot (MEM_ALIGNMENT - 1)).

(** [LWIP_ASSERT]: the message is printed and the process aborted. *)
Definition lwip_assert (b : bool) : res unit := if b then Ok () else Fault Aborted.

(** ** Operations *)

Fixpoint init_loop (n : nat) (size memp : Z) (tab : option Z) (links : gmap Z (option Z))
    : option Z * gmap Z (option Z) :=
  match n with
  | O => (tab, links)
  | S n => init_loop n size (memp + size) (Some memp) (<[memp := tab]> links)
  end.

(** The memory of the pool, and its statistics, are zero before. *)
Definition memp_init_pool (d : memp_desc) : pool :=
  let '(t, l) := init_loop (pd_num d) (pd_size d) (LWIP_MEM_ALIGN (pd_base d)) None ∅ in
  Pool t l (StatsMem 0 (u16 (Z.of_nat (pd_num d))) 0 0).

(** The pools are one table, in the order of priv/memp_std.h. *)
Definition memp_init (ds : list memp_desc) : list pool := memp_init_pool <$> ds.

(** One element taken, one more failure. *)
Definition stats_take (s : stats_mem) : stats_mem :=
  let used := u16 (sm_used s + 1) in
  StatsMem (sm_err s) (sm_avail s) used (if sm_max s <? used then used else sm_max s).
Definition stats_fail (s : stats_mem) : stats_mem :=
  StatsMem (u16 (sm_err s + 1)) (sm_avail s) (sm_used s) (sm_max s).
Definition stats_give (s : stats_mem) : stats_mem :=
  StatsMem (sm_err s) (sm_avail s) (u16 (sm_used s - 1)) (sm_max s).

Definition do_memp_malloc_pool (p : pool) : res (option Z * pool) :=
  match tab p with
  | Some memp =>
      next ← oget BadPointer (links p !! memp);
      _ ← lwip_assert (memp mod MEM_ALIGNMENT =? 0);
      Ok (Some memp, Pool next (delete memp (links p)) (stats_take (pstats p)))
  | None => Ok (None, Pool (tab p) (links p) (stats_fail (pstats p)))
  end.

Definition do_memp_free_pool (p : pool) (mem : Z) : res pool :=
  _ ← lwip_assert (mem mod MEM_ALIGNMENT =? 0);
  Ok (Pool (Some mem) (<[mem := tab p]> (links p)) (stats_give (pstats p))).

(** By number; a number that is no pool is answered with NULL. *)
Definition memp_malloc (ps : list pool) (type : nat) : res (option Z * list pool) :=
  match ps !! type with
  | None => Ok (None, ps)
  | Some p => '(m, p') ← do_memp_malloc_pool p; Ok (m, <[type := p']> ps)
  end.

Definition memp_free (ps : list pool) (type : nat) (mem : option Z) : res (list pool) :=
  match ps !! type, mem with
  | Some p, Some a => p' ← do_memp_free_pool p a; Ok (<[type := p']> ps)
  | _, _ => Ok ps
  end.

(** A pool given by its descriptor, as outside code uses them. *)
Definition memp_malloc_pool (p : option pool) : res (option Z * option pool) :=
  _ ← lwip_assert (match p with Some _ => true | None => false end);
  match p with
  | None => Ok (None, p)
  | Some q => '(m, q') ← do_memp_malloc_pool q; Ok (m, Some q')
  end.

Definition memp_free_pool (p : option pool) (mem : option Z) : res (option pool) :=
  _ ← lwip_assert (match p with Some _ => true | None => false end);
  match p, mem with
  | Some q, Some a => q' ← do_memp_free_pool q a; Ok (Some q')
  | _, _ => Ok p
  end.

(** ** The free list *)

Inductive free_chain (l : gmap Z (option Z)) : option Z → list Z → Prop :=
  | free_nil : free_chain l None []
  | free_cons a n fs : l !! a = Some n → free_chain l n fs → free_chain l (Some a) (a :: fs).

Lemma free_chain_frame l l' p fs :
  free_chain l p fs → (∀ a, a ∈ fs → l' !! a = l !! a) → free_chain l' p fs.
Proof.
  induction 1 as [|a n fs Ha Hc IH]; intros Hf; [constructor|].
  apply (free_cons _ a n); [rewrite Hf; [done|set_solver]|apply IH; set_solver].
Qed.

(** The elements of a pool. *)
Definition elements (d : memp_desc) : list Z :=
  (λ i, LWIP_MEM_ALIGN (pd_base d) + Z.of_nat i * pd_size d) <$> seq 0 (pd_num d).

(** A pool whose clients hold [out]. *)
Record pool_inv (d : memp_desc) (p : pool) (out : list Z) : Prop := PoolInv {
  pi_free : ∃ fs, free_chain (links p) (tab p) fs ∧ fs ++ out ≡ₚ elements d;
  pi_used : sm_used (pstats p) = Z.of_nat (length out);
  pi_max : Z.of_nat (length out) <= sm_max (pstats p) <= Z.of_nat (pd_num d);
}.

(** A descriptor as the compiler lays it out: aligned sizes, a counter that holds
    the number of elements. *)
Definition desc_ok (d : memp_desc) : Prop :=
  0 < pd_size d ∧ pd_size d mod MEM_ALIGNMENT = 0 ∧ Z.of_nat (pd_num d) < 2 ^ 16.

Lemma LWIP_MEM_ALIGN_spec a :
  LWIP_MEM_ALIGN a mod MEM_ALIGNMENT = 0 ∧ a <= LWIP_MEM_ALIGN a < a + MEM_ALIGNMENT.
Proof.
  unfold LWIP_MEM_ALIGN, MEM_ALIGNMENT. change (Z.lnot (4 - 1)) with (Z.lnot (Z.ones 2)).
  rewrite <- Z.ldiff_land, Z.ldiff_ones_r, Z.shiftl_mul_pow2, Z.shiftr_div_pow2 by lia.
  change (2 ^ 2) with 4. pose proof (Z.div_mod (a + 4 - 1) 4).
  pose proof (Z.mod_pos_bound (a + 4 - 1) 4). rewrite Z.mod_mul by lia. lia.
Qed.

Lemma elements_aligned d a : desc_ok d → a ∈ elements d → a mod MEM_ALIGNMENT = 0.
Proof.
  intros (_ & Hs & _) (i & -> & _)%list_elem_of_fmap.
  rewrite Z.add_mod, Z.mul_mod, Hs, Z.mul_0_r by done.
  by rewrite (proj1 (LWIP_MEM_ALIGN_spec _)).
Qed.

Lemma elements_NoDup d : desc_ok d → NoDup (elements d).
Proof.
  intros (Hs & _). apply NoDup_fmap_2_strong; [|apply NoDup_seq].
  intros i j _ _ E. nia.
Qed.

Lemma length_elements d : length (elements d) = pd_num d.
Proof. unfold elements. by rewrite length_fmap, length_seq. Qed.

Lemma pool_inv_NoDup d p out : desc_ok d → pool_inv d p out → NoDup out.
Proof.
  intros Hd [(fs & _ & Hp) _ _]. pose proof (elements_NoDup d Hd) as Hn.
  rewrite <- Hp in Hn. by apply NoDup_app in Hn as (_ & _ & ?).
Qed.

Lemma pool_inv_elem d p out a : pool_inv d p out → a ∈ out → a ∈ elements d.
Proof. intros [(fs & _ & Hp) _ _] Ha. rewrite <- Hp. set_solver. Qed.

Lemma pool_inv_length d p out : pool_inv d p out → (length out <= pd_num d)%nat.
Proof.
  intros [(fs & _ & Hp) _ _]. apply Permutation_length in Hp.
  rewrite length_elements, length_app in Hp. lia.
Qed.

Lemma pool_inv_perm d p out out' : out ≡ₚ out' → pool_inv d p out → pool_inv d p out'.
Proof.
  intros Hp [(fs & Hc & Hf) Hu Hm]. pose proof (Permutation_length Hp) as Hl.
  split; rewrite <- ?Hl; [|done..]. exists fs. by rewrite <- Hp.
Qed.

(** ** What the operations do *)

Lemma init_loop_spec n size : ∀ memp t l fs,
  0 < size → free_chain l t fs → (∀ a, a ∈ fs → a < memp) →
  ∃ fs', free_chain (init_loop n size memp t l).2 (init_loop n size memp t l).1 fs' ∧
    fs' ≡ₚ fs ++ ((λ i, memp + Z.of_nat i * size) <$> seq 0 n).
Proof.
  induction n as [|n IH]; intros memp t l fs Hs Hc Hlt; cbn [init_loop].
  { exists fs. simpl. by rewrite app_nil_r. }
  destruct (IH (memp + size) (Some memp) (<[memp:=t]> l) (memp :: fs)) as (fs' & Hc' & Hp);
    [done| | |].
  - econstructor; [apply lookup_insert_eq|]. eapply free_chain_frame; [done|].
    intros a Ha. apply Hlt in Ha. by rewrite lookup_insert_ne by lia.
  - intros a [->|Ha]%elem_of_cons; [lia|]. apply Hlt in Ha. lia.
  - exists fs'. split; [done|]. rewrite Hp. cbn [seq fmap list_fmap].
    rewrite <- seq_shift, <- list_fmap_compose. simpl.
    rewrite Z.mul_0_l, Z.add_0_r, <- Permutation_middle.
    apply Permutation_skip, Permutation_app; [done|].
    apply reflexive_eq, list_fmap_ext. intros i x _. simpl. lia.
Qed.

Lemma memp_init_pool_inv d : desc_ok d → pool_inv d (memp_init_pool d) [].
Proof.
  intros Hd. destruct (init_loop_spec (pd_num d) (pd_size d) (LWIP_MEM_ALIGN (pd_base d))
    None ∅ []) as (fs & Hc & Hp); [apply Hd|constructor|set_solver|].
  unfold memp_init_pool. destruct (init_loop _ _ _ _ _) as [t l]. simpl in *.
  split; simpl; [|done|lia]. exists fs. split; [done|]. by rewrite app_nil_r.
Qed.

(** While elements are free an allocation gives one of them. *)
Lemma do_memp_malloc_gives d p out :
  desc_ok d → pool_inv d p out → (length out < pd_num d)%nat →
  ∃ a p', do_memp_malloc_pool p = Ok (Some a, p') ∧ a ∈ elements d ∧ a ∉ out ∧
    pool_inv d p' (a :: out).
Proof.
  intros Hd Hi Hlt. destruct Hi as [(fs & Hc & Hp) Hu Hm].
  destruct Hd as (Hs & Ha & Hn). pose proof (Permutation_length Hp) as Hl.
  rewrite length_elements, length_app in Hl.
  destruct (tab p) as [a|] eqn:Ht; inversion Hc as [|? n fs' Hla Hc']; subst; [|simpl in Hl; lia].
  assert (a ∈ elements d) as Hel by (rewrite <- Hp; set_solver).
  assert (NoDup (a :: fs' ++ out)) as [Hna _]%NoDup_cons by (rewrite Hp; by apply elements_NoDup). exists a. eexists. split; [|split; [done|]; split].
  - unfold do_memp_malloc_pool. rewrite Ht. simpl. rewrite Hla. simpl.
    by rewrite (elements_aligned d) by done.
  - set_solver.
  - split; simpl; [|rewrite wrapu_small; lia|].
    + exists fs'. split; [|by rewrite <- Permutation_middle].
      eapply free_chain_frame; [done|]. intros b Hb. rewrite lookup_delete_ne; set_solver.
    + rewrite wrapu_small by lia. destruct (Z.ltb_spec (sm_max (pstats p)) (sm_used (pstats p) + 1)); lia.
Qed.

(** With all elements in use it gives none and counts the failure. *)
Lemma do_memp_malloc_empty d p out :
  pool_inv d p out → length out = pd_num d →
  do_memp_malloc_pool p = Ok (None, Pool (tab p) (links p) (stats_fail (pstats p))).
Proof.
  intros [(fs & Hc & Hp) _ _] Hl. apply Permutation_length in Hp.
  rewrite length_elements, length_app in Hp.
  inversion Hc as [Ht|a n fs' Hla Hc' Ht]; subst; [|simpl in Hp; lia].
  unfold do_memp_malloc_pool. by rewrite <- Ht.
Qed.

Lemma stats_fail_inv d p out :
  pool_inv d p out → pool_inv d (Pool (tab p) (links p) (stats_fail (pstats p))) out.
Proof. intros [Hf Hu Hm]. by split. Qed.

(** An element that is in use can be given back. *)
Lemma do_memp_free_gives d p out1 a out2 :
  desc_ok d → pool_inv d p (out1 ++ a :: out2) →
  ∃ p', do_memp_free_pool p a = Ok p' ∧ pool_inv d p' (out1 ++ out2).
Proof.
  intros Hd Hi. pose proof (pool_inv_length _ _ _ Hi) as Hlen.
  pose proof (elements_NoDup d Hd) as Hnd.
  assert (a ∈ elements d) as Hel by (eapply pool_inv_elem; [done|set_solver]).
  destruct Hi as [(fs & Hc & Hp) Hu Hm]. destruct Hd as (Hs & Ha & Hn).
  rewrite length_app in *. simpl in *.
  unfold do_memp_free_pool. rewrite (elements_aligned d) by done. simpl.
  eexists. split; [done|]. rewrite <- Hp in Hnd.
  assert (a ∉ fs) as Hna by (intros ?; apply NoDup_app in Hnd as (_ & Hd & _); set_solver).
  split; simpl; rewrite ?length_app, ?wrapu_small; try lia.
  exists (a :: fs). split.
  - econstructor; [apply lookup_insert_eq|]. eapply free_chain_frame; [done|].
    intros b Hb. rewrite lookup_insert_ne; set_solver.
  - rewrite <- Hp. simpl. rewrite Permutation_middle. apply Permutation_app; [done|].
    by rewrite Permutation_middle.
Qed.

(** ** A session: allocations and releases in any order *)

(** A client asks for an element, or gives back the [k]-th of those it holds
    (NULL when it holds fewer). *)
Inductive pool_op : Type := PAlloc | PFree (k : nat).

Definition pool_step (o : pool_op) (st : list pool * list Z) (type : nat)
    : res (option Z * (list pool * list Z)) :=
  let '(ps, out) := st in
  match o with
  | PAlloc =>
      '(m, ps') ← memp_malloc ps type;
      Ok (m, (ps', match m with Some a => a :: out | None => out end))
  | PFree k =>
      ps' ← memp_free ps type (out !! k);
      Ok (out !! k, (ps', delete k out))
  end.

Fixpoint pool_run (ops : list pool_op) (st : list pool * list Z) (type : nat)
    : res (list (option Z) * (list pool * list Z)) :=
  match ops with
  | [] => Ok ([], st)
  | o :: ops =>
      '(m, st) ← pool_step o st type;
      '(ms, st) ← pool_run ops st type;
      Ok (m :: ms, st)
  end.

(** What a client may rely on, as a transition system over the set it holds. *)
Inductive pool_spec (d : memp_desc) : list Z → pool_op → option Z → list Z → Prop :=
  | spec_alloc out a : a ∈ elements d → a ∉ out → pool_spec d out PAlloc (Some a) (a :: out)
  | spec_full out : length out = pd_num d → pool_spec d out PAlloc None out
  | spec_free out k : pool_spec d out (PFree k) (out !! k) (delete k out).

Inductive pool_specs (d : memp_desc) : list Z → list pool_op → list (option Z) → list Z → Prop :=
  | specs_nil out : pool_specs d out [] [] out
  | specs_cons out o m out1 ops ms out2 :
      pool_spec d out o m out1 → pool_specs d out1 ops ms out2 →
      pool_specs d out (o :: ops) (m :: ms) out2.

Section session.
Context (d : memp_desc) (Hd : desc_ok d) (type : nat).

Lemma pool_step_spec o ps p out :
  ps !! type = Some p → pool_inv d p out →
  ∃ m p' out', pool_step o (ps, out) type = Ok (m, (<[type := p']> ps, out')) ∧
    pool_inv d p' out' ∧ pool_spec d out o m out'.
Proof.
  intros Hp Hi. destruct o as [|k]; unfold pool_step, memp_malloc, memp_free; rewrite Hp.
  - destruct (decide (length out < pd_num d)%nat) as [Hl|Hl].
    + destruct (do_memp_malloc_gives d p out Hd Hi Hl) as (a & p' & -> & Ha & Hn & Hi').
      simpl. eexists _, p', _. split; [done|]. split; [done|]. by constructor.
    + assert (length out = pd_num d) as Hl'
        by (pose proof (pool_inv_length _ _ _ Hi); lia).
      rewrite (do_memp_malloc_empty d p out Hi Hl'). simpl. eexists _, _, _.
      split; [done|]. split; [by apply stats_fail_inv|by constructor].
  - destruct (out !! k) as [a|] eqn:Ho.
    + pose proof (take_drop_middle _ _ _ Ho) as E. rewrite <- E in Hi.
      destruct (do_memp_free_gives d p _ a _ Hd Hi) as (p' & -> & Hi'). simpl.
      eexists _, p', _. split; [done|]. rewrite delete_take_drop. split; [done|].
      rewrite <- delete_take_drop, <- Ho. constructor.
    + exists None, p, (delete k out). simpl. rewrite list_insert_id by done. split; [done|].
      split; [|rewrite <- Ho; constructor].
      rewrite delete_take_drop, take_ge, drop_ge, app_nil_r
        by (apply lookup_ge_None in Ho; lia). done.
Qed.

Lemma pool_run_spec ops : ∀ ps p out,
  ps !! type = Some p → pool_inv d p out →
  ∃ ms p' out', pool_run ops (ps, out) type = Ok (ms, (<[type := p']> ps, out')) ∧
    pool_inv d p' out' ∧ pool_specs d out ops ms out'.
Proof.
  induction ops as [|o ops IH]; intros ps p out Hp Hi.
  { exists [], p, out. simpl. rewrite list_insert_id by done. by split; [|split; [|constructor]]. }
  destruct (pool_step_spec o ps p out Hp Hi) as (m & p1 & out1 & E & Hi1 & Hs).
  destruct (IH (<[type:=p1]> ps) p1 out1) as (ms & p2 & out2 & E2 & Hi2 & Hs2);
    [apply list_lookup_insert_eq, lookup_lt_is_Some; eauto|done|].
  cbn [pool_run]. rewrite E. cbn [mbind res_bind]. rewrite E2. cbn [mbind res_bind].
  eexists _, p2, out2. rewrite list_insert_insert_eq. split; [done|]. split; [done|].
  econstructor; eassumption.
Qed.

End session.

(** C22 (refinement).  From the initialisation on, any sequence of allocations and
    releases on a pool answers as the set of its elements: an allocation gives an
    element of the pool that is not in use, or NULL exactly when all of them are;
    nothing faults or aborts, the counter of elements in use is exact, and the
    other pools are not touched. *)
Theorem memp_is_a_pool ds type d ops :
  ds !! type = Some d → desc_ok d →
  ∃ ms p out,
    pool_run ops (memp_init ds, []) type = Ok (ms, (<[type := p]> (memp_init ds), out)) ∧
    pool_specs d [] ops ms out ∧ NoDup out ∧ sm_used (pstats p) = Z.of_nat (length out).
Proof.
  intros Hds Hd. destruct (pool_run_spec d Hd type ops (memp_init ds) (memp_init_pool d) [])
    as (ms & p & out & E & Hi & Hs).
  - unfold memp_init. by rewrite list_lookup_fmap, Hds.
  - by apply memp_init_pool_inv.
  - exists ms, p, out. split; [done|]. split; [done|].
    split; [by eapply pool_inv_NoDup|apply (pi_used _ _ _ Hi)].
Qed.

Definition two_pools : list memp_desc := [MempDesc 16 5 1001; MempDesc 24 2 2000].

Lemma memp_is_a_pool_witness :
  pool_run [PAlloc; PAlloc; PAlloc; PFree 0; PAlloc] (memp_init two_pools, []) 1%nat
    = Ok ([Some 2024; Some 2000; None; Some 2000; Some 2000],
          (<[1%nat := Pool None ∅ (StatsMem 1 2 2 2)]> (memp_init two_pools), [2000; 2024])) ∧
  ∃ ms p out,
    pool_run [PAlloc; PAlloc; PAlloc; PFree 0; PAlloc] (memp_init two_pools, []) 1%nat
      = Ok (ms, (<[1%nat := p]> (memp_init two_pools), out)) ∧
    pool_specs (MempDesc 24 2 2000) [] [PAlloc; PAlloc; PAlloc; PFree 0; PAlloc] ms out ∧
    NoDup out ∧ sm_used (pstats p) = Z.of_nat (length out).
Proof. split; [vm_compute; reflexivity|]. by apply memp_is_a_pool. Defined.

(** Releasing an element twice in a row is not noticed: the pool hands it out and
    keeps it as the head of the free list, whose next pointer is then whatever its
    owner writes into it. *)
Lemma double_free_shares p a :
  a mod MEM_ALIGNMENT = 0 →
  ∃ p2, (p1 ← do_memp_free_pool p a; do_memp_free_pool p1 a) = Ok p2 ∧
    ∃ p3, do_memp_malloc_pool p2 = Ok (Some a, p3) ∧ tab p3 = Some a.
Proof.
  intros Ha. unfold do_memp_free_pool, do_memp_malloc_pool. rewrite Ha. simpl.
  eexists. split; [done|]. simpl. rewrite lookup_insert_eq. simpl. rewrite Ha. simpl.
  by eexists.
Qed.
