(* ===== verification/SysArch.v ===== *)
(** * The operating system layer of lwip (lwip/port/win32/sys_arch.c)

    Clock, critical section, semaphores, mutexes, threads and mailboxes of the
    stack on Windows.  The file keeps its state in globals, so an operation is a
    computation on the record of them ([sysM]); what Windows answers is an input.
    A failing assertion ends the process ([Aborted]).  A mailbox is a ring of a
    hundred slots beside a semaphore; fetching a message takes the semaphore
    first and the critical section later, so mailboxes and the lock of the stack
    are also given as systems of threads that take their atomic steps in any
    order. *)

From S2P Require Import Prelude Memp.

(** ** State *)

(** [struct stats_syselem]: 16-bit counters. *)
Record syselem : Type := SysElem { se_used : Z; se_max : Z; se_err : Z }.

(** [struct threadlist]; functions by their names. *)
Record threadlist : Type := ThreadEntry { tl_function : string; tl_arg : Z; tl_id : Z }.

(** The globals of the file and the counters of [lwip_stats.sys]. *)
Record sysarch : Type := SysState {
  freq : Z;                        (* 0 before [sys_init] *)
  sys_start_time : Z;
  protection_depth : Z;
  stats_sem : syselem; stats_mutex : syselem; stats_mbox : syselem;
  lwip_win32_threads : list threadlist;
  lwip_tcpip_thread_id : Z;
  lwip_core_lock_holder_thread_id : Z;
}.

Definition sys_boot : sysarch :=
  SysState 0 0 0 (SysElem 0 0 0) (SysElem 0 0 0) (SysElem 0 0 0) [] 0 0.

(** Computations on the globals. *)
Definition sysM (A : Type) : Type := sysarch → res (A * sysarch).

#[global] Instance sys_ret : MRet sysM := λ A a s, Ok (a, s).
#[global] Instance sys_bind : MBind sysM := λ A B f m s,
  match m s with Ok (a, s') => f a s' | Fault e => Fault e end.

Definition sys_get {A} (f : sysarch → A) : sysM A := λ s, Ok (f s, s).
Definition sys_mod (f : sysarch → sysarch) : sysM () := λ s, Ok ((), f s).
Definition sys_lift {A} (r : res A) : sysM A := λ s, a ← r; Ok (a, s).
Definition sys_assert (b : bool) : sysM () := sys_lift (lwip_assert b).

Definition set_depth (d : Z) (s : sysarch) : sysarch :=
  SysState (freq s) (sys_start_time s) d (stats_sem s) (stats_mutex s) (stats_mbox s)
    (lwip_win32_threads s) (lwip_tcpip_thread_id s) (lwip_core_lock_holder_thread_id s).
Definition set_holder (i : Z) (s : sysarch) : sysarch :=
  SysState (freq s) (sys_start_time s) (protection_depth s) (stats_sem s) (stats_mutex s)
    (stats_mbox s) (lwip_win32_threads s) (lwip_tcpip_thread_id s) i.

(** The three counters are handled alike. *)
Inductive elem_kind : Type := KSem | KMutex | KMbox.

Definition elem_of (k : elem_kind) (s : sysarch) : syselem :=
  match k with KSem => stats_sem s | KMutex => stats_mutex s | KMbox => stats_mbox s end.
Definition set_elem (k : elem_kind) (e : syselem) (s : sysarch) : sysarch :=
  SysState (freq s) (sys_start_time s) (protection_depth s)
    (match k with KSem => e | _ => stats_sem s end)
    (match k with KMutex => e | _ => stats_mutex s end)
    (match k with KMbox => e | _ => stats_mbox s end)
    (lwip_win32_threads s) (lwip_tcpip_thread_id s) (lwip_core_lock_holder_thread_id s).

(** ** Random numbers *)

(** The answers of [CryptAcquireContext], without and with a new key set. *)
Definition sys_win_rand_init (acquire1 acquire2 : bool) : res () :=
  if acquire1 then Ok () else lwip_assert acquire2.

(** [gen1], [gen2]: what [CryptGenRandom] gives before and after that. *)
Definition lwip_port_rand_win (gen1 : option Z) (acquire1 acquire2 : bool) (gen2 : option Z)
    : res Z :=
  match gen1 with
  | Some r => Ok r
  | None =>
      _ ← sys_win_rand_init acquire1 acquire2;
      oget Aborted gen2
  end.

(** ** Clock *)

(** Counter ticks to milliseconds; before [sys_init] the frequency is zero and the
    division ends the process. *)
Definition sys_get_ms_longlong (now : Z) : sysM Z :=
  f ← sys_get freq;
  start ← sys_get sys_start_time;
  _ ← sys_assert (negb (f =? 0));
  mret (u32 (Z.quot (wraps 64 ((now - start) * 1000)) f)).

Definition sys_jiffies (now : Z) : sysM Z := sys_get_ms_longlong now.
Definition sys_now_win (now : Z) : sysM Z := sys_get_ms_longlong now.

(** ** Critical section *)

Definition sys_arch_protect : sysM () :=
  d ← sys_get protection_depth;
  _ ← sys_assert (d =? 0);
  sys_mod (set_depth (d + 1)).

Definition sys_arch_unprotect : sysM () :=
  d ← sys_get protection_depth;
  _ ← sys_assert (d =? 1);
  sys_mod (set_depth (d - 1)).

Definition sys_arch_check_not_protected : sysM () :=
  _ ← sys_arch_protect;
  d ← sys_get protection_depth;
  _ ← sys_assert (d =? 1);
  sys_arch_unprotect.

(** [SYS_ARCH_LOCKED] *)
Definition sys_arch_locked {A} (m : sysM A) : sysM A :=
  _ ← sys_arch_protect; a ← m; _ ← sys_arch_unprotect; mret a.

(** [msvc_sys_init]: the answers of the generator, of the performance counter and
    of [TlsAlloc]. *)
Definition sys_init (acquire1 acquire2 : bool) (frequency start : Z) (tls_ok : bool)
    : sysM () :=
  _ ← sys_lift (sys_win_rand_init acquire1 acquire2);
  _ ← sys_mod (λ s, SysState frequency start (protection_depth s) (stats_sem s)
    (stats_mutex s) (stats_mbox s) (lwip_win32_threads s) (lwip_tcpip_thread_id s)
    (lwip_core_lock_holder_thread_id s));
  sys_assert tls_ok.

(** [SYS_INITIALIZED] *)
Definition sys_initialized (s : sysarch) : bool := negb (freq s =? 0).

(** ** Counters of the elements *)

(** [SYS_STATS_INC_USED], [SYS_STATS_DEC] and [SYS_STATS_INC] *)
Definition inc_used (e : syselem) : syselem :=
  let used := u16 (se_used e + 1) in
  SysElem used (if se_max e <? used then used else se_max e) (se_err e).
Definition dec_used (e : syselem) : syselem :=
  SysElem (u16 (se_used e - 1)) (se_max e) (se_err e).
Definition inc_err (e : syselem) : syselem :=
  SysElem (se_used e) (se_max e) (u16 (se_err e + 1)).

Definition upd_elem (k : elem_kind) (f : syselem → syselem) : sysM () :=
  e ← sys_get (elem_of k); sys_mod (set_elem k (f e)).

(** One more is in use; the assertion behind it fails when the counter wraps. *)
Definition elem_created (k : elem_kind) (locked : bool) : sysM () :=
  _ ← (if locked then sys_arch_locked (upd_elem k inc_used) else upd_elem k inc_used);
  e ← sys_get (elem_of k);
  sys_assert (negb (se_used e =? 0)).

Definition elem_freed (k : elem_kind) (locked : bool) : sysM () :=
  _ ← (if locked then sys_arch_locked (upd_elem k dec_used) else upd_elem k dec_used);
  e ← sys_get (elem_of k);
  sys_assert (negb (se_used e =? 65535)).

(** ** Semaphores *)

(** A semaphore of the system: its count and the maximum it was created with; it
    cannot be released beyond.  [sys_sem_t] holds one or NULL. *)
Record win_sem : Type := WinSem { ws_count : Z; ws_max : Z }.

Definition ReleaseSemaphore (s : win_sem) : option win_sem :=
  if ws_count s + 1 <=? ws_max s then Some (WinSem (ws_count s + 1) (ws_max s)) else None.

Definition ERR_OK : Z := 0.
Definition ERR_MEM : Z := -1.
Definition SYS_ARCH_TIMEOUT : Z := 4294967295.

(** [ok]: [CreateSemaphore] gives one; the branch behind the failing assertion is
    never reached. *)
Definition sys_sem_new (count : Z) (ok : bool) : sysM (Z * option win_sem) :=
  _ ← sys_assert ok;
  init ← sys_get sys_initialized;
  _ ← elem_created KSem init;
  mret (ERR_OK, Some (WinSem (u8 count) 100000)).

Definition is_some {A} (o : option A) : bool := match o with Some _ => true | None => false end.

Definition sys_sem_free (sem : option win_sem) : sysM (option win_sem) :=
  _ ← sys_assert (is_some sem);
  _ ← elem_freed KSem true;
  mret None.

(** What [WaitForSingleObject] returns. *)
Inductive wait_result : Type := WAIT_OBJECT_0 | WAIT_TIMEOUT | WAIT_FAILED.

#[global] Instance wait_result_eq_dec : EqDecision wait_result.
Proof. solve_decision. Defined.

(** Taking the semaphore counts it down. *)
Definition ws_taken (s : win_sem) : win_sem := WinSem (ws_count s - 1) (ws_max s).

(** [t0], [t1]: the counter before and after the wait. *)
Definition sys_arch_sem_wait (sem : option win_sem) (timeout : Z) (ret : wait_result)
    (t0 t1 : Z) : sysM (Z * option win_sem) :=
  _ ← sys_assert (is_some sem);
  start ← sys_get_ms_longlong t0;
  if timeout =? 0 then
    _ ← sys_assert (bool_decide (ret = WAIT_OBJECT_0));
    fin ← sys_get_ms_longlong t1;
    mret (u32 (fin - start), ws_taken <$> sem)
  else
    _ ← sys_assert (negb (bool_decide (ret = WAIT_FAILED)));
    if decide (ret = WAIT_OBJECT_0) then
      fin ← sys_get_ms_longlong t1;
      mret (u32 (fin - start), ws_taken <$> sem)
    else mret (SYS_ARCH_TIMEOUT, sem).

Definition sys_sem_signal (sem : option win_sem) : sysM (option win_sem) :=
  _ ← sys_arch_check_not_protected;
  s ← sys_lift (oget Aborted sem);
  s' ← sys_lift (oget Aborted (ReleaseSemaphore s));
  mret (Some s').

(** ** Mutexes *)

(** A mutex of the system belongs to a thread, which may take it again and has to
    release it as often. *)
Record win_mutex : Type := WinMutex { wm_owner : option Z; wm_count : nat }.

(** [None]: the caller waits. *)
Definition take_mutex (self : Z) (m : win_mutex) : option win_mutex :=
  match wm_owner m with
  | None => Some (WinMutex (Some self) 1)
  | Some i => if i =? self then Some (WinMutex (Some self) (S (wm_count m))) else None
  end.

(** [None]: the caller does not own it. *)
Definition ReleaseMutex (self : Z) (m : win_mutex) : option win_mutex :=
  match wm_owner m with
  | Some i =>
      if i =? self then
        Some (match wm_count m with
              | S (S n) => WinMutex (Some self) (S n)
              | _ => WinMutex None 0
              end)
      else None
  | None => None
  end.

Definition sys_mutex_new (ok : bool) : sysM (Z * option win_mutex) :=
  _ ← sys_assert ok;
  _ ← elem_created KMutex true;
  mret (ERR_OK, Some (WinMutex None 0)).

Definition sys_mutex_free (mutex : option win_mutex) : sysM (option win_mutex) :=
  _ ← sys_assert (is_some mutex);
  _ ← elem_freed KMutex true;
  mret None.

(** [None]: the thread waits for the mutex. *)
Definition sys_mutex_lock (self : Z) (mutex : option win_mutex) : sysM (option win_mutex) :=
  m ← sys_lift (oget Aborted mutex);
  mret (take_mutex self m).

Definition sys_mutex_unlock (self : Z) (mutex : option win_mutex) : sysM win_mutex :=
  _ ← sys_arch_check_not_protected;
  m ← sys_lift (oget Aborted mutex);
  sys_lift (oget Aborted (ReleaseMutex self m)).

(** ** Threads and the lock of the stack *)

(** A thread runs its function: the calls made, in order. *)
Definition sys_thread_function (t : threadlist) : string * Z := (tl_function t, tl_arg t).

(** [h]: the handle [CreateThread] returns, with the identifier of the thread. *)
Definition sys_thread_new (function : string) (arg : Z) (malloc_ok : bool) (h id : Z)
    : sysM Z :=
  _ ← sys_assert malloc_ok;
  _ ← sys_arch_protect;
  _ ← sys_mod (λ s, SysState (freq s) (sys_start_time s) (protection_depth s) (stats_sem s)
    (stats_mutex s) (stats_mbox s) (ThreadEntry function arg id :: lwip_win32_threads s)
    (lwip_tcpip_thread_id s) (lwip_core_lock_holder_thread_id s));
  _ ← sys_assert (negb (h =? 0));
  _ ← sys_assert (negb (h =? -1));
  _ ← sys_arch_unprotect;
  mret id.

(** Between two actions of a call another thread can run.  An action gets the mutex, and
    answers [None] while its thread waits. *)
Definition core_act : Type := option win_mutex → sysM (option (option win_mutex)).

Fixpoint run_acts (acts : list core_act) (lock : option win_mutex) : sysM (option (option win_mutex)) :=
  match acts with
  | [] => mret (Some lock)
  | act :: acts =>
      r ← act lock;
      match r with None => mret None | Some lock => run_acts acts lock end
  end.

Definition sys_lock_tcpip_core_acts (self : Z) : list core_act :=
  [λ lock, m ← sys_mutex_lock self lock; mret (Some <$> m);
   λ lock, _ ← sys_mod (set_holder self); mret (Some lock)].

Definition sys_unlock_tcpip_core_acts (self : Z) : list core_act :=
  [λ lock, _ ← sys_mod (set_holder 0); mret (Some lock);
   λ lock, m ← sys_mutex_unlock self lock; mret (Some (Some m))].

Definition sys_lock_tcpip_core (self : Z) (lock : option win_mutex)
    : sysM (option win_mutex) :=
  r ← run_acts (sys_lock_tcpip_core_acts self) lock; mret (mjoin r).

Definition sys_unlock_tcpip_core (self : Z) (lock : option win_mutex) : sysM win_mutex :=
  r ← run_acts (sys_unlock_tcpip_core_acts self) lock; sys_lift (oget Aborted (mjoin r)).

Definition sys_mark_tcpip_thread (self : Z) : sysM () :=
  sys_mod (λ s, SysState (freq s) (sys_start_time s) (protection_depth s) (stats_sem s)
    (stats_mutex s) (stats_mbox s) (lwip_win32_threads s) self
    (lwip_core_lock_holder_thread_id s)).

(** [LWIP_ASSERT_CORE_LOCKED] *)
Definition sys_check_core_locking (self : Z) : sysM () :=
  t ← sys_get lwip_tcpip_thread_id;
  if t =? 0 then mret ()
  else h ← sys_get lwip_core_lock_holder_thread_id; sys_assert (self =? h).

(** ** Mailboxes *)

Definition MAX_QUEUE_ENTRIES : Z := 100.

(** [struct lwip_mbox]; messages are pointers. *)
Record lwip_mbox : Type := Mbox {
  mb_sem : option win_sem; q_mem : list Z; mb_head : Z; mb_tail : Z;
}.

Definition ring_next (i : Z) : Z := if MAX_QUEUE_ENTRIES <=? i + 1 then 0 else i + 1.

(** The [memset] clears four bytes per slot and leaves the rest of a 64-bit
    array, which no one reads before it is written. *)
Definition sys_mbox_new (ok : bool) : sysM (Z * lwip_mbox) :=
  _ ← sys_assert ok;
  _ ← elem_created KMbox true;
  mret (ERR_OK, Mbox (Some (WinSem 0 MAX_QUEUE_ENTRIES))
          (replicate (Z.to_nat MAX_QUEUE_ENTRIES) 0) 0 0).

Definition sys_mbox_free (mbox : lwip_mbox) : sysM lwip_mbox :=
  _ ← sys_assert (is_some (mb_sem mbox));
  _ ← elem_freed KMbox false;
  mret (Mbox None (q_mem mbox) (mb_head mbox) (mb_tail mbox)).

(** [q->q_mem[i] = msg] *)
Definition ring_put (q : list Z) (i msg : Z) : res (list Z) :=
  if bool_decide (0 <= i < Z.of_nat (length q)) then Ok (<[Z.to_nat i := msg]> q)
  else Fault OutOfBounds.

Definition ring_get (q : list Z) (i : Z) : res Z := oget OutOfBounds (q !! Z.to_nat i).

(** Both ways of posting end alike: the slot is written, the semaphore released. *)
Definition mbox_put (q : lwip_mbox) (s : win_sem) (msg : Z) : sysM lwip_mbox :=
  mem ← sys_lift (ring_put (q_mem q) (mb_head q) msg);
  let head := ring_next (mb_head q) in
  _ ← sys_assert (negb (head =? mb_tail q));
  s' ← sys_lift (oget Aborted (ReleaseSemaphore s));
  _ ← sys_arch_unprotect;
  mret (Mbox (Some s') mem head (mb_tail q)).

Definition sys_mbox_post (q : lwip_mbox) (msg : Z) : sysM lwip_mbox :=
  _ ← sys_arch_check_not_protected;
  s ← sys_lift (oget Aborted (mb_sem q));
  _ ← sys_arch_protect;
  mbox_put q s msg.

Definition sys_mbox_trypost (q : lwip_mbox) (msg : Z) : sysM (Z * lwip_mbox) :=
  _ ← sys_arch_check_not_protected;
  s ← sys_lift (oget Aborted (mb_sem q));
  _ ← sys_arch_protect;
  if ring_next (mb_head q) =? mb_tail q then
    _ ← sys_arch_unprotect; mret (ERR_MEM, q)
  else
    q' ← mbox_put q s msg; mret (ERR_OK, q').

Definition sys_mbox_trypost_fromisr (q : lwip_mbox) (msg : Z) : sysM (Z * lwip_mbox) :=
  sys_mbox_trypost q msg.

(** The wait took the semaphore: the slot is read under the critical section. *)
Definition mbox_take (q : lwip_mbox) : sysM (Z * lwip_mbox) :=
  _ ← sys_arch_protect;
  m ← sys_lift (ring_get (q_mem q) (mb_tail q));
  _ ← sys_arch_unprotect;
  mret (m, Mbox (mb_sem q) (q_mem q) (mb_head q) (ring_next (mb_tail q))).

Definition sem_down (q : lwip_mbox) : lwip_mbox :=
  Mbox (ws_taken <$> mb_sem q) (q_mem q) (mb_head q) (mb_tail q).

(** The result, the message ([None]: NULL) and the mailbox.  [ret] is what the
    wait ends with, [q] the mailbox at that moment: other threads may have posted
    since the call. *)
Definition sys_arch_mbox_fetch (q : lwip_mbox) (ret : wait_result) (t0 t1 : Z)
    : sysM (Z * option Z * lwip_mbox) :=
  _ ← sys_assert (is_some (mb_sem q));
  start ← sys_get_ms_longlong t0;
  if decide (ret = WAIT_OBJECT_0) then
    '(m, q') ← mbox_take (sem_down q);
    fin ← sys_get_ms_longlong t1;
    mret (u32 (fin - start), Some m, q')
  else
    _ ← sys_assert (bool_decide (ret = WAIT_TIMEOUT));
    mret (SYS_ARCH_TIMEOUT, None, q).

Definition sys_arch_mbox_tryfetch (q : lwip_mbox) (ret : wait_result)
    : sysM (Z * option Z * lwip_mbox) :=
  _ ← sys_assert (is_some (mb_sem q));
  if decide (ret = WAIT_OBJECT_0) then
    '(m, q') ← mbox_take (sem_down q); mret (0, Some m, q')
  else
    _ ← sys_assert (bool_decide (ret = WAIT_TIMEOUT));
    mret (SYS_ARCH_TIMEOUT, None, q).

(** ** The keyboard *)

(** A key with a character is pressed: the answers of [PeekConsoleInput] and
    [ReadConsoleInput]. *)
Definition lwip_win32_keypressed (peek : bool) (num : Z) (key_event down : bool) (ascii : Z) : Z :=
  if peek && negb (num =? 0) && key_event && down && negb (ascii =? 0) then 1 else 0.

(** ** The critical section is never nested *)

Lemma sys_bind_Ok {A B} (m : sysM A) (f : A → sysM B) s a s' :
  m s = Ok (a, s') → (m ≫= f) s = f a s'.
Proof. intros E. unfold mbind, sys_bind. by rewrite E. Qed.

Lemma sys_assert_true s b : b = true → sys_assert b s = Ok ((), s).
Proof. by intros ->. Qed.

Lemma protect_idle s :
  protection_depth s = 0 → sys_arch_protect s = Ok ((), set_depth 1 s).
Proof. destruct s. simpl. by intros ->. Qed.

Lemma unprotect_idle s : protection_depth s = 0 →
  sys_arch_unprotect (set_depth 1 s) = Ok ((), s).
Proof. destruct s. simpl. by intros ->. Qed.

Lemma check_idle s :
  protection_depth s = 0 → sys_arch_check_not_protected s = Ok ((), s).
Proof.
  intros H. unfold sys_arch_check_not_protected.
  rewrite (sys_bind_Ok _ _ _ _ _ (protect_idle _ H)). simpl.
  unfold mbind at 1, sys_bind at 1. simpl. by apply unprotect_idle.
Qed.

(** Entering it twice, or posting from inside, ends the process. *)
Lemma nested_protect_aborts s :
  protection_depth s = 1 → sys_arch_protect s = Fault Aborted ∧
  (∀ q m, sys_mbox_post q m s = Fault Aborted) ∧ (∀ sem, sys_sem_signal sem s = Fault Aborted).
Proof.
  intros H. assert (sys_arch_protect s = Fault Aborted) as E.
  { destruct s. simpl in *. by subst. }
  split; [done|]. split; intros; unfold sys_mbox_post, sys_sem_signal,
    sys_arch_check_not_protected, mbind, sys_bind; by rewrite E.
Qed.

(** ** A mailbox is a bounded queue *)

(** [l]: the messages between tail and head; [p] threads have taken the semaphore
    and not yet the critical section. *)
Record mbox_holds (q : lwip_mbox) (l : list Z) (p : nat) : Prop := MboxHolds {
  mh_sem : mb_sem q = Some (WinSem (Z.of_nat (length l) - Z.of_nat p) MAX_QUEUE_ENTRIES);
  mh_mem : length (q_mem q) = Z.to_nat MAX_QUEUE_ENTRIES;
  mh_tail : 0 <= mb_tail q < MAX_QUEUE_ENTRIES;
  mh_head : mb_head q = (mb_tail q + Z.of_nat (length l)) mod MAX_QUEUE_ENTRIES;
  mh_room : (length l < Z.to_nat MAX_QUEUE_ENTRIES)%nat;
  mh_pending : (p <= length l)%nat;
  mh_slots : ∀ k m, l !! k = Some m →
    q_mem q !! Z.to_nat ((mb_tail q + Z.of_nat k) mod MAX_QUEUE_ENTRIES) = Some m;
}.

Lemma ring_next_mod i : 0 <= i < MAX_QUEUE_ENTRIES → ring_next i = (i + 1) mod MAX_QUEUE_ENTRIES.
Proof.
  unfold ring_next, MAX_QUEUE_ENTRIES. intros. destruct (Z.leb_spec 100 (i + 1)).
  - by replace (i + 1) with 100 by lia.
  - by rewrite Z.mod_small by lia.
Qed.

(** Positions of a ring that are less than a round apart differ. *)
Lemma ring_ne t i j :
  0 <= i < MAX_QUEUE_ENTRIES → 0 <= j < MAX_QUEUE_ENTRIES → i ≠ j →
  (t + i) mod MAX_QUEUE_ENTRIES ≠ (t + j) mod MAX_QUEUE_ENTRIES.
Proof.
  unfold MAX_QUEUE_ENTRIES. intros Hi Hj Hne E.
  pose proof (Z.div_mod (t + i) 100). pose proof (Z.div_mod (t + j) 100). lia.
Qed.

(** The slot behind the head is the tail exactly when one slot is left. *)
Lemma ring_full q l p : mbox_holds q l p →
  (ring_next (mb_head q) =? mb_tail q) = bool_decide (length l = 99%nat).
Proof.
  intros [_ _ Ht Hh Hr _ _]. unfold MAX_QUEUE_ENTRIES in *.
  rewrite ring_next_mod, Hh, Zplus_mod_idemp_l, <- Z.add_assoc
    by (rewrite Hh; apply Z.mod_pos_bound; done). unfold MAX_QUEUE_ENTRIES.
  destruct (bool_decide_reflect (length l = 99%nat)) as [->|Hl]; apply Z.eqb_eq || apply Z.eqb_neq.
  - change (Z.of_nat 99 + 1) with (1 * 100). rewrite Z.mod_add, Z.mod_small; lia.
  - intros E. apply (ring_ne (mb_tail q) (Z.of_nat (length l) + 1) 0);
      unfold MAX_QUEUE_ENTRIES; [lia..|]. by rewrite Z.add_0_r, (Z.mod_small (mb_tail q)) by lia.
Qed.

(** Writing the free slot appends a message. *)
Lemma mbox_put_spec q l p sem m s :
  mbox_holds q l p → mb_sem q = Some sem → length l ≠ 99%nat → protection_depth s = 0 →
  ∃ q', mbox_put q sem m (set_depth 1 s) = Ok (q', s) ∧ mbox_holds q' (l ++ [m]) p.
Proof.
  intros Hq Hsem Hl Hs. pose proof (ring_full _ _ _ Hq) as Hf.
  rewrite bool_decide_eq_false_2 in Hf by done.
  destruct Hq as [Hm Hlen Ht Hh Hr Hp Hk]. rewrite Hsem in Hm. injection Hm as ->.
  unfold MAX_QUEUE_ENTRIES in *. assert (0 <= mb_head q < 100) as Hh'
    by (rewrite Hh; apply Z.mod_pos_bound; done).
  unfold mbox_put. rewrite (sys_bind_Ok _ _ _ (<[Z.to_nat (mb_head q) := m]> (q_mem q)) (set_depth 1 s)).
  2: { unfold sys_lift, ring_put. by rewrite bool_decide_eq_true_2 by (rewrite Hlen; lia). }
  rewrite Hf. erewrite sys_bind_Ok; [|by apply sys_assert_true].
  erewrite sys_bind_Ok.
  2: { unfold sys_lift, ReleaseSemaphore. cbn [ws_count ws_max].
       rewrite (proj2 (Z.leb_le _ _)) by lia. reflexivity. }
  erewrite sys_bind_Ok; [|by apply unprotect_idle].
  eexists. split; [reflexivity|].
  split; cbn [mb_sem q_mem mb_head mb_tail]; rewrite ?length_app, ?length_insert; cbn [length];
    unfold MAX_QUEUE_ENTRIES; try lia.
  - do 2 f_equal. lia.
  - rewrite ring_next_mod, Hh, Zplus_mod_idemp_l by done. unfold MAX_QUEUE_ENTRIES. f_equal. lia.
  - intros k m' [Hkm|[Hk0 Hkm]]%lookup_app_Some.
    + pose proof (lookup_lt_Some _ _ _ Hkm). rewrite list_lookup_insert_ne; [by apply Hk|].
      pose proof (Z.mod_pos_bound (mb_tail q + Z.of_nat k) 100).
      intros E. apply Z2Nat.inj in E; [|lia..].
      revert E. rewrite Hh. apply ring_ne; unfold MAX_QUEUE_ENTRIES; lia.
    + apply list_lookup_singleton_Some in Hkm as [Hkm <-].
      replace k with (length l) by lia. rewrite <- Hh.
      apply list_lookup_insert_eq. rewrite Hlen. lia.
Qed.

Lemma sys_mbox_post_spec q l p m s :
  mbox_holds q l p → protection_depth s = 0 →
  (length l = 99%nat ∧ sys_mbox_post q m s = Fault Aborted) ∨
  (length l ≠ 99%nat ∧ ∃ q', sys_mbox_post q m s = Ok (q', s) ∧ mbox_holds q' (l ++ [m]) p).
Proof.
  intros Hq Hs. pose proof (ring_full _ _ _ Hq) as Hf. pose proof (mh_sem _ _ _ Hq) as Hm.
  assert (sys_mbox_post q m s =
    mbox_put q (WinSem (Z.of_nat (length l) - Z.of_nat p) MAX_QUEUE_ENTRIES) m (set_depth 1 s)) as ->.
  { unfold sys_mbox_post. erewrite sys_bind_Ok by by apply check_idle.
    erewrite sys_bind_Ok by by rewrite Hm. by erewrite sys_bind_Ok by by apply protect_idle. }
  destruct (decide (length l = 99%nat)) as [Hl|Hl]; [left|right].
  - split; [done|]. rewrite bool_decide_eq_true_2 in Hf by done.
    destruct Hq as [_ Hlen Ht Hh _ _ _]. unfold mbox_put.
    erewrite sys_bind_Ok.
    2: { unfold sys_lift, ring_put. rewrite bool_decide_eq_true_2; [reflexivity|].
         rewrite Hh, Hlen, Z2Nat.id by done. apply Z.mod_pos_bound. done. }
    by rewrite Hf.
  - split; [done|]. eapply mbox_put_spec; eauto.
Qed.

Lemma sys_mbox_trypost_spec q l p m s :
  mbox_holds q l p → protection_depth s = 0 →
  (length l = 99%nat ∧ sys_mbox_trypost q m s = Ok ((ERR_MEM, q), s)) ∨
  (length l ≠ 99%nat ∧ ∃ q', sys_mbox_trypost q m s = Ok ((ERR_OK, q'), s) ∧
     mbox_holds q' (l ++ [m]) p).
Proof.
  intros Hq Hs. pose proof (ring_full _ _ _ Hq) as Hf. pose proof (mh_sem _ _ _ Hq) as Hm.
  unfold sys_mbox_trypost. erewrite sys_bind_Ok by by apply check_idle.
  erewrite sys_bind_Ok by by rewrite Hm. erewrite sys_bind_Ok by by apply protect_idle.
  rewrite Hf. destruct (bool_decide_reflect (length l = 99%nat)) as [Hl|Hl]; [left|right].
  - split; [done|]. by erewrite sys_bind_Ok by by apply unprotect_idle.
  - split; [done|]. destruct (mbox_put_spec q l p _ m s Hq Hm Hl Hs) as (q' & E & Hq').
    exists q'. by rewrite (sys_bind_Ok _ _ _ _ _ E).
Qed.

Lemma sem_down_spec q l p :
  mbox_holds q l p → (p < length l)%nat → mbox_holds (sem_down q) l (S p).
Proof.
  intros [Hm Hlen Ht Hh Hr Hp Hk] Hlt. split; cbn [sem_down mb_sem q_mem mb_head mb_tail];
    try done.
  rewrite Hm. cbn. unfold ws_taken. cbn [ws_count ws_max]. do 2 f_equal. lia.
Qed.

Lemma mbox_take_spec q m l p s :
  mbox_holds q (m :: l) (S p) → protection_depth s = 0 →
  ∃ q', mbox_take q s = Ok ((m, q'), s) ∧ mbox_holds q' l p.
Proof.
  intros [Hm Hlen Ht Hh Hr Hp Hk] Hs. simpl in *. unfold mbox_take.
  erewrite sys_bind_Ok by by apply protect_idle.
  erewrite sys_bind_Ok.
  2: { unfold sys_lift, ring_get. specialize (Hk 0%nat m eq_refl).
       rewrite Z.add_0_r, Z.mod_small in Hk by done. rewrite Hk. reflexivity. }
  erewrite sys_bind_Ok by by apply unprotect_idle.
  eexists. split; [reflexivity|].
  split; cbn [mb_sem q_mem mb_head mb_tail]; rewrite ?ring_next_mod by done; try lia.
  - rewrite Hm. do 2 f_equal. lia.
  - apply Z.mod_pos_bound. done.
  - rewrite Hh, Zplus_mod_idemp_l. f_equal. lia.
  - intros k m' Hkm. specialize (Hk (S k) m' Hkm). rewrite <- Hk, Zplus_mod_idemp_l.
    do 3 f_equal. lia.
Qed.

(** ** Threads on a mailbox

    The atomic steps of the threads that use one mailbox, in any order: a post, a
    post that may fail, the wait of a fetch ([BWait], without effect while the
    semaphore is zero: the thread stays where it is) and the rest of that fetch
    ([BTake], of one of the threads that took the semaphore). *)

Inductive mbox_op : Type := BPost (m : Z) | BTryPost (m : Z) | BWait | BTake.

(** What a step gives its thread. *)
Inductive mbox_out : Type := OPosted | OTried (e : Z) | OWaits | OWoken | OTaken (m : Z) | OIdle.

Definition sem_count (q : lwip_mbox) : Z :=
  match mb_sem q with Some s => ws_count s | None => 0 end.

Definition mbox_step (o : mbox_op) (st : lwip_mbox * nat) : sysM (mbox_out * (lwip_mbox * nat)) :=
  let '(q, p) := st in
  match o with
  | BPost m => q' ← sys_mbox_post q m; mret (OPosted, (q', p))
  | BTryPost m => '(e, q') ← sys_mbox_trypost q m; mret (OTried e, (q', p))
  | BWait => if 0 <? sem_count q then mret (OWoken, (sem_down q, S p)) else mret (OWaits, st)
  | BTake =>
      match p with
      | O => mret (OIdle, st)
      | S p => '(m, q') ← mbox_take q; mret (OTaken m, (q', p))
      end
  end.

Fixpoint mbox_run (ops : list mbox_op) (st : lwip_mbox * nat)
    : sysM (list mbox_out * (lwip_mbox * nat)) :=
  match ops with
  | [] => mret ([], st)
  | o :: ops =>
      '(r, st) ← mbox_step o st;
      '(rs, st) ← mbox_run ops st;
      mret (r :: rs, st)
  end.

(** The specification: a queue of at most 99 messages; posting to a full one ends
    the process, or fails when the caller can bear it. *)
Definition queue_step (o : mbox_op) (st : list Z * nat) : res (mbox_out * (list Z * nat)) :=
  let '(l, p) := st in
  match o with
  | BPost m => if decide (length l = 99%nat) then Fault Aborted else Ok (OPosted, (l ++ [m], p))
  | BTryPost m =>
      if decide (length l = 99%nat) then Ok (OTried ERR_MEM, st)
      else Ok (OTried ERR_OK, (l ++ [m], p))
  | BWait => if decide (p < length l)%nat then Ok (OWoken, (l, S p)) else Ok (OWaits, st)
  | BTake =>
      match p, l with
      | S p, m :: l => Ok (OTaken m, (l, p))
      | _, _ => Ok (OIdle, st)
      end
  end.

Fixpoint queue_run (ops : list mbox_op) (st : list Z * nat) : res (list mbox_out * (list Z * nat)) :=
  match ops with
  | [] => Ok ([], st)
  | o :: ops =>
      '(r, st) ← queue_step o st;
      '(rs, st) ← queue_run ops st;
      Ok (r :: rs, st)
  end.

Lemma mbox_step_refines o q l p s :
  mbox_holds q l p → protection_depth s = 0 →
  match queue_step o (l, p) with
  | Ok (r, (l', p')) => ∃ q', mbox_step o (q, p) s = Ok ((r, (q', p')), s) ∧ mbox_holds q' l' p'
  | Fault e => mbox_step o (q, p) s = Fault e
  end.
Proof.
  intros Hq Hs. destruct o as [m|m| |]; cbn [queue_step mbox_step].
  - destruct (sys_mbox_post_spec q l p m s Hq Hs) as [[Hl E]|(Hl & q' & E & Hq')].
    + rewrite decide_True by done. unfold mbind, sys_bind. by rewrite E.
    + rewrite decide_False by done. exists q'. by rewrite (sys_bind_Ok _ _ _ _ _ E).
  - destruct (sys_mbox_trypost_spec q l p m s Hq Hs) as [[Hl E]|(Hl & q' & E & Hq')].
    + rewrite decide_True by done. exists q. by rewrite (sys_bind_Ok _ _ _ _ _ E).
    + rewrite decide_False by done. exists q'. by rewrite (sys_bind_Ok _ _ _ _ _ E).
  - unfold sem_count. rewrite (mh_sem _ _ _ Hq). cbn [ws_count].
    pose proof (mh_pending _ _ _ Hq). case_decide as Hp.
    + rewrite (proj2 (Z.ltb_lt _ _)) by lia. eexists. split; [done|]. by apply sem_down_spec.
    + rewrite (proj2 (Z.ltb_ge _ _)) by lia. by eexists.
  - pose proof (mh_pending _ _ _ Hq). destruct p as [|p]; [by eexists|].
    destruct l as [|m l]; [simpl in *; lia|].
    destruct (mbox_take_spec q m l p s Hq Hs) as (q' & E & Hq').
    exists q'. by rewrite (sys_bind_Ok _ _ _ _ _ E).
Qed.

Lemma mbox_run_refines ops : ∀ q l p s,
  mbox_holds q l p → protection_depth s = 0 →
  match queue_run ops (l, p) with
  | Ok (rs, (l', p')) => ∃ q', mbox_run ops (q, p) s = Ok ((rs, (q', p')), s) ∧ mbox_holds q' l' p'
  | Fault e => mbox_run ops (q, p) s = Fault e
  end.
Proof.
  induction ops as [|o ops IH]; intros q l p s Hq Hs; [by eexists|]. cbn [queue_run mbox_run].
  pose proof (mbox_step_refines o q l p s Hq Hs) as Ho.
  destruct (queue_step o (l, p)) as [[r [l1 p1]]|e]; cbn [mbind res_bind].
  - destruct Ho as (q1 & E & Hq1). rewrite (sys_bind_Ok _ _ _ _ _ E).
    specialize (IH q1 l1 p1 s Hq1 Hs). destruct (queue_run ops (l1, p1)) as [[rs [l2 p2]]|e].
    + destruct IH as (q2 & E2 & Hq2). exists q2. by rewrite (sys_bind_Ok _ _ _ _ _ E2).
    + unfold mbind, sys_bind. by rewrite IH.
  - unfold mbind, sys_bind. by rewrite Ho.
Qed.

Lemma sys_bind_inv {A B} (m : sysM A) (f : A → sysM B) s b s' :
  (m ≫= f) s = Ok (b, s') → ∃ a s1, m s = Ok (a, s1) ∧ f a s1 = Ok (b, s').
Proof. unfold mbind, sys_bind. destruct (m s) as [[a s1]|]; [|done]. by eauto. Qed.

Lemma sys_assert_inv b s u s' : sys_assert b s = Ok (u, s') → s' = s ∧ b = true.
Proof. destruct b; [|done]. by intros [= _ ->]. Qed.

(** Leaving the critical section leaves its counter at zero. *)
Lemma locked_idle {A} (m : sysM A) s a s' :
  sys_arch_locked m s = Ok (a, s') → protection_depth s' = 0.
Proof.
  unfold sys_arch_locked. intros (u1 & s1 & _ & E)%sys_bind_inv.
  apply sys_bind_inv in E as (a1 & s2 & _ & E). apply sys_bind_inv in E as (u & s3 & Eu & E).
  injection E as _ <-. unfold sys_arch_unprotect in Eu.
  apply sys_bind_inv in Eu as (d & s4 & Eg & Eu). injection Eg as <- <-.
  apply sys_bind_inv in Eu as (u2 & s5 & Ea & Em).
  apply sys_assert_inv in Ea as [-> Hd%Z.eqb_eq]. injection Em as _ <-. simpl. lia.
Qed.

Lemma sys_mbox_new_spec s e q s1 :
  sys_mbox_new true s = Ok ((e, q), s1) → protection_depth s1 = 0 ∧ mbox_holds q [] 0.
Proof.
  unfold sys_mbox_new. intros (u1 & s2 & _ & E)%sys_bind_inv.
  apply sys_bind_inv in E as (u2 & s3 & Ec & E). injection E as _ <- <-. split.
  - unfold elem_created in Ec. apply sys_bind_inv in Ec as (u3 & s4 & El & Ec).
    apply locked_idle in El. apply sys_bind_inv in Ec as (x & s5 & Eg & Ea).
    injection Eg as _ <-. by apply sys_assert_inv in Ea as [-> _].
  - split; unfold MAX_QUEUE_ENTRIES; simpl; try done; lia.
Qed.

(** The messages a run has posted and those it has fetched. *)
Fixpoint run_posted (ops : list mbox_op) (rs : list mbox_out) : list Z :=
  match ops, rs with
  | BPost m :: ops, OPosted :: rs => m :: run_posted ops rs
  | BTryPost m :: ops, OTried e :: rs =>
      if e =? ERR_OK then m :: run_posted ops rs else run_posted ops rs
  | _ :: ops, _ :: rs => run_posted ops rs
  | _, _ => []
  end.

Fixpoint run_taken (rs : list mbox_out) : list Z :=
  match rs with
  | [] => []
  | OTaken m :: rs => m :: run_taken rs
  | _ :: rs => run_taken rs
  end.

Lemma queue_run_order ops : ∀ l p rs l' p',
  queue_run ops (l, p) = Ok (rs, (l', p')) → l ++ run_posted ops rs = run_taken rs ++ l'.
Proof.
  induction ops as [|o ops IH]; intros l p rs l' p' E; cbn [queue_run] in E; inv_res.
  { by rewrite app_nil_r. }
  destruct r as [r [l1 p1]]. inv_res. destruct r0 as [rs0 [l2 p2]]. inv_res.
  apply IH in E1.
  destruct o as [m|m| |]; cbn [queue_step] in E0; repeat case_match; inv_res;
    cbn [run_posted run_taken app]; rewrite <- ?E1, <- ?app_assoc; done.
Qed.

(** C15 (refinement).  Whatever order the threads that share a mailbox take their
    steps in, each gets what a queue of at most 99 messages gives: posting to a
    full one ends the process, trying to fails with [ERR_MEM], a fetch waits while
    every message is spoken for, and messages are fetched in the order in which
    they were posted, none of them twice and none lost. *)
Theorem mailbox_is_bounded_queue ops s q s1 :
  sys_mbox_new true s = Ok ((ERR_OK, q), s1) →
  (λ r, r.1.1) <$> mbox_run ops (q, 0%nat) s1 = fst <$> queue_run ops ([], 0%nat) ∧
  ∀ rs fin, mbox_run ops (q, 0%nat) s1 = Ok ((rs, fin), s1) →
    run_taken rs `prefix_of` run_posted ops rs.
Proof.
  intros E. assert (protection_depth s1 = 0 ∧ mbox_holds q [] 0) as [Hs Hq].
  { by eapply sys_mbox_new_spec. }
  pose proof (mbox_run_refines ops q [] 0 s1 Hq Hs) as Hr.
  destruct (queue_run ops ([], 0%nat)) as [[rs [l p]]|e] eqn:Er.
  - destruct Hr as (q' & -> & _). split; [done|]. intros rs' fin [= <- <-].
    apply queue_run_order in Er. simpl in Er. rewrite Er. by exists l.
  - rewrite Hr. split; [done|]. intros rs fin [=].
Qed.

(** A thread is woken for the first message; a second one arrives before it
    reads. *)
Lemma mailbox_is_bounded_queue_witness :
  ∃ q s1, sys_mbox_new true sys_boot = Ok ((ERR_OK, q), s1) ∧
  let ops := [BWait; BPost 7; BWait; BTryPost 8; BTake; BWait; BTake] in
  (λ r, r.1.1) <$> mbox_run ops (q, 0%nat) s1
    = Ok [OWaits; OPosted; OWoken; OTried 0; OTaken 7; OWoken; OTaken 8] ∧
  (λ r, r.1.1) <$> mbox_run ops (q, 0%nat) s1 = fst <$> queue_run ops ([], 0%nat).
Proof.
  eexists _, _. split; [vm_compute; reflexivity|]. split; [vm_compute; reflexivity|].
  apply (mailbox_is_bounded_queue _ sys_boot). vm_compute. reflexivity.
Defined.

(** ** Threads on the lock of the stack

    Threads lock and unlock in turn, over and over, with the actions of the two calls;
    a thread is at the number of its next action. *)

Definition core_call (self : Z) : list core_act := sys_lock_tcpip_core_acts self ++ sys_unlock_tcpip_core_acts self.

(** Outside, and between the two calls. *)
Definition core_out : nat := 0.
Definition core_in (self : Z) : nat := length (sys_lock_tcpip_core_acts self).

Record core_state : Type := CoreState {
  cs_mutex : win_mutex; cs_sys : sysarch; cs_pcs : list nat;
}.

(** Identifiers of threads are not zero. *)
Definition tid (i : nat) : Z := Z.of_nat i + 1.

Definition is_in (i : nat) (st : core_state) : Prop := cs_pcs st !! i = Some (core_in (tid i)).

(** Thread [i] takes its next action, if it can. *)
Definition core_step (i : nat) (st : core_state) : res core_state :=
  match cs_pcs st !! i with
  | None => Ok st
  | Some k =>
      act ← oget OutOfBounds (core_call (tid i) !! k);
      '(r, s) ← act (Some (cs_mutex st)) (cs_sys st);
      match mjoin r with
      | None => Ok st
      | Some m =>
          let next := if (S k =? length (core_call (tid i)))%nat then core_out else S k in
          Ok (CoreState m s (<[i := next]> (cs_pcs st)))
      end
  end.

Fixpoint core_run (sched : list nat) (st : core_state) : res core_state :=
  match sched with
  | [] => Ok st
  | i :: sched => st ← core_step i st; core_run sched st
  end.

Definition holder_of (k : nat) (p : nat) : Z := if decide (p = 2%nat) then tid k else 0.

(** One thread at most is not outside; it owns the mutex once, and its
    identifier is noted exactly while it is between the calls. *)
Record core_inv (st : core_state) : Prop := CoreInv {
  ci_idle : protection_depth (cs_sys st) = 0;
  ci_owner :
    (cs_mutex st = WinMutex None 0 ∧ lwip_core_lock_holder_thread_id (cs_sys st) = 0 ∧
       ∀ i p, cs_pcs st !! i = Some p → p = 0%nat) ∨
    (∃ k p, cs_mutex st = WinMutex (Some (tid k)) 1 ∧ cs_pcs st !! k = Some p ∧ (0 < p < 4)%nat ∧
       lwip_core_lock_holder_thread_id (cs_sys st) = holder_of k p ∧
       ∀ i p', cs_pcs st !! i = Some p' → i ≠ k → p' = 0%nat);
}.

Lemma tid_inj i j : tid i = tid j → i = j.
Proof. unfold tid. lia. Qed.

(** The owner moves on while the others stay outside. *)
Lemma core_inv_moves m s pcs k p :
  protection_depth s = 0 → (k < length pcs)%nat → (0 < p < 4)%nat →
  m = WinMutex (Some (tid k)) 1 → lwip_core_lock_holder_thread_id s = holder_of k p →
  (∀ i p', pcs !! i = Some p' → i ≠ k → p' = 0%nat) →
  core_inv (CoreState m s (<[k := p]> pcs)).
Proof.
  intros Hs Hk Hp Hm Hh Ho. split; [done|]. right. exists k, p. split; [done|].
  split; [by apply list_lookup_insert_eq|]. split; [done|]. split; [done|].
  intros i p' Hi Hne. cbn [cs_pcs] in Hi. rewrite list_lookup_insert_ne in Hi by done. eauto.
Qed.

Lemma unlock_owned self s :
  protection_depth s = 0 → sys_mutex_unlock self (Some (WinMutex (Some self) 1)) s = Ok (WinMutex None 0, s).
Proof.
  intros Hs. unfold sys_mutex_unlock. erewrite sys_bind_Ok by by apply check_idle.
  unfold mbind, sys_bind, sys_lift, ReleaseMutex. simpl. by rewrite Z.eqb_refl.
Qed.

Lemma unlock_core_owned self s :
  protection_depth s = 0 →
  sys_unlock_tcpip_core self (Some (WinMutex (Some self) 1)) s = Ok (WinMutex None 0, set_holder 0 s).
Proof.
  intros Hs. unfold sys_unlock_tcpip_core. cbn. unfold mbind, sys_bind, sys_mod. cbn. by rewrite unlock_owned.
Qed.

Lemma check_val self s :
  lwip_tcpip_thread_id s ≠ 0 →
  sys_check_core_locking self s = if self =? lwip_core_lock_holder_thread_id s then Ok ((), s) else Fault Aborted.
Proof.
  intros Ht. unfold sys_check_core_locking, mbind, sys_bind, sys_get, sys_assert, sys_lift, lwip_assert.
  rewrite (proj2 (Z.eqb_neq _ _) Ht). by destruct (self =? _).
Qed.

Lemma core_step_inv i st :
  core_inv st → ∃ st', core_step i st = Ok st' ∧ core_inv st' ∧
    lwip_tcpip_thread_id (cs_sys st') = lwip_tcpip_thread_id (cs_sys st) ∧
    length (cs_pcs st') = length (cs_pcs st).
Proof.
  intros Hinv. destruct st as [m s pcs]. destruct Hinv as [Hs Hown].
  cbn [cs_mutex cs_sys cs_pcs] in *. unfold core_step. cbn [cs_mutex cs_sys cs_pcs].
  destruct (pcs !! i) as [pi|] eqn:Hi; [|by eexists].
  pose proof (lookup_lt_Some _ _ _ Hi) as Hlt.
  destruct Hown as [(-> & Hh & Hall)|(k & p & -> & Hk & Hp & Hh & Hall)].
  - rewrite (Hall i pi Hi). eexists. split; [reflexivity|]. cbn [cs_pcs cs_sys]. rewrite length_insert. split; [|done].
    apply core_inv_moves; try done; simpl; [lia|]. eauto.
  - destruct (decide (i = k)) as [->|Hne].
    + rewrite Hi in Hk. injection Hk as ->. destruct p as [|[|[|[|p]]]]; try lia.
      * eexists. split; [reflexivity|]. cbn [cs_pcs cs_sys]. rewrite length_insert. split; [|done].
        apply core_inv_moves; try done. simpl. lia.
      * eexists. split; [reflexivity|]. cbn [cs_pcs cs_sys]. rewrite length_insert. split; [|done].
        apply core_inv_moves; try done. simpl. lia.
      * cbn [core_call sys_lock_tcpip_core_acts sys_unlock_tcpip_core_acts app lookup list_lookup oget mbind res_bind].
        erewrite sys_bind_Ok by by apply unlock_owned. eexists. split; [reflexivity|]. cbn [cs_pcs cs_sys]. rewrite length_insert. split; [|done]. split; [done|].
        left. split; [done|]. split; [done|]. intros j p' Hj.  cbn [cs_pcs] in Hj.
        destruct (decide (j = k)) as [->|Hjk].
        -- rewrite list_lookup_insert_eq in Hj by done. by injection Hj as <-.
        -- rewrite list_lookup_insert_ne in Hj by done. eauto.
    + rewrite (Hall i pi Hi Hne). cbn [core_call sys_lock_tcpip_core_acts app lookup list_lookup oget].
      unfold sys_mutex_lock, take_mutex, mbind, sys_bind, sys_lift.
      simpl. destruct (Z.eqb_spec (tid k) (tid i)) as [E|_]; [by apply tid_inj in E|].
      simpl. eexists. split; [reflexivity|]. split; [|done]. split; [done|]. right.
      exists k, p. by split; [|split; [|split; [|split]]].
Qed.

Lemma core_run_inv sched : ∀ st,
  core_inv st → ∃ st', core_run sched st = Ok st' ∧ core_inv st' ∧
    lwip_tcpip_thread_id (cs_sys st') = lwip_tcpip_thread_id (cs_sys st) ∧
    length (cs_pcs st') = length (cs_pcs st).
Proof.
  induction sched as [|i sched IH]; intros st Hi; [by eexists|]. cbn [core_run].
  destruct (core_step_inv i st Hi) as (st1 & -> & Hi1 & Ht & Hl). simpl.
  destruct (IH st1 Hi1) as (st2 & E2 & Hi2 & Ht2 & Hl2). exists st2.
  split; [done|]. split; [done|]. split; congruence.
Qed.

Lemma holder_in i st :
  core_inv st → (tid i =? lwip_core_lock_holder_thread_id (cs_sys st)) = true ↔ is_in i st.
Proof.
  intros [_ Hi]. unfold is_in. change (core_in (tid i)) with 2%nat. rewrite Z.eqb_eq.
  destruct Hi as [(_ & Hz & Hall)|(k & p & _ & Hk & Hp & Hz & Hall)]; rewrite Hz.
  - split; [unfold tid; lia|]. intros Hin. by apply Hall in Hin.
  - unfold holder_of. destruct (decide (i = k)) as [->|Hne].
    + rewrite Hk. destruct (decide (p = 2%nat)) as [->|Hp2]; [done|]. split; [unfold tid; lia|congruence].
    + split; intros H; [|by apply Hall in H].
      destruct (decide _); [by apply tid_inj in H|unfold tid in H; lia].
Qed.

Lemma one_in i j st : core_inv st → is_in i st → is_in j st → j = i.
Proof. intros Hinv Hi%(holder_in i st Hinv) Hj%(holder_in j st Hinv). apply tid_inj. lia. Qed.

(** The actions of a call, one after the other, are the call. *)
Lemma unlock_whole i st :
  is_in i st → core_run [i; i] st =
    '(m, s') ← sys_unlock_tcpip_core (tid i) (Some (cs_mutex st)) (cs_sys st);
    Ok (CoreState m s' (<[i := core_out]> (cs_pcs st))).
Proof.
  intros Hi. destruct st as [m s pcs]. unfold is_in in Hi. cbn [cs_pcs cs_mutex cs_sys] in *.
  pose proof (lookup_lt_Some _ _ _ Hi) as Hlt. cbn [core_run].
  assert (core_step i (CoreState m s pcs) = Ok (CoreState m (set_holder 0 s) (<[i := 3%nat]> pcs))) as ->
    by (unfold core_step; cbn [cs_pcs]; by rewrite Hi).
  cbn [mbind res_bind]. unfold core_step. cbn [cs_pcs cs_mutex cs_sys]. rewrite list_lookup_insert_eq, list_insert_insert_eq by done.
  unfold sys_unlock_tcpip_core. cbn. unfold mbind, sys_bind, sys_mod. cbn.
  by destruct (sys_mutex_unlock _ _ _) as [[m' s']|].
Qed.

Lemma lock_whole i st :
  cs_pcs st !! i = Some core_out → wm_owner (cs_mutex st) = None → core_run [i; i] st =
    '(om, s') ← sys_lock_tcpip_core (tid i) (Some (cs_mutex st)) (cs_sys st);
    m ← oget Aborted om; Ok (CoreState m s' (<[i := core_in (tid i)]> (cs_pcs st))).
Proof.
  intros Hi Ho. destruct st as [m s pcs]. cbn [cs_pcs cs_mutex cs_sys] in *.
  pose proof (lookup_lt_Some _ _ _ Hi) as Hlt. cbn [core_run].
  assert (core_step i (CoreState m s pcs) = Ok (CoreState (WinMutex (Some (tid i)) 1) s (<[i := 1%nat]> pcs))) as ->.
  { unfold core_step. cbn [cs_pcs]. rewrite Hi. cbn. unfold mbind, sys_bind, sys_mutex_lock, take_mutex, mbind, sys_bind, sys_lift. cbn. by rewrite Ho. }
  cbn [mbind res_bind]. unfold core_step. cbn [cs_pcs cs_mutex cs_sys]. rewrite list_lookup_insert_eq by done.
  unfold sys_lock_tcpip_core, run_acts, sys_lock_tcpip_core_acts, sys_mutex_lock, take_mutex, mbind, sys_bind, sys_lift.
  cbn. rewrite Ho. cbn.
  by rewrite list_insert_insert_eq.
Qed.

(** C26 (safety).  Threads call [sys_lock_tcpip_core] and [sys_unlock_tcpip_core] in turn,
    under every schedule, also between the two actions of each call (the mutex, and
    the note of its owner).  No call fails, at most one thread is between locking and
    unlocking, and once the thread of the stack is running, the assertion in front of
    every operation of the stack lets through exactly that thread; any other
    thread that gets there is stopped, and with it the process.  A thread that locks or
    unlocks without being interrupted does what the whole call does. *)
Theorem core_lock_checked n sched s i :
  protection_depth s = 0 → lwip_core_lock_holder_thread_id s = 0 →
  lwip_tcpip_thread_id s ≠ 0 → (i < n)%nat →
  ∃ st, core_run sched (CoreState (WinMutex None 0) s (replicate n core_out)) = Ok st ∧
    (∀ j, is_in i st → is_in j st → j = i) ∧
    (is_in i st ↔ sys_check_core_locking (tid i) (cs_sys st) = Ok ((), cs_sys st)) ∧
    (¬ is_in i st ↔ sys_check_core_locking (tid i) (cs_sys st) = Fault Aborted) ∧
    (is_in i st → core_run [i; i] st =
       '(m, s') ← sys_unlock_tcpip_core (tid i) (Some (cs_mutex st)) (cs_sys st);
       Ok (CoreState m s' (<[i := core_out]> (cs_pcs st)))) ∧
    (cs_pcs st !! i = Some core_out → wm_owner (cs_mutex st) = None → core_run [i; i] st =
       '(om, s') ← sys_lock_tcpip_core (tid i) (Some (cs_mutex st)) (cs_sys st);
       m ← oget Aborted om; Ok (CoreState m s' (<[i := core_in (tid i)]> (cs_pcs st)))).
Proof.
  intros Hs Hh Ht Hn.
  destruct (core_run_inv sched (CoreState (WinMutex None 0) s (replicate n core_out)))
    as (st & E & Hi & Ht' & Hl).
  { split; [done|]. left. split; [done|]. split; [done|].
    intros j p Hj. by apply lookup_replicate in Hj as [-> _]. }
  exists st. split; [done|]. cbn [cs_sys cs_pcs] in Ht', Hl. rewrite length_replicate in Hl.
  assert ((tid i =? lwip_core_lock_holder_thread_id (cs_sys st)) = true ↔ is_in i st) as Hc by by apply holder_in.
  rewrite check_val by congruence. split; [intros j; by apply one_in|].
  split; [rewrite <- Hc; by destruct (_ =? _)|]. split; [rewrite <- Hc; destruct (_ =? _); naive_solver|].
  split; [by apply unlock_whole|]. apply lock_whole.
Qed.

(** Three threads; the second holds the lock while the third waits. *)
Lemma core_lock_checked_witness :
  let s := SysState 1000 0 0 (SysElem 0 0 0) (SysElem 0 0 0) (SysElem 0 0 0) [] 9 0 in
  let st0 := CoreState (WinMutex None 0) s (replicate 3 core_out) in
  (cs_pcs <$> core_run [1; 2; 1; 0; 2]%nat st0 = Ok [core_out; core_in 2; core_out]) ∧
  ∃ st, core_run [1; 2; 1; 0; 2]%nat st0 = Ok st ∧ is_in 1 st ∧
    sys_check_core_locking (tid 1) (cs_sys st) = Ok ((), cs_sys st).
Proof.
  cbv zeta. split; [vm_compute; reflexivity|].
  destruct (core_lock_checked 3 [1; 2; 1; 0; 2]%nat
    (SysState 1000 0 0 (SysElem 0 0 0) (SysElem 0 0 0) (SysElem 0 0 0) [] 9 0) 1) as (st & E & _ & Hc & _); [done..|lia|].
  exists st. split; [exact E|]. assert (is_in 1 st) as Hin by (vm_compute in E; by injection E as <-).
  split; [exact Hin|]. by apply Hc.
Defined.

(** The mutex may be taken twice by one thread, the note of its owner may not:
    after the inner unlock the thread still owns the mutex, and is refused. *)
Lemma nested_lock_refused self s :
  self ≠ 0 → protection_depth s = 0 → lwip_tcpip_thread_id s ≠ 0 →
  ∃ m s', ('(m1, s) ← sys_lock_tcpip_core self (Some (WinMutex None 0)) s;
           '(m2, s) ← sys_lock_tcpip_core self m1 s;
           sys_unlock_tcpip_core self m2 s) = Ok (m, s') ∧
    wm_owner m = Some self ∧ sys_check_core_locking self s' = Fault Aborted.
Proof.
  intros H0 Hs Ht. destruct s as [f0 st d e1 e2 e3 th ti ho]. simpl in *. subst.
  unfold sys_lock_tcpip_core, sys_unlock_tcpip_core, run_acts, sys_lock_tcpip_core_acts, sys_unlock_tcpip_core_acts,
    sys_mutex_lock, sys_mutex_unlock, take_mutex, mbind, sys_bind, sys_lift, sys_mod, mret, sys_ret. simpl.
  rewrite Z.eqb_refl. simpl. unfold ReleaseMutex. simpl. rewrite Z.eqb_refl. simpl. eexists _, _. split; [reflexivity|]. split; [done|].
  unfold sys_check_core_locking, sys_get, mbind, sys_bind. simpl.
  rewrite (proj2 (Z.eqb_neq _ _) Ht). unfold sys_assert, sys_lift, lwip_assert.
  simpl. by rewrite (proj2 (Z.eqb_neq _ _) H0).
Qed.

(** ** Time *)

(** The clock of the stack counts milliseconds modulo 2^32. *)
Lemma sys_now_win_spec now s :
  0 < freq s → 0 <= now - sys_start_time s → (now - sys_start_time s) * 1000 < 2 ^ 63 →
  sys_now_win now s = Ok (u32 ((now - sys_start_time s) * 1000 / freq s), s).
Proof.
  intros Hf H0 Hb. unfold sys_now_win, sys_get_ms_longlong, sys_get, sys_assert, sys_lift,
    lwip_assert, mbind, sys_bind, mret, sys_ret. simpl.
  rewrite (proj2 (Z.eqb_neq _ _)) by lia. simpl.
  by rewrite wraps_small, Z.quot_div_nonneg by lia.
Qed.

(** Before [sys_init] there is no clock. *)
Lemma sys_now_before_init now : sys_now_win now sys_boot = Fault Aborted.
Proof. reflexivity. Qed.

(** The time a wait took is right although both readings are cut to 32 bits. *)
Lemma wait_time t0 t1 s v sem timeout :
  0 < freq s → 0 <= t0 - sys_start_time s → t0 <= t1 →
  (t1 - sys_start_time s) * 1000 < 2 ^ 63 →
  (t1 - sys_start_time s) * 1000 / freq s - (t0 - sys_start_time s) * 1000 / freq s = v →
  v < 2 ^ 32 →
  sys_arch_sem_wait (Some sem) timeout WAIT_OBJECT_0 t0 t1 s = Ok ((v, Some (ws_taken sem)), s).
Proof.
  intros Hf H0 Hle Hb Hv Hlt.
  assert (0 <= v) as Hv0 by (rewrite <- Hv; apply Z.le_0_sub, Z.div_le_mono; lia).
  assert (u32 (u32 ((t1 - sys_start_time s) * 1000 / freq s) -
               u32 ((t0 - sys_start_time s) * 1000 / freq s)) = v) as Ew.
  { unfold u32, wrapu. rewrite <- Zminus_mod, Hv. by apply Z.mod_small. }
  unfold sys_arch_sem_wait. erewrite sys_bind_Ok by done.
  erewrite sys_bind_Ok by by apply sys_now_win_spec; lia.
  destruct (timeout =? 0).
  - erewrite sys_bind_Ok by done. erewrite sys_bind_Ok by by apply sys_now_win_spec; lia.
    by rewrite Ew.
  - erewrite sys_bind_Ok by done. rewrite decide_True by done.
    erewrite sys_bind_Ok by by apply sys_now_win_spec; lia. by rewrite Ew.
Qed.
