(* ===== verification/Timeouts.v ===== *)
(** * The timeouts of lwip (lwip/core/timeouts.c)

    One list of timers, sorted by the time they are due, in elements of a memory
    pool of seventeen.  The start-up of the program initialises it
    ([luat_lwip_init]) and its main loop looks after it every five milliseconds
    ([timer_lwip]).  Times are 32-bit milliseconds, compared by their distance,
    so that the clock may wrap around.

    The first half of the file is the code on the object store; the second is a
    specification with unbounded times on a sorted list, and the simulation
    between the two, which needs that nobody is later than the comparison can
    see.  What the handlers do (other parts of the stack, code of the LuatOS core)
    is a parameter: how long they take, and which timers they set and cancel. *)

From S2P Require Import Prelude Memp SysArch.

(** ** Data *)

(** A pointer to a function: NULL, the two callbacks of this file, or one of the
    callers'. *)
Inductive handler : Type := HNull | HCyclic | HTcp | HUser (h : Z).

#[global] Instance handler_eq_dec : EqDecision handler.
Proof. solve_decision. Defined.

Record sys_timeo : Type := SysTimeo {
  t_next : option Z; t_time : Z; t_h : handler; t_arg : Z;
}.

Definition t_set_next (n : option Z) (t : sys_timeo) : sys_timeo :=
  SysTimeo n (t_time t) (t_h t) (t_arg t).
Definition t_set_time (z : Z) (t : sys_timeo) : sys_timeo :=
  SysTimeo (t_next t) z (t_h t) (t_arg t).

(** The intervals of [lwip_cyclic_timers] in this configuration: tcp, ip
    reassembly, arp, igmp, nd6, ip6 reassembly, mld6.  The argument of a cyclic
    timer is its place in the table. *)
Definition TCP_TMR_INTERVAL : Z := 250.
Definition lwip_cyclic_timers : list Z := [TCP_TMR_INTERVAL; 1000; 1000; 100; 1000; 1000; 100].

(** The statics of the file, the list's elements, the clock in milliseconds (of
    which [sys_now] gives the low 32 bits: [sys_now_win_spec]), whether there are
    TCP connections to look after, and the number of handler calls so far.
    [ts_self] is the thread that runs, [ts_sys] the state its lock is in. *)
Record tstate : Type := TState {
  ts_pool : pool;
  ts_objs : gmap Z sys_timeo;
  next_timeout : option Z;
  current_timeout_due_time : Z;
  tcpip_tcp_timer_active : bool;
  ts_pcbs : bool;
  ts_clock : Z;
  ts_calls : nat;
  ts_self : Z;
  ts_sys : sysarch;
}.

Definition set_list (p : pool) (o : gmap Z sys_timeo) (n : option Z) (st : tstate) : tstate :=
  TState p o n (current_timeout_due_time st) (tcpip_tcp_timer_active st) (ts_pcbs st)
    (ts_clock st) (ts_calls st) (ts_self st) (ts_sys st).
Definition set_due (d : Z) (st : tstate) : tstate :=
  TState (ts_pool st) (ts_objs st) (next_timeout st) d (tcpip_tcp_timer_active st) (ts_pcbs st)
    (ts_clock st) (ts_calls st) (ts_self st) (ts_sys st).
Definition set_active (b : bool) (st : tstate) : tstate :=
  TState (ts_pool st) (ts_objs st) (next_timeout st) (current_timeout_due_time st) b (ts_pcbs st)
    (ts_clock st) (ts_calls st) (ts_self st) (ts_sys st).
Definition set_clock (c : Z) (st : tstate) : tstate :=
  TState (ts_pool st) (ts_objs st) (next_timeout st) (current_timeout_due_time st)
    (tcpip_tcp_timer_active st) (ts_pcbs st) c (ts_calls st) (ts_self st) (ts_sys st).
Definition set_call (pcbs : bool) (c : Z) (st : tstate) : tstate :=
  TState (ts_pool st) (ts_objs st) (next_timeout st) (current_timeout_due_time st)
    (tcpip_tcp_timer_active st) pcbs c (S (ts_calls st)) (ts_self st) (ts_sys st).

(** ** Time *)

Definition LWIP_MAX_TIMEOUT : Z := 2147483647.
Definition LWIP_UINT32_MAX : Z := 4294967295.
Definition SYS_TIMEOUTS_SLEEPTIME_INFINITE : Z := 4294967295.

Definition TIME_LESS_THAN (t compare_to : Z) : bool := LWIP_MAX_TIMEOUT <? u32 (t - compare_to).

Definition sys_now (st : tstate) : Z := u32 (ts_clock st).

(** [LWIP_ASSERT_CORE_LOCKED] *)
Definition core_locked (st : tstate) : res () :=
  fst <$> sys_check_core_locking (ts_self st) (ts_sys st).

(** ** Setting and cancelling *)

(** The walk to the last timer that is not due later. *)
Fixpoint insert_walk (fuel : nat) (objs : gmap Z sys_timeo) (t timeout : Z) (new : sys_timeo)
    : res (gmap Z sys_timeo) :=
  match fuel with
  | O => Fault OutOfFuel
  | S fuel =>
      tc ← oget BadPointer (objs !! t);
      match t_next tc with
      | None =>
          Ok (<[t := t_set_next (Some timeout) tc]> (<[timeout := t_set_next (t_next tc) new]> objs))
      | Some n =>
          tn ← oget BadPointer (objs !! n);
          if TIME_LESS_THAN (t_time new) (t_time tn) then
            Ok (<[t := t_set_next (Some timeout) tc]>
                  (<[timeout := t_set_next (t_next tc) new]> objs))
          else insert_walk fuel objs n timeout new
      end
  end.

Definition sys_timeout_abs (abs_time : Z) (h : handler) (arg : Z) (st : tstate) : res tstate :=
  '(m, p) ← do_memp_malloc_pool (ts_pool st);
  timeout ← oget Aborted m;
  let new := SysTimeo None abs_time h arg in
  match next_timeout st with
  | None => Ok (set_list p (<[timeout := new]> (ts_objs st)) (Some timeout) st)
  | Some n =>
      tn ← oget BadPointer (ts_objs st !! n);
      if TIME_LESS_THAN abs_time (t_time tn) then
        Ok (set_list p (<[timeout := t_set_next (Some n) new]> (ts_objs st)) (Some timeout) st)
      else
        objs ← insert_walk (S (size (ts_objs st))) (ts_objs st) n timeout new;
        Ok (set_list p objs (Some n) st)
  end.

Definition sys_timeout (msecs : Z) (h : handler) (arg : Z) (st : tstate) : res tstate :=
  _ ← core_locked st;
  _ ← lwip_assert (msecs <=? LWIP_UINT32_MAX / 4);
  sys_timeout_abs (u32 (sys_now st + msecs)) h arg st.

(** [prev]: the timer before [t], if any. *)
Fixpoint untimeout_walk (fuel : nat) (h : handler) (arg : Z) (prev t : option Z) (st : tstate)
    : res tstate :=
  match fuel with
  | O => Fault OutOfFuel
  | S fuel =>
      match t with
      | None => Ok st
      | Some a =>
          ta ← oget BadPointer (ts_objs st !! a);
          if decide (t_h ta = h ∧ t_arg ta = arg) then
            '(objs, first) ←
              match prev with
              | None => Ok (ts_objs st, t_next ta)
              | Some b =>
                  tb ← oget BadPointer (ts_objs st !! b);
                  Ok (<[b := t_set_next (t_next ta) tb]> (ts_objs st), next_timeout st)
              end;
            p ← do_memp_free_pool (ts_pool st) a;
            Ok (set_list p (delete a objs) first st)
          else untimeout_walk fuel h arg (Some a) (t_next ta) st
      end
  end.

Definition sys_untimeout (h : handler) (arg : Z) (st : tstate) : res tstate :=
  _ ← core_locked st;
  match next_timeout st with
  | None => Ok st
  | Some a => untimeout_walk (S (size (ts_objs st))) h arg None (Some a) st
  end.

Definition tcp_timer_needed (st : tstate) : res tstate :=
  _ ← core_locked st;
  if negb (tcpip_tcp_timer_active st) && ts_pcbs st
  then sys_timeout TCP_TMR_INTERVAL HTcp 0 (set_active true st)
  else Ok st.

(** ** Handlers *)

(** What a handler may ask of this file.  The two callbacks are static: no other
    code can name them. *)
Inductive tcall : Type :=
  | CTimeout (msecs h arg : Z)
  | CUntimeout (h arg : Z)
  | CTcpNeeded.

Definition do_call (c : tcall) (st : tstate) : res tstate :=
  match c with
  | CTimeout msecs h arg => sys_timeout msecs (HUser h) arg st
  | CUntimeout h arg => sys_untimeout (HUser h) arg st
  | CTcpNeeded => tcp_timer_needed st
  end.

Fixpoint do_calls (cs : list tcall) (st : tstate) : res tstate :=
  match cs with [] => Ok st | c :: cs => st ← do_call c st; do_calls cs st end.

(** What one call of a handler does: it takes [he_ms] milliseconds, leaves
    connections or none, and makes calls. *)
Record heffect : Type := HEffect { he_ms : Z; he_pcbs : bool; he_calls : list tcall }.

Section run.
(** The effect of the [n]-th call: of a handler of the table, of [tcp_tmr], or of a
    caller's. *)
Context (effect : nat → handler → Z → heffect).

Definition run_effect (h : handler) (arg : Z) (st : tstate) : res tstate :=
  let e := effect (ts_calls st) h arg in
  do_calls (he_calls e) (set_call (he_pcbs e) (ts_clock st + he_ms e) st).

Definition tcpip_tcp_timer (st : tstate) : res tstate :=
  st ← run_effect HTcp 0 st;
  if ts_pcbs st then sys_timeout TCP_TMR_INTERVAL HTcp 0 st else Ok (set_active false st).

Definition lwip_cyclic_timer (arg : Z) (st : tstate) : res tstate :=
  interval ← oget BadPointer (lwip_cyclic_timers !! Z.to_nat arg);
  st ← run_effect HCyclic arg st;
  let now := sys_now st in
  let next_timeout_time := u32 (current_timeout_due_time st + interval) in
  if TIME_LESS_THAN next_timeout_time now
  then sys_timeout_abs (u32 (now + interval)) HCyclic arg st
  else sys_timeout_abs next_timeout_time HCyclic arg st.

Definition call_handler (h : handler) (arg : Z) (st : tstate) : res tstate :=
  match h with
  | HNull => Ok st
  | HCyclic => lwip_cyclic_timer arg st
  | HTcp => tcpip_tcp_timer st
  | HUser _ => run_effect h arg st
  end.

Fixpoint check_loop (fuel : nat) (now : Z) (st : tstate) : res tstate :=
  match fuel with
  | O => Fault OutOfFuel
  | S fuel =>
      match next_timeout st with
      | None => Ok st
      | Some a =>
          t ← oget BadPointer (ts_objs st !! a);
          if TIME_LESS_THAN now (t_time t) then Ok st
          else
            p ← do_memp_free_pool (ts_pool st) a;
            st ← call_handler (t_h t) (t_arg t)
              (set_due (t_time t) (set_list p (delete a (ts_objs st)) (t_next t) st));
            check_loop fuel now st
      end
  end.

Definition sys_check_timeouts (fuel : nat) (st : tstate) : res tstate :=
  _ ← core_locked st;
  check_loop fuel (sys_now st) st.

End run.

(** ** Start, rebasing, sleeping *)

Fixpoint init_timers (l : list Z) (i : Z) (st : tstate) : res tstate :=
  match l with
  | [] => Ok st
  | interval :: l => st ← sys_timeout interval HCyclic i st; init_timers l (i + 1) st
  end.

(** The first entry is started on demand. *)
Definition sys_timeouts_init (st : tstate) : res tstate :=
  init_timers (drop 1 lwip_cyclic_timers) 1 st.

Fixpoint restart_walk (fuel : nat) (now base : Z) (t : option Z) (objs : gmap Z sys_timeo)
    : res (gmap Z sys_timeo) :=
  match fuel with
  | O => Fault OutOfFuel
  | S fuel =>
      match t with
      | None => Ok objs
      | Some a =>
          ta ← oget BadPointer (objs !! a);
          restart_walk fuel now base (t_next ta)
            (<[a := t_set_time (u32 (t_time ta - base + now)) ta]> objs)
      end
  end.

Definition sys_restart_timeouts (st : tstate) : res tstate :=
  match next_timeout st with
  | None => Ok st
  | Some a =>
      ta ← oget BadPointer (ts_objs st !! a);
      objs ← restart_walk (S (size (ts_objs st))) (sys_now st) (t_time ta) (Some a) (ts_objs st);
      Ok (set_list (ts_pool st) objs (next_timeout st) st)
  end.

Definition sys_timeouts_sleeptime (st : tstate) : res Z :=
  _ ← core_locked st;
  match next_timeout st with
  | None => Ok SYS_TIMEOUTS_SLEEPTIME_INFINITE
  | Some a =>
      ta ← oget BadPointer (ts_objs st !! a);
      if TIME_LESS_THAN (t_time ta) (sys_now st) then Ok 0
      else
        let ret := u32 (t_time ta - sys_now st) in
        _ ← lwip_assert (ret <=? LWIP_MAX_TIMEOUT);
        Ok ret
  end.
