(* ===== verification/TimeoutsSpec.v ===== *)
(** * The timeouts of lwip: specification and simulation

    A timer is due at a point of unbounded time; setting it inserts it behind all
    that are due no later, a check runs what is due.  The code of [Timeouts]
    simulates these operations step by step, as long as no timer is later than
    [2 ^ 30] milliseconds: then comparing 32-bit times by their distance is
    comparing the times. *)

From S2P Require Import Prelude Memp SysArch Timeouts.

(** ** Specification *)

Record stimer : Type := STimer { s_when : Z; s_h : handler; s_arg : Z }.

Record sstate : Type := SState {
  s_timers : list stimer;
  s_due : Z;            (* when the timer that is being run was due *)
  s_active : bool; s_pcbs : bool; s_clock : Z; s_calls : nat;
}.

Definition s_set_timers (l : list stimer) (s : sstate) : sstate :=
  SState l (s_due s) (s_active s) (s_pcbs s) (s_clock s) (s_calls s).
Definition s_set_active (b : bool) (s : sstate) : sstate :=
  SState (s_timers s) (s_due s) b (s_pcbs s) (s_clock s) (s_calls s).
Definition s_set_clock (c : Z) (s : sstate) : sstate :=
  SState (s_timers s) (s_due s) (s_active s) (s_pcbs s) c (s_calls s).

Definition MEMP_NUM_SYS_TIMEOUT : nat := 17.

(** Behind all that are due no later. *)
Fixpoint s_insert (t : stimer) (l : list stimer) : list stimer :=
  match l with
  | [] => [t]
  | x :: l => if s_when t <? s_when x then t :: x :: l else x :: s_insert t l
  end.

Definition s_match (h : handler) (arg : Z) (t : stimer) : bool :=
  bool_decide (s_h t = h ∧ s_arg t = arg).

(** Without the first that matches. *)
Fixpoint s_remove (h : handler) (arg : Z) (l : list stimer) : list stimer :=
  match l with
  | [] => []
  | x :: l => if s_match h arg x then l else x :: s_remove h arg l
  end.

Definition s_timeout_abs (t : stimer) (s : sstate) : res sstate :=
  if decide (length (s_timers s) < MEMP_NUM_SYS_TIMEOUT)%nat
  then Ok (s_set_timers (s_insert t (s_timers s)) s) else Fault Aborted.

Definition s_timeout (msecs : Z) (h : handler) (arg : Z) (s : sstate) : res sstate :=
  _ ← lwip_assert (msecs <=? LWIP_UINT32_MAX / 4);
  s_timeout_abs (STimer (s_clock s + msecs) h arg) s.

Definition s_untimeout (h : handler) (arg : Z) (s : sstate) : sstate :=
  s_set_timers (s_remove h arg (s_timers s)) s.

Definition s_tcp_needed (s : sstate) : res sstate :=
  if negb (s_active s) && s_pcbs s
  then s_timeout TCP_TMR_INTERVAL HTcp 0 (s_set_active true s) else Ok s.

Definition s_call (c : tcall) (s : sstate) : res sstate :=
  match c with
  | CTimeout msecs h arg => s_timeout msecs (HUser h) arg s
  | CUntimeout h arg => Ok (s_untimeout (HUser h) arg s)
  | CTcpNeeded => s_tcp_needed s
  end.

Fixpoint s_docalls (cs : list tcall) (s : sstate) : res sstate :=
  match cs with [] => Ok s | c :: cs => s ← s_call c s; s_docalls cs s end.

Section spec.
Context (effect : nat → handler → Z → heffect).

Definition s_effect (h : handler) (arg : Z) (s : sstate) : res sstate :=
  let e := effect (s_calls s) h arg in
  s_docalls (he_calls e)
    (SState (s_timers s) (s_due s) (s_active s) (he_pcbs e) (s_clock s + he_ms e) (S (s_calls s))).

Definition s_handler (h : handler) (arg : Z) (s : sstate) : res sstate :=
  match h with
  | HNull => Ok s
  | HCyclic =>
      interval ← oget BadPointer (lwip_cyclic_timers !! Z.to_nat arg);
      s ← s_effect HCyclic arg s;
      let next := s_due s + interval in
      s_timeout_abs
        (STimer (if next <? s_clock s then s_clock s + interval else next) HCyclic arg) s
  | HTcp =>
      s ← s_effect HTcp 0 s;
      if s_pcbs s then s_timeout TCP_TMR_INTERVAL HTcp 0 s else Ok (s_set_active false s)
  | HUser _ => s_effect h arg s
  end.

Fixpoint s_check (fuel : nat) (now : Z) (s : sstate) : res sstate :=
  match fuel with
  | O => Fault OutOfFuel
  | S fuel =>
      match s_timers s with
      | [] => Ok s
      | t :: l =>
          if now <? s_when t then Ok s
          else
            s ← s_handler (s_h t) (s_arg t)
              (SState l (s_when t) (s_active s) (s_pcbs s) (s_clock s) (s_calls s));
            s_check fuel now s
      end
  end.

End spec.

(** ** Comparing times *)

Lemma time_less_than a b :
  - 2 ^ 31 <= a - b < 2 ^ 31 → TIME_LESS_THAN (u32 a) (u32 b) = (a <? b).
Proof.
  intros H. unfold TIME_LESS_THAN, LWIP_MAX_TIMEOUT, u32, wrapu. rewrite <- Zminus_mod.
  destruct (Z.ltb_spec a b) as [Hlt|Hge].
  - apply Z.ltb_lt. rewrite <- (Z.mod_add _ 1) by done. rewrite Z.mod_small; lia.
  - apply Z.ltb_ge. rewrite Z.mod_small; lia.
Qed.

Lemma u32_add a b : u32 (u32 a + b) = u32 (a + b).
Proof. unfold u32, wrapu. by rewrite Zplus_mod_idemp_l. Qed.

(** ** The list on the store *)

Definition timeo_desc (base size : Z) : memp_desc := MempDesc size MEMP_NUM_SYS_TIMEOUT base.

(** From pointer [p] on there are the elements [as_] with the timers [l]. *)
Inductive tchain (o : gmap Z sys_timeo) : option Z → list Z → list stimer → Prop :=
  | tchain_nil : tchain o None [] []
  | tchain_cons a n t addrs l :
      o !! a = Some (SysTimeo n (u32 (s_when t)) (s_h t) (s_arg t)) → tchain o n addrs l →
      tchain o (Some a) (a :: addrs) (t :: l).

Lemma tchain_frame o o' p addrs l :
  tchain o p addrs l → (∀ a, a ∈ addrs → o' !! a = o !! a) → tchain o' p addrs l.
Proof.
  induction 1 as [|a n t addrs l Ha Hc IH]; intros Hf; [constructor|].
  econstructor; [rewrite Hf; [done|set_solver]|]. apply IH. set_solver.
Qed.

Lemma tchain_length o p addrs l : tchain o p addrs l → length addrs = length l.
Proof. induction 1; simpl; congruence. Qed.

Lemma tchain_dom o p addrs l : tchain o p addrs l → ∀ a, a ∈ addrs → is_Some (o !! a).
Proof. induction 1 as [|a n t addrs l Ha Hc IH]; set_solver. Qed.

Lemma tchain_size o p addrs l :
  tchain o p addrs l → NoDup addrs → (length addrs <= size o)%nat.
Proof.
  intros Hc Hn. rewrite <- (size_list_to_set (C:=gset Z)), <- size_dom by done.
  apply subseteq_size. intros a. rewrite elem_of_list_to_set, elem_of_dom.
  by apply (tchain_dom _ _ _ _ Hc).
Qed.

(** Times within sight of each other and of the clock: no later than [late], no
    further ahead than a timeout can be set. *)
Definition in_sight (late c w : Z) : Prop := c - late < w <= c + 2 ^ 30.
Definition window (late : Z) (s : sstate) : Prop :=
  Forall (λ t, in_sight late (s_clock s) (s_when t)) (s_timers s).

(** The thread may use the stack: it holds its lock, or the stack has no thread of
    its own yet. *)
Definition may_use (self : Z) (y : sysarch) : Prop :=
  sys_check_core_locking self y = Ok ((), y).

(** The two states belong together. *)
Record sim (d : memp_desc) (st : tstate) (s : sstate) : Prop := Sim {
  sim_list : ∃ addrs, tchain (ts_objs st) (next_timeout st) addrs (s_timers s) ∧
    pool_inv d (ts_pool st) addrs;
  sim_due : current_timeout_due_time st = u32 (s_due s);
  sim_active : tcpip_tcp_timer_active st = s_active s;
  sim_pcbs : ts_pcbs st = s_pcbs s;
  sim_clock : ts_clock st = s_clock s;
  sim_calls : ts_calls st = s_calls s;
  sim_lock : may_use (ts_self st) (ts_sys st);
}.

(** Outcomes that belong together. *)
Definition rsim (d : memp_desc) (r : res tstate) (rs : res sstate) : Prop :=
  match rs with
  | Ok s => ∃ st, r = Ok st ∧ sim d st s
  | Fault e => r = Fault e
  end.

Lemma rsim_bind d r rs f fs :
  rsim d r rs → (∀ st s, rs = Ok s → sim d st s → rsim d (f st) (fs s)) →
  rsim d (r ≫= f) (rs ≫= fs).
Proof.
  intros Hr Hf. destruct rs as [s|e]; simpl in *; [|by rewrite Hr].
  destruct Hr as (st & -> & Hs). by apply Hf.
Qed.

(** Two times can be compared. *)
Definition near (a b : Z) : Prop := - 2 ^ 31 <= a - b < 2 ^ 31.

(** ** Setting a timer *)

(** The walk inserts behind all that are due no later, and writes only to the
    list. *)
Lemma insert_walk_spec o w h arg a l : ∀ fuel c addrs t0,
  tchain o (Some c) (c :: addrs) (t0 :: l) → NoDup (c :: addrs) → a ∉ c :: addrs →
  (length l < fuel)%nat → Forall (λ x, near w (s_when x)) l →
  ∃ o' addrs', insert_walk fuel o c a (SysTimeo None (u32 w) h arg) = Ok o' ∧
    tchain o' (Some c) addrs' (t0 :: s_insert (STimer w h arg) l) ∧
    a :: c :: addrs ≡ₚ addrs' ∧ (∀ b, b ∉ a :: c :: addrs → o' !! b = o !! b).
Proof.
  induction l as [|t1 l IH]; intros [|fuel] c addrs t0 Hc Hnd Ha Hf Hw; try (simpl in Hf; lia);
    inversion Hc as [|? n ? ? ? Hoc Hn]; subst; cbn [insert_walk]; rewrite Hoc;
    cbn [mbind res_bind oget t_next].
  - inversion Hn; subst. eexists _, [c; a]. split; [reflexivity|]. split; [|split].
    + econstructor; [apply lookup_insert_eq|]. econstructor; [|constructor].
      rewrite lookup_insert_ne by set_solver. apply lookup_insert_eq.
    + apply Permutation_swap.
    + intros b Hb. rewrite !lookup_insert_ne; set_solver.
  - inversion Hn as [|n1 n2 ? addrs1 ? Ho1 Hn1]; subst. rewrite Ho1.
    cbn [mbind res_bind oget t_time s_insert s_when].
    apply Forall_cons in Hw as [Hw1 Hw]. rewrite time_less_than by exact Hw1.
    destruct (w <? s_when t1).
    + eexists _, (c :: a :: n1 :: addrs1). split; [reflexivity|]. split; [|split].
      * econstructor; [apply lookup_insert_eq|].
        econstructor; [rewrite lookup_insert_ne by set_solver; apply lookup_insert_eq|].
        eapply tchain_frame; [exact Hn|]. intros b Hb. apply NoDup_cons in Hnd as [? _].
        rewrite !lookup_insert_ne; set_solver.
      * apply Permutation_swap.
      * intros b Hb. rewrite !lookup_insert_ne; set_solver.
    + apply NoDup_cons in Hnd as [Hcn Hnd].
      destruct (IH fuel n1 addrs1 t1) as (o' & addrs' & E & Hc' & Hp & Hfr);
        [done|done|set_solver|simpl in Hf; lia|done|].
      exists o', (c :: addrs'). split; [done|]. split; [|split].
      * econstructor; [rewrite Hfr by set_solver; exact Hoc|done].
      * rewrite <- Hp. apply Permutation_swap.
      * intros b Hb. apply Hfr. set_solver.
Qed.

(** The pool of timeouts: seventeen elements of some size, somewhere. *)
Section sim.
Context (base esize : Z) (Hd : desc_ok (timeo_desc base esize)).
Abbreviation d := (timeo_desc base esize).

Lemma sim_core st s : sim d st s → core_locked st = Ok ().
Proof. intros Hs. unfold core_locked. by rewrite (sim_lock _ _ _ Hs). Qed.

Lemma sim_count st s addrs :
  tchain (ts_objs st) (next_timeout st) addrs (s_timers s) → pool_inv d (ts_pool st) addrs →
  (length (s_timers s) <= MEMP_NUM_SYS_TIMEOUT)%nat ∧ NoDup addrs ∧
  (length (s_timers s) <= size (ts_objs st))%nat.
Proof.
  intros Hc Hp. pose proof (pool_inv_NoDup _ _ _ Hd Hp). pose proof (tchain_size _ _ _ _ Hc).
  pose proof (pool_inv_length _ _ _ Hp). rewrite (tchain_length _ _ _ _ Hc) in *.
  simpl in *. auto.
Qed.

(** A state with the list replaced, on both sides. *)
Lemma sim_set_list st s p o n addrs l :
  sim d st s → tchain o n addrs l → pool_inv d p addrs →
  sim d (set_list p o n st) (s_set_timers l s).
Proof. intros [] Hc Hp. split; simpl; try done. by exists addrs. Qed.

Lemma sys_timeout_abs_sim st s w h arg :
  sim d st s → Forall (λ x, near w (s_when x)) (s_timers s) →
  rsim d (sys_timeout_abs (u32 w) h arg st) (s_timeout_abs (STimer w h arg) s).
Proof.
  intros Hs Hw. pose proof Hs as [(addrs & Hc & Hp) _ _ _ _ _ _].
  destruct (sim_count st s addrs Hc Hp) as (Hmax & Hnd & Hsz).
  unfold sys_timeout_abs, s_timeout_abs. case_decide as Hlt.
  - destruct (do_memp_malloc_gives d (ts_pool st) addrs Hd Hp) as (a & p' & -> & _ & Ha & Hp').
    { by rewrite (tchain_length _ _ _ _ Hc). }
    cbn [mbind res_bind oget]. destruct (next_timeout st) as [c|] eqn:Hn.
    + destruct (s_timers s) as [|t0 l] eqn:El; inversion Hc as [|? n ? addrs' ? Hoc Hcn]; subst.
      rewrite Hoc. cbn [mbind res_bind oget t_time]. apply Forall_cons in Hw as [Hw0 Hw].
      rewrite time_less_than by exact Hw0. cbn [s_insert s_when].
      destruct (w <? s_when t0).
      * eexists. split; [reflexivity|]. eapply sim_set_list; [done| |exact Hp'].
        econstructor; [apply lookup_insert_eq|]. eapply tchain_frame; [exact Hc|].
        intros b Hb. rewrite lookup_insert_ne; set_solver.
      * destruct (insert_walk_spec (ts_objs st) w h arg a l (S (size (ts_objs st))) c addrs' t0)
          as (o' & addrs2 & -> & Hc2 & Hperm & _); [done..| |done|].
        { simpl in Hsz. lia. }
        cbn [mbind res_bind]. eexists. split; [reflexivity|].
        eapply sim_set_list; [done|exact Hc2|]. eapply pool_inv_perm; [exact Hperm|done].
    + destruct (s_timers s) as [|t0 l] eqn:El; inversion Hc; subst.
      eexists. split; [reflexivity|]. eapply sim_set_list; [done| |exact Hp'].
      cbn [s_insert]. econstructor; [apply lookup_insert_eq|constructor].
  - rewrite (do_memp_malloc_empty d (ts_pool st) addrs); [done..|].
    rewrite (tchain_length _ _ _ _ Hc). simpl. lia.
Qed.

(** A time a timeout can be set to is near all times in sight. *)
Lemma window_near late s w :
  window late s → late <= 2 ^ 30 → s_clock s - 2 ^ 30 <= w < s_clock s + 2 ^ 30 →
  Forall (λ x, near w (s_when x)) (s_timers s).
Proof.
  intros Hw Hl Hr. eapply Forall_impl; [exact Hw|]. unfold in_sight, near. simpl. lia.
Qed.

Lemma sys_timeout_sim late st s msecs h arg :
  sim d st s → window late s → late <= 2 ^ 30 → 0 <= msecs →
  rsim d (sys_timeout msecs h arg st) (s_timeout msecs h arg s).
Proof.
  intros Hs Hw Hl Hm. unfold sys_timeout, s_timeout. rewrite (sim_core _ _ Hs).
  cbn [mbind res_bind]. unfold lwip_assert, LWIP_UINT32_MAX.
  destruct (Z.leb_spec msecs (4294967295 / 4)) as [Hb|Hb]; [|done]. cbn [mbind res_bind].
  unfold sys_now. rewrite u32_add, (sim_clock _ _ _ Hs). apply sys_timeout_abs_sim; [done|].
  change (4294967295 / 4) with (2 ^ 30 - 1) in Hb. eapply window_near; [done..|lia].
Qed.

(** ** Cancelling a timer *)

(** Behind timer [b], which stays; [pre] are the elements before it. *)
Lemma untimeout_walk_spec h arg st l : ∀ fuel pre b addrs t0,
  tchain (ts_objs st) (Some b) (b :: addrs) (t0 :: l) → NoDup (b :: addrs) →
  pool_inv d (ts_pool st) (pre ++ b :: addrs) → (length l < fuel)%nat →
  ∃ p o addrs' tb, ts_objs st !! b = Some tb ∧
    untimeout_walk fuel h arg (Some b) (t_next tb) st = Ok (set_list p o (next_timeout st) st) ∧
    tchain o (Some b) (b :: addrs') (t0 :: s_remove h arg l) ∧
    pool_inv d p (pre ++ b :: addrs') ∧ (∀ c, c ∉ b :: addrs → o !! c = ts_objs st !! c).
Proof.
  induction l as [|t1 l IH]; intros [|fuel] pre b addrs t0 Hc Hnd Hp Hf; try (simpl in Hf; lia);
    inversion Hc as [|? n ? ? ? Hob Hn]; subst; cbn [untimeout_walk].
  - inversion Hn; subst. exists (ts_pool st), (ts_objs st), [], (SysTimeo None (u32 (s_when t0)) (s_h t0) (s_arg t0)).
    split; [done|]. split; [by destruct st|]. done.
  - inversion Hn as [|a n2 ? addrs1 ? Hoa Hn1]; subst.
    apply NoDup_cons in Hnd as [Hnb Hnd]. cbn [s_remove]. unfold s_match.
    destruct (decide (s_h t1 = h ∧ s_arg t1 = arg)) as [Hm|Hm].
    + assert (pre ++ b :: a :: addrs1 = (pre ++ [b]) ++ a :: addrs1) as Ep
        by by rewrite <- app_assoc.
      rewrite Ep in Hp. destruct (do_memp_free_gives d _ _ a _ Hd Hp) as (p' & Ef & Hp').
      eexists _, _, addrs1, _. split; [exact Hob|]. cbn [t_next]. rewrite Hoa.
      cbn [mbind res_bind oget t_h t_arg].
      rewrite decide_True, bool_decide_eq_true_2, Hob by done. cbn [mbind res_bind oget t_next].
      rewrite Ef. cbn [mbind res_bind]. split; [reflexivity|]. split; [|split].
      * econstructor.
        -- rewrite lookup_delete_ne by set_solver. apply lookup_insert_eq.
        -- eapply tchain_frame; [exact Hn1|]. intros c Hc'. apply NoDup_cons in Hnd as [? _].
           rewrite lookup_delete_ne, lookup_insert_ne; set_solver.
      * by rewrite <- app_assoc in Hp'.
      * intros c Hc'. rewrite lookup_delete_ne, lookup_insert_ne; set_solver.
    + rewrite bool_decide_eq_false_2 by done.
      destruct (IH fuel (pre ++ [b]) a addrs1 t1) as (p & o & addrs' & ta & Eta & E & Hc' & Hp' & Hfr);
        [done..|by rewrite <- app_assoc|simpl in Hf; lia|].
      rewrite Hoa in Eta. injection Eta as <-. cbn [t_next] in E.
      eexists p, o, (a :: addrs'), _. split; [exact Hob|]. cbn [t_next]. rewrite Hoa.
      cbn [mbind res_bind oget t_h t_arg]. rewrite decide_False by done.
      split; [exact E|]. split; [|split].
      * econstructor; [rewrite Hfr by set_solver; exact Hob|exact Hc'].
      * by rewrite <- app_assoc in Hp'.
      * intros c Hcn. apply Hfr. set_solver.
Qed.

Lemma sys_untimeout_sim st s h arg :
  sim d st s → ∃ st', sys_untimeout h arg st = Ok st' ∧ sim d st' (s_untimeout h arg s).
Proof.
  intros Hs. pose proof Hs as [(addrs & Hc & Hp) _ _ _ _ _ _].
  destruct (sim_count st s addrs Hc Hp) as (Hmax & Hnd & Hsz).
  unfold sys_untimeout, s_untimeout. rewrite (sim_core _ _ Hs). cbn [mbind res_bind].
  destruct (s_timers s) as [|t0 l] eqn:El; inversion Hc as [|a n ? addrs1 ? Hoa Hn]; subst.
  { exists st. split; [done|]. destruct Hs. split; simpl; try done. exists []. by rewrite El in *. }
  cbn [untimeout_walk]. rewrite Hoa. cbn [mbind res_bind oget t_next t_h t_arg s_remove]. unfold s_match.
  apply NoDup_cons in Hnd as [Hna Hnd]. case_decide as Hm.
  - rewrite bool_decide_eq_true_2 by done. cbn [mbind res_bind].
    destruct (do_memp_free_gives d _ [] a _ Hd Hp) as (p' & -> & Hp'). cbn [mbind res_bind].
    eexists. split; [reflexivity|]. eapply sim_set_list; [done| |exact Hp'].
    eapply tchain_frame; [exact Hn|]. intros c Hc'. rewrite lookup_delete_ne; set_solver.
  - rewrite bool_decide_eq_false_2 by done.
    destruct (untimeout_walk_spec h arg st l (size (ts_objs st)) [] a addrs1 t0)
      as (p & o & addrs' & ta & Eta & E & Hc' & Hp' & _);
      [by rewrite H|by constructor|done|simpl in Hsz; lia|].
    rewrite Hoa in Eta. injection Eta as <-. cbn [t_next] in E. rewrite E.
    eexists. split; [reflexivity|]. rewrite <- H. eapply sim_set_list; [done|exact Hc'|exact Hp'].
Qed.

(** ** Calls and handlers *)

Lemma sim_set_active st s b : sim d st s → sim d (set_active b st) (s_set_active b s).
Proof. intros []. by split. Qed.

Definition call_ok (c : tcall) : Prop :=
  match c with CTimeout msecs _ _ => 0 < msecs | _ => True end.

Lemma s_insert_Forall P t l : Forall P (s_insert t l) ↔ P t ∧ Forall P l.
Proof.
  induction l as [|x l IH]; cbn [s_insert]; [rewrite Forall_singleton, Forall_nil; tauto|].
  case_match; rewrite !Forall_cons; [done|]. rewrite IH. tauto.
Qed.

Lemma s_remove_Forall P h arg l : Forall P l → Forall P (s_remove h arg l).
Proof. induction 1; cbn [s_remove]; [constructor|]. case_match; [done|by constructor]. Qed.

(** What every operation between two handler calls leaves alone. *)
Definition quiet (s s' : sstate) : Prop :=
  s_due s' = s_due s ∧ s_pcbs s' = s_pcbs s ∧ s_clock s' = s_clock s ∧ s_calls s' = s_calls s.

Lemma s_timeout_abs_inv t s s' :
  s_timeout_abs t s = Ok s' → s' = s_set_timers (s_insert t (s_timers s)) s.
Proof. unfold s_timeout_abs. case_decide; [|done]. by intros [= <-]. Qed.

Lemma s_timeout_inv msecs h arg s s' :
  s_timeout msecs h arg s = Ok s' → msecs < 2 ^ 30 ∧
  s' = s_set_timers (s_insert (STimer (s_clock s + msecs) h arg) (s_timers s)) s.
Proof.
  unfold s_timeout, lwip_assert, LWIP_UINT32_MAX.
  destruct (Z.leb_spec msecs (4294967295 / 4)); [|done]. cbn [mbind res_bind].
  intros E%s_timeout_abs_inv. split; [|done]. by change (4294967295 / 4) with (2 ^ 30 - 1) in *; lia.
Qed.

Lemma s_call_inv late c s s' :
  s_call c s = Ok s' → call_ok c → 0 < late → window late s → window late s' ∧ quiet s s'.
Proof.
  intros E Hc Hl Hw. unfold window in *.
  destruct c as [msecs h arg|h arg|]; cbn [s_call] in E.
  - apply s_timeout_inv in E as [Hm ->]. simpl in *. split; [|done]. apply s_insert_Forall.
    split; [unfold in_sight; simpl; lia|done].
  - injection E as <-. split; [by apply s_remove_Forall|done].
  - unfold s_tcp_needed in E. case_match; [|by injection E as <-].
    apply s_timeout_inv in E as [Hm ->]. split; [|done]. apply s_insert_Forall.
    split; [unfold in_sight, TCP_TMR_INTERVAL; simpl; lia|done].
Qed.

Lemma s_docalls_inv late cs : ∀ s s',
  s_docalls cs s = Ok s' → Forall call_ok cs → 0 < late → window late s →
  window late s' ∧ quiet s s'.
Proof.
  induction cs as [|c cs IH]; intros s s' E Hc Hl Hw; cbn [s_docalls] in E; inv_res; [done|].
  apply Forall_cons in Hc as [Hc Hcs].
  destruct (s_call_inv late _ _ _ E0 Hc Hl Hw) as [Hw1 (?&?&?&?)].
  destruct (IH _ _ E Hcs Hl Hw1) as [Hw2 (?&?&?&?)]. split; [done|].
  repeat split; congruence.
Qed.

Lemma do_call_sim late c st s :
  sim d st s → call_ok c → window late s → late <= 2 ^ 30 → rsim d (do_call c st) (s_call c s).
Proof.
  intros Hs Hc Hw Hl. destruct c as [msecs h arg|h arg|]; cbn [do_call s_call].
  - eapply sys_timeout_sim; [done..|simpl in Hc; lia].
  - by apply sys_untimeout_sim.
  - unfold tcp_timer_needed, s_tcp_needed. rewrite (sim_core _ _ Hs). cbn [mbind res_bind].
    rewrite (sim_active _ _ _ Hs), (sim_pcbs _ _ _ Hs). case_match; [|by exists st].
    eapply sys_timeout_sim; [by apply sim_set_active|done|done|done].
Qed.

Lemma do_calls_sim late cs : ∀ st s,
  sim d st s → Forall call_ok cs → window late s → 0 < late <= 2 ^ 30 →
  rsim d (do_calls cs st) (s_docalls cs s).
Proof.
  induction cs as [|c cs IH]; intros st s Hs Hc Hw Hl; [by exists st|].
  apply Forall_cons in Hc as [Hc Hcs]. cbn [do_calls s_docalls].
  apply rsim_bind; [eapply do_call_sim; [done..|apply Hl]|]. intros st1 s1 E1 Hs1.
  apply IH; [done..| |done]. apply (s_call_inv late c s s1 E1 Hc (proj1 Hl) Hw).
Qed.

End sim.
