(* ===== verification/TimeoutsRun.v ===== *)
(** * The timeouts of lwip: handlers, checks and whole runs

    The rest of the simulation of [TimeoutsSpec], the reason why a check ends
    although cyclic timers set themselves again, and the invariant of the list
    over runs of the program: calls from the stack and checks by the main loop
    with time passing between them. *)

From Stdlib Require Import Sorted.
From S2P Require Import Prelude Memp SysArch Timeouts TimeoutsSpec.

(** A handler takes at most [2 ^ 20] milliseconds, a quarter of an hour. *)
Definition MAX_MS : Z := 2 ^ 20.

Definition effects_ok (effect : nat → handler → Z → heffect) : Prop :=
  ∀ n h a, 0 <= he_ms (effect n h a) <= MAX_MS ∧ Forall call_ok (he_calls (effect n h a)).

Lemma interval_range i interval :
  lwip_cyclic_timers !! i = Some interval → 100 <= interval <= 1000.
Proof.
  intros H%list_elem_of_lookup_2. unfold lwip_cyclic_timers, TCP_TMR_INTERVAL in H.
  repeat (apply elem_of_cons in H as [->|H]; [lia|]). by apply elem_of_nil in H.
Qed.

Section run.
Context (base esize : Z) (Hd : desc_ok (timeo_desc base esize)).
Abbreviation d := (timeo_desc base esize).
Context (effect : nat → handler → Z → heffect) (Heff : effects_ok effect).

(** ** One handler *)

Lemma window_later late m s l du a p c n :
  window late s → 0 <= m → l = s_timers s → c = s_clock s + m →
  window (late + m) (SState l du a p c n).
Proof.
  intros Hw Hm -> ->. eapply Forall_impl; [exact Hw|]. unfold in_sight. simpl. lia.
Qed.

Lemma window_weaken late late' s : window late s → late <= late' → window late' s.
Proof. intros Hw Hl. eapply Forall_impl; [exact Hw|]. unfold in_sight. simpl. lia. Qed.

Lemma s_effect_inv late h arg s s' :
  s_effect effect h arg s = Ok s' → 0 < late → window late s →
  window (late + MAX_MS) s' ∧ s_due s' = s_due s ∧ s_clock s <= s_clock s' <= s_clock s + MAX_MS.
Proof.
  unfold s_effect. intros E Hl Hw. destruct (Heff (s_calls s) h arg) as [Hms Hcs].
  pose proof (window_later late _ s (s_timers s) (s_due s) (s_active s)
    (he_pcbs (effect (s_calls s) h arg)) _ (S (s_calls s)) Hw (proj1 Hms) eq_refl eq_refl) as Hw1.
  apply (window_weaken _ (late + MAX_MS)) in Hw1; [|lia].
  destruct (s_docalls_inv (late + MAX_MS) _ _ _ E Hcs) as [Hw2 (Hdu & _ & Hc & _)];
    [unfold MAX_MS; lia|done|]. split; [done|]. split; [done|]. rewrite Hc. simpl. lia.
Qed.

Lemma run_effect_sim late h arg st s :
  sim d st s → 0 < late → late + MAX_MS <= 2 ^ 30 → window late s →
  rsim d (run_effect effect h arg st) (s_effect effect h arg s).
Proof.
  intros Hs H0 Hl Hw. unfold run_effect, s_effect. rewrite (sim_calls _ _ _ Hs).
  destruct (Heff (s_calls s) h arg) as [Hms Hcs].
  apply (do_calls_sim base esize Hd (late + MAX_MS)); [|done| |unfold MAX_MS in *; lia].
  - destruct Hs as [Hl' Hdu Ha Hp Hc Hn Hk]. split; simpl; try done; lia.
  - eapply window_weaken; [eapply window_later|]; [done|apply Hms|done..|lia].
Qed.

(** The timer that is run was due, and not too long ago. *)
Definition popped (late : Z) (s : sstate) : Prop :=
  s_clock s - late < s_due s <= s_clock s.

Lemma s_handler_inv late h arg s s' :
  s_handler effect h arg s = Ok s' → 0 < late → window late s → popped late s →
  window (late + MAX_MS) s' ∧ s_clock s <= s_clock s' <= s_clock s + MAX_MS.
Proof.
  intros E Hl Hw Hp. unfold popped in Hp. destruct h as [| | |u]; cbn [s_handler] in E.
  - injection E as <-. split; [eapply window_weaken; [done|]|]; unfold MAX_MS; lia.
  - inv_res. apply interval_range in E0.
    destruct (s_effect_inv _ _ _ _ _ E1 Hl Hw) as (Hw1 & Hdu & Hc).
    apply s_timeout_abs_inv in E as ->. split; [|done]. apply s_insert_Forall. split; [|done].
    unfold in_sight, MAX_MS in *. simpl. destruct (Z.ltb_spec (s_due r0 + r) (s_clock r0)); lia.
  - inv_res. destruct (s_effect_inv _ _ _ _ _ E0 Hl Hw) as (Hw1 & Hdu & Hc).
    case_match; [|by injection E as <-]. apply s_timeout_inv in E as [Hm ->]. split; [|done].
    apply s_insert_Forall. split; [|done].
    unfold in_sight, MAX_MS, TCP_TMR_INTERVAL in *. simpl. lia.
  - destruct (s_effect_inv _ _ _ _ _ E Hl Hw) as (Hw1 & Hdu & Hc). done.
Qed.

Lemma call_handler_sim late h arg st s :
  sim d st s → 0 < late → late + MAX_MS <= 2 ^ 30 → window late s → popped late s →
  rsim d (call_handler effect h arg st) (s_handler effect h arg s).
Proof.
  intros Hs H0 Hl Hw Hp. destruct h as [| | |u]; cbn [call_handler s_handler].
  - by exists st.
  - unfold lwip_cyclic_timer.
    destruct (lwip_cyclic_timers !! Z.to_nat arg) as [i|] eqn:Hi; [|done].
    apply interval_range in Hi. cbn [mbind res_bind oget].
    apply rsim_bind; [by eapply run_effect_sim|]. intros st1 s1 E1 Hs1.
    destruct (s_effect_inv _ _ _ _ _ E1 H0 Hw) as (Hw1 & Hdu & Hc). cbv zeta.
    unfold sys_now. rewrite (sim_due _ _ _ Hs1), (sim_clock _ _ _ Hs1), u32_add, u32_add.
    unfold popped, MAX_MS in *. rewrite time_less_than by lia.
    destruct (Z.ltb_spec (s_due s1 + i) (s_clock s1));
      apply (sys_timeout_abs_sim base esize Hd); try done;
      (eapply window_near; [done|lia|lia]).
  - unfold tcpip_tcp_timer. apply rsim_bind; [by eapply run_effect_sim|]. intros st1 s1 E1 Hs1.
    destruct (s_effect_inv _ _ _ _ _ E1 H0 Hw) as (Hw1 & _ & _).
    rewrite (sim_pcbs _ _ _ Hs1). destruct (s_pcbs s1).
    + by eapply (sys_timeout_sim base esize Hd).
    + eexists. split; [done|]. by apply sim_set_active.
  - by eapply run_effect_sim.
Qed.

(** ** A check *)

(** Taking the first timer off the list. *)
Lemma check_pop_sim st s t l a :
  sim d st s → s_timers s = t :: l → next_timeout st = Some a →
  ∃ n p, ts_objs st !! a = Some (SysTimeo n (u32 (s_when t)) (s_h t) (s_arg t)) ∧
    do_memp_free_pool (ts_pool st) a = Ok p ∧
    sim d (set_due (u32 (s_when t)) (set_list p (delete a (ts_objs st)) n st))
      (SState l (s_when t) (s_active s) (s_pcbs s) (s_clock s) (s_calls s)).
Proof.
  intros [(addrs & Hc & Hp) Hdu Ha Hb Hcl Hn Hk] El En. rewrite El, En in Hc.
  inversion Hc as [|? n ? addrs1 ? Hoa Hn1]; subst.
  pose proof (pool_inv_NoDup _ _ _ Hd Hp) as [Hna _]%NoDup_cons.
  destruct (do_memp_free_gives d _ [] a _ Hd Hp) as (p' & Ef & Hp').
  exists n, p'. split; [done|]. split; [done|]. split; simpl; try done.
  exists addrs1. split; [|done]. eapply tchain_frame; [exact Hn1|].
  intros b Hbn. rewrite lookup_delete_ne; set_solver.
Qed.

Lemma check_loop_sim fuel : ∀ late now st s,
  sim d st s → 0 < late → late + Z.of_nat fuel * MAX_MS <= 2 ^ 30 → window late s →
  now <= s_clock s → s_clock s + Z.of_nat fuel * MAX_MS <= now + 2 ^ 29 →
  rsim d (check_loop effect fuel (u32 now) st) (s_check effect fuel now s).
Proof.
  induction fuel as [|fuel IH]; intros late now st s Hs H0 Hl Hw Hnow Hc; [done|].
  rewrite Nat2Z.inj_succ in *. cbn [check_loop s_check].
  pose proof Hs as [(addrs & Hch & Hp) _ _ _ _ _ _].
  destruct (s_timers s) as [|t l] eqn:El; [inversion Hch; subst; by exists st|].
  destruct (next_timeout st) as [a|] eqn:En; [|inversion Hch].
  destruct (check_pop_sim st s t l a Hs El En) as (n & p & Hoa & Ef & Hs1).
  rewrite Hoa. cbn [mbind res_bind oget t_time t_h t_arg t_next].
  pose proof Hw as Hw'. unfold window in Hw'. rewrite El in Hw'.
  apply Forall_cons in Hw' as [Ht Hw1]. unfold in_sight in Ht.
  rewrite time_less_than by (unfold MAX_MS in *; lia).
  destruct (Z.ltb_spec now (s_when t)) as [Hlt|Hge]; [by exists st|].
  rewrite Ef. cbn [mbind res_bind].
  assert (window late (SState l (s_when t) (s_active s) (s_pcbs s) (s_clock s) (s_calls s)))
    as Hw2 by done.
  apply rsim_bind.
  - eapply call_handler_sim; [done..|unfold MAX_MS in *; lia|done|].
    unfold popped. simpl. lia.
  - intros st2 s2 E2 Hs2.
    destruct (s_handler_inv late _ _ _ _ E2 H0 Hw2) as [Hw3 Hc3];
      [unfold popped; simpl; lia|]. simpl in Hc3.
    eapply (IH (late + MAX_MS)); [done|unfold MAX_MS in *; lia..|done|lia|lia].
Qed.

(** ** Why a check ends *)

(** How often a timer can still be run by a check that began at [now]: a cyclic one
    sets itself again for [now] at the earliest, and then for later. *)
Definition rank (now : Z) (t : stimer) : nat :=
  if now <? s_when t then 0
  else match s_h t with HCyclic => if s_when t =? now then 1 else 2 | _ => 1 end.

Fixpoint ranks (now : Z) (l : list stimer) : nat :=
  match l with [] => 0 | t :: l => rank now t + ranks now l end.

Lemma ranks_insert now t l : ranks now (s_insert t l) = (rank now t + ranks now l)%nat.
Proof. induction l as [|x l IH]; cbn [s_insert]; [done|]. case_match; simpl; lia. Qed.

Lemma ranks_remove now h arg l : (ranks now (s_remove h arg l) <= ranks now l)%nat.
Proof. induction l as [|x l IH]; cbn [s_remove ranks]; [lia|]. case_match; simpl; lia. Qed.

Lemma ranks_max now l : (ranks now l <= 2 * length l)%nat.
Proof.
  induction l as [|t l IH]; cbn [ranks length]; [lia|].
  assert (rank now t <= 2)%nat by (unfold rank; repeat case_match; lia). lia.
Qed.

Lemma rank_later now w h arg : now < w → rank now (STimer w h arg) = 0%nat.
Proof. intros Hw. unfold rank. simpl. by rewrite (proj2 (Z.ltb_lt _ _) Hw). Qed.

Lemma s_docalls_rank now cs : ∀ s s',
  s_docalls cs s = Ok s' → Forall call_ok cs → now <= s_clock s →
  (ranks now (s_timers s') <= ranks now (s_timers s))%nat ∧ s_clock s' = s_clock s.
Proof.
  induction cs as [|c cs IH]; intros s s' E Hc Hn; cbn [s_docalls] in E; inv_res; [done|].
  apply Forall_cons in Hc as [Hc Hcs].
  assert ((ranks now (s_timers r) <= ranks now (s_timers s))%nat ∧ s_clock r = s_clock s) as [H1 H2].
  { destruct c as [msecs h arg|h arg|]; cbn [s_call] in E0.
    - apply s_timeout_inv in E0 as [_ ->]. simpl. simpl in Hc.
      by rewrite ranks_insert, rank_later by lia.
    - injection E0 as <-. split; [apply ranks_remove|done].
    - unfold s_tcp_needed in E0. case_match; [|by injection E0 as <-].
      apply s_timeout_inv in E0 as [_ ->]. simpl.
      by rewrite ranks_insert, rank_later by (unfold TCP_TMR_INTERVAL; lia). }
  destruct (IH r s' E Hcs) as [H3 H4]; [lia|]. split; [lia|congruence].
Qed.

Lemma s_docalls_due cs : ∀ s s', s_docalls cs s = Ok s' → s_due s' = s_due s.
Proof.
  induction cs as [|c cs IH]; intros s s' E; cbn [s_docalls] in E; inv_res; [done|].
  rewrite (IH _ _ E). destruct c; cbn [s_call] in E0.
  - by apply s_timeout_inv in E0 as [_ ->].
  - by injection E0 as <-.
  - unfold s_tcp_needed in E0. case_match; [|by injection E0 as <-].
    by apply s_timeout_inv in E0 as [_ ->].
Qed.

Lemma s_effect_rank now h arg s s' :
  s_effect effect h arg s = Ok s' → now <= s_clock s →
  (ranks now (s_timers s') <= ranks now (s_timers s))%nat ∧ now <= s_clock s' ∧ s_due s' = s_due s.
Proof.
  unfold s_effect. intros E Hn. destruct (Heff (s_calls s) h arg) as [Hms Hcs].
  destruct (s_docalls_rank now _ _ _ E Hcs) as [H1 H2]; [simpl; lia|].
  simpl in *. split; [done|]. split; [lia|]. by apply s_docalls_due in E.
Qed.

(** Running a timer that is due costs one rank, whatever it sets. *)
Lemma s_handler_rank now h arg s s' :
  s_handler effect h arg s = Ok s' → now <= s_clock s → s_due s <= now →
  (ranks now (s_timers s') < rank now (STimer (s_due s) h arg) + ranks now (s_timers s))%nat ∧
  now <= s_clock s'.
Proof.
  intros E Hn Hdu. unfold rank. cbn [s_when s_h]. rewrite (proj2 (Z.ltb_ge _ _)) by lia.
  destruct h as [| | |u]; cbn [s_handler] in E.
  - injection E as <-. lia.
  - inv_res. apply interval_range in E0.
    destruct (s_effect_rank now _ _ _ _ E1 Hn) as (Hr & Hc & Hdu').
    apply s_timeout_abs_inv in E as ->. cbn [s_set_timers s_timers s_clock].
    rewrite ranks_insert. split; [|done]. unfold rank. cbn [s_when s_h].
    destruct (Z.ltb_spec (s_due r0 + r) (s_clock r0)).
    + rewrite (proj2 (Z.ltb_lt now _)) by lia. case_match; lia.
    + destruct (Z.ltb_spec now (s_due r0 + r)); [case_match; lia|].
      rewrite (proj2 (Z.eqb_eq (s_due r0 + r) now)), (proj2 (Z.eqb_neq (s_due s) now)); lia.
  - inv_res. destruct (s_effect_rank now _ _ _ _ E0 Hn) as (Hr & Hc & _).
    case_match; [|injection E as <-; simpl; lia]. apply s_timeout_inv in E as [_ ->].
    cbn [s_set_timers s_timers s_clock]. rewrite ranks_insert, rank_later
      by (unfold TCP_TMR_INTERVAL; lia). lia.
  - destruct (s_effect_rank now _ _ _ _ E Hn) as (Hr & Hc & _). lia.
Qed.

(** Errors of the specification: only the pool or a timeout that is too long. *)
Lemma s_timeout_abs_faults t s e : s_timeout_abs t s = Fault e → e = Aborted.
Proof. unfold s_timeout_abs. case_decide; by intros [= <-]. Qed.

Lemma s_timeout_faults m h a s e : s_timeout m h a s = Fault e → e = Aborted.
Proof.
  unfold s_timeout, lwip_assert. case_match; cbn [mbind res_bind]; [|by intros [= <-]].
  apply s_timeout_abs_faults.
Qed.

Lemma s_docalls_faults cs : ∀ s e, s_docalls cs s = Fault e → e = Aborted.
Proof.
  induction cs as [|c cs IH]; intros s e E; cbn [s_docalls] in E; [done|].
  destruct (s_call c s) as [s1|e1] eqn:E1; cbn [mbind res_bind] in E; [by eapply IH|].
  injection E as <-. destruct c; cbn [s_call] in E1;
    [by eapply s_timeout_faults|done|].
  unfold s_tcp_needed in E1. case_match; [by eapply s_timeout_faults|done].
Qed.

Lemma s_handler_faults h arg s e :
  s_handler effect h arg s = Fault e →
  e = Aborted ∨ (e = BadPointer ∧ h = HCyclic ∧ lwip_cyclic_timers !! Z.to_nat arg = None).
Proof.
  destruct h as [| | |u]; cbn [s_handler]; intros E; [done|..].
  - destruct (lwip_cyclic_timers !! Z.to_nat arg) as [i|]; cbn [mbind res_bind oget] in E;
      [|injection E as <-; by right]. left.
    destruct (s_effect effect HCyclic arg s) as [s1|e1] eqn:E1; cbn [mbind res_bind] in E.
    + by apply s_timeout_abs_faults in E.
    + injection E as <-. by eapply s_docalls_faults.
  - left. destruct (s_effect effect HTcp 0 s) as [s1|e1] eqn:E1; cbn [mbind res_bind] in E.
    + case_match; [|done]. by eapply s_timeout_faults.
    + injection E as <-. by eapply s_docalls_faults.
  - left. by eapply s_docalls_faults.
Qed.

(** ** The invariant of the list *)

(** The timers of this file's own callbacks. *)
Definition static_of (t : stimer) : option (handler * Z) :=
  match s_h t with HCyclic | HTcp => Some (s_h t, s_arg t) | _ => None end.
Definition statics (l : list stimer) : list (handler * Z) := omap static_of l.

(** The cyclic timers of the table, without the first, and the timer of TCP while
    it is active. *)
Definition own_timers (active : bool) : list (handler * Z) :=
  ((λ i, (HCyclic, Z.of_nat i)) <$> seq 1 6) ++ (if active then [(HTcp, 0)] else []).

(** Sorted; every one of the file's own timers is in the list once, or is the one
    that is being run. *)
Record timers_inv (running : list (handler * Z)) (s : sstate) : Prop := TimersInv {
  ti_sorted : StronglySorted (λ a b, s_when a <= s_when b) (s_timers s);
  ti_own : running ++ statics (s_timers s) ≡ₚ own_timers (s_active s);
}.

Lemma s_insert_perm t l : s_insert t l ≡ₚ t :: l.
Proof.
  induction l as [|x l IH]; cbn [s_insert]; [done|]. case_match; [done|].
  rewrite IH. apply Permutation_swap.
Qed.

Lemma s_insert_sorted t l :
  StronglySorted (λ a b, s_when a <= s_when b) l →
  StronglySorted (λ a b, s_when a <= s_when b) (s_insert t l).
Proof.
  induction 1 as [|x l Hs IH Hx]; cbn [s_insert]; [repeat constructor|].
  destruct (Z.ltb_spec (s_when t) (s_when x)) as [Hlt|Hge].
  - constructor; [by constructor|]. constructor; [lia|]. eapply Forall_impl; [exact Hx|]. simpl. lia.
  - constructor; [done|]. by apply s_insert_Forall.
Qed.

Lemma s_remove_sorted h arg l :
  StronglySorted (λ a b, s_when a <= s_when b) l →
  StronglySorted (λ a b, s_when a <= s_when b) (s_remove h arg l).
Proof.
  induction 1 as [|x l Hs IH Hx]; cbn [s_remove]; [constructor|]. case_match; [done|].
  constructor; [done|]. by apply s_remove_Forall.
Qed.

Lemma statics_insert t l :
  statics (s_insert t l) ≡ₚ match static_of t with Some x => [x] | None => [] end ++ statics l.
Proof. unfold statics. rewrite s_insert_perm. cbn [omap list_omap]. by case_match. Qed.

Lemma statics_remove u arg l : statics (s_remove (HUser u) arg l) = statics l.
Proof.
  induction l as [|x l IH]; cbn [s_remove]; [done|]. unfold s_match, statics in *.
  case_bool_decide as Hm.
  - cbn [omap list_omap]. unfold static_of at 2. destruct Hm as [-> _]. done.
  - cbn [omap list_omap]. by rewrite IH.
Qed.

(** Setting one of the file's own timers again ends its run. *)
Lemma timers_inv_reset run t s :
  timers_inv run s → run = match static_of t with Some x => [x] | None => [] end →
  timers_inv [] (s_set_timers (s_insert t (s_timers s)) s).
Proof.
  intros [Hs Ho] ->. split; [by apply s_insert_sorted|].
  cbn [s_set_timers s_timers s_active app]. by rewrite statics_insert.
Qed.

Lemma s_call_inv_timers run c s s' :
  s_call c s = Ok s' → timers_inv run s → timers_inv run s'.
Proof.
  intros E [Hs Ho]. destruct c as [m h arg|h arg|]; cbn [s_call] in E.
  - apply s_timeout_inv in E as [_ ->]. split; [by apply s_insert_sorted|].
    cbn [s_set_timers s_timers s_active]. by rewrite statics_insert.
  - injection E as <-. split; [by apply s_remove_sorted|].
    cbn [s_untimeout s_set_timers s_timers s_active]. by rewrite statics_remove.
  - unfold s_tcp_needed in E. destruct (s_active s) eqn:Ea; [by injection E as <-; split; rewrite ?Ea|].
    destruct (s_pcbs s); [|by injection E as <-; split; rewrite ?Ea].
    apply s_timeout_inv in E as [_ ->]. split; [by apply s_insert_sorted|].
    cbn [s_set_timers s_set_active s_timers s_active]. rewrite statics_insert.
    unfold own_timers in *. rewrite app_nil_r in Ho. rewrite <- Ho. cbn [static_of s_h s_arg].
    by rewrite (Permutation_app_comm [_]), app_assoc.
Qed.

Lemma s_docalls_inv_timers run cs : ∀ s s',
  s_docalls cs s = Ok s' → timers_inv run s → timers_inv run s'.
Proof.
  induction cs as [|c cs IH]; intros s s' E Hi; cbn [s_docalls] in E; inv_res; [done|].
  eapply IH; [done|]. by eapply s_call_inv_timers.
Qed.

Lemma s_effect_inv_timers run h arg s s' :
  s_effect effect h arg s = Ok s' → timers_inv run s → timers_inv run s'.
Proof. intros E Hi. eapply s_docalls_inv_timers; [exact E|]. destruct Hi. by split. Qed.

Lemma s_handler_inv_timers h arg s s' :
  s_handler effect h arg s = Ok s' → (h = HTcp → arg = 0) →
  timers_inv match static_of (STimer 0 h arg) with Some x => [x] | None => [] end s →
  timers_inv [] s'.
Proof.
  clear Hd Heff base esize. intros E Harg Hi. destruct h as [| | |u]; cbn [s_handler static_of s_h s_arg] in *.
  - by injection E as <-.
  - inv_res. apply s_timeout_abs_inv in E as ->. eapply timers_inv_reset; [|done].
    by eapply s_effect_inv_timers.
  - rewrite Harg in Hi by done. inv_res. pose proof (s_effect_inv_timers _ _ _ _ _ E0 Hi) as Hi1.
    case_match.
    + apply s_timeout_inv in E as [_ ->]. by eapply timers_inv_reset.
    + injection E as <-. destruct Hi1 as [Hs1 Ho1]. split; [done|]. simpl.
      destruct (s_active r) eqn:Ea; unfold own_timers in *.
      * rewrite (Permutation_app_comm (_ <$> _)) in Ho1. simpl in Ho1.
        apply Permutation_cons_inv in Ho1. by rewrite Ho1.
      * exfalso. assert ((HTcp, 0) ∈ (λ i, (HCyclic, Z.of_nat i)) <$> seq 1 6) as Hel.
        { rewrite app_nil_r in Ho1. rewrite <- Ho1. set_solver. }
        by apply list_elem_of_fmap in Hel as (? & ? & _).
  - by eapply s_effect_inv_timers.
Qed.

(** ** A whole check *)

(** The timer at the head of the list is one of the file's own with its argument, or
    a caller's. *)
Lemma timers_inv_pop t l s :
  s_timers s = t :: l → timers_inv [] s →
  timers_inv match static_of t with Some x => [x] | None => [] end
    (SState l (s_when t) (s_active s) (s_pcbs s) (s_clock s) (s_calls s)) ∧
  (s_h t = HTcp → s_arg t = 0) ∧
  (s_h t = HCyclic → is_Some (lwip_cyclic_timers !! Z.to_nat (s_arg t))).
Proof.
  clear Hd Heff effect base esize. intros El [Hs Ho]. rewrite El in Hs, Ho. apply StronglySorted_inv in Hs as [Hs _].
  unfold statics in Ho. cbn [omap list_omap app] in Ho. split; [|split].
  - split; [done|]. cbn [s_timers s_active]. unfold statics. by destruct (static_of t).
  - intros Eh. unfold static_of in Ho. rewrite Eh in Ho.
    assert ((HTcp, s_arg t) ∈ own_timers (s_active s)) as Hel by (rewrite <- Ho; set_solver).
    apply elem_of_app in Hel as [(? & ? & _)%list_elem_of_fmap|Hel]; [done|].
    destruct (s_active s); set_solver.
  - intros Eh. unfold static_of in Ho. rewrite Eh in Ho.
    assert ((HCyclic, s_arg t) ∈ own_timers (s_active s)) as Hel by (rewrite <- Ho; set_solver).
    apply elem_of_app in Hel as [(i & [= ->] & Hi%elem_of_seq)%list_elem_of_fmap|Hel].
    + apply lookup_lt_is_Some. rewrite Nat2Z.id. simpl. lia.
    + destruct (s_active s); set_solver.
Qed.

(** A check of a list that can be run [fuel] times ends: with nothing due, or with
    the process. *)
Lemma s_check_ends fuel : ∀ now s,
  timers_inv [] s → now <= s_clock s → (ranks now (s_timers s) < fuel)%nat →
  match s_check effect fuel now s with
  | Ok s' => timers_inv [] s' ∧ Forall (λ t, now < s_when t) (s_timers s')
  | Fault e => e = Aborted
  end.
Proof.
  induction fuel as [|fuel IH]; intros now s Hi Hn Hr; [lia|]. cbn [s_check].
  destruct (s_timers s) as [|t l] eqn:El; [by rewrite El|].
  destruct (Z.ltb_spec now (s_when t)) as [Hlt|Hge].
  { split; [done|]. rewrite El. destruct Hi as [Hs _]. rewrite El in Hs.
    apply StronglySorted_inv in Hs as [_ Hf]. constructor; [done|].
    eapply Forall_impl; [exact Hf|]. simpl. lia. }
  destruct (timers_inv_pop t l s El Hi) as (Hi1 & Htcp & Hcyc).
  destruct (s_handler _ _ _ _) as [s1|e] eqn:E1; cbn [mbind res_bind].
  - destruct (s_handler_rank now _ _ _ _ E1) as [Hr1 Hc1]; [done|done|].
    apply IH; [eapply s_handler_inv_timers; [done..|]|done|].
    + by destruct t.
    + cbn [ranks s_timers] in Hr, Hr1. unfold rank in Hr, Hr1. cbn [s_when s_h s_due] in *. lia.
  - apply s_handler_faults in E1 as [->|(-> & Eh & Hnone)]; [done|].
    apply Hcyc in Eh. rewrite Hnone in Eh. by destruct Eh.
Qed.

Lemma s_check_clock fuel : ∀ late now s s',
  s_check effect fuel now s = Ok s' → 0 < late → window late s → now <= s_clock s →
  window (late + Z.of_nat fuel * MAX_MS) s' ∧
  s_clock s <= s_clock s' <= s_clock s + Z.of_nat fuel * MAX_MS.
Proof.
  induction fuel as [|fuel IH]; intros late now s s' E Hl Hw Hn; [done|].
  rewrite Nat2Z.inj_succ. cbn [s_check] in E.
  assert (0 <= MAX_MS) as Hm by done.
  destruct (s_timers s) as [|t l] eqn:El;
    [|destruct (Z.ltb_spec now (s_when t)) as [Hlt|Hge]];
    [injection E as <-; split; [eapply window_weaken; [done|nia]|nia]..|].
  inv_res. pose proof Hw as Hw'. unfold window in Hw'. rewrite El in Hw'.
  apply Forall_cons in Hw' as [Ht Hw1]. unfold in_sight in Ht.
  destruct (s_handler_inv late _ _ _ _ E0 Hl) as [Hw2 Hc2]; [done|unfold popped; simpl; lia|].
  simpl in Hc2. destruct (IH (late + MAX_MS) now _ _ E) as [Hw3 Hc3]; [lia|done|lia|].
  split; [eapply window_weaken; [done|nia]|nia].
Qed.

(** ** Runs of the program *)

(** Each of seventeen timers runs at most twice in a check. *)
Definition CHECK_FUEL : nat := 35.

(** What happens between two checks: time passes, connections come and go, and the
    stack makes a call.  A check is what the main loop does. *)
Inductive tev : Type := EvCall (ms : Z) (pcbs : bool) (c : tcall) | EvCheck (ms : Z).

Definition t_pass (ms : Z) (pcbs : bool) (st : tstate) : tstate :=
  TState (ts_pool st) (ts_objs st) (next_timeout st) (current_timeout_due_time st)
    (tcpip_tcp_timer_active st) pcbs (ts_clock st + ms) (ts_calls st) (ts_self st) (ts_sys st).

Definition timer_lwip (st : tstate) : res tstate := sys_check_timeouts effect CHECK_FUEL st.

Definition t_event (e : tev) (st : tstate) : res tstate :=
  match e with
  | EvCall ms pcbs c => do_call c (t_pass ms pcbs st)
  | EvCheck ms => timer_lwip (t_pass ms (ts_pcbs st) st)
  end.

Fixpoint t_run (evs : list tev) (st : tstate) : res tstate :=
  match evs with [] => Ok st | e :: evs => st ← t_event e st; t_run evs st end.

(** The same in the specification. *)
Definition s_pass (ms : Z) (pcbs : bool) (s : sstate) : sstate :=
  SState (s_timers s) (s_due s) (s_active s) pcbs (s_clock s + ms) (s_calls s).

Definition s_event (e : tev) (s : sstate) : res sstate :=
  match e with
  | EvCall ms pcbs c => s_call c (s_pass ms pcbs s)
  | EvCheck ms => s_check effect CHECK_FUEL (s_clock s + ms) (s_pass ms (s_pcbs s) s)
  end.

Fixpoint s_run (evs : list tev) (s : sstate) : res sstate :=
  match evs with [] => Ok s | e :: evs => s ← s_event e s; s_run evs s end.

(** The main loop comes round at least every [2 ^ 28] milliseconds (three days);
    [lag] is the time since it last did. *)
Definition CHECK_MS : Z := Z.of_nat CHECK_FUEL * MAX_MS.

Fixpoint timely (lag : Z) (evs : list tev) : Prop :=
  match evs with
  | [] => True
  | EvCall ms _ c :: evs => 0 <= ms ∧ lag + ms <= 2 ^ 28 ∧ call_ok c ∧ timely (lag + ms) evs
  | EvCheck ms :: evs => 0 <= ms ∧ lag + ms <= 2 ^ 28 ∧ timely CHECK_MS evs
  end.

Lemma s_pass_window lag ms pcbs s :
  window (1 + lag) s → 0 <= ms → window (1 + (lag + ms)) (s_pass ms pcbs s).
Proof. intros Hw Hm. rewrite Z.add_assoc. by eapply window_later. Qed.

Lemma t_pass_sim ms pcbs st s : sim d st s → sim d (t_pass ms pcbs st) (s_pass ms pcbs s).
Proof. intros []. split; simpl; try done. congruence. Qed.

Lemma sim_length st s : sim d st s → (length (s_timers s) <= MEMP_NUM_SYS_TIMEOUT)%nat.
Proof. intros [(addrs & Hc & Hp) _ _ _ _ _ _]. by apply (sim_count base esize Hd st s addrs). Qed.

(** One event keeps the two sides together, the window and the invariant; after a
    check nothing is left that was due when it began. *)
Lemma event_sim lag e evs st s :
  sim d st s → timers_inv [] s → 0 <= lag → window (1 + lag) s → timely lag (e :: evs) →
  rsim d (t_event e st) (s_event e s) ∧
  match s_event e s with
  | Ok s' => timers_inv [] s' ∧ (∃ lag', 0 <= lag' ∧ timely lag' evs ∧ window (1 + lag') s') ∧
      ∀ ms, e = EvCheck ms → Forall (λ t, s_clock s + ms < s_when t) (s_timers s')
  | Fault f => f = Aborted
  end.
Proof.
  intros Hs Hi H0 Hw Ht.
  destruct e as [ms pcbs c|ms]; destruct Ht as (Hm & Hl & Ht); cbn [t_event s_event].
  - destruct Ht as [Hc Ht]. pose proof (s_pass_window lag ms pcbs s Hw Hm) as Hw1. split.
    + eapply (do_call_sim base esize Hd); [by apply t_pass_sim|done|done|lia].
    + destruct (s_call c (s_pass ms pcbs s)) as [s'|f] eqn:E.
      * split; [eapply s_call_inv_timers; [done|]; by destruct Hi|]. split; [|done].
        exists (lag + ms). split; [lia|]. split; [done|]. eapply s_call_inv; [done..|lia|done].
      * apply (s_docalls_faults [c] (s_pass ms pcbs s)). cbn [s_docalls]. by rewrite E.
  - pose proof (s_pass_window lag ms (s_pcbs s) s Hw Hm) as Hw1. rewrite (sim_pcbs _ _ _ Hs).
    pose proof (t_pass_sim ms (s_pcbs s) st s Hs) as Hs1. split.
    + unfold timer_lwip, sys_check_timeouts. rewrite (sim_core base esize _ _ Hs1).
      cbn [mbind res_bind]. unfold sys_now. rewrite (sim_clock _ _ _ Hs1).
      apply (check_loop_sim CHECK_FUEL (1 + (lag + ms))); [done|lia| |done|done|];
        unfold MAX_MS, CHECK_FUEL; cbn [s_pass s_clock]; lia.
    + pose proof (s_check_ends CHECK_FUEL (s_clock s + ms) (s_pass ms (s_pcbs s) s)) as He.
      destruct (s_check _ _ _ _) as [s'|f] eqn:E.
      * destruct (s_check_clock _ (1 + (lag + ms)) _ _ _ E ltac:(lia) Hw1) as [Hw2 Hc2]; [done|].
        destruct He as [Hi' Hf]; [by destruct Hi|done| |].
        { pose proof (ranks_max (s_clock s + ms) (s_timers s)).
          pose proof (sim_length st s Hs). unfold MEMP_NUM_SYS_TIMEOUT, CHECK_FUEL in *.
          cbn [s_pass s_timers]. lia. }
        split; [done|]. split; [|by intros ? [= <-]].
        exists CHECK_MS. split; [done|]. split; [done|]. unfold window in *.
        apply Forall_forall. intros t Ht'. rewrite Forall_forall in Hf, Hw2.
        specialize (Hf t Ht'). specialize (Hw2 t Ht'). unfold in_sight, CHECK_MS in *.
        cbn [s_pass s_clock] in Hc2. lia.
      * apply He; [by destruct Hi|done|]. pose proof (ranks_max (s_clock s + ms) (s_timers s)).
        pose proof (sim_length st s Hs). unfold MEMP_NUM_SYS_TIMEOUT, CHECK_FUEL in *.
        cbn [s_pass s_timers]. lia.
Qed.

Lemma run_sim evs : ∀ lag st s,
  sim d st s → timers_inv [] s → 0 <= lag → window (1 + lag) s → timely lag evs →
  rsim d (t_run evs st) (s_run evs s) ∧
  match s_run evs s with Ok s' => timers_inv [] s' | Fault f => f = Aborted end.
Proof.
  induction evs as [|e evs IH]; intros lag st s Hs Hi H0 Hw Ht; [by split; [exists st|]|].
  destruct (event_sim lag e evs st s Hs Hi H0 Hw Ht) as [Hr Hm]. cbn [t_run s_run].
  destruct (s_event e s) as [s1|f]; cbn [mbind res_bind].
  - destruct Hr as (st1 & -> & Hs1). destruct Hm as (Hi1 & (lag1 & H1 & Ht1 & Hw1) & _).
    by apply (IH lag1).
  - simpl in Hr. by rewrite Hr.
Qed.

(** ** Start-up *)

(** The stack before [sys_timeouts_init]. *)
Definition t_boot (c : Z) (pcbs : bool) (self : Z) (y : sysarch) : tstate :=
  TState (memp_init_pool d) ∅ None 0 false pcbs c 0 self y.
Definition s_boot (c : Z) (pcbs : bool) : sstate := SState [] 0 false pcbs c 0.

Fixpoint s_init_timers (l : list Z) (i : Z) (s : sstate) : res sstate :=
  match l with
  | [] => Ok s
  | interval :: l => s ← s_timeout interval HCyclic i s; s_init_timers l (i + 1) s
  end.
Definition s_timeouts_init (s : sstate) : res sstate :=
  s_init_timers (drop 1 lwip_cyclic_timers) 1 s.

Lemma init_timers_sim l : ∀ i st s,
  sim d st s → window 1 s → Forall (λ m, 0 <= m) l →
  rsim d (init_timers l i st) (s_init_timers l i s).
Proof.
  induction l as [|m l IH]; intros i st s Hs Hw Hl; [by exists st|].
  apply Forall_cons in Hl as [Hm Hl]. cbn [init_timers s_init_timers]. apply rsim_bind.
  - by apply (sys_timeout_sim base esize Hd 1).
  - intros st1 s1 E1 Hs1. apply IH; [done| |done].
    apply s_timeout_inv in E1 as [Hb ->]. apply s_insert_Forall. split; [|done].
    unfold in_sight. cbn [s_when s_set_timers s_clock]. lia.
Qed.

Lemma t_boot_sim c pcbs self y :
  may_use self y → sim d (t_boot c pcbs self y) (s_boot c pcbs).
Proof.
  intros Hy. split; try done. exists []. split; [constructor|]. by apply memp_init_pool_inv.
Qed.

Lemma s_timeout_Ok m h arg s :
  m < 2 ^ 30 → (length (s_timers s) < MEMP_NUM_SYS_TIMEOUT)%nat →
  s_timeout m h arg s = Ok (s_set_timers (s_insert (STimer (s_clock s + m) h arg) (s_timers s)) s).
Proof.
  intros Hm Hl. unfold s_timeout, lwip_assert, s_timeout_abs.
  change (LWIP_UINT32_MAX / 4) with (2 ^ 30 - 1). rewrite (proj2 (Z.leb_le _ _)) by lia.
  cbn [mbind res_bind]. by rewrite decide_True.
Qed.

(** Six timers, by the time they are due and then by their place in the table. *)
Lemma s_timeouts_init_spec c pcbs :
  s_timeouts_init (s_boot c pcbs) =
    Ok (SState [STimer (c + 100) HCyclic 3; STimer (c + 100) HCyclic 6;
                STimer (c + 1000) HCyclic 1; STimer (c + 1000) HCyclic 2;
                STimer (c + 1000) HCyclic 4; STimer (c + 1000) HCyclic 5] 0 false pcbs c 0).
Proof.
  unfold s_timeouts_init, lwip_cyclic_timers, s_boot. cbn [drop s_init_timers].
  do 6 (rewrite s_timeout_Ok by (unfold MEMP_NUM_SYS_TIMEOUT; simpl; lia);
    cbn [mbind res_bind s_set_timers s_timers s_clock s_due s_active s_pcbs s_calls
      s_insert s_when];
    repeat first [rewrite (proj2 (Z.ltb_lt _ _)) by lia | rewrite (proj2 (Z.ltb_ge _ _)) by lia]).
  reflexivity.
Qed.

(** The six timers are in the list. *)
Lemma boot_ready c pcbs self y :
  may_use self y → ∃ st s, sys_timeouts_init (t_boot c pcbs self y) = Ok st ∧ sim d st s ∧
    timers_inv [] s ∧ Forall (λ t, is_Some (static_of t)) (s_timers s) ∧ window 1 s ∧
    s_timeouts_init (s_boot c pcbs) = Ok s.
Proof.
  clear Heff effect. intros Hy.
  pose proof (init_timers_sim (drop 1 lwip_cyclic_timers) 1 _ _ (t_boot_sim c pcbs self y Hy)) as Hr.
  fold (s_timeouts_init (s_boot c pcbs)) in Hr. fold (sys_timeouts_init (t_boot c pcbs self y)) in Hr.
  rewrite s_timeouts_init_spec in *. destruct Hr as (st & -> & Hs); [constructor|repeat constructor; lia|].
  exists st. eexists. split; [done|]. split; [done|]. split; [|split; [|split; [|done]]].
  - split; [cbn [s_timers]; repeat constructor; simpl; lia|].
    unfold own_timers, statics. simpl.
    apply NoDup_Permutation; [repeat constructor; set_solver..|set_solver].
  - repeat constructor; by eexists.
  - unfold window, in_sight. cbn [s_timers s_clock]. repeat constructor; simpl; lia.
Qed.

Lemma init_run_sim evs c pcbs self y :
  may_use self y → timely 0 evs →
  rsim d (sys_timeouts_init (t_boot c pcbs self y) ≫= t_run evs)
    (s_timeouts_init (s_boot c pcbs) ≫= s_run evs) ∧
  match s_timeouts_init (s_boot c pcbs) ≫= s_run evs with
  | Ok s' => timers_inv [] s' | Fault f => f = Aborted
  end.
Proof.
  intros Hy Ht. destruct (boot_ready c pcbs self y Hy) as (st & s & -> & Hs & Hi & _ & Hw & ->).
  cbn [mbind res_bind]. by apply (run_sim evs 0).
Qed.

End run.

(** C13 (refinement).  Over every run of the program, from the start of the stack on,
    with time passing, the clock wrapping around, connections coming and going,
    timers being set and cancelled between the checks and by the handlers, the
    code behaves as a list of timers sorted by unbounded times: the same timers
    are run in the same order at the same moments, and both fail alike.  It needs
    that handlers take less than a quarter of an hour, that checks are less than
    three days apart, and that no handler sets a timer for the moment it runs
    in. *)
Theorem timeouts_refine base esize effect evs c pcbs self y :
  desc_ok (timeo_desc base esize) → effects_ok effect → may_use self y → timely 0 evs →
  rsim (timeo_desc base esize)
    (sys_timeouts_init (t_boot base esize c pcbs self y) ≫= t_run effect evs)
    (s_timeouts_init (s_boot c pcbs) ≫= s_run effect evs).
Proof. intros Hd He Hy Ht. exact (proj1 (init_run_sim _ _ Hd _ He _ _ _ _ _ Hy Ht)). Qed.

(** An example: handlers take five milliseconds, connections are there while they
    run, and one of them sets a timer of its own. *)
Definition demo_effect (n : nat) (h : handler) (arg : Z) : heffect :=
  HEffect 5 true (if decide (h = HCyclic ∧ arg = 2) then [CTimeout 30 77 1; CTcpNeeded] else []).

Definition demo_events : list tev :=
  [EvCheck 99; EvCheck 1; EvCall 3 true CTcpNeeded; EvCheck 900; EvCall 0 true (CUntimeout 77 1);
   EvCheck 400].

Lemma demo_effects_ok : effects_ok demo_effect.
Proof.
  intros n h a. unfold demo_effect, MAX_MS. simpl. split; [lia|].
  case_decide; repeat constructor; simpl; lia.
Qed.

Lemma demo_timely : timely 0 demo_events.
Proof. vm_compute. repeat split; discriminate. Qed.

Lemma demo_desc_ok : desc_ok (timeo_desc 4096 32).
Proof. repeat split; vm_compute; reflexivity. Qed.

(** The clock starts shortly before it wraps around. *)
Lemma timeouts_refine_witness :
  let t := sys_timeouts_init (t_boot 4096 32 (2 ^ 32 - 50) false 1 sys_boot)
             ≫= t_run demo_effect demo_events in
  (λ st, (ts_calls st, ts_clock st, map_size (ts_objs st))) <$> t = Ok (12%nat, 2 ^ 32 + 1413, 7%nat) ∧
  rsim (timeo_desc 4096 32) t
    (s_timeouts_init (s_boot (2 ^ 32 - 50) false) ≫= s_run demo_effect demo_events).
Proof.
  cbv zeta. split; [vm_compute; reflexivity|].
  apply timeouts_refine; [apply demo_desc_ok|apply demo_effects_ok|reflexivity|apply demo_timely].
Defined.

(** ** Nothing sets a timer from outside

    In the configuration of the program only this file sets timers: the pool is
    then always large enough. *)

Definition no_timeout (c : tcall) : Prop :=
  match c with CTimeout _ _ _ => False | _ => True end.
Definition ev_no_timeout (e : tev) : Prop :=
  match e with EvCall _ _ c => no_timeout c | EvCheck _ => True end.

Definition own_only (s : sstate) : Prop := Forall (λ t, is_Some (static_of t)) (s_timers s).

Lemma own_only_statics l :
  Forall (λ t, is_Some (static_of t)) l → statics l = (λ t, (s_h t, s_arg t)) <$> l.
Proof.
  induction 1 as [|t l [x Hx] Hl IH]; [done|]. unfold statics in *. cbn [omap list_omap fmap list_fmap].
  rewrite Hx, IH. f_equal. unfold static_of in Hx. destruct (s_h t); naive_solver.
Qed.

Lemma own_only_length l : Forall (λ t, is_Some (static_of t)) l → length (statics l) = length l.
Proof. intros Hl. by rewrite own_only_statics, length_fmap. Qed.

Lemma own_only_room run s :
  own_only s → timers_inv run s → (length (s_timers s) < MEMP_NUM_SYS_TIMEOUT)%nat.
Proof.
  intros Ho [_ Hp]. apply Permutation_length in Hp. rewrite length_app, own_only_length in Hp by done.
  unfold own_timers in Hp. rewrite length_app, length_fmap, length_seq in Hp.
  unfold MEMP_NUM_SYS_TIMEOUT. destruct (s_active s); simpl in Hp; lia.
Qed.

Section own.
Context (effect : nat → handler → Z → heffect).
Context (Hno : ∀ n h a, Forall no_timeout (he_calls (effect n h a))).

Lemma s_call_own run c s :
  no_timeout c → own_only s → timers_inv run s → ∃ s', s_call c s = Ok s' ∧ own_only s'.
Proof.
  intros Hc Ho Hi. destruct c as [m h arg|h arg|]; [done|..]; cbn [s_call].
  - eexists. split; [done|]. by apply s_remove_Forall.
  - unfold s_tcp_needed. case_match; [|by eexists].
    rewrite s_timeout_Ok; [|done|by apply (own_only_room run s)]. eexists. split; [done|].
    apply s_insert_Forall. split; [by eexists|done].
Qed.

Lemma s_docalls_own run cs : ∀ s,
  Forall no_timeout cs → own_only s → timers_inv run s → ∃ s', s_docalls cs s = Ok s' ∧ own_only s'.
Proof.
  induction cs as [|c cs IH]; intros s Hc Ho Hi; [by eexists|].
  apply Forall_cons in Hc as [Hc Hcs].
  destruct (s_call_own run c s Hc Ho Hi) as (s1 & E1 & Ho1). cbn [s_docalls]. rewrite E1.
  apply IH; [done..|]. by eapply s_call_inv_timers.
Qed.

Lemma s_effect_own run h arg s :
  own_only s → timers_inv run s → ∃ s', s_effect effect h arg s = Ok s' ∧ own_only s'.
Proof. intros Ho Hi. eapply (s_docalls_own run); [apply Hno|done|]. by destruct Hi. Qed.

(** A handler of one of the file's own timers returns. *)
Lemma s_handler_own h arg s :
  own_only s → timers_inv match static_of (STimer 0 h arg) with Some x => [x] | None => [] end s →
  (h = HCyclic → is_Some (lwip_cyclic_timers !! Z.to_nat arg)) → h = HCyclic ∨ h = HTcp →
  ∃ s', s_handler effect h arg s = Ok s' ∧ own_only s'.
Proof.
  intros Ho Hi Hc [->| ->]; cbn [s_handler].
  - destruct (Hc eq_refl) as [i ->]. cbn [mbind res_bind oget].
    destruct (s_effect_own _ HCyclic arg s Ho Hi) as (s1 & E1 & Ho1). rewrite E1.
    pose proof (s_effect_inv_timers effect _ _ _ _ _ E1 Hi) as Hi1. cbn [mbind res_bind].
    unfold s_timeout_abs. rewrite decide_True by by eapply own_only_room.
    eexists. split; [done|]. apply s_insert_Forall. split; [by eexists|done].
  - destruct (s_effect_own _ HTcp 0 s Ho Hi) as (s1 & E1 & Ho1). rewrite E1.
    pose proof (s_effect_inv_timers effect _ _ _ _ _ E1 Hi) as Hi1. cbn [mbind res_bind].
    destruct (s_pcbs s1); [|by eexists].
    rewrite s_timeout_Ok; [|done|by eapply own_only_room]. eexists. split; [done|].
    apply s_insert_Forall. split; [by eexists|done].
Qed.

Lemma s_check_own fuel : ∀ now s,
  own_only s → timers_inv [] s → s_check effect fuel now s ≠ Fault Aborted ∧
  ∀ s', s_check effect fuel now s = Ok s' → own_only s'.
Proof.
  induction fuel as [|fuel IH]; intros now s Ho Hi; [done|]. cbn [s_check].
  destruct (s_timers s) as [|t l] eqn:El; [by split; [|intros ? [= <-]]|].
  case_match; [by split; [|intros ? [= <-]]|].
  destruct (timers_inv_pop t l s El Hi) as (Hi1 & Htcp & Hcyc).
  pose proof Ho as Ho'. unfold own_only in Ho'. rewrite El in Ho'.
  apply Forall_cons in Ho' as [[x Hx] Ho1].
  assert (s_h t = HCyclic ∨ s_h t = HTcp) as Hh
    by (unfold static_of in Hx; destruct (s_h t); naive_solver).
  destruct (s_handler_own (s_h t) (s_arg t) (SState l (s_when t) (s_active s) (s_pcbs s) (s_clock s)
    (s_calls s))) as (s1 & E1 & Ho2); [done|by destruct t|done|done|].
  rewrite E1. cbn [mbind res_bind]. apply IH; [done|].
  eapply s_handler_inv_timers; [exact E1|done|by destruct t].
Qed.

End own.

(** Every event of such a run succeeds. *)
Lemma own_event effect e s :
  (∀ n h a, Forall no_timeout (he_calls (effect n h a))) → ev_no_timeout e →
  own_only s → timers_inv [] s → s_event effect e s ≠ Fault Aborted ∧
  ∀ s', s_event effect e s = Ok s' → own_only s'.
Proof.
  intros Hno He Ho Hi. destruct e as [ms pcbs c|ms]; cbn [s_event].
  - destruct (s_call_own [] c (s_pass ms pcbs s) He) as (s1 & E1 & Ho1); [done|by destruct Hi|].
    rewrite E1. split; [done|]. by intros ? [= <-].
  - apply s_check_own; [done..|]. by destruct Hi.
Qed.

Lemma own_run base esize effect evs rest :
  desc_ok (timeo_desc base esize) → effects_ok effect →
  (∀ n h a, Forall no_timeout (he_calls (effect n h a))) → ∀ lag st s,
  sim (timeo_desc base esize) st s → timers_inv [] s → own_only s → 0 <= lag →
  window (1 + lag) s → timely lag (evs ++ rest) → Forall ev_no_timeout evs →
  ∃ st' s', t_run effect evs st = Ok st' ∧ sim (timeo_desc base esize) st' s' ∧
    timers_inv [] s' ∧ own_only s' ∧ ∃ lag', 0 <= lag' ∧ window (1 + lag') s' ∧ timely lag' rest.
Proof.
  intros Hd He Hno. induction evs as [|e evs IH]; intros lag st s Hs Hi Ho H0 Hw Ht Hf.
  { exists st, s. repeat (split; [done|]). by exists lag. }
  apply Forall_cons in Hf as [Hf Hfs].
  destruct (event_sim _ _ Hd _ He lag e (evs ++ rest) st s Hs Hi H0 Hw Ht) as [Hr Hm].
  destruct (own_event effect e s Hno Hf Ho Hi) as [Hna Hown]. cbn [t_run].
  destruct (s_event effect e s) as [s1|f]; [|by subst].
  destruct Hr as (st1 & -> & Hs1), Hm as (Hi1 & (lag1 & H1 & Ht1 & Hw1) & _).
  cbn [mbind res_bind]. apply (IH lag1 st1 s1); try done. by apply Hown.
Qed.

(** C25 (liveness).  As long as no other code sets timers, which is so in this
    configuration, the stack never runs out of them: every check returns, and when
    it does every timer that was due when it began has been run, each of the six
    cyclic timers is waiting exactly once for a later moment, and the timer of TCP
    is, exactly while it is marked active. *)
Theorem timers_never_stop base esize effect evs ms c pcbs self y :
  desc_ok (timeo_desc base esize) → effects_ok effect →
  (∀ n h a, Forall no_timeout (he_calls (effect n h a))) → may_use self y →
  timely 0 (evs ++ [EvCheck ms]) → Forall ev_no_timeout evs →
  ∃ st1 st s,
    sys_timeouts_init (t_boot base esize c pcbs self y) ≫= t_run effect evs = Ok st1 ∧
    timer_lwip effect (t_pass ms (ts_pcbs st1) st1) = Ok st ∧
    sim (timeo_desc base esize) st s ∧
    (λ t, (s_h t, s_arg t)) <$> s_timers s ≡ₚ own_timers (tcpip_tcp_timer_active st) ∧
    Forall (λ t, ts_clock st1 + ms < s_when t) (s_timers s).
Proof.
  intros Hd He Hno Hy Ht Hf.
  destruct (boot_ready base esize Hd c pcbs self y Hy) as (st0 & s0 & -> & Hs0 & Hi0 & Ho0 & Hw0 & _).
  destruct (own_run base esize effect evs [EvCheck ms] Hd He Hno 0 st0 s0)
    as (st1 & s1 & E1 & Hs1 & Hi1 & Ho1 & lag & Hl & Hw1 & Ht1); try done.
  cbn [mbind res_bind]. exists st1.
  destruct (event_sim _ _ Hd _ He lag (EvCheck ms) [] st1 s1 Hs1 Hi1 Hl Hw1 Ht1) as [Hr Hm].
  destruct (own_event effect (EvCheck ms) s1 Hno I Ho1 Hi1) as [Hna Hown].
  destruct (s_event effect (EvCheck ms) s1) as [s|f]; [|by subst].
  destruct Hr as (st & E & Hs), Hm as (Hi & _ & Hlate). exists st, s.
  split; [done|]. split; [done|]. split; [done|]. rewrite (sim_active _ _ _ Hs). split.
  - rewrite <- (ti_own _ _ Hi). apply reflexive_eq. symmetry. apply own_only_statics. by apply Hown.
  - rewrite (sim_clock _ _ _ Hs1). by apply Hlate.
Qed.

(** The handlers of the stack itself, as far as timers go: those of the table set
    the timer of TCP going when they leave connections behind. *)
Definition stack_effect (n : nat) (h : handler) (arg : Z) : heffect :=
  HEffect 2 true [CTcpNeeded].

Lemma timers_never_stop_witness :
  let init := sys_timeouts_init (t_boot 4096 32 (2 ^ 32 - 50) false 1 sys_boot) in
  let evs := [EvCheck 99; EvCheck 1; EvCall 3 true CTcpNeeded; EvCheck 900] in
  ((λ st, (ts_calls st, tcpip_tcp_timer_active st)) <$>
     (init ≫= t_run stack_effect (evs ++ [EvCheck 400])) = Ok (12%nat, true)) ∧
  ∃ st1 st s, init ≫= t_run stack_effect evs = Ok st1 ∧
    timer_lwip stack_effect (t_pass 400 (ts_pcbs st1) st1) = Ok st ∧
    sim (timeo_desc 4096 32) st s ∧
    (λ t, (s_h t, s_arg t)) <$> s_timers s ≡ₚ own_timers (tcpip_tcp_timer_active st) ∧
    Forall (λ t, ts_clock st1 + 400 < s_when t) (s_timers s).
Proof.
  cbv zeta. split; [vm_compute; reflexivity|].
  apply timers_never_stop; [apply demo_desc_ok| | |reflexivity| |].
  - intros n h a. split; [split; vm_compute; discriminate|]. by repeat constructor.
  - intros n h a. by repeat constructor.
  - vm_compute. repeat split; discriminate.
  - by repeat constructor.
Defined.

(** ** Sleeping and rebasing *)

Section sleep.
Context (base esize : Z) (Hd : desc_ok (timeo_desc base esize)).
Abbreviation d := (timeo_desc base esize).

(** How long a thread may sleep: until the first timer is due, not at all when it is
    overdue; the assertion behind it never fails. *)
Lemma sys_timeouts_sleeptime_spec late st s :
  sim d st s → window late s → late <= 2 ^ 30 →
  sys_timeouts_sleeptime st =
    Ok match s_timers s with
       | [] => SYS_TIMEOUTS_SLEEPTIME_INFINITE
       | t :: _ => Z.max 0 (s_when t - s_clock s)
       end.
Proof.
  intros Hs Hw Hl. unfold sys_timeouts_sleeptime. rewrite (sim_core _ _ _ _ Hs).
  cbn [mbind res_bind]. pose proof Hs as [(addrs & Hc & _) _ _ _ Hcl _ _].
  destruct (s_timers s) as [|t l] eqn:El; inversion Hc as [|a n ? addrs1 ? Hoa Hn]; subst; [done|].
  rewrite Hoa. cbn [mbind res_bind oget t_time]. unfold window in Hw. rewrite El in Hw.
  apply Forall_cons in Hw as [Ht _]. unfold in_sight, sys_now in *. rewrite Hcl.
  rewrite time_less_than by lia. destruct (Z.ltb_spec (s_when t) (s_clock s)) as [Hlt|Hge].
  - by rewrite Z.max_l by lia.
  - assert (u32 (u32 (s_when t) - u32 (s_clock s)) = s_when t - s_clock s) as ->.
    { unfold u32, wrapu. rewrite <- Zminus_mod. apply Z.mod_small. lia. }
    unfold LWIP_MAX_TIMEOUT, lwip_assert. rewrite (proj2 (Z.leb_le _ _)) by lia.
    cbn [mbind res_bind]. by rewrite Z.max_r by lia.
Qed.

(** Rebasing moves every timer by the same amount, so that the first one is due
    now. *)
Definition s_restart (s : sstate) : sstate :=
  match s_timers s with
  | [] => s
  | t0 :: _ =>
      s_set_timers
        ((λ t, STimer (s_when t - s_when t0 + s_clock s) (s_h t) (s_arg t)) <$> s_timers s) s
  end.

Lemma restart_walk_spec now w0 l : ∀ fuel p addrs o,
  tchain o p addrs l → NoDup addrs → (length l < fuel)%nat →
  ∃ o', restart_walk fuel (u32 now) (u32 w0) p o = Ok o' ∧
    tchain o' p addrs ((λ t, STimer (s_when t - w0 + now) (s_h t) (s_arg t)) <$> l) ∧
    (∀ a, a ∉ addrs → o' !! a = o !! a).
Proof.
  induction l as [|t l IH]; intros [|fuel] p addrs o Hc Hnd Hf; try (simpl in Hf; lia);
    inversion Hc as [|a n ? addrs1 ? Hoa Hn]; subst; cbn [restart_walk].
  { exists o. split; [done|]. split; [constructor|done]. }
  rewrite Hoa. cbn [mbind res_bind oget t_next t_time]. apply NoDup_cons in Hnd as [Hna Hnd].
  destruct (IH fuel n addrs1 (<[a := t_set_time (u32 (u32 (s_when t) - u32 w0 + u32 now))
    (SysTimeo n (u32 (s_when t)) (s_h t) (s_arg t))]> o)) as (o' & E & Hc' & Hfr);
    [|done|simpl in Hf; lia|].
  { eapply tchain_frame; [exact Hn|]. intros b Hb. rewrite lookup_insert_ne; set_solver. }
  exists o'. split; [exact E|]. split.
  - econstructor; [|exact Hc']. rewrite Hfr, lookup_insert_eq by done.
    unfold t_set_time. cbn [t_next t_h t_arg s_when s_h s_arg]. do 2 f_equal.
    unfold u32, wrapu. by rewrite <- Zplus_mod_idemp_l, <- Zminus_mod, <- Zplus_mod.
  - intros b Hb. rewrite Hfr, lookup_insert_ne; set_solver.
Qed.

Lemma sys_restart_timeouts_sim st s :
  sim d st s → ∃ st', sys_restart_timeouts st = Ok st' ∧ sim d st' (s_restart s).
Proof.
  intros Hs. pose proof Hs as [(addrs & Hc & Hp) _ _ _ Hcl _ _].
  destruct (sim_count _ _ Hd st s addrs Hc Hp) as (_ & Hnd & Hsz).
  unfold sys_restart_timeouts, s_restart, sys_now. rewrite Hcl.
  destruct (s_timers s) as [|t l] eqn:El; inversion Hc as [|a n ? addrs1 ? Hoa Hn Ha]; subst;
    [by exists st|].
  rewrite Hoa. cbn [mbind res_bind oget t_time].
  destruct (restart_walk_spec (s_clock s) (s_when t) (t :: l) (S (size (ts_objs st))) (Some a)
    (a :: addrs1) (ts_objs st)) as (o' & -> & Hc' & _); [by econstructor|done|lia|].
  cbn [mbind res_bind]. eexists. split; [done|]. by eapply sim_set_list.
Qed.

End sleep.
