(* ===== verification/Tcpip.v ===== *)
(** * The thread of lwip (lwip/api/tcpip.c)

    Other threads hand work to the stack: received packets and callbacks, as
    messages in a mailbox that one thread empties, or, since the stack is
    compiled with core locking, by taking its lock.  Messages come from two
    memory pools of sixteen.  What the packets' and callbacks' functions do is not
    part of this file: a call is noted in a log, and the answer of an input
    function is a parameter. *)

From S2P Require Import Prelude Memp SysArch.

(** ** Data *)

(** [struct tcpip_msg], of the kinds this configuration has; functions, packets and
    interfaces are addresses. *)
Inductive tcpip_msg : Type :=
  | MSG_INPKT (p netif input_fn : Z)
  | MSG_CALLBACK (function ctx : Z)
  | MSG_CALLBACK_STATIC (function ctx : Z).

#[global] Instance tcpip_msg_eq_dec : EqDecision tcpip_msg.
Proof. solve_decision. Defined.

(** What the thread does for a message. *)
Inductive act : Type :=
  | ActInput (input_fn p netif : Z)
  | ActPbufFree (p : Z)
  | ActCall (function ctx : Z).

(** The mailbox, the pools [MEMP_TCPIP_MSG_API] and [MEMP_TCPIP_MSG_INPKT], the
    messages in use and the log. *)
Record tcpip : Type := Tcpip {
  tp_mbox : lwip_mbox;
  tp_api : pool; tp_inpkt : pool;
  tp_msgs : gmap Z tcpip_msg;
  tp_log : list act;
}.

Definition set_mbox (q : lwip_mbox) (st : tcpip) : tcpip :=
  Tcpip q (tp_api st) (tp_inpkt st) (tp_msgs st) (tp_log st).
Definition set_api (p : pool) (m : gmap Z tcpip_msg) (st : tcpip) : tcpip :=
  Tcpip (tp_mbox st) p (tp_inpkt st) m (tp_log st).
Definition set_inpkt (p : pool) (m : gmap Z tcpip_msg) (st : tcpip) : tcpip :=
  Tcpip (tp_mbox st) (tp_api st) p m (tp_log st).
Definition add_log (l : list act) (st : tcpip) : tcpip :=
  Tcpip (tp_mbox st) (tp_api st) (tp_inpkt st) (tp_msgs st) (tp_log st ++ l).

(** [LWIP_ASSERT("Invalid mbox", ...)] *)
Definition valid_mbox (st : tcpip) : sysM () := sys_assert (is_some (mb_sem (tp_mbox st))).

(** ** Handing over work *)

(** A message from a pool, written; [None]: the pool is empty. *)
Definition new_api (m : tcpip_msg) (st : tcpip) : res (option Z * tcpip) :=
  '(a, p) ← do_memp_malloc_pool (tp_api st);
  match a with
  | None => Ok (None, set_api p (tp_msgs st) st)
  | Some a => Ok (Some a, set_api p (<[a := m]> (tp_msgs st)) st)
  end.

Definition new_inpkt (m : tcpip_msg) (st : tcpip) : res (option Z * tcpip) :=
  '(a, p) ← do_memp_malloc_pool (tp_inpkt st);
  match a with
  | None => Ok (None, set_inpkt p (tp_msgs st) st)
  | Some a => Ok (Some a, set_inpkt p (<[a := m]> (tp_msgs st)) st)
  end.

Definition free_api (a : Z) (st : tcpip) : res tcpip :=
  p ← do_memp_free_pool (tp_api st) a; Ok (set_api p (delete a (tp_msgs st)) st).
Definition free_inpkt (a : Z) (st : tcpip) : res tcpip :=
  p ← do_memp_free_pool (tp_inpkt st) a; Ok (set_inpkt p (delete a (tp_msgs st)) st).

Definition tcpip_inpkt (p inp input_fn : Z) (st : tcpip) : sysM (Z * tcpip) :=
  _ ← valid_mbox st;
  '(msg, st) ← sys_lift (new_inpkt (MSG_INPKT p inp input_fn) st);
  match msg with
  | None => mret (ERR_MEM, st)
  | Some a =>
      '(e, q) ← sys_mbox_trypost (tp_mbox st) a;
      if e =? ERR_OK then mret (ERR_OK, set_mbox q st)
      else st ← sys_lift (free_inpkt a (set_mbox q st)); mret (ERR_MEM, st)
  end.

(** [NETIF_FLAG_ETHARP | NETIF_FLAG_ETHERNET]; the functions by their addresses. *)
Definition tcpip_input (flags ethernet_input ip_input p inp : Z) (st : tcpip)
    : sysM (Z * tcpip) :=
  if negb (Z.land flags (Z.lor 8 16) =? 0) then tcpip_inpkt p inp ethernet_input st
  else tcpip_inpkt p inp ip_input st.

Definition tcpip_callback (function ctx : Z) (st : tcpip) : sysM (Z * tcpip) :=
  _ ← valid_mbox st;
  '(msg, st) ← sys_lift (new_api (MSG_CALLBACK function ctx) st);
  match msg with
  | None => mret (ERR_MEM, st)
  | Some a => q ← sys_mbox_post (tp_mbox st) a; mret (ERR_OK, set_mbox q st)
  end.

Definition tcpip_try_callback (function ctx : Z) (st : tcpip) : sysM (Z * tcpip) :=
  _ ← valid_mbox st;
  '(msg, st) ← sys_lift (new_api (MSG_CALLBACK function ctx) st);
  match msg with
  | None => mret (ERR_MEM, st)
  | Some a =>
      '(e, q) ← sys_mbox_trypost (tp_mbox st) a;
      if e =? ERR_OK then mret (ERR_OK, set_mbox q st)
      else st ← sys_lift (free_api a (set_mbox q st)); mret (ERR_MEM, st)
  end.

(** A message that is used many times. *)
Definition tcpip_callbackmsg_new (function ctx : Z) (st : tcpip) : res (option Z * tcpip) :=
  new_api (MSG_CALLBACK_STATIC function ctx) st.

Definition tcpip_callbackmsg_delete (msg : option Z) (st : tcpip) : res tcpip :=
  match msg with None => Ok st | Some a => free_api a st end.

Definition tcpip_callbackmsg_trycallback (msg : Z) (st : tcpip) : sysM (Z * tcpip) :=
  _ ← valid_mbox st;
  '(e, q) ← sys_mbox_trypost (tp_mbox st) msg;
  mret (e, set_mbox q st).

Definition tcpip_callbackmsg_trycallback_fromisr (msg : Z) (st : tcpip) : sysM (Z * tcpip) :=
  _ ← valid_mbox st;
  '(e, q) ← sys_mbox_trypost_fromisr (tp_mbox st) msg;
  mret (e, set_mbox q st).

(** [pbuf_free_int] and [mem_free] as callbacks. *)
Definition pbuf_free_callback (pbuf_free_int p : Z) (st : tcpip) : sysM (Z * tcpip) :=
  tcpip_try_callback pbuf_free_int p st.
Definition mem_free_callback (mem_free m : Z) (st : tcpip) : sysM (Z * tcpip) :=
  tcpip_try_callback mem_free m st.

(** ** Calling under the lock *)

(** With core locking the caller's thread runs the function itself: [fn] is what the
    function does to the rest of the world [A]; [None]: the lock is taken. *)
Definition locked_call {A} (self : Z) (lock : option win_mutex) (fn : A → Z * A) (a : A)
    : sysM (option (Z * A * win_mutex)) :=
  m ← sys_lock_tcpip_core self lock;
  match m with
  | None => mret None
  | Some m =>
      let '(r, a) := fn a in
      m ← sys_unlock_tcpip_core self (Some m);
      mret (Some (r, a, m))
  end.

Definition tcpip_api_call {A} (self : Z) (lock : option win_mutex) (fn : A → Z * A) (a : A)
    : sysM (option (Z * A * win_mutex)) := locked_call self lock fn a.

Definition tcpip_send_msg_wait_sem {A} (self : Z) (lock : option win_mutex) (fn : A → A) (a : A)
    : sysM (option (Z * A * win_mutex)) := locked_call self lock (λ a, (ERR_OK, fn a)) a.

Definition tcpip_callback_wait {A} (self : Z) (lock : option win_mutex) (fn : A → A) (a : A)
    : sysM (option (Z * A * win_mutex)) := locked_call self lock (λ a, (ERR_OK, fn a)) a.

(** ** The thread *)

Section thread.
(** What an input function answers for a packet. *)
Context (input_err : Z → Z → Z → Z).

Definition tcpip_thread_handle_msg (msg : Z) (st : tcpip) : res tcpip :=
  m ← oget BadPointer (tp_msgs st !! msg);
  match m with
  | MSG_INPKT p netif f =>
      let st := add_log [ActInput f p netif] st in
      let st := if negb (input_err f p netif =? ERR_OK) then add_log [ActPbufFree p] st else st in
      free_inpkt msg st
  | MSG_CALLBACK f ctx => free_api msg (add_log [ActCall f ctx] st)
  | MSG_CALLBACK_STATIC f ctx => Ok (add_log [ActCall f ctx] st)
  end.

(** One turn of the main loop, with a message waiting ([None]: the thread waits). *)
Definition tcpip_thread_turn (t0 t1 : Z) (st : tcpip) : sysM (option tcpip) :=
  if sem_count (tp_mbox st) <=? 0 then mret None
  else
    '(_, m, q) ← sys_arch_mbox_fetch (tp_mbox st) WAIT_OBJECT_0 t0 t1;
    msg ← sys_lift (oget Aborted m);
    st ← sys_lift (tcpip_thread_handle_msg msg (set_mbox q st));
    mret (Some st).

End thread.

(** [tcpip_init] behind [lwip_init]: the mailbox, the lock and the thread, whose
    function is entered in the list of threads. *)
Definition tcpip_init (sem_ok mutex_ok malloc_ok : bool) (h id : Z) (api inpkt : pool)
    : sysM (tcpip * option win_mutex * Z) :=
  '(e, q) ← sys_mbox_new sem_ok;
  _ ← sys_assert (e =? ERR_OK);
  '(e, m) ← sys_mutex_new mutex_ok;
  _ ← sys_assert (e =? ERR_OK);
  t ← sys_thread_new "tcpip_thread" 0 malloc_ok h id;
  mret (Tcpip q api inpkt ∅ [], m, t).

(** ** The thread as a queue of jobs *)

(** What other threads and the thread of the stack do, one after another: a packet, a
    callback (waiting for room or not), a message to be used many times, a use of
    the [k]-th of these, and a turn of the thread. *)
Inductive jev : Type :=
  | JInpkt (p inp f : Z) | JCallback (f c : Z) | JTry (f c : Z)
  | JNew (f c : Z) | JPost (k : nat) | JTurn.

(** What the caller gets: the error code; for a new message whether there is one; for
    a turn whether there was work. *)
Definition NO_MSG : Z := -2.

Section jobs.
Context (input_err : Z → Z → Z → Z).

Definition t_step (e : jev) (x : tcpip * list Z) : sysM (Z * (tcpip * list Z)) :=
  let '(st, statics) := x in
  match e with
  | JInpkt p inp f => '(r, st) ← tcpip_inpkt p inp f st; mret (r, (st, statics))
  | JCallback f c => '(r, st) ← tcpip_callback f c st; mret (r, (st, statics))
  | JTry f c => '(r, st) ← tcpip_try_callback f c st; mret (r, (st, statics))
  | JNew f c =>
      '(m, st) ← sys_lift (tcpip_callbackmsg_new f c st);
      match m with
      | None => mret (NO_MSG, (st, statics))
      | Some a => mret (ERR_OK, (st, statics ++ [a]))
      end
  | JPost k =>
      match statics !! k with
      | None => mret (NO_MSG, x)
      | Some a => '(r, st) ← tcpip_callbackmsg_trycallback a st; mret (r, (st, statics))
      end
  | JTurn =>
      o ← tcpip_thread_turn input_err 0 0 st;
      match o with None => mret (0, x) | Some st => mret (1, (st, statics)) end
  end.

Fixpoint t_steps (es : list jev) (x : tcpip * list Z) : sysM (list Z * (tcpip * list Z)) :=
  match es with
  | [] => mret ([], x)
  | e :: es => '(r, x) ← t_step e x; '(rs, x) ← t_steps es x; mret (r :: rs, x)
  end.

(** The specification: the jobs that wait, the messages that stay, the log. *)
Record jobs : Type := Jobs {
  j_queue : list tcpip_msg; j_static : list (Z * Z); j_log : list act;
}.

Definition is_in (m : tcpip_msg) : bool := match m with MSG_INPKT _ _ _ => true | _ => false end.
Definition is_cb (m : tcpip_msg) : bool := match m with MSG_CALLBACK _ _ => true | _ => false end.

Fixpoint count (f : tcpip_msg → bool) (l : list tcpip_msg) : nat :=
  match l with [] => 0 | m :: l => (if f m then 1 else 0) + count f l end.

(** Sixteen packets wait at most; callbacks and messages that stay share sixteen
    places; the mailbox holds 99. *)
Definition room_in (j : jobs) : bool := bool_decide (count is_in (j_queue j) < 16)%nat.
Definition room_api (j : jobs) : bool :=
  bool_decide (count is_cb (j_queue j) + length (j_static j) < 16)%nat.
Definition room_box (j : jobs) : bool := negb (bool_decide (length (j_queue j) = 99%nat)).

Definition j_add (m : tcpip_msg) (j : jobs) : jobs :=
  Jobs (j_queue j ++ [m]) (j_static j) (j_log j).

(** What is done for a job. *)
Definition acts (m : tcpip_msg) : list act :=
  match m with
  | MSG_INPKT p n f =>
      ActInput f p n :: (if input_err f p n =? ERR_OK then [] else [ActPbufFree p])
  | MSG_CALLBACK f c | MSG_CALLBACK_STATIC f c => [ActCall f c]
  end.

Definition j_step (e : jev) (j : jobs) : res (Z * jobs) :=
  match e with
  | JInpkt p inp f =>
      if room_in j && room_box j then Ok (ERR_OK, j_add (MSG_INPKT p inp f) j) else Ok (ERR_MEM, j)
  | JCallback f c =>
      if room_api j then
        if room_box j then Ok (ERR_OK, j_add (MSG_CALLBACK f c) j) else Fault Aborted
      else Ok (ERR_MEM, j)
  | JTry f c =>
      if room_api j && room_box j then Ok (ERR_OK, j_add (MSG_CALLBACK f c) j) else Ok (ERR_MEM, j)
  | JNew f c =>
      if room_api j then Ok (ERR_OK, Jobs (j_queue j) (j_static j ++ [(f, c)]) (j_log j))
      else Ok (NO_MSG, j)
  | JPost k =>
      match j_static j !! k with
      | None => Ok (NO_MSG, j)
      | Some (f, c) =>
          if room_box j then Ok (ERR_OK, j_add (MSG_CALLBACK_STATIC f c) j) else Ok (ERR_MEM, j)
      end
  | JTurn =>
      match j_queue j with
      | [] => Ok (0, j)
      | m :: l => Ok (1, Jobs l (j_static j) (j_log j ++ acts m))
      end
  end.

Fixpoint j_steps (es : list jev) (j : jobs) : res (list Z * jobs) :=
  match es with
  | [] => Ok ([], j)
  | e :: es => '(r, j) ← j_step e j; '(rs, j) ← j_steps es j; Ok (r :: rs, j)
  end.

(** ** The two belong together *)

Fixpoint addrs_of (f : tcpip_msg → bool) (js : list (Z * tcpip_msg)) : list Z :=
  match js with [] => [] | (a, m) :: js => if f m then a :: addrs_of f js else addrs_of f js end.

Lemma addrs_of_app f js js' : addrs_of f (js ++ js') = addrs_of f js ++ addrs_of f js'.
Proof.
  induction js as [|[a m] js IH]; [done|]. cbn [addrs_of app].
  destruct (f m); cbn [app]; by rewrite IH.
Qed.

Lemma length_addrs_of f js : length (addrs_of f js) = count f js.*2.
Proof.
  induction js as [|[a m] js IH]; [done|].
  change (((a, m) :: js).*2) with (m :: js.*2). cbn [addrs_of count].
  destruct (f m); cbn [length]; rewrite IH; done.
Qed.

Lemma addrs_of_elem f js a m : (a, m) ∈ js → f m = true → a ∈ addrs_of f js.
Proof.
  induction js as [|[b n] js IH]; [set_solver|]. cbn [addrs_of].
  intros [[= -> ->]|H]%elem_of_cons Hf; [rewrite Hf; set_solver|]. destruct (f n); set_solver.
Qed.

Context (dA dI : memp_desc) (HdA : desc_ok dA) (HdI : desc_ok dI).
Context (HnA : pd_num dA = 16%nat) (HnI : pd_num dI = 16%nat).
Context (Hdisj : elements dA ## elements dI).

(** [js]: the messages in the mailbox with their addresses. *)
Record jrep (st : tcpip) (statics : list Z) (j : jobs) (js : list (Z * tcpip_msg)) : Prop := JRep {
  jr_queue : js.*2 = j_queue j;
  jr_mbox : mbox_holds (tp_mbox st) js.*1 0;
  jr_msgs : ∀ a m, (a, m) ∈ js → tp_msgs st !! a = Some m;
  jr_static_in : ∀ a m, (a, m) ∈ js → is_in m = false → is_cb m = false → a ∈ statics;
  jr_api : pool_inv dA (tp_api st) (addrs_of is_cb js ++ statics);
  jr_inpkt : pool_inv dI (tp_inpkt st) (addrs_of is_in js);
  jr_static : Forall2 (λ a x, tp_msgs st !! a = Some (MSG_CALLBACK_STATIC x.1 x.2))
                statics (j_static j);
  jr_log : tp_log st = j_log j;
}.

(** A new element is no message that waits, nor one that stays. *)
Lemma jrep_fresh_api st statics j js a m :
  jrep st statics j js → a ∈ elements dA → a ∉ addrs_of is_cb js ++ statics → (a, m) ∉ js.
Proof.
  intros [Hq _ Hm Hs HA HI _ _] Hel Hn Hin. destruct (is_cb m) eqn:Hc.
  - apply Hn. apply elem_of_app. left. by eapply addrs_of_elem.
  - destruct (is_in m) eqn:Hi.
    + apply (Hdisj a); [done|]. eapply pool_inv_elem; [exact HI|]. by eapply addrs_of_elem.
    + apply Hn. apply elem_of_app. right. by eapply Hs.
Qed.

Lemma jrep_fresh_in st statics j js a m :
  jrep st statics j js → a ∈ elements dI → a ∉ addrs_of is_in js → (a, m) ∉ js ∧ a ∉ statics.
Proof.
  intros [Hq _ Hm Hs HA HI _ _] Hel Hn.
  assert (∀ b, b ∈ addrs_of is_cb js ++ statics → b ≠ a) as Hne.
  { intros b Hb ->. apply (Hdisj a); [by eapply pool_inv_elem|done]. }
  split; [|intros Ha; by apply (Hne a); [apply elem_of_app; right|]].
  intros Hin. destruct (is_in m) eqn:Hi; [apply Hn; by eapply addrs_of_elem|].
  destruct (is_cb m) eqn:Hc; apply (Hne a); try done; apply elem_of_app; [left|right].
  - by eapply addrs_of_elem.
  - by eapply Hs.
Qed.

(** Messages at other addresses are not touched. *)
Lemma statics_insert_ne (msgs : gmap Z tcpip_msg) a m statics xs :
  a ∉ statics →
  Forall2 (λ b x, msgs !! b = Some (MSG_CALLBACK_STATIC x.1 x.2)) statics xs →
  Forall2 (λ b x, <[a := m]> msgs !! b = Some (MSG_CALLBACK_STATIC x.1 x.2)) statics xs.
Proof.
  intros Ha H. induction H as [|b x statics xs Hb H IH]; [constructor|].
  constructor; [rewrite lookup_insert_ne; set_solver|apply IH; set_solver].
Qed.

Lemma statics_delete_ne (msgs : gmap Z tcpip_msg) a statics xs :
  a ∉ statics →
  Forall2 (λ b x, msgs !! b = Some (MSG_CALLBACK_STATIC x.1 x.2)) statics xs →
  Forall2 (λ b x, delete a msgs !! b = Some (MSG_CALLBACK_STATIC x.1 x.2)) statics xs.
Proof.
  intros Ha H. induction H as [|b x statics xs Hb H IH]; [constructor|].
  constructor; [rewrite lookup_delete_ne; set_solver|apply IH; set_solver].
Qed.

(** The numbers the specification speaks of. *)
Lemma jrep_counts st statics j js :
  jrep st statics j js →
  length (addrs_of is_cb js ++ statics) = (count is_cb (j_queue j) + length (j_static j))%nat ∧
  length (addrs_of is_in js) = count is_in (j_queue j) ∧ length js.*1 = length (j_queue j).
Proof.
  intros [Hq _ _ _ _ _ Hst _]. rewrite length_app, !length_addrs_of, Hq, <- Hq, !length_fmap.
  by rewrite (Forall2_length _ _ _ Hst).
Qed.

(** ** Each operation *)

Lemma room_api_spec st statics j js :
  jrep st statics j js →
  room_api j = bool_decide (length (addrs_of is_cb js ++ statics) < pd_num dA)%nat.
Proof. intros Hr. unfold room_api. by rewrite (proj1 (jrep_counts _ _ _ _ Hr)), HnA. Qed.

Lemma room_in_spec st statics j js :
  jrep st statics j js →
  room_in j = bool_decide (length (addrs_of is_in js) < pd_num dI)%nat.
Proof. intros Hr. unfold room_in. by rewrite (proj1 (proj2 (jrep_counts _ _ _ _ Hr))), HnI. Qed.

(** No element is left. *)
Lemma new_api_full st statics j js m :
  jrep st statics j js → room_api j = false →
  ∃ st', new_api m st = Ok (None, st') ∧ jrep st' statics j js.
Proof.
  intros Hr Hroom. rewrite (room_api_spec _ _ _ _ Hr) in Hroom.
  apply bool_decide_eq_false in Hroom. pose proof Hr as [? ? ? ? HA ? ? ?].
  pose proof (pool_inv_length _ _ _ HA). unfold new_api.
  rewrite (do_memp_malloc_empty dA _ _ HA) by lia. cbn [mbind res_bind].
  eexists. split; [done|]. split; try done. by apply stats_fail_inv.
Qed.

Lemma new_inpkt_full st statics j js m :
  jrep st statics j js → room_in j = false →
  ∃ st', new_inpkt m st = Ok (None, st') ∧ jrep st' statics j js.
Proof.
  intros Hr Hroom. rewrite (room_in_spec _ _ _ _ Hr) in Hroom.
  apply bool_decide_eq_false in Hroom. pose proof Hr as [? ? ? ? ? HI ? ?].
  pose proof (pool_inv_length _ _ _ HI). unfold new_inpkt.
  rewrite (do_memp_malloc_empty dI _ _ HI) by lia. cbn [mbind res_bind].
  eexists. split; [done|]. split; try done. by apply stats_fail_inv.
Qed.

(** An element is left: it is written, and no message in use is. *)
Lemma new_api_gives st statics j js m :
  jrep st statics j js → room_api j = true →
  ∃ a p, new_api m st = Ok (Some a, set_api p (<[a := m]> (tp_msgs st)) st) ∧
    pool_inv dA p (a :: addrs_of is_cb js ++ statics) ∧
    (∀ n, (a, n) ∉ js) ∧ a ∉ statics.
Proof.
  intros Hr Hroom. rewrite (room_api_spec _ _ _ _ Hr) in Hroom.
  apply bool_decide_eq_true in Hroom. pose proof Hr as [? ? ? ? HA ? ? ?].
  destruct (do_memp_malloc_gives dA _ _ HdA HA Hroom) as (a & p & E & Hel & Hn & HA').
  unfold new_api. rewrite E. cbn [mbind res_bind]. exists a, p. split; [done|]. split; [done|].
  split; [intros n; by eapply jrep_fresh_api|set_solver].
Qed.

Lemma new_inpkt_gives st statics j js m :
  jrep st statics j js → room_in j = true →
  ∃ a p, new_inpkt m st = Ok (Some a, set_inpkt p (<[a := m]> (tp_msgs st)) st) ∧
    pool_inv dI p (a :: addrs_of is_in js) ∧ (∀ n, (a, n) ∉ js) ∧ a ∉ statics.
Proof.
  intros Hr Hroom. rewrite (room_in_spec _ _ _ _ Hr) in Hroom.
  apply bool_decide_eq_true in Hroom. pose proof Hr as [? ? ? ? ? HI ? ?].
  destruct (do_memp_malloc_gives dI _ _ HdI HI Hroom) as (a & p & E & Hel & Hn & HI').
  unfold new_inpkt. rewrite E. cbn [mbind res_bind]. exists a, p. split; [done|]. split; [done|].
  split; [intros n|]; by eapply (jrep_fresh_in st statics j js a).
Qed.

(** A message with its element joins the queue. *)
Lemma jrep_add st statics j js st' a m :
  jrep st statics j js → (∀ n, (a, n) ∉ js) → a ∉ statics → tp_log st' = tp_log st →
  tp_msgs st' = <[a := m]> (tp_msgs st) → mbox_holds (tp_mbox st') (js.*1 ++ [a]) 0 →
  is_in m || is_cb m = true →
  pool_inv dA (tp_api st') ((if is_cb m then [a] else []) ++ addrs_of is_cb js ++ statics) →
  pool_inv dI (tp_inpkt st') ((if is_in m then [a] else []) ++ addrs_of is_in js) →
  jrep st' statics (j_add m j) (js ++ [(a, m)]).
Proof.
  intros [Hq Hb Hm Hs HA HI Hst Hl] Hf Hns El Em Hb' Hk HA' HI'. split.
  - rewrite fmap_app. by rewrite Hq.
  - by rewrite fmap_app.
  - intros b n [Hin|[= -> ->]%list_elem_of_singleton]%elem_of_app; rewrite Em;
      [|apply lookup_insert_eq]. rewrite lookup_insert_ne; [by apply Hm|].
    intros ->. by apply (Hf n).
  - intros b n [Hin|[= -> ->]%list_elem_of_singleton]%elem_of_app Hi Hc; [by eapply Hs|].
    by rewrite Hi, Hc in Hk.
  - rewrite addrs_of_app. cbn [addrs_of]. eapply pool_inv_perm; [|exact HA'].
    rewrite <- app_assoc. destruct (is_cb m); [|done]. cbn [app]. by rewrite <- Permutation_middle.
  - rewrite addrs_of_app. cbn [addrs_of]. eapply pool_inv_perm; [|exact HI'].
    destruct (is_in m); [|by rewrite app_nil_r]. apply Permutation_cons_append.
  - rewrite Em. by apply statics_insert_ne.
  - by rewrite El.
Qed.

(** A message whose post failed goes back, and everything is as before. *)
Lemma jrep_back st statics j js st' a m :
  jrep st statics j js → (∀ n, (a, n) ∉ js) → a ∉ statics → tp_log st' = tp_log st →
  tp_msgs st' = delete a (<[a := m]> (tp_msgs st)) → tp_mbox st' = tp_mbox st →
  pool_inv dA (tp_api st') (addrs_of is_cb js ++ statics) →
  pool_inv dI (tp_inpkt st') (addrs_of is_in js) →
  jrep st' statics j js.
Proof.
  intros [Hq Hb Hm Hs HA HI Hst Hl] Hf Hns El Em Hb' HA' HI'.
  rewrite delete_insert_eq in Em. split; try done.
  - by rewrite Hb'.
  - intros b n Hin. rewrite Em, lookup_delete_ne; [by apply Hm|]. intros ->. by apply (Hf n).
  - rewrite Em. by apply statics_delete_ne.
  - by rewrite El.
Qed.

Lemma room_box_spec st statics j js :
  jrep st statics j js → room_box j = negb (bool_decide (length js.*1 = 99%nat)).
Proof. intros Hr. unfold room_box. by rewrite (proj2 (proj2 (jrep_counts _ _ _ _ Hr))). Qed.

Lemma valid_mbox_holds st l p s : mbox_holds (tp_mbox st) l p → valid_mbox st s = Ok ((), s).
Proof. intros Hq. unfold valid_mbox. by rewrite (mh_sem _ _ _ Hq). Qed.

(** Outcomes that belong together. *)
Definition jsim (s : sysarch) (r : res ((Z * tcpip) * sysarch)) (statics : list Z)
    (rj : res (Z * jobs)) : Prop :=
  match rj with
  | Ok (x, j) => ∃ st js, r = Ok ((x, st), s) ∧ jrep st statics j js
  | Fault f => r = Fault f
  end.

Lemma sys_lift_Ok {A B} (r : res A) (f : A → sysM B) a s :
  r = Ok a → (sys_lift r ≫= f) s = f a s.
Proof. intros ->. done. Qed.

Lemma tcpip_inpkt_sim p inp f st statics j js s :
  jrep st statics j js → protection_depth s = 0 →
  jsim s (tcpip_inpkt p inp f st s) statics (j_step (JInpkt p inp f) j).
Proof.
  intros Hr Hs. unfold tcpip_inpkt. pose proof Hr as [Hq Hb Hm Hst HA HI Hf Hl].
  erewrite sys_bind_Ok by by eapply valid_mbox_holds. cbn [j_step].
  destruct (room_in j) eqn:Hroom; cbn [andb].
  - destruct (new_inpkt_gives _ _ _ _ (MSG_INPKT p inp f) Hr Hroom) as (a & pl & E & HI' & Hn & Hns).
    rewrite (sys_lift_Ok _ _ _ _ E), (room_box_spec _ _ _ _ Hr).
    destruct (sys_mbox_trypost_spec _ _ _ a s Hb Hs) as [[Hlen Et]|(Hlen & q & Et & Hb')].
    + rewrite bool_decide_eq_true_2 by done. rewrite (sys_bind_Ok _ _ _ _ _ Et).
      destruct (do_memp_free_gives dI pl [] a _ HdI HI') as (pl' & Ef & HI'').
      cbn [negb Z.eqb ERR_OK ERR_MEM]. erewrite sys_lift_Ok.
      2: { unfold free_inpkt. cbn [set_inpkt set_mbox tp_inpkt]. rewrite Ef. reflexivity. }
      eexists _, js. split; [reflexivity|]. by eapply (jrep_back st).
    + rewrite bool_decide_eq_false_2 by done. rewrite (sys_bind_Ok _ _ _ _ _ Et).
      eexists _, _. split; [reflexivity|]. by eapply (jrep_add st).
  - destruct (new_inpkt_full _ _ _ _ (MSG_INPKT p inp f) Hr Hroom) as (st' & E & Hr').
    rewrite (sys_lift_Ok _ _ _ _ E). by exists st', js.
Qed.

Lemma tcpip_try_callback_sim f c st statics j js s :
  jrep st statics j js → protection_depth s = 0 →
  jsim s (tcpip_try_callback f c st s) statics (j_step (JTry f c) j).
Proof.
  intros Hr Hs. unfold tcpip_try_callback. pose proof Hr as [Hq Hb Hm Hst HA HI Hf Hl].
  erewrite sys_bind_Ok by by eapply valid_mbox_holds. cbn [j_step].
  destruct (room_api j) eqn:Hroom; cbn [andb].
  - destruct (new_api_gives _ _ _ _ (MSG_CALLBACK f c) Hr Hroom) as (a & pl & E & HA' & Hn & Hns).
    rewrite (sys_lift_Ok _ _ _ _ E), (room_box_spec _ _ _ _ Hr).
    destruct (sys_mbox_trypost_spec _ _ _ a s Hb Hs) as [[Hlen Et]|(Hlen & q & Et & Hb')].
    + rewrite bool_decide_eq_true_2 by done. rewrite (sys_bind_Ok _ _ _ _ _ Et).
      destruct (do_memp_free_gives dA pl [] a _ HdA HA') as (pl' & Ef & HA'').
      cbn [negb Z.eqb ERR_OK ERR_MEM]. erewrite sys_lift_Ok.
      2: { unfold free_api. cbn [set_api set_mbox tp_api]. rewrite Ef. reflexivity. }
      eexists _, js. split; [reflexivity|]. by eapply (jrep_back st).
    + rewrite bool_decide_eq_false_2 by done. rewrite (sys_bind_Ok _ _ _ _ _ Et).
      eexists _, _. split; [reflexivity|]. by eapply (jrep_add st).
  - destruct (new_api_full _ _ _ _ (MSG_CALLBACK f c) Hr Hroom) as (st' & E & Hr').
    rewrite (sys_lift_Ok _ _ _ _ E). by exists st', js.
Qed.

Lemma tcpip_callback_sim f c st statics j js s :
  jrep st statics j js → protection_depth s = 0 →
  jsim s (tcpip_callback f c st s) statics (j_step (JCallback f c) j).
Proof.
  intros Hr Hs. unfold tcpip_callback. pose proof Hr as [Hq Hb Hm Hst HA HI Hf Hl].
  erewrite sys_bind_Ok by by eapply valid_mbox_holds. cbn [j_step].
  destruct (room_api j) eqn:Hroom.
  - destruct (new_api_gives _ _ _ _ (MSG_CALLBACK f c) Hr Hroom) as (a & pl & E & HA' & Hn & Hns).
    rewrite (sys_lift_Ok _ _ _ _ E), (room_box_spec _ _ _ _ Hr).
    destruct (sys_mbox_post_spec _ _ _ a s Hb Hs) as [[Hlen Et]|(Hlen & q & Et & Hb')].
    + rewrite bool_decide_eq_true_2 by done. unfold mbind, sys_bind.
      cbn [set_api tp_mbox]. rewrite Et. done.
    + rewrite bool_decide_eq_false_2 by done. rewrite (sys_bind_Ok _ _ _ _ _ Et).
      eexists _, _. split; [reflexivity|]. by eapply (jrep_add st).
  - destruct (new_api_full _ _ _ _ (MSG_CALLBACK f c) Hr Hroom) as (st' & E & Hr').
    rewrite (sys_lift_Ok _ _ _ _ E). by exists st', js.
Qed.

(** Posting a message that stays. *)
Lemma tcpip_callbackmsg_trycallback_sim k a f c st statics j js s :
  jrep st statics j js → protection_depth s = 0 →
  statics !! k = Some a → j_static j !! k = Some (f, c) →
  jsim s (tcpip_callbackmsg_trycallback a st s) statics (j_step (JPost k) j).
Proof.
  intros Hr Hs Ha Hk. unfold tcpip_callbackmsg_trycallback.
  pose proof Hr as [Hq Hb Hm Hst HA HI Hf Hl].
  erewrite sys_bind_Ok by by eapply valid_mbox_holds. cbn [j_step]. rewrite Hk.
  rewrite (room_box_spec _ _ _ _ Hr).
  destruct (sys_mbox_trypost_spec _ _ _ a s Hb Hs) as [[Hlen Et]|(Hlen & q & Et & Hb')].
  - rewrite bool_decide_eq_true_2 by done. rewrite (sys_bind_Ok _ _ _ _ _ Et).
    eexists _, js. split; [reflexivity|]. by destruct st.
  - rewrite bool_decide_eq_false_2 by done. rewrite (sys_bind_Ok _ _ _ _ _ Et).
    eexists _, (js ++ [(a, MSG_CALLBACK_STATIC f c)]). split; [reflexivity|].
    pose proof (Forall2_lookup_lr _ _ _ _ _ _ Hf Ha Hk) as Hma. simpl in Hma. split; try done.
    + rewrite fmap_app. by rewrite Hq.
    + by rewrite fmap_app.
    + intros b n [Hin|[= -> ->]%list_elem_of_singleton]%elem_of_app; [by apply Hm|done].
    + intros b n [Hin|[= -> ->]%list_elem_of_singleton]%elem_of_app Hi Hc; [by eapply Hst|].
      by eapply list_elem_of_lookup_2.
    + rewrite addrs_of_app. simpl. by rewrite app_nil_r.
    + rewrite addrs_of_app. simpl. by rewrite app_nil_r.
Qed.

(** The oldest message is taken out and handled; its element goes back unless it
    stays. *)
Lemma handle_sim st statics j a m js q :
  jrep st statics j ((a, m) :: js) → mbox_holds q js.*1 0 →
  ∃ st', tcpip_thread_handle_msg input_err a (set_mbox q st) = Ok st' ∧
    jrep st' statics (Jobs js.*2 (j_static j) (j_log j ++ acts m)) js.
Proof.
  intros [Hq Hb Hm Hst HA HI Hf Hl] Hb'. unfold tcpip_thread_handle_msg.
  assert (tp_msgs st !! a = Some m) as Ha by (apply Hm; set_solver).
  cbn [set_mbox tp_msgs]. rewrite Ha. cbn [mbind res_bind oget].
  assert (∀ b n, (b, n) ∈ js → tp_msgs st !! b = Some n) as Hm1 by (intros; apply Hm; set_solver).
  assert (∀ b n, (b, n) ∈ js → is_in n = false → is_cb n = false → b ∈ statics) as Hst1
    by (intros b n Hin; apply (Hst b n); set_solver).
  assert (∀ x, x ∈ addrs_of is_cb js ++ statics → x ∉ addrs_of is_in js) as Hx.
  { intros x Hx1 Hx2. apply (Hdisj x).
    - eapply pool_inv_elem; [exact HA|]. cbn [addrs_of]. destruct (is_cb m); set_solver.
    - eapply pool_inv_elem; [exact HI|]. cbn [addrs_of]. destruct (is_in m); set_solver. }
  destruct m as [p n f|f c|f c]; cbn [addrs_of is_cb is_in app] in HA, HI.
  - pose proof (pool_inv_NoDup _ _ _ HdI HI) as [Hna _]%NoDup_cons.
    destruct (do_memp_free_gives dI _ [] a _ HdI HI) as (p' & Ef & HI').
    assert (a ∉ addrs_of is_cb js ++ statics) as Hna2.
    { intros Hin. apply (Hdisj a); [by eapply pool_inv_elem|]. eapply pool_inv_elem; [exact HI|set_solver]. }
    assert (∀ b k, (b, k) ∈ js → b ≠ a) as Hne.
    { intros b k Hin ->. destruct (is_in k) eqn:Hi; [apply Hna; by eapply addrs_of_elem|].
      apply Hna2. apply elem_of_app. destruct (is_cb k) eqn:Hc; [left; by eapply addrs_of_elem|].
      right. by eapply Hst1. }
    assert (∀ st1, tp_inpkt st1 = tp_inpkt st → tp_msgs st1 = tp_msgs st →
      free_inpkt a st1 = Ok (set_inpkt p' (delete a (tp_msgs st)) st1)) as Efr.
    { intros st1 E1 E2. unfold free_inpkt. by rewrite E1, Ef, E2. }
    rewrite Efr by by destruct (input_err f p n =? ERR_OK). eexists. split; [done|].
    cbn [acts]. destruct (input_err f p n =? ERR_OK); cbn [negb]; split; try done;
      try (intros b k Hin; simpl; rewrite lookup_delete_ne by (by eapply not_eq_sym, Hne);
           by apply Hm1);
      try (simpl; apply statics_delete_ne; [set_solver|done]);
      simpl; by rewrite Hl, <- ?app_assoc.
  - pose proof (pool_inv_NoDup _ _ _ HdA HA) as [Hna _]%NoDup_cons.
    destruct (do_memp_free_gives dA _ [] a _ HdA HA) as (p' & Ef & HA').
    assert (∀ b k, (b, k) ∈ js → b ≠ a) as Hne.
    { intros b k Hin ->. destruct (is_cb k) eqn:Hc.
      - apply Hna, elem_of_app. left. by eapply addrs_of_elem.
      - destruct (is_in k) eqn:Hi; [|apply Hna, elem_of_app; right; by eapply Hst1].
        apply (Hdisj a); [eapply pool_inv_elem; [exact HA|set_solver]|].
        eapply pool_inv_elem; [exact HI|]. by eapply addrs_of_elem. }
    unfold free_api. cbn [add_log set_mbox tp_api tp_msgs]. rewrite Ef. cbn [mbind res_bind].
    eexists. split; [done|]. split; try done.
    + intros b k Hin. simpl. rewrite lookup_delete_ne by (by eapply not_eq_sym, Hne). by apply Hm1.
    + simpl. apply statics_delete_ne; [set_solver|done].
    + simpl. by rewrite Hl.
  - eexists. split; [done|]. split; try done. simpl. by rewrite Hl.
Qed.

Lemma tcpip_thread_turn_sim st statics j js s :
  jrep st statics j js → protection_depth s = 0 → freq s ≠ 0 →
  match j_queue j with
  | [] => tcpip_thread_turn input_err 0 0 st s = Ok (None, s)
  | m :: l => ∃ st' js', tcpip_thread_turn input_err 0 0 st s = Ok (Some st', s) ∧
      jrep st' statics (Jobs l (j_static j) (j_log j ++ acts m)) js'
  end.
Proof.
  intros Hr Hs Hfr. pose proof Hr as [Hq Hb _ _ _ _ _ _]. unfold tcpip_thread_turn, sem_count.
  rewrite (mh_sem _ _ _ Hb). cbn [ws_count]. rewrite <- Hq.
  destruct js as [|[a m] js]; [done|]. cbn [fmap list_fmap fst snd] in *.
  rewrite (proj2 (Z.leb_gt _ _)) by (simpl; lia).
  pose proof (sem_down_spec _ _ _ Hb ltac:(simpl; lia)) as Hb1.
  destruct (mbox_take_spec _ _ _ _ s Hb1 Hs) as (q' & Et & Hb2).
  destruct (handle_sim st statics j a m js q' Hr Hb2) as (st' & Eh & Hr').
  assert (∀ t, ∃ v, sys_get_ms_longlong t s = Ok (v, s)) as Hms.
  { intros t. unfold sys_get_ms_longlong, sys_get, sys_assert, sys_lift, lwip_assert, mbind,
      sys_bind, mret, sys_ret. simpl. rewrite (proj2 (Z.eqb_neq _ _) Hfr). by eexists. }
  destruct (Hms 0) as [v Ev].
  assert (sys_arch_mbox_fetch (tp_mbox st) WAIT_OBJECT_0 0 0 s = Ok ((u32 (v - v), Some a, q'), s))
    as Ef.
  { unfold sys_arch_mbox_fetch. rewrite (mh_sem _ _ _ Hb). erewrite sys_bind_Ok by done.
    rewrite (sys_bind_Ok _ _ _ _ _ Ev), decide_True by done.
    by rewrite (sys_bind_Ok _ _ _ _ _ Et), (sys_bind_Ok _ _ _ _ _ Ev). }
  rewrite (sys_bind_Ok _ _ _ _ _ Ef).
  erewrite sys_bind_Ok by done. rewrite (sys_lift_Ok _ _ _ _ Eh). by exists st', js.
Qed.

(** ** Any sequence *)

Lemma jsim_lift (m : sysM (Z * tcpip)) s statics rj :
  jsim s (m s) statics rj →
  match rj with
  | Ok (r, j') => ∃ st' statics' js',
      ('(r, st) ← m; mret (r, (st, statics))) s = Ok ((r, (st', statics')), s) ∧
      jrep st' statics' j' js'
  | Fault f => ('(r, st) ← m; mret (r, (st, statics)) : sysM (Z * (tcpip * list Z))) s = Fault f
  end.
Proof.
  unfold jsim. destruct rj as [[r j']|e]; intros H.
  - destruct H as (st' & js' & E & Hr'). exists st', statics, js'. by rewrite (sys_bind_Ok _ _ _ _ _ E).
  - unfold mbind, sys_bind. by rewrite H.
Qed.

Lemma t_step_sim e st statics j js s :
  jrep st statics j js → protection_depth s = 0 → freq s ≠ 0 →
  match j_step e j with
  | Ok (r, j') => ∃ st' statics' js',
      t_step e (st, statics) s = Ok ((r, (st', statics')), s) ∧ jrep st' statics' j' js'
  | Fault f => t_step e (st, statics) s = Fault f
  end.
Proof.
  intros Hr Hs Hfr. destruct e as [p inp f|f c|f c|f c|k|]; unfold t_step.
  - by apply jsim_lift, (tcpip_inpkt_sim _ _ _ _ _ _ js).
  - by apply jsim_lift, (tcpip_callback_sim _ _ _ _ _ js).
  - by apply jsim_lift, (tcpip_try_callback_sim _ _ _ _ _ js).
  - cbn [j_step]. unfold tcpip_callbackmsg_new. destruct (room_api j) eqn:Hroom.
    + destruct (new_api_gives _ _ _ _ (MSG_CALLBACK_STATIC f c) Hr Hroom)
        as (a & pl & E & HA' & Hn & Hns). rewrite (sys_lift_Ok _ _ _ _ E).
      eexists _, _, js. split; [reflexivity|]. destruct Hr as [Hq Hb Hm Hst HA HI Hf Hl].
      split; try done.
      * intros b n Hin. simpl. rewrite lookup_insert_ne; [by apply Hm|]. intros ->. by apply (Hn n).
      * intros b n Hin Hi Hc. apply elem_of_app. left. by eapply Hst.
      * simpl. eapply pool_inv_perm; [|exact HA']. rewrite app_assoc. apply Permutation_cons_append.
      * simpl. apply Forall2_app; [by apply statics_insert_ne|]. constructor; [|constructor].
        apply lookup_insert_eq.
    + destruct (new_api_full _ _ _ _ (MSG_CALLBACK_STATIC f c) Hr Hroom) as (st' & E & Hr').
      rewrite (sys_lift_Ok _ _ _ _ E). by exists st', statics, js.
  - pose proof (Forall2_length _ _ _ (jr_static _ _ _ _ Hr)) as Hlen.
    destruct (statics !! k) as [a|] eqn:Ha.
    + destruct (lookup_lt_is_Some_2 (j_static j) k) as [[f c] Hk];
        [rewrite <- Hlen; by eapply lookup_lt_Some|].
      by apply jsim_lift, (tcpip_callbackmsg_trycallback_sim _ _ f c _ _ _ js).
    + apply lookup_ge_None in Ha. cbn [j_step]. rewrite (proj2 (lookup_ge_None (j_static j) k)) by lia.
      by exists st, statics, js.
  - pose proof (tcpip_thread_turn_sim _ _ _ _ s Hr Hs Hfr) as H. cbn [j_step].
    destruct (j_queue j) as [|m l].
    + exists st, statics, js. by rewrite (sys_bind_Ok _ _ _ _ _ H).
    + destruct H as (st' & js' & E & Hr'). exists st', statics, js'. by rewrite (sys_bind_Ok _ _ _ _ _ E).
Qed.

Lemma t_steps_sim es : ∀ st statics j js s,
  jrep st statics j js → protection_depth s = 0 → freq s ≠ 0 →
  match j_steps es j with
  | Ok (rs, j') => ∃ st' statics' js',
      t_steps es (st, statics) s = Ok ((rs, (st', statics')), s) ∧ jrep st' statics' j' js'
  | Fault f => t_steps es (st, statics) s = Fault f
  end.
Proof.
  induction es as [|e es IH]; intros st statics j js s Hr Hs Hfr; [by exists st, statics, js|].
  cbn [j_steps t_steps]. pose proof (t_step_sim e _ _ _ _ s Hr Hs Hfr) as H.
  destruct (j_step e j) as [[r j1]|f]; cbn [mbind res_bind].
  - destruct H as (st1 & statics1 & js1 & E & Hr1). rewrite (sys_bind_Ok _ _ _ _ _ E).
    specialize (IH _ _ _ _ s Hr1 Hs Hfr). destruct (j_steps es j1) as [[rs j2]|f].
    + destruct IH as (st2 & statics2 & js2 & E2 & Hr2). exists st2, statics2, js2.
      by rewrite (sys_bind_Ok _ _ _ _ _ E2).
    + unfold mbind, sys_bind. by rewrite IH.
  - unfold mbind, sys_bind. by rewrite H.
Qed.

End jobs.

Lemma count_app f l l' : count f (l ++ l') = (count f l + count f l')%nat.
Proof. induction l as [|m l IH]; cbn [count app]; [done|]. rewrite IH. lia. Qed.

Definition passing (m : tcpip_msg) : Prop := is_in m || is_cb m = true.

Lemma passing_length l : Forall passing l → length l = (count is_in l + count is_cb l)%nat.
Proof.
  induction 1 as [|m l Hm Hl IH]; [done|]. cbn [length count]. rewrite IH.
  destruct m; cbn; try done; lia.
Qed.

(** No messages stay, and as many jobs wait as there are elements at most. *)
Definition few (j : jobs) : Prop :=
  j_static j = [] ∧ Forall passing (j_queue j) ∧
  (count is_in (j_queue j) <= 16)%nat ∧ (count is_cb (j_queue j) <= 16)%nat.

Definition not_new (e : jev) : Prop := match e with JNew _ _ => False | _ => True end.

Lemma few_add m j :
  few j → passing m → (is_in m = true → room_in j = true) → (is_cb m = true → room_api j = true) →
  few (j_add m j).
Proof.
  intros (Hst & Hp & Hi & Hc) Hm Hri Hrc. unfold few, j_add. cbn [j_queue j_static].
  rewrite !count_app. split; [done|]. split; [by apply Forall_app_2, Forall_singleton|].
  unfold room_in, room_api in *. rewrite Hst in Hrc. simpl in *.
  destruct (is_in m) eqn:Ei, (is_cb m) eqn:Ec; simpl; try specialize (Hri eq_refl);
    try specialize (Hrc eq_refl); rewrite ?bool_decide_eq_true in *; lia.
Qed.

Lemma j_step_few input_err e j :
  not_new e → few j → ∃ r j1, j_step input_err e j = Ok (r, j1) ∧ few j1.
Proof.
  intros He Hf. pose proof Hf as (Hst & Hp & Hi & Hc).
  assert (room_box j = true) as Hbox.
  { unfold room_box. rewrite bool_decide_eq_false_2; [done|]. rewrite (passing_length _ Hp). lia. }
  destruct e as [p inp f|f c|f c|f c|k|]; cbn [j_step]; rewrite ?Hbox, ?Hst, ?andb_true_r.
  - destruct (room_in j) eqn:Hr; [|by eexists _, _].
    eexists _, _. split; [done|]. by apply few_add.
  - destruct (room_api j) eqn:Hr; [|by eexists _, _].
    eexists _, _. split; [done|]. by apply few_add.
  - destruct (room_api j) eqn:Hr; [|by eexists _, _].
    eexists _, _. split; [done|]. by apply few_add.
  - done.
  - by eexists _, _.
  - destruct (j_queue j) as [|m l] eqn:El; [by eexists _, _|].
    eexists _, _. split; [done|]. apply Forall_cons in Hp as [_ Hp].
    unfold few. cbn [j_queue j_static count] in *. split; [done|]. split; [done|]. lia.
Qed.

(** Without messages that stay at most 32 jobs wait, and the mailbox is never full. *)
Lemma j_steps_few input_err es : ∀ j,
  Forall not_new es → few j → ∃ rs j', j_steps input_err es j = Ok (rs, j').
Proof.
  induction es as [|e es IH]; intros j Hes Hf; [by eexists _, _|].
  apply Forall_cons in Hes as [He Hes]. cbn [j_steps].
  destruct (j_step_few input_err e j He Hf) as (r & j1 & -> & Hf1). cbn [mbind res_bind].
  destruct (IH j1 Hes Hf1) as (rs & j2 & ->). by eexists _, _.
Qed.

(** C14 (refinement).  The thread of the stack is a queue of jobs: whatever other threads
    hand over, and whenever the thread takes its turns, every job that was accepted
    is done exactly once and in the order in which the jobs were accepted, a packet
    its input function refuses is released, and a job is refused with [ERR_MEM]
    exactly when sixteen of its kind wait already or the mailbox is full.  A
    callback that finds the mailbox full ends the process; as long as no messages
    are kept for several uses, that cannot happen. *)
Theorem tcpip_is_a_job_queue input_err dA dI es s0 q s :
  desc_ok dA → desc_ok dI → pd_num dA = 16%nat → pd_num dI = 16%nat →
  elements dA ## elements dI → sys_mbox_new true s0 = Ok ((ERR_OK, q), s) → freq s ≠ 0 →
  (λ r, (r.1.1, tp_log r.1.2.1)) <$>
    t_steps input_err es (Tcpip q (memp_init_pool dA) (memp_init_pool dI) ∅ [], []) s
  = (λ r, (r.1, j_log r.2)) <$> j_steps input_err es (Jobs [] [] []) ∧
  (Forall not_new es → ∃ rs j, j_steps input_err es (Jobs [] [] []) = Ok (rs, j)).
Proof.
  intros HdA HdI HnA HnI Hdisj Hnew Hfr. apply sys_mbox_new_spec in Hnew as [Hs Hq]. split.
  - assert (jrep dA dI (Tcpip q (memp_init_pool dA) (memp_init_pool dI) ∅ []) []
      (Jobs [] [] []) []) as Hr.
    { split; try done; try set_solver; by apply memp_init_pool_inv. }
    pose proof (t_steps_sim input_err dA dI HdA HdI HnA HnI Hdisj es _ _ _ _ s Hr Hs Hfr) as H.
    destruct (j_steps input_err es (Jobs [] [] [])) as [[rs j]|f].
    + destruct H as (st & statics & js & -> & Hr'). simpl. by rewrite (jr_log _ _ _ _ _ _ Hr').
    + by rewrite H.
  - intros Hes. apply j_steps_few; [done|]. repeat split; simpl; lia || constructor.
Qed.

(** Packets of function 7 are refused. *)
Lemma tcpip_is_a_job_queue_witness :
  let y := SysState 1000 0 0 (SysElem 0 0 0) (SysElem 0 0 0) (SysElem 0 0 0) [] 0 0 in
  let err f p n := if f =? 7 then -6 else 0 in
  let es := [JInpkt 100 1 5; JCallback 9 2; JTurn; JInpkt 101 1 7; JNew 8 3; JPost 0; JPost 0;
             JTurn; JTurn; JTurn; JTurn; JTurn] in
  let dA := MempDesc 24 16 8192 in
  let dI := MempDesc 24 16 9216 in
  ∃ q s, sys_mbox_new true y = Ok ((ERR_OK, q), s) ∧
  (λ r, (r.1.1, tp_log r.1.2.1)) <$>
    t_steps err es (Tcpip q (memp_init_pool dA) (memp_init_pool dI) ∅ [], []) s
  = Ok ([0; 0; 1; 0; 0; 0; 0; 1; 1; 1; 1; 0],
        [ActInput 5 100 1; ActCall 9 2; ActInput 7 101 1; ActPbufFree 101; ActCall 8 3; ActCall 8 3]) ∧
  (λ r, (r.1.1, tp_log r.1.2.1)) <$>
    t_steps err es (Tcpip q (memp_init_pool dA) (memp_init_pool dI) ∅ [], []) s
  = (λ r, (r.1, j_log r.2)) <$> j_steps err es (Jobs [] [] []).
Proof.
  cbv zeta. eexists _, _. split; [vm_compute; reflexivity|]. split; [vm_compute; reflexivity|].
  eapply (tcpip_is_a_job_queue _ _ _ _ (SysState 1000 0 0 (SysElem 0 0 0) (SysElem 0 0 0)
    (SysElem 0 0 0) [] 0 0)); try (vm_compute; reflexivity).
  - repeat split; vm_compute; reflexivity.
  - repeat split; vm_compute; reflexivity.
  - intros a Ha Hb. apply list_elem_of_fmap in Ha as (i & -> & Hi%elem_of_seq).
    apply list_elem_of_fmap in Hb as (k & E & Hk%elem_of_seq). simpl in *.
    change (LWIP_MEM_ALIGN 8192) with 8192 in E. change (LWIP_MEM_ALIGN 9216) with 9216 in E. lia.
  - vm_compute. discriminate.
Defined.
