(* ===== verification/TcpipLoop.v ===== *)
(** * The thread of lwip: waiting for messages and running timers (lwip/api/tcpip.c)

    The thread sleeps on its mailbox until a message comes or the first timer is
    due, with the lock of the stack given back meanwhile.  This file puts the
    mailbox ([SysArch]), the timeouts ([Timeouts]) and the lock together. *)

From Stdlib Require Import Sorted.
From S2P Require Import Prelude Memp SysArch Timeouts TimeoutsSpec TimeoutsRun Tcpip.

(** The lists of timers, the mailbox and the lock. *)
Record loop_state : Type := Loop { lp_t : tstate; lp_q : lwip_mbox; lp_lock : win_mutex }.

Definition set_sys (y : sysarch) (st : tstate) : tstate :=
  TState (ts_pool st) (ts_objs st) (next_timeout st) (current_timeout_due_time st)
    (tcpip_tcp_timer_active st) (ts_pcbs st) (ts_clock st) (ts_calls st) (ts_self st) y.

(** How a wait ends: after how many milliseconds, and with what. *)
Record wait : Type := Wait { w_ms : Z; w_ret : wait_result }.

Section loop.
Context (effect : nat → handler → Z → heffect).

(** [UNLOCK_TCPIP_CORE]; the wait; [LOCK_TCPIP_CORE].  The message of the wait, if it
    was one.  The clock of [sys_arch_mbox_fetch] is the counter, in milliseconds. *)
Definition wait_unlocked (w : wait) (st : loop_state) : res (option Z * loop_state) :=
  let t := lp_t st in
  '(m, y) ← sys_unlock_tcpip_core (ts_self t) (Some (lp_lock st)) (ts_sys t);
  let t := set_clock (ts_clock t + w_ms w) t in
  '(_, msg, q, y) ← sys_arch_mbox_fetch (lp_q st) (w_ret w) (ts_clock t - w_ms w) (ts_clock t) y;
  '(m, y) ← sys_lock_tcpip_core (ts_self t) (Some m) y;
  m ← oget OutOfFuel m;
  Ok (msg, Loop (set_sys y t) q m).

(** The result: the message, or that the thread still waits when [waits] ends.
    [fuel] bounds the rounds. *)
Fixpoint tcpip_timeouts_mbox_fetch (fuel : nat) (waits : list wait) (st : loop_state)
    : res (option Z * loop_state) :=
  match fuel with
  | O => Fault OutOfFuel
  | S fuel =>
      sleeptime ← sys_timeouts_sleeptime (lp_t st);
      if (sleeptime =? 0) then
        t ← sys_check_timeouts effect CHECK_FUEL (lp_t st);
        tcpip_timeouts_mbox_fetch fuel waits (Loop t (lp_q st) (lp_lock st))
      else
        match waits with
        | [] => Ok (None, st)
        | w :: waits =>
            '(msg, st) ← wait_unlocked w st;
            if (sleeptime =? SYS_TIMEOUTS_SLEEPTIME_INFINITE) then Ok (msg, st)
            else if decide (w_ret w = WAIT_TIMEOUT) then
              t ← sys_check_timeouts effect CHECK_FUEL (lp_t st);
              tcpip_timeouts_mbox_fetch fuel waits (Loop t (lp_q st) (lp_lock st))
            else Ok (msg, st)
        end
  end.

End loop.

(** ** A wait *)

(** The thread holds the lock, alone, and the clock is running. *)
Record loop_ok (st : loop_state) : Prop := LoopOk {
  lo_lock : lp_lock st = WinMutex (Some (ts_self (lp_t st))) 1;
  lo_holder : lwip_core_lock_holder_thread_id (ts_sys (lp_t st)) = ts_self (lp_t st);
  lo_idle : protection_depth (ts_sys (lp_t st)) = 0;
  lo_init : freq (ts_sys (lp_t st)) ≠ 0;
}.

Lemma get_ms_total t y : freq y ≠ 0 → ∃ v, sys_get_ms_longlong t y = Ok (v, y).
Proof.
  intros Hf. unfold sys_get_ms_longlong, sys_get, sys_assert, sys_lift, lwip_assert, mbind,
    sys_bind, mret, sys_ret. simpl. rewrite (proj2 (Z.eqb_neq _ _) Hf). by eexists.
Qed.

Lemma unlock_spec self y :
  protection_depth y = 0 →
  sys_unlock_tcpip_core self (Some (WinMutex (Some self) 1)) y = Ok (WinMutex None 0, set_holder 0 y).
Proof. apply unlock_core_owned. Qed.

Lemma lock_spec self y :
  sys_lock_tcpip_core self (Some (WinMutex None 0)) (set_holder 0 y)
    = Ok (Some (WinMutex (Some self) 1), set_holder self y).
Proof. done. Qed.

(** The lock comes back; a message is the first of the mailbox. *)
Lemma wait_unlocked_spec w st l :
  loop_ok st → mbox_holds (lp_q st) l 0 →
  (w_ret w = WAIT_TIMEOUT →
     wait_unlocked w st =
       Ok (None, Loop (set_clock (ts_clock (lp_t st) + w_ms w) (lp_t st)) (lp_q st) (lp_lock st))) ∧
  (w_ret w = WAIT_OBJECT_0 → ∀ m l', l = m :: l' →
     ∃ q, wait_unlocked w st =
       Ok (Some m, Loop (set_clock (ts_clock (lp_t st) + w_ms w) (lp_t st)) q (lp_lock st)) ∧
     mbox_holds q l' 0).
Proof.
  intros [Hlock Hhold Hidle Hinit] Hq. unfold wait_unlocked. rewrite Hlock, unlock_spec by done.
  cbn [mbind res_bind]. set (c := ts_clock (lp_t st) + w_ms w).
  set (y := set_holder 0 (ts_sys (lp_t st))).
  assert (protection_depth y = 0) as Hy by done. assert (freq y ≠ 0) as Hf by done.
  destruct (get_ms_total (c - w_ms w) y Hf) as [v Ev]. destruct (get_ms_total c y Hf) as [v' Ev'].
  assert (set_holder (ts_self (lp_t st)) (ts_sys (lp_t st)) = ts_sys (lp_t st)) as Eh.
  { rewrite <- Hhold. by destruct (ts_sys (lp_t st)). }
  assert (set_sys (ts_sys (lp_t st)) (set_clock c (lp_t st)) = set_clock c (lp_t st)) as Es by done.
  unfold sys_arch_mbox_fetch. cbn [set_clock ts_clock ts_self]. rewrite (mh_sem _ _ _ Hq).
  split.
  - intros ->. erewrite sys_bind_Ok by done. rewrite (sys_bind_Ok _ _ _ _ _ Ev).
    rewrite decide_False by done. erewrite sys_bind_Ok by done. cbn [mret sys_ret mbind res_bind].
    unfold y. rewrite lock_spec. cbn [mbind res_bind oget]. rewrite Eh. done.
  - intros -> m l' ->.
    pose proof (sem_down_spec _ _ _ Hq ltac:(simpl; lia)) as Hq1.
    destruct (mbox_take_spec _ _ _ _ y Hq1 Hy) as (q' & Et & Hq2). exists q'. split; [|done].
    erewrite sys_bind_Ok by done. rewrite (sys_bind_Ok _ _ _ _ _ Ev), decide_True by done.
    rewrite (sys_bind_Ok _ _ _ _ _ Et), (sys_bind_Ok _ _ _ _ _ Ev'). cbn [mret sys_ret mbind res_bind].
    unfold y. rewrite lock_spec. cbn [mbind res_bind oget]. rewrite Eh. done.
Qed.

(** ** The operations on timers leave the thread and its lock alone *)

Definition same_thread (st st' : tstate) : Prop :=
  ts_self st' = ts_self st ∧ ts_sys st' = ts_sys st.

#[global] Instance same_thread_preorder : PreOrder same_thread.
Proof. split; [done|]. intros st1 st2 st3 [H1 H2] [H3 H4]. split; congruence. Qed.

Lemma sys_timeout_abs_frame w h arg st st' :
  sys_timeout_abs w h arg st = Ok st' → same_thread st st'.
Proof.
  unfold sys_timeout_abs. intros E. inv_res. destruct r as [m p]. inv_res.
  case_match; inv_res; [|done]. case_match; by inv_res.
Qed.

Lemma sys_timeout_frame m h arg st st' : sys_timeout m h arg st = Ok st' → same_thread st st'.
Proof. unfold sys_timeout. intros E. inv_res. by eapply sys_timeout_abs_frame. Qed.

Lemma untimeout_walk_frame fuel h arg st st' : ∀ prev t,
  untimeout_walk fuel h arg prev t st = Ok st' → same_thread st st'.
Proof.
  induction fuel as [|fuel IH]; intros prev t E; cbn [untimeout_walk] in E; [done|].
  destruct t as [a|]; inv_res; [|done]. case_decide; [|by eapply IH].
  inv_res. destruct r0 as [o n]. by inv_res.
Qed.

Lemma do_call_frame c st st' : do_call c st = Ok st' → same_thread st st'.
Proof.
  destruct c as [m h arg|h arg|]; cbn [do_call]; intros E.
  - by eapply sys_timeout_frame.
  - unfold sys_untimeout in E. inv_res. case_match; inv_res; [|done]. by eapply untimeout_walk_frame.
  - unfold tcp_timer_needed in E. inv_res. case_match; inv_res; [|done].
    by apply sys_timeout_frame in E.
Qed.

Lemma do_calls_frame cs : ∀ st st', do_calls cs st = Ok st' → same_thread st st'.
Proof.
  induction cs as [|c cs IH]; intros st st' E; cbn [do_calls] in E; inv_res; [done|].
  etransitivity; [by eapply do_call_frame|by apply IH].
Qed.

Lemma run_effect_frame effect h arg st st' :
  run_effect effect h arg st = Ok st' → same_thread st st'.
Proof. unfold run_effect. intros E. by apply do_calls_frame in E. Qed.

Lemma call_handler_frame effect h arg st st' :
  call_handler effect h arg st = Ok st' → same_thread st st'.
Proof.
  destruct h as [| | |u]; cbn [call_handler]; intros E.
  - by inv_res.
  - unfold lwip_cyclic_timer in E. inv_res. apply run_effect_frame in E1. etransitivity; [exact E1|].
    case_match; by eapply sys_timeout_abs_frame.
  - unfold tcpip_tcp_timer in E. inv_res. apply run_effect_frame in E0. etransitivity; [exact E0|].
    case_match; [by eapply sys_timeout_frame|by inv_res].
  - by eapply run_effect_frame.
Qed.

Lemma check_loop_frame effect fuel now : ∀ st st',
  check_loop effect fuel now st = Ok st' → same_thread st st'.
Proof.
  induction fuel as [|fuel IH]; intros st st' E; cbn [check_loop] in E; [done|].
  case_match; inv_res; [|done]. case_match; inv_res; [done|].
  apply call_handler_frame in E2. etransitivity; [exact E2|by apply IH].
Qed.

Lemma sys_check_timeouts_frame effect fuel st st' :
  sys_check_timeouts effect fuel st = Ok st' → same_thread st st'.
Proof. unfold sys_check_timeouts. intros E. inv_res. by eapply check_loop_frame. Qed.

(** ** Handlers that take no time *)

Definition instant (effect : nat → handler → Z → heffect) : Prop :=
  ∀ n h a, he_ms (effect n h a) = 0 ∧ Forall no_timeout (he_calls (effect n h a)).

Lemma no_timeout_ok cs : Forall no_timeout cs → Forall call_ok cs.
Proof. intros H. eapply Forall_impl; [exact H|]. by intros []. Qed.

Lemma instant_ok effect : instant effect → effects_ok effect.
Proof.
  intros Hi n h a. destruct (Hi n h a) as [-> Hc]. split; [done|]. by apply no_timeout_ok.
Qed.

Lemma s_effect_clock effect h arg s s' :
  instant effect → s_effect effect h arg s = Ok s' → s_clock s' = s_clock s.
Proof.
  intros Hi E. destruct (Hi (s_calls s) h arg) as [Hms Hc%no_timeout_ok]. unfold s_effect in E.
  destruct (s_docalls_rank (s_clock s) _ _ _ E Hc) as [_ ->]; simpl; lia.
Qed.

Lemma s_handler_clock effect h arg s s' :
  instant effect → s_handler effect h arg s = Ok s' → s_clock s' = s_clock s.
Proof.
  intros Hi E. destruct h as [| | |u]; cbn [s_handler] in E.
  - by injection E as <-.
  - inv_res. apply s_timeout_abs_inv in E as ->. by apply s_effect_clock in E1.
  - inv_res. apply s_effect_clock in E0; [|done]. case_match; [|by injection E as <-].
    by apply s_timeout_inv in E as [_ ->].
  - by apply s_effect_clock in E.
Qed.

Lemma s_check_instant effect fuel now : ∀ s s',
  instant effect → s_check effect fuel now s = Ok s' → s_clock s' = s_clock s.
Proof.
  induction fuel as [|fuel IH]; intros s s' Hi E; cbn [s_check] in E; [done|].
  destruct (s_timers s) as [|t l]; [by injection E as <-|].
  case_match; [by injection E as <-|]. inv_res. apply s_handler_clock in E0; [|done].
  rewrite (IH _ _ Hi E). done.
Qed.

(** ** Waiting for a message *)

Section fetch.
Context (base esize : Z) (Hd : desc_ok (timeo_desc base esize)).
Context (effect : nat → handler → Z → heffect) (Hinst : instant effect).

(** The thread in front of a wait: the last check is [lag] ago. *)
Record ready (lag : Z) (st : loop_state) (s : sstate) : Prop := Ready {
  rd_loop : loop_ok st;
  rd_sim : sim (timeo_desc base esize) (lp_t st) s;
  rd_timers : timers_inv [] s;
  rd_own : own_only s;
  rd_lag : 0 <= lag <= 2 ^ 27;
  rd_window : window (1 + lag) s;
}.

(** Nothing is due. *)
Definition nothing_due (s : sstate) : Prop := Forall (λ t, s_clock s < s_when t) (s_timers s).

Lemma ready_sleeptime lag st s :
  ready lag st s → ∃ v, sys_timeouts_sleeptime (lp_t st) = Ok v ∧
    (nothing_due s ↔ v ≠ 0) ∧ v ≠ SYS_TIMEOUTS_SLEEPTIME_INFINITE.
Proof.
  intros [_ Hs [Hso Hp] _ Hl Hw].
  rewrite (sys_timeouts_sleeptime_spec base esize (1 + lag) _ _ Hs Hw) by lia.
  unfold nothing_due. destruct (s_timers s) as [|t l] eqn:El.
  { exfalso. apply Permutation_length in Hp. simpl in Hp. destruct (s_active s); simpl in Hp; lia. }
  unfold window in Hw. rewrite El in Hw. apply Forall_cons in Hw as [Ht _]. unfold in_sight in Ht.
  apply StronglySorted_inv in Hso as [_ Hso].
  eexists. split; [done|]. unfold SYS_TIMEOUTS_SLEEPTIME_INFINITE. split; [|lia].
  split; [intros [Hlt _]%Forall_cons; lia|]. intros Hv. constructor; [lia|].
  eapply Forall_impl; [exact Hso|]. simpl. lia.
Qed.

(** A check after [ms] milliseconds. *)
Lemma ready_check lag ms st s :
  ready lag st s → 0 <= ms <= 2 ^ 27 →
  ∃ t s', sys_check_timeouts effect CHECK_FUEL (set_clock (ts_clock (lp_t st) + ms) (lp_t st)) = Ok t ∧
    (∀ q, ready CHECK_MS (Loop t q (lp_lock st)) s') ∧ nothing_due s' ∧
    s_clock s' = s_clock s + ms.
Proof.
  intros [[Hl1 Hl2 Hl3 Hl4] Hs Hi Ho Hl Hw] Hms.
  assert (timely lag [EvCheck ms]) as Ht by (simpl; lia).
  destruct (event_sim _ _ Hd _ (instant_ok _ Hinst) lag (EvCheck ms) [] (lp_t st) s Hs Hi
    (proj1 Hl) Hw Ht) as [Hr Hm].
  destruct (own_event effect (EvCheck ms) s (λ n h a, proj2 (Hinst n h a)) I Ho Hi) as [Hna Hown].
  cbn [t_event s_event] in *. unfold timer_lwip in Hr.
  change (t_pass ms (ts_pcbs (lp_t st)) (lp_t st))
    with (set_clock (ts_clock (lp_t st) + ms) (lp_t st)) in Hr.
  destruct (s_check _ _ _ _) as [s'|f] eqn:Es; [|by subst].
  destruct Hr as (t & Et & Hs'). destruct Hm as (Hi' & (lag' & Hl' & _ & Hw') & Hf).
  apply s_check_instant in Es as Hc; [|done]. cbn [s_pass s_clock] in Hc.
  assert (nothing_due s') as Hnd by (unfold nothing_due; rewrite Hc; by apply Hf).
  exists t, s'. split; [done|]. split; [|done]. intros q.
  apply sys_check_timeouts_frame in Et as [Hself Hsys]. cbn [set_clock ts_self ts_sys] in *.
  split; [split; cbn [lp_t lp_lock]; rewrite ?Hself, ?Hsys; done|done|done|by apply Hown|done|].
  apply Forall_forall. intros x Hx. unfold nothing_due in Hnd. unfold window in Hw'.
  rewrite Forall_forall in Hnd, Hw'. specialize (Hnd x Hx). specialize (Hw' x Hx).
  unfold in_sight, CHECK_MS, MAX_MS, CHECK_FUEL in *. lia.
Qed.

Definition timeouts_then (mss : list Z) (ms : Z) : list wait :=
  ((λ m, Wait m WAIT_TIMEOUT) <$> mss) ++ [Wait ms WAIT_OBJECT_0].

Lemma fetch_fresh mss : ∀ fuel lag ms m l st s,
  ready lag st s → nothing_due s → mbox_holds (lp_q st) (m :: l) 0 →
  Forall (λ x, 0 <= x <= 2 ^ 27) (mss ++ [ms]) → (length mss < fuel)%nat →
  ∃ t q s', tcpip_timeouts_mbox_fetch effect fuel (timeouts_then mss ms) st =
      Ok (Some m, Loop (set_clock (ts_clock t + ms) t) q (lp_lock st)) ∧
    sim (timeo_desc base esize) t s' ∧ timers_inv [] s' ∧ nothing_due s' ∧
    s_clock s' = s_clock s + foldr Z.add 0 mss ∧ mbox_holds q l 0.
Proof.
  induction mss as [|x mss IH]; intros [|fuel] lag ms m l st s Hr Hn Hq Hms Hf; try (simpl in Hf; lia);
    cbn [tcpip_timeouts_mbox_fetch];
    destruct (ready_sleeptime lag st s Hr) as (v & -> & Hv & Hinf); cbn [mbind res_bind];
    rewrite (proj2 (Z.eqb_neq v 0)) by (by apply Hv); cbn [timeouts_then fmap list_fmap app].
  - destruct (wait_unlocked_spec (Wait ms WAIT_OBJECT_0) st (m :: l) (rd_loop _ _ _ Hr) Hq)
      as [_ Hw]. destruct (Hw eq_refl m l eq_refl) as (q & -> & Hq'). cbn [mbind res_bind].
    rewrite (proj2 (Z.eqb_neq _ _) Hinf), decide_False by done.
    exists (lp_t st), q, s. destruct Hr. split; [done|]. simpl. rewrite Z.add_0_r. done.
  - destruct (wait_unlocked_spec (Wait x WAIT_TIMEOUT) st (m :: l) (rd_loop _ _ _ Hr) Hq)
      as [Hw _]. rewrite (Hw eq_refl). cbn [mbind res_bind lp_t lp_q lp_lock w_ms].
    rewrite (proj2 (Z.eqb_neq _ _) Hinf), decide_True by done.
    apply Forall_cons in Hms as [Hx Hms].
    destruct (ready_check lag x st s Hr Hx) as (t & s1 & -> & Hr1 & Hn1 & Hc1).
    cbn [mbind res_bind]. fold (timeouts_then mss ms).
    destruct (IH fuel CHECK_MS ms m l (Loop t (lp_q st) (lp_lock st)) s1 (Hr1 _) Hn1 Hq Hms)
      as (t' & q & s2 & -> & Hs2 & Hi2 & Hn2 & Hc2 & Hq2); [simpl in Hf; lia|].
    exists t', q, s2. split; [done|]. repeat (split; [done|]). split; [|done].
    rewrite Hc2, Hc1. simpl. lia.
Qed.

End fetch.

(** C27 (functional).  Waiting for a message: however often the wait times out, at once
    or late, the thread runs the timers that are due each time, has the lock again
    whenever it does, and in the end returns the oldest message, with no timer left
    that was due before the last wait began.  For handlers that take no measurable
    time (slower ones can keep the thread from its mailbox). *)
Theorem mbox_fetch_serves_both base esize effect lag mss ms m l st s :
  desc_ok (timeo_desc base esize) → instant effect → ready base esize lag st s →
  mbox_holds (lp_q st) (m :: l) 0 → Forall (λ x, 0 <= x <= 2 ^ 27) (mss ++ [ms]) →
  ∃ t q s', tcpip_timeouts_mbox_fetch effect (length mss + 2) (timeouts_then mss ms) st =
      Ok (Some m, Loop (set_clock (ts_clock t + ms) t) q (lp_lock st)) ∧
    sim (timeo_desc base esize) t s' ∧ timers_inv [] s' ∧
    Forall (λ x, s_clock s + foldr Z.add 0 mss < s_when x) (s_timers s') ∧
    ts_clock t = s_clock s + foldr Z.add 0 mss ∧ mbox_holds q l 0.
Proof.
  intros Hd Hi Hr Hq Hms. rewrite Nat.add_comm. cbn [Nat.add].
  destruct (ready_sleeptime base esize lag st s Hr) as (v & Ev & Hv & Hinf).
  assert (∀ P : Prop, (nothing_due s → P) → (v = 0 → P) → P) as Hcase.
  { intros P H1 H2. destruct (decide (v = 0)) as [Hv0|Hv0]; [by apply H2|by apply H1, Hv]. }
  apply Hcase; clear Hcase.
  - intros Hn. destruct (fetch_fresh base esize Hd effect Hi mss (S (S (length mss))) lag ms m l st s)
      as (t & q & s' & -> & Hs' & Hi' & Hn' & Hc' & Hq'); [done..|lia|].
    exists t, q, s'. unfold nothing_due in Hn'. rewrite Hc' in Hn'.
    by rewrite (sim_clock _ _ _ Hs').
  - intros Hv0. destruct (ready_check base esize Hd effect Hi lag 0 st s Hr) as (t0 & s0 & E0 & Hr0 & Hn0 & Hc0);
      [lia|]. rewrite Z.add_0_r in E0, Hc0.
    destruct (fetch_fresh base esize Hd effect Hi mss (S (length mss)) CHECK_MS ms m l
      (Loop t0 (lp_q st) (lp_lock st)) s0 (Hr0 _) Hn0 Hq Hms)
      as (t & q & s' & E & Hs' & Hi' & Hn' & Hc' & Hq'); [lia|].
    exists t, q, s'. unfold nothing_due in Hn'. rewrite Hc', Hc0 in Hn'.
    split; [|by rewrite (sim_clock _ _ _ Hs'), Hc', Hc0]. etransitivity; [|exact E].
    cbn [tcpip_timeouts_mbox_fetch]. rewrite Ev. cbn [mbind res_bind]. rewrite Hv0. cbn [Z.eqb].
    assert (set_clock (ts_clock (lp_t st)) (lp_t st) = lp_t st) as Ec by by destruct (lp_t st).
    rewrite Ec in E0. by rewrite E0.
Qed.

(** The thread, which holds the lock, after the start of the stack. *)
Definition demo_sys : sysarch :=
  SysState 1000 0 0 (SysElem 0 0 0) (SysElem 0 0 0) (SysElem 0 0 0) [] 1 1.
Definition demo_instant (n : nat) (h : handler) (arg : Z) : heffect := HEffect 0 true [CTcpNeeded].
Definition demo_timers : sstate :=
  SState [STimer (2 ^ 32 - 50 + 100) HCyclic 3; STimer (2 ^ 32 - 50 + 100) HCyclic 6;
          STimer (2 ^ 32 - 50 + 1000) HCyclic 1; STimer (2 ^ 32 - 50 + 1000) HCyclic 2;
          STimer (2 ^ 32 - 50 + 1000) HCyclic 4; STimer (2 ^ 32 - 50 + 1000) HCyclic 5]
    0 false false (2 ^ 32 - 50) 0.
Definition demo_box : lwip_mbox :=
  Mbox (Some (WinSem 1 100)) (<[0%nat := 55]> (replicate 100 0)) 1 0.

Lemma demo_box_holds : mbox_holds demo_box [55] 0.
Proof.
  split; try done; unfold MAX_QUEUE_ENTRIES; try (simpl; lia).
  intros [|k] m Hk; [by injection Hk as <-|done].
Qed.

Lemma mbox_fetch_serves_both_witness :
  ∃ st0, sys_timeouts_init (t_boot 4096 32 (2 ^ 32 - 50) false 1 demo_sys) = Ok st0 ∧
  let st := Loop st0 demo_box (WinMutex (Some 1) 1) in
  (λ r, (r.1, ts_calls (lp_t r.2))) <$>
    tcpip_timeouts_mbox_fetch demo_instant 4 (timeouts_then [100; 30] 7) st = Ok (Some 55, 2%nat) ∧
  ∃ t q s', tcpip_timeouts_mbox_fetch demo_instant 4 (timeouts_then [100; 30] 7) st =
      Ok (Some 55, Loop (set_clock (ts_clock t + 7) t) q (WinMutex (Some 1) 1)) ∧
    sim (timeo_desc 4096 32) t s' ∧ timers_inv [] s' ∧
    Forall (λ x, 2 ^ 32 - 50 + foldr Z.add 0 [100; 30] < s_when x) (s_timers s') ∧
    ts_clock t = 2 ^ 32 - 50 + foldr Z.add 0 [100; 30] ∧ mbox_holds q [] 0.
Proof.
  destruct (boot_ready 4096 32 demo_desc_ok (2 ^ 32 - 50) false 1 demo_sys eq_refl)
    as (st0 & s0 & E0 & Hs0 & Hi0 & Ho0 & Hw0 & Es0).
  exists st0. split; [exact E0|]. rewrite s_timeouts_init_spec in Es0. injection Es0 as <-.
  revert E0 Hs0. destruct (sys_timeouts_init _) as [x|] eqn:E; intros [= <-] Hs0.
  cbv zeta. split; [vm_compute in E; injection E as <-; vm_compute; reflexivity|].
  apply (mbox_fetch_serves_both 4096 32 demo_instant 0 [100; 30] 7 55 []
    (Loop x demo_box (WinMutex (Some 1) 1)) demo_timers); [apply demo_desc_ok|..].
  - intros n h a. split; [done|]. by repeat constructor.
  - split; [|done..|done]. vm_compute in E. injection E as <-. by split.
  - apply demo_box_holds.
  - repeat constructor; simpl; lia.
Defined.
