(* ===== verification/Pbuf.v ===== *)
(** * Packet buffers of lwip (lwip/core/pbuf.c), without allocation

    A packet is a chain of buffers: descriptors ([struct pbuf]) linked by [next],
    each with a pointer to its part of the data.  The model keeps the descriptors
    in a map from their addresses and the data in a flat memory of bytes, so that
    a buffer may point into its own block, into another one's or into memory of
    the application, and headers are added and removed by moving the pointer.
    This file holds the data and the operations that neither allocate nor free;
    [PbufPacket] relates a chain to the bytes of the packet and shows what they do. *)

From S2P Require Import Prelude Memp SysArch.

(** ** Memory *)

(** [n] bytes from [a] on, and storing bytes there; a byte that is not mapped is a
    fault. *)
Fixpoint mread (m : gmap Z Z) (a : Z) (n : nat) : res (list Z) :=
  match n with
  | O => Ok []
  | S n => b ← oget BadPointer (m !! a); l ← mread m (a + 1) n; Ok (b :: l)
  end.

Fixpoint mwrite (m : gmap Z Z) (a : Z) (bs : list Z) : res (gmap Z Z) :=
  match bs with
  | [] => Ok m
  | b :: bs => _ ← oget BadPointer (m !! a); mwrite (<[a := b]> m) (a + 1) bs
  end.

(** ** Data *)

(** [struct pbuf] *)
Record pbuf : Type := Pbuf {
  p_next : option Z; p_payload : Z; p_tot_len : Z; p_len : Z;
  p_type_internal : Z; p_flags : Z; p_ref : Z; p_if_idx : Z;
}.

Definition set_p_next (n : option Z) (h : pbuf) : pbuf :=
  Pbuf n (p_payload h) (p_tot_len h) (p_len h) (p_type_internal h) (p_flags h) (p_ref h) (p_if_idx h).
Definition set_p_tot (z : Z) (h : pbuf) : pbuf :=
  Pbuf (p_next h) (p_payload h) z (p_len h) (p_type_internal h) (p_flags h) (p_ref h) (p_if_idx h).
Definition set_p_ref (z : Z) (h : pbuf) : pbuf :=
  Pbuf (p_next h) (p_payload h) (p_tot_len h) (p_len h) (p_type_internal h) (p_flags h) z (p_if_idx h).
Definition set_p_view (payload tot len : Z) (h : pbuf) : pbuf :=
  Pbuf (p_next h) payload tot len (p_type_internal h) (p_flags h) (p_ref h) (p_if_idx h).

Definition ERR_VAL : Z := -6.
Definition ERR_ARG : Z := -16.

(** Types and flags of lwip/pbuf.h. *)
Definition PBUF_TYPE_FLAG_STRUCT_DATA_CONTIGUOUS : Z := 0x80.
Definition PBUF_TYPE_FLAG_DATA_VOLATILE : Z := 0x40.
Definition PBUF_TYPE_ALLOC_SRC_MASK : Z := 0x0F.
Definition PBUF_RAM : Z := 0x280.
Definition PBUF_ROM : Z := 0x01.
Definition PBUF_REF : Z := 0x41.
Definition PBUF_POOL : Z := 0x182.
Definition PBUF_FLAG_IS_CUSTOM : Z := 0x02.

(** Two pointers, two 16-bit lengths, four bytes; a multiple of four. *)
Definition SIZEOF_STRUCT_PBUF `{Platform} : Z := 2 * ptr_bytes + 8.

Definition deref (pb : gmap Z pbuf) (p : option Z) : res (Z * pbuf) :=
  match p with
  | None => Fault NullDeref
  | Some a => h ← oget BadPointer (pb !! a); Ok (a, h)
  end.

(** ** Walking *)

(** The bound of the loops over a chain: it has no more members than there are
    buffers. *)
Definition chain_fuel (pb : gmap Z pbuf) : nat := S (size pb).

Fixpoint skip_loop (fuel : nat) (pb : gmap Z pbuf) (q : option Z) (offset_left : Z)
    : res (option Z * Z) :=
  match q, fuel with
  | None, _ => Ok (None, offset_left)
  | Some _, O => Fault OutOfFuel
  | Some a, S fuel =>
      h ← oget BadPointer (pb !! a);
      if p_len h <=? offset_left
      then skip_loop fuel pb (p_next h) (u16 (offset_left - p_len h))
      else Ok (Some a, offset_left)
  end.

(** The result and [*out_offset]. *)
Definition pbuf_skip_const (pb : gmap Z pbuf) (p : option Z) (in_offset : Z)
    : res (option Z * Z) :=
  skip_loop (chain_fuel pb) pb p in_offset.

Definition pbuf_skip (pb : gmap Z pbuf) (p : option Z) (in_offset : Z) : res (option Z * Z) :=
  pbuf_skip_const pb p in_offset.

Fixpoint clen_loop (fuel : nat) (pb : gmap Z pbuf) (p : option Z) (len : Z) : res Z :=
  match p, fuel with
  | None, _ => Ok len
  | Some _, O => Fault OutOfFuel
  | Some a, S fuel => h ← oget BadPointer (pb !! a); clen_loop fuel pb (p_next h) (u16 (len + 1))
  end.

Definition pbuf_clen (pb : gmap Z pbuf) (p : option Z) : res Z := clen_loop (chain_fuel pb) pb p 0.

(** ** Reading *)

(** -1 behind the end. *)
Definition pbuf_try_get_at (pb : gmap Z pbuf) (m : gmap Z Z) (p : option Z) (offset : Z) : res Z :=
  '(q, q_idx) ← pbuf_skip_const pb p offset;
  match q with
  | None => Ok (-1)
  | Some a =>
      h ← oget BadPointer (pb !! a);
      if q_idx <? p_len h then oget BadPointer (m !! (p_payload h + q_idx)) else Ok (-1)
  end.

Definition pbuf_get_at (pb : gmap Z pbuf) (m : gmap Z Z) (p : option Z) (offset : Z) : res Z :=
  ret ← pbuf_try_get_at pb m p offset;
  Ok (if 0 <=? ret then u8 ret else 0).

Fixpoint memcmp_loop (k : nat) (pb : gmap Z pbuf) (m : gmap Z Z) (q : option Z) (start i : Z)
    (s2 : list Z) : res Z :=
  match k with
  | O => Ok 0
  | S k =>
      a ← pbuf_get_at pb m q (u16 (start + i));
      b ← oget OutOfBounds (s2 !! Z.to_nat i);
      if negb (a =? b) then Ok (Z.min (i + 1) 0xFFFF)
      else memcmp_loop k pb m q start (i + 1) s2
  end.

(** [s2] is the buffer of the caller; [n] bytes of it are compared. *)
Definition pbuf_memcmp (pb : gmap Z pbuf) (m : gmap Z Z) (p : option Z) (offset : Z) (s2 : list Z)
    (n : Z) : res Z :=
  '(_, h) ← deref pb p;
  if p_tot_len h <? offset + n then Ok 0xffff
  else
    '(q, start) ← skip_loop (chain_fuel pb) pb p offset;
    memcmp_loop (Z.to_nat n) pb m q start 0 s2.

(** The loop of [pbuf_memfind]: [i] has 16 bits. *)
Fixpoint memfind_loop (fuel : nat) (pb : gmap Z pbuf) (m : gmap Z Z) (p : option Z) (mem : list Z)
    (mem_len max_cmp_start i : Z) : res Z :=
  match fuel with
  | O => Fault OutOfFuel
  | S fuel =>
      if i <=? max_cmp_start then
        plus ← pbuf_memcmp pb m p i mem mem_len;
        if plus =? 0 then Ok i
        else memfind_loop fuel pb m p mem mem_len max_cmp_start (u16 (i + 1))
      else Ok 0xFFFF
  end.

Definition MEMFIND_FUEL : Z := 65537.

Definition pbuf_memfind (pb : gmap Z pbuf) (m : gmap Z Z) (p : option Z) (mem : list Z)
    (mem_len start_offset : Z) : res Z :=
  '(_, h) ← deref pb p;
  let max_cmp_start := u16 (p_tot_len h - mem_len) in
  if mem_len + start_offset <=? p_tot_len h
  then memfind_loop (Z.to_nat MEMFIND_FUEL) pb m p mem mem_len max_cmp_start start_offset
  else Ok 0xFFFF.

(** [substr] is the memory the pointer points to, up to and beyond its NUL. *)
Definition pbuf_strstr (pb : gmap Z pbuf) (m : gmap Z Z) (p : option Z) (substr : option (list Z))
    : res Z :=
  match substr with
  | None => Ok 0xFFFF
  | Some buf =>
      s ← c_string buf;
      if bool_decide (s = []) then Ok 0xFFFF
      else
        '(_, h) ← deref pb p;
        if p_tot_len h =? 0xFFFF then Ok 0xFFFF
        else
          let substr_len := Z.of_nat (length s) in
          if 0xFFFF <=? substr_len then Ok 0xFFFF
          else pbuf_memfind pb m p buf (u16 substr_len) 0
  end.

(** [dst] is the buffer of the application; the count and its new contents. *)
Fixpoint copy_partial_loop (fuel : nat) (pb : gmap Z pbuf) (m : gmap Z Z) (p : option Z)
    (dst : list Z) (left copied_total len offset : Z) : res (Z * list Z) :=
  if len =? 0 then Ok (copied_total, dst)
  else
    match p, fuel with
    | None, _ => Ok (copied_total, dst)
    | Some _, O => Fault OutOfFuel
    | Some a, S fuel =>
        h ← oget BadPointer (pb !! a);
        if negb (offset =? 0) && (p_len h <=? offset)
        then copy_partial_loop fuel pb m (p_next h) dst left copied_total len (u16 (offset - p_len h))
        else
          let n := u16 (p_len h - offset) in
          let buf_copy_len := if len <? n then len else n in
          bs ← mread m (p_payload h + offset) (Z.to_nat buf_copy_len);
          dst ← store dst (Z.to_nat left) bs;
          copy_partial_loop fuel pb m (p_next h) dst (u16 (left + buf_copy_len))
            (u16 (copied_total + buf_copy_len)) (u16 (len - buf_copy_len)) 0
    end.

Definition pbuf_copy_partial (pb : gmap Z pbuf) (m : gmap Z Z) (buf : option Z)
    (dataptr : option (list Z)) (len offset : Z) : res (Z * option (list Z)) :=
  match buf, dataptr with
  | None, _ | _, None => Ok (0, dataptr)
  | Some _, Some dst =>
      '(n, dst) ← copy_partial_loop (chain_fuel pb) pb m buf dst 0 0 len offset;
      Ok (n, Some dst)
  end.

(** NULL, a pointer into the data, or the buffer of the caller with its new
    contents. *)
Inductive contiguous : Type := CNull | CInPlace (a : Z) | CCopied (buf : list Z).

Definition pbuf_get_contiguous (pb : gmap Z pbuf) (m : gmap Z Z) (p : option Z)
    (buffer : option (list Z)) (bufsize len offset : Z) : res contiguous :=
  if negb (is_some p) then Ok CNull
  else if is_some buffer && (bufsize <? len) then Ok CNull
  else
    '(q, out_offset) ← pbuf_skip_const pb p offset;
    match q with
    | None => Ok CNull
    | Some a =>
        h ← oget BadPointer (pb !! a);
        if out_offset + len <=? p_len h then Ok (CInPlace (p_payload h + out_offset))
        else
          match buffer with
          | None => Ok CNull
          | Some _ =>
              '(n, dst) ← pbuf_copy_partial pb m q buffer len out_offset;
              match dst with
              | Some dst => Ok (if n =? len then CCopied dst else CNull)
              | None => Ok CNull
              end
          end
    end.

(** ** Writing *)

Fixpoint take_loop (fuel : nat) (pb : gmap Z pbuf) (m : gmap Z Z) (p : option Z) (data : list Z)
    (total_copy_len copied_total : Z) : res (gmap Z Z) :=
  if total_copy_len =? 0 then Ok m
  else
    match p, fuel with
    | None, _ => Fault Aborted
    | Some _, O => Fault OutOfFuel
    | Some a, S fuel =>
        h ← oget BadPointer (pb !! a);
        let buf_copy_len := if p_len h <? total_copy_len then p_len h else total_copy_len in
        bs ← load data (Z.to_nat copied_total) (Z.to_nat buf_copy_len);
        m ← mwrite m (p_payload h) bs;
        take_loop fuel pb m (p_next h) data (total_copy_len - buf_copy_len)
          (copied_total + buf_copy_len)
    end.

Definition pbuf_take (pb : gmap Z pbuf) (m : gmap Z Z) (buf : option Z) (dataptr : option (list Z))
    (len : Z) : res (Z * gmap Z Z) :=
  match buf, dataptr with
  | None, _ | _, None => Ok (ERR_ARG, m)
  | Some _, Some data =>
      '(_, h) ← deref pb buf;
      if p_tot_len h <? len then Ok (ERR_MEM, m)
      else m ← take_loop (chain_fuel pb) pb m buf data len 0; Ok (ERR_OK, m)
  end.

Definition pbuf_take_at (pb : gmap Z pbuf) (m : gmap Z Z) (buf : option Z) (data : list Z)
    (len offset : Z) : res (Z * gmap Z Z) :=
  '(q, target_offset) ← pbuf_skip pb buf offset;
  match q with
  | None => Ok (ERR_MEM, m)
  | Some a =>
      h ← oget BadPointer (pb !! a);
      if p_tot_len h <? target_offset + len then Ok (ERR_MEM, m)
      else
        _ ← lwip_assert (target_offset <? p_len h);
        let first_copy_len := u16 (Z.min (p_len h - target_offset) len) in
        bs ← load data 0 (Z.to_nat first_copy_len);
        m ← mwrite m (p_payload h + target_offset) bs;
        let remaining_len := u16 (len - first_copy_len) in
        if 0 <? remaining_len
        then pbuf_take pb m (p_next h) (Some (drop (Z.to_nat first_copy_len) data)) remaining_len
        else Ok (ERR_OK, m)
  end.

Definition pbuf_put_at (pb : gmap Z pbuf) (m : gmap Z Z) (p : option Z) (offset data : Z)
    : res (gmap Z Z) :=
  '(q, q_idx) ← pbuf_skip pb p offset;
  match q with
  | None => Ok m
  | Some a =>
      h ← oget BadPointer (pb !! a);
      if q_idx <? p_len h then mwrite m (p_payload h + q_idx) [u8 data] else Ok m
  end.

(** ** Copying between packets *)

Section copy.
Context `{Platform}.

Abbreviation usize := (wrapu sizet_bits).

(** The check against packet queues, which share the link. *)
Definition is_queue (pb : gmap Z pbuf) (p : option Z) : res bool :=
  match p with
  | None => Ok false
  | Some a => h ← oget BadPointer (pb !! a);
      Ok ((p_len h =? p_tot_len h) && is_some (p_next h))
  end.

(** One turn of the loop, up to the test at its end: it goes on with other
    pointers, or the function returns.  [offset_to], [offset_from] and [len] have
    the width of [size_t], so their differences wrap around. *)
Record copy_pos : Type := CopyPos {
  c_to : option Z; c_from : option Z; c_off_to : Z; c_off_from : Z; c_left : Z;
}.

Inductive copy_turn : Type := CReturn (err : Z) | CNext (c : copy_pos).

Definition copy_body (pb : gmap Z pbuf) (m : gmap Z Z) (c : copy_pos)
    : res (copy_turn * gmap Z Z) :=
  '(_, ht) ← deref pb (c_to c);
  '(_, hf) ← deref pb (c_from c);
  let room := usize (p_len ht - c_off_to c) in
  let rest := usize (p_len hf - c_off_from c) in
  let len := if rest <=? room then rest else room in
  let len := Z.min (c_left c) len in
  bs ← mread m (p_payload hf + c_off_from c) (Z.to_nat len);
  m ← mwrite m (p_payload ht + c_off_to c) bs;
  let off_to := usize (c_off_to c + len) in
  let off_from := usize (c_off_from c + len) in
  let left := u16 (c_left c - len) in
  _ ← lwip_assert (off_to <=? p_len ht);
  _ ← lwip_assert (off_from <=? p_len hf);
  let '(from, off_from) := if p_len hf <=? off_from then (p_next hf, 0) else (c_from c, off_from) in
  if negb (is_some from || (left =? 0)) then Ok (CReturn ERR_ARG, m)
  else
    let '(to, off_to) := if off_to =? p_len ht then (p_next ht, 0) else (c_to c, off_to) in
    if negb (is_some to || (left =? 0)) then Ok (CReturn ERR_ARG, m)
    else
      qf ← is_queue pb from;
      if (qf : bool) then Ok (CReturn ERR_VAL, m)
      else
        qt ← is_queue pb to;
        if (qt : bool) then Ok (CReturn ERR_VAL, m)
        else Ok (CNext (CopyPos to from off_to off_from left), m).

Fixpoint copy_loop (fuel : nat) (pb : gmap Z pbuf) (m : gmap Z Z) (c : copy_pos)
    : res (Z * gmap Z Z) :=
  match fuel with
  | O => Fault OutOfFuel
  | S fuel =>
      '(t, m) ← copy_body pb m c;
      match t with
      | CReturn err => Ok (err, m)
      | CNext c => if negb (c_left c =? 0) then copy_loop fuel pb m c else Ok (ERR_OK, m)
      end
  end.

(** Each turn but the last leaves a buffer behind. *)
Definition copy_fuel (pb : gmap Z pbuf) : nat := chain_fuel pb + chain_fuel pb.

Definition pbuf_copy_partial_pbuf (pb : gmap Z pbuf) (m : gmap Z Z) (p_to p_from : option Z)
    (copy_len offset : Z) : res (Z * gmap Z Z) :=
  match p_from with
  | None => Ok (ERR_ARG, m)
  | Some _ =>
      '(_, hf) ← deref pb p_from;
      if p_tot_len hf <? copy_len then Ok (ERR_ARG, m)
      else
        match p_to with
        | None => Ok (ERR_ARG, m)
        | Some _ =>
            '(_, ht) ← deref pb p_to;
            if p_tot_len ht <? offset + copy_len then Ok (ERR_ARG, m)
            else copy_loop (copy_fuel pb) pb m (CopyPos p_to p_from offset 0 copy_len)
        end
  end.

Definition pbuf_copy (pb : gmap Z pbuf) (m : gmap Z Z) (p_to p_from : option Z)
    : res (Z * gmap Z Z) :=
  match p_from with
  | None => Ok (ERR_ARG, m)
  | Some _ => '(_, hf) ← deref pb p_from; pbuf_copy_partial_pbuf pb m p_to p_from (p_tot_len hf) 0
  end.

(** ** Headers *)

(** 0 on success; the data of the packet grows towards its front. *)
Definition pbuf_add_header_impl (pb : gmap Z pbuf) (p : option Z) (header_size_increment : Z)
    (force : bool) : res (Z * gmap Z pbuf) :=
  match p with
  | None => Fault Aborted
  | Some a =>
      if 0xFFFF <? header_size_increment then Ok (1, pb)
      else if header_size_increment =? 0 then Ok (0, pb)
      else
        h ← oget BadPointer (pb !! a);
        let increment_magnitude := u16 header_size_increment in
        if u16 (increment_magnitude + p_tot_len h) <? increment_magnitude then Ok (1, pb)
        else
          let payload := p_payload h - header_size_increment in
          let contiguous :=
            negb (Z.land (p_type_internal h) PBUF_TYPE_FLAG_STRUCT_DATA_CONTIGUOUS =? 0) in
          if (if contiguous then payload <? a + SIZEOF_STRUCT_PBUF else negb force) then Ok (1, pb)
          else Ok (0, <[a := set_p_view payload (u16 (p_tot_len h + increment_magnitude))
                               (u16 (p_len h + increment_magnitude)) h]> pb)
  end.

Definition pbuf_add_header (pb : gmap Z pbuf) (p : option Z) (inc : Z) : res (Z * gmap Z pbuf) :=
  pbuf_add_header_impl pb p inc false.
Definition pbuf_add_header_force (pb : gmap Z pbuf) (p : option Z) (inc : Z)
    : res (Z * gmap Z pbuf) :=
  pbuf_add_header_impl pb p inc true.

Definition pbuf_remove_header (pb : gmap Z pbuf) (p : option Z) (header_size_decrement : Z)
    : res (Z * gmap Z pbuf) :=
  match p with
  | None => Fault Aborted
  | Some a =>
      if 0xFFFF <? header_size_decrement then Ok (1, pb)
      else if header_size_decrement =? 0 then Ok (0, pb)
      else
        h ← oget BadPointer (pb !! a);
        let increment_magnitude := u16 header_size_decrement in
        if p_len h <? increment_magnitude then Ok (1, pb)
        else Ok (0, <[a := set_p_view (p_payload h + header_size_decrement)
                             (u16 (p_tot_len h - increment_magnitude))
                             (u16 (p_len h - increment_magnitude)) h]> pb)
  end.

Definition pbuf_header_impl (pb : gmap Z pbuf) (p : option Z) (header_size_increment : Z)
    (force : bool) : res (Z * gmap Z pbuf) :=
  if header_size_increment <? 0
  then pbuf_remove_header pb p (usize (- header_size_increment))
  else pbuf_add_header_impl pb p (usize header_size_increment) force.

Definition pbuf_header (pb : gmap Z pbuf) (p : option Z) (inc : Z) : res (Z * gmap Z pbuf) :=
  pbuf_header_impl pb p inc false.
Definition pbuf_header_force (pb : gmap Z pbuf) (p : option Z) (inc : Z) : res (Z * gmap Z pbuf) :=
  pbuf_header_impl pb p inc true.

End copy.

(** ** Linking *)

(** The count has eight bits. *)
Definition pbuf_ref (pb : gmap Z pbuf) (p : option Z) : res (gmap Z pbuf) :=
  match p with
  | None => Ok pb
  | Some a =>
      h ← oget BadPointer (pb !! a);
      let r := u8 (p_ref h + 1) in
      _ ← lwip_assert (0 <? r);
      Ok (<[a := set_p_ref r h]> pb)
  end.

Fixpoint cat_loop (fuel : nat) (pb : gmap Z pbuf) (p t : Z) : res (gmap Z pbuf) :=
  match fuel with
  | O => Fault OutOfFuel
  | S fuel =>
      h ← oget BadPointer (pb !! p);
      ht ← oget BadPointer (pb !! t);
      let h' := set_p_tot (u16 (p_tot_len h + p_tot_len ht)) h in
      match p_next h with
      | Some n => cat_loop fuel (<[p := h']> pb) n t
      | None =>
          _ ← lwip_assert (p_tot_len h =? p_len h);
          Ok (<[p := set_p_next (Some t) h']> pb)
      end
  end.

Definition pbuf_cat (pb : gmap Z pbuf) (h t : option Z) : res (gmap Z pbuf) :=
  match h, t with
  | Some h, Some t => _ ← lwip_assert (negb (h =? t)); cat_loop (chain_fuel pb) pb h t
  | _, _ => Ok pb
  end.

Definition pbuf_chain (pb : gmap Z pbuf) (h t : option Z) : res (gmap Z pbuf) :=
  pb ← pbuf_cat pb h t; pbuf_ref pb t.
