(* ===== verification/PbufPacket.v ===== *)
(** * What the operations on packet buffers do to the packet

    A chain of buffers stands for the bytes of one packet ([packet]); reading and
    searching are operations on these bytes, writing replaces a part of them, and
    adding or removing a header, chaining and copying are what their names say. *)

From S2P Require Import Prelude Memp SysArch Pbuf.

(** ** Memory *)

Lemma mread_Ok m n : ∀ a l,
  mread m a n = Ok l ↔
  length l = n ∧ ∀ i, (i < n)%nat → m !! (a + Z.of_nat i) = l !! i.
Proof.
  induction n as [|n IH]; intros a l; cbn [mread].
  - split; [intros [= <-]; split; [done|lia]|]. intros [Hl _]. by destruct l.
  - split.
    + destruct (m !! a) as [b|] eqn:Ea; cbn [oget mbind res_bind]; [|done].
      destruct (mread m (a + 1) n) as [l1|] eqn:E; cbn [mbind res_bind]; [|done].
      intros [= <-]. apply IH in E as [Hl Hm]. split; [simpl; lia|]. intros [|i] Hi.
      * by rewrite Z.add_0_r.
      * simpl. rewrite <- Hm by lia. f_equal. lia.
    + intros [Hl Hm]. destruct l as [|b l]; [done|]. injection Hl as Hl.
      pose proof (Hm 0%nat ltac:(lia)) as H0. rewrite Z.add_0_r in H0. simpl in H0.
      rewrite H0. cbn [oget mbind res_bind].
      rewrite (proj2 (IH (a + 1) l)); [done|]. split; [done|]. intros i Hi.
      specialize (Hm (S i) ltac:(lia)). simpl in Hm. rewrite <- Hm. f_equal. lia.
Qed.

(** What a write leaves at an address. *)
Definition overwritten (m : gmap Z Z) (a : Z) (bs : list Z) (x : Z) : option Z :=
  if bool_decide (a <= x < a + Z.of_nat (length bs)) then bs !! Z.to_nat (x - a) else m !! x.

Lemma mwrite_Ok bs : ∀ m a,
  (∀ i, (i < length bs)%nat → is_Some (m !! (a + Z.of_nat i))) →
  ∃ m', mwrite m a bs = Ok m' ∧ ∀ x, m' !! x = overwritten m a bs x.
Proof.
  induction bs as [|b bs IH]; intros m a Hm; cbn [mwrite].
  - exists m. split; [done|]. intros x. unfold overwritten. rewrite bool_decide_false; [done|].
    simpl. lia.
  - destruct (Hm 0%nat) as [v Hv]; [simpl; lia|]. rewrite Z.add_0_r in Hv. rewrite Hv.
    cbn [oget mbind res_bind]. destruct (IH (<[a := b]> m) (a + 1)) as (m' & -> & Hm').
    { intros i Hi. rewrite lookup_insert_ne by lia. destruct (Hm (S i)) as [w Hw]; [simpl; lia|].
      exists w. rewrite <- Hw. f_equal. lia. }
    exists m'. split; [done|]. intros x. rewrite Hm'. unfold overwritten. cbn [length].
    destruct (decide (x = a)) as [->|Hne].
    + rewrite bool_decide_false, lookup_insert_eq by lia. rewrite bool_decide_true by lia.
      by rewrite Z.sub_diag.
    + rewrite lookup_insert_ne by done.
      destruct (decide (a + 1 <= x < a + 1 + Z.of_nat (length bs))) as [Hx|Hx].
      * rewrite !bool_decide_true by lia.
        replace (Z.to_nat (x - a)) with (S (Z.to_nat (x - (a + 1)))) by lia. done.
      * by rewrite !bool_decide_false by lia.
Qed.

Lemma mread_sub m a n l i k :
  mread m a n = Ok l → (i + k <= n)%nat →
  mread m (a + Z.of_nat i) k = Ok (take k (drop i l)).
Proof.
  intros [Hl Hm]%mread_Ok Hik. apply mread_Ok. rewrite length_take, length_drop. split; [lia|].
  intros j Hj. rewrite lookup_take_lt, lookup_drop by lia. rewrite <- Hm by lia. f_equal. lia.
Qed.

(** A write changes the bytes it covers, and no others. *)
Lemma mread_write m a n l off d :
  mread m a n = Ok l → (off + length d <= n)%nat →
  ∃ m', mwrite m (a + Z.of_nat off) d = Ok m' ∧
    mread m' a n = Ok (take off l ++ d ++ drop (off + length d) l) ∧
    (∀ x, m' !! x = overwritten m (a + Z.of_nat off) d x).
Proof.
  intros [Hl Hm]%mread_Ok Hd.
  destruct (mwrite_Ok d m (a + Z.of_nat off)) as (m' & E & Hm').
  { intros i Hi. rewrite <- Z.add_assoc, <- Nat2Z.inj_add, Hm by lia. apply lookup_lt_is_Some. lia. }
  exists m'. split; [done|]. split; [|done]. apply mread_Ok.
  rewrite !length_app, length_take, length_drop. split; [lia|]. intros i Hi.
  rewrite Hm'. unfold overwritten.
  destruct (decide (i < off)%nat) as [Hlo|Hlo].
  - rewrite bool_decide_false by lia. rewrite lookup_app_l by (rewrite length_take; lia).
    rewrite lookup_take_lt by done. by apply Hm.
  - rewrite lookup_app_r by (rewrite length_take; lia). rewrite length_take, Nat.min_l by lia.
    destruct (decide (i < off + length d)%nat) as [Hmid|Hmid].
    + rewrite bool_decide_true by lia. rewrite lookup_app_l by lia. f_equal. lia.
    + rewrite bool_decide_false by lia. rewrite lookup_app_r by lia. rewrite lookup_drop.
      rewrite Hm by lia. f_equal. lia.
Qed.

Lemma mread_frame m m' a n l b d :
  mread m a n = Ok l → (∀ x, m' !! x = overwritten m b d x) →
  a + Z.of_nat n <= b ∨ b + Z.of_nat (length d) <= a →
  mread m' a n = Ok l.
Proof.
  intros [Hl Hm]%mread_Ok Hm' Hd. apply mread_Ok. split; [done|]. intros i Hi. rewrite Hm'.
  unfold overwritten. rewrite bool_decide_false by lia. by apply Hm.
Qed.

(** ** Packets *)

(** A buffer with its address and its part of the data. *)
Record node : Type := Node { n_addr : Z; n_hdr : pbuf; n_data : list Z }.

Definition content (l : list node) : list Z := concat (n_data <$> l).

(** The chain from [p] on: the links lead from node to node, each has the length of
    its data, the data is in memory, and [tot_len] counts what is left of the
    packet. *)
Inductive packet (pb : gmap Z pbuf) (m : gmap Z Z) : option Z → list node → Prop :=
  | packet_nil : packet pb m None []
  | packet_cons a h s l :
      pb !! a = Some h → p_len h = Z.of_nat (length s) → mread m (p_payload h) (length s) = Ok s →
      Forall is_byte s → p_tot_len h = Z.of_nat (length (s ++ content l)) →
      p_tot_len h < 2 ^ 16 → packet pb m (p_next h) l →
      packet pb m (Some a) (Node a h s :: l).

Lemma content_cons n l : content (n :: l) = n_data n ++ content l.
Proof. done. Qed.

Lemma content_app l1 l2 : content (l1 ++ l2) = content l1 ++ content l2.
Proof. unfold content. by rewrite fmap_app, concat_app. Qed.

Lemma packet_det pb m p l1 l2 : packet pb m p l1 → packet pb m p l2 → l1 = l2.
Proof.
  intros H1. revert l2. induction H1 as [|a h s l Ha Hl Hr Hb Ht Ht' Hp IH]; intros l2 H2.
  - by inversion H2.
  - inversion H2 as [|a' h' s' l' Ha' Hl' Hr' Hb' Ht1 Ht1' Hp']; subst.
    assert (h' = h) as -> by congruence. f_equal; [|by apply IH].
    f_equal. rewrite Hl in Hl'. apply Nat2Z.inj in Hl'. rewrite <- Hl' in Hr'. congruence.
Qed.

Lemma packet_suffix pb m p l1 n l2 :
  packet pb m p (l1 ++ n :: l2) → packet pb m (Some (n_addr n)) (n :: l2).
Proof.
  revert p. induction l1 as [|n1 l1 IH]; intros p Hp; inversion Hp; subst; [|by eapply IH].
  by econstructor.
Qed.

(** No buffer is met twice, so that the bound of the loops is enough. *)
Lemma packet_NoDup pb m p l : packet pb m p l → NoDup (n_addr <$> l).
Proof.
  induction 1 as [|a h s l Ha Hl Hr Hb Ht Ht' Hp IH]; [constructor|].
  cbn [fmap list_fmap n_addr]. constructor; [|done].
  intros ([a' h' s'] & E & Hin)%list_elem_of_fmap. cbn [n_addr] in E. subst a'.
  apply list_elem_of_split in Hin as (l1 & l2 & ->).
  pose proof (packet_suffix _ _ _ _ _ _ Hp) as Hs. cbn [n_addr] in Hs.
  assert (packet pb m (Some a) (Node a h s :: l1 ++ Node a h' s' :: l2)) as Hf by by econstructor.
  pose proof (packet_det _ _ _ _ _ Hf Hs) as E. apply (f_equal length) in E.
  simpl in E. rewrite length_app in E. simpl in E. lia.
Qed.

Lemma packet_lookup pb m p l n : packet pb m p l → n ∈ l → pb !! n_addr n = Some (n_hdr n).
Proof.
  induction 1 as [|a h s l Ha Hl Hr Hb Ht Ht' Hp IH]; [set_solver|].
  intros [->|Hin]%elem_of_cons; [done|by apply IH].
Qed.

Lemma packet_fuel pb m p l : packet pb m p l → (length l < chain_fuel pb)%nat.
Proof.
  intros Hp. unfold chain_fuel. pose proof (packet_NoDup _ _ _ _ Hp) as Hnd.
  assert (list_to_set (n_addr <$> l) ⊆ dom pb) as Hsub.
  { intros x (n & -> & Hn)%elem_of_list_to_set%list_elem_of_fmap. apply elem_of_dom.
    eexists. by eapply packet_lookup. }
  apply subseteq_size in Hsub. rewrite size_list_to_set, length_fmap in Hsub by done.
  rewrite size_dom in Hsub. lia.
Qed.

Lemma packet_data_bytes pb m p l : packet pb m p l → Forall is_byte (content l).
Proof.
  induction 1; [constructor|]. rewrite content_cons. by apply Forall_app_2.
Qed.

Lemma packet_len pb m p l : packet pb m p l → Z.of_nat (length (content l)) < 2 ^ 16.
Proof. destruct 1 as [|a h s l]; [done|]. rewrite content_cons. cbn [n_data]. lia. Qed.

(** The head of a packet that is there. *)
Lemma packet_head pb m p l :
  packet pb m p l → l ≠ [] →
  ∃ a h, p = Some a ∧ pb !! a = Some h ∧ p_tot_len h = Z.of_nat (length (content l)) ∧
    deref pb p = Ok (a, h).
Proof.
  destruct 1 as [|a h s l Ha]; [done|]. intros _. exists a, h. repeat (split; [done|]).
  cbn [deref]. by rewrite Ha.
Qed.

Ltac packet_inv H :=
  let a := fresh "a" in let h := fresh "h" in let s := fresh "s" in let l := fresh "l" in
  inversion H as [|a h s l Ha Hlen Hread Hbytes Htot Hmax Hrest]; subst.

(** ** Skipping *)

(** Where the byte at [off] is: the nodes before, the one that holds it, its
    position there. *)
Lemma skip_loop_spec pb m fuel : ∀ p l off,
  packet pb m p l → (length l < fuel)%nat → 0 <= off < 2 ^ 16 →
  (off < Z.of_nat (length (content l)) →
   ∃ l1 n l2, l = l1 ++ n :: l2 ∧ Z.of_nat (length (content l1)) <= off ∧
     off < Z.of_nat (length (content l1) + length (n_data n)) ∧
     skip_loop fuel pb p off = Ok (Some (n_addr n), off - Z.of_nat (length (content l1)))) ∧
  (Z.of_nat (length (content l)) <= off →
   skip_loop fuel pb p off = Ok (None, off - Z.of_nat (length (content l)))).
Proof.
  induction fuel as [|fuel IH]; intros p l off Hp Hf Ho; [lia|].
  packet_inv Hp; [split; [simpl; lia|]; intros _; cbn; do 2 f_equal; lia|].
  cbn [skip_loop]. rewrite Ha. cbn [oget mbind res_bind]. rewrite content_cons. cbn [n_data].
  rewrite length_app. destruct (Z.leb_spec (p_len h) off) as [Hle|Hgt].
  - rewrite (wrapu_small 16) by lia.
    destruct (IH (p_next h) l0 (off - p_len h) Hrest) as [IH1 IH2]; [simpl in Hf; lia|lia|].
    split; intros Hlt.
    + destruct IH1 as (l1 & n & l2 & -> & H1 & H2 & E); [lia|].
      exists (Node a h s :: l1), n, l2. rewrite content_cons, length_app. cbn [n_data].
      split; [done|]. split; [lia|]. split; [lia|]. rewrite E. do 2 f_equal. lia.
    + rewrite IH2 by lia. do 2 f_equal. lia.
  - split; intros Hlt; [|lia]. exists [], (Node a h s), l0. cbn [app content fmap list_fmap concat length n_data n_addr].
    split; [done|]. split; [lia|]. split; [lia|]. by rewrite Z.sub_0_r.
Qed.

(** The data of one of the buffers. *)
Lemma packet_node pb m p l1 n l2 :
  packet pb m p (l1 ++ n :: l2) →
  pb !! n_addr n = Some (n_hdr n) ∧ p_len (n_hdr n) = Z.of_nat (length (n_data n)) ∧
  mread m (p_payload (n_hdr n)) (length (n_data n)) = Ok (n_data n) ∧
  Forall is_byte (n_data n) ∧
  p_tot_len (n_hdr n) = Z.of_nat (length (n_data n ++ content l2)) ∧
  packet pb m (p_next (n_hdr n)) l2.
Proof.
  intros Hp%packet_suffix. inversion Hp; subst. cbn [n_addr n_hdr n_data]. done.
Qed.

Lemma mread_byte m a n l i : mread m a n = Ok l → (i < n)%nat → m !! (a + Z.of_nat i) = l !! i.
Proof. intros [_ Hm]%mread_Ok. apply Hm. Qed.

(** ** Single bytes *)

Lemma pbuf_try_get_at_spec pb m p l off :
  packet pb m p l → 0 <= off < 2 ^ 16 →
  pbuf_try_get_at pb m p off = Ok (default (-1) (content l !! Z.to_nat off)).
Proof.
  intros Hp Ho. destruct (skip_loop_spec pb m (chain_fuel pb) p l off Hp) as [H1 H2];
    [by eapply packet_fuel|done|]. unfold pbuf_try_get_at, pbuf_skip_const.
  destruct (decide (off < Z.of_nat (length (content l)))) as [Hlt|Hge].
  - destruct (H1 Hlt) as (l1 & n & l2 & -> & Ha & Hb & ->). cbn [mbind res_bind].
    destruct (packet_node _ _ _ _ _ _ Hp) as (Hn & Hlen & Hr & Hby & _). rewrite Hn.
    cbn [oget mbind res_bind]. rewrite Hlen, (proj2 (Z.ltb_lt _ _)) by lia.
    replace (off - Z.of_nat (length (content l1)))
      with (Z.of_nat (Z.to_nat off - length (content l1))) by lia.
    rewrite (mread_byte _ _ _ _ _ Hr) by lia.
    rewrite content_app, content_cons, lookup_app_r, lookup_app_l by lia.
    destruct (n_data n !! _) eqn:E; [done|]. apply lookup_ge_None_1 in E. lia.
  - rewrite H2 by lia. cbn. by rewrite lookup_ge_None_2 by lia.
Qed.

Lemma pbuf_get_at_spec pb m p l off :
  packet pb m p l → 0 <= off < 2 ^ 16 →
  pbuf_get_at pb m p off = Ok (default 0 (content l !! Z.to_nat off)).
Proof.
  intros Hp Ho. unfold pbuf_get_at. rewrite (pbuf_try_get_at_spec _ _ _ _ _ Hp Ho).
  cbn [mbind res_bind]. destruct (content l !! Z.to_nat off) as [b|] eqn:E; [|done]. cbn [default].
  apply packet_data_bytes in Hp. eapply (Forall_lookup_1 _ _ _ _ Hp) in E. unfold is_byte in E.
  cbn. destruct (Z.leb_spec 0 b); [|lia]. by rewrite (wrapu_small 8).
Qed.

(** ** Comparing and searching *)

(** The position of the first difference. *)
Fixpoint first_diff (l1 l2 : list Z) : option nat :=
  match l1, l2 with
  | a :: l1, b :: l2 => if a =? b then S <$> first_diff l1 l2 else Some 0%nat
  | _, _ => None
  end.

Lemma first_diff_None l1 : ∀ l2, length l1 = length l2 → first_diff l1 l2 = None ↔ l1 = l2.
Proof.
  induction l1 as [|a l1 IH]; intros [|b l2] Hl; simpl in *; try done.
  destruct (Z.eqb_spec a b) as [->|Hne]; [|split; congruence].
  rewrite fmap_None, IH by lia. split; congruence.
Qed.

Definition cmp_result (i : Z) (d : option nat) : Z :=
  match d with None => 0 | Some d => Z.min (i + Z.of_nat d + 1) 0xFFFF end.

Lemma memcmp_loop_spec pb m q l s2 k : ∀ start i,
  packet pb m q l → 0 <= start → 0 <= i →
  start + i + Z.of_nat k <= Z.of_nat (length (content l)) →
  i + Z.of_nat k <= Z.of_nat (length s2) →
  memcmp_loop k pb m q start i s2 =
  Ok (cmp_result i (first_diff (take k (drop (Z.to_nat (start + i)) (content l)))
                               (take k (drop (Z.to_nat i) s2)))).
Proof.
  induction k as [|k IH]; intros start i Hp Hs Hi Hc Hs2; [done|].
  pose proof (packet_len _ _ _ _ Hp) as Hmax. cbn [memcmp_loop].
  rewrite (wrapu_small 16), (pbuf_get_at_spec _ _ _ _ _ Hp) by lia. cbn [mbind res_bind].
  destruct (lookup_lt_is_Some_2 (content l) (Z.to_nat (start + i))) as [a Ha]; [lia|].
  destruct (lookup_lt_is_Some_2 s2 (Z.to_nat i)) as [b Hb]; [lia|].
  rewrite Ha, Hb. cbn [default from_option id oget mbind res_bind].
  rewrite (drop_S _ _ _ Ha), (drop_S _ _ _ Hb). cbn [take first_diff].
  destruct (Z.eqb_spec a b) as [->|Hne]; cbn [negb].
  - rewrite IH by (done || lia).
    replace (S (Z.to_nat (start + i))) with (Z.to_nat (start + (i + 1))) by lia.
    replace (S (Z.to_nat i)) with (Z.to_nat (i + 1)) by lia.
    destruct (first_diff _ _); cbn [cmp_result fmap option_fmap option_map]; do 2 f_equal; lia.
  - cbn [cmp_result]. do 2 f_equal. lia.
Qed.

(** The bytes [off, off + n) of the packet. *)
Definition part (off n : Z) (c : list Z) : list Z := take (Z.to_nat n) (drop (Z.to_nat off) c).

Lemma pbuf_memcmp_spec pb m p l off s2 n :
  packet pb m p l → l ≠ [] → 0 <= off < 2 ^ 16 → 0 <= n < 2 ^ 16 →
  n <= Z.of_nat (length s2) →
  pbuf_memcmp pb m p off s2 n =
  Ok (if Z.of_nat (length (content l)) <? off + n then 0xffff
      else cmp_result 0 (first_diff (part off n (content l)) (take (Z.to_nat n) s2))).
Proof.
  intros Hp Hne Ho Hn Hs. unfold pbuf_memcmp.
  destruct (packet_head _ _ _ _ Hp Hne) as (a & h & _ & _ & Ht & ->). cbn [mbind res_bind].
  rewrite Ht. destruct (Z.ltb_spec (Z.of_nat (length (content l))) (off + n)) as [Hlt|Hge]; [done|].
  destruct (skip_loop_spec pb m (chain_fuel pb) p l off Hp) as [H1 H2];
    [by eapply packet_fuel|done|].
  destruct (decide (off < Z.of_nat (length (content l)))) as [Hin|Hout].
  - destruct (H1 Hin) as (l1 & nd & l2 & -> & Ha & Hb & ->). cbn [mbind res_bind].
    rewrite content_app, length_app in Hge.
    rewrite (memcmp_loop_spec _ _ _ (nd :: l2) s2); [|by eapply packet_suffix|lia..].
    do 3 f_equal. unfold part. rewrite content_app, drop_app_ge by lia. f_equal. f_equal. lia.
  - rewrite H2 by lia. cbn [mbind res_bind]. replace n with 0 by lia. by rewrite !take_0.
Qed.

Lemma memcmp_zero pb m p l off s2 n :
  packet pb m p l → l ≠ [] → 0 <= off < 2 ^ 16 → 0 <= n < 2 ^ 16 →
  n <= Z.of_nat (length s2) → off + n <= Z.of_nat (length (content l)) →
  ∃ r, pbuf_memcmp pb m p off s2 n = Ok r ∧
    (r = 0 ↔ part off n (content l) = take (Z.to_nat n) s2).
Proof.
  intros Hp Hne Ho Hn Hs Hin. eexists. split; [by apply pbuf_memcmp_spec|].
  rewrite (proj2 (Z.ltb_ge _ _)) by lia.
  rewrite <- first_diff_None by (unfold part; rewrite !length_take, length_drop; lia).
  destruct (first_diff _ _); cbn [cmp_result]; split; intros; congruence || lia.
Qed.

Definition occurs (c s : list Z) (i : Z) : Prop := part i (Z.of_nat (length s)) c = s.

Section find.
Context (pb : gmap Z pbuf) (m : gmap Z Z) (p : option Z) (l : list node) (mem : list Z) (n : Z).
Hypothesis Hp : packet pb m p l.
Hypothesis Hne : l ≠ [].
Hypothesis Hn : 0 <= n < 2 ^ 16.
Hypothesis Hmem : n <= Z.of_nat (length mem).

Let s := take (Z.to_nat n) mem.
Let total := Z.of_nat (length (content l)).

Lemma occurs_part i : occurs (content l) s i ↔ part i n (content l) = s.
Proof using Hn Hmem.
  unfold occurs. subst s. rewrite length_take. replace (Z.of_nat (_ `min` _)) with n by lia. done.
Qed.

Lemma memfind_loop_spec fuel : ∀ i,
  0 <= i < 2 ^ 16 → n + i <= total + 1 → total + 1 - n - i < Z.of_nat fuel →
  ∃ r, memfind_loop fuel pb m p mem n (total - n) i = Ok r ∧
    ((i <= r <= total - n ∧ occurs (content l) s r ∧
        ∀ j, i <= j < r → ¬ occurs (content l) s j) ∨
     (r = 0xFFFF ∧ ∀ j, i <= j <= total - n → ¬ occurs (content l) s j)).
Proof using Hn Hmem Hp Hne.
  induction fuel as [|fuel IH]; intros i Hi Hb Hf; [lia|]. cbn [memfind_loop].
  destruct (Z.leb_spec i (total - n)) as [Hle|Hgt].
  - destruct (memcmp_zero pb m p l i mem n Hp Hne Hi Hn Hmem) as (r & -> & Hr); [subst total; lia|].
    fold s in Hr. rewrite <- occurs_part in Hr. cbn [mbind res_bind].
    destruct (Z.eqb_spec r 0) as [E|Hd].
    + exists i. split; [done|]. left. split; [lia|]. split; [tauto|]. lia.
    + assert (0 < n).
      { destruct (decide (n = 0)) as [E0|]; [|lia]. exfalso. apply Hd, Hr. subst s.
        unfold occurs. rewrite E0. done. }
      pose proof (packet_len _ _ _ _ Hp). rewrite (wrapu_small 16) by (subst total; lia).
      destruct (IH (i + 1)) as (r' & E' & Hcase); [subst total; lia|lia|lia|].
      exists r'. split; [done|].
      assert (∀ j, i <= j → ¬ (i + 1 <= j) → ¬ occurs (content l) s j) as Hlast.
      { intros j H1 H2. replace j with i by lia. tauto. }
      destruct Hcase as [(H1 & H2 & H3)|(H1 & H2)]; [left|right].
      * split; [lia|]. split; [done|]. intros j Hj.
        destruct (decide (i + 1 <= j)); [by apply H3; lia|apply Hlast; lia].
      * split; [done|]. intros j Hj.
        destruct (decide (i + 1 <= j)); [by apply H2; lia|apply Hlast; lia].
  - exists 0xFFFF. split; [done|]. right. split; [done|]. lia.
Qed.

Lemma pbuf_memfind_spec start :
  0 <= start < 2 ^ 16 →
  ∃ r, pbuf_memfind pb m p mem n start = Ok r ∧
    ((start <= r <= total - n ∧ occurs (content l) s r ∧
        ∀ j, start <= j < r → ¬ occurs (content l) s j) ∨
     (r = 0xFFFF ∧ ∀ j, start <= j <= total - n → ¬ occurs (content l) s j)).
Proof using Hn Hmem Hp Hne.
  intros Hs. unfold pbuf_memfind.
  destruct (packet_head _ _ _ _ Hp Hne) as (a & h & _ & _ & Ht & ->). cbn [mbind res_bind].
  pose proof (packet_len _ _ _ _ Hp) as Hmax. rewrite Ht. fold total.
  destruct (Z.leb_spec (n + start) total) as [Hle|Hgt].
  - rewrite (wrapu_small 16) by (subst total; lia).
    apply memfind_loop_spec; [done|lia|]. unfold MEMFIND_FUEL. subst total. lia.
  - eexists. split; [done|]. right. split; [done|]. lia.
Qed.

End find.

(** ** Copying out *)

Lemma copy_partial_loop_spec pb m fuel : ∀ p l pre rest len off,
  packet pb m p l → (length l < fuel)%nat → 0 <= len → 0 <= off < 2 ^ 16 →
  Z.of_nat (length pre) + len < 2 ^ 16 →
  (length (part off len (content l)) <= length rest)%nat →
  copy_partial_loop fuel pb m p (pre ++ rest) (Z.of_nat (length pre)) (Z.of_nat (length pre)) len off
  = Ok (Z.of_nat (length (pre ++ part off len (content l))),
        (pre ++ part off len (content l)) ++ drop (length (part off len (content l))) rest).
Proof.
  induction fuel as [|fuel IH]; intros p l pre rest len off Hp Hf Hln Ho Hmax16 Hr; [lia|].
  cbn [copy_partial_loop]. destruct (Z.eqb_spec len 0) as [->|Hln0].
  { unfold part. rewrite take_0. by rewrite app_nil_r, drop_0. }
  packet_inv Hp.
  { change (content []) with (@nil Z). unfold part. rewrite drop_nil, take_nil.
    by rewrite app_nil_r, drop_0. }
  rewrite Ha. cbn [oget mbind res_bind]. rewrite content_cons in Hr |- *. cbn [n_data] in Hr |- *.
  assert (Z.of_nat (length s) < 2 ^ 16) as Hs16 by (rewrite length_app in Htot; lia).
  destruct (decide (off ≠ 0 ∧ p_len h <= off)) as [[H0 Hle]|Hin].
  - rewrite (proj2 (Z.eqb_neq _ _) H0), (proj2 (Z.leb_le _ _) Hle). cbn [negb andb].
    rewrite (wrapu_small 16) by lia.
    assert (part off len (s ++ content l0) = part (off - p_len h) len (content l0)) as E.
    { unfold part. rewrite drop_app_ge by lia. do 2 f_equal. lia. }
    rewrite E in Hr |- *. apply IH; [done|simpl in Hf; lia|lia..|done].
  - assert (negb (off =? 0) && (p_len h <=? off) = false) as ->.
    { destruct (Z.eqb_spec off 0); [done|]. cbn [negb andb]. apply Z.leb_gt. lia. }
    assert (off <= p_len h) as Hoff by lia. rewrite (wrapu_small 16 (p_len h - off)) by lia.
    assert (part off len (s ++ content l0) =
      part off len s ++ take (Z.to_nat len - length (drop (Z.to_nat off) s)) (content l0)) as E.
    { unfold part. rewrite drop_app_le, take_app by lia. done. }
    set (k := if len <? p_len h - off then len else p_len h - off).
    assert (0 <= k <= len) as Hk by (subst k; case_match; lia).
    assert (k <= p_len h - off) as Hk' by (subst k; case_match; lia).
    assert (part off len s = part off k s) as Ek.
    { unfold part. subst k. destruct (Z.ltb_spec len (p_len h - off)); [done|].
      rewrite !take_ge by (rewrite length_drop; lia). done. }
    assert (length (part off k s) = Z.to_nat k) as Lk.
    { unfold part. rewrite length_take, length_drop. lia. }
    assert (mread m (p_payload h + off) (Z.to_nat k) = Ok (part off k s)) as ->.
    { replace off with (Z.of_nat (Z.to_nat off)) at 1 by lia.
      eapply mread_sub; [exact Hread|lia]. }
    cbn [mbind res_bind]. rewrite E, Ek, length_app, Lk in Hr.
    rewrite (store_fill (Z.to_nat (Z.of_nat (length pre)))) by lia. cbn [mbind res_bind].
    rewrite !(wrapu_small 16) by lia.
    replace (Z.of_nat (length pre) + k) with (Z.of_nat (length (pre ++ part off k s)))
      by (rewrite length_app; lia).
    assert (part 0 (len - k) (content l0) =
      take (Z.to_nat len - length (drop (Z.to_nat off) s)) (content l0)) as E0.
    { unfold part. rewrite drop_0, length_drop. subst k.
      destruct (Z.ltb_spec len (p_len h - off)); f_equal; lia. }
    rewrite (IH _ l0); [|done|simpl in Hf; lia|lia|lia|rewrite length_app; lia|].
    + rewrite E0, E, Ek, !app_assoc. do 2 f_equal. f_equal.
      rewrite drop_drop, !length_app. f_equal.
    + rewrite E0, Lk, (length_drop rest). lia.
Qed.

Lemma pbuf_copy_partial_spec pb m p l dst len off :
  packet pb m p l → l ≠ [] → 0 <= len < 2 ^ 16 → 0 <= off < 2 ^ 16 →
  (length (part off len (content l)) <= length dst)%nat →
  let d := part off len (content l) in
  pbuf_copy_partial pb m p (Some dst) len off =
  Ok (Z.of_nat (length d), Some (d ++ drop (length d) dst)).
Proof.
  intros Hp Hne Hlen Ho Hd d. unfold pbuf_copy_partial.
  destruct (packet_head _ _ _ _ Hp Hne) as (a & h & -> & _).
  pose proof (copy_partial_loop_spec pb m (chain_fuel pb) (Some a) l [] dst len off Hp) as E.
  change (Z.of_nat (length [])) with 0 in E. cbn [app] in E. rewrite E; [done|by eapply packet_fuel|lia|lia|simpl; lia|done].
Qed.

(** ** Memory in one piece *)

(** The pointer leads to the bytes that were asked for; if there is none they do not
    exist, or do not lie in one piece and may not be copied. *)
Lemma pbuf_get_contiguous_spec pb m p l buffer bufsize len off :
  packet pb m p l → l ≠ [] → 0 <= len < 2 ^ 16 → 0 <= off < 2 ^ 16 →
  (∀ b, buffer = Some b → bufsize = Z.of_nat (length b)) →
  ∃ r, pbuf_get_contiguous pb m p buffer bufsize len off = Ok r ∧
    match r with
    | CInPlace a => off + len <= Z.of_nat (length (content l)) ∧
        mread m a (Z.to_nat len) = Ok (part off len (content l))
    | CCopied b => take (Z.to_nat len) b = part off len (content l) ∧
        off + len <= Z.of_nat (length (content l))
    | CNull => Z.of_nat (length (content l)) < off + len ∨ Z.of_nat (length (content l)) <= off ∨
        buffer = None ∨ bufsize < len
    end.
Proof.
  intros Hp Hne Hlen Ho Hb. unfold pbuf_get_contiguous.
  destruct (packet_head _ _ _ _ Hp Hne) as (a & h & -> & _). cbn [is_some negb].
  destruct (is_some buffer && (bufsize <? len)) eqn:Eb.
  { exists CNull. split; [done|]. apply andb_true_iff in Eb as [_ Eb]. lia. }
  destruct (skip_loop_spec pb m (chain_fuel pb) (Some a) l off Hp) as [H1 H2];
    [by eapply packet_fuel|done|]. unfold pbuf_skip_const.
  destruct (decide (off < Z.of_nat (length (content l)))) as [Hin|Hout].
  2: { rewrite H2 by lia. exists CNull. split; [done|]. lia. }
  destruct (H1 Hin) as (l1 & n & l2 & -> & Ha & Hbd & ->). cbn [mbind res_bind].
  destruct (packet_node _ _ _ _ _ _ Hp) as (Hn & Hl & Hr & _ & _ & _). rewrite Hn.
  cbn [oget mbind res_bind]. set (o := off - Z.of_nat (length (content l1))).
  assert (part off len (content (l1 ++ n :: l2)) = part o len (content (n :: l2))) as Epart.
  { unfold part. rewrite content_app, drop_app_ge by lia. do 2 f_equal. subst o. lia. }
  rewrite Epart, content_app, !length_app. rewrite content_cons, length_app.
  destruct (Z.leb_spec (o + len) (p_len (n_hdr n))) as [Hfit|Hno].
  - eexists. split; [done|]. cbn beta iota. split; [lia|].
    replace o with (Z.of_nat (Z.to_nat o)) at 1 by lia.
    unfold part. rewrite <- content_cons, content_cons, drop_app_le, take_app_le
      by (rewrite ?length_drop; lia). eapply mread_sub; [done|lia].
  - destruct buffer as [b|]; [|eexists; split; [done|]; cbn; tauto].
    cbn [is_some andb] in Eb. apply Z.ltb_ge in Eb. specialize (Hb b eq_refl).
    rewrite (pbuf_copy_partial_spec pb m _ (n :: l2)); [|by eapply packet_suffix|done|lia|lia|].
    2: { unfold part. rewrite length_take. lia. }
    cbn [mbind res_bind]. eexists. split; [done|].
    assert (length (part o len (content (n :: l2))) =
      (Z.to_nat len `min` (length (n_data n) + length (content l2) - Z.to_nat o))%nat) as Lp.
    { unfold part. rewrite length_take, length_drop, content_cons, length_app. done. }
    destruct (Z.eqb_spec (Z.of_nat (length (part o len (content (n :: l2))))) len) as [E|E].
    + split; [|lia]. rewrite content_cons in *. rewrite take_app_le, take_ge by lia. done.
    + lia.
Qed.

(** ** Examples

    Seven bytes in two buffers, and room for as many elsewhere. *)
Definition demo_pb : gmap Z pbuf :=
  {[100 := Pbuf (Some 200) 1000 7 4 PBUF_REF 0 1 0; 200 := Pbuf None 2001 3 3 PBUF_REF 0 1 0;
    300 := Pbuf None 3000 8 8 PBUF_REF 0 1 0]}.
Definition demo_m : gmap Z Z :=
  list_to_map ([(1000, 97); (1001, 98); (1002, 97); (1003, 98); (2001, 99); (2002, 100); (2003, 101)] ++
    ((λ i, (3000 + Z.of_nat i, 0)) <$> seq 0 8)).
Definition demo_l : list node :=
  [Node 100 (Pbuf (Some 200) 1000 7 4 PBUF_REF 0 1 0) [97; 98; 97; 98];
   Node 200 (Pbuf None 2001 3 3 PBUF_REF 0 1 0) [99; 100; 101]].

Ltac concrete_packet :=
  repeat first
    [ apply packet_nil
    | eapply packet_cons; [vm_compute; reflexivity..| | | |]
    | vm_compute; reflexivity
    | repeat constructor; unfold is_byte; lia ].

Lemma demo_packet : packet demo_pb demo_m (Some 100) demo_l.
Proof. concrete_packet. Qed.

(** Searching a string in a packet: however the packet is split
    into buffers, the result is the first position at which its bytes are those of
    the string, and 0xFFFF if there is none. *)
Theorem pbuf_strstr_finds pb m p l s rest :
  packet pb m p l → l ≠ [] → Z.of_nat (length (content l)) < 0xFFFF →
  no_nul s → s ≠ [] → Z.of_nat (length s) < 0xFFFF →
  ∃ r, pbuf_strstr pb m p (Some (s ++ 0 :: rest)) = Ok r ∧
    ((0 <= r < 0xFFFF ∧ occurs (content l) s r ∧ ∀ j, 0 <= j < r → ¬ occurs (content l) s j) ∨
     (r = 0xFFFF ∧ ∀ j, 0 <= j → ¬ occurs (content l) s j)).
Proof.
  intros Hp Hne Hmx Hs Hs0 Hlen. unfold pbuf_strstr. rewrite c_string_app by done.
  cbn [mbind res_bind]. rewrite bool_decide_false by done.
  destruct (packet_head _ _ _ _ Hp Hne) as (a & h & Ep & _ & Ht & ->). cbn [mbind res_bind].
  rewrite Ht, (proj2 (Z.eqb_neq _ _)), (proj2 (Z.leb_gt _ _)) by lia.
  rewrite (wrapu_small 16) by lia.
  destruct (pbuf_memfind_spec pb m p l (s ++ 0 :: rest) (Z.of_nat (length s)) Hp Hne)
    with (start := 0) as (r & E & Hcase); [lia|rewrite length_app; lia|lia|].
  rewrite Nat2Z.id, take_app_length in Hcase. exists r. split; [done|].
  assert (0 < length s)%nat by (destruct s; [done|simpl; lia]).
  destruct Hcase as [(H1 & H2 & H3)|(H1 & H2)]; [left|right].
  - split; [lia|done].
  - split; [done|]. intros j Hj.
    destruct (decide (j <= Z.of_nat (length (content l)) - Z.of_nat (length s))) as [Hle|Hgt];
      [by apply H2|].
    intros Hoc%(f_equal length). unfold part in Hoc. rewrite length_take, length_drop in Hoc. lia.
Qed.

(** "abc" across the two buffers. *)
Lemma pbuf_strstr_finds_witness :
  pbuf_strstr demo_pb demo_m (Some 100) (Some ([97; 98; 99] ++ 0 :: [7])) = Ok 2 ∧
  ∃ r, pbuf_strstr demo_pb demo_m (Some 100) (Some ([97; 98; 99] ++ 0 :: [7])) = Ok r ∧
    ((0 <= r < 0xFFFF ∧ occurs (content demo_l) [97; 98; 99] r ∧
        ∀ j, 0 <= j < r → ¬ occurs (content demo_l) [97; 98; 99] j) ∨
     (r = 0xFFFF ∧ ∀ j, 0 <= j → ¬ occurs (content demo_l) [97; 98; 99] j)).
Proof.
  split; [vm_compute; reflexivity|].
  apply pbuf_strstr_finds; [apply demo_packet|done|vm_compute; reflexivity|repeat constructor; lia|done|
    vm_compute; reflexivity].
Defined.
