(* ===== verification/PbufWrite.v ===== *)
(** * Writing into packets (lwip/core/pbuf.c)

    Writing needs that the buffers of a packet share no memory ([apart]); it then
    replaces a part of the bytes of the packet and touches nothing else. *)

From S2P Require Import Prelude Memp SysArch Pbuf PbufPacket.

(** ** Buffers apart from each other *)

Definition in_range (h : pbuf) (x : Z) : Prop := p_payload h <= x < p_payload h + p_len h.

Definition range_apart (h1 h2 : pbuf) : Prop := ∀ x, in_range h1 x → in_range h2 x → False.

Fixpoint apart (l : list node) : Prop :=
  match l with
  | [] => True
  | n :: l => Forall (λ n', range_apart (n_hdr n) (n_hdr n')) l ∧ apart l
  end.

(** Outside the data of these buffers nothing has changed. *)
Definition untouched (l : list node) (m m' : gmap Z Z) : Prop :=
  ∀ x, (∀ n, n ∈ l → ¬ in_range (n_hdr n) x) → m' !! x = m !! x.

Definition shape (l : list node) : list (Z * pbuf) := (λ n, (n_addr n, n_hdr n)) <$> l.

Lemma apart_app l1 l2 :
  apart (l1 ++ l2) ↔
  apart l1 ∧ apart l2 ∧ ∀ n1 n2, n1 ∈ l1 → n2 ∈ l2 → range_apart (n_hdr n1) (n_hdr n2).
Proof.
  induction l1 as [|n l1 IH]; cbn [app apart].
  - split; [|naive_solver]. intros H. split; [done|]. split; [done|]. set_solver.
  - rewrite IH, Forall_app, !Forall_forall. split.
    + intros [[H1 H2] (H3 & H4 & H5)]. split; [done|]. split; [done|].
      intros n1 n2 [->|Hn1]%elem_of_cons Hn2; [by apply H2|by apply H5].
    + intros [[H1 H2] (H3 & H4)]. repeat split; try done.
      * intros x Hx. apply H4; [by left|done].
      * intros n1 n2 Hn1 Hn2. apply H4; [by right|done].
Qed.

Lemma apart_shape l1 : ∀ l2, shape l1 = shape l2 → apart l1 → apart l2.
Proof.
  induction l1 as [|n l1 IH]; intros [|n2 l2] E; try done. injection E as Ea Eh E.
  cbn [apart]. rewrite !Forall_forall. intros [H1 H2]. split; [|by eapply IH].
  intros x Hx. rewrite <- Eh. assert (n_hdr x ∈ snd <$> shape l2) as Hin.
  { apply list_elem_of_fmap. exists (n_addr x, n_hdr x). split; [done|].
    unfold shape. apply list_elem_of_fmap. by exists x. }
  unfold shape in E. fold (shape l1) (shape l2) in E. rewrite <- E in Hin.
  apply list_elem_of_fmap in Hin as ([b h] & -> & Hin).
  apply list_elem_of_fmap in Hin as (n' & [= -> ->] & Hn'). by apply H1.
Qed.

Lemma mread_agree m m' a n l :
  mread m a n = Ok l → (∀ x, a <= x < a + Z.of_nat n → m' !! x = m !! x) → mread m' a n = Ok l.
Proof.
  intros [Hl Hm]%mread_Ok H. apply mread_Ok. split; [done|]. intros i Hi.
  rewrite H by lia. by apply Hm.
Qed.

Lemma packet_agree pb m m' p l :
  packet pb m p l → (∀ n x, n ∈ l → in_range (n_hdr n) x → m' !! x = m !! x) → packet pb m' p l.
Proof.
  induction 1 as [|a h s l Ha Hl Hr Hb Ht Ht' Hp IH]; intros Hag; [constructor|].
  econstructor; try done.
  - eapply mread_agree; [done|]. intros x Hx. apply (Hag (Node a h s)); [by left|].
    unfold in_range. cbn [n_hdr]. lia.
  - apply IH. intros n x Hn. apply Hag. by right.
Qed.

(** The end of a chain can be exchanged for one with as much data. *)
Lemma packet_exchange pb m p l1 l2 :
  packet pb m p (l1 ++ l2) →
  ∃ q, packet pb m q l2 ∧
    ∀ m' l2', (∀ n x, n ∈ l1 → in_range (n_hdr n) x → m' !! x = m !! x) →
      packet pb m' q l2' → length (content l2') = length (content l2) →
      packet pb m' p (l1 ++ l2').
Proof.
  revert p. induction l1 as [|n l1 IH]; intros p Hp.
  - exists p. split; [done|]. by intros.
  - packet_inv Hp. destruct (IH (p_next h) Hrest) as (q & Hq & Hx). exists q. split; [done|].
    intros m' l2' Hag Hq' El. cbn [app]. econstructor; try done.
    + eapply mread_agree; [done|]. intros x Hxr. apply (Hag (Node a h s)); [by left|].
      unfold in_range. cbn [n_hdr]. lia.
    + rewrite Htot, !content_app, !length_app. lia.
    + apply Hx; [|done..]. intros n x Hn. apply Hag. by right.
Qed.

Lemma length_splice (s : list Z) off d :
  (off + length d <= length s)%nat → length (take off s ++ d ++ drop (off + length d) s) = length s.
Proof. intros. rewrite !length_app, length_take, length_drop. lia. Qed.

(** Writing into one of the buffers. *)
Lemma packet_write pb m p l1 n l2 off d :
  packet pb m p (l1 ++ n :: l2) → apart (l1 ++ n :: l2) → Forall is_byte d →
  (off + length d <= length (n_data n))%nat →
  let s := take off (n_data n) ++ d ++ drop (off + length d) (n_data n) in
  ∃ m', mwrite m (p_payload (n_hdr n) + Z.of_nat off) d = Ok m' ∧
    packet pb m' p (l1 ++ Node (n_addr n) (n_hdr n) s :: l2) ∧ untouched [n] m m'.
Proof.
  intros Hp Hap Hd Ho s. destruct (packet_node _ _ _ _ _ _ Hp) as (Hn & Hl & Hr & Hb & Ht & Hnext).
  destruct (mread_write _ _ _ _ off d Hr Ho) as (m' & E & Hr' & Hm'). exists m'.
  split; [done|]. apply apart_app in Hap as (_ & Hap2 & Hap12). cbn [apart] in Hap2.
  rewrite Forall_forall in Hap2. destruct Hap2 as [Hap2 _].
  assert (untouched [n] m m') as Hu.
  { intros x Hx. rewrite Hm'. unfold overwritten. rewrite bool_decide_false; [done|].
    intros Hxr. apply (Hx n); [by left|]. unfold in_range. lia. }
  split; [|done]. destruct (packet_exchange _ _ _ _ _ Hp) as (q & Hq & Hx). apply Hx.
  - intros n1 x Hn1 Hxr. apply Hu. intros n2 ->%list_elem_of_singleton Hxr2.
    by apply (Hap12 n1 n Hn1 (list_elem_of_here _ _) x).
  - pose proof (length_splice _ _ _ Ho) as Els. fold s in Els. cbn [n_data] in Els.
    inversion Hq as [|a h s0 l Ha Hl0 Hr0 Hb0 Ht0 Hmx Hrest]; subst. cbn [n_addr n_hdr n_data] in *.
    econstructor; try done; rewrite ?Els; try done.
    + subst s. apply Forall_app_2; [by apply Forall_take|]. apply Forall_app_2; [done|].
      by apply Forall_drop.
    + rewrite Ht0, !length_app. by rewrite Els.
    + eapply packet_agree; [done|]. intros n2 x Hn2 Hxr. apply Hu.
      intros n3 ->%list_elem_of_singleton Hxr3. by apply (Hap2 n2 Hn2 x).
  - rewrite !content_cons, !length_app. cbn [n_data]. subst s. by rewrite length_splice.
Qed.

(** ** Filling a packet *)

Lemma content_length_shape pb m m' p l l' :
  packet pb m p l → packet pb m' p l' → shape l = shape l' → length (content l) = length (content l').
Proof.
  intros H1 H2 E. destruct H1 as [|a h s l Ha Hl Hr Hb Ht]; inversion H2; subst; [done|].
  injection E as -> _. rewrite !content_cons. cbn [n_data]. lia.
Qed.

Lemma untouched_mono l1 l2 m m' :
  (∀ n, n ∈ l1 → ∃ n', n' ∈ l2 ∧ n_hdr n' = n_hdr n) → untouched l1 m m' → untouched l2 m m'.
Proof.
  intros Hs Hu x Hx. apply Hu. intros n Hn Hin. destruct (Hs n Hn) as (n' & Hn' & E).
  apply (Hx n' Hn'). by rewrite E.
Qed.

Lemma untouched_trans l m m1 m2 : untouched l m m1 → untouched l m1 m2 → untouched l m m2.
Proof. intros H1 H2 x Hx. rewrite H2, H1; done. Qed.

Lemma take_loop_spec pb fuel : ∀ m p l data k done,
  packet pb m p l → apart l → Forall is_byte data → (length l < fuel)%nat →
  (k <= length (content l))%nat → (done + k <= length data)%nat →
  ∃ m' l', take_loop fuel pb m p data (Z.of_nat k) (Z.of_nat done) = Ok m' ∧
    packet pb m' p l' ∧ shape l' = shape l ∧ untouched l m m' ∧
    content l' = take k (drop done data) ++ drop k (content l).
Proof.
  induction fuel as [|fuel IH]; intros m p l data k done Hp Hap Hby Hf Hk Hd; [lia|].
  cbn [take_loop]. destruct (Z.eqb_spec (Z.of_nat k) 0) as [Hk0|Hk0].
  { exists m, l. replace k with 0%nat by lia. by rewrite take_0, drop_0. }
  packet_inv Hp; [simpl in Hk; lia|].
  rewrite Ha. cbn [oget mbind res_bind].
  set (c := (length s `min` k)%nat).
  replace (if p_len h <? Z.of_nat k then p_len h else Z.of_nat k) with (Z.of_nat c)
    by (destruct (Z.ltb_spec (p_len h) (Z.of_nat k)); lia).
  rewrite !Nat2Z.id, load_Ok by lia. cbn [mbind res_bind].
  set (d := take c (drop done data)).
  assert (length d = c) as Ld by (subst d; rewrite length_take, length_drop; lia).
  destruct (packet_write pb m (Some a) [] (Node a h s) l0 0 d) as (m1 & E1 & Hp1 & Hu1);
    [done|done|by apply Forall_take, Forall_drop|cbn [n_data]; lia|].
  cbn [n_hdr n_addr n_data] in E1, Hp1. rewrite Z.add_0_r in E1. rewrite E1. cbn [mbind res_bind].
  cbn [app] in Hp1. set (s1 := take 0 s ++ d ++ drop (0 + length d) s) in Hp1.
  inversion Hp1 as [|? ? ? ? _ Hlen1 Hread1 Hby1 Htot1 _ Hrest1]; subst.
  cbn [apart n_hdr] in Hap. destruct Hap as [Hhd Hap].
  rewrite content_cons, length_app in Hk. cbn [n_data] in Hk.
  destruct (IH m1 (p_next h) l0 data (k - c)%nat (done + c)%nat) as (m2 & l2 & E2 & Hp2 & Hs2 & Hu2 & Hc2);
    [done..|simpl in Hf; lia|lia|lia|].
  replace (Z.of_nat k - Z.of_nat c) with (Z.of_nat (k - c)) by lia.
  replace (Z.of_nat done + Z.of_nat c) with (Z.of_nat (done + c)) by lia.
  exists m2, (Node a h s1 :: l2). split; [done|].
  assert (length (content l2) = length (content l0)) as Elen by by eapply content_length_shape.
  assert (s1 = d ++ drop c s) as Es1 by (subst s1; by rewrite Ld).
  split; [|split; [|split]].
  - econstructor; try done.
    + eapply mread_agree; [exact Hread1|]. intros x Hx. apply Hu2. intros n Hn Hxr.
      rewrite Forall_forall in Hhd. apply (Hhd n Hn x); [|done]. unfold in_range. lia.
    + rewrite Htot1, !length_app. lia.
  - unfold shape in *. cbn [fmap list_fmap n_addr n_hdr]. by f_equal.
  - eapply untouched_trans.
    + eapply untouched_mono; [|exact Hu1]. intros n ->%list_elem_of_singleton.
      exists (Node a h s). split; [by left|done].
    + eapply untouched_mono; [|exact Hu2]. intros n Hn. exists n. split; [by right|done].
  - rewrite content_cons, Hc2, content_cons. cbn [n_data]. rewrite Es1. subst d.
    destruct (decide (k <= length s)%nat) as [Hle|Hgt].
    + replace c with k by lia. replace (k - k)%nat with 0%nat by lia.
      rewrite take_0, drop_0. cbn [app]. rewrite drop_app_le by lia. by rewrite app_assoc.
    + replace c with (length s) by lia. rewrite drop_all, app_nil_r.
      rewrite (drop_app_ge s) by lia. rewrite app_assoc. f_equal.
      rewrite <- drop_drop. rewrite <- (take_drop (length s) (take k (drop done data))).
      rewrite take_take, Nat.min_l by lia. by rewrite skipn_firstn_comm.
Qed.

Lemma pbuf_take_spec pb m p l data k :
  packet pb m p l → l ≠ [] → apart l → Forall is_byte data →
  (k <= length (content l))%nat → (k <= length data)%nat →
  ∃ m' l', pbuf_take pb m p (Some data) (Z.of_nat k) = Ok (ERR_OK, m') ∧
    packet pb m' p l' ∧ shape l' = shape l ∧ untouched l m m' ∧
    content l' = take k data ++ drop k (content l).
Proof.
  intros Hp Hne Hap Hby Hk Hd. unfold pbuf_take.
  destruct (packet_head _ _ _ _ Hp Hne) as (a & h & -> & _ & Ht & ->). cbn [mbind res_bind].
  rewrite Ht, (proj2 (Z.ltb_ge _ _)) by lia.
  destruct (take_loop_spec pb (chain_fuel pb) m (Some a) l data k 0) as (m' & l' & E & Hrest);
    [done..|by eapply packet_fuel|done|lia|].
  change (Z.of_nat 0) with 0 in E. rewrite E. exists m', l'. rewrite drop_0 in Hrest.
  split; [done|exact Hrest].
Qed.

Lemma shape_app l1 l2 : shape (l1 ++ l2) = shape l1 ++ shape l2.
Proof. apply fmap_app. Qed.

(** Data put at an offset: in the middle of a packet, across its buffers. *)
Lemma pbuf_take_at_spec pb m p l data k off :
  packet pb m p l → apart l → Forall is_byte data → (k <= length data)%nat → Z.of_nat k < 2 ^ 16 →
  (off + k <= length (content l))%nat → (off < length (content l))%nat →
  ∃ m' l', pbuf_take_at pb m p data (Z.of_nat k) (Z.of_nat off) = Ok (ERR_OK, m') ∧
    packet pb m' p l' ∧ shape l' = shape l ∧ untouched l m m' ∧
    content l' = take off (content l) ++ take k data ++ drop (off + k) (content l).
Proof.
  intros Hp Hap Hby Hd H16 Hk Ho. pose proof (packet_len _ _ _ _ Hp) as Hmax.
  destruct (skip_loop_spec pb m (chain_fuel pb) p l (Z.of_nat off) Hp) as [H1 _];
    [by eapply packet_fuel|lia|]. destruct H1 as (l1 & n & l2 & -> & Hlo & Hhi & E0); [lia|].
  unfold pbuf_take_at, pbuf_skip, pbuf_skip_const. rewrite E0. cbn [mbind res_bind].
  destruct (packet_node _ _ _ _ _ _ Hp) as (Hn & Hl & Hr & Hb & Ht & Hnext). rewrite Hn.
  cbn [oget mbind res_bind]. set (o := (off - length (content l1))%nat).
  replace (Z.of_nat off - Z.of_nat (length (content l1))) with (Z.of_nat o) by lia.
  rewrite content_app, content_cons, !length_app in Hk. rewrite content_app, content_cons, !length_app in Hmax.
  rewrite Ht, length_app. destruct (Z.ltb_spec (Z.of_nat (length (n_data n) + length (content l2)))
    (Z.of_nat o + Z.of_nat k)) as [Hbad|Hok]; [lia|]; clear Hok.
  rewrite Hl. destruct (Z.ltb_spec (Z.of_nat o) (Z.of_nat (length (n_data n)))) as [Hok|Hbad]; [clear Hok|lia].
  unfold lwip_assert. cbn [mbind res_bind].
  set (c := ((length (n_data n) - o) `min` k)%nat).
  replace (u16 (Z.min (Z.of_nat (length (n_data n)) - Z.of_nat o) (Z.of_nat k))) with (Z.of_nat c)
    by (rewrite (wrapu_small 16); lia).
  rewrite !Nat2Z.id, load_Ok by lia. cbn [mbind res_bind]. rewrite drop_0.
  assert (length (take c data) = c) as Lc by (rewrite length_take; lia).
  destruct (packet_write pb m p l1 n l2 o (take c data)) as (m1 & -> & Hp1 & Hu1);
    [done|done|by apply Forall_take|lia|]. cbn [mbind res_bind].
  rewrite Lc in Hp1. set (n1 := Node (n_addr n) (n_hdr n)
    (take o (n_data n) ++ take c data ++ drop (o + c) (n_data n))) in Hp1.
  rewrite (wrapu_small 16) by lia.
  assert (untouched (l1 ++ n :: l2) m m1) as Hu1'.
  { eapply untouched_mono; [|exact Hu1]. intros n' ->%list_elem_of_singleton. exists n.
    split; [set_solver|done]. }
  assert (length (content l1) = off - o)%nat as L1 by lia.
  destruct (Z.ltb_spec 0 (Z.of_nat k - Z.of_nat c)) as [Hrem|Hrem].
  - apply apart_app in Hap as (Hap1 & [Hapn Hap2] & Hap12).
    destruct (packet_node _ _ _ _ _ _ Hp1) as (_ & _ & _ & _ & _ & Hnext1). cbn [n_hdr n1] in Hnext1.
    destruct (pbuf_take_spec pb m1 (p_next (n_hdr n)) l2 (drop c data) (k - c))
      as (m2 & l2' & E2 & Hp2 & Hs2 & Hu2 & Hc2); [done| |done|by apply Forall_drop|lia|rewrite length_drop; lia|].
    { intros ->. simpl in Hk. lia. }
    replace (Z.of_nat k - Z.of_nat c) with (Z.of_nat (k - c)) by lia. rewrite E2.
    exists m2, (l1 ++ n1 :: l2'). split; [done|].
    destruct (packet_exchange pb m1 p (l1 ++ [n1]) l2) as (q & Hq & Hx);
      [by rewrite <- app_assoc|].
    assert (length (content l2') = length (content l2)) as El by by eapply content_length_shape.
    split; [|split; [|split]].
    + change (n1 :: l2') with ([n1] ++ l2'). rewrite app_assoc. apply Hx; [|..|done].
      * intros n' x Hn' Hxr. apply Hu2. intros n2 Hn2 Hxr2.
        apply elem_of_app in Hn' as [Hn'| ->%list_elem_of_singleton].
        -- by apply (Hap12 n' n2 Hn' (list_elem_of_further _ _ _ Hn2) x).
        -- rewrite Forall_forall in Hapn. by apply (Hapn n2 Hn2 x).
      * assert (q = p_next (n_hdr n)) as ->; [|done].
        destruct l2 as [|n2 l2]; [simpl in Hk; lia|].
        inversion Hq; inversion Hnext1; subst; congruence.
    + rewrite !shape_app. f_equal. unfold shape in *. cbn [fmap list_fmap]. by rewrite Hs2.
    + eapply untouched_trans; [done|]. eapply untouched_mono; [|exact Hu2].
      intros n' Hn'. exists n'. split; [set_solver|done].
    + rewrite !content_app, !content_cons, Hc2. cbn [n_data n1].
      assert (c = length (n_data n) - o)%nat as Ec by lia.
      rewrite take_app_ge by lia. rewrite (drop_app_ge (content l1)) by lia.
      rewrite take_app_le by lia. rewrite (drop_app_ge (n_data n)) by lia.
      rewrite (drop_ge (n_data n)) by lia. rewrite app_nil_r.
      assert (take k data = take c data ++ take (k - c) (drop c data)) as Ek.
      { rewrite take_take_drop. f_equal. lia. }
      rewrite Ek, <- !app_assoc. fold o. do 4 f_equal. f_equal. lia.
  - exists m1, (l1 ++ n1 :: l2). split; [done|]. split; [done|]. split; [|split; [done|]].
    + by rewrite !shape_app.
    + assert (c = k) as Ec by lia. rewrite !content_app, !content_cons. cbn [n_data n1].
      rewrite take_app_ge by lia. rewrite (drop_app_ge (content l1)) by lia.
      rewrite take_app_le by lia. rewrite (drop_app_le (n_data n)) by lia.
      rewrite <- !app_assoc. fold o. rewrite Ec. do 3 f_equal. do 2 f_equal. lia.
Qed.

Lemma pbuf_take_at_beyond pb m p l data k off :
  packet pb m p l → 0 <= off < 2 ^ 16 → 0 <= k →
  Z.of_nat (length (content l)) < off + k ∨ Z.of_nat (length (content l)) <= off →
  pbuf_take_at pb m p data k off = Ok (ERR_MEM, m).
Proof.
  intros Hp Ho Hk Hout. destruct (skip_loop_spec pb m (chain_fuel pb) p l off Hp) as [H1 H2];
    [by eapply packet_fuel|lia|]. unfold pbuf_take_at, pbuf_skip, pbuf_skip_const.
  destruct (decide (off < Z.of_nat (length (content l)))) as [Hlt|Hge]; [|by rewrite H2 by lia].
  destruct (H1 Hlt) as (l1 & n & l2 & -> & Ha & Hb & ->). cbn [mbind res_bind].
  destruct (packet_node _ _ _ _ _ _ Hp) as (Hn & _ & _ & _ & Ht & _).
  rewrite Hn. cbn [oget mbind res_bind].
  rewrite content_app, content_cons, !length_app in Hout. rewrite Ht, length_app.
  rewrite (proj2 (Z.ltb_lt _ _)) by lia. done.
Qed.

(** One byte; behind the end nothing happens. *)
Lemma pbuf_put_at_spec pb m p l off b :
  packet pb m p l → apart l → 0 <= off < 2 ^ 16 →
  ∃ m' l', pbuf_put_at pb m p off b = Ok m' ∧ packet pb m' p l' ∧ shape l' = shape l ∧
    untouched l m m' ∧ content l' = <[Z.to_nat off := u8 b]> (content l).
Proof.
  intros Hp Hap Ho. destruct (skip_loop_spec pb m (chain_fuel pb) p l off Hp) as [H1 H2];
    [by eapply packet_fuel|lia|]. unfold pbuf_put_at, pbuf_skip, pbuf_skip_const.
  destruct (decide (off < Z.of_nat (length (content l)))) as [Hlt|Hge].
  - destruct (H1 Hlt) as (l1 & n & l2 & -> & Hlo & Hhi & ->). cbn [mbind res_bind].
    destruct (packet_node _ _ _ _ _ _ Hp) as (Hn & Hl & _). rewrite Hn. cbn [oget mbind res_bind].
    set (o := (Z.to_nat off - length (content l1))%nat).
    replace (off - Z.of_nat (length (content l1))) with (Z.of_nat o) by lia.
    rewrite Hl, (proj2 (Z.ltb_lt _ _)) by lia.
    destruct (packet_write pb m p l1 n l2 o [u8 b]) as (m1 & -> & Hp1 & Hu1);
      [done|done|constructor; [apply u8_is_byte|constructor]|simpl; lia|].
    eexists m1, _. split; [done|]. split; [exact Hp1|]. split; [by rewrite !shape_app|]. split.
    + eapply untouched_mono; [|exact Hu1]. intros n' ->%list_elem_of_singleton. exists n.
      split; [set_solver|done].
    + rewrite !content_app, !content_cons. cbn [n_data length].
      rewrite insert_app_r_alt by lia. f_equal. fold o. rewrite insert_app_l by lia. f_equal.
      rewrite insert_take_drop by lia. simpl. do 3 f_equal. lia.
  - rewrite H2 by lia. exists m, l. do 4 (split; [done|]). by rewrite list_insert_ge by lia.
Qed.

(** C17 (roundtrip).  What is put into a packet at an offset is what is read there
    afterwards, into a buffer of the caller, whatever the sizes of the buffers of
    the packet; the bytes before and behind are as they were, the chain itself is
    the same, and memory outside the packet is not touched. *)
Theorem pbuf_take_at_copy_out pb m p l data k off dst :
  packet pb m p l → l ≠ [] → apart l → Forall is_byte data → length data = k → length dst = k →
  (off + k <= length (content l))%nat → (off < length (content l))%nat →
  ∃ m' l', pbuf_take_at pb m p data (Z.of_nat k) (Z.of_nat off) = Ok (ERR_OK, m') ∧
    packet pb m' p l' ∧ shape l' = shape l ∧ untouched l m m' ∧
    content l' = take off (content l) ++ data ++ drop (off + k) (content l) ∧
    pbuf_copy_partial pb m' p (Some dst) (Z.of_nat k) (Z.of_nat off) = Ok (Z.of_nat k, Some data).
Proof.
  intros Hp Hne Hap Hby Hk Hdst Hroom Ho. pose proof (packet_len _ _ _ _ Hp) as Hmx.
  destruct (pbuf_take_at_spec pb m p l data k off) as (m' & l' & E & Hp' & Hs & Hu & Hc);
    [done..|lia|lia|done|done|].
  rewrite (take_ge data) in Hc by lia. exists m', l'. repeat (split; [done|]).
  assert (part (Z.of_nat off) (Z.of_nat k) (content l') = data) as Ed.
  { unfold part. rewrite !Nat2Z.id, Hc, drop_app_ge by (rewrite length_take; lia).
    rewrite length_take, Nat.min_l, Nat.sub_diag, drop_0 by lia. by rewrite take_app_length' by lia. }
  rewrite (pbuf_copy_partial_spec pb m' p l'); [|done| |lia|lia|by rewrite Ed; lia].
  - rewrite Ed, Hk, (drop_ge dst) by lia. by rewrite app_nil_r.
  - intros ->. by destruct l.
Qed.

Lemma demo_apart : apart demo_l.
Proof.
  repeat constructor; intros x H1 H2; unfold in_range in *; simpl in *; lia.
Qed.

Lemma pbuf_take_at_copy_out_witness :
  ∃ m' l', pbuf_take_at demo_pb demo_m (Some 100) [1; 2; 3] 3 2 = Ok (ERR_OK, m') ∧
    packet demo_pb m' (Some 100) l' ∧ shape l' = shape demo_l ∧ untouched demo_l demo_m m' ∧
    content l' = [97; 98; 1; 2; 3; 100; 101] ∧
    pbuf_copy_partial demo_pb m' (Some 100) (Some [0; 0; 0]) 3 2 = Ok (3, Some [1; 2; 3]).
Proof.
  apply (pbuf_take_at_copy_out demo_pb demo_m (Some 100) demo_l [1; 2; 3] 3 2 [0; 0; 0]);
    [apply demo_packet|done|apply demo_apart|repeat constructor; lia|done|done|simpl; lia|simpl; lia].
Defined.
