(* ===== verification/PbufCopy.v ===== *)
(** * Copying, headers and chains (lwip/core/pbuf.c)

    Copying one packet over another, moving the front of a packet, and linking
    packets, as operations on their bytes. *)

From S2P Require Import Prelude Memp SysArch Pbuf PbufPacket PbufWrite.

(** ** Copying between packets *)

(** [d] over the bytes from [off] on. *)
Definition splice (off : nat) (d c : list Z) : list Z := take off c ++ d ++ drop (off + length d) c.

Lemma splice_app off d1 d2 c :
  (off + length d1 <= length c)%nat →
  splice (off + length d1) d2 (splice off d1 c) = splice off (d1 ++ d2) c.
Proof.
  intros H. unfold splice. rewrite length_app.
  rewrite take_app_ge, take_app_ge by (rewrite length_take; lia).
  rewrite length_take, Nat.min_l by lia.
  replace (off + length d1 - off - length d1)%nat with 0%nat by lia. rewrite take_0, app_nil_r.
  rewrite (drop_app_ge (take off c)) by (rewrite length_take; lia).
  rewrite length_take, Nat.min_l by lia. rewrite (drop_app_ge d1) by lia. rewrite drop_drop.
  rewrite <- !app_assoc. do 4 f_equal. lia.
Qed.

Lemma splice_head off d s c :
  (off + length d <= length s)%nat → splice off d (s ++ c) = splice off d s ++ c.
Proof.
  intros. unfold splice. rewrite take_app_le, drop_app_le by lia. by rewrite <- !app_assoc.
Qed.

Lemma splice_tail k d s c : splice (length s + k) d (s ++ c) = s ++ splice k d c.
Proof.
  unfold splice. rewrite take_app_add', <- Nat.add_assoc by done.
  rewrite drop_app_add' by done. by rewrite <- app_assoc.
Qed.

Lemma length_splice' off d c : (off + length d <= length c)%nat → length (splice off d c) = length c.
Proof. intros. unfold splice. by apply length_splice. Qed.

(** Nothing follows the last byte of the packet: the operation takes a chain that
    goes on for a queue of packets. *)
Definition no_queue (l : list node) : Prop :=
  Forall (λ n, p_len (n_hdr n) = p_tot_len (n_hdr n) → p_next (n_hdr n) = None) l.

Section copying.
Context `{Platform}.

Lemma usize_small z : 0 <= z < 2 ^ 18 → wrapu sizet_bits z = z.
Proof.
  intros Hz. apply wrapu_small. unfold sizet_bits. destruct ptr_bytes_cases as [-> | ->]; lia.
Qed.

Lemma is_queue_false pb m p l : packet pb m p l → no_queue l → is_queue pb p = Ok false.
Proof.
  destruct 1 as [|a h s l Ha]; [done|]. intros [Hq _]%Forall_cons. cbn [n_hdr] in Hq.
  unfold is_queue. rewrite Ha. cbn [oget mbind res_bind].
  destruct (Z.eqb_spec (p_len h) (p_tot_len h)) as [E|]; [|done]. by rewrite (Hq E).
Qed.

Lemma no_queue_shape l1 : ∀ l2, shape l1 = shape l2 → no_queue l1 → no_queue l2.
Proof.
  induction l1 as [|n l1 IH]; intros [|n2 l2] E; try done. injection E as _ Eh E.
  intros [H1 H2]%Forall_cons. constructor; [by rewrite <- Eh|by apply (IH l2)].
Qed.

(** The two packets share no data. *)
Definition apart_from (l1 l2 : list node) : Prop :=
  ∀ n1 n2, n1 ∈ l1 → n2 ∈ l2 → range_apart (n_hdr n1) (n_hdr n2).

Definition head_len (l : list node) : nat := match l with [] => 0 | n :: _ => length (n_data n) end.

(** Where the copy stands. *)
Record copying (pb : gmap Z pbuf) (m : gmap Z Z) (c : copy_pos) (lt lf : list node)
    (ot fo k : nat) : Prop := Copying {
  cg_to : packet pb m (c_to c) lt; cg_from : packet pb m (c_from c) lf;
  cg_apart : apart lt; cg_apart2 : apart_from lt lf;
  cg_qt : no_queue lt; cg_qf : no_queue lf;
  cg_ot : c_off_to c = Z.of_nat ot; cg_of : c_off_from c = Z.of_nat fo; cg_k : c_left c = Z.of_nat k;
  cg_hot : (ot <= head_len lt)%nat; cg_hof : (fo <= head_len lf)%nat;
  cg_room : (ot + k <= length (content lt))%nat; cg_rest : (fo + k <= length (content lf))%nat;
}.

(** A packet whose head has been written moves on when the head is full. *)
Lemma head_moves pb m a h s l o :
  packet pb m (Some a) (Node a h s :: l) → (o <= length s)%nat →
  ∃ p l' o', (if Z.of_nat o =? p_len h then (p_next h, 0) else (Some a, Z.of_nat o)) = (p, Z.of_nat o') ∧
    (if p_len h <=? Z.of_nat o then (p_next h, 0) else (Some a, Z.of_nat o)) = (p, Z.of_nat o') ∧
    packet pb m p l' ∧ drop o' (content l') = drop o (content (Node a h s :: l)) ∧
    ((o = length s ∧ l' = l ∧ o' = 0 ∧ p = p_next h)%nat ∨
     (o < length s ∧ l' = Node a h s :: l ∧ o' = o ∧ p = Some a)%nat).
Proof.
  intros Hp Ho. packet_inv Hp. rewrite Hlen. destruct (decide (o = length s)) as [->|Hne].
  - exists (p_next h), l, 0%nat. rewrite Z.eqb_refl, Z.leb_refl.
    split; [done|]. split; [done|]. split; [done|]. split; [|by left].
    by rewrite drop_0, content_cons, drop_app_length.
  - exists (Some a), (Node a h s :: l), o.
    rewrite (proj2 (Z.eqb_neq _ _)), (proj2 (Z.leb_gt _ _)) by lia.
    repeat (split; [done|]). right. split; [lia|done].
Qed.

Lemma apart_from_shape lt lt' lf :
  shape lt' = shape lt → apart_from lt lf → apart_from lt' lf.
Proof.
  intros E Hap n1 n2 Hn1 Hn2.
  assert ((n_addr n1, n_hdr n1) ∈ shape lt) as Hin.
  { rewrite <- E. apply list_elem_of_fmap. by exists n1. }
  apply list_elem_of_fmap in Hin as (n' & [= _ ->] & Hn'). by apply Hap.
Qed.

Lemma packet_untouched pb m m' p lt lf :
  packet pb m p lf → apart_from lt lf → untouched lt m m' → packet pb m' p lf.
Proof.
  intros Hp Hap Hu. eapply packet_agree; [done|]. intros n x Hn Hx. apply Hu.
  intros n' Hn' Hx'. by apply (Hap n' n Hn' Hn x).
Qed.

(** The turn as a computation. *)
Lemma copy_body_eval pb m m' ta fa ht hf lt lf ot fo k d p1 p2 o1 o2 l1 l2 :
  let n := (k `min` ((lf - fo) `min` (lt - ot)))%nat in
  pb !! ta = Some ht → pb !! fa = Some hf →
  p_len ht = Z.of_nat lt → p_len hf = Z.of_nat lf →
  (ot <= lt)%nat → (fo <= lf)%nat → Z.of_nat lt < 2 ^ 16 → Z.of_nat lf < 2 ^ 16 → Z.of_nat k < 2 ^ 16 →
  mread m (p_payload hf + Z.of_nat fo) n = Ok d →
  mwrite m (p_payload ht + Z.of_nat ot) d = Ok m' →
  (if Z.of_nat (ot + n) =? p_len ht then (p_next ht, 0) else (Some ta, Z.of_nat (ot + n)))
    = (p1, Z.of_nat o1) →
  (if p_len hf <=? Z.of_nat (fo + n) then (p_next hf, 0) else (Some fa, Z.of_nat (fo + n)))
    = (p2, Z.of_nat o2) →
  packet pb m' p1 l1 → no_queue l1 → packet pb m' p2 l2 → no_queue l2 →
  ((n < k)%nat → l1 ≠ [] ∧ l2 ≠ []) →
  copy_body pb m (CopyPos (Some ta) (Some fa) (Z.of_nat ot) (Z.of_nat fo) (Z.of_nat k))
  = Ok (CNext (CopyPos p1 p2 (Z.of_nat o1) (Z.of_nat o2) (Z.of_nat (k - n))), m').
Proof.
  intros n Hta Hfa Hlt Hlf Hot Hfo Lt Lf Lk Hr Hw Em1 Em2 Hp1 Hq1 Hp2 Hq2 Hmore.
  assert (is_some p1 || (Z.of_nat (k - n) =? 0) = true ∧
          is_some p2 || (Z.of_nat (k - n) =? 0) = true) as [Hs1 Hs2].
  { destruct (decide (n < k)%nat) as [Hlt2|Hge].
    - destruct (Hmore Hlt2) as [H1 H2].
      destruct (packet_head _ _ _ _ Hp1 H1) as (? & ? & -> & _).
      by destruct (packet_head _ _ _ _ Hp2 H2) as (? & ? & -> & _).
    - replace (k - n)%nat with 0%nat by lia. by rewrite !orb_true_r. }
  unfold copy_body. cbn [c_to c_from c_off_to c_off_from c_left deref]. rewrite Hta, Hfa.
  cbn [oget mbind res_bind]. rewrite Hlt, Hlf, !(usize_small (_ - _)) by lia.
  assert (Z.min (Z.of_nat k) (if Z.of_nat lf - Z.of_nat fo <=? Z.of_nat lt - Z.of_nat ot
    then Z.of_nat lf - Z.of_nat fo else Z.of_nat lt - Z.of_nat ot) = Z.of_nat n) as ->.
  { destruct (Z.leb_spec (Z.of_nat lf - Z.of_nat fo) (Z.of_nat lt - Z.of_nat ot)); lia. }
  rewrite Nat2Z.id, Hr. cbn [mbind res_bind]. rewrite Hw. cbn [mbind res_bind].
  rewrite !usize_small, (wrapu_small 16) by lia.
  replace (Z.of_nat k - Z.of_nat n) with (Z.of_nat (k - n)) by lia.
  unfold lwip_assert. rewrite (proj2 (Z.leb_le (Z.of_nat ot + Z.of_nat n) _)) by lia. cbn [mbind res_bind].
  rewrite (proj2 (Z.leb_le (Z.of_nat fo + Z.of_nat n) _)) by lia. cbn [mbind res_bind].
  rewrite <- !Nat2Z.inj_add, <- Hlt, <- Hlf, Em2, Hs2, Em1, Hs1. cbn [negb].
  by rewrite (is_queue_false _ _ _ _ Hp2 Hq2), (is_queue_false _ _ _ _ Hp1 Hq1).
Qed.

Lemma copy_body_spec pb m c lt lf ot fo k :
  copying pb m c lt lf ot fo k → lt ≠ [] → lf ≠ [] →
  ∃ m' c' lt1 lt' lf' ot' fo' n,
    copy_body pb m c = Ok (CNext c', m') ∧
    packet pb m' (c_to c) lt1 ∧ shape lt1 = shape lt ∧ untouched lt m m' ∧
    (n <= k)%nat ∧ content lt1 = splice ot (take n (drop fo (content lf))) (content lt) ∧
    copying pb m' c' lt' lf' ot' fo' (k - n) ∧
    drop fo' (content lf') = drop (fo + n) (content lf) ∧
    ((lt' = lt1 ∧ ot' = ot + n)%nat ∨
     (∃ hd, lt1 = hd :: lt' ∧ ot' = 0%nat ∧ (ot + n)%nat = length (n_data hd))) ∧
    (n < k → length lt' + length lf' < length lt + length lf ∧ lt' ≠ [] ∧ lf' ≠ [])%nat.
Proof.
  destruct c as [to from oto ofr left].
  intros [Hpt Hpf Hap Hap2 Hqt Hqf Eot Efo Ek Hot Hfo Hroom Hrest] Hnt Hnf.
  cbn [c_to c_from c_off_to c_off_from c_left] in *. subst oto ofr left.
  destruct lt as [|[at_ ht st] lt0]; [done|]. destruct lf as [|[af hf sf] lf0]; [done|]. clear Hnt Hnf.
  pose proof (packet_len _ _ _ _ Hpt) as Lt. pose proof (packet_len _ _ _ _ Hpf) as Lf.
  inversion Hpt as [|? ? ? ? Hat Hlt Hrt Hbt _ _ Hnt]; subst.
  inversion Hpf as [|? ? ? ? Haf Hlf Hrf Hbf _ _ Hnf]; subst.
  cbn [head_len n_data] in Hot, Hfo. rewrite content_cons, length_app in *. cbn [n_data] in *.
  set (n := (k `min` ((length sf - fo) `min` (length st - ot)))%nat).
  set (d := take n (drop fo sf)).
  assert (length d = n) as Ld by (subst d; rewrite length_take, length_drop; lia).
  assert (d = take n (drop fo (sf ++ content lf0))) as Ed.
  { subst d. rewrite drop_app_le, take_app_le by (rewrite ?length_drop; lia). done. }
  destruct (packet_write pb m (Some at_) [] (Node at_ ht st) lt0 ot d) as (m' & E1 & Hp1 & Hu1);
    [done|done|subst d; by apply Forall_take, Forall_drop|cbn [n_data]; lia|].
  cbn [n_hdr n_addr n_data app] in E1, Hp1. fold (splice ot d st) in Hp1.
  set (lt1 := Node at_ ht (splice ot d st) :: lt0) in Hp1.
  assert (shape lt1 = shape (Node at_ ht st :: lt0)) as Hs1 by done.
  assert (untouched (Node at_ ht st :: lt0) m m') as Hu.
  { eapply untouched_mono; [|exact Hu1]. intros n' ->%list_elem_of_singleton.
    eexists. split; [by left|done]. }
  assert (length (splice ot d st) = length st) as Lsp by (apply length_splice'; lia).
  assert (packet pb m' (Some af) (Node af hf sf :: lf0)) as Hpf1 by by eapply packet_untouched.
  destruct (head_moves pb m' at_ ht (splice ot d st) lt0 (ot + n) Hp1) as
    (p1 & l1 & o1 & Em1 & _ & Hq1 & Hd1 & Hc1); [lia|].
  destruct (head_moves pb m' af hf sf lf0 (fo + n) Hpf1) as
    (p2 & l2 & o2 & _ & Em2 & Hq2 & Hd2 & Hc2); [lia|].
  assert (no_queue l1) as Hq1n.
  { destruct Hc1 as [(_ & -> & _)|(_ & -> & _)]; [by apply Forall_cons in Hqt as [_ Hqt]|].
    by apply (no_queue_shape (Node at_ ht st :: lt0)). }
  assert (no_queue l2) as Hq2n.
  { destruct Hc2 as [(_ & -> & _)|(_ & -> & _)]; [by apply Forall_cons in Hqf as [_ Hqf]|done]. }
  rewrite !content_cons in Hd1, Hd2. cbn [n_data] in Hd1, Hd2.
  assert (length (drop o1 (content l1)) = length st + length (content lt0) - (ot + n))%nat as Ld1.
  { rewrite Hd1, length_drop, length_app. lia. }
  assert (length (drop o2 (content l2)) = length sf + length (content lf0) - (fo + n))%nat as Ld2.
  { rewrite Hd2, length_drop, length_app. lia. }
  rewrite length_drop in Ld1, Ld2.
  assert ((n < k)%nat → l1 ≠ [] ∧ l2 ≠ []) as Hmore.
  { intros Hnk. split; intros ->; simpl in Ld1, Ld2; lia. }
  eexists m', _, lt1, l1, l2, o1, o2, n. split.
  { eapply (copy_body_eval pb m m' at_ af ht hf (length st) (length sf) ot fo k d); try done; try lia.
    eapply mread_sub; [done|lia]. }
  split; [done|]. split; [done|]. split; [done|]. split; [lia|].
  split; [by rewrite <- Ed, !content_cons, splice_head by (cbn [n_data]; lia)|].
  assert (o1 <= head_len l1 ∧ o1 <= length (content l1))%nat as [Hh1 Ho1].
  { destruct Hc1 as [(_ & -> & -> & _)|(Hlt1 & -> & -> & _)]; [lia|].
    rewrite content_cons, length_app. cbn [head_len n_data]. lia. }
  assert (o2 <= head_len l2 ∧ o2 <= length (content l2))%nat as [Hh2 Ho2].
  { destruct Hc2 as [(_ & -> & -> & _)|(Hlt2 & -> & -> & _)]; [lia|].
    rewrite content_cons, length_app. cbn [head_len n_data]. lia. }
  assert (apart l1 ∧ apart_from l1 l2) as [Hap1 Hap12].
  { assert (apart lt1 ∧ apart_from lt1 (Node af hf sf :: lf0)) as [Ha1 Ha2].
    { split; [by apply (apart_shape (Node at_ ht st :: lt0))|by eapply apart_from_shape]. }
    split; [destruct Hc1 as [(_ & -> & _)|(_ & -> & _)]; [by destruct Ha1|done]|].
    intros n1 n2 Hn1 Hn2. apply Ha2.
    - destruct Hc1 as [(_ & -> & _)|(_ & -> & _)]; [by right|done].
    - destruct Hc2 as [(_ & -> & _)|(_ & -> & _)]; [by right|done]. }
  split; [split; cbn; try done; lia|]. split; [done|]. split.
  - destruct Hc1 as [(E & -> & -> & _)|(_ & -> & -> & _)]; [right|by left].
    eexists. split; [done|]. by split.
  - intros Hnk. split; [|by apply Hmore].
    destruct Hc1 as [(E1' & -> & _)|(Hlt1 & -> & _)], Hc2 as [(E2' & -> & _)|(Hlt2 & -> & _)];
      simpl; lia.
Qed.

Lemma packet_ptr pb m p n l : packet pb m p (n :: l) → p = Some (n_addr n).
Proof. by inversion 1. Qed.

Lemma untouched_shape l l' m m' : shape l = shape l' → untouched l m m' → untouched l' m m'.
Proof.
  intros E. apply untouched_mono. intros n Hn.
  assert ((n_addr n, n_hdr n) ∈ shape l') as Hin.
  { rewrite <- E. apply list_elem_of_fmap. by exists n. }
  apply list_elem_of_fmap in Hin as (n' & [= _ ->] & Hn'). by exists n'.
Qed.

Lemma copy_loop_spec pb fuel : ∀ m c lt lf ot fo k,
  copying pb m c lt lf ot fo k → lt ≠ [] → lf ≠ [] → (length lt + length lf <= fuel)%nat →
  ∃ m' lt', copy_loop fuel pb m c = Ok (ERR_OK, m') ∧
    packet pb m' (c_to c) lt' ∧ shape lt' = shape lt ∧ untouched lt m m' ∧
    content lt' = splice ot (take k (drop fo (content lf))) (content lt).
Proof.
  induction fuel as [|fuel IH]; intros m c lt lf ot fo k Hc Hnt Hnf Hf.
  { destruct lt; [done|simpl in Hf; lia]. }
  destruct (copy_body_spec pb m c lt lf ot fo k Hc Hnt Hnf)
    as (m1 & c1 & lt1 & lt2 & lf2 & ot2 & fo2 & n & E & Hp1 & Hs1 & Hu1 & Hn & Hcont & Hc1 & Hd & Hcase & Hmore).
  cbn [copy_loop]. rewrite E. cbn [mbind res_bind]. rewrite (cg_k _ _ _ _ _ _ _ _ Hc1).
  destruct (Z.eqb_spec (Z.of_nat (k - n)) 0) as [E0|E0]; cbn [negb].
  { exists m1, lt1. replace k with n by lia. done. }
  destruct Hmore as (Hsz & Hnt2 & Hnf2); [lia|].
  destruct (IH m1 c1 lt2 lf2 ot2 fo2 (k - n)%nat Hc1 Hnt2 Hnf2) as (m2 & lt3 & -> & Hp3 & Hs3 & Hu3 & Hcont3);
    [lia|]. exists m2.
  set (d1 := take n (drop fo (content lf))) in *.
  assert (length d1 = n) as Ld1.
  { subst d1. rewrite length_take, length_drop. pose proof (cg_rest _ _ _ _ _ _ _ _ Hc). lia. }
  assert (take k (drop fo (content lf)) = d1 ++ take (k - n) (drop (fo + n) (content lf))) as Ed.
  { subst d1. rewrite <- drop_drop, take_take_drop. f_equal. lia. }
  rewrite Hd in Hcont3. rewrite Ed, <- splice_app, Ld1, <- Hcont
    by (rewrite Ld1; pose proof (cg_room _ _ _ _ _ _ _ _ Hc); lia).
  destruct Hcase as [[-> ->]|(hd & -> & -> & Eo)].
  - exists lt3. split; [done|]. split.
    + destruct lt1 as [|n1 lt1]; [done|]. destruct lt3 as [|n3 lt3]; [done|].
      injection Hs3 as Ea _ _. rewrite (packet_ptr _ _ _ _ _ Hp1), <- Ea.
      by rewrite <- (packet_ptr _ _ _ _ _ Hp3).
    + split; [by rewrite Hs3|]. split; [|done]. eapply untouched_trans; [done|].
      by eapply untouched_shape.
  - exists (hd :: lt3). split; [done|].
    destruct (packet_exchange pb m1 (c_to c) [hd] lt2 Hp1) as (q & Hq & Hx).
    assert (length (content lt3) = length (content lt2)) as El.
    { eapply content_length_shape; [exact Hp3|apply (cg_to _ _ _ _ _ _ _ _ Hc1)|done]. }
    pose proof (apart_shape lt (hd :: lt2) (eq_sym Hs1) (cg_apart _ _ _ _ _ _ _ _ Hc)) as [Hap _].
    split; [|split; [|split]].
    + apply Hx; [|..|done].
      * intros n' x ->%list_elem_of_singleton Hxr. apply Hu3. intros n2 Hn2 Hxr2.
        rewrite Forall_forall in Hap. by apply (Hap n2 Hn2 x).
      * destruct lt2 as [|n2 lt2]; [done|]. destruct lt3 as [|n3 lt3]; [done|].
        injection Hs3 as Ea _ _. rewrite (packet_ptr _ _ _ _ _ Hq), <- Ea.
        by rewrite <- (packet_ptr _ _ _ _ _ Hp3).
    + rewrite <- Hs1. unfold shape in *. cbn [fmap list_fmap]. by rewrite Hs3.
    + eapply untouched_trans; [done|]. eapply untouched_shape; [exact Hs1|].
      eapply untouched_mono; [|exact Hu3]. intros n' Hn'. exists n'. split; [by right|done].
    + rewrite !content_cons, Hcont3, Eo. rewrite <- splice_tail. by rewrite Nat.add_0_r.
Qed.

Lemma copy_partial_pbuf_spec pb m pt pf lt lf k off :
  packet pb m pt lt → packet pb m pf lf → lt ≠ [] → lf ≠ [] → apart lt → apart_from lt lf →
  no_queue lt → no_queue lf → (off <= head_len lt)%nat →
  (k <= length (content lf))%nat → (off + k <= length (content lt))%nat →
  ∃ m' lt', pbuf_copy_partial_pbuf pb m pt pf (Z.of_nat k) (Z.of_nat off) = Ok (ERR_OK, m') ∧
    packet pb m' pt lt' ∧ packet pb m' pf lf ∧ shape lt' = shape lt ∧ untouched lt m m' ∧
    content lt' = splice off (take k (content lf)) (content lt).
Proof.
  intros Hpt Hpf Hnt Hnf Hap Hap2 Hqt Hqf Hoff Hk Hroom. unfold pbuf_copy_partial_pbuf.
  destruct (packet_head _ _ _ _ Hpf Hnf) as (af & hf & -> & _ & Htf & ->). cbn [mbind res_bind].
  destruct (packet_head _ _ _ _ Hpt Hnt) as (ta & ht & -> & _ & Htt & ->). cbn [mbind res_bind].
  rewrite Htf, (proj2 (Z.ltb_ge _ _)) by lia. rewrite Htt, (proj2 (Z.ltb_ge _ _)) by lia.
  destruct (copy_loop_spec pb (copy_fuel pb) m (CopyPos (Some ta) (Some af) (Z.of_nat off) 0 (Z.of_nat k))
    lt lf off 0 k) as (m' & lt' & -> & Hp' & Hs & Hu & Hc); [|done|done| |].
  - split; cbn; try done; lia.
  - pose proof (packet_fuel _ _ _ _ Hpt). pose proof (packet_fuel _ _ _ _ Hpf). unfold copy_fuel. lia.
  - exists m', lt'. rewrite drop_0 in Hc. split; [done|]. split; [done|].
    split; [by eapply packet_untouched|done].
Qed.

Lemma pbuf_copy_spec pb m pt pf lt lf :
  packet pb m pt lt → packet pb m pf lf → lt ≠ [] → lf ≠ [] → apart lt → apart_from lt lf →
  no_queue lt → no_queue lf → (length (content lf) <= length (content lt))%nat →
  ∃ m' lt', pbuf_copy pb m pt pf = Ok (ERR_OK, m') ∧
    packet pb m' pt lt' ∧ packet pb m' pf lf ∧ shape lt' = shape lt ∧ untouched lt m m' ∧
    content lt' = content lf ++ drop (length (content lf)) (content lt).
Proof.
  intros Hpt Hpf Hnt Hnf Hap Hap2 Hqt Hqf Hk. unfold pbuf_copy.
  destruct (packet_head _ _ _ _ Hpf Hnf) as (af & hf & -> & _ & Htf & ->). cbn [mbind res_bind].
  destruct (copy_partial_pbuf_spec pb m pt (Some af) lt lf (length (content lf)) 0)
    as (m' & lt' & E & Hp & Hf & Hs & Hu & Hc); [done..|lia|lia|lia|]. rewrite Htf.
  change (Z.of_nat 0) with 0 in E. rewrite E. exists m', lt'. repeat (split; [done|]).
  rewrite Hc, firstn_all. done.
Qed.

(** An offset behind the first buffer of the target passes the test of the total
    length, but the difference to the length of the buffer wraps around: the data
    is written behind the buffer, and the assertion that follows ends the
    process. *)
Lemma copy_beyond_head_faults pb m ta ht lt pf lf k off :
  packet pb m (Some ta) lt → lt ≠ [] → packet pb m pf lf → lf ≠ [] → pb !! ta = Some ht →
  p_len ht < off → 0 <= off < 2 ^ 16 → 0 <= k <= Z.of_nat (length (content lf)) →
  off + k <= Z.of_nat (length (content lt)) →
  ∃ f, pbuf_copy_partial_pbuf pb m (Some ta) pf k off = Fault f.
Proof.
  intros Hpt Hnt Hpf Hnf Hta Hbey Ho Hk Hroom. unfold pbuf_copy_partial_pbuf.
  destruct lf as [|[af hf sf] lf]; [done|]. pose proof (packet_len _ _ _ _ Hpf) as Lf.
  inversion Hpf as [|? ? ? ? Haf Hlf Hrf _ Htf _ _]; subst. cbn [deref]. rewrite Haf. cbn [oget mbind res_bind].
  rewrite content_cons in Hk, Lf. cbn [n_data] in Hk, Lf. rewrite Htf, (proj2 (Z.ltb_ge _ _)) by lia.
  destruct (packet_head _ _ _ _ Hpt Hnt) as (ta' & ht' & [= <-] & Hta' & Htt & _).
  assert (ht' = ht) as -> by congruence. rewrite Hta. cbn [oget mbind res_bind].
  rewrite Htt, (proj2 (Z.ltb_ge _ _)) by lia. unfold copy_fuel, chain_fuel. cbn [Nat.add copy_loop].
  assert (0 <= p_len ht) as Hht by (inversion Hpt; subst; assert (h = ht) as -> by congruence; lia).
  rewrite length_app in Lf. unfold copy_body. cbn [c_to c_from c_off_to c_off_from c_left deref]. rewrite Hta, Haf.
  cbn [oget mbind res_bind]. rewrite Z.sub_0_r, Hlf, (usize_small (Z.of_nat (length sf))) by lia.
  assert (2 ^ 17 <= wrapu sizet_bits (p_len ht - off)) as Hw.
  { unfold wrapu. rewrite <- (Z.mod_add _ 1), Z.mul_1_l by (unfold sizet_bits; destruct ptr_bytes_cases as [-> | ->]; lia).
    rewrite Z.mod_small; unfold sizet_bits; destruct ptr_bytes_cases as [-> | ->]; lia. }
  destruct (Z.leb_spec (Z.of_nat (length sf)) (wrapu sizet_bits (p_len ht - off))); [|lia].
  clear Hrf. destruct (mread _ _ _) as [bs|e]; cbn [mbind res_bind]; [|by eexists].
  destruct (mwrite _ _ _) as [m'|e]; cbn [mbind res_bind]; [|by eexists].
  rewrite (usize_small (off + _)) by lia.
  rewrite (proj2 (Z.leb_gt _ (p_len ht))) by lia. by eexists.
Qed.

(** ** Headers *)

Lemma packet_pb_agree pb pb' m p l :
  packet pb m p l → (∀ n, n ∈ l → pb' !! n_addr n = pb !! n_addr n) → packet pb' m p l.
Proof.
  induction 1 as [|a h s l Ha Hl Hr Hb Ht Ht' Hp IH]; intros Hag; [constructor|].
  econstructor; try done.
  - rewrite <- Ha. apply (Hag (Node a h s)). by left.
  - apply IH. intros n Hn. apply Hag. by right.
Qed.

(** The head of a packet can be given another view of the data. *)
Lemma packet_new_head pb m a h s l payload s' :
  packet pb m (Some a) (Node a h s :: l) →
  mread m payload (length s') = Ok s' → Forall is_byte s' →
  Z.of_nat (length (s' ++ content l)) < 2 ^ 16 →
  let h' := set_p_view payload (Z.of_nat (length (s' ++ content l))) (Z.of_nat (length s')) h in
  packet (<[a := h']> pb) m (Some a) (Node a h' s' :: l).
Proof.
  intros Hp Hr Hb Hmx h'. pose proof (packet_NoDup _ _ _ _ Hp) as [Ha _]%NoDup_cons. cbn [n_addr] in Ha.
  inversion Hp as [|? ? ? ? Hpa _ _ _ _ _ Hrest]; subst. econstructor; try done.
  - by rewrite lookup_insert_eq.
  - eapply packet_pb_agree; [done|]. intros n Hn. apply lookup_insert_ne. intros ->. apply Ha.
    apply list_elem_of_fmap. by exists n.
Qed.

Lemma pbuf_remove_header_spec pb m a h s l k :
  packet pb m (Some a) (Node a h s :: l) → (k <= length s)%nat →
  ∃ pb' h', pbuf_remove_header pb (Some a) (Z.of_nat k) = Ok (0, pb') ∧
    packet pb' m (Some a) (Node a h' (drop k s) :: l) ∧
    p_payload h' = p_payload h + Z.of_nat k ∧ p_type_internal h' = p_type_internal h ∧
    pb' = <[a := h']> pb.
Proof.
  intros Hp Hk. pose proof (packet_len _ _ _ _ Hp) as Hmx. rewrite content_cons, length_app in Hmx.
  cbn [n_data] in Hmx. pose proof Hp as Hp0. packet_inv Hp0. unfold pbuf_remove_header.
  rewrite (proj2 (Z.ltb_ge _ _)) by lia. destruct (Z.eqb_spec (Z.of_nat k) 0) as [E|Hk0].
  - exists pb, h. replace k with 0%nat by lia. rewrite drop_0. split; [done|]. split; [done|].
    split; [lia|]. split; [done|]. by rewrite insert_id.
  - rewrite Ha. cbn [oget mbind res_bind].
    rewrite (wrapu_small 16 (Z.of_nat k)), Hlen, (proj2 (Z.ltb_ge _ _)) by lia.
    rewrite Htot, !(wrapu_small 16) by (rewrite ?length_app; lia).
    eexists _, _. split; [done|].
    pose proof (packet_new_head pb m a h s l (p_payload h + Z.of_nat k) (drop k s) Hp) as H'.
    rewrite !length_app, length_drop in H'. rewrite length_app.
    replace (Z.of_nat (length s - k + length (content l)))
      with (Z.of_nat (length s + length (content l)) - Z.of_nat k) in H' by lia.
    replace (Z.of_nat (length s - k)) with (Z.of_nat (length s) - Z.of_nat k) in H' by lia.
    split; [apply H'; [|by apply Forall_drop|lia]|done].
    pose proof (mread_sub _ _ _ _ k (length s - k) Hread) as E.
    rewrite (take_ge (drop k s)) in E by (rewrite length_drop; lia). apply E. lia.
Qed.

(** What lies in front of the data becomes part of it, as far as the block reaches
    or without limit, for the buffers that hold their data themselves; for others
    the call is refused unless it is forced. *)
Lemma pbuf_add_header_spec pb m a h s l hd force :
  packet pb m (Some a) (Node a h s :: l) → hd ≠ [] →
  mread m (p_payload h - Z.of_nat (length hd)) (length hd) = Ok hd → Forall is_byte hd →
  Z.of_nat (length (hd ++ s ++ content l)) < 2 ^ 16 →
  (if Z.land (p_type_internal h) PBUF_TYPE_FLAG_STRUCT_DATA_CONTIGUOUS =? 0 then force = true
   else a + SIZEOF_STRUCT_PBUF <= p_payload h - Z.of_nat (length hd)) →
  ∃ pb' h', pbuf_add_header_impl pb (Some a) (Z.of_nat (length hd)) force = Ok (0, pb') ∧
    packet pb' m (Some a) (Node a h' (hd ++ s) :: l) ∧
    p_payload h' = p_payload h - Z.of_nat (length hd) ∧ pb' = <[a := h']> pb.
Proof.
  intros Hp Hne Hrd Hby Hmx Hroom. pose proof Hp as Hp0. packet_inv Hp0.
  rewrite !length_app in Hmx. unfold pbuf_add_header_impl.
  assert (0 < length hd)%nat by (destruct hd; [done|simpl; lia]).
  rewrite (proj2 (Z.ltb_ge _ _)), (proj2 (Z.eqb_neq _ _)) by lia. rewrite Ha. cbn [oget mbind res_bind].
  rewrite length_app in Htot. rewrite (wrapu_small 16 (Z.of_nat (length hd))) by lia.
  rewrite !(wrapu_small 16) by lia.
  rewrite (proj2 (Z.ltb_ge _ _)) by (rewrite Htot; lia).
  assert ((if negb (Z.land (p_type_internal h) PBUF_TYPE_FLAG_STRUCT_DATA_CONTIGUOUS =? 0)
    then p_payload h - Z.of_nat (length hd) <? a + SIZEOF_STRUCT_PBUF else negb force) = false) as ->.
  { destruct (_ =? 0); cbn [negb]; [by rewrite Hroom|]. apply Z.ltb_ge. done. }
  eexists _, _. split; [done|].
  pose proof (packet_new_head pb m a h s l (p_payload h - Z.of_nat (length hd)) (hd ++ s) Hp) as H'.
  rewrite Htot, Hlen.
  replace (Z.of_nat (length s + length (content l)) + Z.of_nat (length hd))
    with (Z.of_nat (length ((hd ++ s) ++ content l))) by (rewrite !length_app; lia).
  replace (Z.of_nat (length s) + Z.of_nat (length hd)) with (Z.of_nat (length (hd ++ s)))
    by (rewrite length_app; lia).
  split; [apply H'; [|by apply Forall_app_2|rewrite !length_app; lia]|done].
  apply mread_Ok in Hrd as [_ Hrd]. apply mread_Ok in Hread as [_ Hread].
  apply mread_Ok. split; [done|]. rewrite length_app. intros i Hi.
  destruct (decide (i < length hd)%nat).
  - rewrite lookup_app_l by done. by apply Hrd.
  - rewrite lookup_app_r by lia. rewrite <- Hread by lia. f_equal. lia.
Qed.

End copying.

(** ** Linking packets *)

Lemma clen_loop_spec pb m fuel : ∀ p l n,
  packet pb m p l → (length l < fuel)%nat → 0 <= n → n + Z.of_nat (length l) < 2 ^ 16 →
  clen_loop fuel pb p n = Ok (n + Z.of_nat (length l)).
Proof.
  induction fuel as [|fuel IH]; intros p l n Hp Hf Hn Hl; [lia|]. packet_inv Hp.
  - cbn. f_equal. lia.
  - cbn [clen_loop]. rewrite Ha. cbn [oget mbind res_bind]. cbn [length] in *.
    rewrite (wrapu_small 16) by lia. rewrite (IH _ l0) by (done || lia). f_equal. lia.
Qed.

Lemma pbuf_clen_spec pb m p l :
  packet pb m p l → Z.of_nat (length l) < 2 ^ 16 → pbuf_clen pb p = Ok (Z.of_nat (length l)).
Proof.
  intros Hp Hl. apply (clen_loop_spec pb m _ p l 0); [done|by eapply packet_fuel|lia|done].
Qed.

Lemma packet_insert_other pb m p l a h :
  packet pb m p l → a ∉ n_addr <$> l → packet (<[a := h]> pb) m p l.
Proof.
  intros Hp Ha. eapply packet_pb_agree; [done|]. intros n Hn. apply lookup_insert_ne. intros ->.
  apply Ha. apply list_elem_of_fmap. by exists n.
Qed.

Lemma cat_loop_spec m fuel : ∀ pb h lh t lt,
  packet pb m (Some h) lh → packet pb m (Some t) lt →
  n_addr <$> lh ## n_addr <$> lt → (length lh < fuel)%nat →
  Z.of_nat (length (content lh ++ content lt)) < 2 ^ 16 →
  ∃ pb' lh', cat_loop fuel pb h t = Ok pb' ∧ packet pb' m (Some h) (lh' ++ lt) ∧
    content lh' = content lh ∧ n_addr <$> lh' = n_addr <$> lh ∧
    ∀ x, x ∉ n_addr <$> lh → pb' !! x = pb !! x.
Proof.
  induction fuel as [|fuel IH]; intros pb h lh t lt Hp Hpt Hdj Hf Hmx; [lia|].
  destruct (packet_head pb m (Some t) lt Hpt) as (t' & ht & [= <-] & Ht & Htt & _); [by inversion Hpt|].
  pose proof (packet_NoDup _ _ _ _ Hp) as Hnd. packet_inv Hp. cbn [fmap list_fmap n_addr] in Hdj, Hnd.
  apply NoDup_cons in Hnd as [Hnin _]. cbn [cat_loop]. rewrite Ha, Ht. cbn [oget mbind res_bind].
  rewrite content_cons in Hmx. cbn [n_data] in Hmx. rewrite !length_app in Hmx.
  rewrite length_app in Htot. rewrite (wrapu_small 16) by lia.
  set (h' := set_p_tot (p_tot_len h0 + p_tot_len ht) h0).
  assert (packet (<[h := h']> pb) m (Some t) lt) as Hpt' by (apply packet_insert_other; [done|set_solver]).
  destruct (p_next h0) as [nx|] eqn:En.
  - assert (packet (<[h := h']> pb) m (Some nx) l) as Hr' by by apply packet_insert_other.
    destruct (IH _ nx l t lt Hr' Hpt') as (pb' & l' & E & Hp' & Hc & Hadr & Hout);
      [set_solver|simpl in Hf; lia|rewrite length_app; lia|].
    exists pb', (Node h h' s :: l'). split; [done|]. split; [|split; [|split]].
    + assert (pb' !! h = Some h') as Hh by by rewrite Hout, lookup_insert_eq.
      cbn [app]. econstructor; try done.
      * cbn. rewrite content_app, !length_app, Hc. lia.
      * cbn. lia.
      * cbn. by rewrite En.
    + by rewrite !content_cons, Hc.
    + cbn [fmap list_fmap n_addr]. f_equal. exact Hadr.
    + cbn [fmap list_fmap n_addr]. intros x [Hx1 Hx2]%not_elem_of_cons.
      by rewrite Hout, lookup_insert_ne.
  - inversion Hrest; subst. simpl in Htot. unfold lwip_assert. rewrite (proj2 (Z.eqb_eq _ _)) by lia.
    cbn [mbind res_bind]. exists (<[h := set_p_next (Some t) h']> pb), [Node h (set_p_next (Some t) h') s].
    split; [done|]. split; [|split; [done|split; [done|]]].
    + cbn [app]. econstructor; try done.
      * by rewrite lookup_insert_eq.
      * cbn. rewrite length_app. lia.
      * cbn. lia.
      * cbn. apply packet_insert_other; [done|set_solver].
    + cbn [fmap list_fmap n_addr]. intros x [Hx1 _]%not_elem_of_cons. by rewrite lookup_insert_ne.
Qed.

Lemma pbuf_cat_spec pb m h lh t lt :
  packet pb m (Some h) lh → packet pb m (Some t) lt → n_addr <$> lh ## n_addr <$> lt →
  Z.of_nat (length (content lh ++ content lt)) < 2 ^ 16 →
  ∃ pb' lh', pbuf_cat pb (Some h) (Some t) = Ok pb' ∧ packet pb' m (Some h) (lh' ++ lt) ∧
    content lh' = content lh ∧ n_addr <$> lh' = n_addr <$> lh ∧
    ∀ x, x ∉ n_addr <$> lh → pb' !! x = pb !! x.
Proof.
  intros Hp Hpt Hdj Hmx. unfold pbuf_cat.
  assert (h ≠ t) as Hne.
  { intros ->. inversion Hp; inversion Hpt; subst. cbn [fmap list_fmap n_addr] in Hdj. set_solver. }
  unfold lwip_assert. rewrite (proj2 (Z.eqb_neq _ _) Hne). cbn [negb mbind res_bind].
  apply cat_loop_spec; [done..| |done]. by eapply packet_fuel.
Qed.

(** One more pointer to the first buffer of a packet. *)
Lemma pbuf_ref_spec pb m a h s l :
  packet pb m (Some a) (Node a h s :: l) → 0 <= p_ref h < 255 →
  pbuf_ref pb (Some a) = Ok (<[a := set_p_ref (p_ref h + 1) h]> pb) ∧
  packet (<[a := set_p_ref (p_ref h + 1) h]> pb) m (Some a) (Node a (set_p_ref (p_ref h + 1) h) s :: l).
Proof.
  intros Hp Hr. pose proof (packet_NoDup _ _ _ _ Hp) as [Hnin _]%NoDup_cons. packet_inv Hp.
  cbn [pbuf_ref]. rewrite Ha. cbn [oget mbind res_bind]. rewrite (wrapu_small 8) by lia.
  unfold lwip_assert. rewrite (proj2 (Z.ltb_lt _ _)) by lia. cbn [mbind res_bind]. split; [done|].
  econstructor; try done; [by rewrite lookup_insert_eq|]. by apply packet_insert_other.
Qed.

(** Hiding a header and revealing it again gives the same packet back. *)
Lemma header_roundtrip `{Platform} pb m a h s l k :
  packet pb m (Some a) (Node a h s :: l) → (0 < k <= length s)%nat →
  a + SIZEOF_STRUCT_PBUF <= p_payload h →
  Z.land (p_type_internal h) PBUF_TYPE_FLAG_STRUCT_DATA_CONTIGUOUS ≠ 0 →
  ∃ pb1 pb2 h2, pbuf_remove_header pb (Some a) (Z.of_nat k) = Ok (0, pb1) ∧
    pbuf_add_header pb1 (Some a) (Z.of_nat k) = Ok (0, pb2) ∧
    packet pb2 m (Some a) (Node a h2 s :: l) ∧ p_payload h2 = p_payload h.
Proof.
  intros Hp Hk Hroom Hty.
  destruct (pbuf_remove_header_spec pb m a h s l k) as (pb1 & h1 & E1 & Hp1 & Hpay & Ht1 & _);
    [done|lia|]. inversion Hp as [|? ? ? ? Ha Hlen Hread Hbytes Htot Hmax Hrest]; subst.
  assert (length (take k s) = k) as Lk by (rewrite length_take; lia).
  destruct (pbuf_add_header_spec pb1 m a h1 (drop k s) l (take k s) false)
    as (pb2 & h2 & E2 & Hp2 & Hpay2 & _).
  - done.
  - intros E. rewrite E in Lk. simpl in Lk. lia.
  - rewrite Lk, Hpay. replace (p_payload h + Z.of_nat k - Z.of_nat k) with (p_payload h + Z.of_nat 0) by lia.
    rewrite <- (drop_0 s) at 1. eapply mread_sub; [done|lia].
  - by apply Forall_take.
  - rewrite (app_assoc (take k s)), take_drop. lia.
  - rewrite Ht1, (proj2 (Z.eqb_neq _ _) Hty), Lk. lia.
  - rewrite take_drop in Hp2. rewrite Lk in E2, Hpay2. exists pb1, pb2, h2.
    split; [done|]. split; [done|]. split; [done|]. lia.
Qed.

(** C33 (functional).  Copying one packet over another: if there is room, the bytes of the
    target begin with those of the source, whatever buffers the two are split
    into; the rest of the target, the source and all memory outside the target
    are unchanged. *)
Theorem pbuf_copy_copies `{Platform} pb m pt pf lt lf :
  packet pb m pt lt → packet pb m pf lf → lt ≠ [] → lf ≠ [] → apart lt → apart_from lt lf →
  no_queue lt → no_queue lf → (length (content lf) <= length (content lt))%nat →
  ∃ m' lt', pbuf_copy pb m pt pf = Ok (ERR_OK, m') ∧
    packet pb m' pt lt' ∧ packet pb m' pf lf ∧ shape lt' = shape lt ∧ untouched lt m m' ∧
    content lt' = content lf ++ drop (length (content lf)) (content lt).
Proof. apply pbuf_copy_spec. Qed.

Definition demo_target : list node :=
  [Node 300 (Pbuf None 3000 8 8 PBUF_REF 0 1 0) [0; 0; 0; 0; 0; 0; 0; 0]].

Lemma pbuf_copy_copies_witness :
  (λ r, r.1) <$> pbuf_copy (H := linux32) demo_pb demo_m (Some 300) (Some 100) = Ok 0 ∧
  ∃ m' lt', pbuf_copy (H := linux32) demo_pb demo_m (Some 300) (Some 100) = Ok (ERR_OK, m') ∧
    packet demo_pb m' (Some 300) lt' ∧ packet demo_pb m' (Some 100) demo_l ∧
    shape lt' = shape demo_target ∧ untouched demo_target demo_m m' ∧
    content lt' = [97; 98; 97; 98; 99; 100; 101] ++ [0].
Proof.
  split; [vm_compute; reflexivity|].
  apply (pbuf_copy_copies (H := linux32) demo_pb demo_m (Some 300) (Some 100) demo_target demo_l).
  - concrete_packet.
  - apply demo_packet.
  - done.
  - done.
  - repeat constructor.
  - intros n1 n2 ->%list_elem_of_singleton Hn2 x H1 H2. unfold in_range in *.
    repeat (apply elem_of_cons in Hn2 as [-> |Hn2]); simpl in *; [lia..|by apply elem_of_nil in Hn2].
  - repeat constructor; simpl; congruence.
  - repeat constructor; simpl; congruence.
  - simpl. lia.
Defined.
