(* ===== verification/LwipDef.v ===== *)
(** * Common functions of lwip (lwip/core/def.c)

    Byte order, and replacements for functions C does not have everywhere:
    searching and comparing strings without regard to case, and printing a
    number.  Strings are byte arrays with a NUL; reading outside an array is a
    fault. *)

From S2P Require Import Prelude.

(** ** Byte order *)

(** [PP_HTONS] and [PP_HTONL] on a little-endian machine *)
Definition lwip_htons (n : Z) : Z :=
  u16 (Z.lor (Z.shiftl (Z.land n 0xff) 8) (Z.shiftr (Z.land n 0xff00) 8)).

Definition lwip_htonl (n : Z) : Z :=
  u32 (Z.lor (Z.lor (Z.shiftl (Z.land n 0xff) 24) (Z.shiftl (Z.land n 0xff00) 8))
             (Z.lor (Z.shiftr (Z.land n 0xff0000) 8) (Z.shiftr (Z.land n 0xff000000) 24))).

(** ** Searching and comparing *)

Definition char_at (s : list Z) (i : nat) : res Z := oget OutOfBounds (s !! i).

(** [strncmp(a, b, n) == 0] *)
Fixpoint strncmp_eq (n : nat) (a b : list Z) : res bool :=
  match n with
  | O => Ok true
  | S n =>
      x ← char_at a 0; y ← char_at b 0;
      if negb (x =? y) then Ok false
      else if x =? 0 then Ok true
      else strncmp_eq n (drop 1 a) (drop 1 b)
  end.

(** The position found; [buffer] and [token] are the arrays the pointers lead to. *)
Fixpoint strnstr_loop (fuel : nat) (buffer token : list Z) (tokenlen : nat) (n : Z) (i : nat)
    : res (option nat) :=
  match fuel with
  | O => Fault OutOfFuel
  | S fuel =>
      c ← char_at buffer i;
      if negb (c =? 0) && (Z.of_nat (i + tokenlen) <=? n) then
        t ← char_at token 0;
        eq ← (if c =? t then strncmp_eq tokenlen (drop i buffer) token else Ok false);
        if (eq : bool) then Ok (Some i) else strnstr_loop fuel buffer token tokenlen n (S i)
      else Ok None
  end.

Definition lwip_strnstr (buffer token : list Z) (n : Z) : res (option nat) :=
  tok ← c_string token;
  if bool_decide (tok = []) then Ok (Some 0%nat)
  else strnstr_loop (S (length buffer)) buffer token (length tok) n 0.

(** The test of both comparisons for two different characters. *)
Definition case_differs (c1 c2 : Z) : bool :=
  let c1_upc := Z.lor c1 0x20 in
  if (97 <=? c1_upc) && (c1_upc <=? 122) then negb (c1_upc =? Z.lor c2 0x20) else true.

Fixpoint lwip_stricmp (str1 str2 : list Z) : res Z :=
  match str1, str2 with
  | c1 :: str1, c2 :: str2 =>
      if negb (c1 =? c2) && case_differs c1 c2 then Ok 1
      else if negb (c1 =? 0) then lwip_stricmp str1 str2 else Ok 0
  | _, _ => Fault OutOfBounds
  end.

Section width.
Context `{Platform}.

(** [len] is decremented before it is tested. *)
Fixpoint lwip_strnicmp (str1 str2 : list Z) (len : Z) : res Z :=
  match str1, str2 with
  | c1 :: str1, c2 :: str2 =>
      if negb (c1 =? c2) && case_differs c1 c2 then Ok 1
      else
        let len := wrapu sizet_bits (len - 1) in
        if negb (len =? 0) && negb (c1 =? 0) then lwip_strnicmp str1 str2 len else Ok 0
  | _, _ => Fault OutOfBounds
  end.

Fixpoint strnistr_loop (fuel : nat) (buffer token : list Z) (tokenlen : nat) (n : Z) (i : nat)
    : res (option nat) :=
  match fuel with
  | O => Fault OutOfFuel
  | S fuel =>
      c ← char_at buffer i;
      if negb (c =? 0) && (Z.of_nat (i + tokenlen) <=? n) then
        r ← lwip_strnicmp (drop i buffer) token (Z.of_nat tokenlen);
        if r =? 0 then Ok (Some i) else strnistr_loop fuel buffer token tokenlen n (S i)
      else Ok None
  end.

Definition lwip_strnistr (buffer token : list Z) (n : Z) : res (option nat) :=
  tok ← c_string token;
  if bool_decide (tok = []) then Ok (Some 0%nat)
  else strnistr_loop (S (length buffer)) buffer token (length tok) n 0.

End width.

Fixpoint consttime_loop (k i : nat) (s1 s2 : list Z) (ret : Z) : res Z :=
  match k with
  | O => Ok ret
  | S k =>
      x ← char_at s1 i; y ← char_at s2 i;
      consttime_loop k (S i) s1 s2 (Z.lor ret (Z.lxor x y))
  end.

(** Zero exactly if the arrays agree; every byte is looked at. *)
Definition lwip_memcmp_consttime (s1 s2 : list Z) (len : nat) : res Z :=
  consttime_loop len 0 s1 s2 0.

(** ** Printing a number *)

(** Digits from the end of the buffer; [tmp] and [res] are positions in it.  An
    [int] is never longer than ten digits, so the bound is the fuel of [print_u]. *)
Fixpoint itoa_loop (fuel : nat) (buf : list Z) (n : Z) (tmp rs : nat) : res (list Z * Z * nat) :=
  match fuel with
  | O => Fault OutOfFuel
  | S fuel =>
      if negb (n =? 0) && (rs <? tmp)%nat then
        buf ← store buf (tmp - 1) [u8 (48 + Z.rem n 10)];
        itoa_loop fuel buf (Z.quot n 10) (tmp - 1) rs
      else Ok (buf, n, tmp)
  end.

(** [result] is the array, [bufsize] its size; the negation of the smallest [int]
    overflows. *)
Definition lwip_itoa (result : list Z) (bufsize : nat) (number : Z) : res (list Z) :=
  let n := if 0 <=? number then number else i32 (- number) in
  if (bufsize <? 2)%nat then (if (bufsize =? 1)%nat then store result 0 [0] else Ok result)
  else
    buf ← (if number <? 0 then store result 0 [45] else Ok result);
    let rs := if number <? 0 then 1%nat else 0%nat in
    buf ← store buf (bufsize - 1) [0];
    '(buf, n, tmp) ← itoa_loop 21 buf n (bufsize - 1) rs;
    if negb (n =? 0) then store buf 0 [0]
    else
      c ← char_at buf tmp;
      if c =? 0 then buf ← store buf rs [48]; store buf (S rs) [0]
      else
        d ← load buf tmp (bufsize - tmp);
        store buf rs d.

(** ** Byte order reverses the bytes *)

Lemma lor_shiftl_add k a b : 0 <= k → 0 <= b < 2 ^ k → Z.lor (Z.shiftl a k) b = a * 2 ^ k + b.
Proof.
  intros Hk Hb. pose proof (Z.add_lor_land (Z.shiftl a k) b) as E.
  assert (Z.land (Z.shiftl a k) b = 0) as E0.
  { apply Z.bits_inj'. intros i Hi. rewrite Z.land_spec, Z.bits_0.
    destruct (Z.lt_ge_cases i k) as [Hlt|Hge]; [by rewrite Z.shiftl_spec_low|].
    destruct (decide (b = 0)) as [->|]; [by rewrite Z.bits_0, andb_false_r|].
    rewrite (Z.bits_above_log2 b); [by rewrite andb_false_r|lia|].
    apply Z.log2_lt_pow2; [lia|]. pose proof (Z.pow_le_mono_r 2 k i ltac:(lia) Hge). lia. }
  rewrite E0, Z.shiftl_mul_pow2 in E by done. rewrite Z.shiftl_mul_pow2 by done. lia.
Qed.

Lemma land_byte n k :
  0 <= n → 0 <= k → Z.land n (Z.shiftl 255 k) = Z.shiftl ((n / 2 ^ k) mod 256) k.
Proof.
  intros Hn Hk. change 256 with (2 ^ 8). change 255 with (Z.ones 8).
  rewrite <- Z.shiftr_div_pow2, <- Z.land_ones by lia.
  apply Z.bits_inj'. intros i Hi. rewrite Z.land_spec.
  destruct (Z.lt_ge_cases i k) as [Hlt|Hge].
  - rewrite !Z.shiftl_spec_low by done. by rewrite andb_false_r.
  - rewrite !Z.shiftl_spec_high, Z.land_spec, Z.shiftr_spec by lia.
    by rewrite Z.sub_add.
Qed.

Lemma byte_range n k : 0 <= (n / 2 ^ k) mod 256 < 256.
Proof. by apply Z.mod_pos_bound. Qed.

Lemma land_byte_shiftr n k : 0 <= n → 0 <= k →
  Z.shiftr (Z.land n (Z.shiftl 255 k)) k = (n / 2 ^ k) mod 256.
Proof. intros. rewrite land_byte, Z.shiftr_shiftl_l, Z.sub_diag by lia. apply Z.shiftl_0_r. Qed.

Lemma lwip_htons_val n : 0 <= n < 2 ^ 16 → lwip_htons n = 256 * (n mod 256) + n / 256.
Proof.
  intros Hn. unfold lwip_htons. change 0xff00 with (Z.shiftl 255 8).
  change (Z.land n 0xff) with (Z.land n (Z.shiftl 255 0)).
  rewrite land_byte_shiftr, land_byte, Z.shiftl_0_r by lia.
  change (2 ^ 0) with 1. change (2 ^ 8) with 256. rewrite Z.div_1_r.
  assert (0 <= n / 256 < 256) by (split; [apply Z.div_pos; lia|apply Z.div_lt_upper_bound; lia]).
  rewrite (Z.mod_small (n / 256)), lor_shiftl_add by (simpl; lia).
  pose proof (Z.mod_pos_bound n 256). rewrite (wrapu_small 16); simpl; lia.
Qed.

(** The bytes of the result in memory, least significant first. *)
Lemma lwip_htons_bytes n : 0 <= n < 2 ^ 16 → le_bytes 2 (lwip_htons n) = reverse (le_bytes 2 n).
Proof.
  intros Hn. rewrite lwip_htons_val by done. cbn [le_bytes reverse rev_append].
  assert (0 <= n / 256 < 256) by (split; [apply Z.div_pos; lia|apply Z.div_lt_upper_bound; lia]).
  pose proof (Z.mod_pos_bound n 256). rewrite Z.mul_comm.
  rewrite Z.add_comm, Z.mod_add, Z.div_add by lia. rewrite !(Z.mod_small (n / 256)) by lia.
  rewrite (Z.div_small (n / 256)), Z.add_0_l, Z.mod_mod by lia. done.
Qed.

Lemma lwip_htonl_val n : 0 <= n < 2 ^ 32 →
  lwip_htonl n = (n mod 256) * 2 ^ 24 + (n / 2 ^ 8) mod 256 * 2 ^ 16 +
                 (n / 2 ^ 16) mod 256 * 2 ^ 8 + (n / 2 ^ 24) mod 256.
Proof.
  intros Hn. unfold lwip_htonl. change 0xff00 with (Z.shiftl 255 8).
  change 0xff0000 with (Z.shiftl 255 16). change 0xff000000 with (Z.shiftl 255 24).
  change (Z.land n 0xff) with (Z.land n (Z.shiftl 255 0)).
  rewrite (land_byte_shiftr n 24), !land_byte by lia.
  rewrite Z.shiftl_0_r, Z.shiftl_shiftl, Z.shiftr_shiftl_l by lia. change (8 + 8) with 16.
  change (16 - 8) with 8. change (2 ^ 0) with 1. rewrite Z.div_1_r.
  pose proof (Z.mod_pos_bound n 256). pose proof (byte_range n 8).
  pose proof (byte_range n 16). pose proof (byte_range n 24).
  rewrite (lor_shiftl_add 8) by lia.
  rewrite <- Z.lor_assoc, (lor_shiftl_add 16) by lia. rewrite lor_shiftl_add by lia.
  rewrite (wrapu_small 32) by lia. lia.
Qed.

Lemma htonl_bytes_val a b c d :
  is_byte a → is_byte b → is_byte c → is_byte d →
  lwip_htonl (le_val [a; b; c; d]) = le_val [d; c; b; a].
Proof.
  unfold is_byte. intros Ha Hb Hc Hd. cbn [le_val].
  rewrite lwip_htonl_val by lia.
  set (x := a + 256 * (b + 256 * (c + 256 * (d + 256 * 0)))).
  assert (x mod 256 = a ∧ (x / 2 ^ 8) mod 256 = b ∧ (x / 2 ^ 16) mod 256 = c ∧
          (x / 2 ^ 24) mod 256 = d) as (-> & -> & -> & ->).
  { subst x. repeat split; symmetry.
    - apply (Z.mod_unique _ _ (b + 256 * (c + 256 * d))); lia.
    - replace (_ / 2 ^ 8) with (b + 256 * (c + 256 * d))
        by (apply (Z.div_unique _ _ _ a); lia).
      apply (Z.mod_unique _ _ (c + 256 * d)); lia.
    - replace (_ / 2 ^ 16) with (c + 256 * d) by (apply (Z.div_unique _ _ _ (a + 256 * b)); lia).
      apply (Z.mod_unique _ _ d); lia.
    - replace (_ / 2 ^ 24) with d by (apply (Z.div_unique _ _ _ (a + 256 * (b + 256 * c))); lia).
      rewrite Z.mod_small; lia. }
  lia.
Qed.

(** Twice is nothing. *)
Lemma lwip_htonl_involutive n : 0 <= n < 2 ^ 32 → lwip_htonl (lwip_htonl n) = n.
Proof.
  intros Hn. rewrite <- (le_val_le_bytes 4 n) by (simpl; lia). cbn [le_bytes].
  assert (∀ z, is_byte (z mod 256)) by (intros; by apply Z.mod_pos_bound).
  by rewrite !htonl_bytes_val.
Qed.

Lemma lwip_htons_involutive n : 0 <= n < 2 ^ 16 → lwip_htons (lwip_htons n) = n.
Proof.
  intros Hn. assert (0 <= n / 256 < 256) by (split; [apply Z.div_pos; lia|apply Z.div_lt_upper_bound; lia]).
  pose proof (Z.mod_pos_bound n 256). pose proof (Z.div_mod n 256).
  rewrite (lwip_htons_val n) by done. rewrite lwip_htons_val by lia.
  replace (256 * (n mod 256) + n / 256) with (n / 256 + n mod 256 * 256) by lia.
  rewrite Z.mod_add, Z.div_add by lia. rewrite (Z.mod_small (n / 256)), (Z.div_small (n / 256)) by lia.
  lia.
Qed.

(** ** Strings without regard to case *)

Definition lower (c : Z) : Z := if (65 <=? c) && (c <=? 90) then c + 32 else c.

Lemma case_differs_table :
  forallb (λ a, forallb (λ b, (a =? b) ||
    eqb (case_differs a b) (negb (lower a =? lower b))) (Z.of_nat <$> seq 0 256))
    (Z.of_nat <$> seq 0 256) = true.
Proof. vm_compute. reflexivity. Qed.

Lemma byte_in_table c : is_byte c → c ∈ Z.of_nat <$> seq 0 256.
Proof.
  intros Hc. apply list_elem_of_fmap. exists (Z.to_nat c). unfold is_byte in Hc.
  rewrite elem_of_seq. lia.
Qed.

Lemma case_differs_lower a b :
  is_byte a → is_byte b → negb (a =? b) && case_differs a b = negb (lower a =? lower b).
Proof.
  intros Ha%byte_in_table Hb%byte_in_table. pose proof case_differs_table as H.
  apply list_elem_of_In in Ha, Hb. apply (proj1 (List.forallb_forall _ _)) with (x := a) in H; [|done].
  apply (proj1 (List.forallb_forall _ _)) with (x := b) in H; [|done].
  destruct (Z.eqb_spec a b) as [->|Hne]; [by rewrite Z.eqb_refl|].
  simpl in H. by apply eqb_prop in H.
Qed.

Lemma lower_zero c : is_byte c → lower c = 0 → c = 0.
Proof. unfold is_byte, lower. intros Hc. case_match eqn:E; lia. Qed.

Lemma cons_eq_iff (a : Z) (l1 l2 : list Z) : a :: l1 = a :: l2 ↔ l1 = l2.
Proof. split; [by intros [=]|by intros ->]. Qed.

(** Equal but for the case of letters. *)
Lemma lwip_stricmp_spec s1 : ∀ s2 r1 r2,
  Forall is_byte s1 → Forall is_byte s2 → no_nul s1 → no_nul s2 →
  lwip_stricmp (s1 ++ 0 :: r1) (s2 ++ 0 :: r2) =
  Ok (if bool_decide (lower <$> s1 = lower <$> s2) then 0 else 1).
Proof.
  assert (is_byte 0) as H0 by (unfold is_byte; lia).
  induction s1 as [|a s1 IH]; intros [|b s2] r1 r2 Hb1 Hb2 Hn1 Hn2; cbn [app lwip_stricmp fmap list_fmap].
  - done.
  - apply Forall_cons in Hb2 as [Hb _]. apply Forall_cons in Hn2 as [Hn _].
    rewrite case_differs_lower by done. destruct (Z.eqb_spec (lower 0) (lower b)) as [E|]; [|done].
    by apply eq_sym, lower_zero in E.
  - apply Forall_cons in Hb1 as [Ha _]. apply Forall_cons in Hn1 as [Hn _].
    rewrite case_differs_lower by done. destruct (Z.eqb_spec (lower a) (lower 0)) as [E|]; [|done].
    by apply lower_zero in E.
  - apply Forall_cons in Hb1 as [Ha Hb1]. apply Forall_cons in Hn1 as [Hna Hn1].
    apply Forall_cons in Hb2 as [Hb Hb2]. apply Forall_cons in Hn2 as [Hnb Hn2].
    rewrite case_differs_lower by done. destruct (Z.eqb_spec (lower a) (lower b)) as [E|Hne]; cbn [negb].
    + rewrite (proj2 (Z.eqb_neq _ _) Hna). cbn [negb]. rewrite IH by done. rewrite E.
      by rewrite (bool_decide_ext _ _ (cons_eq_iff (lower b) _ _)).
    + rewrite bool_decide_false; [done|]. by intros [=].
Qed.

Lemma strncmp_eq_spec t : ∀ u r x,
  no_nul u → no_nul t → strncmp_eq (length t) (u ++ 0 :: r) (t ++ x) = Ok (bool_decide (take (length t) u = t)).
Proof.
  induction t as [|b t IH]; intros [|a u] r x Hu Ht; cbn [app length strncmp_eq take]; [done..| |].
  - apply Forall_cons in Ht as [Hb _]. unfold char_at.
    cbn [lookup list_lookup oget mbind res_bind]. rewrite (proj2 (Z.eqb_neq 0 b)) by congruence.
    done.
  - apply Forall_cons in Hu as [Ha Hu]. apply Forall_cons in Ht as [Hb Ht].
    unfold char_at. cbn [lookup list_lookup oget mbind res_bind drop].
    destruct (Z.eqb_spec a b) as [->|Hne]; cbn [negb].
    + rewrite (proj2 (Z.eqb_neq _ _) Hb), !drop_0, IH by done.
      by rewrite (bool_decide_ext _ _ (cons_eq_iff b _ _)).
    + rewrite bool_decide_false; [done|]. by intros [=].
Qed.

Section search.
Context `{Platform}.

Lemma lwip_strnicmp_spec t : ∀ u r x,
  t ≠ [] → Forall is_byte u → Forall is_byte t → no_nul u → no_nul t →
  Z.of_nat (length t) < 2 ^ sizet_bits →
  lwip_strnicmp (u ++ 0 :: r) (t ++ x) (Z.of_nat (length t)) =
  Ok (if bool_decide (lower <$> take (length t) u = lower <$> t) then 0 else 1).
Proof.
  assert (is_byte 0) as H0 by (unfold is_byte; lia).
  induction t as [|b t IH]; intros [|a u] r x Hne Hbu Hbt Hu Ht Hsz; [done..| |];
    apply Forall_cons in Ht as [Hb Ht]; apply Forall_cons in Hbt as [Hbb Hbt];
    cbn [app lwip_strnicmp].
  - rewrite case_differs_lower by done. destruct (Z.eqb_spec (lower 0) (lower b)) as [E|]; [|done].
    by apply eq_sym, lower_zero in E.
  - apply Forall_cons in Hu as [Ha Hu]. apply Forall_cons in Hbu as [Hba Hbu].
    rewrite case_differs_lower by done. cbn [length take fmap list_fmap] in *.
    destruct (Z.eqb_spec (lower a) (lower b)) as [E|Hd]; cbn [negb].
    + replace (Z.of_nat (S (length t)) - 1) with (Z.of_nat (length t)) by lia.
      rewrite wrapu_small by lia. rewrite (proj2 (Z.eqb_neq _ _) Ha), andb_true_r.
      destruct t as [|c t]; [simpl; by rewrite E, bool_decide_true|].
      rewrite (proj2 (Z.eqb_neq _ 0)) by (simpl; lia). cbn [negb]. rewrite IH by (done || lia).
      rewrite E. by rewrite (bool_decide_ext _ _ (cons_eq_iff (lower b) _ _)).
    + rewrite bool_decide_false; [done|]. by intros [=].
Qed.

(** Both searches stop at the first match that ends within [n]. *)
Definition first_match (P : nat → Prop) (len : nat) (n : Z) (i : nat) (r : option nat) : Prop :=
  match r with
  | Some j => (i <= j)%nat ∧ Z.of_nat (j + len) <= n ∧ P j ∧ ∀ k, (i <= k < j)%nat → ¬ P k
  | None => ∀ k, (i <= k)%nat → Z.of_nat (k + len) <= n → ¬ P k
  end.

Lemma first_match_step P len n i r :
  ¬ P i → first_match P len n (S i) r → first_match P len n i r.
Proof.
  intros Hi. destruct r as [j|]; cbn [first_match].
  - intros (H1 & H2 & H3 & H4). split; [lia|]. split; [done|]. split; [done|]. intros k Hk.
    destruct (decide (k = i)) as [->|]; [done|]. apply H4. lia.
  - intros H1 k Hk Hn. destruct (decide (k = i)) as [->|]; [done|]. apply H1; [lia|done].
Qed.

Context (s t r x : list Z) (n : Z).
Hypothesis Hs : no_nul s.
Hypothesis Ht : no_nul t.
Hypothesis Ht0 : t ≠ [].

Lemma no_match_behind (f : Z → Z) i : (length s <= i)%nat → f <$> take (length t) (drop i s) ≠ f <$> t.
Proof using Ht0.
  clear -Ht0. intros Hi E%(f_equal length). rewrite !length_fmap, length_take, length_drop in E.
  destruct t; [done|cbn [length] in E; lia].
Qed.

Lemma char_inside i : (i < length s)%nat →
  ∃ c, char_at (s ++ 0 :: r) i = Ok c ∧ c ≠ 0 ∧ drop i (s ++ 0 :: r) = drop i s ++ 0 :: r ∧
    head (drop i s) = Some c.
Proof using Hs.
  intros Hi. destruct (lookup_lt_is_Some_2 s i Hi) as [c Hc]. exists c. unfold char_at.
  rewrite lookup_app_l, Hc by done. split; [done|]. split; [by eapply (Forall_lookup_1 _ _ _ _ Hs)|].
  split; [by rewrite drop_app_le by lia|]. by rewrite (drop_S _ _ _ Hc).
Qed.

Lemma strnstr_loop_spec fuel : ∀ i, (i <= length s)%nat → (length s - i < fuel)%nat →
  ∃ o, strnstr_loop fuel (s ++ 0 :: r) (t ++ 0 :: x) (length t) n i = Ok o ∧
    first_match (λ j, take (length t) (drop j s) = t) (length t) n i o.
Proof using Hs Ht Ht0.
  induction fuel as [|fuel IH]; intros i Hi Hf; [lia|]. cbn [strnstr_loop].
  destruct (decide (i = length s)) as [->|Hne].
  { unfold char_at. rewrite (list_lookup_middle s r 0 (length s) eq_refl). exists None. split; [done|].
    intros k Hk _ E. apply (no_match_behind id k Hk). by rewrite !list_fmap_id. }
  destruct (char_inside i) as (c & -> & Hc0 & Ed & Ehd); [lia|]. cbn [mbind res_bind].
  rewrite (proj2 (Z.eqb_neq _ _) Hc0). cbn [negb andb].
  destruct (Z.leb_spec (Z.of_nat (i + length t)) n) as [Hle|Hgt].
  2: { exists None. split; [done|]. intros k Hk Hn. lia. }
  destruct t as [|b t0]; [done|]. change (char_at ((b :: t0) ++ 0 :: x) 0) with (Ok b).
  cbn [mbind res_bind].
  assert ((if c =? b then strncmp_eq (length (b :: t0)) (drop i (s ++ 0 :: r)) ((b :: t0) ++ 0 :: x)
    else Ok false) = Ok (bool_decide (take (length (b :: t0)) (drop i s) = b :: t0))) as ->.
  { rewrite Ed. destruct (Z.eqb_spec c b) as [->|Hcb].
    - apply strncmp_eq_spec; [by apply Forall_drop|done].
    - rewrite bool_decide_false; [done|]. intros E. destruct (drop i s); [done|].
      injection Ehd as ->. injection E as E _. done. }
  cbn [mbind res_bind]. case_bool_decide as Hm.
  - exists (Some i). split; [done|]. split; [lia|]. split; [done|]. split; [done|]. lia.
  - destruct (IH (S i)) as (o & -> & Ho); [lia|lia|]. exists o. split; [done|].
    by apply first_match_step.
Qed.

Lemma lwip_strnstr_spec :
  ∃ o, lwip_strnstr (s ++ 0 :: r) (t ++ 0 :: x) n = Ok o ∧
    first_match (λ j, take (length t) (drop j s) = t) (length t) n 0 o.
Proof using Hs Ht Ht0.
  unfold lwip_strnstr. rewrite c_string_app by done. cbn [mbind res_bind].
  rewrite bool_decide_false by done. apply strnstr_loop_spec; [lia|]. rewrite length_app. simpl. lia.
Qed.

Hypothesis Hsb : Forall is_byte s.
Hypothesis Htb : Forall is_byte t.
Hypothesis Hsz : Z.of_nat (length t) < 2 ^ sizet_bits.

Lemma strnistr_loop_spec fuel : ∀ i, (i <= length s)%nat → (length s - i < fuel)%nat →
  ∃ o, strnistr_loop fuel (s ++ 0 :: r) (t ++ 0 :: x) (length t) n i = Ok o ∧
    first_match (λ j, lower <$> take (length t) (drop j s) = lower <$> t) (length t) n i o.
Proof using Hs Ht Ht0 Hsb Htb Hsz.
  induction fuel as [|fuel IH]; intros i Hi Hf; [lia|]. cbn [strnistr_loop].
  destruct (decide (i = length s)) as [->|Hne].
  { unfold char_at. rewrite (list_lookup_middle s r 0) by done. exists None. split; [done|].
    intros k Hk _ E. by apply (no_match_behind lower k Hk). }
  destruct (char_inside i) as (c & -> & Hc0 & Ed & Ehd); [lia|]. cbn [mbind res_bind].
  rewrite (proj2 (Z.eqb_neq _ _) Hc0). cbn [negb andb].
  destruct (Z.leb_spec (Z.of_nat (i + length t)) n) as [Hle|Hgt].
  2: { exists None. split; [done|]. intros k Hk Hn. lia. }
  rewrite Ed, lwip_strnicmp_spec by (done || by apply Forall_drop). cbn [mbind res_bind].
  case_bool_decide as Hm; cbn [Z.eqb].
  - exists (Some i). split; [done|]. split; [lia|]. split; [done|]. split; [done|]. lia.
  - destruct (IH (S i)) as (o & -> & Ho); [lia|lia|]. exists o. split; [done|].
    by apply first_match_step.
Qed.

Lemma lwip_strnistr_spec :
  ∃ o, lwip_strnistr (s ++ 0 :: r) (t ++ 0 :: x) n = Ok o ∧
    first_match (λ j, lower <$> take (length t) (drop j s) = lower <$> t) (length t) n 0 o.
Proof using Hs Ht Ht0 Hsb Htb Hsz.
  unfold lwip_strnistr. rewrite c_string_app by done. cbn [mbind res_bind].
  rewrite bool_decide_false by done. apply strnistr_loop_spec; [lia|]. rewrite length_app. simpl. lia.
Qed.

End search.

(** ** The text of a number *)

(** The digits of a positive number, none for zero. *)
Fixpoint digs (fuel : nat) (n : Z) : list Z :=
  match fuel with
  | O => []
  | S fuel => if n =? 0 then [] else digs fuel (n / 10) ++ [48 + n mod 10]
  end.

Lemma digs_dec fuel : ∀ n, 0 < n → digs fuel n = dec_digits fuel n.
Proof.
  induction fuel as [|fuel IH]; intros n Hn; [done|]. cbn [digs dec_digits].
  rewrite (proj2 (Z.eqb_neq _ _)) by lia. f_equal. destruct (Z.ltb_spec n 10) as [Hlt|Hge].
  - rewrite Z.div_small by lia. by destruct fuel.
  - apply IH. apply Z.div_str_pos. lia.
Qed.

Lemma digs_digits fuel : ∀ n, 0 <= n → Forall is_digit (digs fuel n).
Proof.
  induction fuel as [|fuel IH]; intros n Hn; cbn [digs]; [constructor|].
  case_match; [constructor|]. apply Forall_app_2; [apply IH, Z.div_pos; lia|].
  constructor; [|constructor]. unfold is_digit. pose proof (Z.mod_pos_bound n 10). lia.
Qed.

(** The digits go to the places before [tmp], as many as there are up to [rs]. *)
Lemma itoa_loop_spec rs fuel : ∀ buf n tmp,
  0 <= n < 10 ^ Z.of_nat fuel → (tmp <= length buf)%nat → (rs <= tmp)%nat →
  let d := digs fuel n in
  if decide (length d <= tmp - rs)%nat
  then itoa_loop (S fuel) buf n tmp rs =
         Ok (take (tmp - length d) buf ++ d ++ drop tmp buf, 0, (tmp - length d)%nat)
  else ∃ buf' n', itoa_loop (S fuel) buf n tmp rs = Ok (buf', n', rs) ∧ n' ≠ 0 ∧
         length buf' = length buf.
Proof.
  induction fuel as [|fuel IH]; intros buf n tmp Hn Htmp Hrs.
  { simpl in Hn. replace n with 0 by lia. simpl. by rewrite Nat.sub_0_r, take_drop. }
  cbn [digs]. destruct (Z.eqb_spec n 0) as [->|Hn0].
  { simpl. by rewrite Nat.sub_0_r, take_drop. }
  assert (0 <= n / 10 < 10 ^ Z.of_nat fuel) as Hn'.
  { rewrite Nat2Z.inj_succ, Z.pow_succ_r in Hn by lia. split; [apply Z.div_pos; lia|].
    apply Z.div_lt_upper_bound; lia. }
  remember (S fuel) as f1. cbn [itoa_loop]. rewrite (proj2 (Z.eqb_neq _ _) Hn0). cbn [negb andb].
  rewrite length_app. cbn [length]. destruct (Nat.ltb_spec rs tmp) as [Hlt|Hge].
  - pose proof (Z.mod_pos_bound n 10). rewrite Z.rem_mod_nonneg, Z.quot_div_nonneg by lia.
    rewrite (wrapu_small 8) by lia. rewrite store_Ok by (simpl; lia). cbn [mbind res_bind].
    set (buf1 := take (tmp - 1) buf ++ [48 + n mod 10] ++ drop (tmp - 1 + length [48 + n mod 10]) buf).
    assert (length buf1 = length buf) as L1.
    { subst buf1. rewrite !length_app, length_take, length_drop. simpl. lia. }
    specialize (IH buf1 (n / 10) (tmp - 1)%nat Hn' ltac:(lia) ltac:(lia)). cbv zeta in IH.
    set (d := digs fuel (n / 10)) in *.
    destruct (decide (length d <= tmp - 1 - rs)%nat) as [Hfit|Hno].
    + rewrite decide_True by lia. rewrite IH. replace (tmp - 1 - length d)%nat with (tmp - (length d + 1))%nat by lia.
      do 3 f_equal. subst buf1. rewrite take_app_le by (rewrite length_take; lia).
      rewrite take_take, Nat.min_l by lia. rewrite (drop_app_length' (take _ _)) by (rewrite length_take; lia).
      cbn [length]. rewrite <- app_assoc. do 3 f_equal. f_equal. lia.
    + rewrite decide_False by lia. destruct IH as (b' & n' & -> & Hn0' & Lb). exists b', n'.
      split; [done|]. split; [done|]. lia.
  - rewrite decide_False by lia. exists buf, n. replace tmp with rs by lia. done.
Qed.

(** The buffer with the sign at its start and the NUL at its end. *)
Lemma itoa_frame result bufsize number :
  length result = bufsize → (2 <= bufsize)%nat →
  let sg := if number <? 0 then [45] else [] in
  ∃ mid, length mid = (bufsize - 1 - length sg)%nat ∧
    ((if number <? 0 then store result 0 [45] else Ok result) ≫= λ b, store b (bufsize - 1) [0])
    = Ok (sg ++ mid ++ [0]).
Proof.
  intros Hl H2 sg.
  assert (∃ r0, (if number <? 0 then store result 0 [45] else Ok result) = Ok (sg ++ r0) ∧
    (length sg + length r0)%nat = bufsize) as (r0 & -> & L0).
  { subst sg. destruct (number <? 0); [|by exists result].
    rewrite store_Ok by (simpl; lia). eexists. split; [done|]. simpl. rewrite length_drop. lia. }
  cbn [mbind res_bind]. exists (take (bufsize - 1 - length sg) r0).
  assert (length sg <= 1)%nat by (subst sg; case_match; simpl; lia).
  rewrite length_take. split; [lia|]. rewrite store_Ok by (rewrite length_app; simpl; lia).
  rewrite (drop_ge (sg ++ r0)) by (rewrite length_app; simpl; lia).
  rewrite take_app_ge by lia. by rewrite app_nil_r, <- app_assoc.
Qed.

Lemma print_u_digs n : 0 < n → digs 20 n = print_u n.
Proof. apply digs_dec. Qed.

(** The digits have been written: they are moved to the front. *)
Lemma itoa_move sg mid d bufsize :
  no_nul sg → no_nul d → d ≠ [] → (length sg + length d < bufsize)%nat →
  length mid = (bufsize - 1 - length sg)%nat →
  let buf1 := sg ++ mid ++ [0] in
  let tmp := (bufsize - 1 - length d)%nat in
  let buf2 := take tmp buf1 ++ d ++ drop (bufsize - 1) buf1 in
  ∃ c b, char_at buf2 tmp = Ok c ∧ c ≠ 0 ∧
    (x ← load buf2 tmp (bufsize - tmp); store buf2 (length sg) x) = Ok b ∧
    length b = bufsize ∧ c_string b = Ok (sg ++ d).
Proof.
  intros Hsg Hd Hd0 Hfit Lm buf1 tmp buf2.
  assert (drop (bufsize - 1) buf1 = [0]) as E0.
  { subst buf1. rewrite app_assoc, drop_app_length'; [done|]. rewrite length_app. lia. }
  assert (length (take tmp buf1) = tmp) as Lt.
  { subst buf1. rewrite length_take, !length_app. simpl. lia. }
  assert (length buf2 = bufsize) as L2.
  { subst buf2. rewrite E0, !length_app, Lt. simpl. subst tmp. lia. }
  destruct d as [|c d]; [done|]. exists c. unfold char_at.
  assert (buf2 !! tmp = Some c) as ->.
  { subst buf2. cbn [app]. by apply list_lookup_middle. }
  rewrite load_Ok by (rewrite L2; subst tmp; lia). cbn [mbind res_bind].
  assert (take (bufsize - tmp) (drop tmp buf2) = (c :: d) ++ [0]) as ->.
  { subst buf2. rewrite E0, drop_app_length' by done. rewrite take_ge; [done|].
    rewrite length_app. simpl in *. subst tmp. lia. }
  rewrite store_Ok by (rewrite L2, length_app; simpl in *; lia).
  eexists. split; [done|]. apply Forall_cons in Hd as Hd'. split; [by destruct Hd'|]. split; [done|].
  split; [rewrite !length_app, length_take, length_drop, L2; simpl in *; lia|].
  assert (take (length sg) buf2 = sg) as ->.
  { subst buf2. rewrite take_app_le by (rewrite Lt; subst tmp; lia). rewrite take_take.
    subst buf1. rewrite Nat.min_l by (subst tmp; lia). by rewrite take_app_length. }
  rewrite <- app_assoc, (app_assoc sg). cbn [app]. apply c_string_app. by apply Forall_app_2.
Qed.

(** The text fits with its NUL, or the string is empty. *)
Lemma lwip_itoa_spec result bufsize number :
  length result = bufsize → (2 <= bufsize)%nat → - 2 ^ 31 < number < 2 ^ 31 →
  let text := (if number <? 0 then [45] else []) ++ print_u (Z.abs number) in
  ∃ b, lwip_itoa result bufsize number = Ok b ∧ length b = bufsize ∧
    c_string b = Ok (if decide (length text < bufsize)%nat then text else []).
Proof.
  intros Hl H2 Hn text. unfold lwip_itoa.
  rewrite (proj2 (Nat.ltb_ge _ _)) by lia.
  assert ((if 0 <=? number then number else i32 (- number)) = Z.abs number) as ->.
  { destruct (Z.leb_spec 0 number); [lia|]. rewrite wraps_small by (simpl; lia). lia. }
  destruct (itoa_frame result bufsize number Hl H2) as (mid & Lm & E).
  set (sg := if number <? 0 then [45] else []) in *.
  destruct (if number <? 0 then store result 0 [45] else Ok result) as [b0|]; [|done].
  cbn [mbind res_bind] in E |- *. rewrite E. cbn [mbind res_bind].
  replace (if number <? 0 then 1%nat else 0%nat) with (length sg) by (subst sg; by destruct (number <? 0)).
  assert (length sg <= 1)%nat as Ls by (subst sg; case_match; simpl; lia).
  pose proof (itoa_loop_spec (length sg) 20 (sg ++ mid ++ [0]) (Z.abs number) (bufsize - 1)) as Hloop.
  cbv zeta in Hloop. specialize (Hloop ltac:(split; [lia|apply (Z.lt_trans _ (2 ^ 31)); [lia|done]])
    ltac:(rewrite !length_app; simpl; lia) ltac:(lia)).
  destruct (decide (number = 0)) as [->|Hn0].
  - subst sg text. change (0 <? 0) with false in *. cbn [app length] in *. change (digs 20 (Z.abs 0)) with (@nil Z) in Hloop. rewrite decide_True in Hloop by (simpl; lia).
    cbn [length app] in Hloop. rewrite Nat.sub_0_r, take_drop in Hloop. rewrite Hloop.
    cbn [mbind res_bind Z.eqb negb]. unfold char_at. rewrite list_lookup_middle by lia.
    cbn [oget mbind res_bind Z.eqb]. rewrite store_byte by (rewrite length_app; simpl; lia).
    cbn [mbind res_bind]. rewrite store_byte by (rewrite length_insert, length_app; simpl; lia).
    eexists. split; [done|]. rewrite !length_insert, length_app. split; [simpl; lia|].
    destruct (mid ++ [0]) as [|x [|y l]] eqn:Em;
      [by destruct mid|apply (f_equal length) in Em; rewrite length_app in Em; simpl in Em; lia|].
    change (print_u (Z.abs 0)) with [48]. rewrite decide_True by (simpl; lia). done.
  - rewrite print_u_digs in Hloop by lia. set (d := print_u (Z.abs number)) in *.
    assert (Forall is_digit d) as Hd by apply dec_digits_digits.
    replace (length text) with (length sg + length d)%nat by (subst text; by rewrite length_app).
    destruct (decide (length d <= bufsize - 1 - length sg)%nat) as [Hfit|Hno].
    + rewrite Hloop, decide_True by lia. cbn [mbind res_bind Z.eqb negb].
      destruct (itoa_move sg mid d bufsize) as (c & b & -> & Hc & Eb & Lb & Cb); [|by apply is_digit_nonzero| |lia|done|].
      * subst sg. case_match; repeat constructor. lia.
      * intros E'. apply (f_equal length) in E'. subst d. unfold print_u in E'. cbn [dec_digits] in E'.
        rewrite length_app in E'. simpl in E'. lia.
      * cbn [mbind res_bind]. rewrite (proj2 (Z.eqb_neq _ _) Hc). exists b. done.
    + destruct Hloop as (b' & n' & -> & Hn' & Lb'). cbn [mbind res_bind].
      rewrite (proj2 (Z.eqb_neq _ _) Hn'), decide_False by lia. cbn [negb].
      rewrite !length_app in Lb'. cbn [length] in Lb'. rewrite store_byte by lia. eexists. split; [done|].
      rewrite length_insert. split; [lia|]. destruct b'; [simpl in Lb'; lia|done].
Qed.
