(* ===== verification/Chksum.v ===== *)
(** * The Internet checksum (lwip/core/inet_chksum.c)

    The code sums 16-bit words as the processor reads them, starting at whatever
    address the data has, buffer by buffer, and swaps bytes where a buffer begins
    at an odd position of the packet; the specification (RFC 1071) is the one's
    complement sum of the bytes of the packet taken in pairs.  The file is
    compiled with version 2 of the algorithm, for little-endian machines. *)

From S2P Require Import Prelude Memp SysArch Pbuf PbufPacket PbufWrite LwipDef.

(** ** The code *)

Definition FOLD_U32T (u : Z) : Z := u32 (Z.shiftr u 16 + Z.land u 0xffff).

Definition SWAP_BYTES_IN_WORD (w : Z) : Z :=
  Z.lor (Z.shiftl (Z.land w 0xff) 8) (Z.shiftr (Z.land w 0xff00) 8).

(** [while (len > 1) { sum += *ps++; len -= 2; }]: where it ends. *)
Fixpoint sum_loop (fuel : nat) (m : gmap Z Z) (ps len sum : Z) : res (Z * Z * Z) :=
  if 1 <? len then
    match fuel with
    | O => Fault OutOfFuel
    | S fuel =>
        w ← mread m ps 2;
        sum_loop fuel m (ps + 2) (len - 2) (u32 (sum + le_val w))
    end
  else Ok (ps, len, sum).

(** [t] is the word of the bytes at the two ends. *)
Definition lwip_standard_chksum (m : gmap Z Z) (dataptr len : Z) : res Z :=
  let odd := negb (Z.land dataptr 1 =? 0) in
  '(pb, len, t1) ←
    (if odd && (0 <? len)
     then b ← oget BadPointer (m !! dataptr); Ok (dataptr + 1, len - 1, b)
     else Ok (dataptr, len, 0));
  '(ps, len, sum) ← sum_loop (Z.to_nat len) m pb len 0;
  t0 ← (if 0 <? len then oget BadPointer (m !! ps) else Ok 0);
  let sum := u32 (sum + le_val [t0; t1]) in
  let sum := FOLD_U32T (FOLD_U32T sum) in
  let sum := if odd then SWAP_BYTES_IN_WORD sum else sum in
  Ok (u16 sum).

(** The loop over the chain, common to three of the functions: the sum so far and
    whether it is swapped. *)
Fixpoint chain_loop (fuel : nat) (pb : gmap Z pbuf) (m : gmap Z Z) (q : option Z) (acc : Z)
    (swapped : bool) : res (Z * bool) :=
  match q, fuel with
  | None, _ => Ok (acc, swapped)
  | Some _, O => Fault OutOfFuel
  | Some a, S fuel =>
      h ← oget BadPointer (pb !! a);
      s ← lwip_standard_chksum m (p_payload h) (p_len h);
      let acc := FOLD_U32T (u32 (acc + s)) in
      let '(swapped, acc) :=
        if negb (p_len h mod 2 =? 0) then (negb swapped, SWAP_BYTES_IN_WORD acc) else (swapped, acc) in
      chain_loop fuel pb m (p_next h) acc swapped
  end.

(** The end of the functions with a pseudo header. *)
Definition pseudo_end (acc : Z) (swapped : bool) (proto proto_len : Z) : Z :=
  let acc := if swapped then SWAP_BYTES_IN_WORD acc else acc in
  let acc := u32 (acc + lwip_htons (u16 proto)) in
  let acc := u32 (acc + lwip_htons proto_len) in
  let acc := FOLD_U32T (FOLD_U32T acc) in
  u16 (Z.lnot (Z.land acc 0xffff)).

Definition inet_cksum_pseudo_base (pb : gmap Z pbuf) (m : gmap Z Z) (p : option Z)
    (proto proto_len acc : Z) : res Z :=
  '(acc, swapped) ← chain_loop (chain_fuel pb) pb m p acc false;
  Ok (pseudo_end acc swapped proto proto_len).

(** Both halves of an address are added. *)
Definition add_addr (acc addr : Z) : Z :=
  u32 (u32 (acc + Z.land addr 0xffff) + Z.land (Z.shiftr addr 16) 0xffff).

Definition inet_chksum_pseudo (pb : gmap Z pbuf) (m : gmap Z Z) (p : option Z)
    (proto proto_len src dest : Z) : res Z :=
  let acc := add_addr (add_addr 0 src) dest in
  inet_cksum_pseudo_base pb m p proto proto_len (FOLD_U32T (FOLD_U32T acc)).

(** Four words each, taken in turns. *)
Fixpoint add_addrs (acc : Z) (src dest : list Z) : Z :=
  match src, dest with
  | s :: src, d :: dest => add_addrs (add_addr (add_addr acc s) d) src dest
  | _, _ => acc
  end.

Definition ip6_chksum_pseudo (pb : gmap Z pbuf) (m : gmap Z Z) (p : option Z)
    (proto proto_len : Z) (src dest : list Z) : res Z :=
  let acc := add_addrs 0 src dest in
  inet_cksum_pseudo_base pb m p proto proto_len (FOLD_U32T (FOLD_U32T acc)).

(** [ip_addr_t]: four words, of which a version 4 address is the first, and a tag. *)
Record ip_addr : Type := IpAddr { ip_addr_w : list Z; ip_type : Z }.

Definition IPADDR_TYPE_V4 : Z := 0.
Definition IPADDR_TYPE_V6 : Z := 6.
Definition IP_IS_V6 (a : ip_addr) : bool := ip_type a =? IPADDR_TYPE_V6.
Definition ip_2_ip4 (a : ip_addr) : Z := default 0 (head (ip_addr_w a)).

Definition ip_chksum_pseudo (pb : gmap Z pbuf) (m : gmap Z Z) (p : option Z)
    (proto proto_len : Z) (src dest : ip_addr) : res Z :=
  if IP_IS_V6 dest then ip6_chksum_pseudo pb m p proto proto_len (ip_addr_w src) (ip_addr_w dest)
  else inet_chksum_pseudo pb m p proto proto_len (ip_2_ip4 src) (ip_2_ip4 dest).

(** Over the first [chksum_len] bytes only; the assertion is in the code. *)
Fixpoint partial_loop (fuel : nat) (pb : gmap Z pbuf) (m : gmap Z Z) (q : option Z)
    (chksum_len acc : Z) (swapped : bool) : res (Z * bool) :=
  if negb (is_some q && (0 <? chksum_len)) then Ok (acc, swapped)
  else
    match q, fuel with
    | Some a, S fuel =>
        h ← oget BadPointer (pb !! a);
        let chklen := if chksum_len <? p_len h then chksum_len else p_len h in
        s ← lwip_standard_chksum m (p_payload h) chklen;
        let acc := u32 (acc + s) in
        let chksum_len := u16 (chksum_len - chklen) in
        _ ← lwip_assert (chksum_len <? 0x7fff);
        let acc := FOLD_U32T acc in
        let '(swapped, acc) :=
          if negb (p_len h mod 2 =? 0) then (negb swapped, SWAP_BYTES_IN_WORD acc) else (swapped, acc) in
        partial_loop fuel pb m (p_next h) chksum_len acc swapped
    | _, _ => Fault OutOfFuel
    end.

Definition inet_cksum_pseudo_partial_base (pb : gmap Z pbuf) (m : gmap Z Z) (p : option Z)
    (proto proto_len chksum_len acc : Z) : res Z :=
  '(acc, swapped) ← partial_loop (chain_fuel pb) pb m p chksum_len acc false;
  Ok (pseudo_end acc swapped proto proto_len).

Definition inet_chksum_pseudo_partial (pb : gmap Z pbuf) (m : gmap Z Z) (p : option Z)
    (proto proto_len chksum_len src dest : Z) : res Z :=
  let acc := add_addr (add_addr 0 src) dest in
  inet_cksum_pseudo_partial_base pb m p proto proto_len chksum_len (FOLD_U32T (FOLD_U32T acc)).

Definition ip6_chksum_pseudo_partial (pb : gmap Z pbuf) (m : gmap Z Z) (p : option Z)
    (proto proto_len chksum_len : Z) (src dest : list Z) : res Z :=
  let acc := add_addrs 0 src dest in
  inet_cksum_pseudo_partial_base pb m p proto proto_len chksum_len (FOLD_U32T (FOLD_U32T acc)).

Definition ip_chksum_pseudo_partial (pb : gmap Z pbuf) (m : gmap Z Z) (p : option Z)
    (proto proto_len chksum_len : Z) (src dest : ip_addr) : res Z :=
  if IP_IS_V6 dest
  then ip6_chksum_pseudo_partial pb m p proto proto_len chksum_len (ip_addr_w src) (ip_addr_w dest)
  else inet_chksum_pseudo_partial pb m p proto proto_len chksum_len (ip_2_ip4 src) (ip_2_ip4 dest).

Definition inet_chksum (m : gmap Z Z) (dataptr len : Z) : res Z :=
  s ← lwip_standard_chksum m dataptr len; Ok (u16 (Z.lnot s)).

Definition inet_chksum_pbuf (pb : gmap Z pbuf) (m : gmap Z Z) (p : option Z) : res Z :=
  '(acc, swapped) ← chain_loop (chain_fuel pb) pb m p 0 false;
  let acc := if (swapped : bool) then SWAP_BYTES_IN_WORD acc else acc in
  Ok (u16 (Z.lnot (Z.land acc 0xffff))).

(** ** RFC 1071 *)

(** Addition with the carry added back. *)
Definition oc_add (a b : Z) : Z := if 0xffff <? a + b then a + b - 0xffff else a + b.

(** The sum of the pairs of bytes, the first of a pair the more significant one. *)
Fixpoint rfc_sum (l : list Z) : Z :=
  match l with
  | [] => 0
  | [a] => 256 * a
  | a :: b :: l => oc_add (256 * a + b) (rfc_sum l)
  end.

Definition rfc_checksum (l : list Z) : Z := 0xffff - rfc_sum l.

(** ** One's complement sums

    A sum is determined by a natural number: what counts is its remainder by
    65535 and whether it is zero, because both 0 and 65535 stand for remainder
    zero. *)

Definition rep (x n : Z) : Prop :=
  0 <= x <= 0xffff ∧ 0 <= n ∧ x mod 0xffff = n mod 0xffff ∧ (x = 0 ↔ n = 0).

Definition same (a b : Z) : Prop := 0 <= b ∧ a mod 0xffff = b mod 0xffff ∧ (a = 0 ↔ b = 0).

Lemma rep_unique x y n : rep x n → rep y n → x = y.
Proof.
  intros (Hx & _ & Ex & Zx) (Hy & _ & Ey & Zy).
  pose proof (Z.div_mod x 0xffff). pose proof (Z.div_mod y 0xffff). rewrite Ex in *. rewrite Ey in *.
  assert (0 <= x / 0xffff <= 1) by (split; [apply Z.div_pos; lia|apply Z.div_le_upper_bound; lia]).
  assert (0 <= y / 0xffff <= 1) by (split; [apply Z.div_pos; lia|apply Z.div_le_upper_bound; lia]).
  pose proof (Z.mod_pos_bound n 0xffff). lia.
Qed.

Lemma rep_same x n n' : rep x n → same n n' → rep x n'.
Proof. intros (H1 & H2 & H3 & H4) (H5 & H6 & H7). split; [done|]. split; [done|]. split; [congruence|tauto]. Qed.

Lemma rep_small x : 0 <= x <= 0xffff → rep x x.
Proof. intros Hx. split; [done|]. split; [lia|]. done. Qed.

Lemma fold_val u : 0 <= u < 2 ^ 32 → FOLD_U32T u = u / 2 ^ 16 + u mod 2 ^ 16.
Proof.
  intros Hu. unfold FOLD_U32T. change 0xffff with (Z.ones 16).
  rewrite Z.land_ones, Z.shiftr_div_pow2 by lia.
  pose proof (Z.mod_pos_bound u (2 ^ 16)). assert (0 <= u / 2 ^ 16 < 2 ^ 16).
  { split; [apply Z.div_pos; lia|apply Z.div_lt_upper_bound; lia]. }
  apply wrapu_small. lia.
Qed.

Lemma fold_same u : 0 <= u < 2 ^ 32 →
  0 <= FOLD_U32T u ∧ FOLD_U32T u mod 0xffff = u mod 0xffff ∧ (FOLD_U32T u = 0 ↔ u = 0).
Proof.
  intros Hu. rewrite fold_val by done. pose proof (Z.div_mod u (2 ^ 16)).
  pose proof (Z.mod_pos_bound u (2 ^ 16)).
  assert (0 <= u / 2 ^ 16) by (apply Z.div_pos; lia). split; [lia|]. split; [|lia].
  set (q := u / 2 ^ 16) in *. set (r := u mod 2 ^ 16) in *.
  replace u with (q + r + q * 0xffff) by lia. by rewrite Z.mod_add by lia.
Qed.

(** Once is enough when there is at most one carry, twice always. *)
Lemma fold_once u : 0 <= u <= 0x1fffe → rep (FOLD_U32T u) u.
Proof.
  intros Hu. destruct (fold_same u ltac:(lia)) as (H1 & H2 & H3).
  split; [|split; [lia|done]]. split; [done|]. rewrite fold_val by lia.
  pose proof (Z.div_mod u (2 ^ 16)). pose proof (Z.mod_pos_bound u (2 ^ 16)).
  assert (0 <= u / 2 ^ 16 < 2).
  { split; [apply Z.div_pos; lia|apply Z.div_lt_upper_bound; lia]. }
  lia.
Qed.

Lemma fold_twice u : 0 <= u < 2 ^ 32 → rep (FOLD_U32T (FOLD_U32T u)) u.
Proof.
  intros Hu. destruct (fold_same u Hu) as (H1 & H2 & H3).
  eapply rep_same; [apply fold_once|].
  - split; [done|]. rewrite fold_val by done. pose proof (Z.mod_pos_bound u (2 ^ 16)).
    assert (u / 2 ^ 16 < 2 ^ 16) by (apply Z.div_lt_upper_bound; lia). lia.
  - split; [lia|]. done.
Qed.

Lemma swap_val w : 0 <= w < 2 ^ 16 → SWAP_BYTES_IN_WORD w = 256 * (w mod 256) + w / 256.
Proof.
  intros Hw. pose proof (lwip_htons_val w Hw) as E. unfold lwip_htons in E.
  fold (SWAP_BYTES_IN_WORD w) in E. rewrite <- E. symmetry. apply wrapu_small.
  unfold SWAP_BYTES_IN_WORD. change 0xff00 with (Z.shiftl 255 8).
  change (Z.land w 0xff) with (Z.land w (Z.shiftl 255 0)).
  rewrite land_byte_shiftr, land_byte, Z.shiftl_0_r by lia.
  pose proof (byte_range w 0). pose proof (byte_range w 8). rewrite lor_shiftl_add by lia. lia.
Qed.

(** Swapping the bytes multiplies by 256. *)
Lemma rep_swap x n : rep x n → rep (SWAP_BYTES_IN_WORD x) (256 * n).
Proof.
  intros (Hx & Hn & E & Z0). rewrite swap_val by lia.
  pose proof (Z.mod_pos_bound x 256). pose proof (Z.div_mod x 256).
  assert (0 <= x / 256 < 256) by (split; [apply Z.div_pos; lia|apply Z.div_lt_upper_bound; lia]).
  split; [lia|]. split; [lia|]. split; [|lia].
  rewrite Z.mul_mod, <- E, <- Z.mul_mod by lia.
  set (q := x / 256) in *. set (r := x mod 256) in *.
  replace (256 * x) with (256 * r + q + q * 0xffff) by lia. by rewrite Z.mod_add by lia.
Qed.

Lemma rep_add x y n k : rep x n → rep y k → rep (FOLD_U32T (u32 (x + y))) (n + k).
Proof.
  intros (Hx & Hn & Ex & Zx) (Hy & Hk & Ey & Zy). rewrite (wrapu_small 32) by lia.
  eapply rep_same; [apply fold_once; lia|]. split; [lia|]. split; [|lia].
  by rewrite Z.add_mod, Ex, Ey, <- Z.add_mod by lia.
Qed.

Lemma rep_complement x n : rep x n → rep (0xffff - x) (0xffff - x).
Proof. intros (Hx & _). apply rep_small. lia. Qed.

Lemma same_refl a : 0 <= a → same a a.
Proof. done. Qed.

Lemma same_sym a b : 0 <= a → same a b → same b a.
Proof. intros H0 (H1 & H2 & H3). split; [done|]. split; [congruence|tauto]. Qed.

Lemma same_trans a b c : same a b → same b c → same a c.
Proof. intros (H1 & H2 & H3) (H4 & H5 & H6). split; [done|]. split; [congruence|tauto]. Qed.

Lemma same_add a a' b b' : 0 <= a → 0 <= b → same a a' → same b b' → same (a + b) (a' + b').
Proof.
  intros Ha Hb (H1 & H2 & H3) (H4 & H5 & H6). split; [lia|]. split; [|lia].
  by rewrite Z.add_mod, H2, H5, <- Z.add_mod by lia.
Qed.

Lemma same_mul a a' : 0 <= a → same a a' → same (256 * a) (256 * a').
Proof.
  intros Ha (H1 & H2 & H3). split; [lia|]. split; [|lia].
  by rewrite Z.mul_mod, H2, <- Z.mul_mod by lia.
Qed.

Lemma same_twice a : 0 <= a → same (256 * (256 * a)) a.
Proof.
  intros Ha. split; [done|]. split; [|lia].
  replace (256 * (256 * a)) with (a + a * 0xffff) by lia. by rewrite Z.mod_add by lia.
Qed.

(** ** Words of bytes *)

(** The sum of the words, where the first byte is the more ([hi]) or the less
    significant one of its word: as on the wire, or as the processor reads. *)
Fixpoint wsum (hi : bool) (l : list Z) : Z :=
  match l with
  | [] => 0
  | b :: l => (if hi then 256 * b else b) + wsum (negb hi) l
  end.

Lemma wsum_bounds hi l : Forall is_byte l → 0 <= wsum hi l <= 65280 * Z.of_nat (length l).
Proof.
  intros Hl. revert hi. induction Hl as [|b l Hb Hl IH]; intros hi; cbn [wsum length]; [lia|].
  specialize (IH (negb hi)). unfold is_byte in Hb. destruct hi; lia.
Qed.

Lemma wsum_app hi l1 l2 : wsum hi (l1 ++ l2) = wsum hi l1 + wsum (xorb hi (Nat.odd (length l1))) l2.
Proof.
  revert hi. induction l1 as [|b l1 IH]; intros hi; cbn [app wsum length].
  - by rewrite xorb_false_r.
  - rewrite IH, Nat.odd_succ, <- Nat.negb_odd. rewrite Z.add_assoc. do 2 f_equal.
    by destruct hi, (Nat.odd (length l1)).
Qed.

Lemma wsum_same hi l : Forall is_byte l → same (256 * wsum hi l) (wsum (negb hi) l).
Proof.
  intros Hl. revert hi. induction Hl as [|b l Hb Hl IH]; intros hi; cbn [wsum]; [done|].
  rewrite Z.mul_add_distr_l. specialize (IH (negb hi)). rewrite negb_involutive in IH |- *.
  unfold is_byte in Hb. pose proof (wsum_bounds (negb hi) l Hl).
  apply same_add; [destruct hi; lia|lia| |done].
  destruct hi; cbn [negb]; [|by apply same_refl; lia]. apply same_twice. lia.
Qed.

Lemma rep_oc_add x y n k : rep x n → rep y k → rep (oc_add x y) (n + k).
Proof.
  intros (Hx & Hn & Ex & Zx) (Hy & Hk & Ey & Zy).
  assert (oc_add x y mod 0xffff = (x + y) mod 0xffff) as E.
  { unfold oc_add. case_match; [|done].
    replace (x + y) with (x + y - 0xffff + 1 * 0xffff) at 2 by lia. by rewrite Z.mod_add. }
  rewrite (Z.add_mod x y), Ex, Ey, <- Z.add_mod in E by lia.
  assert (0 <= oc_add x y <= 0xffff ∧ (oc_add x y = 0 ↔ n + k = 0)) as [H1 H2].
  { unfold oc_add. destruct (Z.ltb_spec 0xffff (x + y)); split; lia. }
  split; [done|]. split; [lia|]. by split.
Qed.

(** The sum of the RFC is that of the words on the wire. *)
Lemma rfc_sum_rep n : ∀ l, (length l <= n)%nat → Forall is_byte l → rep (rfc_sum l) (wsum true l).
Proof.
  induction n as [|n IH]; intros l Hn Hl.
  { destruct l; [by apply rep_small|simpl in Hn; lia]. }
  destruct l as [|a [|b l]]; [by apply rep_small| |].
  - apply Forall_cons in Hl as [Ha _]. unfold is_byte in Ha. cbn. rewrite Z.add_0_r.
    apply rep_small. lia.
  - apply Forall_cons in Hl as [Ha Hl]. apply Forall_cons in Hl as [Hb Hl]. unfold is_byte in Ha, Hb.
    cbn [rfc_sum wsum negb]. rewrite Z.add_assoc. apply rep_oc_add; [apply rep_small; lia|].
    apply IH; [simpl in Hn; lia|done].
Qed.

(** ** A piece of memory *)

Lemma mread_cons m a n b l :
  mread m a (S n) = Ok (b :: l) ↔ m !! a = Some b ∧ mread m (a + 1) n = Ok l.
Proof.
  cbn [mread]. destruct (m !! a) as [b'|]; cbn [oget mbind res_bind]; [|naive_solver].
  destruct (mread m (a + 1) n) as [l'|]; cbn [mbind res_bind]; naive_solver.
Qed.

Lemma sum_loop_spec m fuel : ∀ l ps sum,
  mread m ps (length l) = Ok l → (length l <= fuel)%nat → Forall is_byte l →
  0 <= sum → sum + wsum false l < 2 ^ 32 →
  ∃ ps' r sum', sum_loop fuel m ps (Z.of_nat (length l)) sum = Ok (ps', Z.of_nat (length r), sum') ∧
    (length r <= 1)%nat ∧ mread m ps' (length r) = Ok r ∧ Forall is_byte r ∧ 0 <= sum' ∧
    sum' + wsum false r = sum + wsum false l.
Proof.
  induction fuel as [|fuel IH]; intros l ps sum Hr Hf Hl H0 Hmx.
  { destruct l; [|simpl in Hf; lia]. exists ps, [], sum. split; [done|]. repeat split; done || simpl; lia. }
  destruct l as [|a [|b l]].
  - exists ps, [], sum. split; [done|]. repeat split; done || simpl; lia.
  - exists ps, [a], sum. split; [done|]. repeat split; done || simpl; lia.
  - cbn [length] in Hr, Hf |- *. pose proof Hl as Hl0.
    apply Forall_cons in Hl as [Ha Hl]. apply Forall_cons in Hl as [Hb Hl]. unfold is_byte in Ha, Hb.
    apply mread_cons in Hr as [Hma Hr]. apply mread_cons in Hr as [Hmb Hr].
    cbn [wsum negb] in Hmx |- *. pose proof (wsum_bounds false l Hl).
    cbn [sum_loop]. rewrite (proj2 (Z.ltb_lt _ _)) by lia. cbn [mread]. rewrite Hma, Hmb.
    cbn [oget mbind res_bind le_val]. rewrite (wrapu_small 32) by lia.
    replace (Z.of_nat (S (S (length l))) - 2) with (Z.of_nat (length l)) by lia.
    destruct (IH l (ps + 2) (sum + (a + 256 * (b + 256 * 0)))) as (ps' & r & sum' & E & Hrest);
      [by rewrite <- Hr, <- Z.add_assoc|lia|done|lia|lia|].
    exists ps', r, sum'. split; [done|]. destruct Hrest as (H1 & H2 & H3 & H4 & H5).
    repeat (split; [done|]). lia.
Qed.

(** The byte that is left at the end. *)
Lemma end_byte m ps r :
  (length r <= 1)%nat → mread m ps (length r) = Ok r → Forall is_byte r →
  ∃ t0, (if 0 <? Z.of_nat (length r) then oget BadPointer (m !! ps) else Ok 0) = Ok t0 ∧
    t0 = wsum false r ∧ 0 <= t0 < 256.
Proof.
  intros Lr Hmr Hbr. destruct r as [|x [|y r]]; [by exists 0| |simpl in Lr; lia].
  apply mread_cons in Hmr as [Hx _]. rewrite Hx. exists x. apply Forall_cons in Hbr as [Hx' _].
  unfold is_byte in Hx'. cbn. split; [done|]. lia.
Qed.

(** Whatever the address of the data, its sum as words of the processor. *)
Lemma lwip_standard_chksum_spec m a l :
  mread m a (length l) = Ok l → Forall is_byte l → Z.of_nat (length l) < 2 ^ 16 →
  ∃ x, lwip_standard_chksum m a (Z.of_nat (length l)) = Ok x ∧ rep x (wsum false l).
Proof.
  intros Hr Hl Hmx. unfold lwip_standard_chksum.
  destruct (negb (Z.land a 1 =? 0)) eqn:Eo; cbn [andb].
  - destruct l as [|b l].
    { cbn. eexists. split; [done|]. apply rep_small. vm_compute. split; discriminate. }
    cbn [length] in Hr, Hmx |- *. rewrite (proj2 (Z.ltb_lt _ _)) by lia.
    apply mread_cons in Hr as [Hb Hr]. rewrite Hb. cbn [oget mbind res_bind].
    apply Forall_cons in Hl as [Hbb Hl]. unfold is_byte in Hbb. pose proof (wsum_bounds false l Hl).
    replace (Z.of_nat (S (length l)) - 1) with (Z.of_nat (length l)) by lia.
    destruct (sum_loop_spec m (Z.to_nat (Z.of_nat (length l))) l (a + 1) 0)
      as (ps & r & sum & -> & Lr & Hmr & Hbr & Hs0 & Es); [done|lia|done|lia|lia|]. cbn [mbind res_bind].
    destruct (end_byte m ps r Lr Hmr Hbr) as (t0 & -> & Et & Ht).
    cbn [mbind res_bind le_val]. rewrite (wrapu_small 32) by lia.
    replace (sum + (t0 + 256 * (b + 256 * 0))) with (wsum true (b :: l)) by (cbn [wsum negb]; lia).
    assert (Forall is_byte (b :: l)) as Hbl by by constructor.
    pose proof (wsum_bounds true (b :: l) Hbl) as Hw. cbn [length] in Hw.
    pose proof (rep_swap _ _ (fold_twice (wsum true (b :: l)) ltac:(lia))) as Hrep.
    pose proof Hrep as (Hx & _). rewrite (wrapu_small 16) by lia. eexists. split; [done|].
    eapply rep_same; [exact Hrep|]. by apply (wsum_same true).
  - cbn [mbind res_bind]. pose proof (wsum_bounds false l Hl).
    destruct (sum_loop_spec m (Z.to_nat (Z.of_nat (length l))) l a 0)
      as (ps & r & sum & -> & Lr & Hmr & Hbr & Hs0 & Es); [done|lia|done|lia|lia|]. cbn [mbind res_bind].
    destruct (end_byte m ps r Lr Hmr Hbr) as (t0 & -> & Et & Ht).
    cbn [mbind res_bind le_val]. rewrite (wrapu_small 32) by lia.
    replace (sum + (t0 + 256 * (0 + 256 * 0))) with (wsum false l) by lia.
    pose proof (fold_twice (wsum false l) ltac:(lia)) as Hrep. pose proof Hrep as (Hx & _).
    rewrite (wrapu_small 16) by lia. eexists. done.
Qed.

(** ** Chains of buffers *)

(** The accumulator of the loop stands for [n]; after an odd number of bytes it is
    kept swapped. *)
Definition stands (acc : Z) (swapped : bool) (n : Z) : Prop :=
  0 <= n ∧ rep acc (if swapped then 256 * n else n).

Lemma same_shift (sw : bool) n k d :
  0 <= n → Forall is_byte d → k = (if sw then 256 * n else n) →
  same (k + wsum false d) (if sw then 256 * (n + wsum sw d) else n + wsum sw d).
Proof.
  intros Hn Hd ->. pose proof (wsum_bounds false d Hd). pose proof (wsum_bounds true d Hd).
  destruct sw; [|apply same_refl; lia]. rewrite Z.mul_add_distr_l.
  apply same_add; [lia|lia|apply same_refl; lia|].
  apply same_sym; [lia|]. by apply (wsum_same true).
Qed.

(** One buffer more, with the bytes swapped behind it or not. *)
Lemma stands_step acc sw n s d (o : bool) :
  stands acc sw n → Forall is_byte d → rep s (wsum false d) →
  let acc1 := FOLD_U32T (u32 (acc + s)) in
  stands (if o then SWAP_BYTES_IN_WORD acc1 else acc1) (xorb sw o) (n + wsum sw d).
Proof.
  intros [Hn Ha] Hd Hs acc1. pose proof (wsum_bounds sw d Hd) as Hw. split; [lia|].
  pose proof (rep_same _ _ _ (rep_add _ _ _ _ Ha Hs) (same_shift sw n _ d Hn Hd eq_refl)) as H1.
  fold acc1 in H1. destruct o; [|by rewrite xorb_false_r]. apply rep_swap in H1.
  rewrite xorb_true_r. destruct sw; cbn [negb]; [|done].
  eapply rep_same; [exact H1|]. apply same_twice. lia.
Qed.

Lemma stands_end acc sw n : stands acc sw n → rep (if sw then SWAP_BYTES_IN_WORD acc else acc) n.
Proof.
  intros [Hn H]. destruct sw; [|done]. apply rep_swap in H. eapply rep_same; [exact H|].
  by apply same_twice.
Qed.

Lemma odd_mod2 (d : list Z) : negb (Z.of_nat (length d) mod 2 =? 0) = Nat.odd (length d).
Proof.
  destruct (Nat.Even_or_Odd (length d)) as [[k E]|[k E]]; rewrite E.
  - rewrite Nat.odd_even, Nat2Z.inj_mul, Z.mul_comm. change (Z.of_nat 2) with 2. by rewrite Z.mod_mul.
  - rewrite Nat.odd_odd, Nat2Z.inj_add, Nat2Z.inj_mul, Z.add_comm, Z.mul_comm.
    change (Z.of_nat 2) with 2. by rewrite Z.mod_add.
Qed.

Lemma chain_loop_spec pb m fuel : ∀ p l acc sw n,
  packet pb m p l → (length l < fuel)%nat → stands acc sw n →
  ∃ acc' sw', chain_loop fuel pb m p acc sw = Ok (acc', sw') ∧
    stands acc' sw' (n + wsum sw (content l)).
Proof.
  induction fuel as [|fuel IH]; intros p l acc sw n Hp Hf Hst; [lia|].
  inversion Hp as [|a h s l' Ha Hlen Hread Hbytes Htot Hmax Hrest]; subst.
  { exists acc, sw. split; [done|]. by rewrite Z.add_0_r. }
  cbn [chain_loop]. rewrite Ha. cbn [oget mbind res_bind]. rewrite Hlen.
  destruct (lwip_standard_chksum_spec m (p_payload h) s) as (x & -> & Hx); [done|done| |].
  { rewrite length_app in Htot. lia. }
  cbn [mbind res_bind]. rewrite odd_mod2.
  pose proof (stands_step acc sw n x s (Nat.odd (length s)) Hst Hbytes Hx) as Hst'. cbv zeta in Hst'.
  rewrite content_cons. cbn [n_data]. rewrite wsum_app, Z.add_assoc.
  destruct (Nat.odd (length s)); rewrite ?xorb_true_r, ?xorb_false_r in *;
    (apply IH; [done|simpl in Hf; lia|done]).
Qed.

Lemma complement_val x : 0 <= x <= 0xffff → u16 (Z.lnot (Z.land x 0xffff)) = 0xffff - x.
Proof.
  intros Hx. change 0xffff with (Z.ones 16) at 1. rewrite Z.land_ones, Z.mod_small by lia.
  unfold Z.lnot, wrapu. rewrite <- (Z.mod_add _ 1) by lia. rewrite Z.mod_small; lia.
Qed.

(** The complement of the sum in host order is the checksum in network order. *)
Lemma complement_rfc x l :
  Forall is_byte l → rep x (wsum false l) → lwip_htons (0xffff - x) = rfc_checksum l.
Proof.
  intros Hl Hx. pose proof Hx as (Hr & _). unfold rfc_checksum.
  assert (SWAP_BYTES_IN_WORD x = rfc_sum l) as <-.
  { eapply rep_unique; [|by eapply rfc_sum_rep]. eapply rep_same; [by apply rep_swap|].
    by apply (wsum_same false). }
  rewrite swap_val, lwip_htons_val by lia. pose proof (Z.div_mod x 256).
  pose proof (Z.mod_pos_bound x 256).
  assert ((0xffff - x) / 256 = 255 - x / 256 ∧ (0xffff - x) mod 256 = 255 - x mod 256) as [-> ->]; [|lia].
  split; symmetry; [apply (Z.div_unique _ _ _ (255 - x mod 256))|
    apply (Z.mod_unique _ _ (255 - x / 256))]; lia.
Qed.

(** ** Pseudo headers *)

Definition be16 (n : Z) : list Z := [n / 256; n mod 256].

(** Addresses are words in network order, so their bytes in memory are the bytes on
    the wire. *)
Definition pseudo4 (src dest proto len : Z) : list Z :=
  le_bytes 4 src ++ le_bytes 4 dest ++ [0; proto] ++ be16 len.
Definition pseudo6 (src dest : list Z) (proto len : Z) : list Z :=
  concat (le_bytes 4 <$> src) ++ concat (le_bytes 4 <$> dest) ++
  [0; 0] ++ be16 len ++ [0; 0; 0; proto].

Lemma be16_bytes n : 0 <= n < 2 ^ 16 → Forall is_byte (be16 n).
Proof.
  intros Hn. unfold be16. constructor; [|constructor; [|constructor]].
  - split; [apply Z.div_pos; lia|apply Z.div_lt_upper_bound; lia].
  - by apply Z.mod_pos_bound.
Qed.

Lemma wsum_le4 a : 0 <= a < 2 ^ 32 → wsum false (le_bytes 4 a) = a mod 2 ^ 16 + a / 2 ^ 16.
Proof.
  intros Ha. cbn [le_bytes wsum negb].
  pose proof (Z.div_mod a 256). pose proof (Z.mod_pos_bound a 256).
  pose proof (Z.div_mod (a / 256) 256). pose proof (Z.mod_pos_bound (a / 256) 256).
  pose proof (Z.div_mod (a / 256 / 256) 256). pose proof (Z.mod_pos_bound (a / 256 / 256) 256).
  assert (0 <= a / 256 / 256 / 256 < 256).
  { rewrite !Z.div_div by lia. split; [apply Z.div_pos; lia|apply Z.div_lt_upper_bound; lia]. }
  rewrite (Z.mod_small (a / 256 / 256 / 256)) by lia.
  assert (a / 2 ^ 16 = a / 256 / 256) as -> by (rewrite Z.div_div by lia; done).
  rewrite (Z.mod_eq a (2 ^ 16)) by lia. replace (a / 2 ^ 16) with (a / 256 / 256) by (rewrite Z.div_div by lia; done).
  lia.
Qed.

Lemma add_addr_val acc a : 0 <= acc <= 0xf0000000 → 0 <= a < 2 ^ 32 →
  add_addr acc a = acc + wsum false (le_bytes 4 a).
Proof.
  intros Hacc Ha. rewrite wsum_le4 by done. unfold add_addr. change 0xffff with (Z.ones 16).
  rewrite !Z.land_ones, Z.shiftr_div_pow2 by lia. pose proof (Z.mod_pos_bound a (2 ^ 16)).
  assert (0 <= a / 2 ^ 16 < 2 ^ 16) by (split; [apply Z.div_pos; lia|apply Z.div_lt_upper_bound; lia]).
  rewrite (Z.mod_small (a / 2 ^ 16)) by lia.
  rewrite (wrapu_small 32 (acc + _)) by lia. rewrite (wrapu_small 32) by lia. lia.
Qed.

Lemma wsum_even hi l1 l2 : Nat.odd (length l1) = false → wsum hi (l1 ++ l2) = wsum hi l1 + wsum hi l2.
Proof. intros E. by rewrite wsum_app, E, xorb_false_r. Qed.

Lemma htons_wsum n : 0 <= n < 2 ^ 16 → lwip_htons n = wsum false (be16 n).
Proof. intros Hn. rewrite lwip_htons_val by done. unfold be16. cbn [wsum negb]. lia. Qed.

(** The end of the functions, for any sum of addresses and data. *)
Lemma pseudo_end_spec acc sw n proto len :
  stands acc sw n → 0 <= proto < 256 → 0 <= len < 2 ^ 16 →
  ∃ x, pseudo_end acc sw proto len = 0xffff - x ∧ rep x (n + wsum false ([0; proto] ++ be16 len)).
Proof.
  intros Hst Hpr Hlen. apply stands_end in Hst. unfold pseudo_end.
  set (acc1 := if sw then SWAP_BYTES_IN_WORD acc else acc) in *. pose proof Hst as (Ha & Hn & _).
  rewrite (wrapu_small 16 proto) by lia. rewrite !htons_wsum by lia.
  assert (wsum false (be16 proto) = wsum false [0; proto]) as E1.
  { unfold be16. rewrite Z.div_small, Z.mod_small by lia. done. }
  rewrite wsum_even by done. rewrite E1.
  assert (Forall is_byte [0; proto]) as Hb1 by (repeat constructor; lia).
  pose proof (wsum_bounds false _ Hb1) as W1. pose proof (wsum_bounds false _ (be16_bytes len Hlen)) as W2.
  cbn [length be16] in W1, W2. rewrite (wrapu_small 32 (acc1 + _)) by lia.
  rewrite (wrapu_small 32) by lia.
  pose proof (fold_twice (acc1 + wsum false [0; proto] + wsum false (be16 len)) ltac:(lia)) as Hx.
  eexists. split; [apply complement_val; by destruct Hx|].
  eapply rep_same; [exact Hx|]. destruct Hst as (_ & _ & Em & Ez).
  rewrite <- Z.add_assoc. apply same_add; [lia|lia| |apply same_refl; lia]. done.
Qed.

Lemma wsum_permute l1 l2 l3 : Nat.odd (length l1) = false → Nat.odd (length l2) = false →
  wsum false (l1 ++ l2 ++ l3) = wsum false l1 + wsum false l3 + wsum false l2.
Proof. intros. rewrite !wsum_even by done. lia. Qed.

(** ** The functions *)

Lemma rep_stands x n : rep x n → stands x false n.
Proof. intros H. split; [by destruct H as (_ & ? & _)|done]. Qed.

Lemma pseudo_base_spec pb m p l proto len acc n :
  packet pb m p l → rep acc n → 0 <= proto < 256 → 0 <= len < 2 ^ 16 →
  ∃ x, inet_cksum_pseudo_base pb m p proto len acc = Ok (0xffff - x) ∧
    rep x (n + wsum false (content l) + wsum false ([0; proto] ++ be16 len)).
Proof.
  intros Hp Hacc Hpr Hlen. unfold inet_cksum_pseudo_base.
  destruct (chain_loop_spec pb m (chain_fuel pb) p l acc false n) as (acc' & sw' & -> & Hst);
    [done|by eapply packet_fuel|by apply rep_stands|]. cbn [mbind res_bind].
  destruct (pseudo_end_spec _ _ _ proto len Hst Hpr Hlen) as (x & -> & Hx). by exists x.
Qed.

Definition u32_ok (a : Z) : Prop := 0 <= a < 2 ^ 32.

Lemma wsum_addr a : 0 <= wsum false (le_bytes 4 a) <= 65280 * 4.
Proof. apply (wsum_bounds false _ (le_bytes_is_byte 4 a)). Qed.

Definition addrs_sum (l : list Z) : Z := wsum false (concat (le_bytes 4 <$> l)).

Lemma addrs_sum_cons a l : addrs_sum (a :: l) = wsum false (le_bytes 4 a) + addrs_sum l.
Proof. unfold addrs_sum. cbn [fmap list_fmap concat]. by rewrite wsum_even. Qed.

Lemma add_addrs_val src : ∀ dest acc,
  length src = length dest → Forall u32_ok src → Forall u32_ok dest →
  0 <= acc → acc + 600000 * Z.of_nat (length src) <= 0xf0000000 →
  add_addrs acc src dest = acc + addrs_sum src + addrs_sum dest.
Proof.
  induction src as [|s src IH]; intros [|d dest] acc Hl Hs Hd H0 Hmx; try done.
  { cbn. unfold addrs_sum. simpl. lia. }
  apply Forall_cons in Hs as [Hs1 Hs]. apply Forall_cons in Hd as [Hd1 Hd]. cbn [add_addrs length] in *.
  pose proof (wsum_addr s). pose proof (wsum_addr d). unfold u32_ok in *.
  rewrite (add_addr_val acc s), add_addr_val by lia. rewrite IH by (done || lia).
  rewrite !addrs_sum_cons. lia.
Qed.

(** The pseudo header of either version. *)
Definition pseudo_header (src dest : ip_addr) (proto len : Z) : list Z :=
  if IP_IS_V6 dest then pseudo6 (ip_addr_w src) (ip_addr_w dest) proto len
  else pseudo4 (ip_2_ip4 src) (ip_2_ip4 dest) proto len.

Definition ip_addr_ok (a : ip_addr) : Prop := length (ip_addr_w a) = 4%nat ∧ Forall u32_ok (ip_addr_w a).

Lemma ip_2_ip4_ok a : ip_addr_ok a → u32_ok (ip_2_ip4 a).
Proof.
  intros [Hl Hf]. unfold ip_2_ip4. destruct (ip_addr_w a); [done|]. by apply Forall_cons in Hf as [? _].
Qed.

Lemma le_concat_even l : Nat.odd (length (concat (le_bytes 4 <$> l))) = false.
Proof.
  induction l as [|a l IH]; [done|]. cbn [fmap list_fmap concat]. rewrite length_app, length_le_bytes.
  by rewrite Nat.odd_add, IH.
Qed.

Lemma pseudo_header_sum src dest proto len c :
  ip_addr_ok src → ip_addr_ok dest → 0 <= proto < 256 → 0 <= len < 2 ^ 16 →
  wsum false (pseudo_header src dest proto len ++ c) =
  (if IP_IS_V6 dest then addrs_sum (ip_addr_w src) + addrs_sum (ip_addr_w dest)
   else wsum false (le_bytes 4 (ip_2_ip4 src)) + wsum false (le_bytes 4 (ip_2_ip4 dest))) +
  wsum false c + wsum false ([0; proto] ++ be16 len).
Proof.
  intros Hs Hd Hpr Hlen. unfold pseudo_header, pseudo6, pseudo4. destruct (IP_IS_V6 dest).
  - rewrite <- !app_assoc, !wsum_even by (apply le_concat_even || done).
    unfold addrs_sum. cbn [wsum negb]. lia.
  - rewrite <- !app_assoc, !wsum_even by done. cbn [wsum negb]. lia.
Qed.

Lemma pseudo_header_bytes src dest proto len :
  0 <= proto < 256 → 0 <= len < 2 ^ 16 → Forall is_byte (pseudo_header src dest proto len).
Proof.
  intros Hpr Hlen. pose proof (be16_bytes len Hlen).
  assert (∀ l, Forall is_byte (concat (le_bytes 4 <$> l))) as Hc.
  { induction l as [|a l IH]; [constructor|]. cbn [fmap list_fmap concat].
    apply Forall_app_2; [apply le_bytes_is_byte|done]. }
  unfold pseudo_header, pseudo6, pseudo4. case_match;
    rewrite !Forall_app, !Forall_cons, ?Forall_nil;
    repeat (split; [done || (apply Hc || apply le_bytes_is_byte) || (unfold is_byte; lia)|]);
    done || (unfold is_byte; lia).
Qed.

(** The sum behind the result, for either version. *)
Lemma ip_chksum_pseudo_sum pb m p l proto len src dest :
  packet pb m p l → ip_addr_ok src → ip_addr_ok dest → 0 <= proto < 256 → 0 <= len < 2 ^ 16 →
  ∃ x, ip_chksum_pseudo pb m p proto len src dest = Ok (0xffff - x) ∧
    rep x (wsum false (pseudo_header src dest proto len ++ content l)).
Proof.
  intros Hp Hs Hd Hpr Hlen. unfold ip_chksum_pseudo.
  pose proof (ip_2_ip4_ok src Hs) as Hs4. pose proof (ip_2_ip4_ok dest Hd) as Hd4. unfold u32_ok in Hs4, Hd4.
  rewrite (pseudo_header_sum _ _ _ _ _ Hs Hd Hpr Hlen). destruct (IP_IS_V6 dest).
  - unfold ip6_chksum_pseudo. destruct Hs as [Ls Hs], Hd as [Ld Hd].
    rewrite add_addrs_val by (done || lia). apply pseudo_base_spec; [done| |done..].
    apply fold_twice.
    assert (∀ w, Forall is_byte (concat (le_bytes 4 <$> w)) ∧
      length (concat (le_bytes 4 <$> w)) = (4 * length w)%nat) as Hc.
    { induction w as [|a w [IH1 IH2]]; [done|]. cbn [fmap list_fmap concat length].
      split; [apply Forall_app_2; [apply le_bytes_is_byte|done]|]. rewrite length_app, IH2. simpl. lia. }
    destruct (Hc (ip_addr_w src)) as [B1 L1], (Hc (ip_addr_w dest)) as [B2 L2].
    pose proof (wsum_bounds false _ B1). pose proof (wsum_bounds false _ B2). unfold addrs_sum. lia.
  - unfold inet_chksum_pseudo. pose proof (wsum_addr (ip_2_ip4 src)). pose proof (wsum_addr (ip_2_ip4 dest)).
    rewrite (add_addr_val 0), add_addr_val by lia.
    apply pseudo_base_spec; [done| |done..]. apply fold_twice. lia.
Qed.

(** ** Part of a packet *)

Definition first_len (l : list node) : nat := match l with [] => 0 | n :: _ => length (n_data n) end.

(** The assertion only lets pass what needs less than 0x7fff bytes behind the first
    buffer. *)
Lemma partial_loop_spec pb m fuel : ∀ p l k acc sw n,
  packet pb m p l → (length l < fuel)%nat → stands acc sw n → 0 <= k < 2 ^ 16 →
  k < Z.of_nat (first_len l) + 0x7fff →
  ∃ acc' sw', partial_loop fuel pb m p k acc sw = Ok (acc', sw') ∧
    stands acc' sw' (n + wsum sw (take (Z.to_nat k) (content l))).
Proof.
  induction fuel as [|fuel IH]; intros p l k acc sw n Hp Hf Hst Hk Hass; [lia|].
  cbn [partial_loop]. destruct (Z.ltb_spec 0 k) as [Hk0|Hk0]; cycle 1.
  { rewrite andb_false_r. exists acc, sw. split; [done|]. replace k with 0 by lia.
    by rewrite take_0, Z.add_0_r. }
  inversion Hp as [|a h s l' Ha Hlen Hread Hbytes Htot Hmax Hrest]; subst.
  { exists acc, sw. split; [done|]. change (content []) with (@nil Z).
    by rewrite take_nil, Z.add_0_r. }
  cbn [is_some andb negb]. rewrite Ha. cbn [oget mbind res_bind first_len n_data] in *. rewrite Hlen.
  set (c := (Z.to_nat k `min` length s)%nat).
  replace (if k <? Z.of_nat (length s) then k else Z.of_nat (length s)) with (Z.of_nat (length (take c s)))
    by (rewrite length_take; destruct (Z.ltb_spec k (Z.of_nat (length s))); lia).
  assert (length (take c s) = c) as Lc by (rewrite length_take; lia).
  destruct (lwip_standard_chksum_spec m (p_payload h) (take c s)) as (x & -> & Hx).
  { rewrite Lc. pose proof (mread_sub _ _ _ _ 0 c Hread) as E. rewrite Z.add_0_r, drop_0 in E. apply E. lia. }
  { by apply Forall_take. }
  { lia. }
  cbn [mbind res_bind]. rewrite Lc, (wrapu_small 16) by lia.
  unfold lwip_assert. rewrite (proj2 (Z.ltb_lt _ _)) by lia. cbn [mbind res_bind].
  pose proof (stands_step acc sw n x (take c s) (negb (Z.of_nat (length s) mod 2 =? 0)) Hst
    (Forall_take _ _ _ Hbytes) Hx) as Hst'. cbv zeta in Hst'.
  destruct (IH (p_next h) l' (k - Z.of_nat c)
    (if negb (Z.of_nat (length s) mod 2 =? 0) then SWAP_BYTES_IN_WORD (FOLD_U32T (u32 (acc + x)))
     else FOLD_U32T (u32 (acc + x))) (xorb sw (negb (Z.of_nat (length s) mod 2 =? 0)))
    (n + wsum sw (take c s))) as (acc' & sw' & E & Hst''); [done|simpl in Hf; lia|done|lia|lia|].
  exists acc', sw'. split.
  { rewrite <- E. by destruct (negb (Z.of_nat (length s) mod 2 =? 0)), sw. }
  rewrite content_cons. cbn [n_data]. rewrite odd_mod2 in Hst''.
  destruct (decide (Z.to_nat k <= length s)%nat) as [Hle|Hgt].
  - replace (Z.to_nat (k - Z.of_nat c)) with 0%nat in Hst'' by lia. rewrite take_0, Z.add_0_r in Hst''.
    rewrite take_app_le by done. replace (Z.to_nat k) with c by lia. done.
  - rewrite take_app_ge, wsum_app by lia. rewrite (take_ge s c) in Hst'' by lia.
    replace (Z.to_nat (k - Z.of_nat c)) with (Z.to_nat k - length s)%nat in Hst'' by lia.
    by rewrite Z.add_assoc.
Qed.

(** The checksum of UDP lite: over the pseudo header and the first bytes of the
    packet. *)
Lemma ip_chksum_pseudo_partial_spec pb m p l proto len k src dest :
  packet pb m p l → ip_addr_ok src → ip_addr_ok dest → 0 <= proto < 256 → 0 <= len < 2 ^ 16 →
  0 <= k < 2 ^ 16 → k < Z.of_nat (first_len l) + 0x7fff → IP_IS_V6 dest = false →
  ∃ r, ip_chksum_pseudo_partial pb m p proto len k src dest = Ok r ∧
    lwip_htons r = rfc_checksum (pseudo_header src dest proto len ++ take (Z.to_nat k) (content l)).
Proof.
  intros Hp Hs Hd Hpr Hlen Hk Hass Hv4. unfold ip_chksum_pseudo_partial. rewrite Hv4.
  pose proof (ip_2_ip4_ok src Hs) as Hs4. pose proof (ip_2_ip4_ok dest Hd) as Hd4. unfold u32_ok in Hs4, Hd4.
  unfold inet_chksum_pseudo_partial. pose proof (wsum_addr (ip_2_ip4 src)). pose proof (wsum_addr (ip_2_ip4 dest)).
  rewrite (add_addr_val 0), add_addr_val by lia. unfold inet_cksum_pseudo_partial_base.
  match goal with |- context [FOLD_U32T (FOLD_U32T ?z)] => pose proof (fold_twice z ltac:(lia)) as Hz end.
  destruct (partial_loop_spec pb m (chain_fuel pb) p l k _ false _ Hp ltac:(by eapply packet_fuel)
    (rep_stands _ _ Hz) Hk Hass) as (acc' & sw' & -> & Hst). cbn [mbind res_bind].
  destruct (pseudo_end_spec _ _ _ proto len Hst Hpr Hlen) as (x & -> & Hx). eexists. split; [done|].
  apply complement_rfc.
  - apply Forall_app_2; [by apply pseudo_header_bytes|]. apply Forall_take. by eapply packet_data_bytes.
  - rewrite (pseudo_header_sum _ _ _ _ _ Hs Hd Hpr Hlen), Hv4. exact Hx.
Qed.

(** ** Without a pseudo header *)

Lemma inet_chksum_spec m a l :
  mread m a (length l) = Ok l → Forall is_byte l → Z.of_nat (length l) < 2 ^ 16 →
  ∃ r, inet_chksum m a (Z.of_nat (length l)) = Ok r ∧ lwip_htons r = rfc_checksum l.
Proof.
  intros Hr Hl Hmx. unfold inet_chksum.
  destruct (lwip_standard_chksum_spec m a l Hr Hl Hmx) as (x & -> & Hx). cbn [mbind res_bind].
  eexists. split; [done|]. pose proof Hx as (Hb & _). rewrite <- (complement_rfc x l Hl Hx). f_equal.
  unfold Z.lnot, wrapu. rewrite <- (Z.mod_add _ 1) by lia. rewrite Z.mod_small; lia.
Qed.

Lemma inet_chksum_pbuf_spec pb m p l :
  packet pb m p l → ∃ r, inet_chksum_pbuf pb m p = Ok r ∧ lwip_htons r = rfc_checksum (content l).
Proof.
  intros Hp. unfold inet_chksum_pbuf.
  destruct (chain_loop_spec pb m (chain_fuel pb) p l 0 false 0) as (acc & sw & -> & Hst%stands_end);
    [done|by eapply packet_fuel|by apply rep_stands, rep_small|]. cbn [mbind res_bind].
  eexists. split; [done|]. rewrite complement_val by (by destruct Hst).
  apply complement_rfc; [by eapply packet_data_bytes|exact Hst].
Qed.

(** ** Theorems *)

(** C16 (equivalence).  The checksum of a packet, stored in its header as the processor
    stores words, is the one RFC 1071 defines on the bytes of the pseudo header and
    of the packet in network order, for both versions of the protocol, and however
    the packet is split into buffers at odd or even addresses and lengths. *)
Theorem chksum_is_rfc1071 pb m p l proto len src dest :
  packet pb m p l → ip_addr_ok src → ip_addr_ok dest → 0 <= proto < 256 → 0 <= len < 2 ^ 16 →
  ∃ r, ip_chksum_pseudo pb m p proto len src dest = Ok r ∧ 0 <= r < 2 ^ 16 ∧
    lwip_htons r = rfc_checksum (pseudo_header src dest proto len ++ content l) ∧
    le_bytes 2 r = be16 (rfc_checksum (pseudo_header src dest proto len ++ content l)).
Proof.
  intros Hp Hs Hd Hpr Hlen.
  destruct (ip_chksum_pseudo_sum pb m p l proto len src dest) as (x & -> & Hx); [done..|].
  pose proof Hx as (Hb & _). exists (0xffff - x). split; [done|]. split; [lia|].
  assert (lwip_htons (0xffff - x) = rfc_checksum (pseudo_header src dest proto len ++ content l)) as E.
  { apply complement_rfc; [|done].
    apply Forall_app_2; [by apply pseudo_header_bytes|by eapply packet_data_bytes]. }
  split; [done|]. rewrite <- E, lwip_htons_val by lia. unfold be16. cbn [le_bytes].
  set (y := 0xffff - x) in *. assert (0 <= y / 256 < 256).
  { split; [apply Z.div_pos; lia|apply Z.div_lt_upper_bound; lia]. }
  rewrite Z.add_comm, (Z.mul_comm 256), Z.div_add, Z.mod_add by lia.
  rewrite (Z.mod_small (y / 256)), (Z.div_small (y / 256)) by lia. done.
Qed.

(** UDP, from 192.168.1.2 to 192.168.1.3, seven bytes in two buffers of which the
    second begins at an odd address. *)
Lemma chksum_is_rfc1071_witness :
  let src := IpAddr [0x0201a8c0; 0; 0; 0] IPADDR_TYPE_V4 in
  let dest := IpAddr [0x0301a8c0; 0; 0; 0] IPADDR_TYPE_V4 in
  ip_chksum_pseudo demo_pb demo_m (Some 100) 17 7 src dest = Ok 0x67f1 ∧
  ∃ r, ip_chksum_pseudo demo_pb demo_m (Some 100) 17 7 src dest = Ok r ∧ 0 <= r < 2 ^ 16 ∧
    lwip_htons r = rfc_checksum (pseudo_header src dest 17 7 ++ content demo_l) ∧
    le_bytes 2 r = be16 (rfc_checksum (pseudo_header src dest 17 7 ++ content demo_l)).
Proof.
  cbv zeta. split; [vm_compute; reflexivity|].
  apply chksum_is_rfc1071; [apply demo_packet|split; [done|]; repeat constructor; lia..|lia|lia].
Defined.

(** C34 (roundtrip).  A checksum that is put into its field, which was zero, is accepted:
    the same function on the packet then gives zero, which is the test the receiving
    side makes. *)
Theorem chksum_verifies pb m p l proto len src dest a b :
  packet pb m p l → l ≠ [] → apart l → ip_addr_ok src → ip_addr_ok dest →
  0 <= proto < 256 → 0 <= len < 2 ^ 16 →
  content l = a ++ [0; 0] ++ b → Nat.odd (length a) = false →
  ∃ r m' l', ip_chksum_pseudo pb m p proto len src dest = Ok r ∧
    pbuf_take_at pb m p (le_bytes 2 r) 2 (Z.of_nat (length a)) = Ok (ERR_OK, m') ∧
    packet pb m' p l' ∧ content l' = a ++ le_bytes 2 r ++ b ∧
    ip_chksum_pseudo pb m' p proto len src dest = Ok 0.
Proof.
  intros Hp Hne Hap Hs Hd Hpr Hlen Hc Ha.
  destruct (ip_chksum_pseudo_sum pb m p l proto len src dest) as (x & E & Hx); [done..|].
  pose proof Hx as (Hb & Hn & Em & Ez). set (r := 0xffff - x).
  destruct (pbuf_take_at_spec pb m p l (le_bytes 2 r) 2 (length a)) as (m' & l' & Et & Hp' & _ & _ & Hc');
    [done|done|apply le_bytes_is_byte|done|lia|rewrite Hc, !length_app; simpl; lia..|].
  exists r, m', l'. split; [done|]. split; [done|]. split; [done|].
  assert (content l' = a ++ le_bytes 2 r ++ b) as Ec'.
  { rewrite Hc', Hc, take_app_length, (take_ge (le_bytes 2 r)) by done. do 2 f_equal.
    rewrite app_assoc. rewrite drop_app_length'; [done|]. by rewrite length_app. }
  split; [done|]. destruct (ip_chksum_pseudo_sum pb m' p l' proto len src dest) as (y & -> & Hy); [done..|].
  assert (le_val (le_bytes 2 r) = r) as Er by (apply le_val_le_bytes; simpl; subst r; lia).
  assert (wsum false (le_bytes 2 r) = r) as Ew by (rewrite <- Er at 2; cbn [le_bytes le_val wsum negb]; lia).
  rewrite pseudo_header_sum, Ec' in Hy by done. rewrite pseudo_header_sum, Hc in Hn, Em, Ez by done.
  rewrite (wsum_even false a), (wsum_even false [0; 0]) in Hn, Em, Ez by done.
  rewrite (wsum_even false a), (wsum_even false (le_bytes 2 r)), Ew in Hy by done.
  change (wsum false [0; 0]) with 0 in Hn, Em, Ez.
  set (A := (if IP_IS_V6 dest then _ else _)) in *. set (T := wsum false ([0; proto] ++ be16 len)) in *.
  set (n := A + (wsum false a + (0 + wsum false b)) + T) in *.
  assert (A + (wsum false a + (r + wsum false b)) + T = n + r) as En by (subst n; lia).
  rewrite En in Hy. f_equal. assert (y = 0xffff); [|lia].
  eapply rep_unique; [exact Hy|]. split; [lia|]. split; [subst r; lia|]. split; [|subst r; lia].
  rewrite Z.add_mod, <- Em, <- Z.add_mod by lia. subst r. by replace (x + (0xffff - x)) with 0xffff by lia.
Qed.

(** The same packet, with the field at its end. *)
Definition demo_zero : gmap Z Z := <[2001 := 0]> (<[2002 := 0]> demo_m).
Definition demo_zero_l : list node :=
  [Node 100 (Pbuf (Some 200) 1000 7 4 PBUF_REF 0 1 0) [97; 98; 97; 98];
   Node 200 (Pbuf None 2001 3 3 PBUF_REF 0 1 0) [0; 0; 101]].

Lemma chksum_verifies_witness :
  let src := IpAddr [0x0201a8c0; 0; 0; 0] IPADDR_TYPE_V4 in
  let dest := IpAddr [0x0301a8c0; 0; 0; 0] IPADDR_TYPE_V4 in
  ∃ r m' l', ip_chksum_pseudo demo_pb demo_zero (Some 100) 17 7 src dest = Ok r ∧
    pbuf_take_at demo_pb demo_zero (Some 100) (le_bytes 2 r) 2 4 = Ok (ERR_OK, m') ∧
    packet demo_pb m' (Some 100) l' ∧ content l' = [97; 98; 97; 98] ++ le_bytes 2 r ++ [101] ∧
    ip_chksum_pseudo demo_pb m' (Some 100) 17 7 src dest = Ok 0.
Proof.
  cbv zeta. apply (chksum_verifies demo_pb demo_zero (Some 100) demo_zero_l 17 7 _ _ [97; 98; 97; 98] [101]);
    [concrete_packet|done| | | |lia|lia|done|done].
  - repeat constructor; intros x H1 H2; unfold in_range in *; simpl in *; lia.
  - split; [done|]. repeat constructor; lia.
  - split; [done|]. repeat constructor; lia.
Defined.

(** A longer part ends the process: the assertion was meant to be deleted. *)
Lemma long_part_aborts pb m fuel a h s l k acc sw :
  packet pb m (Some a) (Node a h s :: l) → Z.of_nat (length s) + 0x7fff <= k < 2 ^ 16 →
  partial_loop (S fuel) pb m (Some a) k acc sw = Fault Aborted.
Proof.
  intros Hp Hk. inversion Hp as [|? ? ? ? Ha Hlen Hread Hbytes Htot Hmax Hrest]; subst.
  cbn [partial_loop is_some]. rewrite (proj2 (Z.ltb_lt _ _)) by lia. cbn [andb negb]. rewrite Ha.
  cbn [oget mbind res_bind]. rewrite Hlen, (proj2 (Z.ltb_ge _ _)) by lia.
  destruct (lwip_standard_chksum_spec m (p_payload h) s Hread Hbytes) as (x & -> & _); [lia|].
  cbn [mbind res_bind]. rewrite (wrapu_small 16) by lia. unfold lwip_assert.
  by rewrite (proj2 (Z.ltb_ge _ _)) by lia.
Qed.
