(* ===== verification/LwipMem.v ===== *)
(** * The heap of lwip (lwip/core/mem.c)

    The heap is an array that is cut into blocks; each block begins with a
    [struct mem] that has the indices of the next and of the previous block and
    says whether the block is in use.  The model keeps these headers in a map
    from their addresses: a header that a merge has made stale stays in the map,
    as it stays in memory.  Locking is part of the model, with [self] the
    calling thread; the heap is compiled without its own sanity checks.  This
    file has the operations; [LwipMemProofs] shows what they do to the list of
    blocks and [LwipMemSpec] what a client sees. *)

From S2P Require Import Prelude Memp SysArch Pbuf.

(** ** Data *)

(** [struct mem]; indices are 16 bits wide ([mem_size_t]). *)
Record smem : Type := SMem { m_next : Z; m_prev : Z; m_used : Z }.

(** [ram], the headers, [lfree] (an address), the statistics (the pools have no use
    for the counter of illegal calls) and the mutex. *)
Record lheap : Type := LHeap {
  ram : Z; hdrs : gmap Z smem; lfree : Z;
  hstats : stats_mem; hillegal : Z; mem_mutex : win_mutex;
}.

Definition set_hdrs (m : gmap Z smem) (h : lheap) : lheap :=
  LHeap (ram h) m (lfree h) (hstats h) (hillegal h) (mem_mutex h).
Definition set_lfree (a : Z) (h : lheap) : lheap :=
  LHeap (ram h) (hdrs h) a (hstats h) (hillegal h) (mem_mutex h).
Definition set_hstats (s : stats_mem) (h : lheap) : lheap :=
  LHeap (ram h) (hdrs h) (lfree h) s (hillegal h) (mem_mutex h).
Definition set_mem_mutex (m : win_mutex) (h : lheap) : lheap :=
  LHeap (ram h) (hdrs h) (lfree h) (hstats h) (hillegal h) m.

Definition set_m_next (n : Z) (s : smem) : smem := SMem n (m_prev s) (m_used s).
Definition set_m_prev (p : Z) (s : smem) : smem := SMem (m_next s) p (m_used s).
Definition set_m_used (u : Z) (s : smem) : smem := SMem (m_next s) (m_prev s) u.

Definition MEM_SIZE : Z := 10240.

(** In unsigned arithmetic of 32 bits. *)
Definition LWIP_MEM_ALIGN_SIZE (size : Z) : Z :=
  Z.land (u32 (size + MEM_ALIGNMENT - 1)) (u32 (Z.lnot (MEM_ALIGNMENT - 1))).

Definition MIN_SIZE_ALIGNED : Z := Eval vm_compute in LWIP_MEM_ALIGN_SIZE 12.
(** Two 16-bit indices and a byte, padded to 6. *)
Definition SIZEOF_STRUCT_MEM : Z := Eval vm_compute in LWIP_MEM_ALIGN_SIZE 6.
Definition MEM_SIZE_ALIGNED : Z := Eval vm_compute in LWIP_MEM_ALIGN_SIZE MEM_SIZE.

Definition ptr_to_mem (h : lheap) (ptr : Z) : Z := ram h + ptr.
Definition mem_to_ptr (h : lheap) (mem : Z) : Z := u16 (mem - ram h).
Definition ram_end (h : lheap) : Z := ptr_to_mem h MEM_SIZE_ALIGNED.

(** Reading a header, writing a field of one, writing a whole one. *)
Definition hdr (h : lheap) (a : Z) : res smem := oget BadPointer (hdrs h !! a).
Definition hdr_mod (f : smem → smem) (a : Z) (h : lheap) : res lheap :=
  s ← hdr h a; Ok (set_hdrs (<[a := f s]> (hdrs h)) h).
Definition hdr_put (a : Z) (s : smem) (h : lheap) : lheap := set_hdrs (<[a := s]> (hdrs h)) h.

(** The statistics: [MEM_STATS_INC_USED], [MEM_STATS_DEC_USED], [MEM_STATS_INC(err)] and
    [MEM_STATS_INC_LOCKED(illegal)]. *)
Definition mem_inc_used (n : Z) (h : lheap) : lheap :=
  let s := hstats h in
  let used := u16 (sm_used s + n) in
  set_hstats (StatsMem (sm_err s) (sm_avail s) used (if sm_max s <? used then used else sm_max s)) h.
Definition mem_dec_used (n : Z) (h : lheap) : lheap :=
  let s := hstats h in
  set_hstats (StatsMem (sm_err s) (sm_avail s) (u16 (sm_used s - n)) (sm_max s)) h.
Definition mem_inc_err (h : lheap) : lheap := set_hstats (stats_fail (hstats h)) h.
Definition mem_inc_illegal (h : lheap) : lheap :=
  LHeap (ram h) (hdrs h) (lfree h) (hstats h) (u16 (hillegal h + 1)) (mem_mutex h).

(** The mutex; a call that has to wait does not return. *)
Definition mem_lock (self : Z) (h : lheap) : res lheap :=
  m ← oget OutOfFuel (take_mutex self (mem_mutex h)); Ok (set_mem_mutex m h).
Definition mem_unlock (self : Z) (h : lheap) : res lheap :=
  m ← oget Aborted (ReleaseMutex self (mem_mutex h)); Ok (set_mem_mutex m h).

(** ** Operations *)

(** [heap] is the address of the array [ram_heap]; the statistics are zero before. *)
Definition mem_init (heap : Z) (mutex_ok : bool) : res lheap :=
  let r := LWIP_MEM_ALIGN heap in
  let h := LHeap r ∅ r (StatsMem 0 MEM_SIZE_ALIGNED 0 0) 0 (WinMutex None 0) in
  let h := hdr_put r (SMem MEM_SIZE_ALIGNED 0 0) h in
  let h := hdr_put (ram_end h) (SMem MEM_SIZE_ALIGNED MEM_SIZE_ALIGNED 1) h in
  _ ← lwip_assert mutex_ok;
  Ok h.

Definition plug_forward (h : lheap) (mem : Z) : res lheap :=
  s ← hdr h mem;
  let nmem := ptr_to_mem h (m_next s) in
  if mem =? nmem then Ok h
  else
    n ← hdr h nmem;
    if (m_used n =? 0) && negb (nmem =? ram_end h) then
      let h := if lfree h =? nmem then set_lfree mem h else h in
      h ← hdr_mod (set_m_next (m_next n)) mem h;
      if negb (m_next n =? MEM_SIZE_ALIGNED)
      then hdr_mod (set_m_prev (mem_to_ptr h mem)) (ptr_to_mem h (m_next n)) h
      else Ok h
    else Ok h.

Definition plug_backward (h : lheap) (mem : Z) : res lheap :=
  s ← hdr h mem;
  let pmem := ptr_to_mem h (m_prev s) in
  if pmem =? mem then Ok h
  else
    p ← hdr h pmem;
    if m_used p =? 0 then
      let h := if lfree h =? mem then set_lfree pmem h else h in
      h ← hdr_mod (set_m_next (m_next s)) pmem h;
      if negb (m_next s =? MEM_SIZE_ALIGNED)
      then hdr_mod (set_m_prev (mem_to_ptr h pmem)) (ptr_to_mem h (m_next s)) h
      else Ok h
    else Ok h.

Definition plug_holes (h : lheap) (mem : Z) : res lheap :=
  _ ← lwip_assert (ram h <=? mem);
  _ ← lwip_assert (mem <? ram_end h);
  s ← hdr h mem;
  _ ← lwip_assert (m_used s =? 0);
  _ ← lwip_assert (m_next s <=? MEM_SIZE_ALIGNED);
  h ← plug_forward h mem;
  plug_backward h mem.

(** [||] and [&&] read the neighbours only when they have to. *)
Definition mem_link_valid (h : lheap) (mem : Z) : res bool :=
  let rmem_idx := mem_to_ptr h mem in
  s ← hdr h mem;
  let nmem := ptr_to_mem h (m_next s) in
  let pmem := ptr_to_mem h (m_prev s) in
  if (MEM_SIZE_ALIGNED <? m_next s) || (MEM_SIZE_ALIGNED <? m_prev s) then Ok false
  else
    bad ← (if m_prev s =? rmem_idx then Ok false
           else p ← hdr h pmem; Ok (negb (m_next p =? rmem_idx)));
    if bad : bool then Ok false
    else if nmem =? ram_end h then Ok true
    else n ← hdr h nmem; Ok (m_prev n =? rmem_idx).

(** [LWIP_ASSERT(msg, 0)]: what stands behind it (the mutex given back, the counter) is
    not reached. *)
Definition LWIP_MEM_ILLEGAL_FREE : res unit := lwip_assert false.

Definition mem_free (self : Z) (rmem : option Z) (h : lheap) : res lheap :=
  match rmem with
  | None => Ok h
  | Some rmem =>
      if negb (Z.land rmem (MEM_ALIGNMENT - 1) =? 0) then _ ← LWIP_MEM_ILLEGAL_FREE; Ok (mem_inc_illegal h)
      else
        let mem := rmem - SIZEOF_STRUCT_MEM in
        if (mem <? ram h) || (ram_end h <? rmem + MIN_SIZE_ALIGNED) then _ ← LWIP_MEM_ILLEGAL_FREE; Ok (mem_inc_illegal h)
        else
          h ← mem_lock self h;
          s ← hdr h mem;
          if m_used s =? 0 then _ ← LWIP_MEM_ILLEGAL_FREE; h ← mem_unlock self h; Ok (mem_inc_illegal h)
          else
            valid ← mem_link_valid h mem;
            if negb valid then _ ← LWIP_MEM_ILLEGAL_FREE; h ← mem_unlock self h; Ok (mem_inc_illegal h)
            else
              h ← hdr_mod (set_m_used 0) mem h;
              let h := if mem <? lfree h then set_lfree mem h else h in
              let h := mem_dec_used (m_next s - u16 (mem - ram h)) h in
              h ← plug_holes h mem;
              mem_unlock self h
  end.

(** The size a request is rounded to; [None]: it is refused at once. *)
Definition mem_round (size_in : Z) : option Z :=
  let size := u16 (LWIP_MEM_ALIGN_SIZE size_in) in
  let size := if size <? MIN_SIZE_ALIGNED then MIN_SIZE_ALIGNED else size in
  if (MEM_SIZE_ALIGNED <? size) || (size <? size_in) then None else Some size.

(** A free block is put behind [mem], from [ptr2] up to [next]. *)
Definition mem_cut (h : lheap) (mem ptr ptr2 next : Z) : res lheap :=
  let h := hdr_put (ptr_to_mem h ptr2) (SMem next ptr 0) h in
  h ← hdr_mod (set_m_next ptr2) mem h;
  if negb (next =? MEM_SIZE_ALIGNED)
  then hdr_mod (set_m_prev ptr2) (ptr_to_mem h next) h
  else Ok h.

Definition mem_trim (self : Z) (rmem : Z) (new_size : Z) (h : lheap) : res (option Z * lheap) :=
  match mem_round new_size with
  | None => Ok (None, h)
  | Some newsize =>
      _ ← lwip_assert ((ram h <=? rmem) && (rmem <? ram_end h));
      let mem := rmem - SIZEOF_STRUCT_MEM in
      let ptr := mem_to_ptr h mem in
      s ← hdr h mem;
      let size := u16 (u16 (m_next s - ptr) - SIZEOF_STRUCT_MEM) in
      _ ← lwip_assert (newsize <=? size);
      if newsize =? size then Ok (Some rmem, h)
      else
        h ← mem_lock self h;
        let mem2 := ptr_to_mem h (m_next s) in
        s2 ← hdr h mem2;
        let ptr2 := u16 (ptr + SIZEOF_STRUCT_MEM + newsize) in
        h ← (if m_used s2 =? 0 then
               _ ← lwip_assert (negb (m_next s =? MEM_SIZE_ALIGNED));
               let h := if lfree h =? mem2 then set_lfree (ptr_to_mem h ptr2) h else h in
               h ← mem_cut h mem ptr ptr2 (m_next s2);
               Ok (mem_dec_used (size - newsize) h)
             else if newsize + SIZEOF_STRUCT_MEM + MIN_SIZE_ALIGNED <=? size then
               _ ← lwip_assert (negb (m_next s =? MEM_SIZE_ALIGNED));
               let h := if ptr_to_mem h ptr2 <? lfree h then set_lfree (ptr_to_mem h ptr2) h else h in
               h ← mem_cut h mem ptr ptr2 (m_next s);
               Ok (mem_dec_used (size - newsize) h)
             else Ok h);
        h ← mem_unlock self h;
        Ok (Some rmem, h)
  end.

(** [size_t]: the sizes of headers have this type, so that differences with them do. *)
Abbreviation usize := (wrapu sizet_bits).

(** The bound of the loops over the blocks: none has less than 20 bytes. *)
Definition BLOCK_FUEL : nat := 514.

(** The block the search ends at. *)
Fixpoint malloc_search `{Platform} (fuel : nat) (h : lheap) (size ptr : Z) : res (option Z) :=
  match fuel with
  | O => Fault OutOfFuel
  | S fuel =>
      if ptr <? MEM_SIZE_ALIGNED - size then
        s ← hdr h (ptr_to_mem h ptr);
        if (m_used s =? 0) && (size <=? usize (m_next s - (ptr + SIZEOF_STRUCT_MEM)))
        then Ok (Some ptr)
        else malloc_search fuel h size (m_next s)
      else Ok None
  end.

Definition malloc_take `{Platform} (h : lheap) (size ptr : Z) : res lheap :=
  let mem := ptr_to_mem h ptr in
  s ← hdr h mem;
  if size + SIZEOF_STRUCT_MEM + MIN_SIZE_ALIGNED <=? usize (m_next s - (ptr + SIZEOF_STRUCT_MEM)) then
    let ptr2 := u16 (ptr + SIZEOF_STRUCT_MEM + size) in
    _ ← lwip_assert (negb (ptr2 =? MEM_SIZE_ALIGNED));
    h ← hdr_mod (set_m_used 1) mem h;
    h ← mem_cut h mem ptr ptr2 (m_next s);
    Ok (mem_inc_used (size + SIZEOF_STRUCT_MEM) h)
  else
    h ← hdr_mod (set_m_used 1) mem h;
    Ok (mem_inc_used (m_next s - mem_to_ptr h mem) h).

Fixpoint lfree_loop (fuel : nat) (h : lheap) (cur : Z) : res Z :=
  match fuel with
  | O => Fault OutOfFuel
  | S fuel =>
      s ← hdr h cur;
      if negb (m_used s =? 0) && negb (cur =? ram_end h)
      then lfree_loop fuel h (ptr_to_mem h (m_next s))
      else Ok cur
  end.

Definition adjust_lfree (h : lheap) (mem : Z) : res lheap :=
  if mem =? lfree h then
    cur ← lfree_loop BLOCK_FUEL h (lfree h);
    let h := set_lfree cur h in
    s ← hdr h cur;
    _ ← lwip_assert ((cur =? ram_end h) || (m_used s =? 0));
    Ok h
  else Ok h.

Definition mem_malloc `{Platform} (self size_in : Z) (h : lheap) : res (option Z * lheap) :=
  if size_in =? 0 then Ok (None, h)
  else
    match mem_round size_in with
    | None => Ok (None, h)
    | Some size =>
        h ← mem_lock self h;
        found ← malloc_search BLOCK_FUEL h size (mem_to_ptr h (lfree h));
        match found with
        | Some ptr =>
            let mem := ptr_to_mem h ptr in
            h ← malloc_take h size ptr;
            h ← adjust_lfree h mem;
            h ← mem_unlock self h;
            _ ← lwip_assert (mem + SIZEOF_STRUCT_MEM + size <=? ram_end h);
            _ ← lwip_assert ((mem + SIZEOF_STRUCT_MEM) mod MEM_ALIGNMENT =? 0);
            _ ← lwip_assert (Z.land mem (MEM_ALIGNMENT - 1) =? 0);
            Ok (Some (mem + SIZEOF_STRUCT_MEM), h)
        | None => h ← mem_unlock self (mem_inc_err h); Ok (None, h)
        end
    end.

(** [m]: the memory of the clients. *)
Definition mem_calloc `{Platform} (self count size : Z) (h : lheap) (m : gmap Z Z)
    : res (option Z * lheap * gmap Z Z) :=
  let alloc_size := usize (count * size) in
  if negb (u16 alloc_size =? alloc_size) then Ok (None, h, m)
  else
    '(p, h) ← mem_malloc self (u16 alloc_size) h;
    match p with
    | Some a => m ← mwrite m a (replicate (Z.to_nat alloc_size) 0); Ok (p, h, m)
    | None => Ok (p, h, m)
    end.
