(* ===== verification/LwipMemProofs.v ===== *)
(** * The heap of lwip: what the operations do to the list of blocks

    [layout] says that the headers of a heap describe a given list of blocks that
    tile the array; every change the operations make is the replacement of a few
    neighbouring blocks by others of the same extent ([layout_replace]).
    [heap_inv] adds what holds between calls: no two free blocks side by side,
    [lfree] at the first free block, exact statistics, the mutex free. *)

From S2P Require Import Prelude Memp SysArch Pbuf LwipMem.

(** ** Lists of blocks *)

(** The size includes the header. *)
Record blk : Type := Blk { b_size : Z; b_used : bool }.

Definition uflag (b : bool) : Z := if b then 1 else 0.

Fixpoint total (l : list blk) : Z :=
  match l with [] => 0 | b :: l => b_size b + total l end.

(** Bytes in blocks that are in use. *)
Fixpoint utotal (l : list blk) : Z :=
  match l with [] => 0 | b :: l => (if b_used b then b_size b else 0) + utotal l end.

(** Where the last of the blocks [l] from [off] on begins. *)
Fixpoint lastp (prev off : Z) (l : list blk) : Z :=
  match l with [] => prev | b :: l => lastp off (off + b_size b) l end.

(** Where the first free one begins, or behind them all. *)
Fixpoint ffree (off : Z) (l : list blk) : Z :=
  match l with [] => off | b :: l => if b_used b then ffree (off + b_size b) l else off end.

Definition blk_ok (b : blk) : Prop :=
  SIZEOF_STRUCT_MEM + MIN_SIZE_ALIGNED <= b_size b ∧ b_size b mod MEM_ALIGNMENT = 0.

(** No two free blocks side by side, the block before [l] being in use or not. *)
Fixpoint spaced (u : bool) (l : list blk) : Prop :=
  match l with [] => True | b :: l => u || b_used b = true ∧ spaced (b_used b) l end.

Fixpoint lastu (u : bool) (l : list blk) : bool :=
  match l with [] => u | b :: l => lastu (b_used b) l end.

Lemma total_app l1 l2 : total (l1 ++ l2) = total l1 + total l2.
Proof. induction l1 as [|b l1 IH]; simpl; lia. Qed.

Lemma utotal_app l1 l2 : utotal (l1 ++ l2) = utotal l1 + utotal l2.
Proof. induction l1 as [|b l1 IH]; simpl; lia. Qed.

Lemma lastp_app p off l1 l2 : lastp p off (l1 ++ l2) = lastp (lastp p off l1) (off + total l1) l2.
Proof.
  revert p off. induction l1 as [|b l1 IH]; intros p off; simpl; [by rewrite Z.add_0_r|].
  by rewrite IH, Z.add_assoc.
Qed.

Lemma spaced_app u l1 l2 : spaced u (l1 ++ l2) ↔ spaced u l1 ∧ spaced (lastu u l1) l2.
Proof. revert u. induction l1 as [|b l1 IH]; intros u; simpl; [tauto|]. rewrite IH. tauto. Qed.

Lemma spaced_used l u : spaced u l → spaced true l.
Proof. destruct l as [|b l]; simpl; tauto. Qed.

Lemma lastu_snoc u l b : lastu u (l ++ [b]) = b_used b.
Proof. revert u. induction l as [|c l IH]; intros u; simpl; [done|apply IH]. Qed.

Lemma total_nonneg l : Forall blk_ok l → 0 <= total l.
Proof.
  induction 1 as [|b l [H _] _ IH]; simpl; [lia|].
  unfold SIZEOF_STRUCT_MEM, MIN_SIZE_ALIGNED in H. lia.
Qed.

Lemma utotal_range l : Forall blk_ok l → 0 <= utotal l <= total l.
Proof.
  induction 1 as [|b l [H _] _ IH]; simpl; [lia|].
  unfold SIZEOF_STRUCT_MEM, MIN_SIZE_ALIGNED in H. destruct (b_used b); lia.
Qed.

Lemma length_total l : Forall blk_ok l → 20 * Z.of_nat (length l) <= total l.
Proof.
  induction 1 as [|b l [H _] _ IH]; [simpl; lia|].
  unfold SIZEOF_STRUCT_MEM, MIN_SIZE_ALIGNED in H. cbn [length total]. lia.
Qed.

Lemma total_aligned l : Forall blk_ok l → total l mod MEM_ALIGNMENT = 0.
Proof.
  unfold MEM_ALIGNMENT. induction 1 as [|b l [_ Hb] _ IH]; simpl; [done|].
  unfold MEM_ALIGNMENT in Hb. rewrite Z.add_mod, Hb, IH; done.
Qed.

Lemma ffree_app off l1 l2 :
  ffree off (l1 ++ l2) = if forallb b_used l1 then ffree (off + total l1) l2 else ffree off l1.
Proof.
  revert off. induction l1 as [|b l1 IH]; intros off; simpl; [by rewrite Z.add_0_r|].
  destruct (b_used b); simpl; [|done]. rewrite IH. by rewrite Z.add_assoc.
Qed.

Lemma ffree_range off l : Forall blk_ok l → off <= ffree off l <= off + total l.
Proof.
  intros H. revert off. induction H as [|b l [Hb _] Hl IH]; intros off; simpl; [lia|].
  unfold SIZEOF_STRUCT_MEM, MIN_SIZE_ALIGNED in Hb. pose proof (total_nonneg l Hl).
  destruct (b_used b); [specialize (IH (off + b_size b))|]; lia.
Qed.

Lemma ffree_lt off l : Forall blk_ok l → forallb b_used l = false → ffree off l < off + total l.
Proof.
  intros H. revert off. induction H as [|b l [Hb _] Hl IH]; intros off; simpl; [done|].
  unfold SIZEOF_STRUCT_MEM, MIN_SIZE_ALIGNED in Hb. pose proof (total_nonneg l Hl).
  destruct (b_used b); simpl; [|lia]. intros E. specialize (IH (off + b_size b) E). lia.
Qed.

(** ** Headers that describe a list *)

Fixpoint blocks_at (m : gmap Z smem) (r prev off : Z) (l : list blk) : Prop :=
  match l with
  | [] => True
  | b :: l =>
      m !! (r + off) = Some (SMem (off + b_size b) prev (uflag (b_used b))) ∧
      blocks_at m r off (off + b_size b) l
  end.

Definition end_hdr : smem := SMem MEM_SIZE_ALIGNED MEM_SIZE_ALIGNED 1.

Record layout (m : gmap Z smem) (r : Z) (l : list blk) : Prop := Layout {
  lo_at : blocks_at m r 0 0 l;
  lo_end : m !! (r + MEM_SIZE_ALIGNED) = Some end_hdr;
  lo_total : total l = MEM_SIZE_ALIGNED;
  lo_ok : Forall blk_ok l;
}.

Lemma blocks_at_app m r p off l1 l2 :
  blocks_at m r p off (l1 ++ l2) ↔
  blocks_at m r p off l1 ∧ blocks_at m r (lastp p off l1) (off + total l1) l2.
Proof.
  revert p off. induction l1 as [|b l1 IH]; intros p off; simpl.
  { rewrite Z.add_0_r. tauto. }
  rewrite IH, Z.add_assoc. tauto.
Qed.

(** Only the headers inside matter. *)
Lemma blocks_at_frame m m' r p off l :
  Forall blk_ok l → blocks_at m r p off l →
  (∀ x, off <= x < off + total l → m' !! (r + x) = m !! (r + x)) → blocks_at m' r p off l.
Proof.
  intros H. revert p off. induction H as [|b l [Hb _] Hl IH]; intros p off; simpl; [done|].
  unfold SIZEOF_STRUCT_MEM, MIN_SIZE_ALIGNED in Hb. pose proof (total_nonneg l Hl).
  intros [Hh Ht] Hf. split.
  - rewrite Hf; [done|lia].
  - apply IH; [done|]. intros x Hx. apply Hf. lia.
Qed.

(** The change to the header at [e] when the block before it begins at [p]. *)
Definition relinked (m m' : gmap Z smem) (r e p : Z) : Prop :=
  m' !! (r + e) =
    if e =? MEM_SIZE_ALIGNED then m !! (r + e) else set_m_prev p <$> m !! (r + e).

Lemma layout_replace m m' r l1 mid mid' l2 p :
  layout m r (l1 ++ mid ++ l2) →
  total mid' = total mid → Forall blk_ok mid' →
  (∀ x, x < total l1 → m' !! (r + x) = m !! (r + x)) →
  (∀ x, total l1 + total mid < x → m' !! (r + x) = m !! (r + x)) →
  blocks_at m' r (lastp 0 0 l1) (total l1) mid' →
  lastp (lastp 0 0 l1) (total l1) mid' = p →
  relinked m m' r (total l1 + total mid) p →
  layout m' r (l1 ++ mid' ++ l2).
Proof.
  intros [Ha He Ht Hok] Htot Hok' Hlo Hhi Hmid <- Hre.
  apply Forall_app in Hok as [Hok1 [Hokm Hok2]%Forall_app].
  rewrite !total_app in Ht. rewrite !blocks_at_app in Ha. destruct Ha as (Ha1 & Ham & Ha2).
  rewrite Z.add_0_l in *.
  pose proof (total_nonneg _ Hok1). pose proof (total_nonneg _ Hokm). pose proof (total_nonneg _ Hok2).
  split.
  - rewrite !blocks_at_app, Z.add_0_l, Htot. split_and!; [|done|].
    + apply (blocks_at_frame m); [done..|]. intros x Hx. apply Hlo. lia.
    + destruct l2 as [|b l2]; [done|]. destruct Ha2 as [Hb Ha2]. simpl in Ht.
      apply Forall_cons in Hok2 as [[Hbs _] Hok2]. unfold SIZEOF_STRUCT_MEM, MIN_SIZE_ALIGNED in Hbs.
      pose proof (total_nonneg _ Hok2). split.
      * unfold relinked in Hre. rewrite Hre, Hb, (proj2 (Z.eqb_neq _ _)) by lia. done.
      * apply (blocks_at_frame m); [done..|]. intros x Hx. apply Hhi. lia.
  - destruct (decide (total l1 + total mid = MEM_SIZE_ALIGNED)) as [E|].
    + unfold relinked in Hre. by rewrite E, Z.eqb_refl, He in Hre.
    + rewrite Hhi by lia. done.
  - rewrite !total_app. lia.
  - by rewrite !Forall_app.
Qed.

(** The header of a block, and the one behind it. *)
Lemma layout_hdr m r l1 b l2 :
  layout m r (l1 ++ b :: l2) →
  m !! (r + total l1) =
    Some (SMem (total l1 + b_size b) (lastp 0 0 l1) (uflag (b_used b))).
Proof. intros [Ha _ _ _]. by apply blocks_at_app in Ha as [_ [Ha _]]. Qed.

Lemma layout_next m r l1 b l2 :
  layout m r (l1 ++ b :: l2) →
  m !! (r + (total l1 + b_size b)) =
    Some (match l2 with
          | [] => end_hdr
          | c :: _ => SMem (total l1 + b_size b + b_size c) (total l1) (uflag (b_used c))
          end).
Proof.
  intros [Ha He Ht _]. apply blocks_at_app in Ha as [_ [_ Ha]]. rewrite total_app in Ht. simpl in Ht.
  destruct l2 as [|c l2].
  - simpl in Ht. by replace (total l1 + b_size b) with MEM_SIZE_ALIGNED by lia.
  - destruct Ha as [Ha _]. rewrite Z.add_0_l in Ha. done.
Qed.

(** Positions: all inside the array, so that 16 bits hold them. *)
Lemma layout_pos m r l1 b l2 :
  layout m r (l1 ++ b :: l2) →
  0 <= total l1 ∧ 20 <= b_size b ∧ total l1 + b_size b <= MEM_SIZE_ALIGNED ∧
  (total l1 + b_size b = MEM_SIZE_ALIGNED ↔ l2 = []) ∧
  total l1 mod 4 = 0 ∧ b_size b mod 4 = 0.
Proof.
  intros [_ _ Ht Hok]. apply Forall_app in Hok as [Hok1 [[Hb Hm] Hok2]%Forall_cons].
  unfold SIZEOF_STRUCT_MEM, MIN_SIZE_ALIGNED in Hb.
  rewrite total_app in Ht. simpl in Ht.
  pose proof (total_nonneg _ Hok1). pose proof (total_nonneg _ Hok2).
  pose proof (total_aligned _ Hok1). split_and!; try done; [lia..|].
  split; [|intros ->; simpl in Ht; lia]. intros E. destruct l2 as [|c l2]; [done|].
  apply Forall_cons in Hok2 as [[Hc _] Hok2]. unfold SIZEOF_STRUCT_MEM, MIN_SIZE_ALIGNED in Hc.
  pose proof (total_nonneg _ Hok2). simpl in Ht. lia.
Qed.

(** Where the block before begins. *)
Lemma lastp_snoc l b : lastp 0 0 (l ++ [b]) = total l.
Proof. rewrite lastp_app. simpl. done. Qed.

Lemma lastp_range l : Forall blk_ok l → l ≠ [] → 0 <= lastp 0 0 l < total l.
Proof.
  intros Hok Hne. destruct l as [|b l _] using rev_ind; [done|].
  apply Forall_app in Hok as [Hok [[Hb _] _]%Forall_cons].
  unfold SIZEOF_STRUCT_MEM, MIN_SIZE_ALIGNED in Hb. pose proof (total_nonneg _ Hok).
  rewrite lastp_snoc, total_app. simpl. lia.
Qed.

(** ** One change at a time *)

Definition heap_layout (h : lheap) (l : list blk) : Prop := layout (hdrs h) (ram h) l.

(** The index of an address of the array. *)
Lemma mem_to_ptr_at h x : 0 <= x <= MEM_SIZE_ALIGNED → mem_to_ptr h (ram h + x) = x.
Proof.
  intros Hx. unfold mem_to_ptr. replace (ram h + x - ram h) with x by lia.
  unfold MEM_SIZE_ALIGNED in Hx. apply wrapu_small. lia.
Qed.

Lemma hdr_mod_at f a s h :
  hdrs h !! a = Some s → hdr_mod f a h = Ok (set_hdrs (<[a := f s]> (hdrs h)) h).
Proof. intros E. unfold hdr_mod, hdr. by rewrite E. Qed.

(** [m !! (r + x)] after insertions at [r + _]. *)
Ltac look :=
  repeat first [ rewrite lookup_insert_eq | rewrite lookup_insert_ne by lia
               | progress cbn [hdrs set_hdrs ram]
               | progress rewrite ?Z.add_0_r ].

(** A block that stays where it is needs no change behind it. *)
Lemma relinked_same m m' r l1 s u l2 :
  layout m r (l1 ++ Blk s u :: l2) →
  m' !! (r + (total l1 + (s + 0))) = m !! (r + (total l1 + (s + 0))) →
  relinked m m' r (total l1 + (s + 0)) (total l1).
Proof.
  intros HL Hs. unfold relinked. rewrite Hs, !Z.add_0_r.
  pose proof (layout_next _ _ _ _ _ HL) as Hn. cbn [b_size] in Hn. rewrite Hn.
  destruct (_ =? _) eqn:E; [done|]. destruct l2 as [|c l2]; [|done].
  apply Z.eqb_neq in E. exfalso. apply E.
  pose proof (layout_pos _ _ _ _ _ HL) as (_ & _ & _ & [_ HE] & _). by apply HE.
Qed.

(** The block changes its state. *)
Lemma mark_layout m r l1 s u u' l2 :
  layout m r (l1 ++ Blk s u :: l2) →
  layout (<[r + total l1 := SMem (total l1 + s) (lastp 0 0 l1) (uflag u')]> m) r
    (l1 ++ Blk s u' :: l2).
Proof.
  intros HL. pose proof (layout_pos _ _ _ _ _ HL) as (? & Hs & ? & _).
  simpl in *.
  refine (layout_replace m _ r l1 [Blk s u] [Blk s u'] l2 (total l1) HL eq_refl _ _ _ _ eq_refl _); simpl.
  - pose proof (lo_ok _ _ _ HL) as [_ [Hok _]%Forall_cons]%Forall_app. by apply Forall_singleton.
  - intros x Hx. by look.
  - intros x Hx. by look.
  - split; [by look|done].
  - apply (relinked_same _ _ _ _ _ u l2 HL). by look.
Qed.

(** The block behind a group learns where the one before it begins now; [h1] is the
    heap after other changes. *)
Lemma relink_spec h h1 l1 mid l2 p :
  heap_layout h (l1 ++ mid ++ l2) → ram h1 = ram h →
  hdrs h1 !! (ram h + (total l1 + total mid)) = hdrs h !! (ram h + (total l1 + total mid)) →
  ∃ m', (if negb (total l1 + total mid =? MEM_SIZE_ALIGNED)
         then hdr_mod (set_m_prev p) (ptr_to_mem h1 (total l1 + total mid)) h1
         else Ok h1) = Ok (set_hdrs m' h1) ∧
    (∀ x, x ≠ total l1 + total mid → m' !! (ram h + x) = hdrs h1 !! (ram h + x)) ∧
    relinked (hdrs h) m' (ram h) (total l1 + total mid) p.
Proof.
  intros HL Hr Hsame. unfold relinked, ptr_to_mem. rewrite Hr.
  destruct (_ =? MEM_SIZE_ALIGNED) eqn:E; cbn [negb].
  { exists (hdrs h1). by destruct h1. }
  assert (∃ n, hdrs h !! (ram h + (total l1 + total mid)) = Some n) as [n Hn].
  { destruct l2 as [|b l2].
    - exfalso. apply Z.eqb_neq in E. apply E. pose proof (lo_total _ _ _ HL) as Ht.
      rewrite !total_app in Ht. simpl in Ht. lia.
    - rewrite app_assoc in HL. pose proof (layout_hdr _ _ _ _ _ HL) as Hn.
      rewrite total_app in Hn. eauto. }
  rewrite (hdr_mod_at _ _ n) by (by rewrite Hsame). eexists. split; [reflexivity|]. split.
  - intros x Hx. by look.
  - rewrite Hn. by look.
Qed.

(** Several blocks become two, the first as the header of the group says. *)
Lemma mem_cut_layout h l1 mid l2 u s0 ptr2 next :
  heap_layout h (l1 ++ mid ++ l2) → next = total l1 + total mid →
  hdrs h !! (ram h + total l1) = Some (SMem s0 (lastp 0 0 l1) (uflag u)) →
  Forall blk_ok [Blk (ptr2 - total l1) u; Blk (next - ptr2) false] →
  ∃ m', mem_cut h (ram h + total l1) (total l1) ptr2 next = Ok (set_hdrs m' h) ∧
    layout m' (ram h) (l1 ++ [Blk (ptr2 - total l1) u; Blk (next - ptr2) false] ++ l2).
Proof.
  intros HL -> Hh Hok.
  pose proof Hok as [[H1 _] [[H2 _] _]%Forall_cons]%Forall_cons.
  unfold SIZEOF_STRUCT_MEM, MIN_SIZE_ALIGNED in H1, H2. simpl in H1, H2.
  unfold mem_cut, hdr_put.
  rewrite (hdr_mod_at _ _ (SMem s0 (lastp 0 0 l1) (uflag u))) by (unfold ptr_to_mem; simpl; by look).
  cbn [mbind res_bind]. unfold ptr_to_mem at 2. cbn [hdrs set_hdrs].
  destruct (relink_spec h (set_hdrs (<[ram h + total l1 := SMem ptr2 (lastp 0 0 l1) (uflag u)]>
    (<[ram h + ptr2 := SMem (total l1 + total mid) (total l1) 0]> (hdrs h))) h)
    l1 mid l2 ptr2 HL eq_refl) as (m' & HE & Hm & Hre); [by look|].
  exists m'. split; [exact HE|]. cbn [hdrs set_hdrs] in Hm.
  refine (layout_replace (hdrs h) m' (ram h) l1 mid _ l2 ptr2 HL _ Hok _ _ _ _ Hre); simpl.
  - lia.
  - intros x Hx. rewrite Hm by lia. by look.
  - intros x Hx. rewrite Hm by lia. by look.
  - replace (total l1 + (ptr2 - total l1)) with ptr2 by lia.
    rewrite !Hm by lia. look. split_and!; [done| |done]. do 2 f_equal. lia.
  - lia.
Qed.

(** Two blocks become one: the part that both directions of [plug_holes] share. *)
Lemma merge_layout h l1 s s2 u2 l2 next :
  heap_layout h (l1 ++ [Blk s false; Blk s2 u2] ++ l2) → next = total l1 + s + s2 →
  ∃ m', (h1 ← hdr_mod (set_m_next next) (ram h + total l1) h;
         if negb (next =? MEM_SIZE_ALIGNED)
         then hdr_mod (set_m_prev (mem_to_ptr h1 (ram h + total l1))) (ptr_to_mem h1 next) h1
         else Ok h1) = Ok (set_hdrs m' h) ∧
    layout m' (ram h) (l1 ++ Blk (s + s2) false :: l2).
Proof.
  intros HL ->. pose proof (layout_hdr _ _ _ _ _ HL) as Hh. cbn [b_size b_used uflag] in Hh.
  pose proof (layout_pos _ _ _ _ _ HL) as (? & Hs & Hin & _ & _ & Hs4). simpl in Hs, Hin, Hs4.
  pose proof (lo_ok _ _ _ HL) as [_ [_ [[H2 H24] _]%Forall_cons]%Forall_cons]%Forall_app.
  unfold SIZEOF_STRUCT_MEM, MIN_SIZE_ALIGNED, MEM_ALIGNMENT in H2, H24. simpl in H2, H24.
  rewrite (hdr_mod_at _ _ _ _ Hh). cbn [mbind res_bind].
  set (h1 := set_hdrs _ h).
  change (mem_to_ptr h1 (ram h + total l1)) with (mem_to_ptr h (ram h + total l1)).
  rewrite mem_to_ptr_at by lia.
  replace (total l1 + s + s2) with (total l1 + total [Blk s false; Blk s2 u2]) by (simpl; lia).
  destruct (relink_spec h h1 l1 _ l2 (total l1) HL eq_refl) as (m' & HE & Hm & Hre);
    [unfold h1; simpl; by look|].
  exists m'. split; [exact HE|]. unfold h1 in Hm. cbn [hdrs set_hdrs] in Hm.
  refine (layout_replace (hdrs h) m' (ram h) l1 _ [Blk (s + s2) false] l2 (total l1) HL _ _ _ _ _ eq_refl Hre);
    simpl.
  - lia.
  - apply Forall_singleton. unfold blk_ok, SIZEOF_STRUCT_MEM, MIN_SIZE_ALIGNED, MEM_ALIGNMENT. simpl.
    split; [lia|]. rewrite Z.add_mod, Hs4, H24; done.
  - intros x Hx. rewrite Hm by (simpl; lia). by look.
  - intros x Hx. rewrite Hm by (simpl; lia). by look.
  - rewrite Hm by (simpl; lia). look. split; [|done]. unfold set_m_next. do 2 f_equal. lia.
Qed.

(** ** Releasing *)

(** What merging makes of a free block of [s] bytes and the blocks behind it, and of
    the blocks before it. *)
Definition fwd (s : Z) (l2 : list blk) : Z * list blk :=
  match l2 with Blk s2 false :: l2 => (s + s2, l2) | _ => (s, l2) end.

Definition bwd (l1 : list blk) (s : Z) : list blk * Z :=
  match last l1 with Some (Blk s1 false) => (removelast l1, s1 + s) | _ => (l1, s) end.

Lemma set_hdrs_id h : Ok h = Ok (set_hdrs (hdrs h) h).
Proof. by destruct h. Qed.

Lemma plug_forward_spec h l1 s l2 :
  heap_layout h (l1 ++ Blk s false :: l2) → lfree h <= ram h + total l1 →
  ∃ m', plug_forward h (ram h + total l1) = Ok (set_hdrs m' h) ∧
    layout m' (ram h) (l1 ++ Blk (fwd s l2).1 false :: (fwd s l2).2).
Proof.
  intros HL Hlf. unfold plug_forward, hdr.
  rewrite (layout_hdr _ _ _ _ _ HL). cbn [oget mbind res_bind m_next b_size]. unfold ptr_to_mem.
  pose proof (layout_pos _ _ _ _ _ HL) as (? & Hs & Hin & _). simpl in Hs, Hin.
  rewrite (proj2 (Z.eqb_neq _ _)) by lia.
  pose proof (layout_next _ _ _ _ _ HL) as Hn. cbn [b_size] in Hn. rewrite Hn.
  cbn [oget mbind res_bind].
  destruct l2 as [|[s2 [|]] l2]; cbn [fwd m_used uflag b_used b_size fst snd].
  1,2: exists (hdrs h); split; [apply set_hdrs_id|done].
  unfold ram_end, ptr_to_mem. cbn [end_hdr m_used]. rewrite Z.eqb_refl. cbn [andb].
  assert (total l1 + s ≠ MEM_SIZE_ALIGNED).
  { intros E. pose proof (layout_pos _ _ _ _ _ HL) as (_ & _ & _ & [HE _] & _). simpl in HE.
    by specialize (HE E). }
  rewrite (proj2 (Z.eqb_neq _ (ram h + MEM_SIZE_ALIGNED))) by lia. cbn [negb].
  rewrite (proj2 (Z.eqb_neq (lfree h) _)) by lia. cbn [m_next].
  exact (merge_layout h l1 s s2 false l2 _ HL eq_refl).
Qed.

Lemma plug_backward_spec h l1 s l2 :
  heap_layout h (l1 ++ Blk s false :: l2) → lfree h = ram h + ffree 0 (l1 ++ Blk s false :: l2) →
  ∃ m', plug_backward h (ram h + total l1) = Ok (set_hdrs m' h) ∧
    layout m' (ram h) ((bwd l1 s).1 ++ Blk (bwd l1 s).2 false :: l2).
Proof.
  intros HL Hlf. unfold plug_backward, hdr, bwd.
  rewrite (layout_hdr _ _ _ _ _ HL). cbn [oget mbind res_bind m_next m_prev b_size].
  unfold ptr_to_mem. destruct l1 as [|[s1 u1] l1 _] using rev_ind.
  { simpl. rewrite (proj2 (Z.eqb_eq _ _)) by lia. exists (hdrs h). split; [apply set_hdrs_id|done]. }
  rewrite last_snoc, removelast_last, lastp_snoc.
  rewrite <- app_assoc in HL. cbn [app] in HL.
  pose proof (layout_pos _ _ _ _ _ HL) as (? & Hs & Hin & _). simpl in Hs, Hin.
  rewrite total_app. cbn [total b_size]. rewrite (proj2 (Z.eqb_neq _ _)) by lia.
  rewrite (layout_hdr _ _ _ _ _ HL). cbn [oget mbind res_bind b_used m_used].
  destruct u1; cbn [uflag].
  { exists (hdrs h). split; [apply set_hdrs_id|]. cbn [fst snd]. by rewrite <- app_assoc. }
  rewrite Z.eqb_refl, (proj2 (Z.eqb_neq (lfree h) _)); cycle 1.
  { rewrite Hlf, <- app_assoc, ffree_app. cbn [app ffree b_used].
    pose proof (lo_ok _ _ _ HL) as [Hok1 _]%Forall_app.
    pose proof (ffree_range 0 l1 Hok1). destruct (forallb _ _); lia. }
  apply (merge_layout h l1 s1 s false l2); [done|lia].
Qed.

(** Freeing keeps the first free block first. *)
Lemma ffree_fwd off l1 s l2 :
  ffree off (l1 ++ Blk (fwd s l2).1 false :: (fwd s l2).2) = ffree off (l1 ++ Blk s false :: l2).
Proof. by rewrite !ffree_app. Qed.

Lemma ffree_bwd l1 s l2 :
  ffree 0 ((bwd l1 s).1 ++ Blk (bwd l1 s).2 false :: l2) = ffree 0 (l1 ++ Blk s false :: l2).
Proof.
  unfold bwd. destruct l1 as [|[s1 [|]] l1 _] using rev_ind; [done| |];
    rewrite last_snoc, ?removelast_last; [done|]. cbn [fst snd].
  rewrite <- app_assoc, !ffree_app. done.
Qed.

Lemma plug_holes_spec h l1 s l2 :
  heap_layout h (l1 ++ Blk s false :: l2) → lfree h = ram h + ffree 0 (l1 ++ Blk s false :: l2) →
  let f := fwd s l2 in let b := bwd l1 f.1 in
  ∃ m', plug_holes h (ram h + total l1) = Ok (set_hdrs m' h) ∧
    layout m' (ram h) (b.1 ++ Blk b.2 false :: f.2) ∧
    lfree h = ram h + ffree 0 (b.1 ++ Blk b.2 false :: f.2).
Proof.
  intros HL Hlf f b. pose proof (layout_pos _ _ _ _ _ HL) as (? & Hs & Hin & _). simpl in Hs, Hin.
  unfold plug_holes, hdr, ram_end, ptr_to_mem, lwip_assert.
  rewrite (proj2 (Z.leb_le _ _)), (proj2 (Z.ltb_lt _ _)) by lia. cbn [mbind res_bind].
  rewrite (layout_hdr _ _ _ _ _ HL). cbn [oget mbind res_bind m_used m_next b_used b_size uflag].
  rewrite Z.eqb_refl, (proj2 (Z.leb_le _ MEM_SIZE_ALIGNED)) by lia. cbn [mbind res_bind].
  pose proof (lo_ok _ _ _ HL) as [Hok1 _]%Forall_app.
  destruct (plug_forward_spec h l1 s l2 HL) as (m1 & -> & HL1).
  { rewrite Hlf, ffree_app. pose proof (ffree_range 0 l1 Hok1). cbn [ffree b_used].
    destruct (forallb _ _); lia. }
  cbn [mbind res_bind]. fold f in HL1.
  destruct (plug_backward_spec (set_hdrs m1 h) l1 f.1 f.2) as (m2 & HE & HL2).
  { exact HL1. }
  { cbn [lfree set_hdrs ram]. rewrite Hlf. f_equal. symmetry. apply (ffree_fwd 0 l1 s l2). }
  exists m2. split_and!; [exact HE|exact HL2|].
  rewrite Hlf. f_equal. unfold b. rewrite ffree_bwd. symmetry. apply (ffree_fwd 0 l1 s l2).
Qed.

Lemma mem_link_valid_spec h l1 b l2 :
  heap_layout h (l1 ++ b :: l2) → mem_link_valid h (ram h + total l1) = Ok true.
Proof.
  intros HL. pose proof (layout_pos _ _ _ _ _ HL) as (? & Hs & Hin & Hend & _).
  pose proof (lo_ok _ _ _ HL) as [Hok1 _]%Forall_app.
  unfold mem_link_valid, hdr. rewrite (layout_hdr _ _ _ _ _ HL), mem_to_ptr_at by lia.
  cbn [oget mbind res_bind m_next m_prev].
  assert (0 <= lastp 0 0 l1 <= total l1).
  { destruct (decide (l1 = [])) as [->|Hne]; [done|]. pose proof (lastp_range _ Hok1 Hne). lia. }
  rewrite (proj2 (Z.ltb_ge _ _)), (proj2 (Z.ltb_ge _ (lastp 0 0 l1))) by lia. cbn [orb].
  unfold ram_end, ptr_to_mem.
  assert ((if lastp 0 0 l1 =? total l1 then Ok false
           else p ← oget BadPointer (hdrs h !! (ram h + lastp 0 0 l1));
                Ok (negb (m_next p =? total l1))) = Ok false) as ->.
  { destruct l1 as [|b1 l1 _] using rev_ind; [done|]. rewrite lastp_snoc, total_app.
    rewrite <- app_assoc in HL. rewrite (layout_hdr _ _ _ _ _ HL).
    cbn [oget mbind res_bind m_next total]. rewrite Z.add_0_r, Z.eqb_refl.
    by destruct (_ =? _). }
  cbn [mbind res_bind]. destruct (decide (l2 = [])) as [->|Hne].
  - rewrite (proj2 (Z.eqb_eq _ _)); [done|]. rewrite (proj2 Hend); done.
  - rewrite (proj2 (Z.eqb_neq _ (ram h + MEM_SIZE_ALIGNED))); cycle 1.
    { intros E. apply Hne, Hend. lia. }
    rewrite (layout_next _ _ _ _ _ HL). destruct l2; [done|].
    cbn [oget mbind res_bind m_prev]. by rewrite Z.eqb_refl.
Qed.

(** ** Between calls *)

Record heap_inv (h : lheap) (l : list blk) : Prop := HeapInv {
  hi_layout : heap_layout h l;
  hi_ram : ram h mod MEM_ALIGNMENT = 0;
  hi_spaced : spaced true l;
  hi_lfree : lfree h = ram h + ffree 0 l;
  hi_used : sm_used (hstats h) = utotal l;
  hi_mutex : mem_mutex h = WinMutex None 0;
}.

(** What is not the business of the block list. *)
Definition same_else (h h' : lheap) : Prop :=
  ram h' = ram h ∧ hillegal h' = hillegal h ∧ sm_avail (hstats h') = sm_avail (hstats h).

Lemma fwd_spaced s l2 : spaced true l2 → spaced false (fwd s l2).2.
Proof. destruct l2 as [|[s2 []] l2]; simpl; tauto. Qed.

Lemma bwd_spaced l1 s : spaced true l1 → spaced true (bwd l1 s).1 ∧ lastu true (bwd l1 s).1 = true.
Proof.
  unfold bwd. destruct l1 as [|[s1 u1] l1 _] using rev_ind; [done|].
  rewrite last_snoc, removelast_last, spaced_app. simpl. intros (H1 & H2 & _).
  destruct u1; simpl.
  - rewrite spaced_app, lastu_snoc. simpl. rewrite orb_true_r. done.
  - by rewrite orb_false_r in H2.
Qed.

Lemma free_spaced l1 s l2 :
  spaced true (l1 ++ Blk s true :: l2) →
  spaced true ((bwd l1 (fwd s l2).1).1 ++ Blk (bwd l1 (fwd s l2).1).2 false :: (fwd s l2).2).
Proof.
  rewrite !spaced_app. simpl. intros (H1 & _ & H2).
  destruct (bwd_spaced l1 (fwd s l2).1 H1) as [H3 ->].
  pose proof (fwd_spaced s l2 H2). done.
Qed.

Lemma free_utotal l1 s l2 :
  utotal ((bwd l1 (fwd s l2).1).1 ++ Blk (bwd l1 (fwd s l2).1).2 false :: (fwd s l2).2) =
  utotal l1 + utotal l2.
Proof.
  rewrite utotal_app. simpl.
  assert (utotal (fwd s l2).2 = utotal l2) as -> by (by destruct l2 as [|[? []] l2]).
  unfold bwd. destruct l1 as [|[s1 [|]] l1 _] using rev_ind; [done| |];
    rewrite last_snoc, ?removelast_last; cbn [fst]; [done|]. rewrite utotal_app. simpl. lia.
Qed.

Lemma land_3 x : Z.land x (MEM_ALIGNMENT - 1) = x mod 4.
Proof. change (MEM_ALIGNMENT - 1) with (Z.ones 2). by rewrite Z.land_ones. Qed.

Lemma aligned_add a b : a mod 4 = 0 → b mod 4 = 0 → (a + b) mod 4 = 0.
Proof. intros Ha Hb. by rewrite Z.add_mod, Ha, Hb. Qed.

Lemma mem_lock_free self h :
  mem_mutex h = WinMutex None 0 →
  mem_lock self h = Ok (set_mem_mutex (WinMutex (Some self) 1) h).
Proof. intros E. unfold mem_lock. by rewrite E. Qed.

Lemma mem_unlock_held self h :
  mem_mutex h = WinMutex (Some self) 1 →
  mem_unlock self h = Ok (set_mem_mutex (WinMutex None 0) h).
Proof. intros E. unfold mem_unlock, ReleaseMutex. rewrite E. simpl. by rewrite Z.eqb_refl. Qed.

(** The lowest free block after one at [total l1] has become free. *)
Lemma lfree_lowered l1 s l2 :
  Forall blk_ok (l1 ++ Blk s true :: l2) →
  (if total l1 <? ffree 0 (l1 ++ Blk s true :: l2) then total l1
   else ffree 0 (l1 ++ Blk s true :: l2)) = ffree 0 (l1 ++ Blk s false :: l2).
Proof.
  intros [H1 [[Hs _] H2]%Forall_cons]%Forall_app. rewrite !ffree_app. simpl.
  unfold SIZEOF_STRUCT_MEM, MIN_SIZE_ALIGNED in Hs. simpl in Hs.
  destruct (forallb b_used l1) eqn:E.
  - rewrite Z.add_0_l. pose proof (ffree_range (total l1 + s) l2 H2).
    rewrite (proj2 (Z.ltb_lt _ _)) by lia. done.
  - pose proof (ffree_lt 0 l1 H1 E). rewrite (proj2 (Z.ltb_ge _ _)) by lia. done.
Qed.

Theorem mem_free_spec self h l1 s l2 :
  heap_inv h (l1 ++ Blk s true :: l2) →
  ∃ h', mem_free self (Some (ram h + total l1 + SIZEOF_STRUCT_MEM)) h = Ok h' ∧
    heap_inv h' ((bwd l1 (fwd s l2).1).1 ++ Blk (bwd l1 (fwd s l2).1).2 false :: (fwd s l2).2) ∧
    same_else h h'.
Proof.
  intros [HL Hr Hsp Hlf Hu Hm]. pose proof (layout_pos _ _ _ _ _ HL) as (? & Hs & Hin & _ & H4 & _).
  pose proof (lo_ok _ _ _ HL) as Hok. simpl in Hs, Hin.
  unfold mem_free. rewrite land_3. unfold MEM_ALIGNMENT in Hr.
  rewrite (aligned_add _ _ (aligned_add _ _ Hr H4) (eq_refl : SIZEOF_STRUCT_MEM mod 4 = 0)).
  cbn [Z.eqb negb]. unfold ram_end, ptr_to_mem.
  replace (ram h + total l1 + SIZEOF_STRUCT_MEM - SIZEOF_STRUCT_MEM) with (ram h + total l1) by lia.
  rewrite (proj2 (Z.ltb_ge _ (ram h))) by lia.
  rewrite (proj2 (Z.ltb_ge (ram h + MEM_SIZE_ALIGNED) _))
    by (unfold SIZEOF_STRUCT_MEM, MIN_SIZE_ALIGNED; lia).
  cbn [orb]. rewrite (mem_lock_free _ _ Hm). cbn [mbind res_bind].
  set (h0 := set_mem_mutex _ h). unfold hdr at 1. change (hdrs h0) with (hdrs h).
  pose proof (layout_hdr _ _ _ _ _ HL) as Hh. cbn [b_size b_used uflag] in Hh. rewrite Hh.
  cbn [oget mbind res_bind m_used m_next Z.eqb].
  pose proof (mem_link_valid_spec h0 l1 (Blk s true) l2 HL) as Hv. change (ram h0) with (ram h) in Hv.
  rewrite Hv. cbn [mbind res_bind negb].
  rewrite (hdr_mod_at _ _ _ h0 Hh). cbn [mbind res_bind].
  match goal with |- context [plug_holes ?x _] => set (h1 := x) end.
  assert (ram h1 = ram h ∧ hstats h1 = hstats (mem_dec_used s h) ∧ hillegal h1 = hillegal h ∧
    mem_mutex h1 = WinMutex (Some self) 1 ∧
    hdrs h1 = <[ram h + total l1 := SMem (total l1 + s) (lastp 0 0 l1) (uflag false)]> (hdrs h) ∧
    lfree h1 = ram h + ffree 0 (l1 ++ Blk s false :: l2)) as (E1 & E2 & E3 & E4 & E5 & E6).
  { rewrite <- (lfree_lowered _ _ _ Hok). subst h1 h0. cbn [lfree set_hdrs set_mem_mutex]. rewrite Hlf.
    replace (ram h + total l1 <? ram h + ffree 0 (l1 ++ Blk s true :: l2))
      with (total l1 <? ffree 0 (l1 ++ Blk s true :: l2))
      by (destruct (Z.ltb_spec (total l1) (ffree 0 (l1 ++ Blk s true :: l2)));
          symmetry; [apply Z.ltb_lt|apply Z.ltb_ge]; lia).
    assert (u16 (ram h + total l1 - ram h) = total l1) as Hp.
    { replace (ram h + total l1 - ram h) with (total l1) by lia. apply wrapu_small.
      unfold MEM_SIZE_ALIGNED in Hin. lia. }
    destruct (_ <? _); cbn; rewrite Hp; replace (total l1 + s - total l1) with s by lia; done. }
  destruct (plug_holes_spec h1 l1 s l2) as (m' & HE & HL' & Hlf').
  { unfold heap_layout. rewrite E1, E5. by apply (mark_layout _ _ _ _ true). }
  { by rewrite E1. }
  rewrite E1 in HE. rewrite HE. cbn [mbind res_bind].
  rewrite mem_unlock_held by done. eexists. split; [reflexivity|]. split.
  - split; unfold heap_layout; cbn [ram hdrs lfree hstats mem_mutex set_mem_mutex set_hdrs];
      rewrite ?E1, ?E2 in *; try done.
    + by apply free_spaced.
    + rewrite free_utotal. cbn. rewrite Hu, utotal_app. cbn.
      pose proof (utotal_range _ Hok) as Hur. rewrite utotal_app in Hur. cbn in Hur.
      pose proof (lo_total _ _ _ HL) as Ht. unfold MEM_SIZE_ALIGNED in *.
      apply Forall_app in Hok as [Hok1 [_ Hok2]%Forall_cons].
      pose proof (utotal_range _ Hok1). pose proof (utotal_range _ Hok2).
      rewrite wrapu_small; lia.
  - unfold same_else. cbn [ram hillegal hstats set_mem_mutex set_hdrs]. by rewrite E1, E2, E3.
Qed.

(** ** Allocating *)

Lemma LWIP_MEM_ALIGN_SIZE_spec n :
  0 <= n < 2 ^ 31 → LWIP_MEM_ALIGN_SIZE n mod 4 = 0 ∧ n <= LWIP_MEM_ALIGN_SIZE n < n + 4.
Proof.
  intros Hn. pose proof (LWIP_MEM_ALIGN_spec n) as [H1 H2].
  assert (LWIP_MEM_ALIGN_SIZE n = LWIP_MEM_ALIGN n) as ->; [|done].
  unfold LWIP_MEM_ALIGN_SIZE, LWIP_MEM_ALIGN, MEM_ALIGNMENT.
  change (u32 (Z.lnot (4 - 1))) with (Z.land (Z.ones 32) (Z.lnot (4 - 1))).
  rewrite Z.land_assoc, Z.land_ones, !wrapu_small by lia.
  by rewrite Z.mod_small by lia.
Qed.

(** The rounded size; only requests for more than the heap are refused. *)
Lemma mem_round_spec n :
  0 <= n < 2 ^ 16 →
  match mem_round n with
  | Some size => n <= size ∧ MIN_SIZE_ALIGNED <= size <= MEM_SIZE_ALIGNED ∧ size mod 4 = 0
  | None => MEM_SIZE_ALIGNED < n
  end.
Proof.
  intros Hn. destruct (LWIP_MEM_ALIGN_SIZE_spec n) as [H4 Hr]; [lia|].
  unfold mem_round. set (a := LWIP_MEM_ALIGN_SIZE n) in *. unfold MIN_SIZE_ALIGNED, MEM_SIZE_ALIGNED.
  destruct (decide (a < 2 ^ 16)) as [Ha|Ha].
  - rewrite wrapu_small by lia.
    destruct (Z.ltb_spec a 12); [|destruct (Z.ltb_spec 10240 a); simpl].
    + rewrite (proj2 (Z.ltb_ge _ n)) by lia. simpl. split_and!; [lia..|done].
    + apply Z.mod_divide in H4 as [k Hk]; [|done]. lia.
    + rewrite (proj2 (Z.ltb_ge _ n)) by lia. split_and!; [lia..|done].
  - assert (u16 a = a - 2 ^ 16) as ->.
    { unfold wrapu. symmetry. apply (Z.mod_unique_pos _ _ 1); lia. }
    rewrite (proj2 (Z.ltb_lt _ 12)) by lia. simpl. rewrite (proj2 (Z.ltb_lt _ n)) by lia. lia.
Qed.

(** A free block that has room. *)
Definition fits (size : Z) (b : blk) : Prop :=
  b_used b = false ∧ size + SIZEOF_STRUCT_MEM <= b_size b.

Lemma usize32_small `{Platform} z : 0 <= z < 2 ^ 32 → wrapu sizet_bits z = z.
Proof.
  intros Hz. apply wrapu_small. split; [lia|]. unfold sizet_bits.
  destruct ptr_bytes_cases as [-> | ->]; simpl; lia.
Qed.

Section malloc.
Context `{Platform}.

(** The first that fits, or none does. *)
Lemma malloc_search_spec size fuel : ∀ h l1 l2,
  heap_layout h (l1 ++ l2) → 0 <= size → (length l2 < fuel)%nat →
  match malloc_search fuel h size (total l1) with
  | Ok (Some p) => ∃ la b lb, l2 = la ++ b :: lb ∧ p = total (l1 ++ la) ∧ fits size b ∧
      Forall (λ b, ¬ fits size b) la
  | Ok None => Forall (λ b, ¬ fits size b) l2
  | Fault _ => False
  end.
Proof.
  induction fuel as [|fuel IH]; intros h l1 l2 HL Hsz Hf; [lia|]. cbn [malloc_search].
  destruct (Z.ltb_spec (total l1) (MEM_SIZE_ALIGNED - size)) as [Hlt|Hge].
  - destruct l2 as [|b l2].
    { pose proof (lo_total _ _ _ HL) as Ht. rewrite total_app in Ht. simpl in Ht. lia. }
    pose proof (layout_pos _ _ _ _ _ HL) as (? & Hs & Hin & _). unfold hdr, ptr_to_mem.
    rewrite (layout_hdr _ _ _ _ _ HL). cbn [oget mbind res_bind m_used m_next].
    rewrite usize32_small by (unfold SIZEOF_STRUCT_MEM, MEM_SIZE_ALIGNED in *; lia).
    replace (total l1 + b_size b - (total l1 + SIZEOF_STRUCT_MEM)) with (b_size b - SIZEOF_STRUCT_MEM) by lia.
    destruct ((uflag (b_used b) =? 0) && (size <=? b_size b - SIZEOF_STRUCT_MEM)) eqn:E.
    + apply andb_true_iff in E as [E1 E2%Z.leb_le]. exists [], b, l2.
      rewrite app_nil_r. split_and!; try done. split; [by destruct (b_used b)|lia].
    + assert (¬ fits size b) as Hn.
      { intros [F1 F2]. rewrite F1, (proj2 (Z.leb_le _ _)) in E by lia. done. }
      specialize (IH h (l1 ++ [b]) l2). rewrite <- app_assoc in IH. specialize (IH HL Hsz).
      rewrite total_app in IH. cbn [total] in IH. rewrite Z.add_0_r in IH. cbn [length] in Hf.
      specialize (IH ltac:(lia)).
      destruct (malloc_search fuel h size (total l1 + b_size b)) as [[p|]|]; [| |done].
      * destruct IH as (la & b' & lb & -> & -> & Hb' & Hla). exists (b :: la), b', lb.
        rewrite <- app_assoc. split_and!; try done. by constructor.
      * by constructor.
  - apply Forall_forall. intros b Hb [_ Hfit].
    apply list_elem_of_split in Hb as (la & lb & ->). rewrite app_assoc in HL.
    pose proof (layout_pos _ _ _ _ _ HL) as (? & Hs & Hin & _). rewrite total_app in Hin.
    pose proof (lo_ok _ _ _ HL) as [[_ Hok]%Forall_app _]%Forall_app. pose proof (total_nonneg _ Hok).
    unfold SIZEOF_STRUCT_MEM in Hfit. lia.
Qed.

(** What is made of a free block of [s] bytes. *)
Definition taken (size s : Z) : list blk :=
  if size + SIZEOF_STRUCT_MEM + MIN_SIZE_ALIGNED <=? s - SIZEOF_STRUCT_MEM
  then [Blk (size + SIZEOF_STRUCT_MEM) true; Blk (s - SIZEOF_STRUCT_MEM - size) false]
  else [Blk s true].

Lemma malloc_take_spec h size l1 s l2 :
  heap_layout h (l1 ++ Blk s false :: l2) → MIN_SIZE_ALIGNED <= size → size mod 4 = 0 →
  size + SIZEOF_STRUCT_MEM <= s →
  ∃ m', malloc_take h size (total l1) = Ok (mem_inc_used (utotal (taken size s)) (set_hdrs m' h)) ∧
    layout m' (ram h) (l1 ++ taken size s ++ l2).
Proof.
  intros HL Hmin H4 Hfit. pose proof (layout_pos _ _ _ _ _ HL) as (? & Hs & Hin & _ & _ & Hs4).
  simpl in Hs, Hin, Hs4.
  unfold malloc_take, hdr, ptr_to_mem. pose proof (layout_hdr _ _ _ _ _ HL) as Hh.
  cbn [b_size b_used uflag] in Hh. rewrite Hh. cbn [oget mbind res_bind m_next].
  rewrite usize32_small by (unfold SIZEOF_STRUCT_MEM, MEM_SIZE_ALIGNED, MIN_SIZE_ALIGNED in *; lia).
  replace (total l1 + s - (total l1 + SIZEOF_STRUCT_MEM)) with (s - SIZEOF_STRUCT_MEM) by lia.
  rewrite !(hdr_mod_at _ _ _ _ Hh).
  pose proof (mark_layout _ _ _ _ false true _ HL) as HL1.
  set (m1 := <[_ := _]> (hdrs h)) in HL1. unfold taken.
  destruct (Z.leb_spec (size + SIZEOF_STRUCT_MEM + MIN_SIZE_ALIGNED) (s - SIZEOF_STRUCT_MEM)) as [Hcut|Hno].
  - unfold SIZEOF_STRUCT_MEM, MEM_SIZE_ALIGNED, MIN_SIZE_ALIGNED in *.
    rewrite wrapu_small by lia. unfold lwip_assert.
    rewrite (proj2 (Z.eqb_neq _ 10240)) by lia. cbn [mbind res_bind negb].
    destruct (mem_cut_layout (set_hdrs m1 h) l1 [Blk s true] l2 true (total l1 + s) (total l1 + 8 + size)
      (total l1 + s)) as (m' & HE & HL').
    + exact HL1.
    + simpl. lia.
    + unfold m1. by look.
    + unfold blk_ok, SIZEOF_STRUCT_MEM, MIN_SIZE_ALIGNED, MEM_ALIGNMENT.
      repeat constructor; simpl; try lia.
      * replace (total l1 + 8 + size - total l1) with (8 + size) by lia. by apply aligned_add.
      * replace (total l1 + s - (total l1 + 8 + size)) with (s - (8 + size)) by lia.
        rewrite Zminus_mod, Hs4, (aligned_add 8 size); done.
    + cbn [ram set_hdrs] in HE. exists m'. unfold m1 in HE. cbn [uflag] in HE. unfold set_m_used at 1. cbn [m_next m_prev].
      rewrite HE. cbn [mbind res_bind utotal b_used b_size]. split; [by rewrite !Z.add_0_r|].
      replace (size + 8) with (total l1 + 8 + size - total l1) by lia.
      replace (s - 8 - size) with (total l1 + s - (total l1 + 8 + size)) by lia. exact HL'.
  - exists m1. cbn [mbind res_bind utotal b_used b_size]. split; [|exact HL1].
    rewrite Z.add_0_r. unfold m1. cbn [uflag]. unfold set_m_used. cbn [m_next m_prev].
    change (mem_to_ptr (set_hdrs _ h) (ram h + total l1)) with (mem_to_ptr h (ram h + total l1)).
    rewrite mem_to_ptr_at by lia. by replace (total l1 + s - total l1) with s by lia.
Qed.

Lemma lfree_loop_spec fuel : ∀ h la lb,
  heap_layout h (la ++ lb) → (length lb < fuel)%nat →
  ∃ s, lfree_loop fuel h (ram h + total la) = Ok (ram h + ffree (total la) lb) ∧
    hdrs h !! (ram h + ffree (total la) lb) = Some s ∧
    (ram h + ffree (total la) lb =? ram_end h) || (m_used s =? 0) = true.
Proof.
  induction fuel as [|fuel IH]; intros h la lb HL Hf; [lia|]. cbn [lfree_loop].
  unfold hdr, ram_end, ptr_to_mem. destruct lb as [|b lb]; cbn [ffree].
  { pose proof (lo_total _ _ _ HL) as Ht. rewrite app_nil_r in Ht. rewrite Ht.
    rewrite (lo_end _ _ _ HL), Z.eqb_refl. cbn. exists end_hdr. split_and!; done. }
  rewrite (layout_hdr _ _ _ _ _ HL). cbn [oget mbind res_bind m_used m_next].
  pose proof (layout_pos _ _ _ _ _ HL) as (? & Hs & Hin & _).
  destruct (b_used b) eqn:Hb; cbn [uflag].
  - rewrite (proj2 (Z.eqb_neq (ram h + total la) _)) by lia. cbn [Z.eqb negb andb].
    destruct (IH h (la ++ [b]) lb) as (s & HE & Hh & Hor).
    { by rewrite <- app_assoc. }
    { cbn [length] in Hf. lia. }
    rewrite total_app in HE, Hh, Hor. cbn [total] in HE, Hh, Hor. rewrite Z.add_0_r in HE, Hh, Hor.
    exists s. done.
  - cbn. eexists. split_and!; [done| |].
    + rewrite (layout_hdr _ _ _ _ _ HL). done.
    + rewrite Hb. cbn. by rewrite orb_true_r.
Qed.

Lemma layout_length h l : heap_layout h l → (length l < BLOCK_FUEL)%nat.
Proof.
  intros HL. pose proof (length_total _ (lo_ok _ _ _ HL)) as Hl.
  rewrite (lo_total _ _ _ HL) in Hl. unfold MEM_SIZE_ALIGNED in Hl. unfold BLOCK_FUEL. lia.
Qed.

Lemma adjust_lfree_spec h l1 size s l2 :
  heap_layout h (l1 ++ taken size s ++ l2) →
  lfree h = ram h + ffree 0 (l1 ++ Blk s false :: l2) →
  adjust_lfree h (ram h + total l1) =
    Ok (set_lfree (ram h + ffree 0 (l1 ++ taken size s ++ l2)) h).
Proof.
  intros HL Hlf. unfold adjust_lfree. rewrite Hlf, ffree_app. cbn [ffree b_used].
  pose proof (lo_ok _ _ _ HL) as [Hok1 _]%Forall_app.
  rewrite (ffree_app 0 l1 (taken size s ++ l2)), Z.add_0_l.
  destruct (forallb b_used l1) eqn:E.
  - rewrite Z.eqb_refl.
    destruct (lfree_loop_spec BLOCK_FUEL h l1 _ HL) as (x & HE & Hh & Hor).
    { pose proof (layout_length _ _ HL) as Hl. rewrite length_app in Hl. lia. }
    rewrite HE. cbn [mbind res_bind]. unfold hdr. cbn [hdrs set_lfree]. rewrite Hh.
    cbn [oget mbind res_bind]. unfold lwip_assert.
    change (ram_end (set_lfree _ h)) with (ram_end h). by rewrite Hor.
  - pose proof (ffree_lt 0 l1 Hok1 E).
    rewrite (proj2 (Z.eqb_neq _ _)) by lia. rewrite ffree_app, E in Hlf. rewrite <- Hlf. by destruct h.
Qed.

Lemma ffree_split off l :
  ∃ lu lr, l = lu ++ lr ∧ Forall (λ b, b_used b = true) lu ∧ ffree off l = off + total lu.
Proof.
  revert off. induction l as [|b l IH]; intros off.
  - exists [], []. split_and!; [done..|]. simpl. lia.
  - cbn [ffree]. destruct (b_used b) eqn:E.
    + destruct (IH (off + b_size b)) as (lu & lr & -> & Hlu & ->). exists (b :: lu), lr.
      split_and!; [done|by constructor|]. simpl. lia.
    + exists [], (b :: l). split_and!; [done..|]. simpl. lia.
Qed.

Lemma taken_spaced size s l1 l2 :
  spaced true (l1 ++ Blk s false :: l2) → spaced true (l1 ++ taken size s ++ l2).
Proof.
  rewrite !spaced_app. simpl. intros (H1 & H2 & H3). split; [done|].
  unfold taken. destruct (_ <=? _); simpl; rewrite !orb_true_r; try done.
  split; [done|]. by apply spaced_used in H3.
Qed.

Lemma taken_total size s : total (taken size s) = s.
Proof. unfold taken, SIZEOF_STRUCT_MEM. destruct (_ <=? _); simpl; lia. Qed.

(** The outcome of a request on the list of blocks. *)
Definition malloc_outcome (h h' : lheap) (l : list blk) (n : Z) (r : option Z) : Prop :=
  match r with
  | None => heap_inv h' l ∧
      (n = 0 ∨ ∀ size, mem_round n = Some size → Forall (λ b, ¬ fits size b) l)
  | Some p => ∃ size l1 s l2,
      mem_round n = Some size ∧ l = l1 ++ Blk s false :: l2 ∧ fits size (Blk s false) ∧
      Forall (λ b, ¬ fits size b) l1 ∧ p = ram h + total l1 + SIZEOF_STRUCT_MEM ∧
      heap_inv h' (l1 ++ taken size s ++ l2)
  end.

(** Found: the block is cut, the lowest free block found again, the lock released. *)
Lemma malloc_found self h size l1 s l2 :
  heap_inv h (l1 ++ Blk s false :: l2) → MIN_SIZE_ALIGNED <= size → size mod 4 = 0 →
  size + SIZEOF_STRUCT_MEM <= s →
  ∃ h1 h2 h3, malloc_take (set_mem_mutex (WinMutex (Some self) 1) h) size (total l1) = Ok h1 ∧
    adjust_lfree h1 (ram h + total l1) = Ok h2 ∧ mem_unlock self h2 = Ok h3 ∧
    same_else h h3 ∧ heap_inv h3 (l1 ++ taken size s ++ l2).
Proof.
  intros [HL Hr Hsp Hlf Hu Hm] Hmin H4 Hfit.
  destruct (malloc_take_spec (set_mem_mutex (WinMutex (Some self) 1) h) size l1 s l2)
    as (m' & -> & HL'); [done..|].
  eexists _, _, _. split; [reflexivity|]. split.
  { apply (adjust_lfree_spec (mem_inc_used _ (set_hdrs m' (set_mem_mutex _ h))) l1 size s l2); [exact HL'|].
    exact Hlf. }
  split; [by apply mem_unlock_held|]. split; [done|]. split; try done.
  - exact (taken_spaced _ _ _ _ Hsp).
  - cbn. rewrite Hu, !utotal_app. cbn [utotal b_used].
    pose proof (utotal_range _ (lo_ok _ _ _ HL')) as Hur.
    pose proof (utotal_range _ (lo_ok _ _ _ HL)) as Hur0.
    rewrite (lo_total _ _ _ HL') in Hur. rewrite !utotal_app in Hur. unfold MEM_SIZE_ALIGNED in Hur.
    pose proof (lo_ok _ _ _ HL) as [Hok1 [_ Hok2]%Forall_cons]%Forall_app.
    pose proof (utotal_range _ Hok1). pose proof (utotal_range _ Hok2).
    pose proof (lo_ok _ _ _ HL') as [_ [Hokt _]%Forall_app]%Forall_app. pose proof (utotal_range _ Hokt).
    rewrite wrapu_small; lia.
Qed.

Theorem mem_malloc_spec self h l n :
  heap_inv h l → 0 <= n < 2 ^ 16 →
  ∃ r h', mem_malloc self n h = Ok (r, h') ∧ same_else h h' ∧ malloc_outcome h h' l n r.
Proof.
  intros HI Hn. pose proof HI as [HL Hr Hsp Hlf Hu Hm]. unfold mem_malloc.
  destruct (Z.eqb_spec n 0) as [->|Hn0].
  { exists None, h. split_and!; try done. split; [done|by left]. }
  pose proof (mem_round_spec n Hn) as Hround.
  destruct (mem_round n) as [size|] eqn:Er; cycle 1.
  { exists None, h. split_and!; try done. split; [done|]. right. intros ?. by rewrite Er. }
  destruct Hround as (Hge & Hsz & H4). rewrite (mem_lock_free _ _ Hm). cbn [mbind res_bind].
  set (h0 := set_mem_mutex _ h).
  destruct (ffree_split 0 l) as (lu & lr & -> & Hlu & Hff).
  assert (mem_to_ptr h0 (lfree h0) = total lu) as ->.
  { pose proof (lo_ok _ _ _ HL) as [Hok _]%Forall_app. pose proof (ffree_range 0 _ (lo_ok _ _ _ HL)) as Hfr.
    rewrite (lo_total _ _ _ HL) in Hfr. change (lfree h0) with (lfree h).
    rewrite Hlf, (mem_to_ptr_at h0) by lia. lia. }
  pose proof (layout_length _ _ HL) as Hlen. rewrite length_app in Hlen.
  pose proof (malloc_search_spec size BLOCK_FUEL h0 lu lr HL) as Hs.
  unfold MIN_SIZE_ALIGNED in Hsz. specialize (Hs ltac:(lia) ltac:(lia)).
  assert (Forall (λ b, ¬ fits size b) lu) as Hnf.
  { eapply Forall_impl; [exact Hlu|]. intros b Hb [Hb' _]. congruence. }
  destruct (malloc_search BLOCK_FUEL h0 size (total lu)) as [[p|]|]; [| |done]; cbn [mbind res_bind].
  - destruct Hs as (la & [s u] & lb & -> & -> & Hfit & Hla). pose proof Hfit as [Hu' Hroom].
    cbn in Hu', Hroom. subst u. rewrite app_assoc in HI, HL.
    destruct (malloc_found self h size (lu ++ la) s lb HI ltac:(unfold MIN_SIZE_ALIGNED; lia) H4 Hroom)
      as (h1 & h2 & h3 & E1 & E2 & E3 & Hsame & HI').
    fold h0 in E1. rewrite E1. cbn [mbind res_bind]. change (ptr_to_mem h0 (total (lu ++ la))) with (ram h + total (lu ++ la)).
    rewrite E2. cbn [mbind res_bind]. rewrite E3. cbn [mbind res_bind].
    pose proof (layout_pos _ _ _ _ _ HL) as (? & Hs & Hin & _ & Ht4 & _). simpl in Hs, Hin.
    unfold ram_end, ptr_to_mem. rewrite (proj1 Hsame), land_3.
    unfold MEM_ALIGNMENT in *. unfold lwip_assert.
    rewrite (proj2 (Z.leb_le _ _)) by lia. cbn [mbind res_bind].
    rewrite (aligned_add (ram h + total (lu ++ la)) SIZEOF_STRUCT_MEM (aligned_add _ _ Hr Ht4) eq_refl).
    rewrite (aligned_add _ _ Hr Ht4). cbn [Z.eqb mbind res_bind].
    eexists _, _. split; [reflexivity|]. split; [done|].
    exists size, (lu ++ la), s, lb. rewrite Er, <- app_assoc. split_and!; try done.
    by apply Forall_app.
  - rewrite mem_unlock_held by done. eexists _, _. split; [reflexivity|]. split; [done|]. split; [by split|].
    right. intros size' Es. replace size' with size by congruence. by apply Forall_app.
Qed.
End malloc.

(** ** Shrinking *)

(** What a block of [s] bytes and those behind it become when [size] bytes are to
    stay; [None]: the code aborts. *)
Definition trimmed (size s : Z) (l2 : list blk) : option (list blk) :=
  if s - SIZEOF_STRUCT_MEM <? size then None
  else if size =? s - SIZEOF_STRUCT_MEM then Some (Blk s true :: l2)
  else
    match l2 with
    | Blk s2 false :: l2 =>
        Some (Blk (size + SIZEOF_STRUCT_MEM) true :: Blk (s + s2 - (size + SIZEOF_STRUCT_MEM)) false :: l2)
    | _ =>
        if size + SIZEOF_STRUCT_MEM + MIN_SIZE_ALIGNED <=? s - SIZEOF_STRUCT_MEM then
          if bool_decide (l2 = []) then None
          else Some (Blk (size + SIZEOF_STRUCT_MEM) true :: Blk (s - (size + SIZEOF_STRUCT_MEM)) false :: l2)
        else Some (Blk s true :: l2)
    end.

(** The two pieces are proper blocks. *)
Lemma cut_ok size t :
  MIN_SIZE_ALIGNED <= size → size mod 4 = 0 → t mod 4 = 0 →
  size + SIZEOF_STRUCT_MEM + MIN_SIZE_ALIGNED + SIZEOF_STRUCT_MEM <= t →
  Forall blk_ok [Blk (size + SIZEOF_STRUCT_MEM) true; Blk (t - (size + SIZEOF_STRUCT_MEM)) false].
Proof.
  intros Hs H4 Ht Hr. assert ((size + SIZEOF_STRUCT_MEM) mod 4 = 0) as Ha by (by apply aligned_add).
  repeat constructor; unfold MEM_ALIGNMENT; simpl; [lia|done|lia|]. by rewrite Zminus_mod, Ht, Ha.
Qed.

(** Both ways of cutting: [mid] is the free block behind, if it is moved. *)
Lemma trim_cut self h l1 s mid l2 a c :
  heap_inv h (l1 ++ (Blk s true :: mid) ++ l2) → Forall (λ b, b_used b = false) mid →
  c = s + total mid - a → a <= s → Forall blk_ok [Blk a true; Blk c false] → spaced false l2 →
  ∃ h1 h2, mem_cut (set_lfree (ram h + ffree 0 (l1 ++ Blk a true :: Blk c false :: l2))
        (set_mem_mutex (WinMutex (Some self) 1) h))
      (ram h + total l1) (total l1) (total l1 + a) (total l1 + total (Blk s true :: mid)) = Ok h1 ∧
    mem_unlock self (mem_dec_used (s - a) h1) = Ok h2 ∧
    heap_inv h2 (l1 ++ Blk a true :: Blk c false :: l2) ∧ same_else h h2.
Proof.
  intros [HL Hr Hsp Hlf Hu Hm] Hmid -> Has Hok2 Hsp2.
  pose proof (layout_hdr _ _ _ _ _ HL) as Hh. cbn [b_size b_used] in Hh.
  set (h0 := set_lfree _ _).
  destruct (mem_cut_layout h0 l1 (Blk s true :: mid) l2 true (total l1 + s) (total l1 + a)
    (total l1 + total (Blk s true :: mid)) HL eq_refl Hh) as (m' & HE & HL').
  { simpl. replace (total l1 + a - total l1) with a by lia.
    by replace (total l1 + (s + total mid) - (total l1 + a)) with (s + total mid - a) by lia. }
  simpl in HL'. replace (total l1 + a - total l1) with a in HL' by lia.
  replace (total l1 + (s + total mid) - (total l1 + a)) with (s + total mid - a) in HL' by lia.
  eexists _, _. split; [exact HE|]. split; [by apply mem_unlock_held|]. split; [|done].
  split; try done.
  - rewrite spaced_app in *. cbn [app spaced b_used]. simpl in Hsp. rewrite orb_true_r. tauto.
  - cbn. rewrite Hu, !utotal_app. cbn [app utotal b_used b_size].
    assert (utotal mid = 0) as Hum.
    { clear -Hmid. induction Hmid as [|b mid Hb _ IH]; simpl; [done|]. rewrite Hb. lia. }
    pose proof (lo_ok _ _ _ HL) as [Hok1 [_ [_ Hok3]%Forall_app]%Forall_cons]%Forall_app.
    pose proof (utotal_range _ Hok1). pose proof (utotal_range _ Hok3).
    pose proof (lo_total _ _ _ HL) as Ht. rewrite !total_app in Ht. simpl in Ht.
    apply Forall_cons in Hok2 as [[Ha _] [[Hc _] _]%Forall_cons]. simpl in Ha, Hc.
    unfold MEM_SIZE_ALIGNED, SIZEOF_STRUCT_MEM, MIN_SIZE_ALIGNED in *.
    rewrite Hum, wrapu_small; lia.
Qed.

Lemma lfree_cut l1 a c l2 :
  ffree 0 (l1 ++ Blk a true :: Blk c false :: l2) =
  if forallb b_used l1 then total l1 + a else ffree 0 l1.
Proof. rewrite ffree_app. simpl. by destruct (forallb _ _). Qed.

(** The lowest free block when a free one is moved, and when a new one is cut off. *)
Lemma lfree_moved r l1 s s2 a c l2 :
  Forall blk_ok l1 → 0 <= s →
  (if r + ffree 0 (l1 ++ Blk s true :: Blk s2 false :: l2) =? r + (total l1 + s)
   then r + (total l1 + a) else r + ffree 0 (l1 ++ Blk s true :: Blk s2 false :: l2)) =
  r + ffree 0 (l1 ++ Blk a true :: Blk c false :: l2).
Proof.
  intros Hok Hs. rewrite !lfree_cut. destruct (forallb b_used l1) eqn:E.
  - by rewrite Z.eqb_refl.
  - pose proof (ffree_lt 0 _ Hok E). rewrite (proj2 (Z.eqb_neq _ _)); lia.
Qed.

Lemma lfree_cut_off r l1 s a c l2 :
  Forall blk_ok (l1 ++ Blk s true :: l2) → 0 <= a < s →
  (if r + (total l1 + a) <? r + ffree 0 (l1 ++ Blk s true :: l2)
   then r + (total l1 + a) else r + ffree 0 (l1 ++ Blk s true :: l2)) =
  r + ffree 0 (l1 ++ Blk a true :: Blk c false :: l2).
Proof.
  intros [Hok1 [_ Hok2]%Forall_cons]%Forall_app Ha. rewrite lfree_cut, ffree_app. cbn [ffree b_used b_size].
  destruct (forallb b_used l1) eqn:E.
  - pose proof (ffree_range (0 + total l1 + s) _ Hok2). rewrite (proj2 (Z.ltb_lt _ _)); lia.
  - pose proof (ffree_lt 0 _ Hok1 E). rewrite (proj2 (Z.ltb_ge _ _)); lia.
Qed.

Lemma set_lfree_cases (b : bool) a h lf :
  (if b then a else lfree h) = lf → (if b then set_lfree a h else h) = set_lfree lf h.
Proof. intros <-. by destruct b, h. Qed.

Lemma heap_inv_relock h l m :
  heap_inv h l → heap_inv (set_mem_mutex (WinMutex None 0) (set_mem_mutex m h)) l.
Proof. by intros []. Qed.

Theorem mem_trim_spec self h l1 s l2 n size :
  heap_inv h (l1 ++ Blk s true :: l2) → 0 <= n < 2 ^ 16 → mem_round n = Some size →
  match trimmed size s l2 with
  | Some l' => ∃ h', mem_trim self (ram h + total l1 + SIZEOF_STRUCT_MEM) n h =
        Ok (Some (ram h + total l1 + SIZEOF_STRUCT_MEM), h') ∧
      heap_inv h' (l1 ++ l') ∧ same_else h h'
  | None => mem_trim self (ram h + total l1 + SIZEOF_STRUCT_MEM) n h = Fault Aborted
  end.
Proof.
  intros HI Hn Er. pose proof HI as [HL Hr Hsp Hlf Hu Hm].
  pose proof (layout_pos _ _ _ _ _ HL) as (? & Hs & Hin & Hend & H4 & Hs4). simpl in Hs, Hin, Hend, Hs4.
  pose proof (lo_ok _ _ _ HL) as [Hok1 [_ Hok2]%Forall_cons]%Forall_app.
  pose proof (mem_round_spec n Hn) as Hrs. rewrite Er in Hrs. destruct Hrs as (Hge & Hsz & Hz4).
  unfold mem_trim. rewrite Er. unfold ram_end, ptr_to_mem, lwip_assert.
  rewrite (proj2 (Z.leb_le _ _)), (proj2 (Z.ltb_lt _ _)) by (unfold SIZEOF_STRUCT_MEM; lia).
  cbn [andb mbind res_bind].
  replace (ram h + total l1 + SIZEOF_STRUCT_MEM - SIZEOF_STRUCT_MEM) with (ram h + total l1) by lia.
  rewrite mem_to_ptr_at by lia. unfold hdr. rewrite (layout_hdr _ _ _ _ _ HL).
  cbn [oget mbind res_bind m_next b_size].
  replace (total l1 + s - total l1) with s by lia.
  rewrite (wrapu_small 16 s) by (unfold MEM_SIZE_ALIGNED in *; lia).
  rewrite (wrapu_small 16 (s - SIZEOF_STRUCT_MEM)) by (unfold MEM_SIZE_ALIGNED, SIZEOF_STRUCT_MEM in *; lia).
  unfold trimmed. rewrite (Z.leb_antisym (s - SIZEOF_STRUCT_MEM) size).
  destruct (Z.ltb_spec (s - SIZEOF_STRUCT_MEM) size) as [Hbig|Hle]; cbn [negb mbind res_bind]; [done|].
  destruct (Z.eqb_spec size (s - SIZEOF_STRUCT_MEM)) as [Heq|Hne].
  { by exists h. }
  rewrite (mem_lock_free _ _ Hm). cbn [mbind res_bind].
  rewrite (wrapu_small 16 (total l1 + SIZEOF_STRUCT_MEM + size))
    by (unfold MEM_SIZE_ALIGNED, SIZEOF_STRUCT_MEM in *; lia).
  replace (total l1 + SIZEOF_STRUCT_MEM + size) with (total l1 + (size + SIZEOF_STRUCT_MEM)) by lia.
  cbn [ram hdrs set_mem_mutex].
  pose proof (layout_next _ _ _ _ _ HL) as Hnx. cbn [b_size] in Hnx. rewrite Hnx. cbn [oget mbind res_bind].
  assert (size < s - SIZEOF_STRUCT_MEM) as Hlt by lia.
  replace (s - SIZEOF_STRUCT_MEM - size) with (s - (size + SIZEOF_STRUCT_MEM)) by lia.
  set (a := size + SIZEOF_STRUCT_MEM) in *.
  destruct l2 as [|[s2 [|]] l2]; cbn [m_used uflag b_used Z.eqb end_hdr].
  - destruct (_ <=? _) eqn:E.
    + rewrite bool_decide_eq_true_2 by done.
      rewrite (proj2 Hend eq_refl), Z.eqb_refl. done.
    + cbn [mbind res_bind]. rewrite mem_unlock_held by done. eexists. split; [reflexivity|].
      split; [by apply heap_inv_relock|done].
  - destruct (Z.leb_spec (a + MIN_SIZE_ALIGNED) (s - SIZEOF_STRUCT_MEM)) as [Hc|Hc].
    + rewrite bool_decide_eq_false_2 by done.
      rewrite (proj2 (Z.eqb_neq (total l1 + s) _)) by (intros HE; by specialize (proj1 Hend HE)).
      cbn [negb mbind res_bind].
      rewrite (set_lfree_cases _ _ _ (ram h + ffree 0 (l1 ++ Blk a true :: Blk (s - a) false :: Blk s2 true :: l2))).
      * destruct (trim_cut self h l1 s [] (Blk s2 true :: l2) a (s - a) HI (Forall_nil_2 _))
          as (h1 & h2 & E1 & E2 & HI' & Hsame); [simpl; lia|lia| |by apply spaced_app in Hsp as [_ [_ [_ Hsp]]]|].
        { apply cut_ok; [apply Hsz|done|done|lia]. }
        simpl in E1. rewrite Z.add_0_r in E1. rewrite E1. cbn [mbind res_bind]. rewrite E2.
        cbn [mbind res_bind]. eauto.
      * cbn [lfree set_mem_mutex]. rewrite Hlf. apply lfree_cut_off; [apply HL|].
        unfold SIZEOF_STRUCT_MEM, MIN_SIZE_ALIGNED in *. lia.
    + cbn [mbind res_bind]. rewrite mem_unlock_held by done. eexists. split; [reflexivity|].
      split; [by apply heap_inv_relock|done].
  - rewrite (proj2 (Z.eqb_neq (total l1 + s) _)) by (intros HE; by specialize (proj1 Hend HE)).
    cbn [negb mbind res_bind m_next b_size].
    apply Forall_cons in Hok2 as [[Hs2 Hs24] Hok2]. cbn [b_size] in Hs2, Hs24.
    rewrite (set_lfree_cases _ _ _ (ram h + ffree 0 (l1 ++ Blk a true :: Blk (s + s2 - a) false :: l2))).
    + destruct (trim_cut self h l1 s [Blk s2 false] l2 a (s + s2 - a) HI)
        as (h1 & h2 & E1 & E2 & HI' & Hsame); [by repeat constructor|simpl; lia|lia| | |].
      { apply cut_ok; [apply Hsz|done|by apply aligned_add|lia]. }
      { rewrite spaced_app in Hsp. simpl in Hsp. tauto. }
      simpl in E1. rewrite Z.add_0_r, Z.add_assoc in E1. rewrite E1. cbn [mbind res_bind]. rewrite E2.
      cbn [mbind res_bind]. eauto.
    + cbn [lfree set_mem_mutex]. rewrite Hlf. apply lfree_moved; [done|lia].
Qed.
