(* ===== verification/LwipMemSpec.v ===== *)
(** * The heap of lwip: what its clients see

    The specification is a first-fit allocator on the list of blocks ([astep]); the
    code implements it for every sequence of calls ([heap_refines]), also when the
    clients write to their memory in between, over headers of blocks that are no
    longer there.  A request is refused only if there is no room for it
    ([malloc_refuses_only_full]). *)

From S2P Require Import Prelude Memp SysArch Pbuf LwipMem LwipMemProofs.

(** ** Calls of the clients *)

(** Blocks are named by their offset in the heap; [MWrite a s]: a client writes bytes
    to its memory that read as the header [s]. *)
Inductive mop : Type :=
  | MMalloc (self n : Z)
  | MFree (self : Z) (off : option Z)
  | MTrim (self off n : Z)
  | MWrite (a : Z) (s : smem).

Definition block_ptr (h : lheap) (off : Z) : Z := ram h + off + SIZEOF_STRUCT_MEM.

Definition cstep `{Platform} (op : mop) (h : lheap) : res (option Z * lheap) :=
  match op with
  | MMalloc self n => mem_malloc self n h
  | MFree self off => h ← mem_free self (block_ptr h <$> off) h; Ok (None, h)
  | MTrim self off n => mem_trim self (block_ptr h off) n h
  | MWrite a s => Ok (None, hdr_put (ram h + a) s h)
  end.

Fixpoint crun `{Platform} (ops : list mop) (h : lheap) : res (list (option Z) * lheap) :=
  match ops with
  | [] => Ok ([], h)
  | op :: ops => '(r, h) ← cstep op h; '(rs, h) ← crun ops h; Ok (r :: rs, h)
  end.

(** ** The specification *)

Definition fitsb (size : Z) (b : blk) : bool :=
  negb (b_used b) && (size + SIZEOF_STRUCT_MEM <=? b_size b).

Fixpoint find_fit (size : Z) (l : list blk) : option (list blk * Z * list blk) :=
  match l with
  | [] => None
  | b :: l =>
      if fitsb size b then Some ([], b_size b, l)
      else '(l1, s, l2) ← find_fit size l; Some (b :: l1, s, l2)
  end.

(** The block in use that begins at [off]. *)
Fixpoint find_used (off : Z) (l : list blk) : option (list blk * Z * list blk) :=
  match l with
  | [] => None
  | b :: l =>
      if off =? 0 then if b_used b then Some ([], b_size b, l) else None
      else '(l1, s, l2) ← find_used (off - b_size b) l; Some (b :: l1, s, l2)
  end.

(** The bytes from [a] on that a header has are memory of a client. *)
Fixpoint in_data (a : Z) (l : list blk) : bool :=
  match l with
  | [] => false
  | b :: l => (b_used b && (SIZEOF_STRUCT_MEM <=? a) && (a + 6 <=? b_size b)) || in_data (a - b_size b) l
  end.

(** [None]: the call is not one a client may make. *)
Definition astep (op : mop) (l : list blk) : option (option Z * list blk) :=
  match op with
  | MMalloc _ n =>
      if negb ((0 <=? n) && (n <? 2 ^ 16)) then None
      else if n =? 0 then Some (None, l)
      else
        match size ← mem_round n; find_fit size l with
        | Some (l1, s, l2) =>
            Some (Some (total l1 + SIZEOF_STRUCT_MEM),
                  l1 ++ taken (default 0 (mem_round n)) s ++ l2)
        | None => Some (None, l)
        end
  | MFree _ None => Some (None, l)
  | MFree _ (Some off) =>
      '(l1, s, l2) ← find_used off l;
      let f := fwd s l2 in let b := bwd l1 f.1 in
      Some (None, b.1 ++ Blk b.2 false :: f.2)
  | MTrim _ off n =>
      if negb ((0 <=? n) && (n <? 2 ^ 16)) then None
      else
        '(l1, s, l2) ← find_used off l;
        match mem_round n with
        | None => Some (None, l)
        | Some size => l' ← trimmed size s l2; Some (Some (off + SIZEOF_STRUCT_MEM), l1 ++ l')
        end
  | MWrite a _ => if in_data a l then Some (None, l) else None
  end.

Fixpoint arun (ops : list mop) (l : list blk) : option (list (option Z) * list blk) :=
  match ops with
  | [] => Some ([], l)
  | op :: ops => '(r, l) ← astep op l; '(rs, l) ← arun ops l; Some (r :: rs, l)
  end.

(** Offsets as addresses. *)
Definition addresses (r : Z) (rs : list (option Z)) : list (option Z) :=
  map (option_map (Z.add r)) rs.

Definition whole_heap : list blk := [Blk MEM_SIZE_ALIGNED false].

(** ** Lemmas *)

Lemma fitsb_spec size b : fitsb size b = true ↔ fits size b.
Proof.
  unfold fitsb, fits. rewrite andb_true_iff, negb_true_iff, Z.leb_le. done.
Qed.

Lemma find_fit_first size l1 s l2 :
  Forall (λ b, ¬ fits size b) l1 → fits size (Blk s false) →
  find_fit size (l1 ++ Blk s false :: l2) = Some (l1, s, l2).
Proof.
  intros H Hs. induction H as [|b l1 Hb _ IH]; cbn [app find_fit].
  - by rewrite (proj2 (fitsb_spec _ _)).
  - destruct (fitsb size b) eqn:E; [by apply fitsb_spec in E|]. by rewrite IH.
Qed.

Lemma find_fit_none size l : Forall (λ b, ¬ fits size b) l → find_fit size l = None.
Proof.
  induction 1 as [|b l Hb _ IH]; cbn [find_fit]; [done|].
  destruct (fitsb size b) eqn:E; [by apply fitsb_spec in E|]. by rewrite IH.
Qed.

Lemma find_used_split l : ∀ off l1 s l2,
  find_used off l = Some (l1, s, l2) → l = l1 ++ Blk s true :: l2 ∧ off = total l1.
Proof.
  induction l as [|[t u] l IH]; intros off l1 s l2; cbn [find_used b_used b_size]; [done|].
  destruct (Z.eqb_spec off 0) as [->|].
  - destruct u; [|done]. by intros [= <- <- <-].
  - intros ([[l1' s'] l2'] & Hf & [= <- <- <-])%bind_Some. apply IH in Hf as [-> Hoff].
    split; [done|]. simpl. lia.
Qed.

Lemma in_data_split l : ∀ a, in_data a l = true →
  ∃ l1 b l2, l = l1 ++ b :: l2 ∧ total l1 + SIZEOF_STRUCT_MEM <= a ∧ a + 6 <= total l1 + b_size b.
Proof.
  induction l as [|b l IH]; intros a; cbn [in_data]; [done|].
  intros [[[_ H1%Z.leb_le]%andb_true_iff H2%Z.leb_le]%andb_true_iff|H]%orb_true_iff.
  - exists [], b, l. simpl. split_and!; [done|lia..].
  - destruct (IH _ H) as (l1 & c & l2 & -> & H1 & H2). exists (b :: l1), c, l2. simpl.
    split_and!; [done|lia..].
Qed.

(** Writing to memory in use does not touch a live header. *)
Lemma write_inv h l a s : heap_inv h l → in_data a l = true → heap_inv (hdr_put (ram h + a) s h) l.
Proof.
  intros [HL Hr Hsp Hlf Hu Hm] (l1 & [t u] & l2 & -> & Ha1 & Ha2)%in_data_split.
  cbn [b_size] in Ha2. unfold SIZEOF_STRUCT_MEM in Ha1. split; try done.
  unfold heap_layout, hdr_put. cbn [hdrs ram set_hdrs].
  pose proof (layout_hdr _ _ _ _ _ HL) as Hh. cbn [b_size b_used] in Hh.
  refine (layout_replace (hdrs h) _ (ram h) l1 [Blk t u] [Blk t u] l2 (total l1) HL eq_refl _ _ _ _ eq_refl _);
    cbn [total b_size].
  - pose proof (lo_ok _ _ _ HL) as [_ [Hok _]%Forall_cons]%Forall_app. by apply Forall_singleton.
  - intros x Hx. by look.
  - intros x Hx. by look.
  - split; [by look|done].
  - apply (relinked_same _ _ _ _ _ _ _ HL). by look.
Qed.

Lemma mem_init_inv heap :
  ∃ h, mem_init heap true = Ok h ∧ ram h = LWIP_MEM_ALIGN heap ∧ heap_inv h whole_heap.
Proof.
  eexists. split; [reflexivity|]. split; [done|]. unfold hdr_put, ram_end, ptr_to_mem. cbn [hdrs set_hdrs ram].
  split; try done; cbn [ram lfree set_hdrs].
  - split; cbn [hdrs set_hdrs ram].
    + cbn. rewrite Z.add_0_r. split; [|done]. unfold MEM_SIZE_ALIGNED. by look.
    + by look.
    + done.
    + by repeat constructor.
  - apply LWIP_MEM_ALIGN_spec.
  - cbn. lia.
Qed.

Section refine.
Context `{Platform}.

(** One call. *)
Lemma cstep_refines op h l r l' :
  heap_inv h l → astep op l = Some (r, l') →
  ∃ h', cstep op h = Ok (Z.add (ram h) <$> r, h') ∧ ram h' = ram h ∧ heap_inv h' l'.
Proof.
  intros HI. destruct op as [self n|self [off|]|self off n|a s]; cbn [astep cstep].
  - destruct (_ && _) eqn:E; cbn [negb]; [|done].
    apply andb_true_iff in E as [E1%Z.leb_le E2%Z.ltb_lt].
    destruct (mem_malloc_spec self h l n HI ltac:(lia)) as (p & h' & HE & (Hram & _) & Hout).
    rewrite HE. destruct p as [p|]; cbn [malloc_outcome] in Hout.
    + destruct Hout as (size & l1 & s & l2 & Er & -> & Hfit & Hno & -> & HI').
      destruct (Z.eqb_spec n 0) as [->|].
      { exfalso. unfold mem_malloc in HE. simpl in HE. congruence. }
      rewrite Er. cbn [mbind option_bind default].
      rewrite (find_fit_first _ _ _ _ Hno Hfit). intros [= <- <-]. exists h'.
      split; [|done]. cbn [fmap option_fmap option_map]. do 3 f_equal. lia.
    + destruct Hout as [HI' Hno]. destruct (Z.eqb_spec n 0) as [->|Hn0].
      { intros [= <- <-]. by exists h'. }
      destruct Hno as [|Hno]; [done|]. destruct (mem_round n) as [size|]; cbn [mbind option_bind].
      * rewrite find_fit_none by (by apply Hno). intros [= <- <-]. by exists h'.
      * intros [= <- <-]. by exists h'.
  - intros ([[l1 s] l2] & [-> ->]%find_used_split & [= <- <-])%bind_Some.
    destruct (mem_free_spec self h l1 s l2 HI) as (h' & HE & HI' & Hram & _).
    unfold block_ptr. cbn [fmap option_fmap option_map]. rewrite HE. by exists h'.
  - intros [= <- <-]. by exists h.
  - destruct (_ && _) eqn:E; cbn [negb]; [|done].
    apply andb_true_iff in E as [E1%Z.leb_le E2%Z.ltb_lt].
    intros ([[l1 s] l2] & [-> ->]%find_used_split & Hr)%bind_Some.
    destruct (mem_round n) as [size|] eqn:Er.
    + apply bind_Some in Hr as (l'' & Ht & [= <- <-]).
      pose proof (mem_trim_spec self h l1 s l2 n size HI ltac:(lia) Er) as HT. rewrite Ht in HT.
      destruct HT as (h' & HE & HI' & Hram & _). unfold block_ptr. rewrite HE. exists h'.
      split; [|done]. cbn [fmap option_fmap option_map]. do 3 f_equal. lia.
    + injection Hr as <- <-. unfold mem_trim. rewrite Er. by exists h.
  - destruct (in_data a l) eqn:E; [|done]. intros [= <- <-]. eexists. split; [reflexivity|].
    split; [done|]. by apply write_inv.
Qed.

(** Any sequence of calls. *)
Lemma crun_refines ops : ∀ h l rs l',
  heap_inv h l → arun ops l = Some (rs, l') →
  ∃ h', crun ops h = Ok (addresses (ram h) rs, h') ∧ ram h' = ram h ∧ heap_inv h' l'.
Proof.
  induction ops as [|op ops IH]; intros h l rs l' HI; cbn [arun crun].
  { intros [= <- <-]. by exists h. }
  intros ([r l1] & H1 & ([rs1 l2] & H2 & [= <- <-])%bind_Some)%bind_Some.
  destruct (cstep_refines _ _ _ _ _ HI H1) as (h1 & -> & Hr1 & HI1). cbn [mbind res_bind].
  destruct (IH _ _ _ _ HI1 H2) as (h2 & -> & Hr2 & HI2). cbn [mbind res_bind].
  exists h2. rewrite Hr1 in *. done.
Qed.


(** ** Refusal *)

(** A stretch of the array meets a block in use or lies in one free block. *)
Lemma stretch_cases l : ∀ u off a e,
  spaced u l → Forall blk_ok l → off <= a → a < e → e <= off + total l →
  (∃ l1 s l2, l = l1 ++ Blk s true :: l2 ∧ off + total l1 < e ∧ a < off + total l1 + s) ∨
  (∃ l1 s l2, l = l1 ++ Blk s false :: l2 ∧ off + total l1 <= a ∧ e <= off + total l1 + s).
Proof.
  induction l as [|[t u'] l IH]; intros u off a e Hsp Hok Ha Hae He; cbn [total b_size] in He; [lia|].
  simpl in Hsp. destruct Hsp as [Hu Hsp]. apply Forall_cons in Hok as [_ Hok].
  destruct (decide (off + t <= a)) as [Hin|Hin].
  - destruct (IH u' (off + t) a e Hsp Hok) as [(l1 & s & l2 & -> & H1 & H2)|(l1 & s & l2 & -> & H1 & H2)];
      [lia..| |]; [left|right]; exists (Blk t u' :: l1), s, l2; simpl; split_and!; (done || lia).
  - destruct u'; [left; exists [], t, l; simpl; split_and!; (done || lia)|].
    destruct (decide (e <= off + t)); [right; exists [], t, l; simpl; split_and!; (done || lia)|].
    left. destruct l as [|[t2 u2] l]; [simpl in He; lia|]. simpl in Hsp. destruct Hsp as [Hu2 _].
    subst u2. apply Forall_cons in Hok as [[Ht2 _] _]. unfold SIZEOF_STRUCT_MEM, MIN_SIZE_ALIGNED in Ht2.
    simpl in Ht2. exists [Blk t false], t2, l. simpl. split_and!; (done || lia).
Qed.

(** Whole blocks leave no room for rounding to matter. *)
Lemma fits_request n size b :
  0 < n < 2 ^ 16 → mem_round n = Some size → blk_ok b → b_used b = false →
  n + SIZEOF_STRUCT_MEM <= b_size b → fits size b.
Proof.
  intros Hn Er [Hmin Hb4] Hu Hb. split; [done|]. destruct (LWIP_MEM_ALIGN_SIZE_spec n) as [H4 Hr]; [lia|].
  unfold mem_round in Er. set (a := LWIP_MEM_ALIGN_SIZE n) in *.
  unfold SIZEOF_STRUCT_MEM, MIN_SIZE_ALIGNED, MEM_SIZE_ALIGNED, MEM_ALIGNMENT in *.
  destruct (decide (a < 2 ^ 16)) as [Ha|Ha]; cycle 1.
  { assert (u16 a = a - 2 ^ 16) as E by (unfold wrapu; symmetry; apply (Z.mod_unique_pos _ _ 1); lia).
    rewrite E, (proj2 (Z.ltb_lt (a - 2 ^ 16) 12)) in Er by lia. cbn in Er.
    rewrite (proj2 (Z.ltb_lt 12 n)) in Er by lia. done. }
  rewrite wrapu_small in Er by lia.
  apply Z.mod_divide in H4 as [k Hk]; [|done]. apply Z.mod_divide in Hb4 as [j Hj]; [|done].
  destruct (Z.ltb_spec a 12); destruct (_ || _); try done; injection Er as <-; lia.
Qed.

(** After any sequence of calls, a request is refused only if there
    is no room: every stretch of the array that is long enough for the bytes and a
    header meets a block in use. *)
Theorem malloc_refuses_only_full heap ops rs l h self n h' a :
  arun ops whole_heap = Some (rs, l) →
  (h0 ← mem_init heap true; crun ops h0) = Ok (addresses (LWIP_MEM_ALIGN heap) rs, h) →
  0 < n < 2 ^ 16 → mem_malloc self n h = Ok (None, h') →
  0 <= a → a + n + SIZEOF_STRUCT_MEM <= MEM_SIZE_ALIGNED →
  ∃ l1 s l2, l = l1 ++ Blk s true :: l2 ∧
    total l1 < a + n + SIZEOF_STRUCT_MEM ∧ a < total l1 + s.
Proof.
  intros Ha Hc Hn Hm Ha0 Hae.
  destruct (mem_init_inv heap) as (h0 & Ei & _ & HI0). rewrite Ei in Hc. cbn [mbind res_bind] in Hc.
  destruct (crun_refines _ _ _ _ _ HI0 Ha) as (h1 & HE & _ & HI). rewrite HE in Hc.
  injection Hc as _ ->. pose proof HI as [HL _ Hsp _ _ _].
  destruct (mem_malloc_spec self h l n HI ltac:(lia)) as (r & h2 & Em & _ & Hout).
  rewrite Hm in Em. injection Em as <- <-. destruct Hout as [_ [|Hno]]; [lia|].
  destruct (mem_round n) as [size|] eqn:Er; cycle 1.
  { pose proof (mem_round_spec n ltac:(lia)) as Hbig. rewrite Er in Hbig.
    unfold SIZEOF_STRUCT_MEM, MEM_SIZE_ALIGNED in *. lia. }
  specialize (Hno _ eq_refl).
  destruct (stretch_cases l true 0 a (a + n + SIZEOF_STRUCT_MEM) Hsp (lo_ok _ _ _ HL))
    as [(l1 & s & l2 & -> & H1 & H2)|(l1 & s & l2 & -> & H1 & H2)];
    [lia|unfold SIZEOF_STRUCT_MEM; lia|by rewrite (lo_total _ _ _ HL)| |].
  - exists l1, s, l2. split_and!; [done|lia..].
  - exfalso. apply Forall_app in Hno as [_ [Hno _]%Forall_cons].
    pose proof (lo_ok _ _ _ HL) as [_ [Hok _]%Forall_cons]%Forall_app.
    apply Hno, (fits_request n size); [lia|done..|]. simpl. lia.
Qed.

(** A call of [mem_free] that is refused ends the process: an address that is not a
    block's, and a block that is not in use. *)
Lemma mem_free_illegal self h rmem :
  rmem mod 4 ≠ 0 ∨ rmem - SIZEOF_STRUCT_MEM < ram h ∨ ram_end h < rmem + MIN_SIZE_ALIGNED →
  mem_free self (Some rmem) h = Fault Aborted.
Proof.
  intros Hbad. unfold mem_free. rewrite land_3.
  destruct (Z.eqb_spec (rmem mod 4) 0) as [E|E]; cbn [negb]; [|done].
  destruct (Z.ltb_spec (rmem - SIZEOF_STRUCT_MEM) (ram h)); [done|].
  destruct (Z.ltb_spec (ram_end h) (rmem + MIN_SIZE_ALIGNED)); [done|]. lia.
Qed.

Lemma mem_free_unused self h rmem s m :
  take_mutex self (mem_mutex h) = Some m →
  hdrs h !! (rmem - SIZEOF_STRUCT_MEM) = Some s → m_used s = 0 →
  mem_free self (Some rmem) h = Fault Aborted.
Proof.
  intros Hm Hs Hu. unfold mem_free, mem_lock. rewrite Hm.
  destruct (negb _); [done|]. destruct (_ || _); [done|]. cbn [oget mbind res_bind].
  unfold hdr. cbn [hdrs set_mem_mutex]. rewrite Hs. cbn [oget mbind res_bind]. by rewrite Hu.
Qed.

(** Zeroed memory: the block is the one [mem_malloc] gives, filled with zeros. *)
Lemma mem_calloc_spec self h l count size m :
  heap_inv h l → 0 <= count < 2 ^ 16 → 0 <= size < 2 ^ 16 →
  mem_calloc self count size h m =
    if count * size <? 2 ^ 16 then
      '(p, h') ← mem_malloc self (count * size) h;
      match p with
      | Some a => m' ← mwrite m a (replicate (Z.to_nat (count * size)) 0); Ok (p, h', m')
      | None => Ok (p, h', m)
      end
    else Ok (None, h, m).
Proof.
  intros HI Hc Hs. unfold mem_calloc. rewrite usize32_small by nia.
  destruct (Z.ltb_spec (count * size) (2 ^ 16)) as [Hlt|Hge].
  - rewrite wrapu_small, Z.eqb_refl by nia. done.
  - pose proof (wrapu_range 16 (count * size)). rewrite (proj2 (Z.eqb_neq _ _)) by lia. done.
Qed.

(** When everything has been released the heap is whole again. *)
Lemma all_free_whole h l :
  heap_inv h l → Forall (λ b, b_used b = false) l → l = whole_heap.
Proof.
  intros [HL _ Hsp _ _ _] Hf. pose proof (lo_total _ _ _ HL) as Ht.
  destruct l as [|[s u] [|[s2 u2] l]]; [done| |].
  - apply Forall_cons in Hf as [Hf _]. simpl in Hf, Ht. subst u. unfold whole_heap.
    rewrite <- Ht. by rewrite Z.add_0_r.
  - exfalso. apply Forall_cons in Hf as [H1 [H2 _]%Forall_cons]. simpl in Hsp, H1, H2. subst u u2.
    by destruct Hsp as (_ & ? & _).
Qed.

(** The assertion in the way of shrinking the last block. *)
Lemma trim_last_aborts self h l1 s n size :
  heap_inv h (l1 ++ [Blk s true]) → 0 <= n < 2 ^ 16 → mem_round n = Some size →
  size + 2 * SIZEOF_STRUCT_MEM + MIN_SIZE_ALIGNED <= s →
  mem_trim self (block_ptr h (total l1)) n h = Fault Aborted.
Proof.
  intros HI Hn Er Hs. pose proof (mem_trim_spec self h l1 s [] n size HI Hn Er) as HT.
  unfold trimmed in HT. unfold SIZEOF_STRUCT_MEM, MIN_SIZE_ALIGNED in *.
  rewrite (proj2 (Z.ltb_ge _ _)), (proj2 (Z.eqb_neq _ _)), (proj2 (Z.leb_le _ _)) in HT by lia.
  exact HT.
Qed.
End refine.



Definition full_ops : list mop := [MMalloc 1 5000; MMalloc 1 5000; MFree 1 (Some 0)].

Lemma malloc_refuses_only_full_witness : ∃ rs l h h',
  arun full_ops whole_heap = Some (rs, l) ∧
  (h0 ← mem_init 4096 true; @crun linux64 full_ops h0) = Ok (addresses (LWIP_MEM_ALIGN 4096) rs, h) ∧
  @mem_malloc linux64 1 6000 h = Ok (None, h') ∧
  ∃ l1 s l2, l = l1 ++ Blk s true :: l2 ∧
    total l1 < 1000 + 6000 + SIZEOF_STRUCT_MEM ∧ 1000 < total l1 + s.
Proof.
  eexists _, _, _, _. split; [vm_compute; reflexivity|]. split; [vm_compute; reflexivity|].
  split; [vm_compute; reflexivity|].
  eapply (@malloc_refuses_only_full linux64 4096 full_ops _ _ _ 1 6000 _ 1000);
    [vm_compute; reflexivity..|lia|vm_compute; reflexivity|lia|vm_compute; discriminate].
Defined.
