(* ===== verification/PbufAlloc.v ===== *)
(** * Packet buffers of lwip: allocation and release (lwip/core/pbuf.c)

    A descriptor comes from one of two pools ([Memp]), from the heap ([LwipMem]) or
    from the application (a custom buffer), is counted by its references, and goes
    back where it came from when the last one is given up.  The arrays behind
    pools and heap are static, so the bytes of the data are always there; what
    comes and goes are the descriptors, in [bufs].  [PbufLife] shows that the
    counting is right. *)

From S2P Require Import Prelude Memp SysArch Pbuf LwipMem.

(** ** Data *)

(** The descriptors in existence; heap and pools; for custom buffers the function that
    takes them back, and the calls of these functions; whether a release of
    out-of-sequence data is under way, and how often it was asked for. *)
Record pbufs : Type := PBufs {
  bufs : gmap Z pbuf; pheap : lheap; memp_pbuf : pool; memp_pool : pool;
  custom_fn : gmap Z Z; custom_calls : list (Z * Z);
  ooseq_pending : bool; ooseq_calls : nat;
}.

Definition set_bufs (b : gmap Z pbuf) (s : pbufs) : pbufs :=
  PBufs b (pheap s) (memp_pbuf s) (memp_pool s) (custom_fn s) (custom_calls s)
    (ooseq_pending s) (ooseq_calls s).
Definition set_pheap (h : lheap) (s : pbufs) : pbufs :=
  PBufs (bufs s) h (memp_pbuf s) (memp_pool s) (custom_fn s) (custom_calls s)
    (ooseq_pending s) (ooseq_calls s).
Definition set_memp_pbuf (p : pool) (s : pbufs) : pbufs :=
  PBufs (bufs s) (pheap s) p (memp_pool s) (custom_fn s) (custom_calls s)
    (ooseq_pending s) (ooseq_calls s).
Definition set_memp_pool (p : pool) (s : pbufs) : pbufs :=
  PBufs (bufs s) (pheap s) (memp_pbuf s) p (custom_fn s) (custom_calls s)
    (ooseq_pending s) (ooseq_calls s).
Definition set_ooseq (b : bool) (n : nat) (s : pbufs) : pbufs :=
  PBufs (bufs s) (pheap s) (memp_pbuf s) (memp_pool s) (custom_fn s) (custom_calls s) b n.
Definition call_custom (f a : Z) (s : pbufs) : pbufs :=
  PBufs (bufs s) (pheap s) (memp_pbuf s) (memp_pool s) (custom_fn s)
    (custom_calls s ++ [(f, a)]) (ooseq_pending s) (ooseq_calls s).

Definition PBUF_POOL_BUFSIZE_ALIGNED : Z := Eval vm_compute in LWIP_MEM_ALIGN_SIZE 256.
Definition PBUF_TYPE_ALLOC_SRC_MASK_STD_HEAP : Z := 0.
Definition PBUF_TYPE_ALLOC_SRC_MASK_STD_MEMP_PBUF : Z := 1.
Definition PBUF_TYPE_ALLOC_SRC_MASK_STD_MEMP_PBUF_POOL : Z := 2.

Definition pbuf_get_allocsrc (h : pbuf) : Z := Z.land (p_type_internal h) PBUF_TYPE_ALLOC_SRC_MASK.

Definition is_custom (h : pbuf) : bool := negb (Z.land (p_flags h) PBUF_FLAG_IS_CUSTOM =? 0).

Definition buf_at (s : pbufs) (a : Z) : res pbuf := oget BadPointer (bufs s !! a).
Definition buf_mod (f : pbuf → pbuf) (a : Z) (s : pbufs) : res pbufs :=
  h ← buf_at s a; Ok (set_bufs (<[a := f h]> (bufs s)) s).

Definition set_p_lens (tot len : Z) (h : pbuf) : pbuf :=
  Pbuf (p_next h) (p_payload h) tot len (p_type_internal h) (p_flags h) (p_ref h) (p_if_idx h).

(** ** Release *)

(** The last reference is gone. *)
Definition pbuf_dealloc (self a : Z) (h : pbuf) (s : pbufs) : res pbufs :=
  let alloc_src := pbuf_get_allocsrc h in
  s ← (if is_custom h then
         f ← oget Aborted (custom_fn s !! a); Ok (call_custom f a s)
       else if alloc_src =? PBUF_TYPE_ALLOC_SRC_MASK_STD_MEMP_PBUF_POOL then
         p ← do_memp_free_pool (memp_pool s) a; Ok (set_memp_pool p s)
       else if alloc_src =? PBUF_TYPE_ALLOC_SRC_MASK_STD_MEMP_PBUF then
         p ← do_memp_free_pool (memp_pbuf s) a; Ok (set_memp_pbuf p s)
       else if alloc_src =? PBUF_TYPE_ALLOC_SRC_MASK_STD_HEAP then
         hp ← mem_free self (Some a) (pheap s); Ok (set_pheap hp s)
       else Fault Aborted);
  Ok (set_bufs (delete a (bufs s)) s).

(** [count] has eight bits. *)
Fixpoint free_loop (fuel : nat) (self : Z) (p : option Z) (count : Z) (s : pbufs)
    : res (Z * pbufs) :=
  match p, fuel with
  | None, _ => Ok (count, s)
  | Some _, O => Fault OutOfFuel
  | Some a, S fuel =>
      h ← buf_at s a;
      _ ← lwip_assert (0 <? p_ref h);
      let ref := u8 (p_ref h - 1) in
      s ← buf_mod (set_p_ref ref) a s;
      if ref =? 0 then
        s ← pbuf_dealloc self a h s;
        free_loop fuel self (p_next h) (u8 (count + 1)) s
      else Ok (count, s)
  end.

Definition pbuf_free (self : Z) (p : option Z) (s : pbufs) : res (Z * pbufs) :=
  match p with
  | None => Fault Aborted
  | Some _ => free_loop (chain_fuel (bufs s)) self p 0 s
  end.

(** ** Allocation *)

(** [cb_ok]: whether the stack's thread takes the callback. *)
Definition pbuf_pool_is_empty (cb_ok : bool) (s : pbufs) : pbufs :=
  let queued := ooseq_pending s in
  let s := set_ooseq true (ooseq_calls s) s in
  if queued then s
  else if cb_ok then set_ooseq true (S (ooseq_calls s)) s
  else set_ooseq false (ooseq_calls s) s.

Definition pbuf_init_alloced_pbuf (a payload tot_len len type flags : Z) (s : pbufs) : pbufs :=
  set_bufs (<[a := Pbuf None payload tot_len len (u8 type) flags 1 0]> (bufs s)) s.

(** A buffer for data elsewhere; NULL is 0. *)
Definition pbuf_alloc_reference (payload length type : Z) (s : pbufs) : res (option Z * pbufs) :=
  _ ← lwip_assert ((type =? PBUF_REF) || (type =? PBUF_ROM));
  '(p, pl) ← do_memp_malloc_pool (memp_pbuf s);
  let s := set_memp_pbuf pl s in
  match p with
  | None => Ok (None, s)
  | Some a => Ok (Some a, pbuf_init_alloced_pbuf a payload length length type 0 s)
  end.

Definition pbuf_alloced_custom (l length type : Z) (p : Z) (payload_mem : option Z)
    (payload_mem_len : Z) (s : pbufs) : option Z * pbufs :=
  let offset := u16 l in
  if payload_mem_len <? LWIP_MEM_ALIGN_SIZE offset + length then (None, s)
  else
    let payload := match payload_mem with Some m => m + LWIP_MEM_ALIGN_SIZE offset | None => 0 end in
    (Some p, pbuf_init_alloced_pbuf p payload length length type PBUF_FLAG_IS_CUSTOM s).

Section alloc.
Context `{Platform}.

(** One turn of the loop allocates the buffer [q] and links it to [last]; [p] is the
    head.  [None] for the head at the end: no buffer was left. *)
Fixpoint pool_loop (fuel : nat) (self : Z) (cb_ok : bool) (p last : option Z) (rem_len offset : Z)
    (s : pbufs) : res (option Z * pbufs) :=
  match fuel with
  | O => Fault OutOfFuel
  | S fuel =>
      '(q, pl) ← do_memp_malloc_pool (memp_pool s);
      let s := set_memp_pool pl s in
      match q with
      | None =>
          let s := pbuf_pool_is_empty cb_ok s in
          match p with
          | Some _ => '(_, s) ← pbuf_free self p s; Ok (None, s)
          | None => Ok (None, s)
          end
      | Some q =>
          let room := PBUF_POOL_BUFSIZE_ALIGNED - LWIP_MEM_ALIGN_SIZE offset in
          let qlen := Z.min rem_len (u16 room) in
          let payload := LWIP_MEM_ALIGN (q + SIZEOF_STRUCT_PBUF + offset) in
          let s := pbuf_init_alloced_pbuf q payload rem_len qlen PBUF_POOL 0 s in
          _ ← lwip_assert (payload mod MEM_ALIGNMENT =? 0);
          _ ← lwip_assert (0 <? u32 room);
          s ← (match p, last with
               | None, _ => Ok s
               | Some _, Some last => buf_mod (set_p_next (Some q)) last s
               | Some _, None => Fault NullDeref
               end);
          let p := match p with None => Some q | Some _ => p end in
          let rem_len := u16 (rem_len - qlen) in
          if 0 <? rem_len then pool_loop fuel self cb_ok p (Some q) rem_len 0 s
          else Ok (p, s)
      end
  end.

Definition alloc_ram (self offset length : Z) (s : pbufs) : res (option Z * pbufs) :=
  let payload_len := u16 (LWIP_MEM_ALIGN_SIZE offset + LWIP_MEM_ALIGN_SIZE length) in
  let alloc_len := u16 (LWIP_MEM_ALIGN_SIZE SIZEOF_STRUCT_PBUF + payload_len) in
  if (payload_len <? LWIP_MEM_ALIGN_SIZE length) || (alloc_len <? LWIP_MEM_ALIGN_SIZE length)
  then Ok (None, s)
  else
    '(p, hp) ← mem_malloc self alloc_len (pheap s);
    let s := set_pheap hp s in
    match p with
    | None => Ok (None, s)
    | Some a =>
        let payload := LWIP_MEM_ALIGN (a + SIZEOF_STRUCT_PBUF + offset) in
        let s := pbuf_init_alloced_pbuf a payload length length PBUF_RAM 0 s in
        _ ← lwip_assert (payload mod MEM_ALIGNMENT =? 0);
        Ok (Some a, s)
    end.

(** The bound of the loop: a buffer takes a byte at least, or the pool runs out. *)
Definition pbuf_alloc (self : Z) (cb_ok : bool) (layer length type : Z) (s : pbufs)
    : res (option Z * pbufs) :=
  let offset := u16 layer in
  if (type =? PBUF_REF) || (type =? PBUF_ROM) then pbuf_alloc_reference 0 length type s
  else if type =? PBUF_POOL then
    pool_loop (S (Z.to_nat length)) self cb_ok None None length offset s
  else if type =? PBUF_RAM then alloc_ram self offset length s
  else Fault Aborted.

(** ** Shortening *)

(** The buffer the new end lies in, and what of it stays. *)
Fixpoint realloc_loop (fuel : nat) (q rem_len shrink : Z) (s : pbufs) : res (Z * Z * pbufs) :=
  match fuel with
  | O => Fault OutOfFuel
  | S fuel =>
      h ← buf_at s q;
      if p_len h <? rem_len then
        s ← buf_mod (set_p_tot (u16 (p_tot_len h - shrink))) q s;
        n ← oget Aborted (p_next h);
        realloc_loop fuel n (u16 (rem_len - p_len h)) shrink s
      else Ok (q, rem_len, s)
  end.

Definition pbuf_realloc (self : Z) (p : option Z) (new_len : Z) (s : pbufs) : res pbufs :=
  a ← oget Aborted p;
  h ← buf_at s a;
  if p_tot_len h <=? new_len then Ok s
  else
    let shrink := u16 (p_tot_len h - new_len) in
    '(q, rem_len, s) ← realloc_loop (chain_fuel (bufs s)) a new_len shrink s;
    hq ← buf_at s q;
    s ← (if (pbuf_get_allocsrc hq =? PBUF_TYPE_ALLOC_SRC_MASK_STD_HEAP) &&
            negb (rem_len =? p_len hq) && negb (is_custom hq) then
           '(r, hp) ← mem_trim self q (u16 (p_payload hq - q + rem_len)) (pheap s);
           r ← oget Aborted r;
           _ ← lwip_assert (r =? q);
           Ok (set_pheap hp s)
         else Ok s);
    s ← buf_mod (set_p_lens rem_len rem_len) q s;
    s ← (match p_next hq with
         | Some n => '(_, s) ← pbuf_free self (Some n) s; Ok s
         | None => Ok s
         end);
    buf_mod (set_p_next None) q s.

(** The buffers a header fills go, the one it ends in loses its part. *)
Fixpoint free_header_loop (fuel : nat) (self : Z) (p : option Z) (free_left : Z) (s : pbufs)
    : res (option Z * pbufs) :=
  if free_left =? 0 then Ok (p, s)
  else
    match p, fuel with
    | None, _ => Ok (None, s)
    | Some _, O => Fault OutOfFuel
    | Some f, S fuel =>
        h ← buf_at s f;
        if p_len h <=? free_left then
          s ← buf_mod (set_p_next None) f s;
          '(_, s) ← pbuf_free self (Some f) s;
          free_header_loop fuel self (p_next h) (u16 (free_left - p_len h)) s
        else
          '(_, pb) ← pbuf_remove_header (bufs s) p free_left;
          Ok (p, set_bufs pb s)
    end.

Definition pbuf_free_header (self : Z) (q : option Z) (size : Z) (s : pbufs)
    : res (option Z * pbufs) :=
  free_header_loop (chain_fuel (bufs s)) self q size s.

(** ** Taking apart and copying *)

Definition pbuf_dechain (self p : Z) (s : pbufs) : res (option Z * pbufs) :=
  h ← buf_at s p;
  match p_next h with
  | Some q =>
      hq ← buf_at s q;
      _ ← lwip_assert (p_tot_len hq =? p_tot_len h - p_len h);
      s ← buf_mod (set_p_tot (u16 (p_tot_len h - p_len h))) q s;
      s ← buf_mod (λ h, set_p_next None (set_p_tot (p_len h) h)) p s;
      '(tail_gone, s) ← pbuf_free self (Some q) s;
      h ← buf_at s p;
      _ ← lwip_assert (p_tot_len h =? p_len h);
      Ok (if 0 <? tail_gone then None else Some q, s)
  | None =>
      _ ← lwip_assert (p_tot_len h =? p_len h);
      Ok (None, s)
  end.

(** [m]: the bytes of the data. *)
Definition pbuf_clone (self : Z) (cb_ok : bool) (layer type p : Z) (s : pbufs) (m : gmap Z Z)
    : res (option Z * pbufs * gmap Z Z) :=
  h ← buf_at s p;
  '(q, s) ← pbuf_alloc self cb_ok layer (p_tot_len h) type s;
  match q with
  | None => Ok (None, s, m)
  | Some _ =>
      '(err, m) ← pbuf_copy (bufs s) m q (Some p);
      _ ← lwip_assert (err =? ERR_OK);
      Ok (q, s, m)
  end.

Definition pbuf_coalesce (self : Z) (cb_ok : bool) (p layer : Z) (s : pbufs) (m : gmap Z Z)
    : res (option Z * pbufs * gmap Z Z) :=
  h ← buf_at s p;
  match p_next h with
  | None => Ok (Some p, s, m)
  | Some _ =>
      '(q, s, m) ← pbuf_clone self cb_ok layer PBUF_RAM p s m;
      match q with
      | None => Ok (Some p, s, m)
      | Some _ => '(_, s) ← pbuf_free self (Some p) s; Ok (q, s, m)
      end
  end.
End alloc.
