(* ===== verification/PbufLife.v ===== *)
(** * Packet buffers of lwip: the life of a buffer

    A reference to a buffer is a link from another buffer or a handle that a client
    holds.  [counted]: the count of each buffer is the number of its references.
    [accounted]: the buffers in existence are the elements in use of the pools and
    the blocks in use of the heap.  Every operation keeps both, so that clients
    who give up what they hold, and nothing else, never meet a buffer that is gone,
    and that nothing is in use when they hold nothing ([pbuf_life]). *)

From S2P Require Import Prelude Memp SysArch Pbuf LwipMem LwipMemProofs PbufAlloc.

(** ** Counting *)

Definition to (a : Z) (n : option Z) : nat := if decide (n = Some a) then 1%nat else 0%nat.

(** Buffers whose [next] is [a]. *)
Definition links (pb : gmap Z pbuf) (a : Z) : nat :=
  map_fold (λ _ h n, (to a (p_next h) + n)%nat) 0%nat pb.

(** Handles on [a]. *)
Definition held (hs : list Z) (a : Z) : nat := length (filter (λ x, x = a) hs).

Lemma links_fresh pb b h a :
  pb !! b = None → links (<[b := h]> pb) a = (to a (p_next h) + links pb a)%nat.
Proof.
  intros Hb. unfold links. rewrite (map_fold_insert_L _ _ b h pb); [done| |done].
  intros. lia.
Qed.

Lemma links_delete pb b h a :
  pb !! b = Some h → links pb a = (to a (p_next h) + links (delete b pb) a)%nat.
Proof.
  intros Hb. rewrite <- (insert_delete_id pb b h) at 1 by done.
  by rewrite links_fresh by apply lookup_delete_eq.
Qed.

(** The link of one buffer changes. *)
Lemma links_change pb b h h' a :
  pb !! b = Some h →
  (links (<[b := h']> pb) a + to a (p_next h) = links pb a + to a (p_next h'))%nat.
Proof.
  intros Hb. rewrite (links_delete pb b h a Hb).
  rewrite (links_delete (<[b := h']> pb) b h' a) by apply lookup_insert_eq.
  rewrite delete_insert_eq. lia.
Qed.

Lemma links_same pb b h h' a :
  pb !! b = Some h → p_next h' = p_next h → links (<[b := h']> pb) a = links pb a.
Proof. intros Hb E. pose proof (links_change pb b h h' a Hb). rewrite E in *. lia. Qed.

Lemma links_pos pb b h a : pb !! b = Some h → p_next h = Some a → (0 < links pb a)%nat.
Proof. intros Hb E. rewrite (links_delete pb b h a Hb), E. unfold to. rewrite decide_True by done. lia. Qed.

Lemma links_none pb a : (∀ b h, pb !! b = Some h → p_next h ≠ Some a) → links pb a = 0%nat.
Proof.
  unfold links. induction pb as [|b h pb Hb IH] using map_ind; intros Hn; [done|].
  rewrite map_fold_insert_L; [|intros; lia|done]. rewrite IH.
  - unfold to. rewrite decide_False; [done|]. apply (Hn b). by rewrite lookup_insert_eq.
  - intros c k Hc. apply (Hn c). rewrite lookup_insert_ne; congruence.
Qed.

Lemma links_empty a : links ∅ a = 0%nat.
Proof. done. Qed.

Lemma to_same a : to a (Some a) = 1%nat.
Proof. unfold to. by rewrite decide_True. Qed.
Lemma to_other a b : a ≠ b → to a (Some b) = 0%nat.
Proof. intros H. unfold to. by rewrite decide_False by congruence. Qed.
Lemma to_none a : to a None = 0%nat.
Proof. done. Qed.

Lemma held_cons x hs a : held (x :: hs) a = (to a (Some x) + held hs a)%nat.
Proof.
  unfold held, to. destruct (decide (x = a)) as [->|E].
  - rewrite filter_cons_True, decide_True by done. done.
  - rewrite filter_cons_False, decide_False by congruence. done.
Qed.

Lemma held_pos hs a : a ∈ hs → (0 < held hs a)%nat.
Proof. intros (l1 & l2 & ->)%list_elem_of_split. unfold held. rewrite filter_app, length_app, filter_cons_True by done. simpl. lia. Qed.

Lemma held_perm hs hs' a : hs ≡ₚ hs' → held hs a = held hs' a.
Proof. intros H. unfold held. by rewrite H. Qed.

Lemma held_zero hs a : a ∉ hs → held hs a = 0%nat.
Proof.
  induction hs as [|x hs IH]; intros Hni; [done|]. apply not_elem_of_cons in Hni as [Hne Hni].
  by rewrite held_cons, to_other, IH.
Qed.

(** ** Chains *)

(** The buffers from [p] on, to the end. *)
Inductive bchain (pb : gmap Z pbuf) : option Z → list Z → Prop :=
  | bchain_nil : bchain pb None []
  | bchain_cons a h l : pb !! a = Some h → bchain pb (p_next h) l → bchain pb (Some a) (a :: l).

Lemma bchain_det pb p l1 l2 : bchain pb p l1 → bchain pb p l2 → l1 = l2.
Proof.
  intros H. revert l2. induction H as [|a h l Ha Hc IH]; intros l2 H2; inversion H2; subst; [done|].
  f_equal. apply IH. congruence.
Qed.

Lemma bchain_suffix pb p l1 a l2 : bchain pb p (l1 ++ a :: l2) → bchain pb (Some a) (a :: l2).
Proof.
  revert p. induction l1 as [|b l1 IH]; intros p Hc; inversion Hc; subst; [by econstructor|eauto].
Qed.

Lemma bchain_NoDup pb p l : bchain pb p l → NoDup l.
Proof.
  induction 1 as [|a h l Ha Hc IH]; constructor; [|done].
  intros (l1 & l2 & ->)%list_elem_of_split. pose proof (bchain_suffix _ _ _ _ _ Hc) as Hs.
  assert (bchain pb (Some a) (a :: l1 ++ a :: l2)) as Hf by by econstructor.
  pose proof (bchain_det _ _ _ _ Hf Hs) as E. apply (f_equal length) in E.
  simpl in E. rewrite length_app in E. simpl in E. lia.
Qed.

Lemma bchain_dom pb p l a : bchain pb p l → a ∈ l → is_Some (pb !! a).
Proof. induction 1; [set_solver|]. intros [->|]%elem_of_cons; eauto. Qed.

Lemma bchain_length pb p l : bchain pb p l → (length l <= size pb)%nat.
Proof.
  intros Hc. pose proof (bchain_NoDup _ _ _ Hc) as Hnd.
  assert (list_to_set l ⊆ dom pb) as Hsub.
  { intros x Hx%elem_of_list_to_set. apply elem_of_dom. by eapply bchain_dom. }
  apply subseteq_size in Hsub. by rewrite size_list_to_set, size_dom in Hsub.
Qed.

Lemma bchain_frame pb pb' p l :
  bchain pb p l → (∀ a, a ∈ l → p_next <$> pb' !! a = p_next <$> pb !! a) → bchain pb' p l.
Proof.
  induction 1 as [|a h l Ha Hc IH]; intros Hf; [constructor|].
  pose proof (Hf a ltac:(set_solver)) as E. rewrite Ha in E.
  destruct (pb' !! a) as [h'|] eqn:Ha'; [|done]. injection E as E.
  apply (bchain_cons _ a h'); [done|]. rewrite E. apply IH. set_solver.
Qed.

(** A new end: the chain of [t] behind [a]. *)
Lemma bchain_link pb a h t lt p l :
  pb !! a = Some h → p_next h = None → bchain pb (Some t) lt → a ∉ lt → bchain pb p l →
  ∃ l', bchain (<[a := set_p_next (Some t) h]> pb) p l'.
Proof.
  intros Ha Hn Ht Hni. induction 1 as [|x hx l Hx Hc [l' IH]]; [exists []; constructor|].
  destruct (decide (x = a)) as [->|Hne].
  - exists (a :: lt). econstructor; [by rewrite lookup_insert_eq|]. simpl.
    eapply bchain_frame; [exact Ht|]. intros b Hb. rewrite lookup_insert_ne; [done|]. by intros ->.
  - exists (x :: l'). econstructor; [by rewrite lookup_insert_ne|done].
Qed.

(** A link is cut. *)
Lemma bchain_cut pb a h h' p l :
  pb !! a = Some h → p_next h' = None → bchain pb p l → ∃ l', bchain (<[a := h']> pb) p l'.
Proof.
  intros Ha Hn. induction 1 as [|x hx l Hx Hc [l' IH]]; [exists []; constructor|].
  destruct (decide (x = a)) as [->|Hne].
  - exists [a]. econstructor; [by rewrite lookup_insert_eq|]. rewrite Hn. constructor.
  - exists (x :: l'). econstructor; [by rewrite lookup_insert_ne|done].
Qed.

(** ** Counts *)

Record counted (pb : gmap Z pbuf) (hs : list Z) : Prop := Counted {
  co_ref : ∀ a h, pb !! a = Some h →
    p_ref h = Z.of_nat (links pb a + held hs a) ∧ 0 < p_ref h < 256;
  co_chain : ∀ a, is_Some (pb !! a) → ∃ l, bchain pb (Some a) l;
  co_held : ∀ a, a ∈ hs → is_Some (pb !! a);
}.

Lemma counted_perm pb hs hs' : hs ≡ₚ hs' → counted pb hs → counted pb hs'.
Proof.
  intros Hp [H1 H2 H3]. split; try done.
  - intros a h Ha. rewrite <- (held_perm _ _ _ Hp). by apply H1.
  - intros a Ha. apply H3. by rewrite Hp.
Qed.

Lemma counted_next pb hs a h n :
  counted pb hs → pb !! a = Some h → p_next h = Some n → is_Some (pb !! n).
Proof.
  intros Hc Ha Hn. destruct (co_chain _ _ Hc a) as [l Hl]; [eauto|].
  inversion Hl as [|? h' l' Ha' Hl']; subst. rewrite Ha in Ha'. injection Ha' as <-.
  rewrite Hn in Hl'. inversion Hl'; eauto.
Qed.

(** Who is referred to by a link only has a buffer before it. *)
Lemma links_pred pb a : (0 < links pb a)%nat → ∃ b h, pb !! b = Some h ∧ p_next h = Some a.
Proof.
  unfold links. induction pb as [|b h pb Hb IH] using map_ind; [rewrite map_fold_empty; lia|].
  rewrite map_fold_insert_L; [|intros; lia|done]. intros Hpos.
  destruct (decide (p_next h = Some a)) as [E|E].
  - exists b, h. by rewrite lookup_insert_eq.
  - unfold to in Hpos. rewrite decide_False in Hpos by done. destruct (IH Hpos) as (c & k & Hc & Hk).
    exists c, k. rewrite lookup_insert_ne by congruence. done.
Qed.

(** A store without handles is empty: chains in it could be extended to the front
    without end. *)
Lemma counted_nil pb : counted pb [] → pb = ∅.
Proof.
  intros [H1 H2 _]. apply map_empty. intros a0. destruct (pb !! a0) as [h0|] eqn:Ha0; [|done]. exfalso.
  assert (∀ k, ∃ a l, bchain pb (Some a) l ∧ (k <= length l)%nat) as Hlong.
  { induction k as [|k (a & l & Hl & Hk)].
    - destruct (H2 a0) as [l Hl]; [eauto|]. exists a0, l. split; [done|lia].
    - inversion Hl as [|? h l' Ha Hl']; subst. destruct (H1 _ _ Ha) as [E [Hpos _]].
      change (held [] a) with 0%nat in E. destruct (links_pred pb a) as (b & k' & Hb & Hn); [lia|].
      exists b, (b :: a :: l'). split; [|simpl in *; lia]. econstructor; [done|]. by rewrite Hn. }
  destruct (Hlong (S (size pb))) as (a & l & Hl & Hk). pose proof (bchain_length _ _ _ Hl). lia.
Qed.

(** ** How the operations change counts *)

Lemma next_frame (pb : gmap Z pbuf) a h h' b :
  pb !! a = Some h → p_next h' = p_next h → p_next <$> <[a := h']> pb !! b = p_next <$> pb !! b.
Proof.
  intros Ha E. destruct (decide (b = a)) as [->|].
  - rewrite lookup_insert_eq, Ha. simpl. by rewrite E.
  - by rewrite lookup_insert_ne.
Qed.

(** Links as before: the chains are. *)
Lemma chains_same (pb : gmap Z pbuf) a h h' :
  pb !! a = Some h → p_next h' = p_next h →
  (∀ b, is_Some (pb !! b) → ∃ l, bchain pb (Some b) l) →
  ∀ b, is_Some (<[a := h']> pb !! b) → ∃ l, bchain (<[a := h']> pb) (Some b) l.
Proof.
  intros Ha E Hc b Hb. destruct (Hc b) as [l Hl].
  { destruct (decide (a = b)) as [<-|]; [eauto|]. by rewrite lookup_insert_ne in Hb. }
  exists l. eapply bchain_frame; [done|]. intros c _. by apply (next_frame pb a h).
Qed.

Lemma is_Some_insert {V} (pb : gmap Z V) a h b : is_Some (pb !! b) → is_Some (<[a := h]> pb !! b).
Proof. intros Hb. rewrite lookup_insert_is_Some'. by right. Qed.

(** Fields that have nothing to do with references. *)
Lemma counted_field pb hs a h h' :
  counted pb hs → pb !! a = Some h → p_next h' = p_next h → p_ref h' = p_ref h →
  counted (<[a := h']> pb) hs.
Proof.
  intros [H1 H2 H3] Ha En Er. split.
  - intros b k. rewrite (links_same pb a h h') by done. destruct (decide (b = a)) as [->|].
    + rewrite lookup_insert_eq. intros [= <-]. rewrite Er. by apply H1.
    + rewrite lookup_insert_ne by done. apply H1.
  - by apply (chains_same pb a h).
  - intros b Hb. by apply is_Some_insert, H3.
Qed.

(** A new buffer: one reference, the client's. *)
Lemma counted_new pb hs a h :
  counted pb hs → pb !! a = None → p_next h = None → p_ref h = 1 →
  counted (<[a := h]> pb) (a :: hs).
Proof.
  intros Hc Ha En Er. pose proof Hc as [H1 H2 H3]. split.
  - intros b k. rewrite (links_fresh pb a h b Ha), En, held_cons, to_none.
    destruct (decide (b = a)) as [->|Hne].
    + rewrite lookup_insert_eq. intros [= <-]. rewrite Er, to_same.
      rewrite links_none.
      * rewrite held_zero; [done|]. intros Hin. apply H3 in Hin as [? ?]. congruence.
      * intros b k Hb Hn. destruct (counted_next _ _ _ _ _ Hc Hb Hn). congruence.
    + rewrite lookup_insert_ne, to_other by done. intros Hb. simpl. by apply H1.
  - intros b Hb. destruct (decide (b = a)) as [->|].
    + exists [a]. econstructor; [by rewrite lookup_insert_eq|]. rewrite En. constructor.
    + rewrite lookup_insert_ne in Hb by done. destruct (H2 b Hb) as [l Hl]. exists l.
      eapply bchain_frame; [done|]. intros c Hcl. rewrite lookup_insert_ne; [done|]. intros ->.
      destruct (bchain_dom _ _ _ _ Hl Hcl). congruence.
  - intros b [->|Hb]%elem_of_cons; [by rewrite lookup_insert_eq|]. by apply is_Some_insert, H3.
Qed.

(** One reference more, held by the client. *)
Lemma counted_ref pb hs a h :
  counted pb hs → pb !! a = Some h → p_ref h < 255 →
  counted (<[a := set_p_ref (p_ref h + 1) h]> pb) (a :: hs).
Proof.
  intros [H1 H2 H3] Ha Hlt. split.
  - intros b k. rewrite (links_same pb a h) by done. rewrite held_cons.
    destruct (decide (b = a)) as [->|Hne].
    + rewrite lookup_insert_eq, to_same. intros [= <-]. destruct (H1 _ _ Ha). simpl. lia.
    + rewrite lookup_insert_ne, to_other by done. intros Hb. by apply H1.
  - by apply (chains_same pb a h).
  - intros b [->|Hb]%elem_of_cons; [by rewrite lookup_insert_eq|]. by apply is_Some_insert, H3.
Qed.

(** One less, while there are others. *)
Lemma counted_drop pb hs a h :
  counted pb (a :: hs) → pb !! a = Some h → p_ref h ≠ 1 →
  counted (<[a := set_p_ref (p_ref h - 1) h]> pb) hs.
Proof.
  intros [H1 H2 H3] Ha Hne1. split.
  - intros b k. rewrite (links_same pb a h) by done.
    destruct (decide (b = a)) as [->|Hne].
    + rewrite lookup_insert_eq. intros [= <-]. destruct (H1 _ _ Ha) as [E ?].
      rewrite held_cons, to_same in E. simpl. lia.
    + rewrite lookup_insert_ne by done. intros Hb. destruct (H1 _ _ Hb) as [E ?].
      rewrite held_cons, to_other in E by done. done.
  - by apply (chains_same pb a h).
  - intros b Hb. apply is_Some_insert, H3. by apply elem_of_cons; right.
Qed.

Definition and_next (n : option Z) (hs : list Z) : list Z :=
  match n with Some n => n :: hs | None => hs end.

(** The last one: the buffer goes, and its link becomes a reference of whoever walks
    on. *)
Lemma counted_gone pb hs a h :
  counted pb (a :: hs) → pb !! a = Some h → p_ref h = 1 →
  counted (delete a pb) (and_next (p_next h) hs).
Proof.
  intros Hc Ha Hr1. pose proof Hc as [H1 H2 H3].
  destruct (H1 _ _ Ha) as [E _]. rewrite held_cons, to_same in E.
  assert (held hs a = 0%nat) as Hh by lia. assert (links pb a = 0%nat) as Hl by lia.
  assert (∀ b k, pb !! b = Some k → p_next k ≠ Some a) as Hnl.
  { intros b k Hb Hn. pose proof (links_pos _ _ _ _ Hb Hn). lia. }
  assert (a ∉ hs) as Hna by (intros Hin%held_pos; lia).
  split.
  - intros b k [Hne Hb]%lookup_delete_Some. destruct (H1 _ _ Hb) as [E' ?]. split; [|done].
    rewrite (links_delete pb a h b Ha) in E'. rewrite held_cons, to_other in E' by done.
    destruct (p_next h) as [n|]; cbn [and_next]; [rewrite held_cons|]; rewrite ?to_none in *; lia.
  - intros b Hb. destruct (decide (b = a)) as [->|Hne]; [rewrite lookup_delete_eq in Hb; by destruct Hb|].
    rewrite lookup_delete_ne in Hb by done. destruct (H2 b Hb) as [l Hcl]. exists l.
    eapply bchain_frame; [done|]. intros c Hin. rewrite lookup_delete_ne; [done|]. intros ->.
    clear -Hcl Hin Hne Hnl. remember (Some b) as p eqn:Ep. revert b Hne Ep.
    induction Hcl as [|x hx l Hx Hcl IH]; intros b Hne [= ->].
    apply elem_of_cons in Hin as [->|Hin]; [done|].
    destruct (p_next hx) as [n|] eqn:En; [|by inversion Hcl; subst; apply elem_of_nil in Hin].
    apply (IH Hin n); [|done]. intros ->. by apply (Hnl b hx).
  - intros b Hb. assert (b ≠ a ∧ is_Some (pb !! b)) as [Hne Hs]; [|by rewrite lookup_delete_ne].
    assert (b ∈ hs ∨ p_next h = Some b) as [Hin|Hn] by (destruct (p_next h); set_solver).
    + split; [by intros ->|]. apply H3. by apply elem_of_cons; right.
    + split; [intros ->; by apply (Hnl a h)|]. by apply (counted_next _ _ a h _ Hc).
Qed.

(** The client's handle on [t] becomes a link from the end of another chain. *)
Lemma counted_link pb hs a h t lt :
  counted pb (t :: hs) → pb !! a = Some h → p_next h = None → bchain pb (Some t) lt → a ∉ lt →
  counted (<[a := set_p_next (Some t) h]> pb) hs.
Proof.
  intros Hc Ha Hn Ht Hni. pose proof Hc as [H1 H2 H3]. split.
  - intros b k Hb.
    assert (∃ k0, pb !! b = Some k0 ∧ p_ref k = p_ref k0) as (k0 & Hb0 & ->).
    { destruct (decide (b = a)) as [->|].
      - rewrite lookup_insert_eq in Hb. injection Hb as <-. eauto.
      - rewrite lookup_insert_ne in Hb by done. eauto. }
    pose proof (links_change pb a h (set_p_next (Some t) h) b Ha) as E. rewrite Hn, to_none in E.
    cbn [p_next set_p_next] in E. destruct (H1 _ _ Hb0) as [E' ?]. split; [|done].
    rewrite held_cons in E'. lia.
  - intros b Hb. destruct (H2 b) as [l Hl].
    { destruct (decide (a = b)) as [<-|]; [eauto|]. by rewrite lookup_insert_ne in Hb. }
    by apply (bchain_link pb a h t lt (Some b) l).
  - intros b Hb. apply is_Some_insert, H3. by apply elem_of_cons; right.
Qed.

(** The other way round. *)
Lemma counted_unlink pb hs a h h' t :
  counted pb hs → pb !! a = Some h → p_next h = Some t → p_next h' = None → p_ref h' = p_ref h →
  counted (<[a := h']> pb) (t :: hs).
Proof.
  intros Hc Ha Hn Hn' Hr. pose proof Hc as [H1 H2 H3]. split.
  - intros b k Hb.
    assert (∃ k0, pb !! b = Some k0 ∧ p_ref k = p_ref k0) as (k0 & Hb0 & ->).
    { destruct (decide (b = a)) as [->|].
      - rewrite lookup_insert_eq in Hb. injection Hb as <-. eauto.
      - rewrite lookup_insert_ne in Hb by done. eauto. }
    pose proof (links_change pb a h h' b Ha) as E. rewrite Hn, Hn', to_none in E.
    destruct (H1 _ _ Hb0) as [E' ?]. split; [|done]. rewrite held_cons. lia.
  - intros b Hb. destruct (H2 b) as [l Hl].
    { destruct (decide (a = b)) as [<-|]; [eauto|]. by rewrite lookup_insert_ne in Hb. }
    by apply (bchain_cut pb a h h' (Some b) l).
  - intros b [->|Hb]%elem_of_cons; apply is_Some_insert; [|by apply H3].
    by apply (counted_next _ _ _ _ _ Hc Ha Hn).
Qed.
