(* ===== verification/PbufStore.v ===== *)
(** * Packet buffers of lwip: where they come from and go to

    [accounted]: the buffers in existence are exactly the elements in use of the two
    pools, the blocks in use of the heap and the custom buffers handed in.
    Allocation and release keep this, together with the counts of [PbufLife]. *)

From S2P Require Import Prelude Memp SysArch Pbuf LwipMem LwipMemProofs LwipMemSpec PbufAlloc PbufLife.

(** ** Sources *)

Inductive src : Type := SCustom | SPool | SRef | SHeap.

#[global] Instance src_eq_dec : EqDecision src.
Proof. solve_decision. Defined.

Definition buf_src (h : pbuf) : option src :=
  if is_custom h then Some SCustom
  else if pbuf_get_allocsrc h =? PBUF_TYPE_ALLOC_SRC_MASK_STD_MEMP_PBUF_POOL then Some SPool
  else if pbuf_get_allocsrc h =? PBUF_TYPE_ALLOC_SRC_MASK_STD_MEMP_PBUF then Some SRef
  else if pbuf_get_allocsrc h =? PBUF_TYPE_ALLOC_SRC_MASK_STD_HEAP then Some SHeap
  else None.

Definition from (pb : gmap Z pbuf) (k : src) (a : Z) : Prop :=
  ∃ h, pb !! a = Some h ∧ buf_src h = Some k.

(** The same buffers, from the same places. *)
Definition same_src (pb pb' : gmap Z pbuf) : Prop :=
  ∀ a, buf_src <$> pb' !! a = buf_src <$> pb !! a.

Lemma from_iff pb k a : from pb k a ↔ buf_src <$> pb !! a = Some (Some k).
Proof.
  unfold from. rewrite fmap_Some. split; intros (h & ? & ?); exists h; auto.
Qed.

Lemma same_src_from pb pb' k a : same_src pb pb' → from pb' k a ↔ from pb k a.
Proof. intros H. by rewrite !from_iff, H. Qed.

Lemma same_src_refl pb : same_src pb pb.
Proof. done. Qed.

Lemma same_src_trans pb1 pb2 pb3 : same_src pb1 pb2 → same_src pb2 pb3 → same_src pb1 pb3.
Proof. intros H1 H2 a. by rewrite H2, H1. Qed.

Lemma same_src_insert pb a h h' :
  pb !! a = Some h → buf_src h' = buf_src h → same_src pb (<[a := h']> pb).
Proof.
  intros Ha E b. destruct (decide (b = a)) as [->|].
  - rewrite lookup_insert_eq, Ha. simpl. by rewrite E.
  - by rewrite lookup_insert_ne.
Qed.

Lemma from_delete pb a k b : from (delete a pb) k b ↔ b ≠ a ∧ from pb k b.
Proof.
  unfold from. split.
  - intros (h & [Hne Hb]%lookup_delete_Some & Hs). split; [done|eauto].
  - intros (Hne & h & Hb & Hs). exists h. by rewrite lookup_delete_ne.
Qed.

Lemma from_insert pb a h k0 k b :
  pb !! a = None → buf_src h = Some k0 →
  from (<[a := h]> pb) k b ↔ (b = a ∧ k = k0) ∨ from pb k b.
Proof.
  intros Ha Hs. unfold from. destruct (decide (b = a)) as [->|Hne].
  - rewrite lookup_insert_eq. split; [intros (? & [= <-] & E); left; split; congruence|].
    intros [[_ ->]|(? & ? & _)]; [eauto|congruence].
  - rewrite lookup_insert_ne by done. naive_solver.
Qed.

Lemma from_unique pb k1 k2 a : from pb k1 a → from pb k2 a → k1 = k2.
Proof. intros (h1 & H1 & E1) (h2 & H2 & E2). congruence. Qed.

(** ** Blocks of the heap in use *)

Fixpoint useds (off : Z) (l : list blk) : list Z :=
  match l with
  | [] => []
  | b :: l => (if b_used b then [off] else []) ++ useds (off + b_size b) l
  end.

Lemma useds_app off l1 l2 : useds off (l1 ++ l2) = useds off l1 ++ useds (off + total l1) l2.
Proof.
  revert off. induction l1 as [|b l1 IH]; intros off; simpl; [by rewrite Z.add_0_r|].
  by rewrite IH, Z.add_assoc, app_assoc.
Qed.

Lemma useds_range off l x : Forall blk_ok l → x ∈ useds off l → off <= x < off + total l.
Proof.
  intros H. revert off. induction H as [|b l [Hb _] Hl IH]; intros off; cbn [useds total]; [set_solver|].
  unfold SIZEOF_STRUCT_MEM, MIN_SIZE_ALIGNED in Hb. pose proof (total_nonneg _ Hl).
  intros [Hx|Hx]%elem_of_app.
  - destruct (b_used b); [|set_solver]. apply list_elem_of_singleton in Hx. lia.
  - apply IH in Hx. lia.
Qed.

Lemma useds_split l : ∀ off x, x ∈ useds off l →
  ∃ l1 s l2, l = l1 ++ Blk s true :: l2 ∧ x = off + total l1.
Proof.
  induction l as [|[s u] l IH]; intros off x; cbn [useds b_used b_size]; [set_solver|].
  intros [Hx|Hx]%elem_of_app.
  - destruct u; [|set_solver]. apply list_elem_of_singleton in Hx. exists [], s, l. simpl. split; [done|lia].
  - apply IH in Hx as (l1 & s' & l2 & -> & ->). exists (Blk s u :: l1), s', l2. simpl. split; [done|lia].
Qed.

(** Releasing a block takes its offset away. *)
Lemma useds_free l1 s l2 x :
  Forall blk_ok (l1 ++ Blk s true :: l2) →
  x ∈ useds 0 ((bwd l1 (fwd s l2).1).1 ++ Blk (bwd l1 (fwd s l2).1).2 false :: (fwd s l2).2) ↔
  x ≠ total l1 ∧ x ∈ useds 0 (l1 ++ Blk s true :: l2).
Proof.
  intros [Hok1 [[Hs _] Hok2]%Forall_cons]%Forall_app.
  unfold SIZEOF_STRUCT_MEM, MIN_SIZE_ALIGNED in Hs. cbn [b_size] in Hs.
  assert (useds 0 ((bwd l1 (fwd s l2).1).1 ++ Blk (bwd l1 (fwd s l2).1).2 false :: (fwd s l2).2) =
    useds 0 l1 ++ useds (total l1 + s) l2) as ->.
  { assert (useds (total l1 + (fwd s l2).1) (fwd s l2).2 = useds (total l1 + s) l2) as <-.
    { destruct l2 as [|[s2 []] l2]; simpl; try done. by rewrite Z.add_assoc. }
    set (f := fwd s l2). unfold bwd. destruct l1 as [|[s1 [|]] l1 _] using rev_ind.
    - simpl. done.
    - rewrite last_snoc. cbn [fst snd]. rewrite useds_app. cbn [useds b_used b_size app]. by rewrite Z.add_0_l.
    - rewrite last_snoc, removelast_last. cbn [fst snd]. rewrite !useds_app, total_app.
      cbn [useds b_used b_size app total]. rewrite app_nil_r, Z.add_0_l. do 2 f_equal. lia. }
  rewrite useds_app. cbn [useds b_used b_size app]. rewrite !elem_of_app, elem_of_cons, Z.add_0_l.
  split; [|tauto]. intros [Hx|Hx].
  - pose proof (useds_range _ _ _ Hok1 Hx). split; [lia|tauto].
  - pose proof (useds_range _ _ _ Hok2 Hx). split; [lia|tauto].
Qed.

Lemma useds_taken l1 size s l2 x :
  x ∈ useds 0 (l1 ++ taken size s ++ l2) ↔ x = total l1 ∨ x ∈ useds 0 (l1 ++ Blk s false :: l2).
Proof.
  rewrite !useds_app, taken_total. cbn [useds b_used b_size app]. rewrite !elem_of_app, Z.add_0_l.
  assert (useds (total l1) (taken size s) = [total l1]) as ->.
  { unfold taken. by destruct (_ <=? _). }
  rewrite list_elem_of_singleton. tauto.
Qed.

Lemma useds_nil off l : useds off l = [] → Forall (λ b, b_used b = false) l.
Proof.
  revert off. induction l as [|b l IH]; intros off; cbn [useds]; [constructor|].
  destruct (b_used b) eqn:E; [done|]. cbn [app]. intros H. constructor; [done|by eapply IH].
Qed.

(** ** Accounts *)

(** The pools, and where the heap begins; pools, heap and custom buffers do not overlap. *)
Record arena : Type := Arena { ar_pool : memp_desc; ar_ref : memp_desc; ar_ram : Z }.

Definition in_heap (ar : arena) (a : Z) : Prop :=
  ar_ram ar + SIZEOF_STRUCT_MEM <= a < ar_ram ar + MEM_SIZE_ALIGNED.

Record arena_ok (ar : arena) : Prop := ArenaOk {
  ao_pool : desc_ok (ar_pool ar);
  ao_ref : desc_ok (ar_ref ar);
  ao_pools : ∀ a, a ∈ elements (ar_pool ar) → a ∉ elements (ar_ref ar);
  ao_heap : ∀ a, a ∈ elements (ar_pool ar) ∨ a ∈ elements (ar_ref ar) → ¬ in_heap ar a;
}.

(** The place a buffer of this source has. *)
Definition in_place (ar : arena) (k : src) (a : Z) : Prop :=
  match k with
  | SPool => a ∈ elements (ar_pool ar)
  | SRef => a ∈ elements (ar_ref ar)
  | SHeap => in_heap ar a
  | SCustom => a ∉ elements (ar_pool ar) ∧ a ∉ elements (ar_ref ar) ∧ ¬ in_heap ar a
  end.

Lemma in_place_unique ar k1 k2 a : arena_ok ar → in_place ar k1 a → in_place ar k2 a → k1 = k2.
Proof.
  intros [_ _ H1 H2]. pose proof (H1 a). pose proof (H2 a).
  destruct k1, k2; simpl; try done; intros; exfalso; tauto.
Qed.

Definition block_addr (ar : arena) (off : Z) : Z := ar_ram ar + off + SIZEOF_STRUCT_MEM.

Record accounted (ar : arena) (s : pbufs) : Prop := Accounted {
  ac_pool : ∃ out, pool_inv (ar_pool ar) (memp_pool s) out ∧ ∀ a, a ∈ out ↔ from (bufs s) SPool a;
  ac_ref : ∃ out, pool_inv (ar_ref ar) (memp_pbuf s) out ∧ ∀ a, a ∈ out ↔ from (bufs s) SRef a;
  ac_heap : ∃ l, heap_inv (pheap s) l ∧ ∀ a, a ∈ block_addr ar <$> useds 0 l ↔ from (bufs s) SHeap a;
  ac_ram : ram (pheap s) = ar_ram ar;
  ac_custom : ∀ a, from (bufs s) SCustom a → is_Some (custom_fn s !! a) ∧ in_place ar SCustom a;
  ac_src : ∀ a h, bufs s !! a = Some h → is_Some (buf_src h);
}.

(** A block in use lies in the heap. *)
Lemma block_in_heap ar h l a :
  heap_inv h l → a ∈ block_addr ar <$> useds 0 l → in_heap ar a.
Proof.
  intros HI (x & -> & Hx)%list_elem_of_fmap. pose proof (lo_ok _ _ _ (hi_layout _ _ HI)) as Hok.
  apply useds_split in Hx as (l1 & s & l2 & -> & ->).
  pose proof (layout_pos _ _ _ _ _ (hi_layout _ _ HI)) as (? & Hs & Hin & _). simpl in Hs, Hin.
  unfold in_heap, block_addr, SIZEOF_STRUCT_MEM in *. lia.
Qed.

Lemma accounted_place ar s k a : accounted ar s → from (bufs s) k a → in_place ar k a.
Proof.
  intros [(o1 & P1 & E1) (o2 & P2 & E2) (l & HI & E3) _ E4 _] Hf. destruct k; cbn [in_place].
  - by apply E4.
  - apply E1 in Hf. by eapply pool_inv_elem.
  - apply E2 in Hf. by eapply pool_inv_elem.
  - apply E3 in Hf. by eapply block_in_heap.
Qed.

(** An address that is somebody else's place is no buffer. *)
Lemma accounted_fresh ar s k a :
  arena_ok ar → accounted ar s → in_place ar k a → ¬ from (bufs s) k a → bufs s !! a = None.
Proof.
  intros Hao Hac Hpl Hnf. destruct (bufs s !! a) as [h|] eqn:Ha; [|done]. exfalso.
  destruct (ac_src _ _ Hac _ _ Ha) as [k' Hk']. assert (from (bufs s) k' a) as Hf by (by exists h).
  pose proof (accounted_place _ _ _ _ Hac Hf) as Hpl'.
  by rewrite (in_place_unique _ _ _ _ Hao Hpl Hpl') in Hnf.
Qed.

(** Headers may change as long as the source does not. *)
Lemma accounted_same ar s pb' :
  accounted ar s → same_src (bufs s) pb' → accounted ar (set_bufs pb' s).
Proof.
  intros [(o1 & P1 & E1) (o2 & P2 & E2) (l & HI & E3) E4 E5 E6] Hs.
  split; cbn [bufs memp_pool memp_pbuf pheap custom_fn set_bufs]; try done.
  - exists o1. split; [done|]. intros a. by rewrite (same_src_from _ _ _ _ Hs).
  - exists o2. split; [done|]. intros a. by rewrite (same_src_from _ _ _ _ Hs).
  - exists l. split; [done|]. intros a. by rewrite (same_src_from _ _ _ _ Hs).
  - intros a. rewrite (same_src_from _ _ _ _ Hs). apply E5.
  - intros a h Ha. specialize (Hs a). rewrite Ha in Hs. simpl in Hs.
    destruct (bufs s !! a) as [h0|] eqn:E; [|done]. simpl in Hs. injection Hs as Hs. rewrite Hs. eauto.
Qed.

(** A buffer of another source goes: not the business of [k]. *)
Lemma from_delete_other pb a k0 k b :
  from pb k0 a → k ≠ k0 → from (delete a pb) k b ↔ from pb k b.
Proof.
  intros Ha Hne. rewrite from_delete. split; [tauto|]. intros Hb. split; [|done].
  intros ->. apply Hne. by eapply from_unique.
Qed.

(** Membership after one element has been taken out. *)
Lemma elem_of_removed out1 (a : Z) out2 b :
  NoDup (out1 ++ a :: out2) → b ∈ out1 ++ out2 ↔ b ≠ a ∧ b ∈ out1 ++ a :: out2.
Proof.
  intros Hnd. rewrite <- Permutation_middle in Hnd. apply NoDup_cons in Hnd as [Hni _].
  split; [|set_solver]. intros Hb. split; [by intros ->|set_solver].
Qed.

Lemma pool_gives_back d p out a :
  desc_ok d → pool_inv d p out → a ∈ out →
  ∃ p' out', do_memp_free_pool p a = Ok p' ∧ pool_inv d p' out' ∧ ∀ b, b ∈ out' ↔ b ≠ a ∧ b ∈ out.
Proof.
  intros Hd Hi Ha. pose proof (pool_inv_NoDup _ _ _ Hd Hi) as Hnd.
  apply list_elem_of_split in Ha as (o1 & o2 & ->).
  destruct (do_memp_free_gives d p o1 a o2 Hd Hi) as (p' & E & Hi'). exists p', (o1 ++ o2).
  split_and!; [done..|]. intros b. by apply elem_of_removed.
Qed.

Lemma heap_gives_back ar self hp l a :
  heap_inv hp l → ram hp = ar_ram ar → a ∈ block_addr ar <$> useds 0 l →
  ∃ hp' l', mem_free self (Some a) hp = Ok hp' ∧ heap_inv hp' l' ∧ ram hp' = ar_ram ar ∧
    ∀ b, b ∈ block_addr ar <$> useds 0 l' ↔ b ≠ a ∧ b ∈ block_addr ar <$> useds 0 l.
Proof.
  intros HI Hr (x & -> & Hx)%list_elem_of_fmap. pose proof (lo_ok _ _ _ (hi_layout _ _ HI)) as Hok.
  apply useds_split in Hx as (l1 & s & l2 & -> & ->). rewrite Z.add_0_l.
  destruct (mem_free_spec self hp l1 s l2 HI) as (hp' & HE & HI' & Hram & _).
  rewrite Hr in HE. eexists hp', _. split; [exact HE|]. split; [exact HI'|]. split; [congruence|].
  intros b. rewrite !list_elem_of_fmap. setoid_rewrite (useds_free l1 s l2); [|done].
  unfold block_addr. split.
  - intros (y & -> & Hne & Hy). split; [lia|]. eauto.
  - intros (Hne & y & -> & Hy). exists y. split_and!; [done| |done]. intros ->. done.
Qed.

(** The last reference to a buffer is gone. *)
Lemma pbuf_dealloc_spec ar self a h h0 s :
  arena_ok ar → accounted ar s → bufs s !! a = Some h0 → buf_src h = buf_src h0 →
  ∃ s', pbuf_dealloc self a h s = Ok s' ∧ bufs s' = delete a (bufs s) ∧ accounted ar s'.
Proof.
  intros Hao Hac Ha Hsrc. pose proof Hac as [(o1 & P1 & E1) (o2 & P2 & E2) (l & HI & E3) E4 E5 E6].
  destruct (E6 _ _ Ha) as [k Hk]. assert (from (bufs s) k a) as Hf by (by exists h0).
  rewrite Hk in Hsrc. unfold pbuf_dealloc. unfold buf_src in Hsrc.
  assert (∀ b h', delete a (bufs s) !! b = Some h' → is_Some (buf_src h')) as Hsrc'.
  { intros b h' [_ Hb]%lookup_delete_Some. eauto. }
  assert (∀ c, from (delete a (bufs s)) SCustom c → is_Some (custom_fn s !! c) ∧ in_place ar SCustom c) as Hcu.
  { intros c [_ Hc]%from_delete. auto. }
  destruct (is_custom h); [|destruct (_ =? _); [|destruct (_ =? _); [|destruct (_ =? _); [|done]]]];
    injection Hsrc as <-.
  - destruct (E5 _ Hf) as [[f Hfn] _]. rewrite Hfn. cbn [oget mbind res_bind]. eexists. split; [reflexivity|].
    split; [done|]. split; cbn [bufs memp_pool memp_pbuf pheap custom_fn set_bufs call_custom]; try done.
    + exists o1. split; [done|]. intros b. by rewrite (from_delete_other _ _ SCustom).
    + exists o2. split; [done|]. intros b. by rewrite (from_delete_other _ _ SCustom).
    + exists l. split; [done|]. intros b. by rewrite (from_delete_other _ _ SCustom).
  - destruct (pool_gives_back _ _ _ a (ao_pool _ Hao) P1) as (p' & o' & HE & P1' & E1'); [by apply E1|].
    rewrite HE. cbn [mbind res_bind]. eexists. split; [reflexivity|].
    split; [done|]. split; cbn [bufs memp_pool memp_pbuf pheap custom_fn set_bufs set_memp_pool]; try done.
    + exists o'. split; [done|]. intros b. by rewrite E1', E1, from_delete.
    + exists o2. split; [done|]. intros b. by rewrite (from_delete_other _ _ SPool).
    + exists l. split; [done|]. intros b. by rewrite (from_delete_other _ _ SPool).
  - destruct (pool_gives_back _ _ _ a (ao_ref _ Hao) P2) as (p' & o' & HE & P2' & E2'); [by apply E2|].
    rewrite HE. cbn [mbind res_bind]. eexists. split; [reflexivity|].
    split; [done|]. split; cbn [bufs memp_pool memp_pbuf pheap custom_fn set_bufs set_memp_pbuf]; try done.
    + exists o1. split; [done|]. intros b. by rewrite (from_delete_other _ _ SRef).
    + exists o'. split; [done|]. intros b. by rewrite E2', E2, from_delete.
    + exists l. split; [done|]. intros b. by rewrite (from_delete_other _ _ SRef).
  - destruct (heap_gives_back ar self _ _ a HI E4) as (hp & l' & HE & HI' & Hr' & E3'); [by apply E3|].
    rewrite HE. cbn [mbind res_bind]. eexists. split; [reflexivity|].
    split; [done|]. split; cbn [bufs memp_pool memp_pbuf pheap custom_fn set_bufs set_pheap]; try done.
    + exists o1. split; [done|]. intros b. by rewrite (from_delete_other _ _ SHeap).
    + exists o2. split; [done|]. intros b. by rewrite (from_delete_other _ _ SHeap).
    + exists l'. split; [done|]. intros b. by rewrite E3', E3, from_delete.
Qed.
