(* ===== verification/PbufClients.v ===== *)
(** * Packet buffers of lwip: clients that keep to the rules

    A client may use a buffer it has a handle on.  Allocation and [pbuf_ref] give a
    handle, [pbuf_free] and [pbuf_cat] (for the second chain) take one.  Whatever
    sequence of calls such clients make, none of them meets a buffer that is gone,
    and when no handle is left every buffer is back where it came from
    ([pbuf_life]). *)

From S2P Require Import Prelude Memp SysArch Pbuf LwipMem LwipMemProofs LwipMemSpec PbufAlloc PbufLife PbufStore.

Record sound (ar : arena) (s : pbufs) (hs : list Z) : Prop := Sound {
  so_counted : counted (bufs s) hs;
  so_accounted : accounted ar s;
}.

Lemma sound_perm ar s hs hs' : hs ≡ₚ hs' → sound ar s hs → sound ar s hs'.
Proof. intros Hp [H1 H2]. split; [by eapply counted_perm|done]. Qed.

(** Only counts differ. *)
Definition only_refs (pb pb' : gmap Z pbuf) : Prop :=
  ∀ a h', pb' !! a = Some h' → ∃ h, pb !! a = Some h ∧ h' = set_p_ref (p_ref h') h.

Lemma only_refs_refl pb : only_refs pb pb.
Proof. intros a h Ha. exists h. split; [done|]. by destruct h. Qed.

Lemma only_refs_trans pb1 pb2 pb3 : only_refs pb1 pb2 → only_refs pb2 pb3 → only_refs pb1 pb3.
Proof.
  intros H1 H2 a h3 Ha. destruct (H2 _ _ Ha) as (h2 & Ha2 & E2). destruct (H1 _ _ Ha2) as (h1 & Ha1 & E1).
  exists h1. split; [done|]. rewrite E2. rewrite E1. by destruct h1.
Qed.

Lemma only_refs_set pb a h r :
  pb !! a = Some h → only_refs pb (<[a := set_p_ref r h]> pb).
Proof.
  intros Ha b h' Hb. destruct (decide (b = a)) as [->|].
  - rewrite lookup_insert_eq in Hb. injection Hb as <-. exists h. done.
  - rewrite lookup_insert_ne in Hb by done. exists h'. split; [done|]. by destruct h'.
Qed.

Lemma only_refs_delete pb a : only_refs pb (delete a pb).
Proof. intros b h' [_ Hb]%lookup_delete_Some. by apply only_refs_refl. Qed.

Section life.
Context (ar : arena) (Hao : arena_ok ar).

(** ** Release *)

Lemma buf_mod_at f a h s :
  bufs s !! a = Some h → buf_mod f a s = Ok (set_bufs (<[a := f h]> (bufs s)) s).
Proof. intros E. unfold buf_mod, buf_at. by rewrite E. Qed.

(** The handle on [a] is given up; [k] buffers go, [a] the first of them. *)
Lemma free_loop_spec self hs fuel : ∀ s a c,
  sound ar s (a :: hs) → (size (bufs s) < fuel)%nat →
  ∃ k s', free_loop fuel self (Some a) c s = Ok (if (k =? 0)%nat then c else u8 (c + Z.of_nat k), s') ∧
    sound ar s' hs ∧ (k = 0%nat ↔ is_Some (bufs s' !! a)) ∧ (k <= size (bufs s))%nat ∧
    only_refs (bufs s) (bufs s').
Proof.
  induction fuel as [|fuel IH]; intros s a c [Hc Hac] Hf; [lia|]. cbn [free_loop].
  destruct (co_held _ _ Hc a) as [h Ha]; [by left|]. unfold buf_at. rewrite Ha. cbn [oget mbind res_bind].
  destruct (co_ref _ _ Hc _ _ Ha) as [_ Hr]. unfold lwip_assert.
  rewrite (proj2 (Z.ltb_lt 0 (p_ref h))) by lia. cbn [mbind res_bind].
  rewrite (buf_mod_at _ _ h) by done. cbn [mbind res_bind]. rewrite wrapu_small by lia.
  destruct (Z.eqb_spec (p_ref h - 1) 0) as [E|E].
  - set (s1 := set_bufs _ s).
    assert (same_src (bufs s) (bufs s1)) as Hss by (by apply (same_src_insert _ _ h)).
    destruct (pbuf_dealloc_spec ar self a h (set_p_ref (p_ref h - 1) h) s1 Hao) as (s2 & -> & Hb2 & Hac2).
    { by apply accounted_same. }
    { apply lookup_insert_eq. }
    { done. }
    cbn [mbind res_bind]. assert (bufs s2 = delete a (bufs s)) as Hb2'.
    { rewrite Hb2. unfold s1. cbn [bufs set_bufs]. by rewrite delete_insert_eq. }
    pose proof (counted_gone _ _ _ _ Hc Ha ltac:(lia)) as Hc2. rewrite <- Hb2' in Hc2.
    assert (size (bufs s) = S (size (bufs s2))) as Hsz.
    { rewrite Hb2'. rewrite <- (insert_delete_id (bufs s) a h Ha) at 1.
      by rewrite map_size_insert_None by apply lookup_delete_eq. }
    destruct (p_next h) as [n|]; cbn [and_next] in Hc2.
    + destruct (IH s2 n (u8 (c + 1))) as (k & s' & HE & Hs' & Hk & Hkl & Hor); [by split|lia|].
      exists (S k), s'. rewrite HE. cbn [Nat.eqb]. split; [|split_and!; [done| |lia|]].
      * do 2 f_equal. destruct (k =? 0)%nat eqn:Ek.
        -- apply Nat.eqb_eq in Ek. subst k. done.
        -- unfold wrapu. rewrite Z.add_mod_idemp_l by done. f_equal. lia.
      * split; [done|]. intros [h' Hh']. exfalso. destruct (Hor _ _ Hh') as (? & Hx & _).
        rewrite Hb2', lookup_delete_eq in Hx. done.
      * eapply only_refs_trans; [|exact Hor]. rewrite Hb2'. apply only_refs_delete.
    + exists 1%nat, s2. split; [by destruct fuel|]. split_and!; [by split| |lia|rewrite Hb2'; apply only_refs_delete].
      rewrite Hb2', lookup_delete_eq. split; [intros [=]|intros [? [=]]].
  - eexists 0%nat, _. split; [done|]. split_and!; [|split; [|done]|lia|].
    + split; cbn [bufs set_bufs].
      * apply counted_drop; [done..|lia].
      * apply accounted_same; [done|]. by apply (same_src_insert _ _ h).
    + intros _. cbn [bufs set_bufs]. by rewrite lookup_insert_eq.
    + cbn [bufs set_bufs]. by apply only_refs_set.
Qed.

Lemma pbuf_free_spec self s a hs :
  sound ar s (a :: hs) →
  ∃ k s', pbuf_free self (Some a) s = Ok (u8 (Z.of_nat k), s') ∧
    sound ar s' hs ∧ (k = 0%nat ↔ is_Some (bufs s' !! a)) ∧ (k <= size (bufs s))%nat ∧
    only_refs (bufs s) (bufs s').
Proof.
  intros Hs. destruct (free_loop_spec self hs (chain_fuel (bufs s)) s a 0 Hs) as (k & s' & HE & HR).
  { unfold chain_fuel. lia. }
  exists k, s'. split; [|exact HR]. unfold pbuf_free. rewrite HE.
  destruct (k =? 0)%nat eqn:E; [|done]. apply Nat.eqb_eq in E. by subst k.
Qed.

(** ** Allocation *)

Lemma from_insert_other pb a h k0 k b :
  pb !! a = None → buf_src h = Some k0 → k ≠ k0 → from (<[a := h]> pb) k b ↔ from pb k b.
Proof. intros Ha Hs Hne. rewrite (from_insert _ _ _ k0) by done. naive_solver. Qed.

Lemma src_insert (pb : gmap Z pbuf) a h k :
  (∀ b h, pb !! b = Some h → is_Some (buf_src h)) → buf_src h = Some k →
  ∀ b h', <[a := h]> pb !! b = Some h' → is_Some (buf_src h').
Proof.
  intros Hall Hs b h'. destruct (decide (b = a)) as [->|].
  - rewrite lookup_insert_eq. intros [= <-]. eauto.
  - rewrite lookup_insert_ne by done. apply Hall.
Qed.

(** A pool gives an element that is no buffer yet, or none. *)
Lemma pool_takes d p out :
  desc_ok d → pool_inv d p out →
  (∃ a p', do_memp_malloc_pool p = Ok (Some a, p') ∧ a ∈ elements d ∧ a ∉ out ∧ pool_inv d p' (a :: out)) ∨
  (∃ p', do_memp_malloc_pool p = Ok (None, p') ∧ pool_inv d p' out).
Proof.
  intros Hd Hi. destruct (decide (length out < pd_num d)%nat) as [Hl|Hl].
  - left. by apply do_memp_malloc_gives.
  - right. pose proof (pool_inv_length _ _ _ Hi). eexists. split.
    + apply (do_memp_malloc_empty d p out Hi). lia.
    + by apply stats_fail_inv.
Qed.

Lemma alloc_from_pool s :
  accounted ar s →
  (∃ a pl, do_memp_malloc_pool (memp_pool s) = Ok (Some a, pl) ∧ bufs s !! a = None ∧
     ∀ h, buf_src h = Some SPool → accounted ar (set_bufs (<[a := h]> (bufs s)) (set_memp_pool pl s))) ∨
  (∃ pl, do_memp_malloc_pool (memp_pool s) = Ok (None, pl) ∧ accounted ar (set_memp_pool pl s)).
Proof.
  intros Hac. pose proof Hac as [(o1 & P1 & E1) (o2 & P2 & E2) (l & HI & E3) E4 E5 E6].
  destruct (pool_takes _ _ _ (ao_pool _ Hao) P1) as [(a & pl & HE & Hel & Hni & P1')|(pl & HE & P1')].
  - left. exists a, pl. split; [done|].
    assert (bufs s !! a = None) as Hfr.
    { apply (accounted_fresh ar s SPool a Hao Hac Hel). by rewrite <- E1. }
    split; [done|]. intros h Hs. split; cbn [bufs memp_pool memp_pbuf pheap custom_fn set_bufs set_memp_pool].
    + exists (a :: o1). split; [done|]. intros b. rewrite elem_of_cons, E1, (from_insert _ _ _ SPool) by done.
      naive_solver.
    + exists o2. split; [done|]. intros b. by rewrite (from_insert_other _ _ _ SPool).
    + exists l. split; [done|]. intros b. by rewrite (from_insert_other _ _ _ SPool).
    + done.
    + intros b. rewrite (from_insert_other _ _ _ SPool) by done. apply E5.
    + by apply (src_insert _ _ _ SPool).
  - right. exists pl. split; [done|]. split; [by exists o1|by exists o2|by exists l|done..].
Qed.

Lemma alloc_from_memp s :
  accounted ar s →
  (∃ a pl, do_memp_malloc_pool (memp_pbuf s) = Ok (Some a, pl) ∧ bufs s !! a = None ∧
     ∀ h, buf_src h = Some SRef → accounted ar (set_bufs (<[a := h]> (bufs s)) (set_memp_pbuf pl s))) ∨
  (∃ pl, do_memp_malloc_pool (memp_pbuf s) = Ok (None, pl) ∧ accounted ar (set_memp_pbuf pl s)).
Proof.
  intros Hac. pose proof Hac as [(o1 & P1 & E1) (o2 & P2 & E2) (l & HI & E3) E4 E5 E6].
  destruct (pool_takes _ _ _ (ao_ref _ Hao) P2) as [(a & pl & HE & Hel & Hni & P2')|(pl & HE & P2')].
  - left. exists a, pl. split; [done|].
    assert (bufs s !! a = None) as Hfr.
    { apply (accounted_fresh ar s SRef a Hao Hac Hel). by rewrite <- E2. }
    split; [done|]. intros h Hs. split; cbn [bufs memp_pool memp_pbuf pheap custom_fn set_bufs set_memp_pbuf].
    + exists o1. split; [done|]. intros b. by rewrite (from_insert_other _ _ _ SRef).
    + exists (a :: o2). split; [done|]. intros b. rewrite elem_of_cons, E2, (from_insert _ _ _ SRef) by done.
      naive_solver.
    + exists l. split; [done|]. intros b. by rewrite (from_insert_other _ _ _ SRef).
    + done.
    + intros b. rewrite (from_insert_other _ _ _ SRef) by done. apply E5.
    + by apply (src_insert _ _ _ SRef).
  - right. exists pl. split; [done|]. split; [by exists o1|by exists o2|by exists l|done..].
Qed.

Lemma alloc_from_heap `{Platform} self n s :
  accounted ar s → 0 <= n < 2 ^ 16 →
  (∃ a hp, mem_malloc self n (pheap s) = Ok (Some a, hp) ∧ bufs s !! a = None ∧
     ∀ h, buf_src h = Some SHeap → accounted ar (set_bufs (<[a := h]> (bufs s)) (set_pheap hp s))) ∨
  (∃ hp, mem_malloc self n (pheap s) = Ok (None, hp) ∧ accounted ar (set_pheap hp s)).
Proof.
  intros Hac Hn. pose proof Hac as [(o1 & P1 & E1) (o2 & P2 & E2) (l & HI & E3) E4 E5 E6].
  destruct (mem_malloc_spec self _ _ n HI Hn) as (r & hp & HE & (Hram & _) & Hout).
  rewrite HE. destruct r as [a|].
  - left. destruct Hout as (size & l1 & t & l2 & _ & -> & _ & _ & -> & HI').
    eexists _, hp. split; [reflexivity|]. rewrite E4. fold (block_addr ar (total l1)).
    assert (∀ b, b ∈ block_addr ar <$> useds 0 (l1 ++ taken size t ++ l2) ↔
      b = block_addr ar (total l1) ∨ b ∈ block_addr ar <$> useds 0 (l1 ++ Blk t false :: l2)) as Hmem.
    { intros b. rewrite !list_elem_of_fmap. setoid_rewrite useds_taken. naive_solver. }
    assert (bufs s !! block_addr ar (total l1) = None) as Hfr.
    { apply (accounted_fresh ar s SHeap _ Hao Hac).
      - apply (block_in_heap ar hp _ _ HI'). apply Hmem. by left.
      - rewrite <- E3. intros (x & Ex & Hx)%list_elem_of_fmap.
        assert (x = total l1) as -> by (unfold block_addr in Ex; lia).
        pose proof (lo_ok _ _ _ (hi_layout _ _ HI)) as [Hok1 [[Ht _] Hok2]%Forall_cons]%Forall_app.
        unfold SIZEOF_STRUCT_MEM, MIN_SIZE_ALIGNED in Ht. cbn [b_size] in Ht.
        rewrite useds_app in Hx. cbn [useds b_used b_size app] in Hx. apply elem_of_app in Hx as [Hx|Hx].
        + pose proof (useds_range _ _ _ Hok1 Hx). lia.
        + pose proof (useds_range _ _ _ Hok2 Hx). lia. }
    split; [done|]. intros h Hs. split; cbn [bufs memp_pool memp_pbuf pheap custom_fn set_bufs set_pheap].
    + exists o1. split; [done|]. intros b. by rewrite (from_insert_other _ _ _ SHeap).
    + exists o2. split; [done|]. intros b. by rewrite (from_insert_other _ _ _ SHeap).
    + eexists. split; [exact HI'|]. intros b. rewrite Hmem, E3, (from_insert _ _ _ SHeap) by done. naive_solver.
    + congruence.
    + intros b. rewrite (from_insert_other _ _ _ SHeap) by done. apply E5.
    + by apply (src_insert _ _ _ SHeap).
  - right. exists hp. split; [done|]. destruct Hout as [HI' _]. split; [by exists o1|by exists o2|by exists l|cbn; congruence|done..].
Qed.

(** A new buffer is the client's. *)
Lemma sound_new s1 s hs a h k :
  counted (bufs s) hs → bufs s !! a = None → buf_src h = Some k → p_next h = None → p_ref h = 1 →
  bufs s1 = <[a := h]> (bufs s) → accounted ar s1 → sound ar s1 (a :: hs).
Proof. intros Hc Ha Hs Hn Hr Hb Hac. split; [|done]. rewrite Hb. by apply counted_new. Qed.

Lemma accounted_ooseq s b n : accounted ar s → accounted ar (set_ooseq b n s).
Proof. by intros []. Qed.

Lemma sound_is_empty s hs cb : sound ar s hs → sound ar (pbuf_pool_is_empty cb s) hs.
Proof.
  intros [Hc Hac]. unfold pbuf_pool_is_empty. split.
  - by destruct (ooseq_pending s), cb.
  - destruct (ooseq_pending s); [|destruct cb]; by repeat apply accounted_ooseq.
Qed.

(** The room for data in a buffer of the pool, behind a header of up to 252 bytes. *)
Lemma pool_room off : 0 <= off <= 252 →
  4 <= PBUF_POOL_BUFSIZE_ALIGNED - LWIP_MEM_ALIGN_SIZE off <= 256.
Proof.
  intros Ho. destruct (LWIP_MEM_ALIGN_SIZE_spec off) as [H4 Hr]; [lia|].
  apply Z.mod_divide in H4 as [k Hk]; [|done]. unfold PBUF_POOL_BUFSIZE_ALIGNED. lia.
Qed.

(** What the client has of a chain that is being built: its head [p] and, without a
    reference, its end [last]. *)
Definition building (s : pbufs) (hs : list Z) (p last : option Z) : Prop :=
  match p with
  | None => sound ar s hs
  | Some hd => sound ar s (hd :: hs) ∧
      ∃ la hl, last = Some la ∧ bufs s !! la = Some hl ∧ p_next hl = None
  end.

Lemma building_link s hs p last q hq s1 :
  building s hs p last → bufs s !! q = None → buf_src hq = Some SPool →
  p_next hq = None → p_ref hq = 1 → bufs s1 = <[q := hq]> (bufs s) → accounted ar s1 →
  ∃ s2, match p, last with
        | None, _ => Ok s1
        | Some _, Some last => buf_mod (set_p_next (Some q)) last s1
        | Some _, None => Fault NullDeref
        end = Ok s2 ∧ building s2 hs (match p with None => Some q | Some _ => p end) (Some q).
Proof.
  intros Hb Hq Hs Hn Hr Hb1 Hac1. destruct p as [hd|]; cbn [building] in Hb.
  - destruct Hb as [[Hc Hac] (la & hl & -> & Hla & Hnl)].
    assert (la ≠ q) as Hne by congruence.
    pose proof (sound_new s1 s _ q hq SPool Hc Hq Hs Hn Hr Hb1 Hac1) as [Hc1 _].
    rewrite (buf_mod_at _ _ hl) by (rewrite Hb1, lookup_insert_ne; done).
    eexists. split; [reflexivity|]. cbn [building]. split.
    + assert (bufs s1 !! la = Some hl) as Hla1 by (by rewrite Hb1, lookup_insert_ne).
      split; cbn [bufs set_bufs].
      * apply (counted_link _ _ _ _ q [q]); [done..| |].
        -- econstructor; [by rewrite Hb1, lookup_insert_eq|]. rewrite Hn. constructor.
        -- by intros ->%list_elem_of_singleton.
      * apply accounted_same; [done|]. by apply (same_src_insert _ _ hl).
    + exists q, hq. split; [done|]. cbn [bufs set_bufs]. rewrite lookup_insert_ne by done.
      by rewrite Hb1, lookup_insert_eq.
  - exists s1. split; [done|]. cbn [building]. split.
    + destruct Hb as [Hc _]. by apply (sound_new s1 s hs q hq SPool).
    + exists q, hq. by rewrite Hb1, lookup_insert_eq.
Qed.

Section platform.
Context `{Platform}.

Lemma pool_loop_spec self cb hs fuel : ∀ p last rem off s,
  building s hs p last → 0 <= rem < 2 ^ 16 → 0 <= off <= 252 → (Z.to_nat rem < fuel)%nat →
  ∃ r s', pool_loop fuel self cb p last rem off s = Ok (r, s') ∧ sound ar s' (and_next r hs).
Proof.
  induction fuel as [|fuel IH]; intros p last rem off s Hb Hrem Hoff Hf; [lia|]. cbn [pool_loop].
  assert (accounted ar s) as Hac by (destruct p; [destruct Hb as [[_ ?] _]|destruct Hb]; done).
  pose proof (pool_room off Hoff) as Hroom.
  destruct (alloc_from_pool s Hac) as [(q & pl & -> & Hq & Hnew)|(pl & -> & Hac')]; cbn [mbind res_bind].
  - set (pay := LWIP_MEM_ALIGN _). set (room := PBUF_POOL_BUFSIZE_ALIGNED - _) in *.
    rewrite (wrapu_small 16 room) by lia. set (qlen := Z.min rem room).
    unfold lwip_assert.
    assert (pay mod MEM_ALIGNMENT = 0) as -> by apply LWIP_MEM_ALIGN_spec. rewrite Z.eqb_refl.
    rewrite (wrapu_small 32 room), (proj2 (Z.ltb_lt 0 room)) by lia. cbn [mbind res_bind].
    destruct (building_link s hs p last q (Pbuf None pay rem qlen (u8 PBUF_POOL) 0 1 0)
      (pbuf_init_alloced_pbuf q pay rem qlen PBUF_POOL 0 (set_memp_pool pl s)))
      as (s2 & -> & Hb2); [done..|by apply Hnew|].
    cbn [mbind res_bind]. assert (0 <= qlen <= rem) by lia. rewrite (wrapu_small 16 (rem - qlen)) by lia.
    destruct (Z.ltb_spec 0 (rem - qlen)).
    + apply IH; [by destruct p|lia..].
    + destruct p as [hd|]; cbn [building] in Hb2; destruct Hb2 as [Hs2 _]; eauto.
  - destruct p as [hd|]; cbn [building] in Hb.
    + destruct Hb as [[Hc _] _].
      destruct (pbuf_free_spec self (pbuf_pool_is_empty cb (set_memp_pool pl s)) hd hs) as (k & s' & -> & Hs' & _).
      { by apply sound_is_empty. }
      cbn [mbind res_bind]. exists None, s'. done.
    + exists None. eexists. split; [reflexivity|]. destruct Hb. by apply sound_is_empty.
Qed.

Lemma pbuf_alloc_reference_spec s hs payload len type :
  sound ar s hs → type = PBUF_REF ∨ type = PBUF_ROM →
  ∃ r s', pbuf_alloc_reference payload len type s = Ok (r, s') ∧ sound ar s' (and_next r hs).
Proof.
  intros [Hc Hac] Ht. unfold pbuf_alloc_reference, lwip_assert.
  assert ((type =? PBUF_REF) || (type =? PBUF_ROM) = true) as ->.
  { destruct Ht as [-> | ->]; done. }
  cbn [mbind res_bind].
  destruct (alloc_from_memp s Hac) as [(a & pl & -> & Ha & Hnew)|(pl & -> & Hac')]; cbn [mbind res_bind].
  - eexists _, _. split; [reflexivity|]. cbn [and_next].
    assert (buf_src (Pbuf None payload len len (u8 type) 0 1 0) = Some SRef) as Hs.
    { destruct Ht as [-> | ->]; done. }
    eapply (sound_new _ (set_memp_pbuf pl s) _ _ _ SRef Hc Ha); [| | |reflexivity|]; [done..|by apply Hnew].
  - eexists _, _. split; [reflexivity|]. by split.
Qed.

Lemma alloc_ram_spec self s hs off len :
  sound ar s hs → 0 <= off <= 252 → 0 <= len < 2 ^ 16 →
  ∃ r s', alloc_ram self off len s = Ok (r, s') ∧ sound ar s' (and_next r hs).
Proof.
  intros [Hc Hac] Ho Hl. unfold alloc_ram.
  set (payload_len := u16 _). set (alloc_len := u16 (_ + payload_len)).
  destruct (_ || _); [by exists None, s|].
  pose proof (wrapu_range 16 (LWIP_MEM_ALIGN_SIZE SIZEOF_STRUCT_PBUF + payload_len) ltac:(lia)).
  destruct (alloc_from_heap self alloc_len s Hac) as [(a & hp & -> & Ha & Hnew)|(hp & -> & Hac')];
    [done|cbn [mbind res_bind]..].
  - unfold lwip_assert. rewrite (proj1 (LWIP_MEM_ALIGN_spec _)), Z.eqb_refl. cbn [mbind res_bind].
    eexists _, _. split; [reflexivity|]. cbn [and_next].
    eapply (sound_new _ (set_pheap hp s) _ _ _ SHeap Hc Ha); [| | |reflexivity|]; [done..|by apply Hnew].
  - eexists _, _. split; [reflexivity|]. by split.
Qed.

Definition alloc_type (type : Z) : Prop := type ∈ [PBUF_RAM; PBUF_ROM; PBUF_REF; PBUF_POOL].

Lemma pbuf_alloc_spec self cb layer len type s hs :
  sound ar s hs → 0 <= layer <= 252 → 0 <= len < 2 ^ 16 → alloc_type type →
  ∃ r s', pbuf_alloc self cb layer len type s = Ok (r, s') ∧ sound ar s' (and_next r hs).
Proof.
  intros Hs Hlay Hlen Ht. unfold pbuf_alloc. rewrite wrapu_small by lia.
  unfold alloc_type in Ht. rewrite !elem_of_cons, elem_of_nil in Ht.
  destruct Ht as [->|[->|[->|[->|[]]]]].
  - exact (alloc_ram_spec self s hs layer len Hs Hlay Hlen).
  - exact (pbuf_alloc_reference_spec s hs 0 len PBUF_ROM Hs (or_intror eq_refl)).
  - exact (pbuf_alloc_reference_spec s hs 0 len PBUF_REF Hs (or_introl eq_refl)).
  - exact (pool_loop_spec self cb hs (S (Z.to_nat len)) None None len layer s Hs Hlen Hlay (Nat.lt_succ_diag_r _)).
Qed.
End platform.

Lemma pbuf_alloced_custom_spec l len type p mem mlen s hs :
  sound ar s hs → bufs s !! p = None → is_Some (custom_fn s !! p) → in_place ar SCustom p →
  sound ar (pbuf_alloced_custom l len type p mem mlen s).2
    (and_next (pbuf_alloced_custom l len type p mem mlen s).1 hs).
Proof.
  intros [Hc Hac] Hp Hf Hpl. unfold pbuf_alloced_custom. destruct (_ <? _); [done|].
  cbn [fst snd and_next]. unfold pbuf_init_alloced_pbuf.
  set (h := Pbuf _ _ _ _ _ PBUF_FLAG_IS_CUSTOM _ _).
  assert (buf_src h = Some SCustom) as Hs by done.
  apply (sound_new _ s hs p h SCustom); try done.
  pose proof Hac as [(o1 & P1 & E1) (o2 & P2 & E2) (hl & HI & E3) E4 E5 E6].
  split; cbn [bufs memp_pool memp_pbuf pheap custom_fn set_bufs].
  - exists o1. split; [done|]. intros b. by rewrite (from_insert_other _ _ _ SCustom).
  - exists o2. split; [done|]. intros b. by rewrite (from_insert_other _ _ _ SCustom).
  - exists hl. split; [done|]. intros b. by rewrite (from_insert_other _ _ _ SCustom).
  - done.
  - intros b. rewrite (from_insert _ _ _ SCustom) by done. intros [[-> _]|Hb]; [done|by apply E5].
  - by apply (src_insert _ _ _ SCustom).
Qed.

(** ** Linking and taking apart *)

Lemma pbuf_ref_sound s hs a h :
  sound ar s hs → bufs s !! a = Some h → p_ref h < 255 →
  ∃ pb, pbuf_ref (bufs s) (Some a) = Ok pb ∧ sound ar (set_bufs pb s) (a :: hs).
Proof.
  intros [Hc Hac] Ha Hr. destruct (co_ref _ _ Hc _ _ Ha) as [_ Hr']. unfold pbuf_ref. rewrite Ha.
  cbn [oget mbind res_bind]. rewrite wrapu_small by lia. unfold lwip_assert.
  rewrite (proj2 (Z.ltb_lt _ _)) by lia. cbn [mbind res_bind]. eexists. split; [reflexivity|]. split.
  - by apply counted_ref.
  - apply accounted_same; [done|]. by apply (same_src_insert _ _ h).
Qed.

(** The end of a chain. *)
Fixpoint last_of (fuel : nat) (pb : gmap Z pbuf) (a : Z) : option (Z * pbuf) :=
  match fuel with
  | O => None
  | S fuel =>
      h ← pb !! a;
      match p_next h with None => Some (a, h) | Some n => last_of fuel pb n end
  end.

Lemma last_of_chain pb fuel : ∀ a l z h,
  bchain pb (Some a) l → last_of fuel pb a = Some (z, h) →
  last l = Some z ∧ pb !! z = Some h ∧ p_next h = None.
Proof.
  induction fuel as [|fuel IH]; intros a l z h Hc; cbn [last_of]; [done|].
  inversion Hc as [|? h' l' Ha Hc']; subst. rewrite Ha. cbn [mbind option_bind].
  destruct (p_next h') as [n|] eqn:En.
  - intros Hl. destruct (IH n l' z h Hc' Hl) as (H1 & H2 & H3). split; [|done].
    inversion Hc'; subst. done.
  - intros [= <- <-]. inversion Hc'; subst. done.
Qed.

(** Only chains with the same end meet. *)
Lemma end_last pb p l z h :
  bchain pb p l → z ∈ l → pb !! z = Some h → p_next h = None → last l = Some z.
Proof.
  intros Hc (l1 & l2 & ->)%list_elem_of_split Hz Hn. pose proof (bchain_suffix _ _ _ _ _ Hc) as Hs.
  inversion Hs as [|? h' l' Hz' Hc']; subst. rewrite Hz in Hz'. injection Hz' as <-.
  rewrite Hn in Hc'. inversion Hc'; subst. by rewrite last_snoc.
Qed.

Lemma cat_loop_sound hs t lt z hz fuel : ∀ pb p lp,
  counted pb (t :: hs) → bchain pb (Some p) lp → (length lp <= fuel)%nat → last lp = Some z →
  pb !! z = Some hz → p_next hz = None → p_tot_len hz = p_len hz → bchain pb (Some t) lt → z ∉ lt →
  ∃ pb', cat_loop fuel pb p t = Ok pb' ∧ counted pb' hs ∧ same_src pb pb'.
Proof.
  induction fuel as [|fuel IH]; intros pb p lp Hc Hp Hf Hl Hz Hnz Htz Ht Hni;
    inversion Hp as [|? h l' Hh Hp']; subst; cbn [length] in Hf; [lia|]. cbn [cat_loop].
  rewrite Hh. cbn [oget mbind res_bind].
  destruct (co_held _ _ Hc t) as [ht Hht]; [by left|]. rewrite Hht. cbn [oget mbind res_bind].
  set (h' := set_p_tot _ h).
  assert (counted (<[p := h']> pb) (t :: hs)) as Hc1 by (by apply (counted_field pb _ p h)).
  assert (same_src pb (<[p := h']> pb)) as Hs1 by (by apply (same_src_insert pb p h)).
  assert (∀ q l, bchain pb q l → bchain (<[p := h']> pb) q l) as Hfr.
  { intros q l Hq. eapply bchain_frame; [done|]. intros b _. by apply (next_frame pb p h). }
  destruct (p_next h) as [n|] eqn:En.
  - assert (p ≠ z) as Hne by congruence.
    assert (last l' = Some z) as Hl' by (inversion Hp'; subst; done).
    destruct (IH (<[p := h']> pb) n l') as (pb' & HE & Hc' & Hs'); try done.
    + by apply Hfr.
    + lia.
    + by rewrite lookup_insert_ne.
    + by apply Hfr.
    + exists pb'. split_and!; [done..|]. by eapply same_src_trans.
  - assert (l' = []) as -> by (by inversion Hp'). injection Hl as ->.
    assert (h = hz) as -> by congruence. unfold lwip_assert. rewrite Htz, Z.eqb_refl.
    cbn [mbind res_bind]. eexists. split; [reflexivity|].
    rewrite <- (insert_insert_eq pb z (set_p_next (Some t) h') h'). split.
    + apply (counted_link _ _ z h' t lt); [done|by rewrite lookup_insert_eq|done|by apply Hfr|done].
    + eapply same_src_trans; [exact Hs1|]. apply (same_src_insert _ _ h'); [apply lookup_insert_eq|done].
Qed.

Lemma pbuf_cat_sound s hs h t z hz zt hzt :
  sound ar s (t :: hs) → h ∈ hs → h ≠ t → last_of (chain_fuel (bufs s)) (bufs s) h = Some (z, hz) →
  last_of (chain_fuel (bufs s)) (bufs s) t = Some (zt, hzt) → z ≠ zt → p_tot_len hz = p_len hz →
  ∃ pb, pbuf_cat (bufs s) (Some h) (Some t) = Ok pb ∧ sound ar (set_bufs pb s) hs.
Proof.
  intros [Hc Hac] Hin Hne Hl1 Hl2 Hz Htz. unfold pbuf_cat, lwip_assert.
  rewrite (proj2 (Z.eqb_neq h t)) by done. cbn [negb mbind res_bind].
  destruct (co_chain _ _ Hc h) as [lh Hlh]; [apply (co_held _ _ Hc); by right|].
  destruct (co_chain _ _ Hc t) as [lt Hlt]; [apply (co_held _ _ Hc); by left|].
  destruct (last_of_chain _ _ _ _ _ _ Hlh Hl1) as (H1 & H2 & H3).
  destruct (last_of_chain _ _ _ _ _ _ Hlt Hl2) as (G1 & G2 & G3).
  destruct (cat_loop_sound hs t lt z hz (chain_fuel (bufs s)) (bufs s) h lh) as (pb & HE & Hc' & Hs'); try done.
  - unfold chain_fuel. pose proof (bchain_length _ _ _ Hlh). lia.
  - intros Hzin. pose proof (end_last _ _ _ _ _ Hlt Hzin H2 H3). congruence.
  - exists pb. split; [done|]. split; [done|]. by apply accounted_same.
Qed.

Lemma pbuf_dechain_sound `{Platform} self s hs p h :
  sound ar s hs → p ∈ hs → bufs s !! p = Some h → Z.of_nat (size (bufs s)) < 256 →
  match p_next h with
  | None => p_tot_len h = p_len h
  | Some q => p_tot_len <$> bufs s !! q = Some (p_tot_len h - p_len h)
  end →
  ∃ r s', pbuf_dechain self p s = Ok (r, s') ∧ sound ar s' hs ∧
    ∀ q, r = Some q → is_Some (bufs s' !! q).
Proof.
  intros [Hc Hac] Hin Hp Hsz Htot. unfold pbuf_dechain, buf_at. rewrite Hp. cbn [oget mbind res_bind].
  unfold lwip_assert. destruct (p_next h) as [q|] eqn:En; cycle 1.
  { rewrite Htot, Z.eqb_refl. cbn [mbind res_bind]. exists None, s. split_and!; [done|by split|done]. }
  destruct (bufs s !! q) as [hq|] eqn:Hq; [|done]. cbn in Htot. injection Htot as Htot.
  cbn [oget mbind res_bind]. rewrite Htot, Z.eqb_refl. cbn [mbind res_bind].
  rewrite (buf_mod_at _ q hq) by done. cbn [mbind res_bind]. set (hq' := set_p_tot _ hq).
  assert (q ≠ p) as Hqp.
  { intros ->. destruct (co_chain _ _ Hc p) as [l Hl]; [eauto|].
    pose proof (bchain_NoDup _ _ _ Hl) as Hnd. inversion Hl as [|? h' l' Hp' Hl']; subst.
    assert (h' = h) as -> by congruence. rewrite En in Hl'. inversion Hl'; subst.
    apply NoDup_cons in Hnd as [Hni _]. apply Hni. by left. }
  rewrite (buf_mod_at _ p h) by (cbn [bufs set_bufs]; by rewrite lookup_insert_ne).
  cbn [mbind res_bind]. set (s2 := set_bufs _ _). set (h' := set_p_next None (set_p_tot (p_len h) h)) in *.
  assert (sound ar s2 (q :: hs)) as Hs2.
  { assert (counted (<[q := hq']> (bufs s)) hs) as Hc1 by (by apply (counted_field _ _ q hq)).
    split.
    - unfold s2. cbn [bufs set_bufs]. apply (counted_unlink _ _ p h h' q); [done| |done..].
      by rewrite lookup_insert_ne.
    - unfold s2. apply accounted_same; [|].
      + apply accounted_same; [done|]. by apply (same_src_insert _ _ hq).
      + cbn [bufs set_bufs]. apply (same_src_insert _ _ h); [by rewrite lookup_insert_ne|done]. }
  destruct (pbuf_free_spec self s2 q hs Hs2) as (k & s3 & -> & Hs3 & Hk & Hkl & Hor).
  cbn [mbind res_bind].
  assert (size (bufs s2) = size (bufs s)) as Hsz2.
  { unfold s2. cbn [bufs set_bufs]. rewrite !map_size_insert_Some; [done|eauto|].
    rewrite lookup_insert_ne by done. eauto. }
  rewrite wrapu_small by lia.
  destruct Hs3 as [Hc3 Hac3]. destruct (co_held _ _ Hc3 p Hin) as [h3 Hp3]. rewrite Hp3.
  cbn [oget mbind res_bind]. destruct (Hor _ _ Hp3) as (h2 & Hp2 & E3).
  unfold s2 in Hp2. cbn [bufs set_bufs] in Hp2. rewrite lookup_insert_eq in Hp2. injection Hp2 as <-.
  rewrite E3. cbn. rewrite Z.eqb_refl. cbn [mbind res_bind]. eexists _, s3. split; [reflexivity|].
  split; [by split|]. destruct (Z.ltb_spec 0 (Z.of_nat k)); intros q' [= <-]. apply Hk. lia.
Qed.
End life.

(** ** The calls of clients *)

Inductive lop : Type :=
  | LAlloc (self : Z) (cb : bool) (layer len type : Z)
  | LRefer (payload len type : Z)
  | LCustom (l len type p : Z) (mem : option Z) (mlen : Z)
  | LRef (a : Z)
  | LFree (self a : Z)
  | LCat (h t : Z)
  | LChain (h t : Z)
  | LDechain (self p : Z).

#[global] Instance in_heap_dec ar a : Decision (in_heap ar a).
Proof. unfold in_heap. apply _. Defined.

#[global] Instance in_custom_dec ar a : Decision (in_place ar SCustom a).
Proof. cbn [in_place]. apply _. Defined.

#[global] Instance alloc_type_dec t : Decision (alloc_type t).
Proof. unfold alloc_type. apply _. Defined.

(** Both chains have an end of their own, and that of the first closes a packet. *)
Definition may_cat (pb : gmap Z pbuf) (h t : Z) : bool :=
  match last_of (chain_fuel pb) pb h, last_of (chain_fuel pb) pb t with
  | Some (z, hz), Some (zt, _) => negb (z =? zt) && (p_tot_len hz =? p_len hz)
  | _, _ => false
  end.

(** The total length is as the chain says. *)
Definition may_dechain (pb : gmap Z pbuf) (h : pbuf) : bool :=
  (Z.of_nat (size pb) <? 256) &&
  match p_next h with
  | None => p_tot_len h =? p_len h
  | Some q => bool_decide (p_tot_len <$> pb !! q = Some (p_tot_len h - p_len h))
  end.

(** One handle less. *)
Fixpoint remove1 (a : Z) (hs : list Z) : option (list Z) :=
  match hs with
  | [] => None
  | x :: hs => if x =? a then Some hs else cons x <$> remove1 a hs
  end.

Lemma remove1_perm a hs hs' : remove1 a hs = Some hs' → hs ≡ₚ a :: hs'.
Proof.
  revert hs'. induction hs as [|x hs IH]; intros hs'; cbn [remove1]; [done|].
  destruct (Z.eqb_spec x a) as [->|]; [by intros [= ->]|].
  intros (l & Hl & ->)%fmap_Some. rewrite (IH _ Hl). apply Permutation_swap.
Qed.

(** Concatenation leaves the counts alone. *)
Lemma refs_insert (pb : gmap Z pbuf) p hp hp' b h :
  pb !! p = Some hp → p_ref hp' = p_ref hp → pb !! b = Some h →
  ∃ h', <[p := hp']> pb !! b = Some h' ∧ p_ref h' = p_ref h.
Proof.
  intros Hp Er Hb. destruct (decide (b = p)) as [->|].
  - exists hp'. rewrite lookup_insert_eq. split; congruence.
  - exists h. by rewrite lookup_insert_ne.
Qed.

Lemma cat_loop_refs fuel : ∀ pb p t pb' b h,
  cat_loop fuel pb p t = Ok pb' → pb !! b = Some h → ∃ h', pb' !! b = Some h' ∧ p_ref h' = p_ref h.
Proof.
  induction fuel as [|fuel IH]; intros pb p t pb' b h; cbn [cat_loop]; [done|].
  destruct (pb !! p) as [hp|] eqn:Hp; cbn [oget mbind res_bind]; [|done].
  destruct (pb !! t) as [ht|]; cbn [oget mbind res_bind]; [|done].
  set (hp' := set_p_tot _ hp). destruct (p_next hp) as [n|].
  - intros HE Hb. destruct (refs_insert pb p hp hp' b h Hp eq_refl Hb) as (h1 & G1 & G2).
    destruct (IH _ _ _ _ _ _ HE G1) as (h' & ? & ?). exists h'. split; [done|congruence].
  - destruct (lwip_assert _); cbn [mbind res_bind]; [|done]. intros [= <-] Hb.
    by apply (refs_insert pb p hp).
Qed.

Lemma cat_keeps pb h t pb' b hb :
  pbuf_cat pb (Some h) (Some t) = Ok pb' → pb !! b = Some hb →
  ∃ hb', pb' !! b = Some hb' ∧ p_ref hb' = p_ref hb.
Proof.
  unfold pbuf_cat. destruct (lwip_assert _); cbn [mbind res_bind]; [|done]. apply cat_loop_refs.
Qed.

(** [None]: not a call a client may make; otherwise what the code does, with the
    handles afterwards. *)
Definition lstep `{Platform} (ar : arena) (op : lop) (s : pbufs) (hs : list Z)
    : option (res (pbufs * list Z)) :=
  match op with
  | LAlloc self cb layer len type =>
      if bool_decide (0 <= layer <= 252 ∧ 0 <= len < 2 ^ 16 ∧ alloc_type type) then
        Some ('(r, s) ← pbuf_alloc self cb layer len type s; Ok (s, and_next r hs))
      else None
  | LRefer payload len type =>
      if bool_decide (type = PBUF_REF ∨ type = PBUF_ROM) then
        Some ('(r, s) ← pbuf_alloc_reference payload len type s; Ok (s, and_next r hs))
      else None
  | LCustom l len type p mem mlen =>
      if bool_decide (bufs s !! p = None ∧ is_Some (custom_fn s !! p) ∧ in_place ar SCustom p) then
        let '(r, s) := pbuf_alloced_custom l len type p mem mlen s in Some (Ok (s, and_next r hs))
      else None
  | LRef a =>
      h ← bufs s !! a;
      if bool_decide (a ∈ hs) && (p_ref h <? 255) then
        Some (pb ← pbuf_ref (bufs s) (Some a); Ok (set_bufs pb s, a :: hs))
      else None
  | LFree self a =>
      hs' ← remove1 a hs;
      Some ('(_, s) ← pbuf_free self (Some a) s; Ok (s, hs'))
  | LCat h t =>
      hs' ← remove1 t hs;
      if bool_decide (h ∈ hs' ∧ h ≠ t) && may_cat (bufs s) h t then
        Some (pb ← pbuf_cat (bufs s) (Some h) (Some t); Ok (set_bufs pb s, hs'))
      else None
  | LChain h t =>
      hs' ← remove1 t hs;
      ht ← bufs s !! t;
      if bool_decide (h ∈ hs' ∧ h ≠ t) && may_cat (bufs s) h t && (p_ref ht <? 255) then
        Some (pb ← pbuf_chain (bufs s) (Some h) (Some t); Ok (set_bufs pb s, t :: hs'))
      else None
  | LDechain self p =>
      h ← bufs s !! p;
      if bool_decide (p ∈ hs) && may_dechain (bufs s) h then
        Some ('(_, s) ← pbuf_dechain self p s; Ok (s, hs))
      else None
  end.

Fixpoint lrun `{Platform} (ar : arena) (ops : list lop) (s : pbufs) (hs : list Z)
    : option (res (pbufs * list Z)) :=
  match ops with
  | [] => Some (Ok (s, hs))
  | op :: ops =>
      r ← lstep ar op s hs;
      match r with
      | Ok (s, hs) => lrun ar ops s hs
      | Fault e => Some (Fault e)
      end
  end.

(** At the start: no buffers, all pools and the heap free; [cf]: the functions for
    custom buffers. *)
Definition pbufs_init (ar : arena) (hp : lheap) (cf : gmap Z Z) : pbufs :=
  PBufs ∅ hp (memp_init_pool (ar_ref ar)) (memp_init_pool (ar_pool ar)) cf [] false 0.

Lemma pbufs_init_sound ar hp cf :
  arena_ok ar → ram hp = ar_ram ar → heap_inv hp whole_heap → sound ar (pbufs_init ar hp cf) [].
Proof.
  intros Hao Hr HI. split.
  - split; cbn [bufs pbufs_init].
    + intros a h. by rewrite lookup_empty.
    + intros a. rewrite lookup_empty. by intros [].
    + intros a Ha. by apply elem_of_nil in Ha.
  - assert (∀ k a, ¬ from ∅ k a) as Hno by (intros k a (h & Ha & _); by rewrite lookup_empty in Ha).
    split; cbn [bufs memp_pool memp_pbuf pheap custom_fn pbufs_init].
    + exists []. split; [by apply memp_init_pool_inv, Hao|]. intros a. rewrite elem_of_nil.
      split; [done|]. intros Hf. by apply Hno in Hf.
    + exists []. split; [by apply memp_init_pool_inv, Hao|]. intros a. rewrite elem_of_nil.
      split; [done|]. intros Hf. by apply Hno in Hf.
    + exists whole_heap. split; [done|]. intros a. cbn. rewrite elem_of_nil.
      split; [done|]. intros Hf. by apply Hno in Hf.
    + done.
    + intros a Hf. by apply Hno in Hf.
    + intros a h. by rewrite lookup_empty.
Qed.

Lemma cat_allowed ar s hs h t :
  sound ar s (t :: hs) → h ∈ hs → h ≠ t → may_cat (bufs s) h t = true →
  ∃ pb, pbuf_cat (bufs s) (Some h) (Some t) = Ok pb ∧ sound ar (set_bufs pb s) hs.
Proof.
  intros Hs Hin Hne Hm. unfold may_cat in Hm.
  destruct (last_of _ _ h) as [[z hz]|] eqn:E1; [|done].
  destruct (last_of _ _ t) as [[zt hzt]|] eqn:E2; [|done].
  apply andb_true_iff in Hm as [H1%negb_true_iff%Z.eqb_neq H2%Z.eqb_eq].
  by apply (pbuf_cat_sound ar s hs h t z hz zt hzt).
Qed.

Section session.
Context `{Platform} (ar : arena) (Hao : arena_ok ar).

Lemma lstep_sound op s hs r :
  sound ar s hs → lstep ar op s hs = Some r → ∃ s' hs', r = Ok (s', hs') ∧ sound ar s' hs'.
Proof.
  intros Hs. destruct op as [self cb layer len type|payload len type|l len type p mem mlen|a|self a|h t|h t|self p];
    cbn [lstep].
  - case_bool_decide as HA; [|done]. intros [= <-]. destruct HA as (A1 & A2 & A3).
    destruct (pbuf_alloc_spec ar Hao self cb layer len type s hs Hs A1 A2 A3) as (q & s' & -> & Hs'). eauto.
  - case_bool_decide as HA; [|done]. intros [= <-].
    destruct (pbuf_alloc_reference_spec ar Hao s hs payload len type Hs HA) as (q & s' & -> & Hs'). eauto.
  - case_bool_decide as HA; [|done]. destruct HA as (A1 & A2 & A3).
    pose proof (pbuf_alloced_custom_spec ar l len type p mem mlen s hs Hs A1 A2 A3) as Hs'.
    destruct (pbuf_alloced_custom _ _ _ _ _ _ _) as [q s']. intros [= <-]. eauto.
  - intros (h & Ha & HE)%bind_Some. destruct (_ && _) eqn:E; [|done]. apply (inj Some) in HE as <-.
    apply andb_true_iff in E as [_ E%Z.ltb_lt].
    destruct (pbuf_ref_sound ar s hs a h Hs Ha E) as (pb & -> & Hs'). eauto.
  - intros (hs' & Hr%remove1_perm & HE)%bind_Some. apply (inj Some) in HE as <-.
    destruct (pbuf_free_spec ar Hao self s a hs') as (k & s' & -> & Hs' & _); [by eapply sound_perm|]. eauto.
  - intros (hs' & Hr%remove1_perm & HE)%bind_Some. destruct (_ && _) eqn:E; [|done]. apply (inj Some) in HE as <-.
    apply andb_true_iff in E as [[E1 E2]%bool_decide_eq_true E3].
    destruct (cat_allowed ar s hs' h t) as (pb & -> & Hs'); [by eapply sound_perm|done..|]. eauto.
  - intros (hs' & Hr%remove1_perm & (ht & Ht & HE)%bind_Some)%bind_Some.
    destruct (_ && _) eqn:E; [|done]. apply (inj Some) in HE as <-.
    apply andb_true_iff in E as [[[E1 E2]%bool_decide_eq_true E3]%andb_true_iff E4%Z.ltb_lt].
    destruct (cat_allowed ar s hs' h t) as (pb & Hcat & Hs'); [by eapply sound_perm|done..|].
    unfold pbuf_chain. rewrite Hcat. cbn [mbind res_bind].
    destruct (cat_keeps (bufs s) h t pb t ht Hcat Ht) as (ht' & Ht' & Er).
    destruct (pbuf_ref_sound ar (set_bufs pb s) hs' t ht' Hs' Ht') as (pb' & HE & Hs''); [by rewrite Er|].
    cbn [bufs set_bufs] in HE. rewrite HE. eauto.
  - intros (h & Hp & HE)%bind_Some. destruct (_ && _) eqn:E; [|done]. apply (inj Some) in HE as <-.
    apply andb_true_iff in E as [E1%bool_decide_eq_true E2]. unfold may_dechain in E2.
    apply andb_true_iff in E2 as [E2%Z.ltb_lt E3].
    destruct (pbuf_dechain_sound ar Hao self s hs p h Hs E1 Hp E2) as (q & s' & -> & Hs' & _); [|eauto].
    destruct (p_next h); [by apply bool_decide_eq_true in E3|by apply Z.eqb_eq].
Qed.

Lemma lrun_sound ops : ∀ s hs r,
  sound ar s hs → lrun ar ops s hs = Some r → ∃ s' hs', r = Ok (s', hs') ∧ sound ar s' hs'.
Proof.
  induction ops as [|op ops IH]; intros s hs r Hs; cbn [lrun].
  - intros [= <-]. eauto.
  - intros (r1 & H1 & H2)%bind_Some. destruct (lstep_sound _ _ _ _ Hs H1) as (s1 & hs1 & -> & Hs1). eauto.
Qed.

(** C5 (safety).  Packet buffers are counted right.  Clients that use and give up only
    what they have handles on never meet a buffer that is gone, release one twice or
    run into an assertion, whatever they allocate from pools and heap, share, chain
    and take apart; a buffer with a handle is there; and when the last handle is gone
    no buffer is left: both pools have all their elements again and the heap is one
    free block. *)
Theorem pbuf_life heap cf ops r :
  ar_ram ar = LWIP_MEM_ALIGN heap →
  (hp ← mem_init heap true; Ok (lrun ar ops (pbufs_init ar hp cf) [])) = Ok (Some r) →
  ∃ s hs, r = Ok (s, hs) ∧ (∀ a, a ∈ hs → is_Some (bufs s !! a)) ∧
    (hs = [] → bufs s = ∅ ∧ pool_inv (ar_pool ar) (memp_pool s) [] ∧
       pool_inv (ar_ref ar) (memp_pbuf s) [] ∧ heap_inv (pheap s) whole_heap).
Proof.
  intros Hr. destruct (mem_init_inv heap) as (hp & -> & Hram & HI). cbn [mbind res_bind]. intros [= Hrun].
  destruct (lrun_sound _ _ _ _ (pbufs_init_sound ar hp cf Hao ltac:(congruence) HI) Hrun)
    as (s & hs & -> & [Hc Hac]).
  exists s, hs. split; [done|]. split; [apply (co_held _ _ Hc)|]. intros ->.
  pose proof (counted_nil _ Hc) as Hempty. split; [done|].
  destruct Hac as [(o1 & P1 & E1) (o2 & P2 & E2) (l & HI' & E3) _ _ _].
  assert (∀ k a, ¬ from (bufs s) k a) as Hno.
  { rewrite Hempty. intros k a (h & Ha & _). by rewrite lookup_empty in Ha. }
  assert (o1 = []) as -> by (apply elem_of_nil_inv; intros a Ha%E1; by apply Hno in Ha).
  assert (o2 = []) as -> by (apply elem_of_nil_inv; intros a Ha%E2; by apply Hno in Ha).
  split_and!; [done..|]. rewrite <- (all_free_whole _ _ HI'); [done|]. apply (useds_nil 0).
  assert (block_addr ar <$> useds 0 l = []) as Hn
    by (apply elem_of_nil_inv; intros a Ha%E3; by apply Hno in Ha).
  by apply fmap_nil_inv in Hn.
Qed.
End session.

(** Two pools of three and two elements beside the heap. *)
Definition demo_arena : arena := Arena (MempDesc 280 3 20000) (MempDesc 24 2 30000) 4096.

Lemma demo_arena_ok : arena_ok demo_arena.
Proof.
  split; [by vm_compute|by vm_compute| |].
  - intros a. vm_compute (elements _). rewrite !elem_of_cons, !elem_of_nil. lia.
  - intros a. vm_compute (elements _). unfold in_heap. rewrite !elem_of_cons, !elem_of_nil.
    unfold SIZEOF_STRUCT_MEM, MEM_SIZE_ALIGNED. simpl. lia.
Qed.

Definition demo_calls : list lop :=
  [LAlloc 1 true 0 600 PBUF_POOL; LAlloc 1 true 14 100 PBUF_RAM; LRefer 50000 10 PBUF_REF;
   LCustom 0 20 PBUF_ROM 40000 (Some 50000) 64; LRef 30024; LCat 4104 20560; LCat 4104 30024;
   LChain 40000 4104; LAlloc 2 true 0 300 PBUF_POOL; LFree 1 4104; LDechain 1 40000; LFree 2 40000;
   LFree 1 30024].

Lemma pbuf_life_witness : ∃ s hs,
  (hp ← mem_init 4096 true; Ok (@lrun linux64 demo_arena demo_calls (pbufs_init demo_arena hp {[ 40000 := 7 ]}) [])) =
    Ok (Some (Ok (s, hs))) ∧ hs = [] ∧ custom_calls s = [(7, 40000)] ∧
  ∃ s' hs', @Ok (pbufs * list Z) (s, hs) = Ok (s', hs') ∧ (∀ a, a ∈ hs' → is_Some (bufs s' !! a)) ∧
    (hs' = [] → bufs s' = ∅ ∧ pool_inv (ar_pool demo_arena) (memp_pool s') [] ∧
       pool_inv (ar_ref demo_arena) (memp_pbuf s') [] ∧ heap_inv (pheap s') whole_heap).
Proof.
  eexists _, _. split; [vm_compute; reflexivity|]. split; [reflexivity|]. split; [reflexivity|].
  apply (@pbuf_life linux64 demo_arena demo_arena_ok 4096 {[ 40000 := 7 ]} demo_calls).
  - vm_compute. reflexivity.
  - vm_compute. reflexivity.
Defined.
