(* ===== verification/Ip4Addr.v ===== *)
(** * Addresses of IPv4 (lwip/core/ipv4/ip4_addr.c)

    Addresses are 32-bit numbers whose bytes are in network order in memory.  The
    text of an address is a byte string with a NUL; the pointer that walks over it is
    the rest of the array it points into, and reading behind the array is a fault.
    The theorems: printing and parsing an address gives it back
    ([ip4_print_parse]); a netmask is accepted exactly if it is ones followed by
    zeros. *)

From S2P Require Import Prelude LwipDef.

(** ** Characters (lwip/arch.h) *)

Definition lwip_in_range (c lo up : Z) : bool := (lo <=? c) && (c <=? up).
Definition lwip_isdigit (c : Z) : bool := lwip_in_range c 48 57.
Definition lwip_isxdigit (c : Z) : bool :=
  lwip_isdigit c || lwip_in_range c 97 102 || lwip_in_range c 65 70.
Definition lwip_islower (c : Z) : bool := lwip_in_range c 97 122.
Definition lwip_isspace (c : Z) : bool :=
  (c =? 32) || (c =? 12) || (c =? 10) || (c =? 13) || (c =? 9) || (c =? 11).

(** ** Broadcast and masks *)

Definition IPADDR_ANY : Z := 0.
Definition IPADDR_NONE : Z := 0xffffffff.
Definition IPADDR_BROADCAST : Z := 0xffffffff.
Definition NETIF_FLAG_BROADCAST : Z := 0x02.

(** The fields of [struct netif] that are read. *)
Record netif4 : Type := Netif4 { nif_flags : Z; nif_ip4 : Z; nif_netmask : Z }.

Definition ip4_addr_net_eq (addr1 addr2 mask : Z) : bool := Z.land addr1 mask =? Z.land addr2 mask.

Definition ip4_addr_isbroadcast_u32 (addr : Z) (netif : netif4) : bool :=
  if (u32 (Z.lnot addr) =? IPADDR_ANY) || (addr =? IPADDR_ANY) then true
  else if Z.land (nif_flags netif) NETIF_FLAG_BROADCAST =? 0 then false
  else if addr =? nif_ip4 netif then false
  else
    ip4_addr_net_eq addr (nif_ip4 netif) (nif_netmask netif) &&
    (Z.land addr (u32 (Z.lnot (nif_netmask netif))) =?
     Z.land IPADDR_BROADCAST (u32 (Z.lnot (nif_netmask netif)))).

(** The loops over the bits, from the highest; there are 32. *)
Fixpoint mask_ones (fuel : nat) (nm mask : Z) : res Z :=
  match fuel with
  | O => Fault OutOfFuel
  | S fuel =>
      if mask =? 0 then Ok mask
      else if Z.land nm mask =? 0 then Ok mask
      else mask_ones fuel nm (Z.shiftr mask 1)
  end.

Fixpoint mask_zeros (fuel : nat) (nm mask : Z) : res bool :=
  match fuel with
  | O => Fault OutOfFuel
  | S fuel =>
      if mask =? 0 then Ok true
      else if negb (Z.land nm mask =? 0) then Ok false
      else mask_zeros fuel nm (Z.shiftr mask 1)
  end.

Definition ip4_addr_netmask_valid (netmask : Z) : res bool :=
  let nm_hostorder := lwip_htonl netmask in
  mask ← mask_ones 33 nm_hostorder (Z.shiftl 1 31);
  mask_zeros 33 nm_hostorder mask.

(** ** From text *)

(** The digits of one number; where they end. *)
Fixpoint aton_digits (cp : list Z) (base val : Z) : res (Z * list Z) :=
  match cp with
  | [] => Fault OutOfBounds
  | c :: rest =>
      if lwip_isdigit c then
        if (base =? 8) && (8 <=? c - 48) then Ok (val, cp)
        else aton_digits rest base (u32 (val * base + (c - 48)))
      else if (base =? 16) && lwip_isxdigit c then
        aton_digits rest base
          (Z.lor (u32 (Z.shiftl val 4)) (c + 10 - (if lwip_islower c then 97 else 65)))
      else Ok (val, cp)
  end.

(** One number: the base is in its first characters; [None]: no digit. *)
Definition aton_number (cp : list Z) : res (option (Z * list Z)) :=
  c ← char_at cp 0;
  if negb (lwip_isdigit c) then Ok None
  else
    '(base, cp) ←
      (if c =? 48 then
         c ← char_at cp 1;
         if (c =? 120) || (c =? 88) then _ ← char_at cp 2; Ok (16, drop 2 cp)
         else Ok (8, drop 1 cp)
       else Ok (10, cp));
    Some <$> aton_digits cp base 0.

(** The numbers between dots, at most four; [None]: the text is refused.  The last
    number and the rest of the text are apart. *)
Fixpoint aton_parts (fuel : nat) (cp : list Z) (parts : list Z)
    : res (option (list Z * Z * list Z)) :=
  match fuel with
  | O => Fault OutOfFuel
  | S fuel =>
      n ← aton_number cp;
      match n with
      | None => Ok None
      | Some (val, cp) =>
          c ← char_at cp 0;
          if c =? 46 then
            if (3 <=? length parts)%nat then Ok None
            else _ ← char_at cp 1; aton_parts fuel (drop 1 cp) (parts ++ [val])
          else Ok (Some (parts, val, cp))
      end
  end.

(** The number the parts make; [None]: one of them is too large. *)
Definition aton_value (parts : list Z) (val : Z) : res (option Z) :=
  match parts with
  | [] => Ok (Some val)
  | [p0] =>
      Ok (if (0xffffff <? val) || (0xff <? p0) then None
          else Some (Z.lor val (u32 (Z.shiftl p0 24))))
  | [p0; p1] =>
      Ok (if (0xffff <? val) || ((0xff <? p0) || (0xff <? p1)) then None
          else Some (Z.lor val (Z.lor (u32 (Z.shiftl p0 24)) (u32 (Z.shiftl p1 16)))))
  | [p0; p1; p2] =>
      Ok (if (0xff <? val) || ((0xff <? p0) || (0xff <? p1) || (0xff <? p2)) then None
          else Some (Z.lor val (Z.lor (Z.lor (u32 (Z.shiftl p0 24)) (u32 (Z.shiftl p1 16)))
                                      (u32 (Z.shiftl p2 8)))))
  | _ => Fault Aborted
  end.

(** [None]: 0 is returned; otherwise [*addr]. *)
Definition ip4addr_aton (cp : list Z) : res (option Z) :=
  n ← aton_parts 4 cp [];
  match n with
  | None => Ok None
  | Some (parts, val, cp) =>
      c ← char_at cp 0;
      if negb (c =? 0) && negb (lwip_isspace c) then Ok None
      else v ← aton_value parts val; Ok (option_map lwip_htonl v)
  end.

Definition ipaddr_addr (cp : list Z) : res Z :=
  v ← ip4addr_aton cp; Ok (default IPADDR_NONE v).

(** ** To text *)

(** The digits of a byte, last first: [inv] after the loop; it has room for three. *)
Fixpoint byte_digits (fuel : nat) (ap : Z) (inv : list Z) : res (list Z) :=
  match fuel with
  | O => Fault OutOfBounds
  | S fuel =>
      let inv := inv ++ [48 + ap mod 10] in
      let ap := ap / 10 in
      if negb (ap =? 0) then byte_digits fuel ap inv else Ok inv
  end.

(** [while (i--)]: from the end of [inv]; [None]: the buffer is too short. *)
Fixpoint put_digits (inv : list Z) (buf : list Z) (rp : nat) (len buflen : Z)
    : res (option (list Z * nat * Z)) :=
  match inv with
  | [] => Ok (Some (buf, rp, len))
  | c :: inv =>
      if buflen <=? len then Ok None
      else buf ← store buf rp [c]; put_digits inv buf (S rp) (len + 1) buflen
  end.

Fixpoint ntoa_loop (ap : list Z) (buf : list Z) (rp : nat) (len buflen : Z)
    : res (option (list Z * nat)) :=
  match ap with
  | [] => Ok (Some (buf, rp))
  | b :: ap =>
      inv ← byte_digits 3 b [];
      r ← put_digits (reverse inv) buf rp len buflen;
      match r with
      | None => Ok None
      | Some (buf, rp, len) =>
          if buflen <=? len then Ok None
          else buf ← store buf rp [46]; ntoa_loop ap buf (S rp) (len + 1) buflen
      end
  end.

(** [buf] is the array of the caller, of [buflen] bytes; [None]: NULL. *)
Definition ip4addr_ntoa_r (addr : Z) (buf : list Z) (buflen : Z) : res (option (list Z)) :=
  r ← ntoa_loop (le_bytes 4 addr) buf 0 0 buflen;
  match r with
  | None => Ok None
  | Some (buf, rp) => Some <$> store buf (rp - 1) [0]
  end.

Definition IP4ADDR_STRLEN_MAX : nat := 16.

(** The static buffer [str]. *)
Definition ip4addr_ntoa (addr : Z) (str : list Z) : res (option (list Z)) :=
  ip4addr_ntoa_r addr str (Z.of_nat IP4ADDR_STRLEN_MAX).

(** ** The text of an address *)

Definition byte_dec (b : Z) : list Z :=
  if b <? 10 then [48 + b]
  else if b <? 100 then [48 + b / 10; 48 + b mod 10]
  else [48 + b / 100; 48 + b / 10 mod 10; 48 + b mod 10].

(** Each byte with a dot behind it. *)
Definition dotted (bs : list Z) : list Z := concat ((λ b, byte_dec b ++ [46]) <$> bs).

Lemma byte_div b : is_byte b → 0 <= b / 10 < 26 ∧ b / 10 / 10 = b / 100 ∧ 0 <= b / 100 < 3 ∧
  0 <= b mod 10 < 10 ∧ b = 10 * (b / 10) + b mod 10 ∧ b / 10 = 10 * (b / 100) + b / 10 mod 10 ∧
  0 <= b / 10 mod 10 < 10.
Proof.
  unfold is_byte. intros Hb. rewrite Z.div_div by lia. change (10 * 10) with 100.
  pose proof (Z.div_mod b 10). pose proof (Z.div_mod (b / 10) 10). rewrite Z.div_div in H0 by lia.
  change (10 * 10) with 100 in H0. pose proof (Z.mod_pos_bound b 10). pose proof (Z.mod_pos_bound (b / 10) 10).
  lia.
Qed.

Lemma byte_digits_spec b : is_byte b → byte_digits 3 b [] = Ok (reverse (byte_dec b)).
Proof.
  intros Hb. destruct (byte_div b Hb) as (H1 & H2 & H3 & H4 & H5 & H6 & H7).
  unfold is_byte in Hb. cbn [byte_digits app]. unfold byte_dec. rewrite H2.
  destruct (Z.ltb_spec b 10) as [L|L].
  { replace (b / 10) with 0 by lia. rewrite Z.eqb_refl. cbn. by rewrite Z.mod_small by lia. }
  rewrite (proj2 (Z.eqb_neq (b / 10) 0)) by lia. cbn [negb].
  destruct (Z.ltb_spec b 100) as [M|M].
  { replace (b / 100) with 0 by lia. rewrite Z.eqb_refl. cbn [negb]. rewrite (Z.mod_small (b / 10)) by lia. done. }
  rewrite (proj2 (Z.eqb_neq (b / 100) 0)) by lia. cbn [negb].
  rewrite (Z.div_small (b / 100) 10), Z.eqb_refl by lia. cbn [negb].
  by rewrite (Z.mod_small (b / 100)) by lia.
Qed.

Lemma length_byte_dec b : (1 <= length (byte_dec b) <= 3)%nat.
Proof. unfold byte_dec. destruct (_ <? _); [|destruct (_ <? _)]; simpl; lia. Qed.

Lemma store_byte_app pre x rest c :
  store (pre ++ x :: rest) (length pre) [c] = Ok (pre ++ c :: rest).
Proof. rewrite store_extend by (simpl; lia). cbn [length drop]. by rewrite <- app_assoc. Qed.

(** Writing stops at the end of the buffer. *)
Lemma put_digits_spec inv : ∀ pre rest buflen,
  (buflen <= length (pre ++ rest))%nat →
  put_digits inv (pre ++ rest) (length pre) (Z.of_nat (length pre)) (Z.of_nat buflen) =
    Ok (if decide (inv = [] ∨ length pre + length inv <= buflen)%nat
        then Some (pre ++ inv ++ drop (length inv) rest, length (pre ++ inv), Z.of_nat (length (pre ++ inv)))
        else None).
Proof.
  induction inv as [|c inv IH]; intros pre rest buflen Hl; cbn [put_digits].
  { rewrite decide_True by tauto. by rewrite app_nil_r. }
  rewrite length_app in Hl. cbn [length].
  destruct (Z.leb_spec (Z.of_nat buflen) (Z.of_nat (length pre))) as [Hfull|Hroom].
  { rewrite decide_False; [done|]. intros [|]; [done|lia]. }
  destruct rest as [|x rest]; [simpl in Hl; lia|]. rewrite store_byte_app. cbn [mbind res_bind].
  specialize (IH (pre ++ [c]) rest buflen). rewrite (length_app pre [c]) in IH. cbn [length] in IH.
  rewrite <- !(app_assoc pre [c]) in IH. cbn [app] in IH.
  replace (length pre + 1)%nat with (S (length pre)) in IH by lia.
  replace (Z.of_nat (length pre) + 1) with (Z.of_nat (S (length pre))) by lia.
  rewrite IH by (rewrite length_app; simpl in *; lia). f_equal.
  destruct (decide (inv = [] ∨ (S (length pre) + length inv <= buflen)%nat)) as [Hd|Hd].
  - by rewrite decide_True by (right; destruct Hd as [->|]; simpl; lia).
  - rewrite decide_False; [done|]. intros [|]; [done|]. apply Hd. right. lia.
Qed.

Lemma dotted_cons b bs : dotted (b :: bs) = byte_dec b ++ 46 :: dotted bs.
Proof. unfold dotted. cbn. by rewrite <- app_assoc. Qed.

Lemma ntoa_loop_spec bs : ∀ pre rest buflen,
  Forall is_byte bs → (buflen <= length (pre ++ rest))%nat →
  ntoa_loop bs (pre ++ rest) (length pre) (Z.of_nat (length pre)) (Z.of_nat buflen) =
    Ok (if decide (bs = [] ∨ length pre + length (dotted bs) <= buflen)%nat
        then Some (pre ++ dotted bs ++ drop (length (dotted bs)) rest, length (pre ++ dotted bs))
        else None).
Proof.
  induction bs as [|b bs IH]; intros pre rest buflen Hb Hl; cbn [ntoa_loop].
  { rewrite decide_True by tauto. by rewrite app_nil_r. }
  apply Forall_cons in Hb as [Hb Hbs]. rewrite byte_digits_spec by done.
  cbn [mbind res_bind]. rewrite reverse_involutive, put_digits_spec by done. cbn [mbind res_bind].
  rewrite dotted_cons, !length_app. cbn [length]. pose proof (length_byte_dec b) as Hd.
  rewrite length_app in Hl.
  destruct (decide (byte_dec b = [] ∨ (length pre + length (byte_dec b) <= buflen)%nat)) as [H1|H1]; cycle 1.
  { rewrite decide_False; [done|]. intros [|]; [done|]. apply H1. right. lia. }
  assert (length pre + length (byte_dec b) <= buflen)%nat as H1'.
  { destruct H1 as [E|]; [rewrite E in Hd; simpl in Hd; lia|done]. }
  destruct (Z.leb_spec (Z.of_nat buflen) (Z.of_nat (length pre + length (byte_dec b)))) as [H2|H2].
  { rewrite decide_False; [done|]. intros [|]; [done|lia]. }
  destruct (drop (length (byte_dec b)) rest) as [|x rest'] eqn:Er.
  { exfalso. apply (f_equal length) in Er. rewrite length_drop in Er. simpl in Er. lia. }
  rewrite app_assoc, <- (length_app pre), store_byte_app. cbn [mbind res_bind].
  specialize (IH ((pre ++ byte_dec b) ++ [46]) rest' buflen Hbs).
  rewrite <- (app_assoc (pre ++ byte_dec b) [46] rest') in IH. cbn [app] in IH.
  rewrite (length_app (pre ++ byte_dec b) [46]) in IH. cbn [length] in IH.
  replace (length (pre ++ byte_dec b) + 1)%nat with (S (length (pre ++ byte_dec b))) in IH by lia.
  replace (Z.of_nat (length (pre ++ byte_dec b)) + 1) with (Z.of_nat (S (length (pre ++ byte_dec b)))) by lia.
  assert (length rest = length (byte_dec b) + S (length rest'))%nat as Hlr.
  { apply (f_equal length) in Er. rewrite length_drop in Er. cbn [length] in Er. lia. }
  rewrite IH by (rewrite !length_app; cbn [length]; lia). f_equal. rewrite length_app.
  destruct (decide (bs = [] ∨ (S (length pre + length (byte_dec b)) + length (dotted bs) <= buflen)%nat)) as [H3|H3].
  - rewrite decide_True by (right; destruct H3 as [->|]; simpl; lia). f_equal. f_equal.
    + rewrite <- !app_assoc. cbn [app]. do 3 f_equal. rewrite <- drop_drop, Er. cbn [drop]. done.
    + rewrite !length_app. simpl. lia.
  - rewrite decide_False; [done|]. intros [|]; [done|]. apply H3. right. lia.
Qed.

Definition ip4_text (a b c d : Z) : list Z :=
  byte_dec a ++ 46 :: byte_dec b ++ 46 :: byte_dec c ++ 46 :: byte_dec d.

Lemma dotted_text a b c d : dotted [a; b; c; d] = ip4_text a b c d ++ [46].
Proof. unfold ip4_text. rewrite !dotted_cons. by repeat progress (rewrite <- ?app_assoc; cbn [app]). Qed.

Lemma length_ip4_text a b c d : (7 <= length (ip4_text a b c d) <= 15)%nat.
Proof.
  unfold ip4_text. rewrite !length_app. cbn [length]. rewrite !length_app. cbn [length].
  rewrite !length_app. cbn [length].
  pose proof (length_byte_dec a). pose proof (length_byte_dec b).
  pose proof (length_byte_dec c). pose proof (length_byte_dec d). lia.
Qed.

(** The text and its NUL, or NULL if they do not fit. *)
Lemma ip4addr_ntoa_r_spec a b c d buf buflen :
  Forall is_byte [a; b; c; d] → (buflen <= length buf)%nat →
  ip4addr_ntoa_r (le_val [a; b; c; d]) buf (Z.of_nat buflen) =
    Ok (if decide (length (ip4_text a b c d) < buflen)%nat
        then Some (ip4_text a b c d ++ 0 :: drop (S (length (ip4_text a b c d))) buf)
        else None).
Proof.
  intros Hb Hl. unfold ip4addr_ntoa_r. rewrite (le_bytes_le_val [a; b; c; d] Hb : le_bytes 4 _ = _).
  pose proof (ntoa_loop_spec [a; b; c; d] [] buf buflen Hb Hl) as HE.
  change (Z.of_nat (length [])) with 0 in HE. cbn [app length] in HE. rewrite HE. clear HE.
  rewrite dotted_text. set (t := ip4_text a b c d). rewrite length_app. cbn [length app mbind res_bind].
  destruct (decide (length t < buflen)%nat) as [H1|H1].
  - rewrite decide_True by (right; lia). cbn [app].
    replace (length t + 1 - 1)%nat with (length t) by lia.
    rewrite <- app_assoc. cbn [app]. rewrite store_byte_app.
    replace (length t + 1)%nat with (S (length t)) by lia. done.
  - rewrite decide_False; [done|]. intros [|]; [done|lia].
Qed.

(** ** Parsing it again *)

(** A character that ends a decimal number. *)
Definition ends_number (c : Z) : Prop := lwip_isdigit c = false ∧ c ≠ 120 ∧ c ≠ 88.

Lemma isdigit_digit d : 0 <= d < 10 → lwip_isdigit (48 + d) = true.
Proof. intros Hd. unfold lwip_isdigit, lwip_in_range. rewrite !(proj2 (Z.leb_le _ _)) by lia. done. Qed.

Lemma aton_digit d rest base val :
  0 <= d < 10 → base = 10 → 0 <= val → val * 10 + d < 2 ^ 32 →
  aton_digits (48 + d :: rest) base val = aton_digits rest base (val * 10 + d).
Proof.
  intros Hd -> Hv Hb. cbn [aton_digits]. rewrite isdigit_digit by done.
  cbn [Z.eqb Pos.eqb andb]. replace (48 + d - 48) with d by lia. by rewrite wrapu_small by lia.
Qed.

Lemma aton_digits_end c rest base val :
  lwip_isdigit c = false → base ≠ 16 → aton_digits (c :: rest) base val = Ok (val, c :: rest).
Proof. intros Hc Hb. cbn [aton_digits]. rewrite Hc, (proj2 (Z.eqb_neq base 16)) by done. done. Qed.

Lemma aton_number_byte b c rest :
  is_byte b → ends_number c → aton_number (byte_dec b ++ c :: rest) = Ok (Some (b, c :: rest)).
Proof.
  intros Hb (Hc & Hx & HX). destruct (byte_div b Hb) as (H1 & H2 & H3 & H4 & H5 & H6 & H7).
  unfold is_byte in Hb. unfold byte_dec.
  destruct (Z.ltb_spec b 10) as [L|L]; [|destruct (Z.ltb_spec b 100) as [M|M]];
    cbn [app]; unfold aton_number, char_at; cbn [lookup list_lookup oget mbind res_bind];
    rewrite isdigit_digit by lia; cbn [negb].
  - destruct (Z.eqb_spec (48 + b) 48) as [E|E].
    + rewrite (proj2 (Z.eqb_neq c 120)), (proj2 (Z.eqb_neq c 88)) by done. cbn [orb mbind res_bind drop].
      rewrite aton_digits_end by done. cbn. replace b with 0 by lia. done.
    + cbn [mbind res_bind]. rewrite aton_digit, aton_digits_end by (done || lia).
      cbn. done.
  - rewrite (proj2 (Z.eqb_neq _ 48)) by lia. cbn [mbind res_bind].
    rewrite !aton_digit, aton_digits_end by (done || lia).
    cbn [fmap res_fmap]. do 3 f_equal. lia.
  - rewrite (proj2 (Z.eqb_neq _ 48)) by lia. cbn [mbind res_bind].
    rewrite !aton_digit, aton_digits_end by (done || lia).
    cbn [fmap res_fmap]. do 3 f_equal. lia.
Qed.

Lemma ends_dot : ends_number 46.
Proof. by split. Qed.

(** One part and its dot. *)
Lemma aton_parts_dot fuel b cp x parts :
  is_byte b → (length parts < 3)%nat → char_at cp 0 = Ok x →
  aton_parts (S fuel) (byte_dec b ++ 46 :: cp) parts = aton_parts fuel cp (parts ++ [b]).
Proof.
  intros Hb Hl Hx. cbn [aton_parts]. rewrite aton_number_byte by (done || apply ends_dot).
  cbn [mbind res_bind]. unfold char_at in *. cbn [lookup list_lookup oget mbind res_bind].
  rewrite Z.eqb_refl, (proj2 (Nat.leb_gt 3 (length parts))) by lia.
  destruct cp as [|y cp]; [done|]. done.
Qed.

Lemma byte_dec_head b rest : ∃ x, char_at (byte_dec b ++ rest) 0 = Ok x.
Proof. unfold byte_dec. destruct (_ <? _); [|destruct (_ <? _)]; eexists; reflexivity. Qed.

Lemma aton_value_bytes a b c d :
  is_byte a → is_byte b → is_byte c → is_byte d →
  aton_value [a; b; c] d = Ok (Some (le_val [d; c; b; a])).
Proof.
  unfold is_byte. intros Ha Hb Hc Hd. cbn [aton_value le_val].
  rewrite !(proj2 (Z.ltb_ge 255 _)) by lia. cbn [orb].
  rewrite !Z.shiftl_mul_pow2, !wrapu_small by lia. rewrite <- !Z.shiftl_mul_pow2 by lia.
  rewrite Z.lor_comm, <- (Z.lor_assoc _ _ d), <- (Z.lor_assoc _ _ (Z.lor _ d)).
  rewrite (lor_shiftl_add 8 c d) by lia. rewrite (lor_shiftl_add 16 b) by lia.
  rewrite (lor_shiftl_add 24 a) by lia. do 2 f_equal. lia.
Qed.

Lemma ip4addr_aton_text a b c d rest :
  Forall is_byte [a; b; c; d] →
  ip4addr_aton (ip4_text a b c d ++ 0 :: rest) = Ok (Some (le_val [a; b; c; d])).
Proof.
  intros Hall. pose proof Hall as [Ha [Hb [Hc [Hd _]%Forall_cons]%Forall_cons]%Forall_cons]%Forall_cons.
  unfold ip4addr_aton, ip4_text. repeat progress (rewrite <- ?app_assoc; cbn [app]).
  destruct (byte_dec_head b (46 :: byte_dec c ++ 46 :: byte_dec d ++ 0 :: rest)) as [x1 E1].
  destruct (byte_dec_head c (46 :: byte_dec d ++ 0 :: rest)) as [x2 E2].
  destruct (byte_dec_head d (0 :: rest)) as [x3 E3].
  rewrite (aton_parts_dot 3 a _ x1), (aton_parts_dot 2 b _ x2), (aton_parts_dot 1 c _ x3)
    by (done || (simpl; lia)).
  cbn [app aton_parts]. rewrite aton_number_byte by done. cbn [mbind res_bind char_at lookup list_lookup oget].
  unfold char_at. cbn [lookup list_lookup oget mbind res_bind Z.eqb Pos.eqb negb andb].
  rewrite aton_value_bytes by done. cbn [mbind res_bind option_map].
  by rewrite htonl_bytes_val.
Qed.

(** The text of an address, printed into a buffer of 16 bytes, always
    fits, and parsing it gives the address back: printing never cuts an address off
    and no two addresses have the same text. *)
Theorem ip4_print_parse addr str :
  0 <= addr < 2 ^ 32 → length str = IP4ADDR_STRLEN_MAX →
  ∃ s, ip4addr_ntoa addr str = Ok (Some s) ∧ length s = IP4ADDR_STRLEN_MAX ∧
    ip4addr_aton s = Ok (Some addr).
Proof.
  intros Ha Hl. pose proof (le_bytes_is_byte 4 addr) as Hb.
  rewrite <- (le_val_le_bytes 4 addr) by (simpl; lia). cbn [le_bytes] in *.
  set (a := addr mod 256) in *. set (b := addr / 256 mod 256) in *.
  set (c := addr / 256 / 256 mod 256) in *. set (d := addr / 256 / 256 / 256 mod 256) in *.
  unfold ip4addr_ntoa. rewrite ip4addr_ntoa_r_spec by (done || lia).
  pose proof (length_ip4_text a b c d) as Ht. unfold IP4ADDR_STRLEN_MAX in *.
  rewrite decide_True by lia. eexists. split; [reflexivity|]. split.
  - rewrite length_app. cbn [length]. rewrite length_drop. lia.
  - by apply ip4addr_aton_text.
Qed.

Lemma ip4_print_parse_witness :
  ∃ s, ip4addr_ntoa 0x0100a8c0 (replicate 16 7) = Ok (Some s) ∧ length s = IP4ADDR_STRLEN_MAX ∧
    ip4addr_aton s = Ok (Some 0x0100a8c0).
Proof. apply (ip4_print_parse 0x0100a8c0 (replicate 16 7)); [lia|reflexivity]. Defined.

(** Overflow is not noticed: the text of a number beyond 32 bits is taken for another. *)
Lemma aton_overflows :
  ip4addr_aton (bytes "4294967297.0.0.1" ++ [0]) = Ok (Some 0x01000001).
Proof. vm_compute. reflexivity. Qed.

(** ** Netmasks *)

(** The mask of the loops when [k] bits are left. *)
Definition bit_mask (k : nat) : Z := match k with O => 0 | S k => 2 ^ Z.of_nat k end.

Lemma bit_mask_next k : Z.shiftr (bit_mask (S k)) 1 = bit_mask k.
Proof.
  destruct k as [|k]; [done|]. cbn [bit_mask]. rewrite Z.shiftr_div_pow2, Nat2Z.inj_succ, Z.pow_succ_r by lia.
  change (2 ^ 1) with 2. rewrite Z.mul_comm. by apply Z.div_mul.
Qed.

Lemma bit_mask_pos k : bit_mask (S k) ≠ 0.
Proof. cbn [bit_mask]. pose proof (Z.pow_pos_nonneg 2 (Z.of_nat k)). lia. Qed.

Lemma land_pow2 nm k : Z.land nm (2 ^ Z.of_nat k) = if Z.testbit nm (Z.of_nat k) then 2 ^ Z.of_nat k else 0.
Proof.
  apply Z.bits_inj'. intros i Hi. rewrite Z.land_spec, Z.pow2_bits_eqb by lia.
  destruct (Z.eqb_spec (Z.of_nat k) i) as [<-|Hne].
  - rewrite andb_true_r. destruct (Z.testbit nm _) eqn:E; [by rewrite Z.pow2_bits_true by lia|by rewrite Z.bits_0].
  - rewrite andb_false_r. destruct (Z.testbit nm _); [by rewrite Z.pow2_bits_false by lia|by rewrite Z.bits_0].
Qed.

(** The highest of the bits left, and what is below it. *)
Lemma bit_split nm k :
  nm mod 2 ^ Z.of_nat (S k) =
    (if Z.land nm (bit_mask (S k)) =? 0 then 0 else 2 ^ Z.of_nat k) + nm mod 2 ^ Z.of_nat k.
Proof.
  cbn [bit_mask]. rewrite land_pow2. set (p := 2 ^ Z.of_nat k).
  assert (0 < p) as Hp by (unfold p; apply Z.pow_pos_nonneg; lia).
  assert (2 ^ Z.of_nat (S k) = p * 2) as -> by (unfold p; rewrite Nat2Z.inj_succ, Z.pow_succ_r by lia; lia).
  rewrite Z.rem_mul_r by lia. unfold p at 3. rewrite <- Z.testbit_spec' by lia.
  destruct (Z.testbit nm (Z.of_nat k)); cbn [Z.b2z].
  - rewrite (proj2 (Z.eqb_neq p 0)) by lia. lia.
  - rewrite Z.eqb_refl. lia.
Qed.

Lemma mask_zeros_spec nm k : mask_zeros (S k) nm (bit_mask k) = Ok (nm mod 2 ^ Z.of_nat k =? 0).
Proof.
  induction k as [|k IH]; [cbn; by rewrite Z.mod_1_r|].
  pose proof (bit_split nm k) as E. remember (S k) as j. cbn [mask_zeros]. subst j.
  rewrite (proj2 (Z.eqb_neq _ 0)) by apply bit_mask_pos.
  assert (0 < 2 ^ Z.of_nat k) by (apply Z.pow_pos_nonneg; lia).
  pose proof (Z.mod_pos_bound nm (2 ^ Z.of_nat k)).
  destruct (_ =? 0); cbn [negb].
  - rewrite bit_mask_next, IH, E. done.
  - rewrite E, (proj2 (Z.eqb_neq _ 0)) by lia. done.
Qed.

Lemma mask_zeros_more fuel more nm mask b :
  mask_zeros fuel nm mask = Ok b → mask_zeros (fuel + more) nm mask = Ok b.
Proof.
  revert mask. induction fuel as [|fuel IH]; intros mask; cbn [mask_zeros Nat.add]; [done|].
  destruct (mask =? 0); [done|]. destruct (negb _); [done|]. apply IH.
Qed.

(** Both loops together: ones, then zeros. *)
Lemma mask_loops_spec nm k fuel : (k < 33)%nat → (k < fuel)%nat →
  ∃ b, (mask ← mask_ones fuel nm (bit_mask k); mask_zeros 33 nm mask) = Ok b ∧
    (b = true ↔ ∃ j, (j <= k)%nat ∧ nm mod 2 ^ Z.of_nat k = 2 ^ Z.of_nat k - 2 ^ Z.of_nat j).
Proof.
  intros Hk. revert fuel. induction k as [|k IH]; intros fuel Hf; destruct fuel as [|fuel]; try lia.
  { exists true. split; [done|]. split; [|done]. intros _. exists 0%nat. cbn. by rewrite Z.mod_1_r. }
  pose proof (bit_split nm k) as E. cbn [mask_ones].
  rewrite (proj2 (Z.eqb_neq _ 0)) by apply bit_mask_pos.
  assert (0 < 2 ^ Z.of_nat k) as Hp by (apply Z.pow_pos_nonneg; lia).
  assert (2 ^ Z.of_nat (S k) = 2 * 2 ^ Z.of_nat k) as E2 by (by rewrite Nat2Z.inj_succ, Z.pow_succ_r by lia).
  pose proof (Z.mod_pos_bound nm (2 ^ Z.of_nat k)) as Hr.
  assert (∀ j, (j <= k)%nat → 0 < 2 ^ Z.of_nat j <= 2 ^ Z.of_nat k) as Hj.
  { intros j Hj. split; [apply Z.pow_pos_nonneg; lia|apply Z.pow_le_mono_r; lia]. }
  destruct (Z.land nm (bit_mask (S k)) =? 0) eqn:El.
  - cbn [mbind res_bind]. exists (nm mod 2 ^ Z.of_nat (S k) =? 0). split.
    { replace 33%nat with (S (S k) + (33 - S (S k)))%nat by lia. apply mask_zeros_more, mask_zeros_spec. }
    rewrite Z.eqb_eq, E, E2. split.
    + intros E0. exists (S k). split; [done|]. rewrite E2. lia.
    + intros (j & Hjk & Ej). destruct (decide (j = S k)) as [->|]; [rewrite E2 in Ej; lia|].
      pose proof (Hj j ltac:(lia)). lia.
  - rewrite bit_mask_next. destruct (IH ltac:(lia) fuel ltac:(lia)) as (b & Hb & Hiff). exists b.
    split; [done|]. rewrite Hiff, E, E2. split; intros (j & Hjk & Ej).
    + exists j. split; [lia|]. lia.
    + destruct (decide (j = S k)) as [->|]; [rewrite E2 in Ej; lia|]. exists j. split; [lia|]. lia.
Qed.

(** A mask is accepted exactly if it is, in host order, ones and then zeros. *)
Lemma netmask_valid_spec netmask :
  0 <= netmask < 2 ^ 32 →
  ∃ b, ip4_addr_netmask_valid netmask = Ok b ∧
    (b = true ↔ ∃ j, (j <= 32)%nat ∧ lwip_htonl netmask = 2 ^ 32 - 2 ^ Z.of_nat j).
Proof.
  intros Hn. unfold ip4_addr_netmask_valid. change (Z.shiftl 1 31) with (bit_mask 32).
  destruct (mask_loops_spec (lwip_htonl netmask) 32 33) as (b & Hb & Hiff); [lia..|].
  exists b. split; [done|]. rewrite Hiff. change (2 ^ Z.of_nat 32) with (2 ^ 32).
  pose proof (wrapu_range 32 (Z.lor (Z.lor (Z.shiftl (Z.land netmask 0xff) 24) (Z.shiftl (Z.land netmask 0xff00) 8))
    (Z.lor (Z.shiftr (Z.land netmask 0xff0000) 8) (Z.shiftr (Z.land netmask 0xff000000) 24)))) as Hr.
  fold (lwip_htonl netmask) in Hr. by rewrite Z.mod_small by lia.
Qed.
