(* ===== verification/Ip4Frag.v ===== *)
(** * Fragments of IPv4 datagrams (lwip/core/ipv4/ip4_frag.c): reassembly

    Fragments wait in a list of datagrams ([struct ip_reassdata], from a pool).  The
    fragments of one datagram are chained by their offsets through a helper
    structure that is laid over the IP header in the data of the packet itself, so
    the chain is in the bytes of the packets and not in their descriptors.  The
    model keeps it there: [hget] and [hput] read and write these bytes.
    [Ip4FragSpec] says what is assembled, [Ip4FragRep] relates both. *)

From S2P Require Import Prelude Memp SysArch Pbuf LwipDef Chksum LwipMem PbufAlloc.

(** ** The header *)

Definition IP_HLEN : Z := 20.
Definition IP_MF : Z := 0x2000.
Definition IP_OFFMASK : Z := 0x1fff.

(** A field of [n] bytes at [off], as it is in memory. *)
Definition hdr_field (off n : nat) (hdr : list Z) : Z := le_val (take n (drop off hdr)).

Definition IPH_HL_BYTES (hdr : list Z) : Z := u8 (Z.land (hdr_field 0 1 hdr) 0x0f * 4).
Definition IPH_LEN (hdr : list Z) : Z := hdr_field 2 2 hdr.
Definition IPH_ID (hdr : list Z) : Z := hdr_field 4 2 hdr.
Definition IPH_OFFSET (hdr : list Z) : Z := hdr_field 6 2 hdr.
Definition IPH_OFFSET_BYTES (hdr : list Z) : Z :=
  u16 (Z.land (lwip_htons (IPH_OFFSET hdr)) IP_OFFMASK * 8).
Definition IPH_SRC (hdr : list Z) : Z := hdr_field 12 4 hdr.
Definition IPH_DEST (hdr : list Z) : Z := hdr_field 16 4 hdr.

Definition put_field (off n : nat) (v : Z) (hdr : list Z) : list Z :=
  take off hdr ++ le_bytes n v ++ drop (off + n) hdr.
Definition IPH_LEN_SET (v : Z) : list Z → list Z := put_field 2 2 v.
Definition IPH_OFFSET_SET (v : Z) : list Z → list Z := put_field 6 2 v.
Definition IPH_CHKSUM_SET (v : Z) : list Z → list Z := put_field 10 2 v.

Definition IP_ADDRESSES_AND_ID_MATCH (a b : list Z) : bool :=
  (IPH_SRC a =? IPH_SRC b) && (IPH_DEST a =? IPH_DEST b) && (IPH_ID a =? IPH_ID b).

(** ** Data *)

Definition IP_REASS_FLAG_LASTFRAG : Z := 0x01.
Definition IP_REASS_VALIDATE_TELEGRAM_FINISHED : Z := 1.
Definition IP_REASS_VALIDATE_PBUF_QUEUED : Z := 0.
Definition IP_REASS_VALIDATE_PBUF_DROPPED : Z := -1.
Definition IP_REASS_MAXAGE : Z := 15.
Definition IP_REASS_MAX_PBUFS : Z := Eval vm_compute in 10 * ((1500 + 256 - 1) / 256).

(** [struct ip_reass_helper], laid over the header of a fragment; [None] is NULL. *)
Record ip_reass_helper : Type := Helper { next_pbuf : option Z; h_start : Z; h_end : Z }.

(** [struct ip_reassdata] *)
Record ip_reassdata : Type := IpReassdata {
  r_next : option Z; r_p : option Z; r_iphdr : list Z;
  r_datagram_len : Z; r_flags : Z; r_timer : Z;
}.

Definition set_r_next (n : option Z) (d : ip_reassdata) : ip_reassdata :=
  IpReassdata n (r_p d) (r_iphdr d) (r_datagram_len d) (r_flags d) (r_timer d).
Definition set_r_p (p : option Z) (d : ip_reassdata) : ip_reassdata :=
  IpReassdata (r_next d) p (r_iphdr d) (r_datagram_len d) (r_flags d) (r_timer d).
Definition set_r_iphdr (h : list Z) (d : ip_reassdata) : ip_reassdata :=
  IpReassdata (r_next d) (r_p d) h (r_datagram_len d) (r_flags d) (r_timer d).
Definition set_r_last (len : Z) (d : ip_reassdata) : ip_reassdata :=
  IpReassdata (r_next d) (r_p d) (r_iphdr d) len (Z.lor (r_flags d) IP_REASS_FLAG_LASTFRAG) (r_timer d).
Definition set_r_timer (t : Z) (d : ip_reassdata) : ip_reassdata :=
  IpReassdata (r_next d) (r_p d) (r_iphdr d) (r_datagram_len d) (r_flags d) t.

(** What the code reports: the counters it increments, and the ICMP message it has
    sent about a packet (with the bytes that head the packet). *)
Inductive rnote : Type :=
  | NRecv | NReqd | NErr | NMemerr | NCachehit | NDrop | NOk | NFail
  | NTimeExceeded (p : Z) (hdr : list Z).

(** Packets and their bytes, the entries in use, the head of their list, the number of
    buffers that wait, the pool of the entries. *)
Record reass : Type := Reass {
  rs_s : pbufs; rs_m : gmap Z Z; rs_data : gmap Z ip_reassdata;
  reassdatagrams : option Z; ip_reass_pbufcount : Z; rs_pool : pool; rs_notes : list rnote;
}.

Definition set_rs_s (x : pbufs) (s : reass) : reass :=
  Reass x (rs_m s) (rs_data s) (reassdatagrams s) (ip_reass_pbufcount s) (rs_pool s) (rs_notes s).
Definition set_rs_m (x : gmap Z Z) (s : reass) : reass :=
  Reass (rs_s s) x (rs_data s) (reassdatagrams s) (ip_reass_pbufcount s) (rs_pool s) (rs_notes s).
Definition set_rs_data (x : gmap Z ip_reassdata) (s : reass) : reass :=
  Reass (rs_s s) (rs_m s) x (reassdatagrams s) (ip_reass_pbufcount s) (rs_pool s) (rs_notes s).
Definition set_rs_head (x : option Z) (s : reass) : reass :=
  Reass (rs_s s) (rs_m s) (rs_data s) x (ip_reass_pbufcount s) (rs_pool s) (rs_notes s).
Definition set_rs_count (x : Z) (s : reass) : reass :=
  Reass (rs_s s) (rs_m s) (rs_data s) (reassdatagrams s) x (rs_pool s) (rs_notes s).
Definition set_rs_pool (x : pool) (s : reass) : reass :=
  Reass (rs_s s) (rs_m s) (rs_data s) (reassdatagrams s) (ip_reass_pbufcount s) x (rs_notes s).
Definition note (n : rnote) (s : reass) : reass :=
  Reass (rs_s s) (rs_m s) (rs_data s) (reassdatagrams s) (ip_reass_pbufcount s) (rs_pool s)
    (rs_notes s ++ [n]).

Definition entry (s : reass) (a : Z) : res ip_reassdata := oget BadPointer (rs_data s !! a).
Definition entry_mod (f : ip_reassdata → ip_reassdata) (a : Z) (s : reass) : res reass :=
  d ← entry s a; Ok (set_rs_data (<[a := f d]> (rs_data s)) s).

Section frag.
Context `{Platform}.

(** ** The helper structure *)

Definition ptr_size : nat := Z.to_nat ptr_bytes.

Definition ptr_val (p : option Z) : Z := match p with None => 0 | Some a => a end.
Definition ptr_of (v : Z) : option Z := if v =? 0 then None else Some v.

Definition helper_bytes (h : ip_reass_helper) : list Z :=
  le_bytes ptr_size (ptr_val (next_pbuf h)) ++ le_bytes 2 (h_start h) ++ le_bytes 2 (h_end h).

Definition hget (m : gmap Z Z) (iprh : Z) : res ip_reass_helper :=
  bs ← mread m iprh (ptr_size + 4);
  Ok (Helper (ptr_of (le_val (take ptr_size bs))) (hdr_field ptr_size 2 bs) (hdr_field (ptr_size + 2) 2 bs)).

Definition hput (m : gmap Z Z) (iprh : Z) (h : ip_reass_helper) : res (gmap Z Z) :=
  mwrite m iprh (helper_bytes h).

Definition hput_next (m : gmap Z Z) (iprh : Z) (p : option Z) : res (gmap Z Z) :=
  mwrite m iprh (le_bytes ptr_size (ptr_val p)).

(** The helper of a packet: its data begins with it. *)
Definition helper_of (s : reass) (p : Z) : res (Z * ip_reass_helper) :=
  h ← buf_at (rs_s s) p; iprh ← hget (rs_m s) (p_payload h); Ok (p_payload h, iprh).

(** ** Releasing a datagram *)

Definition ip_reass_dequeue_datagram (ipr : Z) (prev : option Z) (s : reass) : res reass :=
  d ← entry s ipr;
  s ← (if bool_decide (reassdatagrams s = Some ipr) then Ok (set_rs_head (r_next d) s)
       else match prev with
            | None => Fault Aborted
            | Some a => entry_mod (set_r_next (r_next d)) a s
            end);
  p ← do_memp_free_pool (rs_pool s) ipr;
  Ok (set_rs_pool p (set_rs_data (delete ipr (rs_data s)) s)).

(** One packet of the chain goes; the number of buffers it has. *)
Definition free_fragment (self : Z) (p freed : Z) (s : reass) : res (Z * reass) :=
  clen ← pbuf_clen (bufs (rs_s s)) (Some p);
  _ ← lwip_assert (freed + clen <=? 0xffff);
  '(_, ps) ← pbuf_free self (Some p) (rs_s s);
  Ok (u16 (freed + clen), set_rs_s ps s).

Fixpoint free_fragments (fuel : nat) (self : Z) (p : option Z) (freed : Z) (s : reass)
    : res (Z * reass) :=
  match p, fuel with
  | None, _ => Ok (freed, s)
  | Some _, O => Fault OutOfFuel
  | Some pcur, S fuel =>
      '(_, iprh) ← helper_of s pcur;
      '(freed, s) ← free_fragment self pcur freed s;
      free_fragments fuel self (next_pbuf iprh) freed s
  end.

(** The first fragment goes with a message to the sender. *)
Definition time_exceeded (self ipr : Z) (s : reass) : res (Z * reass) :=
  d ← entry s ipr;
  p ← oget NullDeref (r_p d);
  '(a, iprh) ← helper_of s p;
  if h_start iprh =? 0 then
    s ← entry_mod (set_r_p (next_pbuf iprh)) ipr s;
    m ← mwrite (rs_m s) a (r_iphdr d);
    let s := note (NTimeExceeded p (r_iphdr d)) (set_rs_m m s) in
    free_fragment self p 0 s
  else Ok (0, s).

Definition ip_reass_free_complete_datagram (self ipr : Z) (prev : option Z) (s : reass)
    : res (Z * reass) :=
  _ ← lwip_assert (negb (bool_decide (prev = Some ipr)));
  _ ← match prev with
      | None => Ok ()
      | Some a => d ← entry s a; lwip_assert (bool_decide (r_next d = Some ipr))
      end;
  let s := note NFail s in
  '(freed, s) ← time_exceeded self ipr s;
  d ← entry s ipr;
  '(freed, s) ← free_fragments (chain_fuel (bufs (rs_s s))) self (r_p d) freed s;
  s ← ip_reass_dequeue_datagram ipr prev s;
  _ ← lwip_assert (freed <=? ip_reass_pbufcount s);
  Ok (freed, set_rs_count (u16 (ip_reass_pbufcount s - freed)) s).

(** ** The timer *)

Fixpoint tmr_loop (fuel : nat) (self : Z) (r prev : option Z) (s : reass) : res reass :=
  match r, fuel with
  | None, _ => Ok s
  | Some _, O => Fault OutOfFuel
  | Some a, S fuel =>
      d ← entry s a;
      if 0 <? r_timer d then
        s ← entry_mod (set_r_timer (r_timer d - 1)) a s;
        tmr_loop fuel self (r_next d) (Some a) s
      else
        '(_, s) ← ip_reass_free_complete_datagram self a prev s;
        tmr_loop fuel self (r_next d) prev s
  end.

Definition ip_reass_tmr (self : Z) (s : reass) : res reass :=
  tmr_loop (S (size (rs_data s))) self (reassdatagrams s) None s.

(** ** Making room *)

(** The oldest datagram that is not the one of [fraghdr], with the entry before it and
    its timer, and how many there are. *)
Fixpoint oldest_loop (fuel : nat) (fraghdr : list Z) (s : reass) (r prev : option Z)
    (oldest : option (Z * option Z * Z)) (other : Z) : res (option (Z * option Z * Z) * Z) :=
  match r, fuel with
  | None, _ => Ok (oldest, other)
  | Some _, O => Fault OutOfFuel
  | Some a, S fuel =>
      d ← entry s a;
      let '(oldest, other) :=
        if negb (IP_ADDRESSES_AND_ID_MATCH (r_iphdr d) fraghdr) then
          (match oldest with
           | None => Some (a, prev, r_timer d)
           | Some (_, _, t) => if r_timer d <=? t then Some (a, prev, r_timer d) else oldest
           end, other + 1)
        else (oldest, other) in
      let prev := match r_next d with Some _ => Some a | None => prev end in
      oldest_loop fuel fraghdr s (r_next d) prev oldest other
  end.

Fixpoint remove_oldest_loop (fuel : nat) (self : Z) (fraghdr : list Z) (pbufs_needed freed : Z)
    (s : reass) : res (Z * reass) :=
  match fuel with
  | O => Fault OutOfFuel
  | S fuel =>
      '(oldest, other) ←
        oldest_loop (S (size (rs_data s))) fraghdr s (reassdatagrams s) None None 0;
      '(freed, s) ←
        match oldest with
        | None => Ok (freed, s)
        | Some (a, prev, _) =>
            '(n, s) ← ip_reass_free_complete_datagram self a prev s; Ok (freed + n, s)
        end;
      if (freed <? pbufs_needed) && (1 <? other)
      then remove_oldest_loop fuel self fraghdr pbufs_needed freed s
      else Ok (freed, s)
  end.

(** Each turn but the last leaves one datagram less. *)
Definition ip_reass_remove_oldest_datagram (self : Z) (fraghdr : list Z) (pbufs_needed : Z)
    (s : reass) : res (Z * reass) :=
  remove_oldest_loop (S (size (rs_data s))) self fraghdr pbufs_needed 0 s.

(** ** A new datagram *)

Definition ip_reass_enqueue_new_datagram (self : Z) (fraghdr : list Z) (clen : Z) (s : reass)
    : res (option Z * reass) :=
  '(ipr, pl) ← do_memp_malloc_pool (rs_pool s);
  let s := set_rs_pool pl s in
  '(ipr, s) ←
    match ipr with
    | Some _ => Ok (ipr, s)
    | None =>
        '(freed, s) ← ip_reass_remove_oldest_datagram self fraghdr clen s;
        if clen <=? freed then
          '(ipr, pl) ← do_memp_malloc_pool (rs_pool s); Ok (ipr, set_rs_pool pl s)
        else Ok (None, s)
    end;
  match ipr with
  | None => Ok (None, note NMemerr s)
  | Some a =>
      let d := IpReassdata (reassdatagrams s) None fraghdr 0 0 IP_REASS_MAXAGE in
      Ok (Some a, set_rs_head (Some a) (set_rs_data (<[a := d]> (rs_data s)) s))
  end.

(** ** Chaining a fragment *)

(** How the walk over the chain ends: the fragment is not wanted; it has its place
    in front of another; it comes last, behind the one given. *)
Inductive walk_end : Type :=
  | WDropped (m : gmap Z Z)
  | WInserted (m : gmap Z Z) (first : bool) (valid : bool)
  | WLast (prev : option (Z * ip_reass_helper)) (valid : bool).

(** [iprh]: where the helper of the new packet [new_p] is. *)
Fixpoint frag_walk (fuel : nat) (pb : gmap Z pbuf) (m : gmap Z Z) (new_p iprh start end_ : Z)
    (q : option Z) (prev : option (Z * ip_reass_helper)) (valid : bool) : res walk_end :=
  match q, fuel with
  | None, _ => Ok (WLast prev valid)
  | Some _, O => Fault OutOfFuel
  | Some a, S fuel =>
      h ← oget BadPointer (pb !! a);
      tmp ← hget m (p_payload h);
      if start <? h_start tmp then
        m ← hput_next m iprh (Some a);
        match prev with
        | Some (pa, ph) =>
            if (start <? h_end ph) || (h_start tmp <? end_) then Ok (WDropped m)
            else
              m ← hput_next m pa (Some new_p);
              Ok (WInserted m false (if h_end ph =? start then valid else false))
        | None =>
            if h_start tmp <? end_ then Ok (WDropped m) else Ok (WInserted m true valid)
        end
      else if start =? h_start tmp then Ok (WDropped m)
      else if start <? h_end tmp then Ok (WDropped m)
      else
        let valid :=
          match prev with
          | Some (_, ph) => if h_end ph =? h_start tmp then valid else false
          | None => valid
          end in
        frag_walk fuel pb m new_p iprh start end_ (next_pbuf tmp) (Some (p_payload h, tmp)) valid
  end.

(** From the new fragment to the end: whether there are no holes, and the last helper
    that was looked at. *)
Fixpoint holes_loop (fuel : nat) (pb : gmap Z pbuf) (m : gmap Z Z) (iprh : Z)
    (prev : ip_reass_helper) (q : option Z) : res (bool * Z * ip_reass_helper) :=
  match q, fuel with
  | None, _ => Ok (true, iprh, prev)
  | Some _, O => Fault OutOfFuel
  | Some a, S fuel =>
      h ← oget BadPointer (pb !! a);
      tmp ← hget m (p_payload h);
      if negb (h_end prev =? h_start tmp) then Ok (false, p_payload h, tmp)
      else holes_loop fuel pb m (p_payload h) tmp (next_pbuf tmp)
  end.

(** The part from the validation on; the fragment is in the chain. *)
Definition validate (s : reass) (ipr iprh : Z) (is_last valid : bool) : res Z :=
  d ← entry s ipr;
  if is_last || negb (Z.land (r_flags d) IP_REASS_FLAG_LASTFRAG =? 0) then
    valid ←
      (if negb valid then Ok false
       else match r_p d with
            | None => Ok false
            | Some p =>
                '(pa, first) ← helper_of s p;
                if negb (h_start first =? 0) then Ok false
                else
                  new ← hget (rs_m s) iprh;
                  '(ok, la, last) ← holes_loop (chain_fuel (bufs (rs_s s))) (bufs (rs_s s)) (rs_m s)
                    iprh new (next_pbuf new);
                  if ok : bool then
                    _ ← lwip_assert (negb (pa =? la));
                    _ ← lwip_assert (negb (is_some (next_pbuf last)));
                    Ok true
                  else Ok false
            end);
    Ok (if valid : bool then IP_REASS_VALIDATE_TELEGRAM_FINISHED else IP_REASS_VALIDATE_PBUF_QUEUED)
  else Ok IP_REASS_VALIDATE_PBUF_QUEUED.

(** The fragment behind the end of the chain. *)
Definition append_frag (s : reass) (ipr new_p iprh start : Z)
    (prev : option (Z * ip_reass_helper)) (valid : bool) : res (bool * reass) :=
  match prev with
  | Some (pa, ph) =>
      _ ← lwip_assert (h_end ph <=? start);
      m ← hput_next (rs_m s) pa (Some new_p);
      Ok (if h_end ph =? start then valid else false, set_rs_m m s)
  | None =>
      d ← entry s ipr;
      _ ← lwip_assert (negb (is_some (r_p d)));
      s ← entry_mod (set_r_p (Some new_p)) ipr s;
      Ok (valid, s)
  end.

Definition ip_reass_chain_frag_into_datagram_and_validate (ipr new_p : Z) (is_last : bool)
    (s : reass) : res (Z * reass) :=
  h ← buf_at (rs_s s) new_p;
  let iprh := p_payload h in
  fraghdr ← mread (rs_m s) iprh 20;
  let len := lwip_htons (IPH_LEN fraghdr) in
  let hlen := IPH_HL_BYTES fraghdr in
  if len <? hlen then Ok (IP_REASS_VALIDATE_PBUF_DROPPED, s)
  else
    let len := u16 (len - hlen) in
    let offset := IPH_OFFSET_BYTES fraghdr in
    let end_ := u16 (offset + len) in
    m ← hput (rs_m s) iprh (Helper None offset end_);
    let s := set_rs_m m s in
    if end_ <? offset then Ok (IP_REASS_VALIDATE_PBUF_DROPPED, s)
    else
      d ← entry s ipr;
      w ← frag_walk (chain_fuel (bufs (rs_s s))) (bufs (rs_s s)) m new_p iprh offset end_ (r_p d)
        None true;
      match w with
      | WDropped m => Ok (IP_REASS_VALIDATE_PBUF_DROPPED, set_rs_m m s)
      | WInserted m first valid =>
          let s := set_rs_m m s in
          s ← (if first then entry_mod (set_r_p (Some new_p)) ipr s else Ok s);
          v ← validate s ipr iprh is_last valid; Ok (v, s)
      | WLast prev valid =>
          '(valid, s) ← append_frag s ipr new_p iprh offset prev valid;
          v ← validate s ipr iprh is_last valid; Ok (v, s)
      end.

(** ** The whole of it *)

Fixpoint match_loop (fuel : nat) (s : reass) (fraghdr : list Z) (r : option Z) : res (option Z) :=
  match r, fuel with
  | None, _ => Ok None
  | Some _, O => Fault OutOfFuel
  | Some a, S fuel =>
      d ← entry s a;
      if IP_ADDRESSES_AND_ID_MATCH (r_iphdr d) fraghdr then Ok (Some a)
      else match_loop fuel s fraghdr (r_next d)
  end.

(** The entry before [ipr]. *)
Fixpoint prev_loop (fuel : nat) (s : reass) (ipr : Z) (r : option Z) : res (option Z) :=
  match r, fuel with
  | None, _ => Ok None
  | Some _, O => Fault OutOfFuel
  | Some a, S fuel =>
      d ← entry s a;
      if bool_decide (r_next d = Some ipr) then Ok (Some a) else prev_loop fuel s ipr (r_next d)
  end.

(** The packets behind the first one are appended to it, without their headers. *)
Fixpoint join_loop (fuel : nat) (p : Z) (r : option Z) (s : reass) : res reass :=
  match r, fuel with
  | None, _ => Ok s
  | Some _, O => Fault OutOfFuel
  | Some a, S fuel =>
      h ← buf_at (rs_s s) a;
      '(_, pb) ← pbuf_remove_header (bufs (rs_s s)) (Some a) IP_HLEN;
      pb ← pbuf_cat pb (Some p) (Some a);
      let s := set_rs_s (set_bufs pb (rs_s s)) s in
      iprh ← hget (rs_m s) (p_payload h);
      join_loop fuel p (next_pbuf iprh) s
  end.

(** All fragments are there. *)
Definition finish (ipr : Z) (s : reass) : res (option Z * reass) :=
  d ← entry s ipr;
  let datagram_len := u16 (r_datagram_len d + IP_HLEN) in
  p ← oget NullDeref (r_p d);
  '(fraghdr, first) ← helper_of s p;
  let hdr := IPH_CHKSUM_SET 0 (IPH_OFFSET_SET 0 (IPH_LEN_SET (lwip_htons datagram_len) (r_iphdr d))) in
  m ← mwrite (rs_m s) fraghdr hdr;
  chksum ← inet_chksum m fraghdr IP_HLEN;
  m ← mwrite m fraghdr (IPH_CHKSUM_SET chksum hdr);
  s ← join_loop (chain_fuel (bufs (rs_s s))) p (next_pbuf first) (set_rs_m m s);
  prev ← (if bool_decide (reassdatagrams s = Some ipr) then Ok None
          else prev_loop (S (size (rs_data s))) s ipr (reassdatagrams s));
  s ← ip_reass_dequeue_datagram ipr prev s;
  clen ← pbuf_clen (bufs (rs_s s)) (Some p);
  _ ← lwip_assert (clen <=? ip_reass_pbufcount s);
  Ok (Some p, note NOk (set_rs_count (u16 (ip_reass_pbufcount s - clen)) s)).

Definition nullreturn (self p : Z) (s : reass) : res (option Z * reass) :=
  let s := note NDrop s in
  '(_, ps) ← pbuf_free self (Some p) (rs_s s);
  Ok (None, set_rs_s ps s).

(** An entry made for a fragment that is not wanted goes with it. *)
Definition nullreturn_ipr (self ipr p : Z) (s : reass) : res (option Z * reass) :=
  d ← entry s ipr;
  s ← (match r_p d with
       | Some _ => Ok s
       | None =>
           _ ← lwip_assert (bool_decide (reassdatagrams s = Some ipr));
           ip_reass_dequeue_datagram ipr None s
       end);
  nullreturn self p s.

(** The fragment with its entry. *)
Definition queue_frag (self ipr p : Z) (fraghdr : list Z) (clen : Z) (s : reass)
    : res (option Z * reass) :=
  let offset := IPH_OFFSET_BYTES fraghdr in
  let len := u16 (lwip_htons (IPH_LEN fraghdr) - IPH_HL_BYTES fraghdr) in
  let is_last := Z.land (IPH_OFFSET fraghdr) (lwip_htons IP_MF) =? 0 in
  let datagram_len := u16 (offset + len) in
  if is_last && ((datagram_len <? offset) || (0xFFFF - IP_HLEN <? datagram_len))
  then nullreturn_ipr self ipr p s
  else
    '(valid, s) ← ip_reass_chain_frag_into_datagram_and_validate ipr p is_last s;
    if valid =? IP_REASS_VALIDATE_PBUF_DROPPED then nullreturn_ipr self ipr p s
    else
      let s := set_rs_count (u16 (ip_reass_pbufcount s + clen)) s in
      s ← (if is_last then entry_mod (set_r_last datagram_len) ipr s else Ok s);
      if valid =? IP_REASS_VALIDATE_TELEGRAM_FINISHED then finish ipr s else Ok (None, s).

(** The packet that is complete, if one is. *)
Definition ip4_reass (self p : Z) (s : reass) : res (option Z * reass) :=
  let s := note NReqd (note NRecv s) in
  h ← buf_at (rs_s s) p;
  fraghdr ← mread (rs_m s) (p_payload h) 20;
  if negb (IPH_HL_BYTES fraghdr =? IP_HLEN) then nullreturn self p (note NErr s)
  else if lwip_htons (IPH_LEN fraghdr) <? IPH_HL_BYTES fraghdr then nullreturn self p s
  else
    clen ← pbuf_clen (bufs (rs_s s)) (Some p);
    '(full, s) ←
      (if IP_REASS_MAX_PBUFS <? ip_reass_pbufcount s + clen then
         '(freed, s) ← ip_reass_remove_oldest_datagram self fraghdr clen s;
         Ok ((freed =? 0) || (IP_REASS_MAX_PBUFS <? ip_reass_pbufcount s + clen), s)
       else Ok (false, s));
    if full : bool then nullreturn self p (note NMemerr s)
    else
      r ← match_loop (S (size (rs_data s))) s fraghdr (reassdatagrams s);
      match r with
      | None =>
          '(ipr, s) ← ip_reass_enqueue_new_datagram self fraghdr clen s;
          match ipr with
          | None => nullreturn self p s
          | Some ipr => queue_frag self ipr p fraghdr clen s
          end
      | Some ipr =>
          let s := note NCachehit s in
          d ← entry s ipr;
          s ← (if (Z.land (lwip_htons (IPH_OFFSET fraghdr)) IP_OFFMASK =? 0) &&
                  negb (Z.land (lwip_htons (IPH_OFFSET (r_iphdr d))) IP_OFFMASK =? 0)
               then entry_mod (set_r_iphdr fraghdr) ipr s else Ok s);
          queue_frag self ipr p fraghdr clen s
      end.

End frag.
