(* ===== verification/Ip4FragSpec.v ===== *)
(** * Fragments of IPv4 datagrams: what is assembled

    The specification of [Ip4Frag]: a list of datagrams, each with the fragments that
    have arrived, sorted and without overlap.  A fragment that overlaps is not
    taken; when the last one is there and nothing is missing between the first and the
    end, the datagram is delivered.  [delivered_in_any_order]: the fragments of a
    datagram give the datagram whatever the order they arrive in. *)

From S2P Require Import Prelude Memp SysArch Pbuf LwipDef Chksum Ip4Frag.
From Stdlib Require Import Sorted.

(** ** Fragments *)

(** The packet, where its data belongs, the data, the number of its buffers. *)
Record frag : Type := Frag { f_p : Z; f_start : Z; f_data : list Z; f_clen : nat }.

Definition f_end (f : frag) : Z := f_start f + Z.of_nat (length (f_data f)).

(** Two fragments that cannot both be kept. *)
Definition clash (f g : frag) : bool :=
  (f_start f =? f_start g) || ((f_start g <? f_start f) && (f_start f <? f_end g)) ||
  ((f_start f <? f_start g) && (f_start g <? f_end f)).

Definition place (f : frag) (l : list frag) : list frag :=
  List.filter (λ g, f_start g <? f_start f) l ++ f :: List.filter (λ g, f_start f <? f_start g) l.

Definition frag_insert (f : frag) (l : list frag) : option (list frag) :=
  if existsb (clash f) l then None else Some (place f l).

(** No holes from [from] on. *)
Fixpoint joined (from : Z) (l : list frag) : bool :=
  match l with
  | [] => true
  | f :: l => (f_start f =? from) && joined (f_end f) l
  end.

(** ** Datagrams *)

Record dgram : Type := Dgram {
  d_hdr : list Z; d_len : Z; d_last : bool; d_timer : Z; d_frags : list frag;
}.

Definition same_dgram (hdr : list Z) (d : dgram) : bool := IP_ADDRESSES_AND_ID_MATCH (d_hdr d) hdr.

Definition clens (l : list frag) : nat := sum_list (f_clen <$> l).
Definition waiting (A : list dgram) : nat := sum_list ((λ d, clens (d_frags d)) <$> A).

Definition complete (d : dgram) : bool := d_last d && joined 0 (d_frags d).

(** The header of what is delivered: the length of the whole, offset 0, a checksum. *)
Definition whole_hdr (hdr : list Z) (len : Z) : list Z :=
  let hdr := IPH_CHKSUM_SET 0 (IPH_OFFSET_SET 0 (IPH_LEN_SET (lwip_htons (u16 (len + IP_HLEN))) hdr)) in
  IPH_CHKSUM_SET (lwip_htons (rfc_checksum hdr)) hdr.

Definition whole (d : dgram) : list Z :=
  whole_hdr (d_hdr d) (d_len d) ++ concat (f_data <$> d_frags d).

(** ** Timer and eviction *)

Definition a_tick (A : list dgram) : list dgram :=
  omap (λ d, if 0 <? d_timer d
             then Some (Dgram (d_hdr d) (d_len d) (d_last d) (d_timer d - 1) (d_frags d))
             else None) A.

(** The last of those with the lowest timer, apart from the datagram of [hdr]. *)
Fixpoint oldest (hdr : list Z) (A : list dgram) (best : option dgram) : option dgram :=
  match A with
  | [] => best
  | d :: A =>
      oldest hdr A
        (if same_dgram hdr d then best
         else match best with
              | None => Some d
              | Some b => if d_timer d <=? d_timer b then Some d else best
              end)
  end.

Definition without (hdr : list Z) (A : list dgram) : list dgram :=
  List.filter (λ d, negb (same_dgram hdr d)) A.

Fixpoint evict (fuel : nat) (hdr : list Z) (needed freed : Z) (A : list dgram) : Z * list dgram :=
  match fuel, oldest hdr A None with
  | S fuel, Some d =>
      let freed := freed + Z.of_nat (clens (d_frags d)) in
      let others := Z.of_nat (length (without hdr A)) in
      let A := without (d_hdr d) A in
      if (freed <? needed) && (1 <? others) then evict fuel hdr needed freed A else (freed, A)
  | _, _ => (freed, A)
  end.

(** ** A fragment arrives *)

Record arrival : Type := Arrival { a_p : Z; a_hdr : list Z; a_data : list Z; a_clen : nat }.

Definition a_frag (r : arrival) : frag := Frag (a_p r) (IPH_OFFSET_BYTES (a_hdr r)) (a_data r) (a_clen r).
Definition a_is_last (r : arrival) : bool := Z.land (IPH_OFFSET (a_hdr r)) (lwip_htons IP_MF) =? 0.
Definition first_hdr (hdr : list Z) : bool := Z.land (lwip_htons (IPH_OFFSET hdr)) IP_OFFMASK =? 0.

(** The packet that is delivered, with its bytes. *)
Definition outcome : Type := option (Z * list Z).

(** Room for [n] more buffers, if it can be made. *)
Definition a_room (hdr : list Z) (n : Z) (A : list dgram) : bool * list dgram :=
  if IP_REASS_MAX_PBUFS <? Z.of_nat (waiting A) + n then
    let '(freed, A) := evict (length A) hdr n 0 A in
    (negb ((freed =? 0) || (IP_REASS_MAX_PBUFS <? Z.of_nat (waiting A) + n)), A)
  else (true, A).

(** The datagram of the fragment: a new one, or one that is there; it takes the header
    of the first fragment when that arrives. *)
Definition a_entry (hdr : list Z) (d : option dgram) : dgram :=
  match d with
  | None => Dgram hdr 0 false IP_REASS_MAXAGE []
  | Some d =>
      if first_hdr hdr && negb (first_hdr (d_hdr d))
      then Dgram hdr (d_len d) (d_last d) (d_timer d) (d_frags d) else d
  end.

(** The fragment is taken into its datagram; [None]: it is not wanted. *)
Definition a_add (r : arrival) (d : dgram) : option dgram :=
  let f := a_frag r in
  let last := a_is_last r in
  if (if last then 0xFFFF - IP_HLEN else 0xFFFF) <? f_end f then None
  else l ← frag_insert f (d_frags d);
       Some (Dgram (d_hdr d) (if last then f_end f else d_len d) (last || d_last d) (d_timer d) l).

(** The datagram in its place: a new one at the front. *)
Definition a_put (hdr : list Z) (d : dgram) (A : list dgram) : list dgram :=
  if existsb (same_dgram hdr) A then (λ x, if same_dgram hdr x then d else x) <$> A else d :: A.

Definition first_p (d : dgram) : Z := match d_frags d with f :: _ => f_p f | [] => 0 end.

Definition a_reass (r : arrival) (A : list dgram) : outcome * list dgram :=
  let hdr := a_hdr r in
  if negb (IPH_HL_BYTES hdr =? IP_HLEN) then (None, A)
  else
    let '(ok, A) := a_room hdr (Z.of_nat (a_clen r)) A in
    if ok then
      let old := List.find (same_dgram hdr) A in
      let d := a_entry hdr old in
      match a_add r d with
      | None => (None, match old with None => A | Some _ => a_put hdr d A end)
      | Some d =>
          if complete d then (Some (first_p d, whole d), without hdr A) else (None, a_put hdr d A)
      end
    else (None, A).

(** ** Chains of fragments *)

Definition before (f g : frag) : Prop := f_start f < f_start g ∧ f_end f <= f_start g.

Definition chain_ok (l : list frag) : Prop := StronglySorted before l.

Lemma f_end_ge f : f_start f <= f_end f.
Proof. unfold f_end. lia. Qed.

Lemma clash_false f g :
  clash f g = false ↔ before f g ∨ before g f.
Proof.
  unfold clash, before. pose proof (f_end_ge f). pose proof (f_end_ge g).
  rewrite !orb_false_iff, !andb_false_iff, Z.eqb_neq, !Z.ltb_ge. lia.
Qed.

Lemma before_start f g : before f g → f_start f < f_start g.
Proof. by intros [? _]. Qed.

Lemma existsb_false {A} (P : A → bool) l : existsb P l = false ↔ Forall (λ x, P x = false) l.
Proof.
  rewrite Forall_forall. split.
  - intros E x Hx. destruct (P x) eqn:Ex; [|done]. rewrite <- E. symmetry. apply existsb_exists.
    exists x. split; [|done]. by apply list_elem_of_In.
  - intros HF. destruct (existsb P l) eqn:E; [|done]. apply existsb_exists in E as (x & Hx & Ex).
    rewrite HF in Ex; [done|]. by apply list_elem_of_In.
Qed.

(** In a chain the place of a fragment splits it in two. *)
Lemma place_split f l :
  chain_ok l → Forall (λ g, clash f g = false) l →
  ∃ l1 l2, l = l1 ++ l2 ∧ place f l = l1 ++ f :: l2 ∧
    Forall (λ g, before g f) l1 ∧ Forall (before f) l2.
Proof.
  unfold place. induction 1 as [|g l Hs IH Hg]; intros Hc.
  - exists [], []. split_and!; constructor || done.
  - apply Forall_cons in Hc as [Hfg Hc]. apply clash_false in Hfg as [Hfg|Hfg].
    + exists [], (g :: l). split; [done|].
      assert (Forall (before f) (g :: l)) as Hall.
      { constructor; [done|]. eapply Forall_impl; [exact Hg|]. intros x [H1 H2]. destruct Hfg.
        pose proof (f_end_ge g). split; lia. }
      assert (∀ k, Forall (before f) k → List.filter (λ x, f_start x <? f_start f) k = []) as E1.
      { induction 1 as [|x k [Hx _] _ IHk]; [done|]. cbn [List.filter].
        by rewrite (proj2 (Z.ltb_ge _ _)) by lia. }
      assert (∀ k, Forall (before f) k → List.filter (λ x, f_start f <? f_start x) k = k) as E2.
      { induction 1 as [|x k [Hx _] _ IHk]; [done|]. cbn [List.filter].
        rewrite (proj2 (Z.ltb_lt _ _)) by lia. by rewrite IHk. }
      by rewrite E1, E2 by done.
    + destruct (IH Hc) as (l1 & l2 & -> & Ep & H1 & H2). exists (g :: l1), l2. destruct Hfg as [Hlt Hle].
      cbn [List.filter]. rewrite (proj2 (Z.ltb_lt _ _)), (proj2 (Z.ltb_ge (f_start f) _)) by lia.
      split; [done|]. split; [cbn [app]; by rewrite Ep|]. split; [|done]. by constructor.
Qed.

Lemma chain_ok_app l1 l2 :
  chain_ok (l1 ++ l2) ↔ chain_ok l1 ∧ chain_ok l2 ∧ Forall (λ f, Forall (before f) l2) l1.
Proof.
  induction l1 as [|f l1 IH]; cbn [app].
  - split; [|tauto]. intros. split_and!; [constructor|done|constructor].
  - split.
    + intros [(H1 & H2 & H3)%IH H4]%StronglySorted_inv. apply Forall_app in H4 as [H4 H5].
      split_and!; [by constructor|done|by constructor].
    + intros ([H1 H4]%StronglySorted_inv & H2 & [H5 H3]%Forall_cons). constructor; [by apply IH|].
      by apply Forall_app_2.
Qed.

Lemma frag_insert_ok f l l' : chain_ok l → frag_insert f l = Some l' → chain_ok l' ∧ l' ≡ₚ f :: l.
Proof.
  unfold frag_insert. intros Hl. destruct (existsb _ _) eqn:E; [done|]. intros [= <-].
  apply existsb_false in E. destruct (place_split f l Hl E) as (l1 & l2 & -> & -> & H1 & H2).
  apply chain_ok_app in Hl as (Hl1 & Hl2 & Hl12). split; [|by rewrite Permutation_middle].
  apply chain_ok_app. split_and!; [done|by constructor|].
  rewrite Forall_forall in *. intros g Hg. constructor; [by apply H1|by apply Hl12].
Qed.

(** Two chains of the same fragments are the same. *)
Lemma chain_unique l1 : ∀ l2, chain_ok l1 → chain_ok l2 → l1 ≡ₚ l2 → l1 = l2.
Proof.
  induction l1 as [|f l1 IH]; intros l2 H1 H2 Hp; [by apply Permutation_nil_l in Hp|].
  destruct l2 as [|g l2]; [by apply Permutation_nil_r in Hp|].
  apply StronglySorted_inv in H1 as [H1 F1]. apply StronglySorted_inv in H2 as [H2 F2].
  rewrite Forall_forall in F1, F2. assert (f = g) as ->.
  { assert (f ∈ g :: l2) as Hf by (rewrite <- Hp; left). assert (g ∈ f :: l1) as Hg by (rewrite Hp; left).
    apply elem_of_cons in Hf as [->|Hf]; [done|]. apply elem_of_cons in Hg as [->|Hg]; [done|].
    destruct (F1 _ Hg), (F2 _ Hf). lia. }
  f_equal. apply IH; [done..|]. by apply Permutation_cons_inv in Hp.
Qed.

Definition total_len (l : list frag) : nat := sum_list ((λ f, length (f_data f)) <$> l).

Lemma sum_list_perm (l1 l2 : list nat) : l1 ≡ₚ l2 → sum_list l1 = sum_list l2.
Proof. induction 1; simpl; lia. Qed.

(** Without holes, the data ends where the lengths say. *)
Lemma joined_end l : ∀ from f, joined from (l ++ [f]) = true →
  f_end f = from + Z.of_nat (total_len (l ++ [f])).
Proof.
  unfold total_len. induction l as [|g l IH]; intros from f; cbn [app joined fmap list_fmap sum_list].
  - intros [E%Z.eqb_eq _]%andb_true_iff. unfold f_end. simpl. lia.
  - intros [E%Z.eqb_eq Hj]%andb_true_iff. rewrite (IH _ _ Hj). unfold f_end. simpl. lia.
Qed.

Lemma joined_chain from l :
  joined from l = true → Forall (λ f, f_data f ≠ []) l → chain_ok l ∧ Forall (λ f, from <= f_start f) l.
Proof.
  revert from. induction l as [|f l IH]; intros from; cbn [joined]; [intros; split; constructor|].
  intros [E%Z.eqb_eq Hj]%andb_true_iff [Hne Hall]%Forall_cons. destruct (IH _ Hj Hall) as [Hc Hge].
  assert (0 < length (f_data f))%nat by (destruct (f_data f); [done|simpl; lia]).
  pose proof (f_end_ge f). unfold f_end in *. split.
  - constructor; [done|]. eapply Forall_impl; [exact Hge|]. simpl. intros g Hg. unfold before, f_end. lia.
  - constructor; [lia|]. eapply Forall_impl; [exact Hge|]. simpl. intros. lia.
Qed.

(** ** Delivery *)

(** The datagram whose fragments these are, in the order of their offsets: same
    source, destination and number, no options, no holes, none empty, the last one
    marked. *)
Record fragments_of (hdr D : list Z) (rs : list arrival) : Prop := FragmentsOf {
  fo_hdr : a_hdr <$> head rs = Some hdr;
  fo_last : ∃ l r, rs = l ++ [r] ∧ a_is_last r = true ∧ Forall (λ r, a_is_last r = false) l;
  fo_plain : Forall (λ r, IPH_HL_BYTES (a_hdr r) = IP_HLEN) rs;
  fo_same : Forall (λ r, IP_ADDRESSES_AND_ID_MATCH (a_hdr r) hdr = true) rs;
  fo_data : Forall (λ r, a_data r ≠ []) rs;
  fo_joined : joined 0 (a_frag <$> rs) = true;
  fo_whole : concat (a_data <$> rs) = D;
  fo_fits : Z.of_nat (length D) <= 0xFFFF - IP_HLEN;
}.

Fixpoint a_run (rs : list arrival) (A : list dgram) : list outcome * list dgram :=
  match rs with
  | [] => ([], A)
  | r :: rs => let '(o, A) := a_reass r A in let '(os, A) := a_run rs A in (o :: os, A)
  end.

Lemma match_sym a b : IP_ADDRESSES_AND_ID_MATCH a b = IP_ADDRESSES_AND_ID_MATCH b a.
Proof. unfold IP_ADDRESSES_AND_ID_MATCH. by rewrite (Z.eqb_sym (IPH_SRC a)), (Z.eqb_sym (IPH_DEST a)), (Z.eqb_sym (IPH_ID a)). Qed.

Lemma match_cong a b c :
  IP_ADDRESSES_AND_ID_MATCH a b = true → IP_ADDRESSES_AND_ID_MATCH a c = IP_ADDRESSES_AND_ID_MATCH b c.
Proof.
  unfold IP_ADDRESSES_AND_ID_MATCH. rewrite !andb_true_iff, !Z.eqb_eq. intros [[-> ->] ->]. done.
Qed.

Lemma match_refl a : IP_ADDRESSES_AND_ID_MATCH a a = true.
Proof. unfold IP_ADDRESSES_AND_ID_MATCH. by rewrite !Z.eqb_refl. Qed.

Lemma same_dgram_cong a b A :
  IP_ADDRESSES_AND_ID_MATCH a b = true → existsb (same_dgram a) A = existsb (same_dgram b) A.
Proof.
  intros Hm. induction A as [|d A IH]; [done|]. cbn [existsb]. f_equal; [|done].
  unfold same_dgram. rewrite !(match_sym (d_hdr d)). by apply match_cong.
Qed.

Lemma first_hdr_offset hdr : first_hdr hdr = (IPH_OFFSET_BYTES hdr =? 0).
Proof.
  unfold first_hdr, IPH_OFFSET_BYTES. change IP_OFFMASK with (Z.ones 13).
  rewrite Z.land_ones by done. set (x := _ mod _).
  assert (0 <= x < 2 ^ 13) as Hx by (apply Z.mod_pos_bound; done). rewrite wrapu_small by lia.
  destruct (Z.eqb_spec x 0), (Z.eqb_spec (x * 8) 0); lia || done.
Qed.

Lemma find_none {B} (P : B → bool) l : existsb P l = false → List.find P l = None.
Proof. induction l as [|x l IH]; [done|]. cbn [existsb List.find]. by destruct (P x). Qed.

Lemma without_absent hdr A : existsb (same_dgram hdr) A = false → without hdr A = A.
Proof.
  induction A as [|d A IH]; [done|]. cbn [existsb without List.filter].
  intros [-> HA]%orb_false_iff. cbn [negb]. f_equal. by apply IH.
Qed.

Lemma put_absent hdr d A :
  existsb (same_dgram hdr) A = false → (λ x, if same_dgram hdr x then d else x) <$> A = A.
Proof.
  induction A as [|x A IH]; [done|]. cbn [existsb fmap list_fmap].
  intros [-> HA]%orb_false_iff. f_equal. by apply IH.
Qed.

Lemma clens_perm l1 l2 : l1 ≡ₚ l2 → clens l1 = clens l2.
Proof. intros E. unfold clens. by apply sum_list_perm, fmap_Permutation. Qed.

Lemma total_perm l1 l2 : l1 ≡ₚ l2 → total_len l1 = total_len l2.
Proof. intros E. unfold total_len. by apply sum_list_perm, fmap_Permutation. Qed.

Lemma clens_app l1 l2 : clens (l1 ++ l2) = (clens l1 + clens l2)%nat.
Proof. unfold clens. rewrite fmap_app. generalize (f_clen <$> l1). intros k. induction k; simpl; lia. Qed.

Lemma total_len_app l1 l2 : total_len (l1 ++ l2) = (total_len l1 + total_len l2)%nat.
Proof.
  unfold total_len. rewrite fmap_app. generalize ((λ f, length (f_data f)) <$> l1).
  intros k. induction k; simpl; lia.
Qed.

Lemma total_concat l : total_len l = length (concat (f_data <$> l)).
Proof.
  unfold total_len. induction l as [|f l IH]; [done|].
  cbn [fmap list_fmap concat sum_list]. rewrite length_app. simpl in *. lia.
Qed.

(** No fragment of a chain without holes ends behind the data. *)
Lemma chain_end l f : chain_ok l → joined 0 l = true → f ∈ l → f_end f <= Z.of_nat (total_len l).
Proof.
  intros Hc Hj Hf. destruct l as [|z l _] using rev_ind; [set_solver|].
  pose proof (joined_end _ _ _ Hj) as E. apply elem_of_app in Hf as [Hf|Hf].
  - apply chain_ok_app in Hc as (_ & _ & HF). rewrite Forall_forall in HF. specialize (HF f Hf).
    apply Forall_cons in HF as [[_ Hle] _]. pose proof (f_end_ge z). lia.
  - assert (f = z) as -> by set_solver. lia.
Qed.

Section delivery.
Context (hdr D : list Z) (rs : list arrival) (A : list dgram).
Context (Hfo : fragments_of hdr D rs).
Context (Hnew : existsb (same_dgram hdr) A = false).
Context (Hroom : Z.of_nat (waiting A + clens (a_frag <$> rs)) <= IP_REASS_MAX_PBUFS).

Lemma all_chain : chain_ok (a_frag <$> rs).
Proof.
  apply (joined_chain 0); [apply Hfo|]. apply Forall_fmap. eapply Forall_impl; [apply (fo_data _ _ _ Hfo)|]. done.
Qed.

Lemma all_total : total_len (a_frag <$> rs) = length D.
Proof.
  rewrite total_concat, <- list_fmap_compose. rewrite <- (fo_whole _ _ _ Hfo). done.
Qed.

(** Two different fragments of the datagram do not clash. *)
Lemma no_clash r l : (r :: l) ⊆+ rs → Forall (λ g, clash (a_frag r) g = false) (a_frag <$> l).
Proof.
  intros [k Hp]%submseteq_Permutation. pose proof all_chain as Hc. apply Forall_forall.
  intros g Hg. assert (∃ l1 l2 l3, a_frag <$> rs = l1 ++ a_frag r :: l2 ++ g :: l3 ∨
    a_frag <$> rs = l1 ++ g :: l2 ++ a_frag r :: l3) as (l1 & l2 & l3 & E).
  { apply (fmap_Permutation a_frag) in Hp. cbn [app fmap list_fmap] in Hp. rewrite fmap_app in Hp.
    assert (a_frag r ∈ a_frag <$> rs) as (l1 & l2 & E)%list_elem_of_split by (rewrite Hp; left).
    rewrite E in Hp. rewrite <- Permutation_middle in Hp. apply Permutation_cons_inv in Hp.
    assert (g ∈ l1 ++ l2) as [(x & y & ->)%list_elem_of_split|(x & y & ->)%list_elem_of_split]%elem_of_app
      by (rewrite Hp; set_solver).
    - exists x, y, l2. right. rewrite E, <- app_assoc. done.
    - exists l1, x, y. left. by rewrite E. }
  apply clash_false. destruct E as [E|E]; rewrite E in Hc.
  - left. apply chain_ok_app in Hc as (_ & [_ HF]%StronglySorted_inv & _). rewrite Forall_forall in HF.
    apply HF. set_solver.
  - right. apply chain_ok_app in Hc as (_ & [_ HF]%StronglySorted_inv & _). rewrite Forall_forall in HF.
    apply HF. set_solver.
Qed.

(** The datagram when the fragments [S] are there and the headers of [H] were seen. *)
Record collected (S H : list arrival) (d : dgram) : Prop := Collected {
  cl_chain : chain_ok (d_frags d);
  cl_frags : d_frags d ≡ₚ a_frag <$> S;
  cl_same : IP_ADDRESSES_AND_ID_MATCH (d_hdr d) hdr = true;
  cl_last : d_last d = existsb a_is_last S;
  cl_len : d_last d = true → d_len d = Z.of_nat (length D);
  cl_hdr : if existsb (λ r, f_start (a_frag r) =? 0) H then d_hdr d = hdr else first_hdr (d_hdr d) = false;
}.

(** The first fragment has the header, and it alone has offset 0. *)
Lemma start_zero r : r ∈ rs → f_start (a_frag r) = 0 → a_hdr r = hdr.
Proof.
  intros Hr H0. pose proof (fo_hdr _ _ _ Hfo) as Hh. pose proof all_chain as Hc.
  pose proof (fo_joined _ _ _ Hfo) as Hj. clear Hfo Hroom. destruct rs as [|r0 l]; [done|].
  injection Hh as <-. apply elem_of_cons in Hr as [->|Hr]; [done|]. exfalso.
  cbn [fmap list_fmap joined] in Hc, Hj. apply andb_true_iff in Hj as [Hj _]. apply Z.eqb_eq in Hj.
  apply StronglySorted_inv in Hc as [_ HF]. rewrite Forall_forall in HF.
  destruct (HF (a_frag r)) as [? _]; [by apply list_elem_of_fmap_2|]. lia.
Qed.

Lemma hdr_first : first_hdr hdr = true.
Proof.
  rewrite first_hdr_offset. pose proof (fo_hdr _ _ _ Hfo) as Hh. pose proof (fo_joined _ _ _ Hfo) as Hj.
  clear Hfo Hroom. destruct rs as [|r0 l]; [done|]. injection Hh as <-.
  cbn [fmap list_fmap joined] in Hj. by apply andb_true_iff in Hj as [Hj _].
Qed.

(** Where the marked fragment ends. *)
Lemma last_end r : r ∈ rs → a_is_last r = true → f_end (a_frag r) = Z.of_nat (length D).
Proof.
  intros Hr Hl. destruct (fo_last _ _ _ Hfo) as (l & z & E & Hz & Hall).
  assert (r = z) as ->.
  { rewrite E in Hr. apply elem_of_app in Hr as [Hr|Hr]; [|set_solver].
    rewrite Forall_forall in Hall. rewrite Hall in Hl; done. }
  pose proof (fo_joined _ _ _ Hfo) as Hj. pose proof all_total as Ht. rewrite E, fmap_app in Hj, Ht.
  cbn [fmap list_fmap] in Hj, Ht. rewrite (joined_end _ _ _ Hj), Ht. lia.
Qed.

Lemma end_fits r : r ∈ rs → f_end (a_frag r) <= 0xFFFF - IP_HLEN.
Proof.
  intros Hr. destruct (fo_last _ _ _ Hfo) as (l & z & E & Hz & Hall).
  pose proof (fo_fits _ _ _ Hfo) as Hfit. rewrite <- (last_end z) in Hfit; [|rewrite E; set_solver|done].
  rewrite E in Hr. apply elem_of_app in Hr as [Hr|Hr]; [|assert (r = z) as -> by set_solver; lia].
  pose proof all_chain as Hc. rewrite E, fmap_app in Hc. apply chain_ok_app in Hc as (_ & _ & HF).
  rewrite Forall_forall in HF. assert (before (a_frag r) (a_frag z)) as [_ Hle].
  { specialize (HF (a_frag r)). rewrite Forall_forall in HF. apply HF; [by apply list_elem_of_fmap_2|].
    cbn [fmap list_fmap]. set_solver. }
  pose proof (f_end_ge (a_frag z)). lia.
Qed.

Lemma submseteq_elem r (l : list arrival) : r :: l ⊆+ rs → r ∈ rs.
Proof. intros Hs. eapply elem_of_submseteq; [|exact Hs]. left. Qed.

Lemma entry_collected S r d :
  r ∈ rs → collected S S d → collected S (S ++ [r]) (a_entry (a_hdr r) (Some d)).
Proof.
  intros Hr [H1 H2 H3 H4 H5 H6]. cbn [a_entry]. rewrite (first_hdr_offset (a_hdr r)).
  change (IPH_OFFSET_BYTES (a_hdr r)) with (f_start (a_frag r)).
  destruct (existsb (λ r, f_start (a_frag r) =? 0) S) eqn:Es.
  - rewrite H6, hdr_first, andb_false_r. split; try done. by rewrite existsb_app, Es.
  - rewrite H6, andb_true_r. destruct (Z.eqb_spec (f_start (a_frag r)) 0) as [E0|E0].
    + split; cbn [d_frags d_hdr d_last d_len]; try done.
      * pose proof (fo_same _ _ _ Hfo) as HF. rewrite Forall_forall in HF. by apply HF.
      * rewrite existsb_app, Es. cbn [existsb]. rewrite E0. by apply start_zero.
    + split; try done. rewrite existsb_app, Es. cbn [existsb].
      by rewrite (proj2 (Z.eqb_neq _ _) E0).
Qed.

Lemma entry_first r : r ∈ rs → collected [] [r] (a_entry (a_hdr r) None).
Proof.
  intros Hr. split; cbn [a_entry d_frags d_hdr d_last d_len]; try done.
  - constructor.
  - pose proof (fo_same _ _ _ Hfo) as HF. rewrite Forall_forall in HF. by apply HF.
  - cbn [existsb]. destruct (Z.eqb_spec (f_start (a_frag r)) 0) as [E0|E0]; [by apply start_zero|].
    cbn [orb]. rewrite first_hdr_offset. by apply Z.eqb_neq.
Qed.

(** One more fragment is taken. *)
Lemma add_collected S r d :
  r :: S ⊆+ rs → collected S (S ++ [r]) d →
  ∃ d', a_add r d = Some d' ∧ collected (S ++ [r]) (S ++ [r]) d'.
Proof.
  intros Hs [H1 H2 H3 H4 H5 H6]. pose proof (submseteq_elem _ _ Hs) as Hr. unfold a_add.
  pose proof (end_fits r Hr) as Hfit. unfold IP_HLEN in *.
  rewrite (proj2 (Z.ltb_ge _ _)) by (destruct (a_is_last r); lia).
  destruct (frag_insert (a_frag r) (d_frags d)) as [l|] eqn:Ei.
  2: { unfold frag_insert in Ei. rewrite (proj2 (existsb_false _ _)) in Ei; [done|].
       rewrite H2. by apply no_clash. }
  cbn [mbind option_bind]. eexists. split; [reflexivity|].
  destruct (frag_insert_ok _ _ _ H1 Ei) as [Hc Hp].
  split; cbn [d_frags d_hdr d_last d_len]; try done.
  - rewrite Hp, H2, fmap_app. cbn [fmap list_fmap]. by rewrite <- Permutation_cons_append.
  - rewrite existsb_app, H4. cbn [existsb]. rewrite orb_false_r. apply orb_comm.
  - destruct (a_is_last r) eqn:El; [intros _; by apply last_end|]. cbn [orb]. done.
Qed.

(** Nothing but the whole is complete. *)
Lemma collected_complete S d :
  S ⊆+ rs → S ≠ [] → collected S S d → complete d = true ↔ S ≡ₚ rs.
Proof.
  intros Hs Hne [H1 H2 H3 H4 H5 H6]. unfold complete. rewrite andb_true_iff. split.
  - intros [Hl Hj]. apply submseteq_Permutation in Hs as [k Hk].
    rewrite H4 in Hl. apply existsb_exists in Hl as (z & Hz%list_elem_of_In & Hlz).
    assert (z ∈ rs) as Hzr by (rewrite Hk; set_solver).
    assert (a_frag z ∈ d_frags d) as Hzd by (rewrite H2; by apply list_elem_of_fmap_2).
    assert (Z.of_nat (length D) <= Z.of_nat (total_len (d_frags d))) as Hle.
    { rewrite <- (last_end z Hzr Hlz). by apply chain_end. }
    rewrite (total_perm _ _ H2), <- all_total in Hle. rewrite (total_perm _ _ (fmap_Permutation a_frag _ _ Hk)) in Hle.
    rewrite fmap_app, total_len_app in Hle. destruct k as [|r k]; [by rewrite Hk, app_nil_r|].
    pose proof (fo_data _ _ _ Hfo) as HF. rewrite Forall_forall in HF.
    assert (a_data r ≠ []) as Hd by (apply HF; rewrite Hk; set_solver).
    unfold total_len in Hle. cbn [fmap list_fmap a_frag f_data sum_list] in Hle.
    destruct (a_data r); [done|]. simpl in Hle. lia.
  - intros Hp. assert (d_frags d = a_frag <$> rs) as ->.
    { apply chain_unique; [done|apply all_chain|]. by rewrite H2, Hp. }
    split; [|apply (fo_joined _ _ _ Hfo)]. rewrite H4. apply existsb_exists.
    destruct (fo_last _ _ _ Hfo) as (l & z & E & Hz & _). exists z. split; [|done].
    apply list_elem_of_In. rewrite Hp, E. set_solver.
Qed.

(** The list of datagrams while the fragments [S] are there. *)
Definition holding (S : list arrival) (B : list dgram) : Prop :=
  match S with [] => B = A | _ => ∃ d, B = d :: A ∧ collected S S d end.

Lemma step_collected S r B :
  r :: S ⊆+ rs → holding S B →
  ∃ d, collected (S ++ [r]) (S ++ [r]) d ∧
    a_reass r B = if complete d then (Some (first_p d, whole d), A) else (None, d :: A).
Proof.
  intros Hs HB. pose proof (submseteq_elem _ _ Hs) as Hr.
  pose proof (fo_plain _ _ _ Hfo) as Hpl. rewrite Forall_forall in Hpl.
  pose proof (fo_same _ _ _ Hfo) as Hsm. rewrite Forall_forall in Hsm. specialize (Hsm r Hr).
  assert (existsb (same_dgram (a_hdr r)) A = false) as HnA by (by rewrite (same_dgram_cong _ hdr)).
  assert (clens (a_frag <$> (r :: S)) <= clens (a_frag <$> rs))%nat as Hcl.
  { apply submseteq_Permutation in Hs as [k Hk].
    rewrite (clens_perm _ _ (fmap_Permutation a_frag _ _ Hk)), fmap_app, clens_app. lia. }
  assert (a_room (a_hdr r) (Z.of_nat (a_clen r)) B = (true, B)) as Hrm.
  { unfold a_room. rewrite (proj2 (Z.ltb_ge _ _)); [done|].
    assert (waiting B + a_clen r <= waiting A + clens (a_frag <$> rs))%nat; [|lia].
    change (clens (a_frag <$> r :: S)) with (a_clen r + clens (a_frag <$> S))%nat in Hcl.
    destruct S as [|r1 S1]; [cbn [holding] in HB; subst B; cbn in Hcl; lia|].
    destruct HB as (d & -> & Hcd). pose proof (clens_perm _ _ (cl_frags _ _ _ Hcd)) as E.
    change (waiting (d :: A)) with (clens (d_frags d) + waiting A)%nat. lia. }
  unfold a_reass. rewrite (Hpl r Hr), Z.eqb_refl. cbn [negb]. rewrite Hrm.
  destruct S as [|r1 S1].
  - cbn [holding] in HB. subst B. rewrite (find_none _ _ HnA).
    destruct (add_collected [] r _ Hs (entry_first r Hr)) as (d' & -> & Hd'). exists d'. split; [done|].
    unfold a_put. by rewrite HnA, (without_absent _ _ HnA).
  - destruct HB as (d & -> & Hcd). assert (same_dgram (a_hdr r) d = true) as Hsd.
    { unfold same_dgram. rewrite match_sym, (match_cong _ hdr) by done. rewrite match_sym.
      apply (cl_same _ _ _ Hcd). }
    cbn [List.find]. rewrite Hsd.
    destruct (add_collected _ r _ Hs (entry_collected _ r d Hr Hcd)) as (d' & -> & Hd'). exists d'.
    split; [done|]. unfold a_put. cbn [existsb without List.filter fmap list_fmap]. rewrite Hsd.
    cbn [orb negb]. fold (without (a_hdr r) A).
    by rewrite (without_absent _ _ HnA), (put_absent _ _ _ HnA).
Qed.

Definition delivery : outcome :=
  Some (match rs with r :: _ => a_p r | [] => 0 end, whole_hdr hdr (Z.of_nat (length D)) ++ D).

Lemma collected_delivery d :
  ∀ S, S ≡ₚ rs → collected S S d → Some (first_p d, whole d) = delivery.
Proof.
  intros S Hp [H1 H2 H3 H4 H5 H6]. assert (d_frags d = a_frag <$> rs) as E.
  { apply chain_unique; [done|apply all_chain|]. by rewrite H2, Hp. }
  destruct (fo_last _ _ _ Hfo) as (l & z & Ez & Hz & _).
  assert (d_last d = true) as Hl.
  { rewrite H4. apply existsb_exists. exists z. split; [|done].
    apply list_elem_of_In. rewrite Hp, Ez. set_solver. }
  assert (existsb (λ r, f_start (a_frag r) =? 0) S = true) as H0.
  { pose proof (fo_joined _ _ _ Hfo) as Hj. apply existsb_exists. clear - Hj Hp Ez.
    destruct rs as [|r0 k]; [by destruct l|]. exists r0.
    split; [apply list_elem_of_In; rewrite Hp; left|]. cbn [fmap list_fmap joined] in Hj.
    by apply andb_true_iff in Hj as [Hj _]. }
  rewrite H0 in H6. unfold delivery, whole, first_p. rewrite H6, (H5 Hl), E, <- list_fmap_compose.
  change (f_data ∘ a_frag) with a_data. rewrite (fo_whole _ _ _ Hfo). f_equal. f_equal.
  by destruct rs.
Qed.

Lemma run_collected R : ∀ S B,
  R ≠ [] → S ++ R ≡ₚ rs → holding S B →
  a_run R B = (replicate (length R - 1) None ++ [delivery], A).
Proof.
  induction R as [|r R IH]; intros S B Hne Hp HB; [done|]. clear Hne.
  assert (r :: S ⊆+ rs) as Hs.
  { rewrite <- Hp, <- Permutation_middle. apply submseteq_skip. apply submseteq_inserts_r. done. }
  destruct (step_collected S r B Hs HB) as (d & Hd & E). cbn [a_run]. rewrite E.
  assert (S ++ [r] ⊆+ rs) as Hs' by (by rewrite <- Permutation_cons_append).
  assert (S ++ [r] ≠ []) as Hne by (by destruct S).
  pose proof (collected_complete _ _ Hs' Hne Hd) as Hc. destruct R as [|r2 R].
  - rewrite (proj2 Hc Hp). cbn [a_run length replicate app Nat.sub].
    by rewrite (collected_delivery d (S ++ [r])).
  - destruct (complete d) eqn:Ecd.
    { exfalso. pose proof (Permutation_length (proj1 Hc eq_refl)) as E1.
      apply Permutation_length in Hp. rewrite length_app in *. simpl in *. lia. }
    rewrite (IH (S ++ [r])); [|done|by rewrite <- app_assoc|].
    { cbn [length]. replace (Datatypes.S (Datatypes.S (length R)) - 1)%nat with (Datatypes.S (Datatypes.S (length R) - 1)) by lia. done. }
    destruct (S ++ [r]) eqn:El; [done|]. cbn [holding]. by exists d.
Qed.

End delivery.

(** Whatever the order the fragments of a datagram arrive in, the datagram is delivered
    with the last of them, and nothing else changes. *)
Lemma delivered_in_any_order hdr D rs A rs' :
  fragments_of hdr D rs → existsb (same_dgram hdr) A = false →
  Z.of_nat (waiting A + clens (a_frag <$> rs)) <= IP_REASS_MAX_PBUFS → rs' ≡ₚ rs →
  a_run rs' A = (replicate (length rs - 1) None ++ [delivery hdr D rs], A).
Proof.
  intros Hfo Hn Hr Hp. rewrite <- (Permutation_length Hp).
  apply (run_collected hdr D rs A Hfo Hn Hr rs' [] A); [|done|done].
  intros ->. apply Permutation_nil_l in Hp. subst rs. destruct (fo_last _ _ _ Hfo) as ([|] & ? & E & _); done.
Qed.
