(* ===== verification/Ip4FragRep.v ===== *)
(** * Fragments of IPv4 datagrams: the chains in memory

    How the specification of [Ip4FragSpec] is laid out in the memory of [Ip4Frag]: each
    fragment is a packet whose first bytes are the helper structure, the packets of
    all datagrams are apart from each other, and what the functions do with one of them
    leaves the others alone. *)

From S2P Require Import Prelude Memp SysArch Pbuf PbufPacket PbufWrite PbufCopy LwipDef Chksum LwipMem.
From S2P Require Import LwipMemProofs LwipMemSpec PbufAlloc PbufLife PbufStore PbufClients Ip4Frag Ip4FragSpec.
From Stdlib Require Import Sorted.

Section rep.
Context `{Platform}.

Lemma ptr_size_cases : ptr_size = 4%nat ∨ ptr_size = 8%nat.
Proof. unfold ptr_size. destruct ptr_bytes_cases as [-> | ->]; [by left|by right]. Qed.

(** ** The bytes of a packet *)

(** The addresses of the bytes of a chain of buffers. *)
Definition covers (k : list (Z * pbuf)) (x : Z) : Prop := ∃ b, b ∈ k ∧ in_range b.2 x.

Definition agree_off (k : list (Z * pbuf)) (m m' : gmap Z Z) : Prop :=
  ∀ x, ¬ covers k x → m' !! x = m !! x.

Lemma covers_node l n x : n ∈ l → in_range (n_hdr n) x → covers (shape l) x.
Proof.
  intros Hn Hx. exists (n_addr n, n_hdr n). split; [|done]. unfold shape. apply list_elem_of_fmap. by exists n.
Qed.

Lemma agree_off_trans k m1 m2 m3 : agree_off k m1 m2 → agree_off k m2 m3 → agree_off k m1 m3.
Proof. intros H1 H2 x Hx. by rewrite H2, H1. Qed.

Lemma agree_off_refl k m : agree_off k m m.
Proof. by intros x _. Qed.

Lemma shape_addrs l : (shape l).*1 = n_addr <$> l.
Proof. unfold shape. by rewrite <- list_fmap_compose. Qed.

(** Writing at the front of a packet. *)
Lemma packet_write_head pb m a h s l d :
  let k := Node a h s :: l in
  packet pb m (Some a) k → apart k → Forall is_byte d → (length d <= length s)%nat →
  ∃ m', mwrite m (p_payload h) d = Ok m' ∧ packet pb m' (Some a) (Node a h (d ++ drop (length d) s) :: l) ∧
    agree_off (shape k) m m'.
Proof.
  intros k Hp Hap Hd Hl.
  destruct (packet_write pb m (Some a) [] (Node a h s) l 0 d Hp Hap Hd) as (m' & E & Hp' & Hu).
  { simpl. lia. }
  cbn [n_hdr n_addr n_data] in E, Hp'. rewrite Z.add_0_r in E. cbn [Nat.add take app] in Hp'.
  exists m'. split; [done|]. split; [done|]. intros x Hx. apply Hu.
  intros n ->%list_elem_of_singleton Hin. apply Hx. apply (covers_node _ (Node a h s)); [by left|done].
Qed.

(** ** Helper structures *)

Lemma length_helper_bytes h : length (helper_bytes h) = (ptr_size + 4)%nat.
Proof. unfold helper_bytes. rewrite !length_app, !length_le_bytes. lia. Qed.

Lemma helper_bytes_bytes h : Forall is_byte (helper_bytes h).
Proof. unfold helper_bytes. repeat apply Forall_app_2; apply le_bytes_is_byte. Qed.

Definition ptr_ok (p : option Z) : Prop :=
  match p with None => True | Some a => 0 < a < 256 ^ Z.of_nat ptr_size end.

Definition helper_ok (h : ip_reass_helper) : Prop :=
  ptr_ok (next_pbuf h) ∧ 0 <= h_start h < 2 ^ 16 ∧ 0 <= h_end h < 2 ^ 16.

Lemma hget_bytes m a n s h :
  mread m a n = Ok s → take (ptr_size + 4) s = helper_bytes h → helper_ok h → hget m a = Ok h.
Proof.
  intros Hr Ht (Hp & Hs & He). unfold hget.
  assert (mread m a (ptr_size + 4) = Ok (helper_bytes h)) as ->.
  { pose proof (mread_Ok m n a s) as [Hm _]. destruct (Hm Hr) as [Hl _].
    assert (ptr_size + 4 <= n)%nat.
    { apply (f_equal length) in Ht. rewrite length_take, length_helper_bytes in Ht. lia. }
    pose proof (mread_sub _ _ _ _ 0 (ptr_size + 4) Hr) as E. rewrite Z.add_0_r, drop_0, Ht in E. apply E. lia. }
  cbn [mbind res_bind]. f_equal. unfold helper_bytes, hdr_field.
  rewrite take_app_length' by (by rewrite length_le_bytes).
  rewrite drop_app_length' by (by rewrite length_le_bytes).
  rewrite (take_app_length' (le_bytes 2 (h_start h))) by (by rewrite length_le_bytes).
  rewrite app_assoc, drop_app_length' by (rewrite length_app, !length_le_bytes; lia).
  rewrite take_ge by (by rewrite length_le_bytes).
  rewrite !le_val_le_bytes by (done || (destruct h as [[q|] st en]; simpl in *; lia)).
  destruct h as [[q|] st en]; cbn [next_pbuf h_start h_end ptr_val] in *; unfold ptr_of; [|done].
  cbn [ptr_ok] in Hp. by rewrite (proj2 (Z.eqb_neq q 0)) by lia.
Qed.

(** A fragment in memory: a packet that begins with the helper. *)
Record frag_at (pb : gmap Z pbuf) (m : gmap Z Z) (sh : Z → list (Z * pbuf)) (nxt : option Z)
    (f : frag) (h : pbuf) (s : list Z) (l : list node) : Prop := FragAt {
  fa_packet : packet pb m (Some (f_p f)) (Node (f_p f) h s :: l);
  fa_apart : apart (Node (f_p f) h s :: l);
  fa_shape : shape (Node (f_p f) h s :: l) = sh (f_p f);
  fa_clen : S (length l) = f_clen f;
  fa_hdr : (20 <= length s)%nat;
  fa_helper : take (ptr_size + 4) s = helper_bytes (Helper nxt (f_start f) (f_end f));
  fa_data : drop 20 s ++ content l = f_data f;
  fa_next : ptr_ok nxt;
  fa_self : ptr_ok (Some (f_p f));
  fa_start : 0 <= f_start f;
  fa_end : f_end f < 2 ^ 16;
}.

Definition is_frag (pb : gmap Z pbuf) (m : gmap Z Z) (sh : Z → list (Z * pbuf)) (nxt : option Z)
    (f : frag) : Prop := ∃ h s l, frag_at pb m sh nxt f h s l.

Lemma is_frag_helper pb m sh nxt f :
  is_frag pb m sh nxt f →
  ∃ h, pb !! f_p f = Some h ∧ hget m (p_payload h) = Ok (Helper nxt (f_start f) (f_end f)) ∧
    (f_p f, h) ∈ sh (f_p f) ∧ in_range h (p_payload h).
Proof.
  intros (h & s & l & [Hp Hap Hsh Hcl Hl Hh Hd Hn Hse Hst He]). exists h. inversion Hp; subst.
  split; [done|]. split; [|split].
  - eapply hget_bytes; [done..|]. unfold helper_ok. cbn [next_pbuf h_start h_end].
    pose proof (f_end_ge f). split_and!; try done; lia.
  - rewrite <- Hsh. by left.
  - unfold in_range. lia.
Qed.

Lemma is_frag_frame pb m sh nxt f pb' m' :
  is_frag pb m sh nxt f → (∀ x, covers (sh (f_p f)) x → m' !! x = m !! x) →
  (∀ a, a ∈ (sh (f_p f)).*1 → pb' !! a = pb !! a) → is_frag pb' m' sh nxt f.
Proof.
  intros (h & s & l & [Hp Hap Hsh Hcl Hl Hh Hd Hn Hse Hst He]) Hm Hpb.
  exists h, s, l. split; try done. rewrite <- Hsh in Hm, Hpb. rewrite shape_addrs in Hpb.
  eapply packet_agree; [eapply packet_pb_agree; [exact Hp|]|].
  - intros n Hn'. apply Hpb. apply list_elem_of_fmap. by exists n.
  - intros n x Hn' Hx. apply Hm. by eapply covers_node.
Qed.

(** The link of a fragment is changed. *)
Lemma is_frag_link pb m sh nxt f h p :
  is_frag pb m sh nxt f → pb !! f_p f = Some h → ptr_ok p →
  ∃ m', hput_next m (p_payload h) p = Ok m' ∧ is_frag pb m' sh p f ∧ agree_off (sh (f_p f)) m m'.
Proof.
  intros (h' & s & l & [Hp Hap Hsh Hcl Hl Hh Hd Hn Hse Hst He]) Hh' Hpo.
  assert (h' = h) as -> by (inversion Hp; congruence). unfold hput_next.
  pose proof ptr_size_cases as Hps.
  destruct (packet_write_head pb m (f_p f) h s l (le_bytes ptr_size (ptr_val p))) as (m' & E & Hp' & Hag);
    [done..|apply le_bytes_is_byte|rewrite length_le_bytes; lia|].
  exists m'. split; [done|]. rewrite <- Hsh. split; [|done]. rewrite length_le_bytes in Hp'.
  exists h, (le_bytes ptr_size (ptr_val p) ++ drop ptr_size s), l. split; try done.
  - rewrite length_app, length_le_bytes, length_drop. lia.
  - unfold helper_bytes. cbn [next_pbuf h_start h_end]. rewrite take_app_ge by (rewrite length_le_bytes; lia).
    f_equal. rewrite length_le_bytes. replace (ptr_size + 4 - ptr_size)%nat with 4%nat by lia.
    unfold helper_bytes in Hh. cbn [next_pbuf h_start h_end] in Hh.
    apply (f_equal (drop ptr_size)) in Hh. rewrite <- take_drop_commute in Hh. rewrite Hh.
    by rewrite drop_app_length' by (by rewrite length_le_bytes).
  - rewrite drop_app_ge by (rewrite length_le_bytes; lia). rewrite length_le_bytes, drop_drop.
    replace (ptr_size + (20 - ptr_size))%nat with 20%nat by lia. done.
Qed.

(** ** Chains of fragments *)

Definition head_p (fs : list frag) : option Z := f_p <$> head fs.

Fixpoint frags_at (pb : gmap Z pbuf) (m : gmap Z Z) (sh : Z → list (Z * pbuf)) (fs : list frag) : Prop :=
  match fs with
  | [] => True
  | f :: fs => is_frag pb m sh (head_p fs) f ∧ frags_at pb m sh fs
  end.

(** The packets share neither buffers nor bytes. *)
Definition sep (sh : Z → list (Z * pbuf)) (ps : list Z) : Prop :=
  NoDup ps ∧ ∀ p q, p ∈ ps → q ∈ ps → p ≠ q →
    (∀ a, a ∈ (sh p).*1 → a ∈ (sh q).*1 → False) ∧ (∀ x, covers (sh p) x → covers (sh q) x → False).

Lemma sep_perm sh ps qs : ps ≡ₚ qs → sep sh ps → sep sh qs.
Proof.
  intros Hp [Hn Hs]. split; [by rewrite <- Hp|]. intros p q. rewrite <- !Hp. apply Hs.
Qed.

Lemma sep_app sh ps qs : sep sh (ps ++ qs) → sep sh ps ∧ sep sh qs.
Proof.
  intros [Hn Hs]. apply NoDup_app in Hn as (H1 & _ & H2). split; split; try done; intros; apply Hs; set_solver.
Qed.

Lemma frags_at_lookup pb m sh fs f : frags_at pb m sh fs → f ∈ fs → ∃ nxt, is_frag pb m sh nxt f.
Proof.
  induction fs as [|g fs IH]; [set_solver|]. intros [Hg Hfs] [->|Hf]%elem_of_cons; eauto.
Qed.

Lemma frags_at_frame pb m sh fs pb' m' :
  frags_at pb m sh fs → (∀ f x, f ∈ fs → covers (sh (f_p f)) x → m' !! x = m !! x) →
  (∀ f a, f ∈ fs → a ∈ (sh (f_p f)).*1 → pb' !! a = pb !! a) → frags_at pb' m' sh fs.
Proof.
  induction fs as [|f fs IH]; [done|]. intros [Hf Hfs] Hm Hpb. split.
  - eapply is_frag_frame; [done|..]; intros; [eapply Hm|eapply Hpb]; (done || left).
  - apply IH; [done|..]; intros; [eapply Hm|eapply Hpb]; (done || by right).
Qed.

(** Writing into a packet apart from these. *)
Lemma frags_at_off pb m sh fs p m' :
  frags_at pb m sh fs → sep sh (p :: (f_p <$> fs)) → agree_off (sh p) m m' → frags_at pb m' sh fs.
Proof.
  intros Hf [Hn Hs] Ha. eapply frags_at_frame; [done| |done]. intros f x Hin Hc. apply Ha. intros Hc'.
  assert (f_p f ∈ f_p <$> fs) as Hin' by (by apply list_elem_of_fmap_2).
  destruct (Hs p (f_p f)) as [_ Hx]; [left|by right| |by eapply Hx].
  intros ->. by apply NoDup_cons in Hn as [Hn _].
Qed.

Lemma head_p_app l1 l2 : head_p (l1 ++ l2) = match l1 with [] => head_p l2 | _ => head_p l1 end.
Proof. by destruct l1. Qed.

Lemma head_p_ok pb m sh fs : frags_at pb m sh fs → ptr_ok (head_p fs).
Proof. destruct fs as [|f fs]; [done|]. by intros [(h & s & l & Hf) _]; destruct Hf. Qed.

Lemma frags_at_app pb m sh l1 l2 : frags_at pb m sh (l1 ++ l2) → frags_at pb m sh l2.
Proof. induction l1 as [|f l1 IH]; [done|]. intros [_ Hf]. by apply IH. Qed.

(** The chain is led on to another one: the last fragment of [l1] gets a new link. *)
Lemma frags_at_relink pb m sh l1 f l2 l2' h :
  frags_at pb m sh (l1 ++ f :: l2) → frags_at pb m sh l2' → pb !! f_p f = Some h →
  sep sh (f_p <$> (l1 ++ f :: l2')) →
  ∃ m', hput_next m (p_payload h) (head_p l2') = Ok m' ∧ frags_at pb m' sh (l1 ++ f :: l2') ∧
    agree_off (sh (f_p f)) m m'.
Proof.
  intros Hl Hl2 Hh Hs. pose proof (frags_at_app _ _ _ _ _ Hl) as [Hf _].
  destruct (is_frag_link pb m sh _ f h (head_p l2') Hf Hh) as (m' & E & Hf' & Hag);
    [by eapply head_p_ok|]. exists m'. split; [done|]. split; [|done].
  assert (sep sh (f_p f :: (f_p <$> (l1 ++ l2')))) as Hsf.
  { eapply sep_perm; [|exact Hs]. rewrite !fmap_app. cbn [fmap list_fmap]. by rewrite Permutation_middle. }
  assert (frags_at pb m' sh l2') as Hl2'.
  { eapply frags_at_off; [done| |exact Hag]. rewrite fmap_app in Hsf. eapply (sep_app _ (f_p f :: (f_p <$> l2')) (f_p <$> l1)).
    eapply sep_perm; [|exact Hsf]. cbn [app]. rewrite (Permutation_app_comm (f_p <$> l1)). done. }
  assert (sep sh (f_p f :: (f_p <$> l1))) as Hs1.
  { rewrite fmap_app in Hsf. by apply (sep_app _ (f_p f :: (f_p <$> l1)) (f_p <$> l2')). }
  clear Hs Hsf Hl2. induction l1 as [|g l1 IH]; cbn [app frags_at] in *; [done|]. destruct Hl as [Hg Hl]. split.
  - eapply is_frag_frame; [destruct l1; exact Hg| |done]. intros x Hx. apply Hag. intros Hx'.
    cbn [fmap list_fmap] in Hs1. destruct Hs1 as [Hn Hs1]. apply NoDup_cons in Hn as [Hn _].
    destruct (Hs1 (f_p f) (f_p g)) as [_ Hc]; [set_solver..|by eapply Hc].
  - apply IH; [done|]. cbn [fmap list_fmap] in Hs1.
    eapply (sep_app _ (f_p f :: (f_p <$> l1)) [f_p g]). eapply sep_perm; [|exact Hs1].
    cbn [app]. by rewrite <- Permutation_cons_append.
Qed.

(** ** A fragment arrives *)

(** The packet of the arrival in memory. *)
Record arrives (pb : gmap Z pbuf) (m : gmap Z Z) (sh : Z → list (Z * pbuf)) (r : arrival)
    (h : pbuf) (s : list Z) (l : list node) : Prop := Arrives {
  ar_packet : packet pb m (Some (a_p r)) (Node (a_p r) h s :: l);
  ar_apart : apart (Node (a_p r) h s :: l);
  ar_shape : shape (Node (a_p r) h s :: l) = sh (a_p r);
  ar_clen : S (length l) = a_clen r;
  ar_len : (20 <= length s)%nat;
  ar_hdr : take 20 s = a_hdr r;
  ar_data : drop 20 s ++ content l = a_data r;
  ar_self : ptr_ok (Some (a_p r));
}.

Lemma arrives_header pb m sh r h s l :
  arrives pb m sh r h s l → pb !! a_p r = Some h ∧ mread m (p_payload h) 20 = Ok (a_hdr r).
Proof.
  intros [Hp Hap Hsh Hcl Hl Hh Hd Hs]. inversion Hp as [|? ? ? ? Ha Hlen Hr Hb]; subst. split; [done|].
  pose proof (mread_sub _ _ _ _ 0 20 Hr) as E. rewrite Z.add_0_r, drop_0, Hh in E. apply E. lia.
Qed.

Lemma offset_range hdr : 0 <= IPH_OFFSET_BYTES hdr < 2 ^ 16.
Proof. unfold IPH_OFFSET_BYTES, wrapu. apply Z.mod_pos_bound. done. Qed.

(** The helper is laid over its header. *)
Lemma arrives_frag pb m sh r h s l :
  arrives pb m sh r h s l → f_end (a_frag r) < 2 ^ 16 →
  ∃ m', hput m (p_payload h) (Helper None (IPH_OFFSET_BYTES (a_hdr r)) (f_end (a_frag r))) = Ok m' ∧
    is_frag pb m' sh None (a_frag r) ∧ agree_off (sh (a_p r)) m m'.
Proof.
  intros [Hp Hap Hsh Hcl Hl Hh Hd Hs] He. unfold hput. pose proof ptr_size_cases as Hps.
  set (hb := helper_bytes _).
  assert (length hb = (ptr_size + 4)%nat) as Hlb by apply length_helper_bytes.
  destruct (packet_write_head pb m (a_p r) h s l hb) as (m' & E & Hp' & Hag);
    [done..|apply helper_bytes_bytes|lia|].
  exists m'. split; [done|]. rewrite <- Hsh. split; [|done]. rewrite Hlb in Hp'.
  pose proof (offset_range (a_hdr r)) as Hor.
  exists h, (hb ++ drop (ptr_size + 4) s), l. split; try done.
  - rewrite length_app, length_drop. lia.
  - by rewrite take_app_length' by done.
  - rewrite drop_app_ge by lia. rewrite Hlb, drop_drop.
    replace (ptr_size + 4 + (20 - (ptr_size + 4)))%nat with 20%nat by lia. done.
  - cbn [a_frag f_start]. lia.
Qed.

(** ** Walking the chain *)

(** No holes between the fragments. *)
Definition linked (l : list frag) : bool :=
  match l with [] => true | f :: l => joined (f_end f) l end.

Definition ends_at (from : Z) (l : list frag) : Z :=
  match last l with None => from | Some f => f_end f end.

Lemma joined_app l1 : ∀ from l2, joined from (l1 ++ l2) = joined from l1 && joined (ends_at from l1) l2.
Proof.
  induction l1 as [|f l1 IH]; intros from l2; [done|]. cbn [app joined]. rewrite IH, andb_assoc.
  do 2 f_equal. unfold ends_at. destruct l1 as [|y l1]; [done|]. rewrite last_cons_cons.
  destruct (last (y :: l1)) eqn:E; [done|]. by apply last_None in E.
Qed.

Lemma linked_snoc l f :
  linked (l ++ [f]) = match last l with None => true | Some g => if f_end g =? f_start f then linked l else false end.
Proof.
  destruct l as [|x l]; [done|]. cbn [app linked]. rewrite joined_app. cbn [joined].
  rewrite andb_true_r, andb_comm, Z.eqb_sym. unfold ends_at. destruct l as [|y l]; [cbn; by destruct (_ =? _)|].
  rewrite last_cons_cons. destruct (last (y :: l)) as [g|] eqn:E; [by destruct (_ =? _)|].
  by apply last_None in E.
Qed.

(** The fragment before the current one, as the walk remembers it. *)
Definition prev_at (pb : gmap Z pbuf) (pre rest : list frag) (prev : option (Z * ip_reass_helper)) : Prop :=
  match last pre with
  | None => prev = None
  | Some g => ∃ h, pb !! f_p g = Some h ∧
      prev = Some (p_payload h, Helper (head_p rest) (f_start g) (f_end g))
  end.

(** How the walk of [f] over the chain [L] ends. *)
Definition walked (pb : gmap Z pbuf) (sh : Z → list (Z * pbuf)) (f : frag) (m : gmap Z Z)
    (L : list frag) (w : walk_end) : Prop :=
  match w with
  | WDropped m' => existsb (clash f) L = true ∧ agree_off (sh (f_p f)) m m' ∧ ∃ nxt, is_frag pb m' sh nxt f
  | WInserted m' first valid => ∃ l1 g l2, L = l1 ++ g :: l2 ∧
      Forall (λ x, before x f) l1 ∧ Forall (before f) (g :: l2) ∧
      frags_at pb m' sh (l1 ++ f :: g :: l2) ∧ first = bool_decide (l1 = []) ∧
      valid = linked (l1 ++ [f]) ∧
      (∀ x, ¬ covers (sh (f_p f)) x → (∀ y, y ∈ L → ¬ covers (sh (f_p y)) x) → m' !! x = m !! x)
  | WLast prev valid => Forall (λ x, before x f) L ∧ prev_at pb L [] prev ∧ valid = linked L
  end.

Lemma frag_walk_spec pb sh f hf fuel : ∀ rest pre m prev,
  pb !! f_p f = Some hf → is_frag pb m sh None f →
  frags_at pb m sh (pre ++ rest) → chain_ok (pre ++ rest) → sep sh (f_p <$> (f :: pre ++ rest)) →
  Forall (λ g, before g f) pre → prev_at pb pre rest prev → (length rest < fuel)%nat →
  ∃ w, frag_walk fuel pb m (f_p f) (p_payload hf) (f_start f) (f_end f) (head_p rest) prev (linked pre)
      = Ok w ∧ walked pb sh f m (pre ++ rest) w.
Proof.
  induction fuel as [|fuel IH]; intros rest pre m prev Hf Hfr Hat Hc Hs Hb Hpv Hl; [lia|].
  destruct rest as [|g rest].
  { cbn [head_p head fmap option_fmap option_map frag_walk]. eexists. split; [reflexivity|].
    rewrite app_nil_r. done. }
  pose proof (frags_at_app _ _ _ _ _ Hat) as [Hg Hrest].
  destruct (is_frag_helper _ _ _ _ _ Hg) as (hg & Hhg & Hget & _ & _).
  cbn [head_p head fmap option_fmap option_map frag_walk]. rewrite Hhg. cbn [oget mbind res_bind].
  rewrite Hget. cbn [mbind res_bind h_start h_end next_pbuf].
  assert (∀ x, clash f x = true → x ∈ pre ++ g :: rest → existsb (clash f) (pre ++ g :: rest) = true) as Hdrop.
  { intros x Hx Hin. apply existsb_exists. exists x. split; [by apply list_elem_of_In|done]. }
  assert (Some (f_p g) = head_p (g :: rest)) as Eg by done.
  destruct (Z.ltb_spec (f_start f) (f_start g)) as [Hlt|Hge].
  - (* its place is before [g] *)
    destruct (is_frag_link pb m sh None f hf (Some (f_p g)) Hfr Hf) as (m1 & E1 & Hfr1 & Hag1).
    { rewrite Eg. eapply head_p_ok. apply (frags_at_app _ _ _ _ _ Hat). }
    rewrite E1. cbn [mbind res_bind].
    assert (frags_at pb m1 sh (pre ++ g :: rest)) as Hat1 by (by eapply frags_at_off).
    assert (∀ b, clash f g = b → (f_start g <? f_end f) = b) as Hcl.
    { intros b <-. unfold clash. rewrite (proj2 (Z.eqb_neq _ _)), (proj2 (Z.ltb_ge (f_start g) (f_start f))) by lia.
      cbn [orb andb]. rewrite (proj2 (Z.ltb_lt (f_start f) (f_start g))) by lia. done. }
    destruct (clash f g) eqn:Ecl; rewrite (Hcl _ eq_refl).
    { assert (existsb (clash f) (pre ++ g :: rest) = true) by (eapply Hdrop; [done|set_solver]).
      destruct prev as [[pa ph]|]; rewrite ?orb_true_r; eexists; (split; [reflexivity|]); (split; [done|split; [done|by eexists]]). }
    assert (Forall (before f) (g :: rest)) as Hbf.
    { apply clash_false in Ecl. assert (before f g) as Hfg by (destruct Ecl as [|[? _]]; [done|lia]).
      constructor; [done|]. apply chain_ok_app in Hc as (_ & [_ HF]%StronglySorted_inv & _).
      eapply Forall_impl; [exact HF|]. intros x [Hx1 Hx2]. destruct Hfg. pose proof (f_end_ge g). split; lia. }
    unfold prev_at in Hpv. destruct (last pre) as [z|] eqn:Ez.
    + destruct Hpv as (hz & Hhz & ->). cbn [h_end]. apply last_Some in Ez as [pre' ->].
      apply Forall_app in Hb as [Hb1 Hbz]. apply Forall_cons in Hbz as [Hbz _]. pose proof (Hbz : before z f) as [Hz1 Hz2].
      rewrite (proj2 (Z.ltb_ge _ _)) by lia. cbn [orb].
      destruct (frags_at_relink pb m1 sh pre' z (g :: rest) (f :: g :: rest) hz) as (m2 & E2 & Hat2 & Hag2).
      * by rewrite <- app_assoc in Hat1.
      * split; [done|]. by apply (frags_at_app _ _ _ (pre' ++ [z])).
      * done.
      * eapply sep_perm; [|exact Hs]. rewrite <- app_assoc. cbn [app].
        rewrite (Permutation_app_comm pre'). apply fmap_Permutation. simpl.
        rewrite (Permutation_app_comm pre'). simpl. apply Permutation_swap.
      * change (head_p (f :: g :: rest)) with (Some (f_p f)) in E2. rewrite E2. cbn [mbind res_bind].
        eexists. split; [reflexivity|]. exists (pre' ++ [z]), g, rest. split; [done|].
        split; [apply Forall_app_2; [done|by constructor]|]. split; [done|].
        split; [by rewrite <- app_assoc|]. split; [rewrite bool_decide_false; [done|by destruct pre']|].
        split; [by rewrite (linked_snoc (pre' ++ [z])), last_snoc|].
        intros x Hx Hx'. rewrite Hag2, Hag1; [done|done|apply Hx'; set_solver].
    + subst prev. apply last_None in Ez as ->. eexists. split; [reflexivity|].
      exists [], g, rest. split; [done|]. split; [done|]. split; [done|]. split; [by split|].
      split; [done|]. split; [done|]. intros x Hx _. by apply Hag1.
  - destruct (Z.eqb_spec (f_start f) (f_start g)) as [Heq|Hne].
    { eexists. split; [reflexivity|]. split; [|split; [apply agree_off_refl|by eexists]]. apply (Hdrop g); [|set_solver].
      unfold clash. by rewrite Heq, Z.eqb_refl. }
    destruct (Z.ltb_spec (f_start f) (f_end g)) as [Hlt|Hge2].
    { eexists. split; [reflexivity|]. split; [|split; [apply agree_off_refl|by eexists]]. apply (Hdrop g); [|set_solver].
      unfold clash. rewrite (proj2 (Z.eqb_neq _ _)), (proj2 (Z.ltb_lt (f_start g) _)) by lia.
      rewrite (proj2 (Z.ltb_lt (f_start f) _)) by lia. done. }
    destruct (IH rest (pre ++ [g]) m (Some (p_payload hg, Helper (head_p rest) (f_start g) (f_end g))))
      as (w & Ew & Hw); rewrite <- ?app_assoc; try done.
    + apply Forall_app_2; [done|]. constructor; [|done]. split; lia.
    + unfold prev_at. rewrite last_snoc. by exists hg.
    + simpl in Hl. lia.
    + exists w. split; [|by rewrite <- app_assoc in Hw]. rewrite <- Ew. f_equal. rewrite linked_snoc.
      unfold prev_at in Hpv. destruct (last pre) as [z|] eqn:Ez.
      * destruct Hpv as (hz & Hhz & ->). done.
      * subst prev. by apply last_None in Ez as ->.
Qed.

Lemma frags_fuel pb m sh L : frags_at pb m sh L → NoDup (f_p <$> L) → (length L < chain_fuel pb)%nat.
Proof.
  intros Hat Hn. unfold chain_fuel.
  assert (list_to_set (f_p <$> L) ⊆ dom pb) as Hsub.
  { intros x (f & -> & Hf)%elem_of_list_to_set%list_elem_of_fmap. apply elem_of_dom.
    destruct (frags_at_lookup _ _ _ _ _ Hat Hf) as (n & (h & Hh & _)%is_frag_helper). eauto. }
  apply subseteq_size in Hsub. rewrite size_list_to_set, length_fmap, size_dom in Hsub by done. lia.
Qed.

Lemma holes_loop_spec pb m sh fuel : ∀ f L h,
  frags_at pb m sh (f :: L) → pb !! f_p f = Some h → (length L < fuel)%nat →
  ∃ a hl, holes_loop fuel pb m (p_payload h) (Helper (head_p L) (f_start f) (f_end f)) (head_p L)
      = Ok (linked (f :: L), a, hl) ∧
    (linked (f :: L) = true → ∃ z hz, last (f :: L) = Some z ∧ pb !! f_p z = Some hz ∧
      a = p_payload hz ∧ next_pbuf hl = None).
Proof.
  induction fuel as [|fuel IH]; intros f L h Hat Hh Hl; [lia|]. destruct L as [|g L].
  { eexists _, _. split; [reflexivity|]. intros _. by exists f, h. }
  destruct Hat as [Hf Hat]. pose proof Hat as [Hg _].
  destruct (is_frag_helper _ _ _ _ _ Hg) as (hg & Hhg & Hget & _).
  cbn [head_p head fmap option_fmap option_map holes_loop]. rewrite Hhg. cbn [oget mbind res_bind].
  rewrite Hget. cbn [mbind res_bind h_start h_end next_pbuf linked joined]. rewrite (Z.eqb_sym (f_start g)).
  destruct (f_end f =? f_start g) eqn:E; cbn [negb andb].
  - destruct (IH g L hg Hat Hhg) as (a & hl & E1 & Hz); [simpl in Hl; lia|]. exists a, hl. split; [done|].
    intros (z & hz & Hz')%Hz. exists z, hz. by rewrite last_cons_cons.
  - eexists _, _. split; [reflexivity|]. done.
Qed.

Definition flags_of (last : bool) : Z := if last then IP_REASS_FLAG_LASTFRAG else 0.

(** Packets apart have their data at different places. *)
Lemma sep_payload pb m sh L f g hf hg :
  frags_at pb m sh L → sep sh (f_p <$> L) → f ∈ L → g ∈ L → f_p f ≠ f_p g →
  pb !! f_p f = Some hf → pb !! f_p g = Some hg → p_payload hf ≠ p_payload hg.
Proof.
  intros Hat [_ Hs] Hf Hg Hne Ef Eg E.
  destruct (frags_at_lookup _ _ _ _ _ Hat Hf) as (n1 & (h1 & H1 & _ & Hi1 & Hr1)%is_frag_helper).
  destruct (frags_at_lookup _ _ _ _ _ Hat Hg) as (n2 & (h2 & H2 & _ & Hi2 & Hr2)%is_frag_helper).
  rewrite Ef in H1. injection H1 as <-. rewrite Eg in H2. injection H2 as <-.
  destruct (Hs (f_p f) (f_p g)) as [_ Hx]; [by apply list_elem_of_fmap_2..|done|].
  eapply Hx; [by exists (f_p f, hf)|]. exists (f_p g, hg). split; [done|]. by rewrite E.
Qed.

Lemma validate_spec s sh ipr d L1 f L2 h is_last lst :
  let L := L1 ++ f :: L2 in
  rs_data s !! ipr = Some d → r_p d = head_p L → r_flags d = flags_of lst →
  frags_at (bufs (rs_s s)) (rs_m s) sh L → chain_ok L → sep sh (f_p <$> L) →
  bufs (rs_s s) !! f_p f = Some h → (is_last || lst = true → ∃ g, g ∈ L ∧ 0 < f_start g) →
  validate s ipr (p_payload h) is_last (linked (L1 ++ [f])) =
    Ok (if (is_last || lst) && joined 0 L then 1 else 0).
Proof.
  intros L Hd Hp Hfl Hat Hc Hs Hh Hgt. unfold validate, entry. rewrite Hd. cbn [oget mbind res_bind].
  rewrite Hfl. replace (negb (Z.land (flags_of lst) IP_REASS_FLAG_LASTFRAG =? 0)) with lst by by destruct lst.
  destruct (is_last || lst) eqn:El; cbn [andb]; [|done]. specialize (Hgt eq_refl).
  destruct L as [|g L'] eqn:EL; [by destruct L1|]. rewrite Hp. cbn [head_p head fmap option_fmap option_map].
  assert (linked (g :: L') = linked (L1 ++ [f]) && linked (f :: L2)) as Elk.
  { rewrite <- EL. unfold L. destruct L1 as [|x L1]; [done|]. cbn [app linked].
    rewrite !joined_app. cbn [joined]. rewrite andb_true_r, andb_assoc. done. }
  assert (joined 0 (g :: L') = (f_start g =? 0) && linked (g :: L')) as Ej by done.
  pose proof Hat as [Hg _]. destruct (is_frag_helper _ _ _ _ _ Hg) as (hg & Hhg & Hget & _).
  destruct (linked (L1 ++ [f])) eqn:Ev; cbn [negb].
  2: { rewrite Ej, Elk, andb_false_r. done. }
  unfold helper_of, buf_at. rewrite Hhg. cbn [oget mbind res_bind]. rewrite Hget.
  cbn [mbind res_bind h_start]. rewrite Ej. destruct (Z.eqb_spec (f_start g) 0) as [E0|E0]; cbn [negb andb].
  2: { done. }
  assert (frags_at (bufs (rs_s s)) (rs_m s) sh (f :: L2)) as Hf2.
  { rewrite <- EL in Hat. by apply frags_at_app in Hat. }
  pose proof Hf2 as [Hf _]. destruct (is_frag_helper _ _ _ _ _ Hf) as (h' & Hh' & Hgetf & _).
  rewrite Hh in Hh'. injection Hh' as <-. rewrite Hgetf. cbn [mbind res_bind next_pbuf].
  assert (length L2 < chain_fuel (bufs (rs_s s)))%nat as Hfu.
  { destruct Hs as [Hn _]. pose proof (frags_fuel _ _ _ _ Hat Hn) as Hfu. rewrite <- EL in Hfu. unfold L in Hfu.
    rewrite length_app in Hfu. simpl in Hfu. lia. }
  destruct (holes_loop_spec _ _ sh _ f L2 h Hf2 Hh Hfu) as (la & hl & -> & Hz). cbn [mbind res_bind].
  rewrite Elk. cbn [andb]. destruct (linked (f :: L2)) eqn:Ef; [|done].
  destruct (Hz eq_refl) as (z & hz & Ez & Hhz & -> & ->). unfold lwip_assert.
  assert (last_z : last (g :: L') = Some z).
  { rewrite <- EL. unfold L. rewrite last_app_cons. done. }
  assert (f_p g ≠ f_p z) as Hne.
  { intros E. destruct Hgt as (y & Hy & Hy0). apply last_Some in last_z as [k Ek].
    destruct k as [|g' k]; [|].
    - injection Ek as -> ->. assert (y = z) as -> by set_solver. lia.
    - injection Ek as -> Ek. destruct Hs as [Hn _]. rewrite Ek in Hn. cbn [fmap list_fmap] in Hn.
      apply NoDup_cons in Hn as [Hn _]. apply Hn. rewrite E. apply list_elem_of_fmap_2. set_solver. }
  assert (z ∈ g :: L') as Hzin by (apply last_Some in last_z as [k ->]; set_solver).
  pose proof (sep_payload _ _ _ _ g z hg hz Hat Hs ltac:(left) Hzin Hne Hhg Hhz) as Hpne.
  rewrite (proj2 (Z.eqb_neq _ _) Hpne). done.
Qed.

(** ** Chaining *)

(** A header without options whose length is that of the packet. *)
Definition plain (r : arrival) : Prop :=
  IPH_HL_BYTES (a_hdr r) = IP_HLEN ∧
  lwip_htons (IPH_LEN (a_hdr r)) = IP_HLEN + Z.of_nat (length (a_data r)).

Lemma set_r_p_id d : set_r_p (r_p d) d = d.
Proof. by destruct d. Qed.

Lemma set_rs_data_id s : set_rs_data (rs_data s) s = s.
Proof. by destruct s. Qed.

(** What is chained now: [L'] from [p] on, with other bytes in memory. *)
Definition chained (s s' : reass) (sh : Z → list (Z * pbuf)) (ipr : Z) (d : ip_reassdata) (r : arrival)
    (L L' : list frag) : Prop :=
  ∃ m', s' = set_rs_data (<[ipr := set_r_p (head_p L') d]> (rs_data s)) (set_rs_m m' s) ∧
    frags_at (bufs (rs_s s)) m' sh L' ∧
    ∀ x, ¬ covers (sh (a_p r)) x → (∀ y, y ∈ L → ¬ covers (sh (f_p y)) x) → m' !! x = rs_m s !! x.

Lemma filter_all {B} (P : B → bool) l : Forall (λ x, P x = true) l → List.filter P l = l.
Proof. induction 1 as [|x l Hx _ IH]; [done|]. cbn [List.filter]. by rewrite Hx, IH. Qed.

Lemma filter_none {B} (P : B → bool) l : Forall (λ x, P x = false) l → List.filter P l = [].
Proof. induction 1 as [|x l Hx _ IH]; [done|]. cbn [List.filter]. by rewrite Hx, IH. Qed.

Lemma place_eq f l1 l2 :
  Forall (λ x, before x f) l1 → Forall (before f) l2 →
  existsb (clash f) (l1 ++ l2) = false ∧ frag_insert f (l1 ++ l2) = Some (l1 ++ f :: l2).
Proof.
  intros H1 H2. assert (existsb (clash f) (l1 ++ l2) = false) as E.
  { apply existsb_false. apply Forall_app_2; eapply Forall_impl; [exact H1| |exact H2|];
      simpl; intros x Hx; apply clash_false; tauto. }
  split; [done|]. unfold frag_insert. rewrite E. f_equal. unfold place. rewrite !List.filter_app.
  rewrite (filter_all (λ g, f_start g <? f_start f) l1), (filter_none (λ g, f_start g <? f_start f) l2),
    (filter_none (λ g, f_start f <? f_start g) l1), (filter_all (λ g, f_start f <? f_start g) l2).
  - by rewrite app_nil_r.
  - eapply Forall_impl; [exact H2|]. intros x [Hx _]. by apply Z.ltb_lt.
  - eapply Forall_impl; [exact H1|]. simpl. intros x [Hx _]. apply Z.ltb_ge. lia.
  - eapply Forall_impl; [exact H2|]. intros x [Hx _]. apply Z.ltb_ge. lia.
  - eapply Forall_impl; [exact H1|]. simpl. intros x [Hx _]. by apply Z.ltb_lt.
Qed.

(** The packet is still there, with other bytes. *)
Definition still_there (pb : gmap Z pbuf) (m m' : gmap Z Z) (sh : Z → list (Z * pbuf)) (p : Z) : Prop :=
  agree_off (sh p) m m' ∧ ∃ l, packet pb m' (Some p) l ∧ shape l = sh p.

Lemma is_frag_still pb m m' sh nxt f :
  is_frag pb m' sh nxt f → agree_off (sh (f_p f)) m m' → still_there pb m m' sh (f_p f).
Proof. intros (h & s & l & Hf) Ha. destruct Hf. split; [done|]. eauto. Qed.

Section chain_frag.
Context (s : reass) (sh : Z → list (Z * pbuf)) (ipr : Z) (d : ip_reassdata) (L : list frag) (lst : bool).
Context (r : arrival) (h : pbuf) (sd : list Z) (l : list node).
Context (Hd : rs_data s !! ipr = Some d) (Hp : r_p d = head_p L) (Hfl : r_flags d = flags_of lst).
Context (Hat : frags_at (bufs (rs_s s)) (rs_m s) sh L) (Hc : chain_ok L).
Context (Hs : sep sh (a_p r :: (f_p <$> L))).
Context (Har : arrives (bufs (rs_s s)) (rs_m s) sh r h sd l) (Hpl : plain r).

(** An offset so high that the end is beyond 16 bits. *)
Lemma chain_frag_overflow :
  2 ^ 16 <= f_end (a_frag r) →
  ∃ m', ip_reass_chain_frag_into_datagram_and_validate ipr (a_p r) (a_is_last r) s =
      Ok (IP_REASS_VALIDATE_PBUF_DROPPED, set_rs_m m' s) ∧ still_there (bufs (rs_s s)) (rs_m s) m' sh (a_p r).
Proof.
  intros He. destruct (arrives_header _ _ _ _ _ _ _ Har) as [Hh Hr]. destruct Hpl as [Hhl Hln].
  unfold ip_reass_chain_frag_into_datagram_and_validate, buf_at. rewrite Hh. cbn [oget mbind res_bind].
  rewrite Hr. cbn [mbind res_bind]. rewrite Hln, Hhl. unfold IP_HLEN in *.
  rewrite (proj2 (Z.ltb_ge _ _)) by lia. pose proof (offset_range (a_hdr r)) as Hor.
  assert (Z.of_nat (length (a_data r)) < 2 ^ 16) as Hdl.
  { rewrite <- (ar_data _ _ _ _ _ _ _ Har). pose proof (packet_len _ _ _ _ (ar_packet _ _ _ _ _ _ _ Har)) as Hpk.
    rewrite content_cons in Hpk. cbn [n_data] in Hpk. rewrite length_app in *. rewrite length_drop. lia. }
  rewrite (wrapu_small 16 (20 + _ - 20)) by lia. unfold f_end in He. cbn [a_frag f_start f_data] in He.
  set (e := u16 (IPH_OFFSET_BYTES (a_hdr r) + (20 + Z.of_nat (length (a_data r)) - 20))).
  assert (e < IPH_OFFSET_BYTES (a_hdr r)) as Hlt.
  { unfold e, wrapu. rewrite <- (Z.mod_add _ (-1)) by lia. rewrite Z.mod_small; lia. }
  assert (0 <= e < 2 ^ 16) as Her by (unfold e, wrapu; apply Z.mod_pos_bound; done).
  destruct Har as [Hpk Hap Hsh Hcl Hl Hhd Hda Hse]. pose proof ptr_size_cases as Hps.
  destruct (packet_write_head (bufs (rs_s s)) (rs_m s) (a_p r) h sd l
    (helper_bytes (Helper None (IPH_OFFSET_BYTES (a_hdr r)) e))) as (m' & E & Hpk' & Hag);
    [done..|apply helper_bytes_bytes|rewrite length_helper_bytes; lia|].
  unfold hput. rewrite E. cbn [mbind res_bind]. rewrite (proj2 (Z.ltb_lt _ _) Hlt).
  exists m'. split; [done|]. split; [by rewrite <- Hsh|]. eexists. split; [exact Hpk'|exact Hsh].
Qed.

Lemma chain_frag_spec :
  f_end (a_frag r) < 2 ^ 16 → (a_is_last r || lst = true → ∃ g, g ∈ a_frag r :: L ∧ 0 < f_start g) →
  match frag_insert (a_frag r) L with
  | None => ∃ m', ip_reass_chain_frag_into_datagram_and_validate ipr (a_p r) (a_is_last r) s =
      Ok (IP_REASS_VALIDATE_PBUF_DROPPED, set_rs_m m' s) ∧ still_there (bufs (rs_s s)) (rs_m s) m' sh (a_p r)
  | Some L' => ∃ s', ip_reass_chain_frag_into_datagram_and_validate ipr (a_p r) (a_is_last r) s =
      Ok (if (a_is_last r || lst) && joined 0 L' then 1 else 0, s') ∧ chained s s' sh ipr d r L L'
  end.
Proof.
  intros He Hgt. destruct (arrives_header _ _ _ _ _ _ _ Har) as [Hh Hr]. pose proof Hpl as [Hhl Hln].
  unfold ip_reass_chain_frag_into_datagram_and_validate, buf_at. rewrite Hh. cbn [oget mbind res_bind].
  rewrite Hr. cbn [mbind res_bind]. rewrite Hln, Hhl. pose proof (offset_range (a_hdr r)) as Hor.
  unfold f_end in He. cbn [a_frag f_start f_data] in He. unfold IP_HLEN.
  rewrite (proj2 (Z.ltb_ge _ _)), !(wrapu_small 16) by (rewrite ?wrapu_small; lia).
  replace (IPH_OFFSET_BYTES (a_hdr r) + (20 + Z.of_nat (length (a_data r)) - 20)) with (f_end (a_frag r))
    by (unfold f_end; cbn [a_frag f_start f_data]; lia).
  destruct (arrives_frag _ _ _ _ _ _ _ Har) as (m1 & E1 & Hfr & Hag1); [done|]. rewrite E1.
  cbn [mbind res_bind]. rewrite (proj2 (Z.ltb_ge _ _)) by apply (f_end_ge (a_frag r)).
  unfold entry. cbn [set_rs_m rs_data rs_s rs_m]. rewrite Hd. cbn [oget mbind res_bind]. rewrite Hp.
  assert (frags_at (bufs (rs_s s)) m1 sh L) as Hat1 by (by eapply frags_at_off).
  destruct (frag_walk_spec (bufs (rs_s s)) sh (a_frag r) h (chain_fuel (bufs (rs_s s))) L [] m1 None)
    as (w & Ew & Hw); try done.
  { eapply frags_fuel; [exact Hat1|]. destruct Hs as [Hn _]. by apply NoDup_cons in Hn as [_ ?]. }
  cbn [a_frag f_p f_start linked app] in Ew, Hw. rewrite Ew. cbn [mbind res_bind]. clear Ew.
  destruct w as [m2|m2 first valid|prev valid]; cbn [walked] in Hw.
  - destruct Hw as (Hcl & Hag2 & nxt & Hfr2). unfold frag_insert. rewrite Hcl. exists m2. split; [done|].
    eapply (is_frag_still _ _ _ _ _ (a_frag r)); [exact Hfr2|]. by eapply agree_off_trans.
  - destruct Hw as (l1 & g & l2 & -> & H1 & H2 & Hat2 & -> & -> & Hag2).
    pose proof (place_eq _ _ _ H1 H2) as [_ Ei]. rewrite Ei.
    set (L' := l1 ++ a_frag r :: g :: l2) in *.
    destruct (frag_insert_ok _ _ _ Hc Ei) as [Hc' Hp'].
    set (s1 := set_rs_data (<[ipr := set_r_p (head_p L') d]> (rs_data s)) (set_rs_m m2 s)).
    assert ((if bool_decide (l1 = []) then entry_mod (set_r_p (Some (a_p r))) ipr (set_rs_m m2 (set_rs_m m1 s))
             else Ok (set_rs_m m2 (set_rs_m m1 s))) = Ok s1) as ->.
    { change (set_rs_m m2 (set_rs_m m1 s)) with (set_rs_m m2 s). destruct l1 as [|x l1].
      - rewrite bool_decide_true by done. unfold entry_mod, entry. cbn [set_rs_m rs_data]. rewrite Hd. done.
      - rewrite bool_decide_false by done. unfold s1, L'. cbn [head_p app head fmap option_fmap option_map].
        cbn [head_p app head fmap option_fmap option_map] in Hp. rewrite <- Hp, set_r_p_id, insert_id by done.
        by destruct s. }
    cbn [mbind res_bind].
    rewrite (validate_spec s1 sh ipr (set_r_p (head_p L') d) l1 (a_frag r) (g :: l2) h _ lst);
      try done; fold L'.
    + cbn [mbind res_bind]. exists s1. split; [done|]. exists m2. split; [done|]. split; [done|].
      intros x Hx Hx'. rewrite Hag2 by done. by apply Hag1.
    + unfold s1. cbn [set_rs_data rs_data]. by rewrite lookup_insert_eq.
    + eapply sep_perm; [|exact Hs]. by rewrite Hp'.
    + intros (y & Hy & Hy0)%Hgt. exists y. by rewrite Hp'.
  - destruct Hw as (H1 & Hpv & ->). pose proof (place_eq _ _ [] H1 ltac:(constructor)) as [_ Ei].
    rewrite app_nil_r in Ei. rewrite Ei. destruct (frag_insert_ok _ _ _ Hc Ei) as [Hc' Hp'].
    unfold append_frag. unfold prev_at in Hpv. destruct (last L) as [z|] eqn:Ez.
    + destruct Hpv as (hz & Hhz & ->). cbn [h_end set_rs_m rs_m]. apply last_Some in Ez as [L0 ->].
      assert (before z (a_frag r)) as [_ Hz2] by (by apply Forall_app in H1 as [_ [? _]%Forall_cons]).
      unfold lwip_assert. cbn [a_frag f_start] in Hz2. rewrite (proj2 (Z.leb_le _ _) Hz2). cbn [mbind res_bind].
      destruct (frags_at_relink (bufs (rs_s s)) m1 sh L0 z [] [a_frag r] hz) as (m2 & E2 & Hat2 & Hag2); try done.
      { eapply sep_perm; [|exact Hs]. change (a_p r) with (f_p (a_frag r)).
        rewrite !fmap_app. cbn [fmap list_fmap]. rewrite (Permutation_app_comm _ [f_p z]). simpl.
        rewrite (Permutation_app_comm _ [f_p z; _]). simpl. apply Permutation_swap. }
      change (head_p [a_frag r]) with (Some (a_p r)) in E2. rewrite E2. cbn [mbind res_bind].
      change (set_rs_m m2 (set_rs_m m1 s)) with (set_rs_m m2 s).
      replace (if f_end z =? IPH_OFFSET_BYTES (a_hdr r) then linked (L0 ++ [z]) else false)
        with (linked ((L0 ++ [z]) ++ [a_frag r])) by (by rewrite (linked_snoc (L0 ++ [z])), last_snoc).
      assert (Hhd : head_p ((L0 ++ [z]) ++ [a_frag r]) = r_p d) by (rewrite Hp; by destruct L0).
      set (s1 := set_rs_m m2 s).
      rewrite (validate_spec s1 sh ipr d (L0 ++ [z]) (a_frag r) [] h _ lst); try done.
      * cbn [mbind res_bind]. exists s1. split; [done|]. exists m2.
        rewrite Hhd, set_r_p_id, insert_id by done. split; [by destruct s|].
        split; [by rewrite <- app_assoc|]. intros x Hx Hx'. rewrite Hag2 by (apply Hx'; set_solver).
        by apply Hag1.
      * by rewrite <- app_assoc.
      * eapply sep_perm; [|exact Hs]. by rewrite Hp'.
      * intros (y & Hy & Hy0)%Hgt. exists y. by rewrite Hp'.
    + subst prev. apply last_None in Ez as ->. unfold entry_mod, entry. cbn [set_rs_m rs_data].
      rewrite Hd. cbn [oget mbind res_bind]. rewrite Hp. cbn [head_p head fmap option_fmap option_map is_some negb lwip_assert mbind res_bind].
      set (s1 := set_rs_data _ _).
      rewrite (validate_spec s1 sh ipr (set_r_p (Some (a_p r)) d) [] (a_frag r) [] h _ lst); try done.
      * cbn [mbind res_bind]. exists s1. split; [done|]. exists m1. split; [done|]. split; [by split|].
        intros x Hx _. by apply Hag1.
      * unfold s1. cbn [set_rs_data rs_data]. by rewrite lookup_insert_eq.
Qed.

End chain_frag.

End rep.
