(* ===== verification/Ip4FragRun.v ===== *)
(** * Fragments of IPv4 datagrams: the code implements the specification

    [rep] relates the whole state of [Ip4Frag] to a list of datagrams of [Ip4FragSpec].
    Every call goes through without a fault and does what the specification says;
    packets that are given up are released, and a packet that is delivered has the
    bytes of the datagram. *)

From S2P Require Import Prelude Memp SysArch Pbuf PbufPacket PbufWrite PbufCopy LwipDef Chksum LwipMem.
From S2P Require Import LwipMemProofs LwipMemSpec PbufAlloc PbufLife PbufStore PbufClients.
From S2P Require Import Ip4Frag Ip4FragSpec Ip4FragRep.
From Stdlib Require Import Sorted.

(** ** Releasing a packet leaves the others alone *)

Lemma pbuf_dealloc_bufs self a h s s' : pbuf_dealloc self a h s = Ok s' → bufs s' = delete a (bufs s).
Proof.
  unfold pbuf_dealloc. intros E. destruct (is_custom h).
  - destruct (custom_fn s !! a); [|done]. by injection E as <-.
  - repeat (destruct (_ =? _)).
    + destruct (do_memp_free_pool _ _); [|done]. by injection E as <-.
    + destruct (do_memp_free_pool _ _); [|done]. by injection E as <-.
    + destruct (mem_free _ _ _); [|done]. by injection E as <-.
    + done.
Qed.

Lemma free_loop_frame self fuel : ∀ s p c c' s' l b,
  free_loop fuel self p c s = Ok (c', s') → bchain (bufs s) p l → b ∉ l → bufs s' !! b = bufs s !! b.
Proof.
  induction fuel as [|fuel IH]; intros s p c c' s' l b E Hc Hb; destruct p as [a|]; cbn [free_loop] in E; try done.
  1, 3: by injection E as <- <-.
  inversion Hc as [|? h l' Ha Hc']; subst. unfold buf_at in E. rewrite Ha in E. cbn [oget mbind res_bind] in E.
  destruct (lwip_assert _); [|done]. cbn [mbind res_bind] in E. unfold buf_mod, buf_at in E. rewrite Ha in E.
  cbn [oget mbind res_bind] in E. apply not_elem_of_cons in Hb as [Hne Hb]. destruct (_ =? 0).
  - destruct (pbuf_dealloc _ _ _ _) as [s1|] eqn:Ed; [|done]. cbn [mbind res_bind] in E.
    apply pbuf_dealloc_bufs in Ed. cbn [bufs set_bufs] in Ed. rewrite delete_insert_eq in Ed.
    pose proof (bchain_NoDup _ _ _ Hc) as [Hni _]%NoDup_cons.
    rewrite (IH _ _ _ _ _ l' b E); [by rewrite Ed, lookup_delete_ne| |done].
    eapply bchain_frame; [exact Hc'|]. intros x Hx. rewrite Ed, lookup_delete_ne; [done|]. by intros ->.
  - injection E as <- <-. cbn [bufs set_bufs]. by rewrite lookup_insert_ne.
Qed.

Lemma packet_bchain pb m p l : packet pb m p l → bchain pb p (n_addr <$> l).
Proof. induction 1; [constructor|]. by econstructor. Qed.

#[export] Instance sound_proper ar s : Proper (Permutation ==> iff) (sound ar s).
Proof. intros hs hs' Hp. split; by apply sound_perm. Qed.

#[export] Instance sep_proper sh : Proper (Permutation ==> iff) (sep sh).
Proof. intros ps qs Hp. split; by apply sep_perm. Qed.

(** ** Lists of datagrams *)

Definition addrs (sh : Z → list (Z * pbuf)) (fs : list frag) (b : Z) : Prop :=
  ∃ f, f ∈ fs ∧ b ∈ (sh (f_p f)).*1.

Definition heads (A : list dgram) : list Z := f_p <$> (A ≫= d_frags).

Lemma heads_app A B : heads (A ++ B) = heads A ++ heads B.
Proof. unfold heads. by rewrite bind_app, fmap_app. Qed.

Lemma heads_cons d A : heads (d :: A) = (f_p <$> d_frags d) ++ heads A.
Proof. unfold heads. by rewrite bind_cons, fmap_app. Qed.

Lemma waiting_app A B : waiting (A ++ B) = (waiting A + waiting B)%nat.
Proof.
  unfold waiting. rewrite fmap_app. generalize ((λ d, clens (d_frags d)) <$> A). intros k. induction k; simpl; lia.
Qed.

Lemma sorted_remove {B} (R : B → B → Prop) l1 x l2 :
  StronglySorted R (l1 ++ x :: l2) → StronglySorted R (l1 ++ l2).
Proof.
  induction l1 as [|y l1 IH]; cbn [app]; [by intros [? _]%StronglySorted_inv|].
  intros [Hs HF]%StronglySorted_inv. constructor; [by apply IH|].
  apply Forall_app in HF as [H1 [_ H2]%Forall_cons]. by apply Forall_app_2.
Qed.

Lemma heads_middle A d B : heads (A ++ d :: B) ≡ₚ (f_p <$> d_frags d) ++ heads (A ++ B).
Proof. rewrite !heads_app, heads_cons, !app_assoc. apply Permutation_app; [apply Permutation_app_comm|done]. Qed.

Lemma waiting_middle A d B : waiting (A ++ d :: B) = (clens (d_frags d) + waiting (A ++ B))%nat.
Proof. rewrite !waiting_app. change (waiting (d :: B)) with (clens (d_frags d) + waiting B)%nat. lia. Qed.

Lemma without_app hdr A B : without hdr (A ++ B) = without hdr A ++ without hdr B.
Proof. apply List.filter_app. Qed.

Definition other_key (d1 d2 : dgram) : Prop := same_dgram (d_hdr d1) d2 = false.

Lemma without_key A e B :
  StronglySorted other_key (A ++ e :: B) → without (d_hdr e) (A ++ e :: B) = A ++ B.
Proof.
  intros Hs. rewrite without_app. cbn [without List.filter]. unfold same_dgram at 1. rewrite match_refl. cbn [negb].
  fold (without (d_hdr e) B). rewrite !without_absent; [done|..]; apply existsb_false.
  - induction A as [|x A IH]; cbn [app] in Hs; [by apply StronglySorted_inv in Hs as [_ ?]|].
    apply IH. by apply StronglySorted_inv in Hs as [? _].
  - induction A as [|x A IH]; [constructor|]. cbn [app] in Hs. apply StronglySorted_inv in Hs as [Hs HF].
    constructor; [|by apply IH]. apply Forall_app in HF as [_ [HF _]%Forall_cons].
    unfold other_key, same_dgram in *. by rewrite match_sym.
Qed.

Lemma oldest_some hdr A e : oldest hdr A (Some e) ≠ None.
Proof.
  revert e. induction A as [|d A IH]; intros e; [done|]. cbn [oldest].
  destruct (same_dgram hdr d); [apply IH|]. destruct (_ <=? _); apply IH.
Qed.

Lemma oldest_none hdr A : oldest hdr A None = None → without hdr A = [].
Proof.
  induction A as [|d A IH]; [done|]. cbn [oldest without List.filter]. destruct (same_dgram hdr d); [apply IH|].
  intros E. by apply oldest_some in E.
Qed.

(** An entry is changed, but not its fragments. *)
Lemma keys_swap l1 d d' l2 :
  IP_ADDRESSES_AND_ID_MATCH (d_hdr d') (d_hdr d) = true →
  StronglySorted other_key (l1 ++ d :: l2) → StronglySorted other_key (l1 ++ d' :: l2).
Proof.
  intros Hm. induction l1 as [|x l1 IH]; cbn [app]; intros [Hs HF]%StronglySorted_inv.
  - constructor; [done|]. eapply Forall_impl; [exact HF|]. unfold other_key, same_dgram. intros y.
    rewrite !(match_sym (d_hdr y)). by rewrite (match_cong _ _ _ Hm).
  - constructor; [by apply IH|]. apply Forall_app in HF as [H1 [H2 H3]%Forall_cons].
    apply Forall_app_2; [done|]. constructor; [|done]. unfold other_key, same_dgram in *.
    by rewrite (match_cong _ _ _ Hm).
Qed.

Lemma length_put_field off n v hdr k :
  length hdr = k → (off + n <= k)%nat → length (put_field off n v hdr) = k.
Proof. intros <- Hle. unfold put_field. rewrite !length_app, length_take, length_drop, length_le_bytes. lia. Qed.

Lemma put_field_bytes off n v hdr : Forall is_byte hdr → Forall is_byte (put_field off n v hdr).
Proof.
  intros Hb. unfold put_field. apply Forall_app_2; [by apply Forall_take|].
  apply Forall_app_2; [apply le_bytes_is_byte|by apply Forall_drop].
Qed.

(** A change of what belongs to other packets. *)
Lemma rest_frame `{Platform} sh pb m pb' m' d A :
  Forall (λ d, frags_at pb m sh (d_frags d)) A → sep sh (heads (d :: A)) →
  (∀ x, (∀ f, f ∈ d_frags d → ¬ covers (sh (f_p f)) x) → m' !! x = m !! x) →
  (∀ b, ¬ addrs sh (d_frags d) b → pb' !! b = pb !! b) →
  Forall (λ d, frags_at pb' m' sh (d_frags d)) A.
Proof.
  intros HF [Hn Hs] Hm Hpb. rewrite Forall_forall in HF. apply Forall_forall. intros e He.
  rewrite heads_cons in Hn, Hs. apply NoDup_app in Hn as (_ & Hn & _).
  assert (∀ f g, f ∈ d_frags d → g ∈ d_frags e → (∀ a, a ∈ (sh (f_p f)).*1 → a ∈ (sh (f_p g)).*1 → False) ∧
    (∀ x, covers (sh (f_p f)) x → covers (sh (f_p g)) x → False)) as Hx.
  { intros f g Hf Hg. assert (f_p f ∈ f_p <$> d_frags d) as Hf' by (by apply list_elem_of_fmap_2).
    assert (f_p g ∈ heads A) as Hg'.
    { unfold heads. apply list_elem_of_fmap_2. apply list_elem_of_bind. by exists e. }
    apply Hs; [set_solver..|]. intros E. apply (Hn (f_p f) Hf'). by rewrite E. }
  eapply frags_at_frame; [by apply HF|..].
  - intros g x Hg Hc. apply Hm. intros f Hf Hc'. by apply (proj2 (Hx f g Hf Hg) x).
  - intros g b Hg Hb. apply Hpb. intros (f & Hf & Hb'). by apply (proj1 (Hx f g Hf Hg) b).
Qed.

Section run.
Context `{Platform}.
Context (ar : arena) (Hao : arena_ok ar) (pd : memp_desc) (Hpd : desc_ok pd).
Context (Hnum : Z.of_nat (pd_num pd) = IP_REASS_MAX_PBUFS) (self : Z).

(** ** The list of the entries *)

Definition entry_of (nxt : option Z) (d : dgram) : ip_reassdata :=
  IpReassdata nxt (head_p (d_frags d)) (d_hdr d) (d_len d) (flags_of (d_last d)) (d_timer d).

Definition hd_or (E : list (Z * dgram)) (nxt : option Z) : option Z :=
  match E with [] => nxt | (a, _) :: _ => Some a end.

Fixpoint listed (data : gmap Z ip_reassdata) (E : list (Z * dgram)) (nxt : option Z) : Prop :=
  match E with
  | [] => True
  | (a, d) :: E => data !! a = Some (entry_of (hd_or E nxt) d) ∧ listed data E nxt
  end.

Lemma hd_or_app E1 E2 nxt : hd_or (E1 ++ E2) nxt = hd_or E1 (hd_or E2 nxt).
Proof. by destruct E1 as [|[? ?] ?]. Qed.

Lemma listed_app data E1 E2 nxt :
  listed data (E1 ++ E2) nxt ↔ listed data E1 (hd_or E2 nxt) ∧ listed data E2 nxt.
Proof.
  induction E1 as [|[a d] E1 IH]; cbn [app listed]; [tauto|]. rewrite IH, hd_or_app. tauto.
Qed.

Lemma listed_frame data E nxt a v : listed data E nxt → a ∉ E.*1 → listed (<[a := v]> data) E nxt.
Proof.
  induction E as [|[b d] E IH]; [done|]. intros [Hb HE] [Hne Ha]%not_elem_of_cons.
  split; [by rewrite lookup_insert_ne|by apply IH].
Qed.

Lemma listed_delete data E nxt a : listed data E nxt → a ∉ E.*1 → listed (delete a data) E nxt.
Proof.
  induction E as [|[b d] E IH]; [done|]. intros [Hb HE] [Hne Ha]%not_elem_of_cons.
  split; [by rewrite lookup_delete_ne|by apply IH].
Qed.

Lemma listed_size data E nxt : listed data E nxt → NoDup (E.*1) → (length E <= size data)%nat.
Proof.
  intros Hl Hn. assert (list_to_set (E.*1) ⊆ dom data) as Hsub.
  { intros x Hx%elem_of_list_to_set. apply elem_of_dom. clear Hn. induction E as [|[a d] E IH]; [set_solver|].
    destruct Hl as [Ha Hl]. apply elem_of_cons in Hx as [->|Hx]; [eexists; exact Ha|by apply IH]. }
  apply subseteq_size in Hsub. by rewrite size_list_to_set, length_fmap, size_dom in Hsub.
Qed.

(** The link of the last of [E1] is led to [nxt']. *)
Lemma listed_relink data E1 b e nxt nxt' :
  listed data (E1 ++ [(b, e)]) nxt → NoDup ((E1 ++ [(b, e)]).*1) →
  data !! b = Some (entry_of nxt e) ∧
  listed (<[b := set_r_next nxt' (entry_of nxt e)]> data) (E1 ++ [(b, e)]) nxt'.
Proof.
  intros [H1 [Hb _]]%listed_app Hn. rewrite fmap_app in Hn. cbn [hd_or] in Hb. split; [done|].
  apply NoDup_app in Hn as (_ & Hd & _). apply listed_app. cbn [hd_or] in *. split.
  - apply listed_frame; [done|]. intros Hin. apply (Hd b Hin). left.
  - split; [|done]. cbn [hd_or]. by rewrite lookup_insert_eq.
Qed.

(** An entry leaves the list. *)
Lemma dequeue_spec s E1 a d E2 :
  let E := E1 ++ (a, d) :: E2 in
  listed (rs_data s) E None → reassdatagrams s = hd_or E None → pool_inv pd (rs_pool s) (E.*1) →
  ∃ s', ip_reass_dequeue_datagram a (last (E1.*1)) s = Ok s' ∧
    rs_s s' = rs_s s ∧ rs_m s' = rs_m s ∧ ip_reass_pbufcount s' = ip_reass_pbufcount s ∧
    listed (rs_data s') (E1 ++ E2) None ∧ reassdatagrams s' = hd_or (E1 ++ E2) None ∧
    pool_inv pd (rs_pool s') ((E1 ++ E2).*1).
Proof.
  intros E Hl Hh Hpi. pose proof (pool_inv_NoDup _ _ _ Hpd Hpi) as Hn. unfold E in *.
  apply listed_app in Hl as [Hl1 [Ha Hl2]]. unfold ip_reass_dequeue_datagram, entry. rewrite Ha.
  cbn [oget mbind res_bind entry_of r_next]. rewrite fmap_app in Hpi, Hn. cbn [fmap list_fmap fst] in Hpi, Hn.
  destruct (do_memp_free_gives pd (rs_pool s) _ a _ Hpd Hpi) as (p' & Ep & Hpi'). rewrite <- fmap_app in Hpi'.
  apply NoDup_app in Hn as (Hn1 & Hn12 & [Hna Hn2]%NoDup_cons).
  assert (a ∉ E1.*1) as Ha1 by (intros Hin; apply (Hn12 a Hin); left).
  destruct E1 as [|[b e] E1 _] using rev_ind.
  - cbn [app hd_or] in Hh. rewrite Hh, bool_decide_true by done. cbn [mbind res_bind rs_pool set_rs_head].
    rewrite Ep. cbn [mbind res_bind]. eexists. split; [reflexivity|].
    split_and!; try done. cbn. by apply listed_delete.
  - assert (hd_or (E1 ++ [(b, e)]) (Some a) ≠ Some a) as Hne.
    { destruct E1 as [|[x y] E1]; cbn [app hd_or]; intros [= ->]; apply Ha1; left. }
    rewrite hd_or_app in Hh. cbn [hd_or] in Hh. rewrite bool_decide_false by congruence.
    rewrite fmap_app. cbn [fmap list_fmap fst]. rewrite last_snoc.
    destruct (listed_relink _ _ _ _ _ (hd_or E2 None) Hl1) as [Hb Hl1']; [done|].
    unfold entry_mod, entry. rewrite Hb. cbn [oget mbind res_bind rs_pool set_rs_data].
    rewrite Ep. cbn [mbind res_bind]. eexists. split; [reflexivity|].
    split_and!; try done; cbn.
    + apply listed_app. split.
      * by apply listed_delete.
      * apply listed_delete; [|done]. apply listed_frame; [done|]. intros Hin.
        apply (Hn12 b); [rewrite fmap_app; set_solver|by right].
    + rewrite Hh, !hd_or_app. by destruct E1 as [|[? ?] ?].
Qed.

(** ** Releasing fragments *)

Lemma pbuf_free_packet s m p l hs :
  packet (bufs s) m (Some p) l → sound ar s (p :: hs) →
  ∃ c s', pbuf_free self (Some p) s = Ok (c, s') ∧ sound ar s' hs ∧
    ∀ b, b ∉ (shape l).*1 → bufs s' !! b = bufs s !! b.
Proof.
  intros Hp Hs. destruct (pbuf_free_spec ar Hao self s p hs Hs) as (k & s' & E & Hs' & _).
  exists (u8 (Z.of_nat k)), s'. split; [done|]. split; [done|]. intros b Hb. rewrite shape_addrs in Hb.
  unfold pbuf_free in E. eapply free_loop_frame; [exact E|by eapply packet_bchain|done].
Qed.

Lemma free_packet_spec s p l freed hs :
  packet (bufs (rs_s s)) (rs_m s) (Some p) l → sound ar (rs_s s) (p :: hs) →
  0 <= freed → freed + Z.of_nat (length l) < 2 ^ 16 →
  ∃ ps, free_fragment self p freed s = Ok (freed + Z.of_nat (length l), set_rs_s ps s) ∧
    sound ar ps hs ∧ ∀ b, b ∉ (shape l).*1 → bufs ps !! b = bufs (rs_s s) !! b.
Proof.
  intros Hp Hs H0 Hlt. unfold free_fragment. rewrite (pbuf_clen_spec _ _ _ _ Hp) by lia.
  cbn [mbind res_bind]. unfold lwip_assert. rewrite (proj2 (Z.leb_le _ _)) by lia. cbn [mbind res_bind].
  destruct (pbuf_free_packet _ _ _ _ hs Hp Hs) as (c & ps & -> & Hs' & Hfr). cbn [mbind res_bind].
  exists ps. by rewrite wrapu_small by lia.
Qed.

Lemma free_fragment_spec s sh nxt f freed hs :
  is_frag (bufs (rs_s s)) (rs_m s) sh nxt f → sound ar (rs_s s) (f_p f :: hs) →
  0 <= freed → freed + Z.of_nat (f_clen f) < 2 ^ 16 →
  ∃ ps, free_fragment self (f_p f) freed s = Ok (freed + Z.of_nat (f_clen f), set_rs_s ps s) ∧
    sound ar ps hs ∧ ∀ b, b ∉ (sh (f_p f)).*1 → bufs ps !! b = bufs (rs_s s) !! b.
Proof.
  intros (h & sd & l & [Hp _ Hsh Hcl _ _ _ _ _ _ _]) Hs H0 Hlt. rewrite <- Hsh, <- Hcl in *.
  exact (free_packet_spec s _ _ freed hs Hp Hs H0 Hlt).
Qed.

Lemma free_fragments_spec sh hs fuel : ∀ fs s freed,
  frags_at (bufs (rs_s s)) (rs_m s) sh fs → sep sh (f_p <$> fs) →
  sound ar (rs_s s) ((f_p <$> fs) ++ hs) → (length fs < fuel)%nat →
  0 <= freed → freed + Z.of_nat (clens fs) < 2 ^ 16 →
  ∃ ps, free_fragments fuel self (head_p fs) freed s = Ok (freed + Z.of_nat (clens fs), set_rs_s ps s) ∧
    sound ar ps hs ∧ ∀ b, ¬ addrs sh fs b → bufs ps !! b = bufs (rs_s s) !! b.
Proof.
  induction fuel as [|fuel IH]; intros fs s freed Hat Hsp Hs Hl H0 Hlt; [lia|]. destruct fs as [|f fs].
  { cbn. exists (rs_s s). rewrite Z.add_0_r. split; [by destruct s|]. done. }
  destruct Hat as [Hf Hat]. destruct (is_frag_helper _ _ _ _ _ Hf) as (h & Hh & Hget & _).
  change (clens (f :: fs)) with (f_clen f + clens fs)%nat in *.
  cbn [head_p head fmap option_fmap option_map free_fragments]. unfold helper_of, buf_at. rewrite Hh.
  cbn [oget mbind res_bind]. rewrite Hget. cbn [mbind res_bind next_pbuf].
  destruct (free_fragment_spec s sh _ f freed ((f_p <$> fs) ++ hs) Hf) as (ps & -> & Hs1 & Hfr1); [done|lia..|].
  cbn [mbind res_bind].
  destruct (IH fs (set_rs_s ps s) (freed + Z.of_nat (f_clen f))) as (ps' & E & Hs' & Hfr); try done.
  - cbn [set_rs_s rs_s rs_m]. eapply frags_at_frame; [exact Hat|done|]. intros g a Hg Ha. apply Hfr1.
    intros Ha'. destruct Hsp as [Hn Hx]. cbn [fmap list_fmap] in Hn, Hx. apply NoDup_cons in Hn as [Hn _].
    assert (f_p g ∈ f_p <$> fs) as Hgin by (by apply list_elem_of_fmap_2).
    destruct (Hx (f_p f) (f_p g)) as [Hx' _]; [left|by right|intros E; apply Hn; by rewrite E|]. by eapply Hx'.
  - cbn [fmap list_fmap] in Hsp. by apply (sep_app sh [f_p f]) in Hsp as [_ ?].
  - simpl in Hl. lia.
  - lia.
  - lia.
  - exists ps'. split; [|split; [done|]].
    + rewrite E. f_equal. f_equal. lia.
    + intros b Hb. rewrite Hfr; [apply Hfr1|].
      * intros Hb'. apply Hb. exists f. split; [left|done].
      * intros (g & Hg & Hb'). apply Hb. exists g. split; [by right|done].
Qed.

(** ** The state *)

Record dgram_ok (d : dgram) : Prop := DgramOk {
  do_chain : chain_ok (d_frags d);
  do_hdr : length (d_hdr d) = 20%nat;
  do_bytes : Forall is_byte (d_hdr d);
  do_timer : 0 <= d_timer d;
  do_ends : Forall (λ f, f_end f <= 0xFFFF - IP_HLEN) (d_frags d);
  do_last : d_last d = true → 0 <= d_len d <= 0xFFFF - IP_HLEN ∧ ∃ f, f ∈ d_frags d ∧ 0 < f_start f;
}.

(** [opn]: a datagram without fragments may be there, between its creation and the
    arrival of its first fragment. *)
Record repo (opn : bool) (sh : Z → list (Z * pbuf)) (hs : list Z) (s : reass) (E : list (Z * dgram)) : Prop := Rep {
  re_list : listed (rs_data s) E None;
  re_head : reassdatagrams s = hd_or E None;
  re_pool : pool_inv pd (rs_pool s) (E.*1);
  re_ok : Forall dgram_ok (E.*2);
  re_at : Forall (λ d, frags_at (bufs (rs_s s)) (rs_m s) sh (d_frags d)) (E.*2);
  re_sep : sep sh (heads (E.*2));
  re_count : ip_reass_pbufcount s = Z.of_nat (waiting (E.*2));
  re_max : Z.of_nat (waiting (E.*2)) <= IP_REASS_MAX_PBUFS;
  re_keys : StronglySorted other_key (E.*2);
  re_sound : sound ar (rs_s s) (heads (E.*2) ++ hs);
  re_some : opn = false → Forall (λ d, d_frags d ≠ []) (E.*2);
}.

Notation rep := (repo false).

(** ** Releasing a datagram *)

Definition with_frags (fs : list frag) (d : dgram) : dgram :=
  Dgram (d_hdr d) (d_len d) (d_last d) (d_timer d) fs.

(** Only the packets of [fs] are different. *)
Definition only_these (sh : Z → list (Z * pbuf)) (fs : list frag) (s s' : reass) : Prop :=
  (∀ x, (∀ f, f ∈ fs → ¬ covers (sh (f_p f)) x) → rs_m s' !! x = rs_m s !! x) ∧
  (∀ b, ¬ addrs sh fs b → bufs (rs_s s') !! b = bufs (rs_s s) !! b).

Lemma time_exceeded_spec s sh a nxt d hs :
  rs_data s !! a = Some (entry_of nxt d) → d_frags d ≠ [] → dgram_ok d → frags_at (bufs (rs_s s)) (rs_m s) sh (d_frags d) →
  sep sh (f_p <$> d_frags d) → sound ar (rs_s s) ((f_p <$> d_frags d) ++ hs) →
  Z.of_nat (clens (d_frags d)) < 2 ^ 16 →
  ∃ s' pre fs, time_exceeded self a s = Ok (Z.of_nat (clens pre), s') ∧ d_frags d = pre ++ fs ∧
    rs_data s' = <[a := entry_of nxt (with_frags fs d)]> (rs_data s) ∧
    reassdatagrams s' = reassdatagrams s ∧ ip_reass_pbufcount s' = ip_reass_pbufcount s ∧
    rs_pool s' = rs_pool s ∧ frags_at (bufs (rs_s s')) (rs_m s') sh fs ∧
    sound ar (rs_s s') ((f_p <$> fs) ++ hs) ∧ only_these sh pre s s'.
Proof.
  intros Hd Hne [Hc Hhl Hhb Ht He Hla] Hat Hsp Hso Hlt. unfold time_exceeded, entry. rewrite Hd.
  cbn [oget mbind res_bind entry_of r_p r_iphdr]. destruct (d_frags d) as [|f fs] eqn:Ef; [done|].
  cbn [head_p head fmap option_fmap option_map oget mbind res_bind]. pose proof Hat as [Hf Hfs].
  destruct (is_frag_helper _ _ _ _ _ Hf) as (h & Hh & Hget & _). unfold helper_of, buf_at. rewrite Hh.
  cbn [oget mbind res_bind]. rewrite Hget. cbn [mbind res_bind h_start next_pbuf].
  change (clens (f :: fs)) with (f_clen f + clens fs)%nat in Hlt.
  destruct (Z.eqb_spec (f_start f) 0) as [E0|E0].
  - unfold entry_mod, entry. rewrite Hd. cbn [oget mbind res_bind].
    destruct Hf as (h' & sd & l & [Hp Hap Hsh Hcl Hl _ _ _ _ _ _]).
    assert (h' = h) as -> by (inversion Hp; congruence).
    destruct (packet_write_head _ _ _ _ _ _ (d_hdr d) Hp Hap Hhb) as (m' & Em & Hp' & Hag); [lia|].
    cbn [set_rs_data rs_m]. rewrite Em. cbn [mbind res_bind].
    set (s1 := note _ _).
    destruct (free_packet_spec s1 (f_p f) _ 0 ((f_p <$> fs) ++ hs) Hp') as (ps & E & Hs' & Hfr);
      [done|lia|simpl; lia|].
    rewrite E. exists (set_rs_s ps s1), [f], fs. split.
    { do 2 f_equal. unfold clens. cbn [fmap list_fmap sum_list length]. simpl. lia. }
    split; [done|]. split; [reflexivity|]. split; [done|]. split; [done|]. split; [done|].
    assert (only_these sh [f] s (set_rs_s ps s1)) as Hot.
    { split; cbn.
      - intros x Hx. apply Hag. rewrite Hsh. apply Hx. set_solver.
      - intros b Hb. rewrite Hfr; [done|]. intros Hb'. apply Hb. exists f. split; [left|].
        rewrite <- Hsh. done. }
    split; [|split; [done|done]].
    destruct Hot as [Hm Hb]. destruct Hsp as [Hn Hx]. cbn [fmap list_fmap] in Hn, Hx.
    apply NoDup_cons in Hn as [Hn _].
    assert (∀ g, g ∈ fs → f_p f ≠ f_p g) as Hfg.
    { intros g Hg E'. apply Hn. rewrite E'. by apply list_elem_of_fmap_2. }
    eapply frags_at_frame; [exact Hfs|..].
    + intros g x Hg Hcx. apply Hm. intros y ->%list_elem_of_singleton Hcy.
      destruct (Hx (f_p f) (f_p g)) as [_ Hx']; [left|right; by apply list_elem_of_fmap_2|by apply Hfg|].
      by eapply Hx'.
    + intros g b Hg Hbx. apply Hb. intros (y & ->%list_elem_of_singleton & Hby).
      destruct (Hx (f_p f) (f_p g)) as [Hx' _]; [left|right; by apply list_elem_of_fmap_2|by apply Hfg|].
      by eapply Hx'.
  - exists s, [], (f :: fs). split; [done|]. split; [done|]. split; [|done].
    rewrite insert_id; [done|]. rewrite Hd. unfold entry_of, with_frags. cbn. by rewrite Ef.
Qed.

Lemma listed_swap data E1 a d d' E2 nxt :
  listed data (E1 ++ (a, d) :: E2) nxt → NoDup ((E1 ++ (a, d) :: E2).*1) →
  data !! a = Some (entry_of (hd_or E2 nxt) d) ∧
  listed (<[a := entry_of (hd_or E2 nxt) d']> data) (E1 ++ (a, d') :: E2) nxt.
Proof.
  intros [H1 [Ha H2]]%listed_app Hn. rewrite fmap_app in Hn. cbn [fmap list_fmap fst] in Hn.
  apply NoDup_app in Hn as (_ & Hn & [Hn2 _]%NoDup_cons). split; [done|]. apply listed_app.
  split; [|split; [by rewrite lookup_insert_eq|by apply listed_frame]].
  apply listed_frame; [done|]. intros Hin. apply (Hn a Hin). left.
Qed.

Lemma last_prev data E1 a :
  listed data E1 (Some a) → a ∉ E1.*1 →
  match last (E1.*1) with
  | None => E1 = []
  | Some b => b ≠ a ∧ ∃ d, data !! b = Some d ∧ r_next d = Some a
  end.
Proof.
  intros Hl Ha. destruct E1 as [|[b e] E1 _] using rev_ind; [done|].
  rewrite fmap_app in *. cbn [fmap list_fmap fst] in *. rewrite last_snoc.
  apply listed_app in Hl as [_ [Hb _]]. cbn [hd_or] in Hb. split; [set_solver|]. eauto.
Qed.

(** One of the datagrams, and the others. *)
Record parts (sh : Z → list (Z * pbuf)) (hs : list Z) (s : reass) (A : list dgram) (d : dgram) : Prop := Parts {
  pt_others : Forall dgram_ok A;
  pt_ok : dgram_ok d;
  pt_at_others : Forall (λ d, frags_at (bufs (rs_s s)) (rs_m s) sh (d_frags d)) A;
  pt_at : frags_at (bufs (rs_s s)) (rs_m s) sh (d_frags d);
  pt_sep : sep sh (heads (d :: A));
  pt_count : ip_reass_pbufcount s = Z.of_nat (clens (d_frags d) + waiting A);
  pt_max : Z.of_nat (clens (d_frags d) + waiting A) <= 60;
  pt_sound : sound ar (rs_s s) ((f_p <$> d_frags d) ++ heads A ++ hs);
}.

Lemma repo_parts opn sh hs s E1 a d E2 :
  repo opn sh hs s (E1 ++ (a, d) :: E2) → parts sh hs s (E1.*2 ++ E2.*2) d.
Proof.
  intros [_ _ _ Hok Hat Hsp Hct Hmx _ Hso _]. rewrite fmap_app in Hok, Hat, Hsp, Hct, Hmx, Hso.
  cbn [fmap list_fmap snd] in Hok, Hat, Hsp, Hct, Hmx, Hso. rewrite heads_middle in Hso, Hsp.
  rewrite waiting_middle in Hct, Hmx. rewrite <- app_assoc in Hso.
  apply Forall_app in Hok as [? [? ?]%Forall_cons]. apply Forall_app in Hat as [? [? ?]%Forall_cons].
  split; try done; [by apply Forall_app_2..|]. by rewrite heads_cons.
Qed.

(** An entry is gone: only its packets are different. *)
Lemma repo_removed opn sh hs hs' s s' E1 a d E2 :
  repo opn sh hs s (E1 ++ (a, d) :: E2) → only_these sh (d_frags d) s s' →
  listed (rs_data s') (E1 ++ E2) None → reassdatagrams s' = hd_or (E1 ++ E2) None →
  pool_inv pd (rs_pool s') ((E1 ++ E2).*1) → ip_reass_pbufcount s' = Z.of_nat (waiting (E1.*2 ++ E2.*2)) →
  sound ar (rs_s s') (heads (E1.*2 ++ E2.*2) ++ hs') →
  (Forall (λ d, d_frags d ≠ []) (E1.*2 ++ E2.*2)) →
  rep sh hs' s' (E1 ++ E2).
Proof.
  intros HR [Hm Hb] Hl Hh Hp Hc Hso Hsm. pose proof (repo_parts _ _ _ _ _ _ _ _ HR) as [H1 H2 H3 H4 H5 H6 H7 _].
  pose proof (re_keys _ _ _ _ _ HR) as Hk. rewrite fmap_app in Hk. cbn [fmap list_fmap snd] in Hk.
  split; rewrite ?fmap_app; try done.
  - by rewrite <- fmap_app.
  - by apply (rest_frame sh (bufs (rs_s s)) (rs_m s) _ _ d).
  - rewrite heads_cons in H5. by apply sep_app in H5 as [_ ?].
  - unfold IP_REASS_MAX_PBUFS. lia.
  - by eapply sorted_remove.
Qed.

Lemma some_others opn sh hs s E1 a d E2 :
  repo opn sh hs s (E1 ++ (a, d) :: E2) → opn = false →
  d_frags d ≠ [] ∧ Forall (λ d, d_frags d ≠ []) (E1.*2 ++ E2.*2).
Proof.
  intros HR Ho. pose proof (re_some _ _ _ _ _ HR Ho) as HF. rewrite fmap_app in HF.
  cbn [fmap list_fmap snd] in HF. apply Forall_app in HF as [? [? ?]%Forall_cons]. split; [done|by apply Forall_app_2].
Qed.

Lemma only_these_more sh fs fs' s s' : fs ⊆ fs' → only_these sh fs s s' → only_these sh fs' s s'.
Proof.
  intros Hsub [H1 H2]. split.
  - intros x Hx. apply H1. intros f Hf. apply Hx, Hsub, Hf.
  - intros b Hb. apply H2. intros (f & Hf & Hin). apply Hb. exists f. split; [by apply Hsub|done].
Qed.

Lemma only_these_trans sh fs s1 s2 s3 :
  only_these sh fs s1 s2 → only_these sh fs s2 s3 → only_these sh fs s1 s3.
Proof. intros [H1 H2] [H3 H4]. split; intros; [rewrite H3, H1|rewrite H4, H2]; done. Qed.

Lemma prev_asserts opn sh hs s E1 a d E2 :
  repo opn sh hs s (E1 ++ (a, d) :: E2) →
  negb (bool_decide (last (E1.*1) = Some a)) = true ∧
  (match last (E1.*1) with None => Ok () | Some b => d ← entry s b; lwip_assert (bool_decide (r_next d = Some a)) end)
    = Ok ().
Proof.
  intros HR. pose proof (pool_inv_NoDup _ _ _ Hpd (re_pool _ _ _ _ _ HR)) as Hn.
  pose proof (re_list _ _ _ _ _ HR) as [Hl _]%listed_app. cbn [hd_or] in Hl.
  assert (a ∉ E1.*1) as Ha1.
  { rewrite fmap_app in Hn. cbn [fmap list_fmap fst] in Hn. apply NoDup_app in Hn as (_ & Hn & _).
    intros Hin. apply (Hn a Hin). left. }
  pose proof (last_prev _ _ _ Hl Ha1) as Hprev. destruct (last (E1.*1)) as [b|].
  - destruct Hprev as [Hne (e & He & Hen)]. rewrite bool_decide_false by congruence. split; [done|].
    unfold entry. rewrite He. cbn [oget mbind res_bind]. by rewrite Hen, bool_decide_true.
  - by rewrite bool_decide_false.
Qed.

Lemma rep_entry opn sh hs s E1 a d E2 :
  repo opn sh hs s (E1 ++ (a, d) :: E2) → rs_data s !! a = Some (entry_of (hd_or E2 None) d).
Proof.
  intros HR. pose proof (pool_inv_NoDup _ _ _ Hpd (re_pool _ _ _ _ _ HR)) as Hn.
  apply (listed_swap _ _ _ _ d _ _ (re_list _ _ _ _ _ HR) Hn).
Qed.

Lemma free_complete_spec sh hs s E1 a d E2 :
  rep sh hs s (E1 ++ (a, d) :: E2) →
  ∃ s', ip_reass_free_complete_datagram self a (last (E1.*1)) s = Ok (Z.of_nat (clens (d_frags d)), s') ∧
    rep sh hs s' (E1 ++ E2) ∧ only_these sh (d_frags d) s s'.
Proof.
  intros HR. pose proof (repo_parts _ _ _ _ _ _ _ _ HR) as [_ Hokd _ Hatd Hsp Hct Hmx Hso].
  destruct (some_others _ _ _ _ _ _ _ _ HR eq_refl) as [Hne Hsm]. unfold ip_reass_free_complete_datagram.
  destruct (prev_asserts _ _ _ _ _ _ _ _ HR) as [-> ->]. cbn [lwip_assert mbind res_bind].
  pose proof (pool_inv_NoDup _ _ _ Hpd (re_pool _ _ _ _ _ HR)) as Hn.
  pose proof (rep_entry _ _ _ _ _ _ _ _ HR) as Ha. rewrite heads_cons in Hsp. apply sep_app in Hsp as [Hsp _].
  destruct (time_exceeded_spec (note NFail s) sh a (hd_or E2 None) d (heads (E1.*2 ++ E2.*2) ++ hs))
    as (s1 & pre & fs & E1' & Efs & Hda & Hhe & Hco & Hpo & Hat1 & Hso1 & Hot1); try done.
  { lia. }
  rewrite E1'. cbn [mbind res_bind]. unfold entry. rewrite Hda, lookup_insert_eq.
  cbn [oget mbind res_bind entry_of r_p with_frags d_frags].
  assert (clens (d_frags d) = (clens pre + clens fs)%nat) as Ecl by (by rewrite Efs, clens_app).
  assert (sep sh (f_p <$> fs)) as Hspf.
  { rewrite Efs, fmap_app in Hsp. by apply sep_app in Hsp as [_ ?]. }
  destruct (free_fragments_spec sh (heads (E1.*2 ++ E2.*2) ++ hs) (chain_fuel (bufs (rs_s s1))) fs s1
    (Z.of_nat (clens pre))) as (ps & Ef & Hso2 & Hfr); try done.
  { eapply frags_fuel; [exact Hat1|]. apply Hspf. }
  { lia. }
  { lia. }
  rewrite Ef. cbn [mbind res_bind].
  pose proof (listed_swap _ _ _ _ (with_frags fs d) _ _ (re_list _ _ _ _ _ HR) Hn) as [_ Hl1].
  destruct (dequeue_spec (set_rs_s ps s1) E1 a (with_frags fs d) E2) as (s2 & Eq & Hs2 & Hm2 & Hc2 & Hl2 & Hh2 & Hp2).
  { cbn [set_rs_s rs_data]. by rewrite Hda. }
  { cbn [set_rs_s reassdatagrams]. rewrite Hhe. cbn [note reassdatagrams].
    rewrite (re_head _ _ _ _ _ HR), !hd_or_app. done. }
  { cbn [set_rs_s rs_pool]. rewrite Hpo. pose proof (re_pool _ _ _ _ _ HR) as Hpi. rewrite fmap_app in *. done. }
  rewrite Eq. cbn [mbind res_bind]. cbn [set_rs_s rs_s rs_m ip_reass_pbufcount] in Hs2, Hm2, Hc2.
  rewrite Hco in Hc2. cbn [note ip_reass_pbufcount] in Hc2. rewrite Hct in Hc2. unfold lwip_assert.
  rewrite (proj2 (Z.leb_le _ _)) by lia. cbn [mbind res_bind]. rewrite Hc2. eexists. split.
  { do 2 f_equal. lia. }
  set (s3 := set_rs_count _ s2). assert (only_these sh (d_frags d) s s3) as Hot.
  { apply (only_these_trans _ _ _ s1); [eapply only_these_more; [|exact Hot1]; rewrite Efs; set_solver|]. split; cbn.
    + intros x _. by rewrite Hm2.
    + intros b Hb. rewrite Hs2. apply Hfr. intros (f & Hf & Hin). apply Hb. exists f. rewrite Efs. split; [set_solver|done]. }
  split; [|done].
  apply (repo_removed false sh hs hs s s3 E1 a d E2 HR); try done; unfold s3; cbn [set_rs_count rs_s rs_m ip_reass_pbufcount].
  - rewrite wrapu_small by lia. lia.
  - by rewrite Hs2.
Qed.

Lemma entry_swapped opn sh hs s E1 a d d' E2 :
  repo opn sh hs s (E1 ++ (a, d) :: E2) → d_frags d' = d_frags d → dgram_ok d' →
  IP_ADDRESSES_AND_ID_MATCH (d_hdr d') (d_hdr d) = true →
  repo opn sh hs (set_rs_data (<[a := entry_of (hd_or E2 None) d']> (rs_data s)) s) (E1 ++ (a, d') :: E2).
Proof.
  intros [Hl Hh Hpi Hok Hat Hsp Hct Hmx Hk Hso Hsm] Hf Hd' Hm. pose proof (pool_inv_NoDup _ _ _ Hpd Hpi) as Hn.
  rewrite fmap_app in Hok, Hat, Hsp, Hct, Hmx, Hk, Hso. cbn [fmap list_fmap snd] in Hok, Hat, Hsp, Hct, Hmx, Hk, Hso.
  rewrite fmap_app in Hpi. cbn [fmap list_fmap fst] in Hpi.
  assert (heads (E1.*2 ++ d' :: E2.*2) = heads (E1.*2 ++ d :: E2.*2)) as Ehd by (rewrite !heads_app, !heads_cons; by rewrite Hf).
  assert (waiting (E1.*2 ++ d' :: E2.*2) = waiting (E1.*2 ++ d :: E2.*2)) as Ewa by (rewrite !waiting_middle; by rewrite Hf).
  split; cbn [set_rs_data rs_s rs_m rs_data reassdatagrams rs_pool ip_reass_pbufcount]; rewrite ?fmap_app;
    cbn [fmap list_fmap fst snd]; rewrite ?Ehd, ?Ewa; try done.
  - by apply (listed_swap _ _ _ d).
  - rewrite Hh, !hd_or_app. done.
  - apply Forall_app in Hok as [? [? ?]%Forall_cons]. apply Forall_app_2; [done|]. by constructor.
  - apply Forall_app in Hat as [? [? ?]%Forall_cons]. apply Forall_app_2; [done|]. constructor; [by rewrite Hf|done].
  - by eapply keys_swap.
  - intros Ho. specialize (Hsm Ho). rewrite fmap_app in Hsm. cbn [fmap list_fmap snd] in Hsm.
    apply Forall_app in Hsm as [? [? ?]%Forall_cons]. apply Forall_app_2; [done|]. constructor; [by rewrite Hf|done].
Qed.

(** ** The timer *)

Lemma tmr_loop_spec sh hs fuel : ∀ E2 E1 s,
  rep sh hs s (E1 ++ E2) → (length E2 < fuel)%nat →
  ∃ s' E2', tmr_loop fuel self (hd_or E2 None) (last (E1.*1)) s = Ok s' ∧ rep sh hs s' (E1 ++ E2') ∧
    E2'.*2 = a_tick (E2.*2).
Proof.
  induction fuel as [|fuel IH]; intros E2 E1 s HR Hl; [lia|]. destruct E2 as [|[a d] E2].
  { exists s, []. by rewrite app_nil_r in *. }
  pose proof (rep_entry _ _ _ _ _ _ _ _ HR) as Ha. cbn [hd_or tmr_loop]. unfold entry. rewrite Ha.
  cbn [oget mbind res_bind entry_of r_timer r_next]. unfold a_tick. cbn [fmap list_fmap snd omap list_omap].
  destruct (Z.ltb_spec 0 (d_timer d)) as [Ht|Ht].
  - unfold entry_mod, entry. rewrite Ha. cbn [oget mbind res_bind].
    set (d' := Dgram (d_hdr d) (d_len d) (d_last d) (d_timer d - 1) (d_frags d)).
    assert (dgram_ok d) as Hd.
    { pose proof (re_ok _ _ _ _ _ HR) as Hok. rewrite fmap_app in Hok. cbn in Hok. by apply Forall_app in Hok as [_ [? _]%Forall_cons]. }
    pose proof (entry_swapped _ _ _ _ _ _ _ d' _ HR eq_refl) as HR'.
    change (set_r_timer (d_timer d - 1) (entry_of (hd_or E2 None) d)) with (entry_of (hd_or E2 None) d').
    destruct (IH E2 (E1 ++ [(a, d')]) (set_rs_data (<[a := entry_of (hd_or E2 None) d']> (rs_data s)) s))
      as (s' & E2' & E & HR2 & Ht2).
    + rewrite <- app_assoc. apply HR'; [|apply match_refl]. destruct Hd. split; try done. cbn. lia.
    + simpl in Hl. lia.
    + rewrite fmap_app in E. cbn [fmap list_fmap fst] in E. rewrite last_snoc in E.
      exists s', ((a, d') :: E2'). split; [done|]. split; [by rewrite <- app_assoc in HR2|].
      cbn [fmap list_fmap snd]. by rewrite Ht2.
  - destruct (free_complete_spec _ _ _ _ _ _ _ HR) as (s1 & -> & HR1 & Hot1). cbn [mbind res_bind].
    destruct (IH E2 E1 s1 HR1) as (s' & E2' & E & HR2 & Ht2); [simpl in Hl; lia|]. by exists s', E2'.
Qed.

Lemma tmr_spec sh hs s E :
  rep sh hs s E → ∃ s' E', ip_reass_tmr self s = Ok s' ∧ rep sh hs s' E' ∧ E'.*2 = a_tick (E.*2).
Proof.
  intros HR. unfold ip_reass_tmr. rewrite (re_head _ _ _ _ _ HR).
  apply (tmr_loop_spec sh hs (S (size (rs_data s))) E [] s HR).
  pose proof (listed_size _ _ _ (re_list _ _ _ _ _ HR) (pool_inv_NoDup _ _ _ Hpd (re_pool _ _ _ _ _ HR))). lia.
Qed.

(** ** Making room *)

(** The candidate of the loop: where it is, and the entry before it. *)
Definition best_at (E : list (Z * dgram)) (best : option (Z * option Z * Z)) (bd : option dgram) : Prop :=
  match best, bd with
  | None, None => True
  | Some (b, pv, t), Some e => ∃ F1 F2, E = F1 ++ (b, e) :: F2 ∧ pv = last (F1.*1) ∧ t = d_timer e
  | _, _ => False
  end.

Lemma best_at_more E E' best bd : best_at E best bd → best_at (E ++ E') best bd.
Proof.
  destruct best as [[[b pv] t]|], bd as [e|]; try done. intros (F1 & F2 & -> & Hpv).
  exists F1, (F2 ++ E'). by rewrite <- app_assoc.
Qed.

Lemma oldest_loop_spec sh hs hdr fuel : ∀ E2 E1 s prev best bd n,
  rep sh hs s (E1 ++ E2) → (length E2 < fuel)%nat → (E2 ≠ [] → prev = last (E1.*1)) → best_at E1 best bd →
  ∃ res, oldest_loop fuel hdr s (hd_or E2 None) prev best n =
      Ok (res, n + Z.of_nat (length (without hdr (E2.*2)))) ∧
    best_at (E1 ++ E2) res (oldest hdr (E2.*2) bd).
Proof.
  induction fuel as [|fuel IH]; intros E2 E1 s prev best bd n HR Hl Hpv Hb; [lia|]. destruct E2 as [|[a d] E2].
  { exists best. cbn. rewrite Z.add_0_r, app_nil_r. done. }
  pose proof (rep_entry _ _ _ _ _ _ _ _ HR) as Ha. cbn [hd_or oldest_loop]. unfold entry. rewrite Ha.
  cbn [oget mbind res_bind entry_of r_timer r_next r_iphdr].
  cbn [fmap list_fmap snd oldest without List.filter].
  change (IP_ADDRESSES_AND_ID_MATCH (d_hdr d) hdr) with (same_dgram hdr d).
  rewrite (Hpv ltac:(done)). cbn [length] in Hl.
  assert (∀ best' bd' n', best_at (E1 ++ [(a, d)]) best' bd' → ∃ res,
    oldest_loop fuel hdr s (hd_or E2 None) (match hd_or E2 None with Some _ => Some a | None => last (E1.*1) end)
      best' n' = Ok (res, n' + Z.of_nat (length (without hdr (E2.*2)))) ∧
    best_at (E1 ++ (a, d) :: E2) res (oldest hdr (E2.*2) bd')) as Hgo.
  { intros best' bd' n' Hb'. destruct (IH E2 (E1 ++ [(a, d)]) s
      (match hd_or E2 None with Some _ => Some a | None => last (E1.*1) end) best' bd' n') as (res & E & Hr);
      rewrite <- ?app_assoc in *; try done; [lia|..].
    - intros Hne. rewrite fmap_app. cbn [fmap list_fmap fst]. rewrite last_snoc. by destruct E2 as [|[? ?] ?].
    - by exists res. }
  destruct (same_dgram hdr d); cbn [negb].
  - fold (without hdr (E2.*2)). apply Hgo. by apply best_at_more.
  - fold (without hdr (E2.*2)).
    assert (best_at (E1 ++ [(a, d)]) (Some (a, last (E1.*1), d_timer d)) (Some d)) as Hme by (by exists E1, []).
    assert (∀ best' bd', best_at (E1 ++ [(a, d)]) best' bd' → ∃ res,
      oldest_loop fuel hdr s (hd_or E2 None) (match hd_or E2 None with Some _ => Some a | None => last (E1.*1) end)
        best' (n + 1) = Ok (res, n + Z.of_nat (length (d :: without hdr (E2.*2)))) ∧
      best_at (E1 ++ (a, d) :: E2) res (oldest hdr (E2.*2) bd')) as Hgo'.
    { intros best' bd' Hb'. destruct (Hgo best' bd' (n + 1) Hb') as (res & E & Hr). exists res. split; [|done].
      rewrite E. f_equal. f_equal. cbn [length]. lia. }
    destruct best as [[[b pv] t]|], bd as [e|]; try done.
    + assert (t = d_timer e) as -> by (by destruct Hb as (? & ? & _ & _ & ?)).
      destruct (d_timer d <=? d_timer e); apply Hgo'; [done|by apply best_at_more].
    + by apply Hgo'.
Qed.

(** Of the packets that wait some are gone, and nothing else is different. *)
Definition fewer (sh : Z → list (Z * pbuf)) (A A' : list dgram) (s s' : reass) : Prop :=
  only_these sh (A ≫= d_frags) s s' ∧ heads A' ⊆+ heads A.

Lemma fewer_one sh (F1 : list (Z * dgram)) b e F2 s s' :
  only_these sh (d_frags e) s s' → fewer sh ((F1 ++ (b, e) :: F2).*2) ((F1 ++ F2).*2) s s'.
Proof.
  intros Hot. rewrite !fmap_app. cbn [fmap list_fmap snd]. split.
  - eapply only_these_more; [|exact Hot]. rewrite bind_app, bind_cons. set_solver.
  - rewrite heads_middle. by apply submseteq_inserts_l.
Qed.

Lemma fewer_trans sh A1 A2 A3 s1 s2 s3 :
  fewer sh A1 A2 s1 s2 → fewer sh A2 A3 s2 s3 → A2 ≫= d_frags ⊆ A1 ≫= d_frags → fewer sh A1 A3 s1 s3.
Proof.
  intros [H1 H2] [H3 H4] Hs. split; [|by etrans]. eapply only_these_trans; [exact H1|]. by eapply only_these_more.
Qed.

Lemma remove_oldest_spec sh hs hdr needed fuel : ∀ fuel' s E freed,
  rep sh hs s E → (length E < fuel)%nat → (length E <= fuel')%nat →
  ∃ s' E' n, remove_oldest_loop fuel self hdr needed freed s = Ok (n, s') ∧ rep sh hs s' E' ∧
    evict fuel' hdr needed freed (E.*2) = (n, E'.*2) ∧ fewer sh (E.*2) (E'.*2) s s'.
Proof.
  induction fuel as [|fuel IH]; intros fuel' s E freed HR Hl Hl'; [lia|]. cbn [remove_oldest_loop].
  destruct (oldest_loop_spec sh hs hdr (S (size (rs_data s))) E [] s None None None 0) as (res & Eo & Hb); try done.
  { pose proof (listed_size _ _ _ (re_list _ _ _ _ _ HR) (pool_inv_NoDup _ _ _ Hpd (re_pool _ _ _ _ _ HR))). lia. }
  rewrite (re_head _ _ _ _ _ HR), Eo. cbn [mbind res_bind]. cbn [app] in Hb.
  destruct (oldest hdr (E.*2) None) as [e|] eqn:Ee.
  - destruct res as [[[b pv] t]|]; [|done]. destruct Hb as (F1 & F2 & -> & -> & _).
    destruct (free_complete_spec _ _ _ _ _ _ _ HR) as (s1 & -> & HR1 & Hot1). cbn [mbind res_bind].
    rewrite length_app in Hl, Hl'. cbn [length] in Hl, Hl'. destruct fuel' as [|fuel']; [lia|].
    cbn [evict]. rewrite Ee.
    assert (without (d_hdr e) ((F1 ++ (b, e) :: F2).*2) = (F1 ++ F2).*2) as Ew.
    { pose proof (re_keys _ _ _ _ _ HR) as Hk. rewrite fmap_app in Hk.
      cbn [fmap list_fmap snd] in Hk. rewrite !fmap_app. cbn [fmap list_fmap snd]. by apply without_key. }
    rewrite Ew, Z.add_0_l.
    pose proof (fewer_one sh F1 b e F2 s s1 Hot1) as Hoff1.
    destruct ((_ <? needed) && _).
    + destruct (IH fuel' s1 (F1 ++ F2) (freed + Z.of_nat (clens (d_frags e))) HR1) as (s' & E' & n & Er & HR' & Ee' & Hoff);
        [rewrite length_app; lia..|]. exists s', E', n. split_and!; try done. eapply fewer_trans; [exact Hoff1|exact Hoff|].
      rewrite !fmap_app. cbn [fmap list_fmap snd]. rewrite !bind_app, bind_cons. set_solver.
    + by exists s1, (F1 ++ F2), (freed + Z.of_nat (clens (d_frags e))).
  - destruct res as [[[b pv] t]|]; [done|]. rewrite (oldest_none _ _ Ee). cbn [mbind res_bind length].
    rewrite andb_false_r. exists s, E, freed. split; [done|]. split; [done|].
    split; [destruct fuel'; cbn [evict]; [done|by rewrite Ee]|]. done.
Qed.

Lemma room_spec sh hs s E hdr n :
  rep sh hs s E → 0 <= n < 2 ^ 16 →
  ∃ s' E' ok, (if IP_REASS_MAX_PBUFS <? ip_reass_pbufcount s + n then
       '(freed, s) ← ip_reass_remove_oldest_datagram self hdr n s;
       Ok ((freed =? 0) || (IP_REASS_MAX_PBUFS <? ip_reass_pbufcount s + n), s)
     else Ok (false, s)) = Ok (negb ok, s') ∧ rep sh hs s' E' ∧ a_room hdr n (E.*2) = (ok, E'.*2) ∧
    (ok = true → Z.of_nat (waiting (E'.*2)) + n <= IP_REASS_MAX_PBUFS) ∧ fewer sh (E.*2) (E'.*2) s s'.
Proof.
  intros HR Hn. unfold a_room. rewrite <- (re_count _ _ _ _ _ HR).
  destruct (IP_REASS_MAX_PBUFS <? ip_reass_pbufcount s + n) eqn:Ec.
  - unfold ip_reass_remove_oldest_datagram. rewrite length_fmap.
    destruct (remove_oldest_spec sh hs hdr n (S (size (rs_data s))) (length E) s E 0 HR) as (s1 & E1 & k & -> & HR1 & -> & Hoff).
    { pose proof (listed_size _ _ _ (re_list _ _ _ _ _ HR) (pool_inv_NoDup _ _ _ Hpd (re_pool _ _ _ _ _ HR))). lia. }
    { lia. }
    cbn [mbind res_bind]. rewrite <- (re_count _ _ _ _ _ HR1). eexists s1, E1, _. split; [by rewrite negb_involutive|].
    split; [done|]. split; [done|]. split; [|done]. intros [_ Ho]%negb_true_iff%orb_false_iff. rewrite (re_count _ _ _ _ _ HR1) in Ho.
    apply Z.ltb_ge in Ho. lia.
  - exists s, E, true. split; [done|]. split; [done|]. split; [done|]. split; [|done]. intros _.
    rewrite (re_count _ _ _ _ _ HR) in Ec. apply Z.ltb_ge in Ec. lia.
Qed.

(** ** Joining the packets *)

Lemma remove_header_sound s a h k r pb hs :
  bufs s !! a = Some h → pbuf_remove_header (bufs s) (Some a) k = Ok (r, pb) → sound ar s hs →
  sound ar (set_bufs pb s) hs.
Proof.
  intros Ha E Hs. pose proof Hs as [Hc Hac]. unfold pbuf_remove_header in E. rewrite Ha in E.
  assert (sound ar (set_bufs (bufs s) s) hs) as Hid by (by destruct s).
  destruct (_ <? k); [by injection E as <- <-|]. destruct (k =? 0); [by injection E as <- <-|].
  cbn [oget mbind res_bind] in E. destruct (_ <? _); [by injection E as <- <-|]. injection E as <- <-. split.
  - by apply (counted_field _ _ a h).
  - apply accounted_same; [done|]. by apply (same_src_insert _ _ h).
Qed.

Lemma packet_last_of pb m fuel : ∀ p n l,
  packet pb m (Some p) (n :: l) → (length l < fuel)%nat →
  ∃ z hz, last_of fuel pb p = Some (z, hz) ∧ p_tot_len hz = p_len hz ∧ z ∈ n_addr <$> n :: l.
Proof.
  induction fuel as [|fuel IH]; intros p n l Hp Hl; [lia|].
  inversion Hp as [|a h s l' Ha Hlen Hr Hb Ht Hmx Hrest]; subst. cbn [last_of]. rewrite Ha.
  cbn [mbind option_bind]. destruct (p_next h) as [nx|] eqn:En.
  - destruct l as [|n2 l]; [by inversion Hrest|]. destruct (IH nx n2 l Hrest) as (z & hz & -> & Hz & Hin);
      [simpl in Hl; lia|]. exists z, hz. split; [done|]. split; [done|]. cbn [fmap list_fmap]. by right.
  - inversion Hrest; subst. exists p, h. split; [done|]. split; [|left]. rewrite Ht, Hlen, app_nil_r. done.
Qed.

Lemma cat_spec s m p lp t lt hs :
  packet (bufs s) m (Some p) lp → packet (bufs s) m (Some t) lt → n_addr <$> lp ## n_addr <$> lt →
  Z.of_nat (length (content lp ++ content lt)) < 2 ^ 16 → sound ar s (t :: p :: hs) →
  ∃ pb lp', pbuf_cat (bufs s) (Some p) (Some t) = Ok pb ∧ packet pb m (Some p) (lp' ++ lt) ∧
    content lp' = content lp ∧ n_addr <$> lp' = n_addr <$> lp ∧
    (∀ x, x ∉ n_addr <$> lp → pb !! x = bufs s !! x) ∧ sound ar (set_bufs pb s) (p :: hs).
Proof.
  intros Hp Ht Hdj Hmx Hs. destruct (pbuf_cat_spec _ _ _ _ _ _ Hp Ht Hdj Hmx) as (pb & lp' & E & Hp' & Hc & Ha & Hout).
  exists pb, lp'. split_and!; try done. pose proof (packet_fuel _ _ _ _ Hp) as F1. pose proof (packet_fuel _ _ _ _ Ht) as F2.
  destruct lp as [|n lp]; [by inversion Hp|]. destruct lt as [|n2 lt]; [by inversion Ht|]. cbn [length] in F1, F2.
  destruct (packet_last_of _ _ (chain_fuel (bufs s)) _ _ _ Hp ltac:(lia)) as (z & hz & Hz & Htz & Hin).
  destruct (packet_last_of _ _ (chain_fuel (bufs s)) _ _ _ Ht ltac:(lia)) as (zt & hzt & Hzt & _ & Hint).
  assert (p ≠ t) as Hne.
  { intros ->. inversion Hp; inversion Ht; subst. cbn [fmap list_fmap n_addr] in Hdj. set_solver. }
  destruct (pbuf_cat_sound ar s (p :: hs) p t z hz zt hzt Hs) as (pb' & E' & Hs'); try done.
  - left.
  - intros ->. by apply (Hdj zt).
  - rewrite E in E'. by injection E' as <-.
Qed.

Lemma join_loop_spec sh hs fuel : ∀ fs s p lp,
  packet (bufs (rs_s s)) (rs_m s) (Some p) lp → frags_at (bufs (rs_s s)) (rs_m s) sh fs → sep sh (f_p <$> fs) →
  (∀ a, a ∈ n_addr <$> lp → ¬ addrs sh fs a) → sound ar (rs_s s) (p :: (f_p <$> fs) ++ hs) →
  (length fs < fuel)%nat → Z.of_nat (length (content lp ++ concat (f_data <$> fs))) < 2 ^ 16 →
  ∃ ps lp', join_loop fuel p (head_p fs) s = Ok (set_rs_s ps s) ∧
    packet (bufs ps) (rs_m s) (Some p) lp' ∧ content lp' = content lp ++ concat (f_data <$> fs) ∧
    length lp' = (length lp + clens fs)%nat ∧ sound ar ps (p :: hs) ∧
    ∀ b, b ∉ n_addr <$> lp → ¬ addrs sh fs b → bufs ps !! b = bufs (rs_s s) !! b.
Proof.
  induction fuel as [|fuel IH]; intros fs s p lp Hp Hat Hsp Hdj Hso Hl Hmx; [lia|]. destruct fs as [|f fs].
  { exists (rs_s s), lp. cbn. rewrite app_nil_r, Nat.add_0_r. split_and!; try done. by destruct s. }
  destruct Hat as [Hf Hat]. pose proof (is_frag_helper _ _ _ _ _ Hf) as (h & Hh & Hget & _).
  cbn [head_p head fmap option_fmap option_map join_loop]. unfold buf_at. rewrite Hh. cbn [oget mbind res_bind].
  destruct Hf as (h1 & sd & l & [Hpf Hap Hsh Hcl Hlen _ Hda _ _ _ _]).
  assert (h1 = h) as -> by (inversion Hpf; congruence).
  destruct (pbuf_remove_header_spec _ _ _ _ _ _ 20 Hpf Hlen) as (pb1 & h' & E1 & Hpf1 & _ & _ & Epb1).
  change (Z.of_nat 20) with IP_HLEN in E1. rewrite E1. cbn [mbind res_bind].
  cbn [fmap list_fmap concat] in *. rewrite !length_app in Hmx.
  assert (∀ b, b ∈ n_addr <$> lp → b ∉ (sh (f_p f)).*1) as Hdf.
  { intros b Hb Hb'. apply (Hdj b Hb). exists f. split; [left|done]. }
  assert ((sh (f_p f)).*1 = n_addr <$> Node (f_p f) h sd :: l) as Esf by (by rewrite <- Hsh, shape_addrs).
  assert (f_p f ∉ n_addr <$> lp) as Hfp by (intros Hin; apply (Hdf _ Hin); rewrite Esf; left).
  assert (packet pb1 (rs_m s) (Some p) lp) as Hp1 by (rewrite Epb1; by apply packet_insert_other).
  pose proof (remove_header_sound _ _ _ _ _ _ _ Hh E1 Hso) as Hso1.
  apply (sound_perm _ _ _ _ (Permutation_swap _ _ _)) in Hso1.
  destruct (cat_spec (set_bufs pb1 (rs_s s)) (rs_m s) p lp (f_p f) _ ((f_p <$> fs) ++ hs) Hp1 Hpf1)
    as (pb2 & lp2 & E2 & Hp2 & Hc2 & Ha2 & Hout2 & Hso2); [| |done|].
  { intros b Hb Hb'. apply (Hdf b Hb). by rewrite Esf. }
  { rewrite length_app, content_cons. cbn [n_data]. rewrite Hda. lia. }
  cbn [bufs set_bufs] in E2, Hout2. rewrite E2. cbn [mbind res_bind set_rs_s rs_m]. rewrite Hget.
  cbn [mbind res_bind next_pbuf].
  set (s2 := set_rs_s _ s).
  assert (∀ g a, g ∈ fs → a ∈ (sh (f_p g)).*1 → pb2 !! a = bufs (rs_s s) !! a) as Hfr.
  { intros g a Hg Ha. rewrite Hout2.
    - rewrite Epb1. apply lookup_insert_ne. intros <-. destruct Hsp as [Hn Hx]. apply NoDup_cons in Hn as [Hn _].
      assert (f_p g ∈ f_p <$> fs) as Hgin by (by apply list_elem_of_fmap_2).
      destruct (Hx (f_p f) (f_p g)) as [Hx' _]; [left|by right|intros E; apply Hn; by rewrite E|].
      apply (Hx' (f_p f)); [rewrite Esf; left|done].
    - intros Hin. apply (Hdj a Hin). exists g. split; [by right|done]. }
  destruct (IH fs s2 p (lp2 ++ Node (f_p f) h' (drop 20 sd) :: l)) as (ps & lp' & E & Hp' & Hc' & Hl' & Hso' & Hout); try done.
  - cbn. eapply frags_at_frame; [exact Hat|done|exact Hfr].
  - by apply (sep_app sh [f_p f]) in Hsp as [_ ?].
  - intros a Ha (g & Hg & Hag). rewrite fmap_app in Ha. apply elem_of_app in Ha as [Ha|Ha].
    + rewrite Ha2 in Ha. apply (Hdj a Ha). exists g. split; [by right|done].
    + destruct Hsp as [Hn Hx]. apply NoDup_cons in Hn as [Hn _].
      assert (f_p g ∈ f_p <$> fs) as Hgin by (by apply list_elem_of_fmap_2).
      destruct (Hx (f_p f) (f_p g)) as [Hx' _]; [left|by right|intros E'; apply Hn; by rewrite E'|].
      apply (Hx' a); [rewrite Esf; exact Ha|done].
  - simpl in Hl. lia.
  - rewrite content_app, content_cons. cbn [n_data]. rewrite Hc2, Hda, !length_app. lia.
  - exists ps, lp'. split; [done|]. split; [done|]. split; [|split; [|split; [done|]]].
    + rewrite Hc', content_app, content_cons. cbn [n_data]. by rewrite Hc2, Hda, app_assoc.
    + rewrite Hl', length_app. cbn [length]. change (clens (f :: fs)) with (f_clen f + clens fs)%nat.
      apply (f_equal length) in Ha2. rewrite !length_fmap in Ha2. lia.
    + intros b Hb Hb'. assert (b ∉ (sh (f_p f)).*1) as Hbf by (intros Hin; apply Hb'; exists f; split; [left|done]).
      rewrite Hout.
      * cbn. rewrite Hout2 by done. rewrite Epb1. apply lookup_insert_ne. intros <-. apply Hbf. rewrite Esf. left.
      * rewrite fmap_app, Ha2. intros [?|Hin]%elem_of_app; [done|]. apply Hbf. rewrite Esf. exact Hin.
      * intros (g & Hg & Hin). apply Hb'. exists g. split; [by right|done].
Qed.

(** ** Delivery *)

Lemma prev_loop_spec s a d E2 fuel : ∀ E1,
  listed (rs_data s) (E1 ++ (a, d) :: E2) None → NoDup ((E1 ++ (a, d) :: E2).*1) → E1 ≠ [] →
  (length E1 < fuel)%nat →
  prev_loop fuel s a (hd_or (E1 ++ (a, d) :: E2) None) = Ok (last (E1.*1)).
Proof.
  induction fuel as [|fuel IH]; intros E1 Hl Hn Hne Hf; [lia|]. destruct E1 as [|[b e] E1]; [done|].
  cbn [app hd_or prev_loop]. destruct Hl as [Hb Hl]. fold (app (A := Z * dgram)) in Hb, Hl.
  unfold entry. rewrite Hb. cbn [oget mbind res_bind entry_of r_next].
  destruct E1 as [|[c x] E1].
  - cbn [app hd_or]. by rewrite bool_decide_true.
  - cbn [app hd_or]. rewrite bool_decide_false.
    + cbn [fmap list_fmap fst]. rewrite last_cons_cons. cbn [app fmap list_fmap fst] in Hn.
      apply (IH ((c, x) :: E1)); [done| |done|cbn [length] in *; lia]. by apply NoDup_cons in Hn as [_ ?].
    + intros [= ->]. cbn [app fmap list_fmap fst] in Hn. apply NoDup_cons in Hn as [_ [Hn _]%NoDup_cons].
      apply Hn. rewrite fmap_app. set_solver.
Qed.

(** The header of a complete datagram is written over the helper of its first packet. *)
Lemma whole_hdr_written pb m sh nxt f h d :
  is_frag pb m sh nxt f → pb !! f_p f = Some h → dgram_ok d →
  let hdr := IPH_CHKSUM_SET 0 (IPH_OFFSET_SET 0
    (IPH_LEN_SET (lwip_htons (u16 (d_len d + IP_HLEN))) (d_hdr d))) in
  ∃ m1 c m2 l, mwrite m (p_payload h) hdr = Ok m1 ∧ inet_chksum m1 (p_payload h) IP_HLEN = Ok c ∧
    mwrite m1 (p_payload h) (IPH_CHKSUM_SET c hdr) = Ok m2 ∧
    packet pb m2 (Some (f_p f)) l ∧ content l = whole_hdr (d_hdr d) (d_len d) ++ f_data f ∧
    shape l = sh (f_p f) ∧ length l = f_clen f ∧ agree_off (sh (f_p f)) m m2.
Proof.
  intros (h' & sd & l & [Hp Hap Hsh Hcl Hl _ Hda _ _ _ _]) Hh [_ Hhl Hhb _ _ _] hdr.
  assert (h' = h) as -> by (inversion Hp; congruence).
  assert (length hdr = 20%nat) as El.
  { repeat (apply length_put_field; [|lia]). done. }
  assert (Forall is_byte hdr) as Hb.
  { unfold hdr, IPH_CHKSUM_SET, IPH_OFFSET_SET, IPH_LEN_SET. by repeat apply put_field_bytes. }
  destruct (packet_write_head _ _ _ _ _ _ hdr Hp Hap Hb) as (m1 & E1 & Hp1 & Hag1); [lia|]. rewrite El in Hp1.
  assert (mread m1 (p_payload h) (length hdr) = Ok hdr) as Hrd.
  { inversion Hp1 as [|? ? ? ? _ _ Hr _]; subst.
    pose proof (mread_sub _ _ _ _ 0 (length hdr) Hr) as E. rewrite Z.add_0_r, drop_0, take_app_length in E.
    apply E. rewrite length_app. lia. }
  destruct (inet_chksum_spec m1 (p_payload h) hdr Hrd Hb) as (c & Ec & Hc); [lia|]. rewrite El in Ec.
  assert (c = lwip_htons (rfc_checksum hdr)) as Ecv.
  { rewrite <- Hc. symmetry. apply lwip_htons_involutive. unfold inet_chksum in Ec. inv_res.
    unfold wrapu. apply Z.mod_pos_bound. done. }
  set (hdr2 := IPH_CHKSUM_SET c hdr).
  assert (length hdr2 = 20%nat) as El2 by (apply length_put_field; [done|lia]).
  destruct (packet_write_head _ _ _ _ _ _ hdr2 Hp1 Hap) as (m2 & E2 & Hp2 & Hag2);
    [by apply put_field_bytes|rewrite length_app; lia|]. rewrite El2 in Hp2.
  exists m1, c, m2. eexists. split; [done|]. split; [exact Ec|]. split; [exact E2|]. split; [exact Hp2|].
  split; [|split; [exact Hsh|split; [exact Hcl|]]].
  - rewrite content_cons. cbn [n_data]. rewrite drop_app_length' by done. rewrite <- Hda, app_assoc. f_equal. f_equal.
    unfold whole_hdr, hdr2. fold hdr. by rewrite Ecv.
  - rewrite <- Hsh. eapply agree_off_trans; [exact Hag1|exact Hag2].
Qed.

(** The data of a datagram without holes fits. *)
Lemma complete_len d : dgram_ok d → joined 0 (d_frags d) = true →
  Z.of_nat (length (concat (f_data <$> d_frags d))) <= 0xFFFF - IP_HLEN.
Proof.
  intros [_ _ _ _ He _] Hj. rewrite <- total_concat. destruct (d_frags d) as [|f l _] using rev_ind; [done|].
  rewrite Forall_app in He. destruct He as [_ [He _]%Forall_cons]. pose proof (joined_end _ _ _ Hj) as E. lia.
Qed.

Lemma finish_spec sh hs s E1 a d E2 :
  rep sh hs s (E1 ++ (a, d) :: E2) → joined 0 (d_frags d) = true →
  ∃ s' l, finish a s = Ok (Some (first_p d), s') ∧ rep sh (first_p d :: hs) s' (E1 ++ E2) ∧
    packet (bufs (rs_s s')) (rs_m s') (Some (first_p d)) l ∧ content l = whole d.
Proof.
  intros HR Hj. pose proof (rep_entry _ _ _ _ _ _ _ _ HR) as Ha.
  pose proof (repo_parts _ _ _ _ _ _ _ _ HR) as [_ Hokd _ Hatd Hsp Hct Hmx Hso].
  destruct (some_others _ _ _ _ _ _ _ _ HR eq_refl) as [Hne Hsm].
  pose proof (pool_inv_NoDup _ _ _ Hpd (re_pool _ _ _ _ _ HR)) as Hn.
  pose proof (re_list _ _ _ _ _ HR) as Hl. pose proof (re_head _ _ _ _ _ HR) as Hh.
  pose proof (re_pool _ _ _ _ _ HR) as Hpi.
  pose proof (complete_len d Hokd Hj) as Hlen. unfold IP_HLEN in Hlen.
  rewrite heads_cons in Hsp. pose proof Hsp as [Hspd _]%sep_app.
  unfold finish, entry. rewrite Ha. cbn [oget mbind res_bind entry_of r_p r_datagram_len r_iphdr].
  destruct (d_frags d) as [|f fs] eqn:Ef; [done|].
  cbn [head_p head fmap option_fmap option_map oget mbind res_bind]. pose proof Hatd as [Hf Hfs].
  destruct (is_frag_helper _ _ _ _ _ Hf) as (h & Hhb & Hget & _). unfold helper_of, buf_at. rewrite Hhb.
  cbn [oget mbind res_bind]. rewrite Hget. cbn [mbind res_bind next_pbuf].
  destruct (whole_hdr_written _ _ _ _ _ h d Hf Hhb Hokd) as (m1 & c & m2 & lp & Ew1 & Ec & Ew2 & Hp & Hcn & Hshp & Hll & Hag).
  rewrite Ew1. cbn [mbind res_bind]. rewrite Ec. cbn [mbind res_bind]. rewrite Ew2. cbn [mbind res_bind].
  assert (frags_at (bufs (rs_s s)) m2 sh fs) as Hfs2.
  { eapply frags_at_off; [exact Hfs| |exact Hag]. exact Hspd. }
  assert (length fs < chain_fuel (bufs (rs_s s)))%nat as Hfu.
  { pose proof (frags_fuel _ _ _ _ Hatd (proj1 Hspd)) as Hfu. cbn [length] in Hfu. lia. }
  assert (length (whole_hdr (d_hdr d) (d_len d)) = 20%nat) as Ewl.
  { pose proof (do_hdr _ Hokd) as Hhl. unfold whole_hdr. repeat (apply length_put_field; [|lia]). done. }
  cbn [fmap list_fmap concat] in Hlen. rewrite length_app in Hlen.
  destruct (join_loop_spec sh (heads (E1.*2 ++ E2.*2) ++ hs) (chain_fuel (bufs (rs_s s))) fs (set_rs_m m2 s) (f_p f) lp)
    as (ps & lp' & Ej & Hp' & Hcn' & Hll' & Hso' & Hout); try done.
  { by apply (sep_app sh [f_p f]) in Hspd as [_ ?]. }
  { intros b Hb (g & Hg & Hin). rewrite <- shape_addrs, Hshp in Hb.
    destruct Hspd as [Hnd Hx]. cbn [fmap list_fmap] in Hnd, Hx. apply NoDup_cons in Hnd as [Hnd _].
    assert (f_p g ∈ f_p <$> fs) as Hgin by (by apply list_elem_of_fmap_2).
    destruct (Hx (f_p f) (f_p g)) as [Hx' _]; [left|by right|intros E; apply Hnd; by rewrite E|]. by apply (Hx' b). }
  { rewrite Hcn, !length_app, Ewl. lia. }
  rewrite Ej. cbn [mbind res_bind].
  set (s1 := set_rs_s ps (set_rs_m m2 s)).
  assert ((if bool_decide (reassdatagrams s1 = Some a) then Ok None
           else prev_loop (S (size (rs_data s1))) s1 a (reassdatagrams s1)) = Ok (last (E1.*1))) as ->.
  { unfold s1. cbn [set_rs_s set_rs_m reassdatagrams rs_data]. rewrite Hh.
    destruct E1 as [|[b e] E1'] eqn:EE1; [by rewrite bool_decide_true|]. rewrite <- EE1 in *. rewrite bool_decide_false.
    - apply prev_loop_spec; [done|done|by rewrite EE1|].
      pose proof (listed_size _ _ _ Hl Hn) as Hsz. rewrite length_app in Hsz. lia.
    - rewrite EE1. cbn [app hd_or]. intros [= ->]. rewrite EE1 in Hn. cbn [app fmap list_fmap fst] in Hn.
      apply NoDup_cons in Hn as [Hn _]. apply Hn. rewrite fmap_app. set_solver. }
  cbn [mbind res_bind].
  destruct (dequeue_spec s1 E1 a d E2) as (s2 & Eq & Hs2 & Hm2 & Hc2 & Hl2 & Hh2 & Hp2); [done..|].
  rewrite Eq. cbn [mbind res_bind]. rewrite Hs2. unfold s1. cbn [set_rs_s rs_s].
  change (clens (f :: fs)) with (f_clen f + clens fs)%nat in *.
  rewrite (pbuf_clen_spec _ _ _ _ Hp') by lia. cbn [mbind res_bind]. unfold lwip_assert.
  unfold s1 in Hc2. cbn [set_rs_s set_rs_m ip_reass_pbufcount] in Hc2. rewrite Hc2, Hct.
  rewrite (proj2 (Z.leb_le _ _)) by lia. cbn [mbind res_bind].
  assert (first_p d = f_p f) as Efp by (unfold first_p; by rewrite Ef). rewrite Efp.
  eexists _, lp'. split; [reflexivity|]. unfold s1 in *. cbn [set_rs_s set_rs_m rs_s rs_m] in *.
  split; [|split].
  - apply (repo_removed false sh hs (f_p f :: hs) s _ E1 a d E2 HR); try done;
      cbn [note set_rs_count rs_s rs_m ip_reass_pbufcount].
    + split; cbn [note set_rs_count rs_s rs_m]; rewrite ?Hs2, ?Hm2, Ef.
      * intros x Hx. apply Hag. apply Hx. left.
      * intros b Hb. apply Hout.
        -- rewrite <- shape_addrs, Hshp. intros Hin. apply Hb. exists f. split; [left|done].
        -- intros (g & Hg & Hin). apply Hb. exists g. split; [by right|done].
    + rewrite Hll', Hll, wrapu_small by lia. lia.
    + rewrite Hs2. by rewrite <- Permutation_middle.
  - cbn [note set_rs_count rs_s rs_m]. by rewrite Hs2, Hm2.
  - rewrite Hcn', Hcn. unfold whole. rewrite Ef. cbn [fmap list_fmap concat]. by rewrite app_assoc.
Qed.

End run.
