(* ===== verification/Ip4FragStep.v ===== *)
(** * Fragments of IPv4 datagrams: a call of [ip4_reass] *)

From S2P Require Import Prelude Memp SysArch Pbuf PbufPacket PbufWrite PbufCopy LwipDef Chksum LwipMem.
From S2P Require Import LwipMemProofs LwipMemSpec PbufAlloc PbufLife PbufStore PbufClients.
From S2P Require Import Ip4Frag Ip4FragSpec Ip4FragRep Ip4FragRun.
From Stdlib Require Import Sorted.

Section step.
Context `{Platform}.
Context (ar : arena) (Hao : arena_ok ar) (pd : memp_desc) (Hpd : desc_ok pd).
Context (Hnum : Z.of_nat (pd_num pd) = IP_REASS_MAX_PBUFS) (self : Z).

#[local] Notation repo := (repo ar pd).
#[local] Notation rep := (repo false).

Lemma repo_note opn sh hs s E n : repo opn sh hs s E → repo opn sh hs (note n s) E.
Proof. intros [H1 H2 H3 H4 H5 H6 H7 H8 H9 H10 H11]. by split. Qed.

(** Something happens to a packet that is not queued. *)
Lemma repo_apart opn sh hs hs' s E p ps m :
  repo opn sh hs s E → sep sh (p :: heads (E.*2)) → agree_off (sh p) (rs_m s) m →
  (∀ b, b ∉ (sh p).*1 → bufs ps !! b = bufs (rs_s s) !! b) → sound ar ps (heads (E.*2) ++ hs') →
  repo opn sh hs' (set_rs_m m (set_rs_s ps s)) E.
Proof.
  intros [H1 H2 H3 H4 H5 H6 H7 H8 H9 H10 H11] Hs Hm Hb Hso. split; try done.
  cbn [set_rs_m set_rs_s rs_s rs_m].
  eapply (rest_frame sh (bufs (rs_s s)) (rs_m s) _ _ (Dgram [] 0 false 0 [Frag p 0 [] 0])); [done|done|..].
  - intros x Hx. apply Hm. apply (Hx (Frag p 0 [] 0)). left.
  - intros b Hb'. apply Hb. intros Hin. apply Hb'. exists (Frag p 0 [] 0). split; [left|done].
Qed.

Lemma nullreturn_spec sh hs s E p l :
  rep sh (p :: hs) s E → packet (bufs (rs_s s)) (rs_m s) (Some p) l → shape l = sh p →
  sep sh (p :: heads (E.*2)) → ∃ s', nullreturn self p s = Ok (None, s') ∧ rep sh hs s' E.
Proof.
  intros HR Hp Hsh Hs. unfold nullreturn. cbn [note rs_s].
  pose proof (re_sound _ _ _ _ _ _ _ HR) as Hso. rewrite <- Permutation_middle in Hso.
  destruct (pbuf_free_packet ar Hao self _ _ _ _ _ Hp Hso) as (c & ps & -> & Hso' & Hfr). rewrite Hsh in Hfr.
  cbn [mbind res_bind]. eexists. split; [reflexivity|].
  pose proof (repo_apart false sh _ hs (note NDrop s) E p ps (rs_m s) (repo_note _ _ _ _ _ NDrop HR) Hs
    (agree_off_refl _ _) Hfr Hso') as HR'. by destruct s.
Qed.

Lemma keys_unique hdr A1 d A2 :
  StronglySorted other_key (A1 ++ d :: A2) → same_dgram hdr d = true →
  existsb (same_dgram hdr) (A1 ++ A2) = false.
Proof.
  intros Hs Hd. apply existsb_false.
  assert (∀ x, other_key x d ∨ other_key d x → same_dgram hdr x = false) as Hx.
  { unfold other_key, same_dgram in *. intros x [Hx|Hx].
    - rewrite <- Hx. rewrite (match_sym (d_hdr d) (d_hdr x)), (match_sym (d_hdr x) hdr), (match_sym (d_hdr x)).
      rewrite match_sym in Hd. by rewrite (match_cong _ _ _ Hd).
    - rewrite <- Hx. rewrite !(match_sym (d_hdr x)). rewrite match_sym in Hd. by rewrite (match_cong _ _ _ Hd). }
  apply Forall_forall. intros x Hin. apply Hx. apply elem_of_app in Hin as [Hin|Hin].
  - left. apply list_elem_of_split in Hin as (k1 & k2 & ->). rewrite <- app_assoc in Hs. cbn [app] in Hs.
    induction k1 as [|y k1 IH]; cbn [app] in Hs; apply StronglySorted_inv in Hs as [Hs HF]; [|by apply IH].
    rewrite Forall_forall in HF. apply HF. set_solver.
  - right. induction A1 as [|y A1 IH]; cbn [app] in Hs; apply StronglySorted_inv in Hs as [Hs HF]; [|by apply IH].
    rewrite Forall_forall in HF. by apply HF.
Qed.

Lemma match_loop_spec opn sh hs s hdr fuel : ∀ E2 E1,
  repo opn sh hs s (E1 ++ E2) → (length E2 < fuel)%nat →
  match_loop fuel s hdr (hd_or E2 None) =
    Ok (fst <$> List.find (λ e, same_dgram hdr e.2) E2).
Proof.
  induction fuel as [|fuel IH]; intros E2 E1 HR Hl; [lia|]. destruct E2 as [|[a d] E2]; [done|].
  cbn [hd_or match_loop List.find]. unfold entry. rewrite (rep_entry ar pd Hpd _ _ _ _ _ _ _ _ HR).
  cbn [oget mbind res_bind entry_of r_iphdr r_next snd].
  change (IP_ADDRESSES_AND_ID_MATCH (d_hdr d) hdr) with (same_dgram hdr d).
  destruct (same_dgram hdr d); [done|]. apply (IH E2 (E1 ++ [(a, d)])); [by rewrite <- app_assoc|simpl in Hl; lia].
Qed.

Lemma find_split hdr (E : list (Z * dgram)) :
  match List.find (λ e, same_dgram hdr e.2) E with
  | None => existsb (same_dgram hdr) (E.*2) = false ∧ List.find (same_dgram hdr) (E.*2) = None
  | Some (a, d) => ∃ E1 E2, E = E1 ++ (a, d) :: E2 ∧ same_dgram hdr d = true ∧
      List.find (same_dgram hdr) (E.*2) = Some d
  end.
Proof.
  induction E as [|[a d] E IH]; [done|]. cbn [List.find fmap list_fmap snd existsb].
  destruct (same_dgram hdr d) eqn:Ed; [by exists [], E|].
  destruct (List.find _ E) as [[b e]|].
  - destruct IH as (E1 & E2 & -> & He & Hf). exists ((a, d) :: E1), E2. done.
  - done.
Qed.

Lemma put_found hdr A1 d A2 d' :
  StronglySorted other_key (A1 ++ d :: A2) → same_dgram hdr d = true →
  a_put hdr d' (A1 ++ d :: A2) = A1 ++ d' :: A2 ∧ without hdr (A1 ++ d :: A2) = A1 ++ A2.
Proof.
  intros Hs Hd. pose proof (keys_unique _ _ _ _ Hs Hd) as Hu. rewrite existsb_app in Hu.
  apply orb_false_iff in Hu as [H1 H2]. unfold a_put. rewrite existsb_app, H1. cbn [existsb].
  rewrite Hd. cbn [orb]. split.
  - rewrite fmap_app. cbn [fmap list_fmap]. rewrite Hd. by rewrite !put_absent.
  - rewrite without_app. cbn [without List.filter]. rewrite Hd. cbn [negb]. fold (without hdr A2).
    by rewrite !without_absent.
Qed.

(** ** A fragment meets its datagram *)

(** What a fragment must be like for the specification to speak about it: its last
    part does not begin at 0 (it would be no fragment), and it does not reach beyond
    the longest datagram without being refused. *)
Definition fragment_ok (r : arrival) : Prop :=
  plain r ∧ (a_is_last r = true → 0 < f_start (a_frag r)) ∧
  (a_is_last r = true ∨ f_end (a_frag r) <= 0xFFFF - IP_HLEN ∨ 0xFFFF < f_end (a_frag r)).

Lemma add_ok r d d' :
  dgram_ok d → fragment_ok r → a_add r d = Some d' →
  f_end (a_frag r) <= 0xFFFF - IP_HLEN ∧ frag_insert (a_frag r) (d_frags d) = Some (d_frags d') ∧
  d_frags d' ≡ₚ a_frag r :: d_frags d ∧ dgram_ok d' ∧
  d' = Dgram (d_hdr d) (if a_is_last r then f_end (a_frag r) else d_len d) (a_is_last r || d_last d)
    (d_timer d) (d_frags d').
Proof.
  intros [Hc Hhl Hhb Ht He Hla] (Hpl & Hfirst & Hend). unfold a_add.
  destruct (Z.ltb_spec (if a_is_last r then 65535 - IP_HLEN else 65535) (f_end (a_frag r))) as [|Hle]; [done|].
  destruct (frag_insert _ _) as [l|] eqn:Ei; [|done]. cbn [mbind option_bind]. intros [= <-].
  cbn [d_frags]. destruct (frag_insert_ok _ _ _ Hc Ei) as [Hc' Hp].
  assert (f_end (a_frag r) <= 65535 - IP_HLEN) as Hfe.
  { destruct (a_is_last r); [done|]. destruct Hend as [|[]]; [done|done|lia]. }
  split; [done|]. split; [done|]. split; [done|]. split; [|done]. split; cbn [d_frags d_hdr d_timer d_last d_len]; try done.
  - rewrite Hp. by constructor.
  - pose proof (f_end_ge (a_frag r)) as Hge. pose proof (offset_range (a_hdr r)) as Hor. cbn [a_frag f_start] in Hge.
    destruct (a_is_last r); cbn [orb].
    + intros _. split; [lia|]. exists (a_frag r). rewrite Hp. split; [left|by apply Hfirst].
    + intros Hl. destruct (Hla Hl) as [? (f & Hf & Hf0)]. split; [done|]. exists f. rewrite Hp. split; [by right|done].
Qed.

(** The datagram takes the fragment. *)
Lemma repo_add opn sh hs s E1 a d E2 r d' m' n :
  repo opn sh (a_p r :: hs) s (E1 ++ (a, d) :: E2) → sep sh (a_p r :: heads (d :: E1.*2 ++ E2.*2)) →
  Forall (λ d, d_frags d ≠ []) (E1.*2 ++ E2.*2) → dgram_ok d' → d_frags d' ≡ₚ a_frag r :: d_frags d → d_hdr d' = d_hdr d →
  frags_at (bufs (rs_s s)) m' sh (d_frags d') →
  (∀ x, ¬ covers (sh (a_p r)) x → (∀ y, y ∈ d_frags d → ¬ covers (sh (f_p y)) x) → m' !! x = rs_m s !! x) →
  n = Z.of_nat (waiting (E1.*2 ++ d :: E2.*2) + a_clen r) → n <= IP_REASS_MAX_PBUFS →
  rep sh hs (set_rs_count n (set_rs_data (<[a := entry_of (hd_or E2 None) d']> (rs_data s)) (set_rs_m m' s)))
    (E1 ++ (a, d') :: E2).
Proof.
  intros HR Hs Hsm Hok' Hp Hhd Hat' Hm -> Hmx. pose proof (repo_parts _ _ _ _ _ _ _ _ _ _ HR) as [Q1 Q2 Q3 Q4 Q5 Q6 Q7 Q8].
  pose proof (pool_inv_NoDup _ _ _ Hpd (re_pool _ _ _ _ _ _ _ HR)) as Hn. pose proof (re_keys _ _ _ _ _ _ _ HR) as Hk.
  rewrite fmap_app in Hk. cbn [fmap list_fmap snd] in Hk.
  assert (heads (d' :: E1.*2 ++ E2.*2) ≡ₚ a_p r :: heads (d :: E1.*2 ++ E2.*2)) as Ehd.
  { rewrite !heads_cons. change (a_p r) with (f_p (a_frag r)). by rewrite (fmap_Permutation f_p _ _ Hp). }
  assert (clens (d_frags d') = (a_clen r + clens (d_frags d))%nat) as Ecl by (by rewrite (clens_perm _ _ Hp)).
  split; cbn [set_rs_count set_rs_data set_rs_m rs_s rs_m rs_data reassdatagrams rs_pool ip_reass_pbufcount];
    rewrite ?fmap_app; cbn [fmap list_fmap fst snd].
  - apply (listed_swap _ _ _ d); [|done]. apply (re_list _ _ _ _ _ _ _ HR).
  - rewrite (re_head _ _ _ _ _ _ _ HR), !hd_or_app. done.
  - pose proof (re_pool _ _ _ _ _ _ _ HR) as Hpi. rewrite fmap_app in Hpi. done.
  - apply Forall_app in Q1 as [? ?]. apply Forall_app_2; [done|]. by constructor.
  - assert (Forall (λ d, frags_at (bufs (rs_s s)) m' sh (d_frags d)) (E1.*2 ++ E2.*2)) as HF.
    { eapply (rest_frame sh (bufs (rs_s s)) (rs_m s) _ _ d'); [done|by rewrite Ehd| |done].
      intros x Hx. apply Hm; [|intros y Hy].
      - apply (Hx (a_frag r)). rewrite Hp. left.
      - apply Hx. rewrite Hp. by right. }
    apply Forall_app in HF as [? ?]. apply Forall_app_2; [done|]. by constructor.
  - rewrite heads_middle, <- heads_cons, Ehd. done.
  - rewrite !waiting_middle, Ecl. lia.
  - rewrite waiting_middle, Ecl. rewrite waiting_middle in Hmx. lia.
  - eapply keys_swap; [|exact Hk]. rewrite Hhd. apply match_refl.
  - pose proof (re_sound _ _ _ _ _ _ _ HR) as Hso. rewrite fmap_app in Hso. cbn [fmap list_fmap snd] in Hso.
    rewrite heads_middle, <- heads_cons in Hso. rewrite heads_middle, <- heads_cons, Ehd. cbn [app].
    by rewrite Permutation_middle.
  - intros _. apply Forall_app in Hsm as [? ?]. apply Forall_app_2; [done|]. constructor; [|done].
    intros E. rewrite E in Hp. by apply Permutation_nil_cons in Hp.
Qed.

(** The entry of a fragment that is refused: a new one goes again. *)
Definition kept (E1 : list (Z * dgram)) (a : Z) (d : dgram) (E2 : list (Z * dgram)) : list (Z * dgram) :=
  match d_frags d with [] => E1 ++ E2 | _ => E1 ++ (a, d) :: E2 end.

Lemma refused_spec opn sh hs s E1 a d E2 p m' :
  repo opn sh (p :: hs) s (E1 ++ (a, d) :: E2) → sep sh (p :: heads (d :: E1.*2 ++ E2.*2)) →
  Forall (λ d, d_frags d ≠ []) (E1.*2 ++ E2.*2) → (d_frags d = [] → E1 = []) →
  still_there (bufs (rs_s s)) (rs_m s) m' sh p →
  ∃ s', nullreturn_ipr self a p (set_rs_m m' s) = Ok (None, s') ∧ rep sh hs s' (kept E1 a d E2).
Proof.
  intros HR Hs Hsm Hnew (Hag & l & Hp & Hsh). unfold nullreturn_ipr, entry. cbn [set_rs_m rs_data].
  rewrite (rep_entry ar pd Hpd _ _ _ _ _ _ _ _ HR). cbn [oget mbind res_bind entry_of r_p].
  assert (sep sh (p :: heads ((E1 ++ (a, d) :: E2).*2))) as Hs'.
  { rewrite fmap_app. cbn [fmap list_fmap snd]. by rewrite heads_middle, <- heads_cons. }
  assert (repo opn sh (p :: hs) (set_rs_m m' s) (E1 ++ (a, d) :: E2)) as HR1.
  { pose proof (repo_apart opn sh (p :: hs) (p :: hs) s _ p (rs_s s) m' HR Hs' Hag) as HR1. destruct s.
    apply HR1; [done|]. apply (re_sound _ _ _ _ _ _ _ HR). }
  unfold kept. destruct (d_frags d) as [|f fs] eqn:Ef; cbn [head_p head fmap option_fmap option_map].
  - rewrite (Hnew eq_refl) in *. cbn [app] in *. cbn [set_rs_m reassdatagrams].
    rewrite (re_head _ _ _ _ _ _ _ HR). cbn [hd_or]. rewrite bool_decide_true by done.
    cbn [lwip_assert mbind res_bind].
    destruct (dequeue_spec ar Hao pd Hpd Hnum (set_rs_m m' s) [] a d E2) as (s1 & E & Hs1 & Hm1 & Hc1 & Hl1 & Hh1 & Hp1);
      [apply HR1..|]. cbn [fmap list_fmap last app] in *. rewrite E. cbn [mbind res_bind].
    pose proof (repo_parts ar pd opn sh _ _ [] a d E2 HR1) as [_ _ _ _ _ Q6 _ Q8]. rewrite Ef in Q6, Q8.
    cbn [fmap list_fmap app clens sum_list Nat.add] in Q6, Q8.
    assert (rep sh (p :: hs) s1 E2) as HR2.
    { apply (repo_removed ar pd opn sh (p :: hs) (p :: hs) (set_rs_m m' s) s1 [] a d E2 HR1); try done.
      - split; intros; by rewrite ?Hm1, ?Hs1.
      - by rewrite Hc1.
      - by rewrite Hs1. }
    apply (nullreturn_spec sh hs s1 E2 p l); [done| |done|].
    + rewrite Hs1, Hm1. done.
    + rewrite heads_cons, Ef in Hs. exact Hs.
  - cbn [mbind res_bind]. apply (nullreturn_spec sh hs (set_rs_m m' s) _ p l); [|done|done|done].
    destruct HR1 as [P1 P2 P3 P4 P5 P6 P7 P8 P9 P10 _]. split; try done. intros _.
    rewrite fmap_app. cbn [fmap list_fmap snd]. apply Forall_app in Hsm as [? ?]. apply Forall_app_2; [done|].
    constructor; [by rewrite Ef|done].
Qed.

(** What becomes of the fragment. *)
Definition queued (sh : Z → list (Z * pbuf)) (hs : list Z) (E1 : list (Z * dgram)) (a : Z) (d : dgram)
    (E2 : list (Z * dgram)) (d' : option dgram) (o : option Z) (s' : reass) : Prop :=
  match d' with
  | None => o = None ∧ rep sh hs s' (kept E1 a d E2)
  | Some d' =>
      if complete d' then o = Some (first_p d') ∧ rep sh (first_p d' :: hs) s' (E1 ++ E2) ∧
        ∃ l, packet (bufs (rs_s s')) (rs_m s') (Some (first_p d')) l ∧ content l = whole d'
      else o = None ∧ rep sh hs s' (E1 ++ (a, d') :: E2)
  end.

Lemma arrives_len pb m sh r h s l : arrives pb m sh r h s l → Z.of_nat (length (a_data r)) < 2 ^ 16.
Proof.
  intros Har. rewrite <- (ar_data _ _ _ _ _ _ _ Har). pose proof (packet_len _ _ _ _ (ar_packet _ _ _ _ _ _ _ Har)) as Hpk.
  rewrite content_cons in Hpk. cbn [n_data] in Hpk. rewrite length_app in *. rewrite length_drop. lia.
Qed.

Lemma queue_frag_spec opn sh hs s E1 a d E2 r h sd l :
  repo opn sh (a_p r :: hs) s (E1 ++ (a, d) :: E2) → sep sh (a_p r :: heads (d :: E1.*2 ++ E2.*2)) →
  Forall (λ d, d_frags d ≠ []) (E1.*2 ++ E2.*2) → (d_frags d = [] → E1 = []) →
  arrives (bufs (rs_s s)) (rs_m s) sh r h sd l → fragment_ok r →
  Z.of_nat (waiting (E1.*2 ++ d :: E2.*2)) + Z.of_nat (a_clen r) <= IP_REASS_MAX_PBUFS →
  ∃ o s', queue_frag self a (a_p r) (a_hdr r) (Z.of_nat (a_clen r)) s = Ok (o, s') ∧
    queued sh hs E1 a d E2 (a_add r d) o s'.
Proof.
  intros HR Hs Hsm Hnew Har Hfo Hroom. pose proof Hfo as (Hpl & Hfirst & Hend). pose proof Hpl as [Hhl Hln].
  pose proof (repo_parts _ _ _ _ _ _ _ _ _ _ HR) as [_ Hokd _ Hatd Hspd Hct _ _].
  pose proof (arrives_len _ _ _ _ _ _ _ Har) as Hdl. pose proof (offset_range (a_hdr r)) as Hor.
  pose proof (rep_entry ar pd Hpd _ _ _ _ _ _ _ _ HR) as Ha.
  unfold queue_frag. rewrite Hln, Hhl. unfold IP_HLEN.
  replace (20 + Z.of_nat (length (a_data r)) - 20) with (Z.of_nat (length (a_data r))) by lia.
  rewrite (wrapu_small 16 (Z.of_nat (length (a_data r)))) by lia.
  change (Z.land (IPH_OFFSET (a_hdr r)) (lwip_htons IP_MF) =? 0) with (a_is_last r).
  change (IPH_OFFSET_BYTES (a_hdr r) + Z.of_nat (length (a_data r))) with (f_end (a_frag r)).
  assert (f_end (a_frag r) < 2 ^ 17) as Hf17 by (unfold f_end; cbn [a_frag f_start f_data]; lia).
  pose proof (f_end_ge (a_frag r)) as Hfge. cbn [a_frag f_start] in Hfge. fold (a_frag r) in Hfge.
  assert (sep sh (a_p r :: (f_p <$> d_frags d))) as Hspc.
  { rewrite heads_cons in Hs. apply (sep_app sh (a_p r :: (f_p <$> d_frags d)) (heads (E1.*2 ++ E2.*2))). exact Hs. }
  assert (still_there (bufs (rs_s s)) (rs_m s) (rs_m s) sh (a_p r)) as Hst0.
  { split; [apply agree_off_refl|]. eexists. split; [apply Har|apply Har]. }
  assert (a_is_last r && ((u16 (f_end (a_frag r)) <? IPH_OFFSET_BYTES (a_hdr r)) ||
      (0xFFFF - 20 <? u16 (f_end (a_frag r)))) = a_is_last r && (0xFFFF - 20 <? f_end (a_frag r))) as ->.
  { f_equal. destruct (Z.ltb_spec (f_end (a_frag r)) (2 ^ 16)) as [Hlt|Hge].
    - rewrite wrapu_small by lia. by rewrite (proj2 (Z.ltb_ge _ _) Hfge).
    - rewrite (proj2 (Z.ltb_lt (0xFFFF - 20) (f_end (a_frag r)))) by lia. rewrite (proj2 (Z.ltb_lt _ _)); [done|].
      unfold wrapu. rewrite <- (Z.mod_add _ (-1)) by lia. rewrite Z.mod_small; unfold f_end in *; cbn [a_frag f_start f_data] in *; lia. }
  destruct (a_is_last r && (0xFFFF - 20 <? f_end (a_frag r))) eqn:Ebig.
  { apply andb_true_iff in Ebig as [El Eb]. unfold a_add. rewrite El. unfold IP_HLEN. rewrite Eb. cbn [queued].
    destruct (refused_spec opn sh hs s E1 a d E2 (a_p r) (rs_m s)) as (s' & E & HR'); try done.
    exists None, s'. split; [|done]. rewrite <- E. by destruct s. }
  destruct (Z.ltb_spec (f_end (a_frag r)) (2 ^ 16)) as [Hlt|Hge].
  2: { (* the end is beyond 16 bits *)
    assert (a_is_last r = false) as El.
    { destruct (a_is_last r); [|done]. cbn [andb] in Ebig. apply Z.ltb_ge in Ebig. lia. }
    unfold a_add. rewrite El, (proj2 (Z.ltb_lt 65535 (f_end (a_frag r)))) by lia. cbn [queued].
    destruct (chain_frag_overflow s sh a r h sd l Har Hpl Hge) as (m' & E & Hst). rewrite El in E. rewrite E.
    cbn [mbind res_bind]. unfold IP_REASS_VALIDATE_PBUF_DROPPED. cbn [Z.eqb Pos.eqb].
    destruct (refused_spec opn sh hs s E1 a d E2 (a_p r) m') as (s' & E' & HR'); try done.
    exists None, s'. by split. }
  pose proof (chain_frag_spec s sh a _ (d_frags d) (d_last d) r h sd l Ha eq_refl eq_refl Hatd (do_chain _ Hokd)
    Hspc Har Hpl Hlt) as Hch.
  assert (a_is_last r || d_last d = true → ∃ g, g ∈ a_frag r :: d_frags d ∧ 0 < f_start g) as Hgt.
  { intros [El|El]%orb_true_iff; [exists (a_frag r); split; [left|by apply Hfirst]|].
    destruct (do_last _ Hokd El) as [_ (f & Hf & Hf0)]. exists f. split; [by right|done]. }
  specialize (Hch Hgt).
  assert ((if a_is_last r then 65535 - IP_HLEN else 65535) <? f_end (a_frag r) = false) as Elim.
  { apply Z.ltb_ge. unfold IP_HLEN. destruct (a_is_last r); [|lia]. cbn [andb] in Ebig. by apply Z.ltb_ge in Ebig. }
  destruct (frag_insert (a_frag r) (d_frags d)) as [L'|] eqn:Ei.
  2: { destruct Hch as (m' & E & Hst). unfold a_add. rewrite Elim, Ei. cbn [mbind option_bind queued]. rewrite E.
    cbn [mbind res_bind]. unfold IP_REASS_VALIDATE_PBUF_DROPPED. cbn [Z.eqb Pos.eqb].
    destruct (refused_spec opn sh hs s E1 a d E2 (a_p r) m') as (s' & E' & HR'); try done.
    exists None, s'. by split. }
  destruct Hch as (s1 & E & m' & -> & Hat' & Hm').
  destruct (a_add r d) as [d'|] eqn:Ead.
  2: { unfold a_add in Ead. by rewrite Elim, Ei in Ead. }
  destruct (add_ok r d d' Hokd Hfo Ead) as (Hfe & Ei' & Hp' & Hok' & Ed'). rewrite Ei in Ei'. injection Ei' as ->.
  rewrite E. cbn [mbind res_bind].
  assert (complete d' = (a_is_last r || d_last d) && joined 0 (d_frags d')) as Ecm.
  { unfold complete. by rewrite Ed' at 1. }
  rewrite <- Ecm in *. unfold IP_REASS_VALIDATE_PBUF_DROPPED, IP_REASS_VALIDATE_TELEGRAM_FINISHED.
  rewrite (proj2 (Z.eqb_neq (if complete d' then 1 else 0) (-1))) by (by destruct (complete d')).
  set (s1 := set_rs_count _ _). set (n := Z.of_nat (waiting (E1.*2 ++ d :: E2.*2) + a_clen r)).
  assert ((if a_is_last r then entry_mod (set_r_last (u16 (f_end (a_frag r)))) a s1 else Ok s1) =
    Ok (set_rs_count n (set_rs_data (<[a := entry_of (hd_or E2 None) d']> (rs_data s)) (set_rs_m m' s)))) as ->.
  { assert (s1 = set_rs_count n (set_rs_data (<[a := set_r_p (head_p (d_frags d')) (entry_of (hd_or E2 None) d)]> (rs_data s)) (set_rs_m m' s))) as ->.
    { unfold s1, n. cbn [set_rs_data set_rs_m ip_reass_pbufcount]. unfold set_rs_count. f_equal.
      rewrite Hct, waiting_middle, wrapu_small; unfold IP_REASS_MAX_PBUFS in Hroom; rewrite waiting_middle in Hroom; lia. }
    destruct (a_is_last r) eqn:El.
    - unfold entry_mod, entry. cbn [set_rs_count set_rs_data rs_data]. rewrite lookup_insert_eq. cbn [oget mbind res_bind].
      f_equal. unfold set_rs_data, set_rs_count. cbn. f_equal. rewrite insert_insert_eq. f_equal.
      rewrite Ed'. unfold entry_of, set_r_last, set_r_p. cbn. rewrite wrapu_small by lia.
      cbn [orb flags_of]. f_equal. by destruct (d_last d).
    - do 4 f_equal. rewrite Ed'. unfold entry_of, set_r_p. cbn. done. }
  cbn [mbind res_bind].
  pose proof (repo_add opn sh hs s E1 a d E2 r d' m' n HR Hs Hsm Hok' Hp' ltac:(by rewrite Ed') Hat' Hm' eq_refl ltac:(unfold n; lia)) as HR'.
  cbn [queued]. destruct (complete d') eqn:Ec.
  - cbn [Z.eqb Pos.eqb]. symmetry in Ecm. apply andb_true_iff in Ecm as [_ Hj].
    destruct (finish_spec ar Hao pd Hpd Hnum sh hs _ E1 a d' E2 HR' Hj) as (s' & l' & Ef & HR2 & Hpk & Hcn).
    exists (Some (first_p d')), s'. split; [done|]. split; [done|]. split; [done|]. by exists l'.
  - cbn [Z.eqb]. exists None. eexists. split; [reflexivity|]. done.
Qed.

(** ** A new datagram *)

Lemma frags_clens pb m sh fs : frags_at pb m sh fs → (length fs <= clens fs)%nat.
Proof.
  unfold clens. induction fs as [|f fs IH]; [simpl; lia|]. intros [(h & s & l & Hf) Hfs]. specialize (IH Hfs).
  pose proof (fa_clen _ _ _ _ _ _ _ _ Hf). cbn [fmap list_fmap sum_list length]. simpl. lia.
Qed.

(** Each datagram holds a buffer, so there is an entry for every one that may wait. *)
Lemma entries_bound sh hs s E : rep sh hs s E → (length E <= waiting (E.*2))%nat.
Proof.
  intros HR. pose proof (re_at _ _ _ _ _ _ _ HR) as Hat. pose proof (re_some _ _ _ _ _ _ _ HR eq_refl) as Hsm.
  clear HR. induction E as [|[a d] E IH]; [simpl; lia|]. cbn [fmap list_fmap snd] in Hat, Hsm |- *.
  apply Forall_cons in Hat as [Hd Hat]. apply Forall_cons in Hsm as [Hne Hsm]. specialize (IH Hat Hsm).
  pose proof (frags_clens _ _ _ _ Hd). assert (0 < length (d_frags d))%nat by (destruct (d_frags d); [done|simpl; lia]).
  change (waiting (d :: E.*2)) with (clens (d_frags d) + waiting (E.*2))%nat. cbn [length]. lia.
Qed.

Lemma enqueue_new_spec sh hs s E hdr n :
  rep sh hs s E → Z.of_nat (waiting (E.*2)) + n <= IP_REASS_MAX_PBUFS → 0 < n →
  existsb (same_dgram hdr) (E.*2) = false → length hdr = 20%nat → Forall is_byte hdr →
  ∃ a s', ip_reass_enqueue_new_datagram self hdr n s = Ok (Some a, s') ∧ rs_s s' = rs_s s ∧ rs_m s' = rs_m s ∧
    repo true sh hs s' ((a, a_entry hdr None) :: E).
Proof.
  intros HR Hroom Hn Hnew Hl Hb. unfold ip_reass_enqueue_new_datagram.
  pose proof (entries_bound _ _ _ _ HR) as Hbd.
  destruct (do_memp_malloc_gives pd (rs_pool s) (E.*1) Hpd (re_pool _ _ _ _ _ _ _ HR)) as (a & p' & -> & Hel & Hnin & Hpi).
  { rewrite length_fmap. lia. }
  cbn [mbind res_bind]. eexists a, _. split; [reflexivity|]. split; [done|]. split; [done|].
  destruct HR as [P1 P2 P3 P4 P5 P6 P7 P8 P9 P10 P11].
  split; cbn [set_rs_head set_rs_data set_rs_pool rs_s rs_m rs_data reassdatagrams rs_pool ip_reass_pbufcount hd_or];
    cbn [fmap list_fmap fst snd]; try done.
  - split; [rewrite lookup_insert_eq, P2; done|]. by apply listed_frame.
  - constructor; [|done]. split; cbn [a_entry d_frags d_hdr d_timer d_last]; try done. constructor.
  - by constructor.
  - constructor; [done|]. apply existsb_false in Hnew. eapply Forall_impl; [exact Hnew|]. done.
Qed.

(** ** The call *)

Definition handles (o : outcome) (hs : list Z) : list Z := match o with None => hs | Some (p, _) => p :: hs end.

(** The packet that is returned has the bytes of the specification. *)
Definition same_outcome (o : option Z) (o' : outcome) (s : reass) : Prop :=
  match o, o' with
  | None, None => True
  | Some p, Some (q, bytes) => p = q ∧ ∃ l, packet (bufs (rs_s s)) (rs_m s) (Some p) l ∧ content l = bytes
  | _, _ => False
  end.

Lemma sep_sub sh ps qs : ps ⊆+ qs → sep sh qs → sep sh ps.
Proof. intros [k Hk]%submseteq_Permutation Hs. rewrite Hk in Hs. by apply sep_app in Hs as [? _]. Qed.

Lemma arrives_frame pb m pb' m' sh r h s l :
  arrives pb m sh r h s l → (∀ x, covers (sh (a_p r)) x → m' !! x = m !! x) →
  (∀ b, b ∈ (sh (a_p r)).*1 → pb' !! b = pb !! b) → arrives pb' m' sh r h s l.
Proof.
  intros [Hp Hap Hsh Hcl Hl Hh Hd Hs] Hm Hb. split; try done. rewrite <- Hsh in Hm, Hb. rewrite shape_addrs in Hb.
  eapply packet_agree; [eapply packet_pb_agree; [exact Hp|]|].
  - intros n Hn. apply Hb. apply list_elem_of_fmap. by exists n.
  - intros n x Hn Hx. apply Hm. by eapply covers_node.
Qed.

(** Making room does not touch the packet that arrives. *)
Lemma arrives_fewer sh A A' s s' r h sd l :
  arrives (bufs (rs_s s)) (rs_m s) sh r h sd l → sep sh (a_p r :: heads A) → fewer sh A A' s s' →
  arrives (bufs (rs_s s')) (rs_m s') sh r h sd l ∧ sep sh (a_p r :: heads A').
Proof.
  intros Har Hs [[Hm Hb] Hsub]. split; [|eapply sep_sub; [|exact Hs]; by apply submseteq_skip].
  destruct Hs as [Hn Hx]. apply NoDup_cons in Hn as [Hn _].
  assert (∀ f, f ∈ A ≫= d_frags → f_p f ∈ heads A ∧ a_p r ≠ f_p f) as Hf.
  { intros f Hf. assert (f_p f ∈ heads A) as Hin by (by apply list_elem_of_fmap_2). split; [done|]. intros E; by rewrite <- E in Hin. }
  eapply arrives_frame; [exact Har|..].
  - intros x Hcx. apply Hm. intros f [Hin Hne]%Hf Hcf. destruct (Hx (a_p r) (f_p f)) as [_ Hc]; [left|by right|done|].
    by eapply Hc.
  - intros b Hbx. apply Hb. intros (f & [Hin Hne]%Hf & Hbf). destruct (Hx (a_p r) (f_p f)) as [Hc _]; [left|by right|done|].
    by eapply Hc.
Qed.

Definition step_ok (sh : Z → list (Z * pbuf)) (hs : list Z) (A : list dgram) (r : arrival) (x : res (option Z * reass)) : Prop :=
  ∃ o s' E', x = Ok (o, s') ∧ rep sh (handles (a_reass r A).1 hs) s' E' ∧
    (a_reass r A).2 = E'.*2 ∧ same_outcome o (a_reass r A).1 s'.

(** The outcome of [queue_frag], as the specification has it. *)
Lemma queued_step sh hs A r old E1 a d E2 o s' x :
  a_reass r A = match a_add r d with
    | None => (None, match old with None => E1.*2 ++ E2.*2 | Some _ => E1.*2 ++ d :: E2.*2 end)
    | Some d' => if complete d' then (Some (first_p d', whole d'), E1.*2 ++ E2.*2)
                 else (None, E1.*2 ++ d' :: E2.*2)
    end →
  (d_frags d = [] ↔ old = @None dgram) → x = Ok (o, s') → queued sh hs E1 a d E2 (a_add r d) o s' →
  step_ok sh hs A r x.
Proof.
  intros EA Hold -> Hq. unfold step_ok. rewrite EA. clear EA. destruct (a_add r d) as [d'|]; cbn [queued] in Hq.
  - destruct (complete d').
    + destruct Hq as (-> & HR & Hl). eexists _, s', (E1 ++ E2). split; [done|]. split; [done|].
      split; [by rewrite fmap_app|]. split; [done|]. exact Hl.
    + destruct Hq as [-> HR]. eexists _, s', (E1 ++ (a, d') :: E2). split; [done|]. split; [done|].
      split; [by rewrite fmap_app|]. done.
  - destruct Hq as [-> HR]. eexists _, s', (kept E1 a d E2). split; [done|]. split; [done|]. split; [|done].
    unfold kept. destruct (d_frags d) as [|f fs], old as [e|]; try (by rewrite fmap_app).
    + discriminate (proj1 Hold eq_refl).
    + discriminate (proj2 Hold eq_refl).
Qed.

Lemma arrives_hdr pb m sh r h s l :
  arrives pb m sh r h s l → length (a_hdr r) = 20%nat ∧ Forall is_byte (a_hdr r).
Proof.
  intros Har. rewrite <- (ar_hdr _ _ _ _ _ _ _ Har). pose proof (ar_len _ _ _ _ _ _ _ Har). split; [rewrite length_take; lia|].
  apply Forall_take. pose proof (ar_packet _ _ _ _ _ _ _ Har) as Hp. by inversion Hp.
Qed.

(** An entry takes the header of the first fragment. *)
Lemma entry_hdr_spec sh hs s E1 a d E2 hdr :
  rep sh hs s (E1 ++ (a, d) :: E2) → same_dgram hdr d = true → length hdr = 20%nat → Forall is_byte hdr →
  ∃ s', (d ← entry s a;
     if first_hdr hdr && negb (first_hdr (r_iphdr d)) then entry_mod (set_r_iphdr hdr) a s else Ok s) = Ok s' ∧
    rs_s s' = rs_s s ∧ rs_m s' = rs_m s ∧ rep sh hs s' (E1 ++ (a, a_entry hdr (Some d)) :: E2).
Proof.
  intros HR Hm Hl Hb. pose proof (rep_entry ar pd Hpd _ _ _ _ _ _ _ _ HR) as Ha. unfold entry at 1. rewrite Ha.
  cbn [oget mbind res_bind entry_of r_iphdr a_entry]. destruct (first_hdr hdr && negb (first_hdr (d_hdr d))).
  - unfold entry_mod, entry. rewrite Ha. cbn [oget mbind res_bind]. eexists. split; [reflexivity|].
    split; [done|]. split; [done|].
    change (set_r_iphdr hdr (entry_of (hd_or E2 None) d)) with
      (entry_of (hd_or E2 None) (Dgram hdr (d_len d) (d_last d) (d_timer d) (d_frags d))).
    apply (entry_swapped ar pd Hpd _ _ _ _ _ _ d); [done|done| |unfold same_dgram in Hm; by rewrite match_sym].
    pose proof (repo_parts _ _ _ _ _ _ _ _ _ _ HR) as [_ [] _ _ _ _ _ _]. by split.
  - by exists s.
Qed.

Lemma reass_step sh hs s E r h sd l :
  rep sh (a_p r :: hs) s E → sep sh (a_p r :: heads (E.*2)) →
  arrives (bufs (rs_s s)) (rs_m s) sh r h sd l → Z.of_nat (a_clen r) < 2 ^ 16 →
  (IPH_HL_BYTES (a_hdr r) = IP_HLEN → fragment_ok r) →
  step_ok sh hs (E.*2) r (ip4_reass self (a_p r) s).
Proof.
  intros HR Hs Har Hcl Hfo. destruct (arrives_header _ _ _ _ _ _ _ Har) as [Hh Hrd].
  destruct (arrives_hdr _ _ _ _ _ _ _ Har) as [Hhl Hhb].
  unfold ip4_reass. set (s0 := note NReqd (note NRecv s)).
  assert (rep sh (a_p r :: hs) s0 E) as HR0 by (by apply repo_note, repo_note).
  change (rs_s s0) with (rs_s s). change (rs_m s0) with (rs_m s). unfold buf_at. rewrite Hh. cbn [oget mbind res_bind].
  rewrite Hrd. cbn [mbind res_bind].
  assert (∀ s1 E1, rep sh (a_p r :: hs) s1 E1 → arrives (bufs (rs_s s1)) (rs_m s1) sh r h sd l →
    sep sh (a_p r :: heads (E1.*2)) → a_reass r (E.*2) = (None, E1.*2) →
    step_ok sh hs (E.*2) r (nullreturn self (a_p r) s1)) as Hnull.
  { intros s1 E1 HR1 Har1 Hs1 EA. destruct (nullreturn_spec sh hs s1 E1 (a_p r) _ HR1 (ar_packet _ _ _ _ _ _ _ Har1)
      (ar_shape _ _ _ _ _ _ _ Har1) Hs1) as (s' & En & HR'). exists None, s', E1. by rewrite EA. }
  destruct (Z.eqb_spec (IPH_HL_BYTES (a_hdr r)) IP_HLEN) as [Ehl|Ehl]; cbn [negb].
  2: { apply (Hnull (note NErr s0) E); [by apply repo_note|done|done|]. unfold a_reass.
       by rewrite (proj2 (Z.eqb_neq _ _) Ehl). }
  specialize (Hfo Ehl). pose proof Hfo as ([_ Hln] & _). rewrite Hln. rewrite Ehl at 1.
  rewrite (proj2 (Z.ltb_ge _ _)) by (unfold IP_HLEN; lia).
  rewrite (pbuf_clen_spec _ _ _ _ (ar_packet _ _ _ _ _ _ _ Har)) by (cbn [length]; rewrite (ar_clen _ _ _ _ _ _ _ Har); done).
  cbn [length]. rewrite (ar_clen _ _ _ _ _ _ _ Har). cbn [mbind res_bind].
  destruct (room_spec ar Hao pd Hpd Hnum self sh (a_p r :: hs) s0 E (a_hdr r) (Z.of_nat (a_clen r)) HR0)
    as (s1 & E1 & ok & Er & HR1 & Ea & Hok & Hfew); [lia|].
  rewrite Er. clear Er. cbn [mbind res_bind].
  destruct (arrives_fewer sh (E.*2) (E1.*2) s0 s1 r h sd l Har Hs Hfew) as [Har1 Hs1].
  assert (a_reass r (E.*2) = if ok then
      let old := List.find (same_dgram (a_hdr r)) (E1.*2) in
      let d := a_entry (a_hdr r) old in
      match a_add r d with
      | None => (None, match old with None => E1.*2 | Some _ => a_put (a_hdr r) d (E1.*2) end)
      | Some d => if complete d then (Some (first_p d, whole d), without (a_hdr r) (E1.*2)) else (None, a_put (a_hdr r) d (E1.*2))
      end else (None, E1.*2)) as EA.
  { unfold a_reass. rewrite Ehl, Z.eqb_refl. cbn [negb]. by rewrite Ea. }
  destruct ok; cbn [negb].
  2: { apply (Hnull (note NMemerr s1) E1); [by apply repo_note|done..]. }
  specialize (Hok eq_refl). rewrite (re_head _ _ _ _ _ _ _ HR1).
  rewrite (match_loop_spec false sh (a_p r :: hs) s1 (a_hdr r) (S (size (rs_data s1))) E1 [] HR1).
  2: { pose proof (listed_size ar Hao pd Hpd Hnum _ _ _ (re_list _ _ _ _ _ _ _ HR1)
         (pool_inv_NoDup _ _ _ Hpd (re_pool _ _ _ _ _ _ _ HR1))). lia. }
  cbn [mbind res_bind]. pose proof (find_split (a_hdr r) E1) as Hfs.
  destruct (List.find (λ e, same_dgram (a_hdr r) e.2) E1) as [[a d]|]; cbn [fmap option_fmap option_map fst].
  - (* a datagram that is there *)
    destruct Hfs as (F1 & F2 & -> & Hm & Hfind). rewrite Hfind in EA. cbv zeta in EA.
    destruct (entry_hdr_spec sh (a_p r :: hs) (note NCachehit s1) F1 a d F2 (a_hdr r)) as (s2 & E2 & Hs2 & Hm2 & HR2);
      [by apply repo_note|done..|].
    pose proof (some_others _ _ _ _ _ _ _ _ _ _ HR2 eq_refl) as [Hne Hsm].
    assert (∀ k : reass → res (option Z * reass),
      (d0 ← entry (note NCachehit s1) a;
       s ← (if (Z.land (lwip_htons (IPH_OFFSET (a_hdr r))) IP_OFFMASK =? 0) &&
               negb (Z.land (lwip_htons (IPH_OFFSET (r_iphdr d0))) IP_OFFMASK =? 0)
            then entry_mod (set_r_iphdr (a_hdr r)) a (note NCachehit s1) else Ok (note NCachehit s1));
       k s) = k s2) as Hk.
    { intros k. destruct (entry (note NCachehit s1) a) as [d0|]; cbn [mbind res_bind] in E2 |- *; [|done].
      unfold first_hdr in E2. by rewrite E2. }
    rewrite Hk. clear Hk E2.
    rewrite fmap_app in Hs1, Hok, EA. cbn [fmap list_fmap snd] in Hs1, Hok, EA.
    pose proof (re_keys _ _ _ _ _ _ _ HR1) as Hkeys. rewrite fmap_app in Hkeys. cbn [fmap list_fmap snd] in Hkeys.
    set (d1 := a_entry (a_hdr r) (Some d)) in *. assert (d_frags d1 = d_frags d) as Efr.
    { unfold d1, a_entry. by destruct (_ && _). }
    destruct (queue_frag_spec false sh hs s2 F1 a d1 F2 r h sd l HR2) as (o & s' & Eq & Hq); try done.
    + rewrite heads_middle, <- heads_cons in Hs1. rewrite heads_cons in Hs1 |- *. by rewrite Efr.
    + by rewrite Hs2, Hm2.
    + rewrite waiting_middle in Hok |- *. by rewrite Efr.
    + eapply (queued_step sh hs (E.*2) r (Some d) F1 a d1 F2 o s'); [|by split|exact Eq|exact Hq].
      rewrite EA. destruct (a_add r d1) as [d'|]; [destruct (complete d')|].
      * by rewrite (proj2 (put_found _ _ _ _ d' Hkeys Hm)).
      * by rewrite (proj1 (put_found _ _ _ _ d' Hkeys Hm)).
      * by rewrite (proj1 (put_found _ _ _ _ d1 Hkeys Hm)).
  - (* a new one *)
    destruct Hfs as [Hno Hfind]. rewrite Hfind in EA. cbv zeta in EA.
    destruct (enqueue_new_spec sh (a_p r :: hs) s1 E1 (a_hdr r) (Z.of_nat (a_clen r)) HR1 Hok) as (a & s2 & -> & Hs2 & Hm2 & HR2);
      [pose proof (ar_clen _ _ _ _ _ _ _ Har); lia|done..|].
    cbn [mbind res_bind]. set (d1 := a_entry (a_hdr r) None) in *.
    destruct (queue_frag_spec true sh hs s2 [] a d1 E1 r h sd l HR2) as (o & s' & Eq & Hq); try done.
    + apply (re_some _ _ _ _ _ _ _ HR1). done.
    + by rewrite Hs2, Hm2.
    + eapply (queued_step sh hs (E.*2) r None [] a d1 E1 o s'); [|done|exact Eq|exact Hq].
      rewrite EA. destruct (a_add r d1) as [d'|]; [destruct (complete d')|]; cbn [fmap list_fmap app].
      * by rewrite (without_absent _ _ Hno).
      * unfold a_put. by rewrite Hno.
      * done.
Qed.

End step.
