(* ===== verification/PbufRealloc.v ===== *)
(** * Cutting a packet: [pbuf_realloc]

    The buffers behind the new end are released, the others get their new lengths; for
    packets whose buffers are not from the heap, where nothing has to be given back
    within a buffer. *)

From S2P Require Import Prelude Memp SysArch Pbuf PbufPacket PbufWrite PbufCopy LwipDef LwipMem.
From S2P Require Import LwipMemProofs LwipMemSpec PbufAlloc PbufLife PbufStore PbufClients Ip4FragRun.

(** ** Releasing does not look at other buffers *)

Lemma pbuf_dealloc_other self a h s s' X :
  pbuf_dealloc self a h s = Ok s' → pbuf_dealloc self a h (set_bufs X s) = Ok (set_bufs (delete a X) s').
Proof.
  unfold pbuf_dealloc. intros E. cbn [custom_fn memp_pool memp_pbuf pheap set_bufs]. destruct (is_custom h).
  - destruct (custom_fn s !! a); [|done]. by injection E as <-.
  - repeat (destruct (_ =? _)).
    + destruct (do_memp_free_pool _ _); [|done]. by injection E as <-.
    + destruct (do_memp_free_pool _ _); [|done]. by injection E as <-.
    + destruct (mem_free _ _ _); [|done]. by injection E as <-.
    + done.
Qed.

Lemma free_loop_commutes self q k fuel : ∀ s p c c' s' l,
  free_loop fuel self p c s = Ok (c', s') → bchain (bufs s) p l → q ∉ l →
  free_loop fuel self p c (set_bufs (<[q := k]> (bufs s)) s) = Ok (c', set_bufs (<[q := k]> (bufs s')) s').
Proof.
  induction fuel as [|fuel IH]; intros s p c c' s' l E Hc Hq; destruct p as [a|]; cbn [free_loop] in *; try done.
  1, 3: by injection E as <- <-.
  inversion Hc as [|? h l' Ha Hc']; subst. apply not_elem_of_cons in Hq as [Hne Hq].
  unfold buf_at in *. cbn [bufs set_bufs] in *. rewrite lookup_insert_ne by done.
  rewrite Ha in *. cbn [oget mbind res_bind] in *. destruct (lwip_assert _); [|done]. cbn [mbind res_bind] in *.
  rewrite (buf_mod_at _ _ h) by (cbn; by rewrite lookup_insert_ne). rewrite (buf_mod_at _ _ h) in E by done.
  cbn [mbind res_bind bufs set_bufs] in *. rewrite insert_insert_ne by done. destruct (_ =? 0).
  - destruct (pbuf_dealloc _ _ _ _) as [s1|] eqn:Ed; [|done]. cbn [mbind res_bind] in E.
    apply (pbuf_dealloc_other _ _ _ _ _ (<[q := k]> (<[a := set_p_ref (u8 (p_ref h - 1)) h]> (bufs s)))) in Ed as Ed2.
    cbn [set_bufs] in Ed2. unfold set_bufs at 1 in Ed2. cbn in Ed2. unfold set_bufs at 1. cbn. rewrite Ed2. cbn [mbind res_bind].
    apply pbuf_dealloc_bufs in Ed. cbn [bufs set_bufs] in Ed.
    pose proof (bchain_NoDup _ _ _ Hc) as [Hni _]%NoDup_cons.
    assert (bufs s1 = delete a (bufs s)) as Es1 by (by rewrite Ed, delete_insert_eq).
    rewrite delete_insert_ne, delete_insert_eq, <- Es1 by done.
    apply (IH _ _ _ _ _ l' E); [|done].
    eapply bchain_frame; [exact Hc'|]. intros x Hx. rewrite Es1, lookup_delete_ne; [done|]. by intros ->.
  - injection E as <- <-. cbn. by rewrite insert_insert_ne.
Qed.

(** ** Fields *)

Lemma sound_field ar s a h h' hs :
  sound ar s hs → bufs s !! a = Some h → p_next h' = p_next h → p_ref h' = p_ref h → buf_src h' = buf_src h →
  sound ar (set_bufs (<[a := h']> (bufs s)) s) hs.
Proof.
  intros [Hc Hac] Ha Hn Hr Hs. split.
  - by apply (counted_field _ _ a h).
  - apply accounted_same; [done|]. by apply (same_src_insert _ _ h).
Qed.

(** ** The buffers that stay *)

(** The new headers of the buffers in front of the new end. *)
Definition retotal (shrink : Z) (n : node) : node :=
  Node (n_addr n) (set_p_tot (p_tot_len (n_hdr n) - shrink) (n_hdr n)) (n_data n).

Lemma realloc_loop_spec ar m hs shrink fuel : ∀ s p l rem,
  packet (bufs s) m (Some p) l → sound ar s hs → (length l < fuel)%nat →
  0 <= rem → 0 < shrink → Z.of_nat (length (content l)) = rem + shrink →
  ∃ l1 a h d l2 pb, l = l1 ++ Node a h d :: l2 ∧
    realloc_loop fuel p rem shrink s = Ok (a, rem - Z.of_nat (length (content l1)), set_bufs pb s) ∧
    0 <= rem - Z.of_nat (length (content l1)) <= Z.of_nat (length d) ∧ sound ar (set_bufs pb s) hs ∧
    (∀ n, n ∈ l1 → pb !! n_addr n = Some (n_hdr (retotal shrink n))) ∧
    (∀ b, b ∉ n_addr <$> l1 → pb !! b = bufs s !! b).
Proof.
  induction fuel as [|fuel IH]; intros s p l rem Hp Hs Hf Hr0 Hsh Hsum; [lia|].
  pose proof (packet_len _ _ _ _ Hp) as Hmx. pose proof Hp as Hp0. packet_inv Hp0.
  cbn [realloc_loop]. unfold buf_at. rewrite Ha. cbn [oget mbind res_bind]. rewrite Hlen.
  destruct (Z.ltb_spec (Z.of_nat (length s0)) rem) as [Hlt|Hge].
  - rewrite content_cons, length_app in *. cbn [n_data] in *. rewrite ?length_app in Htot. rewrite Htot.
    rewrite (buf_mod_at _ _ h) by done. cbn [mbind res_bind]. rewrite wrapu_small by lia.
    destruct (p_next h) as [nx|] eqn:En; [|inversion Hrest; subst; cbn in *; lia].
    cbn [oget mbind res_bind]. rewrite wrapu_small by lia.
    set (h' := set_p_tot _ h). set (s1 := set_bufs _ s).
    assert (sound ar s1 hs) as Hs1 by (by apply (sound_field _ _ _ h)).
    assert (p ∉ n_addr <$> l0) as Hni by (by pose proof (packet_NoDup _ _ _ _ Hp) as [Hni _]%NoDup_cons).
    assert (packet (bufs s1) m (Some nx) l0) as Hp1 by (by apply packet_insert_other).
    destruct (IH s1 nx l0 (rem - Z.of_nat (length s0)) Hp1 Hs1)
      as (l1 & b & hb & d & l2 & pb & -> & E & Hb & Hs' & Hin & Hout); [simpl in Hf; lia|lia|lia|lia|].
    exists (Node p h s0 :: l1), b, hb, d, l2, pb. rewrite content_cons, length_app. cbn [n_data].
    change (set_bufs pb s1) with (set_bufs pb s) in E, Hs'. split; [done|]. split.
    { rewrite E. do 3 f_equal. lia. }
    split; [lia|]. split; [done|]. rewrite fmap_app in Hni. apply not_elem_of_app in Hni as [Hn1 _].
    split.
    + intros n [->|Hn]%elem_of_cons; [|by apply Hin]. cbn [n_addr retotal n_hdr].
        rewrite Hout by done. unfold s1. cbn [bufs set_bufs]. rewrite lookup_insert_eq. do 2 f_equal. lia.
    + intros c. cbn [fmap list_fmap n_addr]. intros [Hne Hc]%not_elem_of_cons. rewrite Hout by done.
        unfold s1. cbn [bufs set_bufs]. by rewrite lookup_insert_ne.
  - exists [], p, h, s0, l0, (bufs s). cbn. rewrite Z.sub_0_r. split; [done|]. split; [by destruct s|].
    split; [lia|]. split; [by destruct s|]. split; [|done]. intros n Hn. by apply elem_of_nil in Hn.
Qed.

Lemma retotal_packet pb pb' m shrink a h d l2 r : ∀ l1 p,
  packet pb m p (l1 ++ Node a h d :: l2) → 0 <= r <= Z.of_nat (length d) →
  0 <= shrink → shrink + r = Z.of_nat (length (d ++ content l2)) →
  (∀ n, n ∈ l1 → pb' !! n_addr n = Some (n_hdr (retotal shrink n))) →
  pb' !! a = Some (set_p_next None (set_p_lens r r h)) →
  packet pb' m p ((retotal shrink <$> l1) ++ [Node a (set_p_next None (set_p_lens r r h)) (take (Z.to_nat r) d)]).
Proof.
  induction l1 as [|n l1 IH]; intros p Hp Hr Hs0 Hsh Hin Ha'; packet_inv Hp.
  - rewrite length_app in Htot. constructor.
    + done.
    + cbn. rewrite length_take. lia.
    + cbn. rewrite length_take, Nat.min_l by lia.
      pose proof (mread_sub _ _ _ _ 0 (Z.to_nat r) Hread ltac:(lia)) as E. by rewrite Z.add_0_r, drop_0 in E.
    + by apply Forall_take.
    + cbn. rewrite app_nil_r, length_take. lia.
    + cbn. lia.
    + constructor.
  - cbn [fmap list_fmap app]. unfold retotal at 1. cbn [n_addr n_hdr n_data].
    assert (content ((retotal shrink <$> l1) ++ [Node a (set_p_next None (set_p_lens r r h)) (take (Z.to_nat r) d)]) =
      content l1 ++ take (Z.to_nat r) d) as Ec.
    { rewrite content_app. cbn. rewrite app_nil_r. f_equal. unfold content. rewrite <- list_fmap_compose. done. }
    constructor.
    + exact (Hin _ ltac:(left)).
    + done.
    + done.
    + done.
    + rewrite Ec. cbn. rewrite Htot, content_app, content_cons, !length_app, length_take. cbn [n_data]. rewrite length_app in Hsh. lia.
    + cbn. lia.
    + cbn. apply IH; [done|done|done|done| |done]. intros n Hn. apply Hin. by right.
Qed.

(** ** The call *)

Definition not_heap (h : pbuf) : Prop := pbuf_get_allocsrc h ≠ PBUF_TYPE_ALLOC_SRC_MASK_STD_HEAP.

(** Cutting the chain behind [q], which has got its lengths, with the release of the
    rest. *)
Lemma cut_tail_spec `{Platform} ar self s m q h hs l2 :
  arena_ok ar → sound ar s hs → bufs s !! q = Some h → packet (bufs s) m (p_next h) l2 → q ∉ n_addr <$> l2 →
  ∃ s', (s ← (match p_next h with
              | Some n => '(_, s) ← pbuf_free self (Some n) s; Ok s
              | None => Ok s
              end); buf_mod (set_p_next None) q s) = Ok s' ∧
    sound ar s' hs ∧ bufs s' !! q = Some (set_p_next None h) ∧
    ∀ b, b ≠ q → b ∉ n_addr <$> l2 → bufs s' !! b = bufs s !! b.
Proof.
  intros Hao Hs Hq Hl2 Hni. destruct (p_next h) as [n|] eqn:En.
  - set (sA := set_bufs (<[q := set_p_next None h]> (bufs s)) s). pose proof Hs as [Hc Hac].
    assert (sound ar sA (n :: hs)) as HsA.
    { split; [by apply (counted_unlink _ _ _ h)|]. apply accounted_same; [done|]. by apply (same_src_insert _ _ h). }
    destruct (pbuf_free_spec ar Hao self sA n hs HsA) as (k & sB & E & HsB & _).
    assert (bchain (bufs sA) (Some n) (n_addr <$> l2)) as Hch.
    { apply (packet_bchain _ m). by apply packet_insert_other. }
    assert (∀ b, b ∉ n_addr <$> l2 → bufs sB !! b = bufs sA !! b) as Hfr.
    { intros b Hb. unfold pbuf_free in E. by eapply free_loop_frame. }
    unfold pbuf_free in E. pose proof (free_loop_commutes self q h _ _ _ _ _ _ _ E Hch Hni) as E2.
    assert (set_bufs (<[q := h]> (bufs sA)) sA = s) as Es.
    { unfold sA. cbn. rewrite insert_insert_eq, insert_id by done. by destruct s. }
    assert (chain_fuel (bufs sA) = chain_fuel (bufs s)) as Ef.
    { unfold chain_fuel, sA. cbn. rewrite map_size_insert_Some by (by eexists). done. }
    rewrite Es, Ef in E2. unfold pbuf_free. rewrite E2. cbn [mbind res_bind].
    rewrite (buf_mod_at _ _ h) by (cbn; by rewrite lookup_insert_eq). cbn [bufs set_bufs].
    rewrite insert_insert_eq. exists sB. split; [|split; [done|split]].
    + rewrite insert_id; [by destruct sB|]. rewrite Hfr by done. unfold sA. cbn. by rewrite lookup_insert_eq.
    + rewrite Hfr by done. unfold sA. cbn. by rewrite lookup_insert_eq.
    + intros b Hb Hb2. rewrite Hfr by done. unfold sA. cbn. by rewrite lookup_insert_ne.
  - cbn [mbind res_bind]. rewrite (buf_mod_at _ _ h) by done. eexists. split; [done|]. split; [by apply (sound_field _ _ _ h)|].
    cbn. rewrite lookup_insert_eq. split; [done|]. intros b Hb _. by rewrite lookup_insert_ne.
Qed.

Lemma pbuf_realloc_spec `{Platform} ar self s m p h d1 rest new hs :
  arena_ok ar → sound ar s hs → packet (bufs s) m (Some p) (Node p h d1 :: rest) →
  Forall (λ n, not_heap (n_hdr n)) (Node p h d1 :: rest) → 0 <= new →
  ∃ s' h' rest', pbuf_realloc self (Some p) new s = Ok s' ∧ sound ar s' hs ∧
    packet (bufs s') m (Some p) (Node p h' (take (Z.to_nat new) d1) :: rest') ∧ p_payload h' = p_payload h ∧
    content rest' = take (Z.to_nat new - length d1) (content rest) ∧
    ∀ b, b ∉ n_addr <$> Node p h d1 :: rest → bufs s' !! b = bufs s !! b.
Proof.
  intros Hao Hs Hp Hnh Hnew. pose proof Hp as Hp0. packet_inv Hp0. unfold pbuf_realloc, buf_at. cbn [oget mbind res_bind].
  rewrite Ha. cbn [oget mbind res_bind]. destruct (Z.leb_spec (p_tot_len h) new) as [Hle|Hgt].
  { exists s, h, rest. rewrite length_app in Htot. rewrite !take_ge by lia. by split_and!. }
  set (l := Node p h d1 :: rest) in *. rewrite wrapu_small by lia.
  assert (Z.of_nat (length (content l)) = p_tot_len h) as Hcl by (unfold l; rewrite content_cons; done).
  destruct (realloc_loop_spec ar m hs (p_tot_len h - new) (chain_fuel (bufs s)) s p l new Hp Hs)
    as (l1 & q & hq & d & l2 & pb & El & -> & Hr & Hs' & Hin & Hout); [by eapply packet_fuel|lia..|].
  cbn [mbind res_bind]. set (r := new - Z.of_nat (length (content l1))) in *.
  pose proof (packet_NoDup _ _ _ _ Hp) as Hnd. rewrite El, fmap_app, fmap_cons in Hnd. cbn [n_addr] in Hnd.
  apply NoDup_app in Hnd as (_ & Hd12 & [Hq2 _]%NoDup_cons).
  assert (q ∉ n_addr <$> l1) as Hq1 by (intros Hq; apply (Hd12 _ Hq); left).
  assert (bufs s !! q = Some hq) as Hq by (apply (packet_lookup _ _ _ _ (Node q hq d) Hp); rewrite El; set_solver).
  cbn [bufs set_bufs]. rewrite Hout, Hq by done. cbn [oget mbind res_bind].
  assert (not_heap hq) as Hnq by (rewrite El in Hnh; apply Forall_app in Hnh as [_ Hnh]; by inversion Hnh).
  rewrite (proj2 (Z.eqb_neq _ _) Hnq). cbn [andb mbind res_bind].
  rewrite (buf_mod_at _ _ hq) by (cbn; by rewrite Hout). cbn [mbind res_bind].
  set (h1 := set_p_lens r r hq). set (s1 := set_bufs _ _).
  assert (sound ar s1 hs) as Hs1.
  { apply (sound_field ar (set_bufs pb s) q hq h1); try done. cbn. by rewrite Hout. }
  assert (packet (bufs s) m (Some q) (Node q hq d :: l2)) as Hpq by (rewrite El in Hp; by apply packet_suffix in Hp).
  assert (packet (bufs s1) m (p_next h1) l2) as Hl2.
  { inversion Hpq; subst. apply packet_insert_other; [|done]. eapply packet_pb_agree; [done|].
    intros n Hn. apply Hout. intros Hx. apply (Hd12 _ Hx). right. apply list_elem_of_fmap. by exists n. }
  destruct (cut_tail_spec ar self s1 m q h1 hs l2 Hao Hs1) as (s' & E & Hs2 & Hq' & Hfr); [|done|done|].
  { cbn. by rewrite lookup_insert_eq. }
  change (p_next hq) with (p_next h1). rewrite E.
  assert (packet (bufs s') m (Some p) ((retotal (p_tot_len h - new) <$> l1) ++ [Node q (set_p_next None h1) (take (Z.to_nat r) d)])) as Hp'.
  { apply (retotal_packet (bufs s) _ _ _ _ _ _ l2); [by rewrite <- El|lia|lia| | |done].
    - rewrite El, content_app, content_cons, length_app in Hcl. cbn [n_data] in Hcl. lia.
    - intros n Hn. assert (n_addr n ∈ n_addr <$> l1) as Hna by (apply list_elem_of_fmap; by exists n).
      assert (n_addr n ≠ q) as Hnq' by (intros Ex; by rewrite Ex in Hna).
      rewrite Hfr; [|done|intros Hx; apply (Hd12 _ Hna); by right].
      cbn. rewrite lookup_insert_ne by done. by apply Hin. }
  assert (∀ b, b ∉ n_addr <$> l → bufs s' !! b = bufs s !! b) as Hframe.
  { intros b. rewrite El, fmap_app, fmap_cons, not_elem_of_app, not_elem_of_cons. cbn [n_addr]. intros (Hb1 & Hb2 & Hb3).
    rewrite Hfr by done. cbn. rewrite lookup_insert_ne by done. by apply Hout. }
  exists s'. unfold l in El. destruct l1 as [|n l1].
  - injection El as <- <- <- <-. cbn in Hp', r. exists (set_p_next None h1), [].
    assert (r = new) as Er by (unfold r; cbn; lia). rewrite Er in *. split_and!; try done.
    replace (Z.to_nat new - length d1)%nat with 0%nat by lia. by rewrite take_0.
  - injection El as <- El. cbn [fmap list_fmap app] in Hp'. unfold retotal at 1 in Hp'. cbn [n_addr n_hdr n_data] in Hp'.
    assert (r = new - Z.of_nat (length d1 + length (content l1))) as Er0
      by (unfold r; rewrite content_cons, length_app; done). clearbody r.
    assert (content (retotal (p_tot_len h - new) <$> l1) = content l1) as Ec
      by (unfold content; by rewrite <- list_fmap_compose).
    set (rest' := (retotal _ <$> l1) ++ [_]) in Hp'. exists (set_p_tot (p_tot_len h - (p_tot_len h - new)) h), rest'.
    assert (content rest' = take (Z.to_nat new - length d1) (content rest)) as Er.
    { unfold rest'. rewrite El, !content_app, content_cons, Ec. cbn. rewrite app_nil_r.
      rewrite take_app_ge by lia. f_equal. rewrite take_app_le by lia. f_equal. lia. }
    rewrite take_ge by lia. by split_and!.
Qed.
