(* ===== verification/Ip4FragClaims.v ===== *)
(** * Fragments of IPv4 datagrams: sessions

    Fragments arrive, the timer fires, and the other parts of the stack use their own
    packets in between: what [ip4_reass] hands over, all the time, is what the
    specification of [Ip4FragSpec] says. *)

From S2P Require Import Prelude Memp SysArch Pbuf PbufPacket PbufWrite PbufCopy LwipDef Chksum LwipMem.
From S2P Require Import LwipMemProofs LwipMemSpec PbufAlloc PbufLife PbufStore PbufClients.
From S2P Require Import Ip4Frag Ip4FragSpec Ip4FragRep Ip4FragRun Ip4FragStep.
From Stdlib Require Import Sorted.

(** What happens: a fragment is given to [ip4_reass]; the timer fires; the rest of the
    stack allocates, fills, reads and releases packets of its own, and has the handles
    [hs] then. *)
Inductive revent : Type :=
  | RArrive (r : arrival)
  | RTick
  | RClient (ps : pbufs) (m : gmap Z Z) (hs : list Z).

Definition frag_arrivals : list revent → list arrival :=
  omap (λ e, match e with RArrive r => Some r | _ => None end).

Definition is_tick (e : revent) : bool := match e with RTick => true | _ => false end.

(** What the specification makes of it. *)
Fixpoint a_events (evs : list revent) (A : list dgram) : list outcome * list dgram :=
  match evs with
  | [] => ([], A)
  | RArrive r :: evs => let '(o, A) := a_reass r A in let '(os, A) := a_events evs A in (o :: os, A)
  | RTick :: evs => a_events evs (a_tick A)
  | RClient _ _ _ :: evs => a_events evs A
  end.

(** The handles the stack has at the end: a packet is given away with its arrival, and
    one that is delivered comes back. *)
Fixpoint handles_after (evs : list revent) (A : list dgram) (hs : list Z) : list Z :=
  match evs with
  | [] => hs
  | RArrive r :: evs =>
      let '(o, A) := a_reass r A in handles_after evs A (handles o (default [] (remove1 (a_p r) hs)))
  | RTick :: evs => handles_after evs (a_tick A) hs
  | RClient _ _ hs :: evs => handles_after evs A hs
  end.

Lemma a_events_run evs A : existsb is_tick evs = false → a_events evs A = a_run (frag_arrivals evs) A.
Proof.
  revert A. induction evs as [|[r| |ps m hs] evs IH]; intros A; cbn [existsb is_tick orb a_events]; [done| |done|].
  - intros E. cbn [frag_arrivals omap list_omap a_run]. destruct (a_reass r A) as [o B]. by rewrite (IH B E).
  - apply IH.
Qed.

Section session.
Context `{Platform}.

(** The calls, with the result of each [ip4_reass] and the state it leaves. *)
Fixpoint r_run (self : Z) (evs : list revent) (s : reass) : res (list (option Z * reass) * reass) :=
  match evs with
  | [] => Ok ([], s)
  | RArrive r :: evs =>
      '(o, s1) ← ip4_reass self (a_p r) s; '(os, s2) ← r_run self evs s1; Ok ((o, s1) :: os, s2)
  | RTick :: evs => s1 ← ip_reass_tmr self s; r_run self evs s1
  | RClient ps m _ :: evs => r_run self evs (set_rs_m m (set_rs_s ps s))
  end.

Context (ar : arena) (pd : memp_desc).

(** The state holds the datagrams [A]; the stack has the handles [hs]. *)
Definition represents (s : reass) (A : list dgram) (hs : list Z) : Prop :=
  ∃ sh E, repo ar pd false sh hs s E ∧ E.*2 = A.

(** The packet of [r] is handed over: it has a handle, its bytes are the header and the
    data, and it shares neither buffers nor bytes with the packets that wait. *)
Definition handed_over (s : reass) (A : list dgram) (hs : list Z) (r : arrival) : Prop :=
  ∃ sh E h sd l, repo ar pd false sh (a_p r :: hs) s E ∧ E.*2 = A ∧ sep sh (a_p r :: heads A) ∧
    arrives (bufs (rs_s s)) (rs_m s) sh r h sd l ∧ Z.of_nat (a_clen r) < 2 ^ 16 ∧
    (IPH_HL_BYTES (a_hdr r) = IP_HLEN → fragment_ok r).

(** The stack uses its packets right and leaves those that wait alone. *)
Definition leaves_alone (s : reass) (A : list dgram) (ps : pbufs) (m : gmap Z Z) (hs : list Z) : Prop :=
  ∃ sh E hs', repo ar pd false sh hs' s E ∧ E.*2 = A ∧ sound ar ps (heads A ++ hs) ∧
    ∀ p, p ∈ heads A → (∀ b, b ∈ (sh p).*1 → bufs ps !! b = bufs (rs_s s) !! b) ∧
      (∀ x, covers (sh p) x → m !! x = rs_m s !! x).

(** What the stack has to observe, from each state on. *)
Fixpoint well_used (self : Z) (evs : list revent) (s : reass) (A : list dgram) (hs : list Z) : Prop :=
  match evs with
  | [] => True
  | RArrive r :: evs =>
      ∃ hs', remove1 (a_p r) hs = Some hs' ∧ handed_over s A hs' r ∧
        ∀ o s', ip4_reass self (a_p r) s = Ok (o, s') →
          well_used self evs s' (a_reass r A).2 (handles (a_reass r A).1 hs')
  | RTick :: evs => ∀ s', ip_reass_tmr self s = Ok s' → well_used self evs s' (a_tick A) hs
  | RClient ps m hs :: evs =>
      leaves_alone s A ps m hs ∧ well_used self evs (set_rs_m m (set_rs_s ps s)) A hs
  end.

Lemma leaves_alone_represents s A ps m hs :
  leaves_alone s A ps m hs → represents (set_rs_m m (set_rs_s ps s)) A hs.
Proof.
  intros (sh & E & hs' & [H1 H2 H3 H4 H5 H6 H7 H8 H9 H10 H11] & <- & Hso & Hal).
  exists sh, E. split; [|done]. split; try done. cbn [set_rs_m set_rs_s rs_s rs_m].
  rewrite Forall_forall in H5. apply Forall_forall. intros d Hd.
  assert (∀ f, f ∈ d_frags d → f_p f ∈ heads (E.*2)) as Hin.
  { intros f Hf. apply list_elem_of_fmap_2, list_elem_of_bind. by exists d. }
  eapply frags_at_frame; [by apply H5|..]; intros f x Hf; apply (Hal _ (Hin f Hf)).
Qed.

Lemma session_refines self evs :
  arena_ok ar → desc_ok pd → Z.of_nat (pd_num pd) = IP_REASS_MAX_PBUFS → ∀ s A hs,
  represents s A hs → well_used self evs s A hs →
  ∃ os s', r_run self evs s = Ok (os, s') ∧ represents s' (a_events evs A).2 (handles_after evs A hs) ∧
    Forall2 (λ x o, same_outcome x.1 o x.2) os (a_events evs A).1.
Proof.
  intros Hao Hpd Hnum. induction evs as [|[r| |ps m hs1] evs IH]; intros s A hs HR Hw; cbn [r_run a_events handles_after well_used] in *.
  - eexists _, _. split; [reflexivity|]. split; [done|constructor].
  - destruct Hw as (hs' & Hp & (sh & E & h & sd & l & HR' & <- & Hs & Har & Hcl & Hfo) & Hk).
    destruct (reass_step ar Hao pd Hpd Hnum self sh hs' s E r h sd l HR' Hs Har Hcl Hfo)
      as (o & s1 & E1 & Er & HR1 & EA & Ho).
    rewrite Er. cbn [mbind res_bind]. specialize (Hk o s1 Er). rewrite Hp. cbn [default from_option].
    destruct (a_reass r (E.*2)) as [o' A1] eqn:EA'. cbn [fst snd] in *.
    destruct (IH s1 A1 (handles o' hs')) as (os & s2 & -> & HR2 & Hos); [by exists sh, E1|done|].
    cbn [mbind res_bind]. destruct (a_events evs A1) as [os' A2]. cbn [fst snd] in *.
    eexists _, _. split; [reflexivity|]. split; [done|]. by constructor.
  - destruct HR as (sh & E & HR & <-).
    destruct (tmr_spec ar Hao pd Hpd Hnum self sh hs s E HR) as (s1 & E1 & Et & HR1 & EA).
    rewrite Et. cbn [mbind res_bind]. specialize (Hw s1 Et). apply (IH s1 (a_tick (E.*2)) hs); [|done].
    by exists sh, E1.
  - destruct Hw as (Hl & Hw). by apply (IH _ A hs1); [apply leaves_alone_represents|].
Qed.
End session.

(** C6 (refinement).  Reassembly, over any sequence of fragments that arrive, of ticks of
    the timer and of other uses of the stack's packets in between, does what the
    specification says, with the chains laid over the headers of the packets: no call
    faults, overruns its fuel or runs into an assertion; fragments that overlap, of a
    header with options or for which no room can be made are released; the oldest datagrams
    go when there are too many buffers or when their time is over; each packet that
    is delivered has exactly the bytes of the specification, header included, and at
    the end the state holds the datagrams the specification has.  The fragments
    that arrive are those [fragment_ok] describes: the last one of a datagram does not
    begin at 0, and one that is not the last does not end in 65516..65535. *)
Theorem reassembly_refines `{Platform} ar pd self evs s A hs :
  arena_ok ar → desc_ok pd → Z.of_nat (pd_num pd) = IP_REASS_MAX_PBUFS →
  represents ar pd s A hs → well_used ar pd self evs s A hs →
  ∃ os s', r_run self evs s = Ok (os, s') ∧ represents ar pd s' (a_events evs A).2 (handles_after evs A hs) ∧
    Forall2 (λ x o, same_outcome x.1 o x.2) os (a_events evs A).1.
Proof. intros. by apply session_refines. Qed.

(** C7 (roundtrip).  The fragments of a datagram give the datagram again, whatever the
    order they arrive in and whatever the stack does in between: nothing is delivered
    before the last of them has arrived, then one packet is, which consists of the header of the
    first fragment, with the length of the whole and its checksum, and the data of all
    fragments; the other datagrams that wait are as before. *)
Theorem reassembled_in_any_order `{Platform} ar pd self evs s A hs hdr D rs :
  arena_ok ar → desc_ok pd → Z.of_nat (pd_num pd) = IP_REASS_MAX_PBUFS →
  represents ar pd s A hs → well_used ar pd self evs s A hs →
  fragments_of hdr D rs → existsb (same_dgram hdr) A = false →
  Z.of_nat (waiting A + clens (a_frag <$> rs)) <= IP_REASS_MAX_PBUFS →
  frag_arrivals evs ≡ₚ rs → existsb is_tick evs = false →
  ∃ os p s1 s' l, r_run self evs s = Ok (os ++ [(Some p, s1)], s') ∧ Forall (λ x, x.1 = None) os ∧
    a_p <$> head rs = Some p ∧ packet (bufs (rs_s s1)) (rs_m s1) (Some p) l ∧
    content l = whole_hdr hdr (Z.of_nat (length D)) ++ D ∧ represents ar pd s' A (handles_after evs A hs).
Proof.
  intros Hao Hpd Hnum HR Hw Hfo Hno Hroom Hp Ht.
  destruct (session_refines ar pd self evs Hao Hpd Hnum s A hs HR Hw) as (os & s' & -> & HR' & Hos).
  rewrite (a_events_run _ _ Ht), (delivered_in_any_order hdr D rs A _ Hfo Hno Hroom Hp) in HR', Hos.
  cbn [fst snd] in HR', Hos. apply Forall2_app_inv_r in Hos as (os1 & os2 & Hos & Hlast & ->).
  inversion Hlast as [|[o s1] ? ? ? Ho Hnil]; subst. inversion Hnil; subst. cbn [fst snd delivery same_outcome] in Ho.
  destruct o as [p|]; [|done]. destruct Ho as (-> & l & Hl & Hc).
  pose proof (fo_hdr _ _ _ Hfo) as Hh. destruct rs as [|r rs]; [done|].
  eexists os1, _, s1, s', l. split; [done|]. split; [|done].
  apply Forall_forall. intros [[q|] sq] Hin; [exfalso|done].
  apply list_elem_of_lookup in Hin as [i Hi]. destruct (Forall2_lookup_l _ _ _ _ _ Hos Hi) as (y & Hy & Hs).
  apply lookup_replicate in Hy as [-> _]. done.
Qed.

(** ** Two fragments that arrive in the wrong order *)

Lemma rep_init `{Platform} ar pd sh ps m hs :
  desc_ok pd → sound ar ps hs → repo ar pd false sh hs (Reass ps m ∅ None 0 (memp_init_pool pd) []) [].
Proof.
  intros Hpd Hs. split; cbn [rs_s rs_m rs_data reassdatagrams ip_reass_pbufcount rs_pool]; try done.
  - by apply memp_init_pool_inv.
  - split; [constructor|]. intros p q Hp. by apply elem_of_nil in Hp.
  - constructor.
Qed.

Definition demo_hdr (offset : Z) : list Z :=
  [0x45; 0; 0; 28; 0; 7; Z.shiftr offset 8; Z.land offset 0xff; 64; 17; 0; 0; 10; 0; 0; 1; 10; 0; 0; 2].

Definition demo_frags : list arrival :=
  [Arrival 20280 (demo_hdr IP_MF) [1; 2; 3; 4; 5; 6; 7; 8] 1;
   Arrival 20560 (demo_hdr 1) [9; 10; 11; 12; 13; 14; 15; 16] 1].

Definition demo_mem : gmap Z Z :=
  list_to_map (zip (seqZ 20304 28) (demo_hdr IP_MF ++ [1; 2; 3; 4; 5; 6; 7; 8])) ∪
  list_to_map (zip (seqZ 20584 28) (demo_hdr 1 ++ [9; 10; 11; 12; 13; 14; 15; 16])).

Definition demo_pd : memp_desc := MempDesc 56 60 60000.

(** Two packets with these bytes are allocated from the pool. *)
Definition demo_reass : option reass :=
  match mem_init 4096 true with
  | Ok hp =>
      match @lrun linux64 demo_arena [LAlloc 1 true 0 28 PBUF_POOL; LAlloc 1 true 0 28 PBUF_POOL]
        (pbufs_init demo_arena hp ∅) [] with
      | Some (Ok (ps, _)) => Some (Reass ps demo_mem ∅ None 0 (memp_init_pool demo_pd) [])
      | _ => None
      end
  | Fault _ => None
  end.

Lemma demo_rep :
  ∃ s, demo_reass = Some s ∧ ∀ sh, @repo linux64 demo_arena demo_pd false sh [20560; 20280] s [].
Proof.
  unfold demo_reass. destruct (mem_init_inv 4096) as (hp & Ei & Hram & HI). rewrite Ei.
  vm_compute in Ei. injection Ei as <-.
  destruct (@lrun _ _ _ _ _) as [r|] eqn:Er; [|by vm_compute in Er].
  destruct (@lrun_sound linux64 demo_arena demo_arena_ok _ _ _ _ (pbufs_init_sound demo_arena _ ∅ demo_arena_ok Hram HI) Er)
    as (ps & hs & -> & Hs).
  eexists. split; [reflexivity|]. intros sh. apply rep_init; [done|].
  assert (hs = [20280; 20560]) as -> by (vm_compute in Er; by injection Er as _ <-).
  by rewrite (Permutation_swap 20280 20560).
Qed.

Definition demo_buf (payload : Z) : pbuf := Pbuf None payload 28 28 130 0 1 0.

Definition demo_sh (p : Z) : list (Z * pbuf) :=
  if p =? 20280 then [(p, demo_buf 20304)] else if p =? 20560 then [(p, demo_buf 20584)] else [].

Lemma demo_sep : sep demo_sh [20560; 20280].
Proof.
  split; [by apply (bool_decide_unpack _)|].
  assert (∀ x y z, covers [(x, demo_buf y)] z → y <= z < y + 28) as Hc.
  { intros x y z (b & ->%list_elem_of_singleton & Hz). unfold in_range in Hz. simpl in Hz. lia. }
  intros p q Hp Hq Hne. rewrite !elem_of_cons, !elem_of_nil in Hp, Hq.
  destruct Hp as [->|[->|[]]], Hq as [->|[->|[]]]; try done; cbn -[covers]; split; try set_solver;
    intros x H1%Hc H2%Hc; lia.
Qed.

Lemma arrives_single `{Platform} pb m sh r h sd :
  pb !! a_p r = Some h → p_next h = None → p_len h = Z.of_nat (length sd) → p_tot_len h = p_len h →
  p_len h < 2 ^ 16 → mread m (p_payload h) (length sd) = Ok sd → Forall is_byte sd →
  sh (a_p r) = [(a_p r, h)] → a_clen r = 1%nat → (20 <= length sd)%nat → sd = a_hdr r ++ a_data r →
  length (a_hdr r) = 20%nat → ptr_ok (Some (a_p r)) → arrives pb m sh r h sd [].
Proof.
  intros Hb Hn Hl Ht Hlt Hr Hby Hsh Hc Hle -> Hh Hp. split; try done.
  - constructor; try done; [by rewrite app_nil_r, Ht|by rewrite Ht|]. rewrite Hn. constructor.
  - by rewrite take_app_length'.
  - by rewrite drop_app_length', app_nil_r.
Qed.

Definition demo_frag_events : list revent := RArrive <$> reverse demo_frags.

Lemma demo_well_used s :
  demo_reass = Some s → (∀ sh, @repo linux64 demo_arena demo_pd false sh [20560; 20280] s []) →
  @well_used linux64 demo_arena demo_pd 1 demo_frag_events s [] [20560; 20280].
Proof.
  intros Es HR. vm_compute in Es. apply (inj Some) in Es. subst s.
  match goal with |- @well_used _ _ _ _ _ ?s _ _ => set (s0 := s) in * end.
  set (r1 := Arrival 20280 (demo_hdr IP_MF) [1; 2; 3; 4; 5; 6; 7; 8] 1).
  set (r2 := Arrival 20560 (demo_hdr 1) [9; 10; 11; 12; 13; 14; 15; 16] 1).
  change demo_frag_events with [RArrive r2; RArrive r1]. cbn [well_used]. exists [20280]. split; [done|].
  assert (@arrives linux64 (bufs (rs_s s0)) (rs_m s0) demo_sh r2 (demo_buf 20584) (a_hdr r2 ++ a_data r2) []) as Har.
  { apply (@arrives_single linux64); try (vm_compute; reflexivity || (split; reflexivity)).
    - apply (bool_decide_unpack _). vm_compute. exact I.
    - simpl. lia. }
  assert (@fragment_ok r2) as Hf2.
  { split; [split; by vm_compute|]. split; [by vm_compute|left; by vm_compute]. }
  destruct (@reass_step linux64 demo_arena demo_arena_ok demo_pd ltac:(by vm_compute) eq_refl 1 demo_sh [20280] s0 [] r2 _ _ _
    (HR demo_sh) ltac:(apply (sep_sub _ _ _ ltac:(apply submseteq_skip, submseteq_nil_l) demo_sep)) Har eq_refl (λ _, Hf2))
    as (o & s1 & E1 & Er & HR1 & EA & _).
  split.
  - exists demo_sh, [], (demo_buf 20584), (a_hdr r2 ++ a_data r2), [].
    split; [apply HR|]. split; [reflexivity|]. split; [|split; [exact Har|by split]].
    apply (sep_sub _ _ _ ltac:(apply submseteq_skip, submseteq_nil_l) demo_sep).
  - intros o' s' Er'. rewrite Er in Er'. injection Er' as <- <-. change (([] : list (Z * dgram)).*2) with (@nil dgram) in HR1, EA. rewrite EA.
    assert (E1.*2 = [Dgram (demo_hdr 1) 16 true 15 [a_frag r2]]) as EA1 by (rewrite <- EA; by vm_compute).
    assert ((a_reass r2 []).1 = None) as Eo by (by vm_compute). rewrite Eo in *.
    cbn [handles] in *. exists []. split; [done|]. split; [|done].
    exists demo_sh, E1, (demo_buf 20304), (a_hdr r1 ++ a_data r1), [].
    split; [done|]. split; [done|]. rewrite EA1. split; [|split; [|split; [done|]]].
    + cbn. rewrite (Permutation_swap 20560 20280). apply demo_sep.
    + vm_compute in Er. injection Er as _ <-.
      apply (@arrives_single linux64); try (vm_compute; reflexivity || (split; reflexivity)).
      * apply (bool_decide_unpack _). vm_compute. exact I.
      * simpl. lia.
    + intros _. split; [split; by vm_compute|]. split; [by vm_compute|right; left; by vm_compute].
Qed.

Lemma reassembly_refines_witness :
  ∃ s, demo_reass = Some s ∧ ∃ os s', @r_run linux64 1 demo_frag_events s = Ok (os, s') ∧
    @represents linux64 demo_arena demo_pd s' (a_events demo_frag_events []).2 (handles_after demo_frag_events [] [20560; 20280]) ∧
    Forall2 (λ x o, @same_outcome x.1 o x.2) os (a_events demo_frag_events []).1.
Proof.
  destruct demo_rep as (s & Es & HR). exists s. split; [exact Es|].
  apply (@reassembly_refines linux64 demo_arena demo_pd 1 demo_frag_events s [] [20560; 20280]).
  - exact demo_arena_ok.
  - by vm_compute.
  - reflexivity.
  - exists demo_sh, []. by split.
  - by apply demo_well_used.
Defined.

Lemma demo_fragments : fragments_of (demo_hdr IP_MF) (seqZ 1 16) demo_frags.
Proof.
  split; try (vm_compute; reflexivity); try (repeat constructor; done).
  - exists [Arrival 20280 (demo_hdr IP_MF) [1; 2; 3; 4; 5; 6; 7; 8] 1],
      (Arrival 20560 (demo_hdr 1) [9; 10; 11; 12; 13; 14; 15; 16] 1).
    split; [done|]. split; [by vm_compute|]. by repeat constructor.
Qed.

Lemma reassembled_in_any_order_witness :
  ∃ s, demo_reass = Some s ∧ ∃ os p s1 s' l, @r_run linux64 1 demo_frag_events s = Ok (os ++ [(Some p, s1)], s') ∧
    Forall (λ x, x.1 = None) os ∧ a_p <$> head demo_frags = Some p ∧
    packet (bufs (rs_s s1)) (rs_m s1) (Some p) l ∧
    content l = whole_hdr (demo_hdr IP_MF) (Z.of_nat (length (seqZ 1 16))) ++ seqZ 1 16 ∧
    @represents linux64 demo_arena demo_pd s' [] (handles_after demo_frag_events [] [20560; 20280]).
Proof.
  destruct demo_rep as (s & Es & HR). exists s. split; [exact Es|].
  apply (@reassembled_in_any_order linux64 demo_arena demo_pd 1 demo_frag_events s [] [20560; 20280]
    (demo_hdr IP_MF) (seqZ 1 16) demo_frags).
  - exact demo_arena_ok.
  - by vm_compute.
  - reflexivity.
  - exists demo_sh, []. by split.
  - by apply demo_well_used.
  - exact demo_fragments.
  - reflexivity.
  - by vm_compute.
  - exact (reverse_Permutation demo_frags).
  - reflexivity.
Defined.

(** ** A fragment behind the last one *)

(** The middle fragment of three is marked as the last; the third one arrives after it
    and is kept, since the code does not look at the end that is known by then. *)
Definition beyond_mem : gmap Z Z :=
  demo_mem ∪ list_to_map (zip (seqZ 20024 28) (demo_hdr (IP_MF + 2) ++ [17; 18; 19; 20; 21; 22; 23; 24])).

Definition beyond_run : res (option Z * reass) :=
  hp ← mem_init 4096 true;
  match @lrun linux64 demo_arena (replicate 3 (LAlloc 1 true 0 28 PBUF_POOL)) (pbufs_init demo_arena hp ∅) [] with
  | Some (Ok (ps, _)) =>
      let s := Reass ps beyond_mem ∅ None 0 (memp_init_pool demo_pd) [] in
      '(_, s) ← @ip4_reass linux64 1 20560 s;
      '(_, s) ← @ip4_reass linux64 1 20000 s;
      @ip4_reass linux64 1 20280 s
  | _ => Fault Aborted
  end.

(** The length in the header of the packet that is delivered is not its length. *)
Lemma longer_than_it_says :
  ∃ s h hdr, beyond_run = Ok (Some 20280, s) ∧ buf_at (rs_s s) 20280 = Ok h ∧
    mread (rs_m s) (p_payload h) 20 = Ok hdr ∧ lwip_htons (IPH_LEN hdr) = 36 ∧ p_tot_len h = 44.
Proof. eexists _, _, _. split; [vm_compute; reflexivity|]. split; [vm_compute; reflexivity|]. split; [vm_compute; reflexivity|]. by vm_compute. Qed.
