(* ===== verification/Ip6Text.v ===== *)
(** * The text of IPv6 addresses, and back

    The reference text of eight blocks: hexadecimal without leading zeros, colons
    between them, and the first run of two or more zero blocks cut out.  The code prints
    it into any buffer that holds it, and reads the blocks from it. *)

From S2P Require Import Prelude Memp SysArch Pbuf LwipDef Chksum Ip4Addr Ip6Addr.

(** ** The reference text *)

Definition hex_of (v : Z) : list Z :=
  (if v <? 16 then [] else
     (if v <? 256 then [] else
        (if v <? 4096 then [] else [lwip_xchar (v / 4096)]) ++ [lwip_xchar (v / 256 mod 16)]) ++
     [lwip_xchar (v / 16 mod 16)]) ++ [lwip_xchar (v mod 16)].

(** Each block with a colon before it. *)
Definition coloned (bs : list Z) : list Z := concat ((λ b, 58 :: hex_of b) <$> bs).

Definition join6 (bs : list Z) : list Z :=
  match bs with [] => [] | b :: bs => hex_of b ++ coloned bs end.

Fixpoint skip_zeros (bs : list Z) : list Z :=
  match bs with b :: bs' => if b =? 0 then skip_zeros bs' else bs | [] => [] end.

(** What is before and behind the first run of zeros. *)
Fixpoint cut_zeros (bs : list Z) : option (list Z * list Z) :=
  match bs with
  | [] => None
  | b :: bs' =>
      if (b =? 0) && bool_decide (head bs' = Some 0) then Some ([], skip_zeros bs')
      else '(p, q) ← cut_zeros bs'; Some (b :: p, q)
  end.

Definition text6 (bs : list Z) : list Z :=
  match cut_zeros bs with
  | None => join6 bs
  | Some (p, q) => join6 p ++ [58; 58] ++ join6 q
  end.

Definition is_block (b : Z) : Prop := 0 <= b < 2 ^ 16.

(** Blocks and words in host order. *)
Fixpoint pack6 (bs : list Z) : list Z :=
  match bs with
  | [] => []
  | [b] => [b * 2 ^ 16]
  | b :: c :: bs => (b * 2 ^ 16 + c) :: pack6 bs
  end.

Definition unpack6 (ws : list Z) : list Z := ws ≫= λ w, [w / 2 ^ 16; w mod 2 ^ 16].

Lemma pack_unpack ws : pack6 (unpack6 ws) = ws.
Proof.
  induction ws as [|w ws IH]; [done|]. unfold unpack6 in *. rewrite bind_cons. cbn [app pack6]. rewrite IH. f_equal.
  pose proof (Z.div_mod w (2 ^ 16)). lia.
Qed.

Lemma unpack_blocks ws : Forall (λ w, 0 <= w < 2 ^ 32) ws → Forall is_block (unpack6 ws).
Proof.
  induction 1 as [|w ws Hw _ IH]; [constructor|]. unfold unpack6 in *. rewrite bind_cons.
  constructor; [|constructor; [|done]]; unfold is_block.
  - split; [by apply Z.div_pos; lia|]. apply Z.div_lt_upper_bound; lia.
  - by apply Z.mod_pos_bound.
Qed.

(** ** Characters *)

(** All numbers from [z] on, [n] of them. *)
Fixpoint all_from (P : Z → bool) (n : nat) (z : Z) : bool :=
  match n with O => true | S n => P z && all_from P n (z + 1) end.

Lemma all_from_spec P n : ∀ z v, all_from P n z = true → z <= v < z + Z.of_nat n → P v = true.
Proof.
  induction n as [|n IH]; intros z v; cbn [all_from]; [lia|]. intros [H1 H2]%andb_true_iff Hv.
  destruct (decide (v = z)) as [->|]; [done|]. apply (IH (z + 1)); [done|lia].
Qed.

Lemma all_blocks : all_from (λ v, bool_decide (block_digits v = hex_of v)) (Z.to_nat (2 ^ 16)) 0 = true.
Proof. vm_compute. reflexivity. Qed.

Lemma block_digits_hex v : is_block v → block_digits v = hex_of v.
Proof.
  intros Hv. apply (bool_decide_eq_true_1 _).
  apply (all_from_spec (λ v, bool_decide (block_digits v = hex_of v)) _ 0 v all_blocks).
  unfold is_block in Hv. rewrite Z2Nat.id; lia.
Qed.

Definition is_hex (c : Z) : Prop := ∃ d, 0 <= d < 16 ∧ c = lwip_xchar d.

Lemma hex_of_hex v : is_block v → Forall is_hex (hex_of v).
Proof.
  unfold is_block, hex_of. intros Hv.
  assert (∀ x, is_hex (lwip_xchar (x mod 16))) as Hm
    by (intros x; exists (x mod 16); split; [by apply Z.mod_pos_bound|done]).
  apply Forall_app_2; [|constructor; [apply Hm|constructor]]. destruct (_ <? 16); [constructor|].
  apply Forall_app_2; [|constructor; [apply Hm|constructor]]. destruct (_ <? 256); [constructor|].
  apply Forall_app_2; [|constructor; [apply Hm|constructor]]. destruct (_ <? 4096); [constructor|].
  constructor; [|constructor]. exists (v / 4096). split; [|done].
  split; [apply Z.div_pos; lia|apply Z.div_lt_upper_bound; lia].
Qed.

Lemma length_hex_of v : (1 <= length (hex_of v) <= 4)%nat.
Proof. unfold hex_of. repeat destruct (_ <? _); simpl; lia. Qed.

Lemma hex_char d : 0 <= d < 16 →
  lwip_isxdigit (lwip_xchar d) = true ∧ hex_val (lwip_xchar d) = d ∧ lwip_xchar d ≠ 0 ∧ lwip_xchar d ≠ 58 ∧
  lwip_xchar d ≠ 46.
Proof.
  intros Hd.
  assert (all_from (λ d, lwip_isxdigit (lwip_xchar d) && bool_decide (hex_val (lwip_xchar d) = d ∧
    lwip_xchar d ≠ 0 ∧ lwip_xchar d ≠ 58 ∧ lwip_xchar d ≠ 46)) 16 0 = true) as HA by (by vm_compute).
  apply (all_from_spec _ _ _ d) in HA as [H1 H2]%andb_true_iff; [|lia]. by apply bool_decide_eq_true_1 in H2.
Qed.

Lemma length_coloned bs : (length (coloned bs) <= 5 * length bs)%nat.
Proof.
  unfold coloned. induction bs as [|b bs IH]; [done|]. cbn [fmap list_fmap concat]. rewrite length_app.
  pose proof (length_hex_of b). simpl in *. lia.
Qed.

Lemma length_join6 bs : (length (join6 bs) <= 5 * length bs - 1)%nat.
Proof.
  destruct bs as [|b bs]; [done|]. cbn [join6]. rewrite length_app. pose proof (length_coloned bs).
  pose proof (length_hex_of b). simpl. lia.
Qed.

Lemma skip_zeros_suffix bs : ∃ n, bs = replicate n 0 ++ skip_zeros bs.
Proof.
  induction bs as [|b bs [n IH]]; [by exists 0%nat|]. cbn [skip_zeros].
  destruct (Z.eqb_spec b 0) as [->|]; [|by exists 0%nat]. exists (S n). cbn [replicate app]. by f_equal.
Qed.

Lemma cut_zeros_spec bs : ∀ p q,
  cut_zeros bs = Some (p, q) → ∃ n, (2 <= n)%nat ∧ bs = p ++ replicate n 0 ++ q.
Proof.
  induction bs as [|b bs IH]; intros p q; cbn [cut_zeros]; [done|].
  destruct (Z.eqb_spec b 0) as [Eb|Eb]; cbn [andb].
  2: { intros ([p' q'] & Hc & [= <- <-])%bind_Some. destruct (IH _ _ Hc) as (n & Hn & ->). by exists n. }
  case_bool_decide as Hh.
  - intros [= <- <-]. subst b. destruct bs as [|c bs]; [done|]. injection Hh as ->. cbn [skip_zeros].
    rewrite Z.eqb_refl. destruct (skip_zeros_suffix bs) as [n E]. exists (S (S n)). split; [lia|].
    cbn [replicate app]. by do 2 f_equal.
  - intros ([p' q'] & Hc & [= <- <-])%bind_Some. destruct (IH _ _ Hc) as (n & Hn & ->). by exists n.
Qed.

Lemma length_text6 bs : length bs = 8%nat → (length (text6 bs) <= 39)%nat.
Proof.
  intros Hl. unfold text6. destruct (cut_zeros bs) as [[p q]|] eqn:E.
  - destruct (cut_zeros_spec _ _ _ E) as (n & Hn & ->). rewrite !length_app, length_replicate in Hl.
    rewrite !length_app. pose proof (length_join6 p). pose proof (length_join6 q). simpl. lia.
  - pose proof (length_join6 bs). lia.
Qed.

(** ** Printing *)

(** What the loop prints for the blocks that are left; [first]: nothing was printed. *)
Fixpoint emit6 (flag : Z) (first : bool) (bs : list Z) : list Z :=
  match bs with
  | [] => []
  | b :: bs =>
      let sep := if first then [] else [58] in
      if b =? 0 then
        if flag =? 1 then match bs with [] => [58] | _ => emit6 1 false bs end
        else if (flag =? 0) && bool_decide (head bs = Some 0) then 58 :: emit6 1 false bs
        else sep ++ hex_of 0 ++ emit6 flag false bs
      else sep ++ hex_of b ++ emit6 (if flag =? 1 then 2 else flag) false bs
  end.

(** The only zero block is the last one. *)
Definition lone_last_zero (bs : list Z) : Prop := cut_zeros bs = None ∧ last bs = Some 0.

Lemma hex_zero : hex_of 0 = [48].
Proof. done. Qed.

Lemma coloned_cons b bs : coloned (b :: bs) = 58 :: hex_of b ++ coloned bs.
Proof. done. Qed.

Lemma emit_done bs : emit6 2 false bs = coloned bs.
Proof.
  induction bs as [|b bs IH]; [done|]. rewrite coloned_cons. cbn [emit6 Z.eqb Pos.eqb andb].
  destruct (Z.eqb_spec b 0) as [->|]; by rewrite IH.
Qed.

Lemma emit_zeros bs : bs ≠ [] → emit6 1 false bs = 58 :: join6 (skip_zeros bs).
Proof.
  induction bs as [|b bs IH]; [done|]. intros _. cbn [emit6 skip_zeros Z.eqb Pos.eqb].
  destruct (Z.eqb_spec b 0) as [->|].
  - destruct bs as [|c bs]; [done|]. by apply IH.
  - by rewrite emit_done.
Qed.

(** The text, with a colon in front unless it comes first. *)
Definition join_from (first : bool) (bs : list Z) : list Z := if first then join6 bs else coloned bs.

Lemma join_from_cons first b bs :
  join_from first (b :: bs) = (if first then [] else [58]) ++ hex_of b ++ join_from false bs.
Proof. by destruct first. Qed.

Lemma emit_text bs : ∀ first,
  emit6 0 first bs = match cut_zeros bs with
                     | None => join_from first bs
                     | Some (p, q) => join_from first p ++ [58; 58] ++ join6 q
                     end.
Proof.
  induction bs as [|b bs IH]; intros first; [by destruct first|].
  cbn [emit6 cut_zeros Z.eqb]. destruct (Z.eqb_spec b 0) as [->|Hb]; cbn [andb].
  - case_bool_decide as Hh.
    + rewrite emit_zeros by (by destruct bs). by destruct first.
    + rewrite IH. destruct (cut_zeros bs) as [[p q]|]; cbn [mbind option_bind];
        rewrite join_from_cons, <- ?app_assoc; done.
  - rewrite IH. destruct (cut_zeros bs) as [[p q]|]; cbn [mbind option_bind];
      rewrite join_from_cons, <- ?app_assoc; done.
Qed.

Lemma emit_whole bs : emit6 0 true bs = text6 bs.
Proof. by rewrite emit_text. Qed.

(** [out] behind [pre] in a buffer, if it fits. *)
Definition printed (pre out rest : list Z) (buflen : nat) : option (list Z * nat) :=
  if decide (length pre + length out < buflen)%nat
  then Some ((pre ++ out) ++ drop (length out) rest, length (pre ++ out)) else None.

Lemma put6_spec c pre rest buflen :
  (length pre < buflen)%nat → (buflen <= length (pre ++ rest))%nat →
  put6 c (pre ++ rest) (length pre) (Z.of_nat buflen) = Ok (printed pre [c] rest buflen).
Proof.
  intros Hl Hb. rewrite length_app in Hb. destruct rest as [|x rest]; [simpl in Hb; lia|].
  unfold put6, printed. rewrite store_byte_app. cbn [mbind res_bind drop length]. rewrite <- app_assoc, length_app.
  cbn [length]. rewrite Nat.add_1_r. case_decide.
  - by rewrite (proj2 (Z.leb_gt _ _)) by lia.
  - by rewrite (proj2 (Z.leb_le _ _)) by lia.
Qed.

Lemma printed_then (f : list Z → nat → res (option (list Z * nat))) pre o1 o2 rest buflen :
  (length pre < buflen)%nat → (buflen <= length (pre ++ rest))%nat →
  (∀ pre' rest', pre' = pre ++ o1 → rest' = drop (length o1) rest → (length pre' < buflen)%nat →
     (buflen <= length (pre' ++ rest'))%nat →
     f (pre' ++ rest') (length pre') = Ok (printed pre' o2 rest' buflen)) →
  match printed pre o1 rest buflen with None => Ok None | Some (buf, i) => f buf i end =
    Ok (printed pre (o1 ++ o2) rest buflen).
Proof.
  intros Hl Hb Hf. unfold printed at 1. rewrite length_app in Hb. case_decide as H1.
  - rewrite (Hf _ _ eq_refl eq_refl); [|rewrite length_app; lia|rewrite !length_app, length_drop; lia].
    unfold printed. rewrite !length_app, drop_drop, !app_assoc, Nat.add_assoc. done.
  - unfold printed. rewrite decide_False; [done|]. rewrite length_app. lia.
Qed.

Lemma puts6_spec cs : ∀ pre rest buflen,
  (length pre < buflen)%nat → (buflen <= length (pre ++ rest))%nat →
  puts6 cs (pre ++ rest) (length pre) (Z.of_nat buflen) = Ok (printed pre cs rest buflen).
Proof.
  induction cs as [|c cs IH]; intros pre rest buflen Hl Hb; cbn [puts6].
  { unfold printed. rewrite decide_True by (simpl; lia). by rewrite !app_nil_r. }
  rewrite put6_spec by done. cbn [mbind res_bind].
  apply (printed_then (λ buf i, puts6 cs buf i (Z.of_nat buflen)) pre [c] cs); [done..|].
  intros pre' rest' _ _ H1 H2. by apply IH.
Qed.

Section printing.
Context (a : ip6_addr) (B : list Z) (buflen : nat).
Context (HB : length B = 8%nat) (Hblk : ∀ k b, B !! k = Some b → block6 a k = Ok b).
Context (Hall : Forall is_block B).

Lemma ntoa6_loop_spec bs : ∀ done flag pre rest,
  B = done ++ bs → flag ∈ [0; 1; 2] → (flag = 0 → cut_zeros bs = None → last bs ≠ Some 0) →
  (length pre < buflen)%nat → (buflen <= length (pre ++ rest))%nat →
  ntoa6_loop (length bs) (length done) flag a (pre ++ rest) (length pre) (Z.of_nat buflen) =
    Ok (printed pre (emit6 flag (length done =? 0)%nat bs) rest buflen).
Proof.
  induction bs as [|b bs IH]; intros dn flag pre rest E Hf Hok Hl Hb; cbn [length ntoa6_loop emit6].
  { unfold printed. rewrite decide_True by (simpl; lia). by rewrite !app_nil_r. }
  assert (is_block b) as Hbb by (rewrite Forall_forall in Hall; apply Hall; rewrite E; set_solver).
  rewrite (Hblk (length dn) b) by (by rewrite E, list_lookup_middle). cbn [mbind res_bind].
  assert (B = (dn ++ [b]) ++ bs) as E' by (by rewrite <- app_assoc).
  assert (length dn + S (length bs) = 8)%nat as Hlen by (rewrite <- HB, E, length_app; done).
  assert (S (length dn) = length (dn ++ [b])) as Hk by (rewrite length_app; simpl; lia).
  assert (∀ flag', flag' ∈ [0; 1; 2] → (flag' = 0 → cut_zeros bs = None → last bs ≠ Some 0) →
    ∀ out o, o = out ++ emit6 flag' false bs →
    match printed pre out rest buflen with
    | None => Ok None
    | Some (buf, i) => ntoa6_loop (length bs) (S (length dn)) flag' a buf i (Z.of_nat buflen)
    end = Ok (printed pre o rest buflen)) as Hthen.
  { intros flag' Hf' Hok' out o ->. apply printed_then; [done..|]. intros pre' rest' _ _ H1 H2.
    rewrite Hk, (IH (dn ++ [b]) flag' pre' rest' E' Hf' Hok' H1 H2).
    rewrite <- Hk. done. }
  assert (∀ flag', flag' ∈ [0; 1; 2] → (flag' = 0 → cut_zeros bs = None → last bs ≠ Some 0) →
    (r ← puts6 ((if (0 <? length dn)%nat then [58] else []) ++ block_digits b) (pre ++ rest) (length pre) (Z.of_nat buflen);
     match r with None => Ok None | Some (buf, i) => ntoa6_loop (length bs) (S (length dn)) flag' a buf i (Z.of_nat buflen) end) =
    Ok (printed pre ((if (length dn =? 0)%nat then [] else [58]) ++ hex_of b ++ emit6 flag' false bs) rest buflen)) as Hprint.
  { intros flag' Hf' Hok'. rewrite puts6_spec, block_digits_hex by done. cbn [mbind res_bind].
    apply Hthen; [done..|]. rewrite <- app_assoc. f_equal. by destruct dn. }
  destruct (Z.eqb_spec b 0) as [->|Hb0].
  - destruct (Z.eqb_spec flag 1) as [->|Hf1].
    + rewrite andb_true_r. change (1 =? 0) with false. cbn [andb].
      destruct (Nat.eqb_spec (length dn) 7) as [E7|E7].
      * destruct bs as [|c bs]; [|simpl in Hlen; lia]. by rewrite put6_spec.
      * destruct bs as [|c bs]; [simpl in Hlen; lia|].
        pose proof (Hthen 1 Hf ltac:(done) [] _ eq_refl) as HT. unfold printed at 1 in HT.
        rewrite decide_True in HT by (simpl; lia). rewrite !app_nil_r in HT. exact HT.
    + rewrite andb_false_r. destruct (Z.eqb_spec flag 0) as [->|Hf0].
      * cbn [andb]. destruct bs as [|c bs].
        { exfalso. exact (Hok eq_refl eq_refl eq_refl). }
        rewrite (Hblk (S (length dn)) c) by (by rewrite Hk, E', list_lookup_middle).
        cbn [mbind res_bind head]. destruct (Z.eqb_spec c 0) as [->|Hc].
        -- rewrite bool_decide_true by done. rewrite put6_spec by done. cbn [mbind res_bind].
           apply (Hthen 1 ltac:(set_solver) ltac:(done) [58]). done.
        -- rewrite bool_decide_false by congruence. apply Hprint; [done|]. intros _ Hc' Hl'.
           apply Hok; [done| |done]. cbn [cut_zeros head]. rewrite bool_decide_false by congruence.
           cbn [Z.eqb andb]. cbn [cut_zeros] in Hc'. by rewrite Hc'.
      * cbn [andb]. by apply Hprint.
  - apply Hprint.
    + destruct (flag =? 1); [set_solver|done].
    + intros Hz Hc Hl'. destruct (Z.eqb_spec flag 1); [done|]. apply Hok; [done| |].
      * cbn [cut_zeros]. rewrite (proj2 (Z.eqb_neq _ _) Hb0). cbn [andb]. by rewrite Hc.
      * destruct bs; [done|]. by rewrite last_cons_cons.
Qed.
End printing.

(** ** The text of an address *)

(** Four words of 32 bits. *)
Definition valid6 (a : ip6_addr) : Prop := ∃ w0 w1 w2 w3,
  a6 a = lwip_htonl <$> [w0; w1; w2; w3] ∧ Forall (λ w, 0 <= w < 2 ^ 32) [w0; w1; w2; w3].

Definition blocks6 (a : ip6_addr) : list Z := unpack6 (lwip_htonl <$> a6 a).

(** A version 4 address in the last word. *)
Definition mapped6 (a : ip6_addr) : bool := bool_decide (take 6 (blocks6 a) = [0; 0; 0; 0; 0; 0xffff]).

Definition ip4_word_text (w : Z) : list Z :=
  match le_bytes 4 w with [a; b; c; d] => ip4_text a b c d | _ => [] end.

Definition addr_text (a : ip6_addr) : list Z :=
  if mapped6 a then IP4MAPPED_HEADER ++ ip4_word_text (default 0 (a6 a !! 3%nat)) else text6 (blocks6 a).

Lemma htonl_all ws : Forall (λ w, 0 <= w < 2 ^ 32) ws → lwip_htonl <$> (lwip_htonl <$> ws) = ws.
Proof.
  induction 1 as [|w ws Hw _ IH]; [done|]. cbn [fmap list_fmap]. by rewrite lwip_htonl_involutive, IH.
Qed.

Lemma blocks6_words w0 w1 w2 w3 z :
  Forall (λ w, 0 <= w < 2 ^ 32) [w0; w1; w2; w3] →
  blocks6 (Ip6 (lwip_htonl <$> [w0; w1; w2; w3]) z) = unpack6 [w0; w1; w2; w3].
Proof. intros Hw. unfold blocks6. cbn [a6]. by rewrite htonl_all. Qed.

Lemma block6_spec a k b : valid6 a → blocks6 a !! k = Some b → block6 a k = Ok b.
Proof.
  intros (w0 & w1 & w2 & w3 & Ea & Hw). destruct a as [ws z]. cbn [a6] in Ea. subst ws.
  rewrite blocks6_words by done. intros Hk.
  apply Forall_cons in Hw as [H0 Hw]. apply Forall_cons in Hw as [H1 Hw]. apply Forall_cons in Hw as [H2 Hw].
  apply Forall_cons in Hw as [H3 _].
  assert (∀ w, 0 <= w < 2 ^ 32 → Z.land (Z.shiftr w 16) 0xffff = w / 2 ^ 16 ∧ Z.land w 0xffff = w mod 2 ^ 16) as HL.
  { intros w Hw. change 0xffff with (Z.ones 16). rewrite !Z.land_ones, Z.shiftr_div_pow2 by done. split; [|done].
    apply Z.mod_small. split; [apply Z.div_pos; lia|apply Z.div_lt_upper_bound; lia]. }
  destruct (HL _ H0) as [A0 B0], (HL _ H1) as [A1 B1], (HL _ H2) as [A2 B2], (HL _ H3) as [A3 B3].
  unfold block6, word6. cbn [a6].
  do 8 (destruct k as [|k]; [injection Hk as <-; cbn -[Z.land Z.shiftr lwip_htonl Z.div Z.modulo];
    rewrite lwip_htonl_involutive by done; by rewrite ?A0, ?B0, ?A1, ?B1, ?A2, ?B2, ?A3, ?B3|]).
  done.
Qed.

Lemma htonl_inj x y : 0 <= x < 2 ^ 32 → 0 <= y < 2 ^ 32 → lwip_htonl x = lwip_htonl y → x = y.
Proof. intros Hx Hy E. by rewrite <- (lwip_htonl_involutive x), E, lwip_htonl_involutive. Qed.

Lemma htonl_eqb x y : 0 <= x < 2 ^ 32 → 0 <= y < 2 ^ 32 → (lwip_htonl x =? lwip_htonl y) = (x =? y).
Proof.
  intros Hx Hy. destruct (Z.eqb_spec x y) as [->|Hne]; [by rewrite Z.eqb_refl|].
  apply Z.eqb_neq. intros E. by apply htonl_inj in E.
Qed.

Lemma mapped_spec a : valid6 a → ip6_addr_isipv4mappedipv6 a = Ok (mapped6 a).
Proof.
  intros (w0 & w1 & w2 & w3 & Ea & Hw). destruct a as [ws z]. cbn [a6] in Ea. subst ws.
  unfold mapped6. rewrite blocks6_words by done.
  apply Forall_cons in Hw as [H0 Hw]. apply Forall_cons in Hw as [H1 Hw]. apply Forall_cons in Hw as [H2 _].
  unfold ip6_addr_isipv4mappedipv6, word6. cbn [a6 fmap list_fmap lookup list_lookup oget mbind res_bind]. f_equal.
  change 0 with (lwip_htonl 0) at 1 2. rewrite !htonl_eqb by done.
  unfold unpack6. cbn [mbind list_bind app take].
  pose proof (Z.div_mod w0 (2 ^ 16)). pose proof (Z.div_mod w1 (2 ^ 16)). pose proof (Z.div_mod w2 (2 ^ 16)).
  case_bool_decide as E.
  - injection E as E0 E1 E2 E3 E4 E5. rewrite !andb_true_iff, !Z.eqb_eq. lia.
  - apply not_true_iff_false. rewrite !andb_true_iff, !Z.eqb_eq. intros [[-> ->] ->]. by apply E.
Qed.

Lemma blocks6_length a : valid6 a → length (blocks6 a) = 8%nat ∧ Forall is_block (blocks6 a).
Proof.
  intros (w0 & w1 & w2 & w3 & Ea & Hw). destruct a as [ws z]. cbn [a6] in Ea. subst ws.
  rewrite blocks6_words by done. split; [done|by apply unpack_blocks].
Qed.

Lemma ip4_word_spec w buf buflen :
  0 <= w < 2 ^ 32 → (buflen <= length buf)%nat →
  ip4addr_ntoa_r w buf (Z.of_nat buflen) =
    Ok (if decide (length (ip4_word_text w) < buflen)%nat
        then Some (ip4_word_text w ++ 0 :: drop (S (length (ip4_word_text w))) buf)
        else None).
Proof.
  intros Hw Hl. pose proof (le_bytes_is_byte 4 w) as Hb.
  rewrite <- (le_val_le_bytes 4 w) at 1 by (simpl; lia). unfold ip4_word_text. cbn [le_bytes] in *.
  by apply ip4addr_ntoa_r_spec.
Qed.

Lemma ip6addr_ntoa_r_spec a buf buflen :
  valid6 a → mapped6 a = true ∨ ¬ lone_last_zero (blocks6 a) → (0 < buflen <= length buf)%nat →
  ip6addr_ntoa_r a buf (Z.of_nat buflen) =
    Ok (if decide (length (addr_text a) < buflen)%nat
        then Some (addr_text a ++ 0 :: drop (S (length (addr_text a))) buf) else None).
Proof.
  intros Hv Hlz Hl. unfold ip6addr_ntoa_r, addr_text. rewrite mapped_spec by done. cbn [mbind res_bind].
  destruct (mapped6 a).
  - change (S (length IP4MAPPED_HEADER)) with 8%nat. rewrite length_app.
    change (length IP4MAPPED_HEADER) with 7%nat.
    destruct Hv as (w0 & w1 & w2 & w3 & Ea & Hw). unfold word6. rewrite Ea.
    cbn [fmap list_fmap lookup list_lookup oget default from_option mbind res_bind]. unfold id.
    apply Forall_cons in Hw as [_ Hw]. apply Forall_cons in Hw as [_ Hw]. apply Forall_cons in Hw as [_ Hw].
    apply Forall_cons in Hw as [Hw _].
    assert (0 <= lwip_htonl w3 < 2 ^ 32) as Hw3.
    { rewrite <- (le_val_le_bytes 4 w3) by (simpl; lia). cbn [le_bytes].
      assert (∀ z, is_byte (z mod 256)) by (intros; by apply Z.mod_pos_bound).
      rewrite htonl_bytes_val by done. cbn [le_val].
      pose proof (H (w3)); pose proof (H (w3 / 256)); pose proof (H (w3 / 256 / 256)); pose proof (H (w3 / 256 / 256 / 256)).
      unfold is_byte in *. lia. }
    set (t := ip4_word_text (lwip_htonl w3)).
    assert (7 <= length t)%nat as Ht.
    { unfold t, ip4_word_text. cbn [le_bytes]. apply length_ip4_text. }
    destruct (Z.ltb_spec (Z.of_nat buflen) (Z.of_nat 8)).
    { rewrite decide_False by lia. done. }
    rewrite store_Ok by (simpl; lia). cbn [mbind res_bind take app].
    change (0 + length (IP4MAPPED_HEADER ++ [0%Z]))%nat with 8%nat. change (8 - 1)%nat with 7%nat.
    rewrite take_0, app_nil_l, <- app_assoc. rewrite (drop_app_length' IP4MAPPED_HEADER), (take_app_length' IP4MAPPED_HEADER) by done.
    replace (Z.of_nat buflen - Z.of_nat 8 + 1) with (Z.of_nat (buflen - 7)) by lia.
    rewrite ip4_word_spec; [|done|cbn [app length]; rewrite length_drop; lia]. fold t. cbn [mbind res_bind].
    destruct (decide (length t < buflen - 7)%nat).
    + rewrite decide_True by lia. cbn [option_map]. rewrite <- app_assoc. cbn [app drop].
      rewrite drop_drop. done.
    + rewrite decide_False by lia. done.
  - destruct (blocks6_length a Hv) as [H8 Hall].
    pose proof (ntoa6_loop_spec a (blocks6 a) buflen H8 (λ k b, block6_spec a k b Hv) Hall (blocks6 a) [] 0 [] buf
      eq_refl ltac:(set_solver) ltac:(intros _ Hc Hl'; destruct Hlz as [|Hlz]; [done|by apply Hlz; split])
      ltac:(simpl; lia) ltac:(simpl; lia)) as HE.
    rewrite H8 in HE. cbn [length app Nat.eqb] in HE. change (Z.of_nat 0) with 0 in HE. rewrite HE. clear HE.
    rewrite emit_whole. unfold printed. cbn [length Nat.add app mbind res_bind].
    case_decide as H1; [|done].
    destruct (drop (length (text6 (blocks6 a))) buf) as [|x rest] eqn:Er.
    { apply (f_equal length) in Er. rewrite length_drop in Er. simpl in Er. lia. }
    rewrite store_byte_app. cbn [fmap res_fmap]. do 3 f_equal.
    by rewrite <- Nat.add_1_r, <- drop_drop, Er.
Qed.

(** ** The last block *)

Lemma block6_behind a : valid6 a → block6 a 8 = Fault OutOfBounds.
Proof. intros (w0 & w1 & w2 & w3 & Ea & _). unfold block6, word6. by rewrite Ea. Qed.

Lemma ntoa6_loop_faults a buflen bs : ∀ done pre rest,
  valid6 a → blocks6 a = done ++ bs → cut_zeros bs = None → last bs = Some 0 →
  (length pre + 5 * length bs < buflen + (if (length done =? 0)%nat then 1 else 0))%nat →
  (buflen <= length (pre ++ rest))%nat →
  ntoa6_loop (length bs) (length done) 0 a (pre ++ rest) (length pre) (Z.of_nat buflen) = Fault OutOfBounds.
Proof.
  induction bs as [|b bs IH]; intros dn pre rest Hv E Hc Hl Hfit Hb; cbn [length ntoa6_loop]; [done|].
  destruct (blocks6_length a Hv) as [H8 Hall].
  assert (is_block b) as Hbb by (rewrite Forall_forall in Hall; apply Hall; rewrite E; set_solver).
  rewrite (block6_spec a (length dn) b Hv) by (by rewrite E, list_lookup_middle). cbn [mbind res_bind].
  assert (blocks6 a = (dn ++ [b]) ++ bs) as E' by (by rewrite <- app_assoc).
  assert (length dn + S (length bs) = 8)%nat as Hlen by (rewrite <- H8, E, length_app; done).
  assert (S (length dn) = length (dn ++ [b])) as Hk by (rewrite length_app; simpl; lia).
  assert (bs ≠ [] → (r ← puts6 ((if (0 <? length dn)%nat then [58] else []) ++ block_digits b) (pre ++ rest) (length pre) (Z.of_nat buflen);
     match r with None => Ok None | Some (buf, i) => ntoa6_loop (length bs) (S (length dn)) 0 a buf i (Z.of_nat buflen) end) =
    Fault OutOfBounds) as Hprint.
  { intros Hne. rewrite puts6_spec, block_digits_hex by (done || (simpl in Hfit; destruct (length dn); simpl in *; lia)). cbn [mbind res_bind].
    set (out := _ ++ hex_of b). assert (length out + (if (length dn =? 0)%nat then 1 else 0) <= 5)%nat as Ho.
    { unfold out. rewrite length_app. pose proof (length_hex_of b). destruct (length dn); simpl; lia. }
    cbn [length] in Hfit. unfold printed. rewrite decide_True by lia. rewrite Hk. apply IH; try done.
    - cbn [cut_zeros] in Hc. destruct (_ && _); [done|]. destruct (cut_zeros bs) as [[]|]; done.
    - destruct bs; [done|]. by rewrite last_cons_cons in Hl.
    - rewrite <- Hk, length_app. simpl. lia.
    - rewrite !length_app in *. rewrite length_drop. lia. }
  destruct bs as [|c bs].
  - injection Hl as ->. rewrite Z.eqb_refl, andb_false_r. cbn [length] in Hlen.
    replace (S (length dn)) with 8%nat by lia. by rewrite block6_behind.
  - destruct (Z.eqb_spec b 0) as [->|]; [|by apply Hprint]. rewrite andb_false_r. change (0 =? 0) with true. cbn iota.
    rewrite (block6_spec a (S (length dn)) c Hv) by (by rewrite Hk, E', list_lookup_middle). cbn [mbind res_bind].
    destruct (Z.eqb_spec c 0) as [->|]; [done|by apply Hprint].
Qed.

Lemma mapped_cut a : mapped6 a = true → cut_zeros (blocks6 a) ≠ None.
Proof.
  intros Hm%bool_decide_eq_true_1. destruct (blocks6 a) as [|b0 [|b1 l]]; [done..|].
  injection Hm as -> -> _. done.
Qed.

(** An address that ends in a zero block, without two of them in a row anywhere: the code looks
    at the block behind the last one. *)
Lemma lone_last_zero_faults a str :
  valid6 a → lone_last_zero (blocks6 a) → length str = IP6ADDR_STRLEN_MAX →
  ip6addr_ntoa a str = Fault OutOfBounds.
Proof.
  intros Hv [Hc Hl] Hs. unfold ip6addr_ntoa, ip6addr_ntoa_r. rewrite mapped_spec by done. cbn [mbind res_bind].
  destruct (mapped6 a) eqn:Em; [by apply mapped_cut in Em|]. destruct (blocks6_length a Hv) as [H8 _].
  pose proof (ntoa6_loop_faults a IP6ADDR_STRLEN_MAX (blocks6 a) [] [] str Hv eq_refl Hc Hl) as HE. rewrite H8 in HE.
  cbn [length app] in HE. change (Z.of_nat 0) with 0 in HE. unfold IP6ADDR_STRLEN_MAX in *.
  rewrite HE; [done|simpl; lia|simpl; lia].
Qed.
