(* ===== verification/Ip6Parse.v ===== *)
(** * Reading the text of addresses

    The parser on the reference text of [Ip6Text]: it puts each block into its half of
    a word and fills the gap of "::" with as many zero blocks as colons are missing.  So an
    address that is printed is read again, for both versions. *)

From S2P Require Import Prelude Memp SysArch Pbuf LwipDef Chksum Ip4Addr Ip6Addr Ip6Text.

(** ** The state of the parser *)

(** The blocks [have] are in the words, [v] is the block that is read. *)
Definition at6 (have : list Z) (v zb : Z) (st : parse6) : Prop := ∃ w,
  st = Parse6 (Some w) (length have / 2) (Z.of_nat (length have)) v zb ∧ length w = 4%nat ∧
  pack6 have `prefix_of` w.

Lemma shift_block v : is_block v → u32 (Z.shiftl v 16) = v * 2 ^ 16.
Proof. intros Hv. unfold is_block in Hv. rewrite Z.shiftl_mul_pow2 by lia. apply wrapu_small. lia. Qed.

Lemma lor_block a v : is_block v → Z.lor (a * 2 ^ 16) v = a * 2 ^ 16 + v.
Proof. intros Hv. rewrite <- Z.shiftl_mul_pow2 by lia. rewrite lor_shiftl_add by done. rewrite ?Z.shiftl_mul_pow2 by lia. lia. Qed.

(** A block is stored; the index of the words is that of the next block. *)
Lemma store_block_spec have v zb st :
  at6 have v zb st → is_block v → (length have < 8)%nat →
  ∃ w, store_block st = Ok (Parse6 (Some w) (S (length have) / 2) (Z.of_nat (length have)) v zb) ∧ length w = 4%nat ∧
    pack6 (have ++ [v]) `prefix_of` w.
Proof.
  intros (w & -> & Hw & [k Hp]) Hv Hl. unfold store_block.
  pose proof (shift_block v Hv) as Hsh. pose proof (λ a, lor_block a v Hv) as Hlor.
  destruct w as [|x0 [|x1 [|x2 [|x3 [|? ?]]]]]; try done.
  destruct have as [|h0 [|h1 [|h2 [|h3 [|h4 [|h5 [|h6 [|h7 [|? ?]]]]]]]]]; simpl in Hl; try lia;
    cbn [pack6 app] in Hp |- *; simplify_eq Hp; intros; subst;
    cbn -[Z.mul Z.add Z.pow Z.lor u32 Z.shiftl]; rewrite ?Hsh, ?Hlor;
    (eexists; split; [reflexivity|]; split; [reflexivity|]; eexists; reflexivity).
Qed.

Lemma next_spec have v zb st :
  at6 have v zb st → is_block v → (length have < 8)%nat →
  ∃ st', store_block st = Ok st' ∧ at6 (have ++ [v]) v zb (next_block st').
Proof.
  intros Hst Hv Hl. destruct (store_block_spec _ _ _ _ Hst Hv Hl) as (w & -> & Hw & Hp).
  eexists. split; [reflexivity|]. exists w. split; [|done]. unfold next_block. cbn [p6_addr addr_index current_block_index].
  rewrite length_app. cbn [length]. f_equal; [by rewrite Nat.add_1_r|lia].
Qed.

(** One zero block. *)
Lemma zero_step have zb st fuel :
  at6 have 0 zb st → (length have < 7)%nat → 0 < zb →
  ∃ st', zero_run (S fuel) st = zero_run fuel st' ∧ at6 (have ++ [0]) 0 (zb - 1) st'.
Proof.
  intros (w & -> & Hw & [k Hp]) Hl Hz. cbn [zero_run]. rewrite (proj2 (Z.ltb_lt _ _)) by done.
  destruct w as [|x0 [|x1 [|x2 [|x3 [|? ?]]]]]; try done.
  destruct have as [|h0 [|h1 [|h2 [|h3 [|h4 [|h5 [|h6 [|? ?]]]]]]]]; simpl in Hl; try lia;
    cbn [pack6 app] in Hp |- *; simplify_eq Hp; intros; subst;
    cbn -[Z.mul Z.add Z.pow zero_run];
    (eexists; split; [reflexivity|]; eexists; split; [reflexivity|]; split; [reflexivity|];
     eexists; cbn [pack6 app]; rewrite ?Z.add_0_r; reflexivity).
Qed.

Lemma zero_run_spec n : ∀ have st fuel,
  at6 have 0 (Z.of_nat n) st → (length have + n <= 7)%nat → (n < fuel)%nat →
  ∃ st', zero_run fuel st = Ok (st', true) ∧ at6 (have ++ replicate n 0) 0 0 st'.
Proof.
  induction n as [|n IH]; intros have st fuel Hst Hl Hf; destruct fuel as [|fuel]; try lia.
  - destruct Hst as (w & -> & Hw & Hp). cbn [zero_run]. eexists. split; [reflexivity|].
    rewrite app_nil_r. by exists w.
  - destruct (zero_step have _ st fuel Hst) as (st1 & -> & Hst1); [lia..|].
    replace (Z.of_nat (S n) - 1) with (Z.of_nat n) in Hst1 by lia.
    destruct (IH _ _ fuel Hst1) as (st2 & -> & Hst2); [rewrite length_app; simpl; lia|lia|].
    exists st2. split; [done|]. by rewrite <- app_assoc in Hst2.
Qed.

(** ** Blocks and colons *)

Lemma parse_hex_char d rest m have v zb st :
  at6 have v zb st → 0 <= d < 16 → 0 <= v < 2 ^ 12 →
  ∃ st', parse_blocks (lwip_xchar d :: rest) m st = parse_blocks rest m st' ∧ at6 have (v * 16 + d) zb st'.
Proof.
  intros (w & -> & Hw & Hp) Hd Hv. destruct (hex_char d Hd) as (H1 & H2 & H3 & H4 & _). cbn [parse_blocks].
  rewrite (proj2 (Z.eqb_neq _ _) H3), (proj2 (Z.eqb_neq _ _) H4), H1. eexists. split; [reflexivity|].
  exists w. split; [|done]. unfold add_digit. cbn [p6_addr addr_index current_block_index current_block_value zero_blocks].
  rewrite H2, Z.shiftl_mul_pow2 by lia. change (2 ^ 4) with 16. rewrite (wrapu_small 32 (v * 16)) by lia. rewrite (wrapu_small 32) by lia. done.
Qed.

Lemma parse_hex b rest m have zb st :
  at6 have 0 zb st → is_block b →
  ∃ st', parse_blocks (hex_of b ++ rest) m st = parse_blocks rest m st' ∧ at6 have b zb st'.
Proof.
  intros Hst Hb. unfold is_block in Hb. unfold hex_of. rewrite <- app_assoc. cbn [app].
  assert (∀ x, 0 <= x mod 16 < 16) as Hm by (intros; by apply Z.mod_pos_bound).
  pose proof (Z.div_mod b 16) as E1. pose proof (Z.div_mod (b / 16) 16) as E2.
  pose proof (Z.div_mod (b / 256) 16) as E3.
  assert (b / 256 = b / 16 / 16) as F2 by (rewrite Z.div_div; [done|lia..]).
  assert (b / 4096 = b / 256 / 16) as F3 by (rewrite Z.div_div; [done|lia..]).
  pose proof (Hm b). pose proof (Hm (b / 16)). pose proof (Hm (b / 256)).
  assert (∀ x st1, at6 have x zb st1 → b / 16 = x → 0 <= x < 2 ^ 12 →
    ∃ st', parse_blocks (lwip_xchar (b mod 16) :: rest) m st1 = parse_blocks rest m st' ∧ at6 have b zb st') as L1.
  { intros x st1 Hst1 Ex Hx. destruct (parse_hex_char (b mod 16) rest m have x zb st1 Hst1) as (st' & E & Hst'); [done..|].
    exists st'. split; [done|]. by replace (x * 16 + b mod 16) with b in Hst' by lia. }
  assert (∀ x st1, at6 have x zb st1 → b / 256 = x → 0 <= x < 2 ^ 8 →
    ∃ st', parse_blocks (lwip_xchar (b / 16 mod 16) :: lwip_xchar (b mod 16) :: rest) m st1 = parse_blocks rest m st' ∧ at6 have b zb st') as L2.
  { intros x st1 Hst1 Ex Hx. destruct (parse_hex_char (b / 16 mod 16) (lwip_xchar (b mod 16) :: rest) m have x zb st1 Hst1)
      as (st' & -> & Hst'); [done|lia|]. eapply L1; [exact Hst'|lia|lia]. }
  assert (∀ x st1, at6 have x zb st1 → b / 4096 = x → 0 <= x < 2 ^ 4 →
    ∃ st', parse_blocks (lwip_xchar (b / 256 mod 16) :: lwip_xchar (b / 16 mod 16) :: lwip_xchar (b mod 16) :: rest) m st1 = parse_blocks rest m st' ∧ at6 have b zb st') as L3.
  { intros x st1 Hst1 Ex Hx.
    destruct (parse_hex_char (b / 256 mod 16) (lwip_xchar (b / 16 mod 16) :: lwip_xchar (b mod 16) :: rest) m have x zb st1 Hst1)
      as (st' & -> & Hst'); [done|lia|]. eapply L2; [exact Hst'|lia|lia]. }
  destruct (Z.ltb_spec b 16); [apply (L1 0); [done|apply Z.div_small; lia|lia]|]. rewrite <- app_assoc. cbn [app].
  destruct (Z.ltb_spec b 256); [apply (L2 0); [done|apply Z.div_small; lia|lia]|]. rewrite <- app_assoc. cbn [app].
  destruct (Z.ltb_spec b 4096); [apply (L3 0); [done|apply Z.div_small; lia|lia]|]. cbn [app].
  assert (0 <= b / 4096 < 16) by (split; [apply Z.div_pos; lia|apply Z.div_lt_upper_bound; lia]).
  destruct (parse_hex_char (b / 4096) (lwip_xchar (b / 256 mod 16) :: lwip_xchar (b / 16 mod 16) :: lwip_xchar (b mod 16) :: rest)
    m have 0 zb st Hst) as (st' & -> & Hst'); [done|lia|]. eapply L3; [exact Hst'|lia|lia].
Qed.

Lemma hex_head b rest : is_block b → ∃ d l, hex_of b ++ rest = lwip_xchar d :: l ∧ 0 <= d < 16.
Proof.
  intros Hb. pose proof (hex_of_hex b Hb) as HF. pose proof (length_hex_of b) as Hl.
  destruct (hex_of b) as [|c l]; [simpl in Hl; lia|]. apply Forall_cons in HF as [(d & Hd & ->) _]. by exists d, (l ++ rest).
Qed.

(** A colon between two blocks. *)
Lemma parse_colon b rest have v zb st :
  at6 have v zb st → is_block v → is_block b → (length have < 7)%nat →
  ∃ st', parse_blocks (58 :: hex_of b ++ rest) false st = parse_blocks rest false st' ∧ at6 (have ++ [v]) b zb st'.
Proof.
  intros Hst Hv Hb Hl. destruct (next_spec _ _ _ _ Hst Hv) as (st1 & E1 & (w & Est & Hw & Hp)); [lia|].
  destruct (hex_head b rest Hb) as (d & l & Eh & Hd). destruct (hex_char d Hd) as (_ & _ & _ & H4 & _).
  cbn [parse_blocks]. rewrite E1. cbn [Z.eqb Pos.eqb fmap res_fmap mbind res_bind andb]. rewrite Est.
  cbn [p6_addr addr_index current_block_index current_block_value zero_blocks].
  rewrite (proj2 (Z.ltb_ge _ _)) by (rewrite length_app; simpl; lia).
  rewrite Eh. rewrite (proj2 (Z.eqb_neq _ _) H4). rewrite <- Eh. apply parse_hex; [|done]. by exists w.
Qed.

(** "::" *)
Lemma parse_gap c rest m n have v st :
  at6 have v (Z.of_nat n) st → is_block v → (length have + 1 + n <= 7)%nat → c ≠ 58 →
  (m = true → length have ≠ 5%nat) →
  ∃ st', parse_blocks (58 :: 58 :: c :: rest) m st = parse_blocks (c :: rest) m st' ∧
    at6 (have ++ v :: replicate n 0) 0 0 st'.
Proof.
  intros Hst Hv Hl Hc Hm. destruct (next_spec _ _ _ _ Hst Hv) as (st1 & E1 & (w & Est & Hw & Hp)); [lia|].
  remember (c :: rest) as cr. cbn [parse_blocks]. rewrite E1. cbn [Z.eqb Pos.eqb fmap res_fmap mbind res_bind]. rewrite Est.
  cbn [p6_addr addr_index current_block_index current_block_value zero_blocks].
  assert (m && (Z.of_nat (length (have ++ [v])) =? 6) = false) as ->.
  { destruct m; [|done]. apply Z.eqb_neq. rewrite length_app. specialize (Hm eq_refl). simpl. lia. }
  cbn [mbind res_bind]. rewrite (proj2 (Z.ltb_ge _ _)) by (rewrite length_app; simpl; lia).
  subst cr. cbn [char_at lookup list_lookup oget mbind res_bind]. unfold char_at.
  cbn [lookup list_lookup oget mbind res_bind]. rewrite (proj2 (Z.eqb_neq _ _) Hc).
  destruct (zero_run_spec n (have ++ [v]) (Parse6 (Some w) (length (have ++ [v]) / 2) (Z.of_nat (length (have ++ [v]))) 0 (Z.of_nat n)) 9)
    as (st2 & E2 & Hst2); [by exists w|rewrite length_app; simpl; lia|lia|].
  rewrite E2. cbn [mbind res_bind]. exists st2. split; [done|]. by rewrite <- app_assoc in Hst2.
Qed.

(** Blocks with colons between them. *)
Lemma parse_coloned bs : ∀ rest have v zb st,
  at6 have v zb st → is_block v → Forall is_block bs → (length have + length bs <= 7)%nat →
  ∃ st' l x, parse_blocks (coloned bs ++ rest) false st = parse_blocks rest false st' ∧
    at6 l x zb st' ∧ l ++ [x] = have ++ v :: bs ∧ is_block x.
Proof.
  induction bs as [|b bs IH]; intros rest have v zb st Hst Hv Hbs Hl.
  { exists st, have, v. done. }
  apply Forall_cons in Hbs as [Hb Hbs]. rewrite coloned_cons. cbn [app length] in *. rewrite <- app_assoc.
  destruct (parse_colon b (coloned bs ++ rest) have v zb st Hst Hv Hb) as (st1 & -> & Hst1); [lia|].
  destruct (IH rest _ _ _ _ Hst1 Hb Hbs) as (st' & l & x & E & Hst' & El & Hx); [rewrite length_app; simpl; lia|].
  exists st', l, x. rewrite El, <- app_assoc. done.
Qed.

(** ** Colons *)

Definition colons (s : list Z) : nat := length (List.filter (Z.eqb 58) s).

Definition of_address (c : Z) : Prop := is_hex c ∨ c = 58.

Lemma colons_app s t : colons (s ++ t) = (colons s + colons t)%nat.
Proof. unfold colons. by rewrite List.filter_app, length_app. Qed.

Lemma colons_hex s : Forall is_hex s → colons s = 0%nat.
Proof.
  induction 1 as [|c s (d & Hd & ->) _ IH]; [done|]. destruct (hex_char d Hd) as (_ & _ & _ & H4 & _).
  unfold colons in *. cbn [List.filter]. by rewrite (proj2 (Z.eqb_neq 58 _)) by done.
Qed.

Lemma coloned_chars bs : Forall is_block bs → Forall of_address (coloned bs) ∧ colons (coloned bs) = length bs.
Proof.
  induction 1 as [|b bs Hb _ [IH1 IH2]]; [split; [constructor|done]|]. rewrite coloned_cons.
  pose proof (hex_of_hex b Hb) as Hh. split.
  - constructor; [by right|]. apply Forall_app_2; [|done]. eapply Forall_impl; [exact Hh|]. by left.
  - change (58 :: hex_of b ++ coloned bs) with ([58] ++ hex_of b ++ coloned bs).
    rewrite !colons_app, (colons_hex _ Hh), IH2. done.
Qed.

Lemma join_chars bs : Forall is_block bs → Forall of_address (join6 bs) ∧ colons (join6 bs) = (length bs - 1)%nat.
Proof.
  destruct 1 as [|b bs Hb Hbs]; [split; [constructor|done]|]. cbn [join6].
  pose proof (hex_of_hex b Hb) as Hh. destruct (coloned_chars bs Hbs) as [H1 H2]. split.
  - apply Forall_app_2; [|done]. eapply Forall_impl; [exact Hh|]. by left.
  - rewrite colons_app, (colons_hex _ Hh), H2. simpl. lia.
Qed.

Lemma count_blocks_spec s rest : ∀ zb,
  Forall of_address s → Z.of_nat (colons s) <= zb <= 8 →
  count_blocks (s ++ 0 :: rest) zb = Ok (Some (zb - Z.of_nat (colons s), false)).
Proof.
  induction s as [|c s IH]; intros zb; cbn [app count_blocks].
  - intros _ _. change (0 =? 0) with true. cbn iota. by rewrite Z.sub_0_r.
  - intros [Hc Hs]%Forall_cons Hz. change (c :: s) with ([c] ++ s) in *. rewrite colons_app in *. destruct Hc as [(d & Hd & ->)| ->].
    + rewrite colons_hex in * by (constructor; [by exists d|constructor]).
      destruct (hex_char d Hd) as (H1 & _ & H3 & H4 & H5).
      rewrite (proj2 (Z.eqb_neq _ _) H3), (proj2 (Z.eqb_neq _ _) H4), (proj2 (Z.eqb_neq _ _) H5), H1. cbn [negb Nat.add].
      by apply IH.
    + change (colons [58]) with 1%nat in *. cbn [Z.eqb Pos.eqb]. rewrite wrapu_small by lia.
      rewrite IH; [|done|lia]. do 3 f_equal. lia.
Qed.

(** ** Whole texts *)

Lemma length_pack6 bs : length bs = 8%nat → length (pack6 bs) = 4%nat.
Proof. intros Hl. do 9 (destruct bs as [|? bs]; try done). Qed.

Lemma aton_finish nl cp zb m old l x zb' st rest :
  count_blocks cp 8 = Ok (Some (zb, m)) →
  parse_blocks cp m (Parse6 (Some (a6 old)) 0 0 0 zb) = parse_blocks (0 :: rest) m st →
  at6 l x zb' st → length l = 7%nat → is_block x →
  ip6addr_aton nl cp (Some old) = Ok (true, Some (Ip6 (lwip_htonl <$> pack6 (l ++ [x])) 0)).
Proof.
  intros Hc Hp Hst Hl Hx. unfold ip6addr_aton. rewrite Hc. cbn [mbind res_bind fmap option_fmap option_map].
  rewrite Hp. cbn [parse_blocks]. change (0 =? 0) with true. cbn iota. cbn [mbind res_bind].
  destruct (store_block_spec _ _ _ _ Hst Hx) as (w & -> & Hw & [k Hk]); [lia|]. cbn [mbind res_bind p6_addr].
  assert (k = []) as ->.
  { apply (f_equal length) in Hk. rewrite length_app, length_pack6 in Hk by (rewrite length_app; simpl; lia).
    destruct k; [done|simpl in Hk; lia]. }
  rewrite app_nil_r in Hk. subst w. cbn [network_order mbind option_bind]. unfold parse_zone, char_at.
  cbn [lookup list_lookup oget mbind res_bind Z.eqb current_block_index]. by rewrite Hl.
Qed.

Lemma start6 old zb : length (a6 old) = 4%nat → at6 [] 0 zb (Parse6 (Some (a6 old)) 0 0 0 zb).
Proof. intros Hl. exists (a6 old). split; [done|]. split; [done|]. by exists (a6 old). Qed.

Lemma parse_join bs rest have zb st :
  at6 have 0 zb st → bs ≠ [] → Forall is_block bs → (length have + length bs <= 8)%nat →
  ∃ st' l x, parse_blocks (join6 bs ++ rest) false st = parse_blocks rest false st' ∧
    at6 l x zb st' ∧ l ++ [x] = have ++ bs ∧ is_block x.
Proof.
  intros Hst Hne Hbs Hl. destruct bs as [|b bs]; [done|]. apply Forall_cons in Hbs as [Hb Hbs]. cbn [join6 length] in *.
  rewrite <- app_assoc. destruct (parse_hex b (coloned bs ++ rest) false have zb st Hst Hb) as (st1 & -> & Hst1).
  apply parse_coloned; [done..|lia].
Qed.

(** What comes behind the gap, and the gap. *)
Lemma parse_gap_join q rest n have v st :
  at6 have v (Z.of_nat n) st → is_block v → Forall is_block q → (length have + 1 + n <= 7)%nat →
  (length have + 1 + n + length q = 8 ∨ q = [] ∧ length have + 1 + n = 7)%nat →
  ∃ st' l x, parse_blocks ([58; 58] ++ join6 q ++ 0 :: rest) false st = parse_blocks (0 :: rest) false st' ∧
    at6 l x 0 st' ∧ l ++ [x] = have ++ v :: replicate n 0 ++ (match q with [] => [0] | _ => q end) ∧ is_block x ∧
    length l = 7%nat.
Proof.
  intros Hst Hv Hq Hl Hn. cbn [app].
  assert (∃ c l, join6 q ++ 0 :: rest = c :: l ∧ c ≠ 58) as (c & r & Ec & Hc).
  { destruct q as [|b q]; [by exists 0, rest|]. apply Forall_cons in Hq as [Hb _]. cbn [join6]. rewrite <- app_assoc.
    destruct (hex_head b (coloned q ++ 0 :: rest) Hb) as (d & l & -> & Hd). exists (lwip_xchar d), l.
    split; [done|]. apply (hex_char d Hd). }
  destruct (parse_gap c r false n have v st Hst Hv Hl Hc) as (st1 & E1 & Hst1); [done|].
  rewrite Ec, E1, <- Ec. clear E1. destruct q as [|b q].
  - destruct Hn as [Hn|[_ Hn]]; [simpl in Hn; lia|]. exists st1, (have ++ v :: replicate n 0), 0. cbn [join6 app].
    split; [done|]. split; [done|]. split; [by rewrite <- app_assoc|]. split; [done|].
    rewrite length_app. cbn [length]. rewrite length_replicate. lia.
  - destruct Hn as [Hn|[? _]]; [|done].
    destruct (parse_join (b :: q) (0 :: rest) _ _ _ Hst1) as (st' & l & x & E & Hst' & El & Hx); [done|done| |].
    { rewrite length_app. cbn [length] in *. rewrite length_replicate. lia. }
    exists st', l, x. rewrite E, El, <- app_assoc. cbn [app]. split_and!; try done.
    apply (f_equal length) in El. rewrite !length_app in El. cbn [length] in *. rewrite length_replicate in El. lia.
Qed.

(** The number of zero blocks that are filled in is that of the gap, but for a zero at the
    start and one at the end, which have colons of their own. *)
Lemma gap_filled (p q : list Z) n k :
  (q ≠ [] ∧ k + length q = 8 ∨ q = [] ∧ k = 7)%nat → (length p + n + length q = 8)%nat → (2 <= n)%nat →
  replicate (k - length p) 0 ++ match q with [] => [0] | _ => q end = replicate n 0 ++ q.
Proof.
  intros [[Hne Hk]|[-> ->]] Hnp Hn.
  - assert (k - length p = n)%nat as -> by lia. by destruct q.
  - replace n with (S (7 - length p)) by (simpl in *; lia). rewrite app_nil_r.
    by rewrite (replicate_S_end (7 - length p) 0).
Qed.

(** The colons of a text with a gap say how long the gap is. *)
Definition gap_blocks (p q : list Z) : nat := (8 - ((length p - 1) + (2 + (length q - 1))))%nat.

Lemma gap_cases (p q : list Z) n j :
  (length p + n + length q = 8)%nat → (2 <= n)%nat → j = (length p - 1)%nat →
  (j + 1 + gap_blocks p q <= 7)%nat ∧
  (j + 1 + gap_blocks p q + length q = 8 ∨ q = [] ∧ j + 1 + gap_blocks p q = 7)%nat ∧
  (q ≠ [] ∧ j + 1 + gap_blocks p q + length q = 8 ∨ q = [] ∧ j + 1 + gap_blocks p q = 7)%nat.
Proof.
  unfold gap_blocks. intros H Hn ->. destruct q as [|c q]; simpl in *.
  - split; [lia|]. split; right; (split; [done|lia]).
  - split; [lia|]. split; left; [lia|split; [done|lia]].
Qed.

Lemma parse_cut p q n rest old :
  length (a6 old) = 4%nat → Forall is_block p → Forall is_block q → (2 <= n)%nat →
  (length p + n + length q = 8)%nat →
  ∃ st l x, parse_blocks (join6 p ++ [58; 58] ++ join6 q ++ 0 :: rest) false
      (Parse6 (Some (a6 old)) 0 0 0 (Z.of_nat (gap_blocks p q))) = parse_blocks (0 :: rest) false st ∧
    at6 l x 0 st ∧ length l = 7%nat ∧ is_block x ∧ l ++ [x] = p ++ replicate n 0 ++ q.
Proof.
  intros Ho Hp Hq Hn H8. set (z := gap_blocks p q). pose proof (start6 old (Z.of_nat z) Ho) as Hst0.
  destruct (gap_cases p q n _ H8 Hn eq_refl) as (G1 & G2 & G3). fold z in G1, G2, G3.
  pose proof (gap_filled p q n _ G3 H8 Hn) as Hfill. destruct p as [|b p].
  - cbn [join6 app length] in *.
    destruct (parse_gap_join q rest z [] 0 _ Hst0) as (st & l & x & E & Hst & El & Hx & Hl); [done..|].
    exists st, l, x. split; [exact E|]. split_and!; try done. rewrite El, <- Hfill. done.
  - destruct (parse_join (b :: p) ([58; 58] ++ join6 q ++ 0 :: rest) [] _ _ Hst0) as (st1 & l1 & x1 & -> & Hst1 & El1 & Hx1);
      [done|done|simpl in *; lia|].
    assert (length l1 = length (b :: p) - 1)%nat as Hl1.
    { apply (f_equal length) in El1. rewrite length_app in El1. simpl in *. lia. }
    destruct (parse_gap_join q rest z l1 x1 _ Hst1) as (st & l & x & E & Hst & El & Hx & Hl);
      [done|done|by rewrite Hl1..|].
    exists st, l, x. split; [exact E|]. split_and!; try done. rewrite El.
    change (x1 :: ?r) with ([x1] ++ r). rewrite app_assoc, El1, <- Hfill. cbn [app length]. do 2 f_equal. f_equal. f_equal. lia.
Qed.

Lemma aton_text6 nl B rest old :
  length B = 8%nat → Forall is_block B → length (a6 old) = 4%nat →
  ip6addr_aton nl (text6 B ++ 0 :: rest) (Some old) = Ok (true, Some (Ip6 (lwip_htonl <$> pack6 B) 0)).
Proof.
  intros H8 HB Ho. unfold text6. destruct (cut_zeros B) as [[p q]|] eqn:Ec.
  - destruct (cut_zeros_spec _ _ _ Ec) as (n & Hn & ->). clear Ec. rewrite !length_app, length_replicate in H8.
    apply Forall_app in HB as [Hp [_ Hq]%Forall_app].
    destruct (join_chars p Hp) as [P1 P2]. destruct (join_chars q Hq) as [Q1 Q2].
    assert (Forall of_address (join6 p ++ [58; 58] ++ join6 q)) as Hs.
    { apply Forall_app_2; [done|]. apply Forall_app_2; [|done]. repeat constructor; by right. }
    pose proof (count_blocks_spec _ rest 8 Hs) as Hc. rewrite !colons_app, P2, Q2 in Hc.
    change (colons [58; 58]) with 2%nat in Hc.
    replace (8 - Z.of_nat _) with (Z.of_nat (gap_blocks p q)) in Hc by (unfold gap_blocks; lia).
    destruct (parse_cut p q n rest old Ho Hp Hq Hn) as (st & l & x & E & Hst & Hl & Hx & El); [lia|].
    rewrite <- El. eapply aton_finish; [apply Hc; lia| |exact Hst|done..].
    rewrite <- !app_assoc. exact E.
  - destruct (join_chars B HB) as [B1 B2]. pose proof (count_blocks_spec (join6 B) rest 8 B1) as Hc.
    rewrite B2, H8 in Hc. specialize (Hc ltac:(simpl; lia)).
    destruct (parse_join B (0 :: rest) [] _ _ (start6 old (8 - Z.of_nat (8 - 1)) Ho)) as (st & l & x & E & Hst & El & Hx);
      [by destruct B|done|simpl; lia|]. cbn [app] in El.
    replace (pack6 B) with (pack6 (l ++ [x])) by (by rewrite El).
    eapply aton_finish; [exact Hc|exact E|exact Hst| |done].
    apply (f_equal length) in El. rewrite length_app in El. simpl in El. lia.
Qed.

(** ** Version 4 addresses *)

Lemma byte_dec_hex b : is_byte b → Forall is_hex (byte_dec b).
Proof.
  intros Hb. destruct (byte_div b Hb) as (H1 & H2 & H3 & H4 & H5 & H6 & H7). unfold is_byte in Hb.
  assert (∀ d, 0 <= d < 10 → is_hex (48 + d)) as Hd.
  { intros d Hd. exists d. split; [lia|]. unfold lwip_xchar. by rewrite (proj2 (Z.ltb_lt _ _)) by lia. }
  unfold byte_dec. destruct (Z.ltb_spec b 10); [|destruct (Z.ltb_spec b 100)];
    repeat (constructor; [apply Hd; lia|]); constructor.
Qed.

Lemma count_hex s rest : ∀ zb, Forall is_hex s → count_blocks (s ++ rest) zb = count_blocks rest zb.
Proof.
  induction s as [|c s IH]; intros zb; [done|]. intros [(d & Hd & ->) Hs]%Forall_cons. cbn [app count_blocks].
  destruct (hex_char d Hd) as (H1 & _ & H3 & H4 & H5).
  rewrite (proj2 (Z.eqb_neq _ _) H3), (proj2 (Z.eqb_neq _ _) H4), (proj2 (Z.eqb_neq _ _) H5), H1. by apply IH.
Qed.

Lemma ip4_word_parts w : 0 <= w < 2 ^ 32 → ∃ a b c d,
  ip4_word_text w = ip4_text a b c d ∧ Forall is_byte [a; b; c; d] ∧ le_val [a; b; c; d] = w.
Proof.
  intros Hw. pose proof (le_bytes_is_byte 4 w) as Hb. pose proof (le_val_le_bytes 4 w ltac:(simpl; lia)) as E.
  unfold ip4_word_text. cbn [le_bytes] in *. eexists _, _, _, _. split; [reflexivity|]. by split.
Qed.

Lemma aton_mapped nl w rest old :
  0 <= w < 2 ^ 32 → length (a6 old) = 4%nat →
  ip6addr_aton nl (IP4MAPPED_HEADER ++ ip4_word_text w ++ 0 :: rest) (Some old) =
    Ok (true, Some (Ip6 (lwip_htonl <$> [0; 0; 0xffff; lwip_htonl w]) 0)).
Proof.
  intros Hw Ho. destruct (ip4_word_parts w Hw) as (a & b & c & d & -> & Hb & Hv).
  set (t := ip4_text a b c d ++ 0 :: rest).
  assert (ip4addr_aton t = Ok (Some w)) as Ht by (unfold t; rewrite ip4addr_aton_text, Hv by done; done).
  assert (count_blocks (IP4MAPPED_HEADER ++ t) 8 = Ok (Some (4, true))) as Hc.
  { transitivity (count_blocks t 5); [reflexivity|]. unfold t, ip4_text. rewrite <- app_assoc.
    apply Forall_cons in Hb as [Ha _]. by rewrite count_hex by (by apply byte_dec_hex). }
  unfold ip6addr_aton. rewrite Hc. cbn [mbind res_bind fmap option_fmap option_map].
  change (IP4MAPPED_HEADER ++ t) with (58 :: 58 :: 70 :: [70; 70; 70] ++ 58 :: t).
  destruct (parse_gap 70 ([70; 70; 70] ++ 58 :: t) true 4 [] 0 _ (start6 old 4 Ho)) as (st1 & -> & Hst1); [done|simpl; lia|done|done|].
  destruct (parse_hex 0xffff (58 :: t) true _ _ _ Hst1) as (st2 & E2 & Hst2); [done|].
  change (hex_of 65535 ++ 58 :: t) with (70 :: [70; 70; 70] ++ 58 :: t) in E2. rewrite E2. clear E2.
  destruct (next_spec _ _ _ _ Hst2) as (st3 & E3 & (x & Ex & Hx & [k Hk])); [done|simpl; lia|].
  cbn [parse_blocks]. rewrite E3. cbn [Z.eqb Pos.eqb fmap res_fmap mbind res_bind]. rewrite Ex.
  cbn [current_block_index app replicate length andb]. change (Z.of_nat 6 =? 6) with true. cbn iota. rewrite Ht.
  cbn [mbind res_bind p6_addr current_block_index].
  destruct x as [|x0 [|x1 [|x2 [|x3 [|? ?]]]]]; try done. cbn in Hk. injection Hk as -> -> -> _. reflexivity.
Qed.

(** ** Both versions *)

(** The words of [a] have 32 bits, and the code can print it. *)
Definition printable (a : ip_any) : Prop :=
  valid6 (u_addr a) ∧
  (any_type a = IPADDR_TYPE_V4 ∨
   any_type a = IPADDR_TYPE_V6 ∧ (mapped6 (u_addr a) = true ∨ ¬ lone_last_zero (blocks6 (u_addr a)))).

(** The same address; the zone is not part of the text. *)
Definition same_any (a b : ip_any) : Prop :=
  any_type a = any_type b ∧
  if any_type a =? IPADDR_TYPE_V6 then a6 (u_addr a) = a6 (u_addr b)
  else a6 (u_addr a) !! 0%nat = a6 (u_addr b) !! 0%nat.

Lemma valid6_words a i w : valid6 a → a6 a !! i = Some w → 0 <= w < 2 ^ 32.
Proof.
  intros (w0 & w1 & w2 & w3 & Ea & Hw) Hi. rewrite Ea in Hi. apply list_lookup_fmap_Some in Hi as (x & -> & Hx).
  rewrite Forall_forall in Hw. assert (0 <= x < 2 ^ 32) as Hb by (apply Hw; by eapply list_elem_of_lookup_2).
  rewrite <- (le_val_le_bytes 4 x) by (simpl; lia). cbn [le_bytes].
  assert (∀ z, is_byte (z mod 256)) as HM by (intros; by apply Z.mod_pos_bound).
  rewrite htonl_bytes_val by done. cbn [le_val].
  pose proof (HM x); pose proof (HM (x / 256)); pose proof (HM (x / 256 / 256)); pose proof (HM (x / 256 / 256 / 256)).
  unfold is_byte in *. lia.
Qed.

Lemma has_colon_hex s rest : Forall is_hex s → has_colon (s ++ rest) = has_colon rest.
Proof.
  induction 1 as [|c s (d & Hd & ->) _ IH]; [done|]. cbn [app has_colon].
  destruct (hex_char d Hd) as (_ & _ & H3 & H4 & H5).
  by rewrite (proj2 (Z.eqb_neq _ _) H3), (proj2 (Z.eqb_neq _ _) H4), (proj2 (Z.eqb_neq _ _) H5).
Qed.

Lemma has_colon_text6 B rest :
  length B = 8%nat → Forall is_block B → has_colon (text6 B ++ rest) = Ok true.
Proof.
  intros H8 HB. assert (∀ p t, Forall is_block p → p ≠ [] → (1 < length p)%nat ∨ (∃ t', t = 58 :: t') →
    has_colon (join6 p ++ t) = Ok true) as Hj.
  { intros p t Hp Hne Hc. destruct Hp as [|b p Hb Hp]; [done|]. cbn [join6]. rewrite <- app_assoc.
    rewrite has_colon_hex by (by apply hex_of_hex). destruct p as [|c p]; [|done].
    destruct Hc as [Hc|[t' ->]]; [simpl in Hc; lia|done]. }
  unfold text6. destruct (cut_zeros B) as [[p q]|] eqn:Ec.
  - destruct (cut_zeros_spec _ _ _ Ec) as (n & Hn & ->). apply Forall_app in HB as [Hp _].
    rewrite <- app_assoc. destruct p as [|b p]; [done|]. apply Hj; [done|done|]. right. by eexists.
  - apply Hj; [done|by destruct B|left; lia].
Qed.

Lemma has_colon_ip4 w rest : 0 <= w < 2 ^ 32 → has_colon (ip4_word_text w ++ rest) = Ok false.
Proof.
  intros Hw. destruct (ip4_word_parts w Hw) as (a & b & c & d & -> & Hb & _). apply Forall_cons in Hb as [Ha _].
  unfold ip4_text. rewrite <- app_assoc, has_colon_hex by (by apply byte_dec_hex). done.
Qed.

(** Reading the text of a version 6 address. *)
Lemma aton_addr_text nl a rest old :
  valid6 a → length (a6 old) = 4%nat →
  ip6addr_aton nl (addr_text a ++ 0 :: rest) (Some old) = Ok (true, Some (Ip6 (a6 a) 0)).
Proof.
  intros Hv Ho. unfold addr_text. destruct (blocks6_length a Hv) as [H8 HB]. pose proof Hv as (w0 & w1 & w2 & w3 & Ea & Hw).
  assert (pack6 (blocks6 a) = [w0; w1; w2; w3]) as Ep.
  { unfold blocks6. by rewrite pack_unpack, Ea, htonl_all. }
  destruct (mapped6 a) eqn:Em.
  - rewrite <- app_assoc. apply bool_decide_eq_true_1 in Em.
    destruct (blocks6 a) as [|b0 [|b1 [|b2 [|b3 [|b4 [|b5 [|b6 [|b7 [|? ?]]]]]]]]]; try done.
    injection Em as -> -> -> -> -> ->. cbn [pack6] in Ep. injection Ep as <- <- <- _. cbn in Ea.
    rewrite Ea. cbn [lookup list_lookup default from_option]. unfold id.
    assert (0 <= w3 < 2 ^ 32) as H3 by (rewrite Forall_forall in Hw; apply Hw; set_solver).
    assert (0 <= lwip_htonl w3 < 2 ^ 32) as H3' by (apply (valid6_words a 3 _ Hv); by rewrite Ea).
    rewrite aton_mapped by done. rewrite lwip_htonl_involutive by done. done.
  - rewrite aton_text6 by done. by rewrite Ep, Ea.
Qed.

Lemma length_addr_text a : valid6 a → (length (addr_text a) < IP6ADDR_STRLEN_MAX)%nat.
Proof.
  intros Hv. destruct (blocks6_length a Hv) as [H8 _]. unfold addr_text, IP6ADDR_STRLEN_MAX. destruct (mapped6 a).
  - destruct Hv as (w0 & w1 & w2 & w3 & Ea & Hw).
    assert (0 <= default 0 (a6 a !! 3%nat) < 2 ^ 32) as H3.
    { assert (is_Some (a6 a !! 3%nat)) as [w E] by (by rewrite Ea). rewrite E.
      apply (valid6_words a 3); [by exists w0, w1, w2, w3|done]. }
    destruct (ip4_word_parts _ H3) as (x & y & z & u & -> & _). rewrite length_app.
    pose proof (length_ip4_text x y z u). simpl. lia.
  - pose proof (length_text6 (blocks6 a) H8). lia.
Qed.

(** The reference text: four numbers in decimal and dots, or the text of version 6. *)
Definition any_text (a : ip_any) : list Z :=
  if any_type a =? IPADDR_TYPE_V6 then addr_text (u_addr a)
  else ip4_word_text (default 0 (a6 (u_addr a) !! 0%nat)).

(** C35 (roundtrip).  Addresses of both versions as text.  What [ipaddr_ntoa] prints into
    its buffers always fits, it is the reference text (version 4: the four bytes in
    decimal with dots; version 6: eight blocks in hexadecimal, the first run of zero
    blocks cut out, and a version 4 address behind "::FFFF:" in decimal), and
    [ipaddr_aton] finds the version from it and reads the same address back.  Left out
    are the version 6 addresses that end in a zero block and have no two of them in a
    row: for these the printer reads behind the words of the address. *)
Theorem ipaddr_print_parse nl a old str6 str4 :
  valid6 (u_addr a) → length str6 = IP6ADDR_STRLEN_MAX → length str4 = IP4ADDR_STRLEN_MAX →
  length (a6 (u_addr old)) = 4%nat →
  (printable a → ∃ s b, ipaddr_ntoa (Some a) str6 str4 = Ok (Some s) ∧
    any_text a ++ [0] `prefix_of` s ∧
    ipaddr_aton nl (Some s) (Some old) = Ok (true, Some b) ∧ same_any b a) ∧
  (any_type a = IPADDR_TYPE_V6 → lone_last_zero (blocks6 (u_addr a)) →
    ipaddr_ntoa (Some a) str6 str4 = Fault OutOfBounds).
Proof.
  intros Hv H6 H4 Ho. split.
  2: { intros Ht Hl. unfold ipaddr_ntoa. rewrite Ht. by apply lone_last_zero_faults. }
  intros [_ Ht]. unfold ipaddr_ntoa, ipaddr_aton, any_text. pose proof Hv as (w0 & w1 & w2 & w3 & Ea & Hw).
  destruct Ht as [Ht|[Ht Hp]]; rewrite Ht; cbn [Z.eqb Pos.eqb].
  - assert (a6 (u_addr a) !! 0%nat = Some (lwip_htonl w0)) as E0 by (by rewrite Ea).
    pose proof (valid6_words _ _ _ Hv E0) as Hb. unfold word6. rewrite E0. cbn [oget mbind res_bind default from_option].
    change (IPADDR_TYPE_V4 =? IPADDR_TYPE_V6) with false. cbn iota. unfold ip4addr_ntoa. rewrite ip4_word_spec by (done || lia).
    destruct (ip4_word_parts _ Hb) as (x & y & z & u & Et & Hxy & Hval). pose proof (length_ip4_text x y z u) as Hl.
    unfold id. rewrite Et. rewrite decide_True by (unfold IP4ADDR_STRLEN_MAX; lia). eexists _, _. split; [reflexivity|].
    split; [eexists; rewrite <- app_assoc; reflexivity|]. rewrite <- Et at 1. rewrite has_colon_ip4 by done. cbn [mbind res_bind].
    rewrite ip4addr_aton_text, Hval by done. cbn [mbind res_bind is_some option_map set_ip4]. split; [reflexivity|].
    split; [by rewrite Ht|]. cbn [any_type u_addr a6]. rewrite E0. change (_ =? _) with false. cbn iota.
    destruct (a6 (u_addr old)); done.
  - change (IPADDR_TYPE_V6 =? IPADDR_TYPE_V6) with true. cbn iota. unfold ip6addr_ntoa.
    rewrite ip6addr_ntoa_r_spec; [|done|done|rewrite H6; unfold IP6ADDR_STRLEN_MAX; lia].
    rewrite decide_True by (by apply length_addr_text). eexists _, _. split; [reflexivity|]. split.
    { eexists. rewrite <- app_assoc. reflexivity. }
    assert (has_colon (addr_text (u_addr a) ++ 0 :: drop (S (length (addr_text (u_addr a)))) str6) = Ok true) as ->.
    { destruct (blocks6_length _ Hv) as [H8 HB]. unfold addr_text. destruct (mapped6 (u_addr a)); [done|].
      by apply has_colon_text6. }
    cbn [mbind res_bind fmap option_fmap option_map]. rewrite aton_addr_text by done. cbn [mbind res_bind option_map].
    split; [reflexivity|]. by split.
Qed.

Lemma ipaddr_print_parse_witness :
  let a := IpAny (Ip6 (lwip_htonl <$> [0xfe800000; 0; 0x02005eff; 0xfe000001]) 0) IPADDR_TYPE_V6 in
  let a4 := IpAny (Ip6 (lwip_htonl <$> [0xc0a80001; 0; 0; 0]) 0) IPADDR_TYPE_V4 in
  let old := IpAny (Ip6 [1; 2; 3; 4] 0) 0 in
  (∃ s b, ipaddr_ntoa (Some a) (replicate 40 7) (replicate 16 7) = Ok (Some s) ∧
    any_text a ++ [0] `prefix_of` s ∧ ipaddr_aton [] (Some s) (Some old) = Ok (true, Some b) ∧ same_any b a) ∧
  (∃ s b, ipaddr_ntoa (Some a4) (replicate 40 7) (replicate 16 7) = Ok (Some s) ∧
    bytes "192.168.0.1" ++ [0] `prefix_of` s ∧
    ipaddr_aton [] (Some s) (Some old) = Ok (true, Some b) ∧ same_any b a4).
Proof.
  split.
  - apply (ipaddr_print_parse [] (IpAny (Ip6 (lwip_htonl <$> [0xfe800000; 0; 0x02005eff; 0xfe000001]) 0) IPADDR_TYPE_V6)
      (IpAny (Ip6 [1; 2; 3; 4] 0) 0) (replicate 40 7) (replicate 16 7)); [|reflexivity..|].
    + exists 0xfe800000, 0, 0x02005eff, 0xfe000001. split; [reflexivity|]. repeat constructor; lia.
    + split; [|right; split; [reflexivity|right; intros [Hc _]; by vm_compute in Hc]].
      exists 0xfe800000, 0, 0x02005eff, 0xfe000001. split; [reflexivity|]. repeat constructor; lia.
  - replace (bytes "192.168.0.1")
      with (any_text (IpAny (Ip6 (lwip_htonl <$> [0xc0a80001; 0; 0; 0]) 0) IPADDR_TYPE_V4)) by (by vm_compute).
    apply (ipaddr_print_parse [] (IpAny (Ip6 (lwip_htonl <$> [0xc0a80001; 0; 0; 0]) 0) IPADDR_TYPE_V4)
      (IpAny (Ip6 [1; 2; 3; 4] 0) 0) (replicate 40 7) (replicate 16 7)); [|reflexivity..|].
    + exists 0xc0a80001, 0, 0, 0. split; [reflexivity|]. repeat constructor; lia.
    + split; [|by left]. exists 0xc0a80001, 0, 0, 0. split; [reflexivity|]. repeat constructor; lia.
Defined.

(** A block of five digits is taken: its first digit gets into the block before it. *)
Lemma long_block_accepted :
  ip6addr_aton [] (bytes "0:12345::" ++ [0]) (Some (Ip6 [0; 0; 0; 0] 0)) =
    ip6addr_aton [] (bytes "1:2345::" ++ [0]) (Some (Ip6 [0; 0; 0; 0] 0)).
Proof. vm_compute. reflexivity. Qed.
