(* ===== verification/Linked.v ===== *)
(** * Lists that are linked through a store

    The objects are in a finite map, each with the address of the one behind it; a piece
    of such a list, how it is when other objects change, and how one of its objects
    is changed or taken out. *)

From S2P Require Import Prelude.

Section linked.
(** [nx]: the address behind an object. *)
Context {T : Type} (nx : T → option Z).

(** A piece of the list, from [hd] to [e]. *)
Fixpoint pseg (st : gmap Z T) (hd : option Z) (l : list (Z * T)) (e : option Z) : Prop :=
  match l with
  | [] => hd = e
  | (a, p) :: l => hd = Some a ∧ st !! a = Some p ∧ pseg st (nx p) l e
  end.

Lemma pseg_app st l1 : ∀ hd l2 e,
  pseg st hd (l1 ++ l2) e ↔ ∃ m, pseg st hd l1 m ∧ pseg st m l2 e.
Proof.
  induction l1 as [|[a p] l1 IH]; intros hd l2 e; cbn [app pseg].
  - split; [intros H; by exists hd|intros (m & -> & ?); done].
  - rewrite IH. naive_solver.
Qed.

Lemma pseg_frame st st' hd l e :
  pseg st hd l e → (∀ a, a ∈ l.*1 → st' !! a = st !! a) → pseg st' hd l e.
Proof.
  revert hd. induction l as [|[a p] l IH]; intros hd; [done|]. intros (-> & Ha & Hl) Hst.
  split; [done|]. split; [by rewrite Hst by (cbn; left)|]. apply IH; [done|]. intros b Hb. apply Hst. cbn. by right.
Qed.

Lemma pseg_insert st hd l e a p : pseg st hd l e → a ∉ l.*1 → pseg (<[a := p]> st) hd l e.
Proof. intros Hl Ha. eapply pseg_frame; [done|]. intros b Hb. apply lookup_insert_ne. by intros ->. Qed.

Lemma pseg_lookup st hd l e a p : pseg st hd l e → (a, p) ∈ l → st !! a = Some p.
Proof.
  revert hd. induction l as [|[b q] l IH]; intros hd; [set_solver|]. intros (_ & Hb & Hl) [Hx|Hx]%elem_of_cons.
  - by injection Hx as -> ->.
  - by eapply IH.
Qed.

Lemma pseg_sizes st hd l e : pseg st hd l e → NoDup l.*1 → (length l <= size st)%nat.
Proof.
  intros Hl Hn. rewrite <- (length_fmap fst), <- size_dom.
  rewrite <- (size_list_to_set (C := gset Z) l.*1) by done. apply subseteq_size. intros a Ha.
  apply elem_of_list_to_set, list_elem_of_fmap in Ha as ([b p] & -> & Hb). apply elem_of_dom.
  exists p. by eapply pseg_lookup.
Qed.

(** A control block of the list is changed, but not its link. *)
Definition upd (a : Z) (p' : T) (x : Z * T) : Z * T := if decide (x.1 = a) then (a, p') else x.

Lemma upd_fst a p' l : (upd a p' <$> l).*1 = l.*1.
Proof.
  induction l as [|[b q] l IH]; [done|]. cbn. f_equal; [|exact IH]. unfold upd. by destruct (decide _).
Qed.

Lemma pseg_upd st l a p p' : st !! a = Some p → nx p' = nx p → ∀ hd e,
  pseg st hd l e → pseg (<[a := p']> st) hd (upd a p' <$> l) e.
Proof.
  intros Ha Hn. induction l as [|[b q] l IH]; intros hd e; [done|]. intros (-> & Hb & Hl). cbn. unfold upd at 1. cbn.
  destruct (decide (b = a)) as [->|Hne].
  - split; [done|]. split; [by rewrite lookup_insert_eq|]. rewrite Hn. apply IH. assert (q = p) as -> by congruence. done.
  - split; [done|]. split; [by rewrite lookup_insert_ne|by apply IH].
Qed.

(** One is taken out of the list, by the one before it; [snx] sets an address. *)
Lemma pseg_unlink (snx : option Z → T → T) st hd l1 b pb a p l2 e :
  (∀ n x, nx (snx n x) = n) → pseg st hd (l1 ++ (b, pb) :: (a, p) :: l2) e → NoDup (l1 ++ (b, pb) :: (a, p) :: l2).*1 →
  pseg (<[b := snx (nx p) pb]> st) hd (l1 ++ (b, snx (nx p) pb) :: l2) e.
Proof.
  intros nx_snx Hl Hn. rewrite fmap_app in Hn. cbn in Hn.
  apply NoDup_app in Hn as (_ & Hd & [Hb [Ha Hn]%NoDup_cons]%NoDup_cons).
  apply pseg_app in Hl as (m & H1 & -> & Hp & _ & Hpa & H2). apply pseg_app. exists (Some b). split.
  - apply pseg_insert; [done|]. intros Hin. apply (Hd b Hin). left.
  - split; [done|]. split; [by rewrite lookup_insert_eq|]. rewrite nx_snx. apply pseg_insert; [done|set_solver].
Qed.

Lemma NoDup_mid (l1 : list (Z * T)) a p l2 : NoDup (l1 ++ (a, p) :: l2).*1 → NoDup (l1 ++ l2).*1 ∧ a ∉ (l1 ++ l2).*1.
Proof.
  rewrite !fmap_app. cbn. rewrite <- Permutation_middle. intros [Ha Hn]%NoDup_cons. done.
Qed.

Definition last_key (prev : option Z) (l : list (Z * T)) : option Z :=
  match last l with Some x => Some x.1 | None => prev end.

Lemma last_key_cons prev a p l : last_key prev ((a, p) :: l) = last_key (Some a) l.
Proof.
  unfold last_key. destruct l as [|y l]; [done|]. change (last ((a, p) :: y :: l)) with (last (y :: l)).
  by destruct (last (y :: l)) eqn:E; [|apply last_None in E].
Qed.

(** Keys, without one of them. *)
Lemma filter_other (a : Z) (ks : list Z) : a ∉ ks → filter (λ b, b ≠ a) ks = ks.
Proof.
  induction ks as [|b ks IH]; [done|]. rewrite not_elem_of_cons. intros [Hne Hni].
  rewrite filter_cons_True by congruence. by rewrite IH.
Qed.

End linked.

Arguments pseg_app {T nx} st l1 hd l2 e.
Arguments pseg_frame {T nx} st st' hd l e _ _.
Arguments pseg_insert {T nx} st hd l e a p _ _.
Arguments pseg_lookup {T nx} st hd l e a p _ _.
Arguments pseg_sizes {T nx} st hd l e _ _.
Arguments pseg_upd {T nx} st l a p p' _ _ hd e _.
