(* ===== verification/Udp.v ===== *)
(** * UDP (lwip/core/udp.c): control blocks, ports and incoming packets

    Control blocks are elements of a pool; those that are bound are in a list linked through
    themselves, which is kept in a store here.  The sending half is not modelled, and
    the routing of IPv6, which chooses the zone of an address without one, is a
    parameter.  [UdpProofs] has the walks over the list, [UdpCalls] shows what the list
    always is, [UdpInput] who gets a packet. *)

From S2P Require Import Prelude Memp SysArch Pbuf LwipDef Chksum LwipMem PbufAlloc Ip4Addr Ip4Frag Ip6Addr.

(** ** Addresses of both versions (lwip/ip_addr.h) *)

Definition IPADDR_TYPE_ANY : Z := 46.
Definition IP6_ZERO : ip6_addr := Ip6 [0; 0; 0; 0] IP6_NO_ZONE.
Definition IP4_ADDR_ANY : ip_any := IpAny IP6_ZERO IPADDR_TYPE_V4.
Definition IP_ANY_TYPE : ip_any := IpAny IP6_ZERO IPADDR_TYPE_ANY.

Definition is_v6 (a : ip_any) : bool := any_type a =? IPADDR_TYPE_V6.
Definition is_any_type (a : ip_any) : bool := any_type a =? IPADDR_TYPE_ANY.
Definition ip4_of (a : ip_any) : Z := default 0 (a6 (u_addr a) !! 0%nat).

Definition ip6_addr_zoneless_eq (a b : ip6_addr) : bool := bool_decide (a6 a = a6 b).
Definition ip6_addr_eq (a b : ip6_addr) : bool := ip6_addr_zoneless_eq a b && (zone a =? zone b).
Definition ip6_addr_isany (a : ip6_addr) : bool := bool_decide (a6 a = [0; 0; 0; 0]).
Definition ip6_addr_ismulticast (a : ip6_addr) : bool :=
  prefix6 0xff000000 0xff000000 (default 0 (a6 a !! 0%nat)).
Definition ip4_addr_ismulticast (w : Z) : bool := Z.land w (lwip_htonl 0xf0000000) =? lwip_htonl 0xe0000000.

Definition ip_addr_eq (a b : ip_any) : bool :=
  if negb (any_type a =? any_type b) then false
  else if is_v6 a then ip6_addr_eq (u_addr a) (u_addr b) else ip4_of a =? ip4_of b.
Definition ip_addr_isany (a : ip_any) : bool :=
  if is_v6 a then ip6_addr_isany (u_addr a) else ip4_of a =? IPADDR_ANY.
Definition ip_addr_ismulticast (a : ip_any) : bool :=
  if is_v6 a then ip6_addr_ismulticast (u_addr a) else ip4_addr_ismulticast (ip4_of a).

(** What [*dest] is after a copy: all but a version 6 address lose the rest of the union. *)
Definition ip_addr_set (src : ip_any) : ip_any :=
  if is_v6 src then src else IpAny (Ip6 [ip4_of src; 0; 0; 0] IP6_NO_ZONE) (any_type src).
Definition ip_addr_set_any (is_ipv6 : bool) : ip_any :=
  IpAny IP6_ZERO (if is_ipv6 then IPADDR_TYPE_V6 else IPADDR_TYPE_V4).

(** ** Control blocks *)

Definition UDP_LOCAL_PORT_RANGE_START : Z := 0xc000.
Definition UDP_LOCAL_PORT_RANGE_END : Z := 0xffff.
Definition UDP_ENSURE_LOCAL_PORT_RANGE (port : Z) : Z :=
  u16 (Z.land port (u16 (Z.lnot UDP_LOCAL_PORT_RANGE_START)) + UDP_LOCAL_PORT_RANGE_START).
Definition UDP_FLAGS_CONNECTED : Z := 0x04.
Definition UDP_TTL : Z := 255.
Definition UDP_HLEN : Z := 8.
Definition IP_PROTO_UDP : Z := 17.
Definition IP_PROTO_UDPLITE : Z := 136.
Definition NETIF_NO_INDEX : Z := 0.
Definition ERR_USE : Z := -8.

(** [struct udp_pcb], without the fields that only the sending half reads. *)
Record udp_pcb : Type := UdpPcb {
  local_ip : ip_any; remote_ip : ip_any; netif_idx : Z; u_ttl : Z; u_next : option Z;
  u_flags : Z; local_port : Z; remote_port : Z; mcast_ttl : Z; u_recv : option Z; recv_arg : Z;
}.

Definition set_u_local (a : ip_any) (port : Z) (p : udp_pcb) : udp_pcb :=
  UdpPcb a (remote_ip p) (netif_idx p) (u_ttl p) (u_next p) (u_flags p) port (remote_port p)
    (mcast_ttl p) (u_recv p) (recv_arg p).
Definition set_u_next (n : option Z) (p : udp_pcb) : udp_pcb :=
  UdpPcb (local_ip p) (remote_ip p) (netif_idx p) (u_ttl p) n (u_flags p) (local_port p)
    (remote_port p) (mcast_ttl p) (u_recv p) (recv_arg p).
Definition set_u_remote (a : ip_any) (port flags : Z) (p : udp_pcb) : udp_pcb :=
  UdpPcb (local_ip p) a (netif_idx p) (u_ttl p) (u_next p) flags (local_port p) port
    (mcast_ttl p) (u_recv p) (recv_arg p).
Definition set_u_netif (i : Z) (p : udp_pcb) : udp_pcb :=
  UdpPcb (local_ip p) (remote_ip p) i (u_ttl p) (u_next p) (u_flags p) (local_port p)
    (remote_port p) (mcast_ttl p) (u_recv p) (recv_arg p).
Definition set_u_recv (f : option Z) (arg : Z) (p : udp_pcb) : udp_pcb :=
  UdpPcb (local_ip p) (remote_ip p) (netif_idx p) (u_ttl p) (u_next p) (u_flags p) (local_port p)
    (remote_port p) (mcast_ttl p) f arg.

(** The control blocks that are allocated, the head of the list of the bound ones, the
    last port that was chosen, the pool. *)
Record udp : Type := Udp {
  u_store : gmap Z udp_pcb; udp_pcbs : option Z; udp_port : Z; u_pool : pool;
}.

Definition set_u_store (x : gmap Z udp_pcb) (u : udp) : udp := Udp x (udp_pcbs u) (udp_port u) (u_pool u).
Definition set_udp_pcbs (x : option Z) (u : udp) : udp := Udp (u_store u) x (udp_port u) (u_pool u).
Definition set_udp_port (x : Z) (u : udp) : udp := Udp (u_store u) (udp_pcbs u) x (u_pool u).
Definition set_u_pool (x : pool) (u : udp) : udp := Udp (u_store u) (udp_pcbs u) (udp_port u) x.

Definition pcb_at (u : udp) (a : Z) : res udp_pcb := oget BadPointer (u_store u !! a).
Definition pcb_mod (f : udp_pcb → udp_pcb) (a : Z) (u : udp) : res udp :=
  p ← pcb_at u a; Ok (set_u_store (<[a := f p]> (u_store u)) u).

(** Walks go at most over all control blocks. *)
Definition udp_fuel (u : udp) : nat := S (size (u_store u)).

(** [rnd]: what [LWIP_RAND] gives. *)
Definition udp_init (rnd : Z) (u : udp) : udp := set_udp_port (UDP_ENSURE_LOCAL_PORT_RANGE rnd) u.

(** ** Ports *)

Fixpoint port_used (fuel : nat) (u : udp) (port : Z) (pcb : option Z) : res bool :=
  match pcb, fuel with
  | None, _ => Ok false
  | Some _, O => Fault OutOfFuel
  | Some a, S fuel =>
      p ← pcb_at u a; if local_port p =? port then Ok true else port_used fuel u port (u_next p)
  end.

(** [n]: how many ports were in use. *)
Fixpoint new_port_loop (fuel : nat) (n : Z) (u : udp) : res (Z * udp) :=
  match fuel with
  | O => Fault OutOfFuel
  | S fuel =>
      let port := if udp_port u =? UDP_LOCAL_PORT_RANGE_END then UDP_LOCAL_PORT_RANGE_START
                  else u16 (udp_port u + 1) in
      let u := set_udp_port port u in
      used ← port_used (udp_fuel u) u port (udp_pcbs u);
      if used : bool then
        let n := u16 (n + 1) in
        if UDP_LOCAL_PORT_RANGE_END - UDP_LOCAL_PORT_RANGE_START <? n then Ok (0, u)
        else new_port_loop fuel n u
      else Ok (port, u)
  end.

(** There are 0x4000 ports in the range. *)
Definition udp_new_port (u : udp) : res (Z * udp) := new_port_loop (Z.to_nat 0x4000) 0 u.

(** ** Allocation *)

Definition pcb_zero : udp_pcb :=
  UdpPcb (IpAny IP6_ZERO 0) (IpAny IP6_ZERO 0) 0 0 None 0 0 0 0 None 0.

Definition udp_new (u : udp) : res (option Z * udp) :=
  '(pcb, pl) ← do_memp_malloc_pool (u_pool u);
  let u := set_u_pool pl u in
  match pcb with
  | None => Ok (None, u)
  | Some a =>
      let z := pcb_zero in
      let p := UdpPcb (local_ip z) (remote_ip z) (netif_idx z) UDP_TTL (u_next z) (u_flags z) (local_port z)
                 (remote_port z) UDP_TTL (u_recv z) (recv_arg z) in
      Ok (Some a, set_u_store (<[a := p]> (u_store u)) u)
  end.

Definition udp_new_ip_type (type : Z) (u : udp) : res (option Z * udp) :=
  '(pcb, u) ← udp_new u;
  match pcb with
  | None => Ok (None, u)
  | Some a =>
      u ← pcb_mod (λ p, set_u_remote (IpAny (u_addr (remote_ip p)) type) (remote_port p) (u_flags p)
                          (set_u_local (IpAny (u_addr (local_ip p)) type) (local_port p) p)) a u;
      Ok (Some a, u)
  end.

Fixpoint unlink_loop (fuel : nat) (pcb : Z) (pcb2 : option Z) (u : udp) : res udp :=
  match pcb2, fuel with
  | None, _ => Ok u
  | Some _, O => Fault OutOfFuel
  | Some a, S fuel =>
      p2 ← pcb_at u a;
      if bool_decide (u_next p2 = Some pcb) then
        p ← pcb_at u pcb; pcb_mod (set_u_next (u_next p)) a u
      else unlink_loop fuel pcb (u_next p2) u
  end.

Definition udp_remove (pcb : Z) (u : udp) : res udp :=
  u ← (if bool_decide (udp_pcbs u = Some pcb) then
         p ← pcb_at u pcb; Ok (set_udp_pcbs (u_next p) u)
       else unlink_loop (udp_fuel u) pcb (udp_pcbs u) u);
  pl ← do_memp_free_pool (u_pool u) pcb;
  Ok (set_u_pool pl (set_u_store (delete pcb (u_store u)) u)).

(** ** Binding *)

Fixpoint on_list (fuel : nat) (u : udp) (pcb : Z) (ipcb : option Z) : res bool :=
  match ipcb, fuel with
  | None, _ => Ok false
  | Some _, O => Fault OutOfFuel
  | Some a, S fuel => if pcb =? a then Ok true else p ← pcb_at u a; on_list fuel u pcb (u_next p)
  end.

(** Two local addresses that exclude each other on the same port. *)
Definition bind_clash (a b : ip_any) : bool :=
  ((any_type a =? any_type b) && (ip_addr_eq a b || ip_addr_isany b || ip_addr_isany a)) ||
  is_any_type a || is_any_type b.

Fixpoint bind_check (fuel : nat) (u : udp) (pcb : Z) (ipaddr : ip_any) (port : Z) (ipcb : option Z) : res bool :=
  match ipcb, fuel with
  | None, _ => Ok true
  | Some _, O => Fault OutOfFuel
  | Some a, S fuel =>
      p ← pcb_at u a;
      if negb (pcb =? a) && ((local_port p =? port) && bind_clash (local_ip p) ipaddr) then Ok false
      else bind_check fuel u pcb ipaddr port (u_next p)
  end.

Definition push_pcb (pcb : Z) (u : udp) : res udp :=
  u' ← pcb_mod (set_u_next (udp_pcbs u)) pcb u; Ok (set_udp_pcbs (Some pcb) u').

Section udp.
(** The interface for a source and a destination, by the routing of IPv6. *)
Context (ip6_route : ip6_addr → ip6_addr → option netif6).

Definition ip6_addr_select_zone (dest src : ip6_addr) : ip6_addr :=
  match ip6_route src dest with
  | Some n =>
      ip6_addr_set_zone (if ip6_addr_has_scope (default 0 (a6 dest !! 0%nat)) then netif_get_index n else 0) dest
  | None => dest
  end.

Definition ip6_addr_lacks_zone (a : ip6_addr) : bool :=
  (zone a =? IP6_NO_ZONE) && ip6_addr_has_scope (default 0 (a6 a !! 0%nat)).

Definition zoned (ipaddr src : ip_any) : ip_any :=
  if is_v6 ipaddr && ip6_addr_lacks_zone (u_addr ipaddr)
  then IpAny (ip6_addr_select_zone (u_addr ipaddr) (u_addr src)) IPADDR_TYPE_V6 else ipaddr.

Definition udp_bind (pcb : option Z) (ipaddr : option ip_any) (port : Z) (u : udp) : res (Z * udp) :=
  let ipaddr := default IP4_ADDR_ANY ipaddr in
  match pcb with
  | None => Ok (ERR_ARG, u)
  | Some pcb =>
      rebind ← on_list (udp_fuel u) u pcb (udp_pcbs u);
      let ipaddr := zoned ipaddr ipaddr in
      '(ok, port, u) ←
        (if port =? 0 then '(port, u) ← udp_new_port u; Ok (negb (port =? 0), port, u)
         else ok ← bind_check (udp_fuel u) u pcb ipaddr port (udp_pcbs u); Ok (ok, port, u));
      if negb ok then Ok (ERR_USE, u)
      else
        u ← pcb_mod (set_u_local (ip_addr_set ipaddr) port) pcb u;
        u ← (if negb rebind then push_pcb pcb u else Ok u);
        Ok (ERR_OK, u)
  end.

Definition udp_connect (pcb : option Z) (ipaddr : option ip_any) (port : Z) (u : udp) : res (Z * udp) :=
  match pcb, ipaddr with
  | Some pcb, Some ipaddr =>
      p ← pcb_at u pcb;
      '(err, u) ← (if local_port p =? 0 then udp_bind (Some pcb) (Some (local_ip p)) 0 u else Ok (ERR_OK, u));
      if negb (err =? ERR_OK) then Ok (err, u)
      else
        p ← pcb_at u pcb;
        u ← pcb_mod (set_u_remote (zoned (ip_addr_set ipaddr) (local_ip p)) port
                       (Z.lor (u_flags p) UDP_FLAGS_CONNECTED)) pcb u;
        there ← on_list (udp_fuel u) u pcb (udp_pcbs u);
        u ← (if negb there then push_pcb pcb u else Ok u);
        Ok (ERR_OK, u)
  | _, _ => Ok (ERR_ARG, u)
  end.

End udp.

(** [netif]: its number. *)
Definition udp_bind_netif (pcb : Z) (netif : option Z) (u : udp) : res udp :=
  pcb_mod (set_u_netif (match netif with Some num => u8 (num + 1) | None => NETIF_NO_INDEX end)) pcb u.

Definition udp_disconnect (pcb : option Z) (u : udp) : res udp :=
  match pcb with
  | None => Ok u
  | Some pcb =>
      pcb_mod (λ p, set_u_netif NETIF_NO_INDEX
                 (set_u_remote (if is_any_type (local_ip p) then ip_addr_set IP_ANY_TYPE
                                else ip_addr_set_any (is_v6 (remote_ip p)))
                    0 (Z.land (u_flags p) (Z.land (Z.lnot UDP_FLAGS_CONNECTED) 0xff)) p)) pcb u
  end.

Definition udp_recv (pcb : option Z) (recv : option Z) (arg : Z) (u : udp) : res udp :=
  match pcb with None => Ok u | Some pcb => pcb_mod (set_u_recv recv arg) pcb u end.

Fixpoint addr_changed_loop (fuel : nat) (old new : ip_any) (pcb : option Z) (u : udp) : res udp :=
  match pcb, fuel with
  | None, _ => Ok u
  | Some _, O => Fault OutOfFuel
  | Some a, S fuel =>
      p ← pcb_at u a;
      u ← (if ip_addr_eq (local_ip p) old then pcb_mod (set_u_local (ip_addr_set new) (local_port p)) a u
           else Ok u);
      addr_changed_loop fuel old new (u_next p) u
  end.

Definition udp_netif_ip_addr_changed (old new : ip_any) (u : udp) : res udp :=
  if negb (ip_addr_isany old) && negb (ip_addr_isany new)
  then addr_changed_loop (udp_fuel u) old new (udp_pcbs u) u else Ok u.

(** ** Incoming packets *)

(** The fields of [struct netif] that are read; addresses of version 6 with their states. *)
Record netif_in : Type := NetifIn { in_num : Z; in_4 : netif4; in_6 : list (Z * ip6_addr) }.

(** [ip_data], set by the code for IP. *)
Record ip_globals : Type := IpGlobals {
  current_netif : netif_in; current_input_netif : netif_in; current_is_v6 : bool; current_proto : Z;
  current_ip_header_tot_len : Z; current_iphdr_src : ip_any; current_iphdr_dest : ip_any;
}.

Definition IP6_ADDR_INVALID : Z := 0.

(** The place of an address of the interface, or -1. *)
Fixpoint addr_match (l : list (Z * ip6_addr)) (a : ip6_addr) (i : Z) : Z :=
  match l with
  | [] => -1
  | (state, x) :: l =>
      if negb (state =? IP6_ADDR_INVALID) && ip6_addr_zoneless_eq x a then i else addr_match l a (i + 1)
  end.

Definition netif_get_ip6_addr_match (n : netif_in) (a : ip6_addr) : Z :=
  if negb (zone a =? IP6_NO_ZONE) && negb (zone a =? u8 (in_num n + 1)) then -1 else addr_match (in_6 n) a 0.

Definition ip_addr_isbroadcast (a : ip_any) (n : netif_in) : bool :=
  if is_v6 a then false else ip4_addr_isbroadcast_u32 (ip4_of a) (in_4 n).

Definition chksum_addr (a : ip_any) : ip_addr := IpAddr (a6 (u_addr a)) (any_type a).

(** What the code reports. *)
Inductive unote : Type :=
  | URecv | ULenErr | UDrop | UInErrors | UCacheHit | UInDatagrams | UProtErr | UNoPorts | UChkErr
  | UUnreachable (p : Z)
  | UCall (recv arg pcb p : Z) (addr : ip_any) (port : Z).

Section input.
Context `{Platform} (self : Z) (g : ip_globals) (inp : netif_in).

Definition udp_input_local_match (pcb : udp_pcb) (broadcast : bool) : bool :=
  let dest := current_iphdr_dest g in
  if negb (netif_idx pcb =? NETIF_NO_INDEX) && negb (netif_idx pcb =? u8 (in_num (current_input_netif g) + 1))
  then false
  else if is_any_type (local_ip pcb) then true
  else if any_type (local_ip pcb) =? any_type dest then
    if broadcast then
      (ip4_of (local_ip pcb) =? IPADDR_ANY) || (ip4_of dest =? IPADDR_BROADCAST) ||
      ip4_addr_net_eq (ip4_of (local_ip pcb)) (ip4_of dest) (nif_netmask (in_4 inp))
    else ip_addr_isany (local_ip pcb) || ip_addr_eq (local_ip pcb) dest
  else false.

(** A control block on the address of the interface. *)
Definition on_netif (pcb : udp_pcb) : bool :=
  (any_type (local_ip pcb) =? IPADDR_TYPE_V4) && (ip4_of (local_ip pcb) =? nif_ip4 (in_4 inp)).

(** The candidate without a remote end, after one more control block. *)
Definition next_uncon (broadcast : bool) (a : Z) (pcb : udp_pcb) (uncon : option (Z * udp_pcb))
    : option (Z * udp_pcb) :=
  match uncon with
  | None => Some (a, pcb)
  | Some (_, up) =>
      if broadcast && (ip4_of (current_iphdr_dest g) =? IPADDR_BROADCAST) then
        if negb (on_netif up) then if on_netif pcb then Some (a, pcb) else uncon else uncon
      else uncon
  end.

(** The control block that matches both ends, with the one before it, or the candidate. *)
Fixpoint input_loop (fuel : nat) (u : udp) (src dest : Z) (broadcast : bool) (pcb prev : option Z)
    (uncon : option (Z * udp_pcb)) : res (option (Z * option Z) * option (Z * udp_pcb)) :=
  match pcb, fuel with
  | None, _ => Ok (None, uncon)
  | Some _, O => Fault OutOfFuel
  | Some a, S fuel =>
      p ← pcb_at u a;
      if (local_port p =? dest) && udp_input_local_match p broadcast then
        let uncon := if Z.land (u_flags p) UDP_FLAGS_CONNECTED =? 0 then next_uncon broadcast a p uncon else uncon in
        if (remote_port p =? src) && (ip_addr_isany (remote_ip p) || ip_addr_eq (remote_ip p) (current_iphdr_src g))
        then Ok (Some (a, prev), uncon)
        else input_loop fuel u src dest broadcast (u_next p) (Some a) uncon
      else input_loop fuel u src dest broadcast (u_next p) (Some a) uncon
  end.

(** The control block that gets the packet; one that matches both ends comes to the front. *)
Definition demux (u : udp) (src dest : Z) (broadcast : bool) : res (option Z * list unote * udp) :=
  '(perfect, uncon) ← input_loop (udp_fuel u) u src dest broadcast (udp_pcbs u) None None;
  match perfect with
  | Some (a, Some prev) =>
      p ← pcb_at u a;
      u ← pcb_mod (set_u_next (u_next p)) prev u;
      u ← push_pcb a u;
      Ok (Some a, [], u)
  | Some (a, None) => Ok (Some a, [UCacheHit], u)
  | None => Ok (option_map fst uncon, [], u)
  end.

(** Whether the checksum of the packet is right, or need not be. *)
Definition checksum_ok (p : Z) (hdr : list Z) (tot_len : Z) (s : pbufs) (m : gmap Z Z) : res bool :=
  let src := chksum_addr (current_iphdr_src g) in
  let dest := chksum_addr (current_iphdr_dest g) in
  if current_proto g =? IP_PROTO_UDPLITE then
    let chklen := lwip_htons (hdr_field 4 2 hdr) in
    if (chklen <? UDP_HLEN) && negb (chklen =? 0) then Ok false
    else
      let chklen := if chklen =? 0 then tot_len else chklen in
      c ← ip_chksum_pseudo_partial (bufs s) m (Some p) IP_PROTO_UDPLITE tot_len chklen src dest;
      Ok (c =? 0)
  else if hdr_field 6 2 hdr =? 0 then Ok true
  else c ← ip_chksum_pseudo (bufs s) m (Some p) IP_PROTO_UDP tot_len src dest; Ok (c =? 0).

Definition drop_packet (p : Z) (notes : list unote) (u : udp) (s : pbufs) : res (list unote * udp * pbufs) :=
  '(_, s) ← pbuf_free self (Some p) s; Ok (notes, u, s).

(** A packet that is right: to the function of the control block, or back to the sender as
    unreachable. *)
Definition hand_over (p src : Z) (broadcast : bool) (pcb : option Z) (notes : list unote) (u : udp) (s : pbufs)
    : res (list unote * udp * pbufs) :=
  '(r, pb) ← pbuf_remove_header (bufs s) (Some p) UDP_HLEN;
  _ ← lwip_assert (r =? 0);
  let s := set_bufs pb s in
  match pcb with
  | Some a =>
      pc ← pcb_at u a;
      match u_recv pc with
      | Some f => Ok (notes ++ [UInDatagrams; UCall f (recv_arg pc) a p (current_iphdr_src g) src], u, s)
      | None => drop_packet p (notes ++ [UInDatagrams]) u s
      end
  | None =>
      '(s, n) ←
        (if negb broadcast && negb (ip_addr_ismulticast (current_iphdr_dest g)) then
           '(_, pb) ← pbuf_header_force (bufs s) (Some p) (wraps 16 (current_ip_header_tot_len g + UDP_HLEN));
           Ok (set_bufs pb s, [UUnreachable p])
         else Ok (s, []));
      drop_packet p (notes ++ n ++ [UProtErr; UDrop; UNoPorts]) u s
  end.

Definition udp_input (p : Z) (u : udp) (s : pbufs) (m : gmap Z Z) : res (list unote * udp * pbufs) :=
  h ← buf_at s p;
  if p_len h <? UDP_HLEN then drop_packet p [URecv; ULenErr; UDrop; UInErrors] u s
  else
    let broadcast := ip_addr_isbroadcast (current_iphdr_dest g) (current_netif g) in
    hdr ← mread m (p_payload h) 8;
    let src := lwip_htons (hdr_field 0 2 hdr) in
    let dest := lwip_htons (hdr_field 2 2 hdr) in
    '(pcb, notes, u) ← demux u src dest broadcast;
    let notes := URecv :: notes in
    let for_us := is_some pcb ||
      (if current_is_v6 g then 0 <=? netif_get_ip6_addr_match inp (u_addr (current_iphdr_dest g))
       else nif_ip4 (in_4 inp) =? ip4_of (current_iphdr_dest g)) in
    if negb for_us then drop_packet p notes u s
    else
      ok ← checksum_ok p hdr (p_tot_len h) s m;
      if negb ok then drop_packet p (notes ++ [UChkErr; UDrop; UInErrors]) u s
      else
        hand_over p src broadcast pcb notes u s.

End input.
