(* ===== verification/Raw.v ===== *)
(** * Raw control blocks (lwip/core/raw.c)

    Clients that want the packets of a protocol as they are; each is offered a packet
    until one of them takes it.  The functions of the clients are a parameter: whether one
    takes a packet; as their documentation demands, one that does not take it leaves it as
    it is.  The sending half is not modelled. *)

From S2P Require Import Prelude Memp SysArch Pbuf LwipDef LwipMem PbufAlloc Ip4Addr Ip4Frag Ip6Addr Udp.

(** ** Control blocks *)

Definition RAW_FLAGS_CONNECTED : Z := 0x01.
Definition RAW_TTL : Z := 255.

(** [struct raw_pcb], without the fields that only the sending half reads. *)
Record raw_pcb : Type := RawPcb {
  w_local : ip_any; w_remote : ip_any; w_netif : Z; w_ttl : Z; w_next : option Z;
  protocol : Z; w_flags : Z; w_mcast_ttl : Z; w_recv : option Z; w_recv_arg : Z;
}.

Definition set_w_next (n : option Z) (p : raw_pcb) : raw_pcb :=
  RawPcb (w_local p) (w_remote p) (w_netif p) (w_ttl p) n (protocol p) (w_flags p) (w_mcast_ttl p)
    (w_recv p) (w_recv_arg p).
Definition set_w_local (a : ip_any) (p : raw_pcb) : raw_pcb :=
  RawPcb a (w_remote p) (w_netif p) (w_ttl p) (w_next p) (protocol p) (w_flags p) (w_mcast_ttl p)
    (w_recv p) (w_recv_arg p).
Definition set_w_remote (a : ip_any) (netif flags : Z) (p : raw_pcb) : raw_pcb :=
  RawPcb (w_local p) a netif (w_ttl p) (w_next p) (protocol p) flags (w_mcast_ttl p)
    (w_recv p) (w_recv_arg p).
Definition set_w_recv (f : option Z) (arg : Z) (p : raw_pcb) : raw_pcb :=
  RawPcb (w_local p) (w_remote p) (w_netif p) (w_ttl p) (w_next p) (protocol p) (w_flags p) (w_mcast_ttl p) f arg.

Record raws : Type := Raws { w_store : gmap Z raw_pcb; raw_pcbs : option Z; w_pool : pool }.

Definition raw_at (w : raws) (a : Z) : res raw_pcb := oget BadPointer (w_store w !! a).
Definition raw_mod (f : raw_pcb → raw_pcb) (a : Z) (w : raws) : res raws :=
  p ← raw_at w a; Ok (Raws (<[a := f p]> (w_store w)) (raw_pcbs w) (w_pool w)).
Definition set_raw_pcbs (x : option Z) (w : raws) : raws := Raws (w_store w) x (w_pool w).

(** Walks go at most over all control blocks. *)
Definition raw_fuel (w : raws) : nat := S (size (w_store w)).

(** ** What clients do *)

Definition raw_zero : raw_pcb := RawPcb (IpAny IP6_ZERO 0) (IpAny IP6_ZERO 0) 0 0 None 0 0 0 None 0.

Definition raw_new (proto : Z) (w : raws) : res (option Z * raws) :=
  '(pcb, pl) ← do_memp_malloc_pool (w_pool w);
  match pcb with
  | None => Ok (None, Raws (w_store w) (raw_pcbs w) pl)
  | Some a =>
      let z := raw_zero in
      let p := RawPcb (w_local z) (w_remote z) (w_netif z) RAW_TTL (raw_pcbs w) proto (w_flags z) RAW_TTL
                 (w_recv z) (w_recv_arg z) in
      Ok (Some a, Raws (<[a := p]> (w_store w)) (Some a) pl)
  end.

Definition raw_new_ip_type (type proto : Z) (w : raws) : res (option Z * raws) :=
  '(pcb, w) ← raw_new proto w;
  match pcb with
  | None => Ok (None, w)
  | Some a =>
      w ← raw_mod (λ p, set_w_remote (IpAny (u_addr (w_remote p)) type) (w_netif p) (w_flags p)
                          (set_w_local (IpAny (u_addr (w_local p)) type) p)) a w;
      Ok (Some a, w)
  end.

Fixpoint raw_unlink_loop (fuel : nat) (pcb : Z) (pcb2 : option Z) (w : raws) : res raws :=
  match pcb2, fuel with
  | None, _ => Ok w
  | Some _, O => Fault OutOfFuel
  | Some a, S fuel =>
      p2 ← raw_at w a;
      if bool_decide (w_next p2 = Some pcb) then
        p ← raw_at w pcb; raw_mod (set_w_next (w_next p)) a w
      else raw_unlink_loop fuel pcb (w_next p2) w
  end.

Definition raw_remove (pcb : Z) (w : raws) : res raws :=
  w ← (if bool_decide (raw_pcbs w = Some pcb) then
         p ← raw_at w pcb; Ok (set_raw_pcbs (w_next p) w)
       else raw_unlink_loop (raw_fuel w) pcb (raw_pcbs w) w);
  pl ← do_memp_free_pool (w_pool w) pcb;
  Ok (Raws (delete pcb (w_store w)) (raw_pcbs w) pl).

Section raw.
Context (ip6_route : ip6_addr → ip6_addr → option netif6).

Definition raw_bind (pcb : option Z) (ipaddr : option ip_any) (w : raws) : res (Z * raws) :=
  match pcb, ipaddr with
  | Some pcb, Some ipaddr =>
      w ← raw_mod (set_w_local (zoned ip6_route (ip_addr_set ipaddr) (ip_addr_set ipaddr))) pcb w; Ok (ERR_OK, w)
  | _, _ => Ok (ERR_VAL, w)
  end.

Definition raw_connect (pcb : option Z) (ipaddr : option ip_any) (w : raws) : res (Z * raws) :=
  match pcb, ipaddr with
  | Some pcb, Some ipaddr =>
      w ← raw_mod (λ p, set_w_remote (zoned ip6_route (ip_addr_set ipaddr) (w_local p)) (w_netif p)
                          (Z.lor (w_flags p) RAW_FLAGS_CONNECTED) p) pcb w;
      Ok (ERR_OK, w)
  | _, _ => Ok (ERR_VAL, w)
  end.

End raw.

Definition raw_bind_netif (pcb : Z) (netif : option Z) (w : raws) : res raws :=
  raw_mod (λ p, set_w_remote (w_remote p) (match netif with Some num => u8 (num + 1) | None => NETIF_NO_INDEX end)
                  (w_flags p) p) pcb w.

Definition raw_disconnect (pcb : Z) (w : raws) : res raws :=
  raw_mod (λ p, set_w_remote (if is_any_type (w_local p) then ip_addr_set IP_ANY_TYPE
                              else ip_addr_set_any (is_v6 (w_remote p)))
                  NETIF_NO_INDEX (Z.land (w_flags p) (Z.land (Z.lnot RAW_FLAGS_CONNECTED) 0xff)) p) pcb w.

Definition raw_recv (pcb : Z) (recv : option Z) (arg : Z) (w : raws) : res raws := raw_mod (set_w_recv recv arg) pcb w.

Fixpoint raw_addr_changed_loop (fuel : nat) (old new : ip_any) (pcb : option Z) (w : raws) : res raws :=
  match pcb, fuel with
  | None, _ => Ok w
  | Some _, O => Fault OutOfFuel
  | Some a, S fuel =>
      p ← raw_at w a;
      w ← (if ip_addr_eq (w_local p) old then raw_mod (set_w_local (ip_addr_set new)) a w else Ok w);
      raw_addr_changed_loop fuel old new (w_next p) w
  end.

Definition raw_netif_ip_addr_changed (old new : ip_any) (w : raws) : res raws :=
  if negb (ip_addr_isany old) && negb (ip_addr_isany new)
  then raw_addr_changed_loop (raw_fuel w) old new (raw_pcbs w) w else Ok w.

(** ** Incoming packets *)

Inductive raw_input_state_t : Type := RAW_INPUT_NONE | RAW_INPUT_EATEN | RAW_INPUT_DELIVERED.

(** A packet [p] is offered to a function. *)
Record offer : Type := Offer { of_recv : Z; of_arg : Z; of_pcb : Z; of_p : Z; of_addr : ip_any }.

Section input.
Context (g : ip_globals) (eats : offer → bool).

Definition raw_input_local_match (pcb : raw_pcb) (broadcast : bool) : bool :=
  if negb (w_netif pcb =? NETIF_NO_INDEX) && negb (w_netif pcb =? u8 (in_num (current_input_netif g) + 1)) then false
  else if is_any_type (w_local pcb) then true
  else if any_type (w_local pcb) =? any_type (current_iphdr_dest g) then
    if broadcast then ip4_of (w_local pcb) =? IPADDR_ANY
    else ip_addr_isany (w_local pcb) || ip_addr_eq (w_local pcb) (current_iphdr_dest g)
  else false.

Fixpoint raw_loop (fuel : nat) (p proto : Z) (broadcast : bool) (pcb prev : option Z) (ret : raw_input_state_t)
    (w : raws) : res (raw_input_state_t * list offer * raws) :=
  match pcb, fuel with
  | None, _ => Ok (ret, [], w)
  | Some _, O => Fault OutOfFuel
  | Some a, S fuel =>
      pc ← raw_at w a;
      if (protocol pc =? proto) && raw_input_local_match pc broadcast &&
         ((Z.land (w_flags pc) RAW_FLAGS_CONNECTED =? 0) || ip_addr_eq (w_remote pc) (current_iphdr_src g))
      then
        match w_recv pc with
        | Some f =>
            let o := Offer f (w_recv_arg pc) a p (current_iphdr_src g) in
            if eats o then
              w ← (match prev with
                   | Some b =>
                       w1 ← raw_mod (set_w_next (w_next pc)) b w;
                       w2 ← raw_mod (set_w_next (raw_pcbs w1)) a w1;
                       Ok (set_raw_pcbs (Some a) w2)
                   | None => Ok w
                   end);
              Ok (RAW_INPUT_EATEN, [o], w)
            else '(r, os, w) ← raw_loop fuel p proto broadcast (w_next pc) (Some a) RAW_INPUT_DELIVERED w; Ok (r, o :: os, w)
        | None => raw_loop fuel p proto broadcast (w_next pc) (Some a) ret w
        end
      else raw_loop fuel p proto broadcast (w_next pc) (Some a) ret w
  end.

(** [payload]: where the header of the packet is; its protocol is at another place in
    version 6. *)
Definition raw_input (p payload : Z) (w : raws) (m : gmap Z Z) : res (raw_input_state_t * list offer * raws) :=
  let broadcast := ip_addr_isbroadcast (current_iphdr_dest g) (current_netif g) in
  v ← mread m payload 1;
  proto ← mread m (payload + (if Z.shiftr (hdr_field 0 1 v) 4 =? 6 then 6 else 9)) 1;
  raw_loop (raw_fuel w) p (hdr_field 0 1 proto) broadcast (raw_pcbs w) None RAW_INPUT_NONE w.

End input.
