(* ===== verification/UdpProofs.v ===== *)
(** * UDP: the list of control blocks

    What the walks over the list find in it, the port that is chosen, and the control
    block a packet belongs to, all as functions of the list. *)

From S2P Require Import Prelude Memp SysArch Pbuf LwipDef Chksum LwipMem PbufAlloc Ip4Addr Ip4Frag Ip6Addr Udp Linked.

(** ** Walks *)

Lemma port_used_spec u port l : ∀ fuel hd,
  pseg u_next (u_store u) hd l None → (length l < fuel)%nat →
  port_used fuel u port hd = Ok (existsb (λ x, local_port x.2 =? port) l).
Proof.
  induction l as [|[a p] l IH]; intros [|fuel] hd Hl Hf; try (simpl in Hf; lia); cbn [pseg] in Hl; [by subst|].
  destruct Hl as (-> & Ha & Hl). cbn [port_used existsb snd]. unfold pcb_at. rewrite Ha. cbn [oget mbind res_bind].
  destruct (_ =? _); [done|]. apply IH; [done|simpl in Hf; lia].
Qed.

Lemma on_list_spec u pcb l : ∀ fuel hd,
  pseg u_next (u_store u) hd l None → (length l < fuel)%nat → on_list fuel u pcb hd = Ok (bool_decide (pcb ∈ l.*1)).
Proof.
  induction l as [|[a p] l IH]; intros [|fuel] hd Hl Hf; try (simpl in Hf; lia); cbn [pseg] in Hl; [by subst|].
  destruct Hl as (-> & Ha & Hl). cbn [on_list fmap list_fmap fst].
  destruct (Z.eqb_spec pcb a) as [->|Hne]; [by rewrite bool_decide_true by left|].
  unfold pcb_at. rewrite Ha. cbn [oget mbind res_bind]. rewrite (IH fuel (u_next p)); [|done|simpl in Hf; lia]. f_equal.
  apply bool_decide_ext. rewrite elem_of_cons. naive_solver.
Qed.

(** The control block [x] keeps another one off the address and port. *)
Definition keeps_off (ipaddr : ip_any) (port : Z) (p : udp_pcb) : bool :=
  (local_port p =? port) && bind_clash (local_ip p) ipaddr.

Lemma bind_check_spec u pcb ipaddr port l : ∀ fuel hd,
  pseg u_next (u_store u) hd l None → (length l < fuel)%nat →
  bind_check fuel u pcb ipaddr port hd =
    Ok (forallb (λ x, negb (negb (pcb =? x.1) && keeps_off ipaddr port x.2)) l).
Proof.
  induction l as [|[a p] l IH]; intros [|fuel] hd Hl Hf; try (simpl in Hf; lia); cbn [pseg] in Hl; [by subst|].
  destruct Hl as (-> & Ha & Hl). cbn [bind_check forallb fst snd]. unfold pcb_at. rewrite Ha. cbn [oget mbind res_bind].
  unfold keeps_off at 1. destruct (negb (pcb =? a) && _); cbn [negb andb]; [done|]. apply IH; [done|simpl in Hf; lia].
Qed.

(** ** Choosing a port *)

Definition next_port (port : Z) : Z :=
  if port =? UDP_LOCAL_PORT_RANGE_END then UDP_LOCAL_PORT_RANGE_START else u16 (port + 1).

Definition in_port_range (port : Z) : Prop := UDP_LOCAL_PORT_RANGE_START <= port <= UDP_LOCAL_PORT_RANGE_END.

(** The [k]th port after [p0]. *)
Definition nth_port (p0 k : Z) : Z :=
  UDP_LOCAL_PORT_RANGE_START + (p0 - UDP_LOCAL_PORT_RANGE_START + k) mod 0x4000.

Lemma nth_port_range p0 k : in_port_range (nth_port p0 k).
Proof.
  unfold in_port_range, nth_port, UDP_LOCAL_PORT_RANGE_START, UDP_LOCAL_PORT_RANGE_END.
  pose proof (Z.mod_pos_bound (p0 - 0xc000 + k) 0x4000). lia.
Qed.

Lemma next_port_nth p0 k : next_port (nth_port p0 k) = nth_port p0 (k + 1).
Proof.
  pose proof (nth_port_range p0 k) as Hr. unfold next_port, nth_port, in_port_range, UDP_LOCAL_PORT_RANGE_START,
    UDP_LOCAL_PORT_RANGE_END in *. replace (p0 - 0xc000 + (k + 1)) with (p0 - 0xc000 + k + 1) by lia.
  set (x := p0 - 0xc000 + k) in *. pose proof (Z.div_mod x 0x4000).
  destruct (Z.eqb_spec (0xc000 + x mod 0x4000) 0xffff) as [E|E].
  - replace (x + 1) with ((x / 0x4000 + 1) * 0x4000) by lia. rewrite Z.mod_mul by lia. done.
  - rewrite wrapu_small by lia. rewrite <- (Z.mod_unique (x + 1) 0x4000 (x / 0x4000) (x mod 0x4000 + 1)); lia.
Qed.

Lemma nth_port_all p0 port : in_port_range p0 → in_port_range port → ∃ k, 1 <= k <= 0x4000 ∧ nth_port p0 k = port.
Proof.
  unfold in_port_range, nth_port, UDP_LOCAL_PORT_RANGE_START, UDP_LOCAL_PORT_RANGE_END. intros H0 Hp.
  exists (if port <=? p0 then port - p0 + 0x4000 else port - p0). destruct (Z.leb_spec port p0).
  - split; [lia|]. replace (p0 - 0xc000 + (port - p0 + 0x4000)) with ((port - 0xc000) + 1 * 0x4000) by lia.
    rewrite Z.mod_add, Z.mod_small by lia. lia.
  - split; [lia|]. rewrite Z.mod_small by lia. lia.
Qed.

Definition port_taken (l : list (Z * udp_pcb)) (port : Z) : bool := existsb (λ x, local_port x.2 =? port) l.

Lemma new_port_loop_spec l p0 fuel : ∀ n u,
  pseg u_next (u_store u) (udp_pcbs u) l None → NoDup l.*1 → udp_port u = nth_port p0 n →
  0 <= n < 0x4000 → (Z.of_nat fuel = 0x4000 - n) → (∀ k, 1 <= k <= n → port_taken l (nth_port p0 k) = true) →
  ∃ port port', new_port_loop fuel n u = Ok (port, set_udp_port port' u) ∧ in_port_range port' ∧
    (port = port' ∧ port_taken l port = false ∨
     port = 0 ∧ ∀ k, 1 <= k <= 0x4000 → port_taken l (nth_port p0 k) = true).
Proof.
  induction fuel as [|fuel IH]; intros n u Hl Hn Hp Hn0 Hf Hk; [lia|]. cbn [new_port_loop].
  fold (next_port (udp_port u)). rewrite Hp, next_port_nth. set (port := nth_port p0 (n + 1)).
  pose proof (pseg_sizes _ _ _ _ Hl Hn) as Hs.
  rewrite (port_used_spec (set_udp_port port u) port l); [|done|unfold udp_fuel; cbn [set_udp_port u_store]; lia].
  cbn [mbind res_bind]. fold (port_taken l port). destruct (port_taken l port) eqn:Et.
  - rewrite wrapu_small by lia. change (UDP_LOCAL_PORT_RANGE_END - UDP_LOCAL_PORT_RANGE_START) with 0x3fff.
    assert (∀ k, 1 <= k <= n + 1 → port_taken l (nth_port p0 k) = true) as Hk'.
    { intros k Hk1. destruct (decide (k = n + 1)) as [->|]; [done|]. apply Hk. lia. }
    destruct (Z.ltb_spec 0x3fff (n + 1)).
    + exists 0, port. split; [done|]. split; [apply nth_port_range|]. right. split; [done|].
      intros k Hk1. apply Hk'. lia.
    + destruct (IH (n + 1) (set_udp_port port u)) as (q & q' & E & Hr & Hq); try done; [lia|lia|].
      exists q, q'. rewrite E. done.
  - exists port, port. split; [done|]. split; [apply nth_port_range|]. by left.
Qed.

(** The port that is chosen is in the range and not in use; there is none only if all
    of them are. *)
Lemma udp_new_port_spec u l :
  pseg u_next (u_store u) (udp_pcbs u) l None → NoDup l.*1 → in_port_range (udp_port u) →
  ∃ port port', udp_new_port u = Ok (port, set_udp_port port' u) ∧ in_port_range port' ∧
    (in_port_range port ∧ port_taken l port = false ∨
     port = 0 ∧ ∀ q, in_port_range q → port_taken l q = true).
Proof.
  intros Hl Hn Hr. unfold udp_new_port.
  destruct (new_port_loop_spec l (udp_port u) (Z.to_nat 0x4000) 0 u Hl Hn) as (port & port' & E & Hr' & Hp).
  - unfold nth_port. rewrite Z.add_0_r, Z.mod_small; [lia|].
    unfold in_port_range, UDP_LOCAL_PORT_RANGE_START, UDP_LOCAL_PORT_RANGE_END in Hr. unfold UDP_LOCAL_PORT_RANGE_START. lia.
  - lia.
  - rewrite Z2Nat.id; lia.
  - intros k Hk. lia.
  - exists port, port'. split; [done|]. split; [done|]. destruct Hp as [[-> Hp]|[-> Hp]]; [by left|].
    right. split; [done|]. intros q Hq. destruct (nth_port_all (udp_port u) q Hr Hq) as (k & Hk & <-). by apply Hp.
Qed.

(** ** Searching the list *)

Section search.
Context (g : ip_globals) (inp : netif_in) (src dest : Z) (broadcast : bool).

(** Bound to where the packet goes. *)
Definition local_match (p : udp_pcb) : bool := (local_port p =? dest) && udp_input_local_match g inp p broadcast.

(** Bound to both ends. *)
Definition full_match (p : udp_pcb) : bool :=
  local_match p &&
  ((remote_port p =? src) && (ip_addr_isany (remote_ip p) || ip_addr_eq (remote_ip p) (current_iphdr_src g))).

(** Bound, and not connected. *)
Definition open_match (p : udp_pcb) : bool := local_match p && (Z.land (u_flags p) UDP_FLAGS_CONNECTED =? 0).

(** A packet to all stations. *)
Definition to_all : bool := broadcast && (ip4_of (current_iphdr_dest g) =? IPADDR_BROADCAST).

(** The first one, but for a packet to all the first one on the address of the interface,
    if there is one. *)
Definition best (l : list (Z * udp_pcb)) : option (Z * udp_pcb) :=
  if to_all then
    match find (λ x, on_netif inp x.2) l with Some x => Some x | None => head l end
  else head l.

Definition receiver (l : list (Z * udp_pcb)) : option Z :=
  match find (λ x, full_match x.2) l with
  | Some x => Some x.1
  | None => option_map fst (best (List.filter (λ x, open_match x.2) l))
  end.

Definition next (uncon : option (Z * udp_pcb)) (x : Z * udp_pcb) : option (Z * udp_pcb) :=
  next_uncon g inp broadcast x.1 x.2 uncon.

Lemma next_some a p b q :
  next (Some (a, p)) (b, q) = if to_all && negb (on_netif inp p) && on_netif inp q then Some (b, q) else Some (a, p).
Proof.
  unfold next, next_uncon, to_all. cbn [fst snd].
  by destruct (broadcast && _), (on_netif inp p), (on_netif inp q).
Qed.

Lemma next_best l : ∀ x, foldl next (Some x) l =
  if to_all && negb (on_netif inp x.2) then
    match find (λ y, on_netif inp y.2) l with Some y => Some y | None => Some x end
  else Some x.
Proof.
  induction l as [|[b q] l IH]; intros [a p]; cbn [foldl find]; [by destruct (_ && negb _)|].
  rewrite next_some. cbn [snd].
  destruct to_all, (on_netif inp p) eqn:Ep, (on_netif inp q) eqn:Eq; cbn [andb negb];
    rewrite IH; cbn [snd]; by rewrite ?Ep, ?Eq.
Qed.

Lemma fold_best l : foldl next None l = best l.
Proof.
  unfold best. destruct l as [|[a p] l]; [by destruct to_all|]. cbn [foldl find head snd].
  change (next None (a, p)) with (Some (a, p)). rewrite next_best. cbn [snd].
  by destruct to_all, (on_netif inp p).
Qed.

Lemma input_loop_spec u l : ∀ fuel hd prev uncon,
  pseg u_next (u_store u) hd l None → (length l < fuel)%nat →
  (∃ l1 a p l2 uc, l = l1 ++ (a, p) :: l2 ∧ find (λ x, full_match x.2) l = Some (a, p) ∧
     input_loop g inp fuel u src dest broadcast hd prev uncon = Ok (Some (a, last_key prev l1), uc)) ∨
  find (λ x, full_match x.2) l = None ∧
  input_loop g inp fuel u src dest broadcast hd prev uncon =
    Ok (None, foldl next uncon (List.filter (λ x, open_match x.2) l)).
Proof.
  induction l as [|[a p] l IH]; intros [|fuel] hd prev uncon Hl Hf; try (simpl in Hf; lia); cbn [pseg] in Hl.
  { subst. by right. }
  destruct Hl as (-> & Ha & Hl). cbn [input_loop find List.filter snd]. unfold pcb_at. rewrite Ha. cbn [oget mbind res_bind].
  change (open_match p) with (local_match p && (Z.land (u_flags p) UDP_FLAGS_CONNECTED =? 0)).
  change (full_match p) with (local_match p &&
    ((remote_port p =? src) && (ip_addr_isany (remote_ip p) || ip_addr_eq (remote_ip p) (current_iphdr_src g)))).
  fold (local_match p).
  destruct (local_match p), (Z.land (u_flags p) UDP_FLAGS_CONNECTED =? 0), ((remote_port p =? src) && _);
    cbn [andb foldl]; try (left; exists [], a, p, l; eexists; split_and!; done);
    match goal with |- context [input_loop _ _ fuel u src dest broadcast (u_next p) (Some a) ?uc] =>
      destruct (IH fuel (u_next p) (Some a) uc Hl) as [(l1 & b & q & l2 & uc' & -> & Hfd & ->)|[Hn ->]];
        [simpl in Hf; lia| |by right]
    end;
    (left; exists ((a, p) :: l1), b, q, l2, uc'; split; [done|]; split; [exact Hfd|]; by rewrite last_key_cons).
Qed.

End search.
