(* ===== verification/UdpCalls.v ===== *)
(** * UDP: what clients do to the control blocks

    The calls of clients, one after the other, on control blocks that are allocated;
    whatever they are, the list stays what the walks need and no two control blocks
    are bound to addresses that exclude each other on one port. *)

From S2P Require Import Prelude Memp SysArch Pbuf LwipDef Chksum LwipMem PbufAlloc Ip4Addr Ip4Frag Ip6Addr Udp Linked UdpProofs.

(** ** Calls *)

(** [UPacket]: the part of [udp_input] that searches the list. *)
Inductive udp_call : Type :=
  | UNew
  | UNewType (type : Z)
  | UBind (pcb : option Z) (ipaddr : option ip_any) (port : Z)
  | UConnect (pcb : option Z) (ipaddr : option ip_any) (port : Z)
  | UBindNetif (pcb : Z) (netif : option Z)
  | UDisconnect (pcb : option Z)
  | USetRecv (pcb recv : option Z) (arg : Z)
  | URemove (pcb : Z)
  | UPacket (g : ip_globals) (inp : netif_in) (src dest : Z) (broadcast : bool).

(** The control block a call is given. *)
Definition call_pcb (c : udp_call) : option Z :=
  match c with
  | UBind p _ _ | UConnect p _ _ | UDisconnect p | USetRecv p _ _ => p
  | UBindNetif p _ | URemove p => Some p
  | UNew | UNewType _ | UPacket _ _ _ _ _ => None
  end.

Section calls.
Context (ip6_route : ip6_addr → ip6_addr → option netif6).

Definition run_call (c : udp_call) (u : udp) : res udp :=
  match c with
  | UNew => '(_, u) ← udp_new u; Ok u
  | UNewType type => '(_, u) ← udp_new_ip_type type u; Ok u
  | UBind p ipaddr port => '(_, u) ← udp_bind ip6_route p ipaddr port u; Ok u
  | UConnect p ipaddr port => '(_, u) ← udp_connect ip6_route p ipaddr port u; Ok u
  | UBindNetif p netif => udp_bind_netif p netif u
  | UDisconnect p => udp_disconnect p u
  | USetRecv p recv arg => udp_recv p recv arg u
  | URemove p => udp_remove p u
  | UPacket g inp src dest broadcast => '(_, _, u) ← demux g inp u src dest broadcast; Ok u
  end.

Fixpoint run_calls (cs : list udp_call) (u : udp) : res udp :=
  match cs with
  | [] => Ok u
  | c :: cs => u ← run_call c u; run_calls cs u
  end.

Definition live (u : udp) (a : option Z) : bool :=
  match a with Some a => is_some (u_store u !! a) | None => true end.

(** Each call is given a control block that is allocated when it is made. *)
Fixpoint calls_live (cs : list udp_call) (u : udp) : bool :=
  match cs with
  | [] => true
  | c :: cs => live u (call_pcb c) && match run_call c u with Ok u => calls_live cs u | Fault _ => true end
  end.

(** The state after [udp_init]. *)
Definition udp_boot (pd : memp_desc) (rnd : Z) : udp :=
  udp_init rnd (Udp ∅ None UDP_LOCAL_PORT_RANGE_START (memp_init_pool pd)).

(** ** The invariant *)

(** Where the control blocks are bound to. *)
Definition ends (st : gmap Z udp_pcb) : gmap Z (ip_any * Z) := (λ p, (local_ip p, local_port p)) <$> st.

Definition exclusive (es : gmap Z (ip_any * Z)) : Prop :=
  ∀ a b e f, es !! a = Some e → es !! b = Some f → a ≠ b → e.2 ≠ 0 → e.2 = f.2 → bind_clash e.1 f.1 = false.

Record udp_ok (pd : memp_desc) (u : udp) (l : list (Z * udp_pcb)) : Prop := UdpOk {
  uo_list : pseg u_next (u_store u) (udp_pcbs u) l None;
  uo_nodup : NoDup l.*1;
  uo_bound : ∀ a e, ends (u_store u) !! a = Some e → (e.2 ≠ 0 ↔ a ∈ l.*1);
  uo_excl : exclusive (ends (u_store u));
  uo_range : in_port_range (udp_port u);
  uo_pool : ∃ out, pool_inv pd (u_pool u) out ∧ ∀ a, a ∈ out ↔ is_Some (u_store u !! a);
}.

Context (pd : memp_desc) (Hpd : desc_ok pd).

Lemma ends_at st a p : st !! a = Some p → ends st !! a = Some (local_ip p, local_port p).
Proof. intros Ha. unfold ends. by rewrite lookup_fmap, Ha. Qed.

Lemma ends_insert st a p : ends (<[a := p]> st) = <[a := (local_ip p, local_port p)]> (ends st).
Proof. unfold ends. by rewrite fmap_insert. Qed.

Lemma ends_same st a p p' :
  st !! a = Some p → local_ip p' = local_ip p → local_port p' = local_port p → ends (<[a := p']> st) = ends st.
Proof. intros Ha Hi Hp. rewrite ends_insert, Hi, Hp. apply insert_id. by apply ends_at. Qed.

Lemma ends_dom st st' : ends st = ends st' → ∀ b, is_Some (st !! b) ↔ is_Some (st' !! b).
Proof.
  intros Hst b. rewrite <- !(fmap_is_Some (λ p, (local_ip p, local_port p))), <- !lookup_fmap.
  fold (ends st) (ends st'). by rewrite Hst.
Qed.

Lemma pool_same (st : gmap Z udp_pcb) a p p' (out : list Z) :
  st !! a = Some p → (∀ b : Z, b ∈ out ↔ is_Some (st !! b)) → ∀ b : Z, b ∈ out ↔ is_Some (<[a := p']> st !! b).
Proof.
  intros Ha Hout b. rewrite Hout. destruct (decide (b = a)) as [->|]; [|by rewrite lookup_insert_ne].
  rewrite lookup_insert_eq, Ha. by split.
Qed.

Lemma uo_elem u l a p : udp_ok pd u l → u_store u !! a = Some p → (local_port p ≠ 0 ↔ a ∈ l.*1).
Proof. intros Hu Ha. apply (uo_bound _ _ _ Hu a _ (ends_at _ _ _ Ha)). Qed.

Lemma uo_listed u l a p : udp_ok pd u l → u_store u !! a = Some p → local_port p ≠ 0 → (a, p) ∈ l.
Proof.
  intros Hu Ha H0. apply (uo_elem _ _ _ _ Hu Ha) in H0. apply list_elem_of_fmap in H0 as ([b q] & Hab & Hin). cbn in Hab.
  subst b. pose proof (pseg_lookup _ _ _ _ _ _ (uo_list _ _ _ Hu) Hin). by assert (q = p) as -> by congruence.
Qed.

Lemma uo_fuel u l : udp_ok pd u l → (length l < udp_fuel u)%nat.
Proof. intros Hu. pose proof (pseg_sizes _ _ _ _ (uo_list _ _ _ Hu) (uo_nodup _ _ _ Hu)). unfold udp_fuel. lia. Qed.

Lemma elem_fst (l : list (Z * udp_pcb)) a : a ∈ l.*1 → ∃ p l1 l2, l = l1 ++ (a, p) :: l2.
Proof.
  intros ([b p] & -> & Hin)%list_elem_of_fmap. apply list_elem_of_split in Hin as (l1 & l2 & ->). by exists p, l1, l2.
Qed.

Lemma pcb_at_at a p u : u_store u !! a = Some p → pcb_at u a = Ok p.
Proof. intros Ha. unfold pcb_at. by rewrite Ha. Qed.

Lemma pcb_mod_at f a p u : u_store u !! a = Some p → pcb_mod f a u = Ok (set_u_store (<[a := f p]> (u_store u)) u).
Proof. intros Ha. unfold pcb_mod, pcb_at. by rewrite Ha. Qed.

(** ** Single changes *)

(** A control block that is not bound may get any address; otherwise it stays where it
    is bound. *)
Lemma ok_field u l a p p' :
  udp_ok pd u l → u_store u !! a = Some p → u_next p' = u_next p → local_port p' = local_port p →
  (local_port p = 0 ∨ local_ip p' = local_ip p) →
  udp_ok pd (set_u_store (<[a := p']> (u_store u)) u) (upd a p' <$> l).
Proof.
  intros [Hl Hn Hb He Hr (out & Hp & Hout)] Ha Hx Hpt Hip. split; cbn; rewrite ?upd_fst.
  - by apply (pseg_upd _ _ _ p).
  - done.
  - intros b e. rewrite ends_insert. intros [(<- & <-)|[? Hbe]]%lookup_insert_Some; [|by apply Hb].
    rewrite <- (Hb a _ (ends_at _ _ _ Ha)). cbn. by rewrite Hpt.
  - destruct Hip as [H0|Hip]; [|by rewrite (ends_same _ _ p)].
    intros b c e f. rewrite ends_insert.
    intros [(<- & <-)|[? Hbe]]%lookup_insert_Some [(<- & <-)|[? Hcf]]%lookup_insert_Some; cbn; try lia; try congruence.
    intros. by eapply (He b c).
  - done.
  - exists out. split; [done|]. by apply (pool_same _ _ p).
Qed.

(** A control block is bound, or bound again. *)
Lemma exclusive_insert es a ip port :
  exclusive es → (∀ b f, es !! b = Some f → b ≠ a → port = f.2 → bind_clash f.1 ip = false) →
  (∀ x y, bind_clash x y = bind_clash y x) → exclusive (<[a := (ip, port)]> es).
Proof.
  intros He Hno Hsym b c e f.
  intros [(<- & <-)|[? Hbe]]%lookup_insert_Some [(<- & <-)|[? Hcf]]%lookup_insert_Some; cbn; intros Hne Hnz Heq; try congruence.
  - rewrite Hsym. by eapply Hno.
  - by eapply Hno.
  - by eapply (He b c).
Qed.

Lemma ip6_addr_eq_sym a b : ip6_addr_eq a b = ip6_addr_eq b a.
Proof.
  unfold ip6_addr_eq, ip6_addr_zoneless_eq. rewrite (Z.eqb_sym (zone a)). f_equal. apply bool_decide_ext. by split.
Qed.

Lemma bind_clash_sym a b : bind_clash a b = bind_clash b a.
Proof.
  unfold bind_clash, ip_addr_eq. rewrite (Z.eqb_sym (any_type b)). unfold is_v6.
  destruct (Z.eqb_spec (any_type a) (any_type b)) as [E|E]; cbn [negb andb].
  - rewrite E, ip6_addr_eq_sym, (Z.eqb_sym (ip4_of b)). rewrite <- !orb_assoc.
    match goal with |- context [if ?c then ?x else ?y] => generalize (if c then x else y) end.
    intros i. destruct i, (ip_addr_isany a), (ip_addr_isany b), (is_any_type a), (is_any_type b); done.
  - by rewrite !orb_false_l, orb_comm.
Qed.

Lemma ip_addr_set_type a : any_type (ip_addr_set a) = any_type a.
Proof. unfold ip_addr_set. by destruct (is_v6 a). Qed.

Lemma bind_clash_set a b : bind_clash a (ip_addr_set b) = bind_clash a b.
Proof.
  unfold bind_clash, ip_addr_isany, ip_addr_eq, is_any_type, is_v6. rewrite ip_addr_set_type.
  destruct (Z.eqb_spec (any_type a) (any_type b)) as [E|E]; cbn [negb andb]; [|done]. rewrite E.
  unfold ip_addr_set, is_v6. by destruct (any_type b =? IPADDR_TYPE_V6).
Qed.

Lemma ok_bind u l a p ip port :
  udp_ok pd u l → u_store u !! a = Some p → port ≠ 0 →
  (∀ b q, u_store u !! b = Some q → b ≠ a → port = local_port q → bind_clash (local_ip q) ip = false) →
  ∃ l', udp_ok pd (let p' := set_u_local (ip_addr_set ip) port p in
                   if decide (a ∈ l.*1) then set_u_store (<[a := p']> (u_store u)) u
                   else set_udp_pcbs (Some a) (set_u_store (<[a := set_u_next (udp_pcbs u) p']> (u_store u)) u)) l' ∧
    a ∈ l'.*1.
Proof.
  intros [Hl Hn Hb He Hr (out & Hp & Hout)] Ha H0 Hno. cbv zeta.
  assert (exclusive (<[a := (ip_addr_set ip, port)]> (ends (u_store u)))) as He'.
  { apply exclusive_insert; [done| |apply bind_clash_sym]. intros b f Hf Hba Hpt. unfold ends in Hf.
    rewrite lookup_fmap in Hf. destruct (u_store u !! b) as [q|] eqn:Eq; [|done]. injection Hf as <-. cbn in *.
    rewrite bind_clash_set. by eapply Hno. }
  destruct (decide (a ∈ l.*1)) as [Hin|Hin].
  - exists (upd a (set_u_local (ip_addr_set ip) port p) <$> l). rewrite upd_fst. split; [|done].
    split; cbn; rewrite ?upd_fst; try done; [by apply (pseg_upd _ _ _ p)| |by rewrite ends_insert|].
    + intros b e. rewrite ends_insert. intros [(<- & <-)|[? Hbe]]%lookup_insert_Some; [done|by apply Hb].
    + exists out. split; [done|]. by apply (pool_same _ _ p).
  - exists ((a, set_u_next (udp_pcbs u) (set_u_local (ip_addr_set ip) port p)) :: l). split; [|left].
    split; cbn; try done; [| | |by rewrite ends_insert|].
    + split; [done|]. split; [by rewrite lookup_insert_eq|]. by apply pseg_insert.
    + by constructor.
    + intros b e. rewrite ends_insert. rewrite elem_of_cons.
      intros [(<- & <-)|[? Hbe]]%lookup_insert_Some; [split; [by left|done]|].
      rewrite (Hb b e Hbe). naive_solver.
    + exists out. split; [done|]. by apply (pool_same _ _ p).
Qed.

(** A control block is allocated. *)
Lemma ok_new u l a p pl out :
  udp_ok pd u l → pool_inv pd (u_pool u) out → a ∉ out → (∀ b, b ∈ out ↔ is_Some (u_store u !! b)) →
  pool_inv pd pl (a :: out) → local_port p = 0 →
  udp_ok pd (set_u_store (<[a := p]> (u_store u)) (set_u_pool pl u)) l.
Proof.
  intros [Hl Hn Hb He Hr _] _ Ha Hout Hpl Hp0.
  assert (u_store u !! a = None) as Hfr by (apply eq_None_not_Some; by rewrite <- Hout).
  assert (a ∉ l.*1) as Hal.
  { intros (q & l1 & l2 & ->)%elem_fst. apply pseg_lookup with (a := a) (p := q) in Hl; [congruence|set_solver]. }
  split; cbn; try done.
  - by apply pseg_insert.
  - intros b e. rewrite ends_insert. intros [(<- & <-)|[? Hbe]]%lookup_insert_Some; [by cbn|by apply Hb].
  - rewrite ends_insert. intros b c e f.
    intros [(<- & <-)|[? Hbe]]%lookup_insert_Some [(<- & <-)|[? Hcf]]%lookup_insert_Some; cbn; intros; try congruence.
    by eapply (He b c).
  - exists (a :: out). split; [done|]. intros b. rewrite elem_of_cons, Hout.
    destruct (decide (b = a)) as [->|Hne].
    + rewrite lookup_insert_eq. split; [done|]. by left.
    + rewrite lookup_insert_ne by done. naive_solver.
Qed.

Lemma udp_new_ok u l :
  udp_ok pd u l → ∃ r u', udp_new u = Ok (r, u') ∧ udp_ok pd u' l ∧
    ∀ a, r = Some a → ∃ p, u_store u' !! a = Some p ∧ local_port p = 0.
Proof.
  intros Hu. pose proof Hu as [Hl Hn Hb He Hr (out & Hp & Hout)]. unfold udp_new.
  pose proof (pool_inv_length _ _ _ Hp) as Hlen. destruct (decide (length out = pd_num pd)) as [E|E].
  - rewrite (do_memp_malloc_empty _ _ _ Hp E). cbn. eexists _, _. split; [done|]. split; [|done].
    split; try done. exists out. split; [by apply stats_fail_inv|done].
  - destruct (do_memp_malloc_gives _ _ _ Hpd Hp ltac:(lia)) as (a & pl & -> & _ & Ha & Hp'). cbn [mbind res_bind].
    eexists _, _. split; [done|]. split; [refine (ok_new u l a _ pl out Hu Hp Ha Hout Hp' _); done|]. intros b [= <-]. eexists. split; [apply lookup_insert_eq|done].
Qed.

Lemma udp_new_ip_type_ok type u l :
  udp_ok pd u l → ∃ r u' l', udp_new_ip_type type u = Ok (r, u') ∧ udp_ok pd u' l'.
Proof.
  intros Hu. unfold udp_new_ip_type. destruct (udp_new_ok u l Hu) as (r & u' & -> & Hu' & Hr). cbn [mbind res_bind].
  destruct r as [a|]; [|by eauto]. destruct (Hr a eq_refl) as (p & Ha & H0). rewrite (pcb_mod_at _ _ p) by done.
  cbn [mbind res_bind]. eexists _, _, _. split; [done|]. eapply ok_field; [done|done|done|done|by left].
Qed.

(** ** Removing *)

Lemma unlink_loop_spec a l : ∀ fuel hd u,
  pseg u_next (u_store u) hd l None → hd ≠ Some a → (length l < fuel)%nat →
  a ∉ l.*1 ∧ unlink_loop fuel a hd u = Ok u ∨
  ∃ l1 b pb p l2, l = l1 ++ (b, pb) :: (a, p) :: l2 ∧
    unlink_loop fuel a hd u = Ok (set_u_store (<[b := set_u_next (u_next p) pb]> (u_store u)) u).
Proof.
  induction l as [|[b pb] l IH]; intros [|fuel] hd u Hl Hh Hf; try (simpl in Hf; lia); cbn [pseg] in Hl.
  { subst. left. split; [apply not_elem_of_nil|done]. }
  destruct Hl as (-> & Hb & Hl). cbn [unlink_loop]. unfold pcb_at. rewrite Hb. cbn [oget mbind res_bind].
  destruct (bool_decide_reflect (u_next pb = Some a)) as [E|E].
  - right. rewrite E in Hl. destruct l as [|[c p] l]; [done|]. destruct Hl as ([= <-] & Ha & Hl).
    exists [], b, pb, p, l. split; [done|]. rewrite Ha. cbn [oget mbind res_bind]. by apply pcb_mod_at.
  - destruct (IH fuel (u_next pb) u Hl E) as [[Hni Hr]|(l1 & c & pc & p & l2 & -> & Hr)]; [simpl in Hf; lia| |].
    + left. split; [|done]. cbn. apply not_elem_of_cons. split; [|done]. congruence.
    + right. exists ((b, pb) :: l1), c, pc, p, l2. done.
Qed.

(** What is left when a control block is out of the list and gone. *)
Lemma ok_remove u l l' st a hd :
  udp_ok pd u l → is_Some (u_store u !! a) → pseg u_next st hd l' None → ends st = ends (u_store u) →
  NoDup l'.*1 → a ∉ l'.*1 → (∀ b, b ≠ a → b ∈ l'.*1 ↔ b ∈ l.*1) →
  ∃ pl, do_memp_free_pool (u_pool u) a = Ok pl ∧
    udp_ok pd (set_u_pool pl (set_u_store (delete a st) (set_udp_pcbs hd u))) l'.
Proof.
  intros [Hl Hn Hb He Hr (out & Hp & Hout)] Ha Hl' Hst Hn' Ha' Hk.
  pose proof (ends_dom _ _ Hst) as Hdom.
  apply Hout in Ha as Hin. apply list_elem_of_split in Hin as (o1 & o2 & ->).
  destruct (do_memp_free_gives _ _ _ _ _ Hpd Hp) as (pl & E & Hp'). exists pl. split; [done|].
  assert (ends (delete a st) = delete a (ends (u_store u))) as Hen by (rewrite <- Hst; apply fmap_delete).
  split; cbn [u_store udp_pcbs udp_port u_pool set_u_pool set_u_store set_udp_pcbs]; try done.
  - eapply pseg_frame; [done|]. intros b Hbl. apply lookup_delete_ne. by intros ->.
  - intros b e. rewrite Hen, lookup_delete_Some. intros [Hab Hbe]. rewrite Hk by done. by apply Hb.
  - rewrite Hen. intros b c e f. rewrite !lookup_delete_Some. intros [? Hbe] [? Hce]. by eapply (He b c).
  - exists (o1 ++ o2). split; [done|]. intros b.
    pose proof (pool_inv_NoDup _ _ _ Hpd Hp) as Hno. rewrite <- Permutation_middle in Hno.
    apply NoDup_cons in Hno as [Hao _]. specialize (Hout b). rewrite <- Permutation_middle, elem_of_cons in Hout.
    destruct (decide (b = a)) as [->|Hne].
    + rewrite lookup_delete_eq. split; [done|]. intros [? [=]].
    + rewrite lookup_delete_ne by done. rewrite Hdom. naive_solver.
Qed.

Lemma udp_remove_ok u l a :
  udp_ok pd u l → is_Some (u_store u !! a) → ∃ u' l', udp_remove a u = Ok u' ∧ udp_ok pd u' l'.
Proof.
  intros Hu Ha. pose proof Hu as [Hl Hn Hb He Hr _]. unfold udp_remove.
  destruct (bool_decide_reflect (udp_pcbs u = Some a)) as [E|E].
  - rewrite E in Hl. destruct l as [|[b p] l]; [done|]. destruct Hl as ([= <-] & Hp & Hl).
    unfold pcb_at. rewrite Hp. cbn [oget mbind res_bind u_pool set_udp_pcbs]. cbn in Hn. apply NoDup_cons in Hn as [Hal Hn].
    destruct (ok_remove u _ l (u_store u) a (u_next p) Hu Ha Hl eq_refl Hn Hal) as (pl & -> & Hok).
    { intros b Hne. cbn. rewrite elem_of_cons. naive_solver. }
    cbn [mbind res_bind]. by eexists _, _.
  - pose proof (uo_fuel _ _ Hu) as Hf.
    destruct (unlink_loop_spec a l (udp_fuel u) _ u Hl E Hf) as [[Hni ->]|(l1 & b & pb & p & l2 & -> & ->)]; cbn [mbind res_bind].
    + destruct (ok_remove u _ l (u_store u) a (udp_pcbs u) Hu Ha Hl eq_refl Hn Hni) as (pl & -> & Hok); [done|].
      cbn [mbind res_bind]. eexists _, _. split; [done|]. destruct u. exact Hok.
    + pose proof (pseg_unlink u_next set_u_next _ _ _ _ _ _ _ _ _ (λ _ _, eq_refl) Hl Hn) as Hl'.
      assert (u_store u !! b = Some pb) as Hpb by (eapply pseg_lookup; [done|set_solver]).
      replace (l1 ++ (b, pb) :: (a, p) :: l2) with ((l1 ++ [(b, pb)]) ++ (a, p) :: l2) in Hn by by rewrite <- app_assoc.
      apply NoDup_mid in Hn as [Hn Hal]. rewrite <- app_assoc in Hn, Hal.
      cbn [u_pool set_u_store].
      destruct (ok_remove u _ (l1 ++ (b, set_u_next (u_next p) pb) :: l2) _ a (udp_pcbs u) Hu Ha Hl') as (pl & -> & Hok).
      * by apply (ends_same _ _ pb).
      * rewrite fmap_app in *. done.
      * rewrite fmap_app in *. done.
      * intros c Hne. rewrite !fmap_app. cbn. rewrite !elem_of_app, !elem_of_cons. naive_solver.
      * cbn [mbind res_bind]. eexists _, _. split; [done|]. destruct u. exact Hok.
Qed.

(** ** Binding *)

Lemma on_list_ok u l a : udp_ok pd u l → on_list (udp_fuel u) u a (udp_pcbs u) = Ok (bool_decide (a ∈ l.*1)).
Proof. intros Hu. apply on_list_spec; [by apply uo_list with (1 := Hu)|by apply uo_fuel]. Qed.

(** Afterwards the control block is on the list, if there was no error. *)
Lemma udp_bind_ok u l a ipaddr port :
  udp_ok pd u l → is_Some (u_store u !! a) →
  ∃ err u' l', udp_bind ip6_route (Some a) ipaddr port u = Ok (err, u') ∧ udp_ok pd u' l' ∧
    is_Some (u_store u' !! a) ∧ (err = ERR_OK ∧ a ∈ l'.*1 ∨ err = ERR_USE).
Proof.
  intros Hu [p Ha]. unfold udp_bind. rewrite (on_list_ok _ l) by done. cbn [mbind res_bind].
  set (ip := zoned _ _ _). pose proof (uo_list _ _ _ Hu) as Hl. pose proof (uo_nodup _ _ _ Hu) as Hn.
  assert (∀ u1 port1, udp_ok pd u1 l → u_store u1 = u_store u → udp_pcbs u1 = udp_pcbs u → port1 ≠ 0 →
    (∀ b q, u_store u !! b = Some q → b ≠ a → port1 = local_port q → bind_clash (local_ip q) ip = false) →
    ∃ err u' l', (u ← pcb_mod (set_u_local (ip_addr_set ip) port1) a u1;
                  u ← (if negb (bool_decide (a ∈ l.*1)) then push_pcb a u else Ok u); Ok (ERR_OK, u)) = Ok (err, u') ∧
      udp_ok pd u' l' ∧ is_Some (u_store u' !! a) ∧ (err = ERR_OK ∧ a ∈ l'.*1 ∨ err = ERR_USE)) as Hok.
  { intros u1 port1 Hu1 Est Eh H0 Hno. rewrite <- Est in Ha, Hno. rewrite (pcb_mod_at _ _ p) by done. cbn [mbind res_bind].
    destruct (ok_bind u1 l a p ip port1 Hu1 Ha H0 Hno) as (l' & Hu' & Hal). cbv zeta in Hu'.
    destruct (decide (a ∈ l.*1)) as [Hin|Hin].
    - rewrite bool_decide_true by done. cbn [negb mbind res_bind]. eexists _, _, l'. split; [done|]. split; [done|].
      cbn [u_store set_u_store]. rewrite lookup_insert_eq. split; [done|by left].
    - rewrite bool_decide_false by done. cbn [negb]. unfold push_pcb.
      rewrite (pcb_mod_at _ _ (set_u_local (ip_addr_set ip) port1 p)) by (cbn; apply lookup_insert_eq).
      cbn [mbind res_bind u_store set_u_store]. rewrite insert_insert_eq. eexists _, _, l'. split; [done|]. split; [exact Hu'|].
      cbn [u_store set_u_store set_udp_pcbs]. rewrite lookup_insert_eq. split; [done|by left]. }
  destruct (Z.eqb_spec port 0) as [->|H0].
  - destruct (udp_new_port_spec u l Hl Hn (uo_range _ _ _ Hu)) as (port & port' & -> & Hr' & Hp). cbn [mbind res_bind].
    assert (udp_ok pd (set_udp_port port' u) l) as Hu' by (destruct Hu; by split).
    destruct Hp as [[Hr Hp]|[-> Hp]].
    + assert (port ≠ 0) as H0 by (unfold in_port_range, UDP_LOCAL_PORT_RANGE_START in Hr; lia).
      rewrite (proj2 (Z.eqb_neq _ _)) by done. cbn [negb]. apply (Hok (set_udp_port port' u)); [done..|]. intros b q Hb _ ->.
      exfalso. unfold port_taken in Hp. rewrite <- not_true_iff_false in Hp. apply Hp. apply existsb_exists.
      exists (b, q). split; [|by apply Z.eqb_eq]. apply list_elem_of_In. by apply (uo_listed u).
    + cbn. eexists _, _, l. split; [done|]. split; [done|]. split; [by exists p|by right].
  - rewrite (bind_check_spec u a ip port l) by (done || by apply uo_fuel). cbn [mbind res_bind].
    destruct (forallb _ l) eqn:Ef; cbn [negb].
    + rewrite forallb_forall in Ef. apply (Hok u); try done. intros b q Hb Hne ->.
      pose proof (uo_listed u l b q Hu Hb H0) as Hin.
      apply list_elem_of_In, Ef in Hin. unfold keeps_off in Hin. cbn in Hin.
      rewrite Z.eqb_refl, (proj2 (Z.eqb_neq a b)) in Hin by congruence. cbn in Hin. by apply negb_true_iff in Hin.
    + eexists _, _, l. split; [done|]. split; [done|]. split; [by exists p|by right].
Qed.

Lemma udp_connect_ok u l a ipaddr port :
  udp_ok pd u l → is_Some (u_store u !! a) →
  ∃ err u' l', udp_connect ip6_route (Some a) ipaddr port u = Ok (err, u') ∧ udp_ok pd u' l'.
Proof.
  intros Hu [p Ha]. unfold udp_connect. destruct ipaddr as [ipaddr|]; [|by eauto].
  rewrite (pcb_at_at _ p) by done. cbn [mbind res_bind].
  assert (∀ u1 l1, udp_ok pd u1 l1 → is_Some (u_store u1 !! a) → a ∈ l1.*1 →
    ∃ err u' l', (p ← pcb_at u1 a;
      u ← pcb_mod (set_u_remote (zoned ip6_route (ip_addr_set ipaddr) (local_ip p)) port
             (Z.lor (u_flags p) UDP_FLAGS_CONNECTED)) a u1;
      there ← on_list (udp_fuel u) u a (udp_pcbs u);
      u ← (if negb there then push_pcb a u else Ok u); Ok (ERR_OK, u)) = Ok (err, u') ∧ udp_ok pd u' l') as Hok.
  { intros u1 l1 Hu1 [q Hq] Hin. rewrite (pcb_at_at _ q) by done. cbn [mbind res_bind].
    rewrite (pcb_mod_at _ _ q) by done. cbn [mbind res_bind]. set (q' := set_u_remote _ _ _ q).
    assert (udp_ok pd (set_u_store (<[a := q']> (u_store u1)) u1) (upd a q' <$> l1)) as Hu'
      by (eapply ok_field; try done; by right).
    rewrite (on_list_ok _ _ a Hu'). rewrite upd_fst, bool_decide_true by done. cbn. by eexists _, _, _. }
  destruct (Z.eqb_spec (local_port p) 0) as [H0|H0].
  - destruct (udp_bind_ok u l a (Some (local_ip p)) 0 Hu) as (err & u1 & l1 & -> & Hu1 & Ha1 & He); [by exists p|].
    cbn [mbind res_bind]. destruct He as [[-> Hin]| ->]; [by apply (Hok u1 l1)|]. cbn. by eexists _, _, _.
  - cbn [mbind res_bind negb]. change (ERR_OK =? ERR_OK) with true. cbn [negb].
    apply (Hok u l Hu); [by exists p|]. by apply (uo_elem _ _ _ _ Hu Ha).
Qed.

(** ** Incoming packets *)

(** The links may be others. *)
Definition only_links (st st' : gmap Z udp_pcb) : Prop :=
  ∀ b q, st !! b = Some q → ∃ n, st' !! b = Some (set_u_next n q).

Lemma only_links_refl st : only_links st st.
Proof. intros b q Hb. exists (u_next q). rewrite Hb. by destruct q. Qed.

Lemma only_links_insert st st' a p n : only_links st st' → st !! a = Some p → only_links st (<[a := set_u_next n p]> st').
Proof.
  intros Hr Ha b q Hb. destruct (decide (b = a)) as [->|]; [|rewrite lookup_insert_ne by done; by apply Hr].
  exists n. rewrite lookup_insert_eq. by assert (q = p) as -> by congruence.
Qed.

Lemma ok_relink u l l' st hd :
  udp_ok pd u l → pseg u_next st hd l' None → ends st = ends (u_store u) → l'.*1 ≡ₚ l.*1 →
  udp_ok pd (set_udp_pcbs hd (set_u_store st u)) l'.
Proof.
  intros [Hl Hn Hb He Hr (out & Hp & Hout)] Hl' Hst Hk.
  split; cbn [u_store udp_pcbs udp_port u_pool set_u_store set_udp_pcbs]; rewrite ?Hst, ?Hk; try done.
  - intros a e Ha. rewrite Hk. by apply Hb.
  - exists out. split; [done|]. intros a. rewrite Hout. symmetry. by apply ends_dom.
Qed.

(** The keys of the list after a packet: the one that matched is the first. *)
Definition order_after g inp src dest broadcast (l : list (Z * udp_pcb)) : list Z :=
  match find (λ x, full_match g inp src dest broadcast x.2) l with
  | Some x => x.1 :: filter (λ b, b ≠ x.1) l.*1
  | None => l.*1
  end.

Lemma demux_ok g inp u l src dest broadcast :
  udp_ok pd u l →
  ∃ notes u' l', demux g inp u src dest broadcast = Ok (receiver g inp src dest broadcast l, notes, u') ∧
    udp_ok pd u' l' ∧ only_links (u_store u) (u_store u') ∧ l'.*1 = order_after g inp src dest broadcast l ∧
    (notes = [] ∨ notes = [UCacheHit]).
Proof.
  intros Hu. pose proof (uo_list _ _ _ Hu) as Hl. pose proof (uo_nodup _ _ _ Hu) as Hn.
  unfold demux, receiver, order_after.
  destruct (input_loop_spec g inp src dest broadcast u l (udp_fuel u) (udp_pcbs u) None None Hl)
    as [(l1 & a & p & l2 & uc & -> & -> & ->)|[-> ->]]; [by apply uo_fuel| |].
  2: { cbn [mbind res_bind]. rewrite fold_best. eexists _, u, l. split_and!; try done; [apply only_links_refl|by left]. }
  cbn [mbind res_bind fst]. rewrite fmap_app, filter_app, fmap_cons. cbn [fst]. rewrite filter_cons_False by naive_solver.
  pose proof (NoDup_mid _ _ _ _ Hn) as [_ Ha]. rewrite fmap_app, not_elem_of_app in Ha. destruct Ha as [Ha1 Ha2].
  rewrite !filter_other by done. unfold last_key. destruct l1 as [|[b pb] l1 _] using rev_ind.
  { eexists _, u, _. split; [done|]. split; [done|]. split; [apply only_links_refl|]. split; [done|by right]. }
  rewrite last_snoc. cbn [fst]. rewrite <- app_assoc in Hl, Hn. cbn [app] in Hl, Hn.
  assert (u_store u !! a = Some p) as Ha by (eapply pseg_lookup; [done|set_solver]).
  assert (u_store u !! b = Some pb) as Hb by (eapply pseg_lookup; [done|set_solver]).
  assert (a ≠ b) as Hab by (intros ->; apply Ha1; rewrite fmap_app; set_solver).
  rewrite (pcb_at_at _ p) by done. cbn [mbind res_bind]. rewrite (pcb_mod_at _ _ pb) by done. cbn [mbind res_bind].
  unfold push_pcb. rewrite (pcb_mod_at _ _ p) by (cbn; by rewrite lookup_insert_ne). cbn [mbind res_bind].
  set (l' := (a, set_u_next (udp_pcbs u) p) :: l1 ++ (b, set_u_next (u_next p) pb) :: l2).
  eexists [], _, l'. split; [done|]. split; [|split; [|split; [|by left]]].
  - apply (ok_relink u ((l1 ++ [(b, pb)]) ++ (a, p) :: l2)).
    + done.
    + split; [done|]. split; [by rewrite lookup_insert_eq|]. cbn [u_next set_u_next]. apply pseg_insert.
      * cbn [u_store set_u_store]. by apply (pseg_unlink u_next set_u_next _ _ _ _ _ a).
      * revert Ha1 Ha2. rewrite !fmap_app. set_solver.
    + cbn [u_store set_u_store udp_pcbs]. rewrite (ends_same _ _ p); [by apply (ends_same _ _ pb)| |done|done].
      by rewrite lookup_insert_ne.
    + unfold l'. rewrite !fmap_cons, !fmap_app, !fmap_cons. cbn.
      rewrite <- app_assoc. cbn [app]. rewrite <- !Permutation_middle. by apply Permutation_swap.
  - cbn [u_store set_u_store set_udp_pcbs]. apply only_links_insert; [|done]. apply only_links_insert; [apply only_links_refl|done].
  - unfold l'. rewrite !fmap_cons, !fmap_app, fmap_cons. cbn. by rewrite <- app_assoc.
Qed.

(** ** Any calls *)

Lemma udp_boot_ok rnd : udp_ok pd (udp_boot pd rnd) [].
Proof.
  split; cbn; try done.
  - apply NoDup_nil_2.
  - unfold in_port_range, UDP_ENSURE_LOCAL_PORT_RANGE, UDP_LOCAL_PORT_RANGE_START, UDP_LOCAL_PORT_RANGE_END.
    change (u16 (Z.lnot 0xc000)) with (Z.ones 14). rewrite Z.land_ones by lia.
    pose proof (Z.mod_pos_bound rnd (2 ^ 14)). rewrite wrapu_small; lia.
  - exists []. split; [by apply memp_init_pool_inv|]. intros a. rewrite lookup_empty. split; [by intros ?%elem_of_nil|].
    by intros [? [=]].
Qed.

Lemma mod_ok u l a f :
  udp_ok pd u l → is_Some (u_store u !! a) → (∀ p, u_next (f p) = u_next p) → (∀ p, local_port (f p) = local_port p) →
  (∀ p, local_ip (f p) = local_ip p) → ∃ u' l', pcb_mod f a u = Ok u' ∧ udp_ok pd u' l'.
Proof.
  intros Hu [p Ha] Hn Hp Hi. rewrite (pcb_mod_at _ _ p) by done. eexists _, _. split; [done|].
  eapply ok_field; [done|done|done|done|by right].
Qed.

Lemma run_call_ok c u l :
  udp_ok pd u l → live u (call_pcb c) = true → ∃ u' l', run_call c u = Ok u' ∧ udp_ok pd u' l'.
Proof.
  intros Hu Hc. assert (∀ a, call_pcb c = Some a → is_Some (u_store u !! a)) as Ha.
  { intros a E. rewrite E in Hc. cbn in Hc. by destruct (u_store u !! a). }
  destruct c as [|type|[a|] ipaddr port|[a|] ipaddr port|a n|[a|]|[a|] recv arg|a|g inp src dest bc]; cbn [run_call call_pcb] in *.
  - destruct (udp_new_ok u l Hu) as (r & u' & -> & Hu' & _). by exists u', l.
  - destruct (udp_new_ip_type_ok type u l Hu) as (r & u' & l' & -> & Hu'). by exists u', l'.
  - destruct (udp_bind_ok u l a ipaddr port Hu (Ha a eq_refl)) as (e & u' & l' & -> & Hu' & _). by exists u', l'.
  - by exists u, l.
  - destruct (udp_connect_ok u l a ipaddr port Hu (Ha a eq_refl)) as (e & u' & l' & -> & Hu'). by exists u', l'.
  - exists u, l. by destruct ipaddr.
  - by apply (mod_ok u l a _ Hu (Ha a eq_refl)).
  - by apply (mod_ok u l a _ Hu (Ha a eq_refl)).
  - by exists u, l.
  - by apply (mod_ok u l a _ Hu (Ha a eq_refl)).
  - by exists u, l.
  - by apply udp_remove_ok with (1 := Hu), Ha.
  - destruct (demux_ok g inp u l src dest bc Hu) as (n & u' & l' & -> & Hu' & _). by exists u', l'.
Qed.

Lemma run_calls_ok cs : ∀ u l,
  udp_ok pd u l → calls_live cs u = true → ∃ u' l', run_calls cs u = Ok u' ∧ udp_ok pd u' l'.
Proof.
  induction cs as [|c cs IH]; intros u l Hu Hc; [by exists u, l|]. cbn [calls_live run_calls] in *.
  apply andb_true_iff in Hc as [Hc Hcs]. destruct (run_call_ok c u l Hu Hc) as (u' & l' & E & Hu').
  rewrite E in *. by apply (IH u' l').
Qed.

End calls.

(** ** Theorem *)

(** C10 (invariant).  Whatever clients do with control blocks that they hold (allocate them,
    bind and connect them to any addresses and ports, set their fields, remove them)
    and whatever packets come in between, no call fails: the list has no cycle and
    holds exactly the control blocks that are bound, the pool accounts for exactly those
    that are allocated, and no two of them are bound to the same port on addresses
    that exclude each other. *)
Theorem udp_ports_exclusive ip6_route pd rnd cs :
  desc_ok pd → calls_live ip6_route cs (udp_boot pd rnd) = true →
  ∃ u l, run_calls ip6_route cs (udp_boot pd rnd) = Ok u ∧
    pseg u_next (u_store u) (udp_pcbs u) l None ∧ NoDup l.*1 ∧
    (∀ a p, u_store u !! a = Some p → (local_port p ≠ 0 ↔ a ∈ l.*1)) ∧
    (∃ out, pool_inv pd (u_pool u) out ∧ ∀ a, a ∈ out ↔ is_Some (u_store u !! a)) ∧
    ∀ a b p q, u_store u !! a = Some p → u_store u !! b = Some q → a ≠ b → local_port p ≠ 0 →
      local_port p = local_port q → bind_clash (local_ip p) (local_ip q) = false.
Proof.
  intros Hpd Hcs.
  destruct (run_calls_ok ip6_route pd Hpd cs _ _ (udp_boot_ok pd Hpd rnd) Hcs) as (u & l & E & Hu).
  exists u, l. split; [done|]. pose proof Hu as [Hl Hn _ He _ Hp]. split_and!; try done.
  - intros a p. by apply (uo_elem pd).
  - intros a b p q Ha Hb. apply (He a b _ _ (ends_at _ _ _ Ha) (ends_at _ _ _ Hb)).
Qed.

(** ** Examples *)

Definition demo_upd : memp_desc := MempDesc 64 8 50000.
Definition v4 (w : Z) : ip_any := IpAny (Ip6 [w; 0; 0; 0] IP6_NO_ZONE) IPADDR_TYPE_V4.
Definition no_route (src dest : ip6_addr) : option netif6 := None.

(** Two addresses on one port, then a third on the first address, which is refused, and
    on the port of any address. *)
Definition demo_udp_calls : list udp_call :=
  [UNew; UNew; UNewType IPADDR_TYPE_ANY; UBind (Some 50448) (Some (v4 0x0100000a)) 53;
   UBind (Some 50384) (Some (v4 0x0200000a)) 53; UBind (Some 50320) (Some (v4 0x0100000a)) 53;
   UConnect (Some 50320) (Some (v4 0x0300000a)) 99; URemove 50448].

Lemma udp_ports_exclusive_witness :
  (u ← run_calls no_route (take 7 demo_udp_calls) (udp_boot demo_upd 77);
   Ok ((λ p, (ip4_of (local_ip p), local_port p)) <$> u_store u)) =
    Ok (<[50448 := (0x0100000a, 53)]> (<[50384 := (0x0200000a, 53)]> {[50320 := (0, 49230)]})) ∧
  ∃ u l, run_calls no_route demo_udp_calls (udp_boot demo_upd 77) = Ok u ∧
    pseg u_next (u_store u) (udp_pcbs u) l None ∧ NoDup l.*1 ∧
    (∀ a p, u_store u !! a = Some p → (local_port p ≠ 0 ↔ a ∈ l.*1)) ∧
    (∃ out, pool_inv demo_upd (u_pool u) out ∧ ∀ a, a ∈ out ↔ is_Some (u_store u !! a)) ∧
    ∀ a b p q, u_store u !! a = Some p → u_store u !! b = Some q → a ≠ b → local_port p ≠ 0 →
      local_port p = local_port q → bind_clash (local_ip p) (local_ip q) = false.
Proof.
  split; [by vm_compute|]. apply (udp_ports_exclusive no_route demo_upd 77 demo_udp_calls); [|by vm_compute].
  split; [done|]. split; [done|]. vm_compute. done.
Defined.

(** When an interface takes an address another one is bound to, the two meet on one
    port after all. *)
Example address_change_meets :
  (u ← run_calls no_route (take 5 demo_udp_calls) (udp_boot demo_upd 77);
   u ← udp_netif_ip_addr_changed (v4 0x0100000a) (v4 0x0200000a) u;
   Ok ((λ p, (ip4_of (local_ip p), local_port p)) <$> u_store u)) =
    Ok (<[50448 := (0x0200000a, 53)]> (<[50384 := (0x0200000a, 53)]> {[50320 := (0, 0)]})).
Proof. by vm_compute. Qed.
