(* ===== verification/UdpInput.v ===== *)
(** * UDP: who gets a packet

    What [udp_input] is to do with a packet is said from the list of control blocks and
    the bytes of the packet alone ([udp_fate]); the function does that, and the buffers
    are the receiver's or are released. *)

From S2P Require Import Prelude Memp SysArch Pbuf PbufPacket PbufWrite PbufCopy LwipDef Chksum LwipMem.
From S2P Require Import LwipMemProofs LwipMemSpec PbufAlloc PbufLife PbufStore PbufClients.
From S2P Require Import Ip4Addr Ip4Frag Ip4FragRun Ip6Addr Udp Linked UdpProofs UdpCalls.

(** ** Specification *)

(** A number of sixteen bits of the packet, in network order. *)
Definition word_at (i : nat) (l : list Z) : Z := 256 * nth i l 0 + nth (S i) l 0.

(** What happens to a packet: it is lost, it is handed to the function of a control
    block with its argument, or the sender is told that nobody is there. *)
Inductive udp_fate_t : Type :=
  | Lost
  | Handed (recv arg pcb : Z)
  | Unreachable.

Section fate.
Context (g : ip_globals) (inp : netif_in).

Definition is_broadcast : bool := ip_addr_isbroadcast (current_iphdr_dest g) (current_netif g).

(** The packet was sent to the address of the interface. *)
Definition directed : bool :=
  if current_is_v6 g then 0 <=? netif_get_ip6_addr_match inp (u_addr (current_iphdr_dest g))
  else nif_ip4 (in_4 inp) =? ip4_of (current_iphdr_dest g).

(** RFC 768: a checksum of zero is none. *)
Definition checksum_right (data : list Z) : bool :=
  (word_at 6 data =? 0) ||
  (rfc_checksum (pseudo_header (chksum_addr (current_iphdr_src g)) (chksum_addr (current_iphdr_dest g)) IP_PROTO_UDP
     (Z.of_nat (length data)) ++ data) =? 0).

(** [first]: the bytes in the first buffer. *)
Definition udp_fate (st : gmap Z udp_pcb) (l : list (Z * udp_pcb)) (first : nat) (data : list Z) : udp_fate_t :=
  if (first <? 8)%nat then Lost
  else
    let rcv := receiver g inp (word_at 0 data) (word_at 2 data) is_broadcast l in
    if negb (is_some rcv || directed) || negb (checksum_right data) then Lost
    else
      match rcv with
      | Some a =>
          match st !! a with
          | Some p => match u_recv p with Some f => Handed f (recv_arg p) a | None => Lost end
          | None => Lost
          end
      | None => if is_broadcast || ip_addr_ismulticast (current_iphdr_dest g) then Lost else Unreachable
      end.

(** What others see of the reports. *)
Definition is_event (n : unote) : bool := match n with UCall _ _ _ _ _ _ | UUnreachable _ => true | _ => false end.

(** The order of the list afterwards. *)
Definition keys_after (l : list (Z * udp_pcb)) (first : nat) (data : list Z) : list Z :=
  if (first <? 8)%nat then l.*1 else order_after g inp (word_at 0 data) (word_at 2 data) is_broadcast l.

Definition fate_events (fate : udp_fate_t) (p src : Z) : list unote :=
  match fate with
  | Lost => []
  | Handed f arg a => [UCall f arg a p (current_iphdr_src g) src]
  | Unreachable => [UUnreachable p]
  end.

End fate.

(** ** Bytes *)

Lemma byte_at (l : list Z) i : Forall is_byte l → is_byte (nth i l 0).
Proof.
  intros Hl. destruct (decide (i < length l)%nat); [|rewrite nth_overflow by lia; unfold is_byte; lia].
  by apply Forall_nth with (l := l).
Qed.

Lemma hdr_field_two l i : (S i < length l)%nat → hdr_field i 2 l = nth i l 0 + 256 * nth (S i) l 0.
Proof.
  intros Hi. unfold hdr_field. revert i Hi. induction l as [|b l IH]; intros [|i] Hi; try (simpl in Hi; lia).
  - destruct l as [|c l]; [simpl in Hi; lia|]. 
    cbn [drop take le_val nth]. rewrite take_0. cbn [le_val]. lia.
  - cbn [drop]. rewrite IH by (simpl in Hi; lia). done.
Qed.

Lemma field_word l i : Forall is_byte l → (S i < length l)%nat → lwip_htons (hdr_field i 2 l) = word_at i l.
Proof.
  intros Hl Hi. rewrite hdr_field_two by done. pose proof (byte_at l i Hl). pose proof (byte_at l (S i) Hl).
  unfold is_byte, word_at in *. rewrite lwip_htons_val by lia.
  rewrite (Z.mul_comm 256 (nth (S i) l 0)), Z.mod_add, Z.div_add by lia. rewrite Z.mod_small, Z.div_small by lia. lia.
Qed.

Lemma field_zero l i : Forall is_byte l → (S i < length l)%nat → (hdr_field i 2 l =? 0) = (word_at i l =? 0).
Proof.
  intros Hl Hi. rewrite hdr_field_two by done. pose proof (byte_at l i Hl). pose proof (byte_at l (S i) Hl).
  unfold is_byte, word_at in *.
  destruct (Z.eqb_spec (nth i l 0 + 256 * nth (S i) l 0) 0), (Z.eqb_spec (256 * nth i l 0 + nth (S i) l 0) 0); done || lia.
Qed.

Lemma hdr_field_take l i k n : (i + k <= n)%nat → hdr_field i k (take n l) = hdr_field i k l.
Proof. intros Hi. unfold hdr_field. by rewrite !take_drop_commute, take_take, Nat.min_l by lia. Qed.

Lemma htons_zero r : 0 <= r < 2 ^ 16 → (r =? 0) = (lwip_htons r =? 0).
Proof.
  intros Hr. rewrite lwip_htons_val by lia. pose proof (Z.div_mod r 256). pose proof (Z.mod_pos_bound r 256).
  pose proof (Z.div_pos r 256). destruct (Z.eqb_spec r 0), (Z.eqb_spec (256 * (r mod 256) + r / 256) 0); done || lia.
Qed.

(** ** The parts of the function *)

Section parts.
Context `{Platform} (self : Z) (g : ip_globals) (inp : netif_in) (ar : arena) (Hao : arena_ok ar).

Lemma drop_packet_ok p notes u s hs :
  sound ar s (p :: hs) → ∃ s', drop_packet self p notes u s = Ok (notes, u, s') ∧ sound ar s' hs.
Proof.
  intros Hs. unfold drop_packet. destruct (pbuf_free_spec ar Hao self s p hs Hs) as (k & s' & -> & Hs' & _).
  by exists s'.
Qed.

Lemma checksum_ok_spec p data hdr tot s m l :
  packet (bufs s) m (Some p) l → content l = data → current_proto g = IP_PROTO_UDP →
  ip_addr_ok (chksum_addr (current_iphdr_src g)) → ip_addr_ok (chksum_addr (current_iphdr_dest g)) →
  (hdr_field 6 2 hdr =? 0) = (word_at 6 data =? 0) → tot = Z.of_nat (length data) →
  checksum_ok g p hdr tot s m = Ok (checksum_right g data).
Proof.
  intros Hp <- Hpr Hs Hd Hf ->. unfold checksum_ok, checksum_right. rewrite Hpr, Hf. change (_ =? IP_PROTO_UDPLITE) with false.
  cbn iota. destruct (word_at 6 (content l) =? 0); [done|]. cbn [orb].
  pose proof (packet_len _ _ _ _ Hp).
  destruct (ip_chksum_pseudo_sum (bufs s) m (Some p) l IP_PROTO_UDP (Z.of_nat (length (content l))) _ _ Hp Hs Hd)
    as (x & -> & Hx); [done|lia|]. cbn [mbind res_bind]. pose proof Hx as (Hb & _).
  rewrite <- (complement_rfc x) by
    (done || (apply Forall_app_2; [apply pseudo_header_bytes; done || lia|by eapply packet_data_bytes])).
  f_equal. apply htons_zero. lia.
Qed.

(** Making room for a header that may not be there. *)
Lemma add_header_sound s a inc force hs :
  is_Some (bufs s !! a) → sound ar s hs →
  ∃ r pb, pbuf_add_header_impl (bufs s) (Some a) inc force = Ok (r, pb) ∧ sound ar (set_bufs pb s) hs.
Proof.
  intros [h Ha] Hs. pose proof Hs as [Hc Hac]. unfold pbuf_add_header_impl. rewrite Ha.
  assert (sound ar (set_bufs (bufs s) s) hs) as Hid by (by destruct s).
  destruct (_ <? inc); [by eexists _, _|]. destruct (inc =? 0); [by eexists _, _|].
  cbn [oget mbind res_bind]. destruct (_ <? _); [by eexists _, _|].
  destruct (if negb _ then _ else _); [by eexists _, _|].
  eexists _, _. split; [done|]. split.
  - by apply (counted_field _ _ a h).
  - apply accounted_same; [done|]. by apply (same_src_insert _ _ h).
Qed.

Lemma receiver_in src dest bc l a : receiver g inp src dest bc l = Some a → ∃ p, (a, p) ∈ l.
Proof.
  unfold receiver. destruct (find _ l) as [[b p]|] eqn:E.
  - intros [= <-]. apply find_some in E as [E _]. exists p. by apply list_elem_of_In.
  - clear E. set (o := List.filter _ l). assert (∀ x, x ∈ o → x ∈ l) as Ho.
    { intros x Hx. apply list_elem_of_In, filter_In in Hx as [Hx _]. by apply list_elem_of_In. }
    unfold best. intros Hr.
    assert (∃ x, a = fst x ∧ x ∈ o) as ([b p] & -> & Hx); [|exists p; by apply Ho].
    destruct (to_all _ _); [destruct (find _ o) as [x|] eqn:Ef|].
    + exists x. split; [by injection Hr|]. apply find_some in Ef as [Ef _]. by apply list_elem_of_In.
    + destruct o as [|x o']; [done|]. exists x. split; [by injection Hr|left].
    + destruct o as [|x o']; [done|]. exists x. split; [by injection Hr|left].
Qed.

(** What the packet looks like to its receiver. *)
Definition stripped (ps : pbufs) (m : gmap Z Z) (p : Z) (data : list Z) : Prop :=
  ∃ l, packet (bufs ps) m (Some p) l ∧ content l = drop 8 data.

Lemma hand_over_ok p h d1 rest src bc pcb notes u s m hs :
  packet (bufs s) m (Some p) (Node p h d1 :: rest) → (8 <= length d1)%nat → sound ar s (p :: hs) →
  0 <= current_ip_header_tot_len g < 0x7ff0 → (∀ a, pcb = Some a → is_Some (u_store u !! a)) →
  List.filter is_event notes = [] →
  let fate := match pcb with
              | Some a => match u_store u !! a with
                          | Some pc => match u_recv pc with Some f => Handed f (recv_arg pc) a | None => Lost end
                          | None => Lost
                          end
              | None => if bc || ip_addr_ismulticast (current_iphdr_dest g) then Lost else Unreachable
              end in
  ∃ notes' s', hand_over self g p src bc pcb notes u s = Ok (notes', u, s') ∧
    List.filter is_event notes' = fate_events g fate p src ∧
    match fate with
    | Handed _ _ _ => sound ar s' (p :: hs) ∧ stripped s' m p (d1 ++ content rest)
    | _ => sound ar s' hs
    end.
Proof.
  intros Hp Hd1 Hs Htl Hpcb Hev. cbv zeta. unfold hand_over.
  destruct (pbuf_remove_header_spec _ _ _ _ _ _ 8 Hp Hd1) as (pb & h' & E & Hp' & _).
  change (Z.of_nat 8) with UDP_HLEN in E. assert (bufs s !! p = Some h) as Hh by (by inversion Hp).
  pose proof (remove_header_sound ar s p h _ _ _ _ Hh E Hs) as Hs'. rewrite E. cbn [mbind res_bind Z.eqb lwip_assert].
  destruct pcb as [a|].
  - destruct (Hpcb a eq_refl) as [pc Ha]. rewrite (pcb_at_at _ pc) by done. rewrite Ha. cbn [mbind res_bind].
    destruct (u_recv pc) as [f|].
    + eexists _, _. split; [done|]. rewrite List.filter_app, Hev. split; [done|]. split; [done|].
      exists (Node p h' (drop 8 d1) :: rest). split; [exact Hp'|]. rewrite content_cons, drop_app_le by done. done.
    + destruct (drop_packet_ok p (notes ++ [UInDatagrams]) u _ hs Hs') as (s' & -> & Hs2).
      eexists _, s'. split; [done|]. rewrite List.filter_app, Hev. done.
  - rewrite <- negb_orb. destruct (bc || _); cbn [negb].
    + cbn [mbind res_bind app].
      destruct (drop_packet_ok p (notes ++ [UProtErr; UDrop; UNoPorts]) u _ hs Hs') as (s' & -> & Hs2).
      eexists _, s'. split; [done|]. rewrite List.filter_app, Hev. done.
    + unfold pbuf_header_force, pbuf_header_impl. change UDP_HLEN with 8.
      rewrite wraps_small by (change (2 ^ (16 - 1)) with 0x8000; lia). rewrite (proj2 (Z.ltb_ge _ _)) by lia. cbn [bufs set_bufs].
      destruct (add_header_sound (set_bufs pb s) p (usize (current_ip_header_tot_len g + 8)) true (p :: hs))
        as (r & pb2 & E2 & Hs2); [|done|].
      { cbn [bufs set_bufs]. exists h'. by inversion Hp'. }
      cbn [bufs set_bufs] in E2. rewrite E2. cbn [mbind res_bind].
      destruct (drop_packet_ok p (notes ++ [UUnreachable p] ++ [UProtErr; UDrop; UNoPorts]) u _ hs Hs2) as (s' & -> & Hs3).
      eexists _, s'. split; [done|]. rewrite List.filter_app, Hev. done.
Qed.

End parts.

(** ** The whole function *)

Lemma udp_input_ok `{Platform} self g inp ar pd u L p h d1 rest s m hs :
  desc_ok pd → arena_ok ar → udp_ok pd u L → sound ar s (p :: hs) →
  packet (bufs s) m (Some p) (Node p h d1 :: rest) → current_proto g = IP_PROTO_UDP →
  ip_addr_ok (chksum_addr (current_iphdr_src g)) → ip_addr_ok (chksum_addr (current_iphdr_dest g)) →
  0 <= current_ip_header_tot_len g < 0x7ff0 →
  let data := d1 ++ content rest in
  let fate := udp_fate g inp (u_store u) L (length d1) data in
  ∃ notes u' L' s', udp_input self g inp p u s m = Ok (notes, u', s') ∧
    List.filter is_event notes = fate_events g fate p (word_at 0 data) ∧
    udp_ok pd u' L' ∧ L'.*1 = keys_after g inp L (length d1) data ∧ only_links (u_store u) (u_store u') ∧
    match fate with
    | Handed _ _ _ => sound ar s' (p :: hs) ∧ stripped s' m p data
    | _ => sound ar s' hs
    end.
Proof.
  intros Hpd Hao Hu Hs Hp Hpr Hsrc Hdst Htl data fate. unfold udp_input.
  inversion Hp as [|a0 h0 s0 l0 Hh Hlen Hread Hby Htot Hmax Hrest]; subst.
  unfold buf_at. rewrite Hh. cbn [oget mbind res_bind]. rewrite Hlen. unfold fate, udp_fate, keys_after.
  destruct (Nat.ltb_spec (length d1) 8) as [Hl|Hl].
  { rewrite (proj2 (Z.ltb_lt _ _)) by (unfold UDP_HLEN; lia).
    destruct (drop_packet_ok self ar Hao p [URecv; ULenErr; UDrop; UInErrors] u s hs Hs) as (s' & -> & Hs').
    exists [URecv; ULenErr; UDrop; UInErrors], u, L, s'. split_and!; try done. apply only_links_refl. }
  rewrite (proj2 (Z.ltb_ge _ _)) by (unfold UDP_HLEN; lia).
  pose proof (mread_sub _ _ _ _ 0 8 Hread ltac:(lia)) as Hrd. rewrite Z.add_0_r, drop_0 in Hrd. rewrite Hrd.
  cbn [mbind res_bind]. rewrite !hdr_field_take by lia.
  assert (Forall is_byte data) as Hbd by (apply (packet_data_bytes _ _ _ _ Hp)).
  assert (∀ i, (S i < length d1)%nat → hdr_field i 2 d1 = hdr_field i 2 data) as Hf.
  { intros i Hi. unfold data. rewrite <- (hdr_field_take (d1 ++ content rest) i 2 (length d1)) by lia. by rewrite take_app_length. }
  rewrite !Hf by lia. assert (∀ i, (S i < length d1)%nat → (S i < length data)%nat) as Hld
    by (intros; unfold data; rewrite length_app; lia).
  rewrite !field_word by (done || (apply Hld; lia)). fold (is_broadcast g).
  destruct (demux_ok pd Hpd g inp u L (word_at 0 data) (word_at 2 data) (is_broadcast g) Hu)
    as (n & u' & L' & -> & Hu' & Hre & Hk & Hn). cbn [mbind res_bind]. fold (directed g inp).
  set (rcv := receiver _ _ _ _ _ L). assert (List.filter is_event (URecv :: n) = []) as Hev by (by destruct Hn as [-> | ->]).
  assert (∀ n', List.filter is_event n' = [] → ∃ notes u'' L' s', drop_packet self p n' u' s = Ok (notes, u'', s') ∧
    List.filter is_event notes = fate_events g Lost p (word_at 0 data) ∧
    udp_ok pd u'' L' ∧ L'.*1 = order_after g inp (word_at 0 data) (word_at 2 data) (is_broadcast g) L ∧
    only_links (u_store u) (u_store u'') ∧ sound ar s' hs) as Hlost.
  { intros n' Hn'. destruct (drop_packet_ok self ar Hao p n' u' s hs Hs) as (s' & -> & Hs'). by exists n', u', L', s'. }
  destruct (is_some rcv || directed g inp) eqn:Efu; cbn [negb orb]; [|by apply Hlost].
  rewrite (checksum_ok_spec g p data (take 8 d1) _ _ _ _ Hp) by (done || (rewrite hdr_field_take, Hf by lia; apply field_zero; [done|apply Hld; lia])).
  cbn [mbind res_bind]. destruct (checksum_right g data); cbn [negb]; [|apply Hlost; by rewrite List.filter_app, Hev].
  assert (∀ a, rcv = Some a → ∃ pc, u_store u !! a = Some pc) as Hin.
  { intros a Ha. apply receiver_in in Ha as [pc Ha]. exists pc. eapply pseg_lookup; [apply (uo_list _ _ _ Hu)|done]. }
  destruct (hand_over_ok self g ar Hao p h d1 rest (word_at 0 data) (is_broadcast g) rcv (URecv :: n) u' s m hs Hp)
    as (n' & s' & -> & Hev' & Hs'); try done.
  { intros a Ha. destruct (Hin a Ha) as [pc Hpc]. destruct (Hre _ _ Hpc) as [x Hx]. by exists (set_u_next x pc). }
  exists n', u', L', s'. split; [done|]. revert Hev' Hs'. destruct rcv as [a|]; [|done].
  destruct (Hin a eq_refl) as [pc Hpc]. destruct (Hre _ _ Hpc) as [x Hx]. rewrite Hx, Hpc. cbn [u_recv set_u_next recv_arg].
  intros. by split_and!.
Qed.

(** ** Theorem *)

(** C9 (functional).  A UDP packet over the list of control blocks [L]: one whose first
    buffer has no header, that is for nobody here or whose checksum (RFC 1071, over the
    pseudo header) is neither zero nor right is lost; otherwise it goes to the first
    control block bound to its destination and to its sender, or to the first one that is
    not connected (for a packet to all stations one on the address of the interface, if
    there is one), without its header; if there is none the sender is told, but not of
    a broadcast or multicast.  The control block that matched both ends becomes the first
    of the list, which otherwise stays as it was; all buffers of a packet that is
    not handed over are released. *)
Theorem udp_input_delivers `{Platform} self g inp ar pd u L p h d1 rest s m hs :
  desc_ok pd → arena_ok ar → udp_ok pd u L → sound ar s (p :: hs) →
  packet (bufs s) m (Some p) (Node p h d1 :: rest) → current_proto g = IP_PROTO_UDP →
  ip_addr_ok (chksum_addr (current_iphdr_src g)) → ip_addr_ok (chksum_addr (current_iphdr_dest g)) →
  0 <= current_ip_header_tot_len g < 0x7ff0 →
  let data := d1 ++ content rest in
  let fate := udp_fate g inp (u_store u) L (length d1) data in
  ∃ notes u' L' s', udp_input self g inp p u s m = Ok (notes, u', s') ∧
    List.filter is_event notes = fate_events g fate p (word_at 0 data) ∧
    udp_ok pd u' L' ∧ L'.*1 = keys_after g inp L (length d1) data ∧ only_links (u_store u) (u_store u') ∧
    match fate with
    | Handed _ _ _ => sound ar s' (p :: hs) ∧ stripped s' m p data
    | _ => sound ar s' hs
    end.
Proof. apply udp_input_ok. Qed.

(** ** A packet for a control block on port 53 of all addresses *)

Definition demo_seg : list Z := [4; 210; 0; 53; 0; 12; 226; 198; 1; 2; 3; 4].
Definition demo_umem : gmap Z Z := list_to_map (zip (seqZ 20584 12) demo_seg).

Definition demo_nif : netif_in := NetifIn 0 (Netif4 2 0x0200000a 0x00ffffff) [].
Definition demo_ip : ip_globals := IpGlobals demo_nif demo_nif false IP_PROTO_UDP 20 (v4 0x0100000a) (v4 0x0200000a).

Definition demo_upcb : udp_pcb := UdpPcb (v4 0) (v4 0) 0 255 None 0 53 0 255 (Some 7) 8.

Definition demo_socket : list udp_call :=
  [UNew; UBind (Some 50448) None 53; USetRecv (Some 50448) (Some 7) 8].

Lemma demo_socket_ok :
  ∃ u, run_calls no_route demo_socket (udp_boot demo_upd 77) = Ok u ∧ udp_ok demo_upd u [(50448, demo_upcb)].
Proof.
  assert (desc_ok demo_upd) as Hpd by (split; [done|]; split; [done|]; vm_compute; done).
  destruct (run_calls_ok no_route demo_upd Hpd demo_socket _ _ (udp_boot_ok demo_upd Hpd 77)) as (u & l & E & Hu);
    [by vm_compute|].
  exists u. split; [done|]. vm_compute in E. injection E as <-. pose proof (uo_list _ _ _ Hu) as Hl.
  destruct l as [|[a p] l]; [done|]. destruct Hl as ([= <-] & Hp & Hl). vm_compute in Hp. injection Hp as <-.
  destruct l as [|[b q] l]; [exact Hu|]. by destruct Hl.
Qed.

(** A packet with these bytes is allocated from the pool. *)
Definition demo_ubufs : option pbufs :=
  match mem_init 4096 true with
  | Ok hp =>
      match @lrun linux64 demo_arena [LAlloc 1 true 0 12 PBUF_POOL] (pbufs_init demo_arena hp ∅) [] with
      | Some (Ok (ps, _)) => Some ps
      | _ => None
      end
  | Fault _ => None
  end.

Definition demo_ubuf : pbuf := Pbuf None 20584 12 12 130 0 1 0.

Lemma demo_ubufs_ok :
  ∃ s, demo_ubufs = Some s ∧ sound demo_arena s [20560] ∧
    packet (bufs s) demo_umem (Some 20560) [Node 20560 demo_ubuf demo_seg].
Proof.
  unfold demo_ubufs. destruct (mem_init_inv 4096) as (hp & Ei & Hram & HI). rewrite Ei.
  vm_compute in Ei. injection Ei as <-.
  destruct (@lrun _ _ _ _ _) as [r|] eqn:Er; [|by vm_compute in Er].
  destruct (@lrun_sound linux64 demo_arena demo_arena_ok _ _ _ _ (pbufs_init_sound demo_arena _ ∅ demo_arena_ok Hram HI) Er)
    as (ps & hs & -> & Hs).
  assert (hs = [20560]) as -> by (vm_compute in Er; by injection Er as _ <-).
  eexists. split; [reflexivity|]. split; [exact Hs|].
  assert (bufs ps !! 20560 = Some demo_ubuf) as Hb by (vm_compute in Er; by injection Er as <-).
  constructor; try done; try (by vm_compute); [|constructor].
  apply (bool_decide_unpack _). vm_compute. exact I.
Qed.

Lemma udp_input_delivers_witness :
  ∃ u s, udp_fate demo_ip demo_nif (u_store u) [(50448, demo_upcb)] 12 demo_seg = Handed 7 8 50448 ∧
    ∃ notes u' L' s', @udp_input linux64 1 demo_ip demo_nif 20560 u s demo_umem = Ok (notes, u', s') ∧
      List.filter is_event notes = [UCall 7 8 50448 20560 (v4 0x0100000a) 1234] ∧
      udp_ok demo_upd u' L' ∧ L'.*1 = [50448] ∧ only_links (u_store u) (u_store u') ∧
      sound demo_arena s' [20560] ∧ stripped s' demo_umem 20560 demo_seg.
Proof.
  destruct demo_socket_ok as (u & Eu & Hu). destruct demo_ubufs_ok as (s & Es & Hs & Hp). exists u, s.
  assert (udp_fate demo_ip demo_nif (u_store u) [(50448, demo_upcb)] 12 demo_seg = Handed 7 8 50448) as Ef
    by (vm_compute in Eu; injection Eu as <-; by vm_compute).
  split; [exact Ef|].
  destruct (@udp_input_delivers linux64 1 demo_ip demo_nif demo_arena demo_upd u [(50448, demo_upcb)] 20560 demo_ubuf
    demo_seg [] s demo_umem []) as (notes & u' & L' & s' & E & He & Hu' & Hk & Hre & Hf); try done.
  - exact demo_arena_ok.
  - split; [done|]. by repeat constructor.
  - split; [done|]. by repeat constructor.
  - change (demo_seg ++ content []) with demo_seg in *. change (length demo_seg) with 12%nat in *. rewrite Ef in He, Hf.
    exists notes, u', L', s'. split; [exact E|]. split; [exact He|]. split; [exact Hu'|]. split; [exact Hk|].
    split; [exact Hre|]. exact Hf.
Defined.
