(* ===== verification/RawProofs.v ===== *)
(** * Raw control blocks: who is offered a packet

    The list holds the control blocks that are allocated, whatever clients do; a packet
    is offered to those it matches, in the order of the list, until one takes it. *)

From S2P Require Import Prelude Memp SysArch Pbuf PbufPacket LwipDef LwipMem PbufAlloc Ip4Addr Ip4Frag Ip6Addr Udp Raw Linked.

(** ** The invariant *)

Record raw_ok (pd : memp_desc) (w : raws) (l : list (Z * raw_pcb)) : Prop := RawOk {
  wo_list : pseg w_next (w_store w) (raw_pcbs w) l None;
  wo_nodup : NoDup l.*1;
  wo_all : ∀ a, is_Some (w_store w !! a) ↔ a ∈ l.*1;
  wo_pool : ∃ out, pool_inv pd (w_pool w) out ∧ ∀ a, a ∈ out ↔ a ∈ l.*1;
}.

Lemma raw_at_at a p w : w_store w !! a = Some p → raw_at w a = Ok p.
Proof. intros Ha. unfold raw_at. by rewrite Ha. Qed.

Lemma raw_mod_at f a p w : w_store w !! a = Some p → raw_mod f a w = Ok (Raws (<[a := f p]> (w_store w)) (raw_pcbs w) (w_pool w)).
Proof. intros Ha. unfold raw_mod. by rewrite (raw_at_at _ p). Qed.

Lemma wo_fuel pd w l : raw_ok pd w l → (length l < raw_fuel w)%nat.
Proof. intros Hw. pose proof (pseg_sizes _ _ _ _ (wo_list _ _ _ Hw) (wo_nodup _ _ _ Hw)). unfold raw_fuel. lia. Qed.

(** Another list of the same control blocks, through new links. *)
Lemma raw_relist pd w l l' st hd :
  raw_ok pd w l → pseg w_next st hd l' None → l'.*1 ≡ₚ l.*1 → (∀ a, is_Some (st !! a) ↔ is_Some (w_store w !! a)) →
  raw_ok pd (Raws st hd (w_pool w)) l'.
Proof.
  intros [Hl Hn Ha (out & Hp & Ho)] Hl' Hk Hst. split; cbn; [done|by rewrite Hk| |].
  - intros a. by rewrite Hst, Ha, Hk.
  - exists out. split; [done|]. intros a. by rewrite Ho, Hk.
Qed.

Lemma is_Some_change {V} (st : gmap Z V) a p p' : st !! a = Some p → ∀ b, is_Some (<[a := p']> st !! b) ↔ is_Some (st !! b).
Proof.
  intros Ha b. destruct (decide (b = a)) as [->|]; [|by rewrite lookup_insert_ne].
  rewrite lookup_insert_eq, Ha. by split.
Qed.

(** ** Calls of clients *)

Section calls.
Context (pd : memp_desc) (Hpd : desc_ok pd).

Lemma raw_mod_ok w l f a :
  raw_ok pd w l → a ∈ l.*1 → (∀ p, w_next (f p) = w_next p) → ∃ w', raw_mod f a w = Ok w' ∧ ∃ l', raw_ok pd w' l' ∧ l'.*1 = l.*1.
Proof.
  intros Hw Ha Hf. apply (wo_all _ _ _ Hw) in Ha as [p Ha]. rewrite (raw_mod_at _ _ p) by done. eexists. split; [done|].
  exists (upd a (f p) <$> l). rewrite upd_fst. split; [|done]. apply (raw_relist pd w l); [done| |by rewrite upd_fst|].
  - apply (pseg_upd _ _ _ p); [done|done|]. by destruct Hw.
  - by apply (is_Some_change _ _ p).
Qed.

Lemma raw_new_ok w l proto :
  raw_ok pd w l → ∃ r w' l', raw_new proto w = Ok (r, w') ∧ raw_ok pd w' l' ∧
    match r with Some a => l'.*1 = a :: l.*1 | None => l' = l ∧ length l = pd_num pd end.
Proof.
  intros Hw. pose proof Hw as [Hl Hn Ha (out & Hp & Ho)]. unfold raw_new.
  assert (out ≡ₚ l.*1) as Hperm by (apply NoDup_Permutation; [by apply (pool_inv_NoDup _ _ _ Hpd Hp)|done|done]).
  pose proof (pool_inv_length _ _ _ Hp) as Hlen. destruct (decide (length out = pd_num pd)) as [E|E].
  - rewrite (do_memp_malloc_empty _ _ _ Hp E). cbn. eexists _, _, l. split; [done|]. split.
    + split; try done. exists out. split; [by apply stats_fail_inv|done].
    + split; [done|]. rewrite <- E, Hperm. by rewrite length_fmap.
  - destruct (do_memp_malloc_gives _ _ _ Hpd Hp ltac:(lia)) as (a & pl & -> & _ & Hao & Hp'). cbn [mbind res_bind].
    assert (a ∉ l.*1) as Hal by (by rewrite <- Ho).
    set (p := RawPcb _ _ _ _ _ _ _ _ _ _). eexists _, _, ((a, p) :: l). split; [done|]. split; [|done].
    split; cbn [w_store raw_pcbs w_pool].
    + split; [done|]. split; [by rewrite lookup_insert_eq|]. by apply pseg_insert.
    + by constructor.
    + intros b. cbn. rewrite elem_of_cons, <- Ha. destruct (decide (b = a)) as [->|].
      * rewrite lookup_insert_eq. split; [by left|done].
      * rewrite lookup_insert_ne by done. naive_solver.
    + exists (a :: out). split; [done|]. intros b. cbn. rewrite !elem_of_cons, Ho. done.
Qed.

Lemma raw_unlink_spec a p l2 l1 : ∀ fuel hd w,
  pseg w_next (w_store w) hd (l1 ++ (a, p) :: l2) None → hd ≠ Some a → (length (l1 ++ (a, p) :: l2) < fuel)%nat →
  NoDup (l1 ++ (a, p) :: l2).*1 →
  ∃ l0 b pb, l1 = l0 ++ [(b, pb)] ∧ raw_unlink_loop fuel a hd w = raw_mod (set_w_next (w_next p)) b w.
Proof.
  induction l1 as [|[b pb] l1 IH]; intros [|fuel] hd w Hl Hh Hf Hn; try (simpl in Hf; lia); cbn [app pseg] in Hl.
  { by destruct Hl as [-> _]. }
  destruct Hl as (-> & Hb & Hl). cbn [raw_unlink_loop]. rewrite (raw_at_at b pb w Hb). cbn [mbind res_bind].
  cbn [app] in Hn. apply NoDup_cons in Hn as [Hnb Hn].
  destruct (bool_decide_reflect (w_next pb = Some a)) as [E|E].
  - destruct l1 as [|[c pc] l1].
    + destruct Hl as (_ & Ha & _). exists [], b, pb. split; [done|]. by rewrite (raw_at_at _ p).
    + exfalso. cbn [app pseg] in Hl. destruct Hl as (E2 & _). cbn in Hn. apply NoDup_cons in Hn as [Hc _].
      assert (c = a) as -> by congruence. apply Hc. apply list_elem_of_fmap. exists (a, p). split; [done|]. set_solver.
  - destruct (IH fuel (w_next pb) w Hl E) as (l0 & c & pc & -> & ->); [simpl in Hf; lia|done|].
    by exists ((b, pb) :: l0), c, pc.
Qed.

Lemma raw_remove_ok w l a :
  raw_ok pd w l → a ∈ l.*1 → ∃ w' l', raw_remove a w = Ok w' ∧ raw_ok pd w' l' ∧ l'.*1 = filter (λ b, b ≠ a) l.*1.
Proof.
  intros Hw Hin. pose proof Hw as [Hl Hn Hall (out & Hp & Ho)].
  pose proof Hin as Hin2. apply list_elem_of_fmap in Hin2 as ([a' p] & -> & Hin2). cbn [fst] in *. rename a' into a.
  apply list_elem_of_split in Hin2 as (l1 & l2 & ->). pose proof (NoDup_mid _ _ _ _ Hn) as [Hn' Ha'].
  assert (∃ pl, do_memp_free_pool (w_pool w) a = Ok pl ∧ ∃ out', pool_inv pd pl out' ∧ ∀ b, b ∈ out' ↔ b ∈ (l1 ++ l2).*1) as (pl & Efree & Hpool).
  { apply Ho in Hin. apply list_elem_of_split in Hin as (o1 & o2 & ->).
    destruct (do_memp_free_gives _ _ _ _ _ Hpd Hp) as (pl & E & Hp'). exists pl. split; [done|]. exists (o1 ++ o2).
    split; [done|]. intros b. specialize (Ho b). rewrite <- Permutation_middle, elem_of_cons in Ho.
    pose proof (pool_inv_NoDup _ _ _ Hpd Hp) as Hno. rewrite <- Permutation_middle in Hno. apply NoDup_cons in Hno as [Hao _].
    rewrite fmap_app, fmap_cons, <- Permutation_middle, elem_of_cons, <- fmap_app in Ho. cbn [fst] in Ho.
    destruct (decide (b = a)) as [->|]; naive_solver. }
  assert (∀ st hd l', pseg w_next st hd l' None → l'.*1 = (l1 ++ l2).*1 → (∀ b, is_Some (st !! b) ↔ is_Some (w_store w !! b)) →
    raw_ok pd (Raws (delete a st) hd pl) l') as Hok.
  { intros st hd l' Hl' Hk Hst. split; cbn [w_store raw_pcbs w_pool].
    - eapply pseg_frame; [done|]. intros b Hb. apply lookup_delete_ne. intros ->. by rewrite Hk in Hb.
    - by rewrite Hk.
    - intros b. rewrite Hk. destruct (decide (b = a)) as [->|].
      + rewrite lookup_delete_eq. split; [by intros [? [=]]|done].
      + rewrite lookup_delete_ne, Hst, Hall, !fmap_app, fmap_cons by done. set_solver.
    - destruct Hpool as (out' & Hp' & Ho'). exists out'. split; [done|]. intros b. by rewrite Hk. }
  assert (filter (λ b, b ≠ a) (l1 ++ (a, p) :: l2).*1 = (l1 ++ l2).*1) as ->.
  { rewrite !fmap_app, fmap_cons, filter_app in *. cbn [fst] in *. rewrite filter_cons_False by naive_solver.
    rewrite not_elem_of_app in Ha'. rewrite !filter_other by tauto. done. }
  unfold raw_remove. destruct (bool_decide_reflect (raw_pcbs w = Some a)) as [E|E].
  - destruct l1 as [|[b pb] l1].
    + destruct Hl as (_ & Ha & Hl). rewrite (raw_at_at _ p) by done. cbn [mbind res_bind set_raw_pcbs w_pool].
      rewrite Efree. cbn [mbind res_bind]. eexists _, l2. split; [done|]. split; [|done]. by apply Hok.
    + exfalso. destruct Hl as (E2 & _). assert (b = a) as -> by congruence. apply Ha'. left.
  - destruct (raw_unlink_spec a p l2 l1 (raw_fuel w) _ w Hl E) as (l0 & b & pb & -> & ->); [by apply (wo_fuel _ _ _ Hw)|done|].
    assert (w_store w !! b = Some pb) as Hb by (eapply pseg_lookup; [done|set_solver]).
    rewrite (raw_mod_at _ _ pb) by done. cbn [mbind res_bind w_pool]. rewrite Efree. cbn [mbind res_bind].
    rewrite <- app_assoc in Hl, Hn. cbn [app] in Hl, Hn.
    pose proof (pseg_unlink w_next set_w_next _ _ _ _ _ a p _ _ (λ _ _, eq_refl) Hl Hn) as Hl'.
    assert ((l0 ++ (b, set_w_next (w_next p) pb) :: l2).*1 = ((l0 ++ [(b, pb)]) ++ l2).*1) as Ek
      by (rewrite !fmap_app, fmap_cons; cbn; by rewrite <- app_assoc).
    eexists _, (l0 ++ (b, set_w_next (w_next p) pb) :: l2). split; [done|]. split; [|done].
    apply Hok; [done|done|]. by apply (is_Some_change _ _ pb).
Qed.

End calls.

(** ** Incoming packets *)

Section input.
Context (g : ip_globals) (eats : offer → bool) (proto : Z) (broadcast : bool).

(** Bound to where the packet goes, and connected, if at all, to where it comes from. *)
Definition raw_match (pc : raw_pcb) : bool :=
  (protocol pc =? proto) && raw_input_local_match g pc broadcast &&
  ((Z.land (w_flags pc) RAW_FLAGS_CONNECTED =? 0) || ip_addr_eq (w_remote pc) (current_iphdr_src g)).

Definition raw_offer (p : Z) (x : Z * raw_pcb) : option offer :=
  if raw_match x.2 then option_map (λ f, Offer f (w_recv_arg x.2) x.1 p (current_iphdr_src g)) (w_recv x.2) else None.

(** Up to the first that takes the packet. *)
Fixpoint until_eaten (os : list offer) : list offer :=
  match os with [] => [] | o :: os => if eats o then [o] else o :: until_eaten os end.

Definition raw_status (ret : raw_input_state_t) (os : list offer) : raw_input_state_t :=
  if existsb eats os then RAW_INPUT_EATEN else match os with [] => ret | _ => RAW_INPUT_DELIVERED end.

(** Who takes the packet comes to the front. *)
Definition raw_order (os : list offer) (ks : list Z) : list Z :=
  match find eats os with Some o => of_pcb o :: filter (λ b, b ≠ of_pcb o) ks | None => ks end.

Lemma raw_offer_skip p a pc l :
  raw_offer p (a, pc) = None → omap (raw_offer p) ((a, pc) :: l) = omap (raw_offer p) l.
Proof. intros E. cbn. by rewrite E. Qed.

(** [l0]: what the walk has passed. *)
Lemma raw_loop_spec pd p l : ∀ fuel hd ret w l0,
  raw_ok pd w (l0 ++ l) → pseg w_next (w_store w) hd l None → (length l < fuel)%nat →
  ∃ w' l', raw_loop g eats fuel p proto broadcast hd (last_key None l0) ret w =
      Ok (raw_status ret (omap (raw_offer p) l), until_eaten (omap (raw_offer p) l), w') ∧
    raw_ok pd w' l' ∧ l'.*1 = raw_order (omap (raw_offer p) l) (l0 ++ l).*1.
Proof.
  induction l as [|[a pc] l IH]; intros [|fuel] hd ret w l0 Hw Hl Hf; try (simpl in Hf; lia); cbn [pseg] in Hl.
  { subst. exists w, (l0 ++ []). done. }
  destruct Hl as (-> & Ha & Hl). cbn [raw_loop]. rewrite (raw_at_at a pc w Ha). cbn [mbind res_bind].
  fold (raw_match pc).
  assert (∀ ret', ∃ w' l', raw_loop g eats fuel p proto broadcast (w_next pc) (Some a) ret' w =
      Ok (raw_status ret' (omap (raw_offer p) l), until_eaten (omap (raw_offer p) l), w') ∧
    raw_ok pd w' l' ∧ l'.*1 = raw_order (omap (raw_offer p) l) (l0 ++ (a, pc) :: l).*1) as Hrec.
  { intros ret'. destruct (IH fuel (w_next pc) ret' w (l0 ++ [(a, pc)])) as (w' & l' & E & Hw' & Hk); [|done|simpl in Hf; lia|].
    - by rewrite <- app_assoc.
    - exists w', l'. unfold last_key in E. rewrite last_snoc in E. rewrite <- app_assoc in Hk. done. }
  destruct (raw_match pc) eqn:Em.
  2: { rewrite raw_offer_skip by (unfold raw_offer; cbn; by rewrite Em). apply Hrec. }
  destruct (w_recv pc) as [f|] eqn:Er.
  2: { rewrite raw_offer_skip by (unfold raw_offer; cbn; by rewrite Em, Er). apply Hrec. }
  set (o := Offer f _ a p _). assert (omap (raw_offer p) ((a, pc) :: l) = o :: omap (raw_offer p) l) as ->.
  { cbn. unfold raw_offer at 1. cbn. by rewrite Em, Er. }
  unfold raw_status, raw_order. cbn [existsb until_eaten find]. destruct (eats o) eqn:Eo.
  2: { destruct (Hrec RAW_INPUT_DELIVERED) as (w' & l' & -> & Hw' & Hk). cbn [mbind res_bind].
       exists w', l'. split; [|done]. unfold raw_status. by destruct (existsb _ _), (omap _ l). }
  cbn [orb of_pcb]. pose proof (wo_nodup _ _ _ Hw) as Hn. pose proof (NoDup_mid _ _ _ _ Hn) as [_ Hni].
  rewrite fmap_app, not_elem_of_app in Hni. destruct Hni as [Hn1 Hn2].
  assert (filter (λ b, b ≠ a) (l0 ++ (a, pc) :: l).*1 = l0.*1 ++ l.*1) as Ef.
  { rewrite fmap_app, fmap_cons, filter_app. cbn [fst]. rewrite filter_cons_False by naive_solver.
    by rewrite !filter_other. }
  change (of_pcb o) with a. rewrite Ef. clear Ef Hrec IH.
  destruct l0 as [|[b pb] l0 _] using rev_ind.
  { cbn. exists w, ((a, pc) :: l). done. }
  unfold last_key. rewrite last_snoc. cbn [fst].
  pose proof (wo_list _ _ _ Hw) as Hls. rewrite <- app_assoc in Hls, Hn. cbn [app] in Hls, Hn.
  assert (w_store w !! b = Some pb) as Hb by (eapply pseg_lookup; [exact Hls|set_solver]).
  assert (a ≠ b) as Hab by (intros ->; apply Hn1; rewrite fmap_app; set_solver).
  rewrite (raw_mod_at _ _ pb) by done. cbn [mbind res_bind].
  rewrite (raw_mod_at _ _ pc) by (cbn; by rewrite lookup_insert_ne). cbn [mbind res_bind w_store raw_pcbs w_pool set_raw_pcbs].
  pose proof (pseg_unlink w_next set_w_next _ _ _ _ _ a pc _ _ (λ _ _, eq_refl) Hls Hn) as Hl'.
  eexists _, ((a, set_w_next (raw_pcbs w) pc) :: l0 ++ (b, set_w_next (w_next pc) pb) :: l). split; [done|].
  assert ((l0 ++ (b, set_w_next (w_next pc) pb) :: l).*1 = (l0 ++ [(b, pb)]).*1 ++ l.*1) as Ek
    by (rewrite !fmap_app, fmap_cons; cbn; by rewrite <- app_assoc).
  split; [|by rewrite fmap_cons, Ek]. apply (raw_relist pd w _ _ _ _ Hw).
  - split; [done|]. cbn [w_store raw_pcbs w_pool]. split; [by rewrite lookup_insert_eq|]. cbn [w_next set_w_next]. apply pseg_insert; [exact Hl'|].
    rewrite Ek, not_elem_of_app. done.
  - rewrite fmap_cons, Ek, (fmap_app fst (l0 ++ _)), fmap_cons. by rewrite Permutation_middle.
  - intros c. cbn [w_store]. rewrite (is_Some_change _ _ pc) by (by rewrite lookup_insert_ne). by apply (is_Some_change _ _ pb).
Qed.

End input.

(** The protocol of a packet whose header has these bytes. *)
Definition raw_proto (hdr : list Z) : Z := nth (if Z.shiftr (nth 0 hdr 0) 4 =? 6 then 6 else 9) hdr 0.

Lemma raw_input_spec g eats pd w l p payload m hdr :
  raw_ok pd w l → mread m payload (length hdr) = Ok hdr → (10 <= length hdr)%nat →
  let bc := ip_addr_isbroadcast (current_iphdr_dest g) (current_netif g) in
  let os := omap (raw_offer g (raw_proto hdr) bc p) l in
  ∃ w' l', raw_input g eats p payload w m =
      Ok (raw_status eats RAW_INPUT_NONE os, until_eaten eats os, w') ∧
    raw_ok pd w' l' ∧ l'.*1 = raw_order eats os l.*1.
Proof.
  intros Hw Hr Hlen. cbv zeta. unfold raw_input.
  assert (∀ i, (i < length hdr)%nat → mread m (payload + Z.of_nat i) 1 = Ok [nth i hdr 0]) as Hb.
  { intros i Hi. rewrite (mread_sub _ _ _ _ i 1 Hr) by lia. f_equal.
    rewrite (take_S_r _ 0 (nth i hdr 0)); [done|]. rewrite lookup_drop, Nat.add_0_r.
    destruct (lookup_lt_is_Some_2 _ _ Hi) as [x Hx]. by rewrite Hx, (nth_lookup_Some _ _ _ _ Hx). }
  assert (∀ x, hdr_field 0 1 [x] = x) as Hf by (intros; unfold hdr_field; cbn [drop take le_val]; lia).
  pose proof (Hb 0%nat ltac:(lia)) as E0. rewrite Z.add_0_r in E0. rewrite E0. cbn [mbind res_bind]. rewrite Hf.
  set (v6 := Z.shiftr (nth 0 hdr 0) 4 =? 6).
  assert (mread m (payload + (if v6 then 6 else 9)) 1 = Ok [raw_proto hdr]) as ->.
  { unfold raw_proto. fold v6. destruct v6; [apply (Hb 6%nat)|apply (Hb 9%nat)]; lia. }
  cbn [mbind res_bind]. rewrite Hf.
  apply (raw_loop_spec g eats (raw_proto hdr) _ pd p l (raw_fuel w) (raw_pcbs w) RAW_INPUT_NONE w []); [done| |].
  - by destruct Hw.
  - by apply (wo_fuel _ _ _ Hw).
Qed.
