(* ===== verification/RawClaims.v ===== *)
(** * Raw control blocks: sessions of clients

    Whatever clients do with the control blocks they hold, the list is the allocated
    control blocks with the newest in front, and a packet is offered along it. *)

From S2P Require Import Prelude Memp SysArch Pbuf PbufPacket LwipDef LwipMem PbufAlloc Ip4Addr Ip4Frag Ip6Addr.
From S2P Require Import Udp Raw Linked UdpCalls RawProofs.

(** ** Sessions *)

Inductive raw_call : Type :=
  | WNew (proto : Z)
  | WNewType (type proto : Z)
  | WBind (pcb : Z) (ipaddr : option ip_any)
  | WConnect (pcb : Z) (ipaddr : option ip_any)
  | WBindNetif (pcb : Z) (netif : option Z)
  | WDisconnect (pcb : Z)
  | WSetRecv (pcb : Z) (recv : option Z) (arg : Z)
  | WRemove (pcb : Z)
  | WAddrChanged (old new : ip_any).

(** The control block a call is given. *)
Definition raw_call_pcb (c : raw_call) : option Z :=
  match c with
  | WBind p _ | WConnect p _ | WBindNetif p _ | WDisconnect p | WSetRecv p _ _ | WRemove p => Some p
  | WNew _ | WNewType _ _ | WAddrChanged _ _ => None
  end.

Section calls.
Context (ip6_route : ip6_addr → ip6_addr → option netif6).

(** The state with the control block that was allocated. *)
Definition run_raw (c : raw_call) (w : raws) : res (option Z * raws) :=
  match c with
  | WNew proto => raw_new proto w
  | WNewType type proto => raw_new_ip_type type proto w
  | WBind p ipaddr => '(_, w) ← raw_bind ip6_route (Some p) ipaddr w; Ok (None, w)
  | WConnect p ipaddr => '(_, w) ← raw_connect ip6_route (Some p) ipaddr w; Ok (None, w)
  | WBindNetif p netif => w ← raw_bind_netif p netif w; Ok (None, w)
  | WDisconnect p => w ← raw_disconnect p w; Ok (None, w)
  | WSetRecv p recv arg => w ← raw_recv p recv arg w; Ok (None, w)
  | WRemove p => w ← raw_remove p w; Ok (None, w)
  | WAddrChanged old new => w ← raw_netif_ip_addr_changed old new w; Ok (None, w)
  end.

(** [ks]: the control blocks that are allocated, the newest first. *)
Definition keys_step (c : raw_call) (r : option Z) (ks : list Z) : list Z :=
  match c, r with
  | WRemove p, _ => filter (λ b, b ≠ p) ks
  | _, Some a => a :: ks
  | _, None => ks
  end.

Definition raw_live (ks : list Z) (c : raw_call) : bool :=
  match raw_call_pcb c with Some p => bool_decide (p ∈ ks) | None => true end.

(** A session in which each call is given a control block that is allocated; [None]
    otherwise. *)
Fixpoint raw_session (cs : list raw_call) (ks : list Z) (w : raws) : option (res (list Z * raws)) :=
  match cs with
  | [] => Some (Ok (ks, w))
  | c :: cs =>
      if raw_live ks c then
        match run_raw c w with
        | Ok (r, w) => raw_session cs (keys_step c r ks) w
        | Fault f => Some (Fault f)
        end
      else None
  end.

Definition raw_boot (pd : memp_desc) : raws := Raws ∅ None (memp_init_pool pd).

(** ** Every call keeps the invariant *)

Context (pd : memp_desc) (Hpd : desc_ok pd).

Lemma raw_boot_ok : raw_ok pd (raw_boot pd) [].
Proof.
  split; cbn; [done|apply NoDup_nil_2| |].
  - intros a. rewrite lookup_empty. split; [by intros [? [=]]|by intros ?%elem_of_nil].
  - exists []. split; [by apply memp_init_pool_inv|done].
Qed.

Lemma raw_new_type_ok w l type proto :
  raw_ok pd w l → ∃ r w' l', raw_new_ip_type type proto w = Ok (r, w') ∧ raw_ok pd w' l' ∧
    l'.*1 = match r with Some a => a :: l.*1 | None => l.*1 end.
Proof.
  intros Hw. unfold raw_new_ip_type. destruct (raw_new_ok pd Hpd w l proto Hw) as (r & w1 & l1 & -> & Hw1 & Hr).
  cbn [mbind res_bind]. destruct r as [a|]; [|destruct Hr as [-> _]; by exists None, w1, l].
  assert (a ∈ l1.*1) as Ha by (rewrite Hr; left).
  destruct (raw_mod_ok pd w1 l1 (λ p, set_w_remote (IpAny (u_addr (w_remote p)) type) (w_netif p) (w_flags p)
    (set_w_local (IpAny (u_addr (w_local p)) type) p)) a Hw1 Ha) as (w2 & -> & l2 & Hw2 & Hk); [done|].
  exists (Some a), w2, l2. split; [done|]. split; [done|]. by rewrite Hk.
Qed.

Lemma addr_loop_ok old new l : ∀ fuel hd w L,
  raw_ok pd w L → pseg w_next (w_store w) hd l None → NoDup l.*1 → (length l < fuel)%nat →
  ∃ w' L', raw_addr_changed_loop fuel old new hd w = Ok w' ∧ raw_ok pd w' L' ∧ L'.*1 = L.*1.
Proof.
  induction l as [|[a p] l IH]; intros [|fuel] hd w L Hw Hl Hn Hf; try (simpl in Hf; lia); cbn [pseg] in Hl.
  { subst. by exists w, L. }
  destruct Hl as (-> & Ha & Hl). cbn [fmap list_fmap fst] in Hn. apply NoDup_cons in Hn as [Hal Hn].
  assert (length l < fuel)%nat as Hf' by (simpl in Hf; lia).
  cbn [raw_addr_changed_loop]. rewrite (raw_at_at a p w Ha). cbn [mbind res_bind].
  destruct (ip_addr_eq _ _); [|by apply IH].
  assert (a ∈ L.*1) as HaL by (apply (wo_all _ _ _ Hw); by exists p).
  destruct (raw_mod_ok pd w L (set_w_local (ip_addr_set new)) a Hw HaL) as (w' & E & L' & Hw' & Hk); [done|].
  rewrite E. cbn [mbind res_bind]. rewrite <- Hk. apply IH; [done| |done|done].
  rewrite (raw_mod_at _ _ p) in E by done. injection E as <-. by apply pseg_insert.
Qed.

Lemma run_raw_ok c w l :
  raw_ok pd w l → raw_live l.*1 c = true →
  ∃ r w' l', run_raw c w = Ok (r, w') ∧ raw_ok pd w' l' ∧ l'.*1 = keys_step c r l.*1.
Proof.
  intros Hw Hc. unfold raw_live in Hc.
  assert (∀ a f, raw_call_pcb c = Some a → (∀ p, w_next (f p) = w_next p) →
    ∃ w', raw_mod f a w = Ok w' ∧ ∃ l', raw_ok pd w' l' ∧ l'.*1 = l.*1) as Hmod.
  { intros a f E. rewrite E in Hc. apply bool_decide_eq_true in Hc. by apply raw_mod_ok. }
  destruct c as [proto|type proto|a [ip|]|a [ip|]|a n|a|a f arg|a|old new]; cbn [run_raw raw_call_pcb keys_step] in *;
    unfold raw_bind, raw_connect, raw_bind_netif, raw_disconnect, raw_recv;
    try match goal with
        | |- context [raw_mod ?f ?a w] =>
            destruct (Hmod a f eq_refl (λ _, eq_refl)) as (w' & -> & l' & Hw' & Hk); by exists None, w', l'
        end;
    try by exists None, w, l.
  - destruct (raw_new_ok pd Hpd w l proto Hw) as (r & w' & l' & -> & Hw' & Hr). exists r, w', l'. split; [done|].
    split; [done|]. destruct r; [done|]. by destruct Hr as [-> _].
  - by apply raw_new_type_ok.
  - apply bool_decide_eq_true in Hc. destruct (raw_remove_ok pd Hpd w l a Hw Hc) as (w' & l' & -> & Hw' & Hk).
    by exists None, w', l'.
  - unfold raw_netif_ip_addr_changed. destruct (_ && _); [|by exists None, w, l].
    destruct (addr_loop_ok old new l (raw_fuel w) (raw_pcbs w) w l Hw) as (w' & l' & -> & Hw' & Hk);
      [by destruct Hw..|by apply (wo_fuel _ _ _ Hw)|]. by exists None, w', l'.
Qed.

Lemma raw_session_ok cs : ∀ w l r,
  raw_ok pd w l → raw_session cs l.*1 w = Some r → ∃ w' l', r = Ok (l'.*1, w') ∧ raw_ok pd w' l'.
Proof.
  induction cs as [|c cs IH]; intros w l r Hw E; cbn [raw_session] in E; [injection E as <-; by exists w, l|].
  destruct (raw_live l.*1 c) eqn:Hc; [|done]. destruct (run_raw_ok c w l Hw Hc) as (a & w' & l' & E' & Hw' & Hk).
  rewrite E', <- Hk in E. by apply (IH w' l').
Qed.

End calls.

(** ** Theorem *)

(** C11 (functional).  Whatever clients do with raw control blocks that they hold (allocate
    them, bind, connect and disconnect them, set their functions, remove them, change
    the address of an interface), no call fails: the list has no cycle and holds exactly
    the control blocks that are allocated, the newest in front.  A packet is then
    offered, in the order of the list, to those that are for its protocol, bound to where
    it goes, connected (if at all) to where it comes from and have a function, up
    to the first that takes it, which comes to the front of the list; everything else
    stays where it is. *)
Theorem raw_clients_offered ip6_route pd cs r :
  desc_ok pd → raw_session ip6_route cs [] (raw_boot pd) = Some r →
  ∃ ks w l, r = Ok (ks, w) ∧ l.*1 = ks ∧ NoDup ks ∧ pseg w_next (w_store w) (raw_pcbs w) l None ∧
    (∀ a, is_Some (w_store w !! a) ↔ a ∈ ks) ∧
    ∀ g eats p payload m hdr, mread m payload (length hdr) = Ok hdr → (10 <= length hdr)%nat →
      let bc := ip_addr_isbroadcast (current_iphdr_dest g) (current_netif g) in
      let os := omap (raw_offer g (raw_proto hdr) bc p) l in
      ∃ w' l', raw_input g eats p payload w m = Ok (raw_status eats RAW_INPUT_NONE os, until_eaten eats os, w') ∧
        pseg w_next (w_store w') (raw_pcbs w') l' None ∧ l'.*1 = raw_order eats os ks.
Proof.
  intros Hpd E. destruct (raw_session_ok ip6_route pd Hpd cs _ [] r (raw_boot_ok pd Hpd) E) as (w & l & -> & Hw).
  exists l.*1, w, l. pose proof Hw as [Hl Hn Ha _]. do 5 (split; [done|]). intros g eats p payload m hdr Hm Hlen.
  destruct (raw_input_spec g eats pd w l p payload m hdr Hw Hm Hlen) as (w' & l' & Ei & Hw' & Hk).
  exists w', l'. split; [exact Ei|]. by destruct Hw'.
Qed.

(** ** Two clients *)

(** Both for UDP; the older one, bound to 10.0.0.2, takes what it is offered. *)
Definition demo_raw_calls : list raw_call :=
  [WNew 17; WNew 17; WSetRecv 50448 (Some 7) 1; WSetRecv 50384 (Some 9) 2; WBind 50448 (Some (v4 0x0200000a))].

Definition demo_raw_ip : ip_globals :=
  let n := NetifIn 0 (Netif4 3 0x0200000a 0x00ffffff) [] in IpGlobals n n false 17 20 (v4 0x0100000a) (v4 0x0200000a).

Definition demo_raw_hdr : list Z := [69; 0; 0; 32; 0; 0; 0; 0; 64; 17].
Definition demo_raw_mem : gmap Z Z := list_to_map (zip (seqZ 3000 10) demo_raw_hdr).

Lemma raw_clients_offered_witness :
  ∃ w, raw_session no_route demo_raw_calls [] (raw_boot demo_upd) = Some (Ok ([50384; 50448], w)) ∧
    ∃ w' l', raw_input demo_raw_ip (λ o, of_recv o =? 7) 9000 3000 w demo_raw_mem =
        Ok (RAW_INPUT_EATEN, [Offer 9 2 50384 9000 (v4 0x0100000a); Offer 7 1 50448 9000 (v4 0x0100000a)], w') ∧
      pseg w_next (w_store w') (raw_pcbs w') l' None ∧ l'.*1 = [50448; 50384].
Proof.
  assert (desc_ok demo_upd) as Hpd by (split; [done|]; split; [done|]; vm_compute; done).
  destruct (raw_session no_route demo_raw_calls [] (raw_boot demo_upd)) as [r|] eqn:E; [|by vm_compute in E].
  destruct (raw_clients_offered no_route demo_upd demo_raw_calls r Hpd E) as (ks & w & l & -> & Hk & _ & Hl & _ & Hin).
  assert (ks = [50384; 50448]) as -> by (vm_compute in E; by injection E as <- _).
  exists w. split; [done|]. destruct l as [|[a pa] [|[b pb] [|]]]; try done. injection Hk as -> ->.
  destruct Hl as (_ & Ha & _ & Hb & _). cbn in Ha, Hb.
  vm_compute in E. injection E as Ew. rewrite <- Ew in Ha, Hb. vm_compute in Ha, Hb. injection Ha as <-. injection Hb as <-.
  destruct (Hin demo_raw_ip (λ o, of_recv o =? 7) 9000 3000 demo_raw_mem demo_raw_hdr) as (w' & l' & Ei & Hl' & Hk');
    [by vm_compute|by vm_compute; lia|].
  exists w', l'. split; [exact Ei|]. split; [exact Hl'|exact Hk'].
Defined.
