(* ===== verification/Ip4Input.v ===== *)
(** * Incoming IPv4 packets (lwip/core/ipv4/ip4.c, [ip4_input])

    The checks of the header, the interface a packet is for, reassembly ([Ip4Frag]), raw
    control blocks ([Raw]) and the protocols above, of which UDP ([Udp]) is followed;
    the hand-over to TCP, ICMP and IGMP and the ICMP message about an unknown protocol are
    in the log.  [Ip4InputProofs] follows a UDP packet all the way. *)

From S2P Require Import Prelude Memp SysArch Pbuf LwipDef Chksum LwipMem PbufAlloc Ip4Addr Ip4Frag Ip6Addr Udp Raw.

(** ** Constants and fields *)

Definition IPH_V (hdr : list Z) : Z := Z.shiftr (hdr_field 0 1 hdr) 4.
Definition IPH_PROTO (hdr : list Z) : Z := hdr_field 9 1 hdr.
Definition IP_PROTO_ICMP : Z := 1.
Definition IP_PROTO_IGMP : Z := 2.
Definition IP_PROTO_TCP : Z := 6.
Definition NETIF_FLAG_UP : Z := 0x01.
Definition NETIF_FLAG_IGMP : Z := 0x20.

Definition netif_is_up (n : netif_in) : bool := negb (Z.land (nif_flags (in_4 n)) NETIF_FLAG_UP =? 0).
Definition ip4_addr_isloopback (w : Z) : bool := Z.land w (lwip_htonl 0xff000000) =? lwip_htonl (Z.shiftl 127 24).
Definition ip_addr_copy_from_ip4 (w : Z) : ip_any := IpAny (Ip6 [w; 0; 0; 0] IP6_NO_ZONE) IPADDR_TYPE_V4.

(** Counters of [lwip_stats.ip] and of [lwip_stats.mib2]. *)
Inductive ip_stat : Type :=
  | SRecv | SErr | SLenErr | SChkErr | SProtErr | SDrop
  | MInReceives | MInHdrErrors | MInAddrErrors | MInDiscards | MInUnknownProtos | MInDelivers.

(** What the code reports and whom it calls. *)
Inductive inote : Type :=
  | IStat (c : ip_stat)
  | IOffer (o : offer)
  | IUdp (n : unote)
  | IInput (proto p : Z)
  | IProtUnreach (p : Z).

(** The buffers with reassembly, the control blocks. *)
Record ip_state : Type := IpState { i_rs : reass; i_udp : udp; i_raw : raws }.

Definition i_s (st : ip_state) : pbufs := rs_s (i_rs st).
Definition i_m (st : ip_state) : gmap Z Z := rs_m (i_rs st).
Definition set_i_s (s : pbufs) (st : ip_state) : ip_state := IpState (set_rs_s s (i_rs st)) (i_udp st) (i_raw st).
Definition set_i_rs (r : reass) (st : ip_state) : ip_state := IpState r (i_udp st) (i_raw st).
Definition set_i_udp (u : udp) (st : ip_state) : ip_state := IpState (i_rs st) u (i_raw st).
Definition set_i_raw (w : raws) (st : ip_state) : ip_state := IpState (i_rs st) (i_udp st) w.

Definition iresult : Type := res (list inote * ip_state).

(** ** Which interface *)

Section accept.
Context (netif_list : list netif_in) (igmp_groups : Z → list Z).

(** [igmp_groups]: the groups an interface, by its number, has joined. *)
Definition igmp_lookfor_group (ifp : netif_in) (addr : Z) : bool :=
  existsb (Z.eqb addr) (igmp_groups (in_num ifp)).

Definition ip4_input_accept (dest : Z) (n : netif_in) : bool :=
  netif_is_up n && negb (nif_ip4 (in_4 n) =? IPADDR_ANY) &&
  ((dest =? nif_ip4 (in_4 n)) || ip4_addr_isbroadcast_u32 dest (in_4 n)).

(** The interface, if there is one, and whether the source is to be checked. *)
Definition input_netif (src dest : Z) (inp : netif_in) : option netif_in * bool :=
  if ip4_addr_ismulticast dest then
    if negb (Z.land (nif_flags (in_4 inp)) NETIF_FLAG_IGMP =? 0) && igmp_lookfor_group inp dest then
      (Some inp, negb ((dest =? lwip_htonl 0xe0000001) && (src =? IPADDR_ANY)))
    else (None, true)
  else if ip4_input_accept dest inp then (Some inp, true)
  else if ip4_addr_isloopback dest then (None, true)
  else (find (λ n, negb (in_num n =? in_num inp) && ip4_input_accept dest n) netif_list, true).

(** ** The packet *)

Context `{Platform} (self : Z) (eats : offer → bool).

Definition ip_drop (p : Z) (cs : list ip_stat) (st : ip_state) : iresult :=
  '(_, s) ← pbuf_free self (Some p) (i_s st); Ok (IStat <$> cs, set_i_s s st).

(** To the protocol above; [p] begins behind the header. *)
Definition ip4_deliver (p hlen : Z) (g : ip_globals) (inp : netif_in) (delivered : bool) (st : ip_state) : iresult :=
  let proto := current_proto g in
  if (proto =? IP_PROTO_UDP) || (proto =? IP_PROTO_UDPLITE) then
    '(ns, u, s) ← udp_input self g inp p (i_udp st) (i_s st) (i_m st);
    Ok (IStat MInDelivers :: (IUdp <$> ns), set_i_udp u (set_i_s s st))
  else if (proto =? IP_PROTO_TCP) || (proto =? IP_PROTO_ICMP) then Ok ([IStat MInDelivers; IInput proto p], st)
  else if proto =? IP_PROTO_IGMP then Ok ([IInput proto p], st)
  else if delivered then ip_drop p [MInDelivers] st
  else
    let dest := ip4_of (current_iphdr_dest g) in
    '(ns, st) ←
      (if negb (ip4_addr_isbroadcast_u32 dest (in_4 (current_netif g))) && negb (ip4_addr_ismulticast dest) then
         '(_, pb) ← pbuf_header_force (bufs (i_s st)) (Some p) (wraps 16 hlen);
         Ok ([IProtUnreach p], set_i_s (set_bufs pb (i_s st)) st)
       else Ok ([], st));
    '(ns', st) ← ip_drop p [SProtErr; SDrop; MInUnknownProtos] st;
    Ok (ns ++ ns', st).

(** A whole packet, with its header, to raw control blocks and up. *)
Definition ip4_local (p hlen src dest : Z) (netif inp : netif_in) (st : ip_state) : iresult :=
  h ← buf_at (i_s st) p;
  hdr ← mread (i_m st) (p_payload h) 20;
  let g := IpGlobals netif inp false (IPH_PROTO hdr) (IPH_HL_BYTES hdr) (ip_addr_copy_from_ip4 src)
             (ip_addr_copy_from_ip4 dest) in
  '(status, os, w) ← raw_input g eats p (p_payload h) (i_raw st) (i_m st);
  let st := set_i_raw w st in
  match status with
  | RAW_INPUT_EATEN => Ok (IOffer <$> os, st)
  | _ =>
      '(_, pb) ← pbuf_remove_header (bufs (i_s st)) (Some p) hlen;
      '(ns, st) ← ip4_deliver p hlen g inp (match status with RAW_INPUT_DELIVERED => true | _ => false end)
                    (set_i_s (set_bufs pb (i_s st)) st);
      Ok ((IOffer <$> os) ++ ns, st)
  end.

(** A packet whose header is right. *)
Definition ip4_checked (p hlen : Z) (inp : netif_in) (hdr : list Z) (st : ip_state) : iresult :=
  let dest := IPH_DEST hdr in
  let src := IPH_SRC hdr in
  let '(netif, check_ip_src) := input_netif src dest inp in
  if check_ip_src && (ip4_addr_isbroadcast_u32 src (in_4 inp) || ip4_addr_ismulticast src)
  then ip_drop p [SDrop; MInAddrErrors; MInDiscards] st
  else
    match netif with
    | None => ip_drop p [SDrop; MInAddrErrors; MInDiscards] st
    | Some netif =>
        if negb (Z.land (IPH_OFFSET hdr) (lwip_htons (Z.lor IP_OFFMASK IP_MF)) =? 0) then
          '(q, rs) ← ip4_reass self p (i_rs st);
          match q with
          | None => Ok ([], set_i_rs rs st)
          | Some q => ip4_local q hlen src dest netif inp (set_i_rs rs st)
          end
        else ip4_local p hlen src dest netif inp st
    end.

Definition with_notes (ns : list inote) (r : iresult) : iresult := '(ns', st) ← r; Ok (ns ++ ns', st).

Definition ip4_input (p : Z) (inp : netif_in) (st : ip_state) : iresult :=
  with_notes [IStat SRecv; IStat MInReceives]
    (h ← buf_at (i_s st) p;
     v ← mread (i_m st) (p_payload h) 1;
     if negb (IPH_V v =? 4) then ip_drop p [SErr; SDrop; MInHdrErrors] st
     else
       hd ← mread (i_m st) (p_payload h) 4;
       let iphdr_hlen := IPH_HL_BYTES hd in
       let iphdr_len := lwip_htons (IPH_LEN hd) in
       s ← (if iphdr_len <? p_tot_len h then pbuf_realloc self (Some p) iphdr_len (i_s st) else Ok (i_s st));
       let st := set_i_s s st in
       h ← buf_at (i_s st) p;
       if (p_len h <? iphdr_hlen) || (p_tot_len h <? iphdr_len) || (iphdr_hlen <? IP_HLEN)
       then ip_drop p [SLenErr; SDrop; MInDiscards] st
       else
         c ← inet_chksum (i_m st) (p_payload h) iphdr_hlen;
         if negb (c =? 0) then ip_drop p [SChkErr; SDrop; MInHdrErrors] st
         else
           hdr ← mread (i_m st) (p_payload h) 20;
           ip4_checked p iphdr_hlen inp hdr st).

End accept.
