(* ===== verification/Ip4InputProofs.v ===== *)
(** * Incoming IPv4 packets: from the wire to a UDP control block

    When the header of a packet is right and which interface it is for, from its bytes
    alone; a packet that is not right is released, and one that is right reaches raw
    control blocks and UDP with exactly the bytes its header announces. *)

From S2P Require Import Prelude Memp SysArch Pbuf PbufPacket PbufWrite PbufCopy LwipDef Chksum LwipMem.
From S2P Require Import LwipMemProofs LwipMemSpec PbufAlloc PbufLife PbufStore PbufClients PbufRealloc.
From S2P Require Import Ip4Addr Ip4Frag Ip4FragRun Ip6Addr Udp Linked UdpProofs UdpCalls UdpInput Raw RawProofs RawClaims Ip4Input.

(** ** Specification *)

(** The length of the header, the length of the packet, and the packet without what was
    added to it on the way. *)
Definition head_len (data : list Z) : nat := Z.to_nat (4 * (nth 0 data 0 mod 16)).
Definition ip_len (data : list Z) : nat := Z.to_nat (word_at 2 data).
Definition arrived (data : list Z) : list Z := take (ip_len data) data.

(** [first]: the bytes in the first buffer. *)
Definition header_right (first : nat) (data : list Z) : bool :=
  (nth 0 data 0 / 16 =? 4) && (20 <=? head_len data)%nat && (head_len data <=? first `min` ip_len data)%nat &&
  (ip_len data <=? length data)%nat && (rfc_checksum (take (head_len data) data) =? 0).

(** Addresses are words in network order: the first octet is the lowest. *)
Definition first_octet (w : Z) : Z := w mod 256.
Definition multicast (w : Z) : bool := first_octet w / 16 =? 14.

Section spec.
Context (netif_list : list netif_in) (igmp_groups : Z → list Z) (inp : netif_in).

(** An interface that is up and has an address takes what is sent to it or to all. *)
Definition takes (dest : Z) (n : netif_in) : bool :=
  Z.testbit (nif_flags (in_4 n)) 0 && negb (nif_ip4 (in_4 n) =? 0) &&
  ((dest =? nif_ip4 (in_4 n)) || ip4_addr_isbroadcast_u32 dest (in_4 n)).

Definition other_netifs : list netif_in := List.filter (λ n, negb (in_num n =? in_num inp)) netif_list.

Definition wanted_by (dest : Z) : option netif_in :=
  if multicast dest then
    if Z.testbit (nif_flags (in_4 inp)) 5 && bool_decide (dest ∈ igmp_groups (in_num inp)) then Some inp else None
  else head (List.filter (takes dest) (inp :: if first_octet dest =? 127 then [] else other_netifs)).

(** No host sends from such an address, except that 0.0.0.0 asks all systems, 224.0.0.1. *)
Definition source_wrong (src dest : Z) : bool :=
  (ip4_addr_isbroadcast_u32 src (in_4 inp) || multicast src) && negb ((dest =? 224 + 2 ^ 24) && (src =? 0)).

Definition ip_for_us (data : list Z) : option netif_in :=
  if source_wrong (IPH_SRC data) (IPH_DEST data) then None else wanted_by (IPH_DEST data).

Definition ip_accepts (first : nat) (data : list Z) : option netif_in :=
  if header_right first data then ip_for_us (arrived data) else None.

(** [ip_data], while the packet is processed. *)
Definition ip_data_of (netif : netif_in) (data : list Z) : ip_globals :=
  IpGlobals netif inp false (IPH_PROTO data) (Z.of_nat (head_len data)) (ip_addr_copy_from_ip4 (IPH_SRC data))
    (ip_addr_copy_from_ip4 (IPH_DEST data)).

Definition is_ip_event (n : inote) : bool := match n with IStat _ => false | IUdp n => is_event n | _ => true end.

End spec.

(** ** Bytes *)

Lemma head_len_val data : Forall is_byte data → 0 <= 4 * (nth 0 data 0 mod 16) <= 60.
Proof. intros Hb. pose proof (Z.mod_pos_bound (nth 0 data 0) 16). lia. Qed.

Lemma hl_bytes l : Forall is_byte l → (1 <= length l)%nat → IPH_HL_BYTES l = Z.of_nat (head_len l).
Proof.
  intros Hb Hl. unfold IPH_HL_BYTES, head_len. pose proof (head_len_val l Hb).
  assert (hdr_field 0 1 l = nth 0 l 0) as ->.
  { destruct l as [|x l]; [simpl in Hl; lia|]. unfold hdr_field. cbn [drop take le_val nth]. rewrite take_0. cbn [le_val]. lia. }
  change 0x0f with (Z.ones 4). rewrite Z.land_ones by lia. change (2 ^ 4) with 16.
  rewrite wrapu_small by lia. rewrite Z2Nat.id by lia. lia.
Qed.

Lemma version_val l : Forall is_byte l → (1 <= length l)%nat → IPH_V l = nth 0 l 0 / 16.
Proof.
  intros Hb Hl. unfold IPH_V. rewrite Z.shiftr_div_pow2 by lia. f_equal.
  destruct l as [|x l]; [simpl in Hl; lia|]. unfold hdr_field. cbn [drop take le_val nth]. rewrite take_0. cbn [le_val]. lia.
Qed.

Lemma field_one l i : (i < length l)%nat → hdr_field i 1 l = nth i l 0.
Proof.
  revert i. induction l as [|b l IH]; intros [|i] Hi; try (simpl in Hi; lia).
  - unfold hdr_field. cbn [drop take le_val nth]. rewrite take_0. cbn [le_val]. lia.
  - apply (IH i). simpl in Hi. lia.
Qed.

Lemma raw_proto_4 hdr : (10 <= length hdr)%nat → nth 0 hdr 0 / 16 = 4 → raw_proto hdr = IPH_PROTO hdr.
Proof.
  intros Hl Hv. unfold raw_proto. rewrite Z.shiftr_div_pow2 by lia. change (2 ^ 4) with 16. rewrite Hv. cbn [Z.eqb].
  unfold IPH_PROTO. by rewrite field_one by lia.
Qed.

Lemma word_range i l : Forall is_byte l → 0 <= word_at i l < 2 ^ 16.
Proof.
  intros Hl. pose proof (byte_at l i Hl). pose proof (byte_at l (S i) Hl). unfold is_byte, word_at in *. lia.
Qed.

Lemma field_u32 i l : Forall is_byte l → u32_ok (hdr_field i 4 l).
Proof.
  intros Hl. unfold hdr_field, u32_ok. assert (Forall is_byte (take 4 (drop i l))) as Hb by by apply Forall_take, Forall_drop.
  pose proof (le_val_range _ Hb) as Hr. assert (length (take 4 (drop i l)) <= 4)%nat as Hl4 by (rewrite length_take; lia).
  assert (256 ^ Z.of_nat (length (take 4 (drop i l))) <= 256 ^ 4) by (apply Z.pow_le_mono_r; lia). lia.
Qed.

Lemma ip4_addr_ok w : u32_ok w → ip_addr_ok (chksum_addr (ip_addr_copy_from_ip4 w)).
Proof. intros Hw. split; [done|]. cbn. by repeat (constructor; [done || (split; by vm_compute)|]). Qed.

(** ** Which interface *)

Lemma flag_bit f k : negb (Z.land f (2 ^ Z.of_nat k) =? 0) = Z.testbit f (Z.of_nat k).
Proof. rewrite land_pow2. destruct (Z.testbit f _); [|done]. by rewrite (proj2 (Z.eqb_neq _ _)) by lia. Qed.

Lemma octet_land w k : 0 <= k < 256 → Z.land w k = Z.land (first_octet w) k.
Proof.
  intros Hk. unfold first_octet. change 256 with (2 ^ 8). rewrite <- Z.land_ones, <- Z.land_assoc by lia. f_equal.
  rewrite Z.land_comm, Z.land_ones by lia. by rewrite Z.mod_small.
Qed.

(** Checked for all octets. *)
Lemma octet_bool (f g : Z → bool) x : forallb (λ i, Bool.eqb (f i) (g i)) (seqZ 0 256) = true → 0 <= x < 256 → f x = g x.
Proof. intros Hf Hx. rewrite forallb_forall in Hf. apply Bool.eqb_prop, Hf. apply list_elem_of_In, elem_of_seqZ. lia. Qed.

Lemma multicast_val w : ip4_addr_ismulticast w = multicast w.
Proof.
  unfold ip4_addr_ismulticast, multicast. change (lwip_htonl 0xf0000000) with 240. change (lwip_htonl 0xe0000000) with 224.
  rewrite octet_land by lia. apply (octet_bool (λ x, Z.land x 240 =? 224) (λ x, x / 16 =? 14)); [by vm_compute|].
  by apply Z.mod_pos_bound.
Qed.

Lemma loopback_val w : ip4_addr_isloopback w = (first_octet w =? 127).
Proof.
  unfold ip4_addr_isloopback. change (lwip_htonl 0xff000000) with 255. change (lwip_htonl (Z.shiftl 127 24)) with 127.
  rewrite octet_land by lia. apply (octet_bool (λ x, Z.land x 255 =? 127) (λ x, x =? 127)); [by vm_compute|].
  by apply Z.mod_pos_bound.
Qed.

Lemma takes_val dest n : ip4_input_accept dest n = takes dest n.
Proof. unfold ip4_input_accept, takes, netif_is_up. by rewrite (flag_bit _ 0). Qed.

Lemma find_head {A} (f : A → bool) l : find f l = head (List.filter f l).
Proof. induction l as [|x l IH]; [done|]. cbn. by destruct (f x). Qed.

Lemma filter_both {A} (f g : A → bool) l : List.filter (λ x, f x && g x) l = List.filter g (List.filter f l).
Proof. induction l as [|x l IH]; [done|]. cbn. destruct (f x); cbn; [|done]. destruct (g x); by rewrite IH. Qed.

Lemma group_joined (groups : Z → list Z) n dest : igmp_lookfor_group groups n dest = bool_decide (dest ∈ groups (in_num n)).
Proof.
  unfold igmp_lookfor_group. apply eq_true_iff_eq. rewrite existsb_exists, bool_decide_eq_true. split.
  - intros (x & Hx & ->%Z.eqb_eq). by apply list_elem_of_In.
  - intros Hx. exists dest. split; [by apply list_elem_of_In|apply Z.eqb_refl].
Qed.

Lemma filter_takes dest (l : list netif_in) : List.filter (ip4_input_accept dest) l = List.filter (takes dest) l.
Proof. induction l as [|x l IH]; [done|]. cbn. by rewrite takes_val, IH. Qed.

(** The search of the function with its check of the source. *)
Lemma input_netif_val netif_list groups src dest inp :
  let '(n, check) := input_netif netif_list groups src dest inp in
  (if check && (ip4_addr_isbroadcast_u32 src (in_4 inp) || ip4_addr_ismulticast src) then None else n) =
  if source_wrong inp src dest then None else wanted_by netif_list groups inp dest.
Proof.
  unfold input_netif, source_wrong, wanted_by, NETIF_FLAG_IGMP. change 0x20 with (2 ^ Z.of_nat 5). rewrite flag_bit, group_joined.
  change (lwip_htonl 0xe0000001) with (224 + 2 ^ 24). change IPADDR_ANY with 0. rewrite !multicast_val, loopback_val.
  destruct (multicast dest) eqn:Em.
  - destruct (_ && bool_decide _); [by rewrite andb_comm|]. by destruct (_ || _), (negb _).
  - assert ((dest =? 224 + 2 ^ 24) = false) as -> by (apply Z.eqb_neq; intros ->; by vm_compute in Em).
    cbn [andb negb]. rewrite andb_true_r, takes_val. cbn [List.filter]. unfold other_netifs.
    destruct (takes dest inp); [done|]. destruct (first_octet dest =? 127); [done|]. cbn [andb].
    by rewrite find_head, filter_both, filter_takes.
Qed.

(** ** The parts of the function *)

Section parts.
Context (netif_list : list netif_in) (igmp_groups : Z → list Z).
Context `{Platform} (self : Z) (eats : offer → bool) (ar : arena) (Hao : arena_ok ar).

Lemma ip_drop_ok p cs st hs :
  sound ar (i_s st) (p :: hs) → ∃ s', ip_drop self p cs st = Ok (IStat <$> cs, set_i_s s' st) ∧ sound ar s' hs.
Proof.
  intros Hs. unfold ip_drop. destruct (pbuf_free_spec ar Hao self (i_s st) p hs Hs) as (k & s' & -> & Hs' & _).
  by exists s'.
Qed.

Lemma no_events cs : List.filter is_ip_event (IStat <$> cs) = [].
Proof. by induction cs. Qed.

Lemma offer_events os : List.filter is_ip_event (IOffer <$> os) = IOffer <$> os.
Proof. induction os as [|o os IH]; [done|]. cbn. by rewrite IH. Qed.

Lemma udp_events ns : List.filter is_ip_event (IUdp <$> ns) = IUdp <$> List.filter is_event ns.
Proof. induction ns as [|n ns IH]; [done|]. cbn. destruct (is_event n); cbn; by rewrite IH. Qed.

(** What happens to a packet that is right: raw control blocks [W] are offered it, then
    it goes to UDP; [p] is its first buffer, [d] its bytes in it. *)
Definition udp_outcome (pd pw : memp_desc) (U : list (Z * udp_pcb)) (W : list (Z * raw_pcb)) (p : Z) (hs : list Z)
    (g : ip_globals) (inp : netif_in) (first : nat) (data : list Z) (st st' : ip_state) (notes : list inote) : Prop :=
  let bc := ip_addr_isbroadcast (current_iphdr_dest g) (current_netif g) in
  let os := omap (raw_offer g IP_PROTO_UDP bc p) W in
  (∃ W', raw_ok pw (i_raw st') W' ∧ W'.*1 = raw_order eats os W.*1) ∧
  if existsb eats os then
    List.filter is_ip_event notes = IOffer <$> until_eaten eats os ∧ i_udp st' = i_udp st ∧
    sound ar (i_s st') (p :: hs) ∧ ∃ l, packet (bufs (i_s st')) (i_m st) (Some p) l ∧ content l = data
  else
    let payload := drop (head_len data) data in
    let first := (first - head_len data)%nat in
    let fate := udp_fate g inp (u_store (i_udp st)) U first payload in
    List.filter is_ip_event notes = (IOffer <$> os) ++ (IUdp <$> fate_events g fate p (word_at 0 payload)) ∧
    (∃ U', udp_ok pd (i_udp st') U' ∧ U'.*1 = keys_after g inp U first payload) ∧
    only_links (u_store (i_udp st)) (u_store (i_udp st')) ∧
    match fate with
    | Handed _ _ _ => sound ar (i_s st') (p :: hs) ∧ stripped (i_s st') (i_m st) p payload
    | _ => sound ar (i_s st') hs
    end.

Lemma until_none os : existsb eats os = false → until_eaten eats os = os.
Proof.
  induction os as [|o os IH]; [done|]. cbn. intros [-> ?]%orb_false_iff. f_equal. by apply IH.
Qed.

Lemma ip4_local_ok pd pw U W p h d1 rest hs netif inp st :
  desc_ok pd → udp_ok pd (i_udp st) U → raw_ok pw (i_raw st) W → sound ar (i_s st) (p :: hs) →
  packet (bufs (i_s st)) (i_m st) (Some p) (Node p h d1 :: rest) →
  let data := d1 ++ content rest in
  (20 <= head_len data <= length d1)%nat → nth 0 data 0 / 16 = 4 → IPH_PROTO data = IP_PROTO_UDP →
  ∃ notes st', ip4_local self eats p (Z.of_nat (head_len data)) (IPH_SRC data) (IPH_DEST data) netif inp st = Ok (notes, st') ∧
    i_rs st' = set_rs_s (i_s st') (i_rs st) ∧
    udp_outcome pd pw U W p hs (ip_data_of inp netif data) inp (length d1) data st st' notes.
Proof.
  intros Hpd Hu Hw Hs Hp data Hhl Hv Hpr. unfold ip4_local.
  pose proof (packet_data_bytes _ _ _ _ Hp) as Hby. rewrite content_cons in Hby. cbn [n_data] in Hby. fold data in Hby.
  inversion Hp as [|a0 h0 s0 l0 Hh Hlen Hread Hb1 Htot Hmax Hrest]; subst.
  unfold buf_at at 1. rewrite Hh. cbn [oget mbind res_bind].
  pose proof (mread_sub _ _ _ _ 0 20 Hread ltac:(lia)) as Hrd. rewrite Z.add_0_r, drop_0 in Hrd. rewrite Hrd.
  cbn [mbind res_bind].
  assert (∀ i k, (i + k <= 20)%nat → hdr_field i k (take 20 d1) = hdr_field i k data) as Hf.
  { intros i k Hik. assert (take 20 d1 = take 20 data) as -> by (unfold data; rewrite take_app_le by lia; done).
    by apply hdr_field_take. }
  assert (IPH_PROTO (take 20 d1) = IPH_PROTO data) as -> by (unfold IPH_PROTO; apply Hf; lia).
  assert (IPH_HL_BYTES (take 20 d1) = Z.of_nat (head_len data)) as ->.
  { rewrite <- hl_bytes; [|done|unfold data; rewrite length_app; lia]. unfold IPH_HL_BYTES. by rewrite Hf by lia. }
  fold (ip_data_of inp netif data). set (g := ip_data_of inp netif data).
  assert (nth 0 (take 20 d1) 0 / 16 = 4) as Hv'.
  { rewrite <- Hv, <- !field_one; [by rewrite Hf by lia|unfold data; rewrite length_app; lia|rewrite length_take; lia]. }
  assert (raw_proto (take 20 d1) = IP_PROTO_UDP) as Hrp.
  { rewrite raw_proto_4 by (done || (rewrite length_take; lia)). unfold IPH_PROTO in *. by rewrite Hf by lia. }
  destruct (raw_input_spec g eats pw (i_raw st) W p (p_payload h) (i_m st) (take 20 d1) Hw) as (w' & W' & E & Hw' & HkW).
  { by rewrite length_take, Nat.min_l by lia. }
  { rewrite length_take. lia. }
  rewrite Hrp in E, HkW. rewrite E. clear E Hrp. cbn [mbind res_bind].
  set (os := omap _ W) in *. unfold raw_status. unfold udp_outcome. cbv zeta. fold os.
  assert (∃ W', raw_ok pw w' W' ∧ W'.*1 = raw_order eats os W.*1) as HW by by exists W'.
  destruct (existsb eats os) eqn:Eat.
  { exists (IOffer <$> until_eaten eats os), (set_i_raw w' st). split; [done|]. split; [by destruct st as [[]]|].
    split; [done|]. split; [apply offer_events|]. split; [done|]. split; [done|]. by eexists. }
  destruct (pbuf_remove_header_spec _ _ _ _ _ _ (head_len data) Hp ltac:(lia)) as (pb & h' & E & Hp' & _).
  assert (sound ar (set_bufs pb (i_s st)) (p :: hs)) as Hs' by (by apply (remove_header_sound ar _ p h _ _ _ _ Hh E)).
  destruct (udp_input_ok self g inp ar pd (i_udp st) U p h' (drop (head_len data) d1) rest (set_bufs pb (i_s st))
    (i_m st) hs Hpd Hao Hu Hs' Hp' Hpr) as (ns & u' & U' & s' & Eu & Hev & HU & HkU & Hol & Hfate);
    [by apply ip4_addr_ok, field_u32..|cbn; pose proof (head_len_val data Hby); unfold head_len; lia|].
  rewrite length_drop, <- drop_app_le in Hev, HkU, Hfate by lia. fold data in Hev, HkU, Hfate.
  assert (i_s (set_i_raw w' st) = i_s st) as -> by done. rewrite E. cbn [mbind res_bind]. unfold ip4_deliver.
  change (current_proto g) with (IPH_PROTO data). rewrite Hpr. 
  change (i_udp (set_i_s _ _)) with (i_udp st). change (i_s (set_i_s _ _)) with (set_bufs pb (i_s st)).
  change (i_m (set_i_s _ _)) with (i_m st). rewrite Eu. cbn [mbind res_bind].
  change (IP_PROTO_UDP =? IP_PROTO_UDP) with true. cbn [orb]. exists ((IOffer <$> until_eaten eats os) ++ IStat MInDelivers :: (IUdp <$> ns)),
    (set_i_udp u' (set_i_s s' (set_i_s (set_bufs pb (i_s st)) (set_i_raw w' st)))). split; [by destruct os|].
  split; [by destruct st as [[]]|]. split; [done|].
  rewrite List.filter_app, offer_events, until_none by done. cbn [List.filter is_ip_event]. rewrite udp_events, Hev.
  split; [done|]. split; [by exists U'|]. by split.
Qed.

(** A packet that goes nowhere. *)
Definition dropped (hs : list Z) (st st' : ip_state) (notes : list inote) : Prop :=
  List.filter is_ip_event notes = [] ∧ (∃ s', st' = set_i_s s' st) ∧ sound ar (i_s st') hs.

Lemma drop_dropped p cs st hs :
  sound ar (i_s st) (p :: hs) → ∃ notes st', ip_drop self p cs st = Ok (notes, st') ∧ dropped hs st st' notes.
Proof.
  intros Hs. destruct (ip_drop_ok p cs st hs Hs) as (s' & E & Hs'). exists (IStat <$> cs), (set_i_s s' st).
  split; [done|]. split; [apply no_events|]. split; [by exists s'|done].
Qed.

(** What becomes of a packet, with its header right. *)
Definition checked_outcome pd pw U W p hs inp first data st st' notes : Prop :=
  match ip_for_us netif_list igmp_groups inp data with
  | None => dropped hs st st' notes
  | Some netif => udp_outcome pd pw U W p hs (ip_data_of inp netif data) inp first data st st' notes
  end.

Lemma ip4_checked_ok pd pw U W p h d1 rest hs inp st :
  desc_ok pd → udp_ok pd (i_udp st) U → raw_ok pw (i_raw st) W → sound ar (i_s st) (p :: hs) →
  packet (bufs (i_s st)) (i_m st) (Some p) (Node p h d1 :: rest) →
  let data := d1 ++ content rest in
  (20 <= head_len data <= length d1)%nat → nth 0 data 0 / 16 = 4 → IPH_PROTO data = IP_PROTO_UDP →
  Z.land (IPH_OFFSET data) (lwip_htons (Z.lor IP_OFFMASK IP_MF)) = 0 →
  ∃ notes st', ip4_checked netif_list igmp_groups self eats p (Z.of_nat (head_len data)) inp (take 20 d1) st = Ok (notes, st') ∧
    checked_outcome pd pw U W p hs inp (length d1) data st st' notes.
Proof.
  intros Hpd Hu Hw Hs Hp data Hhl Hv Hpr Hof. unfold ip4_checked, checked_outcome, ip_for_us.
  assert (take 20 d1 = take 20 data) as -> by (unfold data; rewrite take_app_le by lia; done).
  unfold IPH_DEST, IPH_SRC, IPH_OFFSET in *. rewrite !hdr_field_take by lia. rewrite Hof.
  pose proof (input_netif_val netif_list igmp_groups (hdr_field 12 4 data) (hdr_field 16 4 data) inp) as Hi.
  destruct (input_netif _ _ _ _ _) as [netif check]. rewrite <- Hi. destruct (check && _); [by apply drop_dropped|].
  destruct netif as [netif|]; [|by apply drop_dropped].
  destruct (ip4_local_ok pd pw U W p h d1 rest hs netif inp st) as (notes & st' & E & _ & Ho); try done.
  by exists notes, st'.
Qed.

(** The packet cut to the length its header announces. *)
Lemma trim_ok p h d1 rest hs s m :
  sound ar s hs → packet (bufs s) m (Some p) (Node p h d1 :: rest) →
  let data := d1 ++ content rest in
  ((ip_len data < length data)%nat → Forall (λ n, not_heap (n_hdr n)) (Node p h d1 :: rest)) →
  ∃ s' h' rest', (if word_at 2 data <? p_tot_len h then pbuf_realloc self (Some p) (word_at 2 data) s else Ok s) = Ok s' ∧
    sound ar s' hs ∧ packet (bufs s') m (Some p) (Node p h' (take (ip_len data) d1) :: rest') ∧
    p_payload h' = p_payload h ∧ take (ip_len data) d1 ++ content rest' = arrived data.
Proof.
  intros Hs Hp data Hnh. pose proof (packet_data_bytes _ _ _ _ Hp) as Hby. rewrite content_cons in Hby.
  cbn [n_data] in Hby. fold data in Hby. pose proof (word_range 2 data Hby) as Hw.
  assert (p_tot_len h = Z.of_nat (length data)) as Htot by (inversion Hp; subst; done). rewrite Htot.
  unfold arrived. destruct (Z.ltb_spec (word_at 2 data) (Z.of_nat (length data))) as [Hlt|Hge].
  - destruct (pbuf_realloc_spec ar self s m p h d1 rest (word_at 2 data) hs Hao Hs Hp) as (s' & h' & rest' & E & Hs' & Hp' & Hpl & Hc & _);
      [apply Hnh; unfold ip_len; lia|lia|].
    exists s', h', rest'. split_and!; try done. rewrite Hc. unfold data. by rewrite take_app.
  - assert (length data <= ip_len data)%nat as Hl by (unfold ip_len; lia).
    assert (length d1 <= ip_len data)%nat by (unfold data in Hl; rewrite length_app in Hl; unfold data; lia).
    exists s, h, rest. rewrite !take_ge by done. by split_and!.
Qed.

Lemma inet_chksum_zero m a l :
  mread m a (length l) = Ok l → Forall is_byte l → Z.of_nat (length l) < 2 ^ 16 →
  ∃ c, inet_chksum m a (Z.of_nat (length l)) = Ok c ∧ (c =? 0) = (rfc_checksum l =? 0).
Proof.
  intros Hr Hl Hmx. destruct (inet_chksum_spec m a l Hr Hl Hmx) as (c & E & Hc). exists c. split; [done|].
  rewrite <- Hc. apply htons_zero. unfold inet_chksum in E. destruct (lwip_standard_chksum _ _ _) as [x|]; [|done].
  injection E as <-. by apply Z.mod_pos_bound.
Qed.

Lemma head_len_take n l : (1 <= n)%nat → head_len (take n l) = head_len l ∧ nth 0 (take n l) 0 = nth 0 l 0.
Proof. intros Hn. unfold head_len. by destruct n, l; try lia. Qed.

(** The rest of the function, for the packet [p] cut to [n] bytes. *)
Lemma ip4_trimmed_ok pd pw U W p h d1 rest hs inp st data (first : nat) :
  desc_ok pd → udp_ok pd (i_udp st) U → raw_ok pw (i_raw st) W → sound ar (i_s st) (p :: hs) →
  Forall is_byte data → (1 <= length data)%nat →
  packet (bufs (i_s st)) (i_m st) (Some p) (Node p h d1 :: rest) → d1 ++ content rest = arrived data →
  length d1 = (first `min` ip_len data)%nat →
  nth 0 data 0 / 16 = 4 → IPH_PROTO data = IP_PROTO_UDP →
  Z.land (IPH_OFFSET data) (lwip_htons (Z.lor IP_OFFMASK IP_MF)) = 0 →
  ∃ notes st',
    (if (p_len h <? Z.of_nat (head_len data)) || (p_tot_len h <? word_at 2 data) || (Z.of_nat (head_len data) <? IP_HLEN)
     then ip_drop self p [SLenErr; SDrop; MInDiscards] st
     else
       c ← inet_chksum (i_m st) (p_payload h) (Z.of_nat (head_len data));
       if negb (c =? 0) then ip_drop self p [SChkErr; SDrop; MInHdrErrors] st
       else
         hdr ← mread (i_m st) (p_payload h) 20;
         ip4_checked netif_list igmp_groups self eats p (Z.of_nat (head_len data)) inp hdr st) = Ok (notes, st') ∧
    if header_right first data then checked_outcome pd pw U W p hs inp (length d1) (arrived data) st st' notes
    else dropped hs st st' notes.
Proof.
  intros Hpd Hu Hw Hs Hby Hne Hp Hda Hd1 Hv Hpr Hof.
  inversion Hp as [|a0 h0 s0 l0 Hh Hlen Hread Hb1 Htot Hmax Hrest]; subst. rewrite Hda in Htot.
  pose proof (word_range 2 data Hby) as Hwr. pose proof (head_len_val data Hby) as Hhv.
  assert (length (arrived data) = (ip_len data `min` length data)%nat) as Hla by apply length_take.
  assert (word_at 2 data = Z.of_nat (ip_len data)) as Hwi by (unfold ip_len; lia).
  set (hl := head_len data) in *. set (n := ip_len data) in *. unfold IP_HLEN.
  assert ((p_len h <? Z.of_nat hl) || (p_tot_len h <? word_at 2 data) || (Z.of_nat hl <? 20)
    = negb ((20 <=? hl) && (hl <=? first `min` n) && (n <=? length data))%nat) as ->.
  { rewrite Htot, Hwi, Hla, Hlen. clearbody hl n. clear - Hd1.
    destruct (Nat.leb_spec 20 hl), (Nat.leb_spec hl (first `min` n)), (Nat.leb_spec n (length data)),
      (Z.ltb_spec (Z.of_nat (length d1)) (Z.of_nat hl)), (Z.ltb_spec (Z.of_nat (n `min` length data)) (Z.of_nat n)),
      (Z.ltb_spec (Z.of_nat hl) 20); done || lia. }
  unfold header_right. fold hl n. rewrite (proj2 (Z.eqb_eq _ _) Hv). cbn [andb].
  destruct (_ && _)%nat eqn:Eg; cbn [negb andb]; [|by apply drop_dropped].
  rewrite !andb_true_iff, !Nat.leb_le in Eg.
  assert (take hl (take hl d1) = take hl data) as Htk.
  { rewrite take_take, Nat.min_id. transitivity (take hl (arrived data)).
    - rewrite <- Hda, take_app_le by lia. done.
    - unfold arrived. rewrite take_take. f_equal. fold n. lia. }
  destruct (inet_chksum_zero (i_m st) (p_payload h) (take hl d1)) as (c & Ec & Hc);
    [|by apply Forall_take|rewrite length_take; lia|].
  { pose proof (mread_sub _ _ _ _ 0 hl Hread ltac:(lia)) as Hr. rewrite Z.add_0_r, drop_0 in Hr.
    by rewrite length_take, Nat.min_l by lia. }
  rewrite length_take, Nat.min_l in Ec by lia. rewrite Ec. cbn [mbind res_bind]. rewrite Hc.
  rewrite take_take, Nat.min_id in Htk. rewrite Htk.
  destruct (rfc_checksum (take hl data) =? 0); cbn [negb]; [|by apply drop_dropped].
  pose proof (mread_sub _ _ _ _ 0 20 Hread ltac:(lia)) as Hr. rewrite Z.add_0_r, drop_0 in Hr. rewrite Hr.
  cbn [mbind res_bind]. destruct (head_len_take n data ltac:(lia)) as [Ehl E0]. change (take n data) with (arrived data) in Ehl, E0.
  destruct (ip4_checked_ok pd pw U W p h d1 rest hs inp st Hpd Hu Hw Hs Hp) as (notes & st' & E & Ho); rewrite ?Hda, ?Ehl, ?E0.
  { fold hl. lia. }
  { done. }
  { unfold arrived, IPH_PROTO. by rewrite hdr_field_take by lia. }
  { unfold arrived, IPH_OFFSET. by rewrite hdr_field_take by lia. }
  rewrite Hda, Ehl in E. rewrite Hda in Ho. by exists notes, st'.
Qed.

End parts.

(** ** Theorem *)

(** C8 (functional).  A packet of any bytes, at least four of them in its first buffer, whose
    header says UDP and no fragment (and, if there is something to cut off, no buffer
    of which is from the heap).  It is lost, and all its buffers are released, unless it has
    version 4, a header of at least 20 bytes in its first buffer, at least as many bytes
    as the header announces, a right header checksum (RFC 1071) and an interface that wants
    it: for a multicast address the one it came from, if that has joined the group;
    otherwise the one it came from or the first other one that is up and has its
    destination as its address or as a broadcast address.  It is also lost if it pretends
    to come from a broadcast or multicast address (0.0.0.0 may ask all systems).
    What comes behind the announced length is cut off; raw control blocks are offered
    the packet, and if none takes it, UDP hands the bytes behind both headers to the control
    block they are for, with the addresses of the header. *)
Theorem ip4_udp_delivered `{Platform} netif_list igmp_groups self eats ar pd pw U W p h d1 rest hs inp st :
  arena_ok ar → desc_ok pd → udp_ok pd (i_udp st) U → raw_ok pw (i_raw st) W → sound ar (i_s st) (p :: hs) →
  packet (bufs (i_s st)) (i_m st) (Some p) (Node p h d1 :: rest) → (4 <= length d1)%nat →
  let data := d1 ++ content rest in
  ((ip_len data < length data)%nat → Forall (λ n, not_heap (n_hdr n)) (Node p h d1 :: rest)) →
  Z.land (IPH_OFFSET data) (lwip_htons (Z.lor IP_OFFMASK IP_MF)) = 0 → IPH_PROTO data = IP_PROTO_UDP →
  ∃ notes st', ip4_input netif_list igmp_groups self eats p inp st = Ok (notes, st') ∧
    match ip_accepts netif_list igmp_groups inp (length d1) data with
    | None => dropped ar hs st st' notes
    | Some netif =>
        udp_outcome eats ar pd pw U W p hs (ip_data_of inp netif (arrived data)) inp (length d1 `min` ip_len data)%nat
          (arrived data) st st' notes
    end.
Proof.
  intros Hao Hpd Hu Hw Hs Hp H4 data Hnh Hof Hpr. unfold ip4_input, ip_accepts.
  pose proof (packet_data_bytes _ _ _ _ Hp) as Hby. rewrite content_cons in Hby. cbn [n_data] in Hby. fold data in Hby.
  inversion Hp as [|a0 h0 s0 l0 Hh Hlen Hread Hb1 Htot Hmax Hrest]; subst.
  assert (∀ k, (k <= 4)%nat → mread (i_m st) (p_payload h) k = Ok (take k data)) as Hrd.
  { intros k Hk. pose proof (mread_sub _ _ _ _ 0 k Hread ltac:(lia)) as Hr. rewrite Z.add_0_r, drop_0 in Hr.
    rewrite Hr. unfold data. by rewrite take_app_le by lia. }
  assert (1 <= length data)%nat as Hne by (unfold data; rewrite length_app; lia).
  unfold buf_at. rewrite Hh. cbn [oget mbind res_bind]. rewrite !Hrd by lia. cbn [mbind res_bind].
  unfold IPH_V. rewrite hdr_field_take by lia. fold (IPH_V data). rewrite version_val by done.
  destruct (Z.eqb_spec (nth 0 data 0 / 16) 4) as [Hv|Hv]; cbn [negb].
  2:{ unfold header_right. rewrite (proj2 (Z.eqb_neq _ _) Hv). cbn [andb].
      destruct (drop_dropped self ar Hao p [SErr; SDrop; MInHdrErrors] st hs Hs) as (notes & st' & -> & Hd). by eexists _, _. }
  unfold IPH_HL_BYTES, IPH_LEN. rewrite !hdr_field_take by lia.
  fold (IPH_HL_BYTES data). rewrite hl_bytes, field_word by (done || unfold data; rewrite length_app; lia).
  destruct (trim_ok self ar Hao p h d1 rest (p :: hs) (i_s st) (i_m st) Hs Hp Hnh) as (s' & h' & rest' & E & Hs' & Hp' & Hpl & Hc).
  fold data in E, Hp', Hc. rewrite E. cbn [mbind res_bind].
  assert (bufs s' !! p = Some h') as Hh' by (inversion Hp'; subst; done).
  change (bufs (i_s (set_i_s s' st))) with (bufs s'). rewrite Hh'. cbn [oget mbind res_bind].
  destruct (ip4_trimmed_ok netif_list igmp_groups self eats ar Hao pd pw U W p h' (take (ip_len data) d1) rest' hs inp (set_i_s s' st) data (length d1))
    as (notes & st' & Et & Ho); try done; [by rewrite length_take, Nat.min_comm|].
  exists (IStat SRecv :: IStat MInReceives :: notes), st'. split; [exact (f_equal (with_notes [IStat SRecv; IStat MInReceives]) Et)|]. revert Ho. unfold checked_outcome. rewrite length_take, (Nat.min_comm (ip_len data)).
  destruct (header_right _ _); [destruct (ip_for_us _ _ _ _); [done|]|]; intros (Hn & [s2 ->] & Hso);
    (split; [done|]; split; [by exists s2|done]).
Qed.


(** ** A packet from 10.0.0.1 for port 53, with two bytes too many *)

Definition demo_dgram : list Z :=
  [69; 0; 0; 32; 0; 1; 0; 0; 64; 17; 102; 202; 10; 0; 0; 1; 10; 0; 0; 2] ++ demo_seg ++ [0; 0].
Definition demo_imem : gmap Z Z := list_to_map (zip (seqZ 20584 34) demo_dgram).
Definition demo_up : netif_in := NetifIn 0 (Netif4 3 0x0200000a 0x00ffffff) [].
Definition demo_istate (s : pbufs) (u : udp) : ip_state :=
  IpState (Reass s demo_imem ∅ None 0 (memp_init_pool demo_upd) []) u (raw_boot demo_upd).

Definition demo_ibufs : option pbufs :=
  match mem_init 4096 true with
  | Ok hp =>
      match @lrun linux64 demo_arena [LAlloc 1 true 0 34 PBUF_POOL] (pbufs_init demo_arena hp ∅) [] with
      | Some (Ok (ps, _)) => Some ps
      | _ => None
      end
  | Fault _ => None
  end.

Definition demo_ibuf : pbuf := Pbuf None 20584 34 34 130 0 1 0.

Lemma demo_ibufs_ok :
  ∃ s, demo_ibufs = Some s ∧ sound demo_arena s [20560] ∧
    packet (bufs s) demo_imem (Some 20560) [Node 20560 demo_ibuf demo_dgram].
Proof.
  unfold demo_ibufs. destruct (mem_init_inv 4096) as (hp & Ei & Hram & HI). rewrite Ei.
  vm_compute in Ei. injection Ei as <-.
  destruct (@lrun _ _ _ _ _) as [r|] eqn:Er; [|by vm_compute in Er].
  destruct (@lrun_sound linux64 demo_arena demo_arena_ok _ _ _ _ (pbufs_init_sound demo_arena _ ∅ demo_arena_ok Hram HI) Er)
    as (ps & hs & -> & Hs).
  assert (hs = [20560]) as -> by (vm_compute in Er; by injection Er as _ <-).
  eexists. split; [reflexivity|]. split; [exact Hs|].
  assert (bufs ps !! 20560 = Some demo_ibuf) as Hb by (vm_compute in Er; by injection Er as <-).
  constructor; try done; try (by vm_compute); [|constructor].
  apply (bool_decide_unpack _). vm_compute. exact I.
Qed.

Lemma ip4_udp_delivered_witness :
  ∃ s u notes st', @ip4_input [] (λ _, []) linux64 1 (λ _, false) 20560 demo_up (demo_istate s u) = Ok (notes, st') ∧
    List.filter is_ip_event notes = [IUdp (UCall 7 8 50448 20560 (v4 0x0100000a) 1234)] ∧
    sound demo_arena (i_s st') [20560] ∧ stripped (i_s st') demo_imem 20560 demo_seg.
Proof.
  destruct demo_socket_ok as (u & Eu & Hu). destruct demo_ibufs_ok as (s & Es & Hs & Hp). exists s, u.
  assert (desc_ok demo_upd) as Hpd by (split; [done|]; split; [done|]; vm_compute; done).
  destruct (@ip4_udp_delivered linux64 [] (λ _, []) 1 (λ _, false) demo_arena demo_upd demo_upd [(50448, demo_upcb)] []
    20560 demo_ibuf demo_dgram [] [] demo_up (demo_istate s u)) as (notes & st' & E & Ho); try done.
  - exact demo_arena_ok.
  - by apply raw_boot_ok.
  - vm_compute. lia.
  - intros _. by repeat constructor.
  - change (demo_dgram ++ content []) with demo_dgram in Ho. exists notes, st'. split; [exact E|].
    assert (ip_accepts [] (λ _, []) demo_up 34 demo_dgram = Some demo_up) as Ea by by vm_compute.
    change (length demo_dgram) with 34%nat in Ho. rewrite Ea in Ho. destruct Ho as (_ & Hev & _ & _ & Hf).
    assert (udp_fate (ip_data_of demo_up demo_up (arrived demo_dgram)) demo_up (u_store u) [(50448, demo_upcb)] 12 demo_seg
      = Handed 7 8 50448) as Ef by (vm_compute in Eu; injection Eu as <-; by vm_compute).
    change (34 `min` ip_len demo_dgram - head_len (arrived demo_dgram))%nat with 12%nat in Hev, Hf.
    change (drop (head_len (arrived demo_dgram)) (arrived demo_dgram)) with demo_seg in Hev, Hf.
    change (u_store (i_udp (demo_istate s u))) with (u_store u) in Hev, Hf. rewrite Ef in Hev, Hf. split; [exact Hev|exact Hf].
Defined.
